(* ===== verification/_CoqProject ===== *)
-Q . S2P
Prelude.v
StateError.v
GoSort.v
GoHeap.v
Rlp.v
RlpStream.v
Crypto.v
TrieKeys.v
TrieSpec.v
TrieNode.v
TrieExpand.v
Trie.v
TrieSim.v
TrieCommit.v
TrieTheorems.v
TrieProof.v
StackTrie.v
StackLaws.v
StackTheorems.v
ChainConfig.v
BlockFees.v
TxTypes.v
Signers.v
SortedMap.v
LegacyList.v
LegacyPriced.v
ParallelList.v
PoolParts.v
StateInterface.v
ParallelPool.v
PoolBatches.v
PoolInvariant.v
PoolExecution.v
PoolAdmission.v
PoolTheorems.v
BatchExec.v
ParallelAPI.v
ProtoList.v
ProtoPool.v
GasRules.v
VMInterface.v
StateTransition.v
TransitionTheorems.v
AccessList.v
StateTypes.v
StateDB.v
StateEquiv.v
StateRevert.v
StateSnapshot.v
StateFinalise.v
VMInstance.v
EvmCode.v
EvmBase.v
EvmState.v
EvmFrame.v
EvmOps.v
EvmGas.v
EvmTable.v
EvmRun.v
EvmMemory.v
EvmWp.v
EvmInstr.v
EvmGasLaws.v
EvmStep.v
EvmTheorems.v
TxValidation.v
TxPool.v
LegacyPool.v
LegacyInv.v
LegacyMoves.v
LegacyAdd.v
LegacyLimits.v
LegacyTheorems.v
PoolStack.v
BatchExecutor.v
MinerOrdering.v
Receipts.v
Consensus.v
StateProcessor.v
BlockBuilder.v
