(* ===== verification/Prelude.v ===== *)
(** * Verification of the eigengames client: pools, tries, fees and state

    The repository adds a pool for transactions that may be executed in parallel
    to a copy of go-ethereum.  This development models the Go code that decides
    what happens to such a transaction, and the parts of the client it stands
    on: the encoding, the trie with its proofs, the chain's configuration and its
    fees, the transactions and their signatures, the pools, the application of a
    message to the state, the virtual machine, the state database with its
    journal, and the building, processing and checking of a block.  "client" below is src/parallelizable-client-go-ethereum.

    ** Parts, from the bottom

    - Go itself.  This file has the values (addresses and hashes as numbers, the
      zero value being 0; slices as lists; [uint64] and [uint256] as [Z] with
      their wrap-around written out), results that may be errors, and the
      lemmas, tactics and hints that the components share.  StateError.v is the
      monad of the methods that change their receiver and may fail.  GoSort.v has
      the contracts of [sort.Slice], [sort.SliceStable] and [range] over a map,
      as classes: no theorem depends on the algorithm or on the order.  GoHeap.v
      has [container/heap] with the swaps it does.
    - RLP (client rlp).  Rlp.v: the raw splitter and the encoder's buffer (raw.go,
      encode.go, encbuffer.go); RlpStream.v: the decoding stream (decode.go).
    - The Merkle Patricia trie (client trie).  TrieKeys.v: encoding.go; TrieNode.v:
      the nodes, their encoding and their hashes (node.go, node_enc.go,
      hasher.go); Trie.v: the reader, the tracer, the operations and the commit
      (trie_reader.go, tracer.go, trie.go, committer.go).  TrieSpec.v is the tree
      a trie stands for, without database or caches, and TrieExpand.v the
      relation between the two.  TrieProof.v: Merkle proofs (proof.go);
      StackTrie.v: the trie for ordered keys and the hash of a list
      (stacktrie.go, core/types/hashing.go).  Crypto.v: the hash function and the
      addresses of created contracts (client crypto).
    - Configuration and fees.  ChainConfig.v: params/config.go; BlockFees.v: the
      header's gas limit, base fee and blob gas (consensus/misc).
    - Transactions.  TxTypes.v: the six types (client core/types/tx_*.go and
      src/core/types/tx_parallel.go), [Transaction] and the dispatch over the
      types (transaction.go).  Signers.v: what each signer hashes, recovers and
      accepts (transaction_signing.go), the sender cache, [LatestSigner].
    - The legacy pool's data (client core/txpool/legacypool).  SortedMap.v and
      LegacyList.v: the lists of an account (list.go) and the nonces (noncer.go);
      LegacyPriced.v: the lookup table and the price heaps.
    - The legacy pool and the coordinator (client core/txpool).  TxValidation.v:
      what every pool asks of a transaction (validation.go, errors.go); TxPool.v:
      the interface of a pool (subpool.go), the reservations, the coordinator and
      the loop that follows the head (txpool.go); LegacyPool.v: the pool
      (legacypool/legacypool.go), a record, with one step per method that holds
      its lock, in the monad of StateError.v; [launch_run] is a turn of the
      scheduler, [evict] a tick of its timer.  PoolStack.v makes the pool an
      instance of the interface.
    - The miner (client miner).  BatchExecutor.v: the executor of batches
      (batch_executor.go), its goroutines a step relation on a store of states, to
      which they hold references; MinerOrdering.v: the
      order in which a block takes the pending transactions (ordering.go);
      BlockBuilder.v: how a block is prepared, filled and assembled (worker.go).
    - The parallel pool (client core/txpool/parallelpool).  ParallelList.v is
      list.go; PoolParts.v the journal, the local accounts, the lookup table
      and the price list; StateInterface.v what a pool asks of a state;
      ParallelPool.v the pool, a record, with one function per method of
      parallelpool.go; ParallelAPI.v is api.go.  BatchExec.v has the goroutines
      of [ExecuteBatch], its semaphore, its channel and the loop that takes what
      succeeded out of the pool as a step relation.
    - The first version of the pool (src/core/txpool/parallelpool): ProtoList.v
      and ProtoPool.v.
    - Messages.  GasRules.v: core/gaspool.go and the price of a transaction
      before it runs; VMInterface.v: the part of vm.StateDB that is used;
      StateTransition.v: core/state_transition.go, in a monad that returns,
      fails or panics.
    - The virtual machine (client core/vm).  EvmCode.v: which bytes of a contract
      are instructions (analysis_legacy.go); EvmBase.v: errors, memory and its
      fee (errors.go, memory.go, common.go, gas.go); EvmState.v: the interface
      of the state with the laws that it promises, and tables that keep them;
      EvmFrame.v: stack, contracts and gas (stack.go, contract.go), and the
      machine that a frame runs on; EvmOps.v: what each instruction does
      (instructions.go, memory_table.go, eips.go); EvmGas.v: what it costs
      (gas_table.go, operations_acl.go); EvmTable.v: the instruction sets of the
      forks (jump_table.go, stack_table.go, eips.go); EvmRun.v: the interpreter,
      the calls and the creations (interpreter.go, evm.go).
    - The state database (client core/state).  AccessList.v: access_list.go and
      transient_storage.go; StateTypes.v: the data and journal.go; StateDB.v:
      statedb.go and state_object.go.

    - Blocks.  Receipts.v: receipts, their encoding and the bloom filters (client
      core/types receipt.go, bloom9.go); Consensus.v: blocks (core/types/block.go),
      the engine after the merge over the one before it
      (consensus/beacon/consensus.go) and the checks of a block
      (core/block_validator.go); StateProcessor.v: the transactions of a block and
      the calls of the system around them (core/state_processor.go, core/evm.go,
      core/types/deposit.go).

    A trie is stored through the encoding.  A pool calls the signers to find a
    sender and the state to check a nonce and a balance; executing a batch copies
    a state; a message is made of a transaction and applied to a state.  The
    clients are proved against interfaces (StateInterface.v, VMInterface.v), and
    StateSnapshot.v and VMInstance.v show that the state database satisfies both.
    The virtual machine is proved against the interface of EvmState.v,
    blocks against [TxState] and [Machine] with the laws [BlockLaws], of which
    BlockBuilder.v has an instance. The miner and the validator share the functions
    of StateProcessor.v and Consensus.v, and its last theorem is about both.

    ** What is proved

    - Rlp.v, RlpStream.v: a value has one encoding, the splitter and the stream
      accept exactly that one, and the encoder's buffer writes it.
    - TrieSpec.v, TrieSim.v: whatever has been loaded, the operations
      of a trie are those of a finite map, and do not fail when the database
      holds the nodes.  TrieCommit.v: a database that takes a committed node set
      holds the trie at its new root.  The same file: of two different contents with one
      root hash, a node of each collide: two encodings with one hash.  TrieTheorems.v gathers them; it also shows what a failed
      deletion leaves in the tracer.  TrieProof.v: proofs are complete, and sound
      unless a node of the proof and a node of the trie collide.  StackLaws.v and StackTheorems.v: a stack trie has the
      hash and the nodes of the trie, and the hash of a list binds the list.
    - ChainConfig.v: an ordered configuration has nested forks, a compatible one
      keeps the past.  BlockFees.v: the bounds of the base fee, and exactly which
      headers are accepted.
    - SortedMap.v, LegacyList.v, LegacyPriced.v: the map, its heap and its cache
      stand for one sorted slice, and every method is a function of it; nothing
      panics; filtering, readiness and eviction on every branch.
    - LegacyInv.v has the invariant of the legacy pool, with the slack that a
      method may have while it runs, and LegacyMoves.v, LegacyAdd.v
      and LegacyLimits.v prove each method against it
      with the preconditions of StateError.v.  LegacyTheorems.v: no sequence of
      operations panics or leaves the table, the lists, the price heaps and the
      reservations apart; a run ends within the limits; what adding, raising the
      tip, [Pending] and a reorganisation of the chain do.
    - TxPool.v: the loop of the coordinator misses no head and comes to rest, and
      which callers of [Sync] it answers: not those that a later one replaced.
      PoolStack.v: a pool that keeps the contract [PoolLaws] takes up and gives
      up accounts by what [reserver] answers; over such pools the coordinator
      answers for every transaction and no account is in two pools; the legacy
      pool keeps the contract.
    - PoolBatches.v, PoolInvariant.v, PoolExecution.v, PoolAdmission.v and
      PoolTheorems.v: in every reachable state the lists are within the table and
      the table within the price list, which is the table when nothing is offered
      twice;
      the batches partition the parallelizable transactions; admission,
      validation, removal and [Pending] on every branch; executing a batch does
      not depend on the order in which its transactions complete.  Also what
      the pool does not do: with the signers there are, it admits nothing; at
      most one transaction per account is pending; an executed batch stays.
    - BatchExec.v: a batch terminates, without deadlock, and leaves the pool that the
      sequential function leaves.
    - Signers.v: signing and recovering is a round trip, the cache never changes
      an answer, a newer signer agrees with an older one.
    - TransitionTheorems.v: the gas of a message adds up, its fees are
      conserved, the sender is never overdrawn, nothing panics, and an EIP-7702
      authorization cannot be replayed.
    - EvmWp.v: a calculus for the frame's monad.  EvmMemory.v,
      EvmGasLaws.v: memory, its fee and the gas of a call.  EvmInstr.v:
      every instruction keeps the types of its frame, takes and
      puts what its entry says and writes no state in a static frame.  EvmStep.v:
      a turn of the interpreter, a run, and the fuel it needs.  EvmTheorems.v:
      every entry of every set suits its instruction; calls return, keep the types, revert when they fail, and do
      not write when they are static; jumps land on instructions.
    - StateEquiv.v defines when two states read the same, and with StateRevert.v
      and StateSnapshot.v that a revert undoes every operation since
      the snapshot, when the code of an account is read before it is replaced and
      only absent accounts are created (the EVM does both; the class of states of
      EvmState.v asks for the revert without these conditions, as
      [RevertToSnapshot] documents it); StateFinalise.v what the end of a transaction does.
    - BatchExecutor.v: the goroutines of a batch cannot disturb each other, since
      each has its copy; for transactions that name different accounts, where the
      parallel batch agrees with the sequential one and where not (a failed run
      keeps its gas in order only); and for a shared recipient a payment is lost.
      MinerOrdering.v: the set of transactions stands for a slice per account, it
      always shows a best first transaction, and leaves none out.
    - Receipts.v: a bloom filter never hides a log.  Consensus.v: a new block passes
      the checks of its body, the gas limit of the miner is accepted, and exactly
      which headers are.  StateProcessor.v: applying a message, a transaction or a
      system call to states that cannot be told apart gives the same result and
      such states again; the ancestor hashes of the machine do not depend on their
      cache.  BlockBuilder.v: what the miner fills into a block can be
      processed with the same receipts, and the block that it builds passes every
      check of a validator.
    - ProtoList.v, ProtoPool.v: the cache of the list is faithful; nothing in
      that pool is ever processable, and a replacement is lost to its table.

    A theorem that is a property of the code has its number in its comment, and,
    when it has hypotheses, an application at a concrete input next to it or at
    the end of a file, named after it.

    ** Modelling choices

    Maps are [gmap]; a nil pointer is [None]; a Go error is a constructor and a
    panic is [None], [Panic] or an error of its own.  Locks are not modelled,
    except where the code is concurrent on purpose (BatchExec.v, BatchExecutor.v).  Metrics, logs
    and tracing hooks are left out, and the event feed is the list of what was
    sent.

    Loops and recursions that are not structural have fuel, and a theorem says
    that what they are given is enough: the length of a slice for its searches
    and heaps ([search_spec] in StateTypes.v, the heap lemmas of GoHeap.v), the
    elements of a map or heap for the loops of the legacy lists, the length of
    the input for the RLP decoders, twice the length of the key and two for the
    operations of a trie (TrieSim.v) and for its proofs, the length of the key for
    the verification of a proof, the length of a blob for decoding a node, more
    turns than there is gas for a call ([call_returns], [call_fuel_irrelevant]),
    the length of the queue for [isGapped] ([isGapped_exact]), the number of the
    block for the search of an ancestor ([lost_txs_exact]), the length of the
    longest list for the truncation of the pending ones ([truncatePending_wp]),
    the transactions of both sets for the loop that fills a block
    ([commit_loop_built]), the distance to the block for [GetHashFn]
    ([hash_loop_spec]),
    [exp_fuel] for the blob price ([fakeExponential_spec]) and the number of forks
    for [CheckCompatible] ([CheckCompatible_terminates]).

    Parameters stand for what the repository does not contain or what is below the
    modelled layers: the hash functions, of which the trie needs only that they give
    32 bytes (class [Keccak]), the node database (type [NodeReader]), the encoding
    that a signer hashes, recovery of public keys, the storage reader under the
    state database, the chain's states, for StateTransition.v the virtual machine
    (assumed not to return more gas than it is given), for the virtual machine the
    words of the library uint256 (class [Uint256]), the precompiled contracts and
    the flag that aborts it, the clock that names batches and the one of the legacy
    pool (class [Clock]), its chain, the hashes of headers and codes, the proofs of
    blobs, the run of a message on the state of a batch (classes [Messages] and
    [BatchState]: the file calls what no file defines), the run of the machine in a block
    (class [Machine]), the engine before the merge, the hashes of blocks (class
    [BlockHashes]), the chain below a header (class [HeaderReader]), the addresses
    of the deposits and of the DAO, and [GetParallelTxData] and the exported lookup table of the first pool,
    which no file defines. The pool theorems assume, where they say so, that the
    submitted transactions have distinct hashes; those of the legacy pool, that they
    belong to a [universe] in which a hash is one transaction and the fields have
    their types, that no account has 2^192 ([modest]), so that the cost of a list
    fits a word, and that heads are whole ([headed]). The theorem about built blocks names what it
    needs of the configuration, the parent and the parameters ([work_ok]) and of what
    the pool answers ([pool_sound]); in particular it is about chains without Verkle,
    where the miner and the validator differ. Two panics of the virtual
    machine are excused by name: [RefundPanic], of a state whose refund counter is
    below what an instruction takes from it, and [AnalysisPanic], of a code whose
    analysis was cached under the hash of another one.

    Not modelled: the encoders that reflection builds for Go types and the JSON
    forms; iterators, range proofs and the sync of tries; hashing and committing the
    state; the bodies of precompiled contracts, EIP-4762, EOF and the EIPs that a
    configuration of the interpreter may add; the import of blocks into the database
    and its reorganisation (core/blockchain.go); the witness of a block, the payloads
    of the miner that are improved in the background, the engines before the merge and
    batches of headers; the blob pool, with its file store; the channels by which a caller waits for the pool's scheduler;
    the network and the commands of the client; and the services and contracts of
    the repository that are not Go. *)

From stdpp Require Export base tactics option list gmap sorting strings fin_maps.
From Stdlib Require Export ZArith Lia.

Declare Scope eigen_scope.
Delimit Scope eigen_scope with eigen.
Open Scope Z_scope.

(** ** Go values *)

(** [common.Address] and [common.Hash] are fixed-size byte arrays; they are
    read here as big-endian numbers, so that the zero value of the Go type is
    [0] and comparison of arrays is equality. *)
Abbreviation Address := Z (only parsing).
Abbreviation Hash := Z (only parsing).

(** A slice of bytes; each element is in [0, 256). *)
Abbreviation bytes := (list Z) (only parsing).

(** Machine integers: a [uint64] is a [Z] in [0, 2^64) and the arithmetic of
    the code wraps around. *)
Definition two64 : Z := 18446744073709551616.
Definition max_uint64 : Z := two64 - 1.
Definition wrap64 (z : Z) : Z := z mod two64.
Definition is_uint64 (z : Z) : Prop := 0 <= z < two64.
Definition two256 : Z := Eval cbv in 2 ^ 256.
Definition wrap256 (z : Z) : Z := z mod two256.
Definition is_uint256 (z : Z) : Prop := 0 <= z < two256.

(** [len] of a slice. *)
Definition len {A} (l : list A) : Z := Z.of_nat (length l).

(** ** Results: a Go function returning [(T, error)] *)
Inductive result (E A : Type) : Type :=
  | Ok (a : A)
  | Err (e : E).
Arguments Ok {E A} a.
Arguments Err {E A} e.

Definition result_bind {E A B} (m : result E A) (f : A → result E B) : result E B :=
  match m with
  | Ok a => f a
  | Err e => Err e
  end.

Definition is_ok {E A} (m : result E A) : bool :=
  match m with Ok _ => true | Err _ => false end.

Notation "'let*' x := m 'in' k" := (result_bind m (λ x, k))
  (at level 10, x pattern, m at level 100, k at level 200) : eigen_scope.

(** [a.Cmp(b)] of [big.Int] and [uint256.Int]. *)
Definition Cmp (a b : Z) : Z :=
  match a ?= b with Lt => -1 | Eq => 0 | Gt => 1 end.

(** [x.BitLen()] of a [big.Int]: the bits of the absolute value. *)
Definition BitLen (z : Z) : Z :=
  if z =? 0 then 0 else Z.log2 (Z.abs z) + 1.

(** Big-endian bytes: [new(big.Int).SetBytes(b)] and its inverse on [n] bytes
    (left-padded, as [copy(buf[n-len(b):n], x.Bytes())] leaves them). *)
Definition be_decode (b : bytes) : Z := fold_left (λ acc x, acc * 256 + x) b 0.

Fixpoint le_encode (n : nat) (z : Z) : bytes :=
  match n with
  | O => []
  | S n => z mod 256 :: le_encode n (z / 256)
  end.

Definition be_encode (n : nat) (z : Z) : bytes := rev (le_encode n z).

Definition is_byte (z : Z) : Prop := 0 <= z < 256.

(** ** Tactics of the development *)

(** [inv H] inverts [H] and substitutes the equations it gives. *)
Ltac inv H := inversion H; clear H; simplify_eq/=.

(** Unfold the machine-integer bounds and finish with [lia]. *)
Ltac ulia :=
  unfold is_uint64, is_uint256, max_uint64, two64, two256 in *; lia.

(** Split every boolean test that occurs in the goal or in [H], with its
    arithmetic meaning as a hypothesis. *)
Ltac split_ifs :=
  repeat match goal with
  | |- context [if ?a <? ?b then _ else _] => destruct (Z.ltb_spec a b)
  | |- context [if ?a <=? ?b then _ else _] => destruct (Z.leb_spec a b)
  | |- context [if ?a =? ?b then _ else _] => destruct (Z.eqb_spec a b)
  | |- context [if ?a >? ?b then _ else _] => rewrite (Z.gtb_ltb a b)
  | |- context [if ?a >=? ?b then _ else _] => rewrite (Z.geb_leb a b)
  end.

Ltac split_ifs_in H :=
  repeat match type of H with
  | context [if ?a <? ?b then _ else _] => destruct (Z.ltb_spec a b)
  | context [if ?a <=? ?b then _ else _] => destruct (Z.leb_spec a b)
  | context [if ?a =? ?b then _ else _] => destruct (Z.eqb_spec a b)
  | context [if ?a >? ?b then _ else _] => rewrite (Z.gtb_ltb a b) in H
  | context [if ?a >=? ?b then _ else _] => rewrite (Z.geb_leb a b) in H
  end.

(** ** Machine integers *)

Lemma wrap64_id z : is_uint64 z → wrap64 z = z.
Proof. intros H. apply Z.mod_small. exact H. Qed.

Lemma wrap64_range z : is_uint64 (wrap64 z).
Proof. apply Z.mod_pos_bound. reflexivity. Qed.

Lemma wrap256_id z : is_uint256 z → wrap256 z = z.
Proof. intros H. apply Z.mod_small. exact H. Qed.

Lemma wrap256_range z : is_uint256 (wrap256 z).
Proof. apply Z.mod_pos_bound. reflexivity. Qed.

(** ** Comparison *)

Lemma Cmp_neg a b : Cmp a b < 0 ↔ a < b.
Proof. unfold Cmp. destruct (Z.compare_spec a b); lia. Qed.

Lemma Cmp_pos a b : 0 < Cmp a b ↔ b < a.
Proof. unfold Cmp. destruct (Z.compare_spec a b); lia. Qed.

Lemma Cmp_zero a b : Cmp a b = 0 ↔ a = b.
Proof. unfold Cmp. destruct (Z.compare_spec a b); lia. Qed.

Lemma Cmp_ltb a b : (Cmp a b <? 0) = (a <? b).
Proof. unfold Cmp. destruct (Z.compare_spec a b); lia. Qed.

Lemma Cmp_gtb a b : (0 <? Cmp a b) = (b <? a).
Proof. unfold Cmp. destruct (Z.compare_spec a b); lia. Qed.

Lemma Cmp_geb a b : (0 <=? Cmp a b) = (b <=? a).
Proof. unfold Cmp. destruct (Z.compare_spec a b); lia. Qed.

Lemma Cmp_leb a b : (Cmp a b <=? 0) = (a <=? b).
Proof. unfold Cmp. destruct (Z.compare_spec a b); lia. Qed.

Lemma BitLen_le z n : 0 <= z → 0 <= n → BitLen z <= n ↔ z < 2 ^ n.
Proof.
  intros Hz Hn. unfold BitLen. destruct (Z.eqb_spec z 0) as [->|Hnz].
  - pose proof (Z.pow_pos_nonneg 2 n). lia.
  - rewrite Z.abs_eq by lia. split.
    + intros H. apply Z.log2_lt_pow2; lia.
    + intros H. apply Z.log2_lt_pow2 in H; lia.
Qed.

(** ** Lengths *)

Lemma len_nonneg {A} (l : list A) : 0 <= len l.
Proof. unfold len. lia. Qed.

Lemma len_nil {A} : len (@nil A) = 0.
Proof. reflexivity. Qed.

Lemma len_cons {A} (x : A) l : len (x :: l) = 1 + len l.
Proof. unfold len. simpl. lia. Qed.

Lemma len_app {A} (l k : list A) : len (l ++ k) = len l + len k.
Proof. unfold len. rewrite length_app. lia. Qed.

Lemma len_zero_iff {A} (l : list A) : len l = 0 ↔ l = [].
Proof. unfold len. destruct l; simpl; split; intros; try done; lia. Qed.

Lemma len_perm {A} (l k : list A) : l ≡ₚ k → len l = len k.
Proof. intros H. unfold len. by rewrite H. Qed.

Lemma len_rev {A} (l : list A) : len (rev l) = len l.
Proof. unfold len. by rewrite length_rev. Qed.

Lemma to_nat_len {A} (l : list A) : Z.to_nat (len l) = length l.
Proof. apply Nat2Z.id. Qed.

Lemma elem_of_take_inv {A} (x : A) n l : x ∈ take n l → x ∈ l.
Proof. intros Hx. rewrite <- (take_drop n l). apply elem_of_app. by left. Qed.

Lemma elem_of_drop_inv {A} (x : A) n l : x ∈ drop n l → x ∈ l.
Proof. intros Hx. rewrite <- (take_drop n l). apply elem_of_app. by right. Qed.

(** ** Big-endian bytes *)

Fixpoint le_decode (b : bytes) : Z :=
  match b with
  | [] => 0
  | x :: b => x + 256 * le_decode b
  end.

Lemma be_decode_snoc b x : be_decode (b ++ [x]) = be_decode b * 256 + x.
Proof. unfold be_decode. by rewrite fold_left_app. Qed.

Lemma be_decode_rev b : be_decode (rev b) = le_decode b.
Proof.
  induction b as [|x b IH]; simpl; [done|].
  rewrite be_decode_snoc, IH. lia.
Qed.

Lemma le_decode_encode n z :
  0 <= z < 256 ^ Z.of_nat n → le_decode (le_encode n z) = z.
Proof.
  revert z. induction n as [|n IH]; intros z Hz.
  - simpl in *. lia.
  - rewrite Nat2Z.inj_succ, Z.pow_succ_r in Hz by lia. simpl.
    rewrite IH; [pose proof (Z.div_mod z 256); lia|].
    split; [apply Z.div_pos; lia|]. apply Z.div_lt_upper_bound; lia.
Qed.

Lemma be_decode_encode n z :
  0 <= z < 256 ^ Z.of_nat n → be_decode (be_encode n z) = z.
Proof. intros Hz. unfold be_encode. rewrite be_decode_rev. by apply le_decode_encode. Qed.

Lemma length_le_encode n z : length (le_encode n z) = n.
Proof. revert z. induction n; intros; simpl; [done|]. by rewrite IHn. Qed.

Lemma length_be_encode n z : length (be_encode n z) = n.
Proof. unfold be_encode. by rewrite length_rev, length_le_encode. Qed.

Lemma le_encode_decode b :
  Forall is_byte b → le_encode (length b) (le_decode b) = b.
Proof.
  induction 1 as [|x b Hx _ IH]; simpl; [done|]. unfold is_byte in Hx.
  assert ((x + 256 * le_decode b) mod 256 = x) as ->
    by (rewrite Z.mul_comm, Z.mod_add, Z.mod_small; lia).
  assert ((x + 256 * le_decode b) / 256 = le_decode b) as ->
    by (rewrite Z.mul_comm, Z.div_add, Z.div_small; lia).
  by rewrite IH.
Qed.

Lemma le_decode_range b :
  Forall is_byte b → 0 <= le_decode b < 256 ^ Z.of_nat (length b).
Proof.
  induction 1 as [|x b Hx _ IH]; simpl length; simpl le_decode; [lia|].
  unfold is_byte in Hx. rewrite Nat2Z.inj_succ, Z.pow_succ_r by lia. lia.
Qed.

Lemma be_encode_decode b :
  Forall is_byte b → be_encode (length b) (be_decode b) = b.
Proof.
  intros Hb%Forall_rev. rewrite <-(rev_involutive b).
  generalize dependent (rev b). intros c Hc.
  rewrite be_decode_rev, length_rev. unfold be_encode. f_equal.
  by apply le_encode_decode.
Qed.

Lemma be_encode_decode_len n b :
  length b = n → Forall is_byte b → be_encode n (be_decode b) = b.
Proof. intros <-. apply be_encode_decode. Qed.

Lemma be_decode_range b :
  Forall is_byte b → 0 <= be_decode b < 256 ^ Z.of_nat (length b).
Proof.
  intros Hb%Forall_rev. rewrite <-(rev_involutive b).
  generalize dependent (rev b). intros c Hc.
  rewrite be_decode_rev, length_rev. by apply le_decode_range.
Qed.

Create HintDb eigen.
#[export] Hint Resolve wrap64_range wrap256_range len_nonneg : eigen.
#[export] Hint Rewrite @len_nil @len_cons @len_app : eigen.
