(* ===== verification/StateError.v ===== *)
(** * Steps over a state that may fail

    The monad of the Go methods that return an error and change their receiver:
    a step takes the state to a result and the state after it, which an error
    keeps, as the code does. *)

From S2P Require Import Prelude.

Definition SE (S E A : Type) : Type := S → result E A * S.

Section Steps.
Context {S E : Type}.

Definition ret {A} (a : A) : SE S E A := λ s, (Ok a, s).
Definition fail {A} (e : E) : SE S E A := λ s, (Err e, s).
Definition bind {A B} (m : SE S E A) (f : A → SE S E B) : SE S E B :=
  λ s, match m s with (Ok a, s) => f a s | (Err e, s) => (Err e, s) end.
Definition modify (f : S → S) : SE S E () := λ s, (Ok tt, f s).
Definition get {A} (f : S → A) : SE S E A := λ s, (Ok (f s), s).

(** What a failing or panicking helper gives. *)
Definition of_option {A} (e : E) (o : option A) : SE S E A :=
  match o with Some a => ret a | None => fail e end.
Definition of_result {A} (r : result E A) : SE S E A :=
  match r with Ok a => ret a | Err e => fail e end.
End Steps.

Declare Scope step_scope.
Notation "'do' x <- m ; k" := (bind m (λ x, k)) (at level 200, x pattern, m at level 100, k at level 200) : step_scope.
Notation "'do!' m ; k" := (bind m (λ _, k)) (at level 200, m at level 100, k at level 200) : step_scope.

(** A step that succeeds can be run. *)
Lemma bind_Ok {S E A B} (m : SE S E A) (f : A → SE S E B) s a s' :
  m s = (Ok a, s') → bind m f s = f a s'.
Proof. intros H. unfold bind. by rewrite H. Qed.

(** * What a step that may fail establishes

    Weakest preconditions for the monad of StateError.v: [wp m Q X s] says that [m],
    run from [s], ends with a value and a state that [Q] accepts, or with an error
    and a state that [X] accepts.  The loops have rules with invariants. *)

Open Scope step_scope.

Section Wp.
Context {S E : Type}.

Definition wp {A} (m : SE S E A) (Q : A → S → Prop) (X : E → S → Prop) (s : S) : Prop :=
  match m s with
  | (Ok a, s) => Q a s
  | (Err e, s) => X e s
  end.

Lemma wp_mono {A} (m : SE S E A) (Q Q' : A → S → Prop) (X X' : E → S → Prop) s :
  wp m Q X s → (∀ a s, Q a s → Q' a s) → (∀ e s, X e s → X' e s) → wp m Q' X' s.
Proof. unfold wp. destruct (m s) as [[a|e] s']; auto. Qed.

(** Only the value is used differently. *)
Lemma wp_conseq {A} (m : SE S E A) (Q Q' : A → S → Prop) (X : E → S → Prop) s :
  wp m Q X s → (∀ a s, Q a s → Q' a s) → wp m Q' X s.
Proof. intros. by eapply wp_mono. Qed.

Lemma wp_ret {A} (a : A) (Q : A → S → Prop) X s : Q a s → wp (ret a) Q X s.
Proof. done. Qed.

Lemma wp_fail {A} e (Q : A → S → Prop) (X : E → S → Prop) s : X e s → wp (fail e) Q X s.
Proof. done. Qed.

Lemma wp_get {A} (f : S → A) (Q : A → S → Prop) (X : E → S → Prop) s : Q (f s) s → wp (get f) Q X s.
Proof. done. Qed.

Lemma wp_modify (f : S → S) (Q : () → S → Prop) (X : E → S → Prop) s : Q tt (f s) → wp (modify f) Q X s.
Proof. done. Qed.

Lemma wp_bind {A B} (m : SE S E A) (f : A → SE S E B) Q (X : E → S → Prop) s :
  wp m (λ a, wp (f a) Q X) X s → wp (bind m f) Q X s.
Proof. unfold wp, bind. by destruct (m s) as [[a|e] s']. Qed.

(** The steps that only look at the state, or change it. *)
Lemma wp_bind_get {A B} (g : S → A) (f : A → SE S E B) Q (X : E → S → Prop) s :
  wp (f (g s)) Q X s → wp (bind (get g) f) Q X s.
Proof. done. Qed.

Lemma wp_bind_modify {B} (g : S → S) (f : () → SE S E B) Q (X : E → S → Prop) s :
  wp (f tt) Q X (g s) → wp (bind (modify g) f) Q X s.
Proof. done. Qed.

Lemma wp_of_option {A} (o : option A) e a (Q : A → S → Prop) (X : E → S → Prop) s :
  o = Some a → Q a s → wp (of_option e o) Q X s.
Proof. by intros ->. Qed.

Lemma wp_of_result {A} (r : result E A) (Q : A → S → Prop) (X : E → S → Prop) s :
  match r with Ok a => Q a s | Err e => X e s end → wp (of_result r) Q X s.
Proof. by destruct r. Qed.
End Wp.

(** Take the next steps of a sequence, as far as they are written out. *)
Ltac step := lazymatch goal with
  | |- wp (bind (get _) _) _ _ _ => apply wp_bind_get
  | |- wp (bind (modify _) _) _ _ _ => apply wp_bind_modify
  | |- wp (bind _ _) _ _ _ => apply wp_bind
  | |- wp (ret _) _ _ _ => apply wp_ret
  | |- wp (modify _) _ _ _ => apply wp_modify
  | |- wp (get _) _ _ _ => apply wp_get
  end; cbv beta.
Ltac steps := repeat step.
