(* ===== verification/GoSort.v ===== *)
(** * The sorting contracts of Go's [sort] package

    [sort.Slice] and [sort.SliceStable] are used by the transaction lists of
    the pools.  The order in which [sort.Slice] leaves equal elements is not
    specified, so the definitions of this development are written against the
    class [Sorter] (what [sort.Slice] promises for a strict weak order) and
    [StableSorter] (what [sort.SliceStable] adds); [insertion_sorter] is a
    concrete sorter, with which the definitions compute.

    The order in which [range] visits a map is not specified either, and may
    differ from one loop to the next: the loops of this development run over
    [map_range], of the class [MapRange], which promises each entry exactly
    once.  The keys (addresses, hashes, nonces) are all numbers. *)

From S2P Require Import Prelude.

(** ** Strict weak orders *)

(** The precondition of the [sort] package on its [less] argument: a strict
    weak order. *)
Class StrictWeak {A} (less : A → A → bool) : Prop := {
  less_irrefl x : less x x = false;
  less_trans x y z : less x y = true → less y z = true → less x z = true;
  less_incomp_trans x y z :
    less x y = false → less y z = false → less x z = false
}.

(** [x] may stand before [y] in a sorted slice: [y] is not less than [x]. *)
Definition not_after {A} (less : A → A → bool) (x y : A) : Prop :=
  less y x = false.

(** Neither element is less than the other. *)
Definition equivalent {A} (less : A → A → bool) (x y : A) : bool :=
  negb (less x y) && negb (less y x).

Class Sorter : Type := {
  sort_Slice {A : Type} : (A → A → bool) → list A → list A;
  sort_Slice_perm {A} (less : A → A → bool) l : sort_Slice less l ≡ₚ l;
  sort_Slice_sorted {A} (less : A → A → bool) l :
    StrictWeak less → StronglySorted (not_after less) (sort_Slice less l)
}.

Class StableSorter : Type := {
  sort_SliceStable {A : Type} : (A → A → bool) → list A → list A;
  sort_SliceStable_perm {A} (less : A → A → bool) l : sort_SliceStable less l ≡ₚ l;
  sort_SliceStable_sorted {A} (less : A → A → bool) l :
    StrictWeak less → StronglySorted (not_after less) (sort_SliceStable less l);
  (** Equivalent elements keep their order. *)
  sort_SliceStable_stable {A} (less : A → A → bool) l x :
    StrictWeak less →
    List.filter (equivalent less x) (sort_SliceStable less l)
    = List.filter (equivalent less x) l;
  (** Only elements of the slice are compared. *)
  sort_SliceStable_ext {A} (less less' : A → A → bool) l :
    (∀ x y, x ∈ l → y ∈ l → less x y = less' x y) →
    sort_SliceStable less l = sort_SliceStable less' l
}.

(** ** A concrete stable sorter *)

Fixpoint insert_sorted {A} (less : A → A → bool) (x : A) (l : list A) : list A :=
  match l with
  | [] => [x]
  | y :: l' => if less y x then y :: insert_sorted less x l' else x :: l
  end.

Definition insertion_sort {A} (less : A → A → bool) (l : list A) : list A :=
  foldr (insert_sorted less) [] l.

Section InsertionSort.
Context {A : Type} (less : A → A → bool).

Lemma insert_sorted_perm x l : insert_sorted less x l ≡ₚ x :: l.
Proof.
  induction l as [|y l IH]; simpl; [done|].
  destruct (less y x); [|done].
  rewrite IH. constructor.
Qed.

Lemma insertion_sort_perm l : insertion_sort less l ≡ₚ l.
Proof.
  induction l as [|x l IH]; simpl; [done|].
  by rewrite insert_sorted_perm, IH.
Qed.

Context `{!StrictWeak less}.

Lemma less_asym x y : less x y = true → less y x = false.
Proof.
  intros Hxy. destruct (less y x) eqn:Hyx; [|done].
  pose proof (less_trans x y x Hxy Hyx) as H. by rewrite less_irrefl in H.
Qed.

Lemma not_after_trans x y z :
  not_after less x y → not_after less y z → not_after less x z.
Proof. unfold not_after. intros Hxy Hyz. eapply less_incomp_trans; eauto. Qed.

Lemma insert_sorted_sorted x l :
  StronglySorted (not_after less) l →
  StronglySorted (not_after less) (insert_sorted less x l).
Proof.
  induction 1 as [|y l Hs IH Hall]; simpl.
  - repeat constructor.
  - destruct (less y x) eqn:Hyx.
    + constructor; [done|]. rewrite insert_sorted_perm.
      constructor; [|done]. by apply less_asym.
    + constructor; [by constructor|]. constructor; [done|].
      eapply Forall_impl; [exact Hall|]. intros z Hz.
      by eapply not_after_trans.
Qed.

Lemma insertion_sort_sorted l :
  StronglySorted (not_after less) (insertion_sort less l).
Proof. induction l; simpl; [constructor|]. by apply insert_sorted_sorted. Qed.

Lemma equivalent_less x y z :
  equivalent less x y = true → less z y = true → equivalent less x z = false.
Proof.
  unfold equivalent. intros Hxy Hzy.
  apply andb_prop in Hxy as [Hxy Hyx].
  apply negb_true_iff in Hxy, Hyx.
  destruct (less x z) eqn:Hxz; [done|]. simpl.
  destruct (less z x) eqn:Hzx; [done|].
  pose proof (less_incomp_trans z x y Hzx Hxy). congruence.
Qed.

Lemma insert_sorted_filter x y l :
  List.filter (equivalent less x) (insert_sorted less y l)
  = List.filter (equivalent less x) (y :: l).
Proof.
  induction l as [|z l IH]; simpl; [done|].
  destruct (less z y) eqn:Hzy; [|done].
  simpl. rewrite IH. simpl.
  destruct (equivalent less x y) eqn:Hxy; [|done].
  by rewrite (equivalent_less x y z Hxy Hzy).
Qed.

Lemma insertion_sort_stable x l :
  List.filter (equivalent less x) (insertion_sort less l)
  = List.filter (equivalent less x) l.
Proof.
  induction l as [|y l IH]; simpl; [done|].
  rewrite insert_sorted_filter. simpl. by rewrite IH.
Qed.
End InsertionSort.

Lemma insert_sorted_ext {A} (less less' : A → A → bool) x l :
  (∀ y, y ∈ l → less y x = less' y x) → insert_sorted less x l = insert_sorted less' x l.
Proof.
  induction l as [|y l IH]; intros Hext; simpl; [done|].
  rewrite Hext by (by left). destruct (less' y x); [|done]. f_equal. apply IH.
  intros z Hz. apply Hext. by right.
Qed.

Lemma insertion_sort_ext {A} (less less' : A → A → bool) l :
  (∀ x y, x ∈ l → y ∈ l → less x y = less' x y) → insertion_sort less l = insertion_sort less' l.
Proof.
  induction l as [|x l IH]; intros Hext; simpl; [done|].
  rewrite IH by (intros; apply Hext; by right). apply insert_sorted_ext.
  intros y Hy. apply Hext; [|by left]. right. by rewrite insertion_sort_perm in Hy.
Qed.

#[export] Instance insertion_sorter : Sorter := {|
  sort_Slice A := @insertion_sort A;
  sort_Slice_perm A := @insertion_sort_perm A;
  sort_Slice_sorted A less l H := @insertion_sort_sorted A less H l
|}.

#[export] Instance insertion_stable_sorter : StableSorter := {|
  sort_SliceStable A := @insertion_sort A;
  sort_SliceStable_perm A := @insertion_sort_perm A;
  sort_SliceStable_sorted A less l H := @insertion_sort_sorted A less H l;
  sort_SliceStable_stable A less l x H := @insertion_sort_stable A less H x l;
  sort_SliceStable_ext A := @insertion_sort_ext A
|}.

(** ** Orders given by a key *)

(** [less x y := key x < key y], the shape of most comparators of the code. *)
Definition less_by {A} (key : A → Z) (x y : A) : bool := key x <? key y.

#[export] Instance less_by_weak {A} (key : A → Z) : StrictWeak (less_by key).
Proof.
  unfold less_by. split; intros *; rewrite ?Z.ltb_lt, ?Z.ltb_ge; lia.
Qed.

(** The descending comparator [key x > key y]. *)
Definition more_by {A} (key : A → Z) (x y : A) : bool := key y <? key x.

#[export] Instance more_by_weak {A} (key : A → Z) : StrictWeak (more_by key).
Proof.
  unfold more_by. split; intros *; rewrite ?Z.ltb_lt, ?Z.ltb_ge; lia.
Qed.

(** Lexicographic order: first [l1], and [l2] where [l1] does not separate. *)
Definition less_lex {A} (l1 l2 : A → A → bool) (x y : A) : bool :=
  l1 x y || (negb (l1 y x) && l2 x y).

#[export] Instance less_lex_weak {A} (l1 l2 : A → A → bool) :
  StrictWeak l1 → StrictWeak l2 → StrictWeak (less_lex l1 l2).
Proof.
  intros H1 H2. unfold less_lex.
  split.
  - intros x. by rewrite (less_irrefl (less:=l1)), (less_irrefl (less:=l2)).
  - intros x y z.
    rewrite !orb_true_iff, !andb_true_iff, !negb_true_iff.
    intros [Hxy|[Hyx Hxy]] [Hyz|[Hzy Hyz]].
    + left. by eapply less_trans.
    + left. destruct (l1 x z) eqn:Hxz; [done|].
      pose proof (less_incomp_trans (less:=l1) x z y Hxz Hzy). congruence.
    + left. destruct (l1 x z) eqn:Hxz; [done|].
      pose proof (less_incomp_trans (less:=l1) y x z Hyx Hxz). congruence.
    + right. split; [by eapply less_incomp_trans|by eapply less_trans].
  - intros x y z.
    rewrite !orb_false_iff, !andb_false_iff, !negb_false_iff.
    intros [Hxy Hxy'] [Hyz Hyz']. split; [by eapply less_incomp_trans|].
    destruct (l1 z x) eqn:Hzx; [by left|right].
    destruct Hxy' as [Hyx|Hxy'].
    { pose proof (less_incomp_trans (less:=l1) y z x Hyz Hzx). congruence. }
    destruct Hyz' as [Hzy|Hyz'].
    { pose proof (less_incomp_trans (less:=l1) z x y Hzx Hxy). congruence. }
    by eapply less_incomp_trans.
Qed.

(** ** Uniqueness of a sorted slice *)

(** Two sorted permutations of each other are equal when [less] separates any
    two different elements of them. *)
Lemma sorted_perm_unique {A} (less : A → A → bool) (l1 l2 : list A) :
  (∀ x y, x ∈ l1 → y ∈ l1 → less x y = false → less y x = false → x = y) →
  StronglySorted (not_after less) l1 →
  StronglySorted (not_after less) l2 →
  l1 ≡ₚ l2 → l1 = l2.
Proof.
  intros Hsep H1 H2 Hperm.
  eapply StronglySorted_unique_strong; [|exact H1|exact H2|exact Hperm].
  unfold not_after. intros x y Hx Hy ??.
  apply Hsep; try done. by rewrite Hperm.
Qed.

Lemma sort_Slice_elem `{Sorter} {A} (less : A → A → bool) l x :
  x ∈ sort_Slice less l ↔ x ∈ l.
Proof. by rewrite sort_Slice_perm. Qed.

Lemma sort_SliceStable_elem `{StableSorter} {A} (less : A → A → bool) l x :
  x ∈ sort_SliceStable less l ↔ x ∈ l.
Proof. by rewrite sort_SliceStable_perm. Qed.

Lemma StronglySorted_weaken {A} (P Q : A → A → Prop) l :
  (∀ x y, P x y → Q x y) → StronglySorted P l → StronglySorted Q l.
Proof.
  intros HPQ. induction 1 as [|x l Hs IH Hall]; constructor; [done|].
  eapply Forall_impl; eauto.
Qed.

(** Sorted by a key that no two elements share: strictly sorted. *)
Lemma sorted_strict {A} (key : A → Z) l :
  StronglySorted (λ x y, key x <= key y) l → NoDup (key <$> l) →
  StronglySorted (λ x y, key x < key y) l.
Proof.
  induction 1 as [|x l Hs IH Hall]; intros Hnd; constructor.
  - apply IH. by inversion Hnd.
  - inversion Hnd as [|?? Hx _]; subst. rewrite Forall_forall in *. intros y Hy.
    specialize (Hall y Hy). assert (key x ≠ key y); [|lia].
    intros Heq. apply Hx. rewrite Heq. by apply list_elem_of_fmap_2.
Qed.

(** ** Iteration over a map *)

Class MapRange : Type := {
  map_range {A : Type} : gmap Z A → list (Z * A);
  map_range_perm {A} (m : gmap Z A) : map_range m ≡ₚ map_to_list m
}.

(** The iteration with which the definitions compute. *)
#[export] Instance canonical_range : MapRange := {|
  map_range A m := map_to_list m;
  map_range_perm A m := Permutation_refl _
|}.

(** Another one, in the opposite order. *)
Program Definition reverse_range : MapRange := {|
  map_range A m := rev (map_to_list m)
|}.
Next Obligation. intros A m. symmetry. apply Permutation_rev. Qed.

Definition range_values `{MapRange} {A} (m : gmap Z A) : list A := (map_range m).*2.

(** [len] of a map. *)
Definition map_len {A} (m : gmap Z A) : Z := Z.of_nat (size m).

Section Range.
Context `{MapRange} {A : Type}.
Implicit Types m : gmap Z A.

Lemma map_range_elem m k x : (k, x) ∈ map_range m ↔ m !! k = Some x.
Proof. rewrite map_range_perm. apply elem_of_map_to_list. Qed.

Lemma map_range_NoDup m : NoDup (map_range m).*1.
Proof. rewrite map_range_perm. apply NoDup_fst_map_to_list. Qed.

Lemma range_values_elem m x : x ∈ range_values m ↔ ∃ k, m !! k = Some x.
Proof.
  unfold range_values. rewrite list_elem_of_fmap. split.
  - intros ([k y] & -> & Hk%map_range_elem). by exists k.
  - intros [k Hk%map_range_elem]. by exists (k, x).
Qed.

Lemma range_values_perm m : range_values m ≡ₚ (map_to_list m).*2.
Proof. unfold range_values. by rewrite map_range_perm. Qed.

Lemma map_len_range m : len (range_values m) = map_len m.
Proof.
  unfold map_len, len. rewrite range_values_perm, length_fmap.
  by rewrite length_map_to_list.
Qed.

Lemma map_len_zero m : map_len m = 0 ↔ m = ∅.
Proof. unfold map_len. rewrite <-map_size_empty_iff. lia. Qed.
End Range.

(** Filling a map from the iteration over another one is mapping over it. *)
Lemma range_insert_lookup {A B} (f : A → B) (entries : list (Z * A)) (m0 : gmap Z B) k :
  NoDup entries.*1 →
  fold_left (λ m entry, <[entry.1 := f entry.2]> m) entries m0 !! k
  = match list_to_map (M:=gmap Z A) entries !! k with
    | Some x => Some (f x)
    | None => m0 !! k
    end.
Proof.
  revert m0. induction entries as [|[i x] entries IH]; intros m0 Hnd; simpl; [done|].
  inversion Hnd as [|?? Hi Hnd']; subst. rewrite IH by done.
  destruct (decide (i = k)) as [->|Hne].
  - rewrite lookup_insert_eq, not_elem_of_list_to_map_1 by done. by rewrite lookup_insert_eq.
  - do 2 (rewrite lookup_insert_ne by done). done.
Qed.

Lemma range_insert `{MapRange} {A B} (f : A → B) (m : gmap Z A) :
  fold_left (λ r entry, <[entry.1 := f entry.2]> r) (map_range m) ∅ = f <$> m.
Proof.
  apply map_eq. intros k. rewrite range_insert_lookup by apply map_range_NoDup.
  rewrite lookup_fmap, lookup_empty.
  rewrite (list_to_map_proper (map_range m) (map_to_list m));
    [|apply map_range_NoDup|apply map_range_perm].
  rewrite list_to_map_to_list. by destruct (m !! k).
Qed.

(** A loop whose turns commute does not depend on the order. *)
Lemma fold_left_perm {A B} (f : A → B → A) l k a :
  (∀ a x y, f (f a x) y = f (f a y) x) → l ≡ₚ k → fold_left f l a = fold_left f k a.
Proof.
  intros Hf Hp. revert a. induction Hp; intros a; simpl; [done|eauto| |].
  - by rewrite Hf.
  - etrans; eauto.
Qed.
