(* ===== verification/GoHeap.v ===== *)
(** * The heaps of Go's [container/heap]

    [heap.Init], [heap.Push], [heap.Pop] and [heap.Remove] over a slice, with
    the swaps they do, and the contracts their clients rely on: the slice stays
    a heap, its contents are the expected ones, and the first element is a
    least one.  [less] is the [Less] method of the client. *)

From S2P Require Import Prelude GoSort.

Section Heap.
  Context {A : Type} (less : A → A → bool).

  (** [h.Swap(i, j)]. *)
Definition Swap (l : list A) (i j : nat) : list A :=
    match l !! i, l !! j with
    | Some a, Some b => <[i:=b]> (<[j:=a]> l)
    | _, _ => l
    end.

  (** [h.Less(i, j)]; the indices are always in range. *)
Definition less_at (l : list A) (i j : nat) : bool :=
    match l !! i, l !! j with
    | Some a, Some b => less a b
    | _, _ => false
    end.

Definition parent (j : nat) : nat := ((j - 1) / 2)%nat.

Fixpoint up (fuel : nat) (l : list A) (j : nat) : list A :=
    match fuel with
    | O => l
    | S fuel =>
        let i := parent j in
        if (i =? j)%nat || negb (less_at l j i) then l else up fuel (Swap l i j) i
    end.

  (** The child of [i] that [down] compares with: the lesser one. *)
Definition least_child (l : list A) (n i : nat) : nat :=
    let j1 := (2 * i + 1)%nat in
    if (j1 + 1 <? n)%nat && less_at l (j1 + 1) j1 then (j1 + 1)%nat else j1.

  (** The slice and the index the loop stops at. *)
Fixpoint down_loop (fuel n : nat) (l : list A) (i : nat) : list A * nat :=
    match fuel with
    | O => (l, i)
    | S fuel =>
        if (n <=? 2 * i + 1)%nat then (l, i)
        else
          let j := least_child l n i in
          if less_at l j i then down_loop fuel n (Swap l i j) j else (l, i)
    end.

  (** [down(h, i0, n)]: the slice, and whether the element moved. *)
Definition down (l : list A) (i0 n : nat) : list A * bool :=
    let '(l, i) := down_loop n n l i0 in (l, (i0 <? i)%nat).

Fixpoint Init_loop (k : nat) (n : nat) (l : list A) : list A :=
    match k with
    | O => l
    | S i => Init_loop i n (down l i n).1
    end.

Definition Init (l : list A) : list A := Init_loop (length l / 2) (length l) l.

Definition Push (l : list A) (x : A) : list A :=
    let l := l ++ [x] in up (length l) l (length l - 1).

  (** [h.Pop()] of the client: the last element. *)
Definition pop_last (l : list A) : option (A * list A) :=
    x ← last l; Some (x, take (length l - 1) l).

Definition Pop (l : list A) : option (A * list A) :=
    let n := (length l - 1)%nat in
    pop_last (down (Swap l 0 n) 0 n).1.

Definition Remove (l : list A) (i : nat) : option (A * list A) :=
    let n := (length l - 1)%nat in
    pop_last
      (if (n =? i)%nat then l
       else
         let '(l, moved) := down (Swap l i n) i n in
         if moved then l else up (length l) l i).

  (** [heap.Fix]: the element at [i] has changed. *)
Definition heap_Fix (l : list A) (i : nat) : list A :=
    let '(l, moved) := down l i (length l) in
    if moved then l else up (length l) l i.

  (** ** Order *)

Definition heap_at (l : list A) (p j : nat) : Prop :=
    ∀ a b, l !! p = Some a → l !! j = Some b → less b a = false.

Definition heap_upto (k n : nat) (l : list A) : Prop :=
    ∀ j, (0 < j < n)%nat → (k ≤ parent j)%nat → heap_at l (parent j) j.

Definition is_heap (l : list A) : Prop := heap_upto 0 (length l) l.
End Heap.

(** ** Indices and swaps *)

Section Swaps.
  Context {A : Type}.
  Implicit Types l : list A.

Lemma parent_lt j : (0 < j)%nat → (parent j < j)%nat.
  Proof. intros. apply Nat.Div0.div_lt_upper_bound. lia. Qed.

Lemma parent_child i j :
    (0 < j)%nat → parent j = i ↔ (j = 2 * i + 1 ∨ j = 2 * i + 2)%nat.
  Proof.
    unfold parent. intros Hj. split.
    - intros <-. pose proof (Nat.div_mod (j - 1) 2). pose proof (Nat.mod_upper_bound (j - 1) 2). lia.
    - intros [->| ->]; [replace (2 * i + 1 - 1)%nat with (i * 2)%nat by lia
                       |replace (2 * i + 2 - 1)%nat with (1 + i * 2)%nat by lia].
      + apply Nat.div_mul. lia.
      + rewrite Nat.div_add by lia. reflexivity.
  Qed.

Lemma Swap_eq l i j a b :
    l !! i = Some a → l !! j = Some b → Swap l i j = <[i:=b]> (<[j:=a]> l).
  Proof. unfold Swap. by intros -> ->. Qed.

Lemma length_Swap l i j : length (Swap l i j) = length l.
  Proof. unfold Swap. repeat case_match; by rewrite ?length_insert. Qed.

Lemma lookup_Swap l i j x :
    (i < length l)%nat → (j < length l)%nat →
    Swap l i j !! x = if decide (x = i) then l !! j else if decide (x = j) then l !! i else l !! x.
  Proof.
    intros Hi Hj.
    destruct (lookup_lt_is_Some_2 l i Hi) as [a Ha].
    destruct (lookup_lt_is_Some_2 l j Hj) as [b Hb].
    rewrite (Swap_eq _ _ _ _ _ Ha Hb).
    repeat case_decide; subst; rewrite ?Ha, ?Hb.
    - apply list_lookup_insert_eq. by rewrite length_insert.
    - rewrite list_lookup_insert_ne by done. by apply list_lookup_insert_eq.
    - by rewrite !list_lookup_insert_ne by done.
  Qed.

Lemma Swap_Permutation l i j : Swap l i j ≡ₚ l.
  Proof.
    unfold Swap. destruct (l !! i) as [a|] eqn:Ha; [|done]. destruct (l !! j) as [b|] eqn:Hb; [|done].
    destruct (decide (i = j)) as [->|Hne].
    - simplify_eq. by rewrite list_insert_insert_eq, list_insert_id.
    - pose proof (lookup_lt_Some _ _ _ Ha). pose proof (lookup_lt_Some _ _ _ Hb).
      assert (Hab : a :: <[i:=b]> (<[j:=a]> l) ≡ₚ a :: l); [|by apply (Permutation_cons_inv Hab)].
      assert (Hins : ∀ l' k (y x : A), l' !! k = Some y → y :: <[k:=x]> l' ≡ₚ x :: l').
      { intros l' k y x Hk. pose proof (lookup_lt_Some _ _ _ Hk).
        rewrite insert_take_drop by done. rewrite <- (take_drop_middle l' k y Hk) at 3.
        rewrite <- !Permutation_middle. apply Permutation_swap. }
      rewrite Hins by by rewrite list_lookup_insert_ne.
      by rewrite Hins.
  Qed.
End Swaps.

Section Contracts.
  Context {A : Type} (less : A → A → bool) `{!StrictWeak less}.
  Implicit Types l : list A.

Lemma up_Permutation fuel l j : up less fuel l j ≡ₚ l.
  Proof.
    revert l j. induction fuel as [|fuel IH]; intros l j; [done|]. cbn [up].
    case_match; [done|]. by rewrite IH, Swap_Permutation.
  Qed.

Lemma down_loop_Permutation fuel n l i : (down_loop less fuel n l i).1 ≡ₚ l.
  Proof.
    revert l i. induction fuel as [|fuel IH]; intros l i; [done|]. cbn [down_loop].
    repeat case_match; try done. by rewrite IH, Swap_Permutation.
  Qed.

Lemma down_fst l i n : (down less l i n).1 = (down_loop less n n l i).1.
  Proof. unfold down. by destruct (down_loop _ _ _ _ _). Qed.

Lemma down_Permutation l i n : (down less l i n).1 ≡ₚ l.
  Proof. rewrite down_fst. apply down_loop_Permutation. Qed.

Lemma least_child_bounds l n i :
    (2 * i + 1 < n)%nat →
    (least_child less l n i < n)%nat ∧ (i < least_child less l n i)%nat ∧
    parent (least_child less l n i) = i.
  Proof.
    intros H. unfold least_child.
    destruct ((2 * i + 1 + 1 <? n)%nat) eqn:E; cbn [andb].
    - apply Nat.ltb_lt in E. case_match; (split_and!; [lia | lia | apply parent_child; lia]).
    - split_and!; [lia | lia | apply parent_child; lia].
  Qed.

Lemma less_co_trans a b c : less b a = false → less c b = false → less c a = false.
  Proof. intros Hba Hcb. by apply (less_incomp_trans c b a). Qed.

Lemma least_child_least l n i :
    (n ≤ length l)%nat →
    ∀ j, (0 < j < n)%nat → parent j = i → heap_at less l (least_child less l n i) j.
  Proof.
    intros Hn j Hj Hp a b Ha Hb. apply parent_child in Hp; [|lia].
    unfold least_child, less_at in Ha.
    destruct (lookup_lt_is_Some_2 l (2 * i + 1)) as [x1 Hx1]; [lia|]. rewrite Hx1 in Ha.
    replace (2 * i + 2)%nat with (2 * i + 1 + 1)%nat in * by lia.
    destruct (Nat.ltb_spec (2 * i + 1 + 1) n); cbn [andb] in Ha.
    - destruct (lookup_lt_is_Some_2 l (2 * i + 1 + 1)) as [x2 Hx2]; [lia|]. rewrite Hx2 in Ha.
      destruct (less x2 x1) eqn:E, Hp; subst j; simplify_eq; eauto using less_asym, less_irrefl.
    - destruct Hp; subst j; [|lia]. simplify_eq. apply less_irrefl.
  Qed.

  (** What holds while an element sinks: the order except around [i], and
      between the parent and the children of [i]. *)
Definition down_pre (k n i : nat) l : Prop :=
    (∀ j, (0 < j < n)%nat → (k ≤ parent j)%nat → parent j ≠ i → j ≠ i → heap_at less l (parent j) j) ∧
    (∀ j, (0 < j < n)%nat → parent j = i → (0 < i)%nat → (k ≤ parent i)%nat → heap_at less l (parent i) j).

Definition heap_but (k n i : nat) l : Prop :=
    ∀ j, (0 < j < n)%nat → (k ≤ parent j)%nat → j ≠ i → heap_at less l (parent j) j.

Lemma heap_but_all k n i l :
    heap_but k n i l → ((0 < i)%nat → (k ≤ parent i)%nat → heap_at less l (parent i) i) → heap_upto less k n l.
  Proof.
    intros H Hi j Hj Hk. destruct (decide (j = i)) as [->|]; [apply Hi; [lia|done]|by apply H].
  Qed.

Lemma less_at_spec l i j :
    less_at less l i j = true ↔ ∃ a b, l !! i = Some a ∧ l !! j = Some b ∧ less a b = true.
  Proof.
    unfold less_at. split.
    - intros H. destruct (l !! i), (l !! j); naive_solver.
    - by intros (a & b & -> & -> & ?).
  Qed.

Lemma less_at_false l i j : less_at less l i j = false → heap_at less l j i.
  Proof. unfold less_at. intros H a b Ha Hb. by rewrite Ha, Hb in H. Qed.

  (** The order of a swapped slice is the order of the slice at the exchanged
      indices. *)
Definition transp (i j y : nat) : nat := if decide (y = i) then j else if decide (y = j) then i else y.

Lemma heap_at_Swap l i j p x :
    (i < length l)%nat → (j < length l)%nat →
    heap_at less (Swap l i j) p x ↔ heap_at less l (transp i j p) (transp i j x).
  Proof.
    intros Hi Hj. unfold heap_at, transp. rewrite !lookup_Swap by done.
    repeat case_decide; done.
  Qed.

Local Ltac swapped :=
    rewrite heap_at_Swap by lia; unfold transp; repeat case_decide; try lia.

Lemma down_swap k n l i :
    (n ≤ length l)%nat → (2 * i + 1 < n)%nat → down_pre k n i l →
    let j := least_child less l n i in
    less_at less l j i = true →
    down_pre k n j (Swap l i j) ∧ heap_at less (Swap l i j) i j.
  Proof.
    intros Hn Hi [Hrest Hgrand] j Hless.
    pose proof (least_child_bounds l n i Hi) as (Hjn & Hij & Hpj). fold j in Hjn, Hij, Hpj.
    pose proof (least_child_least l n i Hn) as Hleast. fold j in Hleast.
    apply less_at_spec in Hless as (b & a & Hb & Ha & Hba).
    split; [split|].
    - intros x Hx Hk Hpx Hxj. pose proof (parent_lt x ltac:(lia)). destruct (decide (parent x = i)) as [Hpi|Hpi].
      + rewrite Hpi. swapped. by apply Hleast.
      + destruct (decide (x = i)) as [->|Hxi].
        * pose proof (parent_lt i ltac:(lia)). swapped. apply Hgrand; lia.
        * swapped. by apply Hrest.
    - intros x Hx Hpx Hj0 Hk. rewrite Hpj. pose proof (parent_lt x ltac:(lia)).
      swapped. rewrite <- Hpx. apply Hrest; lia.
    - swapped. intros u v Hu Hv. simplify_eq. by apply less_asym.
  Qed.

Lemma down_loop_spec k fuel n l i :
    (n ≤ fuel + i)%nat → (n ≤ length l)%nat → down_pre k n i l →
    (down_loop less fuel n l i = (l, i) ∧ heap_but k n i l) ∨
    ((i < (down_loop less fuel n l i).2)%nat ∧ heap_upto less k n (down_loop less fuel n l i).1).
  Proof.
    revert l i. induction fuel as [|fuel IH]; intros l i Hf Hn Hpre.
    - left. split; [done|]. destruct Hpre as [Hrest _]. intros j Hj Hk Hne.
      apply Hrest; try done. pose proof (parent_lt j). lia.
    - cbn [down_loop]. destruct (Nat.leb_spec n (2 * i + 1)) as [Hle|Hlt].
      { left. split; [done|]. destruct Hpre as [Hrest _]. intros j Hj Hk Hne.
        apply Hrest; try done. intros Hp. apply parent_child in Hp; lia. }
      pose proof (least_child_bounds l n i Hlt) as (Hjn & Hij & Hpj).
      destruct (less_at less l _ i) eqn:Hless.
      + right. destruct (down_swap k n l i Hn Hlt Hpre Hless) as [Hpre' Hat].
        destruct (IH (Swap l i (least_child less l n i)) (least_child less l n i)) as [[-> Hbut]|[Hmv Hheap]];
          [lia|by rewrite length_Swap|done| |].
        * split; [done|]. eapply heap_but_all; [done|]. intros _ _. by rewrite Hpj.
        * split; [lia|done].
      + left. split; [done|]. destruct Hpre as [Hrest _]. intros x Hx Hk Hne.
        destruct (decide (parent x = i)) as [Hp|]; [|by apply Hrest].
        rewrite Hp. intros u v Hu Hv. apply less_at_false in Hless.
        destruct (lookup_lt_is_Some_2 l (least_child less l n i)) as [c Hc]; [lia|].
        apply (less_co_trans u c v); [by apply Hless|].
        by apply (least_child_least l n i Hn x).
  Qed.

Lemma down_spec k n l i :
    (n ≤ length l)%nat → down_pre k n i l →
    ((down less l i n) = (l, false) ∧ heap_but k n i l) ∨
    ((down less l i n).2 = true ∧ heap_upto less k n (down less l i n).1).
  Proof.
    intros Hn Hpre. unfold down.
    destruct (down_loop_spec k n n l i) as [[-> Hb]|[Hm Hh]]; [lia|done|done| |].
    - left. by rewrite Nat.ltb_irrefl.
    - right. destruct (down_loop _ _ _ _ _) as [l' i']. cbn [fst snd] in *. split; [by apply Nat.ltb_lt|done].
  Qed.

Lemma down_heap k n l i :
    (n ≤ length l)%nat → down_pre k n i l →
    ((0 < i)%nat → (k ≤ parent i)%nat → heap_at less l (parent i) i) →
    heap_upto less k n (down less l i n).1.
  Proof.
    intros Hn Hpre Hi. destruct (down_spec k n l i Hn Hpre) as [[-> Hb]|[_ Hh]]; [|done].
    by eapply heap_but_all.
  Qed.

  (** What holds while an element rises. *)
Definition up_pre (n j : nat) l : Prop :=
    heap_but 0 n j l ∧
    (∀ x, (0 < x < n)%nat → parent x = j → (0 < j)%nat → heap_at less l (parent j) x).

Lemma up_swap n l j :
    (0 < j < n)%nat → (n ≤ length l)%nat → up_pre n j l → less_at less l j (parent j) = true →
    up_pre n (parent j) (Swap l (parent j) j).
  Proof.
    intros Hj Hn [Hbut Hgrand] Hless. pose proof (parent_lt j ltac:(lia)) as Hpj.
    apply less_at_spec in Hless as (b & a & Hb & Ha & Hba).
    assert (Hle : ∀ x, heap_at less l (parent j) x → heap_at less l j x).
    { intros x Hx u v Hu Hv. assert (u = b) as -> by congruence.
      apply (less_co_trans b a v); [by apply less_asym|by apply Hx]. }
    split.
    - intros x Hx _ Hne. pose proof (parent_lt x ltac:(lia)).
      rewrite heap_at_Swap by lia. unfold transp.
      destruct (decide (x = j)) as [->|Hxj].
      { repeat case_decide; try lia. intros u v Hu Hv. simplify_eq. by apply less_asym. }
      repeat case_decide; try lia; [apply Hle; replace (parent j) with (parent x); apply Hbut; lia|apply Hgrand; lia|apply Hbut; lia].
    - intros x Hx Hpx Hp0. pose proof (parent_lt x ltac:(lia)).
      pose proof (parent_lt (parent j) Hp0). rewrite heap_at_Swap by lia. unfold transp.
      assert (Hup : heap_at less l (parent (parent j)) (parent j)) by (apply Hbut; lia).
      repeat case_decide; try lia; [done|].
      intros u v Hu Hv. apply (less_co_trans u a v); [by apply Hup|].
      eapply (Hbut x); [lia..| |done]. by rewrite Hpx.
  Qed.

Lemma up_heap n fuel l j :
    (j ≤ fuel)%nat → (j < n)%nat → (n ≤ length l)%nat → up_pre n j l →
    heap_upto less 0 n (up less fuel l j).
  Proof.
    revert l j. induction fuel as [|fuel IH]; intros l j Hf Hj Hn Hpre.
    - destruct Hpre as [Hb _]. eapply heap_but_all; [done|]. lia.
    - cbn [up]. destruct (Nat.eqb_spec (parent j) j) as [Heq|Hne]; cbn [orb].
      { destruct Hpre as [Hb _]. eapply heap_but_all; [done|].
        intros Hj0. pose proof (parent_lt j Hj0). lia. }
      destruct (decide (j = 0%nat)) as [->|Hj0]; [done|].
      pose proof (parent_lt j). destruct (less_at less l j (parent j)) eqn:Hless; cbn [negb].
      + apply IH; [lia|lia|by rewrite length_Swap|]. by apply up_swap; [lia|..].
      + destruct Hpre as [Hb _]. eapply heap_but_all; [done|]. intros _ _. by apply less_at_false.
  Qed.

Lemma up_lookup_gt fuel l j x : (j < x)%nat → (j < length l)%nat → up less fuel l j !! x = l !! x.
  Proof.
    revert l j. induction fuel as [|fuel IH]; intros l j Hx Hj; [done|]. cbn [up].
    case_match eqn:E; [done|]. apply orb_false_iff in E as [E _]. apply Nat.eqb_neq in E.
    destruct (decide (j = 0%nat)) as [->|]; [done|]. pose proof (parent_lt j ltac:(lia)).
    rewrite IH by (rewrite ?length_Swap; lia). rewrite lookup_Swap by lia.
    repeat case_decide; try lia; done.
  Qed.

Lemma down_loop_lookup_ge fuel n l i x :
    (n ≤ x)%nat → (n ≤ length l)%nat → (i < length l)%nat → (i < n ∨ n ≤ 2 * i + 1)%nat →
    (down_loop less fuel n l i).1 !! x = l !! x.
  Proof.
    revert l i. induction fuel as [|fuel IH]; intros l i Hx Hn Hi Hin; [done|]. cbn [down_loop].
    destruct (Nat.leb_spec n (2 * i + 1)); [done|].
    pose proof (least_child_bounds l n i ltac:(lia)) as (? & ? & ?).
    case_match; [|done]. rewrite IH by (rewrite ?length_Swap; lia).
    rewrite lookup_Swap by lia. repeat case_decide; try lia; done.
  Qed.

Lemma length_down l i n : length (down less l i n).1 = length l.
  Proof. apply Permutation_length, down_Permutation. Qed.

  (** ** Contracts *)

Lemma heap_upto_take k n n' l :
    (n' ≤ n)%nat → heap_upto less k n l → heap_upto less k n' (take n' l).
  Proof.
    intros Hn H j Hj Hk a b. pose proof (parent_lt j ltac:(lia)).
    rewrite !lookup_take_lt by lia. by apply H; [lia|].
  Qed.

Lemma is_heap_take n l : is_heap less l → is_heap less (take n l).
  Proof.
    intros H. unfold is_heap. rewrite length_take. destruct (decide (n ≤ length l)%nat).
    - rewrite Nat.min_l by done. by eapply heap_upto_take.
    - rewrite take_ge by lia. by rewrite Nat.min_r by lia.
  Qed.

Lemma heap_least l x y :
    is_heap less l → l !! 0%nat = Some x → y ∈ l → less y x = false.
  Proof.
    intros Hh Hx Hy. apply list_elem_of_lookup in Hy as [i Hi]. revert y Hi.
    induction i as [i IH] using lt_wf_ind. intros y Hi.
    destruct (decide (i = 0%nat)) as [->|Hne]; [simplify_eq; apply less_irrefl|].
    pose proof (parent_lt i ltac:(lia)) as Hp. pose proof (lookup_lt_Some _ _ _ Hi).
    destruct (lookup_lt_is_Some_2 l (parent i)) as [z Hz]; [lia|].
    apply (less_co_trans x z y); [by eapply IH|]. by eapply (Hh i); [lia..| |].
  Qed.

Lemma Init_spec l : is_heap less (Init less l) ∧ Init less l ≡ₚ l.
  Proof.
    unfold Init, is_heap. assert (Hbase : heap_upto less (length l / 2) (length l) l).
    { intros j Hj Hk. assert (parent j < length l / 2)%nat; [|lia].
      apply Nat.div_le_lower_bound; [lia|]. pose proof (Nat.div_mod (j - 1) 2). unfold parent. lia. }
    assert (Hgen : ∀ k l', length l' = length l → l' ≡ₚ l → heap_upto less k (length l) l' →
      heap_upto less 0 (length l) (Init_loop less k (length l) l') ∧ Init_loop less k (length l) l' ≡ₚ l).
    { induction k as [|k IH]; intros l' Hlen Hp Hh; [done|]. cbn [Init_loop].
      apply IH; [by rewrite length_down|by rewrite down_Permutation|].
      apply down_heap; [lia| |intros Hk0 Hk; pose proof (parent_lt k Hk0); lia].
      split; [intros j Hj Hk Hpj _; apply Hh; lia|].
      intros j Hj Hpj Hk0 Hk. pose proof (parent_lt k Hk0). lia. }
    destruct (Hgen (length l / 2)%nat l) as [H1 H2]; [done..|]. split; [|done].
    by rewrite (Permutation_length H2).
  Qed.

Lemma Push_spec l x :
    is_heap less l → is_heap less (Push less l x) ∧ Push less l x ≡ₚ x :: l.
  Proof.
    intros Hh. unfold Push. set (l' := l ++ [x]).
    assert (Hl : length l' = S (length l)) by (unfold l'; rewrite length_app; cbn; lia).
    assert (Hp : up less (length l') l' (length l' - 1) ≡ₚ x :: l).
    { rewrite up_Permutation. unfold l'. by rewrite Permutation_app_comm. }
    split; [|done]. unfold is_heap. rewrite (Permutation_length Hp). cbn [length].
    apply up_heap; [lia..|]. rewrite Hl. replace (S (length l) - 1)%nat with (length l) by lia.
    split; [intros j Hj _ Hne a b|intros j Hj Hpj Hl0; pose proof (parent_lt j); lia].
    pose proof (parent_lt j ltac:(lia)). unfold l'. rewrite !lookup_app_l by lia.
    apply Hh; lia.
  Qed.

Lemma pop_last_spec l n x l0 :
    length l = S n → l !! n = Some x → l ≡ₚ x :: l0 → heap_upto less 0 n l →
    ∃ l', pop_last l = Some (x, l') ∧ l' ≡ₚ l0 ∧ is_heap less l'.
  Proof.
    intros Hl Hx Hp Hh. exists (take n l). unfold pop_last.
    rewrite last_lookup, Hl. cbn [Nat.pred]. rewrite Hx. cbn.
    replace (S n - 1)%nat with n by lia. rewrite Nat.sub_0_r. split_and!; [done| |].
    - apply (Permutation_cons_inv (a:=x)). rewrite <- Hp, Permutation_cons_append.
      rewrite <- (take_drop_middle l n x Hx) at 2. rewrite (drop_ge l (S n)) by lia. done.
    - unfold is_heap. rewrite length_take, Nat.min_l by lia. by eapply heap_upto_take.
  Qed.

  (** Exchanging with the last element leaves the rest of a heap in order
      around the exchanged index. *)
Lemma Swap_last_pre l i n :
    length l = S n → (i < n)%nat → is_heap less l → down_pre 0 n i (Swap l i n).
  Proof.
    intros Hl Hi Hh. split; intros j Hj Hpj; pose proof (parent_lt j ltac:(lia)).
    - intros Hpi Hji. swapped. apply Hh; lia.
    - intros Hi0 _. pose proof (parent_lt i Hi0). swapped. intros a b Ha Hb.
      destruct (lookup_lt_is_Some_2 l i) as [c Hc]; [lia|].
      apply (less_co_trans a c b).
      + by eapply (Hh i); [lia..| |].
      + by eapply (Hh j); [lia|lia|subst i|].
  Qed.

Lemma Pop_nil : Pop less [] = None.
  Proof. done. Qed.

Lemma Pop_spec l x :
    is_heap less l → l !! 0%nat = Some x →
    ∃ l0 l', l = x :: l0 ∧ Pop less l = Some (x, l') ∧ l' ≡ₚ l0 ∧ is_heap less l'.
  Proof.
    intros Hh Hx. destruct l as [|x' l0]; [done|]. cbn in Hx. simplify_eq.
    unfold Pop. set (n := (length (x :: l0) - 1)%nat).
    assert (Hl : length (x :: l0) = S n) by (unfold n; cbn; lia).
    destruct (pop_last_spec (down less (Swap (x :: l0) 0 n) 0 n).1 n x l0) as (l' & ? & ? & ?).
    - by rewrite length_down, length_Swap.
    - rewrite down_fst, down_loop_lookup_ge by (rewrite ?length_Swap; lia).
      rewrite lookup_Swap by lia. destruct (decide (n = 0%nat)) as [->|]; [done|].
      by rewrite decide_True.
    - by rewrite down_Permutation, Swap_Permutation.
    - destruct (decide (n = 0%nat)) as [->|]; [intros ?; lia|].
      apply down_heap; [rewrite ?length_Swap; lia| |lia]. apply Swap_last_pre; [done|lia|done].
    - by exists l0, l'.
  Qed.

Lemma heap_Remove_spec l i x :
    is_heap less l → l !! i = Some x →
    ∃ l', Remove less l i = Some (x, l') ∧ l ≡ₚ x :: l' ∧ is_heap less l'.
  Proof.
    intros Hh Hx. pose proof (lookup_lt_Some _ _ _ Hx) as Hi.
    unfold Remove. set (n := (length l - 1)%nat). assert (Hl : length l = S n) by (unfold n; lia).
    set (m := if (n =? i)%nat then l else _).
    assert (Hperm : m ≡ₚ l).
    { unfold m. destruct (n =? i)%nat; [done|]. pose proof (down_Permutation (Swap l i n) i n) as Hd.
      destruct (down less (Swap l i n) i n) as [l1 []]; cbn in Hd; [|rewrite up_Permutation];
        by rewrite Hd, Swap_Permutation. }
    assert (Hm : m !! n = Some x ∧ heap_upto less 0 n m).
    { unfold m. destruct (Nat.eqb_spec n i) as [->|Hne].
      { split; [done|]. intros j Hj Hk. apply Hh; lia. }
      assert (Hn : Swap l i n !! n = Some x) by (rewrite lookup_Swap by lia; repeat case_decide; try lia; done).
      pose proof (Swap_last_pre l i n Hl ltac:(lia) Hh) as Hpre.
      pose proof (down_loop_lookup_ge n n (Swap l i n) i n) as Hge. rewrite length_Swap in Hge.
      rewrite <- down_fst, Hn in Hge. specialize (Hge ltac:(lia) ltac:(lia) ltac:(lia) ltac:(lia)).
      destruct (down_spec 0 n (Swap l i n) i) as [[Heq Hb]|[Hm Hu]]; [rewrite ?length_Swap; lia|done| |].
      - rewrite Heq. split; [rewrite up_lookup_gt by (rewrite ?length_Swap; lia); done|].
        apply up_heap; rewrite ?length_Swap; [lia..|]. split; [done|]. destruct Hpre as [_ Hg].
        intros y Hy Hpy Hi0. apply Hg; lia.
      - destruct (down less (Swap l i n) i n) as [l1 b]; cbn in *; subst b; done. }
    destruct Hm as [Hmn Hmh]. apply list_elem_of_lookup_2 in Hx as Hin.
    apply elem_of_Permutation in Hin as [l0 Hl0].
    destruct (pop_last_spec m n x l0) as (l' & ? & Hl' & ?); [|done| |done|].
    - by rewrite (Permutation_length Hperm).
    - by rewrite Hperm.
    - exists l'. split_and!; [done|by rewrite Hl', <- Hl0|done].
  Qed.

  (** The first element is replaced. *)
Lemma heap_Fix_spec l x y :
    is_heap less (x :: l) → is_heap less (heap_Fix less (y :: l) 0) ∧ heap_Fix less (y :: l) 0 ≡ₚ y :: l.
  Proof.
    intros Hh. unfold heap_Fix. pose proof (down_Permutation (y :: l) 0 (length (y :: l))) as Hp.
    assert (Hd : heap_upto less 0 (length (y :: l)) (down less (y :: l) 0 (length (y :: l))).1).
    { apply down_heap; [done| |lia]. split; [|intros; lia]. intros j Hj _ Hpj Hj0 a b Ha Hb.
      pose proof (parent_lt j ltac:(lia)). apply (Hh j); [cbn in *; lia|lia| |].
      - destruct (parent j); [lia|done].
      - destruct j; [lia|done]. }
    destruct (down less (y :: l) 0 (length (y :: l))) as [l' moved]. cbn [fst] in *.
    assert (Hl' : is_heap less l') by (unfold is_heap; by rewrite (Permutation_length Hp)).
    destruct moved; [done|]. by destruct (length l').
  Qed.

  (** A sorted slice is a heap. *)
Lemma sorted_is_heap l : StronglySorted (not_after less) l → is_heap less l.
  Proof.
    intros Hs j Hj _ a b Ha Hb. pose proof (parent_lt j ltac:(lia)).
    rewrite <- (take_drop_middle l (parent j) a Ha) in Hs, Hb.
    rewrite lookup_app_r in Hb by (rewrite length_take; lia).
    pose proof (lookup_lt_Some _ _ _ Ha).
    rewrite length_take, Nat.min_l in Hb by lia.
    destruct (j - parent j)%nat as [|k] eqn:E; [lia|]. cbn in Hb.
    apply StronglySorted_app_1_r in Hs. inversion Hs as [|? ? _ Hall]; subst.
    by eapply Forall_lookup_1 in Hall.
  Qed.
End Contracts.
