(* ===== verification/Rlp.v ===== *)
(** * RLP: the encoding, the encoder buffer and the splitting functions

    parallelizable-client-go-ethereum/rlp/raw.go, encode.go and encbuffer.go.
    [item] is what a value encodes, a string of bytes or a list, and [encode] is
    the format; the encoder buffer reaches it by writing list headers after the
    fact, and [Split], [CountValues] and the others read it back from a slice.
    Sizes are uint64: the theorems ask that an encoding be shorter than 2^64. *)

From S2P Require Import Prelude.

Open Scope eigen_scope.

Inductive Kind : Type := Byte | String | List.

#[export] Instance Kind_eq_dec : EqDecision Kind.
Proof. solve_decision. Defined.

Inductive rlp_error : Type :=
  | ErrExpectedString | ErrExpectedList | ErrCanonInt | ErrCanonSize
  | ErrElemTooLarge | ErrValueTooLarge | ErrMoreThanOneValue
  | errNotInList | errNotAtEOL | errUintOverflow | errUint256Large
  | EOL | io_EOF | io_ErrUnexpectedEOF
  | WrongSize | InvalidBool
  | NoFuel.

#[export] Instance rlp_error_eq_dec : EqDecision rlp_error.
Proof. solve_decision. Defined.

(** ** Integers and headers *)

(** The loop of [intsize]; a uint64 has at most eight bytes, seven shifts. *)
Fixpoint intsize_loop (fuel : nat) (size i : Z) : Z :=
  match fuel with
  | O => size
  | S fuel => if Z.shiftr i 8 =? 0 then size else intsize_loop fuel (size + 1) (Z.shiftr i 8)
  end.

Definition intsize (i : Z) : Z := intsize_loop 7 1 i.

(** The bytes that [putint] writes, most significant first. *)
Definition putint (i : Z) : bytes :=
  be_encode (Z.to_nat
    (if i <? 2 ^ 8 then 1 else if i <? 2 ^ 16 then 2 else if i <? 2 ^ 24 then 3 else if i <? 2 ^ 32 then 4
     else if i <? 2 ^ 40 then 5 else if i <? 2 ^ 48 then 6 else if i <? 2 ^ 56 then 7 else 8)) i.

Definition headsize (size : Z) : Z := if size <? 56 then 1 else 1 + intsize size.

(** The bytes that [puthead] writes. *)
Definition puthead (smalltag largetag size : Z) : bytes :=
  if size <? 56 then [(smalltag + size) mod 256]
  else (largetag + len (putint size)) mod 256 :: putint size.

Definition StringSize (b : bytes) : Z :=
  match b with
  | [] => 1
  | [x] => if x <=? 127 then 1 else 2
  | _ => wrap64 (headsize (len b) + len b)
  end.

(** [BytesSize] is the same code on a slice. *)
Definition BytesSize (b : bytes) : Z := StringSize b.

Definition ListSize (contentSize : Z) : Z := wrap64 (headsize contentSize + contentSize).

Definition IntSize (x : Z) : Z := if x <? 128 then 1 else 1 + intsize x.

Definition AppendUint64 (b : bytes) (i : Z) : bytes :=
  if i =? 0 then b ++ [128]
  else if i <? 128 then b ++ [i]
  else b ++ (128 + len (putint i)) :: putint i.

(** ** Reading from a slice *)

Definition readSize (b : bytes) (slen : Z) : result rlp_error Z :=
  if len b <? slen then Err io_ErrUnexpectedEOF
  else
    let s := be_decode (take (Z.to_nat slen) b) in
    if (s <? 56) || (nth 0 b 0 =? 0) then Err ErrCanonSize else Ok s.

Definition readKind (buf : bytes) : result rlp_error (Kind * Z * Z) :=
  match buf with
  | [] => Err io_ErrUnexpectedEOF
  | b :: rest =>
      let* (k, tagsize, contentsize) :=
        (if b <? 128 then Ok (Byte, 0, 1)
         else if b <? 184 then
           (** Strings that should have been single bytes. *)
           if (b - 128 =? 1) && (1 <? len buf) && (nth 1 buf 0 <? 128) then Err ErrCanonSize
           else Ok (String, 1, b - 128)
         else if b <? 192 then
           let* contentsize := readSize rest (b - 183) in Ok (String, b - 183 + 1, contentsize)
         else if b <? 248 then Ok (List, 1, b - 192)
         else let* contentsize := readSize rest (b - 247) in Ok (List, b - 247 + 1, contentsize)) in
      if wrap64 (len buf - tagsize) <? contentsize then Err ErrValueTooLarge
      else Ok (k, tagsize, contentsize)
  end.

Definition Split (b : bytes) : result rlp_error (Kind * bytes * bytes) :=
  let* (k, ts, cs) := readKind b in
  Ok (k, take (Z.to_nat cs) (drop (Z.to_nat ts) b), drop (Z.to_nat (ts + cs)) b).

Definition SplitString (b : bytes) : result rlp_error (bytes * bytes) :=
  let* (k, content, rest) := Split b in
  if bool_decide (k = List) then Err ErrExpectedString else Ok (content, rest).

Definition SplitList (b : bytes) : result rlp_error (bytes * bytes) :=
  let* (k, content, rest) := Split b in
  if negb (bool_decide (k = List)) then Err ErrExpectedList else Ok (content, rest).

Definition SplitUint64 (b : bytes) : result rlp_error (Z * bytes) :=
  let* (content, rest) := SplitString b in
  match content with
  | [] => Ok (0, rest)
  | [x] => if x =? 0 then Err ErrCanonInt else Ok (x, rest)
  | _ =>
      if 8 <? len content then Err errUintOverflow
      else match readSize content (len content) with
           | Err _ => Err ErrCanonInt
           | Ok x => Ok (x, rest)
           end
  end.

(** Each turn drops at least a byte: the length of the slice is enough fuel. *)
Fixpoint count_loop (fuel : nat) (i : Z) (b : bytes) : result rlp_error Z :=
  match b, fuel with
  | [], _ => Ok i
  | _, O => Err NoFuel
  | _, S fuel =>
      let* (_, tagsize, size) := readKind b in
      count_loop fuel (i + 1) (drop (Z.to_nat (tagsize + size)) b)
  end.

Definition CountValues (b : bytes) : result rlp_error Z := count_loop (length b) 0 b.

(** ** The encoder buffer *)

Record listhead : Type := MkListhead { offset : Z; lh_size : Z }.

Record encBuffer : Type := MkEncBuffer {
  str : bytes;
  lheads : list listhead;
  lhsize : Z
}.

Module Enc.
Definition reset : encBuffer := MkEncBuffer [] [] 0.

Definition size (buf : encBuffer) : Z := len (str buf) + lhsize buf.

Definition head_encode (head : listhead) : bytes := puthead 192 247 (lh_size head).

(** [copyTo]: the string data with each header at its offset. *)
Fixpoint copy_heads (s : bytes) (heads : list listhead) (strpos : Z) : bytes :=
  match heads with
  | [] => drop (Z.to_nat strpos) s
  | head :: heads =>
      let n := offset head - strpos in
      take (Z.to_nat n) (drop (Z.to_nat strpos) s) ++ head_encode head ++ copy_heads s heads (strpos + n)
  end.

Definition makeBytes (buf : encBuffer) : bytes := copy_heads (str buf) (lheads buf) 0.

Definition write_raw (buf : encBuffer) (b : bytes) : encBuffer :=
  MkEncBuffer (str buf ++ b) (lheads buf) (lhsize buf).

Definition encodeStringHeader (buf : encBuffer) (size : Z) : encBuffer := write_raw buf (puthead 128 183 size).

Definition writeBytes (buf : encBuffer) (b : bytes) : encBuffer :=
  match b with
  | [x] => if x <=? 127 then write_raw buf [x] else write_raw (encodeStringHeader buf (len b)) b
  | _ => write_raw (encodeStringHeader buf (len b)) b
  end.

Definition writeBool (buf : encBuffer) (b : bool) : encBuffer := write_raw buf [if b then 1 else 128].

Definition writeUint64 (buf : encBuffer) (i : Z) : encBuffer :=
  if i =? 0 then write_raw buf [128]
  else if i <? 128 then write_raw buf [i]
  else write_raw buf ((128 + len (putint i)) :: putint i).

(** [writeBigInt] and [writeUint256]: a number of more than 64 bits is written
    in the bytes its bit length needs; the sign is ignored. *)
Definition writeBigInt (buf : encBuffer) (i : Z) : encBuffer :=
  let bitlen := BitLen i in
  if bitlen <=? 64 then writeUint64 buf (Z.abs i)
  else
    let length := Z.shiftr (Z.land (bitlen + 7) (-8)) 3 in
    write_raw (encodeStringHeader buf length) (be_encode (Z.to_nat length) (Z.abs i)).

Definition writeUint256 (buf : encBuffer) (z : Z) : encBuffer :=
  let bitlen := BitLen z in
  if bitlen <=? 64 then writeUint64 buf z
  else
    let nBytes := (bitlen + 7) / 8 in
    write_raw buf ((128 + nBytes) :: be_encode (Z.to_nat nBytes) z).

Definition list_ (buf : encBuffer) : encBuffer * nat :=
  (MkEncBuffer (str buf) (lheads buf ++ [MkListhead (len (str buf)) (lhsize buf)]) (lhsize buf),
   length (lheads buf)).

(** [None] is the panic of an index out of range. *)
Definition listEnd (buf : encBuffer) (index : nat) : option encBuffer :=
  lh ← lheads buf !! index;
  let lsize := size buf - offset lh - lh_size lh in
  let heads := <[index := MkListhead (offset lh) lsize]> (lheads buf) in
  Some (MkEncBuffer (str buf) heads (lhsize buf + (if lsize <? 56 then 1 else 1 + intsize lsize))).
End Enc.

(** ** Values and their format *)

Inductive item : Type :=
  | Str (b : bytes)
  | Lst (l : list item).

Definition encode_string (b : bytes) : bytes :=
  match b with
  | [x] => if x <=? 127 then [x] else puthead 128 183 (len b) ++ b
  | _ => puthead 128 183 (len b) ++ b
  end.

Definition encode_list (payload : bytes) : bytes := puthead 192 247 (len payload) ++ payload.

Fixpoint encode (it : item) : bytes :=
  match it with
  | Str b => encode_string b
  | Lst l => encode_list (concat (map encode l))
  end.

(** A value written to the buffer: a string, or the elements between [list] and
    [listEnd], as the writers of slices and structs do. *)
Fixpoint write_item (buf : encBuffer) (it : item) : option encBuffer :=
  match it with
  | Str b => Some (Enc.writeBytes buf b)
  | Lst l =>
      let '(buf, index) := Enc.list_ buf in
      buf ← (fix write_items buf l :=
               match l with
               | [] => Some buf
               | it :: l => buf ← write_item buf it; write_items buf l
               end) buf l;
      Enc.listEnd buf index
  end.

Fixpoint write_items (buf : encBuffer) (l : list item) : option encBuffer :=
  match l with
  | [] => Some buf
  | it :: l => buf ← write_item buf it; write_items buf l
  end.

(** [EncodeToBytes]. *)
Definition EncodeToBytes (it : item) : option bytes := Enc.makeBytes <$> write_item Enc.reset it.

(** The bytes of a value are bytes. *)
Fixpoint item_bytes (it : item) : Prop :=
  match it with
  | Str b => Forall is_byte b
  | Lst l => (fix go l := match l with [] => True | it :: l => item_bytes it ∧ go l end) l
  end.

Lemma item_ind' (P : item → Prop) :
  (∀ b, P (Str b)) → (∀ l, Forall P l → P (Lst l)) → ∀ it, P it.
Proof.
  intros HS HL. fix IH 1. intros [b|l]; [apply HS|]. apply HL. induction l; constructor; auto.
Qed.

Lemma item_bytes_list l : item_bytes (Lst l) ↔ Forall item_bytes l.
Proof.
  simpl. induction l as [|it l IH]; simpl; [by split; [constructor|]|]. rewrite Forall_cons. naive_solver.
Qed.

(** ** Integers: lemmas *)

(** [n] is the number of bytes of [i]. *)
Definition bytes_of (n i : Z) : Prop := 1 <= n ∧ 256 ^ (n - 1) <= i < 256 ^ n.

Lemma bytes_of_unique a b i : bytes_of a i → bytes_of b i → a = b.
Proof.
  intros (Ha & La & Ua) (Hb & Lb & Ub). destruct (Z.lt_trichotomy a b) as [H|[H|H]]; [|done|].
  - assert (256 ^ a <= 256 ^ (b - 1)) by (apply Z.pow_le_mono_r; lia). lia.
  - assert (256 ^ b <= 256 ^ (a - 1)) by (apply Z.pow_le_mono_r; lia). lia.
Qed.

Lemma intsize_loop_bytes fuel size i :
  0 < i < 256 ^ Z.of_nat (S fuel) →
  size <= intsize_loop fuel size i <= size + Z.of_nat fuel ∧ bytes_of (intsize_loop fuel size i - size + 1) i.
Proof.
  revert size i. induction fuel as [|fuel IH]; intros size i Hi.
  { cbn [intsize_loop]. split; [lia|]. unfold bytes_of. replace (size - size + 1) with 1 by lia.
    change (256 ^ (1 - 1)) with 1. change (256 ^ 1) with 256. change (Z.of_nat 1) with 1 in Hi. lia. }
  rewrite Nat2Z.inj_succ, Z.pow_succ_r in Hi by lia. cbn [intsize_loop].
  rewrite Z.shiftr_div_pow2 by lia. change (2 ^ 8) with 256.
  destruct (Z.eqb_spec (i / 256) 0) as [H0|H0].
  - apply Z.div_small_iff in H0; [|lia]. split; [lia|]. unfold bytes_of.
    replace (size - size + 1) with 1 by lia. change (256 ^ (1 - 1)) with 1. change (256 ^ 1) with 256. lia.
  - assert (Hq : 0 < i / 256 < 256 ^ Z.of_nat (S fuel)).
    { split; [pose proof (Z.div_pos i 256); lia|]. apply Z.div_lt_upper_bound; lia. }
    destruct (IH (size + 1) _ Hq) as [Hr (Hn & Hl & Hu)]. set (r := intsize_loop fuel (size + 1) (i / 256)) in *.
    split; [lia|]. unfold bytes_of. split; [lia|].
    replace (r - size + 1 - 1) with (Z.succ (r - (size + 1) + 1 - 1)) by lia.
    replace (r - size + 1) with (Z.succ (r - (size + 1) + 1)) by lia.
    rewrite !Z.pow_succ_r by lia. pose proof (Z.div_mod i 256). pose proof (Z.mod_pos_bound i 256). lia.
Qed.

Lemma intsize_bytes i : 0 < i < two64 → 1 <= intsize i <= 8 ∧ bytes_of (intsize i) i.
Proof.
  intros Hi. destruct (intsize_loop_bytes 7 1 i) as [Hr Hb]; [exact Hi|]. fold (intsize i) in *.
  split; [lia|]. by replace (intsize i) with (intsize i - 1 + 1) by lia.
Qed.

Lemma intsize_loop_large fuel size i : 256 ^ Z.of_nat fuel <= i → intsize_loop fuel size i = size + Z.of_nat fuel.
Proof.
  revert size i. induction fuel as [|fuel IH]; intros size i Hi; [cbn; lia|].
  rewrite Nat2Z.inj_succ, Z.pow_succ_r in Hi by lia. cbn [intsize_loop].
  rewrite Z.shiftr_div_pow2 by lia. change (2 ^ 8) with 256. assert (0 < 256 ^ Z.of_nat fuel) by (apply Z.pow_pos_nonneg; lia).
  assert (256 ^ Z.of_nat fuel <= i / 256) by (apply Z.div_le_lower_bound; lia).
  destruct (Z.eqb_spec (i / 256) 0); [lia|]. rewrite IH by done. lia.
Qed.

Lemma putint_width i : 0 < i < two64 → putint i = be_encode (Z.to_nat (intsize i)) i.
Proof.
  intros Hi. destruct (intsize_bytes i Hi) as [_ Hb]. unfold putint. do 2 f_equal.
  eapply bytes_of_unique; [|exact Hb]. unfold bytes_of, two64 in *.
  split_ifs; (split; [lia|]);
    repeat match goal with |- context [256 ^ ?e] => let v := eval cbv in (256 ^ e) in change (256 ^ e) with v end; lia.
Qed.

Lemma le_encode_snoc n z : le_encode (S n) z = le_encode n z ++ [z / 256 ^ Z.of_nat n mod 256].
Proof.
  revert z. induction n as [|n IH]; intros z; [cbn; by rewrite Z.div_1_r|].
  change (le_encode (S (S n)) z) with (z mod 256 :: le_encode (S n) (z / 256)). rewrite IH. cbn [le_encode app].
  rewrite Z.div_div by (try lia; apply Z.pow_nonzero; lia).
  rewrite Nat2Z.inj_succ, Z.pow_succ_r by lia. done.
Qed.

Lemma be_encode_cons n z : be_encode (S n) z = z / 256 ^ Z.of_nat n mod 256 :: be_encode n z.
Proof. unfold be_encode. by rewrite le_encode_snoc, rev_app_distr. Qed.

Lemma be_encode_bytes n z : Forall is_byte (be_encode n z).
Proof.
  apply Forall_rev. revert z. induction n as [|n IH]; intros z; constructor; [|apply IH].
  apply Z.mod_pos_bound. lia.
Qed.

Lemma len_be_encode n z : len (be_encode n z) = Z.of_nat n.
Proof. unfold len. by rewrite length_be_encode. Qed.

Lemma putint_len i : 0 < i < two64 → len (putint i) = intsize i.
Proof. intros Hi. destruct (intsize_bytes i Hi). rewrite putint_width, len_be_encode by done. lia. Qed.

Lemma putint_bytes i : Forall is_byte (putint i).
Proof. apply be_encode_bytes. Qed.

(** A slice whose first byte is not zero is the number it decodes to. *)
Lemma putint_decode b :
  Forall is_byte b → nth 0 b 0 ≠ 0 → len b <= 8 → putint (be_decode b) = b ∧ 0 < be_decode b < two64 ∧ intsize (be_decode b) = len b.
Proof.
  intros Hb Hnz Hl. destruct b as [|x b]; [done|]. simpl in Hnz.
  pose proof (be_decode_range _ Hb) as Hr.
  assert (Hlow : 256 ^ (len (x :: b) - 1) <= be_decode (x :: b)).
  { assert (He := be_encode_decode _ Hb). change (length (x :: b)) with (S (length b)) in He.
    rewrite be_encode_cons in He. injection He as Hx _. rewrite len_cons. unfold len.
    replace (1 + Z.of_nat (length b) - 1) with (Z.of_nat (length b)) by lia.
    destruct (Z.lt_ge_cases (be_decode (x :: b)) (256 ^ Z.of_nat (length b))); [|lia].
    rewrite Z.div_small in Hx by lia. rewrite Zmod_0_l in Hx. lia. }
  assert (Hp : 0 < 256 ^ (len (x :: b) - 1)) by (apply Z.pow_pos_nonneg; rewrite ?len_cons; pose proof (len_nonneg b); lia).
  assert (Hr' : 0 < be_decode (x :: b) < two64).
  { split; [lia|]. eapply Z.lt_le_trans; [apply Hr|]. change two64 with (256 ^ 8). apply Z.pow_le_mono_r; [lia|]. exact Hl. }
  assert (Hi : intsize (be_decode (x :: b)) = len (x :: b)).
  { destruct (intsize_bytes _ Hr') as [_ H]. eapply bytes_of_unique; [exact H|]. split; [rewrite len_cons; pose proof (len_nonneg b); lia|].
    split; [done|]. apply Hr. }
  split; [|done]. rewrite putint_width, Hi, to_nat_len by done. by apply be_encode_decode.
Qed.

Lemma decode_putint i : 0 < i < two64 → be_decode (putint i) = i ∧ nth 0 (putint i) 0 ≠ 0.
Proof.
  intros Hi. destruct (intsize_bytes i Hi) as [Hr (_ & Hl & Hu)]. rewrite putint_width by done.
  split; [apply be_decode_encode; rewrite Z2Nat.id by lia; lia|].
  replace (Z.to_nat (intsize i)) with (S (Z.to_nat (intsize i - 1))) by lia. rewrite be_encode_cons. simpl.
  rewrite Z2Nat.id by lia. set (k := 256 ^ (intsize i - 1)) in *.
  replace (256 ^ intsize i) with (256 * k) in Hu
    by (subst k; rewrite <- Z.pow_succ_r by lia; f_equal; lia).
  assert (0 < k) by (subst k; apply Z.pow_pos_nonneg; lia).
  rewrite Z.mod_small; [pose proof (Z.div_str_pos i k); lia|].
  split; [apply Z.div_pos; lia|apply Z.div_lt_upper_bound; lia].
Qed.

(** ** Reading a size *)

Lemma readSize_putint s rest :
  56 <= s < two64 → readSize (putint s ++ rest) (len (putint s)) = Ok s.
Proof.
  intros Hs. destruct (decode_putint s) as [Hd Hnz]; [lia|]. destruct (intsize_bytes s) as [Hr _]; [lia|].
  rewrite <- putint_len in Hr by lia. unfold readSize. rewrite len_app, to_nat_len, take_app_length, Hd.
  destruct (Z.ltb_spec (len (putint s) + len rest) (len (putint s))); [pose proof (len_nonneg rest); lia|].
  destruct (Z.ltb_spec s 56); [lia|]. destruct (putint s) as [|x l]; [done|]. simpl in *.
  destruct (Z.eqb_spec x 0); done.
Qed.

Lemma readSize_inv b slen s :
  Forall is_byte b → 1 <= slen <= 8 → readSize b slen = Ok s →
  56 <= s < two64 ∧ slen = len (putint s) ∧ b = putint s ++ drop (Z.to_nat slen) b.
Proof.
  intros Hb Hn. unfold readSize. destruct (Z.ltb_spec (len b) slen) as [|Hl]; [done|].
  set (c := take (Z.to_nat slen) b). destruct (Z.ltb_spec (be_decode c) 56); [done|].
  destruct (Z.eqb_spec (nth 0 b 0) 0) as [|Hnz]; [done|]. intros [= <-].
  assert (Hlc : len c = slen) by (unfold c, len in *; rewrite length_take; lia).
  destruct (putint_decode c) as (Hp & Hr & _); [by apply Forall_take| |lia|].
  { unfold c. destruct b; [done|]. by replace (Z.to_nat slen) with (S (Z.to_nat slen - 1)) by lia. }
  rewrite Hp. split; [lia|]. split; [done|]. unfold c. by rewrite take_drop.
Qed.

(** ** Splitting: lemmas *)

(** The bytes of a value of kind [k] with the content [c]; a string of one small
    byte is that byte and nothing else. *)
Definition enc_value (k : Kind) (c : bytes) : bytes :=
  match k with
  | Byte => c
  | String => puthead 128 183 (len c) ++ c
  | List => puthead 192 247 (len c) ++ c
  end.

Definition small_byte (c : bytes) : bool :=
  match c with [x] => x <? 128 | _ => false end.

Definition canonical (k : Kind) (c : bytes) : Prop :=
  match k with
  | Byte => small_byte c = true
  | String => small_byte c = false
  | List => True
  end.

Lemma puthead_small st lt n : n < 56 → 0 <= st + n < 256 → puthead st lt n = [st + n].
Proof. intros Hn Hs. unfold puthead. destruct (Z.ltb_spec n 56); [|lia]. by rewrite Z.mod_small. Qed.

Lemma puthead_large st lt n :
  56 <= n < two64 → 0 <= lt <= 247 → puthead st lt n = (lt + len (putint n)) :: putint n.
Proof.
  intros Hn Hs. unfold puthead. destruct (Z.ltb_spec n 56); [lia|].
  destruct (intsize_bytes n) as [Hr _]; [lia|]. rewrite putint_len by lia. rewrite Z.mod_small; [done|lia].
Qed.

Lemma putint_len_large i : two64 <= i → len (putint i) = intsize i.
Proof.
  intros Hi. unfold intsize. rewrite intsize_loop_large by (unfold two64 in Hi; change (256 ^ Z.of_nat 7) with (2 ^ 56); lia).
  unfold putint. rewrite len_be_encode. unfold two64 in Hi. by split_ifs; try lia.
Qed.

Lemma puthead_len st lt n : 0 <= n → len (puthead st lt n) = headsize n.
Proof.
  intros Hn. unfold puthead, headsize. destruct (Z.ltb_spec n 56); [done|]. rewrite len_cons. f_equal.
  destruct (Z.lt_ge_cases n two64); [apply putint_len; lia|by apply putint_len_large].
Qed.

Lemma headsize_bounds n : 0 <= n < two64 → 1 <= headsize n <= 9.
Proof. intros Hn. unfold headsize. split_ifs; [lia|]. destruct (intsize_bytes n); lia. Qed.

Lemma readKind_value k c rest :
  Forall is_byte c → canonical k c → len (enc_value k c ++ rest) < two64 →
  readKind (enc_value k c ++ rest) = Ok (k, len (enc_value k c) - len c, len c).
Proof.
  intros Hb Hc Hl. rewrite len_app in Hl. pose proof (len_nonneg c). pose proof (len_nonneg rest).
  destruct k; cbn [enc_value] in *.
  - destruct c as [|x [|? ?]]; try done. simpl in Hc. apply Z.ltb_lt in Hc. apply Forall_inv in Hb. unfold is_byte in Hb.
    cbn [readKind app]. destruct (Z.ltb_spec x 128); [|lia]. cbn [result_bind]. rewrite len_cons.
    rewrite wrap64_id by (unfold is_uint64, len in *; simpl length in *; lia).
    destruct (Z.ltb_spec (1 + len rest - 0) 1); [lia|]. done.
  - rewrite len_app in Hl. destruct (Z.lt_ge_cases (len c) 56) as [Hs|Hs].
    + rewrite puthead_small in * by lia. cbn [app readKind]. split_ifs; try lia.
      rewrite !len_cons, len_nil in *. cbn [result_bind].
      assert (Hx : (128 + len c - 128 =? 1) && (1 <? 1 + len (c ++ rest)) && (nth 1 (128 + len c :: c ++ rest) 0 <? 128) = false).
      { rewrite !andb_false_iff. destruct c as [|x [|? ?]]; [left; left; done| |left; left; rewrite !len_cons; apply Z.eqb_neq; pose proof (len_nonneg l); lia].
        right. exact Hc. }
      rewrite Hx. cbn [result_bind]. rewrite len_app, wrap64_id by ulia. destruct (Z.ltb_spec (1 + (len c + len rest) - 1) (128 + len c - 128)); [lia|].
      do 2 f_equal; [f_equal; lia|lia].
    + assert (Hn : 56 <= len c < two64) by (pose proof (len_nonneg (puthead 128 183 (len c))); lia). rewrite (puthead_large _ _ _ Hn) in Hl |- * by lia. destruct (intsize_bytes (len c)) as [Hi _]; [lia|].
      rewrite <- putint_len in Hi by lia. cbn [app readKind]. split_ifs; try lia.
      replace (183 + len (putint (len c)) - 183) with (len (putint (len c))) by lia.
      rewrite <- app_assoc, readSize_putint by lia. cbn [result_bind]. rewrite !len_cons, !len_app in *.
      rewrite wrap64_id by ulia. split_ifs; [lia|]. do 3 f_equal; lia.
  - rewrite len_app in Hl. destruct (Z.lt_ge_cases (len c) 56) as [Hs|Hs].
    + rewrite puthead_small in * by lia. cbn [app readKind]. split_ifs; try lia.
      rewrite !len_cons, len_nil in *. cbn [result_bind].
      rewrite len_app, wrap64_id by ulia. split_ifs; [lia|]. do 2 f_equal; [f_equal; lia|lia].
    + assert (Hn : 56 <= len c < two64) by (pose proof (len_nonneg (puthead 192 247 (len c))); lia). rewrite (puthead_large _ _ _ Hn) in Hl |- * by lia. destruct (intsize_bytes (len c)) as [Hi _]; [lia|].
      rewrite <- putint_len in Hi by lia. cbn [app readKind]. split_ifs; try lia.
      replace (247 + len (putint (len c)) - 247) with (len (putint (len c))) by lia.
      rewrite <- app_assoc, readSize_putint by lia. cbn [result_bind]. rewrite !len_cons, !len_app in *.
      rewrite wrap64_id by ulia. split_ifs; [lia|]. do 3 f_equal; lia.
Qed.

Lemma take_exact (b : bytes) n : 0 <= n <= len b → len (take (Z.to_nat n) b) = n.
Proof. intros Hn. unfold len in *. rewrite length_take. lia. Qed.

Lemma readKind_inv b k ts cs :
  Forall is_byte b → len b < two64 → readKind b = Ok (k, ts, cs) →
  ∃ c rest, b = enc_value k c ++ rest ∧ canonical k c ∧ cs = len c ∧ ts = len (enc_value k c) - len c.
Proof.
  intros Hb Hl. destruct b as [|x r]; [done|]. inversion Hb as [|? ? Hx Hr]; subst. unfold is_byte in Hx.
  rewrite len_cons in Hl. pose proof (len_nonneg r).
  assert (Hlong : ∀ t s, 1 <= x - t <= 8 → 0 <= t <= 247 → readSize r (x - t) = Ok s → (wrap64 (len (x :: r) - (x - t + 1)) <? s) = false →
    ∃ c rest, x :: r = (puthead (t + 1 - 56) t (len c) ++ c) ++ rest ∧ s = len c ∧ 56 <= s < two64 ∧
      x - t + 1 = len (puthead (t + 1 - 56) t (len c))).
  { intros t s Ht Htl Hs Hw. destruct (readSize_inv _ _ _ Hr Ht Hs) as (Hsr & Hsl & He). apply Z.ltb_ge in Hw.
    set (r' := drop (Z.to_nat (x - t)) r) in *.
    assert (Hlr : len r = x - t + len r') by (rewrite He, len_app; lia). pose proof (len_nonneg r').
    rewrite len_cons, wrap64_id in Hw by (unfold is_uint64; lia).
    exists (take (Z.to_nat s) r'), (drop (Z.to_nat s) r'). rewrite take_exact by lia.
    rewrite (puthead_large _ _ s) by lia. rewrite len_cons, <- Hsl. split_and!; [|lia..].
    rewrite <- app_assoc. rewrite take_drop. cbn [app]. rewrite <- He. f_equal. lia. }
  assert (Hshort : ∀ t, 0 <= x - t < 56 → (wrap64 (len (x :: r) - 1) <? x - t) = false →
    0 <= t → ∃ c rest, x :: r = (puthead t (t + 55) (len c) ++ c) ++ rest ∧ x - t = len c ∧ 1 = len (puthead t (t + 55) (len c)) ∧
      (nth 1 (x :: r) 0 = nth 0 c 0 ∨ c = [])).
  { intros t Ht Hw H0. apply Z.ltb_ge in Hw. rewrite len_cons, wrap64_id in Hw by (unfold is_uint64; lia).
    exists (take (Z.to_nat (x - t)) r), (drop (Z.to_nat (x - t)) r). rewrite take_exact by lia.
    rewrite puthead_small by lia. split_and!; [|done|done|].
    - rewrite <- app_assoc, take_drop. cbn. f_equal. lia.
    - destruct (Z.to_nat (x - t)); [by right|]. left. by destruct r. }
  cbn [readKind].
  destruct (Z.ltb_spec x 128); [|destruct (Z.ltb_spec x 184); [|destruct (Z.ltb_spec x 192); [|destruct (Z.ltb_spec x 248)]]].
  - cbn [result_bind]. destruct (wrap64 _ <? _); [done|]. intros [= <- <- <-]. exists [x], r.
    split_and!; [done|by apply Z.ltb_lt|done|done].
  - destruct (_ && _) eqn:Hsm; [done|]. cbn [result_bind]. destruct (wrap64 _ <? _) eqn:Hw; [done|].
    intros [= <- <- <-]. destruct (Hshort 128) as (c & rest & He & Hc & Hh & Hn); [lia|done|lia|].
    exists c, rest. split_and!; [done| |done|]; [|cbn [enc_value]; rewrite len_app; change (128 + 55) with 183 in Hh; lia].
    cbn. destruct c as [|y [|? ?]]; try done. cbn. destruct Hn as [Hn|]; [|done]. simpl nth in Hn at 2.
    rewrite <- Hn. rewrite !andb_false_iff in Hsm. rewrite len_cons, len_nil in Hc.
    destruct Hsm as [[Hsm%Z.eqb_neq|Hsm%Z.ltb_ge]|Hsm]; [lia| |done].
    apply (f_equal len) in He. rewrite !len_app, <- Hh, !len_cons, len_nil in He. pose proof (len_nonneg rest). rewrite !len_cons in Hsm. lia.
  - destruct (readSize r (x - 183)) as [s|] eqn:Hs; [|done]. cbn [result_bind]. destruct (wrap64 _ <? _) eqn:Hw; [done|].
    intros [= <- <- <-]. destruct (Hlong 183 s) as (c & rest & He & Hc & Hb56 & Hh); [lia|lia|done|done|].
    change (183 + 1 - 56) with 128 in *. exists c, rest. split_and!; [done| |done|cbn [enc_value]; rewrite len_app; lia].
    cbn. destruct c as [|y [|? ?]]; try done. rewrite len_cons, len_nil in Hc. lia.
  - cbn [result_bind]. destruct (wrap64 _ <? _) eqn:Hw; [done|]. intros [= <- <- <-].
    destruct (Hshort 192) as (c & rest & He & Hc & Hh & _); [lia|done|lia|]. change (192 + 55) with 247 in *.
    exists c, rest. split_and!; [done|done|done|cbn [enc_value]; rewrite len_app; lia].
  - destruct (readSize r (x - 247)) as [s|] eqn:Hs; [|done]. cbn [result_bind]. destruct (wrap64 _ <? _) eqn:Hw; [done|].
    intros [= <- <- <-]. destruct (Hlong 247 s) as (c & rest & He & Hc & Hb56 & Hh); [lia|lia|done|done|].
    change (247 + 1 - 56) with 192 in *. exists c, rest. split_and!; [done|done|done|cbn [enc_value]; rewrite len_app; lia].
Qed.

Lemma Split_value k c rest :
  Forall is_byte c → canonical k c → len (enc_value k c ++ rest) < two64 →
  Split (enc_value k c ++ rest) = Ok (k, c, rest).
Proof.
  intros Hb Hc Hl. unfold Split. rewrite readKind_value by done. cbn [result_bind].
  assert (Hts : ∃ h, enc_value k c = h ++ c) by (destruct k; [by exists []|by eexists..]). destruct Hts as [h ->].
  replace (len (h ++ c) - len c) with (len h) by (rewrite len_app; lia).
  replace (len h + len c) with (len (h ++ c)) by (rewrite len_app; lia).
  by rewrite !to_nat_len, <- app_assoc, drop_app_length, take_app_length, app_assoc, drop_app_length.
Qed.

Lemma Split_inv b k c rest :
  Forall is_byte b → len b < two64 → Split b = Ok (k, c, rest) → b = enc_value k c ++ rest ∧ canonical k c.
Proof.
  intros Hb Hl H. destruct (readKind b) as [[[k' ts] cs]|] eqn:Hk; [|unfold Split in H; by rewrite Hk in H].
  destruct (readKind_inv _ _ _ _ Hb Hl Hk) as (c' & rest' & -> & Hc & _ & _).
  apply Forall_app in Hb as [Hb _]. rewrite Split_value in H; [by injection H as -> -> ->| |done|done].
  destruct k'; [done|by apply Forall_app in Hb as [_ ?]..].
Qed.

(** [Split] accepts exactly the slices that start with a value in the one
    form the format allows, and returns its kind, its content and what follows. *)
Theorem Split_exact b k c rest :
  Forall is_byte b → len b < two64 →
  Split b = Ok (k, c, rest) ↔ b = enc_value k c ++ rest ∧ canonical k c.
Proof.
  intros Hb Hl. split; [by apply Split_inv|]. intros [-> Hc]. apply Split_value; [|done|done].
  apply Forall_app in Hb as [Hb _]. destruct k; [done|by apply Forall_app in Hb as [_ ?]..].
Qed.

(** ** The values of the format *)

(** The kind and the content of a value. *)
Definition item_kind (it : item) : Kind :=
  match it with Str b => if small_byte b then Byte else String | Lst _ => List end.

Definition item_content (it : item) : bytes :=
  match it with Str b => b | Lst l => concat (map encode l) end.

Lemma small_byte_le x : (x <=? 127) = (x <? 128).
Proof. apply Bool.eq_iff_eq_true. rewrite Z.leb_le, Z.ltb_lt. lia. Qed.

Lemma encode_value it : encode it = enc_value (item_kind it) (item_content it) ∧ canonical (item_kind it) (item_content it).
Proof.
  destruct it as [b|l]; [|by split]. cbn [encode item_kind item_content]. unfold encode_string.
  destruct b as [|x [|y b]]; cbn [small_byte]; [by split| |by split].
  rewrite small_byte_le. destruct (x <? 128) eqn:Hx; by split.
Qed.

Lemma puthead_bytes st lt n : Forall is_byte (puthead st lt n).
Proof.
  unfold puthead. destruct (n <? 56); constructor; try (by apply Z.mod_pos_bound); [constructor|apply putint_bytes].
Qed.

Lemma enc_value_bytes k c : Forall is_byte c → Forall is_byte (enc_value k c).
Proof. intros Hc. destruct k; [done|by apply Forall_app; split; [apply puthead_bytes|]..]. Qed.

Lemma encode_bytes it : item_bytes it → Forall is_byte (encode it).
Proof.
  intros H. rewrite (proj1 (encode_value it)). apply enc_value_bytes. revert H.
  induction it as [b|l IH] using item_ind'; [done|]. rewrite item_bytes_list. cbn [item_content].
  induction IH as [|it l Hit _ IH]; [constructor|]. rewrite Forall_cons. intros [H Hl]. cbn.
  apply Forall_app. split; [|by apply IH]. rewrite (proj1 (encode_value it)). apply enc_value_bytes. by apply Hit.
Qed.

Lemma content_bytes it : item_bytes it → Forall is_byte (item_content it).
Proof.
  intros H. destruct it as [b|l]; [done|]. apply item_bytes_list in H. cbn.
  induction H; cbn; [constructor|]. apply Forall_app. split; [by apply encode_bytes|done].
Qed.

Lemma encode_nonempty it : encode it ≠ [].
Proof.
  destruct it as [b|l]; cbn; unfold encode_string, encode_list, puthead; repeat case_match; done.
Qed.

Lemma Split_encode it rest :
  item_bytes it → len (encode it ++ rest) < two64 →
  Split (encode it ++ rest) = Ok (item_kind it, item_content it, rest).
Proof.
  intros Hb Hl. destruct (encode_value it) as [He Hc]. rewrite He in *. apply Split_value; [by apply content_bytes|done..].
Qed.

Lemma SplitString_encode b rest :
  Forall is_byte b → len (encode (Str b) ++ rest) < two64 → SplitString (encode (Str b) ++ rest) = Ok (b, rest).
Proof.
  intros Hb Hl. unfold SplitString. rewrite (Split_encode (Str b)) by done. cbn. by destruct (small_byte b).
Qed.

Lemma SplitList_encode l rest :
  item_bytes (Lst l) → len (encode (Lst l) ++ rest) < two64 →
  SplitList (encode (Lst l) ++ rest) = Ok (concat (map encode l), rest).
Proof. intros Hb Hl. unfold SplitList. by rewrite (Split_encode (Lst l)). Qed.

Lemma count_loop_encode l fuel i :
  Forall item_bytes l → len (concat (map encode l)) < two64 → (length l <= fuel)%nat →
  count_loop fuel i (concat (map encode l)) = Ok (i + len l).
Proof.
  intros Hb. revert fuel i. induction Hb as [|it l Hit _ IH]; intros fuel i Hl Hf.
  - destruct fuel; cbn; f_equal; rewrite len_nil; lia.
  - cbn [map concat] in *. destruct (encode_value it) as [He Hc].
    destruct (encode it ++ concat (map encode l)) as [|x r] eqn:Hx; [by apply app_eq_nil in Hx as [? _]; destruct (encode_nonempty it)|].
    destruct fuel as [|fuel]; [cbn in Hf; lia|]. cbn [count_loop]. rewrite <- Hx in *. rewrite He in Hl |- *.
    rewrite readKind_value by (done || by apply content_bytes). cbn [result_bind].
    replace (len (enc_value (item_kind it) (item_content it)) - len (item_content it) + len (item_content it))
      with (len (enc_value (item_kind it) (item_content it))) by lia.
    rewrite to_nat_len, drop_app_length, IH; [by rewrite len_cons; f_equal; lia| |cbn in Hf; lia].
    rewrite len_app in Hl. pose proof (len_nonneg (enc_value (item_kind it) (item_content it))). lia.
Qed.

(** No two values share an encoding. *)
Lemma encode_inj a b :
  item_bytes a → item_bytes b → len (encode a) < two64 → encode a = encode b → a = b.
Proof.
  assert (Hsplit : ∀ it rest it' rest', item_bytes it → item_bytes it' → len (encode it ++ rest) < two64 →
    encode it ++ rest = encode it' ++ rest' → item_kind it = item_kind it' ∧ item_content it = item_content it' ∧ rest = rest').
  { intros it rest it' rest' Hi Hi' Hl He. pose proof (Split_encode it rest Hi Hl) as H1. rewrite He in H1, Hl.
    rewrite (Split_encode it' rest' Hi' Hl) in H1. by injection H1. }
  revert b. induction a as [x|l IH] using item_ind'; intros b Ha Hb Hl He.
  - destruct (Hsplit (Str x) [] b []) as (Hk & Hc & _); [done|done|by rewrite app_nil_r|by rewrite !app_nil_r|].
    destruct b as [y|l]; cbn in Hk, Hc; [by subst|]. by destruct (small_byte x).
  - destruct (Hsplit (Lst l) [] b []) as (Hk & Hc & _); [done|done|by rewrite app_nil_r|by rewrite !app_nil_r|].
    destruct b as [y|l']; cbn in Hk, Hc; [by destruct (small_byte y)|]. f_equal.
    apply item_bytes_list in Ha, Hb. assert (Hp : len (concat (map encode l)) < two64).
    { cbn [encode] in Hl. unfold encode_list in Hl. rewrite len_app in Hl. pose proof (len_nonneg (puthead 192 247 (len (concat (map encode l))))). lia. }
    clear Hk Hl He. revert l' Hb Hc. induction IH as [|it l Hit _ IHl]; intros [|it' l'] Hb Hc; [done| | |].
    + cbn in Hc. symmetry in Hc. apply app_eq_nil in Hc as [Hc _]. by destruct (encode_nonempty it').
    + cbn in Hc. apply app_eq_nil in Hc as [Hc _]. by destruct (encode_nonempty it).
    + apply Forall_cons in Ha as [Hai Hal], Hb as [Hbi Hbl]. cbn [map concat] in Hc, Hp.
      destruct (Hsplit it _ it' _ Hai Hbi Hp Hc) as (Hk & Hcc & Hr). rewrite len_app in Hp.
      pose proof (len_nonneg (encode it)). pose proof (len_nonneg (concat (map encode l))).
      f_equal; [|apply IHl; done || lia]. apply Hit; [done|done|lia|].
      rewrite (proj1 (encode_value it)), (proj1 (encode_value it')). by rewrite Hk, Hcc.
Qed.

Lemma length_concat_encode l : (length l <= length (concat (map encode l)))%nat.
Proof.
  induction l as [|it l IH]; cbn; [lia|]. rewrite length_app. pose proof (encode_nonempty it).
  destruct (encode it); [done|]. cbn. lia.
Qed.

Lemma CountValues_encode l :
  Forall item_bytes l → len (concat (map encode l)) < two64 → CountValues (concat (map encode l)) = Ok (len l).
Proof.
  intros Hb Hl. unfold CountValues. rewrite count_loop_encode; [by rewrite Z.add_0_l|done|done|apply length_concat_encode].
Qed.

(** ** Integers *)

(** The bytes of an integer: none for zero, no leading zero. *)
Definition int_bytes (i : Z) : bytes := if i =? 0 then [] else putint i.

Lemma putint_byte i : 0 <= i < 256 → putint i = [i].
Proof.
  intros Hi. unfold putint. destruct (Z.ltb_spec i (2 ^ 8)); [|lia].
  change (be_encode (Z.to_nat 1) i) with [i mod 256]. by rewrite Z.mod_small.
Qed.

Lemma AppendUint64_item b i : is_uint64 i → AppendUint64 b i = b ++ encode (Str (int_bytes i)).
Proof.
  intros Hi. unfold AppendUint64, int_bytes. destruct (Z.eqb_spec i 0) as [->|]; [done|].
  cbn [encode]. unfold encode_string. destruct (Z.ltb_spec i 128).
  - rewrite putint_byte by ulia. destruct (Z.leb_spec i 127); [done|lia].
  - destruct (intsize_bytes i) as [Hs Hbo]; [ulia|]. rewrite <- (putint_len i) in Hs by ulia.
    assert (Hp : puthead 128 183 (len (putint i)) = [128 + len (putint i)]) by (apply puthead_small; lia).
    destruct (putint i) as [|x [|y l]] eqn:Hpi; [rewrite len_nil in Hs; lia| |by rewrite Hp].
    destruct (decode_putint i) as [Hd _]; [ulia|]. rewrite Hpi in Hd. cbn in Hd.
    destruct (Z.leb_spec x 127); [lia|]. by rewrite Hp.
Qed.

Lemma int_bytes_spec i : is_uint64 i → Forall is_byte (int_bytes i) ∧ len (int_bytes i) <= 8.
Proof.
  intros Hi. unfold int_bytes. destruct (Z.eqb_spec i 0); [by split|]. split; [apply putint_bytes|].
  rewrite putint_len by ulia. destruct (intsize_bytes i); [ulia|lia].
Qed.

Lemma encode_string_len b : len b < two64 → len b <= len (encode (Str b)) <= len b + 9.
Proof.
  intros Hb. rewrite (proj1 (encode_value _)). cbn. pose proof (len_nonneg b).
  destruct (small_byte _); cbn; rewrite ?len_app, ?puthead_len by ulia; [lia|].
  pose proof (headsize_bounds (len b)). ulia.
Qed.

Lemma SplitUint64_AppendUint64 i rest :
  is_uint64 i → Forall is_byte rest → len rest < 2 ^ 63 → SplitUint64 (AppendUint64 [] i ++ rest) = Ok (i, rest).
Proof.
  intros Hi Hr Hl. rewrite AppendUint64_item by done. cbn [app]. unfold SplitUint64.
  destruct (int_bytes_spec i Hi) as [Hib Hil].
  rewrite SplitString_encode; [|done|].
  2: { rewrite len_app. destruct (encode_string_len (int_bytes i)); ulia. }
  cbn [result_bind]. unfold int_bytes in *. destruct (Z.eqb_spec i 0) as [->|]; [done|].
  destruct (decode_putint i) as [Hd Hnz]; [ulia|].
  destruct (putint i) as [|x [|y l]] eqn:Hp; [done| |].
  - simpl in Hnz. destruct (Z.eqb_spec x 0); [done|]. cbn in Hd. by assert (x = i) as -> by lia.
  - rewrite <- Hp in *. destruct (Z.ltb_spec 8 (len (putint i))); [lia|].
    rewrite <- (app_nil_r (putint i)) at 1. rewrite readSize_putint; [done|].
    destruct (intsize_bytes i) as [_ (_ & Hlo & _)]; [ulia|]. rewrite <- putint_len in Hlo by ulia. rewrite Hp in Hlo.
    assert (256 ^ 1 <= 256 ^ (len (x :: y :: l) - 1)); [|ulia].
    apply Z.pow_le_mono_r; [lia|]. rewrite !len_cons. pose proof (len_nonneg l). lia.
Qed.

Lemma SplitUint64_inv b i rest :
  Forall is_byte b → len b < two64 → SplitUint64 b = Ok (i, rest) →
  is_uint64 i ∧ ∃ k, k ≠ List ∧ canonical k (int_bytes i) ∧ b = enc_value k (int_bytes i) ++ rest.
Proof.
  intros Hb Hl. unfold SplitUint64, SplitString. destruct (Split b) as [[[k c] r]|] eqn:Hs; [|done].
  destruct (Split_inv _ _ _ _ Hb Hl Hs) as [He Hc]. cbn [result_bind]. case_bool_decide as Hk; [done|]. cbn [result_bind].
  assert (Hcb : Forall is_byte c).
  { subst b. apply Forall_app in Hb as [Hb _]. by destruct k; [|apply Forall_app in Hb as [_ ?]..]. }
  assert (Hfin : ∀ i, is_uint64 i → int_bytes i = c →
    is_uint64 i ∧ ∃ k, k ≠ List ∧ canonical k (int_bytes i) ∧ b = enc_value k (int_bytes i) ++ r).
  { intros j Hj ->. split; [done|]. by exists k. }
  unfold int_bytes in Hfin at 1. destruct c as [|x [|y c']].
  - intros [= <- <-]. by apply Hfin.
  - destruct (Z.eqb_spec x 0) as [|Hx]; [done|]. intros [= <- <-]. apply Forall_inv in Hcb. unfold is_byte in Hcb.
    apply Hfin; [ulia|]. destruct (Z.eqb_spec x 0); [done|]. by apply putint_byte.
  - destruct (Z.ltb_spec 8 (len (x :: y :: c'))); [done|]. destruct (readSize _ _) as [s|] eqn:Hrs; [|done].
    intros [= <- <-]. apply readSize_inv in Hrs as (Hr56 & Hlen & Heq); [|done|rewrite !len_cons in *; pose proof (len_nonneg c'); lia].
    apply Hfin; [ulia|]. destruct (Z.eqb_spec s 0); [lia|]. rewrite to_nat_len, drop_all, app_nil_r in Heq. by rewrite <- Heq.
Qed.

Lemma enc_value_string k c : k ≠ List → canonical k c → enc_value k c = encode (Str c).
Proof. intros Hk Hc. rewrite (proj1 (encode_value (Str c))). cbn. by destruct k; [rewrite Hc|rewrite Hc|]. Qed.

(** A uint64 written by [AppendUint64], or by the encoder buffer, is read
    back by [SplitUint64] in front of any bytes, and no other encoding of an
    integer is accepted. *)
Theorem uint64_roundtrip i b rest :
  (is_uint64 i → Forall is_byte rest → len rest < 2 ^ 63 →
    SplitUint64 (AppendUint64 [] i ++ rest) = Ok (i, rest) ∧
    ∀ buf, Enc.writeUint64 buf i = Enc.write_raw buf (AppendUint64 [] i)) ∧
  (Forall is_byte b → len b < two64 → SplitUint64 b = Ok (i, rest) →
    is_uint64 i ∧ b = AppendUint64 [] i ++ rest).
Proof.
  split.
  - intros. split; [by apply SplitUint64_AppendUint64|]. intros buf. unfold Enc.writeUint64, AppendUint64.
    by destruct (i =? 0), (i <? 128).
  - intros Hb Hl H. destruct (SplitUint64_inv _ _ _ Hb Hl H) as (Hi & k & Hk & Hc & ->). split; [done|].
    rewrite AppendUint64_item by done. by rewrite enc_value_string.
Qed.

(** ** The encoder buffer: lemmas *)

(** The offsets rise from [k] to at most [m]. *)
Fixpoint ascending (k m : Z) (hs : list listhead) : Prop :=
  match hs with
  | [] => k <= m
  | h :: hs => k <= offset h ∧ ascending (offset h) m hs
  end.

Definition shift (n : Z) (h : listhead) : listhead := MkListhead (offset h + n) (lh_size h).

Lemma ascending_le k m hs : ascending k m hs → k <= m.
Proof. revert k. induction hs as [|h hs IH]; intros k; [done|]. intros [H Hh]. apply IH in Hh. lia. Qed.

Lemma ascending_app k m m' hs hs' :
  ascending k m hs → ascending 0 m' hs' → 0 <= m → ascending k (m + m') (hs ++ map (shift m) hs').
Proof.
  intros H H' Hm. revert k H. induction hs as [|h hs IH]; intros k; cbn.
  - intros Hk. assert (Hgo : ∀ j hs', ascending j m' hs' → ascending (j + m) (m + m') (map (shift m) hs')).
    { intros j l. revert j. induction l as [|h l IHl]; intros j; cbn; [lia|]. intros [? ?]. split; [lia|]. by apply IHl. }
    specialize (Hgo 0 hs' H'). destruct hs' as [|h' hs']; cbn in *; [lia|]. destruct Hgo. split; [lia|done].
  - intros [? ?]. split; [done|]. by apply IH.
Qed.

Lemma drop_len_app {A} (p s : list A) k : 0 <= k → drop (Z.to_nat (len p + k)) (p ++ s) = drop (Z.to_nat k) s.
Proof.
  intros Hk. rewrite drop_app_ge by (unfold len; lia). f_equal. unfold len. lia.
Qed.

Lemma copy_heads_shift p s hs k m :
  0 <= k → ascending k m hs →
  Enc.copy_heads (p ++ s) (map (shift (len p)) hs) (len p + k) = Enc.copy_heads s hs k.
Proof.
  revert k. induction hs as [|h hs IH]; intros k Hk; cbn [map Enc.copy_heads]; [by intros _; apply drop_len_app|].
  intros [Ho Ha]. rewrite drop_len_app by done. cbn [shift offset].
  replace (offset h + len p - (len p + k)) with (offset h - k) by lia. do 2 f_equal.
  replace (len p + k + (offset h - k)) with (len p + offset h) by lia.
  replace (k + (offset h - k)) with (offset h) by lia. apply IH; [lia|done].
Qed.

Lemma copy_heads_app s1 s2 hs1 hs2 k m2 :
  0 <= k → ascending k (len s1) hs1 → ascending 0 m2 hs2 →
  Enc.copy_heads (s1 ++ s2) (hs1 ++ map (shift (len s1)) hs2) k = Enc.copy_heads s1 hs1 k ++ Enc.copy_heads s2 hs2 0.
Proof.
  intros Hk H1 H2. revert k Hk H1. induction hs1 as [|h hs1 IH]; intros k Hk; cbn [app Enc.copy_heads ascending].
  - intros Hle. destruct hs2 as [|h2 hs2]; cbn [map Enc.copy_heads].
    + rewrite drop_app_le; [done|unfold len in Hle; lia].
    + destruct H2 as [H0 H2]. cbn [shift offset]. rewrite drop_app_le by (unfold len in Hle; lia).
      rewrite take_app_ge by (rewrite length_drop; unfold len in *; lia). rewrite <- app_assoc. f_equal.
      rewrite length_drop, Z.sub_0_r, Z.add_0_l. change (drop (Z.to_nat 0) s2) with s2.
      replace (Z.to_nat (offset h2 + len s1 - k) - (length s1 - Z.to_nat k))%nat with (Z.to_nat (offset h2)) by (unfold len in *; lia).
      replace (k + (offset h2 + len s1 - k)) with (len s1 + offset h2) by lia.
      by rewrite (copy_heads_shift s1 s2 hs2 _ m2).
  - intros [Ho Ha]. pose proof (ascending_le _ _ _ Ha). rewrite drop_app_le by (unfold len in *; lia).
    rewrite take_app_le by (rewrite length_drop; unfold len in *; lia). rewrite <- !app_assoc. do 2 f_equal.
    apply IH; [lia|]. by replace (k + (offset h - k)) with (offset h) by lia.
Qed.

(** What writing adds to a buffer: the string data [s], the headers [hs] and
    their size, which together are the bytes [e]. *)
Definition adds (buf buf' : encBuffer) (e : bytes) : Prop :=
  ∃ s hs, str buf' = str buf ++ s ∧ lheads buf' = lheads buf ++ map (shift (len (str buf))) hs ∧
    lhsize buf' + len s = lhsize buf + len e ∧ Enc.copy_heads s hs 0 = e ∧ ascending 0 (len s) hs.

Lemma adds_nil buf : adds buf buf [].
Proof. exists [], []. cbn. rewrite !app_nil_r. by split_and!. Qed.

Lemma adds_raw buf b : adds buf (Enc.write_raw buf b) b.
Proof. exists b, []. cbn. rewrite app_nil_r. split_and!; try done; try apply len_nonneg; by rewrite drop_0. Qed.

Lemma adds_app buf buf' buf'' e e' : adds buf buf' e → adds buf' buf'' e' → adds buf buf'' (e ++ e').
Proof.
  intros (s & hs & Hs & Hh & Hz & Hc & Ha) (s' & hs' & Hs' & Hh' & Hz' & Hc' & Ha').
  exists (s ++ s'), (hs ++ map (shift (len s)) hs'). split_and!.
  - by rewrite Hs', Hs, app_assoc.
  - rewrite Hh', Hh, Hs, map_app, <- app_assoc. do 2 f_equal. rewrite map_map. apply map_ext. intros h.
    unfold shift. cbn. f_equal. rewrite len_app. lia.
  - rewrite !len_app in *. lia.
  - rewrite (copy_heads_app s s' hs hs' 0 (len s')) by (done || lia). by rewrite Hc, Hc'.
  - rewrite len_app. apply ascending_app; [done|done|apply len_nonneg].
Qed.

Lemma adds_makeBytes buf e : adds Enc.reset buf e → Enc.makeBytes buf = e ∧ Enc.size buf = len e.
Proof.
  intros (s & hs & Hs & Hh & Hz & Hc & Ha). unfold Enc.makeBytes, Enc.size. cbn in *. rewrite Hs, Hh. split; [|lia].
  rewrite <- Hc. change (len []) with 0. f_equal. rewrite <- (map_id hs) at 2. apply map_ext. intros [o z].
  unfold shift. cbn. f_equal. lia.
Qed.

Lemma adds_list buf buf' e :
  adds (Enc.list_ buf).1 buf' e → ∃ buf'', Enc.listEnd buf' (Enc.list_ buf).2 = Some buf'' ∧ adds buf buf'' (encode_list e).
Proof.
  intros (s & hs & Hs & Hh & Hz & Hc & Ha). unfold Enc.list_ in *. cbn in *. unfold Enc.listEnd.
  rewrite Hh, <- app_assoc. cbn [app]. rewrite list_lookup_middle by done. cbn [mbind option_bind offset lh_size].
  unfold Enc.size. rewrite Hs, len_app.
  replace (len (str buf) + len s + lhsize buf' - len (str buf) - lhsize buf) with (len e) by lia.
  eexists. split; [done|]. exists s, (MkListhead 0 (len e) :: hs). cbn [str lheads lhsize]. split_and!; [done| | | |].
  - rewrite insert_app_r_alt by done. rewrite Nat.sub_diag. done.
  - unfold encode_list. rewrite len_app, puthead_len by apply len_nonneg. unfold headsize. split_ifs; lia.
  - cbn [Enc.copy_heads offset]. unfold encode_list, Enc.head_encode. cbn [lh_size]. change (0 - 0) with 0. rewrite Z.add_0_r, Hc. done.
  - split; [done|]. done.
Qed.

Lemma adds_writeBytes buf b : adds buf (Enc.writeBytes buf b) (encode (Str b)).
Proof.
  assert (H : adds buf (Enc.write_raw (Enc.encodeStringHeader buf (len b)) b) (puthead 128 183 (len b) ++ b))
    by (eapply adds_app; apply adds_raw).
  cbn. unfold encode_string. destruct b as [|x [|y b]]; cbn [Enc.writeBytes]; [done| |done].
  destruct (x <=? 127); [apply adds_raw|done].
Qed.

Lemma write_item_list buf l :
  write_item buf (Lst l) = (let '(buf, index) := Enc.list_ buf in buf ← write_items buf l; Enc.listEnd buf index).
Proof.
  reflexivity.
Qed.

Lemma write_item_adds it buf : ∃ buf', write_item buf it = Some buf' ∧ adds buf buf' (encode it).
Proof.
  revert buf. induction it as [b|l IH] using item_ind'; intros buf.
  - exists (Enc.writeBytes buf b). split; [done|apply adds_writeBytes].
  - rewrite write_item_list. cbn [encode]. set (e := concat (map encode l)).
    assert (Hw : ∀ buf, ∃ buf', write_items buf l = Some buf' ∧ adds buf buf' e).
    { clear buf. subst e. induction IH as [|it l Hit _ IHl]; intros buf; [by exists buf; split; [|apply adds_nil]|].
      cbn [map concat write_items]. destruct (Hit buf) as (b1 & H1 & A1).
      destruct (IHl b1) as (b2 & H2 & A2). rewrite H1. cbn [mbind option_bind]. rewrite H2.
      exists b2. split; [done|]. by eapply adds_app. }
    destruct (Hw (Enc.list_ buf).1) as (b1 & H1 & A1). destruct (adds_list buf b1 e A1) as (b2 & H2 & A2).
    destruct (Enc.list_ buf) as [b0 i]. cbn [fst snd] in *. rewrite H1. cbn [mbind option_bind]. eauto.
Qed.

Lemma EncodeToBytes_encode it : EncodeToBytes it = Some (encode it).
Proof.
  destruct (write_item_adds it Enc.reset) as (buf & Hw & Ha). destruct (adds_makeBytes _ _ Ha) as [Hm Hs].
  unfold EncodeToBytes. rewrite Hw. cbn. by rewrite Hm.
Qed.

(** The encoder buffer, which learns the size of a list after its elements
    and keeps the headers apart, never indexes out of range and writes the same
    bytes as the format defines, in the size it computed. *)
Theorem encBuffer_encodes it :
  EncodeToBytes it = Some (encode it) ∧
  ∃ buf, write_item Enc.reset it = Some buf ∧ Enc.size buf = len (encode it).
Proof.
  split; [apply EncodeToBytes_encode|]. destruct (write_item_adds it Enc.reset) as (buf & Hw & Ha).
  destruct (adds_makeBytes _ _ Ha) as [Hm Hs]. eauto.
Qed.

(** ** Applications at concrete inputs *)

Definition cat_dog : item :=
  Lst [Str [99; 97; 116]; Str [100; 111; 103]; Lst []; Str [5]; Str (replicate 60 200)].

Lemma cat_dog_bytes : Forall is_byte (encode cat_dog).
Proof.
  apply encode_bytes. unfold cat_dog. apply item_bytes_list. repeat constructor; cbn; try done; repeat constructor; unfold is_byte; lia.
Qed.

Lemma Split_exact_witness :
  Split (encode cat_dog ++ [1; 2]) = Ok (List, item_content cat_dog, [1; 2]) ↔
  encode cat_dog ++ [1; 2] = enc_value List (item_content cat_dog) ++ [1; 2] ∧ canonical List (item_content cat_dog).
Proof.
  apply (Split_exact (encode cat_dog ++ [1; 2])); [|reflexivity].
  apply Forall_app. split; [apply cat_dog_bytes|]. repeat constructor; unfold is_byte; lia.
Defined.
