(* ===== verification/RlpStream.v ===== *)
(** * RLP: the decoding stream

    parallelizable-client-go-ethereum/rlp/decode.go: [Stream] over a slice of
    bytes, the limits of the input and of the lists it is in, and the decoder of
    an [interface{}], which reads any value.  The stack holds how much is left of
    each list, the innermost first; [kind] is [None] for the code's -1.  The
    scratch buffer of the stream is left out, and errors are not wrapped with
    their context. *)

From S2P Require Import Prelude StateError Rlp.
Open Scope eigen_scope.
Open Scope step_scope.

Record Stream : Type := MkStream {
  r : bytes;
  remaining : Z;
  size : Z;
  kinderr : option rlp_error;
  stack : list Z;
  kind : option Kind;
  byteval : Z;
  limited : bool
}.

(** A step of the stream: a result or an error, and the stream after it. *)
Abbreviation M A := (SE Stream rlp_error A).

Definition set_kind (k : option Kind) (s : Stream) : Stream :=
  MkStream (r s) (remaining s) (size s) (kinderr s) (stack s) k (byteval s) (limited s).
Definition set_byteval (b : Z) (s : Stream) : Stream :=
  MkStream (r s) (remaining s) (size s) (kinderr s) (stack s) (kind s) b (limited s).
Definition set_stack (st : list Z) (s : Stream) : Stream :=
  MkStream (r s) (remaining s) (size s) (kinderr s) st (kind s) (byteval s) (limited s).
Definition set_size (n : Z) (s : Stream) : Stream :=
  MkStream (r s) (remaining s) n (kinderr s) (stack s) (kind s) (byteval s) (limited s).
Definition set_r (b : bytes) (s : Stream) : Stream :=
  MkStream b (remaining s) (size s) (kinderr s) (stack s) (kind s) (byteval s) (limited s).
Definition set_remaining (n : Z) (s : Stream) : Stream :=
  MkStream (r s) n (size s) (kinderr s) (stack s) (kind s) (byteval s) (limited s).

Definition listLimit (s : Stream) : option Z := head (stack s).

Definition top_minus (n : Z) (st : list Z) : list Z :=
  match st with [] => [] | limit :: st => wrap64 (limit - n) :: st end.

Definition willRead (n : Z) : M () :=
  do! modify (set_kind None);
  do limit <- get listLimit;
  do! (match limit with
      | Some limit => if limit <? n then fail ErrElemTooLarge else modify (λ s, set_stack (top_minus n (stack s)) s)
      | None => ret tt
      end);
  do lim <- get limited;
  if lim : bool then
    do rem <- get remaining;
    if rem <? n then fail ErrValueTooLarge else modify (set_remaining (rem - n))
  else ret tt.

Definition readByte : M Z :=
  do! willRead 1;
  do b <- get r;
  match b with
  | [] => fail io_ErrUnexpectedEOF
  | x :: b => do! modify (set_r b); ret x
  end.

(** [readFull] into a buffer of [n] bytes. *)
Definition readFull (n : Z) : M bytes :=
  do! willRead n;
  do b <- get r;
  if len b <? n then do! modify (set_r []); fail io_ErrUnexpectedEOF
  else do! modify (set_r (drop (Z.to_nat n) b)); ret (take (Z.to_nat n) b).

(** Sizes are at most eight bytes. *)
Definition readUint (n : Z) : M Z :=
  if n =? 0 then do! modify (set_kind None); ret 0
  else if n =? 1 then readByte
  else
    do buffer <- readFull n;
    if nth 0 buffer 0 =? 0 then fail ErrCanonSize else ret (be_decode buffer).

(** At the top level the end of the input is [io.EOF]. *)
Definition top_eof (err : rlp_error) (s : Stream) : rlp_error :=
  match stack s, err with
  | [], io_ErrUnexpectedEOF => io_EOF
  | [], ErrValueTooLarge => io_EOF
  | _, _ => err
  end.

Definition long_size (n : Z) : M Z :=
  do size <- readUint n; if size <? 56 then fail ErrCanonSize else ret size.

Definition readKind : M (Kind * Z) := λ s,
  match readByte s with
  | (Err err, s) => (Err (top_eof err s), s)
  | (Ok b, s) =>
      (do! modify (set_byteval 0);
       if b <? 128 then do! modify (set_byteval b); ret (Byte, 0)
       else if b <? 184 then ret (String, b - 128)
       else if b <? 192 then do size <- long_size (b - 183); ret (String, size)
       else if b <? 248 then ret (List, b - 192)
       else do size <- long_size (b - 247); ret (List, size)) s
  end.

(** What [Kind] stores of the answer of [readKind].  With an error only the error
    is read afterwards, and the kind and the size stored here are [Byte] and
    zero. *)
Definition store_kind (k : Kind) (n : Z) (err : option rlp_error) (s : Stream) : Stream :=
  MkStream (r s) (remaining s) n err (stack s) (Some k) (byteval s) (limited s).

Definition answer (s : Stream) : result rlp_error (Kind * Z) :=
  match kinderr s with
  | Some err => Err err
  | None => match kind s with Some k => Ok (k, size s) | None => Err NoFuel end
  end.

Definition Kind_ : M (Kind * Z) := λ s,
  match kind s with
  | Some _ => (answer s, s)
  | None =>
      let limit := listLimit s in
      if bool_decide (limit = Some 0) then (Err EOL, s)
      else
        let s' :=
          match readKind s with
          | (Err err, s) => store_kind Byte 0 (Some err) s
          | (Ok (k, n), s) =>
              let err :=
                if (match limit with Some limit => limit <? n | None => false end) then Some ErrElemTooLarge
                else if limited s && (remaining s <? n) then Some ErrValueTooLarge
                else None in
              store_kind k n err s
          end in
        (answer s', s')
  end.

Definition rearm : M () := modify (set_kind None).

Definition Bytes : M bytes :=
  do (k, n) <- Kind_;
  match k with
  | Byte => do x <- get byteval; do! rearm; ret [x]
  | String =>
      do b <- readFull n;
      if (n =? 1) && (nth 0 b 0 <? 128) then fail ErrCanonSize else ret b
  | List => fail ErrExpectedString
  end.

(** [ReadBytes] into a buffer of [l] bytes. *)
Definition ReadBytes (l : Z) : M bytes :=
  do (k, n) <- Kind_;
  match k with
  | Byte => if negb (l =? 1) then fail WrongSize else do x <- get byteval; do! rearm; ret [x]
  | String =>
      if negb (l =? n) then fail WrongSize
      else
        do b <- readFull n;
        if (n =? 1) && (nth 0 b 0 <? 128) then fail ErrCanonSize else ret b
  | List => fail ErrExpectedString
  end.

Definition Raw : M bytes :=
  do (k, n) <- Kind_;
  match k with
  | Byte => do x <- get byteval; do! rearm; ret [x]
  | String => do b <- readFull n; ret (puthead 128 183 n ++ b)
  | List => do b <- readFull n; ret (puthead 192 247 n ++ b)
  end.

Definition uint_ (maxbits : Z) : M Z :=
  do (k, n) <- Kind_;
  match k with
  | Byte => do x <- get byteval; if x =? 0 then fail ErrCanonInt else do! rearm; ret x
  | String =>
      if maxbits / 8 <? n then fail errUintOverflow
      else λ s,
        match readUint n s with
        | (Err ErrCanonSize, s) => (Err ErrCanonInt, s)
        | (Err err, s) => (Err err, s)
        | (Ok v, s) => if (0 <? n) && (v <? 128) then (Err ErrCanonSize, s) else (Ok v, s)
        end
  | List => fail ErrExpectedString
  end.

Definition Uint64 : M Z := uint_ 64.

Definition Bool_ : M bool :=
  do num <- uint_ 8;
  if num =? 0 then ret false else if num =? 1 then ret true else fail InvalidBool.

(** The bytes of an integer: those that [decodeBigInt] and [ReadUint256] share. *)
Definition int_buffer (max : option Z) : M bytes :=
  do (k, n) <- Kind_;
  match k with
  | List => fail ErrExpectedString
  | Byte => do x <- get byteval; do! rearm; ret [x]
  | String =>
      if n =? 0 then do! rearm; ret []
      else if n <=? 32 then
        do b <- readFull n;
        if (n =? 1) && (nth 0 b 0 <? 128) then fail ErrCanonSize else ret b
      else match max with Some _ => fail errUint256Large | None => readFull n end
  end.

Definition int_of (b : bytes) : M Z :=
  if (0 <? len b) && (nth 0 b 0 =? 0) then fail ErrCanonInt else ret (be_decode b).

Definition decodeBigInt : M Z := do b <- int_buffer None; int_of b.
Definition ReadUint256 : M Z := do b <- int_buffer (Some 32); int_of b.

(** The size of the inner list is taken from the outer one, which may wrap: the
    check of [Kind] is against what was left before the tag. *)
Definition List_ : M Z :=
  do (k, n) <- Kind_;
  if negb (bool_decide (k = List)) then fail ErrExpectedList
  else
    do! modify (λ s, set_size 0 (set_kind None (set_stack (n :: top_minus n (stack s)) s)));
    ret n.

Definition ListEnd : M () :=
  do limit <- get listLimit;
  match limit with
  | None => fail errNotInList
  | Some limit =>
      if 0 <? limit then fail errNotAtEOL
      else modify (λ s, set_size 0 (set_kind None (set_stack (tail (stack s)) s)))
  end.

Definition MoreDataInList : M bool := get (λ s, match listLimit s with Some limit => 0 <? limit | None => false end).

(** ** The decoder of an [interface{}] *)

Fixpoint decodeInterface (fuel : nat) : M item :=
  match fuel with
  | O => fail NoFuel
  | S fuel =>
      do (k, _) <- Kind_;
      if bool_decide (k = List) then
        (** [decodeListSlice] *)
        do n <- List_;
        if n =? 0 then do! ListEnd; ret (Lst [])
        else do l <- decodeSliceElems fuel; do! ListEnd; ret (Lst l)
      else do b <- Bytes; ret (Str b)
  end
with decodeSliceElems (fuel : nat) : M (list item) :=
  match fuel with
  | O => fail NoFuel
  | S fuel => λ s,
      match decodeInterface fuel s with
      | (Err EOL, s) => (Ok [], s)
      | (Err err, s) => (Err err, s)
      | (Ok it, s) => (do l <- decodeSliceElems fuel; ret (it :: l)) s
      end
  end.

(** [Reset] on a slice: the limit is the length, and none when it is zero. *)
Definition Reset (b : bytes) : Stream :=
  MkStream b (len b) 0 None [] None 0 (0 <? len b).

(** [DecodeBytes] into an [interface{}]. *)
Definition DecodeBytes (b : bytes) : result rlp_error item :=
  match decodeInterface (2 * length b + 1) (Reset b) with
  | (Err err, _) => Err err
  | (Ok it, s) => if 0 <? len (r s) then Err ErrMoreThanOneValue else Ok it
  end.

(** ** What a read takes from the stream *)

(** [s'] is [s] after the bytes [b] were taken. *)
Definition took (b : bytes) (s s' : Stream) : Prop :=
  r s = b ++ r s' ∧ stack s' = top_minus (len b) (stack s) ∧ limited s' = limited s ∧
  (limited s = true → remaining s' = remaining s - len b).

(** The limits leave room for [n] bytes. *)
Definition fits (n : Z) (s : Stream) : Prop :=
  (∀ limit, listLimit s = Some limit → n <= limit) ∧ (limited s = true → n <= remaining s).

Definition wf (s : Stream) : Prop :=
  Forall is_byte (r s) ∧ len (r s) < two64 ∧ Forall is_uint64 (stack s).

Lemma top_minus_0 st : Forall is_uint64 st → top_minus 0 st = st.
Proof. destruct 1 as [|l st Hl]; [done|]. cbn. by rewrite Z.sub_0_r, wrap64_id. Qed.

Lemma top_minus_add n m st : top_minus m (top_minus n st) = top_minus (n + m) st.
Proof.
  destruct st as [|l st]; [done|]. cbn. f_equal. unfold wrap64. rewrite Zminus_mod_idemp_l. f_equal. lia.
Qed.

Lemma top_minus_uint n st : Forall is_uint64 st → Forall is_uint64 (top_minus n st).
Proof. destruct 1; constructor; [apply wrap64_range|done]. Qed.

Lemma took_trans b b' s s' s'' : took b s s' → took b' s' s'' → took (b ++ b') s s''.
Proof.
  intros (Hr & Hs & Hl & Hm) (Hr' & Hs' & Hl' & Hm'). split_and!.
  - by rewrite Hr, Hr', app_assoc.
  - by rewrite Hs', Hs, top_minus_add, len_app.
  - congruence.
  - intros H. rewrite Hm', Hm by congruence. rewrite len_app. lia.
Qed.

Lemma took_wf b s s' : took b s s' → wf s → wf s'.
Proof.
  intros (Hr & Hs & _ & _) (Hb & Hl & Hu). rewrite Hr in Hb, Hl. apply Forall_app in Hb as [_ Hb].
  rewrite len_app in Hl. pose proof (len_nonneg b). split_and!; [done|lia|]. rewrite Hs. by apply top_minus_uint.
Qed.

Lemma took_fits b n s s' : took b s s' → wf s → fits (len b + n) s → 0 <= n → fits n s'.
Proof.
  intros (Hr & Hs & Hl & Hm) (_ & _ & Hu) [Hf Hg] Hn. pose proof (len_nonneg b). split.
  - unfold listLimit in *. rewrite Hs. destruct (stack s) as [|l st]; [done|]. cbn in *. intros ? [= <-].
    specialize (Hf l eq_refl). apply Forall_inv in Hu. rewrite wrap64_id; ulia.
  - intros H1. rewrite Hl in H1. specialize (Hg H1). specialize (Hm H1). lia.
Qed.

Lemma fits_mono n m s : fits n s → m <= n → fits m s.
Proof. intros [Hf Hg] Hm. split; [intros l Hl; specialize (Hf l Hl)|intros Hl; specialize (Hg Hl)]; lia. Qed.

(** The part of a stream that the reads look at. *)
Definition same_input (s s' : Stream) : Prop :=
  r s' = r s ∧ stack s' = stack s ∧ limited s' = limited s ∧ remaining s' = remaining s.

Lemma same_took b s s' s'' : same_input s' s'' → took b s s' → took b s s''.
Proof. intros (H1 & H2 & H3 & H4) (? & ? & ? & ?). unfold took. by rewrite H1, H2, H3, H4. Qed.

Lemma took_same b s s' s'' : same_input s s' → took b s' s'' → took b s s''.
Proof. intros (H1 & H2 & H3 & H4) (? & ? & ? & ?). unfold took in *. rewrite H1, H2, H3, H4 in *. done. Qed.

(** *** Reads that succeed *)

Lemma willRead_inv n s s' :
  willRead n s = (Ok tt, s') →
  r s' = r s ∧ stack s' = top_minus n (stack s) ∧ limited s' = limited s ∧
  (limited s = true → remaining s' = remaining s - n) ∧ kind s' = None.
Proof.
  unfold willRead, bind, modify, get, fail, ret, listLimit. destruct s as [b rem sz ke st k bv lim]. cbn.
  destruct st as [|l st]; cbn; [|destruct (l <? n); [done|]; cbn];
    (destruct lim; cbn; [destruct (rem <? n); [done|]|]); by intros [= <-].
Qed.

Lemma willRead_ok n s : fits n s → ∃ s', willRead n s = (Ok tt, s').
Proof.
  unfold fits, willRead, bind, modify, get, fail, ret, listLimit. destruct s as [b rem sz ke st k bv lim]. cbn.
  intros [Hf Hg]. destruct st as [|l st]; cbn; [|specialize (Hf l eq_refl); destruct (Z.ltb_spec l n); [lia|]; cbn];
    (destruct lim; cbn; [specialize (Hg eq_refl); destruct (Z.ltb_spec rem n); [lia|]|]); by eexists.
Qed.

Lemma readByte_inv s x s' : readByte s = (Ok x, s') → took [x] s s' ∧ kind s' = None.
Proof.
  unfold readByte, bind at 1. destruct (willRead 1 s) as [[[]|] s1] eqn:Hw; [|done].
  destruct (willRead_inv _ _ _ Hw) as (Hr & Hs & Hl & Hm & Hk). unfold bind, get, modify, ret, fail.
  destruct (r s1) as [|y b] eqn:Hb; [done|]. intros [= <- <-]. split; [|done]. unfold took. change (len [y]) with 1. split_and!; cbn; first [congruence|exact Hm].
Qed.

Lemma readByte_ok s x b :
  r s = x :: b → fits 1 s → ∃ s', readByte s = (Ok x, s').
Proof.
  intros Hr Hf. destruct (willRead_ok _ _ Hf) as [s1 Hw]. destruct (willRead_inv _ _ _ Hw) as (Hr1 & _).
  unfold readByte, bind at 1. rewrite Hw. unfold bind, get, modify, ret. rewrite Hr1, Hr. by eexists.
Qed.

Lemma readFull_inv n s b s' : 0 <= n → readFull n s = (Ok b, s') → took b s s' ∧ len b = n ∧ kind s' = None.
Proof.
  intros Hn. unfold readFull, bind at 1. destruct (willRead n s) as [[[]|] s1] eqn:Hw; [|done].
  destruct (willRead_inv _ _ _ Hw) as (Hr & Hs & Hl & Hm & Hk). unfold bind, get, modify, ret, fail.
  destruct (Z.ltb_spec (len (r s1)) n); [done|]. intros [= <- <-].
  assert (Hlen : len (take (Z.to_nat n) (r s1)) = n) by (apply take_exact; lia).
  split_and!; [|done|done]. unfold took. rewrite Hlen. cbn. rewrite take_drop. split_and!; first [congruence|exact Hm].
Qed.

Lemma readFull_ok s b rest : r s = b ++ rest → fits (len b) s → ∃ s', readFull (len b) s = (Ok b, s').
Proof.
  intros Hr Hf. destruct (willRead_ok _ _ Hf) as [s1 Hw]. destruct (willRead_inv _ _ _ Hw) as (Hr1 & _).
  unfold readFull, bind at 1. rewrite Hw. unfold bind, get, modify, ret. rewrite Hr1, Hr, len_app.
  destruct (Z.ltb_spec (len b + len rest) (len b)); [pose proof (len_nonneg rest); lia|].
  rewrite to_nat_len, take_app_length. by eexists.
Qed.

(** *** The tag of a value *)

(** The bytes [h] in front of a value of kind [k] and size [n]; the content of a
    single byte is its own tag, [x]. *)
Definition tag (k : Kind) (n x : Z) (h : bytes) : Prop :=
  match k with
  | Byte => n = 0 ∧ h = [x] ∧ 0 <= x < 128
  | String => 0 <= n < two64 ∧ h = puthead 128 183 n
  | List => 0 <= n < two64 ∧ h = puthead 192 247 n
  end.

Lemma long_size_inv n s v s' :
  wf s → 1 <= n <= 8 → long_size n s = (Ok v, s') →
  took (putint v) s s' ∧ n = len (putint v) ∧ 56 <= v < two64 ∧ kind s' = None.
Proof.
  intros Hwf Hn. unfold long_size, readUint. destruct (Z.eqb_spec n 0); [lia|].
  destruct (Z.eqb_spec n 1) as [->|Hn1].
  - unfold bind. destruct (readByte s) as [[x|] s1] eqn:Hb; [|done]. apply readByte_inv in Hb as [Ht Hk].
    destruct (Z.ltb_spec x 56); [done|]. intros [= <- <-].
    assert (Hx : is_byte x) by (destruct Hwf as [Hwf _], Ht as [Hr _]; rewrite Hr in Hwf; by apply Forall_inv in Hwf).
    unfold is_byte in Hx. rewrite putint_byte by lia. split_and!; [done|done|lia|ulia|done].
  - unfold bind. destruct (readFull n s) as [[b|] s1] eqn:Hb; [|done]. apply readFull_inv in Hb as (Ht & Hl & Hk); [|lia].
    destruct (Z.eqb_spec (nth 0 b 0) 0); [done|]. cbn. unfold ret, fail.
    destruct (Z.ltb_spec (be_decode b) 56); [done|]. intros [= <- <-].
    assert (Hb : Forall is_byte b) by (destruct Hwf as [Hwf _], Ht as [Hr _]; rewrite Hr in Hwf; by apply Forall_app in Hwf as [? _]).
    destruct (putint_decode b) as (Hp & Hr & _); [done|done|lia|]. rewrite Hp. split_and!; [done|done|lia|lia|done].
Qed.

Lemma long_size_ok s v rest :
  56 <= v < two64 → r s = putint v ++ rest → fits (len (putint v)) s → ∃ s', long_size (len (putint v)) s = (Ok v, s').
Proof.
  intros Hv Hr Hf. destruct (intsize_bytes v) as [Hi _]; [lia|]. rewrite <- putint_len in Hi by lia.
  destruct (decode_putint v) as [Hd Hnz]; [lia|]. unfold long_size, readUint. destruct (Z.eqb_spec (len (putint v)) 0); [lia|].
  destruct (Z.eqb_spec (len (putint v)) 1) as [H1|].
  - rewrite H1 in Hf. destruct (putint v) as [|x [|? ?]]; [done| |rewrite !len_cons in H1; pose proof (len_nonneg l); lia].
    destruct (readByte_ok s x rest Hr Hf) as [s1 Hb]. unfold bind. rewrite Hb. cbn in Hd.
    assert (x = v) as -> by lia. unfold ret. destruct (Z.ltb_spec v 56); [lia|]. by eexists.
  - destruct (readFull_ok s _ _ Hr Hf) as [s1 Hb]. unfold bind. rewrite Hb. destruct (Z.eqb_spec (nth 0 (putint v) 0) 0); [done|].
    unfold ret. rewrite Hd. destruct (Z.ltb_spec v 56); [lia|]. by eexists.
Qed.

Lemma stream_readKind_inv s k n s' :
  wf s → readKind s = (Ok (k, n), s') → ∃ h, took h s s' ∧ tag k n (byteval s') h ∧ h ≠ [].
Proof.
  intros Hwf. unfold readKind. destruct (readByte s) as [[x|] s1] eqn:Hb; [|done].
  apply readByte_inv in Hb as [Ht Hk]. pose proof (took_wf _ _ _ Ht Hwf) as Hwf1.
  assert (Hx : is_byte x) by (destruct Hwf as [Hwf _], Ht as [Hr _]; rewrite Hr in Hwf; by apply Forall_inv in Hwf).
  unfold is_byte in Hx. unfold bind at 1, modify. set (s2 := set_byteval 0 s1).
  assert (Ht2 : took [x] s s2) by (eapply same_took; [|exact Ht]; by split_and!).
  assert (Hwf2 : wf s2) by exact Hwf1.
  assert (Hlong : ∀ t, 1 <= x - t <= 8 → 0 <= t <= 247 → ∀ v s3, long_size (x - t) s2 = (Ok v, s3) →
    took (puthead (t + 1 - 56) t v) s s3 ∧ 56 <= v < two64).
  { intros t Htl Htb v s3 Hv. destruct (long_size_inv _ _ _ _ Hwf2 Htl Hv) as (Ht3 & Hn & Hv56 & _).
    split; [|done]. rewrite puthead_large by lia. replace (t + len (putint v)) with x by lia.
    by apply (took_trans [x] (putint v) s s2 s3). }
  destruct (Z.ltb_spec x 128); [|destruct (Z.ltb_spec x 184); [|destruct (Z.ltb_spec x 192); [|destruct (Z.ltb_spec x 248)]]].
  - intros [= <- <- <-]. exists [x]. split; [done|]. split; [|done]. cbn. split_and!; done || lia.
  - intros [= <- <- <-]. exists [x]. split_and!; [done| |done]. cbn. split; [ulia|]. rewrite puthead_small by lia. f_equal. lia.
  - unfold bind. destruct (long_size _ s2) as [[v|] s3] eqn:Hv; [|done]. intros [= <- <- <-].
    destruct (Hlong 183) with (v := v) (s3 := s3) as [Ht3 Hv56]; [lia|lia|done|]. exists (puthead 128 183 v).
    split_and!; [done|cbn; split; [lia|done]|unfold puthead; by destruct (v <? 56)].
  - intros [= <- <- <-]. exists [x]. split_and!; [done| |done]. cbn. split; [ulia|]. rewrite puthead_small by lia. f_equal. lia.
  - unfold bind. destruct (long_size _ s2) as [[v|] s3] eqn:Hv; [|done]. intros [= <- <- <-].
    destruct (Hlong 247) with (v := v) (s3 := s3) as [Ht3 Hv56]; [lia|lia|done|]. exists (puthead 192 247 v).
    split_and!; [done|cbn; split; [lia|done]|unfold puthead; by destruct (v <? 56)].
Qed.

Lemma readKind_ok s k n x h rest :
  wf s → tag k n x h → r s = h ++ rest → fits (len h) s → ∃ s', readKind s = (Ok (k, n), s').
Proof.
  intros Hwf Htag Hr Hf. unfold readKind.
  assert (Hread : ∀ y h', h = y :: h' → ∃ s1, readByte s = (Ok y, s1) ∧ r s1 = h' ++ rest ∧ fits (len h') s1 ∧ wf s1).
  { intros y h' ->. rewrite len_cons in Hf. pose proof (len_nonneg h').
    destruct (readByte_ok s y (h' ++ rest) Hr) as [s1 H1]; [eapply fits_mono; [exact Hf|lia]|].
    destruct (readByte_inv _ _ _ H1) as [Ht _]. exists s1. split_and!; [done| | |by eapply took_wf].
    - destruct Ht as [Ht _]. rewrite Hr in Ht. by injection Ht.
    - eapply (took_fits [y]); [done..|lia]. }
  assert (Hlong : ∀ st t n, 56 <= n < two64 → 0 <= t <= 247 → h = puthead st t n → t + 8 < 256 →
    ∃ s1 s2, readByte s = (Ok (t + len (putint n)), s1) ∧ long_size (len (putint n)) (set_byteval 0 s1) = (Ok n, s2) ∧ 1 <= len (putint n) <= 8).
  { intros st t m Hm Ht Hh _. rewrite puthead_large in Hh by lia. destruct (Hread _ _ Hh) as (s1 & H1 & Hr1 & Hf1 & Hw1).
    destruct (intsize_bytes m) as [Hi _]; [lia|]. rewrite <- putint_len in Hi by lia.
    destruct (long_size_ok (set_byteval 0 s1) m rest) as [s2 H2]; [lia|done|done|]. eauto. }
  destruct k; cbn in Htag.
  - destruct Htag as (-> & -> & Hx). destruct (Hread x [] eq_refl) as (s1 & -> & _). unfold bind at 1, modify.
    destruct (Z.ltb_spec x 128); [by eexists|lia].
  - destruct Htag as [Hn ->]. destruct (Z.lt_ge_cases n 56).
    + destruct (Hread (128 + n) []) as (s1 & -> & _); [by rewrite puthead_small by lia|]. unfold bind at 1, modify.
      split_ifs; try lia. eexists. unfold ret. do 3 f_equal. lia.
    + destruct (Hlong 128 183 n) as (s1 & s2 & -> & H2 & Hi); [lia|lia|done|lia|]. unfold bind at 1, modify. split_ifs; try lia.
      replace (183 + len (putint n) - 183) with (len (putint n)) by lia. unfold bind. rewrite H2. by eexists.
  - destruct Htag as [Hn ->]. destruct (Z.lt_ge_cases n 56).
    + destruct (Hread (192 + n) []) as (s1 & -> & _); [by rewrite puthead_small by lia|]. unfold bind at 1, modify.
      split_ifs; try lia. eexists. unfold ret. do 3 f_equal. lia.
    + destruct (Hlong 192 247 n) as (s1 & s2 & -> & H2 & Hi); [lia|lia|done|lia|]. unfold bind at 1, modify. split_ifs; try lia.
      replace (247 + len (putint n) - 247) with (len (putint n)) by lia. unfold bind. rewrite H2. by eexists.
Qed.

(** The answer is stored: the stream stands after the tag. *)
Definition ready (k : Kind) (n : Z) (s : Stream) : Prop := kind s = Some k ∧ size s = n ∧ kinderr s = None.

Lemma Kind_ready k n s : ready k n s → Kind_ s = (Ok (k, n), s).
Proof. intros (Hk & Hn & He). unfold Kind_, answer. by rewrite Hk, He, Hn. Qed.

Lemma Kind_inv s k n s' :
  wf s → kind s = None → Kind_ s = (Ok (k, n), s') →
  ∃ h, took h s s' ∧ tag k n (byteval s') h ∧ h ≠ [] ∧ ready k n s' ∧ listLimit s ≠ Some 0.
Proof.
  intros Hwf Hk. unfold Kind_. rewrite Hk. case_bool_decide as Heol; [done|].
  destruct (readKind s) as [[[k1 n1]|err] s1] eqn:Hr; cbn; [|done].
  destruct (stream_readKind_inv _ _ _ _ Hwf Hr) as (h & Ht & Htag & Hne).
  set (err := if match listLimit s with Some limit => limit <? n1 | None => false end then _ else _).
  unfold answer, store_kind. cbn [kinderr kind size]. destruct err; [done|]. intros [= -> -> <-].
  exists h. split_and!; done.
Qed.

Lemma Kind_ok s k n x h rest :
  wf s → kind s = None → tag k n x h → r s = h ++ rest → fits (len h + n) s → h ≠ [] →
  ∃ s', Kind_ s = (Ok (k, n), s').
Proof.
  intros Hwf Hk Htag Hr Hf Hne. assert (Hn : 0 <= n) by (destruct k; cbn in Htag; lia).
  assert (Hh : 0 < len h) by (destruct h; [done|rewrite len_cons; pose proof (len_nonneg h); lia]).
  destruct (readKind_ok s k n x h rest Hwf Htag Hr) as [s1 H1]; [eapply fits_mono; [done|lia]|].
  destruct (stream_readKind_inv _ _ _ _ Hwf H1) as (h' & Ht & Htag' & _).
  assert (h' = h) as ->.
  { destruct Ht as [Ht _]. rewrite Hr in Ht. destruct k; cbn in Htag, Htag'; [|by destruct Htag as [_ ->], Htag' as [_ ->]..].
    destruct Htag as (_ & -> & _), Htag' as (_ & -> & _). by injection Ht as ->. }
  unfold Kind_. rewrite Hk, H1. case_bool_decide as Heol.
  { destruct Hf as [Hf _]. specialize (Hf 0 Heol). lia. }
  eexists. f_equal. unfold answer, store_kind. cbn [kinderr kind size].
  assert (match listLimit s with Some limit => limit <? n | None => false end = false) as ->.
  { destruct (listLimit s) as [l|] eqn:Hl; [|done]. destruct Hf as [Hf _]. specialize (Hf l Hl). apply Z.ltb_ge. lia. }
  destruct (limited s1) eqn:Hl; [|done]. destruct Ht as (_ & _ & Hl' & Hm). rewrite Hl' in Hl.
  rewrite Hm by done. destruct Hf as [_ Hf]. specialize (Hf Hl). destruct (Z.ltb_spec (remaining s - len h) n); [lia|done].
Qed.

(** ** Errors that only the control of the decoder uses *)

(** [m] never fails with [e]. *)
Definition never {A} (e : rlp_error) (m : M A) : Prop := ∀ s s', m s ≠ (Err e, s').

Section Never.
Context (e : rlp_error) (He : e = EOL ∨ e = NoFuel).

Lemma never_ret {A} (a : A) : never e (ret a).
Proof. by intros s s'. Qed.

Lemma never_fail {A} e' : e' ≠ e → never e (fail (S := Stream) (A := A) e').
Proof. intros Hne s s' [= ?]. done. Qed.

Lemma never_modify f : never e (modify f).
Proof. by intros s s'. Qed.

Lemma never_get {A} (f : Stream → A) : never e (get f).
Proof. by intros s s'. Qed.

Lemma never_bind {A B} (m : M A) (f : A → M B) : never e m → (∀ a, never e (f a)) → never e (bind m f).
Proof.
  intros Hm Hf s s'. unfold bind. destruct (m s) as [[a|e'] s1] eqn:H; [apply Hf|]. intros [= -> <-]. by eapply Hm.
Qed.

Ltac never := repeat first
  [ assumption | apply never_bind; [|intros ?] | apply never_ret | apply never_modify | apply never_get
  | apply never_fail; destruct He as [-> | ->]; discriminate
  | match goal with |- never _ (match ?x with _ => _ end) => destruct x end ].

Lemma willRead_never n : never e (willRead n).
Proof. unfold willRead. never. Qed.

Lemma readByte_never : never e readByte.
Proof. pose proof (willRead_never 1). unfold readByte. never. Qed.

Lemma readFull_never n : never e (readFull n).
Proof. pose proof (willRead_never n). unfold readFull. never. Qed.

Lemma long_size_never n : never e (long_size n).
Proof. pose proof readByte_never. pose proof (readFull_never n). unfold long_size, readUint. never. Qed.

Lemma readKind_never : never e readKind.
Proof.
  intros s s'. unfold readKind. pose proof (readByte_never s) as Hb. destruct (readByte s) as [[x|err] s1].
  - apply never_bind; [apply never_modify|intros _]. pose proof (long_size_never (x - 183)).
    pose proof (long_size_never (x - 247)). never.
  - intros [= H <-]. apply (Hb s1). f_equal. f_equal. unfold top_eof in H.
    destruct He as [-> | ->], (stack s1), err; done.
Qed.

Lemma Kind_never s s' : kind s = None → listLimit s ≠ Some 0 → Kind_ s ≠ (Err e, s').
Proof.
  intros Hk Hl. unfold Kind_. rewrite Hk, bool_decide_false by done.
  pose proof (readKind_never s) as Hr. destruct (readKind s) as [[[k n]|err] s1]; unfold answer, store_kind; cbn [kinderr kind].
  - destruct (match listLimit s with Some limit => limit <? n | None => false end); [|destruct (limited s1 && _)];
      destruct He as [-> | ->]; done.
  - intros [= -> <-]. by apply (Hr s1).
Qed.

Lemma ListEnd_never : never e ListEnd.
Proof. unfold ListEnd. never. Qed.

Lemma Bytes_never k n s s' : ready k n s → Bytes s ≠ (Err e, s').
Proof.
  intros Hr. unfold Bytes, bind at 1. rewrite (Kind_ready _ _ _ Hr). pose proof (readFull_never n).
  match goal with |- ?m s ≠ _ => enough (never e m) as Hm by apply Hm end. destruct k; unfold rearm; never.
Qed.
End Never.

(** *** Strings *)

Lemma Bytes_inv k n s b s' :
  wf s → ready k n s → k ≠ List → 0 <= n → Bytes s = (Ok b, s') →
  kind s' = None ∧
  match k with
  | Byte => b = [byteval s] ∧ took [] s s'
  | _ => took b s s' ∧ len b = n ∧ small_byte b = false
  end.
Proof.
  intros (_ & _ & Hu) Hr Hk Hn. unfold Bytes, bind at 1. rewrite (Kind_ready _ _ _ Hr). destruct k; [| |done].
  - unfold bind, get, rearm, modify, ret. intros [= <- <-]. split; [done|]. split; [done|].
    unfold took. change (len []) with 0. cbn. split_and!; [done| |done|intros _; lia]. by rewrite top_minus_0.
  - unfold bind. destruct (readFull n s) as [[c|] s1] eqn:Hf; [|done]. apply readFull_inv in Hf as (Ht & Hl & Hk1); [|done].
    destruct ((n =? 1) && (nth 0 c 0 <? 128)) eqn:Hs; [done|]. intros [= <- <-]. split; [done|]. split; [done|]. split; [done|].
    destruct c as [|x [|? ?]]; try done. cbn in Hl. subst n. exact Hs.
Qed.

Lemma Bytes_string_ok s b rest :
  ready String (len b) s → r s = b ++ rest → fits (len b) s → small_byte b = false → ∃ s', Bytes s = (Ok b, s').
Proof.
  intros Hr Hb Hf Hs. unfold Bytes, bind at 1. rewrite (Kind_ready _ _ _ Hr).
  destruct (readFull_ok s b rest Hb Hf) as [s1 H1]. unfold bind. rewrite H1.
  assert ((len b =? 1) && (nth 0 b 0 <? 128) = false) as ->; [|by eexists].
  destruct b as [|x [|? ?]]; [done|exact Hs|]. apply andb_false_iff. left. rewrite !len_cons. pose proof (len_nonneg l).
  apply Z.eqb_neq. lia.
Qed.

(** *** Lists *)

(** The stream inside a list of [n] bytes. *)
Definition inside (n : Z) (s : Stream) : Stream :=
  set_size 0 (set_kind None (set_stack (n :: top_minus n (stack s)) s)).

Lemma List_ready n s : ready List n s → List_ s = (Ok n, inside n s).
Proof. intros Hr. unfold List_, bind at 1. by rewrite (Kind_ready _ _ _ Hr). Qed.

Lemma inside_wf n s : wf s → is_uint64 n → wf (inside n s).
Proof. intros (Hb & Hl & Hu) Hn. split_and!; [done|done|]. constructor; [done|by apply top_minus_uint]. Qed.

(** At the end of the elements, the list gave exactly its size. *)
Lemma ListEnd_inside n e s s' :
  wf s → is_uint64 n → took e (inside n s) s' → listLimit s' = Some 0 →
  n = len e ∧ ∃ s'', ListEnd s' = (Ok tt, s'') ∧ took e s s'' ∧ kind s'' = None.
Proof.
  intros (_ & Hl & _) Hn (Hr & Hs & Hlim & Hm) H0.
  assert (Hlr : len e < two64) by (cbn in Hr; rewrite Hr, len_app in Hl; pose proof (len_nonneg (r s')); lia).
  unfold listLimit in H0. rewrite Hs in H0. injection H0 as H0. pose proof (len_nonneg e).
  assert (Hne : n = len e).
  { unfold wrap64 in H0. apply Z.mod_divide in H0 as [q Hq]; [|done]. assert (q = 0) by ulia. lia. }
  split; [done|]. unfold ListEnd, bind, get, listLimit, modify. rewrite Hs. cbn [inside set_size set_kind set_stack stack top_minus head].
  rewrite H0. cbn. eexists. split; [done|]. unfold took. cbn in *. rewrite Hs. split_and!; try done. cbn. by rewrite Hne.
Qed.

(** ** The decoder reads what the encoder writes, and nothing else *)

Lemma tag_value k n x h c :
  tag k n x h → canonical k c → (match k with Byte => c = [x] | _ => len c = n end) →
  enc_value k c = match k with Byte => h | _ => h ++ c end.
Proof.
  destruct k; cbn; [by intros (_ & -> & _) _ ->|by intros [_ ->] _ <-..].
Qed.

Definition decode_inv (fuel : nat) : Prop :=
  ∀ s res s', wf s → kind s = None → decodeInterface fuel s = (res, s') →
    match res with
    | Ok it => took (encode it) s s' ∧ kind s' = None ∧ item_bytes it
    | Err EOL => listLimit s = Some 0 ∧ s' = s
    | Err _ => True
    end.

Definition elems_inv (fuel : nat) : Prop :=
  ∀ s l s', wf s → kind s = None → decodeSliceElems fuel s = (Ok l, s') →
    took (concat (map encode l)) s s' ∧ kind s' = None ∧ Forall item_bytes l ∧ listLimit s' = Some 0.

Lemma took_nil s : wf s → took [] s s.
Proof. intros (_ & _ & Hu). unfold took. change (len []) with 0. rewrite top_minus_0 by done. split_and!; try done. intros _. lia. Qed.

Lemma took_bytes b s s' : wf s → took b s s' → Forall is_byte b.
Proof. intros (Hb & _) [Hr _]. rewrite Hr in Hb. by apply Forall_app in Hb as [? _]. Qed.

Lemma elems_never_EOL fuel s s' : decodeSliceElems fuel s ≠ (Err EOL, s').
Proof.
  revert s. induction fuel as [|fuel IH]; intros s; [done|]. cbn [decodeSliceElems].
  destruct (decodeInterface fuel s) as [[it|err] s1]; [|by destruct err].
  unfold bind, ret. specialize (IH s1). destruct (decodeSliceElems fuel s1) as [[l|err] s2]; [done|].
  intros [= -> <-]. by apply IH.
Qed.

Lemma decode_inv_string s k n s1 res s' :
  wf s → kind s = None → Kind_ s = (Ok (k, n), s1) → k ≠ List →
  (do b <- Bytes; ret (Str b)) s1 = (res, s') →
  match res with
  | Ok it => took (encode it) s s' ∧ kind s' = None ∧ item_bytes it
  | Err EOL => listLimit s = Some 0 ∧ s' = s
  | Err _ => True
  end.
Proof.
  intros Hwf Hk HK Hne. destruct (Kind_inv _ _ _ _ Hwf Hk HK) as (h & Ht & Htag & _ & Hready & _).
  pose proof (took_wf _ _ _ Ht Hwf) as Hwf1. unfold bind, ret.
  destruct (Bytes s1) as [[b|err] s2] eqn:HB.
  - intros [= <- <-]. assert (Hn : 0 <= n) by (destruct k; cbn in Htag; lia).
    destruct (Bytes_inv _ _ _ _ _ Hwf1 Hready Hne Hn HB) as [Hk2 Hb].
    assert (Hs : took (enc_value k b) s s2 ∧ canonical k b).
    { destruct k; [|destruct Hb as (Ht2 & Hl & Hsm)|done].
      - destruct Hb as [-> Ht2]. destruct Htag as (_ & -> & Hx). rewrite <- (app_nil_r (enc_value _ _)).
        split; [by eapply took_trans|]. cbn. apply Z.ltb_lt. lia.
      - destruct Htag as [_ ->]. cbn [enc_value canonical]. rewrite Hl. split; [by eapply took_trans|done]. }
    destruct Hs as [Hs Hc]. rewrite enc_value_string in Hs by done. split_and!; [done|done|].
    pose proof (took_bytes _ _ _ Hwf Hs) as Hbytes. cbn in Hbytes. unfold encode_string in Hbytes. cbn.
    destruct b as [|x [|y b]]; [done| |by apply Forall_app in Hbytes as [_ ?]].
    destruct (x <=? 127); [done|by apply Forall_app in Hbytes as [_ ?]].
  - intros [= <- <-]. pose proof (Bytes_never EOL (or_introl eq_refl) k n s1 s2 Hready). destruct err; done.
Qed.

Lemma decode_invs fuel : decode_inv fuel ∧ elems_inv fuel.
Proof.
  induction fuel as [|fuel [IHd IHe]]; [split; [by intros s res s' _ _ [= <- <-]|by intros s l s' _ _ [=]]|]. split.
  - intros s res s' Hwf Hk. cbn [decodeInterface]. unfold bind at 1.
    destruct (Kind_ s) as [[[k n]|err] s1] eqn:HK.
    2: { intros [= <- <-]. destruct err; try done.
         destruct (decide (listLimit s = Some 0)) as [H0|H0]; [|by edestruct (Kind_never EOL (or_introl eq_refl))].
         split; [done|]. unfold Kind_ in HK. rewrite Hk, bool_decide_true in HK by done. by injection HK. }
    case_bool_decide as Hlist; [|intros H; exact (decode_inv_string _ _ _ _ _ _ Hwf Hk HK Hlist H)].
    subst k. destruct (Kind_inv _ _ _ _ Hwf Hk HK) as (h & Ht & Htag & _ & Hready & Hlim).
    pose proof (took_wf _ _ _ Ht Hwf) as Hwf1. destruct Htag as [Hn ->]. unfold bind at 1. rewrite (List_ready _ _ Hready).
    pose proof (inside_wf n s1 Hwf1 Hn) as Hwfi.
    assert (Hend : ∀ l s2, took (concat (map encode l)) (inside n s1) s2 → listLimit s2 = Some 0 → Forall item_bytes l →
      (do! ListEnd; ret (Lst l)) s2 = (res, s') →
      match res with Ok it => took (encode it) s s' ∧ kind s' = None ∧ item_bytes it | Err EOL => listLimit s = Some 0 ∧ s' = s | Err _ => True end).
    { intros l s2 Ht2 H0 Hb. destruct (ListEnd_inside _ _ _ _ Hwf1 Hn Ht2 H0) as (Hnl & s3 & HE & Ht3 & Hk3).
      unfold bind, ret. rewrite HE. intros [= <- <-]. split_and!; [|done|by apply item_bytes_list].
      cbn [encode]. unfold encode_list. rewrite <- Hnl. by eapply took_trans. }
    destruct (Z.eqb_spec n 0) as [->|Hn0].
    + intros H. apply (Hend [] (inside 0 s1)); [by apply took_nil|done|constructor|exact H].
    + unfold bind at 1. destruct (decodeSliceElems fuel (inside n s1)) as [[l|err] s2] eqn:HS.
      * destruct (IHe _ _ _ Hwfi eq_refl HS) as (Ht2 & Hk2 & Hb2 & H02). by apply Hend.
      * intros [= <- <-]. destruct err; try done. by apply elems_never_EOL in HS.
  - intros s l s' Hwf Hk. cbn [decodeSliceElems]. destruct (decodeInterface fuel s) as [res s1] eqn:HD.
    pose proof (IHd _ _ _ Hwf Hk HD) as Hd. destruct res as [it|err].
    + destruct Hd as (Ht & Hk1 & Hb). unfold bind, ret. destruct (decodeSliceElems fuel s1) as [[l'|] s2] eqn:HS; [|done].
      intros [= <- <-]. destruct (IHe _ _ _ (took_wf _ _ _ Ht Hwf) Hk1 HS) as (Ht2 & Hk2 & Hb2 & H02).
      split_and!; [by eapply took_trans|done|by constructor|done].
    + destruct err; try done. destruct Hd as [H0 ->]. intros [= <- <-]. split_and!; [by apply took_nil|done|constructor|done].
Qed.

(** *** With enough fuel the decoder succeeds on an encoding *)

Definition decode_ok (fuel : nat) : Prop :=
  ∀ it s rest, wf s → kind s = None → item_bytes it → r s = encode it ++ rest → fits (len (encode it)) s →
    2 * len (encode it) + 1 <= Z.of_nat fuel → ∃ s', decodeInterface fuel s = (Ok it, s').

Definition elems_ok (fuel : nat) : Prop :=
  ∀ l s rest, wf s → kind s = None → Forall item_bytes l → r s = concat (map encode l) ++ rest →
    fits (len (concat (map encode l))) s → listLimit s = Some (len (concat (map encode l))) →
    2 * len (concat (map encode l)) + 2 <= Z.of_nat fuel → ∃ s', decodeSliceElems fuel s = (Ok l, s').

Lemma encode_pos it : 0 < len (encode it).
Proof. pose proof (encode_nonempty it). destruct (encode it) as [|x b]; [done|]. rewrite len_cons. pose proof (len_nonneg b). lia. Qed.

Lemma decode_at_end fuel s : kind s = None → listLimit s = Some 0 → decodeInterface (S fuel) s = (Err EOL, s).
Proof. intros Hk H0. cbn [decodeInterface]. unfold bind at 1, Kind_. by rewrite Hk, bool_decide_true. Qed.

Lemma decode_ok_string fuel b s rest :
  wf s → kind s = None → Forall is_byte b → r s = encode (Str b) ++ rest → fits (len (encode (Str b))) s →
  ∃ s', decodeInterface (S fuel) s = (Ok (Str b), s').
Proof.
  intros Hwf Hk Hb Hr Hf. destruct (encode_value (Str b)) as [He Hc]. rewrite He in Hr, Hf.
  assert (Hlb : len b < two64).
  { destruct Hwf as (_ & Hl & _). rewrite Hr, len_app in Hl. pose proof (len_nonneg rest).
    destruct (item_kind (Str b)); cbn in Hl; rewrite ?len_app in Hl; pose proof (len_nonneg (puthead 128 183 (len b))); pose proof (len_nonneg (puthead 192 247 (len b))); lia. }
  pose proof (len_nonneg b). cbn [item_kind item_content] in *. cbn [decodeInterface]. unfold bind at 1.
  destruct (small_byte b) eqn:Hs; cbn [enc_value] in *.
  - destruct b as [|x [|? ?]]; try done. apply Z.ltb_lt in Hs. apply Forall_inv in Hb. unfold is_byte in Hb.
    destruct (Kind_ok s Byte 0 x [x] rest) as [s1 HK]; [done|done|cbn; split_and!; done || lia|done|done|done|].
    destruct (Kind_inv _ _ _ _ Hwf Hk HK) as (h & Ht & (_ & -> & _) & _ & Hready & _).
    rewrite HK, bool_decide_false by done. unfold bind, Bytes, bind, get, rearm, modify, ret. rewrite (Kind_ready _ _ _ Hready).
    destruct Ht as [Ht _]. rewrite Hr in Ht. injection Ht as -> _. by eexists.
  - rewrite <- app_assoc in Hr. rewrite len_app in Hf.
    destruct (Kind_ok s String (len b) 0 (puthead 128 183 (len b)) (b ++ rest)) as [s1 HK];
      [done|done|by split|done|done|unfold puthead; by case_match|].
    destruct (Kind_inv _ _ _ _ Hwf Hk HK) as (h & Ht & (_ & ->) & _ & Hready & _).
    rewrite HK, bool_decide_false by done.
    destruct (Bytes_string_ok s1 b rest) as [s2 HB]; [done| |by eapply took_fits|done|].
    { destruct Ht as [Ht _]. rewrite Hr in Ht. by apply app_inv_head in Ht. }
    unfold bind, ret. rewrite HB. by eexists.
Qed.

Lemma decode_oks fuel : decode_ok fuel ∧ elems_ok fuel.
Proof.
  induction fuel as [|fuel [IHd IHe]].
  { split; [intros it s rest _ _ _ _ _ H; pose proof (encode_pos it); lia|intros l s rest _ _ _ _ _ _ H; pose proof (len_nonneg (concat (map encode l))); lia]. }
  split.
  - intros it s rest Hwf Hk Hb Hr Hf Hfuel. destruct it as [b|l]; [by eapply decode_ok_string|].
    apply item_bytes_list in Hb. cbn [encode] in *. unfold encode_list in *. set (e := concat (map encode l)) in *.
    pose proof (len_nonneg e). assert (He : len e < two64).
    { destruct Hwf as (_ & Hl & _). rewrite Hr, !len_app in Hl. pose proof (len_nonneg rest). pose proof (len_nonneg (puthead 192 247 (len e))). lia. }
    rewrite <- app_assoc in Hr. rewrite len_app in Hf, Hfuel. rewrite puthead_len in Hfuel by lia. pose proof (headsize_bounds (len e)).
    destruct (Kind_ok s List (len e) 0 (puthead 192 247 (len e)) (e ++ rest)) as [s1 HK];
      [done|done|by split|done|done|unfold puthead; by case_match|].
    destruct (Kind_inv _ _ _ _ Hwf Hk HK) as (h & Ht & (_ & ->) & _ & Hready & _).
    pose proof (took_wf _ _ _ Ht Hwf) as Hwf1. cbn [decodeInterface]. unfold bind at 1. rewrite HK, bool_decide_true by done.
    unfold bind at 1. rewrite (List_ready _ _ Hready).
    assert (Hr1 : r s1 = e ++ rest) by (destruct Ht as [Ht _]; rewrite Hr in Ht; by apply app_inv_head in Ht).
    assert (Hf1 : fits (len e) s1) by (by eapply took_fits).
    assert (Hue : is_uint64 (len e)) by (split; lia). pose proof (inside_wf (len e) s1 Hwf1 Hue) as Hwfi.
    assert (Hend : ∀ l' s2, took e (inside (len e) s1) s2 → listLimit s2 = Some 0 → ∃ s3, (do! ListEnd; ret (Lst l')) s2 = (Ok (Lst l'), s3)).
    { intros l' s2 Ht2 Hz0. destruct (ListEnd_inside _ _ _ _ Hwf1 Hue Ht2 Hz0) as (_ & s3 & HE & _).
      unfold bind, ret. rewrite HE. by eexists. }
    destruct (Z.eqb_spec (len e) 0) as [Hz|Hz].
    + assert (l = []) as ->.
      { destruct l as [|it l]; [done|]. subst e. cbn in Hz. rewrite len_app in Hz. pose proof (encode_pos it). pose proof (len_nonneg (concat (map encode l))). lia. }
      apply Hend; [by apply took_nil|done].
    + destruct (IHe l (inside (len e) s1) rest) as [s2 HS]; [done|done|done|done| |done|fold e; lia|].
      { split; [by intros ? [= <-]|apply Hf1]. }
      destruct (proj2 (decode_invs fuel) _ _ _ Hwfi eq_refl HS) as (Ht2 & _ & _ & H02).
      destruct (Hend l s2 Ht2 H02) as [s3 HE]. exists s3. unfold bind at 1. by rewrite HS.
  - intros l s rest Hwf Hk Hb Hr Hf Hlim Hfuel. destruct l as [|it l]; cbn [map concat] in *.
    + cbn [decodeSliceElems]. destruct fuel as [|fuel]; [change (2 * 0 + 2 <= 1) in Hfuel; lia|]. rewrite decode_at_end by done. by eexists.
    + apply Forall_cons in Hb as [Hit Hb]. rewrite <- app_assoc in Hr. rewrite len_app in *.
      pose proof (encode_pos it). pose proof (len_nonneg (concat (map encode l))).
      destruct (IHd it s (concat (map encode l) ++ rest)) as [s1 HD]; [done|done|done|done|eapply fits_mono; [exact Hf|lia]|lia|].
      cbn [decodeSliceElems]. rewrite HD.
      destruct (proj1 (decode_invs fuel) _ _ _ Hwf Hk HD) as (Ht & Hk1 & _).
      destruct (IHe l s1 rest) as [s2 HS]; [by eapply took_wf|done|done| |by eapply took_fits| |lia|].
      * destruct Ht as [Ht _]. rewrite Hr in Ht. by apply app_inv_head in Ht.
      * destruct Ht as (_ & Hst & _). destruct Hwf as (_ & _ & Hu). unfold listLimit in *. rewrite Hst.
        destruct (stack s) as [|lim st]; [done|]. cbn in *. injection Hlim as ->. apply Forall_inv in Hu.
        f_equal. rewrite wrap64_id; unfold is_uint64 in *; lia.
      * unfold bind, ret. rewrite HS. by eexists.
Qed.

(** *** The fuel is enough for every input *)

Lemma took_len b s s' : took b s s' → len (r s) = len b + len (r s').
Proof. intros [-> _]. by rewrite len_app. Qed.

Lemma decode_total fuel :
  (∀ s s', wf s → kind s = None → 2 * len (r s) + 1 <= Z.of_nat fuel → decodeInterface fuel s ≠ (Err NoFuel, s')) ∧
  (∀ s s', wf s → kind s = None → 2 * len (r s) + 2 <= Z.of_nat fuel → decodeSliceElems fuel s ≠ (Err NoFuel, s')).
Proof.
  induction fuel as [|fuel [IHd IHe]]; [split; intros s s' _ _ H; pose proof (len_nonneg (r s)); lia|]. split.
  - intros s s' Hwf Hk Hf. cbn [decodeInterface]. unfold bind at 1. destruct (Kind_ s) as [[[k n]|err] s1] eqn:HK.
    2: { intros [= -> <-]. destruct (decide (listLimit s = Some 0)) as [H0|H0].
         - unfold Kind_ in HK. by rewrite Hk, bool_decide_true in HK.
         - by apply (Kind_never NoFuel (or_intror eq_refl)) in HK. }
    destruct (Kind_inv _ _ _ _ Hwf Hk HK) as (h & Ht & Htag & Hne & Hready & _).
    pose proof (took_wf _ _ _ Ht Hwf) as Hwf1. case_bool_decide as Hlist.
    + subst k. destruct Htag as [Hn _]. unfold bind at 1. rewrite (List_ready _ _ Hready).
      destruct (n =? 0).
      * apply never_bind; [apply ListEnd_never; by right|intros ?; apply never_ret].
      * unfold bind at 1. destruct (decodeSliceElems fuel (inside n s1)) as [[l|err] s2] eqn:HS.
        -- apply never_bind; [apply ListEnd_never; by right|intros ?; apply never_ret].
        -- intros [= -> <-]. revert HS. apply IHe; [by apply inside_wf|done|]. cbn.
           rewrite (took_len _ _ _ Ht) in Hf. destruct h as [|x h]; [done|]. rewrite len_cons in Hf. pose proof (len_nonneg h). lia.
    + unfold bind, ret. destruct (Bytes s1) as [[b|err] s2] eqn:HB; [done|]. intros [= -> <-].
      by apply (Bytes_never NoFuel (or_intror eq_refl) k n) in HB.
  - intros s s' Hwf Hk Hf. cbn [decodeSliceElems]. destruct (decodeInterface fuel s) as [[it|err] s1] eqn:HD.
    + destruct (proj1 (decode_invs fuel) _ _ _ Hwf Hk HD) as (Ht & Hk1 & _).
      unfold bind, ret. destruct (decodeSliceElems fuel s1) as [[l|err] s2] eqn:HS; [done|]. intros [= -> <-]. revert HS.
      apply IHe; [by eapply took_wf|done|]. rewrite (took_len _ _ _ Ht) in Hf. pose proof (encode_pos it). lia.
    + destruct err; try done. exfalso. revert HD. apply IHd; [done|done|lia].
Qed.

Lemma Stream_Reset_wf b : Forall is_byte b → len b < two64 → wf (Reset b).
Proof. intros. unfold wf. split_and!; [done|done|constructor]. Qed.

Lemma decode_fuel b : 2 * len (r (Reset b)) + 1 <= Z.of_nat (2 * length b + 1).
Proof. cbn. unfold len. lia. Qed.

Lemma DecodeBytes_encode it : item_bytes it → len (encode it) < two64 → DecodeBytes (encode it) = Ok it.
Proof.
  intros Hi Hl. pose proof (Stream_Reset_wf _ (encode_bytes _ Hi) Hl) as Hwf. unfold DecodeBytes.
  destruct (proj1 (decode_oks (2 * length (encode it) + 1)) it (Reset (encode it)) []) as [s' HD];
    [done|done|done|by rewrite app_nil_r|by split|apply decode_fuel|]. rewrite HD.
  destruct (proj1 (decode_invs _) _ _ _ Hwf eq_refl HD) as (Ht & _). apply took_len in Ht. cbn [r Reset] in Ht.
  destruct (Z.ltb_spec 0 (len (r s'))); [lia|done].
Qed.

Lemma DecodeBytes_inv b it :
  Forall is_byte b → len b < two64 → DecodeBytes b = Ok it → item_bytes it ∧ b = encode it.
Proof.
  intros Hb Hl. unfold DecodeBytes. destruct (decodeInterface _ (Reset b)) as [[it'|err] s'] eqn:HD; [|done].
  destruct (Z.ltb_spec 0 (len (r s'))); [done|]. intros [= <-].
  destruct (proj1 (decode_invs _) _ _ _ (Stream_Reset_wf b Hb Hl) eq_refl HD) as ([Hr _] & _ & Hit). split; [done|].
  assert (r s' = []) as E by (apply len_zero_iff; pose proof (len_nonneg (r s')); lia).
  cbn in Hr. by rewrite Hr, E, app_nil_r.
Qed.

(** C38: decoding is the exact inverse of encoding.  On every slice the decoder
    ends with a value or an error; it returns a value iff the slice is the
    encoding of that value, with nothing after it, so that no two slices decode
    to the same value. *)
Theorem DecodeBytes_exact b :
  Forall is_byte b → len b < two64 →
  DecodeBytes b ≠ Err NoFuel ∧ ∀ it, DecodeBytes b = Ok it ↔ item_bytes it ∧ b = encode it.
Proof.
  intros Hb Hl. split.
  - unfold DecodeBytes. pose proof (proj1 (decode_total (2 * length b + 1)) (Reset b)) as Ht.
    destruct (decodeInterface _ (Reset b)) as [[it|err] s'] eqn:HD; [by case_match|]. intros [= ->].
    by apply (Ht s' (Stream_Reset_wf b Hb Hl) eq_refl (decode_fuel b)).
  - intros it. split; [by apply DecodeBytes_inv|]. intros [Hi ->]. by apply DecodeBytes_encode.
Qed.

Lemma DecodeBytes_exact_witness :
  DecodeBytes (encode cat_dog) ≠ Err NoFuel ∧ ∀ it, DecodeBytes (encode cat_dog) = Ok it ↔ item_bytes it ∧ encode cat_dog = encode it.
Proof. apply (DecodeBytes_exact (encode cat_dog)); [apply cat_dog_bytes|vm_compute; reflexivity]. Defined.

(** An inner list may claim one byte more than the outer list has left after the
    tag: the size is checked against what was left before it, and what is left of
    the outer list wraps.  Such a slice is refused all the same, but not where
    the code checks for it. *)
Lemma outer_limit_wraps :
  ((do n <- List_; do m <- List_; do st <- get stack; ret (n, m, st)) (Reset [194; 194; 1; 2])).1 = Ok (2, 2, [2; max_uint64]) ∧
  DecodeBytes [194; 194; 1; 2] = Err ErrValueTooLarge.
Proof. split; vm_compute; reflexivity. Qed.
