(* ===== verification/Crypto.v ===== *)
(** * The hash function, and the addresses of contracts

    parallelizable-client-go-ethereum/crypto/crypto.go.  Keccak-256 is a parameter:
    a function from strings to 32 bytes. *)

From S2P Require Import Prelude Rlp.

(** Keccak-256. *)
Class Keccak : Type := {
  keccak : bytes → bytes;
  keccak_len b : len (keccak b) = 32;
  keccak_bytes b : Forall is_byte (keccak b)
}.

Section Crypto.
Context `{Keccak}.

(** [Keccak256Hash], as a number. *)
Definition Keccak256Hash (b : bytes) : Hash := be_decode (keccak b).

Lemma Keccak256Hash_range b : is_uint256 (Keccak256Hash b).
Proof.
  unfold Keccak256Hash. pose proof (be_decode_range (keccak b) (keccak_bytes b)) as Hr.
  assert (length (keccak b) = 32%nat) as Hl by (pose proof (keccak_len b); unfold len in *; lia). rewrite Hl in Hr. exact Hr.
Qed.

(** [common.BytesToAddress(hash[12:])] *)
Definition hash_address (h : bytes) : Address := be_decode (drop 12 h).

Definition CreateAddress (b : Address) (nonce : Z) : Address :=
  hash_address (keccak (encode (Lst [Str (be_encode 20 b); Str (int_bytes nonce)]))).

Definition CreateAddress2 (b : Address) (salt : Hash) (inithash : bytes) : Address :=
  hash_address (keccak ([0xff] ++ be_encode 20 b ++ be_encode 32 salt ++ inithash)).

Lemma hash_address_range h : len h = 32 → Forall is_byte h → 0 <= hash_address h < 2 ^ 160.
Proof.
  intros Hl Hb. unfold hash_address. pose proof (be_decode_range (drop 12 h) (Forall_drop _ _ _ Hb)) as Hr.
  assert (length (drop 12 h) = 20%nat) as Hd by (rewrite length_drop; unfold len in *; lia). rewrite Hd in Hr. exact Hr.
Qed.
End Crypto.
