(* ===== verification/TrieKeys.v ===== *)
(** * The encodings of the keys of a trie

    parallelizable-client-go-ethereum/trie/encoding.go: keys as bytes, as nibbles
    with a terminator, and in the compact form of the nodes on disk; and what a
    trie needs of them: the common prefix, and that a terminated key is never a
    proper prefix of another. *)

From S2P Require Import Prelude.

Definition hasTerm (s : bytes) : bool :=
  match last s with Some x => x =? 16 | None => false end.

(** Drop the last element. *)
Definition init_ (s : bytes) : bytes := take (length s - 1) s.

(** The callers pass an even number of nibbles; the code would panic on another. *)
Fixpoint decodeNibbles (nibbles : bytes) : bytes :=
  match nibbles with
  | hi :: lo :: nibbles => Z.lor (Z.shiftl hi 4 mod 256) lo :: decodeNibbles nibbles
  | _ => []
  end.

Definition hexToCompact (hex : bytes) : bytes :=
  let terminator := if hasTerm hex then 1 else 0 in
  let hex := if hasTerm hex then init_ hex else hex in
  let first := Z.shiftl terminator 5 in
  if Nat.odd (length hex) then
    match hex with
    | [] => [first]
    | nibble :: hex => Z.lor (Z.lor first (Z.shiftl 1 4)) nibble :: decodeNibbles hex
    end
  else first :: decodeNibbles hex.

(** The loop of [hexToCompactInPlace] over the buffer it writes to. *)
Fixpoint compact_loop (fuel : nat) (hex : bytes) (bi ni hexLen : nat) : bytes :=
  match fuel with
  | O => hex
  | S fuel =>
      if (ni <? hexLen)%nat then
        let hex := <[bi := Z.lor (Z.shiftl (nth ni hex 0) 4 mod 256) (nth (S ni) hex 0)]> hex in
        compact_loop fuel hex (S bi) (S (S ni)) hexLen
      else hex
  end.

Definition hexToCompactInPlace (hex : bytes) : option bytes :=
  let term := (0 <? len hex) && (nth (length hex - 1) hex 0 =? 16) in
  let firstByte := if term then Z.shiftl 1 5 else 0 in
  let hexLen := if term then (length hex - 1)%nat else length hex in
  let binLen := (hexLen / 2 + 1)%nat in
  let odd := Nat.odd hexLen in
  let firstByte := if odd then Z.lor (Z.lor firstByte (Z.shiftl 1 4)) (nth 0 hex 0) else firstByte in
  let ni := if odd then 1%nat else 0%nat in
  let hex := compact_loop hexLen hex 1 ni hexLen in
  (** An empty buffer has no first byte to write. *)
  match hex with
  | [] => None
  | _ => Some (take binLen (<[0%nat := firstByte]> hex))
  end.

Fixpoint key_nibbles (str : bytes) : bytes :=
  match str with
  | [] => []
  | b :: str => b / 16 :: b mod 16 :: key_nibbles str
  end.

Definition keybytesToHex (str : bytes) : bytes := key_nibbles str ++ [16].

(** Without the terminator, into a buffer; [None] is the panic of the bounds
    check, which an empty key fails too. *)
Definition writeHexKey (dst key : bytes) : option bytes :=
  if (0 <? len key) && (2 * len key <=? len dst) then Some (key_nibbles key) else None.

Definition compactToHex (compact : bytes) : bytes :=
  match compact with
  | [] => []
  | _ =>
      let base := keybytesToHex compact in
      let base := if nth 0 base 0 <? 2 then init_ base else base in
      let chop := 2 - Z.land (nth 0 base 0) 1 in
      drop (Z.to_nat chop) base
  end.

(** [None] is the panic of an odd length. *)
Definition hexToKeybytes (hex : bytes) : option bytes :=
  let hex := if hasTerm hex then init_ hex else hex in
  if Nat.odd (length hex) then None else Some (decodeNibbles hex).

Fixpoint prefixLen (a b : bytes) : nat :=
  match a, b with
  | x :: a, y :: b => if x =? y then S (prefixLen a b) else O
  | _, _ => O
  end.

(** [bytes.HasPrefix]. *)
Definition HasPrefix (s p : bytes) : bool :=
  bool_decide (take (length p) s = p).

(** ** Nibbles and terminated keys *)

Definition is_nibble (x : Z) : Prop := 0 <= x < 16.

Definition nibbles (k : bytes) : Prop := Forall is_nibble k.

Definition terminated (k : bytes) : Prop := ∃ l, k = l ++ [16] ∧ nibbles l.

Lemma last_snoc_Z (l : bytes) x : last (l ++ [x]) = Some x.
Proof. apply last_snoc. Qed.

Lemma hasTerm_nibbles k : nibbles k → hasTerm k = false.
Proof.
  intros Hk. unfold hasTerm. destruct (last k) as [x|] eqn:Hl; [|done]. apply last_Some_elem_of in Hl.
  unfold nibbles in Hk. rewrite Forall_forall in Hk. specialize (Hk x Hl). unfold is_nibble in Hk. lia.
Qed.

Lemma hasTerm_terminated k : terminated k → hasTerm k = true.
Proof. intros (l & -> & _). unfold hasTerm. by rewrite last_snoc. Qed.

Lemma init_snoc l x : init_ (l ++ [x]) = l.
Proof.
  unfold init_. rewrite length_app. simpl. replace (length l + 1 - 1)%nat with (length l) by lia. by rewrite take_app_length.
Qed.

Lemma nibble_join hi lo : is_nibble hi → is_nibble lo → Z.lor (Z.shiftl hi 4 mod 256) lo = hi * 16 + lo.
Proof.
  unfold is_nibble. intros Hh Hlo. rewrite Z.shiftl_mul_pow2 by lia. change (2 ^ 4) with 16. rewrite Z.mod_small by lia.
  enough (Z.land (hi * 16) lo = 0) by (pose proof (Z.add_lor_land (hi * 16) lo); lia).
  apply Z.bits_inj'. intros n Hn. rewrite Z.land_spec, Z.bits_0. change 16 with (2 ^ 4). rewrite <- Z.shiftl_mul_pow2 by lia.
  destruct (Z.lt_ge_cases n 4) as [H|H]; [by rewrite Z.shiftl_spec_low|].
  rewrite (Z.bits_above_log2 lo n); [apply andb_false_r|lia|]. destruct (Z.eq_dec lo 0) as [->|]; [cbn; lia|].
  assert (Z.log2 lo < 4); [|lia]. apply Z.log2_lt_pow2; [lia|]. change (2 ^ 4) with 16. lia.
Qed.

Lemma decodeNibbles_key str : Forall is_byte str → decodeNibbles (key_nibbles str) = str.
Proof.
  induction 1 as [|b str Hb _ IH]; [done|]. cbn [key_nibbles decodeNibbles]. unfold is_byte in Hb.
  pose proof (Z.div_mod b 16). pose proof (Z.mod_pos_bound b 16).
  rewrite nibble_join, IH; unfold is_nibble; [f_equal; lia| |lia].
  split; [apply Z.div_pos; lia|apply Z.div_lt_upper_bound; lia].
Qed.

Lemma key_nibbles_nibbles str : Forall is_byte str → nibbles (key_nibbles str).
Proof.
  induction 1 as [|b str Hb _ IH]; [constructor|]. unfold is_byte in Hb. cbn.
  repeat constructor; try done; unfold is_nibble;
    [apply Z.div_pos; lia|apply Z.div_lt_upper_bound; lia|apply Z.mod_pos_bound; lia..].
Qed.

Lemma length_key_nibbles str : length (key_nibbles str) = (2 * length str)%nat.
Proof. induction str as [|b str IH]; [done|]. cbn [key_nibbles length]. lia. Qed.

Lemma keybytesToHex_terminated key : Forall is_byte key → terminated (keybytesToHex key).
Proof. intros H. exists (key_nibbles key). split; [done|by apply key_nibbles_nibbles]. Qed.

(** Pairs of nibbles and back. *)
Lemma key_decodeNibbles l : nibbles l → Nat.even (length l) = true → key_nibbles (decodeNibbles l) = l.
Proof.
  intros Hl. remember (length l) as n eqn:Hn. revert l Hl Hn. induction n as [n IH] using lt_wf_ind. intros l Hl Hn He.
  destruct l as [|x [|y l]]; [done|by subst|]. inversion Hl as [|? ? Hx Hl']; subst. inversion Hl' as [|? ? Hy Hl'']; subst.
  cbn [decodeNibbles key_nibbles]. rewrite nibble_join by done. unfold is_nibble in *.
  rewrite (IH (length l)) by (done || (cbn; lia)).
  rewrite Z.div_add_l, (Z.div_small y), Z.add_0_r by lia.
  by rewrite Z.add_comm, Z.mod_add, Z.mod_small by lia.
Qed.

Lemma decodeNibbles_bytes l : nibbles l → Forall is_byte (decodeNibbles l).
Proof.
  intros Hl. remember (length l) as n eqn:Hn. revert l Hl Hn. induction n as [n IH] using lt_wf_ind. intros l Hl Hn.
  destruct l as [|x [|y l]]; [constructor..|]. inversion Hl as [|? ? Hx Hl']; subst. inversion Hl' as [|? ? Hy Hl'']; subst.
  cbn [decodeNibbles]. constructor; [|apply (IH (length l)); [cbn; lia|done|done]].
  rewrite nibble_join by done. unfold is_nibble, is_byte in *. lia.
Qed.

(** ** The compact form *)

(** A key of the trie: nibbles, with or without the terminator. *)
Definition hexkey (k : bytes) : Prop := nibbles k ∨ terminated k.

(** The compact form, computed. *)
Lemma hexToCompact_shape l (t : bool) :
  nibbles l →
  hexToCompact (if t then l ++ [16] else l) =
    match Nat.odd (length l), l with
    | true, x :: l => (if t then 48 + x else 16 + x) :: decodeNibbles l
    | _, _ => (if t then 32 else 0) :: decodeNibbles l
    end.
Proof.
  intros Hl. unfold hexToCompact.
  assert (hasTerm (if t then l ++ [16] else l) = t) as ->.
  { destruct t; [apply hasTerm_terminated; by exists l|by apply hasTerm_nibbles]. }
  assert ((if t then init_ (if t then l ++ [16] else l) else if t then l ++ [16] else l) = l) as ->.
  { destruct t; [apply init_snoc|done]. }
  destruct (Nat.odd (length l)); [|by destruct t]. destruct l as [|x l]; [by destruct t|].
  f_equal. apply Forall_inv in Hl. destruct t; cbn [Z.shiftl].
  - change (Z.lor (Z.shiftl 1 5) (Z.shiftl 1 4)) with (Z.shiftl 3 4 mod 256). apply (nibble_join 3 x); [done|done].
  - change (Z.lor (Z.shiftl 0 5) (Z.shiftl 1 4)) with (Z.shiftl 1 4 mod 256). apply (nibble_join 1 x); [done|done].
Qed.

Lemma hexToCompact_bytes k : hexkey k → Forall is_byte (hexToCompact k) ∧ hexToCompact k ≠ [].
Proof.
  intros Hk. assert (∃ l (t : bool), nibbles l ∧ k = if t then l ++ [16] else l) as (l & t & Hl & ->).
  { destruct Hk as [Hk|(l & -> & Hl)]; [by exists k, false|by exists l, true]. }
  rewrite hexToCompact_shape by done. pose proof (decodeNibbles_bytes l Hl).
  destruct (Nat.odd (length l)); [destruct l as [|x l]|]; split; try done; repeat constructor; try done;
    try (by destruct t; unfold is_byte; lia).
  - inversion Hl as [|? ? Hx _]; subst. unfold is_byte, is_nibble in *. destruct t; lia.
  - inversion Hl as [|? ? Hx _]; subst. unfold is_byte, is_nibble in *. destruct t; lia.
  - inversion Hl. by apply decodeNibbles_bytes.
Qed.

Lemma compactToHex_cons b c :
  compactToHex (b :: c) =
    (let base := b / 16 :: b mod 16 :: key_nibbles c ++ (if b / 16 <? 2 then [] else [16]) in
     drop (Z.to_nat (2 - Z.land (b / 16) 1)) base).
Proof.
  unfold compactToHex, keybytesToHex. cbn [key_nibbles app nth].
  destruct (b / 16 <? 2).
  - change (b / 16 :: b mod 16 :: key_nibbles c ++ [16]) with ((b / 16 :: b mod 16 :: key_nibbles c) ++ [16]).
    rewrite init_snoc, app_nil_r. done.
  - done.
Qed.

Lemma compactToHex_hexToCompact_core k : hexkey k → compactToHex (hexToCompact k) = k.
Proof.
  intros Hk. assert (∃ l (t : bool), nibbles l ∧ k = if t then l ++ [16] else l) as (l & t & Hl & ->).
  { destruct Hk as [Hk|(l & -> & Hl)]; [by exists k, false|by exists l, true]. }
  rewrite hexToCompact_shape by done. destruct (Nat.odd (length l)) eqn:Ho.
  - destruct l as [|x l]; [done|]. inversion Hl as [|? ? Hx Hl']; subst. rewrite compactToHex_cons. unfold is_nibble in Hx.
    assert (He : Nat.even (length l) = true) by (cbn [length] in Ho; by rewrite Nat.odd_succ in Ho).
    rewrite key_decodeNibbles by done.
    assert (Hd : ∀ m, 0 <= m → (m * 16 + x) / 16 = m ∧ (m * 16 + x) mod 16 = x).
    { intros m Hm. rewrite Z.div_add_l, (Z.div_small x), Z.add_0_r by lia. by rewrite Z.add_comm, Z.mod_add, Z.mod_small by lia. }
    destruct t;
      [replace (48 + x) with (3 * 16 + x) by lia; destruct (Hd 3) as [-> ->]; [lia|]
      |replace (16 + x) with (1 * 16 + x) by lia; destruct (Hd 1) as [-> ->]; [lia|]].
    + done.
    + cbn. by rewrite app_nil_r.
  - assert (He : Nat.even (length l) = true) by (by rewrite <- Nat.negb_odd, Ho).
    rewrite compactToHex_cons, key_decodeNibbles by done. destruct t; cbn; [done|by rewrite app_nil_r].
Qed.

(** The compact form of a key on disk is read back as the key, and the bytes
    of a key survive the way through its nibbles; so no two keys share a form. *)
Theorem compact_roundtrip k key :
  (hexkey k → compactToHex (hexToCompact k) = k) ∧
  (Forall is_byte key → hexToKeybytes (keybytesToHex key) = Some key ∧
    compactToHex (hexToCompact (keybytesToHex key)) = keybytesToHex key).
Proof.
  split; [apply compactToHex_hexToCompact_core|]. intros Hk. split.
  - unfold hexToKeybytes. rewrite hasTerm_terminated by (by apply keybytesToHex_terminated).
    unfold keybytesToHex. rewrite init_snoc, length_key_nibbles. rewrite Nat.odd_mul. cbn. by rewrite decodeNibbles_key.
  - apply compactToHex_hexToCompact_core. right. by apply keybytesToHex_terminated.
Qed.

(** ** The in-place form: lemmas *)

Lemma compact_loop_spec fuel h bi ni n :
  (ni <= n <= length h)%nat → (bi <= S ni)%nat → Nat.even (n - ni) = true → (n - ni <= fuel)%nat →
  compact_loop fuel h bi ni n =
    take bi h ++ decodeNibbles (take (n - ni) (drop ni h)) ++ drop (bi + Nat.div2 (n - ni)) h.
Proof.
  revert h bi ni. induction fuel as [|fuel IH]; intros h bi ni Hn Hb He Hf.
  - replace (n - ni)%nat with O by lia. cbn. by rewrite take_0, Nat.add_0_r; cbn; rewrite take_drop.
  - cbn [compact_loop]. destruct (Nat.ltb_spec ni n) as [Hlt|].
    2: { replace (n - ni)%nat with O by lia. cbn. by rewrite take_0, Nat.add_0_r; cbn; rewrite take_drop. }
    destruct (n - ni)%nat as [|[|m]] eqn:Hm; [lia|done|]. cbn [Nat.even] in He. set (v := Z.lor _ _).
    rewrite IH; [|rewrite length_insert; lia|lia|replace (n - S (S ni))%nat with m by lia; done|lia].
    replace (n - S (S ni))%nat with m by lia.
    rewrite drop_insert_lt by lia.
    destruct (drop ni h) as [|x [|y r]] eqn:Hd.
    { apply (f_equal length) in Hd. rewrite length_drop in Hd. cbn in Hd. lia. }
    { apply (f_equal length) in Hd. rewrite length_drop in Hd. cbn in Hd. lia. }
    assert (Hx : nth ni h 0 = x ∧ nth (S ni) h 0 = y ∧ drop (S (S ni)) h = r).
    { rewrite <- (Nat.add_0_r ni) at 1. rewrite <- (Nat.add_1_r ni) at 1. rewrite <- !nth_skipn.
      change (skipn ni h) with (drop ni h). rewrite Hd. replace (S (S ni)) with (ni + 2)%nat by lia.
      rewrite <- drop_drop, Hd. done. }
    destruct Hx as (Hx & Hy & Hr). subst v. rewrite Hx, Hy, Hr. cbn [take decodeNibbles Nat.div2 app].
    rewrite (take_S_r _ _ (Z.lor (Z.shiftl x 4 mod 256) y)) by (apply list_lookup_insert_eq; lia).
    generalize (Nat.div2 m). intros q. rewrite take_insert_ge, drop_insert_lt by lia. rewrite <- app_assoc. cbn [app].
    by replace (S bi + q)%nat with (bi + S q)%nat by lia.
Qed.

Lemma length_decodeNibbles l : length (decodeNibbles l) = Nat.div2 (length l).
Proof.
  remember (length l) as n eqn:Hn. revert l Hn. induction n as [n IH] using lt_wf_ind. intros l ->.
  destruct l as [|x [|y l]]; [done..|]. cbn [decodeNibbles length Nat.div2]. f_equal. by apply (IH (length l)); [cbn; lia|].
Qed.

(** The compact form made in the buffer of the key, where the writes run
    behind the reads, is the one made in a fresh buffer; only an empty key, which
    has no buffer to write to, panics. *)
Theorem hexToCompactInPlace_equiv k :
  hexkey k → hexToCompactInPlace k = if bool_decide (k = []) then None else Some (hexToCompact k).
Proof.
  intros Hk. assert (∃ l (t : bool), nibbles l ∧ k = if t then l ++ [16] else l) as (l & t & Hl & ->).
  { destruct Hk as [Hk|(l & -> & Hl)]; [by exists k, false|by exists l, true]. }
  rewrite hexToCompact_shape by done. clear Hk. remember (if t then l ++ [16] else l) as k eqn:Hk. unfold hexToCompactInPlace.
  assert (Ht : (0 <? len k) && (nth (length k - 1) k 0 =? 16) = t).
  { destruct (nil_or_length_pos k) as [Hnil|Hpos].
    - subst k. destruct t; [by apply app_nil in Hnil as [_ ?]|by rewrite Hnil].
    - assert (0 <? len k = true) as -> by (apply Z.ltb_lt; unfold len; destruct k; [done|cbn; lia]). subst k. destruct t.
      + rewrite length_app. cbn [length andb]. replace (length l + 1 - 1)%nat with (length l) by lia. by rewrite nth_middle.
      + assert (Hin : nth (length l - 1) l 0 ∈ l) by (apply list_elem_of_In, nth_In; destruct l; [done|cbn; lia]).
        unfold nibbles in Hl. rewrite Forall_forall in Hl. apply Hl in Hin. unfold is_nibble in Hin. cbn. apply Z.eqb_neq. lia. }
  rewrite Ht. assert (Hn : (if t then length k - 1 else length k)%nat = length l) by (subst k; destruct t; rewrite ?length_app; cbn; lia).
  rewrite Hn. assert (Hlk : (length l <= length k)%nat) by (clear -Hn; destruct t; lia).
  assert (Hpre : ∀ i, (i <= length l)%nat → take (length l - i) (drop i k) = drop i l).
  { intros i Hi. subst k. destruct t; [rewrite drop_app_le by lia; rewrite take_app_le by (rewrite length_drop; lia)|];
      rewrite take_ge; done || (rewrite length_drop; lia). }
  destruct (Nat.odd (length l)) eqn:Ho.
  - destruct l as [|x l']; [done|]. apply Forall_cons in Hl as [Hx Hl'].
    rewrite compact_loop_spec; [|cbn [length] in *; lia|lia|cbn [length] in *; rewrite Nat.sub_succ, Nat.sub_0_r; by rewrite Nat.odd_succ in Ho|cbn [length]; lia].
    rewrite Hpre by (cbn; lia). destruct k as [|x' k']; [cbn in Hlk; lia|].
    assert (x' = x) as -> by (destruct t; by injection Hk).
    cbn [take app drop insert list_insert]. rewrite bool_decide_false by done. f_equal.
    rewrite Nat.add_1_r. cbn [take]. f_equal.
    { destruct t; cbn [Z.shiftl nth].
      - change (Z.lor (Z.shiftl 1 5) (Z.shiftl 1 4)) with (Z.shiftl 3 4 mod 256). by apply (nibble_join 3 x).
      - change (Z.lor 0 (Z.shiftl 1 4)) with (Z.shiftl 1 4 mod 256). by apply (nibble_join 1 x). }
    rewrite take_0, drop_0. cbn [app].
    assert (Hq : (length (x :: l') / 2)%nat = length (decodeNibbles l')).
    { rewrite length_decodeNibbles, <- Nat.div2_div. cbn [length] in *. rewrite Nat.odd_succ in Ho.
      apply Nat.even_spec in Ho as [q ->]. by rewrite Nat.div2_double, Nat.div2_succ_double. }
    by rewrite Hq, take_app_length.
  - assert (He : Nat.even (length l) = true) by (by rewrite <- Nat.negb_odd, Ho).
    rewrite compact_loop_spec; [|lia|lia|by rewrite Nat.sub_0_r|lia]. rewrite Hpre by lia. rewrite drop_0.
    destruct k as [|x' k'].
    + assert (l = []) as -> by (destruct t; [by destruct l|done]). done.
    + rewrite bool_decide_false by done. cbn [take app insert list_insert]. f_equal. rewrite Nat.add_1_r. cbn [take].
      change (Z.shiftl 1 5) with 32. f_equal. rewrite take_0. cbn [app]. rewrite <- Nat.div2_div, <- length_decodeNibbles. by rewrite take_app_length.
Qed.

(** ** Prefixes *)

Lemma prefixLen_spec a b :
  let n := prefixLen a b in
  (n <= length a)%nat ∧ (n <= length b)%nat ∧ take n a = take n b ∧
  (∀ x y, a !! n = Some x → b !! n = Some y → x ≠ y).
Proof.
  revert b. induction a as [|x a IH]; intros [|y b]; cbn; try (split_and!; done || lia).
  destruct (Z.eqb_spec x y) as [->|Hne]; cbn.
  - destruct (IH b) as (H1 & H2 & H3 & H4). split_and!; [lia|lia|by rewrite H3|done].
  - split_and!; [lia|lia|done|]. by intros ? ? [= <-] [= <-].
Qed.

Lemma prefixLen_app a b : prefixLen (a ++ b) a = length a.
Proof. induction a as [|x a IH]; [by destruct b|]. cbn. by rewrite Z.eqb_refl, IH. Qed.

Lemma HasPrefix_spec s p : HasPrefix s p = true ↔ ∃ q, s = p ++ q.
Proof.
  unfold HasPrefix. rewrite bool_decide_eq_true. split.
  - intros H. exists (drop (length p) s). by rewrite <- H at 1; rewrite take_drop.
  - intros [q ->]. by rewrite take_app_length.
Qed.

(** A terminated key is no proper prefix of another. *)
Lemma terminated_prefix a b : terminated a → terminated (a ++ b) → b = [].
Proof.
  intros (l & -> & _) (l' & He & Hl'). destruct b as [|x b _] using rev_ind; [done|].
  rewrite app_assoc in He. apply app_inj_tail in He as [He _]. subst l'. unfold nibbles in Hl'.
  rewrite !Forall_app in Hl'. destruct Hl' as [[_ H16] _]. apply Forall_inv in H16. unfold is_nibble in H16. lia.
Qed.

Lemma terminated_ne k : terminated k → k ≠ [].
Proof. intros (l & -> & _). by destruct l. Qed.

Lemma terminated_cons x k : terminated (x :: k) → (x = 16 ∧ k = []) ∨ (is_nibble x ∧ terminated k).
Proof.
  intros (l & He & Hl). destruct l as [|y l]; injection He as -> ->; [by left|]. right.
  inversion Hl; subst. split; [done|by exists l].
Qed.

Lemma terminated_app_nibbles a b : nibbles a → terminated (a ++ b) → terminated b.
Proof.
  induction 1 as [|x a Hx _ IH]; [done|]. intros H. apply terminated_cons in H as [[-> _]|[_ H]]; [|by apply IH].
  unfold is_nibble in Hx. lia.
Qed.

Lemma nibbles_app_terminated a b : nibbles a → terminated b → terminated (a ++ b).
Proof. intros Ha (l & -> & Hl). exists (a ++ l). rewrite app_assoc. split; [done|]. by apply Forall_app. Qed.

(** The part of a terminated key that is not the whole of it holds nibbles. *)
Lemma terminated_take k n : terminated k → (n < length k)%nat → nibbles (take n k).
Proof.
  intros (l & -> & Hl) Hn. rewrite length_app in Hn. cbn in Hn. rewrite take_app_le by lia. by apply Forall_take.
Qed.

Lemma terminated_drop k n : terminated k → (n < length k)%nat → terminated (drop n k).
Proof.
  intros (l & -> & Hl) Hn. rewrite length_app in Hn. cbn in Hn. exists (drop n l). rewrite drop_app_le by lia.
  split; [done|by apply Forall_drop].
Qed.
