(* ===== verification/TrieSpec.v ===== *)
(** * The tree that a trie stands for

    What parallelizable-client-go-ethereum/trie/trie.go computes, without the
    database, the caches and the tracer: a tree of short and full nodes over the
    nibbles of terminated keys.  Its operations are those of the code, node by
    node; they are the operations of a map from keys to values, they keep the
    tree in its minimal form, and that form is determined by the map. *)

From S2P Require Import Prelude TrieKeys.

Inductive tree : Type :=
  | Leaf (v : bytes)
  | Short (k : bytes) (t : tree)
  | Full (ch : list (option tree)).

(** ** Operations *)

Definition child (ch : list (option tree)) (x : Z) : option tree :=
  match ch !! Z.to_nat x with Some c => c | None => None end.

Fixpoint tget (t : tree) (key : bytes) : option bytes :=
  match t with
  | Leaf v => Some v
  | Short k t => if HasPrefix key k then tget t (drop (length k) key) else None
  | Full ch =>
      match key with
      | [] => None
      | x :: key =>
          (fix pick (ch : list (option tree)) (n : nat) : option bytes :=
             match ch, n with
             | Some t :: _, O => tget t key
             | _ :: ch, S n => pick ch n
             | _, _ => None
             end) ch (Z.to_nat x)
      end
  end.

Definition oget (t : option tree) (key : bytes) : option bytes := t ≫= λ t, tget t key.

(** A node under the rest of a key: the insertion into an empty place. *)
Definition under (k : bytes) (t : tree) : tree := match k with [] => t | _ => Short k t end.

Definition no_children : list (option tree) := replicate 17 None.

(** The branch where two keys part after [m] nibbles. *)
Definition branch_at (m : nat) (k : bytes) (t : tree) (key : bytes) (v : bytes) : tree :=
  Full (<[Z.to_nat (nth m key 0) := Some (under (drop (S m) key) (Leaf v))]>
        (<[Z.to_nat (nth m k 0) := Some (under (drop (S m) k) t)]> no_children)).

Fixpoint tinsert (t : tree) (key v : bytes) : tree :=
  match key with
  | [] => Leaf v
  | x :: key' =>
      match t with
      | Leaf _ => Leaf v
      | Short k t' =>
          let m := prefixLen key k in
          if (m =? length k)%nat then Short k (tinsert t' (drop m key) v)
          else if (m =? 0)%nat then branch_at m k t' key v
          else Short (take m key) (branch_at m k t' key v)
      | Full ch =>
          Full ((fix upd (ch : list (option tree)) (n : nat) : list (option tree) :=
                   match ch, n with
                   | [], _ => []
                   | None :: ch, O => Some (under key' (Leaf v)) :: ch
                   | Some c :: ch, O => Some (tinsert c key' v) :: ch
                   | c :: ch, S n => c :: upd ch n
                   end) ch (Z.to_nat x))
      end
  end.

Definition oinsert (t : option tree) (key v : bytes) : tree :=
  match t with Some t => tinsert t key v | None => under key (Leaf v) end.

(** The index of the only child; [None] when there is none or more than one. *)
Fixpoint only_from (i : nat) (ch : list (option tree)) : option (nat * tree) :=
  match ch with
  | [] => None
  | Some c :: ch => if forallb (λ c, bool_decide (c = None)) ch then Some (i, c) else None
  | None :: ch => only_from (S i) ch
  end.

Definition reduce (ch : list (option tree)) : tree :=
  match only_from 0 ch with
  | Some (pos, c) =>
      match c with
      | Short k t => if (pos =? 16)%nat then Short [Z.of_nat pos] c else Short (Z.of_nat pos :: k) t
      | _ => Short [Z.of_nat pos] c
      end
  | None => Full ch
  end.

(** A short node over what is left of its child. *)
Definition merge (k : bytes) (c : option tree) : option tree :=
  match c with
  | Some (Short k' t') => Some (Short (k ++ k') t')
  | Some c => Some (Short k c)
  | None => None
  end.

(** [None]: the key is not in the tree, which stays. *)
Fixpoint tdelete (t : tree) (key : bytes) : option (option tree) :=
  match t with
  | Leaf _ => Some None
  | Short k t' =>
      let m := prefixLen key k in
      if (m <? length k)%nat then None
      else if (m =? length key)%nat then Some None
      else merge k <$> tdelete t' (drop (length k) key)
  | Full ch =>
      match key with
      | [] => None
      | x :: key' =>
          match
            (fix pick (ch : list (option tree)) (n : nat) : option (option tree) :=
               match ch, n with
               | Some t :: _, O => tdelete t key'
               | _ :: ch, S n => pick ch n
               | _, _ => None
               end) ch (Z.to_nat x) with
          | None => None
          | Some (Some c) => Some (Some (Full (<[Z.to_nat x := Some c]> ch)))
          | Some None => Some (Some (reduce (<[Z.to_nat x := None]> ch)))
          end
      end
  end.

Definition odelete (t : option tree) (key : bytes) : option tree :=
  match t with
  | Some t' => match tdelete t' key with Some t'' => t'' | None => t end
  | None => None
  end.

(** ** The minimal form *)

(** What a leaf holds: some bytes. *)
Definition value_ok (v : bytes) : Prop := v ≠ [] ∧ Forall is_byte v.

Definition two_children (ch : list (option tree)) : Prop :=
  ∃ i j ci cj, i ≠ j ∧ ch !! i = Some (Some ci) ∧ ch !! j = Some (Some cj).

(** [wf e t]: a tree at a place where the key has ended ([e]) or goes on. *)
Inductive wf : bool → tree → Prop :=
  | wf_leaf v : value_ok v → wf true (Leaf v)
  | wf_short_leaf k v : terminated k → value_ok v → wf false (Short k (Leaf v))
  | wf_short_full k ch : nibbles k → k ≠ [] → wf false (Full ch) → wf false (Short k (Full ch))
  | wf_full ch :
      length ch = 17%nat → (∀ i c, ch !! i = Some (Some c) → wf (i =? 16)%nat c) → two_children ch →
      wf false (Full ch).

Definition owf (t : option tree) : Prop := ∀ t', t = Some t' → wf false t'.

(** The keys of such a place. *)
Definition key_of (e : bool) (k : bytes) : Prop := if e then k = [] else terminated k.

(** ** The operations, unfolded *)

Lemma tget_full ch x key : tget (Full ch) (x :: key) = oget (child ch x) key.
Proof.
  cbn [tget]. unfold child. generalize (Z.to_nat x). induction ch as [|c ch IH]; intros n; [done|].
  destruct n as [|n]; [by destruct c|]. cbn. destruct c; apply IH.
Qed.

Lemma tinsert_full ch x key v :
  tinsert (Full ch) (x :: key) v = Full (<[Z.to_nat x := Some (oinsert (child ch x) key v)]> ch).
Proof.
  cbn [tinsert]. f_equal. unfold child. generalize (Z.to_nat x). induction ch as [|c ch IH]; intros n; [done|].
  destruct n as [|n]; [by destruct c|]. change (<[S n := ?y]> (c :: ch)) with (c :: <[n := y]> ch).
  destruct c; cbn; f_equal; apply IH.
Qed.

Lemma tdelete_full ch x key :
  tdelete (Full ch) (x :: key) =
    match child ch x ≫= λ c, tdelete c key with
    | None => None
    | Some (Some c) => Some (Some (Full (<[Z.to_nat x := Some c]> ch)))
    | Some None => Some (Some (reduce (<[Z.to_nat x := None]> ch)))
    end.
Proof.
  cbn [tdelete]. unfold child.
  assert (H : ∀ ch n,
    (fix pick (ch : list (option tree)) (n : nat) : option (option tree) :=
       match ch, n with
       | Some t :: _, O => tdelete t key
       | _ :: ch, S n => pick ch n
       | _, _ => None
       end) ch n = match ch !! n with Some c => c | None => None end ≫= λ c, tdelete c key).
  { clear. intros ch. induction ch as [|c ch IH]; intros n; [done|]. destruct n as [|n]; [by destruct c|]. destruct c; apply IH. }
  by rewrite H.
Qed.

Lemma key_of_cons e x k : key_of e (x :: k) → e = false ∧ 0 <= x <= 16 ∧ key_of (Z.to_nat x =? 16)%nat k.
Proof.
  destruct e; [done|]. intros H. apply terminated_cons in H as [[-> ->]|[Hx Hk]]; [done|]. unfold is_nibble in Hx.
  split; [done|]. split; [lia|]. destruct (Nat.eqb_spec (Z.to_nat x) 16); [lia|done].
Qed.

Lemma wf_child e ch x c : wf e (Full ch) → child ch x = Some c → wf (Z.to_nat x =? 16)%nat c.
Proof.
  intros Hw Hc. inversion Hw; subst. unfold child in Hc. destruct (ch !! Z.to_nat x) as [c'|] eqn:H'; [|done]. subst. eauto.
Qed.

Lemma wf_full_false e ch : wf e (Full ch) → e = false ∧ length ch = 17%nat.
Proof. by inversion 1. Qed.

Lemma child_insert ch x y c :
  length ch = 17%nat → 0 <= x <= 16 → 0 <= y → child (<[Z.to_nat x := c]> ch) y = if decide (y = x) then c else child ch y.
Proof.
  intros Hl Hx Hy. unfold child. case_decide as H.
  - subst y. rewrite list_lookup_insert_eq by lia. done.
  - rewrite list_lookup_insert_ne by lia. done.
Qed.

Lemma child_none y : child no_children y = None.
Proof.
  unfold child, no_children. destruct (replicate 17 None !! Z.to_nat y) as [c|] eqn:H; [|done].
  apply lookup_replicate in H as [-> _]. done.
Qed.

(** ** Lookups *)

Lemma HasPrefix_refl_app k q : HasPrefix (k ++ q) k = true.
Proof. apply HasPrefix_spec. by exists q. Qed.

Lemma tget_under k t q : tget (under k t) (k ++ q) = tget t q.
Proof. destruct k as [|x k]; [done|]. cbn [under tget]. rewrite HasPrefix_refl_app. by rewrite drop_app_length. Qed.

Lemma tget_short_app k t q : tget (Short k t) (k ++ q) = tget t q.
Proof. cbn [tget]. by rewrite HasPrefix_refl_app, drop_app_length. Qed.

Lemma tget_short_Some k t key v : tget (Short k t) key = Some v → ∃ q, key = k ++ q ∧ tget t q = Some v.
Proof.
  cbn [tget]. destruct (HasPrefix key k) eqn:H; [|done]. apply HasPrefix_spec in H as [q ->]. rewrite drop_app_length. eauto.
Qed.

Lemma tget_under_Some k t key v : tget (under k t) key = Some v → ∃ q, key = k ++ q ∧ tget t q = Some v.
Proof. destruct k as [|x k]; [by exists key|]. apply tget_short_Some. Qed.

(** Two keys that part after [p]. *)
Lemma prefixLen_split key k :
  let m := prefixLen key k in
  (m < length key)%nat → (m < length k)%nat →
  ∃ p x a y b, key = p ++ x :: a ∧ k = p ++ y :: b ∧ x ≠ y ∧ length p = m ∧
    take m key = p ∧ nth m key 0 = x ∧ nth m k 0 = y ∧ drop (S m) key = a ∧ drop (S m) k = b.
Proof.
  cbn zeta. intros H1 H2. destruct (prefixLen_spec key k) as (_ & _ & Ht & Hne). set (m := prefixLen key k) in *.
  destruct (lookup_lt_is_Some_2 key m H1) as [x Hx]. destruct (lookup_lt_is_Some_2 k m H2) as [y Hy].
  exists (take m key), x, (drop (S m) key), y, (drop (S m) k).
  split_and!; [by rewrite take_drop_middle|by rewrite Ht, take_drop_middle|by apply Hne|rewrite length_take; lia|done| | |done..].
  - apply nth_lookup_Some with (d := 0) in Hx. by rewrite <- Hx.
  - apply nth_lookup_Some with (d := 0) in Hy. by rewrite <- Hy.
Qed.

(** A key that matches the whole of a node's key. *)
Lemma prefixLen_full key k : prefixLen key k = length k → ∃ q, key = k ++ q ∧ drop (length k) key = q.
Proof.
  intros Hm. destruct (prefixLen_spec key k) as (H1 & _ & Ht & _). rewrite Hm in Ht, H1. rewrite (take_ge k) in Ht by lia.
  exists (drop (length k) key). split; [|done]. rewrite <- Ht at 1. by rewrite take_drop.
Qed.

Lemma prefixLen_key_lt key k :
  terminated key → (nibbles k ∨ terminated k) → prefixLen key k ≠ length k → (prefixLen key k < length key)%nat ∧ (prefixLen key k < length k)%nat.
Proof.
  intros Hkey Hk Hne. destruct (prefixLen_spec key k) as (H1 & H2 & Ht & _). split; [|lia].
  destruct (decide (prefixLen key k = length key)) as [He|]; [|lia]. exfalso. apply Hne.
  rewrite He, (take_ge key) in Ht by lia.
  assert (Hkk : k = key ++ drop (length key) k) by (rewrite Ht at 1; by rewrite take_drop).
  destruct Hk as [Hn|Hterm].
  - destruct Hkey as (l & -> & _). rewrite Hkk in Hn. unfold nibbles in Hn. rewrite !Forall_app in Hn.
    destruct Hn as [[_ Hn] _]. apply Forall_inv in Hn. unfold is_nibble in Hn. lia.
  - rewrite Hkk in Hterm. apply terminated_prefix in Hterm; [|done]. rewrite Hterm, app_nil_r in Hkk. subst k. lia.
Qed.

Definition parted (p : bytes) (x : Z) (tx : tree) (y : Z) (ty : tree) : tree :=
  under p (Full (<[Z.to_nat x := Some tx]> (<[Z.to_nat y := Some ty]> no_children))).

Lemma tinsert_parts k t x key v :
  (prefixLen (x :: key) k < length k)%nat → (prefixLen (x :: key) k < length (x :: key))%nat →
  ∃ p a b y z, x :: key = p ++ y :: a ∧ k = p ++ z :: b ∧ y ≠ z ∧
    tinsert (Short k t) (x :: key) v = parted p y (under a (Leaf v)) z (under b t).
Proof.
  intros Hk Hkey. destruct (prefixLen_split (x :: key) k Hkey Hk) as (p & y & a & z & b & E1 & E2 & Hne & Hl & Ht & Hy & Hz & Ha & Hb).
  exists p, a, b, y, z. split_and!; [done..|]. cbn [tinsert]. set (m := prefixLen (x :: key) k) in *.
  destruct (Nat.eqb_spec m (length k)); [lia|]. unfold branch_at. rewrite Hy, Hz, Ha, Hb. unfold parted.
  destruct (Nat.eqb_spec m 0) as [H0|H0].
  - destruct p; [done|]. cbn [length] in Hl. lia.
  - rewrite Ht. destruct p; [cbn [length] in Hl; lia|done].
Qed.

Lemma oget_insert_two x y tx ty z q w :
  x ≠ y → 0 <= x <= 16 → 0 <= y <= 16 → 0 <= z →
  oget (child (<[Z.to_nat x := Some tx]> (<[Z.to_nat y := Some ty]> no_children)) z) q = Some w ↔
  (z = x ∧ tget tx q = Some w) ∨ (z = y ∧ tget ty q = Some w).
Proof.
  intros Hne Hx Hy Hz. rewrite !child_insert by (done || by rewrite ?length_insert).
  repeat case_decide; subst; rewrite ?child_none; cbn; naive_solver.
Qed.

Lemma tget_parted p x tx y ty key w :
  x ≠ y → 0 <= x <= 16 → 0 <= y <= 16 → (∀ z q, key = p ++ z :: q → 0 <= z) →
  tget (parted p x tx y ty) key = Some w ↔
  ∃ q, (key = p ++ x :: q ∧ tget tx q = Some w) ∨ (key = p ++ y :: q ∧ tget ty q = Some w).
Proof.
  intros Hne Hx Hy Hz. unfold parted. split.
  - intros H. apply tget_under_Some in H as (q & -> & Hq). destruct q as [|z q]; [done|].
    rewrite tget_full, oget_insert_two in Hq by (done || by eapply Hz). exists q. destruct Hq as [[-> ?]|[-> ?]]; auto.
  - intros (q & [[-> Hq]|[-> Hq]]); rewrite tget_under, tget_full, oget_insert_two by (done || lia); auto.
Qed.

Lemma terminated_elem k z p q : terminated k → k = p ++ z :: q → 0 <= z <= 16.
Proof.
  intros (l & -> & Hl) He. assert (Hz : z ∈ l ++ [16]) by (rewrite He; apply elem_of_app; right; left).
  apply elem_of_app in Hz as [Hz|Hz]; [|apply list_elem_of_singleton in Hz; lia].
  unfold nibbles in Hl. rewrite Forall_forall in Hl. specialize (Hl z Hz). unfold is_nibble in Hl. lia.
Qed.

Lemma wf_parted p x tx y ty :
  x ≠ y → 0 <= x <= 16 → 0 <= y <= 16 → nibbles p →
  wf (Z.to_nat x =? 16)%nat tx → wf (Z.to_nat y =? 16)%nat ty → wf false (parted p x tx y ty).
Proof.
  intros Hne Hx Hy Hp Htx Hty. unfold parted.
  set (ch := <[Z.to_nat x := Some tx]> (<[Z.to_nat y := Some ty]> no_children)).
  assert (Hf : wf false (Full ch)).
  { constructor.
    - subst ch. by rewrite !length_insert.
    - intros i c Hi. subst ch. apply list_lookup_insert_Some in Hi as [(<- & [= <-] & _)|[_ Hi]]; [done|].
      apply list_lookup_insert_Some in Hi as [(<- & [= <-] & _)|[_ Hi]]; [done|]. by apply lookup_replicate in Hi as [? _].
    - exists (Z.to_nat x), (Z.to_nat y), tx, ty. subst ch. split; [lia|]. split.
      + apply list_lookup_insert_eq. rewrite length_insert. cbn. lia.
      + rewrite list_lookup_insert_ne by lia. apply list_lookup_insert_eq. cbn. lia. }
  destruct p; [done|]. by apply wf_short_full.
Qed.

Lemma wf_under_leaf z a v :
  terminated (z :: a) → value_ok v → wf (Z.to_nat z =? 16)%nat (under a (Leaf v)).
Proof.
  intros H Hv. apply terminated_cons in H as [[-> ->]|[Hz Ha]]; [by constructor|]. unfold is_nibble in Hz.
  destruct (Nat.eqb_spec (Z.to_nat z) 16); [lia|]. pose proof (terminated_ne _ Ha). destruct a; [done|]. by constructor.
Qed.

Lemma wf_under_full z b ch :
  nibbles (z :: b) → wf false (Full ch) → wf (Z.to_nat z =? 16)%nat (under b (Full ch)).
Proof.
  intros H Hf. apply Forall_cons in H as [Hz Hb]. unfold is_nibble in Hz.
  destruct (Nat.eqb_spec (Z.to_nat z) 16); [lia|]. destruct b; [done|]. by constructor.
Qed.

(** ** Insertion *)

Lemma terminated_split_nibbles p z q : terminated (p ++ z :: q) → nibbles p ∧ terminated (z :: q).
Proof.
  intros H. assert (Hp : nibbles p).
  { pose proof (terminated_take _ (length p) H) as Ht. rewrite take_app_length in Ht. apply Ht. rewrite length_app. cbn. lia. }
  split; [done|]. by eapply terminated_app_nibbles.
Qed.

(** The insertion where a node's key and the new one part. *)
Lemma insert_parts k t x key v :
  terminated (x :: key) → (nibbles k ∨ terminated k) → prefixLen (x :: key) k ≠ length k →
  (∀ k', terminated k' →
     tget (tinsert (Short k t) (x :: key) v) k' = Some v ∧ k' = x :: key ∨
     k' ≠ x :: key ∧ tget (tinsert (Short k t) (x :: key) v) k' = tget (Short k t) k') ∧
  (wf false (Short k t) → value_ok v → wf false (tinsert (Short k t) (x :: key) v)).
Proof.
  intros Hkey Hk Hne. destruct (prefixLen_key_lt _ _ Hkey Hk Hne) as [Hl1 Hl2].
  destruct (tinsert_parts k t x key v Hl2 Hl1) as (p & a & b & y & z & E1 & E2 & Hyz & ->).
  assert (Hy : 0 <= y <= 16) by (eapply terminated_elem; eauto).
  assert (Hz : 0 <= z <= 16).
  { destruct Hk as [Hk|Hk]; [|by eapply terminated_elem]. rewrite E2 in Hk. apply Forall_app in Hk as [_ Hk].
    apply Forall_inv in Hk. unfold is_nibble in Hk. lia. }
  rewrite E1 in Hkey |- *. destruct (terminated_split_nibbles _ _ _ Hkey) as [Hp Hya]. split.
  - intros k' Hk'. destruct (decide (k' = p ++ y :: a)) as [->|Hkne].
    + left. split; [|done]. apply tget_parted; try done; [intros; eapply terminated_elem; eauto|]. exists a. left.
      split; [done|]. rewrite <- (app_nil_r a) at 2. by rewrite tget_under.
    + right. split; [done|]. apply option_eq. intros w.
      rewrite tget_parted by (try done; intros; eapply terminated_elem; eauto). split.
      * intros (q & [[-> Hq]|[-> Hq]]).
        -- apply tget_under_Some in Hq as (r & -> & _). destruct Hkne. do 2 f_equal.
           change (y :: a ++ r) with ((y :: a) ++ r) in Hk'. rewrite app_assoc in Hk'.
           apply terminated_prefix in Hk'; [by rewrite Hk', app_nil_r|done].
        -- apply tget_under_Some in Hq as (r & -> & Hr). rewrite E2. change (z :: b ++ r) with ((z :: b) ++ r).
           by rewrite app_assoc, tget_short_app.
      * intros Hw. apply tget_short_Some in Hw as (r & -> & Hr). rewrite E2. exists (b ++ r). right.
        split; [by rewrite <- app_assoc|by rewrite tget_under].
  - intros Hw Hv. apply wf_parted; try done; [by apply wf_under_leaf|]. inversion Hw; subst.
    + apply wf_under_leaf; [|done]. match goal with H : terminated (p ++ z :: b) |- _ => by apply terminated_split_nibbles in H as [_ ?] end.
    + apply wf_under_full; [|done]. match goal with H : nibbles (p ++ z :: b) |- _ => by apply Forall_app in H as [_ ?] end.
Qed.

Lemma under_leaf_get e key v k' :
  key_of e key → key_of e k' →
  tget (under key (Leaf v)) k' = if decide (k' = key) then Some v else None.
Proof.
  intros Hk Hk'. destruct e; cbn in *; [by subst|]. apply option_eq. intros w. case_decide as H.
  - subst. rewrite <- (app_nil_r key) at 2. by rewrite tget_under.
  - split; [|done]. intros Hw. apply tget_under_Some in Hw as (r & -> & _).
    apply terminated_prefix in Hk' as ->; [|done]. by rewrite app_nil_r in H.
Qed.

Lemma wf_under_key e key v : key_of e key → value_ok v → wf e (under key (Leaf v)).
Proof.
  destruct e; [by intros -> ?; constructor|]. intros Hk Hv. pose proof (terminated_ne _ Hk). destruct key; [done|]. by constructor.
Qed.

Lemma wf_short_key k t : wf false (Short k t) → nibbles k ∨ terminated k.
Proof. inversion 1; auto. Qed.

Lemma two_children_insert ch i c :
  two_children ch → (i < length ch)%nat → two_children (<[i := Some c]> ch).
Proof.
  intros (j & k & cj & ck & Hjk & Hj & Hk) Hi. exists j, k.
  assert (Hup : ∀ n d, ch !! n = Some (Some d) → ∃ d', <[i := Some c]> ch !! n = Some (Some d')).
  { intros n d Hn. destruct (decide (i = n)) as [<-|]; [|exists d; by rewrite list_lookup_insert_ne].
    eexists. by rewrite list_lookup_insert_eq. }
  destruct (Hup _ _ Hj) as [dj Hdj]. destruct (Hup _ _ Hk) as [dk Hdk]. by exists dj, dk.
Qed.

(** After an insertion a key reads what was inserted, every other key what it
    read before, and the tree is still minimal. *)
Lemma tinsert_spec e t key v :
  wf e t → key_of e key → value_ok v →
  (∀ k', key_of e k' → tget (tinsert t key v) k' = if decide (k' = key) then Some v else tget t k') ∧
  wf e (tinsert t key v).
Proof.
  intros Hw. revert key. induction Hw as [v0 Hv0|k v0 Hk Hv0|k ch Hk Hne Hw IH|ch Hl Hw IH H2]; intros key Hkey Hv.
  - cbn in Hkey. subst. cbn. split; [|by constructor]. intros k' ->. by rewrite decide_True.
  - cbn in Hkey. destruct key as [|x key]; [by apply terminated_ne in Hkey|].
    destruct (decide (prefixLen (x :: key) k = length k)) as [Hm|Hm].
    + destruct (prefixLen_full _ _ Hm) as (q & Hq & Hd). assert (q = []) as ->.
      { eapply (terminated_prefix k); [done|by rewrite <- Hq]. }
      rewrite app_nil_r in Hq. cbn [tinsert]. rewrite Hm, Nat.eqb_refl, Hd. cbn [tinsert]. split; [|by constructor].
      intros k' Hk'. apply option_eq. intros w. case_decide as He.
      * subst k'. rewrite Hq. rewrite <- (app_nil_r k) at 2. by rewrite tget_short_app.
      * split; intros Hw; apply tget_short_Some in Hw as (r & -> & _);
          (apply terminated_prefix in Hk' as ->; [|done]); rewrite app_nil_r in He; congruence.
    + destruct (insert_parts k (Leaf v0) x key v Hkey (or_intror Hk) Hm) as [Hg Hwf]. split; [|apply Hwf; [by constructor|done]].
      intros k' Hk'. destruct (Hg k' Hk') as [[H1 H]|[H1 H]]; [by rewrite decide_True|by rewrite decide_False].
  - cbn in Hkey. destruct key as [|x key]; [by apply terminated_ne in Hkey|].
    destruct (decide (prefixLen (x :: key) k = length k)) as [Hm|Hm].
    + destruct (prefixLen_full _ _ Hm) as (q & Hq & Hd). assert (Hqt : terminated q) by (rewrite Hq in Hkey; by eapply terminated_app_nibbles).
      destruct (IH q Hqt Hv) as [Hg Hwf]. change (tinsert (Short k (Full ch)) (x :: key) v) with
        (let m := prefixLen (x :: key) k in
          if (m =? length k)%nat then Short k (tinsert (Full ch) (drop m (x :: key)) v)
          else if (m =? 0)%nat then branch_at m k (Full ch) (x :: key) v
          else Short (take m (x :: key)) (branch_at m k (Full ch) (x :: key) v)). cbv zeta.
      rewrite Hm, Nat.eqb_refl, Hd. destruct q as [|y q]; [by apply terminated_ne in Hqt|]. rewrite Hq. split.
      * intros k' Hk'. apply option_eq. intros w. split.
        -- intros H. apply tget_short_Some in H as (r & -> & Hr). rewrite Hg in Hr by (by eapply terminated_app_nibbles).
           case_decide as Hc; [by rewrite Hc, decide_True|]. rewrite decide_False by (by intros ?%app_inv_head). by rewrite tget_short_app.
        -- case_decide as Hc.
           ++ intros [= <-]. subst. rewrite tget_short_app, Hg by done. by rewrite decide_True.
           ++ intros H. apply tget_short_Some in H as (r & -> & Hr). rewrite tget_short_app, Hg by (by eapply terminated_app_nibbles).
              rewrite decide_False; [done|]. by intros ->.
      * rewrite tinsert_full in *. by constructor.
    + destruct (insert_parts k (Full ch) x key v Hkey (or_introl Hk) Hm) as [Hg Hwf]. split; [|apply Hwf; [by constructor|done]].
      intros k' Hk'. destruct (Hg k' Hk') as [[H1 H]|[H1 H]]; [by rewrite decide_True|by rewrite decide_False].
  - destruct key as [|x q]; [by apply terminated_ne in Hkey|]. destruct (key_of_cons _ _ _ Hkey) as (_ & Hx & Hq).
    rewrite tinsert_full. set (c := child ch x).
    assert (Hc : (∀ k', key_of (Z.to_nat x =? 16)%nat k' →
        tget (oinsert c q v) k' = if decide (k' = q) then Some v else oget c k') ∧ wf (Z.to_nat x =? 16)%nat (oinsert c q v)).
    { destruct c as [c0|] eqn:Hc; cbn [oinsert oget mbind option_bind].
      - unfold c, child in Hc. destruct (ch !! Z.to_nat x) as [o|] eqn:Ho; [|done]. subst o. by apply (IH _ _ Ho).
      - split; [|by apply wf_under_key]. intros k' Hk'. by apply (under_leaf_get (Z.to_nat x =? 16)%nat). }
    destruct Hc as [Hg Hwf]. split.
    + intros k' Hk'. destruct k' as [|y r]; [by apply terminated_ne in Hk'|]. destruct (key_of_cons _ _ _ Hk') as (_ & Hy & Hr).
      rewrite !tget_full, child_insert by (done || lia). destruct (decide (y = x)) as [->|Hyx].
      * cbn [oget mbind option_bind]. rewrite Hg by done. fold c. repeat case_decide; try done; congruence.
      * rewrite decide_False; [done|congruence].
    + constructor; [by rewrite length_insert| |].
      * intros i d Hi. apply list_lookup_insert_Some in Hi as [(<- & [= <-] & _)|[_ Hi]]; [done|by apply Hw].
      * apply two_children_insert; [done|lia].
Qed.

(** ** Deletion *)

Lemma forallb_none ch :
  forallb (λ c : option tree, bool_decide (c = None)) ch = true ↔ ∀ i c, ch !! i = Some c → c = None.
Proof.
  rewrite forallb_forall. split.
  - intros H i c Hi. apply list_elem_of_lookup_2, list_elem_of_In in Hi. apply H in Hi. by apply bool_decide_eq_true in Hi.
  - intros H c Hc. apply list_elem_of_In, list_elem_of_lookup in Hc as [i Hi]. apply bool_decide_eq_true. eauto.
Qed.

Lemma forallb_some ch :
  forallb (λ c : option tree, bool_decide (c = None)) ch = false → ∃ i c, ch !! i = Some (Some c).
Proof.
  induction ch as [|c ch IH]; [done|]. cbn. destruct c as [c|]; [by exists 0%nat, c|]. intros (i & c & Hc)%IH. by exists (S i), c.
Qed.

Lemma only_from_spec i ch :
  match only_from i ch with
  | Some (p, c) => (i <= p)%nat ∧ ch !! (p - i)%nat = Some (Some c) ∧ ∀ j d, ch !! j = Some (Some d) → j = (p - i)%nat
  | None => (∀ j d, ch !! j ≠ Some (Some d)) ∨ two_children ch
  end.
Proof.
  revert i. induction ch as [|[c|] ch IH]; intros i; cbn [only_from]; [by left|..].
  - destruct (forallb _ ch) eqn:Hf.
    + split; [lia|]. rewrite Nat.sub_diag. split; [done|]. intros [|j] d Hj; [done|]. cbn in Hj.
      by apply (proj1 (forallb_none ch) Hf) in Hj.
    + right. destruct (forallb_some _ Hf) as (j & d & Hj). by exists 0%nat, (S j), c, d.
  - specialize (IH (S i)). destruct (only_from (S i) ch) as [[p c]|].
    + destruct IH as (Hi & Hp & Hu). split; [lia|]. replace (p - i)%nat with (S (p - S i)) by lia. split; [done|].
      intros [|j] d Hj; [done|]. f_equal. by apply (Hu j d).
    + destruct IH as [IH|(a & b & ca & cb & Hab & Ha & Hb)]; [left; intros [|j] d; [done|apply IH]|right].
      exists (S a), (S b), ca, cb. split; [lia|done].
Qed.

Lemma tget_short1 x t y r : tget (Short [x] t) (y :: r) = if decide (y = x) then tget t r else None.
Proof.
  case_decide as H.
  - subst. change (x :: r) with ([x] ++ r). apply tget_short_app.
  - cbn [tget]. destruct (HasPrefix (y :: r) [x]) eqn:Hp; [|done]. apply HasPrefix_spec in Hp as [q [= ? ?]]. done.
Qed.

Lemma tget_short_cons x k t y r : tget (Short (x :: k) t) (y :: r) = if decide (y = x) then tget (Short k t) r else None.
Proof.
  apply option_eq. intros w. case_decide as H.
  - subst. split; intros Hw; apply tget_short_Some in Hw as (q & Hq & Ht).
    + injection Hq as ->. by rewrite tget_short_app.
    + subst. change (x :: k ++ q) with ((x :: k) ++ q). by rewrite tget_short_app.
  - split; [|done]. intros Hw. apply tget_short_Some in Hw as (q & [= ? ?] & _). done.
Qed.

Lemma reduce_spec ch :
  length ch = 17%nat → (∀ i c, ch !! i = Some (Some c) → wf (i =? 16)%nat c) → (∃ i c, ch !! i = Some (Some c)) →
  wf false (reduce ch) ∧ ∀ y r, 0 <= y → tget (reduce ch) (y :: r) = oget (child ch y) r.
Proof.
  intros Hl Hw Hne. unfold reduce. pose proof (only_from_spec 0 ch) as Ho.
  destruct (only_from 0 ch) as [[p c]|].
  2: { destruct Ho as [Ho|Ho]; [destruct Hne as (i & c & Hi); by apply Ho in Hi|]. split; [by constructor|].
       intros y r _. apply tget_full. }
  destruct Ho as (_ & Hp & Hu). rewrite Nat.sub_0_r in Hp, Hu. pose proof (Hw _ _ Hp) as Hwc.
  assert (Hp17 : (p < 17)%nat) by (rewrite <- Hl; by eapply lookup_lt_Some).
  assert (Hget : ∀ y r, 0 <= y → oget (child ch y) r = if decide (y = Z.of_nat p) then tget c r else None).
  { intros y r Hy. unfold child. case_decide as H.
    - subst y. by rewrite Nat2Z.id, Hp.
    - destruct (ch !! Z.to_nat y) as [[d|]|] eqn:Hd; [|done..]. apply Hu in Hd. lia. }
  destruct (Nat.eqb_spec p 16) as [->|Hp16].
  - inversion Hwc; subst. split; [|intros y r Hy; by rewrite Hget, tget_short1].
    constructor; [|done]. exists []. by split; [|constructor].
  - assert (Hn : is_nibble (Z.of_nat p)) by (unfold is_nibble; lia). inversion Hwc; subst.
    + split; [|intros y r Hy; by rewrite Hget, tget_short_cons]. constructor; [|done].
      apply (nibbles_app_terminated [Z.of_nat p]); [by apply Forall_singleton|done].
    + split; [|intros y r Hy; by rewrite Hget, tget_short_cons]. constructor; [by apply Forall_cons|done|done].
    + split; [|intros y r Hy; by rewrite Hget, tget_short1]. constructor; [by apply Forall_singleton|done|by constructor].
Qed.

Lemma merge_spec k c :
  nibbles k → k ≠ [] → wf false c →
  ∃ m, merge k (Some c) = Some m ∧ wf false m ∧ ∀ k', tget m k' = tget (Short k c) k'.
Proof.
  intros Hk Hne Hw. inversion Hw as [|k1 v H1 H2|k1 ch H1 H2 H3|ch H1 H2 H3]; subst; cbn [merge]; eexists; (split; [done|]).
  - split; [constructor; [by apply nibbles_app_terminated|done]|]. intros k'. apply option_eq. intros w.
    split; intros Hq; apply tget_short_Some in Hq as (q & -> & Hq).
    + by rewrite <- app_assoc, tget_short_app, tget_short_app.
    + apply tget_short_Some in Hq as (q' & -> & Hq). by rewrite app_assoc, tget_short_app.
  - split; [constructor; [by apply Forall_app|by destruct k|done]|]. intros k'. apply option_eq. intros w.
    split; intros Hq; apply tget_short_Some in Hq as (q & -> & Hq).
    + by rewrite <- app_assoc, tget_short_app, tget_short_app.
    + apply tget_short_Some in Hq as (q' & -> & Hq). by rewrite app_assoc, tget_short_app.
  - split; [by constructor|done].
Qed.

(** What a deletion leaves: nothing, or a minimal tree with the key removed. *)
Definition deleted (e : bool) (t : tree) (key : bytes) (r : option (option tree)) : Prop :=
  match r with
  | None => tget t key = None
  | Some t' =>
      tget t key ≠ None ∧ (∀ k', key_of e k' → oget t' k' = if decide (k' = key) then None else tget t k') ∧
      (∀ t'', t' = Some t'' → wf e t'') ∧ (t' = None → ∀ ch, t ≠ Full ch)
  end.

Lemma tdelete_short_full k ch key :
  nibbles k → k ≠ [] → wf false (Full ch) → terminated key →
  (∀ q, terminated q → deleted false (Full ch) q (tdelete (Full ch) q)) →
  deleted false (Short k (Full ch)) key (tdelete (Short k (Full ch)) key).
Proof.
  intros Hk Hne Hw Hkey IH.
  change (tdelete (Short k (Full ch)) key) with
    (let m := prefixLen key k in
     if (m <? length k)%nat then None else if (m =? length key)%nat then Some None
     else merge k <$> tdelete (Full ch) (drop (length k) key)). cbv zeta.
  destruct (decide (prefixLen key k = length k)) as [Hm|Hm].
  + destruct (prefixLen_full _ _ Hm) as (q & Hq & Hd). assert (Hqt : terminated q) by (rewrite Hq in Hkey; by eapply terminated_app_nibbles).
    rewrite Hm, Hd. destruct (Nat.ltb_spec (length k) (length k)); [lia|]. pose proof (terminated_ne _ Hqt) as Hqn.
    destruct (Nat.eqb_spec (length k) (length key)) as [He|_]; [rewrite Hq, length_app in He; destruct q; [done|cbn in He; lia]|].
    specialize (IH q Hqt). destruct (tdelete (Full ch) q) as [[t'|]|]; cbn [fmap option_fmap option_map deleted] in *.
    * destruct IH as (Hs & Hg & Hwt & _). destruct (merge_spec k t' Hk Hne (Hwt _ eq_refl)) as (m & -> & Hwm & Hgm).
      subst key. split_and!; [by rewrite tget_short_app| |by intros ? [= <-]|done].
      intros k' Hk'. cbn [oget mbind option_bind]. rewrite Hgm. apply option_eq. intros w. split.
      -- intros H'. apply tget_short_Some in H' as (r & -> & Hr). assert (Hrt : terminated r) by (by eapply terminated_app_nibbles).
         specialize (Hg r Hrt). cbn in Hg. rewrite Hg in Hr. case_decide as Hrq; [done|].
         rewrite decide_False by (by intros ?%app_inv_head). by rewrite tget_short_app.
      -- case_decide as Hkq; [done|]. intros H'. apply tget_short_Some in H' as (r & -> & Hr).
         assert (Hrt : terminated r) by (by eapply terminated_app_nibbles).
         specialize (Hg r Hrt). cbn in Hg. rewrite tget_short_app, Hg, decide_False; [done|]. by intros ->.
    * destruct IH as (_ & _ & _ & Hn). by destruct (Hn eq_refl ch).
    * subst key. by rewrite tget_short_app.
  + destruct (prefixLen_key_lt _ _ Hkey (or_introl Hk) Hm) as [_ Hlt]. destruct (Nat.ltb_spec (prefixLen key k) (length k)); [|lia].
    cbn [deleted]. apply option_eq. intros w. split; [|done]. intros Hw'. apply tget_short_Some in Hw' as (r & -> & _).
    by rewrite prefixLen_app in Hm.
Qed.

Lemma tdelete_full_spec ch key :
  length ch = 17%nat → (∀ i c, ch !! i = Some (Some c) → wf (i =? 16)%nat c) → two_children ch → terminated key →
  (∀ i c, ch !! i = Some (Some c) → ∀ q, key_of (i =? 16)%nat q → deleted (i =? 16)%nat c q (tdelete c q)) →
  deleted false (Full ch) key (tdelete (Full ch) key).
Proof.
  intros Hl Hw H2 Hkey IH.
  destruct key as [|x q]; [by apply terminated_ne in Hkey|]. destruct (key_of_cons false _ _ Hkey) as (_ & Hx & Hq).
  rewrite tdelete_full. destruct (child ch x) as [c|] eqn:Hc; cbn [mbind option_bind]; [|cbn [deleted]; by rewrite tget_full, Hc].
  assert (Hlc : ch !! Z.to_nat x = Some (Some c)).
  { unfold child in Hc. destruct (ch !! Z.to_nat x) as [o|] eqn:Ho; [|done]. by subst o. }
  specialize (IH _ _ Hlc q Hq).
  assert (Hget : ∀ o, (∀ k', key_of (Z.to_nat x =? 16)%nat k' → oget o k' = if decide (k' = q) then None else tget c k') →
    ∀ k', terminated k' → (match k' with [] => None | y :: r => oget (child (<[Z.to_nat x := o]> ch) y) r end)
      = if decide (k' = x :: q) then None else tget (Full ch) k').
  { intros o Ho k' Hk'. destruct k' as [|y r]; [by apply terminated_ne in Hk'|]. destruct (key_of_cons false _ _ Hk') as (_ & Hy & Hr).
    rewrite tget_full, child_insert by (done || lia). destruct (decide (y = x)) as [->|Hyx].
    - rewrite Ho, Hc by done. cbn. repeat case_decide; try done; congruence.
    - rewrite decide_False; [done|congruence]. }
  destruct (tdelete c q) as [[c'|]|]; cbn [deleted] in *.
  + destruct IH as (Hs & Hg & Hwc & _). split_and!; [by rewrite tget_full, Hc| | |done].
    * intros k' Hk'. cbn in Hk'. rewrite <- (Hget (Some c') Hg k' Hk'). cbn [oget mbind option_bind].
      destruct k' as [|y r]; [by apply terminated_ne in Hk'|]. apply tget_full.
    * intros t'' [= <-]. constructor; [by rewrite length_insert| |].
      -- intros i d Hi. apply list_lookup_insert_Some in Hi as [(<- & [= <-] & _)|[_ Hi]]; [by apply Hwc|by apply Hw].
      -- apply two_children_insert; [done|lia].
  + destruct IH as (Hs & Hg & _ & _). destruct (reduce_spec (<[Z.to_nat x := None]> ch)) as [Hwr Hgr].
    * by rewrite length_insert.
    * intros i d Hi. apply list_lookup_insert_Some in Hi as [(<- & [=] & _)|[_ Hi]]. by apply Hw.
    * destruct H2 as (i & j & ci & cj & Hij & Hi & Hj). destruct (decide (Z.to_nat x = i)) as [<-|].
      -- exists j, cj. by rewrite list_lookup_insert_ne.
      -- exists i, ci. by rewrite list_lookup_insert_ne.
    * split_and!; [by rewrite tget_full, Hc| |by intros ? [= <-]|done].
      intros k' Hk'. cbn in Hk'. rewrite <- (Hget None Hg k' Hk'). cbn [oget mbind option_bind].
      destruct k' as [|y r]; [by apply terminated_ne in Hk'|]. destruct (key_of_cons false _ _ Hk') as (_ & Hy & _). apply Hgr. lia.
  + by rewrite tget_full, Hc.
Qed.

Lemma tdelete_spec e t key : wf e t → key_of e key → deleted e t key (tdelete t key).
Proof.
  intros Hw. revert key. induction Hw as [v0 Hv0|k v0 Hk Hv0|k ch Hk Hne Hw IH|ch Hl Hw IH H2]; intros key Hkey.
  - cbn in Hkey. subst. cbn. split_and!; try done. intros k' ->. by rewrite decide_True.
  - cbn in Hkey. cbn [tdelete]. destruct (decide (prefixLen key k = length k)) as [Hm|Hm].
    + destruct (prefixLen_full _ _ Hm) as (q & Hq & _). assert (q = []) as -> by (eapply (terminated_prefix k); [done|by rewrite <- Hq]).
      rewrite app_nil_r in Hq. subst key. rewrite Hm. destruct (Nat.ltb_spec (length k) (length k)); [lia|]. rewrite Nat.eqb_refl.
      cbn [deleted]. split_and!; try done.
      * rewrite <- (app_nil_r k) at 2. by rewrite tget_short_app.
      * intros k' Hk'. case_decide as He; [done|]. symmetry. apply option_eq. intros w. split; [|done].
        intros Hw. apply tget_short_Some in Hw as (r & -> & _). apply terminated_prefix in Hk' as ->; [|done]. by rewrite app_nil_r in He.
    + destruct (prefixLen_key_lt _ _ Hkey (or_intror Hk) Hm) as [_ Hlt]. destruct (Nat.ltb_spec (prefixLen key k) (length k)); [|lia].
      cbn [deleted]. apply option_eq. intros w. split; [|done]. intros Hw. apply tget_short_Some in Hw as (r & -> & _).
      by rewrite prefixLen_app in Hm.
  - by apply tdelete_short_full.
  - by apply tdelete_full_spec.
Qed.

(** ** The form is determined by the map *)

Lemma terminated_16 : terminated [16].
Proof. exists []. split; [done|constructor]. Qed.

(** Every place of a minimal tree holds a key. *)
Lemma wf_inhabited e t : wf e t → ∃ k v, key_of e k ∧ tget t k = Some v.
Proof.
  induction 1 as [v Hv|k v Hk Hv|k ch Hk Hne Hw IH|ch Hl Hw IH H2].
  - by exists [], v.
  - exists k, v. split; [done|]. rewrite <- (app_nil_r k) at 2. by rewrite tget_short_app.
  - destruct IH as (q & v & Hq & Hv). exists (k ++ q), v. split; [by apply nibbles_app_terminated|]. by rewrite tget_short_app.
  - destruct H2 as (i & j & ci & cj & Hij & Hi & Hj). destruct (IH _ _ Hi) as (q & v & Hq & Hv).
    assert (Hi17 : (i < 17)%nat) by (rewrite <- Hl; by eapply lookup_lt_Some).
    exists (Z.of_nat i :: q), v. split.
    + destruct (Nat.eqb_spec i 16) as [->|]; cbn in Hq |- *; [subst; apply terminated_16|].
      apply (nibbles_app_terminated [Z.of_nat i]); [|done]. apply Forall_singleton. unfold is_nibble. lia.
    + rewrite tget_full. unfold child. by rewrite Nat2Z.id, Hi.
Qed.

(** A full node holds two keys that part at once. *)
Lemma full_parts ch :
  wf false (Full ch) → ∃ x a v y b w, x ≠ y ∧ terminated (x :: a) ∧ terminated (y :: b) ∧
    tget (Full ch) (x :: a) = Some v ∧ tget (Full ch) (y :: b) = Some w.
Proof.
  intros Hf. inversion Hf as [| | |? Hl Hw H2]; subst. destruct H2 as (i & j & ci & cj & Hij & Hi & Hj).
  assert (Hk : ∀ i c, ch !! i = Some (Some c) → ∃ a v, terminated (Z.of_nat i :: a) ∧ tget (Full ch) (Z.of_nat i :: a) = Some v).
  { intros n c Hn. destruct (wf_inhabited _ _ (Hw _ _ Hn)) as (q & v & Hq & Hv).
    assert (Hn17 : (n < 17)%nat) by (rewrite <- Hl; by eapply lookup_lt_Some). exists q, v. split.
    - destruct (Nat.eqb_spec n 16) as [->|]; cbn in Hq; [subst; apply terminated_16|].
      apply (nibbles_app_terminated [Z.of_nat n]); [|done]. apply Forall_singleton. unfold is_nibble. lia.
    - rewrite tget_full. unfold child. by rewrite Nat2Z.id, Hn. }
  destruct (Hk _ _ Hi) as (a & v & Ha & Hv). destruct (Hk _ _ Hj) as (b & w & Hb & Hw').
  exists (Z.of_nat i), a, v, (Z.of_nat j), b, w. split_and!; try done. lia.
Qed.

(** The trees read the same at the keys of the place. *)
Definition same_map (e : bool) (t t' : tree) : Prop := ∀ k, key_of e k → tget t k = tget t' k.

Lemma same_map_sym e t t' : same_map e t t' → same_map e t' t.
Proof. intros H k Hk. symmetry. by apply H. Qed.

(** A short node does not read like a full one. *)
Lemma short_not_full k t ch : wf false (Short k t) → wf false (Full ch) → ¬ same_map false (Short k t) (Full ch).
Proof.
  intros Hs Hf Hsame. destruct (full_parts _ Hf) as (x & a & v & y & b & w & Hxy & Ha & Hb & Hv & Hw).
  rewrite <- Hsame in Hv, Hw by done. apply tget_short_Some in Hv as (q & Hq & _). apply tget_short_Some in Hw as (r & Hr & _).
  destruct k as [|z k]; [inversion Hs; subst; [by eapply terminated_ne|done]|]. cbn in Hq, Hr. congruence.
Qed.

Lemma short_keys_prefix k ch k' t' :
  nibbles k → wf false (Full ch) → same_map false (Short k (Full ch)) (Short k' t') → ∃ r, k = k' ++ r.
Proof.
  intros Hk Hf Hsame. destruct (full_parts _ Hf) as (x & a & v & y & b & w & Hxy & Ha & Hb & Hv & Hw).
  assert (H1 : tget (Short k' t') (k ++ x :: a) = Some v) by (rewrite <- Hsame by (by apply nibbles_app_terminated); by rewrite tget_short_app).
  assert (H2 : tget (Short k' t') (k ++ y :: b) = Some w) by (rewrite <- Hsame by (by apply nibbles_app_terminated); by rewrite tget_short_app).
  apply tget_short_Some in H1 as (q & Hq & _). apply tget_short_Some in H2 as (r & Hr & _). clear -Hxy Hq Hr.
  revert k Hq Hr. induction k' as [|z k' IH]; intros k Hq Hr; [by exists k|].
  destruct k as [|u k]; [cbn in *; congruence|]. injection Hq as -> Hq. injection Hr as Hr.
  destruct (IH k Hq Hr) as [s ->]. by exists s.
Qed.

(** A leaf under its key does not read like a branch under a key. *)
Lemma leaf_not_ext k v k' ch : terminated k → nibbles k' → wf false (Full ch) → ¬ same_map false (Short k (Leaf v)) (Short k' (Full ch)).
Proof.
  intros Hk Hk' Hf Hsame. destruct (full_parts _ Hf) as (x & a & u & y & b & w & Hxy & Ha & Hb & Hu & Hw).
  assert (H1 : tget (Short k (Leaf v)) (k' ++ x :: a) = Some u) by (rewrite Hsame by (by apply nibbles_app_terminated); by rewrite tget_short_app).
  assert (H2 : tget (Short k (Leaf v)) (k' ++ y :: b) = Some w) by (rewrite Hsame by (by apply nibbles_app_terminated); by rewrite tget_short_app).
  apply tget_short_Some in H1 as (q & Hq & _). apply tget_short_Some in H2 as (r & Hr & _).
  assert (q = []) as -> by (eapply (terminated_prefix k); [done|rewrite <- Hq; by apply nibbles_app_terminated]).
  assert (r = []) as -> by (eapply (terminated_prefix k); [done|rewrite <- Hr; by apply nibbles_app_terminated]).
  rewrite app_nil_r in Hq, Hr. rewrite <- Hq in Hr. apply app_inv_head in Hr. congruence.
Qed.

Lemma same_map_tail k t t' : nibbles k → same_map false (Short k t) (Short k t') → same_map false t t'.
Proof.
  intros Hk H q Hq. specialize (H (k ++ q) (nibbles_app_terminated _ _ Hk Hq)). by rewrite !tget_short_app in H.
Qed.

Lemma same_map_child ch ch' i :
  (i <= 16)%nat → same_map false (Full ch) (Full ch') →
  ∀ k, key_of (i =? 16)%nat k → oget (child ch (Z.of_nat i)) k = oget (child ch' (Z.of_nat i)) k.
Proof.
  intros Hi H k Hk. rewrite <- !tget_full. apply H. destruct (Nat.eqb_spec i 16) as [->|]; cbn in Hk |- *.
  - subst. apply terminated_16.
  - apply (nibbles_app_terminated [Z.of_nat i]); [|done]. apply Forall_singleton. unfold is_nibble. lia.
Qed.

(** Two minimal trees that read the same are the same tree. *)
Lemma wf_unique e t t' : wf e t → wf e t' → same_map e t t' → t = t'.
Proof.
  intros Hw. revert t'. induction Hw as [v Hv|k v Hk Hv|k ch Hk Hne Hw IH|ch Hl Hw IH H2]; intros t' Hw' Hs.
  - inversion Hw'; subst. specialize (Hs [] eq_refl). cbn in Hs. congruence.
  - inversion Hw' as [|k' v' Hk' Hv'|k' ch' Hk' Hne' Hf'|ch' Hl' Hc' H2']; subst.
    + specialize (Hs k Hk). rewrite <- (app_nil_r k) in Hs at 2. rewrite tget_short_app in Hs. change (tget (Leaf v) []) with (Some v) in Hs. symmetry in Hs.
      apply tget_short_Some in Hs as (q & Hq & Hv2). cbn in Hv2. rewrite Hq in Hk. apply terminated_prefix in Hk; [|done].
      subst q. rewrite app_nil_r in Hq. congruence.
    + by destruct (leaf_not_ext k v k' ch' Hk Hk' Hf').
    + destruct (short_not_full k (Leaf v) ch'); [by constructor|by constructor|done].
  - inversion Hw' as [|k' v' Hk' Hv'|k' ch' Hk' Hne' Hf'|ch' Hl' Hc' H2']; subst.
    + by destruct (leaf_not_ext k' v' k ch Hk' Hk Hw (same_map_sym _ _ _ Hs)).
    + destruct (short_keys_prefix _ _ _ _ Hk Hw Hs) as [r Hr].
      destruct (short_keys_prefix _ _ _ _ Hk' Hf' (same_map_sym _ _ _ Hs)) as [r' Hr'].
      assert (r = [] ∧ r' = []) as [-> ->].
      { rewrite Hr in Hr'. rewrite <- app_assoc in Hr'. rewrite <- (app_nil_r k') in Hr' at 1. apply app_inv_head in Hr'.
        symmetry in Hr'. by apply app_eq_nil in Hr'. }
      rewrite app_nil_r in Hr. subst k'. f_equal. apply IH; [done|]. by eapply same_map_tail.
    + destruct (short_not_full k (Full ch) ch'); [by constructor|by constructor|done].
  - inversion Hw' as [|k' v' Hk' Hv'|k' ch' Hk' Hne' Hf'|ch' Hl' Hc' H2']; subst.
    + destruct (short_not_full k' (Leaf v') ch); [done|by constructor|by apply same_map_sym].
    + destruct (short_not_full k' (Full ch') ch); [done|by constructor|by apply same_map_sym].
    + f_equal. apply list_eq. intros i. destruct (decide (i < 17)%nat) as [Hi|Hi].
      2: { rewrite !lookup_ge_None_2 by lia. done. }
      destruct (lookup_lt_is_Some_2 ch i ltac:(lia)) as [c Hc]. destruct (lookup_lt_is_Some_2 ch' i ltac:(lia)) as [c' Hc'i].
      pose proof (same_map_child ch ch' i ltac:(lia) Hs) as Hch. unfold child in Hch. rewrite Nat2Z.id, Hc, Hc'i in Hch.
      rewrite Hc, Hc'i. f_equal. destruct c as [c|], c' as [c'|]; [|exfalso..|done].
      * f_equal. by apply (IH _ _ Hc c' (Hc' _ _ Hc'i)).
      * destruct (wf_inhabited _ _ (Hw _ _ Hc)) as (k & v & Hk & Hv). specialize (Hch k Hk). cbn in Hch. congruence.
      * destruct (wf_inhabited _ _ (Hc' _ _ Hc'i)) as (k & v & Hk & Hv). specialize (Hch k Hk). cbn in Hch. congruence.
Qed.

(** An empty tree reads like no other. *)
Lemma owf_unique t t' : owf t → owf t' → (∀ k, terminated k → oget t k = oget t' k) → t = t'.
Proof.
  intros Hw Hw' Hs. destruct t as [t|], t' as [t'|]; [|exfalso..|done].
  - f_equal. apply (wf_unique false); [by apply Hw|by apply Hw'|exact Hs].
  - destruct (wf_inhabited false t (Hw _ eq_refl)) as (k & v & Hk & Hv). specialize (Hs k Hk). cbn in Hs. congruence.
  - destruct (wf_inhabited false t' (Hw' _ eq_refl)) as (k & v & Hk & Hv). specialize (Hs k Hk). cbn in Hs. congruence.
Qed.

(** *** The operations on a tree that may be empty *)

Lemma oinsert_spec t key v :
  owf t → terminated key → value_ok v →
  owf (Some (oinsert t key v)) ∧
  ∀ k', terminated k' → oget (Some (oinsert t key v)) k' = if decide (k' = key) then Some v else oget t k'.
Proof.
  intros Hw Hk Hv. destruct t as [t|].
  - destruct (tinsert_spec false t key v (Hw _ eq_refl) Hk Hv) as [Hg Hwf]. split; [by intros ? [= <-]|exact Hg].
  - split; [intros ? [= <-]; by apply wf_under_key|]. intros k' Hk'. by apply (under_leaf_get false).
Qed.

Lemma odelete_spec t key :
  owf t → terminated key →
  owf (odelete t key) ∧ ∀ k', terminated k' → oget (odelete t key) k' = if decide (k' = key) then None else oget t k'.
Proof.
  intros Hw Hk. destruct t as [t|]; cbn [odelete].
  - pose proof (tdelete_spec false t key (Hw _ eq_refl) Hk) as Hd. destruct (tdelete t key) as [t''|]; cbn [deleted] in Hd.
    + destruct Hd as (_ & Hg & Hwf & _). split; [exact Hwf|exact Hg].
    + split; [done|]. intros k' Hk'. case_decide; [by subst|done].
  - split; [done|]. intros k' _. by case_decide.
Qed.

(** An insertion of what is there changes nothing. *)
Lemma tinsert_same e t key v : wf e t → key_of e key → value_ok v → tget t key = Some v → tinsert t key v = t.
Proof.
  intros Hw Hk Hv Hg. destruct (tinsert_spec e t key v Hw Hk Hv) as [Hg' Hw']. apply (wf_unique e); [done|done|].
  intros k' Hk'. rewrite Hg' by done. case_decide; [by subst|done].
Qed.
