(* ===== verification/TrieNode.v ===== *)
(** * The nodes of a trie, their encoding and their hashes

    parallelizable-client-go-ethereum/trie/node.go, node_enc.go and hasher.go: the
    nodes in memory, with the hash each caches, the form they have on disk, what
    decodes it, and the hasher, which replaces a subtree by its hash unless its
    encoding is shorter than one.  The hash function is a parameter; hashing the
    children in parallel gives the same nodes and is not modelled apart. *)

From S2P Require Import Prelude Rlp Crypto TrieKeys TrieSpec.
Open Scope eigen_scope.

Record nodeFlag : Type := MkNodeFlag {
  nf_hash : option bytes;
  nf_dirty : bool
}.

(** [nilNode] is the nil interface. *)
Inductive node : Type :=
  | nilNode
  | fullNode (Children : list node) (flags : nodeFlag)
  | shortNode (Key : bytes) (Val : node) (flags : nodeFlag)
  | hashNode (h : bytes)
  | valueNode (v : bytes).

Definition is_nil (n : node) : bool := match n with nilNode => true | _ => false end.

(** The hash and the dirty flag. *)
Definition cache (n : node) : option bytes * bool :=
  match n with
  | fullNode _ fl | shortNode _ _ fl => (nf_hash fl, nf_dirty fl)
  | _ => (None, true)
  end.

Definition newFlag : nodeFlag := MkNodeFlag None true.

(** ** Encoding *)

(** [encode] of the nodes; the callers write the empty string for a nil child. *)
Fixpoint encode_node (n : node) (w : encBuffer) : option encBuffer :=
  match n with
  | nilNode => Some (Enc.write_raw w [128])
  | fullNode ch _ =>
      let '(w, offset) := Enc.list_ w in
      w ← (fix go (ch : list node) (w : encBuffer) : option encBuffer :=
             match ch with
             | [] => Some w
             | c :: ch => w ← encode_node c w; go ch w
             end) ch w;
      Enc.listEnd w offset
  | shortNode k v _ =>
      let '(w, offset) := Enc.list_ w in
      let w := Enc.writeBytes w k in
      w ← encode_node v w;
      Enc.listEnd w offset
  | hashNode h => Some (Enc.writeBytes w h)
  | valueNode v => Some (Enc.writeBytes w v)
  end.

Definition nodeToBytes (n : node) : option bytes := Enc.makeBytes <$> encode_node n Enc.reset.

(** ** Decoding *)

Inductive decode_error : Type :=
  | DecodeRlp (err : rlp_error)
  | InvalidElements
  | OversizedEmbedded
  | InvalidRef
  | UnexpectedEOF
  | DecodeFuel.

Definition lift_rlp {A} (r : result rlp_error A) : result decode_error A :=
  match r with Ok a => Ok a | Err e => Err (DecodeRlp e) end.

Section Decode.
(** The decoder of an embedded node: [decodeNode] without a hash. *)
Context (decode_embedded : bytes → result decode_error node).

Definition hashLen : Z := 32.

Definition decodeRef (buf : bytes) : result decode_error (node * bytes) :=
  let* (kind, val, rest) := lift_rlp (Split buf) in
  match kind with
  | List =>
      if hashLen <? len buf - len rest then Err OversizedEmbedded
      else let* n := decode_embedded buf in Ok (n, rest)
  | String =>
      if len val =? 0 then Ok (nilNode, rest)
      else if len val =? 32 then Ok (hashNode val, rest)
      else Err InvalidRef
  | Byte => Err InvalidRef
  end.

Definition decodeShort (hash : option bytes) (elems : bytes) : result decode_error node :=
  let* (kbuf, rest) := lift_rlp (SplitString elems) in
  let flag := MkNodeFlag hash false in
  let key := compactToHex kbuf in
  if hasTerm key then
    let* (val, _) := lift_rlp (SplitString rest) in
    Ok (shortNode key (valueNode val) flag)
  else
    let* (r, _) := decodeRef rest in
    Ok (shortNode key r flag).

(** The loop over the sixteen children. *)
Fixpoint decode_children (n : nat) (elems : bytes) : result decode_error (list node * bytes) :=
  match n with
  | O => Ok ([], elems)
  | S n =>
      let* (cld, rest) := decodeRef elems in
      let* (ch, rest) := decode_children n rest in
      Ok (cld :: ch, rest)
  end.

Definition decodeFull (hash : option bytes) (elems : bytes) : result decode_error node :=
  let* (ch, elems) := decode_children 16 elems in
  let* (val, _) := lift_rlp (SplitString elems) in
  let last := if 0 <? len val then valueNode val else nilNode in
  Ok (fullNode (ch ++ [last]) (MkNodeFlag hash false)).
End Decode.

(** An embedded node is shorter than what it is in: the length is enough fuel. *)
Fixpoint decode_fuel (fuel : nat) (hash : option bytes) (buf : bytes) : result decode_error node :=
  match fuel with
  | O => Err DecodeFuel
  | S fuel =>
      if len buf =? 0 then Err UnexpectedEOF
      else
        let* (elems, _) := lift_rlp (SplitList buf) in
        let c := match CountValues elems with Ok c => c | Err _ => 0 end in
        if c =? 2 then decodeShort (decode_fuel fuel None) hash elems
        else if c =? 17 then decodeFull (decode_fuel fuel None) hash elems
        else Err InvalidElements
  end.

Definition decodeNode (hash : option bytes) (buf : bytes) : result decode_error node :=
  decode_fuel (S (length buf)) hash buf.

Section Hasher.
Context `{Keccak}.

(** ** Hashing *)

(** The bytes of a node; a list that never ends is the panic that does not
    happen ([nodeToBytes_item]). *)
Definition encodedBytes (n : node) : bytes := default [] (nodeToBytes n).

Definition hashData (data : bytes) : node := hashNode (keccak data).

Definition nodeToHash (n : node) (force : bool) : node :=
  let enc := encodedBytes n in
  if (len enc <? 32) && negb force then n else hashData enc.

(** The hash that the cached node keeps. *)
Definition cached_flags (hashed : node) (fl : nodeFlag) : nodeFlag :=
  match hashed with
  | hashNode h => MkNodeFlag (Some h) (nf_dirty fl)
  | _ => MkNodeFlag None (nf_dirty fl)
  end.

(** A nil child is the empty value; the seventeenth stays as it is. *)
Definition collapse_child (i : nat) (c : node) : node :=
  if (i <? 16)%nat && is_nil c then valueNode [] else c.

Fixpoint hash (n : node) (force : bool) : node * node :=
  match cache n with
  | (Some h, _) => (hashNode h, n)
  | (None, _) =>
      match n with
      | shortNode k v fl =>
          (** [hashShortNodeChildren] *)
          let vs := match v with fullNode _ _ | shortNode _ _ _ => hash v false | _ => (v, v) end in
          let collapsed := shortNode (hexToCompact k) vs.1 fl in
          (** [shortnodeToHash] *)
          let hashed := nodeToHash collapsed force in
          (hashed, shortNode k vs.2 (cached_flags hashed fl))
      | fullNode ch fl =>
          (** [hashFullNodeChildren]; the seventeenth child is a value, which
              hashes to itself. *)
          let hs := map (λ c, hash c false) ch in
          let collapsed := fullNode (imap collapse_child (map fst hs)) fl in
          (** [fullnodeToHash] *)
          let hashed := nodeToHash collapsed force in
          (hashed, fullNode (map snd hs) (cached_flags hashed fl))
      | _ => (n, n)
      end
  end.
End Hasher.

(** ** The encoding of a node is that of a value *)

Fixpoint node_item (n : node) : item :=
  match n with
  | nilNode => Str []
  | fullNode ch _ => Lst (map node_item ch)
  | shortNode k v _ => Lst [Str k; node_item v]
  | hashNode h => Str h
  | valueNode v => Str v
  end.

Lemma node_ind' (P : node → Prop) :
  P nilNode → (∀ ch fl, Forall P ch → P (fullNode ch fl)) → (∀ k v fl, P v → P (shortNode k v fl)) →
  (∀ h, P (hashNode h)) → (∀ v, P (valueNode v)) → ∀ n, P n.
Proof.
  intros Hn Hf Hs Hh Hv. fix IH 1. intros [|ch fl|k v fl|h|v]; [done| |by apply Hs|done|done].
  apply Hf. induction ch; constructor; auto.
Qed.

Lemma encode_node_item n w : encode_node n w = write_item w (node_item n).
Proof.
  revert w. induction n as [|ch fl IH|k v fl IH|h|v] using node_ind'; intros w; [| | |done|done].
  - cbn. unfold Enc.encodeStringHeader, Enc.write_raw. cbn. by rewrite app_nil_r.
  - cbn [encode_node node_item]. rewrite write_item_list. destruct (Enc.list_ w) as [w0 offset].
    match goal with |- (_ ← ?x; _) = _ => enough (Hx : x = write_items w0 (map node_item ch)) by (by rewrite Hx) end.
    revert w0. induction IH as [|c ch Hc _ IHch]; intros w0; [done|]. cbn. rewrite Hc. destruct (write_item w0 (node_item c)); [|done].
    apply IHch.
  - cbn [encode_node node_item]. rewrite write_item_list. destruct (Enc.list_ w) as [w0 offset]. cbn [write_items write_item].
    cbn [mbind option_bind]. rewrite IH. by destruct (write_item (Enc.writeBytes w0 k) (node_item v)).
Qed.

Lemma nodeToBytes_item n : nodeToBytes n = Some (encode (node_item n)).
Proof. unfold nodeToBytes. rewrite encode_node_item. apply EncodeToBytes_encode. Qed.

(** ** What a tree is on disk *)

Section Items.
Context `{Keccak}.

(** A subtree inside its parent: its value, its hash when that is not longer. *)
Definition shrink (t : tree) (it : item) : item :=
  match t with
  | Leaf _ => it
  | _ => if len (encode it) <? 32 then it else Str (keccak (encode it))
  end.

Fixpoint item_of (t : tree) : item :=
  match t with
  | Leaf v => Str v
  | Short k t => Lst [Str (hexToCompact k); shrink t (item_of t)]
  | Full ch => Lst (map (λ c, match c with Some t => shrink t (item_of t) | None => Str [] end) ch)
  end.

Definition ref_item (t : tree) : item := shrink t (item_of t).
Definition child_item (c : option tree) : item := match c with Some t => ref_item t | None => Str [] end.

Definition enc (t : tree) : bytes := encode (item_of t).

Lemma encodedBytes_item n : encodedBytes n = encode (node_item n).
Proof. unfold encodedBytes. by rewrite nodeToBytes_item. Qed.

Lemma shrink_bytes t it : item_bytes it → item_bytes (shrink t it).
Proof. intros Hb. unfold shrink. destruct t; [done|..]; case_match; try done; apply keccak_bytes. Qed.

Lemma item_of_bytes e t : wf e t → item_bytes (item_of t).
Proof.
  induction 1 as [v [_ Hv]|k v Hk [_ Hv]|k ch Hk Hne Hw IH|ch Hl Hw IH H2].
  - done.
  - cbn. split_and!; [by apply hexToCompact_bytes; right|done|done].
  - apply item_bytes_list. cbn [item_of]. constructor; [by apply hexToCompact_bytes; left|].
    constructor; [by apply shrink_bytes|constructor].
  - apply item_bytes_list. apply Forall_map, Forall_forall. intros [c|] Hc; [|constructor].
    apply list_elem_of_lookup in Hc as [i Hi]. apply shrink_bytes. by eapply IH.
Qed.

Lemma ref_item_bytes e t : wf e t → item_bytes (ref_item t).
Proof. intros Hw. apply shrink_bytes. by eapply item_of_bytes. Qed.

(** The reference to a tree that is not a leaf. *)
Lemma ref_item_node t :
  wf false t → ref_item t = if len (enc t) <? 32 then item_of t else Str (keccak (enc t)).
Proof. by inversion 1; subst. Qed.

Lemma item_of_list t : wf false t → ∃ l, item_of t = Lst l ∧
  match t with Full _ => length l = 17%nat | _ => length l = 2%nat end.
Proof. inversion 1; subst; eexists; (split; [done|]); [done|done|by rewrite length_map]. Qed.
End Items.
