(* ===== verification/TrieExpand.v ===== *)
(** * What a node in memory stands for

    The relation between the nodes of parallelizable-client-go-ethereum/trie and
    the trees of TrieSpec.v, over a database of encoded nodes: a hash node stands
    for the tree whose encoding the database holds at its path, and a cached hash
    is that of the tree under it.  Decoding what the database holds gives a node
    for the same tree, and hashing gives its root hash. *)

From S2P Require Import Prelude Rlp Crypto TrieKeys TrieSpec TrieNode.
Open Scope eigen_scope.

Section Expand.
Context `{Keccak}.
(** [reader.node(path, hash)]; [None] is a missing node. *)
Context (node_at : bytes → bytes → option bytes).

(** The database holds a tree's node when it is not embedded in its parent. *)
Definition here (p : bytes) (t : tree) : Prop :=
  32 <= len (enc t) → node_at p (keccak (enc t)) = Some (enc t).

(** The nodes under a tree, and with the tree itself, are in the database. *)
Inductive below : bytes → tree → Prop :=
  | below_leaf p v : below p (Leaf v)
  | below_short_leaf p k v : below p (Short k (Leaf v))
  | below_short p k ch : here (p ++ k) (Full ch) → below (p ++ k) (Full ch) → below p (Short k (Full ch))
  | below_full p ch :
      (∀ i c, ch !! i = Some (Some c) → (i < 16)%nat → here (p ++ [Z.of_nat i]) c) →
      (∀ i c, ch !! i = Some (Some c) → below (p ++ [Z.of_nat i]) c) →
      below p (Full ch).

Definition has_hash (fl : nodeFlag) : bool := match nf_hash fl with Some _ => true | None => false end.

(** A cached hash is the tree's, and only the root has one when it is short; the
    node of a clean cached hash is in the database; a clean node without a hash is
    embedded in its parent.  [s]: the tree has been hashed, so that every node
    without a hash is. *)
Definition flag_ok (s root : bool) (p : bytes) (fl : nodeFlag) (t : tree) : Prop :=
  match nf_hash fl with
  | Some h =>
      h = keccak (enc t) ∧ (32 <= len (enc t) ∨ root = true) ∧
      (nf_dirty fl = false → node_at p h = Some (enc t) ∧ below p t)
  | None => s = true ∨ nf_dirty fl = false → len (enc t) < 32 ∧ root = false
  end.

(** [exp s b p n t]: at the path [p], the root's when [b], the node [n] stands for
    the tree [t]. *)
Inductive exp : bool → bool → bytes → node → tree → Prop :=
  | exp_value s b p v : exp s b p (valueNode v) (Leaf v)
  | exp_short s b p k n fl t :
      exp (s || has_hash fl) false (p ++ k) n t → flag_ok s b p fl (Short k t) → exp s b p (shortNode k n fl) (Short k t)
  | exp_full s b p ns fl ch :
      length ns = length ch →
      (∀ i, ch !! i = Some None → ns !! i = Some nilNode) →
      (∀ i n c, ns !! i = Some n → ch !! i = Some (Some c) → exp (s || has_hash fl) false (p ++ [Z.of_nat i]) n c) →
      flag_ok s b p fl (Full ch) → exp s b p (fullNode ns fl) (Full ch)
  | exp_hash s b p t :
      wf false t → (32 <= len (enc t) ∨ b = true) → node_at p (keccak (enc t)) = Some (enc t) → below p t →
      exp s b p (hashNode (keccak (enc t))) t.

(** A place that may be empty. *)
Definition oexp (s b : bool) (p : bytes) (n : node) (t : option tree) : Prop :=
  match t with None => n = nilNode | Some t => exp s b p n t end.

Lemma flag_ok_mono b p fl t : flag_ok true b p fl t → flag_ok false b p fl t.
Proof. unfold flag_ok. destruct (nf_hash fl); [done|]. intros Hf [|?]; [done|]. apply Hf. by right. Qed.

Lemma exp_mono b p n t : exp true b p n t → exp false b p n t.
Proof.
  intros He. remember true as s eqn:Hs. induction He as [| s b p k n fl t He IH Hfl|s b p ns fl ch Hl Hnone He IH Hfl|]; subst s.
  - constructor.
  - constructor; [|by apply flag_ok_mono]. cbn in *. destruct (has_hash fl); [done|by apply IH].
  - constructor; [done|done| |by apply flag_ok_mono]. intros i n c Hn Hc. cbn in *. destruct (has_hash fl); [by eapply He|by eapply IH].
  - by constructor.
Qed.

(** A hashed tree is one whatever is asked. *)
Lemma exp_true s b p n t : exp true b p n t → exp s b p n t.
Proof. destruct s; [done|apply exp_mono]. Qed.

(** ** The reference a node leaves in its parent *)

Lemma exp_not_nil s b p n t : exp s b p n t → is_nil n = false.
Proof. by inversion 1. Qed.

(** The child of a full node's place. *)
Lemma exp_child s b p ns fl ch x :
  exp s b p (fullNode ns fl) (Full ch) → wf false (Full ch) → 0 <= x <= 16 →
  ∃ c, ns !! Z.to_nat x = Some c ∧ oexp (s || has_hash fl) false (p ++ [x]) c (child ch x) ∧ ch !! Z.to_nat x = Some (child ch x).
Proof.
  intros He Hw Hx. inversion He as [| |? ? ? ? ? ? Hl Hn Hc Hfl|]; subst. destruct (wf_full_false _ _ Hw) as [_ Hl17].
  destruct (lookup_lt_is_Some_2 ns (Z.to_nat x)) as [c Hc']; [lia|]. exists c. split; [done|].
  destruct (lookup_lt_is_Some_2 ch (Z.to_nat x)) as [o Ho]; [lia|]. unfold child. rewrite Ho. split; [|done].
  destruct o as [t|]; cbn.
  - specialize (Hc _ _ _ Hc' Ho). by rewrite Z2Nat.id in Hc by lia.
  - specialize (Hn _ Ho). congruence.
Qed.

Lemma exp_Leaf s b p n v : exp s b p n (Leaf v) → n = valueNode v.
Proof. intros He. inversion He; subst; [done|]. match goal with Hw : wf _ _ |- _ => inversion Hw end. Qed.

(** ** Decoding *)

(** The blobs of the database are slices. *)
Context (node_at_len : ∀ p h b, node_at p h = Some b → len b < two64).

Lemma concat_encode_len l : (∀ it, it ∈ l → len (encode it) <= len (concat (map encode l))).
Proof.
  induction l as [|x l IH]; intros it Hin; [by apply elem_of_nil in Hin|]. cbn. rewrite len_app.
  pose proof (len_nonneg (encode x)). pose proof (len_nonneg (concat (map encode l))).
  apply elem_of_cons in Hin as [->|Hin]; [lia|]. specialize (IH it Hin). lia.
Qed.

Lemma encode_Lst_len l : len (concat (map encode l)) < len (encode (Lst l)).
Proof.
  cbn [encode]. unfold encode_list. rewrite len_app, puthead_len by apply len_nonneg. unfold headsize.
  split_ifs; [lia|]. set (n := len (concat (map encode l))) in *. destruct (Z.lt_ge_cases n two64).
  - destruct (intsize_bytes n); lia.
  - unfold intsize. rewrite intsize_loop_large by (unfold two64 in *; change (256 ^ Z.of_nat 7) with (2 ^ 56); lia). lia.
Qed.

(** The decoder of embedded nodes reads back those shorter than [n]. *)
Definition embeds (n : Z) (dec : bytes → result decode_error node) : Prop :=
  ∀ p t rest, wf false t → len (enc t) < n → len (enc t) < 32 → len (enc t ++ rest) < two64 → below p t →
    ∃ nd, dec (enc t ++ rest) = Ok nd ∧ exp true false p nd t.

Lemma decodeRef_child n dec p c rest :
  embeds n dec → (∀ t, c = Some t → wf false t ∧ len (enc t) < n ∨ wf false t ∧ 32 <= len (enc t)) →
  (∀ t, c = Some t → here p t ∧ below p t) →
  len (encode (child_item c) ++ rest) < two64 →
  ∃ nd, decodeRef dec (encode (child_item c) ++ rest) = Ok (nd, rest) ∧ oexp true false p nd c.
Proof.
  intros Hdec Hwf Hdb Hl. unfold decodeRef. destruct c as [t|]; cbn [child_item] in *.
  - assert (Hw : wf false t) by (destruct (Hwf t eq_refl) as [[? _]|[? _]]; done).
    destruct (Hdb t eq_refl) as [Hh Hb]. rewrite Split_encode by (done || by eapply ref_item_bytes). cbn [lift_rlp result_bind].
    rewrite ref_item_node in Hl |- * by done. destruct (Z.ltb_spec (len (enc t)) 32) as [Hs|Hs].
    + destruct (item_of_list t Hw) as (l & Hi & _). rewrite Hi. cbn [item_kind].
      rewrite <- Hi. change (encode (item_of t)) with (enc t). unfold hashLen. rewrite len_app.
      destruct (Z.ltb_spec 32 (len (enc t) + len rest - len rest)); [lia|].
      destruct (Hwf t eq_refl) as [[_ Hn]|[_ Hn]]; [|lia].
      destruct (Hdec p t rest Hw Hn Hs) as (nd & -> & He); [done|done|]. by exists nd.
    + cbn [item_kind item_content]. assert (Hk : len (keccak (enc t)) = 32) by apply keccak_len.
      destruct (keccak (enc t)) as [|x [|y k]] eqn:Hkk; [done..|]. cbn [small_byte]. rewrite <- Hkk in *. rewrite Hk.
      cbn [Z.eqb]. exists (hashNode (keccak (enc t))). split; [done|]. cbn. constructor; [done|by left|by apply Hh|done].
  - rewrite (Split_encode (Str [])) by (done || constructor). cbn. by exists nilNode.
Qed.

Lemma decode_children_spec n dec p ch rest m :
  embeds n dec →
  (∀ i c, ch !! i = Some (Some c) → wf false c ∧ (len (enc c) < n ∨ 32 <= len (enc c))) →
  (∀ i c, ch !! i = Some (Some c) → here (p ++ [Z.of_nat (m + i)]) c ∧ below (p ++ [Z.of_nat (m + i)]) c) →
  len (concat (map encode (map child_item ch)) ++ rest) < two64 →
  ∃ ns, decode_children dec (length ch) (concat (map encode (map child_item ch)) ++ rest) = Ok (ns, rest) ∧
    length ns = length ch ∧ (∀ i c nd, ch !! i = Some c → ns !! i = Some nd → oexp true false (p ++ [Z.of_nat (m + i)]) nd c).
Proof.
  intros Hdec. revert m. induction ch as [|c ch IH]; intros m Hwf Hdb Hl; [by exists []|].
  cbn [map concat] in Hl |- *. rewrite <- app_assoc in Hl |- *. cbn [length decode_children].
  destruct (decodeRef_child n dec (p ++ [Z.of_nat m]) c (concat (map encode (map child_item ch)) ++ rest)) as (nd & -> & Hnd); [done| | |done|].
  { intros t ->. destruct (Hwf 0%nat t eq_refl) as [? [?|?]]; auto. }
  { intros t ->. specialize (Hdb 0%nat t eq_refl). by rewrite Nat.add_0_r in Hdb. }
  cbn [result_bind]. destruct (IH (S m)) as (ns & -> & Hlen & Hns).
  - intros i t Hi. exact (Hwf (S i) t Hi).
  - intros i t Hi. specialize (Hdb (S i) t Hi). by rewrite Nat.add_succ_r in Hdb.
  - rewrite len_app in Hl. pose proof (len_nonneg (encode (child_item c))). lia.
  - exists (nd :: ns). cbn. split; [done|]. split; [by rewrite Hlen|]. intros [|i] c' nd'.
    + intros [= <-] [= <-]. by rewrite Nat.add_0_r.
    + cbn. intros Hc Hn. rewrite Nat.add_succ_r. by eapply (Hns i).
Qed.

(** The seventeenth child of a full node: a value, or nothing. *)
Lemma full_last ch :
  wf false (Full ch) → ∃ ch16 c, ch = ch16 ++ [c] ∧ length ch16 = 16%nat ∧ (c = None ∨ ∃ v, c = Some (Leaf v) ∧ value_ok v).
Proof.
  intros Hw. inversion Hw as [| | |? Hl Hc _]; subst.
  destruct ch as [|c ch' _] using rev_ind; [done|]. rewrite length_app in Hl. cbn in Hl. exists ch', c.
  assert (Hl' : length ch' = 16%nat) by lia. split_and!; [done|done|]. destruct c as [t|]; [right|by left].
  specialize (Hc 16%nat t). rewrite lookup_app_r, Hl' in Hc by lia. specialize (Hc eq_refl). cbn in Hc.
  inversion Hc; subst. eauto.
Qed.

Lemma child_item_lt t c : (∃ l, item_of t = Lst l ∧ child_item c ∈ l) → len (encode (child_item c)) < len (enc t).
Proof.
  intros (l & Hl & Hin). unfold enc. rewrite Hl. eapply Z.le_lt_trans; [by apply concat_encode_len|]. apply encode_Lst_len.
Qed.

(** A child is embedded, and then shorter than its parent, or hashed. *)
Lemma child_small t c :
  wf false c → (∃ l, item_of t = Lst l ∧ child_item (Some c) ∈ l) → len (enc c) < len (enc t) ∨ 32 <= len (enc c).
Proof.
  intros Hw Hin. pose proof (child_item_lt t (Some c) Hin) as Hlt. cbn [child_item] in Hlt. rewrite ref_item_node in Hlt by done.
  destruct (Z.ltb_spec (len (enc c)) 32); [by left|by right].
Qed.

(** The hash that a decoded node caches. *)
Definition hash_ok (b : bool) (p : bytes) (h : option bytes) (t : tree) : Prop := flag_ok true b p (MkNodeFlag h false) t.

Lemma decodeShort_leaf b h p k v dec :
  wf false (Short k (Leaf v)) → hash_ok b p h (Short k (Leaf v)) →
  let l := [Str (hexToCompact k); Str v] in
  Forall item_bytes l → len (concat (map encode l)) < two64 →
  ∃ nd, decodeShort dec h (concat (map encode l)) = Ok nd ∧ exp true b p nd (Short k (Leaf v)).
Proof.
  intros Hw Hflag l Hbl' Hpl. subst l. inversion Hw as [|? ? Hk Hv| |]; subst.
  unfold decodeShort.
  cbn [map concat]. rewrite app_nil_r. apply Forall_cons in Hbl' as [Hb1 Hb2]. apply Forall_cons in Hb2 as [Hb2 _].
  rewrite SplitString_encode by (done || (cbn [map concat] in Hpl; by rewrite app_nil_r in Hpl)). cbn [lift_rlp result_bind].
  rewrite compactToHex_hexToCompact_core by (by right). rewrite hasTerm_terminated by done.
  cbn [shrink]. rewrite <- (app_nil_r (encode (Str v))). rewrite SplitString_encode; [|done|].
  2: { rewrite app_nil_r. cbn [map concat] in Hpl. rewrite len_app, len_app in Hpl. pose proof (len_nonneg (encode (Str (hexToCompact k)))).
       change (len []) with 0 in Hpl. cbn [item_of shrink] in Hpl. lia. }
  cbn [lift_rlp result_bind]. eexists. split; [done|]. constructor; [constructor|done].
Qed.

Lemma decodeShort_full n b h p k ch dec :
  embeds n dec → wf false (Short k (Full ch)) → hash_ok b p h (Short k (Full ch)) → below p (Short k (Full ch)) →
  let l := [Str (hexToCompact k); ref_item (Full ch)] in
  Forall item_bytes l → len (concat (map encode l)) < two64 →
  (∀ c, wf false c → child_item (Some c) ∈ l → len (enc c) < n ∨ 32 <= len (enc c)) →
  ∃ nd, decodeShort dec h (concat (map encode l)) = Ok nd ∧ exp true b p nd (Short k (Full ch)).
Proof.
  intros Hdec Hw Hflag Hb l Hbl' Hpl Hchild. subst l. inversion Hw as [| |? ? Hk Hne Hf'|]; subst.
  unfold decodeShort.
  cbn [map concat] in Hpl |- *. apply Forall_cons in Hbl' as [Hb1 Hb2].
  rewrite SplitString_encode by done. cbn [lift_rlp result_bind].
  rewrite compactToHex_hexToCompact_core by (by left). rewrite hasTerm_nibbles by done. inversion Hb; subst.
  destruct (decodeRef_child n dec (p ++ k) (Some (Full ch)) []) as (nd & Hd & He).
  + done.
  + intros t [= <-]. destruct (Hchild (Full ch) Hf') as [?|?]; [right; left|auto..].
  + by intros t [= <-].
  + match type of Hpl with len (_ ++ ?c) < _ => change (len c < two64) end.
    rewrite len_app in Hpl. pose proof (len_nonneg (encode (Str (hexToCompact k)))). lia.
  + match goal with |- context [decodeRef _ ?c] => change c with (encode (child_item (Some (Full ch))) ++ []) end.
    rewrite Hd. cbn [result_bind].
    eexists. split; [done|]. by constructor.
Qed.

Lemma decodeFull_spec n b h p ch dec :
  embeds n dec → wf false (Full ch) → hash_ok b p h (Full ch) → below p (Full ch) →
  len (concat (map encode (map child_item ch))) < two64 →
  (∀ c, wf false c → child_item (Some c) ∈ map child_item ch → len (enc c) < n ∨ 32 <= len (enc c)) →
  ∃ nd, decodeFull dec h (concat (map encode (map child_item ch))) = Ok nd ∧ exp true b p nd (Full ch).
Proof.
  intros Hdec Hw Hflag Hb Hpl Hchild.
  unfold decodeFull. destruct (full_last ch Hw) as (ch16 & c & -> & Hl16 & Hlast). inversion Hb as [| | |? ? Hhere Hbelow]; subst. inversion Hw as [| | |? Hl17 Hc H2]; subst.
  assert (Hil : map child_item (ch16 ++ [c]) = map child_item ch16 ++ [child_item c]) by (by rewrite map_app).
  rewrite Hil, map_app, concat_app in Hpl |- *. cbn [map concat] in Hpl |- *. rewrite app_nil_r in Hpl |- *.
  assert (Hl16' : ∀ i d, ch16 !! i = Some (Some d) → (i < 16)%nat ∧ (ch16 ++ [c]) !! i = Some (Some d)).
  { intros i d Hid. split; [rewrite <- Hl16; by eapply lookup_lt_Some|]. by apply lookup_app_l_Some. }
  destruct (decode_children_spec n dec p ch16 (encode (child_item c)) 0) as (ns & Hd & Hlns & Hns).
  + done.
  + intros i d Hid. destruct (Hl16' i d Hid) as [Hi16 Hid']. specialize (Hc _ _ Hid'). destruct (Nat.eqb_spec i 16); [lia|].
    split; [done|]. apply Hchild; [done|]. rewrite Hil. apply elem_of_app. left. apply list_elem_of_fmap. exists (Some d).
    split; [done|]. by eapply list_elem_of_lookup_2.
  + intros i d Hid. destruct (Hl16' i d Hid) as [Hi16 Hid']. split; [by apply Hhere|by apply Hbelow].
  + done.
  + rewrite Hl16 in Hd. rewrite Hd. cbn [result_bind].
    assert (Hval : ∃ val, child_item c = Str val ∧ Forall is_byte val ∧
      oexp true false (p ++ [Z.of_nat 16]) (if 0 <? len val then valueNode val else nilNode) c).
    { destruct Hlast as [->|(v & -> & Hvn & Hvb)]; [by exists []|]. exists v. split; [done|]. split; [done|].
      destruct v as [|x v]; [done|]. rewrite len_cons. pose proof (len_nonneg v). destruct (Z.ltb_spec 0 (1 + len v)); [constructor|lia]. }
    destruct Hval as (val & Hcv & Hvb & Hoe). rewrite Hcv in Hpl |- *. rewrite <- (app_nil_r (encode (Str val))).
    rewrite SplitString_encode; [|done|].
    2: { rewrite app_nil_r. rewrite len_app in Hpl. pose proof (len_nonneg (concat (map encode (map child_item ch16)))). lia. }
    cbn [lift_rlp result_bind]. eexists. split; [done|].
    assert (Hall : ∀ i m c', (ns ++ [if 0 <? len val then valueNode val else nilNode]) !! i = Some m → (ch16 ++ [c]) !! i = Some c' →
      oexp true false (p ++ [Z.of_nat i]) m c').
    { intros i m c' Hn Hc'. destruct (decide (i < 16)%nat) as [Hi16|Hi16].
      - rewrite lookup_app_l in Hn by lia. rewrite (lookup_app_l ch16) in Hc' by lia. by apply (Hns i c' m).
      - rewrite lookup_app_r in Hn by lia. rewrite (lookup_app_r ch16) in Hc' by lia. rewrite Hlns, Hl16 in Hn. rewrite Hl16 in Hc'.
        destruct (i - 16)%nat eqn:Hi0; [|done]. injection Hn as <-. injection Hc' as <-. by replace i with 16%nat by lia. }
    constructor; [by rewrite !length_app, Hlns| | |done].
    * intros i Hi0. destruct (lookup_lt_is_Some_2 (ns ++ [if 0 <? len val then valueNode val else nilNode]) i) as [m Hn].
      { apply lookup_lt_Some in Hi0. rewrite length_app in *. by rewrite Hlns. }
      rewrite Hn. f_equal. apply (Hall i m None Hn Hi0).
    * intros i m d Hn Hd'. by apply (Hall i m (Some d)).
Qed.

Lemma decode_fuel_spec fuel b h p t rest :
  wf false t → len (enc t) < Z.of_nat fuel → len (enc t ++ rest) < two64 → below p t → hash_ok b p h t →
  ∃ nd, decode_fuel fuel h (enc t ++ rest) = Ok nd ∧ exp true b p nd t.
Proof.
  revert b h p t rest. induction fuel as [|fuel IH]; intros b h p t rest Hw Hf Hl Hb Hh; [pose proof (len_nonneg (enc t)); lia|].
  assert (Hdec : embeds (Z.of_nat fuel) (decode_fuel fuel None)).
  { intros p' t' rest' Hw' Hn' Hs' Hl' Hb'. by apply IH. }
  cbn [decode_fuel]. destruct (item_of_list t Hw) as (l & Hi & Hlen).
  assert (Hbl : item_bytes (Lst l)) by (rewrite <- Hi; by eapply item_of_bytes). pose proof (proj1 (item_bytes_list l) Hbl) as Hbl'.
  assert (Hpl : len (concat (map encode l)) < two64).
  { pose proof (encode_Lst_len l) as He. rewrite <- Hi in He. fold (enc t) in He. rewrite len_app in Hl. pose proof (len_nonneg rest). lia. }
  assert (Hlz : len (enc t ++ rest) =? 0 = false).
  { apply Z.eqb_neq. rewrite len_app. pose proof (len_nonneg rest). pose proof (encode_Lst_len l) as He. rewrite <- Hi in He. fold (enc t) in He.
    pose proof (len_nonneg (concat (map encode l))). lia. }
  rewrite Hlz. unfold enc at 1. rewrite Hi, SplitList_encode by (done || (rewrite <- Hi; done)). cbn [lift_rlp result_bind].
  rewrite CountValues_encode by done. assert (Hflag : hash_ok b p h t) by exact Hh.
  assert (Hchild : ∀ c, wf false c → child_item (Some c) ∈ l → len (enc c) < Z.of_nat fuel ∨ 32 <= len (enc c)).
  { intros c Hc Hin. destruct (child_small t c Hc) as [?|?]; [by exists l|left; lia|by right]. }
  inversion Hw as [|k v Hk Hv|k ch Hk Hne Hf'|ch Hl17 Hc H2]; subst t; cbn in Hlen.
  - assert (len l =? 2 = true) as -> by (unfold len; by rewrite Hlen). injection Hi as <-. by apply decodeShort_leaf.
  - assert (len l =? 2 = true) as -> by (unfold len; by rewrite Hlen). injection Hi as <-. by apply (decodeShort_full (Z.of_nat fuel)).
  - assert (len l =? 2 = false) as -> by (unfold len; by rewrite Hlen). assert (len l =? 17 = true) as -> by (unfold len; by rewrite Hlen).
    injection Hi as <-. by apply (decodeFull_spec (Z.of_nat fuel)).
Qed.

(** ** Hashing *)

Lemma hash_cached n force h d : cache n = (Some h, d) → hash n force = (hashNode h, n).
Proof. intros Hc. destruct n; cbn [cache] in Hc; try done; cbn [hash cache]; destruct flags as [[h'|] d']; cbn in *; by simplify_eq. Qed.

(** The child of a short node is hashed whatever it is. *)
Lemma hash_short k v fl force :
  nf_hash fl = None →
  hash (shortNode k v fl) force =
    (let vs := hash v false in
     let hashed := nodeToHash (shortNode (hexToCompact k) vs.1 fl) force in
     (hashed, shortNode k vs.2 (cached_flags hashed fl))).
Proof. intros Hf. cbn [hash cache]. rewrite Hf. by destruct v. Qed.

Lemma hash_full ch fl force :
  nf_hash fl = None →
  hash (fullNode ch fl) force =
    (let hs := map (λ c, hash c false) ch in
     let hashed := nodeToHash (fullNode (imap collapse_child (map fst hs)) fl) force in
     (hashed, fullNode (map snd hs) (cached_flags hashed fl))).
Proof. intros Hf. cbn [hash cache]. by rewrite Hf. Qed.

(** What hashing must give for a tree. *)
Definition hashed_as (b : bool) (p : bytes) (t : tree) (r : node * node) : Prop :=
  is_nil r.1 = false ∧ exp true b p r.2 t ∧
  (b = false → node_item r.1 = ref_item t) ∧
  (b = true → wf false t → r.1 = hashNode (keccak (enc t))).

(** A node whose collapsed form is the item of the tree. *)
Lemma nodeToHash_spec s b p t collapsed fl :
  wf false t → node_item collapsed = item_of t → is_nil collapsed = false →
  (∀ h, collapsed ≠ hashNode h) → flag_ok s b p fl t → nf_hash fl = None →
  let r := nodeToHash collapsed b in
  is_nil r = false ∧ flag_ok true b p (cached_flags r fl) t ∧ (b = false → node_item r = ref_item t) ∧
  (b = true → r = hashNode (keccak (enc t))).
Proof.
  intros Hw Hi Hnil Hnh Hfl Hnone. cbn zeta. unfold nodeToHash. rewrite encodedBytes_item, Hi. fold (enc t).
  unfold flag_ok in Hfl. rewrite Hnone in Hfl.
  rewrite (ref_item_node t Hw). destruct (Z.ltb_spec (len (enc t)) 32) as [Hs|Hs], b; cbn [andb negb].
  - split_and!; [done| |done|done]. unfold flag_ok. cbn. split_and!; [done|by right|]. intros Hd. by destruct (Hfl (or_intror Hd)).
  - split_and!; [done| |done|done]. unfold flag_ok. destruct collapsed; cbn; try (by intros _). by destruct (Hnh h).
  - split_and!; [done| |done|done]. unfold flag_ok. cbn. split_and!; [done|by right|]. intros Hd. by destruct (Hfl (or_intror Hd)).
  - split_and!; [done| |done|done]. unfold flag_ok. cbn. split_and!; [done|by left|]. intros Hd. destruct (Hfl (or_intror Hd)). lia.
Qed.

Lemma flagged_hash b p n t h d :
  wf false t → exp true b p n t → cache n = (Some h, d) → (h = keccak (enc t) ∧ (32 <= len (enc t) ∨ b = true)) →
  hashed_as b p t (hash n b).
Proof.
  intros Hw He Hc (-> & Hl). rewrite (hash_cached _ _ _ _ Hc). split_and!; [done|done| |done].
  intros ->. cbn. rewrite ref_item_node by done. destruct Hl as [Hl|]; [|done]. destruct (Z.ltb_spec (len (enc t)) 32); [lia|done].
Qed.

Lemma flag_ok_Some s s' b p fl t h : nf_hash fl = Some h → flag_ok s b p fl t → flag_ok s' b p fl t.
Proof. unfold flag_ok. by intros ->. Qed.

Lemma has_hash_Some fl h : nf_hash fl = Some h → has_hash fl = true.
Proof. unfold has_hash. by intros ->. Qed.

Lemma flag_ok_hash s b p fl t h :
  nf_hash fl = Some h → flag_ok s b p fl t → h = keccak (enc t) ∧ (32 <= len (enc t) ∨ b = true).
Proof. unfold flag_ok. intros ->. naive_solver. Qed.

(** The collapsed full node, from its children. *)
Lemma collapsed_full ns ch fl :
  length ns = length ch → (∀ i, ch !! i = Some None → ns !! i = Some nilNode) →
  (∀ i m c, ns !! i = Some m → ch !! i = Some (Some c) → is_nil (hash m false).1 = false ∧ node_item (hash m false).1 = ref_item c) →
  node_item (fullNode (imap collapse_child (map fst (map (λ c, hash c false) ns))) fl) = item_of (Full ch).
Proof.
  intros Hl Hnone Hc. cbn [node_item item_of]. f_equal. apply list_eq. intros i. rewrite !list_lookup_fmap, list_lookup_imap, !list_lookup_fmap.
  destruct (ch !! i) as [c|] eqn:Hci.
  - destruct (lookup_lt_is_Some_2 ns i) as [m Hm]; [rewrite Hl; by eapply lookup_lt_Some|]. rewrite Hm. cbn. f_equal.
    destruct c as [c|].
    + destruct (Hc _ _ _ Hm Hci) as (Hn & Hi). unfold collapse_child. by rewrite Hn, andb_false_r.
    + rewrite (Hnone _ Hci) in Hm. injection Hm as <-. unfold collapse_child. cbn [hash cache fst is_nil]. rewrite andb_true_r. by destruct (i <? 16)%nat.
  - rewrite (lookup_ge_None_2 ns); [done|]. rewrite Hl. by apply lookup_ge_None.
Qed.

Lemma hash_spec s b p n t e : exp s b p n t → wf e t → hashed_as b p t (hash n b).
Proof.
  intros He. revert e. induction He as [s b p v|s b p k n fl t He IH Hfl|s b p ns fl ch Hl Hnone He IH Hfl|s b p t Hw Hlen Hdb Hb]; intros e Hwf.
  - cbn. split_and!; [done|constructor|done|]. intros _ Hw. by inversion Hw.
  - assert (Hwf0 : wf false (Short k t)) by (by inversion Hwf; subst). destruct (nf_hash fl) as [h|] eqn:Hh.
    { rewrite (has_hash_Some _ _ Hh), orb_true_r in He.
      eapply (flagged_hash b p _ _ h); [done| |cbn; by rewrite Hh|by eapply flag_ok_hash]. constructor; [done|by eapply flag_ok_Some]. }
    rewrite hash_short by done. assert (∃ e', wf e' t) as [e' Hwt] by (inversion Hwf0; subst; eexists; [by constructor|done]).
    destruct (IH e' Hwt) as (Hn & He2 & Hi & _). cbn zeta.
    destruct (nodeToHash_spec s b p (Short k t) (shortNode (hexToCompact k) (hash n false).1 fl) fl) as (H1 & H2 & H3 & H4);
      [done|cbn; by rewrite Hi|done|done|done|done|].
    split_and!; [done|by constructor|done|by intros Hb _; apply H4].
  - assert (Hwf0 : wf false (Full ch)) by (by inversion Hwf; subst). destruct (nf_hash fl) as [h|] eqn:Hh.
    { rewrite (has_hash_Some _ _ Hh), orb_true_r in He.
      eapply (flagged_hash b p _ _ h); [done| |cbn; by rewrite Hh|by eapply flag_ok_hash]. constructor; [done|done|done|by eapply flag_ok_Some]. }
    rewrite hash_full by done. cbn zeta. inversion Hwf0 as [| | |? Hl17 Hc H2]; subst.
    assert (Hitem : node_item (fullNode (imap collapse_child (map fst (map (λ c, hash c false) ns))) fl) = item_of (Full ch)).
    { apply collapsed_full; [done|done|]. intros i m c Hm Hi. destruct (IH _ _ _ Hm Hi _ (Hc _ _ Hi)) as (Hn & _ & Hr & _). auto. }
    destruct (nodeToHash_spec s b p (Full ch) _ fl Hwf0 Hitem) as (H1 & H3 & H4 & H5); [done..|].
    split_and!; [done| |done|by intros Hb _; apply H5].
    cbn. constructor; [by rewrite !length_map| | |done].
    + intros i Hi. rewrite !list_lookup_fmap, (Hnone _ Hi). done.
    + intros i m c Hm Hci. rewrite !list_lookup_fmap in Hm. destruct (ns !! i) as [m0|] eqn:Hm0; [|done]. cbn in Hm. injection Hm as <-.
      by destruct (IH _ _ _ Hm0 Hci _ (Hc _ _ Hci)) as (_ & ? & _).
  - cbn. split_and!; [done|by constructor| |done]. intros ->. rewrite ref_item_node by done.
    destruct Hlen as [Hlen|]; [|done]. destruct (Z.ltb_spec (len (enc t)) 32); [lia|done].
Qed.
End Expand.
