(* ===== verification/Trie.v ===== *)
(** * The Merkle Patricia trie

    parallelizable-client-go-ethereum/trie/trie.go, trie_reader.go, tracer.go and
    committer.go: the trie whose nodes are loaded from a database as they are
    needed, with the tracer of the nodes it reads, inserts and deletes, and the
    commit, which collects the dirty nodes.  A step of a trie operation changes
    the tracer only; the nodes are values, which the code copies before it writes
    to them.  What the code panics on is an error of the model.  The node sets are
    collected by one thread, and a commit is of one trie. *)

From S2P Require Import Prelude StateError Rlp Crypto TrieKeys TrieSpec TrieNode.
Open Scope eigen_scope.
Open Scope step_scope.

Inductive trie_error : Type :=
  | MissingNodeError (Owner NodeHash Path : bytes)
  | ErrCommitted
  | NonConsensusNode
  | DecodePanic (err : decode_error)
  | IndexPanic
  | InvalidNode
  | TrieFuel.

(** ** The reader *)

Definition zero_hash : bytes := replicate 32 0.

(** The root hash of the empty trie (core/types/hashes.go). *)
Definition EmptyRootHash : bytes :=
  [86; 232; 31; 23; 27; 204; 85; 166; 255; 131; 69; 230; 146; 192; 248; 110;
   91; 72; 224; 27; 153; 108; 173; 192; 1; 98; 47; 181; 227; 99; 180; 33].

(** The last 32 bytes, or zeros in front of fewer (common/types.go). *)
Definition BytesToHash (b : bytes) : bytes :=
  let b := drop (length b - 32) b in replicate (32 - length b) 0 ++ b.

(** [database.NodeReader]: owner, path and hash to a blob, or an error. *)
Definition NodeReader : Type := bytes → bytes → bytes → option bytes.

Record trieReader : Type := MkTrieReader {
  rd_owner : bytes;
  rd_reader : option NodeReader;
  rd_banned : gset bytes
}.

(** [db]: the reader of a state; [None] is its error. *)
Definition newTrieReader (stateRoot owner : bytes) (db : bytes → option NodeReader) : result trie_error trieReader :=
  if bool_decide (stateRoot = zero_hash) || bool_decide (stateRoot = EmptyRootHash) then
    Ok (MkTrieReader owner None ∅)
  else
    match db stateRoot with
    | None => Err (MissingNodeError owner stateRoot [])
    | Some reader => Ok (MkTrieReader owner (Some reader) ∅)
    end.

Definition reader_node (r : trieReader) (path hash : bytes) : result trie_error bytes :=
  let missing := Err (MissingNodeError (rd_owner r) hash path) in
  if bool_decide (path ∈ rd_banned r) then missing
  else
    match rd_reader r with
    | None => missing
    | Some reader =>
        match reader (rd_owner r) path hash with
        | None => missing
        | Some blob => if len blob =? 0 then missing else Ok blob
        end
    end.

(** ** The tracer *)

Record tracer : Type := MkTracer {
  inserts : gset bytes;
  deletes : gset bytes;
  accessList : gmap bytes bytes
}.

Definition newTracer : tracer := MkTracer ∅ ∅ ∅.

Definition onRead (path val : bytes) (t : tracer) : tracer :=
  MkTracer (inserts t) (deletes t) (<[path := val]> (accessList t)).

Definition onInsert (path : bytes) (t : tracer) : tracer :=
  if bool_decide (path ∈ deletes t) then MkTracer (inserts t) (deletes t ∖ {[path]}) (accessList t)
  else MkTracer (inserts t ∪ {[path]}) (deletes t) (accessList t).

Definition onDelete (path : bytes) (t : tracer) : tracer :=
  if bool_decide (path ∈ inserts t) then MkTracer (inserts t ∖ {[path]}) (deletes t) (accessList t)
  else MkTracer (inserts t) (deletes t ∪ {[path]}) (accessList t).

(** The paths in the order of a map, which no caller relies on. *)
Definition deletedNodes (t : tracer) : list bytes :=
  filter (λ path, is_Some (accessList t !! path)) (elements (deletes t)).

(** ** Operations on nodes *)

(** [Children[x] = n]; an index past the array panics. *)
Definition set_child (ch : list node) (x : Z) (n : node) : option (list node) :=
  if (Z.to_nat x <? length ch)%nat then Some (<[Z.to_nat x := n]> ch) else None.

Definition nil_children : list node := replicate 17 nilNode.

(** The loop over the children after a deletion: -1, the one child, or -2. *)
Fixpoint single_child (i : nat) (pos : Z) (ch : list node) : Z :=
  match ch with
  | [] => pos
  | cld :: ch =>
      if negb (is_nil cld) then
        if pos =? -1 then single_child (S i) (Z.of_nat i) ch else -2
      else single_child (S i) pos ch
  end.

Section Ops.
Context (rd : trieReader).

Abbreviation T A := (SE tracer trie_error A).

Definition resolveAndTrack (h prefix : bytes) : T node :=
  do blob <- of_result (reader_node rd prefix (BytesToHash h));
  do! modify (onRead prefix blob);
  match decodeNode (Some h) blob with
  | Ok n => ret n
  | Err e => fail (DecodePanic e)
  end.

Definition resolve (n : node) (prefix : bytes) : T node :=
  match n with hashNode h => resolveAndTrack h prefix | _ => ret n end.

(** [get]: the value, the node with what was loaded, and whether any was. *)
Fixpoint get_ (fuel : nat) (origNode : node) (key : bytes) (pos : nat) : T (option bytes * node * bool) :=
  match fuel with
  | O => fail TrieFuel
  | S fuel =>
      match origNode with
      | nilNode => ret (None, nilNode, false)
      | valueNode v => ret (Some v, origNode, false)
      | shortNode k v fl =>
          if negb (HasPrefix (drop pos key) k) then ret (None, origNode, false)
          else
            do (value, newnode, didResolve) <- get_ fuel v key (pos + length k);
            ret (value, if didResolve : bool then shortNode k newnode fl else origNode, didResolve)
      | fullNode ch fl =>
          do x <- of_option IndexPanic (key !! pos);
          do c <- of_option IndexPanic (ch !! Z.to_nat x);
          do (value, newnode, didResolve) <- get_ fuel c key (S pos);
          ret (value, if didResolve : bool then fullNode (<[Z.to_nat x := newnode]> ch) fl else origNode, didResolve)
      | hashNode h =>
          do child <- resolveAndTrack h (take pos key);
          do (value, newnode, _) <- get_ fuel child key pos;
          ret (value, newnode, true)
      end
  end.

(** [getNode]: the blob at a path, the node with what was loaded, and how many
    nodes were. *)
Fixpoint getNode_ (fuel : nat) (origNode : node) (path : bytes) (pos : nat) : T (option bytes * node * Z) :=
  match fuel with
  | O => fail TrieFuel
  | S fuel =>
      if is_nil origNode then ret (None, nilNode, 0)
      else if (length path <=? pos)%nat then
        let hash := match origNode with hashNode h => Some h | _ => (cache origNode).1 end in
        match hash with
        | None => fail NonConsensusNode
        | Some hash =>
            do blob <- of_result (reader_node rd path (BytesToHash hash));
            ret (Some blob, origNode, 1)
        end
      else
        match origNode with
        | nilNode | valueNode _ => ret (None, nilNode, 0)
        | shortNode k v fl =>
            if negb (HasPrefix (drop pos path) k) then ret (None, origNode, 0)
            else
              do (item, newnode, resolved) <- getNode_ fuel v path (pos + length k);
              ret (item, if 0 <? resolved then shortNode k newnode fl else origNode, resolved)
        | fullNode ch fl =>
            do x <- of_option IndexPanic (path !! pos);
            do c <- of_option IndexPanic (ch !! Z.to_nat x);
            do (item, newnode, resolved) <- getNode_ fuel c path (S pos);
            ret (item, if 0 <? resolved then fullNode (<[Z.to_nat x := newnode]> ch) fl else origNode, resolved)
        | hashNode h =>
            do child <- resolveAndTrack h (take pos path);
            do (item, newnode, resolved) <- getNode_ fuel child path pos;
            ret (item, newnode, resolved + 1)
        end
  end.

(** [insert]: whether the node changed, and the node. *)
Fixpoint insert_ (fuel : nat) (n : node) (prefix key : bytes) (value : node) : T (bool * node) :=
  match key with
  | [] =>
      match n with
      | valueNode v =>
          match value with
          | valueNode v' => ret (negb (bool_decide (v = v')), value)
          | _ => fail InvalidNode
          end
      | _ => ret (true, value)
      end
  | x :: key' =>
      match fuel with
      | O => fail TrieFuel
      | S fuel =>
          match n with
          | shortNode k v fl =>
              let matchlen := prefixLen key k in
              if (matchlen =? length k)%nat then
                do (dirty, nn) <- insert_ fuel v (prefix ++ take matchlen key) (drop matchlen key) value;
                if dirty : bool then ret (true, shortNode k nn newFlag) else ret (false, n)
              else
                do y <- of_option IndexPanic (k !! matchlen);
                do (_, old) <- insert_ fuel nilNode (prefix ++ take (S matchlen) k) (drop (S matchlen) k) v;
                do ch <- of_option IndexPanic (set_child nil_children y old);
                do x <- of_option IndexPanic (key !! matchlen);
                do (_, new) <- insert_ fuel nilNode (prefix ++ take (S matchlen) key) (drop (S matchlen) key) value;
                do ch <- of_option IndexPanic (set_child ch x new);
                let branch := fullNode ch newFlag in
                if (matchlen =? 0)%nat then ret (true, branch)
                else
                  do! modify (onInsert (prefix ++ take matchlen key));
                  ret (true, shortNode (take matchlen key) branch newFlag)
          | fullNode ch fl =>
              do c <- of_option IndexPanic (ch !! Z.to_nat x);
              do (dirty, nn) <- insert_ fuel c (prefix ++ [x]) key' value;
              if dirty : bool then ret (true, fullNode (<[Z.to_nat x := nn]> ch) newFlag) else ret (false, n)
          | nilNode =>
              do! modify (onInsert prefix);
              ret (true, shortNode key value newFlag)
          | hashNode h =>
              do rn <- resolveAndTrack h prefix;
              do (dirty, nn) <- insert_ fuel rn prefix key value;
              if dirty : bool then ret (true, nn) else ret (false, rn)
          | valueNode _ => fail InvalidNode
          end
      end
  end.

(** [delete]: whether the node changed, and the node. *)
Fixpoint delete_ (fuel : nat) (n : node) (prefix key : bytes) : T (bool * node) :=
  match fuel with
  | O => fail TrieFuel
  | S fuel =>
      match n with
      | shortNode k v fl =>
          let matchlen := prefixLen key k in
          if (matchlen <? length k)%nat then ret (false, n)
          else if (matchlen =? length key)%nat then
            do! modify (onDelete prefix);
            ret (true, nilNode)
          else
            do (dirty, child) <- delete_ fuel v (prefix ++ take (length k) key) (drop (length k) key);
            if negb dirty then ret (false, n)
            else
              match child with
              | shortNode k' v' _ =>
                  do! modify (onDelete (prefix ++ k));
                  ret (true, shortNode (k ++ k') v' newFlag)
              | _ => ret (true, shortNode k child newFlag)
              end
      | fullNode ch fl =>
          match key with
          | [] => fail IndexPanic
          | x :: key' =>
              do c <- of_option IndexPanic (ch !! Z.to_nat x);
              do (dirty, nn) <- delete_ fuel c (prefix ++ [x]) key';
              if negb dirty then ret (false, n)
              else
                let ch := <[Z.to_nat x := nn]> ch in
                if negb (is_nil nn) then ret (true, fullNode ch newFlag)
                else
                  let pos := single_child 0 (-1) ch in
                  if 0 <=? pos then
                    let cld := nth (Z.to_nat pos) ch nilNode in
                    if negb (pos =? 16) then
                      do cnode <- resolve cld (prefix ++ [pos]);
                      match cnode with
                      | shortNode k v _ =>
                          do! modify (onDelete (prefix ++ [pos]));
                          ret (true, shortNode (pos :: k) v newFlag)
                      | _ => ret (true, shortNode [pos] cld newFlag)
                      end
                    else ret (true, shortNode [pos] cld newFlag)
                  else ret (true, fullNode ch newFlag)
          end
      | valueNode _ => ret (true, nilNode)
      | nilNode => ret (false, nilNode)
      | hashNode h =>
          do rn <- resolveAndTrack h prefix;
          do (dirty, nn) <- delete_ fuel rn prefix key;
          if dirty : bool then ret (true, nn) else ret (false, rn)
      end
  end.
End Ops.

(** ** The node set of a commit *)

(** trie/trienode/node.go; the blob of a deleted node is empty. *)
Record Node : Type := MkNode { n_Hash : bytes; Blob : bytes }.

Definition IsDeleted (n : Node) : bool := len (Blob n) =? 0.
Definition NewDeleted : Node := MkNode zero_hash [].

Record NodeSet : Type := MkNodeSet {
  ns_Owner : bytes;
  Leaves : list (bytes * bytes);
  Nodes : gmap bytes Node;
  ns_updates : Z;
  ns_deletes : Z
}.

Definition NewNodeSet (owner : bytes) : NodeSet := MkNodeSet owner [] ∅ 0 0.

Definition AddNode (path : bytes) (n : Node) (set : NodeSet) : NodeSet :=
  let '(u, d) := if IsDeleted n then (ns_updates set, ns_deletes set + 1) else (ns_updates set + 1, ns_deletes set) in
  MkNodeSet (ns_Owner set) (Leaves set) (<[path := n]> (Nodes set)) u d.

(** A leaf is its blob and the hash of its parent. *)
Definition AddLeaf (parent blob : bytes) (set : NodeSet) : NodeSet :=
  MkNodeSet (ns_Owner set) (Leaves set ++ [(blob, parent)]) (Nodes set) (ns_updates set) (ns_deletes set).

Section Committer.
Context (access : gmap bytes bytes) (collectLeaf : bool).

(** [store]: the node that takes [n]'s place in its parent. *)
Definition store (path : bytes) (n : node) (nodes : NodeSet) : node * NodeSet :=
  match (cache n).1 with
  | None => (n, if bool_decide (is_Some (access !! path)) then AddNode path NewDeleted nodes else nodes)
  | Some hash =>
      let nhash := BytesToHash hash in
      let nodes := AddNode path (MkNode nhash (encodedBytes n)) nodes in
      let nodes :=
        match n with
        | shortNode _ (valueNode val) _ => if collectLeaf then AddLeaf nhash val nodes else nodes
        | _ => nodes
        end in
      (hashNode hash, nodes)
  end.

Section Children.
Context (commit : bytes → node → NodeSet → option (node * NodeSet)) (path : bytes).

(** [commitChildren], from the child [i]; the seventeenth stays as it is. *)
Fixpoint commitChildren (i : nat) (ch : list node) (nodes : NodeSet) : option (list node * NodeSet) :=
  match ch with
  | [] => Some ([], nodes)
  | c :: ch =>
      '(c, nodes) ←
        (if (i <? 16)%nat then
           match c with
           | nilNode => Some (nilNode, nodes)
           | hashNode h => Some (hashNode h, nodes)
           | _ => commit (path ++ [Z.of_nat i]) c nodes
           end
         else Some (c, nodes));
      '(ch, nodes) ← commitChildren (S i) ch nodes;
      Some (c :: ch, nodes)
  end.
End Children.

(** [commit]; [None] is the panic on nil and on values. *)
Fixpoint commit (path : bytes) (n : node) (nodes : NodeSet) : option (node * NodeSet) :=
  match cache n with
  | (Some hash, false) => Some (hashNode hash, nodes)
  | _ =>
      match n with
      | shortNode k v fl =>
          '(v, nodes) ← match v with
                        | fullNode _ _ => commit (path ++ k) v nodes
                        | _ => Some (v, nodes)
                        end;
          Some (store path (shortNode (hexToCompact k) v fl) nodes)
      | fullNode ch fl =>
          '(kids, nodes) ← commitChildren commit path 0 ch nodes;
          Some (store path (fullNode kids fl) nodes)
      | hashNode _ => Some (n, nodes)
      | nilNode | valueNode _ => None
      end
  end.
End Committer.

(** ** The trie *)

Record Trie : Type := MkTrie {
  root : node;
  owner : bytes;
  committed : bool;
  unhashed : Z;
  uncommitted : Z;
  reader : trieReader;
  trie_tracer : tracer
}.

Definition set_root (n : node) (t : Trie) : Trie :=
  MkTrie n (owner t) (committed t) (unhashed t) (uncommitted t) (reader t) (trie_tracer t).
Definition set_tracer (tr : tracer) (t : Trie) : Trie :=
  MkTrie (root t) (owner t) (committed t) (unhashed t) (uncommitted t) (reader t) tr.
Definition set_unhashed (n : Z) (t : Trie) : Trie :=
  MkTrie (root t) (owner t) (committed t) n (uncommitted t) (reader t) (trie_tracer t).
Definition set_uncommitted (n : Z) (t : Trie) : Trie :=
  MkTrie (root t) (owner t) (committed t) (unhashed t) n (reader t) (trie_tracer t).
Definition set_committed (b : bool) (t : Trie) : Trie :=
  MkTrie (root t) (owner t) b (unhashed t) (uncommitted t) (reader t) (trie_tracer t).

Abbreviation M A := (SE Trie trie_error A).

(** A step of the tracer is one of the trie. *)
Definition traced {A} (m : SE tracer trie_error A) : M A :=
  λ t, let '(r, tr) := m (trie_tracer t) in (r, set_tracer tr t).

(** Every step takes a nibble of the key, or loads a node that takes one. *)
Definition key_fuel (k : bytes) : nat := (2 * length k + 2)%nat.

(** Every call starts with the check that the trie is not committed. *)
Definition usable : M () :=
  do c <- get committed;
  if c : bool then fail ErrCommitted else ret tt.

Definition New (stateRoot owner_ root_ : bytes) (db : bytes → option NodeReader) : result trie_error Trie :=
  let* rd := newTrieReader stateRoot owner_ db in
  let t := MkTrie nilNode owner_ false 0 0 rd newTracer in
  if negb (bool_decide (root_ = zero_hash)) && negb (bool_decide (root_ = EmptyRootHash)) then
    let '(r, t) := traced (resolveAndTrack rd root_ []) t in
    let* rootnode := r in
    Ok (set_root rootnode t)
  else Ok t.

Definition Get (key : bytes) : M (option bytes) :=
  do! usable;
  do t <- get id;
  let k := keybytesToHex key in
  do (value, newroot, didResolve) <- traced (get_ (reader t) (key_fuel k) (root t) k 0);
  do! (if didResolve : bool then modify (set_root newroot) else ret tt);
  ret value.

Definition GetNode (path : bytes) : M (option bytes * Z) :=
  do! usable;
  do t <- get id;
  let k := compactToHex path in
  do (item, newroot, resolved) <- traced (getNode_ (reader t) (key_fuel k) (root t) k 0);
  do! (if 0 <? resolved then modify (set_root newroot) else ret tt);
  ret (item, resolved).

Definition count_update : M () :=
  do! modify (λ t, set_unhashed (unhashed t + 1) t);
  modify (λ t, set_uncommitted (uncommitted t + 1) t).

(** [insert] into the root and the store of the new one. *)
Definition insert_root (k value : bytes) : M () :=
  do t <- get id;
  do (_, n) <- traced (insert_ (reader t) (key_fuel k) (root t) [] k (valueNode value));
  modify (set_root n).

(** [delete] of the root and the store of the new one. *)
Definition delete_root (k : bytes) : M () :=
  do t <- get id;
  do (_, n) <- traced (delete_ (reader t) (key_fuel k) (root t) [] k);
  modify (set_root n).

Definition update (key value : bytes) : M () :=
  do! count_update;
  let k := keybytesToHex key in
  if negb (len value =? 0) then insert_root k value else delete_root k.

Definition Update (key value : bytes) : M () := do! usable; update key value.

Definition Delete (key : bytes) : M () :=
  do! usable;
  do! count_update;
  delete_root (keybytesToHex key).

Section Hashing.
Context `{Keccak}.

(** The sixteen goroutines of a large trie hash its children to the same values. *)
Definition hashRoot (t : Trie) : node * node * Trie :=
  if is_nil (root t) then (hashNode EmptyRootHash, nilNode, t)
  else let '(hashed, cached) := hash (root t) true in (hashed, cached, set_unhashed 0 t).

Definition Hash : M bytes :=
  λ t, let '(hashed, cached, t) := hashRoot t in
  let t := set_root cached t in
  match hashed with
  | hashNode h => (Ok (BytesToHash h), t)
  | _ => (Err InvalidNode, t)
  end.

(** The deletions that the tracer has seen. *)
Definition add_deleted (paths : list bytes) (nodes : NodeSet) : NodeSet :=
  foldl (λ set path, AddNode path NewDeleted set) nodes paths.

(** The deferred store marks the trie committed on every path, a panic's too. *)
Definition Commit (collectLeaf : bool) : M (bytes * option NodeSet) :=
  λ t0,
    let '(r, t) :=
      (do t <- get id;
       if is_nil (root t) then
         let paths := deletedNodes (trie_tracer t) in
         if (length paths =? 0)%nat then ret (EmptyRootHash, None)
         else ret (EmptyRootHash, Some (add_deleted paths (NewNodeSet (owner t))))
       else
         do rootHash <- Hash;
         do t <- get id;
         let '(hashedNode, dirty) := cache (root t) in
         if negb dirty then
           do! modify (set_root (match hashedNode with Some h => hashNode h | None => nilNode end));
           ret (rootHash, None)
         else
           let nodes := add_deleted (deletedNodes (trie_tracer t)) (NewNodeSet (owner t)) in
           match commit (accessList (trie_tracer t)) collectLeaf [] (root t) nodes with
           | Some (hashNode h, nodes) =>
               do! modify (set_root (hashNode h));
               do! modify (set_uncommitted 0);
               ret (rootHash, Some nodes)
           | _ => fail InvalidNode
           end) t0 in
    (r, set_committed true t).
End Hashing.

Definition Witness (t : Trie) : gset bytes := map_to_set (λ _ blob, blob) (accessList (trie_tracer t)).

Definition Reset (t : Trie) : Trie :=
  MkTrie nilNode zero_hash false 0 0 (reader t) newTracer.
