(* ===== verification/TrieSim.v ===== *)
(** * The operations of a trie are those of the tree it stands for

    Get, insert and delete on the nodes of parallelizable-client-go-ethereum/trie
    do what the tree of TrieSpec.v does, whatever part of it has been loaded; they
    do not fail when the database holds the nodes; and the tracer never counts a
    node of the tree as deleted. *)

From S2P Require Import Prelude StateError Rlp Crypto TrieKeys TrieSpec TrieNode TrieExpand Trie.

Open Scope eigen_scope.

(** ** The nodes of a tree *)

(** The subtree at a path; a leaf is no node of its own. *)
Inductive sub_at : tree → bytes → tree → Prop :=
  | sub_short k t : sub_at (Short k t) [] (Short k t)
  | sub_full ch : sub_at (Full ch) [] (Full ch)
  | sub_under k t q u : sub_at t q u → sub_at (Short k t) (k ++ q) u
  | sub_child ch i c q u : ch !! i = Some (Some c) → sub_at c q u → sub_at (Full ch) (Z.of_nat i :: q) u.

Definition osub_at (t : option tree) (q : bytes) (u : tree) : Prop := ∃ t', t = Some t' ∧ sub_at t' q u.

(** No node of the tree at [p] is counted as deleted. *)
Definition clean (tr : tracer) (p : bytes) (t : option tree) : Prop :=
  ∀ q u, osub_at t q u → p ++ q ∉ deletes tr.

(** Only paths under [p] are counted as deleted anew. *)
Definition framed (p : bytes) (tr tr' : tracer) : Prop :=
  ∀ q, ¬ p `prefix_of` q → q ∈ deletes tr' → q ∈ deletes tr.

Lemma framed_refl p tr : framed p tr tr.
Proof. by intros q. Qed.

Lemma framed_trans p tr1 tr2 tr3 : framed p tr1 tr2 → framed p tr2 tr3 → framed p tr1 tr3.
Proof. intros H1 H2 q Hq Hin. apply H1; [done|]. by apply H2. Qed.

Lemma framed_app p q tr tr' : framed (p ++ q) tr tr' → framed p tr tr'.
Proof. intros H r Hr. apply H. intros [s ->]. apply Hr. rewrite <- app_assoc. by eexists. Qed.

Lemma framed_deletes p tr tr' : deletes tr' = deletes tr → framed p tr tr'.
Proof. intros He q _. by rewrite He. Qed.

Lemma clean_deletes tr tr' p t : deletes tr' = deletes tr → clean tr p t → clean tr' p t.
Proof. intros He H q u Hu. rewrite He. by eapply H. Qed.

Lemma deletes_onInsert p tr q : q ∈ deletes (onInsert p tr) ↔ q ∈ deletes tr ∧ q ≠ p.
Proof. unfold onInsert. case_bool_decide; cbn; set_solver. Qed.

Lemma deletes_onDelete p tr q : q ∈ deletes (onDelete p tr) → q ∈ deletes tr ∨ q = p.
Proof. unfold onDelete. case_bool_decide; cbn; set_solver. Qed.

Lemma framed_onInsert p q tr : framed p tr (onInsert (p ++ q) tr).
Proof. intros r _ Hr. by apply deletes_onInsert in Hr as [? _]. Qed.

Lemma framed_onDelete p q tr : framed p tr (onDelete (p ++ q) tr).
Proof. intros r Hr Hin. apply deletes_onDelete in Hin as [?| ->]; [done|]. destruct Hr. by eexists. Qed.

Lemma osub_Some t q u : osub_at (Some t) q u ↔ sub_at t q u.
Proof. unfold osub_at. naive_solver. Qed.

Lemma clean_None tr p : clean tr p None.
Proof. by intros q u (t & [=] & _). Qed.

Lemma clean_Leaf tr p v : clean tr p (Some (Leaf v)).
Proof. intros q u Hu. apply osub_Some in Hu. inversion Hu. Qed.

(** A node at [p] with its subtree. *)
Lemma clean_Short tr p k t : clean tr p (Some (Short k t)) ↔ p ∉ deletes tr ∧ clean tr (p ++ k) (Some t).
Proof.
  split.
  - intros H. split.
    + specialize (H [] (Short k t)). rewrite app_nil_r in H. apply H, osub_Some. constructor.
    + intros q u Hu. rewrite <- app_assoc. apply (H (k ++ q) u). apply osub_Some in Hu. apply osub_Some. by constructor.
  - intros [Hp H] q u Hu. apply osub_Some in Hu. inversion Hu; subst; [by rewrite app_nil_r|].
    rewrite app_assoc. eapply H. by apply osub_Some.
Qed.

Lemma clean_Full tr p ch :
  clean tr p (Some (Full ch)) ↔ p ∉ deletes tr ∧ ∀ i c, ch !! i = Some c → clean tr (p ++ [Z.of_nat i]) c.
Proof.
  split.
  - intros H. split.
    + specialize (H [] (Full ch)). rewrite app_nil_r in H. apply H, osub_Some. constructor.
    + intros i c Hi q u Hu. rewrite <- app_assoc. apply (H (Z.of_nat i :: q) u). destruct Hu as (c' & -> & Hu).
      apply osub_Some. by econstructor.
  - intros [Hp H] q u Hu. apply osub_Some in Hu. inversion Hu; subst; [by rewrite app_nil_r|].
    change (Z.of_nat i :: q0) with ([Z.of_nat i] ++ q0). rewrite app_assoc. eapply H; [done|]. by apply osub_Some.
Qed.

(** What is not under [p] stays clean. *)
Lemma clean_framed p q tr tr' t :
  framed p tr tr' → (∀ r, ¬ p `prefix_of` q ++ r) → clean tr q t → clean tr' q t.
Proof. intros Hf Hp H r u Hu Hin. apply (H r u Hu). apply Hf; [apply Hp|done]. Qed.

Lemma framed_not p tr tr' q : framed p tr tr' → ¬ p `prefix_of` q → q ∉ deletes tr → q ∉ deletes tr'.
Proof. intros Hf Hp Hn Hin. apply Hn. by apply Hf. Qed.

Lemma prefix_longer (p q : bytes) : q ≠ [] → ¬ p ++ q `prefix_of` p.
Proof.
  intros Hq [r Hr]. apply (f_equal length) in Hr. rewrite !length_app in Hr. destruct q; [done|]. cbn in Hr. lia.
Qed.

Lemma app_longer (p q : bytes) : q ≠ [] → p ++ q ≠ p.
Proof. intros Hq Heq. apply (f_equal length) in Heq. rewrite length_app in Heq. destruct q; [done|]. cbn in Heq. lia. Qed.

Lemma prefix_sibling (p : bytes) x y r : x ≠ y → ¬ p ++ [x] `prefix_of` (p ++ [y]) ++ r.
Proof. intros Hne [s Hs]. rewrite <- !app_assoc in Hs. apply app_inv_head in Hs. by injection Hs as ->. Qed.

(** A short node's key is never empty. *)
Lemma wf_short_ne k t : wf false (Short k t) → k ≠ [].
Proof. intros Hw. inversion Hw; subst; [by apply terminated_ne|done]. Qed.

Section Sim.
Context `{Keccak} (rd : trieReader).

(** The database, as the reader shows it. *)
Definition db_node (p h : bytes) : option bytes :=
  match reader_node rd p h with Ok b => Some b | Err _ => None end.

(** The blobs of the database are slices. *)
Context (db_len : ∀ p h b, db_node p h = Some b → len b < two64).

#[local] Abbreviation exp := (TrieExpand.exp db_node).
#[local] Abbreviation oexp := (TrieExpand.oexp db_node).

Definition is_hash (n : node) : bool := match n with hashNode _ => true | _ => false end.

(** ** Loading a node *)

Lemma BytesToHash_32 b : len b = 32 → BytesToHash b = b.
Proof.
  intros Hl. unfold BytesToHash. unfold len in Hl. replace (length b - 32)%nat with O by lia. rewrite drop_0.
  by replace (32 - length b)%nat with O by lia.
Qed.

Lemma decode_loaded fuel h b n : decode_fuel fuel h b = Ok n → is_hash n = false.
Proof.
  destruct fuel as [|fuel]; [done|]. cbn [decode_fuel]. unfold decodeShort, decodeFull, lift_rlp, result_bind.
  intros Hd. repeat case_match; simplify_eq; done.
Qed.

Lemma exp_weaken s b p n t : exp s b p n t → exp false b p n t.
Proof. destruct s; [apply exp_mono|done]. Qed.

(** A hash node that stands for a tree can be loaded. *)
Lemma resolve_hash s b p h t tr :
  exp s b p (hashNode h) t →
  ∃ n tr', resolveAndTrack rd h p tr = (Ok n, tr') ∧ exp true b p n t ∧ is_hash n = false ∧
    deletes tr' = deletes tr.
Proof.
  intros He. inversion He as [| | |? ? ? ? Hw Hl Hdb Hb]; subst.
  unfold resolveAndTrack. unfold bind at 1. rewrite BytesToHash_32 by apply keccak_len.
  pose proof (db_len _ _ _ Hdb) as Hlen. unfold db_node in Hdb. destruct (reader_node rd p (keccak (enc t))) as [blob|] eqn:Hr; [|done].
  injection Hdb as ->. cbn [of_result]. unfold ret at 1, bind, modify.
  destruct (decode_fuel_spec db_node (S (length (enc t))) b (Some (keccak (enc t))) p t []) as (n & Hd & Hn); try done.
  - unfold len. lia.
  - by rewrite app_nil_r.
  - unfold hash_ok, flag_ok. cbn. split_and!; [done|done|]. intros _. split; [|done]. unfold db_node. by rewrite Hr.
  - rewrite app_nil_r in Hd. unfold decodeNode. rewrite Hd. eexists _, _. split; [done|].
    split; [done|]. split; [by eapply decode_loaded|done].
Qed.

(** The fuel that is left for a node. *)
Definition enough (fuel : nat) (n : node) (key : bytes) : Prop :=
  (2 * length key + (if is_hash n then 2 else 1) <= fuel)%nat.

Lemma enough_child fuel n c x key :
  enough (S fuel) n (x :: key) → is_hash n = false → enough fuel c key.
Proof. unfold enough. intros He Hn. rewrite Hn in He. cbn [length] in He. destruct (is_hash c); lia. Qed.

Lemma enough_short fuel n c k key :
  enough (S fuel) n (k ++ key) → is_hash n = false → k ≠ [] → enough fuel c key.
Proof.
  unfold enough. intros He Hn Hk. rewrite Hn in He. rewrite length_app in He. destruct k; [done|]. cbn [length] in He. destruct (is_hash c); lia.
Qed.

Lemma enough_loaded fuel h n key : enough (S fuel) (hashNode h) key → is_hash n = false → enough fuel n key.
Proof. unfold enough. intros He Hn. rewrite Hn. cbn in He. lia. Qed.

Lemma exp_full_update s b p ns fl ch x n o fl' s' :
  exp s b p (fullNode ns fl) (Full ch) → wf false (Full ch) → 0 <= x <= 16 →
  oexp (s' || has_hash fl') false (p ++ [x]) n o →
  (∀ i n c, ns !! i = Some n → ch !! i = Some (Some c) → exp (s' || has_hash fl') false (p ++ [Z.of_nat i]) n c) →
  flag_ok db_node s' b p fl' (Full (<[Z.to_nat x := o]> ch)) →
  exp s' b p (fullNode (<[Z.to_nat x := n]> ns) fl') (Full (<[Z.to_nat x := o]> ch)).
Proof.
  intros He Hw Hx Hn Hold Hfl'. inversion He as [| |? ? ? ? ? ? Hl Hnone Hc Hfl|]; subst. destruct (wf_full_false _ _ Hw) as [_ Hl17].
  constructor; [by rewrite !length_insert| | |done].
  - intros i Hi. apply list_lookup_insert_Some in Hi as [(<- & -> & _)|[Hne Hi]].
    + cbn in Hn. subst n. apply list_lookup_insert_eq. lia.
    + rewrite list_lookup_insert_ne by done. by apply Hnone.
  - intros i m c Hm Hi. apply list_lookup_insert_Some in Hi as [(<- & -> & _)|[Hne Hi]].
    + rewrite list_lookup_insert_eq in Hm by lia. injection Hm as <-. rewrite Z2Nat.id by lia. exact Hn.
    + rewrite list_lookup_insert_ne in Hm by done. by eapply Hold.
Qed.

Lemma child_same ch x : ch !! Z.to_nat x = Some (child ch x) → <[Z.to_nat x := child ch x]> ch = ch.
Proof. intros Hx. by apply list_insert_id. Qed.

(** ** Lookup *)

Lemma get_sim fuel s b e p n ot key tr :
  oexp s b p n ot → (∀ t, ot = Some t → wf e t) → key_of e key → enough fuel n key →
  ∃ n' d tr', get_ rd fuel n (p ++ key) (length p) tr = (Ok (oget ot key, n', d), tr') ∧
    oexp s b p n' ot ∧ deletes tr' = deletes tr.
Proof.
  revert s b e p n ot key tr. induction fuel as [|fuel IH]; intros s b e p n ot key tr He Hw Hkey Hfuel;
    [unfold enough in Hfuel; destruct (is_hash n); lia|].
  destruct ot as [t|]; cbn in He; [|subst n; by exists nilNode, false, tr]. specialize (Hw t eq_refl).
  cbn [get_]. inversion He as [| ? ? ? k v fl t' Hsub Hfl|? ? ? ns fl ch Hl Hnone Hc Hfl|? ? ? ? Hwf Hl Hdb Hb]; subst.
  - inversion Hw; subst. cbn in Hkey. subst key. eexists _, false, tr. split; [done|]. split; [done|done].
  - rewrite drop_app_length. cbn [oget mbind option_bind tget].
    destruct (HasPrefix key k) eqn:Hp; cbn [negb]; [|by eexists _, false, tr].
    apply HasPrefix_spec in Hp as [q ->]. rewrite drop_app_length. inversion Hw as [|? ? Hk Hv|? ch Hk Hne Hf|]; subst.
    + apply terminated_prefix in Hkey as Hq; [|done]. subst q. apply exp_Leaf in Hsub as ->.
      assert (Hf1 : enough fuel (valueNode v0) []) by (eapply enough_short; [done..|by apply terminated_ne]).
      destruct fuel; [unfold enough in Hf1; cbn in Hf1; lia|].
      unfold bind. cbn. by eexists _, false, tr.
    + destruct (IH _ _ false (p ++ k) v (Some (Full ch)) q tr Hsub) as (n' & d & tr' & Hg & He' & Hd).
      { by intros ? [= <-]. } { by eapply terminated_app_nibbles. } { by eapply enough_short. }
      rewrite <- app_assoc, length_app in Hg. rewrite (bind_Ok _ _ _ _ _ Hg).
      exists (if d then shortNode k n' fl else shortNode k v fl), d, tr'. split; [done|]. split; [|done]. destruct d; by constructor.
  - destruct (wf_full_false _ _ Hw) as [-> Hl17]. destruct key as [|x q]; [by apply terminated_ne in Hkey|].
    destruct (key_of_cons _ _ _ Hkey) as (_ & Hx & Hq). cbn [oget mbind option_bind]. rewrite tget_full.
    destruct (exp_child _ _ _ _ _ _ _ _ He Hw Hx) as (c & Hcx & Hec & Hchx).
    destruct (IH (s || has_hash fl) false (Z.to_nat x =? 16)%nat (p ++ [x]) c (child ch x) q tr Hec) as (n' & d & tr' & Hg & He' & Hd).
    { intros t Ht. by eapply wf_child. } { done. } { by eapply enough_child. }
    rewrite <- app_assoc, length_app, Nat.add_1_r in Hg. cbn [app] in Hg.
    unfold bind at 1. rewrite list_lookup_middle by done. cbn [of_option]. unfold ret at 1.
    unfold bind at 1. rewrite Hcx. cbn [of_option]. unfold ret at 1. rewrite (bind_Ok _ _ _ _ _ Hg).
    eexists (if d then fullNode (<[Z.to_nat x := n']> ns) fl else fullNode ns fl), d, tr'. split; [done|]. split; [|done]. destruct d; [|done].
    cbn. rewrite <- (child_same ch x Hchx). eapply exp_full_update; try done. by rewrite (child_same ch x Hchx).
  - destruct (resolve_hash _ _ _ _ _ tr He) as (n & tr1 & Hr & He1 & Hh & Hd1). rewrite take_app_length. rewrite (bind_Ok _ _ _ _ _ Hr).
    destruct (IH true b e p n (Some t) key tr1 He1) as (n' & d & tr' & Hg & He' & Hd).
    { by intros ? [= <-]. } { done. } { by eapply enough_loaded. }
    rewrite (bind_Ok _ _ _ _ _ Hg). eexists n', true, tr'. split; [done|]. split; [by apply exp_true|]. congruence.
Qed.

(** ** Insertion *)

Lemma flag_new b p t : flag_ok db_node false b p newFlag t.
Proof. by intros [?|?]. Qed.

(** A value under the rest of its key. *)
Definition place (key : bytes) (value : node) : node := match key with [] => value | _ => shortNode key value newFlag end.

Lemma insert_nil fuel p key value tr :
  (key ≠ [] → (0 < fuel)%nat) →
  ∃ tr', insert_ rd fuel nilNode p key value tr = (Ok (true, place key value), tr') ∧
    deletes tr' ⊆ deletes tr ∧ (key ≠ [] → p ∉ deletes tr').
Proof.
  intros Hf. destruct key as [|x key]; [exists tr; by destruct fuel|]. destruct fuel as [|fuel]; [specialize (Hf ltac:(done)); lia|].
  cbn. unfold bind, modify. eexists. split; [done|]. split; [intros q; rewrite deletes_onInsert; naive_solver|].
  intros _. rewrite deletes_onInsert. naive_solver.
Qed.

Lemma exp_place p key n t : exp false false (p ++ key) n t → exp false false p (place key n) (under key t).
Proof. destruct key as [|x key]; [by rewrite app_nil_r|]. intros He. constructor; [exact He|apply flag_new]. Qed.

Lemma clean_sub tr tr' p t : deletes tr' ⊆ deletes tr → clean tr p t → clean tr' p t.
Proof. intros Hs Hc q u Hu Hin. by apply (Hc q u Hu), Hs. Qed.

Lemma framed_sub p tr tr' : deletes tr' ⊆ deletes tr → framed p tr tr'.
Proof. intros Hs q _ Hin. by apply Hs. Qed.

Lemma clean_under tr p k t : clean tr (p ++ k) (Some t) → (k ≠ [] → p ∉ deletes tr) → clean tr p (Some (under k t)).
Proof. destruct k as [|x k]; [by rewrite app_nil_r|]. intros Hc Hp. apply clean_Short. auto. Qed.

Lemma two_lookup {A} (d : A) x y tx ty i c :
  0 <= x <= 16 → 0 <= y <= 16 →
  <[Z.to_nat x := tx]> (<[Z.to_nat y := ty]> (replicate 17 d)) !! i = Some c →
  (i = Z.to_nat x ∧ c = tx) ∨ (i = Z.to_nat y ∧ i ≠ Z.to_nat x ∧ c = ty) ∨ (i ≠ Z.to_nat x ∧ i ≠ Z.to_nat y ∧ c = d).
Proof.
  intros Hx Hy Hi. apply list_lookup_insert_Some in Hi as [(<- & -> & _)|[Hne Hi]]; [by left|].
  apply list_lookup_insert_Some in Hi as [(<- & -> & _)|[Hne' Hi]]; [auto|]. apply lookup_replicate in Hi as [-> _]. auto.
Qed.

Lemma exp_branch b p x y nx ny tx ty :
  x ≠ y → 0 <= x <= 16 → 0 <= y <= 16 → exp false false (p ++ [x]) nx tx → exp false false (p ++ [y]) ny ty →
  exp false b p (fullNode (<[Z.to_nat x := nx]> (<[Z.to_nat y := ny]> nil_children)) newFlag)
    (Full (<[Z.to_nat x := Some tx]> (<[Z.to_nat y := Some ty]> no_children))).
Proof.
  intros Hne Hx Hy Hex Hey. constructor; [by rewrite !length_insert| | |apply flag_new].
  - intros i Hi. assert (Hi17 : (i < 17)%nat) by (apply lookup_lt_Some in Hi; by rewrite !length_insert in Hi).
    apply (two_lookup (A := option tree) None) in Hi as [(-> & ?)|[(-> & _ & ?)|(Hix & Hiy & _)]]; [done..| |done|done].
    unfold nil_children. rewrite !list_lookup_insert_ne by done. by apply lookup_replicate.
  - intros i n c Hn Hi. apply (two_lookup (A := option tree) None) in Hi as [(-> & [= ->])|[(-> & Hix & [= ->])|(_ & _ & ?)]]; [| |done|done|done].
    + rewrite list_lookup_insert_eq in Hn by (rewrite length_insert; cbn; lia). injection Hn as <-. by rewrite Z2Nat.id by lia.
    + rewrite list_lookup_insert_ne, list_lookup_insert_eq in Hn by (cbn; lia). injection Hn as <-. by rewrite Z2Nat.id by lia.
Qed.

Lemma clean_branch tr p x y tx ty :
  0 <= x <= 16 → 0 <= y <= 16 → p ∉ deletes tr → clean tr (p ++ [x]) (Some tx) → clean tr (p ++ [y]) (Some ty) →
  clean tr p (Some (Full (<[Z.to_nat x := Some tx]> (<[Z.to_nat y := Some ty]> no_children)))).
Proof.
  intros Hx Hy Hp Hcx Hcy. apply clean_Full. split; [done|]. intros i c Hi.
  apply (two_lookup (A := option tree) None) in Hi as [(-> & ->)|[(-> & Hix & ->)|(_ & _ & ->)]]; [| | |done|done].
  - by rewrite Z2Nat.id by lia.
  - by rewrite Z2Nat.id by lia.
  - apply clean_None.
Qed.

(** What an insertion under [p] gives. *)
Definition inserted (b : bool) (p : bytes) (ot : option tree) (key v : bytes) (tr : tracer)
    (r : result trie_error (bool * node) * tracer) : Prop :=
  ∃ dirty n' tr', r = (Ok (dirty, n'), tr') ∧ exp false b p n' (oinsert ot key v) ∧
    (dirty = false → ot = Some (oinsert ot key v)) ∧
    clean tr' p (Some (oinsert ot key v)) ∧ framed p tr tr'.

(** Where the key of a short node and the new key part. *)
Lemma insert_split fuel s b p k n fl t x key v tr :
  terminated (x :: key) → wf false (Short k t) → prefixLen (x :: key) k ≠ length k →
  exp s b p (shortNode k n fl) (Short k t) → clean tr p (Some (Short k t)) → (0 < fuel)%nat →
  inserted b p (Some (Short k t)) (x :: key) v tr (insert_ rd (S fuel) (shortNode k n fl) p (x :: key) (valueNode v) tr).
Proof.
  intros Hkey Hw Hm He Hc Hf. pose proof (wf_short_key _ _ Hw) as Hk.
  destruct (prefixLen_key_lt _ _ Hkey Hk Hm) as [Hl1 Hl2].
  destruct (prefixLen_split (x :: key) k Hl1 Hl2) as (p0 & x' & a & y & b' & E1 & E2 & Hxy & Hl & Ht & Hx & Hy & Ha & Hb).
  assert (Hsub : exp (s || has_hash fl) false (p ++ k) n t) by (by inversion He). clear He.
  assert (Hx' : 0 <= x' <= 16) by (eapply terminated_elem; eauto).
  assert (Hy' : 0 <= y <= 16).
  { destruct Hk as [Hk|Hk]; [|by eapply terminated_elem]. rewrite E2 in Hk. apply Forall_app in Hk as [_ Hk]. apply Forall_inv in Hk. unfold is_nibble in Hk. lia. }
  apply clean_Short in Hc as [Hcp Hcs].
  unfold inserted. cbn [oinsert insert_ tinsert].
  set (m := prefixLen (x :: key) k) in *. destruct (Nat.eqb_spec m (length k)) as [|_]; [done|].
  unfold branch_at. rewrite Hx, Hy, Ha, Hb. unfold bind at 1.
  assert (Hky : k !! m = Some y) by (rewrite E2, <- Hl; by apply list_lookup_middle).
  assert (Hkx : (x :: key) !! m = Some x') by (rewrite E1, <- Hl; by apply list_lookup_middle).
  assert (Htk : take (S m) k = p0 ++ [y]).
  { rewrite (take_S_r _ _ _ Hky). f_equal. by rewrite E2, <- Hl, take_app_length. }
  assert (Htx : take (S m) (x :: key) = p0 ++ [x']).
  { rewrite (take_S_r _ _ _ Hkx). f_equal. by rewrite Ht. }
  rewrite Hky, Htk, Htx, Hkx, Ht. cbn [of_option]. unfold ret at 1.
  destruct (insert_nil fuel (p ++ p0 ++ [y]) b' n tr) as (tr1 & H1 & Hs1 & Hd1); [done|]. rewrite (bind_Ok _ _ _ _ _ H1).
  unfold bind at 1, set_child, nil_children. rewrite length_replicate. destruct (Nat.ltb_spec (Z.to_nat y) 17) as [_|]; [|lia].
  cbn [of_option]. unfold ret at 1. unfold bind at 1. unfold ret at 1.
  destruct (insert_nil fuel (p ++ p0 ++ [x']) a (valueNode v) tr1) as (tr2 & H2 & Hs2 & Hd2); [done|]. rewrite (bind_Ok _ _ _ _ _ H2).
  unfold bind at 1. rewrite length_insert, length_replicate. destruct (Nat.ltb_spec (Z.to_nat x') 17) as [_|]; [|lia].
  cbn [of_option]. unfold ret at 1.
  assert (Hen : exp false false ((p ++ p0) ++ [x']) (place a (valueNode v)) (under a (Leaf v))) by (apply exp_place; constructor).
  assert (Heo : exp false false ((p ++ p0) ++ [y]) (place b' n) (under b' t)).
  { apply exp_place. rewrite <- !app_assoc. cbn [app]. rewrite <- E2. by eapply exp_weaken. }
  assert (Hcn : clean tr2 ((p ++ p0) ++ [x']) (Some (under a (Leaf v)))).
  { apply clean_under; [apply clean_Leaf|]. intros Hane. rewrite <- app_assoc. by apply Hd2. }
  assert (Hco : clean tr2 ((p ++ p0) ++ [y]) (Some (under b' t))).
  { apply clean_under; [|intros Hbne; rewrite <- app_assoc; intros Hin; by apply (Hd1 Hbne), Hs2].
    rewrite <- !app_assoc. cbn [app]. rewrite <- E2. eapply (clean_sub tr); [set_solver|done]. }
  destruct (Nat.eqb_spec m 0) as [H0|H0].
  - assert (p0 = []) as -> by (apply nil_length_inv; by rewrite Hl). cbn [app] in *. rewrite app_nil_r in *.
    eexists true, _, tr2. split; [done|]. split; [by apply exp_branch|]. split; [done|]. split.
    + apply clean_branch; try done. set_solver.
    + apply framed_sub. set_solver.
  - unfold bind at 1, modify. eexists true, _, _. split; [done|]. split.
    { constructor; [|apply flag_new]. by apply exp_branch. }
    split; [done|].
    assert (Hs3 : deletes (onInsert (p ++ p0) tr2) ⊆ deletes tr2) by (intros q; rewrite deletes_onInsert; naive_solver).
    split; [|apply framed_sub; set_solver].
    apply clean_Short. split; [set_solver|]. apply clean_branch; try done.
    + rewrite deletes_onInsert. naive_solver.
    + by eapply clean_sub.
    + by eapply clean_sub.
Qed.

Lemma tinsert_full_match k t x key v q :
  x :: key = k ++ q → prefixLen (x :: key) k = length k → tinsert (Short k t) (x :: key) v = Short k (tinsert t q v).
Proof.
  intros Hq Hm. change (tinsert (Short k t) (x :: key) v) with
    (let m := prefixLen (x :: key) k in
     if (m =? length k)%nat then Short k (tinsert t (drop m (x :: key)) v)
     else if (m =? 0)%nat then branch_at m k t (x :: key) v
     else Short (take m (x :: key)) (branch_at m k t (x :: key) v)).
  cbv zeta. by rewrite Hm, Nat.eqb_refl, Hq, drop_app_length.
Qed.

(** The whole of a short node's key matches: the insertion is into its child. *)
Lemma insert_under s b p k n fl t q v tr x key m :
  x :: key = k ++ q → prefixLen (x :: key) k = length k → k ≠ [] →
  exp s b p (shortNode k n fl) (Short k t) → clean tr p (Some (Short k t)) →
  inserted false (p ++ k) (Some t) q v tr (m tr) →
  inserted b p (Some (Short k t)) (x :: key) v tr
    (bind m (λ '(dirty, nn), if dirty : bool then ret (true, shortNode k nn newFlag) else ret (false, shortNode k n fl)) tr).
Proof.
  intros Hq Hm Hne He Hc (dirty & n' & tr' & Hr & He' & Hsame & Hc' & Hf). unfold inserted. rewrite (bind_Ok _ _ _ _ _ Hr).
  cbn [oinsert] in He', Hc', Hsame |- *.
  rewrite (tinsert_full_match _ _ _ _ _ _ Hq Hm). apply clean_Short in Hc as [Hp Hc].
  assert (Hp' : p ∉ deletes tr') by (eapply framed_not; [done| |done]; by apply prefix_longer).
  assert (Hc2 : clean tr' p (Some (Short k (tinsert t q v)))) by (by apply clean_Short).
  apply framed_app in Hf. destruct dirty.
  - eexists true, _, tr'. split; [done|]. split; [|done]. constructor; [exact He'|apply flag_new].
  - specialize (Hsame eq_refl). injection Hsame as Hsame. rewrite <- Hsame in *.
    eexists false, _, tr'. split; [done|]. split; [|done]. by eapply exp_weaken.
Qed.

(** The place of a full node's child. *)
Lemma clean_Full_update tr tr' p ch x o :
  length ch = 17%nat → 0 <= x <= 16 → clean tr p (Some (Full ch)) → framed (p ++ [x]) tr tr' → clean tr' (p ++ [x]) o →
  clean tr' p (Some (Full (<[Z.to_nat x := o]> ch))).
Proof.
  intros Hl Hx Hc Hf Ho. apply clean_Full in Hc as [Hp Hc]. apply clean_Full. split.
  - eapply framed_not; [done| |done]. by apply prefix_longer.
  - intros i c Hi. apply list_lookup_insert_Some in Hi as [(<- & -> & _)|[Hne Hi]].
    + by rewrite Z2Nat.id by lia.
    + eapply clean_framed; [done| |by apply Hc]. intros r. apply prefix_sibling. lia.
Qed.

Lemma insert_into s b p ns fl ch x q v tr c m :
  exp s b p (fullNode ns fl) (Full ch) → wf false (Full ch) → 0 <= x <= 16 →
  clean tr p (Some (Full ch)) → ns !! Z.to_nat x = Some c → ch !! Z.to_nat x = Some (child ch x) →
  inserted false (p ++ [x]) (child ch x) q v tr (m tr) →
  inserted b p (Some (Full ch)) (x :: q) v tr
    (bind m (λ '(dirty, nn), if dirty : bool then ret (true, fullNode (<[Z.to_nat x := nn]> ns) newFlag) else ret (false, fullNode ns fl)) tr).
Proof.
  intros He Hw Hx Hc Hcx Hchx (dirty & n' & tr' & Hr & He' & Hsame & Hc' & Hf). unfold inserted. rewrite (bind_Ok _ _ _ _ _ Hr).
  destruct (wf_full_false _ _ Hw) as [_ Hl17]. cbn [oinsert]. rewrite tinsert_full.
  pose proof (clean_Full_update tr tr' p ch x _ Hl17 Hx Hc Hf Hc') as Hc2. apply framed_app in Hf. destruct dirty.
  - eexists true, _, tr'. split; [done|]. split; [|done]. eapply exp_full_update; [done|done|done|exact He'| |apply flag_new].
    inversion He; subst. intros i n0 c0 Hn0 Hc0. eapply exp_weaken. eauto.
  - rewrite <- (Hsame eq_refl), (child_same _ _ Hchx) in *. eexists false, _, tr'. split; [done|]. split; [|done]. by eapply exp_weaken.
Qed.

Lemma insert_sim fuel s b e p n ot key v tr :
  oexp s b p n ot → (∀ t, ot = Some t → wf e t) → key_of e key → enough fuel n key → clean tr p ot →
  inserted b p ot key v tr (insert_ rd fuel n p key (valueNode v) tr).
Proof.
  revert s b e p n ot key tr. induction fuel as [|fuel IH]; intros s b e p n ot key tr He Hw Hkey Hfuel Hc;
    [unfold enough in Hfuel; destruct (is_hash n); lia|].
  destruct ot as [t|]; cbn in He.
  2: { subst n. destruct (insert_nil (S fuel) p key (valueNode v) tr) as (tr' & Hi & Hs & Hd); [lia|].
       eexists true, _, tr'. split; [exact Hi|]. cbn [oinsert]. split.
       { destruct key as [|x key]; [constructor|]. constructor; [constructor|apply flag_new]. }
       split; [done|]. split; [|by apply framed_sub]. apply clean_under; [apply clean_Leaf|done]. }
  specialize (Hw t eq_refl). destruct key as [|x key].
  { destruct e; [|by apply terminated_ne in Hkey]. inversion Hw; subst. apply exp_Leaf in He as ->. cbn.
    eexists _, _, tr. split; [done|]. split; [constructor|]. split; [|split; [apply clean_Leaf|apply framed_refl]].
    case_bool_decide; [by subst|done]. }
  inversion He as [|? ? ? k n0 fl t' Hsub Hfl|? ? ? ns fl ch Hl Hnone Hch Hfl|? ? ? ? Hwf Hl Hdb Hb]; subst.
  - inversion Hw; subst. by cbn in Hkey.
  - assert (e = false) as -> by (by inversion Hw). pose proof (wf_short_ne _ _ Hw) as Hkn.
    destruct (decide (prefixLen (x :: key) k = length k)) as [Hm|Hm].
    + destruct (prefixLen_full _ _ Hm) as (q & Hq & Hd).
      assert (Ht : take (length k) (x :: key) = k) by (by rewrite Hq, take_app_length).
      cbn [insert_]. rewrite Hm, Nat.eqb_refl, Ht, Hd.
      eapply insert_under; [done..|].
      assert (∃ e', wf e' t' ∧ key_of e' q) as (e' & Hw' & Hq').
      { rewrite Hq in Hkey. inversion Hw as [|? ? Hk Hv|? ? Hk Hne Hf|]; subst.
        - exists true. split; [by constructor|]. by eapply terminated_prefix.
        - exists false. split; [done|]. by eapply terminated_app_nibbles. }
      rewrite Hq in Hfuel. apply clean_Short in Hc as [_ Hc].
      eapply (IH _ _ e'); [exact Hsub|by intros ? [= <-]|done|by eapply enough_short|done].
    + eapply insert_split; try done. unfold enough in Hfuel. cbn in Hfuel. lia.
  - destruct (wf_full_false _ _ Hw) as [-> Hl17]. destruct (key_of_cons _ _ _ Hkey) as (_ & Hx & Hq).
    destruct (exp_child _ _ _ _ _ _ _ _ He Hw Hx) as (c & Hcx & Hec & Hchx).
    cbn [insert_]. unfold bind at 1. rewrite Hcx. cbn [of_option]. unfold ret at 1.
    eapply insert_into; try done. eapply (IH _ _ (Z.to_nat x =? 16)%nat); [exact Hec| |done| |].
    + intros t Ht. by eapply wf_child.
    + by eapply enough_child.
    + apply clean_Full in Hc as [_ Hc]. specialize (Hc _ _ Hchx). by rewrite Z2Nat.id in Hc by lia.
  - destruct (resolve_hash _ _ _ _ _ tr He) as (n & tr1 & Hr & He1 & Hh & Hd1). cbn [insert_]. rewrite (bind_Ok _ _ _ _ _ Hr).
    destruct (IH true b e p n (Some t) (x :: key) tr1) as (dirty & n' & tr' & Hi & He' & Hsame & Hc' & Hf).
    { done. } { by intros ? [= <-]. } { done. } { by eapply enough_loaded. } { by eapply clean_deletes. }
    unfold inserted. rewrite (bind_Ok _ _ _ _ _ Hi). assert (Hf' : framed p tr tr') by (eapply framed_trans; [by apply framed_deletes|done]).
    destruct dirty; eexists _, _, tr'; (split; [done|]); (split; [|done]); [done|].
    specialize (Hsame eq_refl). injection Hsame as Hsame. cbn [oinsert] in *. rewrite <- Hsame. by apply exp_mono.
Qed.

(** ** Deletion *)

Definition same_nil (n : node) (c : option tree) : Prop := is_nil n = bool_decide (c = None).

Lemma single_child_found i pos ns ch :
  Forall2 same_nil ns ch → 0 <= pos →
  single_child i pos ns = if forallb (λ c : option tree, bool_decide (c = None)) ch then pos else -2.
Proof.
  intros Hf Hp. revert i. induction Hf as [|n c ns ch Hn Hf IH]; intros i; [done|]. cbn [single_child forallb]. rewrite Hn.
  destruct (bool_decide (c = None)); cbn [negb andb]; [apply IH|]. destruct (Z.eqb_spec pos (-1)); [lia|done].
Qed.

Lemma single_child_spec i ns ch :
  Forall2 same_nil ns ch →
  match only_from i ch with
  | Some (pos, _) => single_child i (-1) ns = Z.of_nat pos
  | None => single_child i (-1) ns < 0
  end.
Proof.
  intros Hf. revert i. induction Hf as [|n c ns ch Hn Hf IH]; intros i; [done|]. cbn [single_child only_from]. rewrite Hn.
  destruct c as [c|]; cbn [bool_decide negb].
  - rewrite bool_decide_false by done. cbn [negb]. rewrite Z.eqb_refl, (single_child_found _ _ _ ch) by (done || lia).
    by destruct (forallb _ ch).
  - rewrite bool_decide_true by done. apply IH.
Qed.

Lemma exp_same_nil s b p ns fl ch : exp s b p (fullNode ns fl) (Full ch) → Forall2 same_nil ns ch.
Proof.
  intros He. inversion He as [| |? ? ? ? ? ? Hl Hn Hc Hfl|]; subst. apply Forall2_same_length_lookup_2; [done|].
  intros i n c Hni Hci. unfold same_nil. destruct c as [c|].
  - rewrite bool_decide_false by done. eapply exp_not_nil. eauto.
  - rewrite bool_decide_true by done. apply Hn in Hci. by simplify_eq.
Qed.

(** What a deletion under [p] gives. *)
Definition removed (b : bool) (p : bytes) (t : tree) (key : bytes) (tr : tracer)
    (r : result trie_error (bool * node) * tracer) : Prop :=
  ∃ dirty n' tr', r = (Ok (dirty, n'), tr') ∧ framed p tr tr' ∧
    match tdelete t key with
    | None => dirty = false ∧ exp false b p n' t ∧ clean tr' p (Some t)
    | Some t' => dirty = true ∧ oexp false b p n' t' ∧ is_hash n' = false ∧ clean tr' p t'
    end.

(** What is left of a short node's child is merged into it. *)
Lemma delete_merge b p k child c tr :
  k ≠ [] → wf false c → exp false false (p ++ k) child c → is_hash child = false →
  clean tr (p ++ k) (Some c) → p ∉ deletes tr →
  ∃ n' m tr',
    (match child with
     | shortNode k' v' _ =>
         do! modify (onDelete (p ++ k));
         ret (true, shortNode (k ++ k') v' newFlag)
     | _ => ret (true, shortNode k child newFlag)
     end : SE tracer trie_error (bool * node)) tr = (Ok (true, n'), tr') ∧
    merge k (Some c) = Some m ∧ exp false b p n' m ∧ is_hash n' = false ∧ clean tr' p (Some m) ∧ framed p tr tr'.
Proof.
  intros Hk Hw He Hh Hc Hp. inversion He as [|? ? ? k' n fl t Hsub Hfl|? ? ? ns fl ch Hl Hn Hch Hfl|]; subst.
  - inversion Hw.
  - pose proof (wf_short_ne _ _ Hw) as Hk'. unfold bind, modify. eexists _, _, _. split; [done|]. split; [done|].
    split; [constructor; [|apply flag_new]; rewrite app_assoc; by eapply exp_weaken|]. split; [done|].
    apply clean_Short in Hc as [_ Hc]. split; [|apply framed_onDelete]. apply clean_Short. split.
    + intros Hin. apply deletes_onDelete in Hin as [?|Heq]; [done|]. symmetry in Heq. by apply app_longer in Heq.
    + intros q u Hu Hin. rewrite app_assoc in Hin. apply deletes_onDelete in Hin as [Hin|Heq]; [by apply (Hc q u Hu)|].
      rewrite <- app_assoc in Heq. apply app_longer in Heq; [done|]. by destruct k'.
  - eexists _, _, tr. split; [done|]. split; [done|]. split; [constructor; [done|apply flag_new]|]. split; [done|].
    split; [|apply framed_refl]. by apply clean_Short.
  - done.
Qed.

(** A full node with one child left becomes a short one. *)
Lemma delete_reduce b p ns ch tr :
  length ch = 17%nat → (∀ i c, ch !! i = Some (Some c) → wf (i =? 16)%nat c) → exp false b p (fullNode ns newFlag) (Full ch) →
  clean tr p (Some (Full ch)) →
  let pos := single_child 0 (-1) ns in
  ∃ n' tr',
    (if 0 <=? pos then
       let cld := nth (Z.to_nat pos) ns nilNode in
       if negb (pos =? 16) then
         do cnode <- resolve rd cld (p ++ [pos]);
         match cnode with
         | shortNode k v _ =>
             do! modify (onDelete (p ++ [pos]));
             ret (true, shortNode (pos :: k) v newFlag)
         | _ => ret (true, shortNode [pos] cld newFlag)
         end
       else ret (true, shortNode [pos] cld newFlag)
     else ret (true, fullNode ns newFlag) : SE tracer trie_error (bool * node)) tr = (Ok (true, n'), tr') ∧
    exp false b p n' (reduce ch) ∧ is_hash n' = false ∧ clean tr' p (Some (reduce ch)) ∧ framed p tr tr'.
Proof.
  intros Hl17 Hwc He Hc. cbn zeta. pose proof (single_child_spec 0 ns ch (exp_same_nil _ _ _ _ _ _ He)) as Hs.
  pose proof (only_from_spec 0 ch) as Ho. unfold reduce. destruct (only_from 0 ch) as [[pos c]|].
  2: { destruct (Z.leb_spec 0 (single_child 0 (-1) ns)); [lia|]. exists (fullNode ns newFlag), tr.
       split; [done|]. split; [done|]. split; [done|]. split; [done|apply framed_refl]. }
  rewrite Hs, Nat2Z.id. destruct (Z.leb_spec 0 (Z.of_nat pos)); [|lia].
  destruct Ho as (_ & Hp & _). rewrite Nat.sub_0_r in Hp. pose proof (Hwc _ _ Hp) as Hw.
  inversion He as [| |? ? ? ? ? ? Hl Hn Hch Hfl|]; subst.
  destruct (lookup_lt_is_Some_2 ns pos) as [cld Hcld]; [rewrite Hl; by eapply lookup_lt_Some|].
  rewrite (nth_lookup_Some _ _ nilNode _ Hcld). specialize (Hch _ _ _ Hcld Hp). cbn in Hch.
  apply clean_Full in Hc as [Hp' Hc]. specialize (Hc _ _ Hp).
  assert (Hpos : (Z.of_nat pos =? 16) = (pos =? 16)%nat) by (destruct (Nat.eqb_spec pos 16), (Z.eqb_spec (Z.of_nat pos) 16); lia).
  rewrite Hpos. assert (Hplain : exp false b p (shortNode [Z.of_nat pos] cld newFlag) (Short [Z.of_nat pos] c) ∧
    clean tr p (Some (Short [Z.of_nat pos] c))).
  { split; [|by apply clean_Short]. constructor; [done|apply flag_new]. }
  destruct Hplain as [Hpe Hpc]. destruct (Nat.eqb_spec pos 16) as [->|Hp16]; cbn [negb].
  { eexists _, tr. split; [done|]. inversion Hw; subst. split; [done|]. split; [done|]. split; [done|apply framed_refl]. }
  assert (Hres : ∃ cnode tr1, resolve rd cld (p ++ [Z.of_nat pos]) tr = (Ok cnode, tr1) ∧
    exp false false (p ++ [Z.of_nat pos]) cnode c ∧ is_hash cnode = false ∧ deletes tr1 = deletes tr).
  { destruct (is_hash cld) eqn:Hh; [|exists cld, tr; by destruct cld].
    destruct cld; try done. destruct (resolve_hash _ _ _ _ _ tr Hch) as (n & tr' & Hr & Hen & Hhn & Hd).
    exists n, tr'. split; [done|]. by apply exp_mono in Hen. }
  destruct Hres as (cnode & tr1 & Hr & Hec & Hh & Hd). rewrite (bind_Ok _ _ _ _ _ Hr).
  inversion Hec as [|? ? ? k n fl t Hsub Hflc|? ? ? nsc flc chc Hlc Hnc Hchc Hflc|]; subst; [inversion Hw| | |done].
  - unfold bind, modify. eexists _, _. split; [done|]. cbn [reduce].
    split; [constructor; [|apply flag_new]; change (Z.of_nat pos :: k) with ([Z.of_nat pos] ++ k); rewrite app_assoc; by eapply exp_weaken|].
    split; [done|]. pose proof (wf_short_ne _ _ Hw) as Hk. split.
    2: { eapply framed_trans; [by apply framed_deletes|]. apply framed_onDelete. }
    apply clean_Short in Hc as [_ Hc]. change (Z.of_nat pos :: k) with ([Z.of_nat pos] ++ k). apply clean_Short. split.
    + intros Hin. apply deletes_onDelete in Hin as [?|Heq]; [by rewrite Hd in *|]. symmetry in Heq. by apply app_longer in Heq.
    + intros q u Hu Hin. apply deletes_onDelete in Hin as [Hin|Heq].
      * rewrite Hd, app_assoc in Hin. by apply (Hc q u Hu).
      * rewrite app_assoc, <- (app_assoc _ k q) in Heq. apply app_longer in Heq; [done|]. by destruct k.
  - eexists _, tr1. split; [done|]. split; [done|]. split; [done|]. split; [by eapply clean_deletes|by apply framed_deletes].
Qed.

Lemma framed_clean_Short tr tr' p k t : k ≠ [] → framed (p ++ k) tr tr' → clean tr p (Some (Short k t)) → p ∉ deletes tr'.
Proof. intros Hk Hf Hc. apply clean_Short in Hc as [Hp _]. eapply framed_not; [done| |done]. by apply prefix_longer. Qed.

Lemma delete_short_full fuel s b p k n fl ch q tr :
  wf false (Short k (Full ch)) → terminated q → exp s b p (shortNode k n fl) (Short k (Full ch)) →
  clean tr p (Some (Short k (Full ch))) →
  removed false (p ++ k) (Full ch) q tr (delete_ rd fuel n (p ++ k) q tr) →
  removed b p (Short k (Full ch)) (k ++ q) tr (delete_ rd (S fuel) (shortNode k n fl) p (k ++ q) tr).
Proof.
  intros Hw Hq He Hc (dirty & n' & tr1 & Hr & Hf & Hd). pose proof (wf_short_ne _ _ Hw) as Hk.
  pose proof (framed_clean_Short _ _ _ _ _ Hk Hf Hc) as Hp. inversion Hw as [| |? ? Hkn _ Hwf|]; subst.
  unfold removed. change (tdelete (Short k (Full ch)) (k ++ q)) with
    (let m := prefixLen (k ++ q) k in
     if (m <? length k)%nat then None else if (m =? length (k ++ q))%nat then Some None
     else merge k <$> tdelete (Full ch) (drop (length k) (k ++ q))). cbv zeta.
  cbn [delete_]. rewrite prefixLen_app, take_app_length, drop_app_length. destruct (Nat.ltb_spec (length k) (length k)); [lia|].
  destruct (Nat.eqb_spec (length k) (length (k ++ q))) as [Heq|_].
  { apply terminated_ne in Hq. rewrite length_app in Heq. destruct q; [done|]. cbn in Heq. lia. }
  rewrite (bind_Ok _ _ _ _ _ Hr). pose proof (tdelete_spec false (Full ch) q Hwf Hq) as Hspec.
  apply clean_Short in Hc as [_ Hc].
  destruct (tdelete (Full ch) q) as [[c|]|]; cbn [fmap option_fmap option_map deleted] in *.
  - destruct Hd as (-> & He' & Hh & Hc'). cbn [negb]. destruct Hspec as (_ & _ & Hwc & _).
    destruct (delete_merge b p k n' c tr1 Hk (Hwc _ eq_refl) He' Hh Hc' Hp) as (n2 & m & tr2 & Hm & Hmg & He2 & Hh2 & Hc2 & Hf2).
    exists true, n2, tr2. split; [exact Hm|]. split; [eapply framed_trans; [by eapply framed_app|done]|]. by rewrite Hmg.
  - destruct Hspec as (_ & _ & _ & Hn). by destruct (Hn eq_refl ch).
  - destruct Hd as (-> & He' & Hc'). cbn [negb]. eexists false, _, tr1. split; [done|]. split; [by eapply framed_app|].
    split; [done|]. split; [by eapply exp_weaken|]. by apply clean_Short.
Qed.

Lemma delete_full fuel s b p ns fl ch x q tr c m :
  exp s b p (fullNode ns fl) (Full ch) → wf false (Full ch) → terminated (x :: q) →
  clean tr p (Some (Full ch)) → ns !! Z.to_nat x = Some c → child ch x = Some m →
  removed false (p ++ [x]) m q tr (delete_ rd fuel c (p ++ [x]) q tr) →
  removed b p (Full ch) (x :: q) tr (delete_ rd (S fuel) (fullNode ns fl) p (x :: q) tr).
Proof.
  intros He Hw Hkey Hc Hcx Hm (dirty & n' & tr1 & Hr & Hf & Hd). destruct (key_of_cons false _ _ Hkey) as (_ & Hx & Hq).
  unfold removed. rewrite tdelete_full, Hm. cbn [mbind option_bind delete_]. unfold bind at 1. rewrite Hcx. cbn [of_option]. unfold ret at 1.
  rewrite (bind_Ok _ _ _ _ _ Hr). destruct (wf_full_false _ _ Hw) as [_ Hl17].
  pose proof (wf_child _ _ _ _ Hw Hm) as Hwm. pose proof (tdelete_spec _ m q Hwm Hq) as Hspec.
  assert (Hupd : ∀ o, oexp false false (p ++ [x]) n' o →
    exp false b p (fullNode (<[Z.to_nat x := n']> ns) newFlag) (Full (<[Z.to_nat x := o]> ch))).
  { intros o Ho. eapply exp_full_update; [done|done|done|exact Ho| |apply flag_new].
    inversion He; subst. intros i n0 c0 Hn0 Hc0. eapply exp_weaken. eauto. }
  destruct (tdelete m q) as [[t'|]|]; cbn [deleted] in Hspec.
  - destruct Hd as (-> & He' & Hh & Hc'). cbn [negb]. pose proof (exp_not_nil _ _ _ _ _ _ He') as Hnil. rewrite Hnil. cbn [negb].
    eexists true, _, tr1. split; [done|]. split; [by eapply framed_app|]. split; [done|]. split; [by apply Hupd|]. split; [done|].
    by eapply clean_Full_update.
  - destruct Hd as (-> & He' & Hh & Hc'). cbn in He'. subst n'. cbn [negb is_nil].
    destruct (delete_reduce b p (<[Z.to_nat x := nilNode]> ns) (<[Z.to_nat x := None]> ch) tr1) as (n2 & tr2 & H2 & He2 & Hh2 & Hc2 & Hf2).
    + by rewrite length_insert.
    + intros i d Hi. apply list_lookup_insert_Some in Hi as [(_ & [=] & _)|[_ Hi]]. inversion Hw; subst. eauto.
    + by apply Hupd.
    + by eapply clean_Full_update.
    + exists true, n2, tr2. split; [exact H2|]. split; [eapply framed_trans; [by eapply framed_app|done]|]. done.
  - destruct Hd as (-> & He' & Hc'). cbn [negb]. eexists false, _, tr1. split; [done|]. split; [by eapply framed_app|].
    split; [done|]. split; [by eapply exp_weaken|].
    assert (Hchx : ch !! Z.to_nat x = Some (Some m)).
    { unfold child in Hm. destruct (ch !! Z.to_nat x) as [o|]; [by subst|done]. }
    rewrite <- (list_insert_id ch (Z.to_nat x) (Some m)) by done. by eapply clean_Full_update.
Qed.

Lemma delete_sim fuel s b e p n t key tr :
  exp s b p n t → wf e t → key_of e key → enough fuel n key → clean tr p (Some t) →
  removed b p t key tr (delete_ rd fuel n p key tr).
Proof.
  revert s b e p n t key tr. induction fuel as [|fuel IH]; intros s b e p n t key tr He Hw Hkey Hfuel Hc;
    [unfold enough in Hfuel; destruct (is_hash n); lia|].
  inversion He as [|? ? ? k n0 fl t' Hsub Hfl|? ? ? ns fl ch Hl Hnone Hch Hfl|? ? ? ? Hwf Hl Hdb Hb]; subst.
  - eexists true, nilNode, tr. split; [done|]. split; [apply framed_refl|]. cbn. split_and!; [done|done|done|apply clean_None].
  - assert (e = false) as -> by (by inversion Hw). pose proof (wf_short_ne _ _ Hw) as Hkn. cbn in Hkey.
    destruct (decide (prefixLen key k = length k)) as [Hm|Hm].
    + destruct (prefixLen_full _ _ Hm) as (q & -> & Hd). inversion Hw as [|? v Hk Hv|? ch Hk Hne Hf|]; subst.
      * apply terminated_prefix in Hkey as Hq; [|done]. subst q. rewrite app_nil_r in *. unfold removed.
        cbn [tdelete delete_]. rewrite Hm. destruct (Nat.ltb_spec (length k) (length k)); [lia|]. rewrite Nat.eqb_refl.
        unfold bind, modify. eexists true, nilNode, _. split; [done|]. split; [|split_and!; [done|done|done|apply clean_None]].
        rewrite <- (app_nil_r p) at 2. apply framed_onDelete.
      * assert (Hq : terminated q) by (by eapply terminated_app_nibbles).
        eapply delete_short_full; try done. apply clean_Short in Hc as [_ Hc]. eapply (IH _ _ false); try done. by eapply enough_short.
    + destruct (prefixLen_spec key k) as (_ & Hm2 & _). unfold removed. cbn [tdelete delete_].
      destruct (Nat.ltb_spec (prefixLen key k) (length k)); [|lia]. eexists false, _, tr. split; [done|]. split; [apply framed_refl|].
      split_and!; [done|by eapply exp_weaken|done].
  - destruct (wf_full_false _ _ Hw) as [-> Hl17]. destruct key as [|x q]; [by apply terminated_ne in Hkey|].
    destruct (key_of_cons _ _ _ Hkey) as (_ & Hx & Hq). destruct (exp_child _ _ _ _ _ _ _ _ He Hw Hx) as (c & Hcx & Hec & Hchx).
    destruct (child ch x) as [m|] eqn:Hm.
    + eapply delete_full; try done. eapply (IH _ _ (Z.to_nat x =? 16)%nat); [exact Hec|by eapply wf_child|done|by eapply enough_child|].
      apply clean_Full in Hc as [_ Hc]. specialize (Hc _ _ Hchx). by rewrite Z2Nat.id in Hc by lia.
    + cbn in Hec. subst c. unfold removed. rewrite tdelete_full, Hm. cbn [mbind option_bind delete_]. unfold bind at 1. rewrite Hcx.
      cbn [of_option]. unfold ret at 1. assert (enough fuel nilNode q) as Hf by (by eapply enough_child).
      destruct fuel as [|fuel]; [unfold enough in Hf; cbn in Hf; lia|]. cbn.
      eexists false, _, tr. split; [done|]. split; [apply framed_refl|]. split_and!; [done|by eapply exp_weaken|done].
  - destruct (resolve_hash _ _ _ _ _ tr He) as (n & tr1 & Hr & He1 & Hh & Hd1). cbn [delete_]. rewrite (bind_Ok _ _ _ _ _ Hr).
    destruct (IH true b e p n t key tr1) as (dirty & n' & tr' & Hi & Hf & Hpost).
    { done. } { done. } { done. } { by eapply enough_loaded. } { by eapply clean_deletes. }
    unfold removed. rewrite (bind_Ok _ _ _ _ _ Hi). assert (Hf' : framed p tr tr') by (eapply framed_trans; [by apply framed_deletes|done]).
    destruct (tdelete t key) as [t'|]; destruct Hpost as [-> Hpost].
    + exists true, n', tr'. split; [done|]. split; [done|]. split; [done|exact Hpost].
    + exists false, n, tr'. split; [done|]. split; [done|]. split; [done|]. split; [by apply exp_mono|]. by destruct Hpost.
Qed.
End Sim.

(** * The trie is a map from keys to values

    The operations of parallelizable-client-go-ethereum/trie/trie.go refine those
    of a finite map: a trie stands for a map when its nodes stand for a minimal
    tree that reads like it.  The root hash is determined by the map. *)

Open Scope eigen_scope.

(** The tree reads like the map, and holds no other key. *)
Record reads_like (t : option tree) (m : gmap bytes bytes) : Prop := {
  rl_get key : Forall is_byte key → oget t (keybytesToHex key) = m !! key;
  rl_keys k v : terminated k → oget t k = Some v → ∃ key, Forall is_byte key ∧ k = keybytesToHex key;
  rl_dom key v : m !! key = Some v → Forall is_byte key ∧ value_ok v
}.

Lemma keybytesToHex_inj k k' : Forall is_byte k → Forall is_byte k' → keybytesToHex k = keybytesToHex k' → k = k'.
Proof.
  intros Hk Hk' He. apply app_inj_tail in He as [He _]. rewrite <- (decodeNibbles_key k), <- (decodeNibbles_key k') by done.
  by rewrite He.
Qed.

Lemma reads_like_empty : reads_like None ∅.
Proof. split; [by intros ? _; rewrite lookup_empty|done|]. intros key v. by rewrite lookup_empty. Qed.

Lemma reads_like_insert t m key v :
  owf t → reads_like t m → Forall is_byte key → value_ok v →
  reads_like (Some (oinsert t (keybytesToHex key) v)) (<[key := v]> m).
Proof.
  intros Hw [Hg Hk Hd] Hkey Hv.
  destruct (oinsert_spec t (keybytesToHex key) v Hw (keybytesToHex_terminated _ Hkey) Hv) as [_ Hi]. split.
  - intros k' Hk'. rewrite Hi by (by apply keybytesToHex_terminated). case_decide as He.
    + apply keybytesToHex_inj in He as ->; [|done..]. by rewrite lookup_insert_eq.
    + rewrite lookup_insert_ne by congruence. by apply Hg.
  - intros k w Hkt. rewrite Hi by done. case_decide as He; [by exists key|]. by apply Hk.
  - intros k w. rewrite lookup_insert_Some. intros [[<- <-]|[_ Hm]]; [done|by eapply Hd].
Qed.

Lemma reads_like_delete t m key :
  owf t → reads_like t m → Forall is_byte key → reads_like (odelete t (keybytesToHex key)) (delete key m).
Proof.
  intros Hw [Hg Hk Hd] Hkey.
  destruct (odelete_spec t (keybytesToHex key) Hw (keybytesToHex_terminated _ Hkey)) as [_ Hi]. split.
  - intros k' Hk'. rewrite Hi by (by apply keybytesToHex_terminated). case_decide as He.
    + apply keybytesToHex_inj in He as ->; [|done..]. by rewrite lookup_delete_eq.
    + rewrite lookup_delete_ne by congruence. by apply Hg.
  - intros k w Hkt. rewrite Hi by done. case_decide; [done|]. by apply Hk.
  - intros k w. rewrite lookup_delete_Some. intros [_ Hm]. by eapply Hd.
Qed.

(** Two trees that read like a map are the same. *)
Lemma reads_like_unique t t' m : owf t → owf t' → reads_like t m → reads_like t' m → t = t'.
Proof.
  intros Hw Hw' [Hg Hk Hd] [Hg' Hk' Hd']. apply owf_unique; [done|done|]. intros k Ht.
  apply option_eq. intros v. split; intros Hv.
  - destruct (Hk k v Ht Hv) as (key & Hb & ->). by rewrite Hg', <- Hg.
  - destruct (Hk' k v Ht Hv) as (key & Hb & ->). by rewrite Hg, <- Hg'.
Qed.

(** The map after a list of writes. *)
Definition written (kvs : list (bytes * bytes)) : gmap bytes bytes := fold_left (λ m kv, <[kv.1 := kv.2]> m) kvs ∅.

Lemma written_snoc kvs k v : written (kvs ++ [(k, v)]) = <[k := v]> (written kvs).
Proof. unfold written. by rewrite fold_left_app. Qed.

Lemma written_lookup kvs k v : written kvs !! k = Some v → (k, v) ∈ kvs.
Proof.
  revert k v. induction kvs as [|[k' v'] kvs IH] using rev_ind; intros k v; [cbn; by rewrite lookup_empty|].
  rewrite written_snoc. intros [[-> ->]|[_ Hb]]%lookup_insert_Some; apply elem_of_app; [right; by left|left; by apply IH].
Qed.

Lemma written_dom kvs k v : (k, v) ∈ kvs → ∃ v', written kvs !! k = Some v'.
Proof.
  revert k v. induction kvs as [|[k' v'] kvs IH] using rev_ind; intros k v; [by intros ?%elem_of_nil|].
  rewrite written_snoc. intros [Hin|Hin%list_elem_of_singleton]%elem_of_app.
  - destruct (decide (k' = k)) as [->|Hne]; [rewrite lookup_insert_eq; by eexists|]. rewrite lookup_insert_ne by done. by eapply IH.
  - injection Hin as -> ->. rewrite lookup_insert_eq. by eexists.
Qed.

Section TrieMap.
Context `{Keccak}.

(** The blobs that a reader gives are slices. *)
Definition reader_ok (rd : trieReader) : Prop := ∀ p h b, db_node rd p h = Some b → len b < two64.

(** The trie stands for a tree, no node of which is counted as deleted. *)
Record stands_for (t : Trie) (ot : option tree) : Prop := {
  sf_exp : oexp (db_node (reader t)) false true [] (root t) ot;
  sf_wf : owf ot;
  sf_clean : clean (trie_tracer t) [] ot;
  sf_reader : reader_ok (reader t)
}.

(** The trie is usable and holds the map. *)
Definition holds (t : Trie) (m : gmap bytes bytes) : Prop :=
  committed t = false ∧ ∃ ot, stands_for t ot ∧ reads_like ot m.

Definition hash_of (ot : option tree) : bytes := match ot with None => EmptyRootHash | Some t => keccak (enc t) end.

Lemma key_enough n k : enough (key_fuel k) n k.
Proof. unfold enough, key_fuel. destruct (is_hash n); lia. Qed.

Lemma usable_ok t : committed t = false → usable t = (Ok tt, t).
Proof. intros Hc. unfold usable, bind, get. by rewrite Hc. Qed.

(** The counters do not matter. *)
Lemma count_update_stands t ot : stands_for t ot → stands_for (set_uncommitted (uncommitted t + 1) (set_unhashed (unhashed t + 1) t)) ot.
Proof. intros [He Hw Hc Hr]. by split. Qed.

Lemma Get_holds t m key :
  holds t m → Forall is_byte key → ∃ t', Get key t = (Ok (m !! key), t') ∧ holds t' m.
Proof.
  intros [Hcom (ot & [He Hw Hc Hrd] & Hm)] Hkey. unfold Get. rewrite (bind_Ok _ _ _ _ _ (usable_ok t Hcom)).
  unfold bind at 1, get at 1, id.
  destruct (get_sim (reader t) Hrd (key_fuel (keybytesToHex key)) false true false [] (root t) ot (keybytesToHex key) (trie_tracer t))
    as (n' & d & tr' & Hg & He' & Hd); [done|done|by apply keybytesToHex_terminated|apply key_enough|]. cbn [app length] in Hg.
  unfold bind at 1, traced at 1. rewrite Hg, (rl_get _ _ Hm key Hkey).
  assert (Hh : ∀ n, oexp (db_node (reader t)) false true [] n ot → holds (set_root n (set_tracer tr' t)) m).
  { intros n Hn. split; [done|]. exists ot. split; [|done]. split; [done|done| |done]. by eapply clean_deletes. }
  destruct d; eexists; (split; [reflexivity|]); [by apply Hh|]. by apply (Hh (root t)).
Qed.

Lemma insert_root_stands t ot k value :
  stands_for t ot → terminated k → value_ok value →
  ∃ t', insert_root k value t = (Ok tt, t') ∧ stands_for t' (Some (oinsert ot k value)) ∧ committed t' = committed t.
Proof.
  intros [He Hw Hc Hrd] Hk Hv. unfold insert_root, bind at 1, get at 1, id.
  destruct (insert_sim (reader t) Hrd (key_fuel k) false true false [] (root t) ot k value (trie_tracer t))
    as (d & n' & tr' & Hi & He' & _ & Hc' & _); [done|done|done|apply key_enough|done|].
  unfold bind at 1, traced at 1. rewrite Hi. eexists. split; [reflexivity|]. split; [|done].
  split; [exact He'|by apply oinsert_spec|done|done].
Qed.

Lemma delete_root_stands t ot k :
  stands_for t ot → terminated k →
  ∃ t', delete_root k t = (Ok tt, t') ∧ stands_for t' (odelete ot k) ∧ committed t' = committed t.
Proof.
  intros [He Hw Hc Hrd] Hk. unfold delete_root, bind at 1, get at 1, id.
  pose proof (odelete_spec ot k Hw Hk) as [Hw' _]. destruct ot as [t0|]; cbn [odelete] in *.
  - destruct (delete_sim (reader t) Hrd (key_fuel k) false true false [] (root t) t0 k (trie_tracer t))
      as (d & n' & tr' & Hi & _ & Hpost); [done|by apply Hw|done|apply key_enough|done|].
    unfold bind at 1, traced at 1. rewrite Hi. eexists. split; [reflexivity|]. split; [|done].
    destruct (tdelete t0 k) as [t''|]; [destruct Hpost as (_ & He' & _ & Hc')|destruct Hpost as (_ & He' & Hc')]; by split.
  - cbn in He. rewrite He. unfold key_fuel. rewrite Nat.add_succ_r. cbn. eexists. split; [reflexivity|]. split; [|done]. by split.
Qed.

(** The update of a usable trie counts, and inserts or deletes. *)
Lemma count_update_ok t : count_update t = (Ok tt, set_uncommitted (uncommitted t + 1) (set_unhashed (unhashed t + 1) t)).
Proof. done. Qed.

Lemma insert_root_holds t m key value :
  holds t m → Forall is_byte key → value_ok value →
  ∃ t', insert_root (keybytesToHex key) value t = (Ok tt, t') ∧ holds t' (<[key := value]> m).
Proof.
  intros [Hcom (ot & Hs & Hm)] Hkey Hv.
  destruct (insert_root_stands t ot (keybytesToHex key) value Hs (keybytesToHex_terminated _ Hkey) Hv) as (t' & Hi & Hs' & Hc').
  exists t'. split; [done|]. split; [congruence|]. eexists. split; [done|]. apply reads_like_insert; try done. by destruct Hs.
Qed.

Lemma delete_root_holds t m key :
  holds t m → Forall is_byte key →
  ∃ t', delete_root (keybytesToHex key) t = (Ok tt, t') ∧ holds t' (delete key m).
Proof.
  intros [Hcom (ot & Hs & Hm)] Hkey.
  destruct (delete_root_stands t ot (keybytesToHex key) Hs (keybytesToHex_terminated _ Hkey)) as (t' & Hi & Hs' & Hc').
  exists t'. split; [done|]. split; [congruence|]. eexists. split; [done|]. apply reads_like_delete; try done. by destruct Hs.
Qed.

Lemma count_update_holds t m :
  holds t m → holds (set_uncommitted (uncommitted t + 1) (set_unhashed (unhashed t + 1) t)) m.
Proof. intros [Hcom (ot & Hs & Hm)]. split; [done|]. exists ot. split; [by apply count_update_stands|done]. Qed.

Lemma Update_holds t m key value :
  holds t m → Forall is_byte key → Forall is_byte value →
  ∃ t', Update key value t = (Ok tt, t') ∧ holds t' (match value with [] => delete key m | _ => <[key := value]> m end).
Proof.
  intros Hh Hkey Hv. unfold Update. rewrite (bind_Ok _ _ _ _ _ (usable_ok t (proj1 Hh))).
  unfold update. rewrite (bind_Ok _ _ _ _ _ (count_update_ok t)). apply count_update_holds in Hh.
  destruct value as [|x value].
  - by apply delete_root_holds.
  - assert (len (x :: value) =? 0 = false) as -> by (rewrite len_cons; pose proof (len_nonneg value); apply Z.eqb_neq; lia).
    by apply insert_root_holds.
Qed.

Lemma Delete_holds t m key :
  holds t m → Forall is_byte key → ∃ t', Delete key t = (Ok tt, t') ∧ holds t' (delete key m).
Proof.
  intros Hh Hkey. unfold Delete. rewrite (bind_Ok _ _ _ _ _ (usable_ok t (proj1 Hh))).
  rewrite (bind_Ok _ _ _ _ _ (count_update_ok t)). apply delete_root_holds; [|done]. by apply count_update_holds.
Qed.

(** The root hash is that of the tree, and hashing keeps it. *)
Lemma hashRoot_stands t ot :
  stands_for t ot →
  ∃ n, hashRoot t = (hashNode (hash_of ot), n, if is_nil (root t) then t else set_unhashed 0 t) ∧
    oexp (db_node (reader t)) true true [] n ot.
Proof.
  intros [He Hw Hc Hrd]. unfold hashRoot. destruct ot as [t0|]; cbn in He.
  - rewrite (exp_not_nil _ _ _ _ _ _ He). destruct (hash_spec _ _ _ _ _ _ _ He (Hw _ eq_refl)) as (_ & He' & _ & Hr).
    destruct (hash (root t) true) as [hashed cached] eqn:Hh. cbn in He', Hr. rewrite Hr by (done || by apply Hw). by exists cached.
  - rewrite He. by exists nilNode.
Qed.

Lemma hash_of_32 ot : BytesToHash (hash_of ot) = hash_of ot.
Proof. destruct ot; [apply BytesToHash_32, keccak_len|done]. Qed.

Lemma Hash_stands t ot :
  stands_for t ot →
  ∃ t', Hash t = (Ok (hash_of ot), t') ∧ oexp (db_node (reader t')) true true [] (root t') ot ∧ stands_for t' ot ∧
    committed t' = committed t ∧ owner t' = owner t ∧ reader t' = reader t ∧ trie_tracer t' = trie_tracer t.
Proof.
  intros Hs. destruct (hashRoot_stands t ot Hs) as (n & Hh & He). unfold Hash. rewrite Hh, hash_of_32. destruct Hs as [_ Hw Hc Hrd].
  eexists. split; [reflexivity|]. set (t0 := if is_nil (root t) then t else set_unhashed 0 t).
  assert (Ht0 : committed t0 = committed t ∧ owner t0 = owner t ∧ reader t0 = reader t ∧ trie_tracer t0 = trie_tracer t)
    by (unfold t0; by destruct (is_nil (root t))).
  destruct Ht0 as (H1 & H2 & H3 & H4). cbn. rewrite H3. split; [done|]. split; [|done]. split; cbn; rewrite ?H3, ?H4; try done.
  destruct ot as [t1|]; [by apply exp_mono|done].
Qed.

Lemma Hash_holds t m ot :
  committed t = false → stands_for t ot → reads_like ot m → ∃ t', Hash t = (Ok (hash_of ot), t') ∧ holds t' m.
Proof.
  intros Hcom Hs Hm. destruct (Hash_stands t ot Hs) as (t' & Hh & _ & Hs' & Hc' & _). exists t'. split; [done|].
  split; [congruence|]. by exists ot.
Qed.
End TrieMap.
