(* ===== verification/TrieCommit.v ===== *)
(** * Committing a trie

    The committer of parallelizable-client-go-ethereum/trie/committer.go stores
    every dirty node of a hashed tree under its path, and nothing else, so that a
    database that takes the node set holds the tree at its new root hash. *)

From S2P Require Import Prelude Rlp Crypto TrieKeys TrieSpec TrieNode TrieExpand Trie TrieSim StateError.

Open Scope eigen_scope.

Section Committer.
Context `{Keccak} (node_at : bytes → bytes → option bytes) (access : gmap bytes bytes) (collectLeaf : bool).

#[local] Abbreviation exp := (TrieExpand.exp node_at).
#[local] Abbreviation below := (TrieExpand.below node_at).

(** ** The subtrees of a minimal tree *)

Lemma sub_at_nil e t q u : wf e t → sub_at t q u → q = [] → u = t.
Proof.
  intros Hw Hs Hq. inversion Hs; subst; try done.
  assert (e = false) as -> by (by inversion Hw). apply wf_short_ne in Hw. by destruct k.
Qed.

Lemma sub_at_wf e t q u : wf e t → sub_at t q u → wf false u.
Proof.
  intros Hw Hs. revert e Hw. induction Hs as [k t|ch|k t q u Hs IH|ch i c q u Hi Hs IH]; intros e Hw.
  - assert (e = false) as -> by (by inversion Hw). done.
  - assert (e = false) as -> by (by inversion Hw). done.
  - inversion Hw; subst; [by inversion Hs|by eapply IH].
  - inversion Hw as [| | |? Hl Hc _]; subst. by eapply IH, Hc.
Qed.

Lemma below_sub e p t q u :
  wf e t → below p t → sub_at t q u → (q = [] ∧ u = t) ∨ here node_at (p ++ q) u.
Proof.
  intros Hw Hb Hs. revert e p Hw Hb. induction Hs as [k t|ch|k t q u Hs IH|ch i c q u Hi Hs IH]; intros e p Hw Hb; [by left|by left|right..].
  - inversion Hb as [|? ? ? |? ? ? Hh Hb'|]; subst; [by inversion Hs|]. inversion Hw as [| |? ? ? ? Hw'|]; subst.
    destruct (IH _ _ Hw' Hb') as [[-> ->]|Hd]; [by rewrite app_nil_r|by rewrite app_assoc].
  - inversion Hb as [| | |? ? Hh Hb']; subst. inversion Hw as [| | |? Hl Hc _]; subst.
    change (Z.of_nat i :: q) with ([Z.of_nat i] ++ q). rewrite app_assoc.
    destruct (IH _ _ (Hc _ _ Hi) (Hb' _ _ Hi)) as [[-> ->]|Hd]; [|done]. rewrite app_nil_r. apply (Hh _ _ Hi).
    pose proof (lookup_lt_Some _ _ _ Hi). specialize (Hc _ _ Hi). destruct (Nat.eqb_spec i 16); [|lia]. inversion Hc; subst. inversion Hs.
Qed.

Lemma below_intro e p t :
  wf e t → (∀ q u, sub_at t q u → q ≠ [] → here node_at (p ++ q) u) → below p t.
Proof.
  intros Hw. revert p. induction Hw as [v Hv|k v Hk Hv|k ch Hk Hne Hw IH|ch Hl Hw IH H2]; intros p Hs.
  - constructor.
  - constructor.
  - constructor.
    + rewrite <- (app_nil_r k) at 1. apply Hs; [|by destruct k]. constructor. constructor.
    + apply IH. intros q u Hq Hqn. rewrite <- app_assoc. apply Hs; [by constructor|by destruct k].
  - constructor.
    + intros i c Hi Hi16. apply Hs; [|done]. econstructor; [done|]. specialize (Hw _ _ Hi).
      destruct (Nat.eqb_spec i 16); [lia|]. inversion Hw; constructor.
    + intros i c Hi. apply (IH _ _ Hi). intros q u Hq Hqn. rewrite <- app_assoc. apply Hs; [by econstructor|done].
Qed.

(** ** What the node set must hold *)

Definition entry (u : tree) : Node := MkNode (keccak (enc u)) (enc u).

(** No node of the tree has an entry. *)
Definition absent (p : bytes) (t : tree) (nodes : NodeSet) : Prop := ∀ q u, sub_at t q u → Nodes nodes !! (p ++ q) = None.

(** Every node that its parent does not embed is new in the set, or in the
    database already. *)
Definition stored (b : bool) (p : bytes) (t : tree) (nodes : NodeSet) : Prop :=
  ∀ q u, sub_at t q u → 32 <= len (enc u) ∨ (b = true ∧ q = []) →
    Nodes nodes !! (p ++ q) = Some (entry u) ∨
    (Nodes nodes !! (p ++ q) = None ∧ node_at (p ++ q) (keccak (enc u)) = Some (enc u)).

Definition only_under (p : bytes) (nodes nodes' : NodeSet) : Prop :=
  ∀ q, ¬ p `prefix_of` q → Nodes nodes' !! q = Nodes nodes !! q.

(** What takes the node's place in its parent. *)
Definition replaced (b : bool) (t : tree) (r : node) : Prop :=
  (b = false → node_item r = ref_item t) ∧ (b = true → r = hashNode (keccak (enc t))).

Definition committed_as (b : bool) (p : bytes) (t : tree) (nodes : NodeSet) (res : option (node * NodeSet)) : Prop :=
  ∃ r nodes', res = Some (r, nodes') ∧ replaced b t r ∧ only_under p nodes nodes' ∧ stored b p t nodes'.

Lemma only_under_refl p nodes : only_under p nodes nodes.
Proof. by intros q. Qed.

Lemma only_under_trans p n1 n2 n3 : only_under p n1 n2 → only_under p n2 n3 → only_under p n1 n3.
Proof. intros H1 H2 q Hq. rewrite H2, H1; done. Qed.

Lemma only_under_app p q n1 n2 : only_under (p ++ q) n1 n2 → only_under p n1 n2.
Proof. intros Hu r Hr. apply Hu. intros [s ->]. apply Hr. rewrite <- app_assoc. by eexists. Qed.

Lemma replaced_hash b t :
  wf false t → (32 <= len (enc t) ∨ b = true) → replaced b t (hashNode (keccak (enc t))).
Proof.
  intros Hw Hl. split; [|done]. intros ->. rewrite ref_item_node by done. destruct Hl as [Hl|]; [|done].
  destruct (Z.ltb_spec (len (enc t)) 32); [lia|done].
Qed.

(** A tree that the database holds needs no entry. *)
Lemma stored_clean b p t nodes :
  wf false t → node_at p (keccak (enc t)) = Some (enc t) → below p t → absent p t nodes → stored b p t nodes.
Proof.
  intros Hw Hdb Hb Ha q u Hs Hl. right. split; [by apply (Ha q u)|].
  destruct (decide (q = [])) as [->|Hq]; [rewrite (sub_at_nil _ _ _ _ Hw Hs eq_refl), app_nil_r; exact Hdb|].
  destruct (below_sub _ _ _ _ _ Hw Hb Hs) as [[-> _]|Hh]; [done|]. apply Hh. destruct Hl as [Hl|[_ ->]]; done.
Qed.

Lemma Nodes_AddNode q n nodes : Nodes (AddNode q n nodes) = <[q := n]> (Nodes nodes).
Proof. unfold AddNode. by destruct (IsDeleted n). Qed.

(** The root of the tree is stored or stays embedded. *)
Lemma store_spec b p t n fl nodes :
  wf false t → node_item n = item_of t → (cache n).1 = nf_hash fl → flag_ok node_at true b p fl t →
  ∃ r nodes', store access collectLeaf p n nodes = (r, nodes') ∧ replaced b t r ∧
    (∀ q, q ≠ p → Nodes nodes' !! q = Nodes nodes !! q) ∧
    (32 <= len (enc t) ∨ b = true → Nodes nodes' !! p = Some (entry t)).
Proof.
  intros Hw Hi Hc Hfl. unfold store. rewrite Hc. unfold flag_ok in Hfl. destruct (nf_hash fl) as [h|].
  - destruct Hfl as (-> & Hl & _). rewrite BytesToHash_32 by apply keccak_len. rewrite encodedBytes_item, Hi.
    set (nodes1 := AddNode p _ nodes).
    assert (Hn : ∀ leaf, Nodes (match n with shortNode _ (valueNode val) _ => if collectLeaf then AddLeaf leaf val nodes1 else nodes1 | _ => nodes1 end) = Nodes nodes1)
      by (intros leaf; repeat case_match; done).
    eexists _, _. split; [reflexivity|]. split; [by apply replaced_hash|]. rewrite Hn. unfold nodes1. rewrite Nodes_AddNode.
    split; [intros q Hq; by rewrite lookup_insert_ne|intros _; by rewrite lookup_insert_eq].
  - destruct Hfl as [Hl ->]; [by left|]. eexists _, _. split; [reflexivity|]. split.
    { split; [|done]. intros _. rewrite ref_item_node by done. by destruct (Z.ltb_spec (len (enc t)) 32); [|lia]. }
    split; [|intros [?|?]; [lia|done]]. intros q Hq. case_bool_decide; [|done]. by rewrite Nodes_AddNode, lookup_insert_ne.
Qed.

(** ** Children *)

(** The children from the place [i] on. *)
Definition absents (p : bytes) (i : nat) (ch : list (option tree)) (nodes : NodeSet) : Prop :=
  ∀ j c, ch !! j = Some (Some c) → absent (p ++ [Z.of_nat (i + j)]) c nodes.

Definition only_children (p : bytes) (i : nat) (nodes nodes' : NodeSet) : Prop :=
  ∀ q, (∀ j, (i <= j)%nat → ¬ p ++ [Z.of_nat j] `prefix_of` q) → Nodes nodes' !! q = Nodes nodes !! q.

Lemma absent_only p p' t n1 n2 :
  only_under p n1 n2 → (∀ r, ¬ p `prefix_of` p' ++ r) → absent p' t n1 → absent p' t n2.
Proof. intros Hu Hp Ha q u Hs. rewrite Hu by apply Hp. by apply (Ha q u). Qed.

Lemma stored_same b p t n1 n2 :
  (∀ q, p `prefix_of` q → Nodes n2 !! q = Nodes n1 !! q) → stored b p t n1 → stored b p t n2.
Proof. intros Hn Hs q u Hq Hl. rewrite Hn by (by eexists). by apply Hs. Qed.

Section Kids.
Context (rec : bytes → node → NodeSet → option (node * NodeSet)).

(** One child: the seventeenth, and a hash, stay as they are. *)
Lemma commit_child p i n c nodes :
  (∀ c, exp true false (p ++ [Z.of_nat i]) n c → wf false c → absent (p ++ [Z.of_nat i]) c nodes →
     is_hash n = false → committed_as false (p ++ [Z.of_nat i]) c nodes (rec (p ++ [Z.of_nat i]) n nodes)) →
  (∀ t, c = Some t → wf (i =? 16)%nat t ∧ exp true false (p ++ [Z.of_nat i]) n t) → (c = None → n = nilNode) → (i < 17)%nat →
  (∀ t, c = Some t → absent (p ++ [Z.of_nat i]) t nodes) →
  ∃ r nodes',
    (if (i <? 16)%nat then
       match n with
       | nilNode => Some (nilNode, nodes)
       | hashNode h => Some (hashNode h, nodes)
       | _ => rec (p ++ [Z.of_nat i]) n nodes
       end
     else Some (n, nodes)) = Some (r, nodes') ∧ node_item r = child_item c ∧
    only_under (p ++ [Z.of_nat i]) nodes nodes' ∧ (∀ t, c = Some t → stored false (p ++ [Z.of_nat i]) t nodes').
Proof.
  intros Hrec Hsome Hnone Hi Ha. destruct c as [t|].
  2: { rewrite Hnone by done. exists nilNode, nodes. split; [by destruct (i <? 16)%nat|]. split; [done|]. by split; [apply only_under_refl|]. }
  destruct (Hsome t eq_refl) as [Hw He]. destruct (Nat.ltb_spec i 16).
  - destruct (Nat.eqb_spec i 16); [lia|]. destruct (is_hash n) eqn:Hh.
    + destruct n; try done. exists (hashNode h), nodes. split; [done|]. inversion He as [| | |? ? ? ? Hwf Hl Hdb Hb]; subst.
      split; [by apply (replaced_hash false t)|]. split; [apply only_under_refl|]. intros ? [= <-]. apply stored_clean; auto.
    + destruct (Hrec t He Hw (Ha _ eq_refl) eq_refl) as (r & nodes' & Hr & [Hit _] & Hu & Hs). exists r, nodes'.
      pose proof (exp_not_nil _ _ _ _ _ _ He). split; [by destruct n|]. split; [by apply Hit|]. split; [done|]. by intros ? [= <-].
  - assert (i = 16%nat) as -> by lia. inversion Hw; subst. apply exp_Leaf in He as ->. exists (valueNode v), nodes.
    split; [done|]. split; [done|]. split; [apply only_under_refl|]. intros ? [= <-] q u Hs. inversion Hs.
Qed.

Lemma commitChildren_spec p i ns ch nodes :
  (∀ j n c nodes, n ∈ ns → exp true false (p ++ [Z.of_nat j]) n c → wf false c → absent (p ++ [Z.of_nat j]) c nodes →
     is_hash n = false → committed_as false (p ++ [Z.of_nat j]) c nodes (rec (p ++ [Z.of_nat j]) n nodes)) →
  length ns = length ch → (i + length ch <= 17)%nat →
  (∀ j n c, ns !! j = Some n → ch !! j = Some c →
     (c = None → n = nilNode) ∧ (∀ t, c = Some t → wf (i + j =? 16)%nat t ∧ exp true false (p ++ [Z.of_nat (i + j)]) n t)) →
  absents p i ch nodes →
  ∃ kids nodes', commitChildren rec p i ns nodes = Some (kids, nodes') ∧ map node_item kids = map child_item ch ∧
    only_children p i nodes nodes' ∧ (∀ j c, ch !! j = Some (Some c) → stored false (p ++ [Z.of_nat (i + j)]) c nodes').
Proof.
  revert i ch nodes. induction ns as [|n ns IH]; intros i [|c ch] nodes Hrec Hl Hi Hc Ha; try done.
  { exists [], nodes. split; [done|]. split; [done|]. split; [by intros q|done]. }
  cbn [length] in Hl, Hi. destruct (Hc 0%nat n c eq_refl eq_refl) as [Hnone Hsome]. rewrite Nat.add_0_r in Hsome.
  destruct (commit_child p i n c nodes) as (r & nodes1 & Hr & Hit & Hu & Hst); [intros; apply Hrec; [left|done..]|done|done|lia| |].
  { intros t ->. specialize (Ha 0%nat t eq_refl). by rewrite Nat.add_0_r in Ha. }
  cbn [commitChildren]. rewrite Hr. cbn [mbind option_bind].
  destruct (IH (S i) ch nodes1) as (kids & nodes2 & Hk & Hits & Hu2 & Hst2);
    [intros; apply Hrec; [by right|done..]|lia|lia| | |].
  { intros j m d Hm Hd. specialize (Hc (S j) m d Hm Hd). by rewrite Nat.add_succ_r in Hc. }
  { intros j d Hd. eapply absent_only; [exact Hu| |].
    - intros s. apply prefix_sibling. lia.
    - specialize (Ha (S j) d Hd). by rewrite Nat.add_succ_r in Ha. }
  rewrite Hk. cbn [mbind option_bind]. exists (r :: kids), nodes2. split; [done|]. split; [cbn; by rewrite Hit, Hits|]. split.
  - intros q Hq. rewrite Hu2 by (intros j Hj; apply Hq; lia). apply Hu. apply Hq. lia.
  - intros [|j] d Hd.
    + rewrite Nat.add_0_r. injection Hd as ->. eapply stored_same; [|by apply Hst]. intros q [s ->]. apply Hu2.
      intros j Hj. apply prefix_sibling. lia.
    + specialize (Hst2 j d Hd). by rewrite Nat.add_succ_r.
Qed.
End Kids.

(** ** The commit *)

(** A node and what is stored under it. *)
Lemma stored_node b p t nodes nodes' :
  (∀ q, q ≠ p → Nodes nodes' !! q = Nodes nodes !! q) → wf false t →
  (32 <= len (enc t) ∨ b = true → Nodes nodes' !! p = Some (entry t)) →
  (∀ q u, sub_at t q u → q ≠ [] → 32 <= len (enc u) →
     Nodes nodes !! (p ++ q) = Some (entry u) ∨
     (Nodes nodes !! (p ++ q) = None ∧ node_at (p ++ q) (keccak (enc u)) = Some (enc u))) →
  stored b p t nodes'.
Proof.
  intros Hn Hw Hp Hs q u Hq Hl. destruct (decide (q = [])) as [->|Hne].
  - rewrite (sub_at_nil _ _ _ _ Hw Hq eq_refl) in *. rewrite app_nil_r. left. apply Hp. destruct Hl as [?|[? _]]; auto.
  - rewrite Hn by (by apply app_longer). apply (Hs q u Hq Hne). destruct Hl as [?|[_ ?]]; done.
Qed.

(** The commit of a node whose hash is clean. *)
Lemma commit_clean b p n t fl nodes :
  wf false t → flag_ok node_at true b p fl t → absent p t nodes → is_hash n = false →
  (∃ h, nf_hash fl = Some h ∧ nf_dirty fl = false ∧ cache n = (Some h, false)) →
  committed_as b p t nodes (commit access collectLeaf p n nodes).
Proof.
  intros Hw Hfl Ha Hn (h & Hh & Hd & Hc). unfold flag_ok in Hfl. rewrite Hh in Hfl. destruct Hfl as (-> & Hl & Hdb).
  destruct (Hdb Hd) as [Hdb' Hb]. exists (hashNode (keccak (enc t))), nodes.
  split; [by destruct n; cbn [commit]; rewrite Hc|]. split; [by apply replaced_hash|].
  split; [apply only_under_refl|by apply stored_clean].
Qed.

Lemma commit_short b p k n fl t nodes v' nodes1 :
  wf false (Short k t) → flag_ok node_at true b p fl (Short k t) → absent p (Short k t) nodes →
  (match n with fullNode _ _ => commit access collectLeaf (p ++ k) n nodes | _ => Some (n, nodes) end) = Some (v', nodes1) →
  node_item v' = ref_item t → only_under (p ++ k) nodes nodes1 → ((∃ q u, sub_at t q u) → stored false (p ++ k) t nodes1) →
  committed_as b p (Short k t) nodes (commit access collectLeaf p (shortNode k n fl) nodes).
Proof.
  intros Hw Hfl Ha Hc Hi Hu Hs.
  assert (Hdirty : committed_as b p (Short k t) nodes (Some (store access collectLeaf p (shortNode (hexToCompact k) v' fl) nodes1))).
  { destruct (store_spec b p (Short k t) (shortNode (hexToCompact k) v' fl) fl nodes1 Hw) as (r & nodes2 & -> & Hr & Hn2 & Hp2);
      [cbn; by rewrite Hi|done|done|].
    exists r, nodes2. split; [done|]. split; [done|]. split.
    - intros q Hq. rewrite Hn2 by (intros ->; apply Hq; exists []; by rewrite app_nil_r). by apply (only_under_app _ _ _ _ Hu q Hq).
    - eapply stored_node; [exact Hn2|done|done|]. intros q u Hq Hne Hlu. inversion Hq; subst; [done|]. rewrite app_assoc.
      apply Hs; [by eexists _, _|done|by left]. }
  destruct (nf_hash fl) as [h|] eqn:Hh, (nf_dirty fl) eqn:Hd.
  2: { eapply commit_clean; [done|done|done|done|]. exists h. cbn. by rewrite Hh, Hd. }
  all: cbn [commit cache]; rewrite Hh, ?Hd, Hc; exact Hdirty.
Qed.

Lemma commit_full b p ns fl ch nodes kids nodes1 :
  wf false (Full ch) → flag_ok node_at true b p fl (Full ch) → absent p (Full ch) nodes →
  commitChildren (commit access collectLeaf) p 0 ns nodes = Some (kids, nodes1) →
  map node_item kids = map child_item ch → only_children p 0 nodes nodes1 →
  (∀ j c, ch !! j = Some (Some c) → stored false (p ++ [Z.of_nat j]) c nodes1) →
  committed_as b p (Full ch) nodes (commit access collectLeaf p (fullNode ns fl) nodes).
Proof.
  intros Hw Hfl Ha Hc Hi Hu Hs.
  assert (Hdirty : committed_as b p (Full ch) nodes (Some (store access collectLeaf p (fullNode kids fl) nodes1))).
  { destruct (store_spec b p (Full ch) (fullNode kids fl) fl nodes1 Hw) as (r & nodes2 & -> & Hr & Hn2 & Hp2); [|done|done|].
    { cbn [node_item item_of]. by rewrite Hi. }
    exists r, nodes2. split; [done|]. split; [done|]. split.
    - intros q Hq. rewrite Hn2 by (intros ->; apply Hq; exists []; by rewrite app_nil_r). apply Hu.
      intros j _ [r' ->]. apply Hq. rewrite <- app_assoc. by eexists.
    - eapply stored_node; [exact Hn2|done|done|]. intros q u Hq Hne Hlu. inversion Hq; subst; [done|].
      change (Z.of_nat i :: q0) with ([Z.of_nat i] ++ q0). rewrite app_assoc. eapply Hs; [done|done|by left]. }
  destruct (nf_hash fl) as [h|] eqn:Hh, (nf_dirty fl) eqn:Hd.
  2: { eapply commit_clean; [done|done|done|done|]. exists h. cbn. by rewrite Hh, Hd. }
  all: cbn [commit cache]; rewrite Hh, ?Hd, Hc; exact Hdirty.
Qed.

(** A hashed tree is stored in full. *)
Lemma commit_spec n : ∀ b p t nodes,
  exp true b p n t → wf false t → absent p t nodes → committed_as b p t nodes (commit access collectLeaf p n nodes).
Proof.
  induction n as [|ns fl IH|k n fl IH|h|v] using node_ind'; intros b p t nodes He Hw Ha;
    inversion He as [|? ? ? ? ? ? t' Hsub Hfl|? ? ? ? ? ch Hl Hnone Hch Hfl|? ? ? ? Hwf Hlen Hdb Hb]; subst.
  - destruct (wf_full_false _ _ Hw) as [_ Hl17]. inversion Hw as [| | |? _ Hc _]; subst. rewrite Forall_forall in IH.
    destruct (commitChildren_spec (commit access collectLeaf) p 0 ns ch nodes) as (kids & nodes1 & Hk & Hi & Hu & Hs).
    + intros j n c nodes' Hin Hec Hwc Hac _. by apply IH.
    + done.
    + lia.
    + intros j n c Hn Hcj. split; [intros ->; apply Hnone in Hcj; by simplify_eq|]. intros t ->. split; [by apply Hc|]. by eapply Hch.
    + intros j c Hj q u Hq. rewrite <- app_assoc. eapply Ha. by econstructor.
    + by eapply commit_full.
  - assert (Ha' : absent (p ++ k) t' nodes).
    { intros q u Hs. rewrite <- app_assoc. eapply Ha. by constructor. }
    inversion Hw as [|? v Hk Hv|? ch Hk Hne Hf|]; subst.
    + apply exp_Leaf in Hsub as ->. apply (commit_short _ _ _ _ _ _ _ (valueNode v) nodes); try done.
      intros (q & u & Hs) ? ? Hq. inversion Hq.
    + inversion Hsub as [| |? ? ? ns fl' ? Hl Hnone Hc Hfl'|? ? ? ? Hwf Hl Hdb Hb]; subst.
      * destruct (IH false (p ++ k) (Full ch) nodes Hsub Hf Ha') as (r & nodes1 & Hr & [Hi _] & Hu & Hs).
        apply (commit_short _ _ _ _ _ _ _ r nodes1); try done; by apply Hi.
      * apply (commit_short _ _ _ _ _ _ _ (hashNode (keccak (enc (Full ch)))) nodes); try done.
        all: first [by apply (replaced_hash false (Full ch)) | intros _; by apply stored_clean].
  - exists (hashNode (keccak (enc t))), nodes. split; [done|]. split; [by apply replaced_hash|].
    split; [apply only_under_refl|by apply stored_clean].
  - inversion Hw.
Qed.
End Committer.

Section CommitTrie.
Context `{Keccak}.

(** What a database shows once it has taken a node set: the new nodes, and at the
    paths that the set does not name what it showed before. *)
Definition takes (db : bytes → bytes → option bytes) (set : option NodeSet) (db' : bytes → bytes → option bytes) : Prop :=
  match set with
  | None => ∀ p h b, db p h = Some b → db' p h = Some b
  | Some nodes =>
      (∀ p n, Nodes nodes !! p = Some n → IsDeleted n = false → db' p (n_Hash n) = Some (Blob n)) ∧
      (∀ p h b, Nodes nodes !! p = None → db p h = Some b → db' p h = Some b)
  end.

(** A database that holds a tree at its root hash. *)
Definition kept (db : bytes → bytes → option bytes) (ot : option tree) : Prop :=
  ∀ t, ot = Some t → db [] (keccak (enc t)) = Some (enc t) ∧ below db [] t.

Lemma entry_lives u : IsDeleted (entry u) = false.
Proof.
  unfold IsDeleted, entry. cbn [Blob]. apply Z.eqb_neq. unfold enc. pose proof (encode_nonempty (item_of u)).
  destruct (encode (item_of u)); [done|]. rewrite len_cons. pose proof (len_nonneg l). lia.
Qed.

Lemma kept_stored db nodes db' t :
  wf false t → stored db true [] t nodes → takes db (Some nodes) db' → kept db' (Some t).
Proof.
  intros Hw Hs [Hnew Hold] ? [= <-].
  assert (Hat : ∀ q u, sub_at t q u → 32 <= len (enc u) ∨ (true = true ∧ q = []) → db' q (keccak (enc u)) = Some (enc u)).
  { intros q u Hq Hl. destruct (Hs q u Hq Hl) as [He|[Hn Hd]]; [|by apply Hold].
    apply (Hnew q (entry u) He), entry_lives. }
  split; [apply Hat; [|auto]; inversion Hw; constructor|]. eapply below_intro; [done|]. intros q u Hq Hqn Hl. apply Hat; auto.
Qed.

Lemma below_takes db db' e p t :
  wf e t → (∀ p h b, db p h = Some b → db' p h = Some b) → below db p t → below db' p t.
Proof.
  intros Hw Hdb Hb. eapply below_intro; [done|]. intros q u Hq Hqn Hl.
  destruct (below_sub _ _ _ _ _ _ Hw Hb Hq) as [[? _]|Hh]; [done|]. by apply Hdb, Hh.
Qed.

(** *** The deletions *)

Lemma Nodes_add_deleted paths nodes q :
  q ∉ paths → Nodes (add_deleted paths nodes) !! q = Nodes nodes !! q.
Proof.
  unfold add_deleted. revert nodes. induction paths as [|p paths IH]; intros nodes Hq; [done|]. cbn [foldl].
  apply not_elem_of_cons in Hq as [Hne Hq]. rewrite IH by done. by rewrite Nodes_AddNode, lookup_insert_ne.
Qed.

Lemma absent_deleted tr ow t : clean tr [] (Some t) → absent [] t (add_deleted (deletedNodes tr) (NewNodeSet ow)).
Proof.
  intros Hc q u Hq. rewrite Nodes_add_deleted; [by cbn; rewrite lookup_empty|]. cbn. unfold deletedNodes.
  rewrite list_elem_of_filter, elem_of_elements. intros [_ Hd]. apply (Hc q u); [by apply osub_Some|done].
Qed.

(** *** Loading a trie *)

Lemma New_kept sr ow ot m db rd :
  newTrieReader sr ow db = Ok rd → reader_ok rd → owf ot → reads_like ot m → kept (db_node rd) ot →
  hash_of ot ≠ zero_hash → (hash_of ot = EmptyRootHash → ot = None) →
  ∃ t, New sr ow (hash_of ot) db = Ok t ∧ holds t m.
Proof.
  intros Hnew Hok Hw Hm Hk Hz He. unfold New. rewrite Hnew. cbn [result_bind]. rewrite bool_decide_false by done. cbn [negb andb].
  case_bool_decide as Hempty; cbn [negb].
  - rewrite (He Hempty) in *. eexists. split; [done|]. split; [done|]. exists None. split; [|done]. by split.
  - destruct ot as [t|]; [|done]. cbn [hash_of] in *. destruct (Hk t eq_refl) as [Hdb Hb].
    assert (Hexp : exp (db_node rd) false true [] (hashNode (keccak (enc t))) t) by (constructor; auto).
    destruct (resolve_hash rd Hok _ _ _ _ _ newTracer Hexp) as (n & tr & Hr & Hen & _ & Hd). unfold traced. cbn [trie_tracer].
    rewrite Hr. cbn [result_bind]. eexists. split; [done|]. split; [done|]. exists (Some t). split; [|done]. split; cbn.
    + by apply exp_mono.
    + done.
    + eapply clean_deletes; [exact Hd|]. intros q u _ Hin. cbn in Hin. set_solver.
    + done.
Qed.

(** *** The commit *)

Lemma Commit_kept t ot cl :
  stands_for t ot →
  ∃ set t', Commit cl t = (Ok (hash_of ot, set), t') ∧ committed t' = true ∧
    ∀ db', takes (db_node (reader t)) set db' → kept db' ot.
Proof.
  intros Hs. pose proof Hs as [He Hw Hc Hrd]. destruct ot as [t0|]; cbn [oexp] in He.
  2: { unfold Commit, bind, get, id. cbn in He. rewrite He. cbn [is_nil]. destruct (length (deletedNodes (trie_tracer t)) =? 0)%nat;
         eexists _, _; (split; [reflexivity|]); (split; [done|]); by intros db' _ ? [=]. }
  unfold Commit, bind, get, id. rewrite (exp_not_nil _ _ _ _ _ _ He).
  destruct (Hash_stands t (Some t0) Hs) as (t1 & Hh & Het & _ & Hcom & Hown & Hr & Htr). rewrite Hh. cbn [oexp hash_of] in *.
  rewrite Hr in Het. pose proof (Hw _ eq_refl) as Hw0.
  assert (Hdirty : cache (root t1) = (None, true) ∨ ∃ h d, cache (root t1) = (Some h, d) ∧
    (d = false → db_node (reader t) [] (keccak (enc t0)) = Some (enc t0) ∧ below (db_node (reader t)) [] t0)).
  { assert (Hflag : ∀ fl, flag_ok (db_node (reader t)) true true [] fl t0 → ∃ h d, (nf_hash fl, nf_dirty fl) = (Some h, d) ∧
      (d = false → db_node (reader t) [] (keccak (enc t0)) = Some (enc t0) ∧ below (db_node (reader t)) [] t0)).
    { intros fl Hfl. unfold flag_ok in Hfl. destruct (nf_hash fl) as [h|]; [|by destruct Hfl as [_ ?]; [left|]].
      destruct Hfl as (-> & _ & Hdb). by eexists _, _. }
    inversion Het; subst; [by left|right; by apply Hflag|right; by apply Hflag|by left]. }
  destruct (cache (root t1)) as [hn d] eqn:Hca. destruct d; cbn [negb].
  - destruct (commit_spec (db_node (reader t)) (accessList (trie_tracer t1)) cl (root t1) true [] t0
      (add_deleted (deletedNodes (trie_tracer t1)) (NewNodeSet (owner t1))) Het Hw0) as (r & nodes & Hcm & [_ Hrep] & _ & Hst).
    { rewrite Htr. by apply absent_deleted. }
    rewrite Hcm, (Hrep eq_refl). unfold modify, ret. eexists _, _. split; [reflexivity|]. split; [done|].
    intros db' Hdb'. by eapply kept_stored.
  - destruct Hdirty as [[=]|(h & d & [= -> <-] & Hdb)]. destruct (Hdb eq_refl) as [Hd0 Hb0].
    unfold modify, ret. eexists _, _. split; [reflexivity|]. split; [done|]. intros db' Hdb' ? [= <-]. split; [by apply Hdb'|].
    by eapply below_takes.
Qed.
End CommitTrie.

(** * What a root hash says of a trie

    The encoding of a tree determines it, so that two trees with one root hash
    are the same, or a node of the one and a node of the other have different
    encodings and one hash.
    The argument needs the encodings to have a length, which a bound on the keys
    and values gives. *)

Open Scope eigen_scope.

Section TrieHash.
Context `{Keccak}.

(** The encodings of the nodes of a tree. *)
Definition blob_of (t : tree) (x : bytes) : Prop := ∃ q u, sub_at t q u ∧ x = enc u.

(** A string of the one kind and one of the other that the hash function does not
    tell apart. *)
Definition collision (X Y : bytes → Prop) : Prop := ∃ x y, X x ∧ Y y ∧ x ≠ y ∧ keccak x = keccak y.

Lemma collision_mono (X Y X' Y' : bytes → Prop) : (∀ x, X x → X' x) → (∀ y, Y y → Y' y) → collision X Y → collision X' Y'.
Proof. intros HX HY (x & y & Hx & Hy & Hne & He). exists x, y. auto. Qed.

Lemma blob_here t : wf false t → blob_of t (enc t).
Proof. intros Hw. exists [], t. split; [|done]. inversion Hw; constructor. Qed.

Lemma blob_short k t x : blob_of t x → blob_of (Short k t) x.
Proof. intros (q & u & Hq & ->). exists (k ++ q), u. split; [by constructor|done]. Qed.

Lemma blob_child ch i c x : ch !! i = Some (Some c) → blob_of c x → blob_of (Full ch) x.
Proof. intros Hi (q & u & Hq & ->). eexists _, u. split; [by eapply sub_child|done]. Qed.

(** ** Trees with the same item *)

Lemma hexToCompact_inj k k' : hexkey k → hexkey k' → hexToCompact k = hexToCompact k' → k = k'.
Proof. intros Hk Hk' He. by rewrite <- (compactToHex_hexToCompact_core k Hk), He, compactToHex_hexToCompact_core. Qed.

(** Every encoding in the tree has a length. *)
Definition sized (t : tree) : Prop := ∀ q u, sub_at t q u → len (enc u) < two64.

Lemma ref_item_inj t t' :
  wf false t → wf false t' → len (enc t) < two64 → ref_item t = ref_item t' →
  item_of t = item_of t' ∨ collision (blob_of t) (blob_of t').
Proof.
  intros Hw Hw' Hl He. rewrite !ref_item_node in He by done.
  destruct (item_of_list t Hw) as (l & Hi & _). destruct (item_of_list t' Hw') as (l' & Hi' & _). rewrite Hi, Hi' in He.
  destruct (Z.ltb_spec (len (enc t)) 32), (Z.ltb_spec (len (enc t')) 32); [left; congruence|done..|]. injection He as He.
  destruct (decide (enc t = enc t')) as [Heq|Hne]; [left|right; exists (enc t), (enc t'); split_and!; [by apply blob_here..|done|done]].
  apply encode_inj; [by eapply item_of_bytes..|done|done].
Qed.

Lemma sized_short k t : sized (Short k t) → sized t.
Proof. intros Hs q u Hq. eapply Hs. by constructor. Qed.

Lemma sized_child ch i c : sized (Full ch) → ch !! i = Some (Some c) → sized c.
Proof. intros Hs Hi q u Hq. eapply Hs. by econstructor. Qed.

Lemma sized_root t : wf false t → sized t → len (enc t) < two64.
Proof. intros Hw Hs. eapply Hs. inversion Hw; constructor. Qed.

Lemma ref_item_not_nil e t : wf e t → ref_item t ≠ Str [].
Proof.
  intros Hw. destruct e.
  - inversion Hw as [v [Hv _]| | |]; subst. by intros [= ->].
  - rewrite ref_item_node by done. destruct (item_of_list t Hw) as (l & Hl & _). destruct (_ <? _); [by rewrite Hl|].
    intros [= Hz]. pose proof (keccak_len (enc t)) as Hk. by rewrite Hz in Hk.
Qed.

(** Children with the same items, when each pair of them is told apart. *)
Lemma children_inj ch ch' (col : Prop) :
  length ch = length ch' → map child_item ch = map child_item ch' →
  (∀ i c c', ch !! i = Some (Some c) → ch' !! i = Some (Some c') →
     ref_item c = ref_item c' → c = c' ∨ col) →
  (∀ i c, ch !! i = Some (Some c) ∨ ch' !! i = Some (Some c) → ref_item c ≠ Str []) →
  ch = ch' ∨ col.
Proof.
  revert ch'. induction ch as [|c ch IH]; intros [|c' ch'] Hl Hm Hone Hnil; try done; [by left|].
  injection Hl as Hl. cbn [map] in Hm. injection Hm as Hc Hm.
  destruct (IH ch' Hl Hm) as [->|?]; [by intros i; apply (Hone (S i))|by intros i; apply (Hnil (S i))| |by right].
  destruct c as [c|], c' as [c'|]; cbn [child_item] in Hc; [| | |by left].
  - destruct (Hone 0%nat c c' eq_refl eq_refl Hc) as [->|?]; [by left|by right].
  - destruct (Hnil 0%nat c); [by left|done].
  - destruct (Hnil 0%nat c'); [by right|done].
Qed.

Lemma item_of_inj e t t' : wf e t → wf e t' → sized t → item_of t = item_of t' → t = t' ∨ collision (blob_of t) (blob_of t').
Proof.
  intros Hw. revert t'. induction Hw as [v Hv|k v Hk Hv|k ch Hk Hne Hw IH|ch Hl Hw IH H2]; intros t' Hw' Hs Hi.
  - inversion Hw'; subst. injection Hi as ->. by left.
  - inversion Hw' as [|k' v' Hk' Hv'|k' ch' Hk' Hne' Hf'|ch' Hl' Hc' H2']; subst.
    + injection Hi as Hik ->. apply hexToCompact_inj in Hik as ->; [by left|by right|by right].
    + injection Hi as Hik _. apply hexToCompact_inj in Hik as ->; [|by right|by left].
      apply hasTerm_terminated in Hk. apply hasTerm_nibbles in Hk'. congruence.
    + apply (f_equal (λ it, match it with Lst l => length l | _ => O end)) in Hi. cbn in Hi. rewrite length_map in Hi. lia.
  - inversion Hw' as [|k' v' Hk' Hv'|k' ch' Hk' Hne' Hf'|ch' Hl' Hc' H2']; subst.
    + injection Hi as Hik _. apply hexToCompact_inj in Hik as ->; [|by left|by right].
      apply hasTerm_terminated in Hk'. apply hasTerm_nibbles in Hk. congruence.
    + assert (Hik : hexToCompact k = hexToCompact k' ∧ ref_item (Full ch) = ref_item (Full ch')) by (by injection Hi).
      destruct Hik as [Hik Hir]. apply hexToCompact_inj in Hik as ->; [|by left|by left].
      assert (Hup : collision (blob_of (Full ch)) (blob_of (Full ch')) → collision (blob_of (Short k' (Full ch))) (blob_of (Short k' (Full ch'))))
        by (apply collision_mono; intros x; apply blob_short).
      destruct (ref_item_inj _ _ Hw Hf') as [Hi'|Hcol]; [|done| |by right; apply Hup].
      { apply sized_root; [done|by eapply sized_short]. }
      destruct (IH _ Hf' (sized_short _ _ Hs) Hi') as [[= ->]|Hcol]; [by left|by right; apply Hup].
    + apply (f_equal (λ it, match it with Lst l => length l | _ => O end)) in Hi. cbn in Hi. rewrite length_map in Hi. lia.
  - assert (length (map child_item ch) = 17%nat) as Hlen by (by rewrite length_map).
    inversion Hw' as [|k' v' Hk' Hv'|k' ch' Hk' Hne' Hf'|ch' Hl' Hc' H2']; subst;
      try (apply (f_equal (λ it, match it with Lst l => length l | _ => O end)) in Hi; cbn in Hi; rewrite length_map in Hi; lia).
    assert (Hm : map child_item ch = map child_item ch') by (by injection Hi).
    destruct (children_inj ch ch' (collision (blob_of (Full ch)) (blob_of (Full ch')))) as [->|?]; [lia|done| | |by left|by right].
    2: { intros i c [Hci|Hci]; eapply ref_item_not_nil; eauto. }
    intros i c c' Hci Hci' Hcc. pose proof (Hw _ _ Hci) as Hwc. pose proof (Hc' _ _ Hci') as Hwc'.
    pose proof (sized_child _ _ _ Hs Hci) as Hsc.
    assert (Hup : collision (blob_of c) (blob_of c') → collision (blob_of (Full ch)) (blob_of (Full ch')))
      by (apply collision_mono; intros x; by eapply blob_child).
    assert (Hit : item_of c = item_of c' ∨ collision (blob_of c) (blob_of c')).
    { destruct (Nat.eqb_spec i 16); [inversion Hwc; inversion Hwc'; subst; by left|]. apply ref_item_inj; try done. by apply sized_root. }
    destruct Hit as [Hit|?]; [|by right; apply Hup]. destruct (IH _ _ Hci c') as [?|?]; [done..|by left|by right; apply Hup].
Qed.

(** ** A bound on the encodings *)

Lemma wf_short_sub e k t : wf e (Short k t) → (∃ q u, sub_at t q u) → wf false t ∧ nibbles k.
Proof. intros Hw (q & u & Hs). inversion Hw; subst; [inversion Hs|done]. Qed.

(** A key that a subtree reads, read from the root. *)
Lemma sub_at_get e t q u k v :
  wf e t → sub_at t q u → terminated k → tget u k = Some v → terminated (q ++ k) ∧ tget t (q ++ k) = Some v.
Proof.
  intros Hw Hs Hk Hv. revert e Hw. induction Hs as [k' t|ch|k' t q u Hs IH|ch i c q u Hi Hs IH]; intros e Hw; [done|done|..].
  - destruct (wf_short_sub _ _ _ Hw) as [Hwt Hn]; [by eexists _, _|]. destruct (IH Hv _ Hwt) as [Ht Hg].
    rewrite <- app_assoc, tget_short_app. split; [by apply nibbles_app_terminated|done].
  - inversion Hw as [| | |? Hl Hc _]; subst. specialize (Hc _ _ Hi). destruct (IH Hv _ Hc) as [Ht Hg].
    pose proof (lookup_lt_Some _ _ _ Hi). assert (Hi16 : i ≠ 16%nat).
    { intros ->. inversion Hc; subst. inversion Hs. }
    rewrite <- app_comm_cons, tget_full. unfold child. rewrite Nat2Z.id, Hi. split; [|done].
    apply (nibbles_app_terminated [Z.of_nat i]); [|done]. apply Forall_singleton. unfold is_nibble. lia.
Qed.

(** The keys and values that a place reads are at most [B] long. *)
Definition bounded (B : Z) (t : tree) : Prop := ∀ k v, terminated k → tget t k = Some v → len k + len v <= B.

Lemma len_hexToCompact k : hexkey k → len (hexToCompact k) <= len k + 1.
Proof.
  intros Hk. assert (∃ l (t : bool), nibbles l ∧ k = if t then l ++ [16] else l) as (l & t & Hl & ->).
  { destruct Hk as [Hk|(l & -> & Hl)]; [by exists k, false|by exists l, true]. }
  rewrite hexToCompact_shape by done.
  assert (Hd : ∀ l, len (decodeNibbles l) <= len l).
  { intros r. unfold len. rewrite length_decodeNibbles. pose proof (Nat.div2_decr (length r) (length r)). lia. }
  assert (Hlt : len l <= len (if t then l ++ [16] else l)) by (destruct t; rewrite ?len_app; change (len [16]) with 1; lia).
  pose proof (Hd l). destruct (Nat.odd (length l)); [destruct l as [|x l]|]; rewrite ?len_cons in *; try pose proof (Hd l); lia.
Qed.

Lemma encode_list_len p : len p < two64 → len (encode_list p) <= len p + 9.
Proof.
  intros Hp. unfold encode_list. pose proof (len_nonneg p). rewrite len_app, puthead_len by done.
  pose proof (headsize_bounds (len p)). lia.
Qed.

Lemma ref_len t : wf false t → len (encode (ref_item t)) <= 33.
Proof.
  intros Hw. rewrite ref_item_node by done. destruct (Z.ltb_spec (len (enc t)) 32); [unfold enc in *; lia|].
  pose proof (encode_string_len (keccak (enc t))) as He. rewrite keccak_len in He. destruct He; [by unfold two64|].
  rewrite (proj1 (encode_value _)). cbn [item_kind item_content]. pose proof (keccak_len (enc t)) as Hk.
  destruct (keccak (enc t)) as [|x [|y l]] eqn:Hkk; [done|done|]. cbn [small_byte]. cbn [enc_value]. rewrite len_app, Hk. done.
Qed.

Lemma children_len (ch : list (option tree)) :
  (∀ t, Some t ∈ ch → wf false t) → len (concat (map encode (map child_item ch))) <= 33 * len ch.
Proof.
  induction ch as [|c ch IH]; intros Hw; [done|]. cbn [map concat]. rewrite len_app, len_cons.
  assert (len (encode (child_item c)) <= 33).
  { destruct c as [t|]; [|done]. apply ref_len, Hw. by left. }
  specialize (IH ltac:(intros t Ht; apply Hw; by right)). lia.
Qed.

Lemma enc_len B t : wf false t → bounded B t → B + 600 < two64 → len (enc t) <= B + 600.
Proof.
  intros Hw Hb HB. destruct (wf_inhabited _ _ Hw) as (k0 & v0 & Hk0 & Hv0). pose proof (Hb k0 v0 Hk0 Hv0) as H0.
  pose proof (len_nonneg k0). pose proof (len_nonneg v0).
  inversion Hw as [|k v Hk Hv|k ch Hk Hne Hf|ch Hl Hc Htwo]; subst; unfold enc; cbn [item_of encode map concat].
  - assert (Hkv : len k + len v <= B).
    { apply Hb; [done|]. rewrite <- (app_nil_r k) at 2. by rewrite tget_short_app. }
    pose proof (len_nonneg k). pose proof (len_nonneg v). pose proof (len_hexToCompact k (or_intror Hk)).
    pose proof (encode_string_len (hexToCompact k)) as Hs1. pose proof (encode_string_len v) as Hs2.
    cbn [encode shrink] in Hs1, Hs2 |- *. rewrite app_nil_r.
    etrans; [apply encode_list_len|]; rewrite len_app; lia.
  - apply tget_short_Some in Hv0 as (q & -> & _). rewrite len_app in *. pose proof (len_nonneg q). pose proof (len_nonneg k).
    pose proof (len_hexToCompact k (or_introl Hk)). pose proof (encode_string_len (hexToCompact k)) as Hs1. cbn [encode] in Hs1.
    pose proof (ref_len _ Hf) as Hs2. unfold ref_item in Hs2. cbn [item_of] in Hs2. rewrite app_nil_r.
    etrans; [apply encode_list_len|]; rewrite len_app; lia.
  - destruct (full_last ch Hw) as (ch16 & c & -> & Hl16 & Hlast).
    change (len (encode_list (concat (map encode (map child_item (ch16 ++ [c]))))) <= B + 600).
    rewrite !map_app, concat_app. cbn [map concat]. rewrite app_nil_r.
    assert (H16 : len (concat (map encode (map child_item ch16))) <= 33 * 16).
    { replace 16 with (len ch16) by (unfold len; by rewrite Hl16). apply children_len. intros t Ht.
      apply list_elem_of_lookup in Ht as [i Hi]. pose proof (lookup_lt_Some _ _ _ Hi).
      specialize (Hc i t). rewrite lookup_app_l in Hc by lia. specialize (Hc Hi). destruct (Nat.eqb_spec i 16); [lia|done]. }
    assert (Hlen : len (encode (child_item c)) <= B + 9).
    { destruct Hlast as [->|(v & -> & Hv)]; [change (len (encode (child_item None))) with 1; lia|]. cbn [child_item].
      assert (len [16] + len v <= B).
      { apply Hb; [apply terminated_16|]. rewrite tget_full. unfold child. rewrite lookup_app_r by lia. by rewrite Hl16. }
      change (len [16]) with 1 in *. pose proof (len_nonneg v). pose proof (encode_string_len v).
      unfold ref_item. cbn [shrink item_of]. lia. }
    etrans; [apply encode_list_len|]; rewrite len_app; lia.
Qed.

Lemma bounded_sized B t : wf false t → bounded B t → B + 600 < two64 → sized t.
Proof.
  intros Hw Hb HB q u Hq. pose proof (sub_at_wf _ _ _ _ Hw Hq) as Hwu.
  assert (bounded B u).
  { intros k v Hk Hv. destruct (sub_at_get _ _ _ _ _ _ Hw Hq Hk Hv) as [Ht Hg]. specialize (Hb _ _ Ht Hg).
    rewrite len_app in Hb. pose proof (len_nonneg q). lia. }
  assert (len (enc u) <= B + 600) by (by apply enc_len). lia.
Qed.
End TrieHash.
