(* ===== verification/TrieTheorems.v ===== *)
(** * What the trie promises

    The theorems of parallelizable-client-go-ethereum/trie: the operations are
    those of a map, the root hash stands for the contents, and what is committed
    can be loaded again; and a deletion that fails leaves a trace. *)

From S2P Require Import Prelude StateError Rlp Crypto TrieKeys TrieSpec TrieNode TrieExpand Trie TrieSim TrieCommit.
Open Scope eigen_scope.

(** ** A hash function for the examples *)

(** The first bytes of the string, and the root hash of the empty trie where it
    belongs. *)
Definition toy_hash (b : bytes) : bytes :=
  if bool_decide (b = [128]) then EmptyRootHash
  else take 32 (map (λ x, x mod 256) b ++ replicate 32 1).

Lemma toy_hash_len b : len (toy_hash b) = 32.
Proof.
  unfold toy_hash. case_bool_decide; [done|]. unfold len. rewrite length_take, length_app, length_replicate. lia.
Qed.

Lemma toy_hash_bytes b : Forall is_byte (toy_hash b).
Proof.
  unfold toy_hash. case_bool_decide; [unfold EmptyRootHash; repeat (apply Forall_cons; split; [unfold is_byte; lia|]); constructor|]. apply Forall_take, Forall_app. split.
  - apply Forall_map, Forall_forall. intros x _. unfold is_byte. apply Z.mod_pos_bound. lia.
  - by apply Forall_replicate.
Qed.

Definition toy_keccak : Keccak := {| keccak := toy_hash; keccak_len := toy_hash_len; keccak_bytes := toy_hash_bytes |}.

Section Theorems.
Context `{Keccak}.

(** C1: a trie that holds a map does what the map does, whatever part of its
    nodes has been loaded: Get returns what the map has, Update inserts, or deletes
    when the value is empty, Delete deletes, and Hash keeps it.  No call fails, and
    each leaves a trie that holds the new map. *)
Theorem trie_refines_map t m key value :
  holds t m → Forall is_byte key → Forall is_byte value →
  (∃ t', Get key t = (Ok (m !! key), t') ∧ holds t' m) ∧
  (∃ t', Update key value t = (Ok tt, t') ∧
     holds t' (match value with [] => delete key m | _ => <[key := value]> m end)) ∧
  (∃ t', Delete key t = (Ok tt, t') ∧ holds t' (delete key m)) ∧
  (∃ h t', Hash t = (Ok h, t') ∧ holds t' m).
Proof.
  intros Hh Hk Hv. split; [by apply Get_holds|]. split; [by apply Update_holds|]. split; [by apply Delete_holds|].
  destruct Hh as [Hc (ot & Hs & Hm)]. eexists. by apply Hash_holds.
Qed.

Lemma bounded_reads t m B :
  reads_like (Some t) m → (∀ k v, m !! k = Some v → 2 * len k + 1 + len v <= B) → bounded B t.
Proof.
  intros [Hg Hk _] HB k v Ht Hv. destruct (Hk k v Ht Hv) as (key & Hb & ->). specialize (Hg key Hb).
  change (tget t (keybytesToHex key)) with (oget (Some t) (keybytesToHex key)) in Hv. rewrite Hg in Hv. specialize (HB _ _ Hv).
  unfold keybytesToHex, len in *. rewrite length_app, length_key_nibbles. cbn [length]. lia.
Qed.

Lemma enc_not_empty t : wf false t → enc t ≠ [128].
Proof.
  intros Hw He. destruct (item_of_list t Hw) as (l & Hi & _). unfold enc in He. rewrite Hi in He.
  assert (Hinj : encode (Str []) = encode (Lst l)) by done. apply encode_inj in Hinj; [done|constructor| |done].
  rewrite <- Hi. by eapply item_of_bytes.
Qed.

(** The encodings of the nodes of the trie of a map; the empty trie has the encoding
    of the empty string. *)
Definition blobs_of (ot : option tree) (x : bytes) : Prop := match ot with None => x = [128] | Some t => blob_of t x end.

Definition node_blob (m : gmap bytes bytes) (x : bytes) : Prop := ∃ ot, owf ot ∧ reads_like ot m ∧ blobs_of ot x.

(** A node of the trie of the one map and a node of the trie of the other, with
    different encodings and one hash. *)
Definition nodes_collide (m m' : gmap bytes bytes) : Prop := collision (node_blob m) (node_blob m').

(** Two trees with one hash hold one map. *)
Lemma hash_of_binds ot ot' m m' B :
  owf ot → owf ot' → reads_like ot m → reads_like ot' m' → hash_of ot = hash_of ot' → keccak [128] = EmptyRootHash →
  (∀ k v, m !! k = Some v → 2 * len k + 1 + len v <= B) → B + 600 < two64 →
  m = m' ∨ nodes_collide m m'.
Proof.
  intros Hw Hw' Hm Hm' He Hempty HB Hb. assert (Ht : ot = ot' ∨ collision (blobs_of ot) (blobs_of ot')).
  { destruct ot as [s|], ot' as [s'|]; cbn [hash_of] in He; [| | |by left].
    - pose proof (bounded_sized B s (Hw _ eq_refl) (bounded_reads _ _ _ Hm HB) Hb) as Hsz.
      destruct (decide (enc s = enc s')) as [Heq|Hne]; [|right; exists (enc s), (enc s'); split_and!; [by apply blob_here; auto..|done|done]].
      apply encode_inj in Heq; [|by eapply item_of_bytes, Hw|by eapply item_of_bytes, Hw'|by apply sized_root; [apply Hw|]].
      destruct (item_of_inj false s s') as [->|?]; [by apply Hw|by apply Hw'|done|done|by left|by right].
    - right. exists (enc s), [128]. split_and!; [by apply blob_here, Hw|done|by apply enc_not_empty, Hw|by rewrite Hempty].
    - right. exists [128], (enc s'). split_and!; [done|by apply blob_here, Hw'|by apply not_eq_sym, enc_not_empty, Hw'|by rewrite Hempty]. }
  destruct Ht as [<-|Hc]; [left|right; revert Hc; by apply collision_mono; intros x Hx; [exists ot|exists ot']]. apply map_eq. intros k. apply option_eq. intros v. split; intros Hk.
  - destruct (rl_dom _ _ Hm _ _ Hk) as [Hkb _]. by rewrite <- (rl_get _ _ Hm' k Hkb), (rl_get _ _ Hm k Hkb).
  - destruct (rl_dom _ _ Hm' _ _ Hk) as [Hkb _]. by rewrite <- (rl_get _ _ Hm k Hkb), (rl_get _ _ Hm' k Hkb).
Qed.

(** C3: the root hash is that of the contents, however they came about; and two
    tries with one root hash hold the same map, or a node of the trie of the one map
    and a node of the trie of the other have different encodings and one hash, when the
    keys and values of one are shorter than the address space. *)
Theorem root_hash_binds t t' m m' B :
  holds t m → holds t' m' →
  ∃ h h' u u', Hash t = (Ok h, u) ∧ Hash t' = (Ok h', u') ∧ (m = m' → h = h') ∧
    (h = h' → keccak [128] = EmptyRootHash → (∀ k v, m !! k = Some v → 2 * len k + 1 + len v <= B) → B + 600 < two64 →
     m = m' ∨ ∃ x y, node_blob m x ∧ node_blob m' y ∧ x ≠ y ∧ keccak x = keccak y).
Proof.
  intros [_ (ot & Hs & Hm)] [_ (ot' & Hs' & Hm')]. destruct (Hash_stands t ot Hs) as (u & Hh & _).
  destruct (Hash_stands t' ot' Hs') as (u' & Hh' & _). exists (hash_of ot), (hash_of ot'), u, u'.
  split; [done|]. split; [done|]. pose proof (sf_wf _ _ Hs) as Hw. pose proof (sf_wf _ _ Hs') as Hw'. split.
  { intros <-. by rewrite (reads_like_unique ot ot' m). }
  intros He Hempty HB Hb. by eapply (hash_of_binds ot ot').
Qed.

(** C2: after a commit, which never fails, the trie refuses every call; and every
    database that takes the node set loads, at the root hash that the commit
    returned, a trie that holds what was committed. *)
Theorem commit_roundtrip t m cl :
  holds t m →
  ∃ h set t', Commit cl t = (Ok (h, set), t') ∧
    (∀ key value, Get key t' = (Err ErrCommitted, t') ∧ Update key value t' = (Err ErrCommitted, t') ∧
       Delete key t' = (Err ErrCommitted, t')) ∧
    ∀ stateRoot ow db rd, newTrieReader stateRoot ow db = Ok rd → reader_ok rd →
      takes (db_node (reader t)) set (db_node rd) → h ≠ zero_hash → (h = EmptyRootHash → m = ∅) →
      ∃ t2, New stateRoot ow h db = Ok t2 ∧ holds t2 m.
Proof.
  intros [_ (ot & Hs & Hm)]. destruct (Commit_kept t ot cl Hs) as (set & t' & Hc & Hcom & Hk).
  exists (hash_of ot), set, t'. split; [done|]. split.
  { intros key value. unfold Get, Update, Delete, usable, bind, get. by rewrite Hcom. }
  intros sr ow db rd Hnew Hok Htakes Hz He. pose proof (sf_wf _ _ Hs) as Hw. eapply New_kept; try done; [by apply Hk|].
  intros Hempty. rewrite (He Hempty) in Hm. apply (reads_like_unique ot None ∅); [done|done|done|apply reads_like_empty].
Qed.
End Theorems.

(** ** Witnesses *)

(** The empty trie over no database. *)
Definition empty_trie : Trie := MkTrie nilNode [] false 0 0 (MkTrieReader [] None ∅) newTracer.

Lemma no_reader_ok ow : reader_ok (MkTrieReader ow None ∅).
Proof. intros p h b. unfold db_node, reader_node. cbn. by case_bool_decide. Qed.

Lemma empty_trie_holds `{Keccak} : holds empty_trie ∅.
Proof.
  split; [done|]. exists None. split; [|apply reads_like_empty].
  split; [done|done|apply clean_None|apply no_reader_ok].
Qed.

Definition one_key : bytes := [18].
Definition one_value : bytes := replicate 40 7.
Definition one_trie : Trie := (Update one_key one_value empty_trie).2.

Lemma one_value_bytes : Forall is_byte one_value.
Proof. apply Forall_replicate. unfold is_byte. lia. Qed.

Lemma one_key_bytes : Forall is_byte one_key.
Proof. apply Forall_singleton. unfold is_byte. lia. Qed.

Lemma one_trie_holds `{Keccak} : holds one_trie {[one_key := one_value]}.
Proof.
  destruct (Update_holds empty_trie ∅ one_key one_value empty_trie_holds one_key_bytes one_value_bytes) as (t' & He & Hh).
  unfold one_trie. rewrite He. exact Hh.
Qed.

Lemma trie_refines_map_witness :
  (∃ t', Get one_key one_trie = (Ok (Some one_value), t')) ∧
  (∃ t', Delete one_key one_trie = (Ok tt, t') ∧ @holds toy_keccak t' ∅).
Proof.
  destruct (@trie_refines_map toy_keccak one_trie _ one_key one_value (@one_trie_holds toy_keccak) one_key_bytes one_value_bytes)
    as ((t1 & Hg & _) & _ & (t2 & Hd & Hh) & _).
  split; [exists t1; by rewrite Hg, lookup_singleton_eq|]. exists t2. split; [exact Hd|]. by rewrite delete_singleton_eq in Hh.
Defined.

Lemma one_bound k v : ({[one_key := one_value]} : gmap bytes bytes) !! k = Some v → 2 * len k + 1 + len v <= 100.
Proof. intros [<- <-]%lookup_singleton_Some. by vm_compute. Qed.

Lemma root_hash_binds_witness :
  ∃ h h' u u', @Hash toy_keccak one_trie = (Ok h, u) ∧ @Hash toy_keccak one_trie = (Ok h', u') ∧ h = h' ∧
    (h = h' → ({[one_key := one_value]} : gmap bytes bytes) = {[one_key := one_value]} ∨
       ∃ x y, @node_blob toy_keccak {[one_key := one_value]} x ∧ @node_blob toy_keccak {[one_key := one_value]} y ∧ x ≠ y ∧ toy_hash x = toy_hash y).
Proof.
  destruct (@root_hash_binds toy_keccak one_trie one_trie _ _ 100 (@one_trie_holds toy_keccak) (@one_trie_holds toy_keccak))
    as (h & h' & u & u' & H1 & H2 & H3 & H4).
  exists h, h', u, u'. split; [exact H1|]. split; [exact H2|]. split; [by apply H3|]. intros He.
  apply H4; [exact He|by vm_compute|apply one_bound|by vm_compute].
Defined.

(** The commit of the trie, and a database that takes it. *)
Definition one_tree : tree := Short (keybytesToHex one_key) (Leaf one_value).
Definition one_blob : bytes := @enc toy_keccak one_tree.
Definition one_set : NodeSet := AddNode [] (MkNode (toy_hash one_blob) one_blob) (NewNodeSet []).
Definition one_reader : NodeReader := λ _ p h, if bool_decide (p = [] ∧ h = toy_hash one_blob) then Some one_blob else None.

Lemma one_commit : (@Commit toy_keccak false one_trie).1 = Ok (toy_hash one_blob, Some one_set).
Proof. vm_compute. reflexivity. Qed.

Lemma one_db_node p h :
  db_node (MkTrieReader [] (Some one_reader) ∅) p h = if bool_decide (p = [] ∧ h = toy_hash one_blob) then Some one_blob else None.
Proof.
  unfold db_node, reader_node, one_reader. cbn [rd_banned rd_reader rd_owner]. rewrite (bool_decide_false (p ∈ ∅)) by set_solver.
  by case_bool_decide.
Qed.

Lemma one_reader_ok : reader_ok (MkTrieReader [] (Some one_reader) ∅).
Proof. intros p h b. rewrite one_db_node. case_bool_decide; [|done]. intros [= <-]. by vm_compute. Qed.

Lemma one_takes : takes (db_node (reader one_trie)) (Some one_set) (db_node (MkTrieReader [] (Some one_reader) ∅)).
Proof.
  split.
  - intros p n Hn Hd. unfold one_set in Hn. rewrite Nodes_AddNode in Hn. cbn [Nodes NewNodeSet] in Hn.
    apply lookup_insert_Some in Hn as [[<- <-]|[_ Hn]]; [|by rewrite lookup_empty in Hn].
    rewrite one_db_node. by rewrite bool_decide_true.
  - intros p h b _ Hb. exfalso. revert Hb. unfold db_node, reader_node. cbn. by case_bool_decide.
Qed.

Lemma commit_roundtrip_witness :
  ∃ t2, New [1] [] (toy_hash one_blob) (λ _, Some one_reader) = Ok t2 ∧ @holds toy_keccak t2 {[one_key := one_value]}.
Proof.
  destruct (@commit_roundtrip toy_keccak one_trie _ false (@one_trie_holds toy_keccak)) as (h & set & t' & Hc & _ & Hload).
  pose proof one_commit as H1. rewrite Hc in H1. injection H1 as -> ->.
  apply (Hload [1] [] (λ _, Some one_reader) (MkTrieReader [] (Some one_reader) ∅));
    [reflexivity|apply one_reader_ok|apply one_takes|by vm_compute|by intros He; vm_compute in He].
Defined.

(** ** A deletion that fails *)

Definition value_a : bytes := replicate 40 1.
Definition value_b : bytes := replicate 40 2.
Definition leaf_a : tree := Short [0; 16] (Leaf value_a).
Definition leaf_b : tree := Short [0; 16] (Leaf value_b).
Definition two_leaves : tree := Full (<[0%nat := Some leaf_a]> (<[1%nat := Some leaf_b]> no_children)).

(** The database has lost the second leaf. *)
Definition lossy_reader : NodeReader := λ _ p h,
  if bool_decide (p = []) then Some (@enc toy_keccak two_leaves)
  else if bool_decide (p = [0]) then Some (@enc toy_keccak leaf_a)
  else None.

Definition lossy_trie : result trie_error Trie :=
  New [1] [] (toy_hash (@enc toy_keccak two_leaves)) (λ _, Some lossy_reader).

Definition after_delete : result trie_error () * Trie :=
  match lossy_trie with Ok t => Delete [0] t | Err e => (Err e, empty_trie) end.

(** A deletion that cannot load the sibling fails and keeps the root, but the
    tracer has counted the leaf as deleted: a later commit of the trie deletes a
    node that the new root still needs. *)
Lemma failed_delete_tracks :
  let t := (Update [32] value_b after_delete.2).2 in
  after_delete.1 = Err (MissingNodeError [] (toy_hash (@enc toy_keccak leaf_b)) [1]) ∧
  (Get [0] t).1 = Ok (Some value_a) ∧
  match (@Commit toy_keccak false t).1 with
  | Ok (_, Some set) => Nodes set !! [0] = Some NewDeleted
  | _ => False
  end.
Proof. split; [vm_compute; reflexivity|]. split; vm_compute; reflexivity. Qed.
