(* ===== verification/TrieProof.v ===== *)
(** * Merkle proofs

    parallelizable-client-go-ethereum/trie/proof.go: [Prove], which writes the nodes
    on the path of a key, and [VerifyProof], which reads them back from a root hash,
    with [get] and the hasher's [proofHash].  A proof is complete, and it is sound
    unless a node in it and a node of the trie collide.  The range proofs are not modelled. *)

From S2P Require Import Prelude StateError Rlp Crypto TrieKeys TrieSpec TrieNode TrieExpand Trie TrieSim TrieCommit TrieTheorems.
Open Scope eigen_scope.

(** ** Proving *)

(** [get]: what is at the key, and the rest of the key; with [skipResolved] only a
    value, a hash or nothing. *)
Fixpoint proof_get (tn : node) (key : bytes) (skipResolved : bool) : result trie_error (bytes * node) :=
  match tn with
  | shortNode k v _ =>
      if negb (HasPrefix key k) then Ok ([], nilNode)
      else
        let key := drop (length k) key in
        if negb skipResolved then Ok (key, v) else proof_get v key skipResolved
  | fullNode ch _ =>
      match key with
      | [] => Err IndexPanic
      | x :: key =>
          (fix pick (ch : list node) (n : nat) : result trie_error (bytes * node) :=
             match ch, n with
             | [], _ => Err IndexPanic
             | c :: _, O => if negb skipResolved then Ok (key, c) else proof_get c key skipResolved
             | _ :: ch, S n => pick ch n
             end) ch (Z.to_nat x)
      end
  | hashNode _ => Ok (key, tn)
  | nilNode => Ok (key, nilNode)
  | valueNode _ => Ok ([], tn)
  end.

Section Proofs.
Context `{Keccak}.

(** The collapsed node and the hashed one. *)
Definition proofHash (original : node) : node * node :=
  match original with
  | shortNode k v fl =>
      let vs := match v with fullNode _ _ | shortNode _ _ _ => hash v false | _ => (v, v) end in
      let sn := shortNode (hexToCompact k) vs.1 fl in
      (sn, nodeToHash sn false)
  | fullNode ch fl =>
      let fn := fullNode (imap collapse_child (map fst (map (λ c, hash c false) ch))) fl in
      (fn, nodeToHash fn false)
  | _ => (original, original)
  end.

(** The loop that collects the nodes on the path of the key. *)
Fixpoint prove_nodes (rd : trieReader) (fuel : nat) (tn : node) (prefix key : bytes) : result trie_error (list node) :=
  if (len key =? 0) || is_nil tn then Ok []
  else
    match fuel with
    | O => Err TrieFuel
    | S fuel =>
        match tn with
        | shortNode k v _ =>
            let* nodes :=
              if negb (HasPrefix key k) then prove_nodes rd fuel nilNode prefix key
              else prove_nodes rd fuel v (prefix ++ k) (drop (length k) key) in
            Ok (tn :: nodes)
        | fullNode ch _ =>
            match key with
            | [] => Err IndexPanic
            | x :: key =>
                match ch !! Z.to_nat x with
                | None => Err IndexPanic
                | Some c => let* nodes := prove_nodes rd fuel c (prefix ++ [x]) key in Ok (tn :: nodes)
                end
            end
        | hashNode h =>
            let* blob := reader_node rd prefix (BytesToHash h) in
            match decodeNode (Some h) blob with
            | Err e => Err (DecodePanic e)
            | Ok tn => prove_nodes rd fuel tn prefix key
            end
        | _ => Err InvalidNode
        end
    end.

(** The loop over the nodes: what is put into the database of the proof. *)
Fixpoint proof_elements (i : nat) (nodes : list node) : list (bytes * bytes) :=
  match nodes with
  | [] => []
  | n :: nodes =>
      let '(n, hn) := proofHash n in
      match hn with
      | hashNode hash => [(hash, encodedBytes n)]
      | _ => if (i =? 0)%nat then [(keccak (encodedBytes n), encodedBytes n)] else []
      end ++ proof_elements (S i) nodes
  end.

Definition Prove (t : Trie) (key : bytes) : result trie_error (list (bytes * bytes)) :=
  if committed t then Err ErrCommitted
  else
    let key := keybytesToHex key in
    let* nodes := prove_nodes (reader t) (key_fuel key) (root t) [] key in
    Ok (proof_elements 0 nodes).

(** ** Verifying *)

Inductive proof_error : Type :=
  | ProofMissing (i : nat) (hash : bytes)
  | BadProofNode (i : nat) (err : decode_error)
  | ProofPanic (err : trie_error)
  | ProofFuel.

Fixpoint verify_loop (proofDb : bytes → option bytes) (fuel i : nat) (wantHash key : bytes) : result proof_error (option bytes) :=
  match fuel with
  | O => Err ProofFuel
  | S fuel =>
      match proofDb wantHash with
      | None => Err (ProofMissing i wantHash)
      | Some buf =>
          match decodeNode (Some wantHash) buf with
          | Err err => Err (BadProofNode i err)
          | Ok n =>
              match proof_get n key true with
              | Err err => Err (ProofPanic err)
              | Ok (keyrest, cld) =>
                  match cld with
                  | nilNode => Ok None
                  | hashNode h => verify_loop proofDb fuel (S i) (take 32 h ++ drop (length h) wantHash) keyrest
                  | valueNode v => Ok (Some v)
                  (** no other node, with [skipResolved] *)
                  | _ => verify_loop proofDb fuel (S i) wantHash key
                  end
              end
          end
      end
  end.

(** The length of the key is enough against the root of a trie ([verify_total]). *)
Definition VerifyProof (rootHash key : bytes) (proofDb : bytes → option bytes) : result proof_error (option bytes) :=
  let key := keybytesToHex key in
  verify_loop proofDb (S (length key)) 0 rootHash key.

(** ** The database of a tree *)

(** The subtree at a path. *)
Fixpoint tree_at (t : tree) (p : bytes) : option tree :=
  match t with
  | Leaf _ => None
  | Short k t' =>
      match p with
      | [] => Some t
      | _ => if HasPrefix p k then tree_at t' (drop (length k) p) else None
      end
  | Full ch =>
      match p with
      | [] => Some t
      | x :: p =>
          (fix pick (ch : list (option tree)) (n : nat) : option tree :=
             match ch, n with
             | Some t :: _, O => tree_at t p
             | _ :: ch, S n => pick ch n
             | _, _ => None
             end) ch (Z.to_nat x)
      end
  end.

Lemma tree_at_full ch x p : tree_at (Full ch) (x :: p) = child ch x ≫= λ c, tree_at c p.
Proof.
  cbn [tree_at]. unfold child. generalize (Z.to_nat x). induction ch as [|c ch IH]; intros n; [done|].
  destruct n as [|n]; [by destruct c|]. destruct c; apply IH.
Qed.

Lemma tree_at_sub e t q u : wf e t → sub_at t q u → tree_at t q = Some u.
Proof.
  intros Hw Hs. revert e Hw. induction Hs as [k t|ch|k t q u Hs IH|ch i c q u Hi Hs IH]; intros e Hw; [done|done|..].
  - assert (e = false) as -> by (by inversion Hw). pose proof (wf_short_ne _ _ Hw) as Hk. cbn [tree_at].
    destruct (k ++ q) as [|y r] eqn:Hkq; [by apply app_eq_nil in Hkq as [-> _]|]. rewrite <- Hkq. assert (HasPrefix (k ++ q) k = true) as ->
      by (apply HasPrefix_spec; by exists q). rewrite drop_app_length. inversion Hw; subst; [by inversion Hs|by eapply IH].
  - rewrite tree_at_full. inversion Hw as [| | |? Hl Hc _]; subst. unfold child. rewrite Nat2Z.id, Hi. cbn. by eapply IH, Hc.
Qed.

(** A database that holds every node of a tree, at its path. *)
Definition tree_db (t : tree) (p h : bytes) : option bytes :=
  u ← tree_at t p; if (len (enc u) <? two64) && bool_decide (h = keccak (enc u)) then Some (enc u) else None.

Lemma tree_db_len t p h b : tree_db t p h = Some b → len b < two64.
Proof.
  unfold tree_db. destruct (tree_at t p) as [u|]; [|done]. cbn. destruct (Z.ltb_spec (len (enc u)) two64); [|done].
  case_bool_decide; cbn; [|done]. by intros [= <-].
Qed.

Lemma tree_db_here t : wf false t → sized t → ∀ q u, sub_at t q u → here (tree_db t) q u.
Proof.
  intros Hw Hs q u Hu _. unfold tree_db. rewrite (tree_at_sub _ _ _ _ Hw Hu). cbn.
  rewrite (proj2 (Z.ltb_lt _ _) (Hs _ _ Hu)). by rewrite bool_decide_true.
Qed.

Lemma tree_db_root t : wf false t → sized t → tree_db t [] (keccak (enc t)) = Some (enc t).
Proof.
  intros Hw Hs. unfold tree_db. assert (tree_at t [] = Some t) as -> by (by inversion Hw). cbn.
  rewrite (proj2 (Z.ltb_lt _ _) (sized_root t Hw Hs)). by rewrite bool_decide_true.
Qed.

Lemma tree_db_below t : wf false t → sized t → below (tree_db t) [] t.
Proof. intros Hw Hs. apply (below_intro _ false); [done|]. intros q u Hu _. by apply tree_db_here. Qed.

(** The node that the encoding of a tree decodes to. *)
Lemma decode_tree t :
  wf false t → sized t → ∃ n, decodeNode (Some (keccak (enc t))) (enc t) = Ok n ∧ exp (tree_db t) true true [] n t ∧ is_hash n = false.
Proof.
  intros Hw Hs. destruct (decode_fuel_spec (tree_db t) (S (length (enc t))) true (Some (keccak (enc t))) [] t []) as (n & Hd & He).
  - done.
  - unfold len. lia.
  - rewrite app_nil_r. by apply sized_root.
  - by apply tree_db_below.
  - unfold hash_ok, flag_ok. cbn. split; [done|]. split; [by right|]. intros _. split; [by apply tree_db_root|by apply tree_db_below].
  - rewrite app_nil_r in Hd. exists n. split; [done|]. split; [done|]. by eapply decode_loaded.
Qed.

(** ** The path of a key *)

(** The trees on the path of a key, from the top. *)
Fixpoint visited (t : tree) (key : bytes) : list tree :=
  match t with
  | Leaf _ => []
  | Short k t' => t :: (if HasPrefix key k then visited t' (drop (length k) key) else [])
  | Full ch =>
      t :: match key with
           | [] => []
           | x :: key =>
               (fix pick (ch : list (option tree)) (n : nat) : list tree :=
                  match ch, n with
                  | Some t :: _, O => visited t key
                  | _ :: ch, S n => pick ch n
                  | _, _ => []
                  end) ch (Z.to_nat x)
           end
  end.

Definition ovisited (t : option tree) (key : bytes) : list tree := match t with Some t => visited t key | None => [] end.

Lemma visited_full ch x key : visited (Full ch) (x :: key) = Full ch :: ovisited (child ch x) key.
Proof.
  cbn [visited]. f_equal. unfold child. generalize (Z.to_nat x). induction ch as [|c ch IH]; intros n; [done|].
  destruct n as [|n]; [by destruct c|]. destruct c; apply IH.
Qed.

(** What [get] finds in a node that has been decoded: what the tree has, or the
    hash of the next tree on the path, under what is left of the key. *)
Definition found (t : tree) (key rest : bytes) (c : node) : Prop :=
  match c with
  | nilNode => tget t key = None
  | valueNode v => tget t key = Some v
  | hashNode h =>
      ∃ u l, h = keccak (enc u) ∧ wf false u ∧ terminated rest ∧ (length rest < length key)%nat ∧ 32 <= len (enc u) ∧
        tget t key = tget u rest ∧ visited t key = l ++ visited u rest ∧ (∃ q, sub_at t q u)
  | _ => False
  end.

Lemma HasPrefix_app k q : HasPrefix (k ++ q) k = true.
Proof. apply HasPrefix_spec. by exists q. Qed.

Lemma get_found db s b p n t e key :
  exp db s b p n t → s = true → b = false ∨ is_hash n = false → wf e t → key_of e key →
  ∃ rest c, proof_get n key true = Ok (rest, c) ∧
    (found t key rest c ∨ (∃ u, n = hashNode (keccak (enc u)) ∧ u = t ∧ rest = key ∧ c = n ∧ wf false t ∧ 32 <= len (enc t))).
Proof.
  intros He. revert e key. induction He as [s b p v|s b p k n fl t He IH Hfl|s b p ns fl ch Hl Hnone He IH Hfl|s b p t Hw Hlen Hdb Hb];
    intros e key -> Hroot Hwf Hkey; cbn [orb] in *.
  - exists [], (valueNode v). split; [done|]. left. done.
  - cbn [proof_get]. destruct (HasPrefix key k) eqn:Hp; cbn [negb].
    2: { exists [], nilNode. split; [done|]. left. cbn. by rewrite Hp. }
    apply HasPrefix_spec in Hp as [q ->]. rewrite drop_app_length.
    assert (Hne : k ≠ []) by (assert (e = false) as -> by (by inversion Hwf); by eapply wf_short_ne).
    assert (Hlt : (length q < length (k ++ q))%nat) by (rewrite length_app; destruct k; [done|cbn; lia]).
    assert (∃ e', wf e' t ∧ key_of e' q) as (e' & Hwt & Hq).
    { inversion Hwf as [|? ? Hk Hv|? ch Hk _ Hf|]; subst.
      - exists true. split; [by constructor|]. cbn. by apply terminated_prefix in Hkey.
      - exists false. split; [done|]. by eapply terminated_app_nibbles. }
    destruct (IH e' q eq_refl (or_introl eq_refl) Hwt Hq) as (rest & c & -> & Hf). exists rest, c. split; [done|]. left.
    destruct Hf as [Hf|(u & -> & -> & -> & -> & Hwu & H32)].
    + unfold found in *. cbn [tget visited]. rewrite HasPrefix_app, drop_app_length. destruct c; try done.
      destruct Hf as (u & l & -> & H1 & H2 & H3 & H4 & H5 & H6 & (q' & H7)).
      exists u, (Short k t :: l). split_and!; try done; [lia|by rewrite H6|]. exists (k ++ q'). by constructor.
    + assert (e' = false) as -> by (by inversion Hwt; subst; inversion Hwu). cbn. rewrite HasPrefix_app, drop_app_length.
      exists t, [Short k t]. split_and!; try done. exists (k ++ []). constructor. inversion Hwu; constructor.
  - assert (e = false) as -> by (by inversion Hwf). destruct key as [|x q]; [by apply terminated_ne in Hkey|].
    destruct (key_of_cons _ _ _ Hkey) as (_ & Hx & Hq).
    destruct (exp_child db true b p ns fl ch x) as (c0 & Hcx & Hec & Hchx); [by constructor|done|done|]. cbn [orb] in Hec.
    assert (Hget : proof_get (fullNode ns fl) (x :: q) true = proof_get c0 q true).
    { cbn [proof_get negb]. clear -Hcx. revert ns Hcx. generalize (Z.to_nat x).
      induction n as [|n IH]; intros [|c ns] Hc; try done; [by injection Hc as ->|]. by apply IH. }
    rewrite Hget. unfold found. rewrite tget_full, visited_full. destruct (child ch x) as [t|] eqn:Hcx'; cbn [oexp oget ovisited mbind option_bind] in *.
    + destruct (IH _ _ _ Hcx Hchx _ q eq_refl (or_introl eq_refl) (wf_child _ _ _ _ Hwf Hcx') Hq) as (rest & c & -> & Hf).
      exists rest, c. split; [done|]. left. destruct Hf as [Hf|(u & -> & -> & -> & -> & Hwu & H32)].
      * destruct c; try done. destruct Hf as (u & l & -> & H1 & H2 & H3 & H4 & H5 & H6 & (q' & H7)).
        exists u, (Full ch :: l). split_and!; try done; [cbn; lia|by rewrite H6|].
        exists (x :: q'). replace x with (Z.of_nat (Z.to_nat x)) by lia. by econstructor.
      * exists t, [Full ch]. assert ((Z.to_nat x =? 16)%nat = false) as Hx16.
        { pose proof (wf_child _ _ _ _ Hwf Hcx') as Hwt. destruct (Z.to_nat x =? 16)%nat; [|done]. inversion Hwt; subst. inversion Hwu. }
        rewrite Hx16 in Hq. cbn in Hq. split_and!; try done; [cbn; lia|].
        exists (x :: []). replace x with (Z.of_nat (Z.to_nat x)) by lia. econstructor; [done|]. inversion Hwu; constructor.
    + subst c0. exists q, nilNode. split; [done|]. by left.
  - destruct Hroot as [->|]; [|done]. destruct Hlen as [Hlen|]; [|done]. exists key, (hashNode (keccak (enc t))). split; [done|]. right. by exists t.
Qed.

Lemma get_found_root db n t key :
  exp db true true [] n t → is_hash n = false → wf false t → terminated key →
  ∃ rest c, proof_get n key true = Ok (rest, c) ∧ found t key rest c.
Proof.
  intros He Hh Hw Hk. destruct (get_found db true true [] n t false key He eq_refl (or_intror Hh) Hw Hk) as (rest & c & Hg & Hf).
  exists rest, c. split; [done|]. destruct Hf as [Hf|(u & -> & _)]; [done|]. done.
Qed.

Lemma sub_at_trans t q u q' w : sub_at t q u → sub_at u q' w → sub_at t (q ++ q') w.
Proof.
  induction 1 as [| |k t q u Hs IH|ch i c q u Hi Hs IH]; intros Hw; [done|done|..].
  - rewrite <- app_assoc. constructor. by apply IH.
  - cbn. econstructor; [done|]. by apply IH.
Qed.

Lemma sized_sub t q u : sized t → sub_at t q u → sized u.
Proof. intros Hs Hu q' w Hw. eapply Hs. by eapply sub_at_trans. Qed.

(** ** Verifying a proof *)

(** What is found under a hash has that hash. *)
Definition honest (db : bytes → option bytes) : Prop := ∀ h b, db h = Some b → keccak b = h.

Lemma copy_hash (h w : bytes) : len h = 32 → len w = 32 → take 32 h ++ drop (length h) w = h.
Proof.
  unfold len. intros Hh Hw. rewrite take_ge by lia. rewrite drop_ge by lia. by rewrite app_nil_r.
Qed.

Lemma visited_head t key : wf false t → ∃ l, visited t key = t :: l.
Proof. inversion 1; subst; cbn; eauto. Qed.

(** The trees on the path are subtrees. *)
Lemma visited_sub e t key v : wf e t → v ∈ visited t key → ∃ q, sub_at t q v.
Proof.
  intros Hw. revert key. induction Hw as [w Hv|k w Hk Hv|k ch Hk Hne Hw IH|ch Hl Hw IH H2]; intros key Hin.
  - by apply elem_of_nil in Hin.
  - apply elem_of_cons in Hin as [->|Hin]; [exists []; constructor|]. destruct (HasPrefix key k); by apply elem_of_nil in Hin.
  - apply elem_of_cons in Hin as [->|Hin]; [exists []; constructor|]. destruct (HasPrefix key k); [|by apply elem_of_nil in Hin].
    destruct (IH _ Hin) as [q Hq]. exists (k ++ q). by constructor.
  - destruct key as [|x key]; [apply list_elem_of_singleton in Hin as ->; exists []; constructor|]. rewrite visited_full in Hin.
    apply elem_of_cons in Hin as [->|Hin]; [exists []; constructor|]. unfold child in Hin.
    destruct (ch !! Z.to_nat x) as [[c|]|] eqn:Hc; try by apply elem_of_nil in Hin.
    destruct (IH _ _ Hc _ Hin) as [q Hq]. eexists. by eapply sub_child.
Qed.

(** Against the hash of a tree: the value, or a node that is missing, or that is not
    the one on the path. *)
Lemma verify_tree db fuel i u key :
  wf false u → sized u → terminated key → (length key < fuel)%nat →
  verify_loop db fuel i (keccak (enc u)) key = Ok (tget u key) ∨
  (∃ j v, verify_loop db fuel i (keccak (enc u)) key = Err (ProofMissing j (keccak (enc v))) ∧ v ∈ visited u key ∧
     db (keccak (enc v)) = None ∧ (v = u ∨ 32 <= len (enc v))) ∨
  (∃ v b, v ∈ visited u key ∧ (v = u ∨ 32 <= len (enc v)) ∧ db (keccak (enc v)) = Some b ∧ b ≠ enc v).
Proof.
  revert i u key. induction fuel as [|fuel IH]; intros i u key Hw Hs Hk Hf; [lia|]. cbn [verify_loop].
  destruct (visited_head u key Hw) as [l0 Hv0].
  destruct (db (keccak (enc u))) as [buf|] eqn:Hbuf.
  2: { right. left. exists i, u. split; [done|]. split; [rewrite Hv0; by left|]. split; [done|by left]. }
  destruct (decide (buf = enc u)) as [->|Hne]; [|right; right; exists u, buf; split; [rewrite Hv0; by left|]; split; [by left|done]].
  destruct (decode_tree u Hw Hs) as (n & -> & He & Hh).
  destruct (get_found_root _ n u key He Hh Hw Hk) as (rest & c & -> & Hfound).
  destruct c as [|?|?|h|v]; cbn in Hfound; try done; [left; by rewrite Hfound| |left; by rewrite Hfound].
  destruct Hfound as (w & l & -> & Hww & Hr & Hlt & H32 & Htget & Hvis & (q & Hsub)).
  rewrite copy_hash by apply keccak_len.
  destruct (IH (S i) w rest Hww (sized_sub _ _ _ Hs Hsub) Hr ltac:(lia)) as [->|[(j & v & -> & Hv & Hno & Hl)|(v & b & Hv & Hl & Hb & Hne)]]; [left; by rewrite Htget|..]; right; [left|right].
  - exists j, v. split; [done|]. split; [rewrite Hvis; apply elem_of_app; by right|]. split; [done|]. destruct Hl as [->|]; by right.
  - exists v, b. split; [rewrite Hvis; apply elem_of_app; by right|]. split; [destruct Hl as [->|]; by right|done].
Qed.

(** ** Making a proof *)

Definition proves (n : node) (u : tree) : Prop := node_item (proofHash n).1 = item_of u ∧ (proofHash n).2 = nodeToHash (proofHash n).1 false ∧
  (∀ h, (proofHash n).1 ≠ hashNode h).

Lemma proves_exp db s b p n t : exp db s b p n t → is_hash n = false → wf false t → proves n t.
Proof.
  intros He Hh Hw. inversion He as [|? ? ? k v fl t' Hsub Hfl|? ? ? ns fl ch Hl Hnone Hc Hfl|]; subst; [by inversion Hw| | |done].
  - split; [|done]. cbn [proofHash fst node_item item_of]. assert (∃ e', wf e' t') as [e' Hwt] by (inversion Hw; subst; eexists; [by constructor|done]).
    destruct (hash_spec _ _ _ _ _ _ _ Hsub Hwt) as (_ & _ & Hi & _).
    change (shrink t' (item_of t')) with (ref_item t'). rewrite <- (Hi eq_refl). by destruct v.
  - inversion Hw as [| | |? Hl17 Hcw H2]; subst. split; [|done]. cbn [proofHash fst]. apply collapsed_full; [done|done|].
    intros i m c Hm Hi. destruct (hash_spec _ _ _ _ _ _ _ (Hc _ _ _ Hm Hi) (Hcw _ _ Hi)) as (Hn & _ & Hr & _). auto.
Qed.

(** What a proof puts: the encodings of the trees that are not embedded. *)
Fixpoint tree_elements (i : nat) (us : list tree) : list (bytes * bytes) :=
  match us with
  | [] => []
  | u :: us => (if (32 <=? len (enc u)) || (i =? 0)%nat then [(keccak (enc u), enc u)] else []) ++ tree_elements (S i) us
  end.

Lemma proof_elements_trees i ns us : Forall2 proves ns us → proof_elements i ns = tree_elements i us.
Proof.
  intros Hf. revert i. induction Hf as [|n u ns us (Hi & Hh & Hno) _ IH]; intros i; [done|]. cbn [proof_elements tree_elements].
  destruct (proofHash n) as [c hn] eqn:Hp. cbn in Hi, Hh, Hno. subst hn. unfold nodeToHash. rewrite encodedBytes_item, Hi. change (encode (item_of u)) with (enc u).
  rewrite andb_true_r. rewrite IH. destruct (Z.ltb_spec (len (enc u)) 32) as [H32|H32].
  - rewrite (proj2 (Z.leb_gt _ _)) by lia. cbn [orb]. destruct c; by try destruct (Hno _ eq_refl).
  - rewrite (proj2 (Z.leb_le _ _)) by lia. done.
Qed.

(** What is loaded at a hash node, and what it stands for. *)
Lemma load_node rd b p h t :
  reader_ok rd → exp (db_node rd) false b p (hashNode h) t →
  ∃ blob n, reader_node rd p (BytesToHash h) = Ok blob ∧ decodeNode (Some h) blob = Ok n ∧
    exp (db_node rd) true b p n t ∧ is_hash n = false.
Proof.
  intros Hrd He. destruct (resolve_hash rd Hrd _ _ _ _ _ newTracer He) as (n & tr & Hr & Hn & Hh & _).
  unfold resolveAndTrack, bind, of_result, modify, ret, fail in Hr.
  destruct (reader_node rd p (BytesToHash h)) as [blob|]; [|done]. cbn beta iota in Hr.
  destruct (decodeNode (Some h) blob) as [n0|] eqn:Hd; [|done]. injection Hr as -> _. by exists blob, n.
Qed.

Lemma prove_nodes_spec rd fuel s b e p n ot key :
  reader_ok rd → oexp (db_node rd) s b p n ot → (∀ t, ot = Some t → wf e t) → key_of e key → enough fuel n key →
  ∃ ns, prove_nodes rd fuel n p key = Ok ns ∧ Forall2 proves ns (ovisited ot key).
Proof.
  intros Hrd. revert s b e p n ot key. induction fuel as [|fuel IH]; intros s b e p n ot key He Hw Hkey Hfuel;
    [unfold enough in Hfuel; destruct (is_hash n); lia|].
  destruct ot as [t|]; cbn in He.
  2: { subst n. exists []. cbn [prove_nodes is_nil]. by rewrite orb_true_r. }
  specialize (Hw t eq_refl). destruct key as [|x0 q0] eqn:Hkeq.
  { destruct e; [|by apply terminated_ne in Hkey]. inversion Hw; subst. by exists []. }
  rewrite <- Hkeq in *. assert (e = false) as -> by (destruct e; [by rewrite Hkeq in Hkey|done]).
  assert ((len key =? 0) || is_nil n = false) as Hgo.
  { rewrite (exp_not_nil _ _ _ _ _ _ He), orb_false_r. apply Z.eqb_neq. rewrite Hkeq, len_cons. pose proof (len_nonneg q0). lia. }
  cbn [prove_nodes]. rewrite Hgo. clear Hgo x0 q0 Hkeq.
  assert (Hpr : is_hash n = false → proves n t) by (intros Hh; by eapply proves_exp).
  inversion He as [| ? ? ? k v fl t' Hsub Hfl|? ? ? ns fl ch Hl Hnone Hc Hfl|? ? ? ? Hwf Hl Hdb Hb]; subst.
  - by inversion Hw.
  - cbn [ovisited visited]. destruct (HasPrefix key k) eqn:Hp; cbn [negb].
    + apply HasPrefix_spec in Hp as [q ->]. rewrite drop_app_length. pose proof (wf_short_ne _ _ Hw) as Hne.
      assert (∃ e', wf e' t' ∧ key_of e' q) as (e' & Hwt & Hq).
      { inversion Hw as [|? ? Hk Hv|? ch Hk _ Hf|]; subst.
        - exists true. split; [by constructor|]. cbn. by apply terminated_prefix in Hkey.
        - exists false. split; [done|]. by eapply terminated_app_nibbles. }
      destruct (IH _ _ e' (p ++ k) v (Some t') q Hsub) as (ns & -> & Hns); [by intros ? [= <-]|done|by eapply enough_short|].
      eexists. split; [reflexivity|]. constructor; [by apply Hpr|done].
    + destruct fuel as [|fuel]; [unfold enough in Hfuel; cbn in Hfuel; destruct key; [by apply terminated_ne in Hkey|cbn in Hfuel; lia]|].
      cbn [prove_nodes is_nil]. rewrite orb_true_r. eexists. split; [reflexivity|]. constructor; [by apply Hpr|constructor].
  - destruct key as [|x q]; [by apply terminated_ne in Hkey|]. destruct (key_of_cons _ _ _ Hkey) as (_ & Hx & Hq).
    destruct (exp_child _ _ _ _ _ _ _ _ He Hw Hx) as (c & -> & Hec & Hchx).
    destruct (IH _ _ (Z.to_nat x =? 16)%nat (p ++ [x]) c (child ch x) q Hec) as (ms & -> & Hms).
    { intros t Ht. by eapply wf_child. } { done. } { by eapply enough_child. }
    cbn [ovisited]. rewrite visited_full. eexists. split; [reflexivity|]. constructor; [by apply Hpr|done].
  - destruct (load_node rd b p _ t Hrd (exp_weaken rd _ _ _ _ _ He)) as (blob & n & -> & Hdn & Hn & Hh). cbn [result_bind]. rewrite Hdn.
    apply (IH true b false p n (Some t) key Hn); [by intros ? [= <-]|done|by eapply enough_loaded].
Qed.

Lemma Prove_stands t ot key :
  committed t = false → stands_for t ot → Forall is_byte key →
  Prove t key = Ok (tree_elements 0 (ovisited ot (keybytesToHex key))).
Proof.
  intros Hc [He Hw _ Hrd] Hk. unfold Prove. rewrite Hc.
  destruct (prove_nodes_spec (reader t) (key_fuel (keybytesToHex key)) _ _ _ _ _ _ (keybytesToHex key) Hrd He Hw) as (ns & -> & Hns);
    [by apply keybytesToHex_terminated|apply key_enough|]. cbn [result_bind]. by rewrite (proof_elements_trees 0 _ _ Hns).
Qed.

(** ** The theorems *)

Lemma tree_elements_in i us h b : (h, b) ∈ tree_elements i us → h = keccak b.
Proof.
  revert i. induction us as [|u us IH]; intros i; cbn; [by intros ?%elem_of_nil|]. intros [Hin|Hin]%elem_of_app; [|by eapply IH].
  destruct (_ || _); [|by apply elem_of_nil in Hin]. apply list_elem_of_singleton in Hin. by injection Hin as -> ->.
Qed.

Lemma tree_elements_has i us u :
  u ∈ us → (∃ l, i = 0%nat ∧ us = u :: l) ∨ 32 <= len (enc u) → (keccak (enc u), enc u) ∈ tree_elements i us.
Proof.
  revert i. induction us as [|w us IH]; intros i Hu Hd; [by apply elem_of_nil in Hu|]. cbn. apply elem_of_app.
  apply elem_of_cons in Hu as [->|Hu].
  - left. destruct Hd as [(l & -> & _)|Hd]; [rewrite orb_true_r; by left|]. rewrite (proj2 (Z.leb_le _ _)) by lia. by left.
  - destruct Hd as [(l & -> & Hl)|Hd]; [|right; apply IH; auto]. injection Hl as -> ->. left. rewrite orb_true_r. by left.
Qed.

Lemma tree_elements_from i us h b : (h, b) ∈ tree_elements i us → ∃ u, u ∈ us ∧ b = enc u.
Proof.
  revert i. induction us as [|u us IH]; intros i; cbn; [by intros ?%elem_of_nil|]. intros [Hin|Hin]%elem_of_app.
  - destruct (_ || _); [|by apply elem_of_nil in Hin]. apply list_elem_of_singleton in Hin. injection Hin as _ ->. exists u. split; [by left|done].
  - destruct (IH _ Hin) as (v & Hv & ->). exists v. split; [by right|done].
Qed.

Lemma root_sized m t B :
  owf (Some t) → reads_like (Some t) m → (∀ k v, m !! k = Some v → 2 * len k + 1 + len v <= B) → B + 600 < two64 → sized t.
Proof. intros Hw Hm HB Hb. eapply bounded_sized; [by apply Hw|by eapply bounded_reads|done]. Qed.

Lemma reads_like_None m : reads_like None m → m = ∅.
Proof.
  intros Hm. apply map_eq. intros k. rewrite lookup_empty. destruct (m !! k) as [v|] eqn:Hk; [|done].
  destruct (rl_dom _ _ Hm _ _ Hk) as [Hb _]. by rewrite <- (rl_get _ _ Hm k Hb) in Hk.
Qed.

(** C14: what a proof shows is true.  Against the root hash of a trie that holds a
    map, whoever made the proof and whatever it contains, as long as what is found
    under a hash has that hash: the verification ends without a panic, and what it
    returns is what the map has for the key; or a node is missing; or the proof has
    under a hash another string than the node of the trie with this hash. *)
Theorem proof_sound t m key db B h u :
  holds t m → m ≠ ∅ → Forall is_byte key → Hash t = (Ok h, u) → honest db →
  (∀ k v, m !! k = Some v → 2 * len k + 1 + len v <= B) → B + 600 < two64 →
  VerifyProof h key db = Ok (m !! key) ∨ (∃ i w, VerifyProof h key db = Err (ProofMissing i w) ∧ db w = None) ∨
  ∃ w x y, db w = Some x ∧ node_blob m y ∧ x ≠ y ∧ keccak x = w ∧ keccak y = w.
Proof.
  intros [_ (ot & Hs & Hm)] Hne Hk Hh Hdb HB Hb. destruct (Hash_stands t ot Hs) as (u' & Hh' & _).
  rewrite Hh' in Hh. injection Hh as <- <-. pose proof (sf_wf _ _ Hs) as Hw. destruct ot as [s|].
  2: { destruct Hne. by apply reads_like_None. }
  pose proof (root_sized m s B Hw Hm HB Hb) as Hsz. unfold VerifyProof. cbn [hash_of].
  destruct (verify_tree db (S (length (keybytesToHex key))) 0 s (keybytesToHex key)) as [->|[(j & v & -> & _ & Hno & _)|(v & b & Hv & _ & Hb' & Hne')]];
    [by apply Hw|done|by apply keybytesToHex_terminated|lia|..].
  - left. f_equal. exact (rl_get _ _ Hm key Hk).
  - right. left. by eexists _, _.
  - right. right. exists (keccak (enc v)), b, (enc v). split_and!; [done| |done|by apply Hdb|done].
    exists (Some s). split_and!; [done|done|]. destruct (visited_sub false s _ v (Hw _ eq_refl) Hv) as [q Hq]. by exists q, v.
Qed.

(** C25: a trie can prove what it holds.  Whatever part of its nodes has been loaded,
    Prove gives the nodes on the path of a key, and the verification of these nodes
    against the root hash returns what the trie has for the key, the absence of a
    value included, unless two different strings among these nodes have one hash.  Of
    an empty trie nothing can be proved: the proof is empty and a node is missing. *)
Theorem proof_complete t m key B h u :
  holds t m → Forall is_byte key → Hash t = (Ok h, u) →
  (∀ k v, m !! k = Some v → 2 * len k + 1 + len v <= B) → B + 600 < two64 →
  ∃ puts, Prove t key = Ok puts ∧ (∀ k x, (k, x) ∈ puts → k = keccak x ∧ node_blob m x) ∧
    if bool_decide (m = ∅) then puts = [] ∧ VerifyProof h key (λ k, written puts !! k) = Err (ProofMissing 0 h)
    else VerifyProof h key (λ k, written puts !! k) = Ok (m !! key) ∨ ∃ k x y, (k, x) ∈ puts ∧ (k, y) ∈ puts ∧ x ≠ y.
Proof.
  intros [Hcom (ot & Hs & Hm)] Hk Hh HB Hb. destruct (Hash_stands t ot Hs) as (u' & Hh' & _).
  rewrite Hh' in Hh. injection Hh as <- <-. pose proof (sf_wf _ _ Hs) as Hw.
  exists (tree_elements 0 (ovisited ot (keybytesToHex key))). split; [by apply Prove_stands|]. split.
  { intros k x Hin. split; [by eapply tree_elements_in|]. destruct (tree_elements_from _ _ _ _ Hin) as (v & Hv & ->). destruct ot as [s|]; [|by apply elem_of_nil in Hv].
    exists (Some s). split_and!; [done|done|]. destruct (visited_sub false s _ v (Hw _ eq_refl) Hv) as [q Hq]. by exists q, v. }
  destruct ot as [s|].
  - rewrite bool_decide_false.
    2: { intros ->. pose proof (reads_like_unique (Some s) None ∅ Hw ltac:(done) Hm reads_like_empty). done. }
    pose proof (root_sized m s B Hw Hm HB Hb) as Hsz. unfold VerifyProof. cbn [hash_of ovisited].
    pose proof (keybytesToHex_terminated _ Hk) as Ht. set (k := keybytesToHex key) in *.
    destruct (visited_head s k (Hw _ eq_refl)) as [l Hvis].
    assert (Hput : ∀ v, v ∈ visited s k → v = s ∨ 32 <= len (enc v) → (keccak (enc v), enc v) ∈ tree_elements 0 (visited s k)).
    { intros v Hv Hl. apply tree_elements_has; [done|]. destruct Hl as [->|?]; [left; by exists l|by right]. }
    destruct (verify_tree (λ h, written (tree_elements 0 (visited s k)) !! h) (S (length k)) 0 s k (Hw _ eq_refl) Hsz Ht) as [->|[(j & v & _ & Hv & Hno & Hl)|(v & b & Hv & Hl & Hb' & Hne)]];
      [lia|left; f_equal; exact (rl_get _ _ Hm key Hk)|..].
    + destruct (written_dom _ _ _ (Hput v Hv Hl)) as [b' Hb']. congruence.
    + right. exists (keccak (enc v)), b, (enc v). split_and!; [by apply written_lookup|by apply Hput|done].
  - apply reads_like_None in Hm as ->. rewrite bool_decide_true by done. split; [done|]. done.
Qed.
End Proofs.

(** ** Examples *)

Definition one_map : gmap bytes bytes := {[one_key := one_value]}.

Lemma proof_sound_witness :
  VerifyProof (toy_hash one_blob) one_key (λ h, if bool_decide (h = toy_hash one_blob) then Some one_blob else None) = Ok (Some one_value) ∧
  (VerifyProof (toy_hash one_blob) one_key (λ h, if bool_decide (h = toy_hash one_blob) then Some one_blob else None) =
     Ok (one_map !! one_key) ∨
   (∃ i w, VerifyProof (toy_hash one_blob) one_key (λ h, if bool_decide (h = toy_hash one_blob) then Some one_blob else None) =
      Err (ProofMissing i w) ∧ (if bool_decide (w = toy_hash one_blob) then Some one_blob else None) = None) ∨
   ∃ w x y, (if bool_decide (w = toy_hash one_blob) then Some one_blob else None) = Some x ∧ @node_blob toy_keccak one_map y ∧
     x ≠ y ∧ toy_hash x = w ∧ toy_hash y = w).
Proof.
  split; [vm_compute; reflexivity|].
  apply (@proof_sound toy_keccak one_trie one_map one_key
    (λ h, if bool_decide (h = toy_hash one_blob) then Some one_blob else None) 100 (toy_hash one_blob) (@Hash toy_keccak one_trie).2).
  - exact (@one_trie_holds toy_keccak).
  - done.
  - exact one_key_bytes.
  - vm_compute. reflexivity.
  - intros h b. case_bool_decide; [|done]. by intros [= <-].
  - apply one_bound.
  - by vm_compute.
Defined.

Lemma proof_complete_witness :
  ∃ puts, @Prove toy_keccak one_trie one_key = Ok puts ∧
    (VerifyProof (toy_hash one_blob) one_key (λ k, written puts !! k) = Ok (one_map !! one_key) ∨
     ∃ k x y, (k, x) ∈ puts ∧ (k, y) ∈ puts ∧ x ≠ y).
Proof.
  destruct (@proof_complete toy_keccak one_trie one_map one_key 100 (toy_hash one_blob) (@Hash toy_keccak one_trie).2)
    as (puts & Hp & _ & Hv).
  - exact (@one_trie_holds toy_keccak).
  - exact one_key_bytes.
  - vm_compute. reflexivity.
  - apply one_bound.
  - by vm_compute.
  - exists puts. split; [exact Hp|]. rewrite bool_decide_false in Hv by done. exact Hv.
Defined.
