(* ===== verification/StackTrie.v ===== *)
(** * The stack trie

    parallelizable-client-go-ethereum/trie/stacktrie.go, with the encoders of
    node_enc.go that it uses, and [DeriveSha] of core/types/hashing.go: a trie whose
    keys come in ascending order, and which hashes a subtree as soon as no key can
    come into it any more.  The nodes are values: the code writes to them in place,
    and none is shared.  The pools of nodes and slices are left out, and the calls
    of [onTrieNode] are the list of what it is called with. *)

From S2P Require Import Prelude StateError Rlp Crypto TrieKeys TrieSpec TrieNode Trie.
Open Scope eigen_scope.
Open Scope step_scope.

(** [bytes.Compare] *)
Fixpoint bytes_Compare (a b : bytes) : Z :=
  match a, b with
  | [], [] => 0
  | [], _ => -1
  | _, [] => 1
  | x :: a, y :: b => if x <? y then -1 else if x >? y then 1 else bytes_Compare a b
  end.

(** [stNode]; the type of the node is the constructor.  A leaf has no children, an
    extension one. *)
Inductive stNode : Type :=
  | emptyNode
  | branchNode (children : list (option stNode))
  | extNode (key : bytes) (child : stNode)
  | leafNode (key val : bytes)
  | hashedNode (val : bytes).

Inductive stack_error : Type :=
  | ErrEmptyValue
  | ErrKeyOrder
  (** panics *)
  | ExistingKey
  | InsertIntoHash
  | StackIndex
  | CompactPanic.

(** A call of [onTrieNode]: path, hash and blob. *)
Definition stack_commit : Type := bytes * bytes * bytes.

(** ** Encoders (node_enc.go) *)

(** A child that is nil, embedded or hashed. *)
Definition encode_child (w : encBuffer) (c : option bytes) : encBuffer :=
  match c with
  | None => Enc.write_raw w [128]
  | Some c => if len c <? 32 then Enc.write_raw w c else Enc.writeBytes w c
  end.

Definition encode_with (body : encBuffer → encBuffer) : option bytes :=
  let '(w, offset) := Enc.list_ Enc.reset in
  Enc.makeBytes <$> Enc.listEnd (body w) offset.

Definition fullnodeEncoder_encode (Children : list (option bytes)) : option bytes :=
  encode_with (λ w, fold_left encode_child Children w).
Definition extNodeEncoder_encode (Key : bytes) (Val : option bytes) : option bytes :=
  encode_with (λ w, encode_child (Enc.writeBytes w Key) Val).
Definition leafNodeEncoder_encode (Key Val : bytes) : option bytes :=
  encode_with (λ w, Enc.writeBytes (Enc.writeBytes w Key) Val).

(** ** Nodes *)

Definition no_nodes : list (option stNode) := replicate 16 None.

Definition newLeaf (key val : bytes) : stNode := leafNode key val.
Definition newExt (key : bytes) (child : stNode) : stNode := extNode key child.

(** Where the key of the node differs from the key; [None]: past the key. *)
Fixpoint getDiffIndex (n_key key : bytes) : option nat :=
  match n_key, key with
  | [], _ => Some 0%nat
  | nibble :: n_key, x :: key => if negb (nibble =? x) then Some 0%nat else S <$> getDiffIndex n_key key
  | _ :: _, [] => None
  end.

(** [p.children[i] = n]; an index past the array panics. *)
Definition put_child (i : Z) (n : stNode) (ch : list (option stNode)) : result stack_error (list (option stNode)) :=
  if (0 <=? i) && (i <? len ch) then Ok (<[Z.to_nat i := Some n]> ch) else Err StackIndex.

Section StackTrie.
Context `{Keccak}.

(** ** Hashing *)

(** The end of [hash]: the value of the hashed node, and the callback. *)
Definition finish (blob path : bytes) : bytes * list stack_commit :=
  if (len blob <? 32) && (0 <? len path) then (blob, [])
  else
    let val := keccak blob in
    (val, [(path, BytesToHash val, blob)]).

Definition encoded (o : option bytes) : result stack_error bytes := match o with Some b => Ok b | None => Err CompactPanic end.

(** [hash]: the value that the node is left with. *)
Fixpoint hash (st : stNode) (path : bytes) : result stack_error (bytes * list stack_commit) :=
  match st with
  | hashedNode val => Ok (val, [])
  | emptyNode => Ok (EmptyRootHash, [])
  | branchNode ch =>
      let* (vals, log) :=
        (fix go (i : nat) (ch : list (option stNode)) : result stack_error (list (option bytes) * list stack_commit) :=
           match ch with
           | [] => Ok ([], [])
           | None :: ch => let* (vals, log) := go (S i) ch in Ok (None :: vals, log)
           | Some c :: ch =>
               let* (v, log1) := hash c (path ++ [Z.of_nat i]) in
               let* (vals, log2) := go (S i) ch in
               Ok (Some v :: vals, log1 ++ log2)
           end) 0%nat ch in
      let* blob := encoded (fullnodeEncoder_encode (vals ++ [None])) in
      let '(val, last) := finish blob path in
      Ok (val, log ++ last)
  | extNode key child =>
      let* (v, log) := hash child (path ++ key) in
      let* compact := encoded (hexToCompactInPlace key) in
      let* blob := encoded (extNodeEncoder_encode compact (Some v)) in
      let '(val, last) := finish blob path in
      Ok (val, log ++ last)
  | leafNode key val =>
      let* compact := encoded (hexToCompactInPlace (key ++ [16])) in
      let* blob := encoded (leafNodeEncoder_encode compact val) in
      Ok (finish blob path)
  end.

(** ** Insertion *)

(** Hashing the closest elder sibling, unless it is hashed. *)
Fixpoint hash_elder (i : nat) (ch : list (option stNode)) (path : bytes)
    : result stack_error (list (option stNode) * list stack_commit) :=
  match i with
  | O => Ok (ch, [])
  | S i =>
      match ch !! i with
      | Some (Some (hashedNode _)) => Ok (ch, [])
      | Some (Some c) =>
          let* (v, log) := hash c (path ++ [Z.of_nat i]) in
          Ok (<[i := Some (hashedNode v)]> ch, log)
      | _ => hash_elder i ch path
      end
  end.

(** The branch of the original part and the new leaf; its key is cut. *)
Definition split_at (diffidx : nat) (st_key key value : bytes) (n : stNode) : result stack_error stNode :=
  match st_key !! diffidx, key !! diffidx with
  | Some origIdx, Some newIdx =>
      let* ch := put_child origIdx n no_nodes in
      let* ch := put_child newIdx (newLeaf (drop (S diffidx) key) value) ch in
      let p := branchNode ch in
      Ok (if (diffidx =? 0)%nat then p else extNode (take diffidx st_key) p)
  | _, _ => Err StackIndex
  end.

Fixpoint insert (st : stNode) (key value path : bytes) : result stack_error (stNode * list stack_commit) :=
  match st with
  | branchNode ch =>
      match key with
      | [] => Err StackIndex
      | idx :: key' =>
          let* (ch', log1) := hash_elder (Z.to_nat idx) ch path in
          let* (c, log2) :=
            (fix pick (cs : list (option stNode)) (n : nat) : result stack_error (stNode * list stack_commit) :=
               match cs, n with
               | [], _ => Err StackIndex
               | None :: _, O => Ok (newLeaf key' value, [])
               | Some c :: _, O => insert c key' value (path ++ [idx])
               | _ :: cs, S n => pick cs n
               end) ch (Z.to_nat idx) in
          Ok (branchNode (<[Z.to_nat idx := Some c]> ch'), log1 ++ log2)
      end
  | extNode st_key child =>
      match getDiffIndex st_key key with
      | None => Err StackIndex
      | Some diffidx =>
          if (diffidx =? length st_key)%nat then
            let* (c, log) := insert child (drop diffidx key) value (path ++ take diffidx key) in
            Ok (extNode st_key c, log)
          else
            let* (n, log) :=
              if (diffidx <? length st_key - 1)%nat then
                let* (v, log) := hash (newExt (drop (S diffidx) st_key) child) (path ++ take (S diffidx) st_key) in
                Ok (hashedNode v, log)
              else
                let* (v, log) := hash child (path ++ st_key) in
                Ok (hashedNode v, log) in
            let* st := split_at diffidx st_key key value n in
            Ok (st, log)
      end
  | leafNode st_key st_val =>
      match getDiffIndex st_key key with
      | None => Err StackIndex
      | Some diffidx =>
          if (length st_key <=? diffidx)%nat then Err ExistingKey
          else
            let* (v, log) := hash (newLeaf (drop (S diffidx) st_key) st_val) (path ++ take (S diffidx) st_key) in
            let* st := split_at diffidx st_key key value (hashedNode v) in
            Ok (st, log)
      end
  | emptyNode => Ok (leafNode key value, [])
  | hashedNode _ => Err InsertIntoHash
  end.

(** ** The trie *)

(** [log]: what the callback has been called with. *)
Record stack_trie : Type := MkStackTrie {
  st_root : stNode;
  st_last : bytes;
  st_log : list stack_commit
}.

Definition NewStackTrie : stack_trie := MkStackTrie emptyNode [] [].

Abbreviation S_ A := (SE stack_trie stack_error A).

Definition stack_Update (key value : bytes) : S_ () :=
  if len value =? 0 then fail ErrEmptyValue
  else
    do k <- of_option StackIndex (writeHexKey (replicate (Nat.max 64 (2 * length key)) 0) key);
    do t <- get id;
    if bytes_Compare (st_last t) k >=? 0 then fail ErrKeyOrder
    else
      do (root, log) <- of_result (insert (st_root t) k value []);
      modify (λ t, MkStackTrie root k (st_log t ++ log)).

Definition stack_Reset : S_ () := modify (λ t, MkStackTrie emptyNode [] (st_log t)).

Definition stack_Hash : S_ bytes :=
  do t <- get id;
  do (val, log) <- of_result (hash (st_root t) []);
  do! modify (λ t, MkStackTrie (hashedNode val) (st_last t) (st_log t ++ log));
  ret (BytesToHash val).
End StackTrie.

(** ** Hashing a list (core/types/hashing.go) *)

(** [TrieHasher]; the errors of [Update] are dropped by the caller, a panic is not:
    it is an error of the state monad. *)
Class TrieHasher (T : Type) : Type := {
  hasher_error : Type;
  hasher_Reset : SE T hasher_error ();
  hasher_Update : bytes → bytes → SE T hasher_error ();
  (** whether an error is a panic *)
  hasher_panics : hasher_error → bool;
  hasher_Hash : SE T hasher_error bytes
}.

Section DeriveSha.
Context {T : Type} `{TrieHasher T}.
Abbreviation D A := (SE T hasher_error A).

(** A call whose error is dropped. *)
Definition ignore_error (m : D ()) : D () := λ t,
  match m t with
  | (Err e, t) => if hasher_panics e then (Err e, t) else (Ok tt, t)
  | r => r
  end.

(** The items of the list: [EncodeIndex] of each index. *)
Definition derive_item (items : list bytes) (i : nat) : D () :=
  ignore_error (hasher_Update (AppendUint64 [] (Z.of_nat i)) (nth i items [])).

Fixpoint derive_items (items : list bytes) (idx : list nat) : D () :=
  match idx with
  | [] => ret tt
  | i :: idx => do! derive_item items i; derive_items items idx
  end.

(** The three loops: 1 to 127, 0, and from 128 on. *)
Definition DeriveSha (items : list bytes) : D bytes :=
  let n := length items in
  do! hasher_Reset;
  do! derive_items items (seq 1 (Nat.min n 128 - 1));
  do! (if (0 <? n)%nat then derive_item items 0 else ret tt);
  do! derive_items items (seq 128 (n - 128));
  hasher_Hash.
End DeriveSha.

#[export] Instance stack_hasher `{Keccak} : TrieHasher stack_trie := {|
  hasher_Reset := stack_Reset;
  hasher_Update := stack_Update;
  hasher_panics := λ e, match e with ErrEmptyValue | ErrKeyOrder => false | _ => true end;
  hasher_Hash := stack_Hash
|}.
