(* ===== verification/StackLaws.v ===== *)
(** * The stack trie is a trie

    The nodes of StackTrie.v stand for the trees of TrieSpec.v: hashing gives the
    hash of the tree and has called back with each of its nodes once, and an
    insertion behind all other keys is that of the tree. *)

From S2P Require Import Prelude StateError Rlp Crypto TrieKeys TrieSpec TrieNode TrieExpand Trie TrieSim TrieCommit StackTrie.
Open Scope eigen_scope.

(** ** Order of the keys *)

(** The keys part, and the second one is greater: it comes later, and neither is a
    prefix of the other. *)
Definition before (a b : bytes) : Prop := ∃ p x y a' b', a = p ++ x :: a' ∧ b = p ++ y :: b' ∧ x < y.

Lemma before_cons x y a b : before (x :: a) (y :: b) ↔ x < y ∨ (x = y ∧ before a b).
Proof.
  split.
  - intros ([|z p] & x' & y' & a' & b' & Ha & Hb & Hlt); simplify_eq/=; [by left|right]. split; [done|]. by exists p, x', y', a', b'.
  - intros [Hlt|[-> (p & x' & y' & a' & b' & -> & -> & Hlt)]]; [by exists [], x, y, a, b|]. by exists (y :: p), x', y', a', b'.
Qed.

Lemma before_nil_l b : ¬ before [] b.
Proof. intros (p & x & y & a' & b' & Ha & _). by destruct p. Qed.

Lemma before_app k a b : before (k ++ a) (k ++ b) ↔ before a b.
Proof. induction k as [|x k IH]; [done|]. cbn. rewrite before_cons. split; [intros [?|[_ ?]]; [lia|by apply IH]|intros ?; right; split; [done|by apply IH]]. Qed.

Lemma before_trans a b c : before a b → before b c → before a c.
Proof.
  revert b c. induction a as [|x a IH]; intros b c Hab Hbc; [by apply before_nil_l in Hab|].
  destruct b as [|y b]; [by apply before_nil_l in Hbc|]. destruct c as [|z c].
  { destruct Hbc as (p & ? & ? & ? & ? & _ & Hc & _). by destruct p. }
  rewrite before_cons in *. destruct Hab as [Hxy|[-> Hab]], Hbc as [Hyz|[-> Hbc]]; [left; lia..|]. right. split; [done|]. by eapply IH.
Qed.

Lemma before_Compare a b : before a b → bytes_Compare a b = -1.
Proof.
  revert b. induction a as [|x a IH]; intros b Hab; [by apply before_nil_l in Hab|]. destruct b as [|y b].
  { destruct Hab as (p & ? & ? & ? & ? & _ & Hc & _). by destruct p. }
  apply before_cons in Hab as [Hxy|[-> Hab]]; cbn.
  - by rewrite (proj2 (Z.ltb_lt _ _)).
  - rewrite Z.ltb_irrefl, Z.gtb_ltb, Z.ltb_irrefl. by apply IH.
Qed.

(** What a key does against the key of a node on the way of the last one. *)
Lemma before_split k r key :
  before (k ++ r) key →
  (∃ q x a y b, k = q ++ x :: a ∧ key = q ++ y :: b ∧ x < y) ∨ (∃ key', key = k ++ key' ∧ before r key').
Proof.
  revert key. induction k as [|z k IH]; intros key Hb; [right; by exists key|]. destruct key as [|w key].
  { destruct Hb as (p & ? & ? & ? & ? & _ & Hc & _). by destruct p. }
  cbn in Hb. apply before_cons in Hb as [Hlt|[<- Hb]]; [left; by exists [], z, k, w, key|].
  destruct (IH _ Hb) as [(q & x & a & y & b & -> & -> & Hlt)|(key' & -> & Hr)]; [left; by exists (z :: q), x, a, y, b|right; by exists key'].
Qed.

Lemma diverge_unique (p q : bytes) x y z w a b c d :
  p ++ x :: a = q ++ z :: c → p ++ y :: b = q ++ w :: d → x ≠ y → z ≠ w → p = q ∧ x = z ∧ y = w ∧ a = c ∧ b = d.
Proof.
  revert q. induction p as [|u p IH]; intros [|v q] H1 H2 Hxy Hzw; cbn in *.
  - injection H1 as -> ->. by injection H2 as -> ->.
  - injection H1 as -> _. by injection H2 as -> _.
  - injection H1 as -> _. by injection H2 as -> _.
  - injection H1 as -> H1. injection H2 as H2. by destruct (IH q H1 H2 Hxy Hzw) as (-> & -> & -> & -> & ->).
Qed.

Lemma getDiffIndex_part q x a y b : x ≠ y → getDiffIndex (q ++ x :: a) (q ++ y :: b) = Some (length q).
Proof.
  intros Hxy. induction q as [|z q IH]; cbn; [by rewrite (proj2 (Z.eqb_neq _ _))|]. rewrite Z.eqb_refl. cbn. by rewrite IH.
Qed.

Lemma getDiffIndex_full k r : getDiffIndex k (k ++ r) = Some (length k).
Proof. induction k as [|z k IH]; [by destruct r|]. cbn. rewrite Z.eqb_refl. cbn. by rewrite IH. Qed.

(** ** The encoders *)

Definition child_bytes (c : option bytes) : bytes :=
  match c with None => [128] | Some c => if len c <? 32 then c else encode (Str c) end.

Lemma encode_child_adds w c : adds w (encode_child w c) (child_bytes c).
Proof. destruct c as [c|]; cbn; [|apply adds_raw]. destruct (_ <? _); [apply adds_raw|apply adds_writeBytes]. Qed.

Lemma fold_children_adds cs w : adds w (fold_left encode_child cs w) (concat (map child_bytes cs)).
Proof.
  revert w. induction cs as [|c cs IH]; intros w; [apply adds_nil|]. cbn. eapply adds_app; [apply encode_child_adds|apply IH].
Qed.

Lemma encode_with_adds body e : (∀ w, adds w (body w) e) → encode_with body = Some (encode_list e).
Proof.
  intros Hb. unfold encode_with. destruct (Enc.list_ Enc.reset) as [w off] eqn:Hl.
  destruct (adds_list Enc.reset (body w) e) as (w' & He & Ha); [rewrite Hl; apply Hb|]. rewrite Hl in He. cbn in He. rewrite He.
  cbn. by rewrite (proj1 (adds_makeBytes _ _ Ha)).
Qed.

Lemma fullnodeEncoder_spec cs : fullnodeEncoder_encode cs = Some (encode_list (concat (map child_bytes cs))).
Proof. apply encode_with_adds. intros w. apply fold_children_adds. Qed.

Lemma extNodeEncoder_spec k v : extNodeEncoder_encode k v = Some (encode_list (encode (Str k) ++ child_bytes v)).
Proof. apply encode_with_adds. intros w. eapply adds_app; [apply adds_writeBytes|apply encode_child_adds]. Qed.

Lemma leafNodeEncoder_spec k v : leafNodeEncoder_encode k v = Some (encode (Lst [Str k; Str v])).
Proof.
  apply encode_with_adds. intros w. cbn [map concat]. rewrite app_nil_r. eapply adds_app; apply adds_writeBytes.
Qed.

Section Laws.
Context `{Keccak}.

(** ** The nodes of a tree *)

Definition own (p : bytes) (t : tree) : list stack_commit :=
  if (len (enc t) <? 32) && (0 <? len p) then [] else [(p, keccak (enc t), enc t)].

(** The path, hash and encoding of every node that is not embedded. *)
Fixpoint entries (p : bytes) (t : tree) : list stack_commit :=
  match t with
  | Leaf _ => []
  | Short k t' => entries (p ++ k) t' ++ own p t
  | Full ch =>
      (fix go (i : nat) (ch : list (option tree)) : list stack_commit :=
         match ch with
         | [] => []
         | None :: ch => go (S i) ch
         | Some c :: ch => entries (p ++ [Z.of_nat i]) c ++ go (S i) ch
         end) 0%nat ch ++ own p t
  end.

Definition child_entries (p : bytes) (i : nat) (c : option tree) : list stack_commit :=
  match c with Some c => entries (p ++ [Z.of_nat i]) c | None => [] end.

Lemma entries_full p ch : entries p (Full ch) = concat (imap (child_entries p) ch) ++ own p (Full ch).
Proof.
  cbn [entries]. f_equal.
  assert (∀ i, (fix go (i : nat) (ch : list (option tree)) : list stack_commit :=
     match ch with
     | [] => []
     | None :: ch => go (S i) ch
     | Some c :: ch => entries (p ++ [Z.of_nat i]) c ++ go (S i) ch
     end) i ch = concat (imap (λ j, child_entries p (i + j)) ch)) as Hgo.
  { induction ch as [|c ch IH]; intros i; [done|]. cbn [imap concat]. rewrite Nat.add_0_r.
    rewrite (imap_ext _ (λ j, child_entries p (S i + j))) by (intros; cbn; by rewrite Nat.add_succ_r).
    destruct c; cbn [child_entries app]; by rewrite IH. }
  rewrite Hgo. done.
Qed.

(** What the node at a path is known by. *)
Definition val_at (p : bytes) (t : tree) : bytes := if (len (enc t) <? 32) && (0 <? len p) then enc t else keccak (enc t).

Lemma finish_spec p t : finish (enc t) p = (val_at p t, own p t).
Proof.
  unfold finish, val_at, own. destruct (_ && _); [done|]. by rewrite BytesToHash_32 by apply keccak_len.
Qed.

Lemma child_bytes_val p t : p ≠ [] → wf false t → child_bytes (Some (val_at p t)) = encode (ref_item t).
Proof.
  intros Hp Hw. unfold val_at. assert (0 <? len p = true) as -> by (destruct p; [done|]; rewrite len_cons; pose proof (len_nonneg p); apply Z.ltb_lt; lia).
  rewrite andb_true_r, ref_item_node by done. cbn [child_bytes]. destruct (Z.ltb_spec (len (enc t)) 32) as [Hl|Hl].
  - by rewrite (proj2 (Z.ltb_lt _ _)).
  - by rewrite keccak_len.
Qed.

(** ** What a node stands for *)

(** [rel p st t L]: at the path [p] the node stands for the tree, and the callback
    has been called with [L] for the parts that are hashed. *)
Inductive rel : bytes → stNode → tree → list stack_commit → Prop :=
  | rel_leaf p k v : rel p (leafNode k v) (Short (k ++ [16]) (Leaf v)) []
  | rel_ext p k c t L : rel (p ++ k) c t L → rel p (extNode k c) (Short k t) L
  | rel_branch p cs ch Ls :
      length cs = 16%nat → length ch = 16%nat → length Ls = 16%nat →
      (∀ i, cs !! i = Some None → ch !! i = Some None ∧ Ls !! i = Some []) →
      (∀ i c, cs !! i = Some (Some c) → is_Some (ch !! i ≫= id)) →
      (∀ i c t L, cs !! i = Some (Some c) → ch !! i = Some (Some t) → Ls !! i = Some L → rel (p ++ [Z.of_nat i]) c t L) →
      rel p (branchNode cs) (Full (ch ++ [None])) (concat Ls)
  | rel_hashed p t : p ≠ [] → wf false t → rel p (hashedNode (val_at p t)) t (entries p t).

Lemma nonempty_app (p : bytes) x : p ++ [x] ≠ [].
Proof. by destruct p. Qed.
#[local] Hint Resolve nonempty_app : core.

Lemma rel_not_leaf p st v L : ¬ rel p st (Leaf v) L.
Proof. inversion 1; subst. match goal with Hw : wf _ _ |- _ => by inversion Hw end. Qed.

(** ** Hashing *)

Lemma compact_spec k : hexkey k → k ≠ [] → encoded (hexToCompactInPlace k) = Ok (hexToCompact k).
Proof. intros Hk Hn. rewrite hexToCompactInPlace_equiv by done. by rewrite bool_decide_false. Qed.

(** The loop over the children of a branch. *)
Definition hash_children (path : bytes) : nat → list (option stNode) → result stack_error (list (option bytes) * list stack_commit) :=
  fix go (i : nat) (ch : list (option stNode)) :=
    match ch with
    | [] => Ok ([], [])
    | None :: ch => let* (vals, log) := go (S i) ch in Ok (None :: vals, log)
    | Some c :: ch =>
        let* (v, log1) := hash c (path ++ [Z.of_nat i]) in
        let* (vals, log2) := go (S i) ch in
        Ok (Some v :: vals, log1 ++ log2)
    end.

Lemma hash_branch ch path :
  hash (branchNode ch) path =
    let* (vals, log) := hash_children path 0 ch in
    let* blob := encoded (fullnodeEncoder_encode (vals ++ [None])) in
    let '(val, last) := finish blob path in
    Ok (val, log ++ last).
Proof. reflexivity. Qed.

(** Hashing a node gives what its tree is known by, and calls back with the
    nodes that are left. *)
Definition hashes (p : bytes) (st : stNode) (t : tree) (L : list stack_commit) : Prop :=
  ∃ L', hash st p = Ok (val_at p t, L') ∧ L ++ L' ≡ₚ entries p t.

Lemma hash_children_spec p i cs ch Ls :
  length cs = length ch → length Ls = length ch →
  (∀ j, cs !! j = Some None → ch !! j = Some None ∧ Ls !! j = Some []) →
  (∀ j c, cs !! j = Some (Some c) → is_Some (ch !! j ≫= id)) →
  (∀ j c t L, cs !! j = Some (Some c) → ch !! j = Some (Some t) → Ls !! j = Some L → hashes (p ++ [Z.of_nat (i + j)]) c t L ∧ wf false t) →
  ∃ vals log, hash_children p i cs = Ok (vals, log) ∧ map child_bytes vals = map (λ c, encode (child_item c)) ch ∧
    concat Ls ++ log ≡ₚ concat (imap (λ j, child_entries p (i + j)) ch).
Proof.
  revert i ch Ls. induction cs as [|c cs IH]; intros i [|o ch] [|L Ls] Hl1 Hl2 Hnone Hsome Hrel; try done; [by exists [], []|].
  injection Hl1 as Hl1. injection Hl2 as Hl2.
  destruct (IH (S i) ch Ls) as (vals & log & Hgo & Hvals & Hlog); [done|done|..].
  { intros j. apply (Hnone (S j)). } { intros j c'. apply (Hsome (S j)). }
  { intros j c' t L' H1 H2 H3. specialize (Hrel (S j) c' t L' H1 H2 H3). by rewrite Nat.add_succ_r in Hrel. }
  assert (imap ((λ j, child_entries p (i + j)) ∘ S) ch = imap (λ j, child_entries p (S i + j)) ch) as Him
    by (apply imap_ext; intros; cbn; by rewrite Nat.add_succ_r).
  destruct c as [c|].
  - destruct (Hsome 0%nat c eq_refl) as [t Ht]. cbn in Ht. subst o. destruct (Hrel 0%nat c t L eq_refl eq_refl eq_refl) as [(L' & Hh & Hp) Hw].
    rewrite Nat.add_0_r in Hh, Hp. exists (Some (val_at (p ++ [Z.of_nat i]) t) :: vals), (L' ++ log). cbn [hash_children]. rewrite Hh. cbn [result_bind].
    change (_ (S i) cs) with (hash_children p (S i) cs). rewrite Hgo. cbn [result_bind]. split; [done|]. split.
    { cbn [map]. f_equal; [|done]. by apply child_bytes_val. }
    cbn [concat imap]. rewrite Him, Nat.add_0_r. cbn [child_entries]. rewrite <- Hp, <- Hlog. solve_Permutation.
  - destruct (Hnone 0%nat eq_refl) as [Ho HL]. injection Ho as ->. injection HL as ->.
    exists (None :: vals), log. cbn [hash_children]. change (_ (S i) cs) with (hash_children p (S i) cs). rewrite Hgo. cbn [result_bind].
    split; [done|]. split; [cbn [map]; by rewrite Hvals|]. cbn [concat imap app child_entries]. by rewrite Him, Hlog.
Qed.

Lemma stack_hash_spec p st t L : rel p st t L → wf false t → hashes p st t L.
Proof.
  induction 1 as [p k v|p k c t L Hr IH|p cs ch Ls Hl1 Hl2 Hl3 Hnone Hsome Hr IH|p t Hp Hw]; intros Hw'; unfold hashes.
  - inversion Hw' as [|? ? Hk Hv| |]; subst. cbn [hash]. rewrite compact_spec by (by right || by apply terminated_ne). cbn [result_bind].
    rewrite leafNodeEncoder_spec. cbn [encoded result_bind]. change (encode _) with (enc (Short (k ++ [16]) (Leaf v))). rewrite finish_spec. by eexists.
  - inversion Hw' as [| |? ch Hk Hne Hf|]; subst; [by apply rel_not_leaf in Hr|]. destruct (IH Hf) as (L' & Hh & Hp).
    cbn [hash]. rewrite Hh. cbn [result_bind]. rewrite compact_spec by (by left || done). cbn [result_bind].
    rewrite extNodeEncoder_spec. cbn [encoded result_bind]. rewrite child_bytes_val by (done || by destruct p).
    assert (encode_list (encode (Str (hexToCompact k)) ++ encode (ref_item (Full ch))) = enc (Short k (Full ch))) as ->.
    { unfold enc. cbn [item_of encode map concat]. by rewrite app_nil_r. }
    rewrite finish_spec. eexists. split; [done|]. cbn [entries]. rewrite <- Hp. by rewrite app_assoc.
  - inversion Hw' as [| | |? Hl Hc _]; subst.
    destruct (hash_children_spec p 0 cs ch Ls) as (vals & log & Hgo & Hvals & Hlog); [congruence|congruence|done|done|..].
    { intros j c t L H1 H2 H3. assert ((ch ++ [None]) !! j = Some (Some t)) as Hj by (by apply lookup_app_l_Some).
      pose proof (lookup_lt_Some _ _ _ H2). assert (wf false t) as Hwt by (specialize (Hc _ _ Hj); by rewrite (proj2 (Nat.eqb_neq j 16)) in Hc by lia).
      split; [|done]. by apply (IH j c t L). }
    rewrite hash_branch, Hgo. cbn [result_bind]. rewrite fullnodeEncoder_spec. cbn [encoded result_bind].
    assert (encode_list (concat (map child_bytes (vals ++ [None]))) = enc (Full (ch ++ [None]))) as ->.
    { unfold enc. cbn [item_of encode]. change (map _ (ch ++ [None])) with (map child_item (ch ++ [None])).
      by rewrite !map_app, map_map, Hvals. }
    rewrite finish_spec. eexists. split; [done|]. rewrite entries_full, imap_app. cbn [imap child_entries]. rewrite concat_app. cbn [concat]. rewrite !app_nil_r.
    rewrite app_assoc. by rewrite Hlog.
  - exists []. split; [done|]. by rewrite app_nil_r.
Qed.

(** ** Insertion *)

(** The components of a branch and of its tree. *)
Record branch_rel (p : bytes) (cs : list (option stNode)) (ch : list (option tree)) (Ls : list (list stack_commit)) : Prop := {
  br_nodes : length cs = 16%nat;
  br_trees : length ch = 16%nat;
  br_logs : length Ls = 16%nat;
  br_none i : cs !! i = Some None → ch !! i = Some None ∧ Ls !! i = Some [];
  br_some i c : cs !! i = Some (Some c) → is_Some (ch !! i ≫= id);
  br_child i c t L : cs !! i = Some (Some c) → ch !! i = Some (Some t) → Ls !! i = Some L → rel (p ++ [Z.of_nat i]) c t L
}.

Lemma rel_branch_inv p cs t L :
  rel p (branchNode cs) t L ↔ ∃ ch Ls, t = Full (ch ++ [None]) ∧ L = concat Ls ∧ branch_rel p cs ch Ls.
Proof.
  split.
  - inversion 1; subst. eexists _, _. split; [done|]. split; [done|]. by split.
  - intros (ch & Ls & -> & -> & []). by constructor.
Qed.

Lemma concat_swap_perm {A} (Ls : list (list A)) i old new extra :
  Ls !! i = Some old → old ++ extra ≡ₚ new → concat Ls ++ extra ≡ₚ concat (<[i := new]> Ls).
Proof.
  intros Hi Hp. rewrite <- (take_drop_middle Ls i old Hi) at 1. rewrite insert_take_drop by (by eapply lookup_lt_Some).
  rewrite !concat_app. cbn [concat]. rewrite <- Hp. solve_Permutation.
Qed.

(** A child is put at an index, or replaced there. *)
Lemma branch_rel_set p cs ch Ls i c t L :
  branch_rel p cs ch Ls → (i < 16)%nat → rel (p ++ [Z.of_nat i]) c t L →
  branch_rel p (<[i := Some c]> cs) (<[i := Some t]> ch) (<[i := L]> Ls).
Proof.
  intros [H1 H2 H3 Hnone Hsome Hc] Hi Hr. split; [by rewrite length_insert..| | |].
  - intros j Hj. apply list_lookup_insert_Some in Hj as [(_ & ? & _)|[Hne Hj]]; [done|]. rewrite !list_lookup_insert_ne by done. by apply Hnone.
  - intros j c' Hj. destruct (decide (i = j)) as [<-|Hne]; [rewrite list_lookup_insert_eq by lia; by eexists|].
    rewrite list_lookup_insert_ne in Hj by done. rewrite list_lookup_insert_ne by done. by eapply Hsome.
  - intros j c' t' L' Hj Ht HL. destruct (decide (i = j)) as [<-|Hne].
    + rewrite list_lookup_insert_eq in Hj by lia. rewrite list_lookup_insert_eq in Ht by lia. rewrite list_lookup_insert_eq in HL by lia. by simplify_eq.
    + rewrite list_lookup_insert_ne in Hj by done. rewrite list_lookup_insert_ne in Ht by done. rewrite list_lookup_insert_ne in HL by done. by eapply Hc.
Qed.

(** The way of the last key: nothing on it is hashed, and nothing is to its right. *)
Inductive opened : stNode → bytes → Prop :=
  | opened_leaf k v : opened (leafNode k v) k
  | opened_ext k c r : opened c r → opened (extNode k c) (k ++ r)
  | opened_branch cs x c r :
      is_nibble x → cs !! Z.to_nat x = Some (Some c) → opened c r →
      (∀ i c', cs !! i = Some (Some c') → (i <= Z.to_nat x)%nat) → opened (branchNode cs) (x :: r).

(** [rel], whatever the order of the calls. *)
Definition stands (p : bytes) (st : stNode) (t : tree) (L : list stack_commit) : Prop := ∃ L', rel p st t L' ∧ L ≡ₚ L'.

Lemma no_nodes_rel p : branch_rel p no_nodes (replicate 16 None) (replicate 16 []).
Proof.
  split; [done..| | |].
  - intros i Hi. apply lookup_replicate in Hi as [_ Hi]. split; by apply lookup_replicate.
  - intros i c Hi. by apply lookup_replicate in Hi as [? _].
  - intros i c t L Hi. by apply lookup_replicate in Hi as [? _].
Qed.

Lemma put_child_ok x n ch : is_nibble x → length ch = 16%nat → put_child x n ch = Ok (<[Z.to_nat x := Some n]> ch).
Proof.
  intros Hx Hl. unfold put_child, is_nibble, len in *. rewrite Hl. rewrite (proj2 (Z.leb_le _ _)), (proj2 (Z.ltb_lt _ _)) by lia. done.
Qed.

(** The branch where the last key and the new one part: the side of the last key is
    hashed, the other one a new leaf. *)
Lemma split_spec p q x y a b value n tn E :
  is_nibble x → is_nibble y → x < y → rel (p ++ q ++ [x]) n tn E →
  ∃ st', split_at (length q) (q ++ x :: a) (q ++ y :: b) value n = Ok st' ∧
    stands p st' (parted q y (Short (b ++ [16]) (Leaf value)) x tn) E ∧ opened st' (q ++ y :: b).
Proof.
  intros Hx Hy Hxy Hn. pose proof Hx as Hx'. pose proof Hy as Hy'. unfold is_nibble in Hx', Hy'. unfold split_at. rewrite !list_lookup_middle by done.
  rewrite put_child_ok by done. cbn [result_bind]. rewrite put_child_ok by (done || by rewrite length_insert). cbn [result_bind].
  assert (drop (S (length q)) (q ++ y :: b) = b) as -> by (change (y :: b) with ([y] ++ b); rewrite app_assoc; apply drop_app_length'; rewrite length_app; cbn; lia).
  assert (take (length q) (q ++ x :: a) = q) as -> by apply take_app_length.
  set (cs := <[Z.to_nat y := Some (newLeaf b value)]> (<[Z.to_nat x := Some n]> no_nodes)).
  set (ch := <[Z.to_nat y := Some (Short (b ++ [16]) (Leaf value))]> (<[Z.to_nat x := Some tn]> (replicate 16 None))).
  set (Ls := <[Z.to_nat y := []]> (<[Z.to_nat x := E]> (replicate 16 []))).
  assert (branch_rel (p ++ q) cs ch Ls) as Hbr.
  { apply branch_rel_set; [|lia|constructor]. apply branch_rel_set; [apply no_nodes_rel|lia|]. rewrite <- app_assoc. by rewrite Z2Nat.id by lia. }
  assert (E ≡ₚ concat Ls) as HE.
  { assert (concat (replicate 16 []) ++ E ≡ₚ concat (<[Z.to_nat x := E]> (replicate 16 []))) as H1.
    { eapply (concat_swap_perm _ _ []); [apply lookup_replicate; split; [done|lia]|done]. }
    transitivity (concat (<[Z.to_nat x := E]> (replicate 16 [])) ++ []); [by rewrite app_nil_r, <- H1|].
    apply (concat_swap_perm _ _ [] [] []); [|done]. rewrite list_lookup_insert_ne by lia. apply lookup_replicate. split; [done|lia]. }
  assert (Full (ch ++ [None]) = Full (<[Z.to_nat y := Some (Short (b ++ [16]) (Leaf value))]> (<[Z.to_nat x := Some tn]> no_children))) as Hfull.
  { f_equal. unfold ch, no_children. change (replicate 17 None) with (replicate 16 (@None tree) ++ [None]).
    rewrite !insert_app_l by (rewrite ?length_insert, length_replicate; lia). done. }
  assert (opened (branchNode cs) (y :: b)) as Hop.
  { econstructor; [done|unfold cs; rewrite list_lookup_insert_eq; [done|rewrite length_insert; cbn; lia]|constructor|].
    intros i c' Hi. unfold cs in Hi. apply list_lookup_insert_Some in Hi as [(<- & _)|[_ Hi]]; [lia|].
    apply list_lookup_insert_Some in Hi as [(<- & _)|[_ Hi]]; [lia|]. by apply lookup_replicate in Hi as [? _]. }
  eexists. split; [done|]. unfold parted. rewrite <- Hfull. destruct q as [|z q].
  - cbn [length Nat.eqb under app]. rewrite app_nil_r in Hbr. split; [|done]. exists (concat Ls). split; [|done]. apply rel_branch_inv. by exists ch, Ls.
  - cbn [length Nat.eqb under]. split; [|by constructor]. exists (concat Ls). split; [|done]. constructor. apply rel_branch_inv. by exists ch, Ls.
Qed.

(** The tree where a node's key and the new one part. *)
Lemma tinsert_at q x a y b k t key v :
  k = q ++ x :: a → key = q ++ y :: b → x ≠ y →
  tinsert (Short k t) key v = parted q y (under b (Leaf v)) x (under a t).
Proof.
  intros Hk Hkey Hxy. destruct key as [|z key]; [by destruct q|].
  assert (prefixLen (z :: key) k = length q) as Hm.
  { rewrite Hkey, Hk. clear -Hxy. induction q as [|u q IH]; cbn; [by rewrite (proj2 (Z.eqb_neq _ _)) by done|]. by rewrite Z.eqb_refl, IH. }
  destruct (tinsert_parts k t z key v) as (p' & a' & b' & y' & z' & E1 & E2 & Hne & ->).
  { rewrite Hm, Hk, length_app. cbn. lia. } { rewrite Hm, Hkey, length_app. cbn. lia. }
  rewrite Hkey in E1. rewrite Hk in E2. by destruct (diverge_unique _ _ _ _ _ _ _ _ _ _ E1 E2) as (-> & -> & -> & -> & ->).
Qed.

Lemma tinsert_through k t q v : q ≠ [] → tinsert (Short k t) (k ++ q) v = Short k (tinsert t q v).
Proof.
  intros Hq. destruct (k ++ q) as [|z key] eqn:Hk; [by apply app_eq_nil in Hk as [_ ->]|]. cbn [tinsert].
  rewrite <- Hk, prefixLen_app, Nat.eqb_refl, drop_app_length. done.
Qed.

Lemma under_leaf b v : under (b ++ [16]) (Leaf v) = Short (b ++ [16]) (Leaf v).
Proof. by destruct b. Qed.

(** The elder siblings of an index. *)
Lemma hash_elder_spec p i cs ch Ls :
  branch_rel p cs ch Ls → (i <= 16)%nat → (∀ j t, ch !! j = Some (Some t) → wf false t) →
  ∃ cs' Ls' log, hash_elder i cs p = Ok (cs', log) ∧ branch_rel p cs' ch Ls' ∧ concat Ls ++ log ≡ₚ concat Ls' ∧
    (∀ j, (i <= j)%nat → cs' !! j = cs !! j ∧ Ls' !! j = Ls !! j) ∧
    (∀ j c, cs' !! j = Some (Some c) → ∃ c0, cs !! j = Some (Some c0)).
Proof.
  intros Hbr Hi Hw. revert Hi. induction i as [|i IH]; intros Hi; cbn [hash_elder].
  { exists cs, Ls, []. rewrite app_nil_r. split_and!; try done. by eauto. }
  destruct (cs !! i) as [[c|]|] eqn:Hci.
  2,3: destruct IH as (cs' & Ls' & log & H1 & H2 & H3 & H4 & H5); [lia|]; exists cs', Ls', log; split_and!; try done; intros; apply H4; lia.
  assert (∃ cs' Ls' log,
    (let* (v, log) := hash c (p ++ [Z.of_nat i]) in Ok (<[i := Some (hashedNode v)]> cs, log)) = Ok (cs', log) ∧
    branch_rel p cs' ch Ls' ∧ concat Ls ++ log ≡ₚ concat Ls' ∧ (∀ j, (S i <= j)%nat → cs' !! j = cs !! j ∧ Ls' !! j = Ls !! j) ∧
    (∀ j c, cs' !! j = Some (Some c) → ∃ c0, cs !! j = Some (Some c0))) as Hgo.
  { destruct (br_some _ _ _ _ Hbr _ _ Hci) as [t Ht]. destruct (ch !! i) as [o|] eqn:Hchi; [|done]. cbn in Ht. subst o.
    destruct (lookup_lt_is_Some_2 Ls i) as [L HL]; [rewrite (br_logs _ _ _ _ Hbr); lia|].
    pose proof (Hw _ _ Hchi) as Hwt. destruct (stack_hash_spec _ _ _ _ (br_child _ _ _ _ Hbr _ _ _ _ Hci Hchi HL) Hwt) as (L' & -> & Hp).
    cbn [result_bind]. exists (<[i := Some (hashedNode (val_at (p ++ [Z.of_nat i]) t))]> cs), (<[i := entries (p ++ [Z.of_nat i]) t]> Ls), L'.
    split; [done|]. split.
    { rewrite <- (list_insert_id ch i (Some t) Hchi). apply branch_rel_set; [done|lia|]. by constructor. }
    split; [by eapply concat_swap_perm|]. split.
    - intros j Hj. by rewrite !list_lookup_insert_ne by lia.
    - intros j c' Hj. apply list_lookup_insert_Some in Hj as [(<- & _)|[_ Hj]]; by eauto. }
  destruct c; try exact Hgo. exists cs, Ls, []. rewrite app_nil_r. split_and!; try done. by eauto.
Qed.

(** The child at an index of a branch, whatever the loop that finds it. *)
Definition insert_child (key value path : bytes) : list (option stNode) → nat → result stack_error (stNode * list stack_commit) :=
  fix pick (cs : list (option stNode)) (n : nat) :=
    match cs, n with
    | [], _ => Err StackIndex
    | None :: _, O => Ok (newLeaf key value, [])
    | Some c :: _, O => insert c key value path
    | _ :: cs, S n => pick cs n
    end.

Lemma insert_child_eq key value path cs n :
  insert_child key value path cs n =
    match cs !! n with
    | None => Err StackIndex
    | Some None => Ok (newLeaf key value, [])
    | Some (Some c) => insert c key value path
    end.
Proof. revert n. induction cs as [|c cs IH]; intros [|n]; [done..|by destruct c|]. destruct c; apply IH. Qed.

Lemma insert_branch cs x key value path :
  insert (branchNode cs) (x :: key) value path =
    let* (cs', log1) := hash_elder (Z.to_nat x) cs path in
    let* (c, log2) := insert_child key value (path ++ [x]) cs (Z.to_nat x) in
    Ok (branchNode (<[Z.to_nat x := Some c]> cs'), log1 ++ log2).
Proof. reflexivity. Qed.

(** An insertion behind the last key is that of the tree. *)
Definition inserts (p : bytes) (st : stNode) (t : tree) (L : list stack_commit) (key value : bytes) : Prop :=
  ∃ st' L', insert st key value p = Ok (st', L') ∧ stands p st' (tinsert t (key ++ [16]) value) (L ++ L') ∧ opened st' key.

Lemma insert_leaf_spec p k v L key value :
  rel p (leafNode k v) (Short (k ++ [16]) (Leaf v)) L → wf false (Short (k ++ [16]) (Leaf v)) → nibbles key → before k key →
  inserts p (leafNode k v) (Short (k ++ [16]) (Leaf v)) L key value.
Proof.
  intros Hr Hw Hkey (q & x & y & a & b & -> & -> & Hlt). inversion Hr; subst.
  unfold inserts. cbn [insert]. rewrite getDiffIndex_part by lia. rewrite (proj2 (Nat.leb_gt _ _)) by (rewrite length_app; cbn; lia).
  assert (drop (S (length q)) (q ++ x :: a) = a) as -> by (change (x :: a) with ([x] ++ a); rewrite app_assoc; apply drop_app_length'; rewrite length_app; cbn; lia).
  assert (take (S (length q)) (q ++ x :: a) = q ++ [x]) as -> by (change (x :: a) with ([x] ++ a); rewrite app_assoc; apply take_app_length'; rewrite length_app; cbn; lia).
  rewrite <- app_assoc in Hw. inversion Hw as [|? ? Hk Hv| |]; subst. destruct (terminated_split_nibbles _ _ _ Hk) as [Hq Hxa].
  apply terminated_cons in Hxa as [[_ Ha]|[Hx Ha]]; [by destruct a|].
  apply Forall_app in Hkey as [_ Hyb]. apply Forall_cons in Hyb as [Hy Hb].
  destruct (stack_hash_spec (p ++ q ++ [x]) (newLeaf a v) (Short (a ++ [16]) (Leaf v)) []) as (L2 & -> & Hp); [constructor|by constructor|]. cbn [result_bind].
  destruct (split_spec p q x y a b value (hashedNode (val_at (p ++ q ++ [x]) (Short (a ++ [16]) (Leaf v)))) (Short (a ++ [16]) (Leaf v)) (entries (p ++ q ++ [x]) (Short (a ++ [16]) (Leaf v))))
    as (st' & -> & (L' & Hst & HL) & Hop); [done|done|done|constructor; [by destruct p, q|by constructor]|]. cbn [result_bind].
  eexists _, _. split; [done|]. split; [|done]. exists L'. rewrite <- !app_assoc. cbn [app].
  rewrite (tinsert_at q x (a ++ [16]) y (b ++ [16])) by (done || lia). rewrite !under_leaf. split; [done|]. by rewrite <- HL, <- Hp.
Qed.

(** What an extension leaves of itself when its key is split. *)
Lemma hash_rest p q x a c ch L :
  rel (p ++ q ++ x :: a) c (Full ch) L → wf false (Short (q ++ x :: a) (Full ch)) →
  ∃ n L2 E, (if (length q <? length (q ++ x :: a) - 1)%nat then
      let* (v, log) := hash (newExt a c) (p ++ q ++ [x]) in Ok (hashedNode v, log)
    else let* (v, log) := hash c (p ++ q ++ x :: a) in Ok (hashedNode v, log)) = Ok (n, L2) ∧
    rel (p ++ q ++ [x]) n (under a (Full ch)) E ∧ L ++ L2 ≡ₚ E.
Proof.
  intros Hr Hw. inversion Hw as [| |? ? Hk _ Hf|]; subst. apply Forall_app in Hk as [_ Hk]. apply Forall_cons in Hk as [Hx Ha].
  assert (p ++ q ++ [x] ≠ []) as Hne by (by destruct p, q).
  assert (∀ st t, rel (p ++ q ++ [x]) st t L → wf false t → ∃ L2, hash st (p ++ q ++ [x]) = Ok (val_at (p ++ q ++ [x]) t, L2) ∧
    rel (p ++ q ++ [x]) (hashedNode (val_at (p ++ q ++ [x]) t)) t (entries (p ++ q ++ [x]) t) ∧ L ++ L2 ≡ₚ entries (p ++ q ++ [x]) t) as Hh.
  { intros st t Hst Hwt. destruct (stack_hash_spec _ _ _ _ Hst Hwt) as (L2 & Hh & Hp). exists L2. split; [done|]. split; [by constructor|done]. }
  destruct a as [|z a].
  - rewrite (proj2 (Nat.ltb_ge _ _)) by (rewrite length_app; cbn; lia). destruct (Hh c (Full ch) Hr Hf) as (L2 & -> & Hn & Hp).
    cbn [result_bind under]. by eexists _, L2, _.
  - rewrite (proj2 (Nat.ltb_lt _ _)) by (rewrite length_app; cbn; lia).
    destruct (Hh (newExt (z :: a) c) (Short (z :: a) (Full ch))) as (L2 & -> & Hn & Hp).
    { constructor. by rewrite <- !app_assoc. } { by constructor. }
    cbn [result_bind under]. by eexists _, L2, _.
Qed.

Lemma insert_spec p st t L last key value :
  opened st last → rel p st t L → wf false t → nibbles key → before last key → inserts p st t L key value.
Proof.
  intros Hop. revert p t L key. induction Hop as [k v|k c r Hop IH|cs x c r Hx Hc Hop IH Hright]; intros p t L key Hr Hw Hkey Hb.
  - pose proof Hr as Hr'. inversion Hr'; subst. by apply insert_leaf_spec.
  - inversion Hr as [|? ? ? t' ? Hrc| |]; subst.
    inversion Hw as [| |? ch Hk Hne Hf|]; subst; [by apply rel_not_leaf in Hrc|]. unfold inserts. cbn [insert].
    destruct (before_split k r key Hb) as [(q & x & a & y & b & -> & -> & Hlt)|(key' & -> & Hb')].
    + rewrite getDiffIndex_part by lia. rewrite (proj2 (Nat.eqb_neq _ _)) by (rewrite length_app; cbn; lia).
      assert (drop (S (length q)) (q ++ x :: a) = a) as -> by (change (x :: a) with ([x] ++ a); rewrite app_assoc; apply drop_app_length'; rewrite length_app; cbn; lia).
      assert (take (S (length q)) (q ++ x :: a) = q ++ [x]) as -> by (change (x :: a) with ([x] ++ a); rewrite app_assoc; apply take_app_length'; rewrite length_app; cbn; lia).
      destruct (hash_rest p q x a c ch L Hrc Hw) as (n & L2 & E & -> & Hn & Hp). cbn [result_bind].
      apply Forall_app in Hk as [_ Hk]. apply Forall_cons in Hk as [Hx _]. apply Forall_app in Hkey as [_ Hyb]. apply Forall_cons in Hyb as [Hy _].
      destruct (split_spec p q x y a b value n _ E Hx Hy Hlt Hn) as (st' & -> & (L' & Hst & HL) & Hop'). cbn [result_bind].
      eexists _, _. split; [done|]. split; [|done]. exists L'. rewrite <- app_assoc. cbn [app].
      rewrite (tinsert_at q x a y (b ++ [16])) by (done || lia). rewrite under_leaf. split; [done|]. by rewrite Hp.
    + rewrite getDiffIndex_full, Nat.eqb_refl, drop_app_length, take_app_length.
      apply Forall_app in Hkey as [_ Hkey']. destruct (IH (p ++ k) _ _ key' Hrc Hf Hkey' Hb') as (c' & L' & -> & (L1 & Hst & HL) & Hop').
      cbn [result_bind]. eexists _, _. split; [done|]. split; [|by constructor]. exists L1. rewrite <- app_assoc, tinsert_through by (by destruct key').
      split; [by constructor|done].
  - apply rel_branch_inv in Hr as (ch & Ls & -> & -> & Hbr). destruct key as [|y key].
    { destruct Hb as (q & ? & ? & ? & ? & _ & Hq & _). by destruct q. }
    apply Forall_cons in Hkey as [Hy Hkey]. pose proof Hy as Hy'. unfold is_nibble in Hy'. pose proof (br_trees _ _ _ _ Hbr) as Hlch.
    inversion Hw as [| | |? Hl17 Hwc _]; subst.
    assert (∀ j t, ch !! j = Some (Some t) → wf false t) as Hwch.
    { intros j t Hj. pose proof (lookup_lt_Some _ _ _ Hj). specialize (Hwc j t). rewrite (proj2 (Nat.eqb_neq j 16)) in Hwc by lia. apply Hwc. by apply lookup_app_l_Some. }
    unfold inserts. rewrite insert_branch.
    destruct (hash_elder_spec p (Z.to_nat y) cs ch Ls Hbr) as (cs' & Ls' & log & -> & Hbr' & Hperm & Hge & Hsub); [lia|done|]. cbn [result_bind].
    rewrite insert_child_eq. destruct (Hge (Z.to_nat y) ltac:(lia)) as [_ HLy].
    assert (∀ c' t' l old L2, rel (p ++ [Z.of_nat (Z.to_nat y)]) c' t' l → opened c' key → Ls !! Z.to_nat y = Some old → old ++ L2 ≡ₚ l →
      t' = oinsert (child (ch ++ [None]) y) (key ++ [16]) value →
      (∀ i c0, cs !! i = Some (Some c0) → (i <= Z.to_nat y)%nat) →
      stands p (branchNode (<[Z.to_nat y := Some c']> cs')) (tinsert (Full (ch ++ [None])) ((y :: key) ++ [16]) value) (concat Ls ++ (log ++ L2)) ∧
      opened (branchNode (<[Z.to_nat y := Some c']> cs')) (y :: key)) as Hset.
    { intros c' t' l old L2 Hrel Hopc Hold Hpl -> Hle. split.
      - exists (concat (<[Z.to_nat y := l]> Ls')). split.
        + apply rel_branch_inv. eexists _, _. split; [|split; [reflexivity|apply branch_rel_set; [done|lia|done]]].
          cbn [app]. rewrite tinsert_full. by rewrite insert_app_l by lia.
        + rewrite app_assoc, Hperm. eapply concat_swap_perm; [by rewrite HLy|done].
      - econstructor; [done|apply list_lookup_insert_eq; rewrite (br_nodes _ _ _ _ Hbr'); lia|done|].
        intros i c0 Hi. apply list_lookup_insert_Some in Hi as [(<- & _)|[_ Hi]]; [lia|]. destruct (Hsub _ _ Hi) as [c1 Hc1]. by eapply Hle. }
    assert (child (ch ++ [None]) y = default None (ch !! Z.to_nat y)) as Hchild.
    { unfold child. rewrite lookup_app_l by lia. by destruct (ch !! Z.to_nat y). }
    destruct (lookup_lt_is_Some_2 Ls (Z.to_nat y)) as [old Hold]; [rewrite (br_logs _ _ _ _ Hbr); lia|].
    apply before_cons in Hb as [Hlt|[<- Hb]].
    + unfold is_nibble in Hx. destruct (lookup_lt_is_Some_2 cs (Z.to_nat y)) as [o Ho]; [rewrite (br_nodes _ _ _ _ Hbr); lia|]. rewrite Ho.
      destruct o as [c1|]; [apply Hright in Ho; lia|]. cbn [result_bind]. destruct (br_none _ _ _ _ Hbr _ Ho) as [Hcy HLn].
      eexists _, _. split; [done|]. eapply (Hset _ (Short (key ++ [16]) (Leaf value)) [] old []); [constructor|constructor|done| | |].
      * rewrite Hold in HLn. by injection HLn as ->.
      * rewrite Hchild, Hcy. symmetry. apply under_leaf.
      * intros i c0 Hi. apply Hright in Hi. lia.
    + rewrite Hc. destruct (br_some _ _ _ _ Hbr _ _ Hc) as [tc Htc]. destruct (ch !! Z.to_nat x) as [o|] eqn:Hchx; [|done]. cbn in Htc. subst o.
      destruct (IH (p ++ [x]) tc old key) as (c' & L' & -> & (l & Hrel & Hl) & Hop'); [|by eapply Hwch|done|done|].
      { pose proof (br_child _ _ _ _ Hbr _ _ _ _ Hc Hchx Hold) as Hrc. by rewrite Z2Nat.id in Hrc by lia. }
      cbn [result_bind]. eexists _, _. split; [done|]. eapply (Hset _ _ l old L'); [by rewrite Z2Nat.id by lia|done|done|done| |done].
      by rewrite Hchild.
Qed.
End Laws.
