(* ===== verification/StackTheorems.v ===== *)
(** * What the stack trie promises

    A stack trie that is given the pairs of a map in ascending order hashes like the
    trie that holds the map, and calls back with its nodes; and the hash that
    [DeriveSha] makes with it stands for the list, in its order. *)

From S2P Require Import Prelude StateError Rlp Crypto TrieKeys TrieSpec TrieNode TrieExpand Trie TrieSim TrieCommit TrieTheorems StackTrie StackLaws.
Open Scope eigen_scope.
Open Scope step_scope.

Section StackTheorems.
Context `{Keccak}.

(** ** Building *)

(** The trie has been given the pairs of [m], [last] being the last key. *)
Definition building (t : stack_trie) (last : option bytes) (m : gmap bytes bytes) : Prop :=
  match last with
  | None => st_root t = emptyNode ∧ st_last t = [] ∧ m = ∅
  | Some k =>
      st_last t = key_nibbles k ∧ ∃ tr L0 L, opened (st_root t) (st_last t) ∧ st_log t = L0 ++ L ∧
        stands [] (st_root t) tr L ∧ wf false tr ∧ reads_like (Some tr) m
  end.

Definition comes_after (last : option bytes) (key : bytes) : Prop :=
  match last with None => key ≠ [] | Some k => before k key end.

Lemma key_nibbles_app a b : key_nibbles (a ++ b) = key_nibbles a ++ key_nibbles b.
Proof. induction a as [|x a IH]; [done|]. cbn. by rewrite IH. Qed.

Lemma before_nibbles a b : before a b → before (key_nibbles a) (key_nibbles b).
Proof.
  intros (p & x & y & a' & b' & -> & -> & Hlt). rewrite !key_nibbles_app, before_app. cbn [key_nibbles]. rewrite !before_cons.
  pose proof (Z.div_le_mono x y 16 ltac:(lia) ltac:(lia)). pose proof (Z.div_mod x 16). pose proof (Z.div_mod y 16). lia.
Qed.

Lemma before_not_nil a b : before a b → b ≠ [].
Proof. intros (p & x & y & a' & b' & _ & -> & _). by destruct p. Qed.

Lemma writeHexKey_ok key : key ≠ [] → writeHexKey (replicate (Nat.max 64 (2 * length key)) 0) key = Some (key_nibbles key).
Proof.
  intros Hk. unfold writeHexKey, len. rewrite length_replicate. destruct key as [|x key]; [done|].
  rewrite (proj2 (Z.ltb_lt _ _)), (proj2 (Z.leb_le _ _)); [done|lia|cbn [length]; lia].
Qed.

Lemma Compare_nil k : k ≠ [] → bytes_Compare [] k = -1.
Proof. by destruct k. Qed.

Lemma Update_building t last m key value :
  building t last m → comes_after last key → Forall is_byte key → value_ok value →
  ∃ t', stack_Update key value t = (Ok tt, t') ∧ building t' (Some key) (<[key := value]> m).
Proof.
  intros Hb Hafter Hkey Hv. assert (Hne : key ≠ []) by (destruct last; [by eapply before_not_nil|done]).
  unfold stack_Update. assert (len value =? 0 = false) as ->.
  { destruct Hv as [Hv _]. destruct value; [done|]. apply Z.eqb_neq. rewrite len_cons. pose proof (len_nonneg value). lia. }
  unfold bind at 1. rewrite writeHexKey_ok by done. cbn [of_option]. unfold ret at 1, bind at 1, get at 1, id.
  assert (bytes_Compare (st_last t) (key_nibbles key) >=? 0 = false) as ->.
  { destruct last as [k|]; cbn [building comes_after] in *.
    - destruct Hb as [-> _]. by rewrite (before_Compare _ _ (before_nibbles _ _ Hafter)).
    - destruct Hb as (_ & -> & _). rewrite Compare_nil; [done|]. by destruct key. }
  pose proof (key_nibbles_nibbles _ Hkey) as Hnib. destruct last as [k|]; cbn [building comes_after] in *.
  - destruct Hb as (Hlast & tr & L0 & L & Hop & Hlog & (L' & Hrel & HL) & Hw & Hm).
    destruct (insert_spec [] _ tr L' _ (key_nibbles key) value Hop Hrel Hw Hnib) as (st' & L2 & Hins & (L3 & Hst & HL3) & Hop').
    { rewrite Hlast. by apply before_nibbles. }
    unfold bind. rewrite Hins. cbn [of_result]. unfold ret, modify. eexists. split; [reflexivity|]. split; [done|].
    exists (tinsert tr (keybytesToHex key) value), L0, (L ++ L2). cbn. split; [done|]. split; [by rewrite Hlog, app_assoc|].
    pose proof (keybytesToHex_terminated _ Hkey) as Hterm.
    split; [exists L3; split; [exact Hst|by rewrite HL]|]. split; [by apply (tinsert_spec false)|].
    eapply (reads_like_insert (Some tr)); [by intros ? [= <-]|done..].
  - destruct Hb as (-> & Hlast & ->). unfold bind. cbn [insert of_result]. unfold ret, modify. eexists. split; [reflexivity|]. split; [done|].
    exists (Short (keybytesToHex key) (Leaf value)), (st_log t), []. cbn. split; [constructor|]. split; [done|].
    split; [exists []; split; [constructor|done]|]. split; [constructor; [by apply keybytesToHex_terminated|done]|].
    assert (Some (Short (keybytesToHex key) (Leaf value)) = Some (oinsert None (keybytesToHex key) value)) as ->.
    { cbn [oinsert]. unfold keybytesToHex. by rewrite under_leaf. }
    apply reads_like_insert; [done|apply reads_like_empty|done..].
Qed.

Lemma Hash_building t last m :
  building t last m →
  ∃ ot L t', stack_Hash t = (Ok (hash_of ot), t') ∧ owf ot ∧ reads_like ot m ∧
    (∃ L0, st_log t' = L0 ++ L ∧ match ot with Some tr => L ≡ₚ entries [] tr | None => L = [] end).
Proof.
  intros Hb. unfold stack_Hash, bind, get, id. destruct last as [k|]; cbn [building] in Hb.
  - destruct Hb as (_ & tr & L0 & L & _ & Hlog & (L' & Hrel & HL) & Hw & Hm).
    destruct (stack_hash_spec _ _ _ _ Hrel Hw) as (L2 & -> & Hp). cbn [of_result]. unfold ret, modify.
    assert (val_at [] tr = hash_of (Some tr)) as Hval by (unfold val_at; cbn; by rewrite andb_false_r).
    exists (Some tr), (L ++ L2). eexists. split; [by rewrite Hval, hash_of_32|]. split; [by intros ? [= <-]|]. split; [done|].
    exists L0. cbn. split; [by rewrite Hlog, app_assoc|]. by rewrite HL.
  - destruct Hb as (-> & _ & ->). exists None, []. eexists. split; [reflexivity|]. split; [done|]. split; [apply reads_like_empty|].
    by exists (st_log t).
Qed.

(** ** A run *)

Fixpoint stack_updates (kvs : list (bytes * bytes)) : SE stack_trie stack_error () :=
  match kvs with
  | [] => ret tt
  | (k, v) :: kvs => do! stack_Update k v; stack_updates kvs
  end.

(** The pairs of the list are in order, after the last key. *)
Fixpoint ordered (last : option bytes) (kvs : list (bytes * bytes)) : Prop :=
  match kvs with
  | [] => True
  | (k, v) :: kvs => comes_after last k ∧ Forall is_byte k ∧ value_ok v ∧ ordered (Some k) kvs
  end.

Lemma updates_building kvs t last pre :
  building t last (written pre) → ordered last kvs →
  ∃ t' last', stack_updates kvs t = (Ok tt, t') ∧ building t' last' (written (pre ++ kvs)).
Proof.
  revert t last pre. induction kvs as [|[k v] kvs IH]; intros t last pre Hb Ho; [by exists t, last; rewrite app_nil_r|].
  destruct Ho as (Hafter & Hk & Hv & Ho). destruct (Update_building _ _ _ _ _ Hb Hafter Hk Hv) as (t1 & Hu & Hb1).
  rewrite <- written_snoc in Hb1. destruct (IH t1 (Some k) (pre ++ [(k, v)]) Hb1 Ho) as (t' & last' & Hr & Hb'). exists t', last'.
  cbn [stack_updates]. unfold bind. rewrite Hu, Hr. by rewrite <- app_assoc in Hb'.
Qed.

Lemma NewStackTrie_building : building NewStackTrie None (written []).
Proof. done. Qed.

(** The nodes of a tree are among its entries. *)
Lemma entries_sub e p t q u :
  wf e t → sub_at t q u → 32 <= len (enc u) ∨ p ++ q = [] → (p ++ q, keccak (enc u), enc u) ∈ entries p t.
Proof.
  intros Hw Hs. revert e p Hw.
  assert (Hown : ∀ p t, 32 <= len (enc t) ∨ p = [] → (p, keccak (enc t), enc t) ∈ own p t).
  { intros p t' Hl. unfold own. destruct Hl as [Hl| ->]; [rewrite (proj2 (Z.ltb_ge _ _)) by lia; by left|]. cbn. rewrite andb_false_r. by left. }
  induction Hs as [k t|ch|k t q u Hs IH|ch i c q u Hi Hs IH]; intros e p Hw Hl.
  - rewrite app_nil_r in *. cbn [entries]. apply elem_of_app. right. by apply Hown.
  - rewrite app_nil_r in *. rewrite entries_full. apply elem_of_app. right. by apply Hown.
  - cbn [entries]. apply elem_of_app. left. rewrite app_assoc in *. inversion Hw; subst; [by inversion Hs|]. by eapply IH.
  - rewrite entries_full. apply elem_of_app. left. inversion Hw as [| | |? ? Hc _]; subst.
    change (p ++ Z.of_nat i :: q) with (p ++ [Z.of_nat i] ++ q) in *. rewrite app_assoc in *.
    apply list_elem_of_In, in_concat. exists (child_entries p i (Some c)). split; [|apply list_elem_of_In; by eapply IH, Hl; eapply Hc].
    apply list_elem_of_In, list_elem_of_lookup. exists i. by rewrite list_lookup_imap, Hi.
Qed.

Lemma entries_kept db t :
  wf false t → (∀ p h b, (p, h, b) ∈ entries [] t → db p h = Some b) → kept db (Some t).
Proof.
  intros Hw Hdb ? [= <-].
  assert (Hat : ∀ q u, sub_at t q u → 32 <= len (enc u) ∨ q = [] → db q (keccak (enc u)) = Some (enc u)).
  { intros q u Hq Hl. apply Hdb. by apply (entries_sub false []). }
  split; [apply Hat; [|by right]; inversion Hw; constructor|]. eapply below_intro; [done|]. intros q u Hq Hqn Hl. apply Hat; auto.
Qed.

(** C20: a stack trie is a trie for those who come in order.  When it is given the
    pairs of a map, each key after the one before and no key a prefix of the next,
    no update fails or panics; its hash is the root hash of every trie that holds
    the map; and a database with the nodes that it has called back with loads, at
    that hash, a trie that holds the map. *)
Theorem stack_trie_is_trie kvs :
  ordered None kvs →
  ∃ t h t', stack_updates kvs NewStackTrie = (Ok tt, t) ∧ stack_Hash t = (Ok h, t') ∧
    (∀ T, holds T (written kvs) → ∃ T', Hash T = (Ok h, T')) ∧
    ∀ sr ow db rd, newTrieReader sr ow db = Ok rd → reader_ok rd →
      (∀ p hash blob, (p, hash, blob) ∈ st_log t' → db_node rd p hash = Some blob) →
      h ≠ zero_hash → (h = EmptyRootHash → kvs = []) → ∃ T, New sr ow h db = Ok T ∧ holds T (written kvs).
Proof.
  intros Ho. destruct (updates_building kvs _ _ [] NewStackTrie_building Ho) as (t & last & Hu & Hb). cbn [app] in Hb.
  destruct (Hash_building _ _ _ Hb) as (ot & L & t' & Hh & Hw & Hm & (L0 & Hlog & HL)).
  exists t, (hash_of ot), t'. split; [done|]. split; [done|]. split.
  - intros T [_ (ot' & Hs & Hm')]. destruct (Hash_stands T ot' Hs) as (T' & HT & _). exists T'.
    by rewrite (reads_like_unique ot ot' (written kvs) Hw (sf_wf _ _ Hs) Hm Hm').
  - intros sr ow db rd Hnew Hok Hdb Hz He. eapply New_kept; try done.
    + destruct ot as [tr|]; [|by intros ? [=]]. apply entries_kept; [by apply Hw|]. intros p h b Hin. apply Hdb. rewrite Hlog.
      apply elem_of_app. right. by rewrite HL.
    + intros Hempty. specialize (He Hempty). subst kvs. by apply (reads_like_unique ot None (written [])); [| |done|apply reads_like_empty].
Qed.

(** ** The hash of a list *)

Definition index_key (i : nat) : bytes := AppendUint64 [] (Z.of_nat i).

Lemma be_encode_before n i j : 0 <= i < j → j < 256 ^ Z.of_nat n → before (be_encode n i) (be_encode n j).
Proof.
  revert i j. induction n as [|n IH]; intros i j Hij Hj; [cbn in Hj; lia|].
  rewrite Nat2Z.inj_succ, Z.pow_succ_r in Hj by lia. rewrite !be_encode_cons, before_cons. set (k := 256 ^ Z.of_nat n) in *.
  assert (0 < k) by (apply Z.pow_pos_nonneg; lia).
  assert (i / k < 256 ∧ j / k < 256 ∧ 0 <= i / k) as (Hi1 & Hj1 & Hi0) by (split_and!; [apply Z.div_lt_upper_bound; lia..|apply Z.div_pos; lia]).
  pose proof (Z.div_le_mono i j k ltac:(lia) ltac:(lia)) as Hle. rewrite !Z.mod_small by lia.
  destruct (Z.eq_dec (i / k) (j / k)) as [Heq|Hne]; [|left; lia]. right. split; [done|].
  assert (be_mod : ∀ z, be_encode n z = be_encode n (z mod k)).
  { intros z. unfold k. clear. revert z. induction n as [|n IH]; intros z; [done|]. rewrite !be_encode_cons, Nat2Z.inj_succ, Z.pow_succ_r by lia.
    assert (0 < 256 ^ Z.of_nat n) by (apply Z.pow_pos_nonneg; lia). f_equal.
    - rewrite (Z.mul_comm 256), Z.rem_mul_r by lia. rewrite (Z.mul_comm _ ((z / _) mod 256)), Z.div_add by lia.
      rewrite (Z.div_small (z mod _)) by (apply Z.mod_pos_bound; lia). rewrite Z.add_0_l. by rewrite Z.mod_mod by lia.
    - rewrite (IH (z mod (256 * 256 ^ Z.of_nat n))), (IH z). f_equal. apply Znumtheory.Zmod_div_mod; [lia|lia|]. by exists 256. }
  rewrite (be_mod i), (be_mod j). pose proof (Z.div_mod i k). pose proof (Z.div_mod j k). pose proof (Z.mod_pos_bound i k). pose proof (Z.mod_pos_bound j k).
  apply IH; lia.
Qed.

Lemma index_key_before i j :
  Z.of_nat j < two64 → ((0 < i < j)%nat ∨ (i = 0 ∧ 128 <= j)%nat ∨ (0 < i < 128 ∧ j = 0)%nat) → before (index_key i) (index_key j).
Proof.
  intros Hj Hij. unfold index_key, AppendUint64. cbn [app].
  assert (∀ n, (128 <= n)%nat → Z.of_nat n < two64 → 1 <= len (putint (Z.of_nat n)) ∧ putint (Z.of_nat n) = be_encode (Z.to_nat (len (putint (Z.of_nat n)))) (Z.of_nat n) ∧
    bytes_of (len (putint (Z.of_nat n))) (Z.of_nat n)) as Hput.
  { intros n Hn Hn'. destruct (intsize_bytes (Z.of_nat n)) as [Hr Hb]; [lia|]. rewrite putint_len by lia. split; [lia|]. split; [|done]. apply putint_width. lia. }
  destruct (Z.eqb_spec (Z.of_nat i) 0) as [Hi0|Hi0], (Z.eqb_spec (Z.of_nat j) 0) as [Hj0|Hj0]; try lia.
  - destruct (Z.ltb_spec (Z.of_nat j) 128); [lia|]. rewrite before_cons. left. destruct (Hput j) as [? _]; lia.
  - destruct (Z.ltb_spec (Z.of_nat i) 128); [|lia]. rewrite before_cons. left. lia.
  - destruct (Z.ltb_spec (Z.of_nat i) 128), (Z.ltb_spec (Z.of_nat j) 128); rewrite before_cons; [left; lia|left|lia|].
    + destruct (Hput j) as [? _]; lia.
    + destruct (Hput i) as (? & E1 & B1); [lia|lia|]. destruct (Hput j) as (? & E2 & B2); [lia|lia|].
      set (a := len (putint (Z.of_nat i))) in *. set (b := len (putint (Z.of_nat j))) in *. destruct B1 as (_ & L1 & U1), B2 as (_ & L2 & U2).
      destruct (Z.lt_trichotomy a b) as [Hab|[Hab|Hab]]; [left; lia| |].
      * right. split; [lia|]. rewrite E1, E2, <- Hab. apply be_encode_before; [lia|]. rewrite Hab. rewrite Z2Nat.id by lia. lia.
      * assert (256 ^ b <= 256 ^ (a - 1)) by (apply Z.pow_le_mono_r; lia). lia.
Qed.

Lemma index_key_inj i j : Z.of_nat i < two64 → Z.of_nat j < two64 → index_key i = index_key j → i = j.
Proof.
  intros Hi Hj He. assert (Hs : ∀ n, Z.of_nat n < two64 → SplitUint64 (index_key n ++ []) = Ok (Z.of_nat n, [])).
  { intros n Hn. apply SplitUint64_AppendUint64; [unfold is_uint64; lia|constructor|done]. }
  pose proof (Hs i Hi) as Hsi. rewrite He, (Hs j Hj) in Hsi. injection Hsi. lia.
Qed.

Lemma index_key_bytes i : Z.of_nat i < two64 → Forall is_byte (index_key i).
Proof.
  intros Hi. unfold index_key, AppendUint64. cbn [app]. repeat case_match.
  - apply Forall_singleton. unfold is_byte. lia.
  - apply Forall_singleton. unfold is_byte. lia.
  - destruct (intsize_bytes (Z.of_nat i)) as [Hr _]; [lia|]. constructor; [|apply putint_bytes]. rewrite putint_len by lia. unfold is_byte. lia.
Qed.

(** The map that the list is hashed as. *)
Definition index_pairs (items : list bytes) (idx : list nat) : list (bytes * bytes) :=
  map (λ i, (index_key i, nth i items [])) idx.

Definition index_map (items : list bytes) : gmap bytes bytes := written (index_pairs items (seq 0 (length items))).

Lemma index_pairs_elem items idx k v :
  (k, v) ∈ index_pairs items idx ↔ ∃ i, i ∈ idx ∧ k = index_key i ∧ v = nth i items [].
Proof.
  unfold index_pairs. rewrite list_elem_of_fmap. split.
  - intros (i & [= -> ->] & Hi). by exists i.
  - intros (i & Hi & -> & ->). by exists i.
Qed.

(** Writes that give a key one value. *)
Lemma written_functional kvs k v :
  (∀ k v v', (k, v) ∈ kvs → (k, v') ∈ kvs → v = v') → written kvs !! k = Some v ↔ (k, v) ∈ kvs.
Proof.
  intros Hf. split; [apply written_lookup|]. intros Hin. destruct (written_dom _ _ _ Hin) as [v' Hv'].
  rewrite Hv'. f_equal. by apply (Hf k); [apply written_lookup|].
Qed.

Lemma index_map_lookup items idx k v :
  Z.of_nat (length items) < two64 → idx ≡ₚ seq 0 (length items) →
  written (index_pairs items idx) !! k = Some v ↔ ∃ i, (i < length items)%nat ∧ k = index_key i ∧ v = nth i items [].
Proof.
  intros Hl Hp. assert (∀ i, i ∈ idx ↔ (i < length items)%nat) as Hidx.
  { intros i. rewrite Hp, elem_of_seq. lia. }
  rewrite written_functional.
  - rewrite index_pairs_elem. by setoid_rewrite Hidx.
  - intros k' w w' (i & Hi & -> & ->)%index_pairs_elem (j & Hj & Hk & ->)%index_pairs_elem. apply Hidx in Hi, Hj.
    apply index_key_inj in Hk as ->; [done|lia|lia].
Qed.

Lemma index_map_perm items idx :
  Z.of_nat (length items) < two64 → idx ≡ₚ seq 0 (length items) → written (index_pairs items idx) = index_map items.
Proof.
  intros Hl Hp. apply map_eq. intros k. apply option_eq. intros v. unfold index_map. by rewrite !index_map_lookup.
Qed.

Lemma index_map_inj items items' :
  Z.of_nat (length items) < two64 → Z.of_nat (length items') < two64 → index_map items = index_map items' → items = items'.
Proof.
  intros Hl Hl' He.
  assert (∀ l l' : list bytes, Z.of_nat (length l) < two64 → Z.of_nat (length l') < two64 → index_map l = index_map l' →
    ∀ i, (i < length l)%nat → (i < length l')%nat ∧ nth i l [] = nth i l' []) as Hsub.
  { intros l l' Hll Hll' Hm i Hi. assert (index_map l !! index_key i = Some (nth i l [])) as Hk by (apply index_map_lookup; [done|done|]; by exists i).
    rewrite Hm in Hk. apply index_map_lookup in Hk as (j & Hj & Hij & Hn); [|done|done]. apply index_key_inj in Hij as <-; [done|lia|lia]. }
  assert (length items = length items') as Hlen.
  { destruct (Nat.lt_trichotomy (length items) (length items')) as [Hc|[Hc|Hc]]; [|done|].
    - destruct (Hsub items' items Hl' Hl (eq_sym He) (length items) Hc). lia.
    - destruct (Hsub items items' Hl Hl' He (length items') Hc). lia. }
  apply (nth_ext _ _ [] []); [done|]. intros i Hi. by apply (Hsub items items').
Qed.

(** The order of the updates. *)
Definition derive_order (n : nat) : list nat := seq 1 (Nat.min n 128 - 1) ++ (if (0 <? n)%nat then [0%nat] else []) ++ seq 128 (n - 128).

Lemma derive_order_perm n : derive_order n ≡ₚ seq 0 n.
Proof.
  unfold derive_order. destruct n as [|n]; [done|]. cbn [Nat.ltb Nat.leb].
  rewrite app_assoc, (Permutation_app_comm (seq 1 _)). cbn [app]. destruct (Nat.le_gt_cases (S n) 128) as [Hn|Hn].
  - rewrite (Nat.min_l (S n)) by lia. replace (S n - 128)%nat with 0%nat by lia. cbn [seq Nat.sub]. by rewrite app_nil_r, Nat.sub_0_r.
  - rewrite (Nat.min_r (S n)) by lia. replace (S n) with (1 + (127 + (S n - 128)))%nat at 2 by lia. rewrite seq_app, seq_app. done.
Qed.

Lemma derive_items_app items a b t :
  derive_items items (a ++ b) t = (do! derive_items items a; derive_items items b) t.
Proof.
  revert t. induction a as [|i a IH]; intros t; [done|]. cbn [app derive_items]. unfold bind in *. destruct (derive_item items i t) as [[[]|e] t1]; [|done]. apply IH.
Qed.

(** The indexes from one on come in order, then zero, then those from 128 on. *)
Definition index_after (last : option nat) (i : nat) : Prop :=
  match last with
  | None => True
  | Some j => ((0 < j < i)%nat ∨ (j = 0 ∧ 128 <= i)%nat ∨ (0 < j < 128 ∧ i = 0)%nat)
  end.

Fixpoint index_ordered (last : option nat) (idx : list nat) : Prop :=
  match idx with [] => True | i :: idx => index_after last i ∧ index_ordered (Some i) idx end.

Lemma index_ordered_app last a b :
  index_ordered last a → index_ordered (match List.rev a with [] => last | i :: _ => Some i end) b → index_ordered last (a ++ b).
Proof.
  revert last. induction a as [|i a IH]; intros last; [by intros _|]. cbn [app index_ordered]. intros [Hi Ha] Hb. split; [done|].
  apply IH; [done|]. cbn [rev] in Hb. destruct (rev a) as [|j r] eqn:Hr; cbn in *; done.
Qed.

Lemma index_ordered_seq i n : (0 < i)%nat → ∀ last, index_after last i → index_ordered last (seq i n).
Proof.
  revert i. induction n as [|n IH]; intros i Hi last Hl; [done|]. cbn [seq index_ordered]. split; [done|]. apply IH; [lia|]. cbn. lia.
Qed.

Lemma rev_seq i n : rev (seq i (S n)) = (i + n)%nat :: rev (seq i n).
Proof. by rewrite seq_S, rev_app_distr. Qed.

Lemma derive_order_ordered n : index_ordered None (derive_order n).
Proof.
  unfold derive_order. apply index_ordered_app; [by apply index_ordered_seq; [lia|]|].
  destruct n as [|n]; [done|]. cbn [Nat.ltb Nat.leb app index_ordered]. split.
  - destruct (Nat.min (S n) 128 - 1)%nat as [|m] eqn:Hm; [done|]. rewrite rev_seq. cbn. lia.
  - apply index_ordered_seq; [lia|]. cbn. lia.
Qed.

Lemma derive_items_building items idx t last pre :
  Z.of_nat (length items) < two64 → Forall value_ok items → Forall (λ i, (i < length items)%nat) idx →
  building t (index_key <$> last) (written pre) → index_ordered last idx → (∀ j, last = Some j → (j < length items)%nat) →
  ∃ t' last', derive_items items idx t = (Ok tt, t') ∧ building t' last' (written (pre ++ index_pairs items idx)).
Proof.
  intros Hl Hv. revert t last pre. induction idx as [|i idx IH]; intros t last pre Hidx Hb Ho Hlast.
  { exists t, (index_key <$> last). cbn. by rewrite app_nil_r. }
  apply Forall_cons in Hidx as [Hi Hidx]. destruct Ho as [Hafter Ho].
  destruct (Update_building t (index_key <$> last) (written pre) (index_key i) (nth i items []) Hb) as (t1 & Hu & Hb1).
  { destruct last as [j|]; cbn; [apply index_key_before; [lia|by apply Hafter]|]. unfold index_key, AppendUint64. cbn. by repeat case_match. }
  { apply index_key_bytes. lia. } { rewrite Forall_forall in Hv. apply Hv, list_elem_of_In, nth_In. done. }
  rewrite <- written_snoc in Hb1. destruct (IH t1 (Some i) (pre ++ [(index_key i, nth i items [])]) Hidx Hb1 Ho) as (t' & last' & Hd & Hb'); [by intros ? [= <-]|].
  exists t', last'. rewrite <- app_assoc in Hb'. split; [|done]. cbn [derive_items]. unfold bind, derive_item, ignore_error.
  cbn [hasher_Update stack_hasher]. fold (index_key i). rewrite Hu. done.
Qed.

Lemma DeriveSha_run items t :
  Z.of_nat (length items) < two64 → Forall value_ok items →
  ∃ ot t', DeriveSha items t = (Ok (hash_of ot), t') ∧ owf ot ∧ reads_like ot (index_map items).
Proof.
  intros Hl Hv. destruct (derive_items_building items (derive_order (length items)) (MkStackTrie emptyNode [] (st_log t)) None []) as (t1 & last & Hd & Hb); try done.
  { apply Forall_forall. intros i. rewrite derive_order_perm, elem_of_seq. lia. }
  { apply derive_order_ordered. }
  cbn [app] in Hb. rewrite (index_map_perm _ _ Hl (derive_order_perm _)) in Hb.
  destruct (Hash_building _ _ _ Hb) as (ot & L & t' & Hh & Hw & Hm & _). exists ot, t'. split; [|done].
  unfold DeriveSha. unfold bind at 1. cbn [hasher_Reset stack_hasher]. unfold stack_Reset, modify.
  unfold derive_order in Hd. rewrite derive_items_app in Hd. unfold bind in Hd |- *.
  destruct (derive_items items (seq 1 _) _) as [[[]|e] t2]; [|done].
  rewrite derive_items_app in Hd. unfold bind in Hd.
  assert (derive_items items (if (0 <? length items)%nat then [0%nat] else []) t2 = (if (0 <? length items)%nat then derive_item items 0 else ret tt) t2) as He.
  { destruct (0 <? length items)%nat; [|done]. cbn [derive_items]. unfold bind. by destruct (derive_item items 0 t2) as [[[]|] ?]. }
  rewrite He in Hd. destruct ((if (0 <? length items)%nat then derive_item items 0 else ret tt) t2) as [[[]|e] t3]; [|done]. rewrite Hd. exact Hh.
Qed.

(** The hash of a list is the root of a trie: whatever the stack trie held
    before, DeriveSha with it does not fail, and gives the root hash of every trie
    that holds the items of the list under their encoded indexes. *)
Theorem derive_sha_is_root items t :
  Z.of_nat (length items) < two64 → Forall value_ok items →
  ∃ h t', DeriveSha items t = (Ok h, t') ∧ ∀ T, holds T (index_map items) → ∃ T', Hash T = (Ok h, T').
Proof.
  intros Hl Hv. destruct (DeriveSha_run items t Hl Hv) as (ot & t' & Hd & Hw & Hm). exists (hash_of ot), t'. split; [done|].
  intros T [_ (ot' & Hs & Hm')]. destruct (Hash_stands T ot' Hs) as (T' & HT & _). exists T'.
  by rewrite (reads_like_unique ot ot' (index_map items) Hw (sf_wf _ _ Hs) Hm Hm').
Qed.

(** C27: a header's root stands for its list: two lists that DeriveSha gives one hash
    are the same list, in the same order, or a node of the trie of the one list and a
    node of the trie of the other have different encodings and one hash. *)
Theorem derive_sha_binds items items' t u h B :
  Z.of_nat (length items) < two64 → Z.of_nat (length items') < two64 → Forall value_ok items → Forall value_ok items' →
  (DeriveSha items t).1 = Ok h → (DeriveSha items' u).1 = Ok h → keccak [128] = EmptyRootHash →
  (∀ v, v ∈ items → len v <= B) → B + 1000 < two64 →
  items = items' ∨
  ∃ x y, node_blob (index_map items) x ∧ node_blob (index_map items') y ∧ x ≠ y ∧ keccak x = keccak y.
Proof.
  intros Hl Hl' Hv Hv' Hd Hd' Hempty HB Hb.
  destruct (DeriveSha_run items t Hl Hv) as (ot & t' & He & Hw & Hm). destruct (DeriveSha_run items' u Hl' Hv') as (ot' & u' & He' & Hw' & Hm').
  rewrite He in Hd. rewrite He' in Hd'. cbn in Hd, Hd'. injection Hd as Hd. injection Hd' as Hd'.
  destruct (hash_of_binds ot ot' _ _ (B + 40) Hw Hw' Hm Hm') as [Hmap|Hc]; [congruence|done| |lia| |by right].
  - intros k v Hk. apply index_map_lookup in Hk as (i & Hi & -> & ->); [|done|done].
    specialize (HB (nth i items []) ltac:(apply list_elem_of_In, nth_In; done)).
    assert (len (index_key i) <= 9); [|lia]. unfold index_key, AppendUint64. cbn [app]. repeat case_match; [done|done|].
    rewrite len_cons. destruct (intsize_bytes (Z.of_nat i)) as [Hr _]; [lia|]. rewrite putint_len by lia. lia.
  - left. by apply index_map_inj.
Qed.
End StackTheorems.

(** ** Examples *)

#[local] Existing Instance toy_keccak.

Definition one_pairs : list (bytes * bytes) := [(one_key, one_value)].

Lemma stack_trie_is_trie_witness :
  ∃ t h t', stack_updates one_pairs NewStackTrie = (Ok tt, t) ∧ stack_Hash t = (Ok h, t') ∧ h = toy_hash one_blob ∧
    ∃ T', @Hash toy_keccak one_trie = (Ok h, T').
Proof.
  destruct (stack_trie_is_trie one_pairs) as (t & h & t' & Hu & Hh & Heq & _).
  { split; [done|]. split; [apply one_key_bytes|]. split; [split; [done|apply one_value_bytes]|done]. }
  exists t, h, t'. split; [exact Hu|]. split; [exact Hh|]. split; [|apply Heq; exact one_trie_holds].
  assert (Hr : (stack_Hash (stack_updates one_pairs NewStackTrie).2).1 = Ok (toy_hash one_blob)) by (vm_compute; reflexivity).
  rewrite Hu in Hr. cbn [snd] in Hr. rewrite Hh in Hr. by injection Hr as ->.
Defined.

(** A list of one item, under the key 0x80. *)
Definition one_list : list bytes := [one_value].
Definition other_list : list bytes := [value_a; value_b].

Lemma one_list_ok : Forall value_ok one_list.
Proof. constructor; [|constructor]. split; [done|apply one_value_bytes]. Qed.
Lemma other_list_ok : Forall value_ok other_list.
Proof. repeat constructor; try done; apply Forall_replicate; unfold is_byte; lia. Qed.

Definition list_trie : Trie := (Update [128] one_value empty_trie).2.

Lemma list_trie_holds : holds list_trie (index_map one_list).
Proof.
  destruct (Update_holds empty_trie ∅ [128] one_value empty_trie_holds) as (t' & He & Hh); [by repeat constructor|apply one_value_bytes|].
  unfold list_trie. rewrite He. exact Hh.
Qed.

Lemma derive_sha_is_root_witness :
  ∃ h t', DeriveSha one_list NewStackTrie = (Ok h, t') ∧ ∃ T', @Hash toy_keccak list_trie = (Ok h, T').
Proof.
  destruct (derive_sha_is_root one_list NewStackTrie) as (h & t' & Hd & Heq); [done|exact one_list_ok|].
  exists h, t'. split; [exact Hd|]. apply Heq. exact list_trie_holds.
Defined.

Lemma derive_sha_binds_witness :
  other_list = other_list ∨
  ∃ x y, node_blob (index_map other_list) x ∧ node_blob (index_map other_list) y ∧ x ≠ y ∧ toy_hash x = toy_hash y.
Proof.
  destruct (derive_sha_is_root other_list NewStackTrie) as (h & t' & Hd & _); [done|exact other_list_ok|].
  apply (@derive_sha_binds toy_keccak other_list other_list NewStackTrie NewStackTrie h 40).
  - done.
  - done.
  - exact other_list_ok.
  - exact other_list_ok.
  - by rewrite Hd.
  - by rewrite Hd.
  - by vm_compute.
  - intros v Hv. revert v Hv. by apply (proj1 (Forall_forall (λ v, len v <= 40) other_list)); repeat constructor.
  - done.
Defined.
