(* ===== verification/ChainConfig.v ===== *)
(** * The configuration of the chain

    parallelizable-client-go-ethereum/params/config.go: when each fork is
    active, the flags of a block, the checks that a configuration orders its
    forks and that a new configuration does not change the past.  A [*big.Int]
    block and a [*uint64] time are [option Z]; [CheckCompatible] is a loop, here
    with fuel, and the theorems say how much is enough. *)

From S2P Require Import Prelude.

Record BlobConfig : Type := MkBlobConfig {
  Target : Z;
  Max : Z;
  UpdateFraction : Z
}.

Record BlobScheduleConfig : Type := MkBlobSchedule {
  bs_Cancun : option BlobConfig;
  bs_Prague : option BlobConfig;
  bs_Osaka : option BlobConfig;
  bs_Verkle : option BlobConfig
}.

Record ChainConfig : Type := MkChainConfig {
  cc_ChainID : option Z;
  HomesteadBlock : option Z;
  DAOForkBlock : option Z;
  DAOForkSupport : bool;
  EIP150Block : option Z;
  EIP155Block : option Z;
  EIP158Block : option Z;
  ByzantiumBlock : option Z;
  ConstantinopleBlock : option Z;
  PetersburgBlock : option Z;
  IstanbulBlock : option Z;
  MuirGlacierBlock : option Z;
  BerlinBlock : option Z;
  LondonBlock : option Z;
  ArrowGlacierBlock : option Z;
  GrayGlacierBlock : option Z;
  MergeNetsplitBlock : option Z;
  ShanghaiTime : option Z;
  CancunTime : option Z;
  PragueTime : option Z;
  OsakaTime : option Z;
  VerkleTime : option Z;
  TerminalTotalDifficulty : option Z;
  EnableVerkleAtGenesis : bool;
  cc_BlobSchedule : option BlobScheduleConfig
}.

Definition isBlockForked (s head : option Z) : bool :=
  match s, head with
  | Some s, Some head => Cmp s head <=? 0
  | _, _ => false
  end.

Definition isTimestampForked (s : option Z) (head : Z) : bool :=
  match s with Some s => s <=? head | None => false end.

Definition configBlockEqual (x y : option Z) : bool :=
  match x, y with
  | None, None => true
  | Some x, Some y => Cmp x y =? 0
  | _, _ => false
  end.

Definition configTimestampEqual (x y : option Z) : bool :=
  match x, y with
  | None, None => true
  | Some x, Some y => x =? y
  | _, _ => false
  end.

Definition isForkBlockIncompatible (s1 s2 head : option Z) : bool :=
  (isBlockForked s1 head || isBlockForked s2 head) && negb (configBlockEqual s1 s2).

Definition isForkTimestampIncompatible (s1 s2 : option Z) (head : Z) : bool :=
  (isTimestampForked s1 head || isTimestampForked s2 head) && negb (configTimestampEqual s1 s2).

Module Config.
Section Forks.
Context (c : ChainConfig).

Definition IsHomestead (num : option Z) : bool := isBlockForked (HomesteadBlock c) num.
Definition IsDAOFork (num : option Z) : bool := isBlockForked (DAOForkBlock c) num.
Definition IsEIP150 (num : option Z) : bool := isBlockForked (EIP150Block c) num.
Definition IsEIP155 (num : option Z) : bool := isBlockForked (EIP155Block c) num.
Definition IsEIP158 (num : option Z) : bool := isBlockForked (EIP158Block c) num.
Definition IsByzantium (num : option Z) : bool := isBlockForked (ByzantiumBlock c) num.
Definition IsConstantinople (num : option Z) : bool := isBlockForked (ConstantinopleBlock c) num.
Definition IsMuirGlacier (num : option Z) : bool := isBlockForked (MuirGlacierBlock c) num.
Definition IsPetersburg (num : option Z) : bool :=
  isBlockForked (PetersburgBlock c) num ||
  (bool_decide (PetersburgBlock c = None) && isBlockForked (ConstantinopleBlock c) num).
Definition IsIstanbul (num : option Z) : bool := isBlockForked (IstanbulBlock c) num.
Definition IsBerlin (num : option Z) : bool := isBlockForked (BerlinBlock c) num.
Definition IsLondon (num : option Z) : bool := isBlockForked (LondonBlock c) num.
Definition IsArrowGlacier (num : option Z) : bool := isBlockForked (ArrowGlacierBlock c) num.
Definition IsGrayGlacier (num : option Z) : bool := isBlockForked (GrayGlacierBlock c) num.

Definition IsTerminalPoWBlock (parentTotalDiff totalDiff : Z) : bool :=
  match TerminalTotalDifficulty c with
  | None => false
  | Some ttd => (Cmp parentTotalDiff ttd <? 0) && (Cmp totalDiff ttd >=? 0)
  end.

Definition IsShanghai (num : option Z) (time : Z) : bool := IsLondon num && isTimestampForked (ShanghaiTime c) time.
Definition IsCancun (num : option Z) (time : Z) : bool := IsLondon num && isTimestampForked (CancunTime c) time.
Definition IsPrague (num : option Z) (time : Z) : bool := IsLondon num && isTimestampForked (PragueTime c) time.
Definition IsOsaka (num : option Z) (time : Z) : bool := IsLondon num && isTimestampForked (OsakaTime c) time.
Definition IsVerkle (num : option Z) (time : Z) : bool := IsLondon num && isTimestampForked (VerkleTime c) time.
Definition IsVerkleGenesis : bool := EnableVerkleAtGenesis c.
Definition IsEIP4762 (num : option Z) (time : Z) : bool := IsVerkle num time.

Definition BaseFeeChangeDenominator : Z := 8.
Definition ElasticityMultiplier : Z := 2.
End Forks.

(** [forks.Fork], those that [LatestFork] returns. *)
Inductive Fork : Type := Paris | Shanghai | Cancun | Prague | Osaka.

Definition LatestFork (c : ChainConfig) (time : Z) : Fork :=
  let london := LondonBlock c in
  if IsOsaka c london time then Osaka
  else if IsPrague c london time then Prague
  else if IsCancun c london time then Cancun
  else if IsShanghai c london time then Shanghai
  else Paris.

(** The flags of a block. *)
Record Rules : Type := MkRules {
  r_ChainID : Z;
  r_IsHomestead : bool; r_IsEIP150 : bool; r_IsEIP155 : bool; r_IsEIP158 : bool;
  r_IsByzantium : bool; r_IsConstantinople : bool; r_IsPetersburg : bool; r_IsIstanbul : bool;
  r_IsBerlin : bool; r_IsEIP2929 : bool; r_IsLondon : bool;
  r_IsMerge : bool; r_IsShanghai : bool; r_IsCancun : bool; r_IsPrague : bool; r_IsOsaka : bool;
  r_IsVerkle : bool; r_IsEIP4762 : bool
}.

Definition rules (c : ChainConfig) (num : option Z) (isMerge : bool) (timestamp : Z) : Rules :=
  let chainID := default 0 (cc_ChainID c) in
  let isMerge := isMerge && IsLondon c num in
  let isVerkle := isMerge && IsVerkle c num timestamp in
  MkRules chainID
    (IsHomestead c num) (IsEIP150 c num) (IsEIP155 c num) (IsEIP158 c num)
    (IsByzantium c num) (IsConstantinople c num) (IsPetersburg c num) (IsIstanbul c num)
    (IsBerlin c num) (IsBerlin c num && negb isVerkle) (IsLondon c num)
    isMerge (isMerge && IsShanghai c num timestamp) (isMerge && IsCancun c num timestamp)
    (isMerge && IsPrague c num timestamp) (isMerge && IsOsaka c num timestamp)
    isVerkle isVerkle.

(** ** The order of the forks *)

Record fork : Type := MkFork {
  name : string;
  block : option Z;
  timestamp : option Z;
  optional : bool
}.

Definition block_fork (name : string) (b : option Z) (o : bool) : fork := MkFork name b None o.
Definition time_fork (name : string) (t : option Z) (o : bool) : fork := MkFork name None t o.

Definition fork_list (c : ChainConfig) : list fork :=
  [block_fork "homesteadBlock" (HomesteadBlock c) false;
   block_fork "daoForkBlock" (DAOForkBlock c) true;
   block_fork "eip150Block" (EIP150Block c) false;
   block_fork "eip155Block" (EIP155Block c) false;
   block_fork "eip158Block" (EIP158Block c) false;
   block_fork "byzantiumBlock" (ByzantiumBlock c) false;
   block_fork "constantinopleBlock" (ConstantinopleBlock c) false;
   block_fork "petersburgBlock" (PetersburgBlock c) false;
   block_fork "istanbulBlock" (IstanbulBlock c) false;
   block_fork "muirGlacierBlock" (MuirGlacierBlock c) true;
   block_fork "berlinBlock" (BerlinBlock c) false;
   block_fork "londonBlock" (LondonBlock c) false;
   block_fork "arrowGlacierBlock" (ArrowGlacierBlock c) true;
   block_fork "grayGlacierBlock" (GrayGlacierBlock c) true;
   block_fork "mergeNetsplitBlock" (MergeNetsplitBlock c) true;
   time_fork "shanghaiTime" (ShanghaiTime c) false;
   time_fork "cancunTime" (CancunTime c) true;
   time_fork "pragueTime" (PragueTime c) true;
   time_fork "osakaTime" (OsakaTime c) true;
   time_fork "verkleTime" (VerkleTime c) true].

Inductive config_error : Type :=
  | NotEnabled (last cur : string)
  | OutOfOrder (last cur : string)
  | RevertedToBlocks (last cur : string)
  | BlobMaxNegative | BlobTargetNegative | BlobFractionZero
  | MissingBlobSchedule (fork : string).

Definition is_set {A} (o : option A) : bool := bool_decide (is_Some o).

(** [a.Cmp(b) > 0] of two pointers that are not nil. *)
Definition ptr_gt (a b : option Z) : bool :=
  match a, b with Some a, Some b => b <? a | _, _ => false end.

(** The switch for one fork after another. *)
Definition check_pair (last cur : fork) : option config_error :=
  if negb (is_set (block last)) && negb (is_set (timestamp last)) &&
     (is_set (block cur) || is_set (timestamp cur))
  then Some (NotEnabled (name last) (name cur))
  else if (is_set (block last) && is_set (block cur)) || (is_set (timestamp last) && is_set (timestamp cur)) then
    if is_set (block last) && ptr_gt (block last) (block cur) then Some (OutOfOrder (name last) (name cur))
    else if is_set (timestamp last) && ptr_gt (timestamp last) (timestamp cur) then
      Some (OutOfOrder (name last) (name cur))
    else if is_set (timestamp last) && is_set (block cur) then Some (RevertedToBlocks (name last) (name cur))
    else None
  else None.

(** [None] is the zero [lastFork], before the first turn. *)
Fixpoint check_forks (lastFork : option fork) (forks : list fork) : option config_error :=
  match forks with
  | [] => None
  | cur :: forks =>
      let next := if negb (optional cur) || is_set (block cur) || is_set (timestamp cur)
                  then Some cur else lastFork in
      match lastFork with
      | None => check_forks next forks
      | Some last =>
          match check_pair last cur with
          | Some err => Some err
          | None => check_forks next forks
          end
      end
  end.

Definition validate (bc : BlobConfig) : option config_error :=
  if Max bc <? 0 then Some BlobMaxNegative
  else if Target bc <? 0 then Some BlobTargetNegative
  else if UpdateFraction bc =? 0 then Some BlobFractionZero
  else None.

Fixpoint check_blobs (l : list (string * option Z * option BlobConfig)) : option config_error :=
  match l with
  | [] => None
  | (name, time, config) :: l =>
      match (match config with Some bc => validate bc | None => None end) with
      | Some err => Some err
      | None =>
          if is_set time && negb (is_set config) then Some (MissingBlobSchedule name)
          else check_blobs l
      end
  end.

Definition CheckConfigForkOrder (c : ChainConfig) : option config_error :=
  match check_forks None (fork_list c) with
  | Some err => Some err
  | None =>
      let bsc := default (MkBlobSchedule None None None None) (cc_BlobSchedule c) in
      check_blobs
        [("cancun", CancunTime c, bs_Cancun bsc); ("prague", PragueTime c, bs_Prague bsc);
         ("osaka", OsakaTime c, bs_Osaka bsc)]%string
  end.

(** ** What the order gives *)

Definition fork_set (f : fork) : Prop := is_Some (block f) ∨ is_Some (timestamp f).

(** Forks by time come after the forks by block, and no fork is both. *)
Fixpoint well_kinded (l : list fork) : Prop :=
  match l with
  | [] => True
  | f :: l =>
      (is_Some (timestamp f) → block f = None ∧ ∀ g, g ∈ l → block g = None) ∧ well_kinded l
  end.

(** [a] is set and does not come after [b]. *)
Definition precedes (a b : fork) : Prop :=
  fork_set a ∧
  (∀ x y, block a = Some x → block b = Some y → x <= y) ∧
  (∀ x y, timestamp a = Some x → timestamp b = Some y → x <= y).

Lemma is_set_Some {A} (x : A) : is_set (Some x) = true.
Proof. done. Qed.

Lemma check_pair_ok last cur :
  check_pair last cur = None → fork_set cur → precedes last cur.
Proof.
  unfold check_pair, fork_set, precedes, is_set, ptr_gt. intros H Hcur.
  destruct last as [n1 b1 t1 o1], cur as [n2 b2 t2 o2]; cbn in *.
  destruct b1 as [x1|], t1 as [u1|], b2 as [x2|], t2 as [u2|]; cbn in H; repeat case_match; try done;
    repeat match goal with Hl : (_ <? _) = false |- _ => apply Z.ltb_ge in Hl end;
    first
      [ by destruct Hcur as [[? ?]|[? ?]]
      | split; [first [by left; eexists|by right; eexists]|split; intros ? ? ? ?; simplify_eq; done || lia] ].
Qed.

Lemma check_forks_precedes last l :
  well_kinded (last :: l) → check_forks (Some last) l = None →
  ∀ b, b ∈ l → fork_set b → precedes last b.
Proof.
  revert last. induction l as [|cur l IH]; intros last Hw Hc b Hb Hs; [by apply elem_of_nil in Hb|].
  cbn in Hw. destruct Hw as [Hk [Hkc Hkl]]. cbn in Hc. destruct (check_pair last cur) eqn:Hp; [done|].
  apply elem_of_cons in Hb as [->|Hb]; [by apply check_pair_ok|].
  destruct (negb (optional cur) || is_set (block cur) || is_set (timestamp cur)) eqn:Hnext.
  - destruct (IH cur (conj Hkc Hkl) Hc b Hb Hs) as (Hcs & Hcb & Hct).
    destruct (check_pair_ok last cur Hp Hcs) as (Hls & Hlb & Hlt). split; [done|].
    destruct Hcs as [[x Hx]|[x Hx]].
    + split; [intros u v Hu Hv; specialize (Hlb _ _ Hu Hx); specialize (Hcb _ _ Hx Hv); lia|].
      intros u v Hu Hv. destruct (Hk (mk_is_Some _ _ Hu)) as [_ Hkb].
      rewrite (Hkb cur) in Hx by (by left). done.
    + split; [|intros u v Hu Hv; specialize (Hlt _ _ Hu Hx); specialize (Hct _ _ Hx Hv); lia].
      intros u v Hu Hv. destruct (Hkc (mk_is_Some _ _ Hx)) as [_ Hkb].
      rewrite (Hkb b) in Hv by done. done.
  - apply (IH last); [|done..]. split; [|done]. intros Ht. destruct (Hk Ht) as [? Hkb].
    split; [done|]. intros g Hg. apply Hkb. by right.
Qed.

(** After a fork that is mandatory or set, it is the last fork. *)
Lemma check_forks_at st l1 a l2 :
  check_forks st (l1 ++ a :: l2) = None →
  negb (optional a) || is_set (block a) || is_set (timestamp a) = true →
  check_forks (Some a) l2 = None.
Proof.
  revert st. induction l1 as [|f l1 IH]; intros st Hc Ha; cbn in Hc.
  - rewrite Ha in Hc. destruct st; [|done]. by case_match.
  - destruct st; [|by eapply IH]. case_match; [done|]. by eapply IH.
Qed.

Lemma fork_list_well_kinded c : well_kinded (fork_list c).
Proof.
  unfold fork_list. repeat (split; [cbn; intros H; first [by destruct H|split; [done|]]|]); [..|done];
    intros g; rewrite ?elem_of_cons, ?elem_of_nil; intros; repeat destruct_or?; subst; done.
Qed.

Lemma well_kinded_app l1 l2 : well_kinded (l1 ++ l2) → well_kinded l2.
Proof. induction l1; [done|]. intros [_ ?]. auto. Qed.

(** A mandatory fork of the list precedes every later fork that is set. *)
Lemma mandatory_precedes c l1 a l2 b :
  check_forks None (fork_list c) = None → fork_list c = l1 ++ a :: l2 → optional a = false →
  b ∈ l2 → fork_set b → precedes a b.
Proof.
  intros Hc Hl Ha Hb Hs. rewrite Hl in Hc. apply check_forks_at in Hc; [|by rewrite Ha].
  eapply check_forks_precedes; [|done..]. eapply (well_kinded_app l1). rewrite <- Hl.
  apply fork_list_well_kinded.
Qed.

Lemma forked_earlier (x y : option Z) num :
  (∀ v, y = Some v → ∃ u, x = Some u ∧ u <= v) → isBlockForked y num = true → isBlockForked x num = true.
Proof.
  intros H. destruct y as [v|], num as [h|]; cbn; try done. destruct (H v eq_refl) as (u & -> & Hu).
  cbn. rewrite !Cmp_leb. intros Hv%Z.leb_le. apply Z.leb_le. lia.
Qed.

Lemma leb_trans_forked (x y : option Z) h :
  (∀ v, y = Some v → ∃ u, x = Some u ∧ u <= v) → isTimestampForked y h = true → isTimestampForked x h = true.
Proof.
  intros H. destruct y as [v|]; cbn; [|done]. destruct (H v eq_refl) as (u & -> & Hu). cbn. intros Hv%Z.leb_le. apply Z.leb_le. lia.
Qed.

Lemma at_precedes c i j a b :
  check_forks None (fork_list c) = None → (i < j)%nat →
  fork_list c !! i = Some a → fork_list c !! j = Some b → optional a = false → fork_set b → precedes a b.
Proof.
  intros Hc Hij Ha Hb Ho Hs. apply (mandatory_precedes c (take i (fork_list c)) a (drop (S i) (fork_list c)) b);
    [done|by rewrite take_drop_middle|done| |done].
  apply list_elem_of_lookup. exists (j - S i)%nat. rewrite lookup_drop. by replace (S i + (j - S i))%nat with j by lia.
Qed.

Lemma block_nested c num i j a b :
  check_forks None (fork_list c) = None → fork_list c !! i = Some a → fork_list c !! j = Some b →
  (i < j)%nat → optional a = false → timestamp a = None →
  isBlockForked (block b) num = true → isBlockForked (block a) num = true.
Proof.
  intros Hc Ha Hb Hij Ho Ht. apply forked_earlier. intros v Hv.
  destruct (at_precedes c i j a b Hc Hij Ha Hb Ho (or_introl (mk_is_Some _ _ Hv))) as ([[u Hu]|[u Hu]] & Hle & _);
    [|congruence]. exists u. split; [done|]. by apply Hle.
Qed.

Lemma time_nested c h i j a b :
  check_forks None (fork_list c) = None → fork_list c !! i = Some a → fork_list c !! j = Some b →
  (i < j)%nat → optional a = false → block a = None →
  isTimestampForked (timestamp b) h = true → isTimestampForked (timestamp a) h = true.
Proof.
  intros Hc Ha Hb Hij Ho Ht. apply leb_trans_forked. intros v Hv.
  destruct (at_precedes c i j a b Hc Hij Ha Hb Ho (or_intror (mk_is_Some _ _ Hv))) as ([[u Hu]|[u Hu]] & _ & Hle);
    [congruence|]. exists u. split; [done|]. by apply Hle.
Qed.

Lemma CheckConfigForkOrder_forks c :
  CheckConfigForkOrder c = None → check_forks None (fork_list c) = None.
Proof. unfold CheckConfigForkOrder. generalize (check_forks None (fork_list c)). by intros []. Qed.

Lemma nested_blocks c num :
  check_forks None (fork_list c) = None →
  (IsLondon c num = true → IsBerlin c num = true) ∧ (IsBerlin c num = true → IsIstanbul c num = true) ∧
  (IsIstanbul c num = true → isBlockForked (PetersburgBlock c) num = true) ∧
  (IsIstanbul c num = true → IsConstantinople c num = true) ∧
  (IsConstantinople c num = true → IsByzantium c num = true) ∧
  (IsByzantium c num = true → IsEIP158 c num = true) ∧ (IsEIP158 c num = true → IsEIP155 c num = true) ∧
  (IsEIP155 c num = true → IsEIP150 c num = true) ∧ (IsEIP150 c num = true → IsHomestead c num = true).
Proof.
  intros H.
  assert (Hn : ∀ i j a b, fork_list c !! i = Some a → fork_list c !! j = Some b → (i < j)%nat →
    optional a = false → timestamp a = None →
    isBlockForked (block b) num = true → isBlockForked (block a) num = true)
    by (intros i j a b Ha Hb ? ? ?; exact (block_nested c num i j a b H Ha Hb ltac:(done) ltac:(done) ltac:(done))).
  unfold IsLondon, IsBerlin, IsIstanbul, IsConstantinople, IsByzantium, IsEIP158, IsEIP155, IsEIP150, IsHomestead.
  clear H. split_and!; [refine (Hn 10 11 _ _ eq_refl eq_refl _ eq_refl eq_refl)%nat|refine (Hn 8 10 _ _ eq_refl eq_refl _ eq_refl eq_refl)%nat|refine (Hn 7 8 _ _ eq_refl eq_refl _ eq_refl eq_refl)%nat
    |refine (Hn 6 8 _ _ eq_refl eq_refl _ eq_refl eq_refl)%nat|refine (Hn 5 6 _ _ eq_refl eq_refl _ eq_refl eq_refl)%nat|refine (Hn 4 5 _ _ eq_refl eq_refl _ eq_refl eq_refl)%nat
    |refine (Hn 3 4 _ _ eq_refl eq_refl _ eq_refl eq_refl)%nat|refine (Hn 2 3 _ _ eq_refl eq_refl _ eq_refl eq_refl)%nat|refine (Hn 0 2 _ _ eq_refl eq_refl _ eq_refl eq_refl)%nat];
    lia.
Qed.

Lemma nested_times c time t :
  check_forks None (fork_list c) = None → t ∈ [CancunTime c; PragueTime c; OsakaTime c; VerkleTime c] →
  isTimestampForked t time = true → isTimestampForked (ShanghaiTime c) time = true.
Proof.
  intros H Ht. rewrite !elem_of_cons, elem_of_nil in Ht. destruct Ht as [->|[->|[->|[->|[]]]]];
    [refine (time_nested c time 15 16 _ _ H eq_refl eq_refl _ eq_refl eq_refl)%nat
    |refine (time_nested c time 15 17 _ _ H eq_refl eq_refl _ eq_refl eq_refl)%nat
    |refine (time_nested c time 15 18 _ _ H eq_refl eq_refl _ eq_refl eq_refl)%nat
    |refine (time_nested c time 15 19 _ _ H eq_refl eq_refl _ eq_refl eq_refl)%nat]; lia.
Qed.

(** A configuration that passes the check orders its forks: at every block
    and time, a later fork is active only where the ones before it are, so that
    the flags of a block are nested. *)
Theorem fork_order_nested c num isMerge time :
  CheckConfigForkOrder c = None →
  let r := rules c num isMerge time in
  (r_IsLondon r = true → r_IsBerlin r = true) ∧ (r_IsBerlin r = true → r_IsIstanbul r = true) ∧
  (r_IsIstanbul r = true → r_IsPetersburg r = true ∧ r_IsConstantinople r = true) ∧
  (r_IsConstantinople r = true → r_IsByzantium r = true) ∧ (r_IsByzantium r = true → r_IsEIP158 r = true) ∧
  (r_IsEIP158 r = true → r_IsEIP155 r = true) ∧ (r_IsEIP155 r = true → r_IsEIP150 r = true) ∧
  (r_IsEIP150 r = true → r_IsHomestead r = true) ∧
  (r_IsCancun r || r_IsPrague r || r_IsOsaka r || r_IsVerkle r = true →
     r_IsShanghai r = true ∧ r_IsMerge r = true ∧ r_IsLondon r = true).
Proof.
  intros H%CheckConfigForkOrder_forks r.
  destruct (nested_blocks c num H) as (H1 & H2 & H3 & H4 & H5 & H6 & H7 & H8 & H9).
  pose proof (nested_times c time) as Ht.
  split_and!; [exact H1|exact H2| |exact H5|exact H6|exact H7|exact H8|exact H9|].
  - intros Hi. split; [|by apply H4]. apply orb_true_iff. left. by apply H3.
  - unfold r, rules. cbn [r_IsCancun r_IsPrague r_IsOsaka r_IsVerkle r_IsShanghai r_IsMerge r_IsLondon].
    unfold IsCancun, IsPrague, IsOsaka, IsVerkle, IsShanghai.
    destruct isMerge, (IsLondon c num); cbn [andb orb]; try done. rewrite !orb_true_iff. intros Hl. split; [|done].
    destruct Hl as [[[Hl|Hl]|Hl]|Hl]; (eapply Ht; [exact H| |exact Hl]); rewrite !elem_of_cons; tauto.
Qed.

(** ** Changing the configuration of a chain *)

Record ConfigCompatError : Type := MkCompatError {
  What : string;
  StoredBlock : option Z; NewBlock : option Z;
  StoredTime : option Z; NewTime : option Z;
  RewindToBlock : Z;
  RewindToTime : Z
}.

(** The earlier of the two, [None] when neither is set. *)
Definition rewind (stored new : option Z) : option Z :=
  match stored, new with
  | None, _ => new
  | Some s, None => stored
  | Some s, Some n => if s <? n then stored else new
  end.

Definition newBlockCompatError (what : string) (storedblock newblock : option Z) : ConfigCompatError :=
  let to :=
    match rewind storedblock newblock with
    | Some rew => if 0 <? rew then wrap64 (wrap64 rew - 1) else 0
    | None => 0
    end in
  MkCompatError what storedblock newblock None None to 0.

Definition newTimestampCompatError (what : string) (storedtime newtime : option Z) : ConfigCompatError :=
  let to :=
    match rewind storedtime newtime with
    | Some rew => if negb (rew =? 0) then wrap64 (rew - 1) else 0
    | None => 0
    end in
  MkCompatError what None None storedtime newtime 0 to.

Definition checkCompatible (c newcfg : ChainConfig) (headNumber : option Z) (headTimestamp : Z)
    : option ConfigCompatError :=
  let block_error what s n := Some (newBlockCompatError what s n) in
  let time_error what s n := Some (newTimestampCompatError what s n) in
  if isForkBlockIncompatible (HomesteadBlock c) (HomesteadBlock newcfg) headNumber
  then block_error "Homestead fork block" (HomesteadBlock c) (HomesteadBlock newcfg)
  else if isForkBlockIncompatible (DAOForkBlock c) (DAOForkBlock newcfg) headNumber
  then block_error "DAO fork block" (DAOForkBlock c) (DAOForkBlock newcfg)
  else if IsDAOFork c headNumber && negb (Bool.eqb (DAOForkSupport c) (DAOForkSupport newcfg))
  then block_error "DAO fork support flag" (DAOForkBlock c) (DAOForkBlock newcfg)
  else if isForkBlockIncompatible (EIP150Block c) (EIP150Block newcfg) headNumber
  then block_error "EIP150 fork block" (EIP150Block c) (EIP150Block newcfg)
  else if isForkBlockIncompatible (EIP155Block c) (EIP155Block newcfg) headNumber
  then block_error "EIP155 fork block" (EIP155Block c) (EIP155Block newcfg)
  else if isForkBlockIncompatible (EIP158Block c) (EIP158Block newcfg) headNumber
  then block_error "EIP158 fork block" (EIP158Block c) (EIP158Block newcfg)
  else if IsEIP158 c headNumber && negb (configBlockEqual (cc_ChainID c) (cc_ChainID newcfg))
  then block_error "EIP158 chain ID" (EIP158Block c) (EIP158Block newcfg)
  else if isForkBlockIncompatible (ByzantiumBlock c) (ByzantiumBlock newcfg) headNumber
  then block_error "Byzantium fork block" (ByzantiumBlock c) (ByzantiumBlock newcfg)
  else if isForkBlockIncompatible (ConstantinopleBlock c) (ConstantinopleBlock newcfg) headNumber
  then block_error "Constantinople fork block" (ConstantinopleBlock c) (ConstantinopleBlock newcfg)
  else if isForkBlockIncompatible (PetersburgBlock c) (PetersburgBlock newcfg) headNumber &&
    isForkBlockIncompatible (ConstantinopleBlock c) (PetersburgBlock newcfg) headNumber
  then block_error "Petersburg fork block" (PetersburgBlock c) (PetersburgBlock newcfg)
  else if isForkBlockIncompatible (IstanbulBlock c) (IstanbulBlock newcfg) headNumber
  then block_error "Istanbul fork block" (IstanbulBlock c) (IstanbulBlock newcfg)
  else if isForkBlockIncompatible (MuirGlacierBlock c) (MuirGlacierBlock newcfg) headNumber
  then block_error "Muir Glacier fork block" (MuirGlacierBlock c) (MuirGlacierBlock newcfg)
  else if isForkBlockIncompatible (BerlinBlock c) (BerlinBlock newcfg) headNumber
  then block_error "Berlin fork block" (BerlinBlock c) (BerlinBlock newcfg)
  else if isForkBlockIncompatible (LondonBlock c) (LondonBlock newcfg) headNumber
  then block_error "London fork block" (LondonBlock c) (LondonBlock newcfg)
  else if isForkBlockIncompatible (ArrowGlacierBlock c) (ArrowGlacierBlock newcfg) headNumber
  then block_error "Arrow Glacier fork block" (ArrowGlacierBlock c) (ArrowGlacierBlock newcfg)
  else if isForkBlockIncompatible (GrayGlacierBlock c) (GrayGlacierBlock newcfg) headNumber
  then block_error "Gray Glacier fork block" (GrayGlacierBlock c) (GrayGlacierBlock newcfg)
  else if isForkBlockIncompatible (MergeNetsplitBlock c) (MergeNetsplitBlock newcfg) headNumber
  then block_error "Merge netsplit fork block" (MergeNetsplitBlock c) (MergeNetsplitBlock newcfg)
  else if isForkTimestampIncompatible (ShanghaiTime c) (ShanghaiTime newcfg) headTimestamp
  then time_error "Shanghai fork timestamp" (ShanghaiTime c) (ShanghaiTime newcfg)
  else if isForkTimestampIncompatible (CancunTime c) (CancunTime newcfg) headTimestamp
  then time_error "Cancun fork timestamp" (CancunTime c) (CancunTime newcfg)
  else if isForkTimestampIncompatible (PragueTime c) (PragueTime newcfg) headTimestamp
  then time_error "Prague fork timestamp" (PragueTime c) (PragueTime newcfg)
  else if isForkTimestampIncompatible (OsakaTime c) (OsakaTime newcfg) headTimestamp
  then time_error "Osaka fork timestamp" (OsakaTime c) (OsakaTime newcfg)
  else if isForkTimestampIncompatible (VerkleTime c) (VerkleTime newcfg) headTimestamp
  then time_error "Verkle fork timestamp" (VerkleTime c) (VerkleTime newcfg)
  else None.

(** The loop of [CheckCompatible]; [None] is no fuel. *)
Fixpoint compatible_loop (fuel : nat) (c newcfg : ChainConfig) (bhead btime : Z)
    (lasterr : option ConfigCompatError) : option (option ConfigCompatError) :=
  match fuel with
  | O => None
  | S fuel =>
      match checkCompatible c newcfg (Some bhead) btime with
      | None => Some lasterr
      | Some err =>
          let same :=
            match lasterr with
            | Some l => (RewindToBlock err =? RewindToBlock l) && (RewindToTime err =? RewindToTime l)
            | None => false
            end in
          if same then Some lasterr
          else if RewindToTime err >? 0 then compatible_loop fuel c newcfg bhead (RewindToTime err) (Some err)
          else compatible_loop fuel c newcfg (RewindToBlock err) btime (Some err)
      end
  end.

(** Each turn but the last two lowers the block or the time. *)
Definition CheckCompatible (c newcfg : ChainConfig) (height time : Z) : option (option ConfigCompatError) :=
  compatible_loop (Z.to_nat (height + time + 2)) c newcfg height time None.

Lemma compat_block a b h num :
  isForkBlockIncompatible a b (Some h) = false → num <= h → isBlockForked a (Some num) = isBlockForked b (Some num).
Proof.
  unfold isForkBlockIncompatible, isBlockForked, configBlockEqual. intros H Hn.
  destruct a as [x|], b as [y|]; rewrite ?Cmp_leb in *; try done.
  - destruct (Z.eqb_spec (Cmp x y) 0) as [->%Cmp_zero|]; [done|]. cbn in H. rewrite andb_true_r in H.
    apply orb_false_iff in H as [Hx%Z.leb_gt Hy%Z.leb_gt].
    transitivity false; [|symmetry]; apply Z.leb_gt; lia.
  - rewrite orb_false_r, andb_true_r in H. apply Z.leb_gt in H. apply Z.leb_gt. lia.
  - cbn in H. rewrite andb_true_r in H. apply Z.leb_gt in H. symmetry. apply Z.leb_gt. lia.
Qed.

Lemma compat_time a b h t :
  isForkTimestampIncompatible a b h = false → t <= h → isTimestampForked a t = isTimestampForked b t.
Proof.
  unfold isForkTimestampIncompatible, isTimestampForked, configTimestampEqual. intros H Hn.
  destruct a as [x|], b as [y|]; try done.
  - destruct (Z.eqb_spec x y) as [->|]; [done|]. cbn in H. rewrite andb_true_r in H.
    apply orb_false_iff in H as [Hx%Z.leb_gt Hy%Z.leb_gt].
    transitivity false; [|symmetry]; apply Z.leb_gt; lia.
  - rewrite orb_false_r, andb_true_r in H. apply Z.leb_gt in H. apply Z.leb_gt. lia.
  - cbn in H. rewrite andb_true_r in H. apply Z.leb_gt in H. symmetry. apply Z.leb_gt. lia.
Qed.

(** The flags that a compatible configuration keeps. *)
Definition kept_flags (r : Rules) : list bool :=
  [r_IsHomestead r; r_IsEIP150 r; r_IsEIP155 r; r_IsEIP158 r; r_IsByzantium r; r_IsConstantinople r;
   r_IsIstanbul r; r_IsBerlin r; r_IsEIP2929 r; r_IsLondon r; r_IsMerge r; r_IsShanghai r; r_IsCancun r;
   r_IsPrague r; r_IsOsaka r; r_IsVerkle r; r_IsEIP4762 r].

(** A configuration that is compatible with the stored one at the head of
    the chain gives every block up to the head the same flags, Petersburg
    excepted, and the same chain ID where replay protection already holds. *)
Theorem compatible_keeps_past c newcfg head headTime num isMerge time :
  checkCompatible c newcfg (Some head) headTime = None → num <= head → time <= headTime →
  kept_flags (rules newcfg (Some num) isMerge time) = kept_flags (rules c (Some num) isMerge time) ∧
  (IsEIP158 c (Some head) = true → configBlockEqual (cc_ChainID c) (cc_ChainID newcfg) = true).
Proof.
  unfold checkCompatible. intros H Hn Ht.
  repeat match type of H with
  | (if ?b then _ else _) = None => let E := fresh "E" in destruct b eqn:E; [discriminate H|]
  end.
  split.
  - unfold kept_flags, rules.
    cbn [r_IsHomestead r_IsEIP150 r_IsEIP155 r_IsEIP158 r_IsByzantium r_IsConstantinople r_IsIstanbul r_IsBerlin
      r_IsEIP2929 r_IsLondon r_IsMerge r_IsShanghai r_IsCancun r_IsPrague r_IsOsaka r_IsVerkle r_IsEIP4762].
    unfold IsShanghai, IsCancun, IsPrague, IsOsaka, IsVerkle, IsHomestead, IsEIP150, IsEIP155, IsEIP158, IsByzantium,
      IsConstantinople, IsIstanbul, IsBerlin, IsLondon.
    repeat match goal with
    | E : isForkBlockIncompatible ?a ?b _ = false |- _ => rewrite <- (compat_block a b head num E Hn); clear E
    | E : isForkTimestampIncompatible ?a ?b _ = false |- _ => rewrite <- (compat_time a b headTime time E Ht); clear E
    end. done.
  - intros H158. match goal with E : IsEIP158 _ _ && _ = false |- _ => rewrite H158 in E; cbn in E;
      by apply negb_false_iff in E end.
Qed.

(** ** The loop that looks for the point to rewind to *)

(** The times of a configuration are uint64. *)
Definition wf_times (c : ChainConfig) : Prop :=
  Forall (λ o : option Z, 0 <= default 0 o)
    [ShanghaiTime c; CancunTime c; PragueTime c; OsakaTime c; VerkleTime c].

(** An error lowers the block, or the time, or asks for the genesis. *)
Definition lowers (e : ConfigCompatError) (b t : Z) : Prop :=
  (RewindToTime e = 0 ∧ 0 <= RewindToBlock e ∧ (RewindToBlock e < b ∨ RewindToBlock e = 0)) ∨
  (RewindToBlock e = 0 ∧ 0 <= RewindToTime e ∧ (RewindToTime e < t ∨ RewindToTime e = 0)).

Lemma rewind_min s n : rewind s n =
  match s, n with Some s, Some n => Some (s `min` n) | Some s, None => Some s | None, n => n end.
Proof.
  destruct s as [s|], n as [n|]; try done. unfold rewind. destruct (Z.ltb_spec s n); f_equal; lia.
Qed.

Lemma block_error_lowers what s n b t :
  0 <= b < 2 ^ 64 → isBlockForked s (Some b) || isBlockForked n (Some b) = true →
  lowers (newBlockCompatError what s n) b t.
Proof.
  intros Hb H. left. unfold newBlockCompatError. cbn [RewindToTime RewindToBlock]. split; [done|].
  assert (Hr : ∃ r, rewind s n = Some r ∧ r <= b).
  { rewrite rewind_min. unfold isBlockForked in H.
    destruct s as [s|], n as [n|]; rewrite ?Cmp_leb, ?orb_false_r, ?orb_true_iff, ?Z.leb_le in H;
      try done; eexists; (split; [done|]); lia. }
  destruct Hr as (r & -> & Hr). destruct (Z.ltb_spec 0 r); [|lia].
  rewrite (wrap64_id r), wrap64_id; ulia.
Qed.

Lemma time_error_lowers what s n b t :
  0 <= default 0 s → 0 <= default 0 n → 0 <= t < 2 ^ 64 →
  isTimestampForked s t || isTimestampForked n t = true → lowers (newTimestampCompatError what s n) b t.
Proof.
  intros Hs Hn Hb H. right. unfold newTimestampCompatError. cbn [RewindToTime RewindToBlock]. split; [done|].
  assert (Hr : ∃ r, rewind s n = Some r ∧ 0 <= r <= t).
  { rewrite rewind_min. unfold isTimestampForked in H.
    destruct s as [s|], n as [n|]; cbn in Hs, Hn; rewrite ?orb_false_r, ?orb_true_iff, ?Z.leb_le in H;
      try done; eexists; (split; [done|]); lia. }
  destruct Hr as (r & -> & Hr). destruct (Z.eqb_spec r 0); cbn [negb]; [lia|].
  rewrite wrap64_id; ulia.
Qed.

Lemma checkCompatible_lowers c n b t e :
  wf_times c → wf_times n → 0 <= b < 2 ^ 64 → 0 <= t < 2 ^ 64 →
  checkCompatible c n (Some b) t = Some e → lowers e b t.
Proof.
  unfold wf_times. rewrite !Forall_cons. intros (? & ? & ? & ? & ? & _) (? & ? & ? & ? & ? & _) Hb Ht.
  unfold checkCompatible.
  repeat match goal with
  | |- (if ?x then _ else _) = Some _ → _ =>
      let E := fresh "E" in destruct x eqn:E;
      [clear -Hb Ht E H H0 H1 H2 H3 H4 H5 H6 H7 H8; intros [= <-];
       try (apply andb_prop in E as [E _]); first
         [apply block_error_lowers; [done|]; first [apply E|rewrite orb_true_iff; left; exact E|
            apply andb_prop in E as [E _]; exact E]
         |apply time_error_lowers; done]
      |clear E]
  end. done.
Qed.

(** Where the loop stopped: the last error, if any, gives the point on its own
    axis, and there the configurations are compatible, or it asks for the
    genesis on both. *)
Definition settled (c n : ChainConfig) (b t : Z) (r : option ConfigCompatError) : Prop :=
  match r with
  | None => checkCompatible c n (Some b) t = None
  | Some e =>
      (if RewindToTime e >? 0 then t = RewindToTime e else b = RewindToBlock e) ∧
      (checkCompatible c n (Some b) t = None ∨ (RewindToBlock e = 0 ∧ RewindToTime e = 0))
  end.

#[local] Ltac split_settled := refine (conj _ (conj _ (conj _ (conj _ (conj _ _))))).

Lemma compatible_loop_settles c n fuel b t last :
  wf_times c → wf_times n → 0 <= b < 2 ^ 64 → 0 <= t < 2 ^ 64 →
  (∀ e, last = Some e → if RewindToTime e >? 0 then t = RewindToTime e else b = RewindToBlock e) →
  b + t + 1 < Z.of_nat fuel →
  ∃ r b' t', compatible_loop fuel c n b t last = Some r ∧ b' <= b ∧ t' <= t ∧ settled c n b' t' r ∧
    (r = None → b' = b ∧ t' = t ∧ last = None) ∧ (last = None → checkCompatible c n (Some b) t ≠ None → r ≠ None).
Proof.
  intros Hc Hn. revert b t last. induction fuel as [|fuel IH]; intros b t last Hb Ht Hl Hf; [lia|].
  cbn [compatible_loop]. destruct (checkCompatible c n (Some b) t) as [e|] eqn:He.
  2: { exists last, b, t. split_settled; [done|lia|lia| |done|congruence].
       unfold settled. destruct last as [l|]; [|done]. split; [by apply Hl|by left]. }
  pose proof (checkCompatible_lowers _ _ _ _ _ Hc Hn Hb Ht He) as Hlow.
  match goal with |- context [if ?b then _ else _] => destruct b eqn:Hsame end.
  { destruct last as [l|]; [|done]. apply andb_prop in Hsame as [H1%Z.eqb_eq H2%Z.eqb_eq].
    exists (Some l), b, t. specialize (Hl _ eq_refl). split_settled; [done|lia|lia| |done|done].
    unfold settled. split; [done|]. right. destruct (Z.gtb_spec (RewindToTime l) 0); unfold lowers in Hlow; lia. }
  assert (Hnext : ∀ b' t', b' <= b → t' <= t → 0 <= b' → 0 <= t' →
    (if RewindToTime e >? 0 then t' = RewindToTime e else b' = RewindToBlock e) → b' + t' < b + t →
    ∃ r b'' t'', compatible_loop fuel c n b' t' (Some e) = Some r ∧ b'' <= b ∧ t'' <= t ∧ settled c n b'' t'' r ∧
      (r = None → b'' = b ∧ t'' = t ∧ last = None) ∧ (last = None → Some e ≠ None → r ≠ None)).
  { intros b' t' ? ? ? ? Hx Hlt.
    destruct (IH b' t' (Some e)) as (r & b'' & t'' & Hr & ? & ? & Hs & Hnone & _); [lia|lia| |lia|].
    { by intros ? [= <-]. }
    exists r, b'', t''. split_settled; [done|lia|lia|done| |]; intros Hr0; [by destruct (Hnone Hr0) as (_ & _ & ?)|].
    intros _ ->. by destruct (Hnone eq_refl) as (_ & _ & ?). }
  unfold lowers in Hlow. destruct (Z.gtb_spec (RewindToTime e) 0).
  - apply Hnext; lia.
  - destruct (Z.eqb_spec b 0) as [->|]; [|apply Hnext; lia].
    assert (RewindToBlock e = 0 ∧ RewindToTime e = 0) as [E1 E2] by lia. rewrite E1.
    destruct fuel as [|fuel]; [lia|]. cbn [compatible_loop]. rewrite He, E1, E2. cbn [Z.eqb andb].
    exists (Some e), 0, t. split_settled; try done; try lia. unfold settled. rewrite E1, E2. cbn. auto.
Qed.

(** The loop of [CheckCompatible] ends on every chain; it reports an error
    exactly when the configurations disagree about the head, and the error it
    reports is one after which they agree, or asks for the genesis. *)
Theorem CheckCompatible_terminates c newcfg height time :
  wf_times c → wf_times newcfg → 0 <= height < 2 ^ 64 → 0 <= time < 2 ^ 64 →
  ∃ r b t, CheckCompatible c newcfg height time = Some r ∧ b <= height ∧ t <= time ∧
    settled c newcfg b t r ∧ (r = None ↔ checkCompatible c newcfg (Some height) time = None).
Proof.
  intros Hc Hn Hh Ht.
  destruct (compatible_loop_settles c newcfg (Z.to_nat (height + time + 2)) height time None Hc Hn Hh Ht)
    as (r & b & t & Hr & ? & ? & Hs & Hnone & Hsome); [done|lia|].
  exists r, b, t. split; [done|split; [done|split; [done|split; [done|]]]]. split.
  - intros ->. destruct (Hnone eq_refl) as (-> & -> & _). exact Hs.
  - intros Hok. destruct r; [|done]. unfold CheckCompatible in Hr.
    destruct (Z.to_nat (height + time + 2)) as [|k] eqn:Hk; [lia|]. cbn [compatible_loop] in Hr.
    rewrite Hok in Hr. congruence.
Qed.

(** ** Configurations to evaluate on *)

Definition all_at (h : Z) (shanghai : option Z) : ChainConfig :=
  MkChainConfig (Some 1) (Some h) None true (Some h) (Some h) (Some h) (Some h) (Some h) (Some h) (Some h) None
    (Some h) (Some h) None None None shanghai None None None None (Some 0) false None.

(** The blocks of mainnet, and its first two forks by time. *)
Definition mainnet_like : ChainConfig :=
  MkChainConfig (Some 1) (Some 1150000) (Some 1920000) true (Some 2463000) (Some 2675000) (Some 2675000)
    (Some 4370000) (Some 7280000) (Some 7280000) (Some 9069000) (Some 9200000) (Some 12244000) (Some 12965000)
    (Some 13773000) (Some 15050000) None (Some 1681338455) (Some 1710338135) None None None
    (Some 58750000000000000000000) false
    (Some (MkBlobSchedule (Some (MkBlobConfig 3 6 3338477)) None None None)).

Lemma fork_order_nested_witness :
  CheckConfigForkOrder mainnet_like = None ∧
  let r := rules mainnet_like (Some 20000000) true 1720000000 in
  (r_IsCancun r || r_IsPrague r || r_IsOsaka r || r_IsVerkle r = true →
     r_IsShanghai r = true ∧ r_IsMerge r = true ∧ r_IsLondon r = true).
Proof.
  split; [reflexivity|]. apply (fork_order_nested mainnet_like (Some 20000000) true 1720000000). reflexivity.
Defined.

Lemma compatible_keeps_past_witness :
  checkCompatible mainnet_like
    (MkChainConfig (Some 1) (Some 1150000) (Some 1920000) true (Some 2463000) (Some 2675000) (Some 2675000)
      (Some 4370000) (Some 7280000) (Some 7280000) (Some 9069000) (Some 9200000) (Some 12244000) (Some 12965000)
      (Some 13773000) (Some 15050000) None (Some 1681338455) (Some 1710338135) (Some 1746612311) None None
      (Some 58750000000000000000000) false None) (Some 19000000) 1700000000 = None ∧
  (IsEIP158 mainnet_like (Some 19000000) = true → configBlockEqual (cc_ChainID mainnet_like) (Some 1) = true).
Proof.
  split; [reflexivity|].
  apply (compatible_keeps_past mainnet_like
    (MkChainConfig (Some 1) (Some 1150000) (Some 1920000) true (Some 2463000) (Some 2675000) (Some 2675000)
      (Some 4370000) (Some 7280000) (Some 7280000) (Some 9069000) (Some 9200000) (Some 12244000) (Some 12965000)
      (Some 13773000) (Some 15050000) None (Some 1681338455) (Some 1710338135) (Some 1746612311) None None
      (Some 58750000000000000000000) false None) 19000000 1700000000 5 true 5); [reflexivity|lia|lia].
Defined.

Lemma CheckCompatible_terminates_witness :
  ∃ r b t, CheckCompatible (all_at 5 (Some 10)) (all_at 6 (Some 20)) 100 100 = Some r ∧ b <= 100 ∧ t <= 100 ∧
    settled (all_at 5 (Some 10)) (all_at 6 (Some 20)) b t r ∧
    (r = None ↔ checkCompatible (all_at 5 (Some 10)) (all_at 6 (Some 20)) (Some 100) 100 = None).
Proof.
  apply (CheckCompatible_terminates (all_at 5 (Some 10)) (all_at 6 (Some 20)) 100 100);
    [repeat constructor; cbn; lia|repeat constructor; cbn; lia|lia|lia].
Defined.

(** The error that is reported is the last one, and it names one axis only: here
    every fork by block moves from 5 to 6 and the one by time from 10 to 20.  The
    loop finds the block first, then the time; what it returns asks to rewind to
    the time 9 and to no block, and a chain with one block a second has its
    block 9 there, where the configurations still disagree. *)
Lemma rewind_one_axis :
  ∃ e, CheckCompatible (all_at 5 (Some 10)) (all_at 6 (Some 20)) 100 100 = Some (Some e) ∧
    RewindToTime e = 9 ∧ RewindToBlock e = 0 ∧
    checkCompatible (all_at 5 (Some 10)) (all_at 6 (Some 20)) (Some 9) 9 ≠ None.
Proof. eexists. split; [vm_compute; reflexivity|]. by vm_compute. Qed.

(** The clause for Petersburg accepts a new block that is Constantinople's, even
    where the stored configuration had another one that the chain has passed. *)
Definition with_petersburg (c : ChainConfig) (p : option Z) : ChainConfig :=
  MkChainConfig (cc_ChainID c) (HomesteadBlock c) (DAOForkBlock c) (DAOForkSupport c) (EIP150Block c)
    (EIP155Block c) (EIP158Block c) (ByzantiumBlock c) (ConstantinopleBlock c) p (Some 20)
    (MuirGlacierBlock c) (Some 20) (Some 20) (ArrowGlacierBlock c) (GrayGlacierBlock c)
    (MergeNetsplitBlock c) (ShanghaiTime c) (CancunTime c) (PragueTime c) (OsakaTime c) (VerkleTime c)
    (TerminalTotalDifficulty c) (EnableVerkleAtGenesis c) (cc_BlobSchedule c).

Lemma petersburg_rewrites_past :
  let stored := with_petersburg (all_at 5 None) (Some 7) in
  let new := with_petersburg (all_at 5 None) (Some 5) in
  checkCompatible stored new (Some 10) 10 = None ∧
  IsPetersburg stored (Some 6) = false ∧ IsPetersburg new (Some 6) = true.
Proof. by vm_compute. Qed.
End Config.
