(* ===== verification/BlockFees.v ===== *)
(** * Headers and the fees a header must carry

    parallelizable-client-go-ethereum/core/types/block.go (the header),
    consensus/misc/gaslimit.go, consensus/misc/eip1559/eip1559.go and
    consensus/misc/eip4844/eip4844.go: the gas limit, the base fee and the blob
    gas that a header must have after its parent, and the exponential that prices
    a blob.  A function that can panic (a nil pointer, a division by zero, a
    missing schedule) returns an option, and its error is inside it. *)

From S2P Require Import Prelude ChainConfig.

Module Header.
Record Header : Type := MkHeader {
  ParentHash : Hash;
  UncleHash : Hash;
  Coinbase : Address;
  Root : Hash;
  TxHash : Hash;
  ReceiptHash : Hash;
  Bloom : bytes;
  Difficulty : option Z;
  Number : option Z;
  GasLimit : Z;
  GasUsed : Z;
  Time : Z;
  Extra : bytes;
  MixDigest : Hash;
  Nonce : Z;
  BaseFee : option Z;
  WithdrawalsHash : option Hash;
  BlobGasUsed : option Z;
  ExcessBlobGas : option Z;
  ParentBeaconRoot : option Hash;
  RequestsHash : option Hash
}.
End Header.
Import Header (Header).

Definition GasLimitBoundDivisor : Z := 1024.
Definition MinGasLimit : Z := 5000.
Definition InitialBaseFee : Z := 1000000000.
Definition BlobTxBlobGasPerBlob : Z := 131072.
Definition minBlobGasPrice : Z := 1.

(** [int64(x)] of a [uint64]. *)
Definition int64_of (z : Z) : Z :=
  let w := wrap64 z in if w <? 9223372036854775808 then w else w - two64.

Inductive fee_error : Type :=
  | InvalidGasLimit | GasLimitTooLow
  | MissingBaseFee | InvalidBaseFee
  | MissingExcessBlobGas | MissingBlobGasUsed
  | BlobGasAboveMax | BlobGasNotMultiple | InvalidExcessBlobGas.

(** ** The gas limit *)

Definition VerifyGaslimit (parentGasLimit headerGasLimit : Z) : result fee_error unit :=
  let diff := int64_of (int64_of parentGasLimit - int64_of headerGasLimit) in
  let diff := if diff <? 0 then int64_of (diff * -1) else diff in
  let limit := parentGasLimit / GasLimitBoundDivisor in
  if wrap64 diff >=? limit then Err InvalidGasLimit
  else if headerGasLimit <? MinGasLimit then Err GasLimitTooLow
  else Ok tt.

(** ** The base fee *)

(** [None] is a panic: no base fee, or a target of zero. *)
Definition CalcBaseFee (config : ChainConfig) (parent : Header) : option Z :=
  if negb (Config.IsLondon config (Header.Number parent)) then Some InitialBaseFee
  else
    let parentGasTarget := Header.GasLimit parent / Config.ElasticityMultiplier in
    baseFee ← Header.BaseFee parent;
    if Header.GasUsed parent =? parentGasTarget then Some baseFee
    else if parentGasTarget <? Header.GasUsed parent then
      if parentGasTarget =? 0 then None else
      let num := (Header.GasUsed parent - parentGasTarget) * baseFee in
      let num := num / parentGasTarget in
      let num := num / Config.BaseFeeChangeDenominator in
      if Cmp num 1 <? 0 then Some (baseFee + 1) else Some (baseFee + num)
    else
      if parentGasTarget =? 0 then None else
      let num := (parentGasTarget - Header.GasUsed parent) * baseFee in
      let num := num / parentGasTarget in
      let num := num / Config.BaseFeeChangeDenominator in
      let baseFee := baseFee - num in
      if Cmp baseFee 0 <? 0 then Some 0 else Some baseFee.

Definition VerifyEIP1559Header (config : ChainConfig) (parent header : Header) : option (result fee_error unit) :=
  let parentGasLimit :=
    if negb (Config.IsLondon config (Header.Number parent))
    then wrap64 (Header.GasLimit parent * Config.ElasticityMultiplier) else Header.GasLimit parent in
  match VerifyGaslimit parentGasLimit (Header.GasLimit header) with
  | Err err => Some (Err err)
  | Ok _ =>
      match Header.BaseFee header with
      | None => Some (Err MissingBaseFee)
      | Some baseFee =>
          expectedBaseFee ← CalcBaseFee config parent;
          if negb (Cmp baseFee expectedBaseFee =? 0) then Some (Err InvalidBaseFee) else Some (Ok tt)
      end
  end.

(** ** Blob gas *)

(** The switch over the schedule that [MaxBlobsPerBlock] and
    [targetBlobsPerBlock] share. *)
Definition blobs_at (field : BlobConfig → Z) (cfg : ChainConfig) (time : Z) : Z :=
  match cc_BlobSchedule cfg with
  | None => 0
  | Some s =>
      let london := LondonBlock cfg in
      match (if Config.IsOsaka cfg london time then bs_Osaka s else None),
            (if Config.IsPrague cfg london time then bs_Prague s else None),
            (if Config.IsCancun cfg london time then bs_Cancun s else None) with
      | Some bc, _, _ => field bc
      | _, Some bc, _ => field bc
      | _, _, Some bc => field bc
      | None, None, None => 0
      end
  end.

Definition MaxBlobsPerBlock (cfg : ChainConfig) (time : Z) : Z := blobs_at Max cfg time.
Definition targetBlobsPerBlock (cfg : ChainConfig) (time : Z) : Z := blobs_at Target cfg time.

Definition MaxBlobGasPerBlock (cfg : ChainConfig) (time : Z) : Z :=
  wrap64 (wrap64 (MaxBlobsPerBlock cfg time) * BlobTxBlobGasPerBlob).

Definition LatestMaxBlobsPerBlock (cfg : ChainConfig) : Z :=
  match cc_BlobSchedule cfg with
  | None => 0
  | Some s =>
      match bs_Osaka s, bs_Prague s, bs_Cancun s with
      | Some bc, _, _ => Max bc
      | _, Some bc, _ => Max bc
      | _, _, Some bc => Max bc
      | None, None, None => 0
      end
  end.

(** [None] is a panic: an excess without the gas used. *)
Definition CalcExcessBlobGas (config : ChainConfig) (parent : Header) (headTimestamp : Z) : option Z :=
  '(parentExcessBlobGas, parentBlobGasUsed) ←
    match Header.ExcessBlobGas parent with
    | Some excess => used ← Header.BlobGasUsed parent; Some (excess, used)
    | None => Some (0, 0)
    end;
  let excessBlobGas := wrap64 (parentExcessBlobGas + parentBlobGasUsed) in
  let targetGas := wrap64 (wrap64 (targetBlobsPerBlock config headTimestamp) * BlobTxBlobGasPerBlob) in
  if excessBlobGas <? targetGas then Some 0 else Some (excessBlobGas - targetGas).

(** The outer option is a panic: numbers that do not follow each other, or an
    excess without the gas used. *)
Definition VerifyEIP4844Header (config : ChainConfig) (parent header : Header) : option (result fee_error unit) :=
  n ← Header.Number header;
  p ← Header.Number parent;
  if negb (wrap64 n =? wrap64 (wrap64 p + 1)) then None else
  match Header.ExcessBlobGas header with
  | None => Some (Err MissingExcessBlobGas)
  | Some excess =>
      match Header.BlobGasUsed header with
      | None => Some (Err MissingBlobGasUsed)
      | Some used =>
          let maxBlobGas := MaxBlobGasPerBlock config (Header.Time header) in
          if used >? maxBlobGas then Some (Err BlobGasAboveMax)
          else if negb (used mod BlobTxBlobGasPerBlob =? 0) then Some (Err BlobGasNotMultiple)
          else
            expectedExcessBlobGas ← CalcExcessBlobGas config parent (Header.Time header);
            if negb (excess =? expectedExcessBlobGas) then Some (Err InvalidExcessBlobGas) else Some (Ok tt)
      end
  end.

(** The loop of [fakeExponential], with fuel; [None] is no fuel, or the panic of
    the last division. *)
Fixpoint exp_loop (fuel : nat) (numerator denominator output accum i : Z) : option Z :=
  match fuel with
  | O => None
  | S fuel =>
      if Z.sgn accum >? 0 then
        exp_loop fuel numerator denominator (output + accum)
          (accum * numerator / denominator / i) (i + 1)
      else if denominator =? 0 then None
      else Some (output / denominator)
  end.

(** [q] bounds the quotient from above; from the turn [2 * q] on, the term
    halves. *)
Definition exp_turns (numerator denominator : Z) : Z := 2 * (numerator / denominator + 1).

Definition exp_fuel (factor numerator denominator : Z) : nat :=
  let q := numerator / denominator + 1 in
  Z.to_nat (exp_turns numerator denominator) +
  Z.to_nat (Z.log2 (factor * denominator * q ^ exp_turns numerator denominator) + 2).

Definition fakeExponential (factor numerator denominator : Z) : option Z :=
  exp_loop (exp_fuel factor numerator denominator) numerator denominator 0 (factor * denominator) 1.

(** [None] is a panic: a fork without blobs, or one whose schedule or excess is
    missing. *)
Definition CalcBlobFee (config : ChainConfig) (header : Header) : option Z :=
  let s := cc_BlobSchedule config in
  frac ← (match Config.LatestFork config (Header.Time header) with
          | Config.Osaka => s ← s; bc ← bs_Osaka s; Some (UpdateFraction bc)
          | Config.Prague => s ← s; bc ← bs_Prague s; Some (UpdateFraction bc)
          | Config.Cancun => s ← s; bc ← bs_Cancun s; Some (UpdateFraction bc)
          | _ => None
          end);
  excess ← Header.ExcessBlobGas header;
  fakeExponential minBlobGasPrice excess frac.

(** ** The gas limit: lemmas *)

Lemma int64_of_small z : 0 <= z < 2 ^ 63 → int64_of z = z.
Proof.
  intros Hz. unfold int64_of. rewrite wrap64_id by ulia.
  destruct (Z.ltb_spec z 9223372036854775808); lia.
Qed.

Lemma int64_of_neg z : - 2 ^ 63 <= z < 0 → int64_of z = z.
Proof.
  intros Hz. unfold int64_of, wrap64.
  assert (z mod two64 = z + two64) as ->
    by (symmetry; apply (Z.mod_unique_pos z two64 (-1)); unfold two64; lia).
  destruct (Z.ltb_spec (z + two64) 9223372036854775808); unfold two64 in *; lia.
Qed.

Lemma int64_of_signed z : - 2 ^ 63 <= z < 2 ^ 63 → int64_of z = z.
Proof. intros Hz. destruct (Z.ltb_spec z 0); [apply int64_of_neg|apply int64_of_small]; lia. Qed.

(** Below 2^63 the check of the gas limit is exact: it accepts a limit iff
    it is at least the minimum and moves by less than a 1024th of the parent's. *)
Theorem VerifyGaslimit_exact parentGasLimit headerGasLimit :
  0 <= parentGasLimit < 2 ^ 63 → 0 <= headerGasLimit < 2 ^ 63 →
  VerifyGaslimit parentGasLimit headerGasLimit = Ok tt ↔
  MinGasLimit <= headerGasLimit ∧ Z.abs (parentGasLimit - headerGasLimit) < parentGasLimit / GasLimitBoundDivisor.
Proof.
  intros Hp Hh. unfold VerifyGaslimit. rewrite !(int64_of_small _ Hp), !(int64_of_small _ Hh).
  rewrite (int64_of_signed (parentGasLimit - headerGasLimit)) by lia.
  assert (∀ d, d = parentGasLimit - headerGasLimit →
    wrap64 (if d <? 0 then int64_of (d * -1) else d) = Z.abs d) as Habs.
  { intros d Hd. destruct (Z.ltb_spec d 0).
    - rewrite int64_of_small by lia. rewrite wrap64_id; [lia|]. ulia.
    - rewrite wrap64_id; [lia|]. ulia. }
  rewrite (Habs _ eq_refl), Z.geb_leb. split_ifs; split; intros H'; try done; try (split; lia); lia.
Qed.

(** Above 2^63 the difference wraps, and the check accepts what it should not:
    from the largest limit to the smallest in one block. *)
Lemma gas_limit_wraps : VerifyGaslimit max_uint64 MinGasLimit = Ok tt.
Proof. reflexivity. Qed.

(** ** The base fee: lemmas *)

Lemma div_div_8 d b t : 0 <= d → 0 <= b → 0 < t → d <= t → 0 <= d * b / t / 8 <= b / 8.
Proof.
  intros Hd Hb Ht Hle. split; [apply Z.div_pos; [apply Z.div_pos; nia|lia]|].
  apply Z.div_le_mono; [lia|]. apply Z.div_le_upper_bound; nia.
Qed.

(** What a London parent gives, without the panics. *)
Definition next_fee (target used b : Z) : Z :=
  if used =? target then b
  else if target <? used then b + Z.max 1 ((used - target) * b / target / 8)
  else Z.max 0 (b - (target - used) * b / target / 8).

Lemma CalcBaseFee_next config parent b :
  Config.IsLondon config (Header.Number parent) = true → Header.BaseFee parent = Some b →
  2 <= Header.GasLimit parent →
  CalcBaseFee config parent = Some (next_fee (Header.GasLimit parent / 2) (Header.GasUsed parent) b).
Proof.
  intros HL Hb Hl. unfold CalcBaseFee, next_fee. rewrite HL, Hb. cbn [negb mbind option_bind].
  unfold Config.ElasticityMultiplier, Config.BaseFeeChangeDenominator.
  set (t := Header.GasLimit parent / 2). set (u := Header.GasUsed parent).
  assert (Ht : t ≠ 0) by (pose proof (Z.div_str_pos (Header.GasLimit parent) 2); lia).
  destruct (Z.eqb_spec u t); [done|]. destruct (Z.eqb_spec t 0); [done|].
  rewrite !Cmp_ltb. split_ifs; f_equal; lia.
Qed.

(** After a London parent with a base fee and a gas target, the base fee
    exists; it stays when the parent used exactly its target, rises by at least
    one and at most an eighth (or one) above it, falls by at most an eighth
    below it, and is never negative; a parent that used more gas never gives a
    lower fee. *)
Theorem CalcBaseFee_bounds config parent b :
  Config.IsLondon config (Header.Number parent) = true → Header.BaseFee parent = Some b → 0 <= b →
  2 <= Header.GasLimit parent → 0 <= Header.GasUsed parent <= 2 * (Header.GasLimit parent / 2) →
  ∃ f, CalcBaseFee config parent = Some f ∧ 0 <= f ∧
    (Header.GasUsed parent = Header.GasLimit parent / 2 → f = b) ∧
    (Header.GasUsed parent > Header.GasLimit parent / 2 → b < f <= b + Z.max 1 (b / 8)) ∧
    (Header.GasUsed parent < Header.GasLimit parent / 2 → b - b / 8 <= f <= b) ∧
    ∀ used, 0 <= used <= Header.GasUsed parent →
      next_fee (Header.GasLimit parent / 2) used b <= f.
Proof.
  intros HL Hbf Hb Hl Hu. rewrite (CalcBaseFee_next _ _ _ HL Hbf Hl).
  set (t := Header.GasLimit parent / 2) in *. set (u := Header.GasUsed parent) in *.
  assert (Ht : 0 < t) by (pose proof (Z.div_str_pos (Header.GasLimit parent) 2); lia).
  eexists. split; [done|]. unfold next_fee.
  assert (H8 : b / 8 <= b) by (apply Z.div_le_upper_bound; lia).
  assert (Hup : t < u → 0 <= (u - t) * b / t / 8 <= b / 8) by (intros; apply div_div_8; lia).
  assert (Hdn : ∀ v, 0 <= v < t → 0 <= (t - v) * b / t / 8 <= b / 8) by (intros; apply div_div_8; lia).
  split_and!.
  - split_ifs; lia.
  - intros ->. by rewrite Z.eqb_refl.
  - intros. split_ifs; lia.
  - intros. specialize (Hdn u). split_ifs; lia.
  - intros v Hv. assert (Hm : ∀ x y, x <= y → x * b / t / 8 <= y * b / t / 8).
    { intros x y Hxy. apply Z.div_le_mono; [lia|]. apply Z.div_le_mono; [lia|]. nia. }
    pose proof (Hm (v - t) (u - t)). pose proof (Hm (t - u) (t - v)). pose proof (Hdn v). pose proof (Hdn u).
    split_ifs; lia.
Qed.

(** A header is accepted iff its gas limit is, it has a base fee, and the
    fee is the one computed from the parent; at the fork the parent's limit is
    doubled and the fee is the initial one. *)
Theorem VerifyEIP1559Header_exact config parent header :
  VerifyEIP1559Header config parent header = Some (Ok tt) ↔
  VerifyGaslimit
    (if Config.IsLondon config (Header.Number parent) then Header.GasLimit parent
     else wrap64 (Header.GasLimit parent * 2)) (Header.GasLimit header) = Ok tt ∧
  ∃ f, Header.BaseFee header = Some f ∧ CalcBaseFee config parent = Some f ∧
    (Config.IsLondon config (Header.Number parent) = false → f = InitialBaseFee).
Proof.
  unfold VerifyEIP1559Header, Config.ElasticityMultiplier.
  replace (if negb (Config.IsLondon config (Header.Number parent)) then _ else _)
    with (if Config.IsLondon config (Header.Number parent) then Header.GasLimit parent
          else wrap64 (Header.GasLimit parent * 2)) by (by destruct (Config.IsLondon _ _)).
  destruct (VerifyGaslimit _ _) as [[]|e]; [|split; [done|intros [? _]; done]].
  destruct (Header.BaseFee header) as [f|]; [|split; [done|by intros (_ & ? & ? & _)]].
  assert (Hi : Config.IsLondon config (Header.Number parent) = false → CalcBaseFee config parent = Some InitialBaseFee)
    by (unfold CalcBaseFee; by intros ->).
  destruct (CalcBaseFee config parent) as [g|]; cbn [mbind option_bind];
    [|split; [done|by intros (_ & ? & _ & ? & _)]].
  destruct (Z.eqb_spec (Cmp f g) 0) as [->%Cmp_zero|Hne]; cbn [negb].
  - split; [|done]. intros _. split; [done|]. exists g. split_and!; [done..|]. intros HL. by injection (Hi HL).
  - split; [done|]. intros (_ & f' & [= <-] & [= ->] & _). by destruct Hne; apply Cmp_zero.
Qed.

(** ** The exponential: lemmas *)

Lemma sgn_gtb z : (Z.sgn z >? 0) = (0 <? z).
Proof. rewrite Z.gtb_ltb. destruct z; done. Qed.

Section Exponential.
Context (denominator : Z) (Hden : 0 < denominator).

(** The next term, from above. *)
Lemma term_le numerator accum i :
  0 <= numerator → 0 <= accum → 0 < i →
  0 <= accum * numerator / denominator / i ∧
  accum * numerator / denominator / i * i <= accum * (numerator / denominator + 1).
Proof.
  intros Hn Ha Hi. split; [apply Z.div_pos; [apply Z.div_pos; nia|lia]|].
  rewrite Z.mul_comm. etransitivity; [apply Z.mul_div_le; lia|].
  apply Z.div_le_upper_bound; [done|].
  pose proof (Z.mod_pos_bound numerator denominator Hden). pose proof (Z.div_mod numerator denominator). nia.
Qed.

(** From the turn [2 * q] on, each term is at most half the one before. *)
Lemma exp_loop_halving numerator fuel output accum i :
  0 <= numerator → 0 <= accum < 2 ^ Z.of_nat fuel → exp_turns numerator denominator <= i →
  is_Some (exp_loop (S fuel) numerator denominator output accum i).
Proof.
  intros Hn. unfold exp_turns. revert output accum i. induction fuel as [|fuel IH]; intros output accum i Ha Hi.
  - replace accum with 0 by lia. cbn. destruct (Z.eqb_spec denominator 0); [lia|]. by eexists.
  - cbn [exp_loop]. rewrite sgn_gtb. destruct (Z.ltb_spec 0 accum) as [Hpos|]; [|destruct (Z.eqb_spec denominator 0); [lia|by eexists]].
    assert (0 <= numerator / denominator) by (apply Z.div_pos; lia).
    pose proof (term_le numerator accum i Hn ltac:(lia) ltac:(lia)) as [H0 H1].
    apply IH; [|lia]. rewrite Nat2Z.inj_succ, Z.pow_succ_r in Ha by lia. nia.
Qed.

Lemma exp_loop_growing numerator k fuel output accum i :
  0 <= numerator → 0 <= accum → 1 <= i →
  accum * (numerator / denominator + 1) ^ Z.of_nat k < 2 ^ Z.of_nat fuel →
  exp_turns numerator denominator <= i + Z.of_nat k →
  is_Some (exp_loop (k + S fuel) numerator denominator output accum i).
Proof.
  intros Hn. assert (Hq : 0 <= numerator / denominator) by (apply Z.div_pos; lia).
  revert output accum i. induction k as [|k IH]; intros output accum i Ha Hi Hb Ht.
  - apply exp_loop_halving; [done| |lia]. rewrite Z.pow_0_r in Hb. lia.
  - cbn [exp_loop Nat.add]. rewrite sgn_gtb. destruct (Z.ltb_spec 0 accum) as [Hpos|]; [|destruct (Z.eqb_spec denominator 0); [lia|by eexists]].
    pose proof (term_le numerator accum i Hn ltac:(lia) ltac:(lia)) as [H0 H1].
    apply IH; [lia|lia| |lia]. rewrite Nat2Z.inj_succ, Z.pow_succ_r in Hb by lia.
    eapply Z.le_lt_trans; [|exact Hb].
    set (q := numerator / denominator + 1) in *. rewrite Z.mul_assoc.
    apply Z.mul_le_mono_nonneg_r; [apply Z.pow_nonneg; lia|].
    set (x := accum * numerator / denominator / i) in *. nia.
Qed.

Lemma exp_loop_acc numerator fuel output accum i r :
  0 <= numerator → 0 <= accum → 1 <= i →
  exp_loop fuel numerator denominator output accum i = Some r → (output + accum) / denominator <= r.
Proof.
  intros Hn. revert output accum i. induction fuel as [|fuel IH]; intros output accum i Ha Hi; [done|].
  cbn [exp_loop]. rewrite sgn_gtb. destruct (Z.ltb_spec 0 accum).
  - pose proof (term_le numerator accum i Hn ltac:(lia) ltac:(lia)) as [H0 _].
    intros Hr%IH; [|lia..]. etransitivity; [|exact Hr]. apply Z.div_le_mono; lia.
  - destruct (Z.eqb_spec denominator 0); [done|]. intros [= <-]. apply Z.div_le_mono; lia.
Qed.

Lemma exp_loop_mono fuel fuel' n n' output output' accum accum' i r r' :
  0 <= n <= n' → 0 <= accum <= accum' → output <= output' → 1 <= i →
  exp_loop fuel n denominator output accum i = Some r →
  exp_loop fuel' n' denominator output' accum' i = Some r' → r <= r'.
Proof.
  intros Hn. revert fuel' output output' accum accum' i.
  induction fuel as [|fuel IH]; intros fuel' output output' accum accum' i Ha Ho Hi; [done|].
  cbn [exp_loop]. rewrite sgn_gtb. destruct (Z.ltb_spec 0 accum).
  - destruct fuel' as [|fuel']; [done|]. cbn [exp_loop]. rewrite sgn_gtb.
    destruct (Z.ltb_spec 0 accum'); [|lia].
    apply IH; [|lia|lia]. split; [apply term_le; lia|].
    do 2 (apply Z.div_le_mono; [lia|]). nia.
  - destruct (Z.eqb_spec denominator 0); [done|]. intros [= <-] Hr'.
    etransitivity; [|eapply (exp_loop_acc n'); [| | |exact Hr']; lia]. apply Z.div_le_mono; lia.
Qed.

(** The computed fuel is enough. *)
Lemma fakeExponential_total factor numerator :
  0 <= factor → 0 <= numerator → is_Some (fakeExponential factor numerator denominator).
Proof.
  intros Hf Hn. unfold fakeExponential, exp_fuel.
  assert (Hq : 0 <= numerator / denominator) by (apply Z.div_pos; lia).
  set (A := factor * denominator * _). pose proof (Z.log2_nonneg A).
  replace (Z.to_nat (Z.log2 A + 2)) with (S (Z.to_nat (Z.log2 A + 1))) by lia.
  apply exp_loop_growing; [lia|nia|lia| |unfold exp_turns; lia].
  rewrite !Z2Nat.id by (unfold exp_turns; lia). fold A.
  destruct (Z.eq_dec A 0) as [->|]; [done|].
  assert (0 <= A) by (subst A; apply Z.mul_nonneg_nonneg; [nia|apply Z.pow_nonneg; lia]).
  rewrite Z.add_1_r. apply Z.log2_spec. lia.
Qed.
End Exponential.

(** The pricing exponential ends for every positive denominator: the fuel
    computed from its arguments is enough.  It is at least the factor, and it
    never falls when the numerator rises. *)
Theorem fakeExponential_spec factor numerator numerator' denominator :
  0 <= factor → 0 <= numerator <= numerator' → 0 < denominator →
  ∃ r r', fakeExponential factor numerator denominator = Some r ∧
    fakeExponential factor numerator' denominator = Some r' ∧ factor <= r <= r'.
Proof.
  intros Hf Hn Hd.
  destruct (fakeExponential_total denominator Hd factor numerator) as [r Hr]; [lia..|].
  destruct (fakeExponential_total denominator Hd factor numerator') as [r' Hr']; [lia..|].
  exists r, r'. split_and!; [done|done| |].
  - eapply (exp_loop_acc denominator Hd) in Hr; [|lia|nia|lia].
    rewrite Z.add_0_l, Z.div_mul in Hr by lia. done.
  - eapply (exp_loop_mono denominator Hd); [| | | |exact Hr|exact Hr']; nia.
Qed.

(** ** Blob gas: lemmas *)

(** What the order check gives the schedule of a fork that is set. *)
Definition blob_ready (time : option Z) (bc : option BlobConfig) : Prop :=
  is_Some time → ∃ b, bc = Some b ∧ 0 <= Max b ∧ 0 <= Target b ∧ UpdateFraction b ≠ 0.

Lemma check_blobs_ready l name time bc :
  Config.check_blobs l = None → (name, time, bc) ∈ l → blob_ready time bc.
Proof.
  induction l as [|[[nm t] b] l IH]; intros Hc Hin; [by apply elem_of_nil in Hin|]. cbn in Hc.
  apply elem_of_cons in Hin as [[= -> -> ->]|Hin].
  - intros Ht. destruct b as [b|].
    + unfold Config.validate in Hc. exists b. split; [done|]. destruct (Z.ltb_spec (Max b) 0); [done|].
      destruct (Z.ltb_spec (Target b) 0); [done|]. destruct (Z.eqb_spec (UpdateFraction b) 0); done.
    + unfold Config.is_set in Hc. by rewrite bool_decide_true in Hc.
  - destruct (match b with Some bc => _ | None => _ end); [done|]. destruct (_ && _); [done|]. auto.
Qed.

Lemma fork_order_blobs c :
  Config.CheckConfigForkOrder c = None →
  let s := default (MkBlobSchedule None None None None) (cc_BlobSchedule c) in
  blob_ready (CancunTime c) (bs_Cancun s) ∧ blob_ready (PragueTime c) (bs_Prague s) ∧
  blob_ready (OsakaTime c) (bs_Osaka s).
Proof.
  unfold Config.CheckConfigForkOrder. generalize (Config.check_forks None (Config.fork_list c)). intros [|]; [done|].
  intros H. split_and!; eapply check_blobs_ready; try exact H; rewrite !elem_of_cons; tauto.
Qed.

Lemma forked_set c num t time : Config.IsLondon c num && isTimestampForked t time = true → is_Some t.
Proof. intros [_ H]%andb_prop. destruct t; [by eexists|done]. Qed.

(** The fractions of a configuration are uint64. *)
Definition wf_fractions (c : ChainConfig) : Prop :=
  match cc_BlobSchedule c with
  | Some s => Forall (λ o : option BlobConfig, ∀ b, o = Some b → is_uint64 (UpdateFraction b)) [bs_Cancun s; bs_Prague s; bs_Osaka s]
  | None => True
  end.

Lemma CalcBlobFee_frac config header excess :
  Config.CheckConfigForkOrder config = None → wf_fractions config →
  Header.ExcessBlobGas header = Some excess →
  Config.LatestFork config (Header.Time header) ∈ [Config.Cancun; Config.Prague; Config.Osaka] →
  ∃ frac, 0 < frac ∧ ∀ h, Header.Time h = Header.Time header →
    CalcBlobFee config h = Header.ExcessBlobGas h ≫= λ x, fakeExponential minBlobGasPrice x frac.
Proof.
  intros Ho Hw He Hf. destruct (fork_order_blobs _ Ho) as (HC & HP & HO). clear Ho.
  unfold CalcBlobFee. rewrite !elem_of_cons, elem_of_nil in Hf.
  assert (Hgo : ∀ (t : option Z) (sel : BlobScheduleConfig → option BlobConfig),
    is_Some t → blob_ready t (sel (default (MkBlobSchedule None None None None) (cc_BlobSchedule config))) →
    sel (MkBlobSchedule None None None None) = None →
    (∀ s b, cc_BlobSchedule config = Some s → sel s = Some b → is_uint64 (UpdateFraction b)) →
    ∃ frac, 0 < frac ∧ (s ← cc_BlobSchedule config; bc ← sel s; Some (UpdateFraction bc)) = Some frac).
  { intros t sel Ht Hb Hn Hu. destruct (Hb Ht) as (b & Hsel & _ & _ & Hnz).
    destruct (cc_BlobSchedule config) as [s|]; [|by cbn in Hsel; congruence].
    exists (UpdateFraction b). cbn in *. rewrite Hsel. specialize (Hu s b eq_refl Hsel). split; [ulia|done]. }
  unfold wf_fractions in Hw. unfold Config.LatestFork in *.
  destruct (Config.IsOsaka _ _ _) eqn:EO; [|destruct (Config.IsPrague _ _ _) eqn:EP; [|destruct (Config.IsCancun _ _ _) eqn:EC]].
  - destruct (Hgo _ bs_Osaka (forked_set _ _ _ _ EO) HO eq_refl) as (f & ? & Hfr).
    { intros s b Hs Hb. rewrite Hs, !Forall_cons in Hw. destruct Hw as (? & ? & ? & _). auto. }
    exists f. split; [done|]. intros h ->. by rewrite EO, Hfr.
  - destruct (Hgo _ bs_Prague (forked_set _ _ _ _ EP) HP eq_refl) as (f & ? & Hfr).
    { intros s b Hs Hb. rewrite Hs, !Forall_cons in Hw. destruct Hw as (? & ? & ? & _). auto. }
    exists f. split; [done|]. intros h ->. by rewrite EO, EP, Hfr.
  - destruct (Hgo _ bs_Cancun (forked_set _ _ _ _ EC) HC eq_refl) as (f & ? & Hfr).
    { intros s b Hs Hb. rewrite Hs, !Forall_cons in Hw. destruct Hw as (? & ? & ? & _). auto. }
    exists f. split; [done|]. intros h ->. by rewrite EO, EP, EC, Hfr.
  - destruct (Config.IsShanghai _ _ _); destruct Hf as [?|[?|[?|[]]]]; done.
Qed.

(** A configuration whose fork order was checked prices every blob: for a
    header of Cancun or later with an excess the fee exists and is at least one
    wei, and a header of the same time with more excess pays no less. *)
Theorem CalcBlobFee_total config header header' excess excess' :
  Config.CheckConfigForkOrder config = None → wf_fractions config →
  Config.LatestFork config (Header.Time header) ∈ [Config.Cancun; Config.Prague; Config.Osaka] →
  Header.Time header' = Header.Time header → 0 <= excess <= excess' →
  Header.ExcessBlobGas header = Some excess → Header.ExcessBlobGas header' = Some excess' →
  ∃ fee fee', CalcBlobFee config header = Some fee ∧ CalcBlobFee config header' = Some fee' ∧ 1 <= fee <= fee'.
Proof.
  intros Ho Hw Hf Ht Hx He He'. destruct (CalcBlobFee_frac _ _ _ Ho Hw He Hf) as (frac & Hp & H).
  rewrite (H header eq_refl), (H header' Ht), He, He'. cbn [mbind option_bind].
  destruct (fakeExponential_total frac Hp minBlobGasPrice excess) as [r Hr]; [unfold minBlobGasPrice; lia|lia|].
  destruct (fakeExponential_total frac Hp minBlobGasPrice excess') as [r' Hr']; [unfold minBlobGasPrice; lia|lia|].
  exists r, r'. split_and!; [done|done| |].
  - apply (exp_loop_acc frac Hp) in Hr; [|unfold minBlobGasPrice; lia..].
    rewrite Z.add_0_l, Z.div_mul in Hr by lia. done.
  - eapply (exp_loop_mono frac Hp); [| | | |exact Hr|exact Hr']; unfold minBlobGasPrice; lia.
Qed.

(** A header after its parent carries blob gas iff both fields are there,
    the gas used is a whole number of blobs within the maximum, and the excess
    is the parent's excess and use less the target, at least zero (as long as
    the parent's sum is a uint64). *)
Theorem VerifyEIP4844Header_exact config parent header n pe pu :
  Header.Number header = Some (n + 1) → Header.Number parent = Some n → 0 <= n < 2 ^ 64 - 1 →
  Header.ExcessBlobGas parent = Some pe → Header.BlobGasUsed parent = Some pu → 0 <= pe → 0 <= pu → pe + pu < two64 →
  let target := wrap64 (wrap64 (targetBlobsPerBlock config (Header.Time header)) * BlobTxBlobGasPerBlob) in
  VerifyEIP4844Header config parent header = Some (Ok tt) ↔
  ∃ used, Header.BlobGasUsed header = Some used ∧ used <= MaxBlobGasPerBlock config (Header.Time header) ∧
    (BlobTxBlobGasPerBlob | used) ∧ Header.ExcessBlobGas header = Some (Z.max 0 (pe + pu - target)).
Proof.
  intros Hn Hp Hr Hpe Hpu ? ? Hs target. unfold VerifyEIP4844Header. rewrite Hn, Hp. cbn [mbind option_bind].
  assert (wrap64 (n + 1) =? wrap64 (wrap64 n + 1) = true) as ->
    by (rewrite (wrap64_id n) by ulia; apply Z.eqb_refl). cbn [negb].
  unfold CalcExcessBlobGas. rewrite Hpe, Hpu. cbn [mbind option_bind]. rewrite (wrap64_id (pe + pu)) by ulia. fold target.
  destruct (Header.ExcessBlobGas header) as [e|]; [|split; [done|by intros (? & _ & _ & _ & ?)]].
  destruct (Header.BlobGasUsed header) as [u|]; [|split; [done|by intros (? & ? & _)]].
  assert (Hm : (if pe + pu <? target then Some 0 else Some (pe + pu - target)) = Some (Z.max 0 (pe + pu - target)))
    by (split_ifs; f_equal; lia). rewrite Hm. cbn [mbind option_bind].
  rewrite Z.gtb_ltb. destruct (Z.ltb_spec (MaxBlobGasPerBlock config (Header.Time header)) u);
    [split; [done|intros (? & [= <-] & ? & _); lia]|].
  destruct (Z.eqb_spec (u mod BlobTxBlobGasPerBlob) 0) as [Hd|Hd]; cbn [negb].
  - apply Z.mod_divide in Hd; [|done].
    destruct (Z.eqb_spec e (Z.max 0 (pe + pu - target))) as [->|]; cbn [negb]; split; try done; [by exists u|].
    by intros (? & ? & _ & _ & [= ?]).
  - split; [done|]. intros (? & [= <-] & _ & Hdiv & _). by destruct Hd; apply Z.mod_divide.
Qed.

(** ** Applications at concrete inputs *)

Definition header_at (number gasLimit gasUsed time : Z) (baseFee used excess : option Z) : Header :=
  Header.MkHeader 1 2 3 4 5 6 [] (Some 0) (Some number) gasLimit gasUsed time [] 0 0 baseFee None used excess None None.

Lemma VerifyGaslimit_exact_witness :
  VerifyGaslimit 30000000 30029000 = Ok tt ↔
  MinGasLimit <= 30029000 ∧ Z.abs (30000000 - 30029000) < 30000000 / GasLimitBoundDivisor.
Proof. apply (VerifyGaslimit_exact 30000000 30029000); lia. Defined.

Lemma CalcBaseFee_bounds_witness :
  let p := header_at 20000000 30000000 30000000 0 (Some 1000) None None in
  ∃ f, CalcBaseFee Config.mainnet_like p = Some f ∧ 0 <= f ∧ (f > 1000 → f <= 1125).
Proof.
  intros p.
  destruct (CalcBaseFee_bounds Config.mainnet_like p 1000) as (f & Hf & ? & _ & H & _ & _);
    [reflexivity|reflexivity|lia|vm_compute; discriminate|split; vm_compute; discriminate|].
  exists f. split; [exact Hf|split; [done|]]. intros _. apply H. reflexivity.
Defined.

Lemma fakeExponential_spec_witness :
  ∃ r r', fakeExponential 1 2314058 3338477 = Some r ∧ fakeExponential 1 40000000 3338477 = Some r' ∧ 1 <= r <= r'.
Proof. apply (fakeExponential_spec 1 2314058 40000000 3338477); lia. Defined.

Lemma CalcBlobFee_total_witness :
  ∃ fee fee', CalcBlobFee Config.mainnet_like (header_at 20000000 0 0 1720000000 None None (Some 0)) = Some fee ∧
    CalcBlobFee Config.mainnet_like (header_at 20000000 0 0 1720000000 None None (Some 10000000)) = Some fee' ∧
    1 <= fee <= fee'.
Proof.
  apply (CalcBlobFee_total Config.mainnet_like _ _ 0 10000000);
    [vm_compute; reflexivity| |vm_compute; left|reflexivity|lia|reflexivity|reflexivity].
  cbn. rewrite !Forall_cons. split_and!; [|done..|by constructor]. intros ? [= <-]. cbn. ulia.
Defined.

Lemma VerifyEIP4844Header_exact_witness :
  let p := header_at 20000000 0 0 1720000000 None (Some 786432) (Some 131072) in
  let h := header_at 20000001 0 0 1720000012 None (Some 131072) (Some 524288) in
  VerifyEIP4844Header Config.mainnet_like p h = Some (Ok tt) ↔
  ∃ used, Header.BlobGasUsed h = Some used ∧ used <= MaxBlobGasPerBlock Config.mainnet_like 1720000012 ∧
    (BlobTxBlobGasPerBlob | used) ∧ Header.ExcessBlobGas h = Some (Z.max 0 (131072 + 786432 - 393216)).
Proof.
  intros p h.
  exact (VerifyEIP4844Header_exact Config.mainnet_like p h 20000000 131072 786432
    eq_refl eq_refl ltac:(lia) eq_refl eq_refl ltac:(lia) ltac:(lia) ltac:(reflexivity)).
Defined.

(** The blocks above are accepted, and their prices are those of the formula. *)
Example blob_fee_values :
  VerifyEIP4844Header Config.mainnet_like
    (header_at 20000000 0 0 1720000000 None (Some 786432) (Some 131072))
    (header_at 20000001 0 0 1720000012 None (Some 131072) (Some 524288)) = Some (Ok tt) ∧
  fakeExponential 1 10000000 3338477 = Some 19 ∧
  CalcBaseFee Config.mainnet_like (header_at 20000000 30000000 30000000 0 (Some 1000) None None) = Some 1125.
Proof. by vm_compute. Qed.
