(* ===== verification/TxTypes.v ===== *)
(** * Transactions

    core/types: the inner data of the five transaction types of the client
    (tx_legacy.go, tx_access_list.go, tx_dynamic_fee.go, tx_blob.go,
    tx_setcode.go) and of the parallel type that src/core/types/tx_parallel.go
    adds, and the accessors of [Transaction] (transaction.go) that the pools
    and the state transition use.

    A [*big.Int] (or [*uint256.Int]) field of a struct that has not gone
    through [copy] may be nil: each struct is a record over the type [B] of its
    integer fields, with [B := option Z] for a struct as a caller builds it and
    [B := Z] for the initialised struct that [copy] returns and [Transaction]
    holds. *)

From S2P Require Import Prelude.

(** ** Access lists and authorizations *)

Record AccessTuple : Type := MkAccessTuple {
  tuple_Address : Address;
  tuple_StorageKeys : list Hash
}.

Abbreviation AccessList := (list AccessTuple) (only parsing).

(** [AccessList.StorageKeys]: the total number of keys. *)
Definition StorageKeys (al : AccessList) : Z :=
  fold_left (λ sum tuple, sum + len (tuple_StorageKeys tuple)) al 0.

Record SetCodeAuthorization : Type := MkAuth {
  auth_ChainID : Z;
  auth_Address : Address;
  auth_Nonce : Z;
  auth_V : Z;
  auth_R : Z;
  auth_S : Z
}.

Record BlobTxSidecar : Type := MkSidecar {
  Blobs : list bytes;
  Commitments : list bytes;
  Proofs : list bytes
}.

Definition LegacyTxType : Z := 0.
Definition AccessListTxType : Z := 1.
Definition DynamicFeeTxType : Z := 2.
Definition BlobTxType : Z := 3.
Definition SetCodeTxType : Z := 4.
Definition ParallelTxType : Z := 5.

Definition ParallelTypeIndependent : Z := 0.
Definition ParallelTypeDependent : Z := 1.

Definition BlobTxBlobGasPerBlob : Z := 131072.

(** [new(big.Int)], then [Set] when the source is not nil. *)
Definition set_if_some (o : option Z) : Z :=
  match o with Some z => z | None => 0 end.

(** ** The inner data, one module per struct *)

Module LegacyTx.
Record t (B : Type) : Type := mk {
  Nonce : Z;
  GasPrice : B;
  Gas : Z;
  To : option Address;
  Value : B;
  Data : bytes;
  V : B;
  R : B;
  S : B
}.
Arguments mk {B}. Arguments Nonce {B}. Arguments GasPrice {B}. Arguments Gas {B}.
Arguments To {B}. Arguments Value {B}. Arguments Data {B}.
Arguments V {B}. Arguments R {B}. Arguments S {B}.

Definition copy (tx : t (option Z)) : t Z := {|
  Nonce := Nonce tx;
  To := To tx;
  Data := Data tx;
  Gas := Gas tx;
  Value := set_if_some (Value tx);
  GasPrice := set_if_some (GasPrice tx);
  V := set_if_some (V tx);
  R := set_if_some (R tx);
  S := set_if_some (S tx)
|}.

Definition effectiveGasPrice (tx : t Z) (baseFee : option Z) : Z := GasPrice tx.

Definition setSignatureValues (tx : t Z) (chainID v r s : Z) : t Z :=
  mk (Nonce tx) (GasPrice tx) (Gas tx) (To tx) (Value tx) (Data tx) v r s.
End LegacyTx.

Module AccessListTx.
Record t (B : Type) : Type := mk {
  ChainID : B;
  Nonce : Z;
  GasPrice : B;
  Gas : Z;
  To : option Address;
  Value : B;
  Data : bytes;
  AccessList_ : AccessList;
  V : B;
  R : B;
  S : B
}.
Arguments mk {B}. Arguments ChainID {B}. Arguments Nonce {B}. Arguments GasPrice {B}.
Arguments Gas {B}. Arguments To {B}. Arguments Value {B}. Arguments Data {B}.
Arguments AccessList_ {B}. Arguments V {B}. Arguments R {B}. Arguments S {B}.

Definition copy (tx : t (option Z)) : t Z := {|
  Nonce := Nonce tx;
  To := To tx;
  Data := Data tx;
  Gas := Gas tx;
  AccessList_ := AccessList_ tx;
  Value := set_if_some (Value tx);
  ChainID := set_if_some (ChainID tx);
  GasPrice := set_if_some (GasPrice tx);
  V := set_if_some (V tx);
  R := set_if_some (R tx);
  S := set_if_some (S tx)
|}.

Definition effectiveGasPrice (tx : t Z) (baseFee : option Z) : Z := GasPrice tx.

Definition setSignatureValues (tx : t Z) (chainID v r s : Z) : t Z :=
  mk chainID (Nonce tx) (GasPrice tx) (Gas tx) (To tx) (Value tx) (Data tx)
     (AccessList_ tx) v r s.
End AccessListTx.

(** The price paid by a transaction with a tip and a fee cap; [dst] is the
    [big.Int] the code reuses for the result. *)
Definition tipped_gas_price (feeCap tipCap : Z) (baseFee : option Z) : Z :=
  match baseFee with
  | None => feeCap
  | Some baseFee =>
      let tip := feeCap - baseFee in
      let tip := if Cmp tip tipCap >? 0 then tipCap else tip in
      tip + baseFee
  end.

Module DynamicFeeTx.
Record t (B : Type) : Type := mk {
  ChainID : B;
  Nonce : Z;
  GasTipCap : B;
  GasFeeCap : B;
  Gas : Z;
  To : option Address;
  Value : B;
  Data : bytes;
  AccessList_ : AccessList;
  V : B;
  R : B;
  S : B
}.
Arguments mk {B}. Arguments ChainID {B}. Arguments Nonce {B}. Arguments GasTipCap {B}.
Arguments GasFeeCap {B}. Arguments Gas {B}. Arguments To {B}. Arguments Value {B}.
Arguments Data {B}. Arguments AccessList_ {B}. Arguments V {B}. Arguments R {B}.
Arguments S {B}.

Definition copy (tx : t (option Z)) : t Z := {|
  Nonce := Nonce tx;
  To := To tx;
  Data := Data tx;
  Gas := Gas tx;
  AccessList_ := AccessList_ tx;
  Value := set_if_some (Value tx);
  ChainID := set_if_some (ChainID tx);
  GasTipCap := set_if_some (GasTipCap tx);
  GasFeeCap := set_if_some (GasFeeCap tx);
  V := set_if_some (V tx);
  R := set_if_some (R tx);
  S := set_if_some (S tx)
|}.

Definition effectiveGasPrice (tx : t Z) (baseFee : option Z) : Z :=
  tipped_gas_price (GasFeeCap tx) (GasTipCap tx) baseFee.

Definition setSignatureValues (tx : t Z) (chainID v r s : Z) : t Z :=
  mk chainID (Nonce tx) (GasTipCap tx) (GasFeeCap tx) (Gas tx) (To tx) (Value tx)
     (Data tx) (AccessList_ tx) v r s.
End DynamicFeeTx.

Module BlobTx.
Record t (B : Type) : Type := mk {
  ChainID : B;
  Nonce : Z;
  GasTipCap : B;
  GasFeeCap : B;
  Gas : Z;
  To : Address;
  Value : B;
  Data : bytes;
  AccessList_ : AccessList;
  BlobFeeCap : B;
  BlobHashes : list Hash;
  Sidecar : option BlobTxSidecar;
  V : B;
  R : B;
  S : B
}.
Arguments mk {B}. Arguments ChainID {B}. Arguments Nonce {B}. Arguments GasTipCap {B}.
Arguments GasFeeCap {B}. Arguments Gas {B}. Arguments To {B}. Arguments Value {B}.
Arguments Data {B}. Arguments AccessList_ {B}. Arguments BlobFeeCap {B}.
Arguments BlobHashes {B}. Arguments Sidecar {B}. Arguments V {B}. Arguments R {B}.
Arguments S {B}.

Definition copy (tx : t (option Z)) : t Z := {|
  Nonce := Nonce tx;
  To := To tx;
  Data := Data tx;
  Gas := Gas tx;
  AccessList_ := AccessList_ tx;
  BlobHashes := BlobHashes tx;
  Value := set_if_some (Value tx);
  ChainID := set_if_some (ChainID tx);
  GasTipCap := set_if_some (GasTipCap tx);
  GasFeeCap := set_if_some (GasFeeCap tx);
  BlobFeeCap := set_if_some (BlobFeeCap tx);
  V := set_if_some (V tx);
  R := set_if_some (R tx);
  S := set_if_some (S tx);
  Sidecar := match Sidecar tx with
             | Some sc => Some (MkSidecar (Blobs sc) (Commitments sc) (Proofs sc))
             | None => None
             end
|}.

Definition effectiveGasPrice (tx : t Z) (baseFee : option Z) : Z :=
  tipped_gas_price (GasFeeCap tx) (GasTipCap tx) baseFee.

Definition blobGas (tx : t Z) : Z :=
  wrap64 (BlobTxBlobGasPerBlob * len (BlobHashes tx)).

(** [SetFromBig] keeps the low 256 bits. *)
Definition setSignatureValues (tx : t Z) (chainID v r s : Z) : t Z :=
  mk (wrap256 chainID) (Nonce tx) (GasTipCap tx) (GasFeeCap tx) (Gas tx) (To tx)
     (Value tx) (Data tx) (AccessList_ tx) (BlobFeeCap tx) (BlobHashes tx)
     (Sidecar tx) (wrap256 v) (wrap256 r) (wrap256 s).

Definition withSidecar (tx : t Z) (sideCar : option BlobTxSidecar) : t Z :=
  mk (ChainID tx) (Nonce tx) (GasTipCap tx) (GasFeeCap tx) (Gas tx) (To tx)
     (Value tx) (Data tx) (AccessList_ tx) (BlobFeeCap tx) (BlobHashes tx)
     sideCar (V tx) (R tx) (S tx).

Definition withoutSidecar (tx : t Z) : t Z := withSidecar tx None.
End BlobTx.

Module SetCodeTx.
Record t (B : Type) : Type := mk {
  ChainID : B;
  Nonce : Z;
  GasTipCap : B;
  GasFeeCap : B;
  Gas : Z;
  To : Address;
  Value : B;
  Data : bytes;
  AccessList_ : AccessList;
  AuthList : list SetCodeAuthorization;
  V : B;
  R : B;
  S : B
}.
Arguments mk {B}. Arguments ChainID {B}. Arguments Nonce {B}. Arguments GasTipCap {B}.
Arguments GasFeeCap {B}. Arguments Gas {B}. Arguments To {B}. Arguments Value {B}.
Arguments Data {B}. Arguments AccessList_ {B}. Arguments AuthList {B}.
Arguments V {B}. Arguments R {B}. Arguments S {B}.

Definition copy (tx : t (option Z)) : t Z := {|
  Nonce := Nonce tx;
  To := To tx;
  Data := Data tx;
  Gas := Gas tx;
  AccessList_ := AccessList_ tx;
  AuthList := AuthList tx;
  Value := set_if_some (Value tx);
  ChainID := set_if_some (ChainID tx);
  GasTipCap := set_if_some (GasTipCap tx);
  GasFeeCap := set_if_some (GasFeeCap tx);
  V := set_if_some (V tx);
  R := set_if_some (R tx);
  S := set_if_some (S tx)
|}.

Definition effectiveGasPrice (tx : t Z) (baseFee : option Z) : Z :=
  tipped_gas_price (GasFeeCap tx) (GasTipCap tx) baseFee.

(** [MustFromBig] panics ([None]) on a chain id that does not fit 256 bits. *)
Definition setSignatureValues (tx : t Z) (chainID v r s : Z) : option (t Z) :=
  if (0 <=? chainID) && (chainID <? two256) then
    Some (mk chainID (Nonce tx) (GasTipCap tx) (GasFeeCap tx) (Gas tx) (To tx)
             (Value tx) (Data tx) (AccessList_ tx) (AuthList tx)
             (wrap256 v) (wrap256 r) (wrap256 s))
  else None.
End SetCodeTx.

(** The parallel transaction type of src/core/types/tx_parallel.go. *)
Module ParallelTx.
Record t (B : Type) : Type := mk {
  ChainID : B;
  Nonce : Z;
  GasTipCap : B;
  GasFeeCap : B;
  Gas : Z;
  To : option Address;
  Value : B;
  Data : bytes;
  AccessList_ : AccessList;
  ParallelType : Z;
  Dependencies : list Hash;
  BatchID : Z;
  V : B;
  R : B;
  S : B
}.
Arguments mk {B}. Arguments ChainID {B}. Arguments Nonce {B}. Arguments GasTipCap {B}.
Arguments GasFeeCap {B}. Arguments Gas {B}. Arguments To {B}. Arguments Value {B}.
Arguments Data {B}. Arguments AccessList_ {B}. Arguments ParallelType {B}.
Arguments Dependencies {B}. Arguments BatchID {B}. Arguments V {B}. Arguments R {B}.
Arguments S {B}.

Definition copy (tx : t (option Z)) : t Z := {|
  ChainID := set_if_some (ChainID tx);
  Nonce := Nonce tx;
  GasTipCap := set_if_some (GasTipCap tx);
  GasFeeCap := set_if_some (GasFeeCap tx);
  Gas := Gas tx;
  To := To tx;
  Value := set_if_some (Value tx);
  Data := Data tx;
  AccessList_ := AccessList_ tx;
  ParallelType := ParallelType tx;
  Dependencies := Dependencies tx;
  BatchID := BatchID tx;
  V := set_if_some (V tx);
  R := set_if_some (R tx);
  S := set_if_some (S tx)
|}.

Definition setSignatureValues (tx : t Z) (chainID v r s : Z) : t Z :=
  mk chainID (Nonce tx) (GasTipCap tx) (GasFeeCap tx) (Gas tx) (To tx) (Value tx)
     (Data tx) (AccessList_ tx) (ParallelType tx) (Dependencies tx) (BatchID tx)
     v r s.

Definition IsParallelizable (tx : t Z) : bool :=
  (ParallelType tx =? ParallelTypeIndependent) || (len (Dependencies tx) =? 0).

Definition GetDependencies (tx : t Z) : list Hash := Dependencies tx.
Definition GetBatchID (tx : t Z) : Z := BatchID tx.
Definition GetParallelType (tx : t Z) : Z := ParallelType tx.

Definition effectiveGasPrice (tx : t Z) (baseFee : option Z) : Z :=
  match baseFee with
  | None => GasFeeCap tx
  | Some baseFee =>
      let tip := GasFeeCap tx - baseFee in
      let tip := if Cmp tip (GasTipCap tx) >? 0 then GasTipCap tx else tip in
      tip + baseFee
  end.
End ParallelTx.

(** ** The interface [TxData] and the struct [Transaction] *)

(** The structs that implement the interface, initialised. *)
Inductive TxData : Type :=
  | TLegacy (tx : LegacyTx.t Z)
  | TAccessList (tx : AccessListTx.t Z)
  | TDynamicFee (tx : DynamicFeeTx.t Z)
  | TBlob (tx : BlobTx.t Z)
  | TSetCode (tx : SetCodeTx.t Z)
  | TParallel (tx : ParallelTx.t Z).

(** The same structs as a caller of [NewTx] builds them. *)
Inductive RawTxData : Type :=
  | RLegacy (tx : LegacyTx.t (option Z))
  | RAccessList (tx : AccessListTx.t (option Z))
  | RDynamicFee (tx : DynamicFeeTx.t (option Z))
  | RBlob (tx : BlobTx.t (option Z))
  | RSetCode (tx : SetCodeTx.t (option Z))
  | RParallel (tx : ParallelTx.t (option Z)).

Module TxData.
Definition copy (inner : RawTxData) : TxData :=
  match inner with
  | RLegacy tx => TLegacy (LegacyTx.copy tx)
  | RAccessList tx => TAccessList (AccessListTx.copy tx)
  | RDynamicFee tx => TDynamicFee (DynamicFeeTx.copy tx)
  | RBlob tx => TBlob (BlobTx.copy tx)
  | RSetCode tx => TSetCode (SetCodeTx.copy tx)
  | RParallel tx => TParallel (ParallelTx.copy tx)
  end.

Definition txType (inner : TxData) : Z :=
  match inner with
  | TLegacy _ => LegacyTxType
  | TAccessList _ => AccessListTxType
  | TDynamicFee _ => DynamicFeeTxType
  | TBlob _ => BlobTxType
  | TSetCode _ => SetCodeTxType
  | TParallel _ => ParallelTxType
  end.

Definition accessList (inner : TxData) : AccessList :=
  match inner with
  | TLegacy _ => []
  | TAccessList tx => AccessListTx.AccessList_ tx
  | TDynamicFee tx => DynamicFeeTx.AccessList_ tx
  | TBlob tx => BlobTx.AccessList_ tx
  | TSetCode tx => SetCodeTx.AccessList_ tx
  | TParallel tx => ParallelTx.AccessList_ tx
  end.

Definition data (inner : TxData) : bytes :=
  match inner with
  | TLegacy tx => LegacyTx.Data tx
  | TAccessList tx => AccessListTx.Data tx
  | TDynamicFee tx => DynamicFeeTx.Data tx
  | TBlob tx => BlobTx.Data tx
  | TSetCode tx => SetCodeTx.Data tx
  | TParallel tx => ParallelTx.Data tx
  end.

Definition gas (inner : TxData) : Z :=
  match inner with
  | TLegacy tx => LegacyTx.Gas tx
  | TAccessList tx => AccessListTx.Gas tx
  | TDynamicFee tx => DynamicFeeTx.Gas tx
  | TBlob tx => BlobTx.Gas tx
  | TSetCode tx => SetCodeTx.Gas tx
  | TParallel tx => ParallelTx.Gas tx
  end.

Definition gasFeeCap (inner : TxData) : Z :=
  match inner with
  | TLegacy tx => LegacyTx.GasPrice tx
  | TAccessList tx => AccessListTx.GasPrice tx
  | TDynamicFee tx => DynamicFeeTx.GasFeeCap tx
  | TBlob tx => BlobTx.GasFeeCap tx
  | TSetCode tx => SetCodeTx.GasFeeCap tx
  | TParallel tx => ParallelTx.GasFeeCap tx
  end.

Definition gasTipCap (inner : TxData) : Z :=
  match inner with
  | TLegacy tx => LegacyTx.GasPrice tx
  | TAccessList tx => AccessListTx.GasPrice tx
  | TDynamicFee tx => DynamicFeeTx.GasTipCap tx
  | TBlob tx => BlobTx.GasTipCap tx
  | TSetCode tx => SetCodeTx.GasTipCap tx
  | TParallel tx => ParallelTx.GasTipCap tx
  end.

Definition gasPrice (inner : TxData) : Z :=
  match inner with
  | TLegacy tx => LegacyTx.GasPrice tx
  | TAccessList tx => AccessListTx.GasPrice tx
  | TDynamicFee tx => DynamicFeeTx.GasFeeCap tx
  | TBlob tx => BlobTx.GasFeeCap tx
  | TSetCode tx => SetCodeTx.GasFeeCap tx
  | TParallel tx => ParallelTx.GasFeeCap tx
  end.

Definition value (inner : TxData) : Z :=
  match inner with
  | TLegacy tx => LegacyTx.Value tx
  | TAccessList tx => AccessListTx.Value tx
  | TDynamicFee tx => DynamicFeeTx.Value tx
  | TBlob tx => BlobTx.Value tx
  | TSetCode tx => SetCodeTx.Value tx
  | TParallel tx => ParallelTx.Value tx
  end.

Definition nonce (inner : TxData) : Z :=
  match inner with
  | TLegacy tx => LegacyTx.Nonce tx
  | TAccessList tx => AccessListTx.Nonce tx
  | TDynamicFee tx => DynamicFeeTx.Nonce tx
  | TBlob tx => BlobTx.Nonce tx
  | TSetCode tx => SetCodeTx.Nonce tx
  | TParallel tx => ParallelTx.Nonce tx
  end.

Definition to (inner : TxData) : option Address :=
  match inner with
  | TLegacy tx => LegacyTx.To tx
  | TAccessList tx => AccessListTx.To tx
  | TDynamicFee tx => DynamicFeeTx.To tx
  | TBlob tx => Some (BlobTx.To tx)
  | TSetCode tx => Some (SetCodeTx.To tx)
  | TParallel tx => ParallelTx.To tx
  end.

(** [(v, r, s)] *)
Definition rawSignatureValues (inner : TxData) : Z * Z * Z :=
  match inner with
  | TLegacy tx => (LegacyTx.V tx, LegacyTx.R tx, LegacyTx.S tx)
  | TAccessList tx => (AccessListTx.V tx, AccessListTx.R tx, AccessListTx.S tx)
  | TDynamicFee tx => (DynamicFeeTx.V tx, DynamicFeeTx.R tx, DynamicFeeTx.S tx)
  | TBlob tx => (BlobTx.V tx, BlobTx.R tx, BlobTx.S tx)
  | TSetCode tx => (SetCodeTx.V tx, SetCodeTx.R tx, SetCodeTx.S tx)
  | TParallel tx => (ParallelTx.V tx, ParallelTx.R tx, ParallelTx.S tx)
  end.

Definition setSignatureValues (inner : TxData) (chainID v r s : Z) : option TxData :=
  match inner with
  | TLegacy tx => Some (TLegacy (LegacyTx.setSignatureValues tx chainID v r s))
  | TAccessList tx => Some (TAccessList (AccessListTx.setSignatureValues tx chainID v r s))
  | TDynamicFee tx => Some (TDynamicFee (DynamicFeeTx.setSignatureValues tx chainID v r s))
  | TBlob tx => Some (TBlob (BlobTx.setSignatureValues tx chainID v r s))
  | TSetCode tx => TSetCode <$> SetCodeTx.setSignatureValues tx chainID v r s
  | TParallel tx => Some (TParallel (ParallelTx.setSignatureValues tx chainID v r s))
  end.

Definition effectiveGasPrice (inner : TxData) (baseFee : option Z) : Z :=
  match inner with
  | TLegacy tx => LegacyTx.effectiveGasPrice tx baseFee
  | TAccessList tx => AccessListTx.effectiveGasPrice tx baseFee
  | TDynamicFee tx => DynamicFeeTx.effectiveGasPrice tx baseFee
  | TBlob tx => BlobTx.effectiveGasPrice tx baseFee
  | TSetCode tx => SetCodeTx.effectiveGasPrice tx baseFee
  | TParallel tx => ParallelTx.effectiveGasPrice tx baseFee
  end.
End TxData.

(** A transaction: its inner data and what [Transaction] caches of it.  The
    hash and the encoded size are computed by the code with Keccak and RLP;
    here they are fields, so that nothing is assumed of those functions.  Where
    a theorem needs that two transactions with one hash are the same, it says
    so. *)
Record Transaction : Type := MkTx {
  inner : TxData;
  tx_hash : Hash;
  tx_size : Z;
  tx_time : Z
}.

Module Tx.
Definition Type_ (tx : Transaction) : Z := TxData.txType (inner tx).
Definition Data (tx : Transaction) : bytes := TxData.data (inner tx).
Definition AccessList_ (tx : Transaction) : AccessList := TxData.accessList (inner tx).
Definition Gas (tx : Transaction) : Z := TxData.gas (inner tx).
Definition GasPrice (tx : Transaction) : Z := TxData.gasPrice (inner tx).
Definition GasTipCap (tx : Transaction) : Z := TxData.gasTipCap (inner tx).
Definition GasFeeCap (tx : Transaction) : Z := TxData.gasFeeCap (inner tx).
Definition Value (tx : Transaction) : Z := TxData.value (inner tx).
Definition Nonce (tx : Transaction) : Z := TxData.nonce (inner tx).
Definition To (tx : Transaction) : option Address := TxData.to (inner tx).
Definition Hash_ (tx : Transaction) : Hash := tx_hash tx.
Definition Size (tx : Transaction) : Z := tx_size tx.
Definition Time (tx : Transaction) : Z := tx_time tx.

Definition BlobGas (tx : Transaction) : Z :=
  match inner tx with
  | TBlob blobtx => BlobTx.blobGas blobtx
  | _ => 0
  end.

Definition BlobGasFeeCap (tx : Transaction) : option Z :=
  match inner tx with
  | TBlob blobtx => Some (BlobTx.BlobFeeCap blobtx)
  | _ => None
  end.

Definition BlobHashes (tx : Transaction) : option (list Hash) :=
  match inner tx with
  | TBlob blobtx => Some (BlobTx.BlobHashes blobtx)
  | _ => None
  end.

Definition SetCodeAuthorizations (tx : Transaction) : option (list SetCodeAuthorization) :=
  match inner tx with
  | TSetCode setcodetx => Some (SetCodeTx.AuthList setcodetx)
  | _ => None
  end.

Definition WithoutBlobTxSidecar (tx : Transaction) : Transaction :=
  match inner tx with
  | TBlob blobtx => MkTx (TBlob (BlobTx.withoutSidecar blobtx)) (tx_hash tx) (tx_size tx) (tx_time tx)
  | _ => tx
  end.

(** [(gas * gasPrice) + (blobGas * blobGasPrice) + value] *)
Definition Cost (tx : Transaction) : Z :=
  let total := GasPrice tx * Gas tx in
  let total :=
    if Type_ tx =? BlobTxType then
      total + match BlobGasFeeCap tx with Some cap => cap | None => 0 end * BlobGas tx
    else total in
  total + Value tx.

Definition GasFeeCapCmp (tx other : Transaction) : Z :=
  Cmp (TxData.gasFeeCap (inner tx)) (TxData.gasFeeCap (inner other)).

Definition GasFeeCapIntCmp (tx : Transaction) (other : Z) : Z :=
  Cmp (TxData.gasFeeCap (inner tx)) other.

Definition GasTipCapCmp (tx other : Transaction) : Z :=
  Cmp (TxData.gasTipCap (inner tx)) (TxData.gasTipCap (inner other)).

Definition GasTipCapIntCmp (tx : Transaction) (other : Z) : Z :=
  Cmp (TxData.gasTipCap (inner tx)) other.

(** The effective tip, and whether [ErrGasFeeCapTooLow] comes with it. *)
Definition EffectiveGasTip (tx : Transaction) (baseFee : option Z) : Z * bool :=
  match baseFee with
  | None => (GasTipCap tx, false)
  | Some baseFee =>
      let gasFeeCap := GasFeeCap tx in
      let err := Cmp gasFeeCap baseFee <? 0 in
      let gasFeeCap := gasFeeCap - baseFee in
      let gasTipCap := GasTipCap tx in
      if Cmp gasTipCap gasFeeCap <? 0 then (gasTipCap, err) else (gasFeeCap, err)
  end.

Definition EffectiveGasTipValue (tx : Transaction) (baseFee : option Z) : Z :=
  (EffectiveGasTip tx baseFee).1.

Definition EffectiveGasTipCmp (tx other : Transaction) (baseFee : option Z) : Z :=
  match baseFee with
  | None => GasTipCapCmp tx other
  | Some _ => Cmp (EffectiveGasTipValue tx baseFee) (EffectiveGasTipValue other baseFee)
  end.

Definition EffectiveGasTipIntCmp (tx : Transaction) (other : Z) (baseFee : option Z) : Z :=
  match baseFee with
  | None => GasTipCapIntCmp tx other
  | Some _ => Cmp (EffectiveGasTipValue tx baseFee) other
  end.
End Tx.

(** [decodeTyped] dispatches on the type byte before it decodes the rest. *)
Inductive decode_target : Type :=
  | DecodeAccessList | DecodeDynamicFee | DecodeBlob | DecodeSetCode.

Inductive decode_error : Type := errShortTypedTx | ErrTxTypeNotSupported_decode.

Definition decodeTyped (b : bytes) : result decode_error (decode_target * bytes) :=
  if len b <=? 1 then Err errShortTypedTx
  else match b with
  | [] => Err errShortTypedTx
  | b0 :: rest =>
      if b0 =? AccessListTxType then Ok (DecodeAccessList, rest)
      else if b0 =? DynamicFeeTxType then Ok (DecodeDynamicFee, rest)
      else if b0 =? BlobTxType then Ok (DecodeBlob, rest)
      else if b0 =? SetCodeTxType then Ok (DecodeSetCode, rest)
      else Err ErrTxTypeNotSupported_decode
  end.

(** ** Properties *)

(** [copy] initialises the nil integers and keeps everything else: a struct
    built from an initialised one is copied to itself. *)
Definition raw_of (tx : TxData) : RawTxData :=
  match tx with
  | TLegacy tx => RLegacy (LegacyTx.mk (LegacyTx.Nonce tx) (Some (LegacyTx.GasPrice tx))
      (LegacyTx.Gas tx) (LegacyTx.To tx) (Some (LegacyTx.Value tx)) (LegacyTx.Data tx)
      (Some (LegacyTx.V tx)) (Some (LegacyTx.R tx)) (Some (LegacyTx.S tx)))
  | TAccessList tx => RAccessList (AccessListTx.mk (Some (AccessListTx.ChainID tx))
      (AccessListTx.Nonce tx) (Some (AccessListTx.GasPrice tx)) (AccessListTx.Gas tx)
      (AccessListTx.To tx) (Some (AccessListTx.Value tx)) (AccessListTx.Data tx)
      (AccessListTx.AccessList_ tx) (Some (AccessListTx.V tx)) (Some (AccessListTx.R tx))
      (Some (AccessListTx.S tx)))
  | TDynamicFee tx => RDynamicFee (DynamicFeeTx.mk (Some (DynamicFeeTx.ChainID tx))
      (DynamicFeeTx.Nonce tx) (Some (DynamicFeeTx.GasTipCap tx))
      (Some (DynamicFeeTx.GasFeeCap tx)) (DynamicFeeTx.Gas tx) (DynamicFeeTx.To tx)
      (Some (DynamicFeeTx.Value tx)) (DynamicFeeTx.Data tx) (DynamicFeeTx.AccessList_ tx)
      (Some (DynamicFeeTx.V tx)) (Some (DynamicFeeTx.R tx)) (Some (DynamicFeeTx.S tx)))
  | TBlob tx => RBlob (BlobTx.mk (Some (BlobTx.ChainID tx)) (BlobTx.Nonce tx)
      (Some (BlobTx.GasTipCap tx)) (Some (BlobTx.GasFeeCap tx)) (BlobTx.Gas tx)
      (BlobTx.To tx) (Some (BlobTx.Value tx)) (BlobTx.Data tx) (BlobTx.AccessList_ tx)
      (Some (BlobTx.BlobFeeCap tx)) (BlobTx.BlobHashes tx) (BlobTx.Sidecar tx)
      (Some (BlobTx.V tx)) (Some (BlobTx.R tx)) (Some (BlobTx.S tx)))
  | TSetCode tx => RSetCode (SetCodeTx.mk (Some (SetCodeTx.ChainID tx))
      (SetCodeTx.Nonce tx) (Some (SetCodeTx.GasTipCap tx)) (Some (SetCodeTx.GasFeeCap tx))
      (SetCodeTx.Gas tx) (SetCodeTx.To tx) (Some (SetCodeTx.Value tx)) (SetCodeTx.Data tx)
      (SetCodeTx.AccessList_ tx) (SetCodeTx.AuthList tx) (Some (SetCodeTx.V tx))
      (Some (SetCodeTx.R tx)) (Some (SetCodeTx.S tx)))
  | TParallel tx => RParallel (ParallelTx.mk (Some (ParallelTx.ChainID tx))
      (ParallelTx.Nonce tx) (Some (ParallelTx.GasTipCap tx))
      (Some (ParallelTx.GasFeeCap tx)) (ParallelTx.Gas tx) (ParallelTx.To tx)
      (Some (ParallelTx.Value tx)) (ParallelTx.Data tx) (ParallelTx.AccessList_ tx)
      (ParallelTx.ParallelType tx) (ParallelTx.Dependencies tx) (ParallelTx.BatchID tx)
      (Some (ParallelTx.V tx)) (Some (ParallelTx.R tx)) (Some (ParallelTx.S tx)))
  end.

Lemma copy_raw_of tx : TxData.copy (raw_of tx) = tx.
Proof.
  destruct tx as [[]|[]|[]|[]|[]|[]]; simpl; try done.
  unfold BlobTx.copy. simpl. by destruct Sidecar as [[]|].
Qed.

Lemma tipped_gas_price_min feeCap tipCap baseFee :
  tipped_gas_price feeCap tipCap (Some baseFee) = Z.min feeCap (tipCap + baseFee).
Proof.
  unfold tipped_gas_price. rewrite Z.gtb_ltb, Cmp_gtb.
  destruct (Z.ltb_spec tipCap (feeCap - baseFee)); lia.
Qed.

Lemma ParallelTx_effectiveGasPrice_tipped tx baseFee :
  ParallelTx.effectiveGasPrice tx baseFee
  = tipped_gas_price (ParallelTx.GasFeeCap tx) (ParallelTx.GasTipCap tx) baseFee.
Proof. done. Qed.

Lemma EffectiveGasTip_min tx baseFee :
  (Tx.EffectiveGasTip tx (Some baseFee)).1
  = Z.min (Tx.GasTipCap tx) (Tx.GasFeeCap tx - baseFee).
Proof.
  unfold Tx.EffectiveGasTip. rewrite !Cmp_ltb.
  destruct (Z.ltb_spec (Tx.GasTipCap tx) (Tx.GasFeeCap tx - baseFee)); simpl; lia.
Qed.

Lemma EffectiveGasTip_err tx baseFee :
  (Tx.EffectiveGasTip tx (Some baseFee)).2 = true ↔ Tx.GasFeeCap tx < baseFee.
Proof.
  unfold Tx.EffectiveGasTip. rewrite !Cmp_ltb.
  destruct (Z.ltb_spec (Tx.GasTipCap tx) (Tx.GasFeeCap tx - baseFee)); simpl;
    by rewrite Z.ltb_lt.
Qed.

(** For the types with a single gas price the two caps coincide, and the price
    paid is that price: not [min] with [tip + baseFee] but the cap itself. *)
Definition single_price (tx : TxData) : bool :=
  match tx with TLegacy _ | TAccessList _ => true | _ => false end.

(** For every transaction type, what the sender pays per unit of gas under
    EIP-1559 ([effectiveGasPrice]) is the base fee plus the tip by which the
    pools order transactions ([EffectiveGasTip]), also when the fee cap is under
    the base fee. *)
Theorem effectiveGasPrice_tip tx baseFee :
  0 <= baseFee →
  TxData.effectiveGasPrice (inner tx) (Some baseFee)
  = baseFee + Tx.EffectiveGasTipValue tx (Some baseFee).
Proof.
  intros Hb. unfold Tx.EffectiveGasTipValue. rewrite EffectiveGasTip_min.
  unfold Tx.GasTipCap, Tx.GasFeeCap.
  destruct (inner tx); cbn [TxData.effectiveGasPrice TxData.gasTipCap TxData.gasFeeCap];
    unfold LegacyTx.effectiveGasPrice, AccessListTx.effectiveGasPrice,
      DynamicFeeTx.effectiveGasPrice, BlobTx.effectiveGasPrice, SetCodeTx.effectiveGasPrice;
    rewrite ?ParallelTx_effectiveGasPrice_tipped, ?tipped_gas_price_min; lia.
Qed.

Lemma effectiveGasPrice_tip_witness :
  let tx := MkTx (TDynamicFee (DynamicFeeTx.mk 1 0 3 20 21000 None 0 [] [] 0 0 0)) 0 0 0 in
  TxData.effectiveGasPrice (inner tx) (Some 10) = 10 + Tx.EffectiveGasTipValue tx (Some 10).
Proof. intros tx. apply effectiveGasPrice_tip. lia. Defined.

(** The binary decoder of typed transactions knows the types 1 to 4 and no
    other: an envelope of type 5, that of the parallel transactions, is rejected
    as unsupported, so none can arrive over the network or the RPC. *)
Theorem decodeTyped_accepts b0 rest :
  is_ok (decodeTyped (b0 :: rest)) = true ↔ rest ≠ [] ∧ 1 <= b0 <= 4.
Proof.
  unfold decodeTyped. destruct rest as [|x rest].
  { simpl. split; [done|]. intros [? _]; done. }
  assert ((len (b0 :: x :: rest) <=? 1) = false) as ->
    by (apply Z.leb_gt; rewrite !len_cons; pose proof (len_nonneg rest); lia).
  unfold AccessListTxType, DynamicFeeTxType, BlobTxType, SetCodeTxType.
  split_ifs; subst; simpl; (split; [intros H|intros [_ H]]); first [done|lia|idtac].
  all: split; [done|lia].
Qed.
