(* ===== verification/Signers.v ===== *)
(** * Signers

    core/types/transaction_signing.go: the chain of signers, from Frontier to
    Prague, the sender recovery they do and the signature values they produce.

    Hashing and curve arithmetic are parameters of the section: [rlpHash] and
    [prefixedRlpHash] (Keccak of the RLP of a list of fields), [Keccak256] and
    [Ecrecover].  No theorem assumes anything of them. *)

From S2P Require Import Prelude TxTypes.

(** ** Data *)

(** The dynamic types behind the [Signer] interface; [chainIdMul] is twice the
    chain id. *)
Inductive Signer : Type :=
  | FrontierSigner
  | HomesteadSigner
  | EIP155Signer (chainId : Z)
  | eip2930Signer (chainId : Z)
  | londonSigner (chainId : Z)
  | cancunSigner (chainId : Z)
  | pragueSigner (chainId : Z).

#[export] Instance Signer_eq_dec : EqDecision Signer.
Proof. solve_decision. Defined.

Inductive signer_error : Type :=
  | ErrInvalidChainId
  | ErrTxTypeNotSupported
  | ErrInvalidSig
  | ErrRecovery
  | ErrInvalidPublicKey.

(** What a signature hash is taken of: the elements of the RLP list. *)
Inductive hash_item : Type :=
  | HInt (z : Z)
  | HAddr (a : option Address)
  | HBytes (b : bytes)
  | HAccessList (al : AccessList)
  | HHashes (hs : list Hash)
  | HAuths (auths : list SetCodeAuthorization).

Definition SignatureLength : Z := 65.

Definition secp256k1N : Z :=
  0xfffffffffffffffffffffffffffffffebaaedce6af48a03bbfd25e8cd0364141.
Definition secp256k1halfN : Z := secp256k1N / 2.

(** ** Signature values *)

(** crypto/crypto.go *)
Definition ValidateSignatureValues (v r s : Z) (homestead : bool) : bool :=
  if (Cmp r 1 <? 0) || (Cmp s 1 <? 0) then false
  else if homestead && (Cmp s secp256k1halfN >? 0) then false
  else (Cmp r secp256k1N <? 0) && (Cmp s secp256k1N <? 0) && ((v =? 0) || (v =? 1)).

Definition isProtectedV (V : Z) : bool :=
  if BitLen V <=? 8 then
    negb (V =? 27) && negb (V =? 28) && negb (V =? 1) && negb (V =? 0)
  else true.

Definition Protected (tx : Transaction) : bool :=
  match inner tx with
  | TLegacy tx => isProtectedV (LegacyTx.V tx)
  | _ => true
  end.

(** [v.Uint64()] of a non-negative integer of at most 64 bits is itself. *)
Definition deriveChainId (v : Z) : Z :=
  if BitLen v <=? 64 then
    if (v =? 27) || (v =? 28) then 0
    else wrap64 (v - 35) / 2
  else Z.shiftr (v - 35) 1.

Definition ChainId (tx : Transaction) : Z :=
  match inner tx with
  | TLegacy tx => deriveChainId (LegacyTx.V tx)
  | TAccessList tx => AccessListTx.ChainID tx
  | TDynamicFee tx => DynamicFeeTx.ChainID tx
  | TBlob tx => BlobTx.ChainID tx
  | TSetCode tx => SetCodeTx.ChainID tx
  | TParallel tx => ParallelTx.ChainID tx
  end.

(** [None] is the panic on a signature of the wrong size. *)
Definition decodeSignature (sig : bytes) : option (Z * Z * Z) :=
  if len sig =? SignatureLength then
    Some (be_decode (take 32 sig), be_decode (take 32 (drop 32 sig)),
          (default 0 (sig !! 64%nat) + 27) mod 256)
  else None.

(** ** Signers *)

Section Signers.
Context (rlpHash : list hash_item → Hash).
Context (prefixedRlpHash : Z → list hash_item → Hash).
Context (Keccak256 : bytes → bytes).
Context (Ecrecover : Hash → bytes → option bytes).

(** The end of [recoverPlain]: from the 65-byte signature to the address. *)
Definition recover_pubkey (sighash : Hash) (sig : bytes) : result signer_error Address :=
  match Ecrecover sighash sig with
  | None => Err ErrRecovery
  | Some pub =>
      if (len pub =? 0) || negb (default 0 (pub !! 0%nat) =? 4) then Err ErrInvalidPublicKey
      else Ok (be_decode (take 20 (drop 12 (Keccak256 (drop 1 pub)))))
  end.

Definition recoverPlain (sighash : Hash) (R S Vb : Z) (homestead : bool)
    : result signer_error Address :=
  if BitLen Vb >? 8 then Err ErrInvalidSig
  else
    let V := (Z.abs Vb - 27) mod 256 in
    if negb (ValidateSignatureValues V R S homestead) then Err ErrInvalidSig
    else recover_pubkey sighash (be_encode 32 R ++ be_encode 32 S ++ [V]).

(** [Hash] of each signer: the hash that is signed. *)
Definition FrontierSigner_Hash (tx : Transaction) : Hash :=
  rlpHash [HInt (Tx.Nonce tx); HInt (Tx.GasPrice tx); HInt (Tx.Gas tx);
           HAddr (Tx.To tx); HInt (Tx.Value tx); HBytes (Tx.Data tx)].

Definition EIP155Signer_Hash (chainId : Z) (tx : Transaction) : Hash :=
  rlpHash [HInt (Tx.Nonce tx); HInt (Tx.GasPrice tx); HInt (Tx.Gas tx);
           HAddr (Tx.To tx); HInt (Tx.Value tx); HBytes (Tx.Data tx);
           HInt chainId; HInt 0; HInt 0].

Definition eip2930Signer_Hash (chainId : Z) (tx : Transaction) : Hash :=
  if Tx.Type_ tx =? LegacyTxType then EIP155Signer_Hash chainId tx
  else if Tx.Type_ tx =? AccessListTxType then
    prefixedRlpHash (Tx.Type_ tx)
      [HInt chainId; HInt (Tx.Nonce tx); HInt (Tx.GasPrice tx); HInt (Tx.Gas tx);
       HAddr (Tx.To tx); HInt (Tx.Value tx); HBytes (Tx.Data tx);
       HAccessList (Tx.AccessList_ tx)]
  else 0.

Definition londonSigner_Hash (chainId : Z) (tx : Transaction) : Hash :=
  if negb (Tx.Type_ tx =? DynamicFeeTxType) then eip2930Signer_Hash chainId tx
  else prefixedRlpHash (Tx.Type_ tx)
    [HInt chainId; HInt (Tx.Nonce tx); HInt (Tx.GasTipCap tx); HInt (Tx.GasFeeCap tx);
     HInt (Tx.Gas tx); HAddr (Tx.To tx); HInt (Tx.Value tx); HBytes (Tx.Data tx);
     HAccessList (Tx.AccessList_ tx)].

Definition cancunSigner_Hash (chainId : Z) (tx : Transaction) : Hash :=
  if negb (Tx.Type_ tx =? BlobTxType) then londonSigner_Hash chainId tx
  else prefixedRlpHash (Tx.Type_ tx)
    [HInt chainId; HInt (Tx.Nonce tx); HInt (Tx.GasTipCap tx); HInt (Tx.GasFeeCap tx);
     HInt (Tx.Gas tx); HAddr (Tx.To tx); HInt (Tx.Value tx); HBytes (Tx.Data tx);
     HAccessList (Tx.AccessList_ tx); HInt (default 0 (Tx.BlobGasFeeCap tx));
     HHashes (default [] (Tx.BlobHashes tx))].

Definition pragueSigner_Hash (chainId : Z) (tx : Transaction) : Hash :=
  if negb (Tx.Type_ tx =? SetCodeTxType) then cancunSigner_Hash chainId tx
  else prefixedRlpHash (Tx.Type_ tx)
    [HInt chainId; HInt (Tx.Nonce tx); HInt (Tx.GasTipCap tx); HInt (Tx.GasFeeCap tx);
     HInt (Tx.Gas tx); HAddr (Tx.To tx); HInt (Tx.Value tx); HBytes (Tx.Data tx);
     HAccessList (Tx.AccessList_ tx); HAuths (default [] (Tx.SetCodeAuthorizations tx))].

Definition signer_Hash (s : Signer) (tx : Transaction) : Hash :=
  match s with
  | FrontierSigner | HomesteadSigner => FrontierSigner_Hash tx
  | EIP155Signer c => EIP155Signer_Hash c tx
  | eip2930Signer c => eip2930Signer_Hash c tx
  | londonSigner c => londonSigner_Hash c tx
  | cancunSigner c => cancunSigner_Hash c tx
  | pragueSigner c => pragueSigner_Hash c tx
  end.

(** [Sender] of each signer. *)
Definition FrontierSigner_Sender (tx : Transaction) : result signer_error Address :=
  if negb (Tx.Type_ tx =? LegacyTxType) then Err ErrTxTypeNotSupported
  else let '(v, r, s) := TxData.rawSignatureValues (inner tx) in
       recoverPlain (FrontierSigner_Hash tx) r s v false.

Definition HomesteadSigner_Sender (tx : Transaction) : result signer_error Address :=
  if negb (Tx.Type_ tx =? LegacyTxType) then Err ErrTxTypeNotSupported
  else let '(v, r, s) := TxData.rawSignatureValues (inner tx) in
       recoverPlain (FrontierSigner_Hash tx) r s v true.

Definition EIP155Signer_Sender (chainId : Z) (tx : Transaction) : result signer_error Address :=
  if negb (Tx.Type_ tx =? LegacyTxType) then Err ErrTxTypeNotSupported
  else if negb (Protected tx) then HomesteadSigner_Sender tx
  else if negb (Cmp (ChainId tx) chainId =? 0) then Err ErrInvalidChainId
  else let '(V, R, S_) := TxData.rawSignatureValues (inner tx) in
       let V := V - 2 * chainId in
       let V := V - 8 in
       recoverPlain (EIP155Signer_Hash chainId tx) R S_ V true.

Definition eip2930Signer_Sender (chainId : Z) (tx : Transaction) : result signer_error Address :=
  let '(V, R, S_) := TxData.rawSignatureValues (inner tx) in
  if Tx.Type_ tx =? LegacyTxType then EIP155Signer_Sender chainId tx
  else if Tx.Type_ tx =? AccessListTxType then
    let V := V + 27 in
    if negb (Cmp (ChainId tx) chainId =? 0) then Err ErrInvalidChainId
    else recoverPlain (eip2930Signer_Hash chainId tx) R S_ V true
  else Err ErrTxTypeNotSupported.

Definition londonSigner_Sender (chainId : Z) (tx : Transaction) : result signer_error Address :=
  if negb (Tx.Type_ tx =? DynamicFeeTxType) then eip2930Signer_Sender chainId tx
  else let '(V, R, S_) := TxData.rawSignatureValues (inner tx) in
       let V := V + 27 in
       if negb (Cmp (ChainId tx) chainId =? 0) then Err ErrInvalidChainId
       else recoverPlain (londonSigner_Hash chainId tx) R S_ V true.

Definition cancunSigner_Sender (chainId : Z) (tx : Transaction) : result signer_error Address :=
  if negb (Tx.Type_ tx =? BlobTxType) then londonSigner_Sender chainId tx
  else let '(V, R, S_) := TxData.rawSignatureValues (inner tx) in
       let V := V + 27 in
       if negb (Cmp (ChainId tx) chainId =? 0) then Err ErrInvalidChainId
       else recoverPlain (cancunSigner_Hash chainId tx) R S_ V true.

Definition pragueSigner_Sender (chainId : Z) (tx : Transaction) : result signer_error Address :=
  if negb (Tx.Type_ tx =? SetCodeTxType) then cancunSigner_Sender chainId tx
  else let '(V, R, S_) := TxData.rawSignatureValues (inner tx) in
       let V := V + 27 in
       if negb (Cmp (ChainId tx) chainId =? 0) then Err ErrInvalidChainId
       else recoverPlain (pragueSigner_Hash chainId tx) R S_ V true.

Definition signer_Sender (s : Signer) (tx : Transaction) : result signer_error Address :=
  match s with
  | FrontierSigner => FrontierSigner_Sender tx
  | HomesteadSigner => HomesteadSigner_Sender tx
  | EIP155Signer c => EIP155Signer_Sender c tx
  | eip2930Signer c => eip2930Signer_Sender c tx
  | londonSigner c => londonSigner_Sender c tx
  | cancunSigner c => cancunSigner_Sender c tx
  | pragueSigner c => pragueSigner_Sender c tx
  end.

(** [types.Sender]: the recovery with the cache of the transaction, which holds
    the signer and the address of an earlier recovery. *)
Definition Sender (signer : Signer) (cache : option (Signer * Address)) (tx : Transaction)
    : result signer_error Address * option (Signer * Address) :=
  let recover :=
    match signer_Sender signer tx with
    | Err err => (Err err, cache)
    | Ok addr => (Ok addr, Some (signer, addr))
    end in
  match cache with
  | Some (cached, from) => if bool_decide (cached = signer) then (Ok from, cache) else recover
  | None => recover
  end.
End Signers.

(** [ChainID()] of a signer; nil for the two oldest. *)
Definition signer_ChainID (s : Signer) : option Z :=
  match s with
  | FrontierSigner | HomesteadSigner => None
  | EIP155Signer c | eip2930Signer c | londonSigner c | cancunSigner c | pragueSigner c => Some c
  end.

(** [SignatureValues]: [(R, S, V)]; the outer option is the panic of
    [decodeSignature]. *)
Definition FrontierSigner_SignatureValues (tx : Transaction) (sig : bytes)
    : option (result signer_error (Z * Z * Z)) :=
  if negb (Tx.Type_ tx =? LegacyTxType) then Some (Err ErrTxTypeNotSupported)
  else match decodeSignature sig with
       | Some (r, s, v) => Some (Ok (r, s, v))
       | None => None
       end.

Definition EIP155Signer_SignatureValues (chainId : Z) (tx : Transaction) (sig : bytes)
    : option (result signer_error (Z * Z * Z)) :=
  if negb (Tx.Type_ tx =? LegacyTxType) then Some (Err ErrTxTypeNotSupported)
  else match decodeSignature sig with
       | Some (R, S_, V) =>
           if negb (Z.sgn chainId =? 0) then
             let V := (default 0 (sig !! 64%nat) + 35) mod 256 in
             Some (Ok (R, S_, V + 2 * chainId))
           else Some (Ok (R, S_, V))
       | None => None
       end.

(** The typed transactions: the chain id must be the signer's, or zero. *)
Definition typed_SignatureValues (txChainID chainId : Z) (sig : bytes)
    : option (result signer_error (Z * Z * Z)) :=
  if negb (Z.sgn txChainID =? 0) && negb (Cmp txChainID chainId =? 0)
  then Some (Err ErrInvalidChainId)
  else match decodeSignature sig with
       | Some (R, S_, _) => Some (Ok (R, S_, default 0 (sig !! 64%nat)))
       | None => None
       end.

Definition eip2930Signer_SignatureValues (chainId : Z) (tx : Transaction) (sig : bytes)
    : option (result signer_error (Z * Z * Z)) :=
  match inner tx with
  | TLegacy _ => EIP155Signer_SignatureValues chainId tx sig
  | TAccessList txdata => typed_SignatureValues (AccessListTx.ChainID txdata) chainId sig
  | _ => Some (Err ErrTxTypeNotSupported)
  end.

Definition londonSigner_SignatureValues (chainId : Z) (tx : Transaction) (sig : bytes)
    : option (result signer_error (Z * Z * Z)) :=
  match inner tx with
  | TDynamicFee txdata => typed_SignatureValues (DynamicFeeTx.ChainID txdata) chainId sig
  | _ => eip2930Signer_SignatureValues chainId tx sig
  end.

Definition cancunSigner_SignatureValues (chainId : Z) (tx : Transaction) (sig : bytes)
    : option (result signer_error (Z * Z * Z)) :=
  match inner tx with
  | TBlob txdata => typed_SignatureValues (BlobTx.ChainID txdata) chainId sig
  | _ => londonSigner_SignatureValues chainId tx sig
  end.

Definition pragueSigner_SignatureValues (chainId : Z) (tx : Transaction) (sig : bytes)
    : option (result signer_error (Z * Z * Z)) :=
  match inner tx with
  | TSetCode txdata => typed_SignatureValues (SetCodeTx.ChainID txdata) chainId sig
  | _ => cancunSigner_SignatureValues chainId tx sig
  end.

Definition signer_SignatureValues (s : Signer) (tx : Transaction) (sig : bytes)
    : option (result signer_error (Z * Z * Z)) :=
  match s with
  | FrontierSigner | HomesteadSigner => FrontierSigner_SignatureValues tx sig
  | EIP155Signer c => EIP155Signer_SignatureValues c tx sig
  | eip2930Signer c => eip2930Signer_SignatureValues c tx sig
  | londonSigner c => londonSigner_SignatureValues c tx sig
  | cancunSigner c => cancunSigner_SignatureValues c tx sig
  | pragueSigner c => pragueSigner_SignatureValues c tx sig
  end.

(** [Transaction.WithSignature]: a new transaction, with empty caches ([hash]
    and [size] are those the new content will have). *)
Definition WithSignature (tx : Transaction) (signer : Signer) (sig : bytes) (hash size : Z)
    : option (result signer_error Transaction) :=
  match signer_SignatureValues signer tx sig with
  | None => None
  | Some (Err err) => Some (Err err)
  | Some (Ok (r, s, v)) =>
      match TxData.setSignatureValues (inner tx) (default 0 (signer_ChainID signer)) v r s with
      | None => None
      | Some cpy => Some (Ok (MkTx cpy hash size (tx_time tx)))
      end
  end.

(** [LatestSigner]: the newest signer among the forks the configuration
    schedules. *)
Record ForkSchedule : Type := MkForks {
  ChainID_config : option Z;
  PragueTime : option Z;
  CancunTime : option Z;
  LondonBlock : option Z;
  BerlinBlock : option Z;
  EIP155Block : option Z
}.

Definition LatestSigner (config : ForkSchedule) : Signer :=
  match ChainID_config config with
  | Some c =>
      if bool_decide (is_Some (PragueTime config)) then pragueSigner c
      else if bool_decide (is_Some (CancunTime config)) then cancunSigner c
      else if bool_decide (is_Some (LondonBlock config)) then londonSigner c
      else if bool_decide (is_Some (BerlinBlock config)) then eip2930Signer c
      else if bool_decide (is_Some (EIP155Block config)) then EIP155Signer c
      else HomesteadSigner
  | None => HomesteadSigner
  end.

(** ** Signing and recovering *)

(** The recovery id of a signature, its last byte. *)
Definition sig_v (sig : bytes) : Z := default 0 (sig !! 64%nat).
Definition sig_r (sig : bytes) : Z := be_decode (take 32 sig).
Definition sig_s (sig : bytes) : Z := be_decode (take 32 (drop 32 sig)).

(** Frontier alone accepts the upper half of the [s] values. *)
Definition strict_s (s : Signer) : bool :=
  negb (bool_decide (s = FrontierSigner)).

(** A signature as [crypto.Sign] returns it: 65 bytes, with [r], [s] and the
    recovery id in the ranges the signer accepts. *)
Definition sig_ok (s : Signer) (sig : bytes) : Prop :=
  length sig = 65%nat ∧ Forall is_byte sig ∧
  ValidateSignatureValues (sig_v sig) (sig_r sig) (sig_s sig) (strict_s s) = true.

(** The chain id a typed transaction carries: absent, or the signer's. *)
Definition chain_ok (own c : Z) : bool := (own =? 0) || (own =? c).

(** The newest transaction type a signer knows. *)
Definition max_type (s : Signer) : Z :=
  match s with
  | FrontierSigner | HomesteadSigner | EIP155Signer _ => LegacyTxType
  | eip2930Signer _ => AccessListTxType
  | londonSigner _ => DynamicFeeTxType
  | cancunSigner _ => BlobTxType
  | pragueSigner _ => SetCodeTxType
  end.

(** The transactions a signer signs. *)
Definition signable (s : Signer) (tx : Transaction) : bool :=
  match s, inner tx with
  | (FrontierSigner | HomesteadSigner), TLegacy _ => true
  | (EIP155Signer c | eip2930Signer c | londonSigner c | cancunSigner c | pragueSigner c),
      TLegacy _ => 0 <? c
  | (eip2930Signer c | londonSigner c | cancunSigner c | pragueSigner c), TAccessList t =>
      chain_ok (AccessListTx.ChainID t) c
  | (londonSigner c | cancunSigner c | pragueSigner c), TDynamicFee t =>
      chain_ok (DynamicFeeTx.ChainID t) c
  | (cancunSigner c | pragueSigner c), TBlob t =>
      chain_ok (BlobTx.ChainID t) c && (0 <=? c) && (c <? two256)
  | pragueSigner c, TSetCode t =>
      chain_ok (SetCodeTx.ChainID t) c && (0 <=? c) && (c <? two256)
  | _, _ => false
  end.

Lemma sig_split sig :
  length sig = 65%nat → Forall is_byte sig →
  be_encode 32 (sig_r sig) ++ be_encode 32 (sig_s sig) ++ [sig_v sig] = sig.
Proof.
  intros Hlen Hb. unfold sig_r, sig_s, sig_v.
  assert (Hr : length (take 32 sig) = 32%nat) by (rewrite length_take; lia).
  assert (Hs : length (take 32 (drop 32 sig)) = 32%nat)
    by (rewrite length_take, length_drop; lia).
  rewrite (be_encode_decode_len _ _ Hr) by by apply Forall_take.
  rewrite (be_encode_decode_len _ _ Hs) by by apply Forall_take, Forall_drop.
  assert (is_Some (sig !! 64%nat)) as [v Hv] by (apply lookup_lt_is_Some; lia).
  rewrite Hv. simpl default.
  assert (drop 64 sig = [v]) as Hd.
  { rewrite (drop_S _ v) by done. rewrite drop_ge by lia. done. }
  rewrite <-Hd. change 64%nat with (32 + 32)%nat. rewrite <-drop_drop.
  by rewrite take_drop, take_drop.
Qed.

Lemma decodeSignature_ok sig :
  length sig = 65%nat →
  decodeSignature sig = Some (sig_r sig, sig_s sig, (sig_v sig + 27) mod 256).
Proof. intros Hlen. unfold decodeSignature, len. by rewrite Hlen. Qed.

Lemma ValidateSignatureValues_v v r s h :
  ValidateSignatureValues v r s h = true → v = 0 ∨ v = 1.
Proof.
  unfold ValidateSignatureValues.
  destruct (_ || _); [done|]. destruct (h && _); [done|].
  rewrite !andb_true_iff, orb_true_iff, !Z.eqb_eq. tauto.
Qed.

Lemma ValidateSignatureValues_range v r s h :
  ValidateSignatureValues v r s h = true → 1 <= r < two256 ∧ 1 <= s < two256.
Proof.
  unfold ValidateSignatureValues. rewrite !Cmp_ltb.
  destruct (Z.ltb_spec r 1), (Z.ltb_spec s 1); simpl; try done.
  destruct (h && _); [done|].
  rewrite !andb_true_iff, !Z.ltb_lt. intros [[Hr Hs] _].
  assert (secp256k1N < two256) by reflexivity. lia.
Qed.

Lemma ValidateSignatureValues_weaken v r s h :
  ValidateSignatureValues v r s true = true → ValidateSignatureValues v r s h = true.
Proof.
  unfold ValidateSignatureValues. destruct (_ || _); [done|].
  destruct h; simpl; [done|]. by destruct (Cmp s secp256k1halfN >? 0).
Qed.

Section Recovery.
Context (rlpHash : list hash_item → Hash).
Context (prefixedRlpHash : Z → list hash_item → Hash).
Context (Keccak256 : bytes → bytes).
Context (Ecrecover : Hash → bytes → option bytes).

Lemma recoverPlain_sig h sig homestead :
  length sig = 65%nat → Forall is_byte sig →
  ValidateSignatureValues (sig_v sig) (sig_r sig) (sig_s sig) homestead = true →
  recoverPlain Keccak256 Ecrecover h (sig_r sig) (sig_s sig) (sig_v sig + 27) homestead
  = recover_pubkey Keccak256 Ecrecover h sig.
Proof.
  intros Hlen Hb Hval. unfold recoverPlain.
  pose proof (sig_split sig Hlen Hb) as Hsplit.
  pose proof (ValidateSignatureValues_v _ _ _ _ Hval) as Hv.
  assert ((BitLen (sig_v sig + 27) >? 8) = false) as ->
    by (destruct Hv as [-> | ->]; reflexivity).
  assert ((Z.abs (sig_v sig + 27) - 27) mod 256 = sig_v sig) as ->
    by (destruct Hv as [-> | ->]; reflexivity).
  rewrite Hval. cbn [negb]. by rewrite Hsplit.
Qed.

Lemma typed_SignatureValues_ok own c sig :
  chain_ok own c = true → length sig = 65%nat →
  typed_SignatureValues own c sig = Some (Ok (sig_r sig, sig_s sig, sig_v sig)).
Proof.
  intros Hc Hlen. unfold typed_SignatureValues.
  rewrite decodeSignature_ok by done.
  assert (negb (Z.sgn own =? 0) && negb (Cmp own c =? 0) = false) as ->; [|done].
  unfold chain_ok in Hc. apply orb_true_iff in Hc as [->%Z.eqb_eq| ->%Z.eqb_eq]; [done|].
  assert (Cmp c c = 0) as -> by by apply Cmp_zero. by rewrite andb_false_r.
Qed.

(** The chain id comes back from the [V] that [EIP155Signer] writes. *)
Lemma deriveChainId_eip155 v c :
  v = 0 ∨ v = 1 → 0 < c → deriveChainId (v + 35 + 2 * c) = c.
Proof.
  intros Hv Hc. unfold deriveChainId.
  assert ((v + 35 + 2 * c =? 27) || (v + 35 + 2 * c =? 28) = false) as ->.
  { apply orb_false_iff. rewrite !Z.eqb_neq. lia. }
  destruct (Z.leb_spec (BitLen (v + 35 + 2 * c)) 64) as [H64|_].
  - apply BitLen_le in H64; [|lia..].
    rewrite wrap64_id by (unfold is_uint64, two64; lia).
    symmetry. apply (Z.div_unique _ _ _ v); lia.
  - rewrite Z.shiftr_div_pow2 by lia. symmetry.
    apply (Z.div_unique _ _ _ v); lia.
Qed.

Lemma isProtectedV_eip155 v c :
  v = 0 ∨ v = 1 → 0 < c → isProtectedV (v + 35 + 2 * c) = true.
Proof.
  intros Hv Hc. unfold isProtectedV. destruct (_ <=? 8); [|done].
  rewrite !andb_true_iff, !negb_true_iff, !Z.eqb_neq. lia.
Qed.

Lemma EIP155_roundtrip c tx sig t hash size :
  inner tx = TLegacy t → 0 < c → length sig = 65%nat → Forall is_byte sig →
  ValidateSignatureValues (sig_v sig) (sig_r sig) (sig_s sig) true = true →
  ∃ t', TxData.setSignatureValues (inner tx) c (sig_v sig + 35 + 2 * c) (sig_r sig) (sig_s sig)
        = Some (TLegacy t')
  ∧ EIP155Signer_SignatureValues c tx sig
    = Some (Ok (sig_r sig, sig_s sig, sig_v sig + 35 + 2 * c))
  ∧ EIP155Signer_Sender rlpHash Keccak256 Ecrecover c
      (MkTx (TLegacy t') hash size (tx_time tx))
    = recover_pubkey Keccak256 Ecrecover (EIP155Signer_Hash rlpHash c tx) sig.
Proof.
  intros Ht Hc Hlen Hb Hval.
  pose proof (ValidateSignatureValues_v _ _ _ _ Hval) as Hv.
  rewrite Ht. eexists. split; [reflexivity|]. split.
  - unfold EIP155Signer_SignatureValues, Tx.Type_. rewrite Ht. simpl.
    rewrite decodeSignature_ok by done. rewrite Z.sgn_pos by done. simpl.
    rewrite (Z.mod_small (default 0 (sig !! 64%nat) + 35));
      [done|fold (sig_v sig); lia].
  - unfold EIP155Signer_Sender, Protected, ChainId, Tx.Type_. simpl.
    rewrite isProtectedV_eip155, deriveChainId_eip155 by done.
    assert (Cmp c c = 0) as -> by by apply Cmp_zero. simpl.
    replace (sig_v sig + 35 + 2 * c - _ - 8) with (sig_v sig + 27) by lia.
    rewrite recoverPlain_sig by done. f_equal.
    unfold EIP155Signer_Hash, Tx.Nonce, Tx.GasPrice, Tx.Gas, Tx.To, Tx.Value, Tx.Data.
    by rewrite Ht.
Qed.

Abbreviation Hash_of := (signer_Hash rlpHash prefixedRlpHash).
Abbreviation Sender_of := (signer_Sender rlpHash prefixedRlpHash Keccak256 Ecrecover).

(** Signing changes nothing the signature covers. *)
Lemma signed_hash s tx d' hash size c v r s_ :
  TxData.setSignatureValues (inner tx) c v r s_ = Some d' →
  Hash_of s (MkTx d' hash size (tx_time tx)) = Hash_of s tx.
Proof.
  destruct tx as [[] ? ? ?]; cbn [inner TxData.setSignatureValues]; intros Hd;
    simplify_eq; try by destruct s.
  unfold SetCodeTx.setSignatureValues in Hd.
  destruct (_ && _); simplify_eq/=; by destruct s.
Qed.

(** [Sender] on a typed transaction that the signer knows. *)
Lemma signer_Sender_typed s c tx :
  signer_ChainID s = Some c → 0 < Tx.Type_ tx <= max_type s →
  Sender_of s tx =
    let '(V, R, S_) := TxData.rawSignatureValues (inner tx) in
    if negb (Cmp (ChainId tx) c =? 0) then Err ErrInvalidChainId
    else recoverPlain Keccak256 Ecrecover (Hash_of s tx) R S_ (V + 27) true.
Proof.
  intros Hc. destruct tx as [[] ? ? ?], s; cbv [Tx.Type_ inner TxData.txType max_type
    LegacyTxType AccessListTxType DynamicFeeTxType BlobTxType SetCodeTxType ParallelTxType];
    intros Hty; try lia; simplify_eq/=; reflexivity.
Qed.

(** The signature values of a typed transaction that the signer signs. *)
Lemma signer_SignatureValues_typed s c tx sig :
  signer_ChainID s = Some c → 0 < Tx.Type_ tx → signable s tx = true →
  length sig = 65%nat →
  signer_SignatureValues s tx sig = Some (Ok (sig_r sig, sig_s sig, sig_v sig)).
Proof.
  intros Hc Hty Hs Hlen.
  destruct tx as [[t|t|t|t|t|t] ? ? ?], s; try discriminate Hs; try discriminate Hty;
    unfold signable in Hs; cbn [inner signer_ChainID] in Hs, Hc; simplify_eq;
    repeat match goal with H : _ && _ = true |- _ => apply andb_prop in H as [H ?] end;
    by apply typed_SignatureValues_ok.
Qed.

Lemma signable_type s tx : signable s tx = true → 0 <= Tx.Type_ tx <= max_type s.
Proof. destruct tx as [[] ? ? ?], s; done. Qed.

(** What [setSignatureValues] writes into a typed transaction. *)
Lemma set_signature_typed s c tx v r s_ :
  signer_ChainID s = Some c → 0 < Tx.Type_ tx → signable s tx = true →
  is_uint256 v → is_uint256 r → is_uint256 s_ →
  ∃ d', TxData.setSignatureValues (inner tx) c v r s_ = Some d' ∧
  TxData.txType d' = Tx.Type_ tx ∧ TxData.rawSignatureValues d' = (v, r, s_) ∧
  ∀ hash size time, ChainId (MkTx d' hash size time) = c.
Proof.
  intros Hc Hty Hs Hv Hr Hs_.
  destruct tx as [[t|t|t|t|t|t] ? ? ?], s; try discriminate Hs; try discriminate Hty;
    unfold signable in Hs; cbn [inner signer_ChainID] in Hs, Hc; simplify_eq;
    cbn [inner TxData.setSignatureValues].
  all: try (eexists; split_and!; reflexivity).
  all: apply andb_prop in Hs as [Hs Hlt]; apply andb_prop in Hs as [Hs Hle].
  all: unfold SetCodeTx.setSignatureValues, BlobTx.setSignatureValues; rewrite ?Hle, ?Hlt.
  all: eexists; split; [reflexivity|]; simpl; rewrite !wrap256_id; try done.
  all: unfold is_uint256; lia.
Qed.

Lemma typed_roundtrip s c tx sig hash size :
  signer_ChainID s = Some c → 0 < Tx.Type_ tx → signable s tx = true → sig_ok s sig →
  ∃ tx', WithSignature tx s sig hash size = Some (Ok tx') ∧
  Sender_of s tx' = recover_pubkey Keccak256 Ecrecover (Hash_of s tx) sig.
Proof.
  intros Hc Hty Hs (Hlen & Hb & Hval).
  assert (strict_s s = true) as Hstrict by by destruct s.
  rewrite Hstrict in Hval. pose proof (signable_type _ _ Hs) as Hmax.
  pose proof (ValidateSignatureValues_v _ _ _ _ Hval).
  pose proof (ValidateSignatureValues_range _ _ _ _ Hval).
  destruct (set_signature_typed s c tx (sig_v sig) (sig_r sig) (sig_s sig))
    as (d' & Hd & Hty' & Hraw & Hchain); try done; try (unfold is_uint256, two256 in *; lia).
  exists (MkTx d' hash size (tx_time tx)). split.
  - unfold WithSignature. rewrite (signer_SignatureValues_typed s c) by done.
    rewrite Hc. cbn [from_option id]. by rewrite Hd.
  - rewrite (signer_Sender_typed s c) by (rewrite ?Hc; unfold Tx.Type_ in *; simpl; lia || done).
    cbn [inner]. rewrite Hraw, Hchain.
    assert (Cmp c c = 0) as -> by by apply Cmp_zero. cbn [negb Z.eqb].
    rewrite (signed_hash _ _ _ _ _ _ _ _ _ Hd). by apply recoverPlain_sig.
Qed.

(** The legacy transactions of the newer signers are [EIP155Signer]'s. *)
Lemma legacy_defers s c tx t :
  signer_ChainID s = Some c → inner tx = TLegacy t →
  signer_SignatureValues s tx = EIP155Signer_SignatureValues c tx ∧
  Sender_of s tx = EIP155Signer_Sender rlpHash Keccak256 Ecrecover c tx ∧
  Hash_of s tx = EIP155Signer_Hash rlpHash c tx.
Proof.
  intros Hc Ht. destruct tx as [d ? ? ?]. simpl in Ht. subst d.
  destruct s; simplify_eq/=; done.
Qed.

Lemma legacy_roundtrip s c tx t sig hash size :
  signer_ChainID s = Some c → inner tx = TLegacy t → 0 < c → sig_ok s sig →
  ∃ tx', WithSignature tx s sig hash size = Some (Ok tx') ∧
  Sender_of s tx' = recover_pubkey Keccak256 Ecrecover (Hash_of s tx) sig.
Proof.
  intros Hc Ht Hpos (Hlen & Hb & Hval).
  assert (strict_s s = true) as Hstrict by by destruct s. rewrite Hstrict in Hval.
  destruct (EIP155_roundtrip c tx sig t hash size) as (t' & Hset & Hsv & Hsender); try done.
  exists (MkTx (TLegacy t') hash size (tx_time tx)). unfold WithSignature.
  destruct (legacy_defers s c tx t) as (-> & _ & ->); [done..|].
  rewrite Hsv, Hc. cbn [from_option id]. rewrite Hset. split; [done|].
  by destruct (legacy_defers s c (MkTx (TLegacy t') hash size (tx_time tx)) t') as (_ & -> & _).
Qed.

(** The two signers without a chain id. *)
Lemma unprotected_roundtrip s tx t sig hash size :
  signer_ChainID s = None → inner tx = TLegacy t → sig_ok s sig →
  ∃ tx', WithSignature tx s sig hash size = Some (Ok tx') ∧
  Sender_of s tx' = recover_pubkey Keccak256 Ecrecover (Hash_of s tx) sig.
Proof.
  intros Hc Ht (Hlen & Hb & Hval). destruct tx as [d h0 size0 time]. simpl in Ht. subst d.
  pose proof (ValidateSignatureValues_v _ _ _ _ Hval) as Hv.
  assert ((sig_v sig + 27) mod 256 = sig_v sig + 27) as Hmod by (destruct Hv as [-> | ->]; done).
  eexists. unfold WithSignature.
  assert (signer_SignatureValues s (MkTx (TLegacy t) h0 size0 time) sig
    = Some (Ok (sig_r sig, sig_s sig, sig_v sig + 27))) as ->.
  { destruct s; try done; simpl; unfold FrontierSigner_SignatureValues; simpl;
      by rewrite decodeSignature_ok, Hmod. }
  cbn [inner TxData.setSignatureValues]. split; [done|].
  destruct s; try done; cbn [signer_Sender signer_Hash]; unfold FrontierSigner_Sender,
    HomesteadSigner_Sender; by rewrite <-(recoverPlain_sig _ _ _ Hlen Hb Hval).
Qed.

(** C37: for every signer and every transaction it signs, attaching a signature
    with [WithSignature] succeeds, and [Sender] of the result is the address
    that the curve recovers from the hash the signer asked to sign: signing and
    recovering agree on the hash, on the chain id and on the encoding of [V]. *)
Theorem sign_recover_roundtrip s tx sig hash size :
  signable s tx = true → sig_ok s sig →
  ∃ tx', WithSignature tx s sig hash size = Some (Ok tx') ∧
  signer_Sender rlpHash prefixedRlpHash Keccak256 Ecrecover s tx' = recover_pubkey Keccak256
      Ecrecover (signer_Hash rlpHash prefixedRlpHash s tx) sig.
Proof.
  intros Hs Hsig. pose proof (signable_type _ _ Hs).
  destruct (signer_ChainID s) as [c|] eqn:Hc.
  - destruct (Z.eqb_spec (Tx.Type_ tx) 0) as [Hty|].
    + destruct (inner tx) as [t| | | | |] eqn:Ht; unfold Tx.Type_ in Hty; rewrite Ht in Hty;
        try discriminate Hty.
      apply (legacy_roundtrip s c tx t); try done.
      unfold signable in Hs. rewrite Ht in Hs. destruct s; simplify_eq/=; lia.
    + apply (typed_roundtrip s c tx); try done. lia.
  - destruct (inner tx) as [t| | | | |] eqn:Ht;
      try (unfold signable in Hs; rewrite Ht in Hs; by destruct s).
    by apply (unprotected_roundtrip s tx t).
Qed.

(** No signer recovers the sender of a parallel transaction: every one of
    the seven answers [ErrTxTypeNotSupported] on type 5, whatever the signature. *)
Theorem parallel_tx_has_no_sender s tx p :
  inner tx = TParallel p → signer_Sender rlpHash prefixedRlpHash Keccak256 Ecrecover s tx = Err
      ErrTxTypeNotSupported.
Proof.
  destruct tx as [d ? ? ?]. simpl. intros ->. by destruct s.
Qed.

(** A cache entry that an earlier recovery on the same transaction left. *)
Definition cache_ok (tx : Transaction) (cache : option (Signer * Address)) : Prop :=
  match cache with
  | Some (s, a) => Sender_of s tx = Ok a
  | None => True
  end.

(** The cached [types.Sender] is the recovery of the signer it is given,
    whatever signer filled the cache before (an entry of another signer is not
    used), and what it leaves in the cache is again the result of a recovery. *)
Theorem Sender_cache_coherent s cache tx :
  cache_ok tx cache →
  (Sender rlpHash prefixedRlpHash Keccak256 Ecrecover s cache tx).1 = signer_Sender rlpHash
      prefixedRlpHash Keccak256 Ecrecover s tx ∧
  cache_ok tx (Sender rlpHash prefixedRlpHash Keccak256 Ecrecover s cache tx).2.
Proof.
  intros Hc. unfold Sender. destruct cache as [[s0 a]|].
  - case_bool_decide as Hs; simpl in *; subst; [done|].
    by destruct (Sender_of s tx) eqn:E.
  - by destruct (Sender_of s tx) eqn:E.
Qed.

Lemma Sender_type s tx a : Sender_of s tx = Ok a → 0 <= Tx.Type_ tx <= max_type s.
Proof. destruct tx as [[] ? ? ?], s; simpl; try discriminate; intros _; done. Qed.

Lemma Hash_of_upgrade s s' c tx :
  signer_ChainID s = Some c → signer_ChainID s' = Some c →
  Tx.Type_ tx <= max_type s → Tx.Type_ tx <= max_type s' → Hash_of s tx = Hash_of s' tx.
Proof.
  destruct tx as [[] ? ? ?], s, s'; intros; simplify_eq/=; try done; try lia.
Qed.

(** A fork upgrade is conservative: a newer signer with the same chain id
    recovers the same sender of every transaction that an older signer (from
    EIP-155 on) recovers a sender of. *)
Theorem signer_upgrade_conservative s s' c tx a :
  signer_ChainID s = Some c → signer_ChainID s' = Some c → max_type s <= max_type s' →
  signer_Sender rlpHash prefixedRlpHash Keccak256 Ecrecover s tx = Ok a → signer_Sender rlpHash
      prefixedRlpHash Keccak256 Ecrecover s' tx = Ok a.
Proof.
  intros Hc Hc' Hmax Ha. pose proof (Sender_type _ _ _ Ha) as Hty.
  destruct (Z.eqb_spec (Tx.Type_ tx) 0) as [H0|].
  - destruct (inner tx) as [t| | | | |] eqn:Ht; unfold Tx.Type_ in H0; rewrite Ht in H0;
      try discriminate H0.
    destruct (legacy_defers s c tx t) as (_ & Hs & _); [done..|].
    destruct (legacy_defers s' c tx t) as (_ & Hs' & _); [done..|]. congruence.
  - rewrite <-Ha, (signer_Sender_typed s c), (signer_Sender_typed s' c) by (done || lia).
    rewrite (Hash_of_upgrade s s' c) by (done || lia). done.
Qed.
End Recovery.

(** ** Concrete inputs *)

(** A 65-byte signature with [r = s = 1] and recovery id 1. *)
Definition example_sig : bytes := repeat 0 31 ++ [1] ++ repeat 0 31 ++ [1] ++ [1].
Definition example_pub (_ : Hash) (_ : bytes) : option bytes := Some (4 :: repeat 7 64).
Definition example_keccak (_ : bytes) : bytes := repeat 5 32.
Definition example_rlp (l : list hash_item) : Hash := len l.
Definition example_prlp (ty : Z) (l : list hash_item) : Hash := ty + len l.
Definition example_setcode : Transaction :=
  MkTx (TSetCode (SetCodeTx.mk 0 3 1 2 21000 77 5 [] [] [] 0 0 0)) 0 0 0.
Definition example_parallel : Transaction :=
  MkTx (TParallel (ParallelTx.mk 1 3 1 2 21000 (Some 77) 5 [] [] 0 [] 0 1 1 1)) 0 0 0.

Lemma sign_recover_roundtrip_witness :
  ∃ tx', WithSignature example_setcode (pragueSigner 9) example_sig 0 0 = Some (Ok tx') ∧
  signer_Sender example_rlp example_prlp example_keccak example_pub (pragueSigner 9) tx'
  = recover_pubkey example_keccak example_pub
      (signer_Hash example_rlp example_prlp (pragueSigner 9) example_setcode) example_sig.
Proof.
  apply sign_recover_roundtrip; [reflexivity|].
  split; [reflexivity|]. split; [|reflexivity].
  repeat (constructor; [unfold is_byte; lia|]). constructor.
Defined.

Lemma parallel_tx_has_no_sender_witness :
  signer_Sender example_rlp example_prlp example_keccak example_pub (pragueSigner 9)
    example_parallel = Err ErrTxTypeNotSupported.
Proof. eapply parallel_tx_has_no_sender. reflexivity. Defined.

(** The same transaction, signed. *)
Definition example_signed : Transaction :=
  MkTx (TSetCode (SetCodeTx.mk 9 3 1 2 21000 77 5 [] [] [] 1 1 1)) 0 0 0.
Definition example_signed_access : Transaction :=
  MkTx (TAccessList (AccessListTx.mk 9 3 2 21000 (Some 77) 5 [] [] 1 1 1)) 0 0 0.

Lemma Sender_cache_coherent_witness :
  let cache := Some (pragueSigner 9, be_decode (repeat 5 20)) in
  (Sender example_rlp example_prlp example_keccak example_pub (cancunSigner 9) cache
     example_signed).1
  = signer_Sender example_rlp example_prlp example_keccak example_pub (cancunSigner 9)
      example_signed ∧
  cache_ok example_rlp example_prlp example_keccak example_pub example_signed
    (Sender example_rlp example_prlp example_keccak example_pub (cancunSigner 9) cache
       example_signed).2.
Proof. apply Sender_cache_coherent. vm_compute. reflexivity. Defined.

Lemma signer_upgrade_conservative_witness :
  signer_Sender example_rlp example_prlp example_keccak example_pub (pragueSigner 9)
    example_signed_access = Ok (be_decode (repeat 5 20)).
Proof.
  apply (signer_upgrade_conservative _ _ _ _ (eip2930Signer 9) _ 9);
    [reflexivity|reflexivity|unfold max_type, AccessListTxType, SetCodeTxType; lia
    |vm_compute; reflexivity].
Defined.
