(* ===== verification/SortedMap.v ===== *)
(** * The nonce-sorted map of the legacy pool

    parallelizable-client-go-ethereum/core/txpool/legacypool/list.go, first
    part: [SortedMap], the transactions of an account in a map, with a heap of
    their nonces and a cache of the sorted slice.  A slice out of range or an
    empty heap is a panic, [None]; a nonce of the heap that the map lacks, for
    which the code would go on with a nil pointer, is [None] too.  The theorems
    show that neither happens: [repr m l] says that the three structures stand
    for one slice [l] in nonce order, and each method is a function of [l]. *)

From S2P Require Import Prelude GoSort GoHeap TxTypes.

(** [Less] of [nonceHeap]. *)
Definition nonce_less : Z → Z → bool := less_by id.

Record SortedMap : Type := MkSortedMap {
  items : gmap Z Transaction;
  index : list Z;
  cache : option (list Transaction)
}.

Definition NewSortedMap : SortedMap := MkSortedMap ∅ [] None.

Module SortedMap.
Definition Get (m : SortedMap) (nonce : Z) : option Transaction := items m !! nonce.

Definition Put (m : SortedMap) (tx : Transaction) : SortedMap :=
  let nonce := Tx.Nonce tx in
  let idx := match items m !! nonce with
             | None => Push nonce_less (index m) nonce
             | Some _ => index m
             end in
  MkSortedMap (<[nonce := tx]> (items m)) idx None.

(** Pop the least nonce and take its transaction out of the map. *)
Definition pop_item (m : SortedMap) : option (Transaction * SortedMap) :=
  '(nonce, idx) ← Pop nonce_less (index m);
  tx ← items m !! nonce;
  Some (tx, MkSortedMap (delete nonce (items m)) idx (cache m)).

Fixpoint forward_loop (fuel : nat) (m : SortedMap) (threshold : Z) (removed : list Transaction)
    : option (list Transaction * SortedMap) :=
  match fuel, index m with
  | S fuel, nonce :: _ =>
      if nonce <? threshold then
        '(tx, m) ← pop_item m; forward_loop fuel m threshold (removed ++ [tx])
      else Some (removed, m)
  | _, _ => Some (removed, m)
  end.

(** [s[i:]] and [s[:j]], which panic out of range. *)
Definition slice_from {A} (s : list A) (i : Z) : option (list A) :=
  if (0 <=? i) && (i <=? len s) then Some (drop (Z.to_nat i) s) else None.
Definition slice_to {A} (s : list A) (j : Z) : option (list A) :=
  if (0 <=? j) && (j <=? len s) then Some (take (Z.to_nat j) s) else None.

Definition set_cache (m : SortedMap) (c : option (list Transaction)) : SortedMap :=
  MkSortedMap (items m) (index m) c.

Definition Forward (m : SortedMap) (threshold : Z) : option (list Transaction * SortedMap) :=
  '(removed, m) ← forward_loop (length (index m)) m threshold [];
  match cache m with
  | None => Some (removed, m)
  | Some c => c ← slice_from c (len removed); Some (removed, set_cache m (Some c))
  end.

Definition reheap `{MapRange} (m : SortedMap) : SortedMap :=
  MkSortedMap (items m) (Init nonce_less (map_range (items m)).*1) None.

Definition filter_ `{MapRange} (m : SortedMap) (f : Transaction → bool)
    : list Transaction * SortedMap :=
  let hits := List.filter (λ e, f e.2) (map_range (items m)) in
  let kept := fold_left (λ it e, delete e.1 it) hits (items m) in
  let removed := hits.*2 in
  (removed,
   MkSortedMap kept (index m) (if 0 <? len removed then None else cache m)).

Definition Filter `{MapRange} (m : SortedMap) (f : Transaction → bool)
    : list Transaction * SortedMap :=
  let '(removed, m) := filter_ m f in
  (removed, if 0 <? len removed then reheap m else m).

(** The loop of [Cap]: [n] turns, the next one at [size]. *)
Fixpoint cap_loop (n : nat) (m : SortedMap) (size : Z) (drops : list Transaction)
    : option (list Transaction * SortedMap) :=
  match n with
  | O => Some (drops, m)
  | S n =>
      if size - 1 <? 0 then None
      else
        nonce ← index m !! Z.to_nat (size - 1);
        tx ← items m !! nonce;
        cap_loop n (MkSortedMap (delete nonce (items m)) (index m) (cache m)) (size - 1)
          (drops ++ [tx])
  end.

Definition Cap `{Sorter} (m : SortedMap) (threshold : Z) : option (list Transaction * SortedMap) :=
  if map_len (items m) <=? threshold then Some ([], m)
  else
    let m := MkSortedMap (items m) (sort_Slice nonce_less (index m)) (cache m) in
    let size := map_len (items m) in
    '(drops, m) ← cap_loop (Z.to_nat (size - threshold)) m size [];
    idx ← slice_to (index m) threshold;
    match cache m with
    | None => Some (drops, MkSortedMap (items m) idx None)
    | Some c =>
        c ← slice_to c (len c - len drops);
        Some (drops, MkSortedMap (items m) idx (Some c))
    end.

Definition Remove (m : SortedMap) (nonce : Z) : option (bool * SortedMap) :=
  match items m !! nonce with
  | None => Some (false, m)
  | Some _ =>
      idx ← match list_find (λ n, n = nonce) (index m) with
            | Some (i, _) => '(_, idx) ← GoHeap.Remove nonce_less (index m) i; Some idx
            | None => Some (index m)
            end;
      Some (true, MkSortedMap (delete nonce (items m)) idx None)
  end.

(** [next++] of a [uint64] wraps around. *)
Fixpoint ready_loop (fuel : nat) (m : SortedMap) (next : Z) (ready : list Transaction)
    : option (list Transaction * SortedMap) :=
  match fuel, index m with
  | S fuel, nonce :: _ =>
      if nonce =? next then
        tx ← items m !! next;
        let m := MkSortedMap (delete next (items m)) (index m) (cache m) in
        '(_, idx) ← Pop nonce_less (index m);
        ready_loop fuel (MkSortedMap (items m) idx (cache m)) (wrap64 (next + 1)) (ready ++ [tx])
      else Some (ready, m)
  | _, _ => Some (ready, m)
  end.

Definition Ready (m : SortedMap) (start : Z) : option (list Transaction * SortedMap) :=
  match index m with
  | [] => Some ([], m)
  | nonce :: _ =>
      if nonce >? start then Some ([], m)
      else
        '(ready, m) ← ready_loop (length (index m)) m nonce [];
        Some (ready, set_cache m None)
  end.

Definition Len (m : SortedMap) : Z := map_len (items m).

(** [flatten] fills the cache; [Flatten] returns a copy of it. *)
Definition flatten `{MapRange, Sorter} (m : SortedMap) : list Transaction * SortedMap :=
  match cache m with
  | Some c => (c, m)
  | None =>
      let c := sort_Slice (less_by Tx.Nonce) (range_values (items m)) in
      (c, set_cache m (Some c))
  end.

Definition Flatten `{MapRange, Sorter} (m : SortedMap) : list Transaction * SortedMap := flatten m.

Definition LastElement `{MapRange, Sorter} (m : SortedMap) : option (Transaction * SortedMap) :=
  let '(c, m) := flatten m in tx ← last c; Some (tx, m).

(** ** The slice a map stands for *)

Definition nonce_lt (x y : Transaction) : Prop := Tx.Nonce x < Tx.Nonce y.

(** The map and the heap hold the transactions of [l]. *)
Record core (it : gmap Z Transaction) (idx : list Z) (l : list Transaction) : Prop := {
  core_sorted : StronglySorted nonce_lt l;
  core_items n tx : it !! n = Some tx ↔ tx ∈ l ∧ Tx.Nonce tx = n;
  core_heap : is_heap nonce_less idx;
  core_index : idx ≡ₚ Tx.Nonce <$> l
}.

Definition repr (m : SortedMap) (l : list Transaction) : Prop :=
  core (items m) (index m) l ∧ (cache m = None ∨ cache m = Some l).

(** The methods on slices in nonce order. *)
Fixpoint put_nonce (tx : Transaction) (l : list Transaction) : list Transaction :=
  match l with
  | [] => [tx]
  | y :: l' =>
      if Tx.Nonce y <? Tx.Nonce tx then y :: put_nonce tx l'
      else if Tx.Nonce y =? Tx.Nonce tx then tx :: l' else tx :: l
  end.

(** How many transactions [Ready] takes off the front. *)
Fixpoint consecutive (next : Z) (l : list Transaction) : nat :=
  match l with
  | tx :: l => if Tx.Nonce tx =? next then S (consecutive (next + 1) l) else O
  | [] => O
  end.

Definition ready_count (start : Z) (l : list Transaction) : nat :=
  match l with
  | tx :: _ => if Tx.Nonce tx >? start then O else consecutive (Tx.Nonce tx) l
  | [] => O
  end.

(** ** Slices in nonce order *)

Lemma nonce_lt_NoDup l : StronglySorted nonce_lt l → NoDup (Tx.Nonce <$> l).
Proof.
  induction 1 as [|x l _ IH Hall]; cbn; constructor; [|done].
  rewrite list_elem_of_fmap. intros (y & Hxy & Hy).
  rewrite Forall_forall in Hall. specialize (Hall y Hy). unfold nonce_lt in Hall. lia.
Qed.

Lemma nonce_inj l x y :
  StronglySorted nonce_lt l → x ∈ l → y ∈ l → Tx.Nonce x = Tx.Nonce y → x = y.
Proof.
  intros Hs Hx Hy Heq. apply list_elem_of_lookup in Hx as [i Hi], Hy as [j Hj].
  apply nonce_lt_NoDup in Hs. rewrite NoDup_alt in Hs.
  assert (i = j) as ->; [|congruence].
  apply (Hs i j (Tx.Nonce x)); rewrite list_lookup_fmap, ?Hi, ?Hj; cbn; congruence.
Qed.

Lemma nonce_lt_filter (f : Transaction → bool) l :
  StronglySorted nonce_lt l → StronglySorted nonce_lt (List.filter f l).
Proof.
  induction 1 as [|x l _ IH Hall]; cbn; [constructor|]. case_match; [|done]. constructor; [done|].
  rewrite Forall_forall in *. intros y Hy. apply Hall.
  apply list_elem_of_In, List.filter_In in Hy as [Hy _]. by apply list_elem_of_In.
Qed.

Lemma elem_of_list_filter (f : Transaction → bool) l x :
  x ∈ List.filter f l ↔ x ∈ l ∧ f x = true.
Proof. by rewrite !list_elem_of_In, List.filter_In. Qed.

Lemma put_nonce_elem tx l x :
  StronglySorted nonce_lt l →
  x ∈ put_nonce tx l ↔ x = tx ∨ (x ∈ l ∧ Tx.Nonce x ≠ Tx.Nonce tx).
Proof.
  induction 1 as [|y l Hs IH Hall]; cbn [put_nonce]; [rewrite elem_of_cons, !elem_of_nil; naive_solver|].
  rewrite Forall_forall in Hall. unfold nonce_lt in Hall.
  destruct (Z.ltb_spec (Tx.Nonce y) (Tx.Nonce tx)); [|destruct (Z.eqb_spec (Tx.Nonce y) (Tx.Nonce tx))];
    rewrite !elem_of_cons, ?IH.
  - split; [intros [->|[->|[? ?]]]|intros [->|[[->|?] ?]]]; auto with lia.
  - split; [intros [->|?]|intros [->|[[->|?] ?]]]; auto; [|lia].
    right. specialize (Hall x ltac:(done)). auto with lia.
  - split; [intros [->|[->|?]]|intros [->|[[->|?] ?]]]; auto.
    right. specialize (Hall x ltac:(done)). auto with lia.
Qed.

Lemma put_nonce_sorted tx l : StronglySorted nonce_lt l → StronglySorted nonce_lt (put_nonce tx l).
Proof.
  induction 1 as [|y l Hs IH Hall]; cbn; [repeat constructor|].
  pose proof Hall as Hall'. rewrite Forall_forall in Hall'. unfold nonce_lt in Hall'.
  destruct (Z.ltb_spec (Tx.Nonce y) (Tx.Nonce tx)); [|destruct (Z.eqb_spec (Tx.Nonce y) (Tx.Nonce tx))].
  - constructor; [done|]. rewrite Forall_forall. intros z.
    rewrite put_nonce_elem by done. intros [->|[? _]]; unfold nonce_lt; auto.
  - constructor; [done|]. rewrite Forall_forall. intros z Hz. specialize (Hall' z Hz). unfold nonce_lt. lia.
  - constructor; [by constructor|]. rewrite Forall_cons, Forall_forall. unfold nonce_lt.
    split; [lia|]. intros z Hz. specialize (Hall' z Hz). lia.
Qed.

Lemma nonce_fmap_perm l k :
  StronglySorted nonce_lt l → NoDup (Tx.Nonce <$> k) → (∀ x, x ∈ l ↔ x ∈ k) →
  Tx.Nonce <$> l ≡ₚ Tx.Nonce <$> k.
Proof.
  intros Hl Hk Hlk. apply fmap_Permutation, NoDup_Permutation; [|by eapply NoDup_fmap_1|done].
  eapply NoDup_fmap_1. by apply nonce_lt_NoDup.
Qed.

(** ** The core of a map *)

#[export] Instance nonce_less_weak : StrictWeak nonce_less := less_by_weak id.

Lemma core_nil : core ∅ [] [].
Proof. split; [constructor| |done|done]. intros n tx. rewrite lookup_empty, elem_of_nil. naive_solver. Qed.

Lemma core_lookup it idx l tx : core it idx l → tx ∈ l → it !! Tx.Nonce tx = Some tx.
Proof. intros Hc Htx. by apply (core_items _ _ _ Hc). Qed.

Lemma core_map_to_list it idx l : core it idx l → (map_to_list it).*2 ≡ₚ l.
Proof.
  intros Hc. assert (Hkey : (map_to_list it) ≡ₚ (λ tx, (Tx.Nonce tx, tx)) <$> l).
  - apply NoDup_Permutation; [apply NoDup_map_to_list| |].
    + apply NoDup_fmap_2; [by intros ?? [=]|].
      eapply NoDup_fmap_1, nonce_lt_NoDup, core_sorted, Hc.
    + intros [n tx]. rewrite elem_of_map_to_list, (core_items _ _ _ Hc), list_elem_of_fmap.
      split; [intros [? <-]; by exists tx|]. by intros (? & [= -> ->] & ?).
  - rewrite Hkey, <- list_fmap_compose. clear. induction l as [|x l IH]; cbn; [done|by rewrite IH].
Qed.

Lemma core_range_values `{MapRange} it idx l : core it idx l → range_values it ≡ₚ l.
Proof. intros Hc. rewrite range_values_perm. by eapply core_map_to_list. Qed.

Lemma core_size it idx l : core it idx l → map_len it = len l.
Proof.
  intros Hc. rewrite <- (@map_len_range canonical_range). by apply len_perm, (core_range_values _ idx).
Qed.

Lemma core_nonces it idx l : core it idx l → (map_to_list it).*1 ≡ₚ Tx.Nonce <$> l.
Proof.
  intros Hc. apply NoDup_Permutation; [apply NoDup_fst_map_to_list|eapply nonce_lt_NoDup, core_sorted, Hc|].
  intros n. rewrite !list_elem_of_fmap. split.
  - intros ([k tx] & -> & Hk%elem_of_map_to_list). apply (core_items _ _ _ Hc) in Hk as [? <-]. by exists tx.
  - intros (tx & -> & Htx). exists (Tx.Nonce tx, tx). split; [done|].
    by apply elem_of_map_to_list, (core_items _ _ _ Hc).
Qed.

(** The least nonce is at the head of the heap. *)
Lemma core_head it idx tx l : core it idx (tx :: l) → ∃ idx', idx = Tx.Nonce tx :: idx'.
Proof.
  intros Hc. pose proof (core_index _ _ _ Hc) as Hp. destruct idx as [|n idx].
  { apply Permutation_nil_l in Hp. done. }
  exists idx. f_equal.
  assert (Hle : nonce_less (Tx.Nonce tx) n = false).
  { eapply heap_least; [apply _|apply (core_heap _ _ _ Hc)|done|]. rewrite Hp. by left. }
  unfold nonce_less, less_by in Hle. apply Z.ltb_ge in Hle. cbn in Hle.
  assert (Hn : n ∈ Tx.Nonce <$> tx :: l) by (rewrite <- Hp; by left).
  apply list_elem_of_fmap in Hn as (y & -> & Hy). apply elem_of_cons in Hy as [->|Hy]; [done|].
  pose proof (core_sorted _ _ _ Hc) as Hs. inversion Hs as [|? ? _ Hall]; subst.
  rewrite Forall_forall in Hall. specialize (Hall y Hy). unfold nonce_lt in Hall. lia.
Qed.

Lemma core_empty it idx : core it idx [] → idx = [] ∧ it = ∅.
Proof.
  intros Hc. split; [by apply Permutation_nil_r, (core_index _ _ _ Hc)|].
  apply map_empty. intros n. destruct (it !! n) eqn:E; [|done].
  apply (core_items _ _ _ Hc) in E as [E _]. by apply elem_of_nil in E.
Qed.

Lemma core_index_length it idx l : core it idx l → length idx = length l.
Proof. intros Hc. rewrite (Permutation_length (core_index _ _ _ Hc)). apply length_fmap. Qed.

Lemma core_tail_items it idx tx l n x :
  core it idx (tx :: l) → delete (Tx.Nonce tx) it !! n = Some x ↔ x ∈ l ∧ Tx.Nonce x = n.
Proof.
  intros Hc. rewrite lookup_delete_Some, (core_items _ _ _ Hc), elem_of_cons.
  pose proof (nonce_lt_NoDup _ (core_sorted _ _ _ Hc)) as Hnd. cbn in Hnd.
  apply NoDup_cons in Hnd as [Hnin _]. split; [naive_solver|].
  intros [Hx <-]. split_and!; [|by right|done]. intros Heq. apply Hnin. rewrite Heq.
  by apply list_elem_of_fmap_2.
Qed.

Lemma pop_core it idx tx l :
  core it idx (tx :: l) →
  ∃ idx', Pop nonce_less idx = Some (Tx.Nonce tx, idx') ∧ it !! Tx.Nonce tx = Some tx ∧
    core (delete (Tx.Nonce tx) it) idx' l.
Proof.
  intros Hc. destruct (core_head _ _ _ _ Hc) as [rest Hidx].
  destruct (Pop_spec nonce_less idx (Tx.Nonce tx)) as (l0 & idx' & Hl0 & Hpop & Hp & Hh);
    [apply (core_heap _ _ _ Hc)|by rewrite Hidx|].
  exists idx'. split_and!; [done|by eapply core_lookup; [|left]|].
  split; [|intros; by eapply core_tail_items|done|].
  - pose proof (core_sorted _ _ _ Hc) as Hs. by inversion Hs.
  - pose proof (core_index _ _ _ Hc) as Hi. rewrite Hl0 in Hi. rewrite Hp.
    by apply Permutation_cons_inv in Hi.
Qed.

(** ** The methods *)

Lemma NewSortedMap_repr : repr NewSortedMap [].
Proof. split; [apply core_nil|by left]. Qed.

Lemma Get_spec m l tx n : repr m l → Get m n = Some tx ↔ tx ∈ l ∧ Tx.Nonce tx = n.
Proof. intros [Hc _]. apply (core_items _ _ _ Hc). Qed.

Lemma put_nonce_perm tx l :
  StronglySorted nonce_lt l → Tx.Nonce tx ∉ (Tx.Nonce <$> l) → put_nonce tx l ≡ₚ tx :: l.
Proof.
  induction 1 as [|y l Hs IH Hall]; cbn; intros Hnin; [done|]. apply not_elem_of_cons in Hnin as [Hne Hnin].
  destruct (Z.ltb_spec (Tx.Nonce y) (Tx.Nonce tx)).
  - rewrite IH by done. apply Permutation_swap.
  - by destruct (Z.eqb_spec (Tx.Nonce y) (Tx.Nonce tx)).
Qed.

Lemma put_nonce_replaces tx l :
  StronglySorted nonce_lt l → Tx.Nonce tx ∈ (Tx.Nonce <$> l) → Tx.Nonce <$> put_nonce tx l = Tx.Nonce <$> l.
Proof.
  induction 1 as [|y l Hs IH Hall]; cbn; intros Hin; [by apply elem_of_nil in Hin|].
  apply elem_of_cons in Hin. rewrite Forall_forall in Hall. unfold nonce_lt in Hall.
  destruct (Z.ltb_spec (Tx.Nonce y) (Tx.Nonce tx)).
  - cbn. f_equal. apply IH. destruct Hin; [lia|done].
  - destruct (Z.eqb_spec (Tx.Nonce y) (Tx.Nonce tx)) as [->|]; [done|].
    destruct Hin as [|(z & Hz & Hzl)%list_elem_of_fmap]; [lia|]. specialize (Hall z Hzl). lia.
Qed.

Lemma Put_repr m l tx : repr m l → repr (Put m tx) (put_nonce tx l).
Proof.
  intros [Hc _]. pose proof (core_sorted _ _ _ Hc) as Hs. split; [|by left]. unfold Put. cbn.
  split; [by apply put_nonce_sorted| | |].
  - intros n x. rewrite lookup_insert_Some, (core_items _ _ _ Hc), put_nonce_elem by done. naive_solver.
  - case_match; [apply (core_heap _ _ _ Hc)|]. apply (Push_spec nonce_less _ _ (core_heap _ _ _ Hc)).
  - destruct (items m !! Tx.Nonce tx) as [old|] eqn:E.
    + apply (core_items _ _ _ Hc) in E as [Hold Heq]. rewrite put_nonce_replaces; [apply (core_index _ _ _ Hc)|done|].
      rewrite <- Heq. by apply list_elem_of_fmap_2.
    + destruct (Push_spec nonce_less (index m) (Tx.Nonce tx) (core_heap _ _ _ Hc)) as [_ ->].
      rewrite put_nonce_perm; [cbn; by rewrite (core_index _ _ _ Hc)|done|].
      rewrite list_elem_of_fmap. intros (x & Hx & Hxl).
      assert (items m !! Tx.Nonce tx = Some x) by (by apply (core_items _ _ _ Hc)). congruence.
Qed.

(** Below a threshold is a prefix, above it the rest. *)
Lemma filter_below_prefix (th : Z) l :
  StronglySorted nonce_lt l →
  l = List.filter (λ tx, Tx.Nonce tx <? th) l ++ List.filter (λ tx, negb (Tx.Nonce tx <? th)) l.
Proof.
  induction 1 as [|x l Hs IH Hall]; cbn; [done|].
  destruct (Z.ltb_spec (Tx.Nonce x) th); cbn; [by f_equal|].
  assert (List.filter (λ tx, Tx.Nonce tx <? th) l = []) as Hnil.
  { apply elem_of_nil_inv. intros y [Hy Hlt%Z.ltb_lt]%elem_of_list_filter.
    rewrite Forall_forall in Hall. specialize (Hall y Hy). unfold nonce_lt in Hall. lia. }
  rewrite Hnil in *. cbn in *. by f_equal.
Qed.

Lemma forward_loop_spec fuel m l th removed :
  (length l ≤ fuel)%nat → core (items m) (index m) l →
  ∃ m', forward_loop fuel m th removed =
      Some (removed ++ List.filter (λ tx, Tx.Nonce tx <? th) l, m') ∧
    core (items m') (index m') (List.filter (λ tx, negb (Tx.Nonce tx <? th)) l) ∧ cache m' = cache m.
Proof.
  revert m l removed. induction fuel as [|fuel IH]; intros m l removed Hf Hc.
  - destruct l; [|cbn in Hf; lia]. exists m. cbn. by rewrite app_nil_r.
  - destruct l as [|tx l].
    { destruct (core_empty _ _ Hc) as [Hi _]. exists m. cbn [forward_loop]. rewrite Hi in Hc |- *. cbn.
      by rewrite app_nil_r. }
    destruct (core_head _ _ _ _ Hc) as [rest Hidx]. cbn [forward_loop]. destruct (index m) as [|? ?] eqn:Hi; simplify_eq. rewrite <- Hi in *. cbn [List.filter].
    destruct (Z.ltb_spec (Tx.Nonce tx) th) as [Hlt|Hge]; cbn [negb].
    + destruct (pop_core _ _ _ _ Hc) as (idx' & Hpop & Hit & Hc').
      unfold pop_item. rewrite Hpop. cbn. rewrite Hit. cbn.
      destruct (IH (MkSortedMap (delete (Tx.Nonce tx) (items m)) idx' (cache m)) l (removed ++ [tx]))
        as (m' & -> & ? & ?); [cbn in Hf; lia|done|].
      exists m'. by rewrite <- app_assoc.
    + exists m. pose proof (core_sorted _ _ _ Hc) as Hs.
      pose proof (filter_below_prefix th (tx :: l) Hs) as Hsplit. cbn in Hsplit.
      destruct (Z.ltb_spec (Tx.Nonce tx) th); [lia|]. cbn in Hsplit.
      destruct (List.filter (λ tx, Tx.Nonce tx <? th) l) as [|y ys] eqn:Hy.
      * rewrite app_nil_r. split; [done|]. cbn in Hsplit. by rewrite <- Hsplit.
      * exfalso. assert (y ∈ List.filter (λ tx, Tx.Nonce tx <? th) l) as Hin by (rewrite Hy; by left).
        apply elem_of_list_filter in Hin as [Hin Hlt%Z.ltb_lt]. inversion Hs as [|? ? _ Hall]; subst.
        rewrite Forall_forall in Hall. specialize (Hall y Hin). unfold nonce_lt in Hall. lia.
Qed.

Lemma slice_from_app {A} (l k : list A) : slice_from (l ++ k) (len l) = Some k.
Proof.
  unfold slice_from, len. rewrite length_app, Nat2Z.id, drop_app_length.
  destruct (Z.leb_spec 0 (Z.of_nat (length l))), (Z.leb_spec (Z.of_nat (length l)) (Z.of_nat (length l + length k)));
    cbn; [done|lia..].
Qed.

Lemma Forward_spec m l th :
  repr m l →
  ∃ m', Forward m th = Some (List.filter (λ tx, Tx.Nonce tx <? th) l, m') ∧
    repr m' (List.filter (λ tx, negb (Tx.Nonce tx <? th)) l).
Proof.
  intros [Hc Hcache]. unfold Forward.
  destruct (forward_loop_spec (length (index m)) m l th []) as (m' & -> & Hc' & Hca);
    [by rewrite (core_index_length _ _ _ Hc)|done|]. cbn.
  rewrite <- Hca in Hcache. destruct Hcache as [Hm| Hm]; rewrite Hm.
  - exists m'. split; [done|]. split; [done|]. by left.
  - pose proof (slice_from_app (List.filter (λ tx, Tx.Nonce tx <? th) l)
      (List.filter (λ tx, negb (Tx.Nonce tx <? th)) l)) as Hslice.
    rewrite <- filter_below_prefix in Hslice by apply (core_sorted _ _ _ Hc).
    rewrite Hslice. cbn. eexists. split; [done|]. split; [done|]. by right.
Qed.

(** ** Removal by a predicate *)

Lemma fold_delete_lookup {A} (hits : list (Z * A)) (it : gmap Z A) n x :
  fold_left (λ it e, delete e.1 it) hits it !! n = Some x ↔ it !! n = Some x ∧ n ∉ hits.*1.
Proof.
  revert it. induction hits as [|[k y] hits IH]; intros it; cbn; [rewrite elem_of_nil; tauto|].
  rewrite IH, lookup_delete_Some, not_elem_of_cons. naive_solver.
Qed.

Lemma list_filter_perm {A} (f : A → bool) l k : l ≡ₚ k → List.filter f l ≡ₚ List.filter f k.
Proof.
  induction 1 as [|x l k _ IH|x y l|l1 l2 l3 _ IH1 _ IH2]; cbn; [done| | |by rewrite IH1].
  - by destruct (f x); rewrite IH.
  - destruct (f x), (f y); try done. apply Permutation_swap.
Qed.

Section Ranges.
Context `{MapRange}.

Lemma hits_elem (it : gmap Z Transaction) (f : Transaction → bool) n tx :
  (n, tx) ∈ List.filter (λ e, f e.2) (map_range it) ↔ it !! n = Some tx ∧ f tx = true.
Proof. by rewrite list_elem_of_In, List.filter_In, <- list_elem_of_In, map_range_elem. Qed.

(** What [filter] leaves: the map without the transactions that satisfy [f];
    the heap is not touched. *)
Lemma filter_items m l idx (f : Transaction → bool) :
  core (items m) idx l →
  (filter_ m f).1 ≡ₚ List.filter f l ∧
  (∀ n tx, items (filter_ m f).2 !! n = Some tx ↔ tx ∈ List.filter (negb ∘ f) l ∧ Tx.Nonce tx = n) ∧
  index (filter_ m f).2 = index m ∧
  cache (filter_ m f).2 = (if 0 <? len (filter_ m f).1 then None else cache m).
Proof.
  intros Hc. unfold filter_. cbn. split_and!; [| |done|done].
  - transitivity (List.filter f (range_values (items m))).
    + unfold range_values. induction (map_range (items m)) as [|[n tx] es IH]; cbn; [done|].
      destruct (f tx); cbn; by rewrite IH.
    + by apply list_filter_perm, (core_range_values _ idx).
  - intros n tx. rewrite fold_delete_lookup, elem_of_list_filter. cbn. split.
    + intros [Hit Hn]. pose proof (proj1 (core_items _ _ _ Hc n tx) Hit) as [Hin Heq].
      split; [|done]. split; [done|]. destruct (f tx) eqn:E; [|done]. exfalso. apply Hn.
      apply list_elem_of_fmap. exists (n, tx). split; [done|]. by apply hits_elem.
    + intros [[Hin Hf] <-]. pose proof (core_lookup _ _ _ _ Hc Hin) as Hit. split; [done|].
      intros ([k y] & Hk & [Hy Hfy]%hits_elem)%list_elem_of_fmap. cbn in Hk. simplify_eq.
      by rewrite Hfy in Hf.
Qed.

Lemma reheap_repr m l :
  StronglySorted nonce_lt l →
  (∀ n tx, items m !! n = Some tx ↔ tx ∈ l ∧ Tx.Nonce tx = n) → repr (reheap m) l.
Proof.
  intros Hs Hit. assert (Hc0 : core (items m) (Tx.Nonce <$> l) l).
  { split; [done|done| |done]. apply sorted_is_heap. apply (StronglySorted_fmap _ nonce_lt); [|done].
    intros x y. unfold nonce_lt, not_after, nonce_less, less_by. rewrite Z.ltb_ge. cbn. lia. }
  split; [|by left]. unfold reheap. cbn. split; [done|done|apply (Init_spec nonce_less)|].
  destruct (Init_spec nonce_less (map_range (items m)).*1) as [_ ->].
  rewrite map_range_perm. by eapply core_nonces.
Qed.

Lemma Filter_spec m l (f : Transaction → bool) :
  repr m l →
  (Filter m f).1 ≡ₚ List.filter f l ∧ repr (Filter m f).2 (List.filter (negb ∘ f) l).
Proof.
  intros [Hc Hcache]. pose proof (filter_items m l _ f Hc) as (Hp & Hit & Hidx & Hca).
  pose proof (core_sorted _ _ _ Hc) as Hs. unfold Filter.
  destruct (filter_ m f) as [removed m']. cbn in Hp, Hit, Hidx, Hca |- *. split; [done|].
  destruct (Z.ltb_spec 0 (len removed)) as [Hlen|Hlen].
  - by apply reheap_repr; [apply nonce_lt_filter|].
  - assert (removed = []) as -> by (apply len_zero_iff; pose proof (len_nonneg removed); lia).
    assert (List.filter (negb ∘ f) l = l) as Hall.
    { symmetry in Hp. apply Permutation_nil_r in Hp. clear -Hp. induction l as [|x l IH]; cbn in *; [done|].
      destruct (f x); cbn; [done|]. f_equal. by apply IH. }
    rewrite Hall in *. split; [|by rewrite Hca]. rewrite Hidx.
    split; [done|done|apply (core_heap _ _ _ Hc)|apply (core_index _ _ _ Hc)].
Qed.
End Ranges.

(** ** [Cap] *)

Lemma nonce_index_unique (s1 s2 : list Z) :
  StronglySorted (not_after nonce_less) s1 → StronglySorted (not_after nonce_less) s2 → s1 ≡ₚ s2 → s1 = s2.
Proof.
  intros H1 H2 Hp. apply (sorted_perm_unique nonce_less); try done.
  intros x y _ _. unfold nonce_less, less_by. rewrite !Z.ltb_ge. cbn. lia.
Qed.

Lemma nonces_sorted l :
  StronglySorted nonce_lt l → StronglySorted (not_after nonce_less) (Tx.Nonce <$> l).
Proof.
  apply (StronglySorted_fmap _ nonce_lt). intros x y. unfold nonce_lt, not_after, nonce_less, less_by.
  rewrite Z.ltb_ge. cbn. lia.
Qed.

(** The loop of [Cap] with the heap sorted: it takes the last transactions. *)
Lemma cap_loop_spec n m l k drops :
  length l = n → StronglySorted nonce_lt (k ++ l) → index m = Tx.Nonce <$> (k ++ l) →
  (∀ x tx, items m !! x = Some tx ↔ tx ∈ k ++ l ∧ Tx.Nonce tx = x) →
  ∀ rest, index m `prefix_of` rest →
  ∃ m', cap_loop n (MkSortedMap (items m) rest (cache m)) (len (k ++ l)) drops = Some (drops ++ rev l, m') ∧
    (∀ x tx, items m' !! x = Some tx ↔ tx ∈ k ∧ Tx.Nonce tx = x) ∧ index m' = rest ∧ cache m' = cache m.
Proof.
  revert m l drops. induction n as [|n IH]; intros m l drops Hn Hs Hidx Hit rest Hrest.
  - destruct l; [|done]. rewrite !app_nil_r in *. by eexists.
  - destruct (exists_last (l:=l)) as (l0 & tx & ->); [by intros ->|].
    rewrite length_app in Hn. cbn in Hn. cbn [cap_loop].
    assert (Hlen : len (k ++ l0 ++ [tx]) - 1 = len (k ++ l0)).
    { rewrite (app_assoc k l0), (len_app (k ++ l0)), (len_cons tx), len_nil. lia. }
    rewrite Hlen. pose proof (len_nonneg (k ++ l0)) as Hnn.
    destruct (Z.ltb_spec (len (k ++ l0)) 0); [lia|]. cbn [items index cache].
    rewrite to_nat_len.
    assert (Hlook : rest !! length (k ++ l0) = Some (Tx.Nonce tx)).
    { eapply prefix_lookup_Some; [|exact Hrest]. rewrite Hidx, (app_assoc k l0), list_lookup_fmap, list_lookup_middle; done. }
    rewrite Hlook. cbn.
    assert (Htx : items m !! Tx.Nonce tx = Some tx) by (apply Hit; set_solver).
    rewrite Htx. cbn.
    rewrite (app_assoc k l0) in Hs.
    destruct (IH (MkSortedMap (delete (Tx.Nonce tx) (items m)) (Tx.Nonce <$> (k ++ l0)) (cache m)) l0 (drops ++ [tx]))
      with (rest := rest) as (m' & Hloop & ? & ? & ?); cbn [items index cache]; [lia|by eapply StronglySorted_app_1_l|done| | |].
    + intros x y. rewrite lookup_delete_Some, Hit, (app_assoc k l0), (elem_of_app (k ++ l0)), list_elem_of_singleton.
      pose proof (nonce_lt_NoDup _ Hs) as Hnd. rewrite fmap_app in Hnd. apply NoDup_app in Hnd as (_ & Hdis & _).
      split; [naive_solver|]. intros [Hy <-]. split_and!; [|by left|done].
      intros Heq. apply (Hdis (Tx.Nonce y)); [by apply list_elem_of_fmap_2|]. rewrite <- Heq. by left.
    + etrans; [|exact Hrest]. rewrite Hidx, (app_assoc k l0), (fmap_app _ (k ++ l0)). by apply prefix_app_r.
    + cbn [items index cache] in Hloop. rewrite Hloop. exists m'. by rewrite rev_app_distr, <- app_assoc.
Qed.

Lemma slice_to_app {A} (l k : list A) n : n = len l → slice_to (l ++ k) n = Some l.
Proof.
  intros ->. unfold slice_to, len. rewrite length_app, Nat2Z.id, take_app_length.
  destruct (Z.leb_spec 0 (Z.of_nat (length l))), (Z.leb_spec (Z.of_nat (length l)) (Z.of_nat (length l + length k)));
    cbn; [done|lia..].
Qed.

Lemma Cap_spec `{Sorter} m l th :
  repr m l → 0 <= th →
  ∃ m', Cap m th = Some (rev (drop (Z.to_nat th) l), m') ∧ repr m' (take (Z.to_nat th) l).
Proof.
  intros [Hc Hcache] Hth. unfold Cap. rewrite (core_size _ _ _ Hc).
  destruct (Z.leb_spec (len l) th) as [Hle|Hgt].
  { exists m. unfold len in Hle. rewrite drop_ge, take_ge by lia. done. }
  unfold len in Hgt. assert (Hk : len (take (Z.to_nat th) l) = th) by (unfold len; rewrite length_take; lia).
  pose proof (take_drop (Z.to_nat th) l) as Hkd. revert Hk Hkd.
  generalize (take (Z.to_nat th) l) as k, (drop (Z.to_nat th) l) as d. intros k d Hk <-.
  assert (Hidx : sort_Slice nonce_less (index m) = Tx.Nonce <$> k ++ d).
  { apply nonce_index_unique; [apply sort_Slice_sorted, _| |].
    - apply nonces_sorted, (core_sorted _ _ _ Hc).
    - rewrite sort_Slice_perm. apply (core_index _ _ _ Hc). }
  cbn [items index cache]. rewrite Hidx.
  assert (Hd : length d = Z.to_nat (len (k ++ d) - th)) by (rewrite len_app; unfold len in *; lia).
  rewrite (core_size _ _ _ Hc), <- Hd.
  destruct (cap_loop_spec (length d) (MkSortedMap (items m) (Tx.Nonce <$> k ++ d) (cache m)) d k [])
    with (rest := Tx.Nonce <$> k ++ d) as (m' & Hloop & Hit & Hidx' & Hca);
    [done|apply (core_sorted _ _ _ Hc)|done|apply (core_items _ _ _ Hc)|done|].
  cbn [items index cache] in Hloop. rewrite Hloop. cbn.
  rewrite Hidx', fmap_app, slice_to_app by (unfold len in *; rewrite length_fmap; done). cbn.
  assert (Hcore : core (items m') (Tx.Nonce <$> k) k).
  { pose proof (StronglySorted_app_1_l _ _ _ (core_sorted _ _ _ Hc)) as Hs.
    split; [done|done|by apply sorted_is_heap, nonces_sorted|done]. }
  rewrite Hca. cbn. destruct Hcache as [->| ->].
  - eexists. split; [done|]. split; [done|]. by left.
  - rewrite slice_to_app by (rewrite len_rev, !len_app; lia).
    cbn. eexists. split; [done|]. split; [done|]. by right.
Qed.

(** ** [Remove], [Ready] and the sorted slice *)

Lemma without_nonce_perm tx l :
  StronglySorted nonce_lt l → tx ∈ l →
  l ≡ₚ tx :: List.filter (λ x, negb (Tx.Nonce x =? Tx.Nonce tx)) l.
Proof.
  intros Hs Htx. apply NoDup_Permutation.
  - eapply NoDup_fmap_1, nonce_lt_NoDup, Hs.
  - constructor.
    + rewrite elem_of_list_filter, Z.eqb_refl. by intros [_ ?].
    + eapply NoDup_fmap_1, nonce_lt_NoDup, nonce_lt_filter, Hs.
  - intros x. rewrite elem_of_cons, elem_of_list_filter.
    destruct (Z.eqb_spec (Tx.Nonce x) (Tx.Nonce tx)) as [Heq|Hne]; cbn.
    + split; [intros Hx; left; by eapply nonce_inj|]. by intros [->|[_ ?]].
    + split; [auto|]. by intros [->|[? _]].
Qed.

Lemma map_Remove_spec m l n :
  repr m l →
  ∃ m', Remove m n = Some (bool_decide (n ∈ Tx.Nonce <$> l), m') ∧
    repr m' (List.filter (λ tx, negb (Tx.Nonce tx =? n)) l).
Proof.
  intros [Hc Hcache]. unfold Remove. destruct (items m !! n) as [tx|] eqn:Hn.
  - apply (core_items _ _ _ Hc) in Hn as [Htx <-].
    pose proof (list_elem_of_fmap_2 Tx.Nonce l tx Htx) as Hin. rewrite bool_decide_eq_true_2 by done.
    assert (Hidx : Tx.Nonce tx ∈ index m) by (by rewrite (core_index _ _ _ Hc)).
    destruct (list_find_elem_of (λ x, x = Tx.Nonce tx) (index m) _ Hidx eq_refl) as [[i y] Hi].
    rewrite Hi. apply list_find_Some in Hi as (Hi & -> & _).
    destruct (heap_Remove_spec nonce_less (index m) i (Tx.Nonce tx)) as (idx' & -> & Hp & Hh);
      [apply (core_heap _ _ _ Hc)|done|].
    cbn. eexists. split; [done|]. split; [|by left]. cbn.
    pose proof (core_sorted _ _ _ Hc) as Hs. split; [by apply nonce_lt_filter| |done|].
    + intros k x. rewrite lookup_delete_Some, (core_items _ _ _ Hc), elem_of_list_filter.
      destruct (Z.eqb_spec (Tx.Nonce x) (Tx.Nonce tx)); cbn; naive_solver.
    + apply (Permutation_cons_inv (a:=Tx.Nonce tx)). rewrite <- Hp, (core_index _ _ _ Hc).
      by rewrite (without_nonce_perm tx l Hs Htx) at 1.
  - assert (Hnin : ∀ tx, tx ∈ l → Tx.Nonce tx ≠ n).
    { intros tx Htx <-. by rewrite (core_lookup _ _ _ _ Hc Htx) in Hn. }
    exists m. rewrite bool_decide_eq_false_2 by (rewrite list_elem_of_fmap; naive_solver).
    split; [done|]. assert (List.filter (λ tx, negb (Tx.Nonce tx =? n)) l = l) as ->; [|done].
    clear -Hnin. induction l as [|x l IH]; cbn; [done|].
    destruct (Z.eqb_spec (Tx.Nonce x) n) as [Heq|]; cbn; [by destruct (Hnin x (list_elem_of_here x l))|].
    f_equal. apply IH. intros y Hy. apply Hnin. by right.
Qed.

Lemma ready_loop_spec fuel m l z ready :
  (length l ≤ fuel)%nat → core (items m) (index m) l →
  (∀ tx, tx ∈ l → is_uint64 (Tx.Nonce tx) ∧ z <= Tx.Nonce tx) → 0 <= z →
  ∃ m', ready_loop fuel m (wrap64 z) ready = Some (ready ++ take (consecutive z l) l, m') ∧
    core (items m') (index m') (drop (consecutive z l) l) ∧ cache m' = cache m.
Proof.
  revert m l z ready. induction fuel as [|fuel IH]; intros m l z ready Hf Hc Hz Hz0.
  - destruct l; [|cbn in Hf; lia]. exists m. cbn. by rewrite app_nil_r.
  - destruct l as [|tx l].
    { destruct (core_empty _ _ Hc) as [Hi _]. exists m. cbn [ready_loop]. rewrite Hi in Hc |- *. cbn.
      by rewrite app_nil_r. }
    destruct (Hz tx (list_elem_of_here _ _)) as [Hu Hle]. pose proof (core_sorted _ _ _ Hc) as Hs.
    inversion Hs as [|? ? _ Hall]; subst. rewrite Forall_forall in Hall.
    destruct (core_head _ _ _ _ Hc) as [rest Hidx]. cbn [ready_loop].
    destruct (index m) as [|? ?] eqn:Hi; simplify_eq. rewrite <- Hi in *.
    rewrite (wrap64_id z) by ulia. cbn [consecutive].
    destruct (Z.eqb_spec (Tx.Nonce tx) z) as [<-|Hne].
    + destruct (pop_core _ _ _ _ Hc) as (idx' & Hpop & Hit & Hc'). rewrite Hit. cbn. rewrite Hpop. cbn.
      destruct (IH (MkSortedMap (delete (Tx.Nonce tx) (items m)) idx' (cache m)) l (Tx.Nonce tx + 1) (ready ++ [tx]))
        as (m' & -> & ? & ?); [cbn in Hf; lia|done| |lia|].
      { intros y Hy. split; [apply Hz; by right|]. specialize (Hall y Hy). unfold nonce_lt in Hall. lia. }
      exists m'. by rewrite <- app_assoc.
    + exists m. cbn. by rewrite app_nil_r.
Qed.

Lemma map_Ready_spec m l start :
  repr m l → (∀ tx, tx ∈ l → is_uint64 (Tx.Nonce tx)) →
  ∃ m', Ready m start = Some (take (ready_count start l) l, m') ∧ repr m' (drop (ready_count start l) l).
Proof.
  intros [Hc Hcache] Hu. unfold Ready. destruct l as [|tx l].
  { destruct (core_empty _ _ Hc) as [Hi _]. exists m. by rewrite Hi. }
  destruct (core_head _ _ _ _ Hc) as [rest Hidx]. destruct (index m) as [|? ?] eqn:Hi; simplify_eq.
  rewrite <- Hi in *. cbn [ready_count]. rewrite Z.gtb_ltb.
  destruct (Z.ltb_spec start (Tx.Nonce tx)); [by exists m|].
  pose proof (Hu tx (list_elem_of_here _ _)) as Htx.
  destruct (ready_loop_spec (length (index m)) m (tx :: l) (Tx.Nonce tx) []) as (m' & Hloop & Hc' & _);
    [by rewrite (core_index_length _ _ _ Hc)|done| |ulia|].
  { intros y Hy. split; [by apply Hu|]. pose proof (core_sorted _ _ _ Hc) as Hs.
    inversion Hs as [|? ? _ Hall]; subst. rewrite Forall_forall in Hall.
    apply elem_of_cons in Hy as [->|Hy]; [done|]. specialize (Hall y Hy). unfold nonce_lt in Hall. lia. }
  rewrite wrap64_id in Hloop by done. rewrite Hloop. eexists. split; [done|]. split; [done|]. by left.
Qed.

Section Views.
Context `{MapRange, Sorter}.

Lemma flatten_spec m l : repr m l → (flatten m).1 = l ∧ repr (flatten m).2 l.
Proof.
  intros [Hc Hcache]. unfold flatten. destruct Hcache as [Hn|Hn]; rewrite Hn.
  - assert (sort_Slice (less_by Tx.Nonce) (range_values (items m)) = l) as Heq.
    { apply (sorted_perm_unique (less_by Tx.Nonce)).
      - intros x y. rewrite !sort_Slice_elem, (core_range_values _ _ _ Hc). unfold less_by.
        rewrite !Z.ltb_ge. intros Hx Hy ? ?. eapply nonce_inj; [apply (core_sorted _ _ _ Hc)|done..|lia].
      - apply sort_Slice_sorted, _.
      - eapply StronglySorted_weaken; [|apply (core_sorted _ _ _ Hc)].
        intros x y. unfold nonce_lt, not_after, less_by. rewrite Z.ltb_ge. lia.
      - rewrite sort_Slice_perm. by eapply core_range_values. }
    cbn. rewrite Heq. split; [done|]. split; [done|by right].
  - split; [done|]. split; [done|by right].
Qed.

Lemma LastElement_spec m l tx :
  repr m l → last l = Some tx → ∃ m', LastElement m = Some (tx, m') ∧ repr m' l.
Proof.
  intros Hr Hl. unfold LastElement. destruct (flatten_spec m l Hr) as [Hf Hr'].
  destruct (flatten m) as [c m']. cbn in *. subst c. rewrite Hl. by exists m'.
Qed.
End Views.

Lemma Len_spec m l : repr m l → Len m = len l.
Proof. intros [Hc _]. by eapply core_size. Qed.

(** ** Refinement *)

(** A call of a method. *)
Inductive op : Type :=
  | OPut (tx : Transaction)
  | OForward (threshold : Z)
  | OFilter (filter : Transaction → bool)
  | OCap (threshold : Z)
  | ORemove (nonce : Z)
  | OReady (start : Z)
  | OFlatten.

(** The nonces are 64-bit, and a limit is not negative. *)
Definition op_ok (o : op) : Prop :=
  match o with
  | OPut tx => is_uint64 (Tx.Nonce tx)
  | OCap threshold => 0 <= threshold
  | _ => True
  end.

(** A call on the map: the transactions it returns, and the map after it. *)
Definition step `{MapRange, Sorter} (m : SortedMap) (o : op) : option (list Transaction * SortedMap) :=
  match o with
  | OPut tx => Some ([], Put m tx)
  | OForward threshold => Forward m threshold
  | OFilter f => Some (Filter m f)
  | OCap threshold => Cap m threshold
  | ORemove nonce => '(_, m) ← Remove m nonce; Some ([], m)
  | OReady start => Ready m start
  | OFlatten => Some (Flatten m)
  end.

(** The same call on a slice in nonce order. *)
Definition spec_step (l : list Transaction) (o : op) : list Transaction * list Transaction :=
  match o with
  | OPut tx => ([], put_nonce tx l)
  | OForward threshold =>
      (List.filter (λ tx, Tx.Nonce tx <? threshold) l,
       List.filter (λ tx, negb (Tx.Nonce tx <? threshold)) l)
  | OFilter f => (List.filter f l, List.filter (negb ∘ f) l)
  | OCap threshold => (rev (drop (Z.to_nat threshold) l), take (Z.to_nat threshold) l)
  | ORemove nonce => ([], List.filter (λ tx, negb (Tx.Nonce tx =? nonce)) l)
  | OReady start => (take (ready_count start l) l, drop (ready_count start l) l)
  | OFlatten => (l, l)
  end.

(** [Filter] returns its transactions in the order of the iteration. *)
Definition same_output (o : op) (out out' : list Transaction) : Prop :=
  match o with
  | OFilter _ => out ≡ₚ out'
  | _ => out = out'
  end.

Fixpoint run `{MapRange, Sorter} (m : SortedMap) (os : list op)
    : option (list (op * list Transaction) * SortedMap) :=
  match os with
  | [] => Some ([], m)
  | o :: os => '(out, m) ← step m o; '(outs, m) ← run m os; Some ((o, out) :: outs, m)
  end.

Fixpoint spec_run (l : list Transaction) (os : list op) : list (op * list Transaction) * list Transaction :=
  match os with
  | [] => ([], l)
  | o :: os =>
      let '(out, l) := spec_step l o in
      let '(outs, l) := spec_run l os in ((o, out) :: outs, l)
  end.

Definition nonces_ok (l : list Transaction) : Prop := ∀ tx, tx ∈ l → is_uint64 (Tx.Nonce tx).

Lemma spec_step_nonces l o :
  StronglySorted nonce_lt l → nonces_ok l → op_ok o → nonces_ok (spec_step l o).2.
Proof.
  intros Hs Hl Ho. destruct o; cbn; try done; intros x Hx.
  - apply put_nonce_elem in Hx as [->|[? _]]; [done|by apply Hl|done].
  - apply elem_of_list_filter in Hx as [? _]. by apply Hl.
  - apply elem_of_list_filter in Hx as [? _]. by apply Hl.
  - by eapply Hl, elem_of_take_inv.
  - apply elem_of_list_filter in Hx as [? _]. by apply Hl.
  - by eapply Hl, elem_of_drop_inv.
Qed.

Section Refinement.
Context `{MapRange, Sorter}.

Lemma step_refines m l o :
  repr m l → nonces_ok l → op_ok o →
  ∃ out m', step m o = Some (out, m') ∧ same_output o out (spec_step l o).1 ∧ repr m' (spec_step l o).2.
Proof.
  intros Hr Hl Ho. destruct o; cbn [step spec_step same_output fst snd].
  - eexists _, _. split_and!; [done..|by apply Put_repr].
  - destruct (Forward_spec m l threshold Hr) as (m' & -> & ?). by eexists _, _.
  - destruct (Filter_spec m l filter Hr). destruct (Filter m filter). by eexists _, _.
  - destruct (Cap_spec m l threshold Hr Ho) as (m' & -> & ?). by eexists _, _.
  - destruct (map_Remove_spec m l nonce Hr) as (m' & -> & ?). by eexists _, _.
  - destruct (map_Ready_spec m l start Hr Hl) as (m' & -> & ?). by eexists _, _.
  - destruct (flatten_spec m l Hr). unfold Flatten. destruct (flatten m). by eexists _, _.
Qed.

Lemma run_refines_from os m l :
  repr m l → nonces_ok l → Forall op_ok os →
  ∃ outs m', run m os = Some (outs, m') ∧
    Forall2 (λ r r', r.1 = r'.1 ∧ same_output r.1 r.2 r'.2) outs (spec_run l os).1 ∧
    repr m' (spec_run l os).2.
Proof.
  revert m l. induction os as [|o os IH]; intros m l Hr Hl Hos.
  - by exists [], m.
  - inversion Hos; subst. destruct (step_refines m l o) as (out & m1 & Hstep & Hout & Hr1); [done..|].
    cbn [run spec_run]. rewrite Hstep. cbn.
    pose proof (spec_step_nonces l o ltac:(apply Hr) Hl ltac:(done)) as Hl1.
    destruct (spec_step l o) as [out' l1]. cbn in *.
    destruct (IH m1 l1) as (outs & m2 & Hrun & Houts & Hr2); [done..|]. rewrite Hrun.
    destruct (spec_run l1 os) as [outs' l2]. cbn in *. eexists _, _. split; [done|].
    split; [by constructor|done].
Qed.
End Refinement.

(** The map with its heap and its cache is a slice in nonce order: any
    sequence of calls on a new map panics nowhere and returns what the same
    calls return on the slice, whatever the heap looks like, whether or not the
    sorted slice is cached, and for any iteration order and sorting algorithm. *)
Theorem sorted_map_refines (R : MapRange) (SO : Sorter) os :
  Forall op_ok os →
  ∃ outs m', run NewSortedMap os = Some (outs, m') ∧
    Forall2 (λ r r', r.1 = r'.1 ∧ same_output r.1 r.2 r'.2) outs (spec_run [] os).1 ∧
    repr m' (spec_run [] os).2.
Proof.
  intros Hos. apply run_refines_from; [apply NewSortedMap_repr| |done].
  intros tx Htx. by apply elem_of_nil in Htx.
Qed.

Definition ex_map_tx (hash nonce price : Z) : Transaction :=
  MkTx (TLegacy (LegacyTx.mk nonce price 21000 (Some 7) 0 [] 0 0 0)) hash 0 0.

(** Five transactions, out of order, one of them replaced; a limit; the
    cached slice; the consecutive ones from nonce 3. *)
Definition ex_map_ops : list op :=
  [OPut (ex_map_tx 1 7 1); OPut (ex_map_tx 2 3 1); OPut (ex_map_tx 3 9 1); OPut (ex_map_tx 4 4 1);
   OPut (ex_map_tx 5 3 8); OCap 3; OFlatten; OReady 3].

Lemma sorted_map_refines_witness :
  Forall op_ok ex_map_ops ∧
  fst <$> run NewSortedMap ex_map_ops = Some (spec_run [] ex_map_ops).1 ∧
  (spec_run [] ex_map_ops).2 = [ex_map_tx 1 7 1] ∧
  ∃ outs m', run NewSortedMap ex_map_ops = Some (outs, m') ∧
    Forall2 (λ r r', r.1 = r'.1 ∧ same_output r.1 r.2 r'.2) outs (spec_run [] ex_map_ops).1 ∧
    repr m' (spec_run [] ex_map_ops).2.
Proof.
  assert (Forall op_ok ex_map_ops) as Hok.
  { unfold ex_map_ops. repeat constructor; unfold is_uint64, two64; cbn; lia. }
  split; [exact Hok|]. split; [vm_compute; reflexivity|]. split; [vm_compute; reflexivity|].
  exact (sorted_map_refines canonical_range insertion_sorter ex_map_ops Hok).
Defined.
End SortedMap.
