(* ===== verification/LegacyList.v ===== *)
(** * The transaction list of an account in the legacy pool

    parallelizable-client-go-ethereum/core/txpool/legacypool/list.go, second
    part: [list], a [SortedMap] with the highest cost and gas seen and the total
    cost, for the executable transactions of an account ([strict]) and for the
    queued ones; and noncer.go, the nonces the pool expects next.  [None] is a
    panic: [subTotalCost] panics when the total would go below zero. *)

From S2P Require Import Prelude GoSort GoHeap TxTypes SortedMap.

(** [uint256.FromBig]: the low 256 bits, and whether the number has more. *)
Definition FromBig (z : Z) : Z * bool := (wrap256 z, BitLen z >? 256).

(** [uint256.MustFromBig] panics instead. *)
Definition MustFromBig (z : Z) : option Z := let '(v, o) := FromBig z in if o then None else Some v.

(** [int64(x)] of a [uint64]. *)
Definition to_int64 (x : Z) : Z := if x <? 2 ^ 63 then x else x - two64.

Record list_ : Type := MkList {
  strict : bool;
  txs : SortedMap;
  costcap : Z;
  gascap : Z;
  totalcost : Z
}.

Definition newList (strict : bool) : list_ := MkList strict NewSortedMap 0 0 0.

Definition set_txs (l : list_) (m : SortedMap) : list_ :=
  MkList (strict l) m (costcap l) (gascap l) (totalcost l).
Definition set_totalcost (l : list_) (z : Z) : list_ :=
  MkList (strict l) (txs l) (costcap l) (gascap l) z.
Definition set_caps (l : list_) (cost gas : Z) : list_ :=
  MkList (strict l) (txs l) cost gas (totalcost l).

Module LegacyList.
Definition Contains (l : list_) (nonce : Z) : bool := bool_decide (is_Some (SortedMap.Get (txs l) nonce)).

Fixpoint subTotalCost (l : list_) (ts : list Transaction) : option list_ :=
  match ts with
  | [] => Some l
  | tx :: ts =>
      cost ← MustFromBig (Tx.Cost tx);
      if totalcost l <? cost then None
      else subTotalCost (set_totalcost l (totalcost l - cost)) ts
  end.

(** The price a replacement must reach: [old * (100 + priceBump) / 100]. *)
Definition bumped (old priceBump : Z) : Z := (100 + to_int64 priceBump) * old / 100.

(** The tests on an older transaction of the same nonce. *)
Definition outbids (old tx : Transaction) (priceBump : Z) : bool :=
  negb ((0 <=? Tx.GasFeeCapCmp old tx) || (0 <=? Tx.GasTipCapCmp old tx)) &&
  negb ((Tx.GasFeeCapIntCmp tx (bumped (Tx.GasFeeCap old) priceBump) <? 0) ||
        (Tx.GasTipCapIntCmp tx (bumped (Tx.GasTipCap old) priceBump) <? 0)).

Definition Add (l : list_) (tx : Transaction) (priceBump : Z)
    : option (bool * option Transaction * list_) :=
  let old := SortedMap.Get (txs l) (Tx.Nonce tx) in
  let insert l :=
    let '(cost, overflow) := FromBig (Tx.Cost tx) in
    if overflow : bool then Some (false, None, l)
    else
      let l := set_totalcost l (wrap256 (totalcost l + cost)) in
      let l := set_txs l (SortedMap.Put (txs l) tx) in
      let l := if Cmp (costcap l) cost <? 0 then set_caps l cost (gascap l) else l in
      let l := if gascap l <? Tx.Gas tx then set_caps l (costcap l) (Tx.Gas tx) else l in
      Some (true, old, l) in
  match old with
  | Some o =>
      if outbids o tx priceBump then l ← subTotalCost l [o]; insert l
      else Some (false, None, l)
  | None => insert l
  end.

Definition Forward (l : list_) (threshold : Z) : option (list Transaction * list_) :=
  '(ts, m) ← SortedMap.Forward (txs l) threshold;
  l ← subTotalCost (set_txs l m) ts;
  Some (ts, l).

(** The least nonce of the removed transactions. *)
Definition lowest_nonce (removed : list Transaction) : Z :=
  fold_left (λ lowest tx, if Tx.Nonce tx <? lowest then Tx.Nonce tx else lowest) removed max_uint64.

Definition unpayable (costLimit gasLimit : Z) (tx : Transaction) : bool :=
  (Tx.Gas tx >? gasLimit) || (Cmp (Tx.Cost tx) costLimit >? 0).

Definition Filter `{MapRange} (l : list_) (costLimit gasLimit : Z)
    : option (list Transaction * list Transaction * list_) :=
  if (Cmp (costcap l) costLimit <=? 0) && (gascap l <=? gasLimit) then Some ([], [], l)
  else
    let l := set_caps l costLimit gasLimit in
    let '(removed, m) := SortedMap.Filter (txs l) (unpayable costLimit gasLimit) in
    let l := set_txs l m in
    if len removed =? 0 then Some ([], [], l)
    else
      let '(invalids, m) :=
        if strict l then
          let lowest := lowest_nonce removed in
          SortedMap.filter_ (txs l) (λ tx, Tx.Nonce tx >? lowest)
        else ([], txs l) in
      let l := set_txs l m in
      l ← subTotalCost l removed;
      l ← subTotalCost l invalids;
      Some (removed, invalids, set_txs l (SortedMap.reheap (txs l))).

Definition Cap `{Sorter} (l : list_) (threshold : Z) : option (list Transaction * list_) :=
  '(ts, m) ← SortedMap.Cap (txs l) threshold;
  l ← subTotalCost (set_txs l m) ts;
  Some (ts, l).

Definition Remove `{MapRange} (l : list_) (tx : Transaction)
    : option (bool * list Transaction * list_) :=
  let nonce := Tx.Nonce tx in
  '(removed, m) ← SortedMap.Remove (txs l) nonce;
  let l := set_txs l m in
  if negb removed then Some (false, [], l)
  else
    l ← subTotalCost l [tx];
    if strict l then
      let '(ts, m) := SortedMap.Filter (txs l) (λ tx, Tx.Nonce tx >? nonce) in
      l ← subTotalCost (set_txs l m) ts;
      Some (true, ts, l)
    else Some (true, [], l).

Definition Ready (l : list_) (start : Z) : option (list Transaction * list_) :=
  '(ts, m) ← SortedMap.Ready (txs l) start;
  l ← subTotalCost (set_txs l m) ts;
  Some (ts, l).

Definition Len (l : list_) : Z := SortedMap.Len (txs l).

Definition Empty (l : list_) : bool := Len l =? 0.

Definition Flatten `{MapRange, Sorter} (l : list_) : list Transaction * list_ :=
  let '(ts, m) := SortedMap.Flatten (txs l) in (ts, set_txs l m).

Definition LastElement `{MapRange, Sorter} (l : list_) : option (Transaction * list_) :=
  '(tx, m) ← SortedMap.LastElement (txs l); Some (tx, set_txs l m).
End LegacyList.

(** ** The next nonces *)

(** [noncer]: [fallback] is [GetNonce] of the copy of the state. *)
Record noncer : Type := MkNoncer {
  fallback : Address → Z;
  nonces : gmap Address Z
}.

Module Noncer.
Definition newNoncer (statedb : Address → Z) : noncer := MkNoncer statedb ∅.

(** [txn.nonces[addr]] of an absent key is 0. *)
Definition at_ (txn : noncer) (addr : Address) : Z :=
  match nonces txn !! addr with Some n => n | None => 0 end.

Definition set (txn : noncer) (addr : Address) (nonce : Z) : noncer :=
  MkNoncer (fallback txn) (<[addr := nonce]> (nonces txn)).

(** Read an unknown nonce from the state, and remember it unless it is 0. *)
Definition load (txn : noncer) (addr : Address) : noncer :=
  match nonces txn !! addr with
  | Some _ => txn
  | None =>
      let nonce := fallback txn addr in
      if negb (nonce =? 0) then set txn addr nonce else txn
  end.

Definition get (txn : noncer) (addr : Address) : Z * noncer :=
  let txn := load txn addr in (at_ txn addr, txn).

Definition setIfLower (txn : noncer) (addr : Address) (nonce : Z) : noncer :=
  let txn := load txn addr in
  if at_ txn addr <=? nonce then txn else set txn addr nonce.

Definition setAll (txn : noncer) (all : gmap Address Z) : noncer := MkNoncer (fallback txn) all.
End Noncer.

(** ** The accounts of a list *)

Module ListLaws.
Import LegacyList.

Fixpoint total (ts : list Transaction) : Z :=
  match ts with [] => 0 | tx :: ts => Tx.Cost tx + total ts end.

(** The list holds [ts], its total is their cost, and its caps bound them. *)
Record lrepr (l : list_) (ts : list Transaction) : Prop := {
  lrepr_txs : SortedMap.repr (txs l) ts;
  lrepr_nonces : SortedMap.nonces_ok ts;
  lrepr_costs tx : tx ∈ ts → 0 <= Tx.Cost tx;
  lrepr_total : totalcost l = total ts;
  lrepr_bound : total ts < two256;
  lrepr_caps tx : tx ∈ ts → Tx.Cost tx <= costcap l ∧ Tx.Gas tx <= gascap l
}.

Lemma total_app ts us : total (ts ++ us) = total ts + total us.
Proof. induction ts as [|x ts IH]; cbn; lia. Qed.

Lemma total_perm ts us : ts ≡ₚ us → total ts = total us.
Proof. induction 1; cbn; lia. Qed.

Lemma total_nonneg ts : (∀ tx, tx ∈ ts → 0 <= Tx.Cost tx) → 0 <= total ts.
Proof.
  induction ts as [|x ts IH]; intros H; cbn; [lia|].
  pose proof (H x (list_elem_of_here _ _)).
  assert (0 <= total ts) by (apply IH; intros; apply H; by right). lia.
Qed.

Lemma filter_split_perm {A} (f : A → bool) l : l ≡ₚ List.filter f l ++ List.filter (negb ∘ f) l.
Proof.
  induction l as [|x l IH]; cbn; [done|]. destruct (f x); cbn; [by f_equiv|].
  rewrite <- Permutation_middle. by f_equiv.
Qed.

Lemma FromBig_ok z : 0 <= z < two256 → FromBig z = (z, false).
Proof.
  intros Hz. unfold FromBig. rewrite wrap256_id by done. f_equal.
  rewrite Z.gtb_ltb. apply Z.ltb_ge. apply BitLen_le; [lia..|]. exact (proj2 Hz).
Qed.

Lemma MustFromBig_ok z : 0 <= z < two256 → MustFromBig z = Some z.
Proof. intros Hz. unfold MustFromBig. by rewrite FromBig_ok. Qed.

Lemma set_totalcost_twice l a b : set_totalcost (set_totalcost l a) b = set_totalcost l b.
Proof. done. Qed.

Lemma subTotalCost_spec l ts rest :
  (∀ tx, tx ∈ ts → 0 <= Tx.Cost tx) → 0 <= rest → totalcost l = total ts + rest → totalcost l < two256 →
  subTotalCost l ts = Some (set_totalcost l rest).
Proof.
  revert l. induction ts as [|tx ts IH]; intros l Hts Hrest Htot Hlt; cbn [subTotalCost].
  - cbn in Htot. destruct l; cbn in *. by subst.
  - pose proof (Hts tx (list_elem_of_here _ _)). cbn in Htot.
    assert (0 <= total ts) by (apply total_nonneg; intros; apply Hts; by right).
    rewrite MustFromBig_ok by lia. cbn. destruct (Z.ltb_spec (totalcost l) (Tx.Cost tx)); [lia|].
    rewrite IH; [done|by intros; apply Hts; right|done|cbn; lia|cbn; lia].
Qed.

(** What is left of a list when [gone] is taken out. *)
Lemma rest_lrepr l ts gone rest s m cost gas :
  lrepr l ts → ts ≡ₚ gone ++ rest → SortedMap.repr m rest →
  (∀ tx, tx ∈ rest → Tx.Cost tx <= cost ∧ Tx.Gas tx <= gas) →
  lrepr (MkList s m cost gas (total rest)) rest.
Proof.
  intros Hl Hp Hm Hcaps.
  assert (Hsub : ∀ tx, tx ∈ rest → tx ∈ ts) by (intros; rewrite Hp, elem_of_app; by right).
  pose proof (total_perm _ _ Hp) as Htot. rewrite total_app in Htot.
  assert (0 <= total gone).
  { apply total_nonneg. intros. apply (lrepr_costs _ _ Hl). rewrite Hp, elem_of_app. by left. }
  pose proof (lrepr_bound _ _ Hl).
  split; cbn; [done| | |done|lia|done]; intros tx Htx.
  - by apply (lrepr_nonces _ _ Hl), Hsub.
  - by apply (lrepr_costs _ _ Hl), Hsub.
Qed.

Lemma subTotalCost_app l ts us :
  subTotalCost l (ts ++ us) = (l ← subTotalCost l ts; subTotalCost l us).
Proof.
  revert l. induction ts as [|tx ts IH]; intros l; cbn [app subTotalCost]; [done|].
  destruct (MustFromBig (Tx.Cost tx)); cbn; [|done]. case_match; [done|]. apply IH.
Qed.

Lemma sub_gone l l0 ts gone rest :
  lrepr l ts → ts ≡ₚ gone ++ rest → totalcost l0 = totalcost l →
  subTotalCost l0 gone = Some (set_totalcost l0 (total rest)).
Proof.
  intros Hl Hp Heq. pose proof (total_perm _ _ Hp) as Htot. rewrite total_app in Htot.
  pose proof (lrepr_bound _ _ Hl). pose proof (lrepr_total _ _ Hl).
  apply subTotalCost_spec; [|apply total_nonneg|lia|lia]; intros tx Htx;
    apply (lrepr_costs _ _ Hl); rewrite Hp, elem_of_app; auto.
Qed.

(** Taking [gone] out of a list leaves the rest accounted for. *)
Lemma sub_lrepr l m ts gone rest :
  lrepr l ts → ts ≡ₚ gone ++ rest → SortedMap.repr m rest →
  ∃ l', subTotalCost (set_txs l m) gone = Some l' ∧ strict l' = strict l ∧ lrepr l' rest.
Proof.
  intros Hl Hp Hm. eexists. split; [by eapply (sub_gone l)|]. split; [done|].
  eapply rest_lrepr; [done..|]. intros tx Htx. apply (lrepr_caps _ _ Hl).
  rewrite Hp, elem_of_app. by right.
Qed.

Lemma newList_lrepr s : lrepr (newList s) [].
Proof.
  split; cbn; try done; [apply SortedMap.NewSortedMap_repr|..]; intros tx Htx; by apply elem_of_nil in Htx.
Qed.

Lemma Forward_ok l ts th :
  lrepr l ts →
  ∃ l', Forward l th = Some (List.filter (λ tx, Tx.Nonce tx <? th) ts, l') ∧
    lrepr l' (List.filter (λ tx, negb (Tx.Nonce tx <? th)) ts).
Proof.
  intros Hl. unfold Forward.
  destruct (SortedMap.Forward_spec (txs l) ts th (lrepr_txs _ _ Hl)) as (m & -> & Hm). cbn.
  destruct (sub_lrepr l m ts _ _ Hl (filter_split_perm (λ tx, Tx.Nonce tx <? th) ts) Hm) as (l' & -> & _ & Hl').
  by exists l'.
Qed.

Lemma Cap_ok `{Sorter} l ts th :
  lrepr l ts → 0 <= th →
  ∃ l', Cap l th = Some (rev (drop (Z.to_nat th) ts), l') ∧ lrepr l' (take (Z.to_nat th) ts).
Proof.
  intros Hl Hth. unfold Cap.
  destruct (SortedMap.Cap_spec (txs l) ts th (lrepr_txs _ _ Hl) Hth) as (m & -> & Hm). cbn.
  assert (Hp : ts ≡ₚ rev (drop (Z.to_nat th) ts) ++ take (Z.to_nat th) ts).
  { rewrite <- Permutation_rev, Permutation_app_comm. by rewrite take_drop. }
  destruct (sub_lrepr l m ts _ _ Hl Hp Hm) as (l' & -> & _ & Hl').
  by exists l'.
Qed.

Lemma Ready_ok l ts start :
  lrepr l ts →
  let k := SortedMap.ready_count start ts in
  ∃ l', Ready l start = Some (take k ts, l') ∧ lrepr l' (drop k ts).
Proof.
  intros Hl k. subst k. unfold Ready. set (k := SortedMap.ready_count start ts).
  destruct (SortedMap.map_Ready_spec (txs l) ts start (lrepr_txs _ _ Hl) (lrepr_nonces _ _ Hl)) as (m & HR & Hm). fold k in HR, Hm. rewrite HR.
  assert (Hp : ts ≡ₚ take k ts ++ drop k ts) by by rewrite take_drop.
  cbn. destruct (sub_lrepr l m ts _ _ Hl Hp Hm) as (l' & -> & _ & Hl').
  by exists l'.
Qed.

(** ** Insertion *)

Lemma put_nonce_split tx ts :
  StronglySorted SortedMap.nonce_lt ts →
  SortedMap.put_nonce tx ts ≡ₚ tx :: List.filter (λ x, negb (Tx.Nonce x =? Tx.Nonce tx)) ts.
Proof.
  intros Hs. pose proof (SortedMap.put_nonce_sorted tx ts Hs) as Hs'.
  rewrite (SortedMap.without_nonce_perm tx _ Hs') by (apply SortedMap.put_nonce_elem; auto).
  f_equiv. apply NoDup_Permutation.
  - eapply NoDup_fmap_1, SortedMap.nonce_lt_NoDup, SortedMap.nonce_lt_filter, Hs'.
  - eapply NoDup_fmap_1, SortedMap.nonce_lt_NoDup, SortedMap.nonce_lt_filter, Hs.
  - intros x. rewrite !SortedMap.elem_of_list_filter, SortedMap.put_nonce_elem by done.
    destruct (Z.eqb_spec (Tx.Nonce x) (Tx.Nonce tx)); cbn; naive_solver.
Qed.

Lemma total_without tx ts :
  StronglySorted SortedMap.nonce_lt ts → tx ∈ ts →
  total ts = Tx.Cost tx + total (List.filter (λ x, negb (Tx.Nonce x =? Tx.Nonce tx)) ts).
Proof. intros Hs Htx. by rewrite (total_perm _ _ (SortedMap.without_nonce_perm tx ts Hs Htx)). Qed.

Lemma total_put tx ts :
  StronglySorted SortedMap.nonce_lt ts →
  total (SortedMap.put_nonce tx ts) =
    Tx.Cost tx + total (List.filter (λ x, negb (Tx.Nonce x =? Tx.Nonce tx)) ts).
Proof. intros Hs. by rewrite (total_perm _ _ (put_nonce_split tx ts Hs)). Qed.

(** The last part of [Add], from a total that no longer counts the old
    transaction. *)
Lemma insert_lrepr l0 l ts tx :
  lrepr l0 ts → txs l = txs l0 → costcap l = costcap l0 → gascap l = gascap l0 →
  is_uint64 (Tx.Nonce tx) → 0 <= Tx.Cost tx →
  totalcost l = total (List.filter (λ x, negb (Tx.Nonce x =? Tx.Nonce tx)) ts) →
  total (SortedMap.put_nonce tx ts) < two256 →
  let l := set_txs (set_totalcost l (wrap256 (totalcost l + Tx.Cost tx))) (SortedMap.Put (txs l) tx) in
  let l := if Cmp (costcap l) (Tx.Cost tx) <? 0 then set_caps l (Tx.Cost tx) (gascap l) else l in
  let l := if gascap l <? Tx.Gas tx then set_caps l (costcap l) (Tx.Gas tx) else l in
  lrepr l (SortedMap.put_nonce tx ts).
Proof.
  intros Hl Htxs Hcc Hgc Hu Hcost Htot Hb.
  pose proof (SortedMap.core_sorted _ _ _ (proj1 (lrepr_txs _ _ Hl))) as Hs.
  cbv zeta. rewrite Cmp_ltb. cbn [costcap gascap set_txs set_totalcost].
  assert (Hold : 0 <= total (List.filter (λ x, negb (Tx.Nonce x =? Tx.Nonce tx)) ts)).
  { apply total_nonneg. intros x [Hx _]%SortedMap.elem_of_list_filter. by apply (lrepr_costs _ _ Hl). }
  pose proof (total_put tx ts Hs) as Hput.
  assert (Hin : ∀ x, x ∈ SortedMap.put_nonce tx ts → x = tx ∨ x ∈ ts).
  { intros x Hx. apply SortedMap.put_nonce_elem in Hx; naive_solver. }
  pose proof (lrepr_caps _ _ Hl) as Hcaps.
  destruct (Z.ltb_spec (costcap l) (Tx.Cost tx)); cbn [gascap set_caps set_txs set_totalcost];
    destruct (Z.ltb_spec (gascap l) (Tx.Gas tx));
    (split; cbn; [rewrite Htxs; by apply SortedMap.Put_repr, Hl
      |intros x [->|Hx]%Hin; [done|by apply (lrepr_nonces _ _ Hl)]
      |intros x [->|Hx]%Hin; [done|by apply (lrepr_costs _ _ Hl)]
      |rewrite wrap256_id by ulia; lia
      |done
      |intros x [->|Hx]%Hin; [lia|specialize (Hcaps x Hx); lia]]).
Qed.

Lemma outbids_spec old tx priceBump :
  0 <= priceBump < 2 ^ 63 →
  outbids old tx priceBump = true ↔
    (Tx.GasFeeCap old < Tx.GasFeeCap tx ∧ Tx.GasTipCap old < Tx.GasTipCap tx) ∧
    ((100 + priceBump) * Tx.GasFeeCap old / 100 <= Tx.GasFeeCap tx ∧
     (100 + priceBump) * Tx.GasTipCap old / 100 <= Tx.GasTipCap tx).
Proof.
  intros Hp. unfold outbids, bumped, to_int64. destruct (Z.ltb_spec priceBump (2 ^ 63)); [|lia].
  unfold Tx.GasFeeCapCmp, Tx.GasTipCapCmp, Tx.GasFeeCapIntCmp, Tx.GasTipCapIntCmp.
  fold (Tx.GasFeeCap old) (Tx.GasFeeCap tx) (Tx.GasTipCap old) (Tx.GasTipCap tx).
  rewrite !Cmp_geb, !Cmp_ltb, andb_true_iff, !negb_true_iff, !orb_false_iff, !Z.leb_gt, !Z.ltb_ge. done.
Qed.

Lemma Get_old l ts tx o :
  lrepr l ts → SortedMap.Get (txs l) (Tx.Nonce tx) = Some o → o ∈ ts ∧ Tx.Nonce o = Tx.Nonce tx.
Proof. intros Hl Ho. exact (proj1 (SortedMap.Get_spec _ ts o _ (lrepr_txs _ _ Hl)) Ho). Qed.

(** Subtracting the old transaction of the nonce. *)
Lemma sub_old l ts tx o :
  lrepr l ts → o ∈ ts → Tx.Nonce o = Tx.Nonce tx →
  subTotalCost l [o] =
    Some (set_totalcost l (total (List.filter (λ x, negb (Tx.Nonce x =? Tx.Nonce tx)) ts))).
Proof.
  intros Hl Ho Heq. pose proof (SortedMap.core_sorted _ _ _ (proj1 (lrepr_txs _ _ Hl))) as Hs.
  pose proof (total_without o ts Hs Ho) as Htot. rewrite Heq in Htot.
  pose proof (lrepr_total _ _ Hl). pose proof (lrepr_bound _ _ Hl).
  apply subTotalCost_spec; [|apply total_nonneg|cbn; lia|lia].
  - intros x ->%list_elem_of_singleton. by apply (lrepr_costs _ _ Hl).
  - intros x [Hx _]%SortedMap.elem_of_list_filter. by apply (lrepr_costs _ _ Hl).
Qed.

Lemma without_absent l ts n :
  lrepr l ts → SortedMap.Get (txs l) n = None →
  List.filter (λ x, negb (Tx.Nonce x =? n)) ts = ts.
Proof.
  intros Hl Hn. assert (Hall : ∀ x, x ∈ ts → Tx.Nonce x ≠ n).
  { intros x Hx <-. destruct (SortedMap.Get_spec (txs l) ts x (Tx.Nonce x) (lrepr_txs _ _ Hl)) as [_ H].
    rewrite H in Hn; done. }
  clear -Hall. induction ts as [|x ts IH]; cbn; [done|].
  destruct (Z.eqb_spec (Tx.Nonce x) n) as [Heq|]; cbn; [by destruct (Hall x (list_elem_of_here _ _))|].
  f_equal. apply IH. intros y Hy. apply Hall. by right.
Qed.

(** Offering a transaction to a list.  For a taken nonce it is refused,
    and nothing changes, unless it raises the fee cap and the tip cap, both
    strictly and both to the percentage the pool asks for; otherwise it takes
    its place in the nonce order, the transaction it replaces is returned, and
    the total cost and the caps are those of the new contents. *)
Theorem list_Add_spec l ts tx priceBump :
  lrepr l ts → is_uint64 (Tx.Nonce tx) → 0 <= Tx.Cost tx → 0 <= priceBump < 2 ^ 63 →
  total (SortedMap.put_nonce tx ts) < two256 →
  let old := SortedMap.Get (txs l) (Tx.Nonce tx) in
  let refused o :=
    Tx.GasFeeCap tx <= Tx.GasFeeCap o ∨ Tx.GasTipCap tx <= Tx.GasTipCap o ∨
    Tx.GasFeeCap tx < (100 + priceBump) * Tx.GasFeeCap o / 100 ∨
    Tx.GasTipCap tx < (100 + priceBump) * Tx.GasTipCap o / 100 in
  (∃ o, old = Some o ∧ refused o ∧ Add l tx priceBump = Some (false, None, l)) ∨
  ((∀ o, old = Some o → ¬ refused o) ∧
   ∃ l', Add l tx priceBump = Some (true, old, l') ∧ lrepr l' (SortedMap.put_nonce tx ts)).
Proof.
  intros Hl Hu Hcost Hbump Hb old refused.
  assert (Hput : Tx.Cost tx < two256).
  { rewrite total_put in Hb by apply (lrepr_txs _ _ Hl).
    enough (0 <= total (List.filter (λ x, negb (Tx.Nonce x =? Tx.Nonce tx)) ts)) by lia.
    apply total_nonneg. intros x [Hx _]%SortedMap.elem_of_list_filter. by apply (lrepr_costs _ _ Hl). }
  unfold Add. rewrite (FromBig_ok (Tx.Cost tx)) by lia. fold old. destruct old as [o|] eqn:Ho.
  - destruct (Get_old l ts tx o Hl Ho) as [Hin Heq].
    destruct (outbids o tx priceBump) eqn:Hout.
    + right. pose proof (proj1 (outbids_spec o tx priceBump Hbump) Hout) as Hspec.
      split; [intros ? [= <-]; unfold refused; lia|].
      rewrite (sub_old l ts tx o Hl Hin Heq). cbn [mbind option_bind].
      eexists. split; [done|]. set (l1 := set_totalcost l _) at 1. by apply (insert_lrepr l l1).
    + left. exists o. split_and!; [done| |done]. unfold refused.
      assert (Hn : outbids o tx priceBump ≠ true) by congruence.
      rewrite outbids_spec in Hn by done. lia.
  - right. split; [done|]. eexists. split; [done|].
    apply (insert_lrepr l l); try done. rewrite (without_absent l ts) by done. apply (lrepr_total _ _ Hl).
Qed.

(** ** Filtering *)

(** How many transactions stand before the first unpayable one. *)
Fixpoint payable_prefix (costLimit gasLimit : Z) (ts : list Transaction) : nat :=
  match ts with
  | tx :: ts => if unpayable costLimit gasLimit tx then O else S (payable_prefix costLimit gasLimit ts)
  | [] => O
  end.

(** What a filtered list keeps: in strict mode nothing after a gap. *)
Definition kept (strict : bool) (costLimit gasLimit : Z) (ts : list Transaction) : list Transaction :=
  if strict then take (payable_prefix costLimit gasLimit ts) ts
  else List.filter (λ tx, negb (unpayable costLimit gasLimit tx)) ts.

Lemma lowest_nonce_acc removed n :
  let lowest := fold_left (λ lowest tx, if Tx.Nonce tx <? lowest then Tx.Nonce tx else lowest) removed n in
  lowest <= n ∧ (∀ tx, tx ∈ removed → lowest <= Tx.Nonce tx) ∧
  (lowest = n ∨ ∃ tx, tx ∈ removed ∧ lowest = Tx.Nonce tx).
Proof.
  revert n. induction removed as [|x removed IH]; intros n; cbn.
  - split_and!; [lia|intros ? Hin; by apply elem_of_nil in Hin|by left].
  - specialize (IH (if Tx.Nonce x <? n then Tx.Nonce x else n)). cbn in IH.
    destruct IH as (H1 & H2 & H3). revert H1 H2 H3. set (lowest := fold_left _ _ _). intros.
    destruct (Z.ltb_spec (Tx.Nonce x) n) as [Hlt|Hge];
      (split_and!; [lia|intros y [->|Hy]%elem_of_cons; [lia|by apply H2]|]);
      destruct H3 as [->|(y & Hy & ->)]; auto;
      right; [exists x; by split; [left|]|exists y; by split; [right|]..].
Qed.

(** In nonce order the first unpayable transaction has the least nonce of the
    unpayable ones, and the rest has greater nonces. *)
Lemma unpayable_split costLimit gasLimit ts removed :
  StronglySorted SortedMap.nonce_lt ts → SortedMap.nonces_ok ts →
  removed ≡ₚ List.filter (unpayable costLimit gasLimit) ts → removed ≠ [] →
  let lowest := lowest_nonce removed in
  let left := List.filter (negb ∘ unpayable costLimit gasLimit) ts in
  List.filter (negb ∘ (λ tx, Tx.Nonce tx >? lowest)) left =
    take (payable_prefix costLimit gasLimit ts) ts.
Proof.
  intros Hs Hu Hp Hne lowest left.
  destruct (lowest_nonce_acc removed max_uint64) as (_ & Hle & Hex). fold (lowest_nonce removed) in Hle, Hex.
  fold lowest in Hle, Hex.
  assert (Hlow : ∃ tx, tx ∈ ts ∧ unpayable costLimit gasLimit tx = true ∧ lowest = Tx.Nonce tx).
  { assert (Hin : ∀ x, x ∈ removed → x ∈ ts ∧ unpayable costLimit gasLimit x = true).
    { intros x. by rewrite Hp, SortedMap.elem_of_list_filter. }
    destruct Hex as [Hmax|(x & Hx & ->)]; [|exists x; naive_solver].
    destruct removed as [|x removed]; [done|]. exists x. destruct (Hin x (list_elem_of_here _ _)) as [Hx ?].
    specialize (Hle x (list_elem_of_here _ _)). specialize (Hu x Hx). split_and!; [done|done|ulia]. }
  assert (Hle' : ∀ tx, tx ∈ ts → unpayable costLimit gasLimit tx = true → lowest <= Tx.Nonce tx).
  { intros tx Htx Hun. apply Hle. rewrite Hp. by apply SortedMap.elem_of_list_filter. }
  subst left. clear -Hs Hlow Hle'. clearbody lowest.
  induction Hs as [|x ts Hs IH Hall]; cbn; [done|]. rewrite Forall_forall in Hall.
  destruct (unpayable costLimit gasLimit x) eqn:Hx; cbn.
  - assert (lowest <= Tx.Nonce x) by (apply Hle'; [by left|done]).
    apply elem_of_nil_inv. intros y [[Hy _]%SortedMap.elem_of_list_filter Hlt]%SortedMap.elem_of_list_filter.
    specialize (Hall y Hy). unfold SortedMap.nonce_lt in Hall. cbn in Hlt.
    rewrite Z.gtb_ltb, negb_true_iff, Z.ltb_ge in Hlt. lia.
  - destruct Hlow as (tx & [->|Htx]%elem_of_cons & Hun & Heq); [congruence|].
    specialize (Hall tx Htx) as Hlt. unfold SortedMap.nonce_lt in Hlt.
    rewrite Z.gtb_ltb. destruct (Z.ltb_spec lowest (Tx.Nonce x)); [lia|]. cbn. f_equal.
    apply IH; [by exists tx|]. intros y Hy Hyu. apply Hle'; [by right|done].
Qed.

Lemma payable_spec costLimit gasLimit tx :
  unpayable costLimit gasLimit tx = false ↔ Tx.Gas tx <= gasLimit ∧ Tx.Cost tx <= costLimit.
Proof.
  unfold unpayable. rewrite !Z.gtb_ltb, Cmp_gtb, orb_false_iff, !Z.ltb_ge. done.
Qed.

Lemma kept_payable s costLimit gasLimit ts tx :
  tx ∈ kept s costLimit gasLimit ts → tx ∈ ts ∧ Tx.Gas tx <= gasLimit ∧ Tx.Cost tx <= costLimit.
Proof.
  unfold kept. rewrite <- payable_spec. destruct s.
  - induction ts as [|x ts IH]; cbn; [by intros ?%elem_of_nil|].
    destruct (unpayable costLimit gasLimit x) eqn:E; cbn; [by intros ?%elem_of_nil|].
    intros [->|H]%elem_of_cons; [split; [by left|done]|]. apply IH in H as [? ?]. split; [by right|done].
  - rewrite SortedMap.elem_of_list_filter, negb_true_iff. done.
Qed.

Lemma kept_all s costLimit gasLimit ts :
  List.filter (unpayable costLimit gasLimit) ts = [] → kept s costLimit gasLimit ts = ts.
Proof.
  unfold kept. induction ts as [|x ts IH]; cbn; [by destruct s|].
  destruct (unpayable costLimit gasLimit x); cbn; [done|]. intros H. specialize (IH H).
  destruct s; by f_equal.
Qed.

Lemma nothing_unpayable l ts costLimit gasLimit cost gas m :
  lrepr l ts → List.filter (unpayable costLimit gasLimit) ts = [] → SortedMap.repr m ts →
  (∀ tx, tx ∈ ts → Tx.Cost tx <= cost ∧ Tx.Gas tx <= gas) →
  ts ≡ₚ ([] ++ []) ++ kept (strict l) costLimit gasLimit ts ∧
  lrepr (MkList (strict l) m cost gas (totalcost l)) (kept (strict l) costLimit gasLimit ts).
Proof.
  intros Hl Hnil Hm Hcaps. rewrite kept_all by done. split; [done|].
  rewrite (lrepr_total _ _ Hl). by eapply (rest_lrepr l ts []).
Qed.

(** The second filter of a strict list, and the rebuilt heap. *)
Lemma drop_gapped `{MapRange} s m ts costLimit gasLimit removed :
  StronglySorted SortedMap.nonce_lt ts → SortedMap.nonces_ok ts →
  removed ≡ₚ List.filter (unpayable costLimit gasLimit) ts → removed ≠ [] →
  SortedMap.repr m (List.filter (negb ∘ unpayable costLimit gasLimit) ts) →
  let im :=
    if s : bool then SortedMap.filter_ m (λ tx, Tx.Nonce tx >? lowest_nonce removed) else ([], m) in
  ts ≡ₚ (removed ++ im.1) ++ kept s costLimit gasLimit ts ∧
  SortedMap.repr (SortedMap.reheap im.2) (kept s costLimit gasLimit ts).
Proof.
  intros Hs Hu Hp Hne [Hc _]. pose proof (filter_split_perm (unpayable costLimit gasLimit) ts) as Hsplit.
  pose proof (SortedMap.core_sorted _ _ _ Hc) as Hs'. destruct s; cbn [kept].
  - pose proof (SortedMap.filter_items m _ _ (λ tx, Tx.Nonce tx >? lowest_nonce removed) Hc) as (Hinv & Hit & _).
    pose proof (filter_split_perm (λ tx, Tx.Nonce tx >? lowest_nonce removed)
      (List.filter (negb ∘ unpayable costLimit gasLimit) ts)) as Hsplit'.
    unfold kept. rewrite <- (unpayable_split costLimit gasLimit ts removed) by done. split.
    + rewrite Hsplit at 1. rewrite Hsplit' at 1. by rewrite Hp, Hinv, <- app_assoc.
    + by apply SortedMap.reheap_repr; [apply SortedMap.nonce_lt_filter|].
  - cbn. split; [by rewrite app_nil_r, Hp|].
    by apply SortedMap.reheap_repr; [|apply (SortedMap.core_items _ _ _ Hc)].
Qed.

Lemma list_Filter_spec_core (R : MapRange) l ts costLimit gasLimit :
  lrepr l ts →
  ∃ removed invalids l', Filter l costLimit gasLimit = Some (removed, invalids, l') ∧
    removed ≡ₚ List.filter (unpayable costLimit gasLimit) ts ∧
    strict l' = strict l ∧
    ts ≡ₚ (removed ++ invalids) ++ kept (strict l) costLimit gasLimit ts ∧
    lrepr l' (kept (strict l) costLimit gasLimit ts).
Proof.
  intros Hl. pose proof (SortedMap.core_sorted _ _ _ (proj1 (lrepr_txs _ _ Hl))) as Hs.
  unfold Filter. destruct (_ && _) eqn:Hcap.
  - apply andb_true_iff in Hcap as [Hc%Z.leb_le Hg%Z.leb_le].
    assert (Hnil : List.filter (unpayable costLimit gasLimit) ts = []).
    { apply elem_of_nil_inv. intros x [Hx Hun]%SortedMap.elem_of_list_filter.
      destruct (lrepr_caps _ _ Hl x Hx). unfold Cmp in Hc.
      assert (unpayable costLimit gasLimit x = false); [|congruence].
      apply payable_spec. destruct (Z.compare_spec (costcap l) costLimit); lia. }
    exists [], [], l. rewrite Hnil. split_and!; [done..| |];
      pose proof (nothing_unpayable l ts costLimit gasLimit _ _ _ Hl Hnil (lrepr_txs _ _ Hl) (lrepr_caps _ _ Hl)) as [? ?];
      by destruct l.
  - destruct (SortedMap.Filter_spec (txs l) ts (unpayable costLimit gasLimit) (lrepr_txs _ _ Hl)) as [Hp Hm].
    cbn [txs set_caps]. destruct (SortedMap.Filter (txs l) _) as [removed m]. cbn in Hp, Hm.
    destruct (Z.eqb_spec (len removed) 0) as [Hz|Hz].
    + apply len_zero_iff in Hz as ->. symmetry in Hp. apply Permutation_nil_r in Hp.
      pose proof (kept_all false costLimit gasLimit ts Hp) as Hall. cbn [kept] in Hall.
      exists [], [], (set_txs (set_caps l costLimit gasLimit) m). rewrite Hp. split_and!; [done..| |];
        apply (nothing_unpayable l ts costLimit gasLimit costLimit gasLimit m Hl Hp);
        [by rewrite <- Hall| |by rewrite <- Hall|]; intros x Hx; rewrite <- Hall in Hx;
        apply (kept_payable false) in Hx; lia.
    + assert (Hne : removed ≠ []) by (intros ->; by apply Hz).
      pose proof (drop_gapped (strict l) m ts costLimit gasLimit removed Hs (lrepr_nonces _ _ Hl) Hp Hne Hm) as Hd.
      cbn [txs strict set_txs set_caps]. cbv zeta in Hd. destruct (if strict l then _ else _) as [invalids m'].
      cbn [fst snd] in Hd. destruct Hd as [Hperm Hm'].
      pose proof (sub_gone l (set_txs (set_txs (set_caps l costLimit gasLimit) m) m') ts _ _ Hl Hperm eq_refl) as Hsub.
      rewrite subTotalCost_app in Hsub.
      destruct (subTotalCost _ removed) as [l1|]; cbn in Hsub |- *; [|done]. rewrite Hsub. cbn.
      exists removed, invalids. eexists. split_and!; [done..|].
      eapply rest_lrepr; [done..|]. intros x Hx. apply kept_payable in Hx. cbn. lia.
Qed.

(** Filtering a list by what the account can pay and by the gas of a block.
    What comes back first is exactly the unpayable transactions; a queued list
    keeps the others, an executable list keeps only those before the first
    unpayable nonce and gives the rest back second.  The test on the cached
    caps never hides an unpayable transaction, and the total follows. *)
Theorem list_Filter_spec (R : MapRange) l ts costLimit gasLimit :
  lrepr l ts →
  ∃ removed invalids l', Filter l costLimit gasLimit = Some (removed, invalids, l') ∧
    removed ≡ₚ List.filter (unpayable costLimit gasLimit) ts ∧
    strict l' = strict l ∧
    ts ≡ₚ (removed ++ invalids) ++ kept (strict l) costLimit gasLimit ts ∧
    lrepr l' (kept (strict l) costLimit gasLimit ts).
Proof. apply (list_Filter_spec_core R l ts costLimit gasLimit). Qed.

(** ** Removal *)

Definition after (n : Z) (ts : list Transaction) : list Transaction := List.filter (λ x, Tx.Nonce x >? n) ts.
Definition before (n : Z) (ts : list Transaction) : list Transaction := List.filter (λ x, Tx.Nonce x <? n) ts.
Definition without (n : Z) (ts : list Transaction) : list Transaction :=
  List.filter (λ x, negb (Tx.Nonce x =? n)) ts.

Lemma filter_filter {A} (f g : A → bool) l :
  List.filter f (List.filter g l) = List.filter (λ x, g x && f x) l.
Proof. induction l as [|x l IH]; cbn; [done|]. destruct (g x); cbn; [destruct (f x)|]; by rewrite ?IH. Qed.

Lemma filter_ext_Z (f g : Transaction → bool) l : (∀ x, f x = g x) → List.filter f l = List.filter g l.
Proof. intros H. induction l as [|x l IH]; cbn; [done|]. by rewrite H, IH. Qed.

Lemma after_without n ts : List.filter (λ x, Tx.Nonce x >? n) (without n ts) = after n ts.
Proof.
  unfold without. rewrite filter_filter. apply filter_ext_Z. intros x. rewrite Z.gtb_ltb.
  destruct (Z.eqb_spec (Tx.Nonce x) n), (Z.ltb_spec n (Tx.Nonce x)); cbn; done || lia.
Qed.

Lemma before_without n ts :
  List.filter (negb ∘ (λ x, Tx.Nonce x >? n)) (without n ts) = before n ts.
Proof.
  unfold without. rewrite filter_filter. apply filter_ext_Z. intros x. cbn. rewrite Z.gtb_ltb.
  destruct (Z.eqb_spec (Tx.Nonce x) n), (Z.ltb_spec n (Tx.Nonce x)), (Z.ltb_spec (Tx.Nonce x) n); cbn; done || lia.
Qed.

Lemma list_Remove_spec_core (R : MapRange) l ts tx :
  lrepr l ts → tx ∈ ts →
  ∃ invalids l', Remove l tx = Some (true, invalids, l') ∧ strict l' = strict l ∧
    invalids ≡ₚ (if strict l then after (Tx.Nonce tx) ts else []) ∧
    lrepr l' (if strict l then before (Tx.Nonce tx) ts else without (Tx.Nonce tx) ts).
Proof.
  intros Hl Htx. pose proof (SortedMap.core_sorted _ _ _ (proj1 (lrepr_txs _ _ Hl))) as Hs.
  unfold Remove. destruct (SortedMap.map_Remove_spec (txs l) ts (Tx.Nonce tx) (lrepr_txs _ _ Hl)) as (m & -> & Hm).
  rewrite bool_decide_eq_true_2 by (by apply list_elem_of_fmap_2). cbn [mbind option_bind negb]. fold (without (Tx.Nonce tx) ts) in Hm.
  assert (Hp : ts ≡ₚ [tx] ++ without (Tx.Nonce tx) ts) by (by apply SortedMap.without_nonce_perm).
  destruct (sub_lrepr l m ts _ _ Hl Hp Hm) as (l1 & Hsub & Hst & Hl1). rewrite Hsub. cbn [mbind option_bind]. rewrite Hst.
  destruct (strict l).
  - destruct (SortedMap.Filter_spec (txs l1) _ (λ x, Tx.Nonce x >? Tx.Nonce tx) (lrepr_txs _ _ Hl1)) as [Hf Hm2].
    destruct (SortedMap.Filter (txs l1) _) as [inv m2]. cbn [fst snd] in Hf, Hm2.
    pose proof (filter_split_perm (λ x, Tx.Nonce x >? Tx.Nonce tx) (without (Tx.Nonce tx) ts)) as Hsplit.
    rewrite <- Hf in Hsplit. destruct (sub_lrepr l1 m2 _ _ _ Hl1 Hsplit Hm2) as (l2 & -> & Hst2 & Hl2).
    cbn. exists inv, l2. rewrite before_without in Hl2. rewrite after_without in Hf.
    split_and!; [done|congruence|done|done].
  - exists [], l1. by rewrite Hst.
Qed.

(** Removing a transaction that a list holds.  A queued list loses it
    alone; an executable list also loses, and returns, everything after it, so
    that no gap is left.  The total cost is that of what stays. *)
Theorem list_Remove_spec (R : MapRange) l ts tx :
  lrepr l ts → tx ∈ ts →
  ∃ invalids l', Remove l tx = Some (true, invalids, l') ∧ strict l' = strict l ∧
    invalids ≡ₚ (if strict l then after (Tx.Nonce tx) ts else []) ∧
    lrepr l' (if strict l then before (Tx.Nonce tx) ts else without (Tx.Nonce tx) ts).
Proof. apply (list_Remove_spec_core R l ts tx). Qed.

Lemma list_Remove_absent `{MapRange} l ts tx :
  lrepr l ts → Tx.Nonce tx ∉ (Tx.Nonce <$> ts) → Remove l tx = Some (false, [], l).
Proof.
  intros Hl Hn. unfold Remove, SortedMap.Remove.
  destruct (items (txs l) !! Tx.Nonce tx) as [o|] eqn:E.
  - exfalso. apply Hn. destruct (proj1 (SortedMap.Get_spec _ ts o _ (lrepr_txs _ _ Hl)) E) as [Ho <-].
    by apply list_elem_of_fmap_2.
  - cbn. by destruct l.
Qed.

(** ** Executable lists have no gaps *)

Definition contiguous (ts : list Transaction) : Prop :=
  ∀ i x y, ts !! i = Some x → ts !! S i = Some y → Tx.Nonce y = Tx.Nonce x + 1.

Lemma contiguous_take k ts : contiguous ts → contiguous (take k ts).
Proof.
  intros H i x y Hx Hy. apply lookup_take_Some in Hx as [Hx _]. apply lookup_take_Some in Hy as [Hy _].
  by eapply H.
Qed.

Lemma contiguous_drop k ts : contiguous ts → contiguous (drop k ts).
Proof.
  intros H i x y. rewrite !lookup_drop. replace (k + S i)%nat with (S (k + i)) by lia. apply H.
Qed.

Lemma contiguous_before n ts :
  StronglySorted SortedMap.nonce_lt ts → contiguous ts → contiguous (before n ts).
Proof.
  intros Hs Hc. pose proof (SortedMap.filter_below_prefix n ts Hs) as Hp. fold (before n ts) in Hp.
  assert (before n ts = take (length (before n ts)) ts) as ->; [|by apply contiguous_take].
  pose proof (take_app_length (before n ts) (List.filter (λ tx, negb (Tx.Nonce tx <? n)) ts)) as Htake.
  by rewrite <- Hp in Htake.
Qed.

Lemma contiguous_from n ts :
  StronglySorted SortedMap.nonce_lt ts → contiguous ts →
  contiguous (List.filter (λ tx, negb (Tx.Nonce tx <? n)) ts).
Proof.
  intros Hs Hc. pose proof (SortedMap.filter_below_prefix n ts Hs) as Hp. fold (before n ts) in Hp.
  assert (List.filter (λ tx, negb (Tx.Nonce tx <? n)) ts = drop (length (before n ts)) ts) as ->;
    [|by apply contiguous_drop].
  pose proof (drop_app_length (before n ts) (List.filter (λ tx, negb (Tx.Nonce tx <? n)) ts)) as Hdrop.
  by rewrite <- Hp in Hdrop.
Qed.

(** An executable list without gaps stays without gaps, whichever way it
    shrinks: by a new account nonce, by what can be paid, by a limit, by the
    removal of a transaction or by taking the ready ones. *)
Theorem executable_list_contiguous (R : MapRange) (SO : Sorter) l ts :
  lrepr l ts → strict l = true → contiguous ts →
  (∀ th, ∃ out l' ts', Forward l th = Some (out, l') ∧ lrepr l' ts' ∧ contiguous ts') ∧
  (∀ costLimit gasLimit, ∃ out l' ts',
     Filter l costLimit gasLimit = Some (out, l') ∧ lrepr l' ts' ∧ contiguous ts') ∧
  (∀ th, 0 <= th → ∃ out l' ts', Cap l th = Some (out, l') ∧ lrepr l' ts' ∧ contiguous ts') ∧
  (∀ tx, tx ∈ ts → ∃ out l' ts', Remove l tx = Some (out, l') ∧ lrepr l' ts' ∧ contiguous ts') ∧
  (∀ start, ∃ out l' ts', Ready l start = Some (out, l') ∧ lrepr l' ts' ∧ contiguous ts').
Proof.
  intros Hl Hst Hc. pose proof (SortedMap.core_sorted _ _ _ (proj1 (lrepr_txs _ _ Hl))) as Hs.
  split_and!.
  - intros th. destruct (Forward_ok l ts th Hl) as (l' & -> & ?).
    eexists _, _, _. split_and!; [done..|by apply contiguous_from].
  - intros c g. destruct (list_Filter_spec_core R l ts c g Hl) as (? & ? & l' & -> & _ & _ & _ & Hl').
    rewrite Hst in Hl'. eexists _, _, _. split_and!; [done..|by apply contiguous_take].
  - intros th Hth. destruct (Cap_ok l ts th Hl Hth) as (l' & -> & ?).
    eexists _, _, _. split_and!; [done..|by apply contiguous_take].
  - intros tx Htx. destruct (list_Remove_spec_core R l ts tx Hl Htx) as (? & l' & -> & _ & _ & Hl').
    rewrite Hst in Hl'. eexists _, _, _. split_and!; [done..|by apply contiguous_before].
  - intros start. destruct (Ready_ok l ts start Hl) as (l' & -> & ?).
    eexists _, _, _. split_and!; [done..|by apply contiguous_drop].
Qed.

(** A replacement whose cost does not fit in 256 bits is refused after the
    cost of the transaction it would replace was subtracted: the list still
    holds that transaction, but its total cost no longer counts it. *)
Theorem overflowing_replacement_forgets l ts tx o priceBump :
  lrepr l ts → SortedMap.Get (txs l) (Tx.Nonce tx) = Some o →
  outbids o tx priceBump = true → BitLen (Tx.Cost tx) > 256 →
  ∃ l', Add l tx priceBump = Some (false, None, l') ∧ txs l' = txs l ∧
    totalcost l' = total ts - Tx.Cost o.
Proof.
  intros Hl Ho Hout Hbig. destruct (Get_old l ts tx o Hl Ho) as [Hin Heq].
  pose proof (SortedMap.core_sorted _ _ _ (proj1 (lrepr_txs _ _ Hl))) as Hs.
  pose proof (total_without o ts Hs Hin) as Htot. rewrite Heq in Htot.
  unfold Add. rewrite Ho, Hout, (sub_old l ts tx o Hl Hin Heq). cbn [mbind option_bind]. unfold FromBig.
  rewrite Z.gtb_ltb. destruct (Z.ltb_spec 256 (BitLen (Tx.Cost tx))); [|lia].
  eexists. split; [done|]. split; [done|]. cbn. lia.
Qed.

(** ** The next nonces *)

(** What [get] answers: the nonce set for the account, else that of the state. *)
Definition next_nonce (txn : noncer) (addr : Address) : Z :=
  match nonces txn !! addr with Some n => n | None => fallback txn addr end.

Lemma load_spec txn addr a :
  next_nonce (Noncer.load txn addr) a = next_nonce txn a ∧
  Noncer.at_ (Noncer.load txn addr) addr = next_nonce txn addr.
Proof.
  unfold Noncer.load, Noncer.at_, next_nonce.
  destruct (nonces txn !! addr) as [n|] eqn:E; cbn; [by rewrite E|].
  destruct (Z.eqb_spec (fallback txn addr) 0) as [Hz|Hz]; cbn; [by rewrite E|].
  rewrite lookup_insert_eq. split; [|done]. destruct (decide (a = addr)) as [->|Hne].
  - by rewrite lookup_insert_eq, E.
  - by rewrite lookup_insert_ne.
Qed.

(** The virtual nonces.  Reading, with its caching of the state's answer,
    never changes an answer; setting changes one account; lowering takes the
    minimum, also when the account was never read before. *)
Theorem noncer_spec txn addr n a :
  (Noncer.get txn addr).1 = next_nonce txn addr ∧
  next_nonce (Noncer.get txn addr).2 a = next_nonce txn a ∧
  next_nonce (Noncer.set txn addr n) a = (if a =? addr then n else next_nonce txn a) ∧
  next_nonce (Noncer.setIfLower txn addr n) a =
    (if a =? addr then Z.min (next_nonce txn addr) n else next_nonce txn a).
Proof.
  assert (Hset : ∀ t, next_nonce (Noncer.set t addr n) a = (if a =? addr then n else next_nonce t a)).
  { intros t. unfold Noncer.set, next_nonce. cbn.
    destruct (Z.eqb_spec a addr) as [->|]; [by rewrite lookup_insert_eq|by rewrite lookup_insert_ne]. }
  destruct (load_spec txn addr a) as [H1 H2]. split_and!; [done|done|done|].
  unfold Noncer.setIfLower. rewrite H2.
  destruct (Z.leb_spec (next_nonce txn addr) n); rewrite ?Hset, H1;
    destruct (Z.eqb_spec a addr); subst; done || lia.
Qed.

(** ** Concrete inputs *)

Definition ex_legacy (hash nonce price gas value : Z) : Transaction :=
  MkTx (TLegacy (LegacyTx.mk nonce price gas (Some 7) value [] 0 0 0)) hash 0 0.

Definition add_all (l : list_) (ts : list Transaction) : option list_ :=
  fold_left (λ l tx, l ← l; '(_, _, l) ← Add l tx 10; Some l) ts (Some l).

Definition ex_ts : list Transaction :=
  [ex_legacy 1 5 100 21000 0; ex_legacy 2 6 100 90000 0; ex_legacy 3 7 100 21000 0].

(** The executable list with the three transactions. *)
Definition ex_strict : list_ :=
  MkList true (SortedMap.Put (SortedMap.Put (SortedMap.Put NewSortedMap (ex_legacy 1 5 100 21000 0))
    (ex_legacy 2 6 100 90000 0)) (ex_legacy 3 7 100 21000 0)) 9000000 90000 13200000.

Lemma ex_strict_added : add_all (newList true) ex_ts = Some ex_strict.
Proof. vm_compute. reflexivity. Qed.

Lemma ex_strict_lrepr : lrepr ex_strict ex_ts.
Proof.
  split.
  - exact (SortedMap.Put_repr _ _ (ex_legacy 3 7 100 21000 0)
      (SortedMap.Put_repr _ _ (ex_legacy 2 6 100 90000 0)
        (SortedMap.Put_repr _ _ (ex_legacy 1 5 100 21000 0) SortedMap.NewSortedMap_repr))).
  - intros tx. unfold ex_ts. rewrite !elem_of_cons, elem_of_nil. intros [->|[->|[->|[]]]]; done.
  - intros tx. unfold ex_ts. rewrite !elem_of_cons, elem_of_nil. intros [->|[->|[->|[]]]]; done.
  - reflexivity.
  - reflexivity.
  - intros tx. unfold ex_ts. rewrite !elem_of_cons, elem_of_nil. intros [->|[->|[->|[]]]]; done.
Qed.

Lemma list_Add_spec_witness :
  lrepr ex_strict ex_ts ∧
  (∃ l', Add ex_strict (ex_legacy 9 6 110 21000 0) 10 =
     Some (true, Some (ex_legacy 2 6 100 90000 0), l') ∧
     lrepr l' (SortedMap.put_nonce (ex_legacy 9 6 110 21000 0) ex_ts)).
Proof.
  split; [exact ex_strict_lrepr|].
  destruct (list_Add_spec ex_strict ex_ts (ex_legacy 9 6 110 21000 0) 10) as [(o & Ho & Hr & _)|[_ H]];
    [exact ex_strict_lrepr|vm_compute; split; congruence|vm_compute; congruence|lia|reflexivity| |exact H].
  vm_compute in Ho. injection Ho as <-. vm_compute in Hr.
  exfalso. destruct Hr as [H|[H|[H|H]]]; congruence.
Defined.

Lemma list_Filter_spec_witness :
  lrepr ex_strict ex_ts ∧ kept true 5000000 30000000 ex_ts = [ex_legacy 1 5 100 21000 0] ∧
  ∃ removed invalids l', Filter ex_strict 5000000 30000000 = Some (removed, invalids, l') ∧
    removed ≡ₚ List.filter (unpayable 5000000 30000000) ex_ts ∧
    strict l' = strict ex_strict ∧
    ex_ts ≡ₚ (removed ++ invalids) ++ kept (strict ex_strict) 5000000 30000000 ex_ts ∧
    lrepr l' (kept (strict ex_strict) 5000000 30000000 ex_ts).
Proof.
  split; [exact ex_strict_lrepr|]. split; [vm_compute; reflexivity|].
  exact (list_Filter_spec canonical_range ex_strict ex_ts 5000000 30000000 ex_strict_lrepr).
Defined.

Lemma list_Remove_spec_witness :
  lrepr ex_strict ex_ts ∧
  ∃ invalids l', Remove ex_strict (ex_legacy 2 6 100 90000 0) = Some (true, invalids, l') ∧
    strict l' = strict ex_strict ∧
    invalids ≡ₚ (if strict ex_strict then after 6 ex_ts else []) ∧
    lrepr l' (if strict ex_strict then before 6 ex_ts else without 6 ex_ts).
Proof.
  split; [exact ex_strict_lrepr|].
  exact (list_Remove_spec canonical_range ex_strict ex_ts (ex_legacy 2 6 100 90000 0) ex_strict_lrepr
    (list_elem_of_further _ _ _ (list_elem_of_here _ _))).
Defined.

Lemma executable_list_contiguous_witness :
  lrepr ex_strict ex_ts ∧ contiguous ex_ts ∧
  ∃ out l' ts', Cap ex_strict 2 = Some (out, l') ∧ lrepr l' ts' ∧ contiguous ts'.
Proof.
  assert (contiguous ex_ts) as Hc.
  { intros i x y Hx Hy. destruct i as [|[|[|i]]]; cbn in Hx, Hy; simplify_eq; reflexivity. }
  split; [exact ex_strict_lrepr|]. split; [exact Hc|].
  destruct (executable_list_contiguous canonical_range insertion_sorter ex_strict ex_ts
    ex_strict_lrepr eq_refl Hc) as (_ & _ & H & _).
  apply H. lia.
Defined.

Lemma overflowing_replacement_forgets_witness :
  lrepr ex_strict ex_ts ∧
  ∃ l', Add ex_strict (ex_legacy 9 6 200 21000 two256) 10 = Some (false, None, l') ∧
    txs l' = txs ex_strict ∧ totalcost l' = total ex_ts - 9000000.
Proof.
  split; [exact ex_strict_lrepr|].
  exact (overflowing_replacement_forgets ex_strict ex_ts (ex_legacy 9 6 200 21000 two256)
    (ex_legacy 2 6 100 90000 0) 10 ex_strict_lrepr eq_refl eq_refl eq_refl).
Defined.
End ListLaws.
