(* ===== verification/LegacyPriced.v ===== *)
(** * The lookup table and the price heaps of the legacy pool

    parallelizable-client-go-ethereum/core/txpool/legacypool: [lookup]
    (legacypool.go), the transactions by hash with the slots they take and the
    accounts they authorize, and [pricedList] (list.go, third part), the two
    heaps that choose what a full pool evicts.  The heaps hold transactions the
    pool may have dropped since; what counts of them is what the table still
    has.  The table is shared with the pool: the methods of [pricedList] take it
    as an argument. *)

From S2P Require Import Prelude GoSort GoHeap TxTypes.

Definition txSlotSize : Z := 32 * 1024.

Definition numSlots (tx : Transaction) : Z := wrap64 (Tx.Size tx + txSlotSize - 1) / txSlotSize.

Record lookup_ : Type := MkLookup {
  slots : Z;
  lk_txs : gmap Z Transaction;
  auths : gmap Z (list Hash)
}.

Definition newLookup : lookup_ := MkLookup 0 ∅ ∅.

(** [auth.Authority()], without the error: the signature of an authorization
    recovers an account or does not. *)
Class Authorities : Type := authority : SetCodeAuthorization → option Address.

Definition SetCodeAuthorities `{Authorities} (tx : Transaction) : list Address :=
  match Tx.SetCodeAuthorizations tx with
  | Some l => omap authority l
  | None => []
  end.

Module Lookup.
Section Methods.
Context `{Authorities}.

Definition Get (t : lookup_) (hash : Hash) : option Transaction := lk_txs t !! hash.
Definition Count (t : lookup_) : Z := map_len (lk_txs t).
Definition Slots (t : lookup_) : Z := slots t.

Definition addAuthority (hash : Hash) (au : gmap Z (list Hash)) (addr : Address) : gmap Z (list Hash) :=
  let l := default [] (au !! addr) in
  if bool_decide (hash ∈ l) then au else <[addr := l ++ [hash]]> au.

Definition addAuthorities (t : lookup_) (tx : Transaction) : lookup_ :=
  MkLookup (slots t) (lk_txs t)
    (fold_left (addAuthority (Tx.Hash_ tx)) (SetCodeAuthorities tx) (auths t)).

Definition Add (t : lookup_) (tx : Transaction) : lookup_ :=
  addAuthorities (MkLookup (slots t + numSlots tx) (<[Tx.Hash_ tx := tx]> (lk_txs t)) (auths t)) tx.

(** [append(list[:i], list[i+1:]...)] at the first index of the hash. *)
Fixpoint remove_first (hash : Hash) (l : list Hash) : list Hash :=
  match l with
  | [] => []
  | h :: l => if h =? hash then l else h :: remove_first hash l
  end.

(** The turns of the loop over the map touch different keys. *)
Definition removeAuthorities (t : lookup_) (hash : Hash) : lookup_ :=
  MkLookup (slots t) (lk_txs t)
    (omap (λ l, match remove_first hash l with [] => None | l => Some l end) (auths t)).

Definition Remove (t : lookup_) (hash : Hash) : lookup_ :=
  let t := removeAuthorities t hash in
  match lk_txs t !! hash with
  | None => t
  | Some tx => MkLookup (slots t - numSlots tx) (delete hash (lk_txs t)) (auths t)
  end.

Definition TxsBelowTip `{MapRange} (t : lookup_) (threshold : Z) : list Transaction :=
  List.filter (λ tx, Tx.GasTipCapIntCmp tx threshold <? 0) (range_values (lk_txs t)).
End Methods.
End Lookup.

(** ** The price heaps *)

Record priceHeap : Type := MkPriceHeap {
  baseFee : option Z;
  ph_list : list Transaction
}.

Record pricedList : Type := MkPricedList {
  stales : Z;
  urgent : priceHeap;
  floating : priceHeap
}.

Definition newPricedList : pricedList := MkPricedList 0 (MkPriceHeap None []) (MkPriceHeap None []).

Definition urgentRatio : Z := 4.
Definition floatingRatio : Z := 1.

Module Priced.
Definition cmp (fee : option Z) (a b : Transaction) : Z :=
  let rest :=
    let c := Tx.GasFeeCapCmp a b in
    if negb (c =? 0) then c else Tx.GasTipCapCmp a b in
  match fee with
  | Some _ =>
      let c := Tx.EffectiveGasTipCmp a b fee in
      if negb (c =? 0) then c else rest
  | None => rest
  end.

Definition less (fee : option Z) (a b : Transaction) : bool :=
  let c := cmp fee a b in
  if c =? -1 then true else if c =? 1 then false else Tx.Nonce a >? Tx.Nonce b.

Definition push (h : priceHeap) (tx : Transaction) : priceHeap :=
  MkPriceHeap (baseFee h) (Push (less (baseFee h)) (ph_list h) tx).

Definition pop (h : priceHeap) : option (Transaction * priceHeap) :=
  '(tx, l) ← Pop (less (baseFee h)) (ph_list h); Some (tx, MkPriceHeap (baseFee h) l).

Definition Put (l : pricedList) (tx : Transaction) : pricedList :=
  MkPricedList (stales l) (push (urgent l) tx) (floating l).

(** Pop [n] transactions, in the order they come. *)
Fixpoint pop_n (n : nat) (h : priceHeap) : option (list Transaction * priceHeap) :=
  match n with
  | O => Some ([], h)
  | S n => '(tx, h) ← pop h; '(ts, h) ← pop_n n h; Some (tx :: ts, h)
  end.

Definition Reheap `{MapRange} (all : lookup_) (l : pricedList) : option pricedList :=
  let u := Init (less (baseFee (urgent l))) (range_values (lk_txs all)) in
  let floatingCount := len u * floatingRatio / (urgentRatio + floatingRatio) in
  '(fl, u) ← pop_n (Z.to_nat floatingCount) (MkPriceHeap (baseFee (urgent l)) u);
  Some (MkPricedList 0 u
    (MkPriceHeap (baseFee (floating l)) (Init (less (baseFee (floating l))) fl))).

Definition Removed `{MapRange} (all : lookup_) (l : pricedList) (count : Z) : option pricedList :=
  let l := MkPricedList (stales l + count) (urgent l) (floating l) in
  if stales l <=? (len (ph_list (urgent l)) + len (ph_list (floating l))) / 4 then Some l
  else Reheap all l.

Definition SetBaseFee `{MapRange} (all : lookup_) (l : pricedList) (fee : option Z) : option pricedList :=
  Reheap all (MkPricedList (stales l) (MkPriceHeap fee (ph_list (urgent l))) (floating l)).

Definition is_live (all : lookup_) (tx : Transaction) : bool :=
  bool_decide (is_Some (Lookup.Get all (Tx.Hash_ tx))).

(** The loop of [underpricedFor]: drop stale heads. *)
Fixpoint drop_stale (fuel : nat) (all : lookup_) (st : Z) (h : priceHeap) : option (Z * priceHeap) :=
  match fuel, ph_list h with
  | S fuel, head :: _ =>
      if negb (is_live all head) then '(_, h) ← pop h; drop_stale fuel all (st - 1) h
      else Some (st, h)
  | _, _ => Some (st, h)
  end.

Definition underpricedFor (all : lookup_) (st : Z) (h : priceHeap) (tx : Transaction)
    : option (bool * Z * priceHeap) :=
  '(st, h) ← drop_stale (length (ph_list h)) all st h;
  match ph_list h with
  | [] => Some (false, st, h)
  | head :: _ => Some (cmp (baseFee h) head tx >=? 0, st, h)
  end.

Definition Underpriced (all : lookup_) (l : pricedList) (tx : Transaction) : option (bool * pricedList) :=
  '(bu, st, u) ← underpricedFor all (stales l) (urgent l) tx;
  let l := MkPricedList st u (floating l) in
  if bu || (len (ph_list u) =? 0) then
    '(bf, st, f) ← underpricedFor all (stales l) (floating l) tx;
    let l := MkPricedList st u f in
    Some ((bf || (len (ph_list f) =? 0)) &&
          (negb (len (ph_list u) =? 0) || negb (len (ph_list f) =? 0)), l)
  else Some (false, l).

(** The loop of [Discard]; [None] is a heap that is popped empty, or no fuel. *)
Fixpoint discard_loop (fuel : nat) (all : lookup_) (l : pricedList) (slots : Z) (drop : list Transaction)
    : option (list Transaction * Z * pricedList) :=
  match fuel with
  | O => None
  | S fuel =>
      if slots <=? 0 then Some (drop, slots, l)
      else if len (ph_list (urgent l)) * floatingRatio >? len (ph_list (floating l)) * urgentRatio then
        '(tx, u) ← pop (urgent l);
        if negb (is_live all tx) then
          discard_loop fuel all (MkPricedList (stales l - 1) u (floating l)) slots drop
        else
          discard_loop fuel all (MkPricedList (stales l) u (push (floating l) tx)) slots drop
      else if len (ph_list (floating l)) =? 0 then Some (drop, slots, l)
      else
        '(tx, f) ← pop (floating l);
        if negb (is_live all tx) then
          discard_loop fuel all (MkPricedList (stales l - 1) (urgent l) f) slots drop
        else
          discard_loop fuel all (MkPricedList (stales l) (urgent l) f) (slots - numSlots tx) (drop ++ [tx])
  end.

(** Each turn takes a transaction off the floating heap or moves one to it. *)
Definition discard_fuel (l : pricedList) : nat :=
  S (2 * length (ph_list (urgent l)) + length (ph_list (floating l))).

Definition Discard (all : lookup_) (l : pricedList) (slots : Z)
    : option (list Transaction * bool * pricedList) :=
  '(drop, slots, l) ← discard_loop (discard_fuel l) all l slots [];
  if slots >? 0 then
    Some ([], false, fold_left Put drop l)
  else Some (drop, true, l).

(** ** The order *)

Definition eff (fee : option Z) (tx : Transaction) : Z :=
  match fee with Some _ => Tx.EffectiveGasTipValue tx fee | None => 0 end.

(** [cmp] is negative. *)
Definition cheaper (fee : option Z) : Transaction → Transaction → bool :=
  less_lex (less_by (eff fee)) (less_lex (less_by Tx.GasFeeCap) (less_by Tx.GasTipCap)).

(** A three-way comparison that agrees with an order. *)
Definition agrees (c : Z) (l : Transaction → Transaction → bool) (a b : Transaction) : Prop :=
  (l a b = true ∧ l b a = false ∧ c = -1) ∨ (l a b = false ∧ l b a = false ∧ c = 0) ∨
  (l a b = false ∧ l b a = true ∧ c = 1).

Lemma agrees_by (k : Transaction → Z) a b : agrees (Cmp (k a) (k b)) (less_by k) a b.
Proof.
  unfold agrees, less_by, Cmp.
  destruct (Z.compare_spec (k a) (k b)), (Z.ltb_spec (k a) (k b)), (Z.ltb_spec (k b) (k a)); auto; lia.
Qed.

Lemma agrees_lex c1 c2 l1 l2 a b :
  agrees c1 l1 a b → agrees c2 l2 a b →
  agrees (if negb (c1 =? 0) then c1 else c2) (less_lex l1 l2) a b.
Proof.
  unfold agrees, less_lex. intros [(-> & -> & ->)|[(-> & -> & ->)|(-> & -> & ->)]]; cbn; auto.
Qed.

Lemma cmp_agrees fee a b : agrees (cmp fee a b) (cheaper fee) a b.
Proof.
  assert (Hrest : agrees (if negb (Tx.GasFeeCapCmp a b =? 0) then Tx.GasFeeCapCmp a b else Tx.GasTipCapCmp a b)
    (less_lex (less_by Tx.GasFeeCap) (less_by Tx.GasTipCap)) a b).
  { apply agrees_lex; [apply (agrees_by Tx.GasFeeCap)|apply (agrees_by Tx.GasTipCap)]. }
  unfold cmp, cheaper. destruct fee as [f|].
  - apply agrees_lex; [apply (agrees_by (eff (Some f)))|done].
  - revert Hrest. generalize (if negb (Tx.GasFeeCapCmp a b =? 0) then Tx.GasFeeCapCmp a b else Tx.GasTipCapCmp a b).
    intros c. unfold agrees, less_lex at 2 4 6 8 10 12. done.
Qed.

#[export] Instance cheaper_weak fee : StrictWeak (cheaper fee) := _.

(** Cheaper first, and of the equally priced the later nonce. *)
Lemma less_lexicographic fee a b : less fee a b = less_lex (cheaper fee) (more_by Tx.Nonce) a b.
Proof.
  unfold less, less_lex at 1, more_by. cbv zeta. rewrite Z.gtb_ltb.
  destruct (cmp_agrees fee a b) as [(-> & -> & ->)|[(-> & -> & ->)|(-> & -> & ->)]]; done.
Qed.

#[export] Instance less_weak fee : StrictWeak (less fee).
Proof.
  pose proof (less_lex_weak (cheaper fee) (more_by Tx.Nonce) _ _) as [Hi Ht Hn].
  split; intros *; rewrite !less_lexicographic; eauto.
Qed.

Lemma less_cheaper fee a b : less fee a b = false → cheaper fee a b = false.
Proof. rewrite less_lexicographic. unfold less_lex. by intros [? _]%orb_false_iff. Qed.

Lemma cmp_nonneg fee a b : 0 <= cmp fee a b ↔ cheaper fee a b = false.
Proof.
  destruct (cmp_agrees fee a b) as [(-> & _ & ->)|[(-> & _ & ->)|(-> & _ & ->)]]; split; (done || lia).
Qed.

(** ** The heaps *)

Definition heap_ok (h : priceHeap) : Prop := is_heap (less (baseFee h)) (ph_list h).

Lemma push_spec h tx :
  heap_ok h → heap_ok (push h tx) ∧ ph_list (push h tx) ≡ₚ tx :: ph_list h ∧ baseFee (push h tx) = baseFee h.
Proof. intros Hh. destruct (Push_spec (less (baseFee h)) (ph_list h) tx Hh). done. Qed.

Lemma pop_spec h :
  heap_ok h → ph_list h ≠ [] →
  ∃ tx rest h', ph_list h = tx :: rest ∧ pop h = Some (tx, h') ∧ ph_list h' ≡ₚ rest ∧ heap_ok h' ∧
    baseFee h' = baseFee h ∧ (∀ y, y ∈ ph_list h → less (baseFee h) y tx = false).
Proof.
  intros Hh Hne. destruct (ph_list h) as [|tx rest] eqn:E; [done|].
  destruct (Pop_spec (less (baseFee h)) (ph_list h) tx) as (l0 & l' & Hl0 & Hpop & Hp & Hh');
    [done|by rewrite E|].
  exists tx, rest, (MkPriceHeap (baseFee h) l'). unfold pop. rewrite Hpop. cbn.
  assert (l0 = rest) as -> by congruence. split_and!; try done.
  intros y Hy. apply (heap_least (less (baseFee h)) (ph_list h)); [done|by rewrite E|by rewrite E].
Qed.

Definition live (all : lookup_) (ts : list Transaction) : list Transaction := List.filter (is_live all) ts.

#[local] Arguments live : simpl never.

#[export] Instance live_Proper all : Proper ((≡ₚ) ==> (≡ₚ)) (live all).
Proof.
  intros l k H. unfold live. induction H as [|x l k _ IH|x y l|l1 l2 l3 _ IH1 _ IH2]; cbn; [done| | |by rewrite IH1].
  - by destruct (is_live all x); rewrite IH.
  - destruct (is_live all x), (is_live all y); try done. apply Permutation_swap.
Qed.

Lemma live_app all ts us : live all (ts ++ us) = live all ts ++ live all us.
Proof. apply List.filter_app. Qed.

Lemma live_cons all tx ts : live all (tx :: ts) = if is_live all tx then tx :: live all ts else live all ts.
Proof. done. Qed.

Fixpoint total_slots (ts : list Transaction) : Z :=
  match ts with [] => 0 | tx :: ts => numSlots tx + total_slots ts end.

Lemma total_slots_app ts us : total_slots (ts ++ us) = total_slots ts + total_slots us.
Proof. induction ts; cbn; lia. Qed.

Lemma total_slots_perm ts us : ts ≡ₚ us → total_slots ts = total_slots us.
Proof. induction 1; cbn; lia. Qed.

#[global] Instance total_slots_Proper : Proper ((≡ₚ) ==> (=)) total_slots.
Proof. intros ts us. apply total_slots_perm. Qed.

Record priced_ok (l : pricedList) : Prop := {
  urgent_ok : heap_ok (urgent l);
  floating_ok : heap_ok (floating l)
}.

(** What of the heaps counts. *)
Definition tracked (all : lookup_) (l : pricedList) : list Transaction :=
  live all (ph_list (urgent l) ++ ph_list (floating l)).

(** ** Eviction *)

(** What a run of the loop has dropped: enough, or all there was; never more
    than needed. *)
Record dropped (all : lookup_) (l l' : pricedList) (want left : Z) (drop : list Transaction) : Prop := {
  dropped_ok : priced_ok l';
  dropped_tracked : tracked all l ≡ₚ drop ++ tracked all l';
  dropped_left : left = want - total_slots drop;
  dropped_enough : left <= 0 ∨ ph_list (urgent l') = [] ∧ ph_list (floating l') = [];
  dropped_needed d x : drop = d ++ [x] → 0 < want - total_slots d
}.

Lemma dropped_step all l0 l l' want left drop :
  tracked all l0 ≡ₚ tracked all l → dropped all l l' want left drop → dropped all l0 l' want left drop.
Proof. intros Heq [? Htr ? ? ?]. split; try done. by rewrite Heq. Qed.

Lemma dropped_cons all l0 l l' want left tx drop :
  0 < want → tracked all l0 ≡ₚ tx :: tracked all l →
  dropped all l l' (want - numSlots tx) left drop → dropped all l0 l' want left (tx :: drop).
Proof.
  intros Hw Heq [? Htr ? ? Hn]. split; try done.
  - by rewrite Heq, Htr.
  - cbn. lia.
  - intros d x Hd. destruct d as [|y d]; [cbn; lia|]. injection Hd as -> Hd.
    specialize (Hn d x Hd). cbn. lia.
Qed.

Lemma discard_loop_spec all fuel l want drop :
  (2 * length (ph_list (urgent l)) + length (ph_list (floating l)) < fuel)%nat → priced_ok l →
  ∃ drop' left l', discard_loop fuel all l want drop = Some (drop ++ drop', left, l') ∧
    dropped all l l' want left drop'.
Proof.
  revert l want drop. induction fuel as [|fuel IH]; intros l want drop Hf [Hu Hfl]; [lia|].
  assert (Hstop : want <= 0 ∨ ph_list (urgent l) = [] ∧ ph_list (floating l) = [] →
    dropped all l l want want []).
  { intros He. split; [done|done|cbn; lia|done|]. intros d x Hd. by destruct d. }
  cbn [discard_loop]. destruct (Z.leb_spec want 0).
  { exists [], want, l. rewrite app_nil_r. auto. }
  rewrite Z.gtb_ltb. unfold floatingRatio, urgentRatio. destruct (Z.ltb_spec (len (ph_list (floating l)) * 4) (len (ph_list (urgent l)) * 1)) as [Hlt|Hge].
  - destruct (pop_spec (urgent l) Hu) as (tx & rest & u & Hl & -> & Hp & Hok & _ & _).
    { intros Hn. rewrite Hn in Hlt. pose proof (len_nonneg (ph_list (floating l))). rewrite (@len_nil Transaction) in Hlt. lia. }
    cbn [mbind option_bind]. pose proof (Permutation_length Hp) as Hlen. rewrite Hl in Hf. cbn [length] in Hf.
    destruct (is_live all tx) eqn:Hlive; cbn [negb].
    + destruct (push_spec (floating l) tx Hfl) as (Hok' & Hp' & _).
      destruct (IH (MkPricedList (stales l) u (push (floating l) tx)) want drop) as (d & left & l' & -> & Hd);
        [cbn [urgent floating]; rewrite (Permutation_length Hp'); cbn [length]; lia|done|].
      eexists _, _, _. split; [done|]. eapply dropped_step; [|done]. unfold tracked. cbn [urgent floating].
      by rewrite Hl, Hp, Hp', <- Permutation_middle.
    + destruct (IH (MkPricedList (stales l - 1) u (floating l)) want drop) as (d & left & l' & -> & Hd);
        [cbn; lia|done|].
      eexists _, _, _. split; [done|]. eapply dropped_step; [|done]. unfold tracked. cbn [urgent floating].
      by rewrite Hl, Hp, !live_app, live_cons, Hlive.
  - destruct (Z.eqb_spec (len (ph_list (floating l))) 0) as [Hz|Hnz].
    { exists [], want, l. rewrite app_nil_r. split; [done|]. apply Hstop. right.
      apply len_zero_iff in Hz. split; [|done]. apply len_zero_iff. rewrite Hz, (@len_nil Transaction) in Hge.
      pose proof (len_nonneg (ph_list (urgent l))). lia. }
    destruct (pop_spec (floating l) Hfl) as (tx & rest & f & Hl & -> & Hp & Hok & _ & _).
    { intros Hn. by rewrite Hn in Hnz. }
    cbn [mbind option_bind]. pose proof (Permutation_length Hp) as Hlen. rewrite Hl in Hf. cbn [length] in Hf.
    destruct (is_live all tx) eqn:Hlive; cbn [negb].
    + destruct (IH (MkPricedList (stales l) (urgent l) f) (want - numSlots tx) (drop ++ [tx]))
        as (d & left & l' & -> & Hd); [cbn; lia|done|].
      exists (tx :: d), left, l'. rewrite <- app_assoc. split; [done|].
      eapply dropped_cons; [done| |done]. unfold tracked. cbn [urgent floating].
      by rewrite Hl, Hp, !live_app, live_cons, Hlive, <- Permutation_middle.
    + destruct (IH (MkPricedList (stales l - 1) (urgent l) f) want drop) as (d & left & l' & -> & Hd);
        [cbn; lia|done|].
      eexists _, _, _. split; [done|]. eapply dropped_step; [|done]. unfold tracked. cbn [urgent floating].
      by rewrite Hl, Hp, !live_app, live_cons, Hlive.
Qed.

Lemma Put_spec all l tx :
  priced_ok l → priced_ok (Put l tx) ∧
  ph_list (urgent (Put l tx)) ++ ph_list (floating (Put l tx)) ≡ₚ tx :: ph_list (urgent l) ++ ph_list (floating l) ∧
  (is_live all tx = true → tracked all (Put l tx) ≡ₚ tx :: tracked all l).
Proof.
  intros [Hu Hf]. destruct (push_spec (urgent l) tx Hu) as (Hok & Hp & _). unfold tracked, Put. cbn.
  split_and!; [done|by rewrite Hp|]. intros Hlive. by rewrite Hp, !live_app, live_cons, Hlive.
Qed.

Lemma Put_all all ts l :
  priced_ok l → (∀ tx, tx ∈ ts → is_live all tx = true) →
  priced_ok (fold_left Put ts l) ∧ tracked all (fold_left Put ts l) ≡ₚ ts ++ tracked all l.
Proof.
  revert l. induction ts as [|tx ts IH]; intros l Hok Hts; cbn; [done|].
  destruct (Put_spec all l tx Hok) as (Hok' & _ & Hp).
  destruct (IH (Put l tx) Hok') as [H1 H2]; [intros; apply Hts; by right|]. split; [done|].
  rewrite H2, Hp by (apply Hts; by left). by rewrite Permutation_middle.
Qed.

Lemma discard_core all l want :
  priced_ok l →
  ∃ drop ok l', Discard all l want = Some (drop, ok, l') ∧ priced_ok l' ∧
    tracked all l ≡ₚ drop ++ tracked all l' ∧
    (if ok : bool then
       want <= total_slots drop ∧ ∀ d x, drop = d ++ [x] → total_slots d < want
     else drop = [] ∧ total_slots (tracked all l) < want).
Proof.
  intros Hok. unfold Discard.
  destruct (discard_loop_spec all (discard_fuel l) l want []) as (drop & left & l' & -> & [Hok' Htr Hleft He Hn]);
    [unfold discard_fuel; lia|done|]. cbn [app mbind option_bind]. rewrite Z.gtb_ltb.
  destruct (Z.ltb_spec 0 left) as [Hpos|Hnp].
  - destruct He as [He|[Hu Hf]]; [lia|].
    assert (Hempty : tracked all l' = []) by (unfold tracked; by rewrite Hu, Hf).
    rewrite Hempty, app_nil_r in Htr.
    destruct (Put_all all drop l' Hok') as [Hok2 Hp].
    { intros tx Htx. rewrite <- Htr in Htx. unfold tracked, live in Htx.
      by apply list_elem_of_In, List.filter_In in Htx as [_ ?]. }
    eexists [], false, _. split_and!; [done|done|by rewrite Hp, Hempty, app_nil_r|done|].
    rewrite (total_slots_perm _ _ Htr). lia.
  - exists drop, true, l'. split_and!; [done..|lia|]. intros d x Hd. specialize (Hn d x Hd). lia.
Qed.

(** Evicting from a full pool.  The loop terminates without popping an
    empty heap.  When it succeeds, the dropped transactions are in the pool,
    free at least the slots asked for, and all but the last would not have;
    when it fails, everything tracked is still tracked, and all of it together
    takes fewer slots than were asked for. *)
Theorem evict_spec all l want :
  priced_ok l →
  ∃ drop ok l', Discard all l want = Some (drop, ok, l') ∧ priced_ok l' ∧
    tracked all l ≡ₚ drop ++ tracked all l' ∧
    (if ok : bool then
       want <= total_slots drop ∧ ∀ d x, drop = d ++ [x] → total_slots d < want
     else drop = [] ∧ total_slots (tracked all l) < want).
Proof. apply discard_core. Qed.

(** ** The test for the cheapest *)

Lemma drop_stale_spec all fuel st h :
  (length (ph_list h) ≤ fuel)%nat → heap_ok h →
  ∃ st' h', drop_stale fuel all st h = Some (st', h') ∧ heap_ok h' ∧ baseFee h' = baseFee h ∧
    live all (ph_list h') ≡ₚ live all (ph_list h) ∧
    (∀ head, ph_list h' !! 0%nat = Some head → is_live all head = true).
Proof.
  revert st h. induction fuel as [|fuel IH]; intros st h Hf Hh.
  - exists st, h. destruct (ph_list h) eqn:E; [|cbn in Hf; lia]. cbn. split_and!; done.
  - cbn [drop_stale]. destruct (ph_list h) as [|tx rest] eqn:E.
    { exists st, h. rewrite E. split_and!; try done. }
    destruct (is_live all tx) eqn:Hl; cbn [negb].
    { exists st, h. rewrite E. split_and!; try done. intros head Hhd. cbn in Hhd. by simplify_eq. }
    destruct (pop_spec h Hh) as (tx' & rest' & h1 & Hl1 & -> & Hp & Hok & Hb & _); [by rewrite E|].
    rewrite E in Hl1. injection Hl1 as <- <-. cbn [mbind option_bind].
    destruct (IH (st - 1) h1) as (st' & h' & -> & ? & Hb' & Hlive & ?);
      [rewrite (Permutation_length Hp); cbn in Hf; lia|done|].
    exists st', h'. split_and!; try done; [congruence|]. by rewrite Hlive, Hp, live_cons, Hl.
Qed.

Lemma underpricedFor_spec all st h tx :
  heap_ok h →
  ∃ b st' h', underpricedFor all st h tx = Some (b, st', h') ∧ heap_ok h' ∧ baseFee h' = baseFee h ∧
    live all (ph_list h') ≡ₚ live all (ph_list h) ∧
    (ph_list h' = [] ↔ live all (ph_list h) = []) ∧
    (b = true ↔ live all (ph_list h) ≠ [] ∧ ∀ y, y ∈ live all (ph_list h) → 0 <= cmp (baseFee h) y tx).
Proof.
  intros Hh. unfold underpricedFor.
  destruct (drop_stale_spec all (length (ph_list h)) st h) as (st' & h' & -> & Hok & Hb & Hlive & Hhd); [lia|done|].
  cbn [mbind option_bind]. destruct (ph_list h') as [|head rest] eqn:E.
  - cbn in Hlive. symmetry in Hlive. apply Permutation_nil_r in Hlive.
    eexists _, _, _. split; [done|]. rewrite E, Hlive. split_and!; try done. split; [done|]. by intros [? _].
  - specialize (Hhd head eq_refl). eexists _, _, _. split; [done|]. rewrite E.
    assert (Hin : head ∈ live all (ph_list h)).
    { rewrite <- Hlive, live_cons, Hhd. by left. }
    split_and!; try done.
    { split; [done|]. intros Hn. rewrite Hn in Hin. by apply elem_of_nil in Hin. }
    rewrite Z.geb_leb, Z.leb_le, Hb. split.
    + intros Hc. split; [by intros Hn; rewrite Hn in Hin; apply elem_of_nil in Hin|].
      intros y Hy. apply cmp_nonneg. apply cmp_nonneg in Hc.
      apply (less_incomp_trans (less:=cheaper (baseFee h)) y head tx); [|done].
      apply less_cheaper. rewrite <- Hb. apply (heap_least (less (baseFee h')) (ph_list h')); [done|by rewrite E|].
      rewrite <- Hlive in Hy. apply list_elem_of_In, List.filter_In in Hy as [Hy _].
      rewrite E. by apply list_elem_of_In.
    + intros [_ H]. by apply H.
Qed.

(** The price test of a full pool.  A transaction is underpriced exactly
    when the pool tracks something and everything in both heaps, each by its
    own order, is at least as well priced; stale entries do not count, and the
    test loses nothing that does. *)
Theorem underpriced_exact all l tx :
  priced_ok l →
  ∃ b l', Underpriced all l tx = Some (b, l') ∧ priced_ok l' ∧ tracked all l' ≡ₚ tracked all l ∧
    (b = true ↔ tracked all l ≠ [] ∧
      (∀ y, y ∈ live all (ph_list (urgent l)) → 0 <= cmp (baseFee (urgent l)) y tx) ∧
      (∀ y, y ∈ live all (ph_list (floating l)) → 0 <= cmp (baseFee (floating l)) y tx)).
Proof.
  intros [Hu Hf]. unfold Underpriced.
  destruct (underpricedFor_spec all (stales l) (urgent l) tx Hu) as (bu & st & u & -> & Hok & Hbu & Hlu & Heu & Hsu).
  cbn [mbind option_bind stales floating].
  destruct (underpricedFor_spec all st (floating l) tx Hf) as (bf & st' & f & -> & Hok' & Hbf & Hlf & Hef & Hsf).
  cbn [mbind option_bind].
  assert (Hnil : tracked all l = [] ↔ live all (ph_list (urgent l)) = [] ∧ live all (ph_list (floating l)) = []).
  { unfold tracked. rewrite live_app. split; [apply app_eq_nil|by intros [-> ->]]. }
  assert (Hz : ∀ k : list Transaction, (len k =? 0) = bool_decide (k = [])).
  { intros k. destruct (Z.eqb_spec (len k) 0) as [H|H]; symmetry; [apply bool_decide_eq_true|apply bool_decide_eq_false];
      by rewrite len_zero_iff in H. }
  setoid_rewrite Hnil. rewrite !Hz, (bool_decide_ext _ _ Heu), (bool_decide_ext _ _ Hef).
  assert (Hvac : ∀ k fee, live all k = [] → ∀ y, y ∈ live all k → 0 <= cmp fee y tx).
  { intros k fee -> y Hy. by apply elem_of_nil in Hy. }
  pose proof (Hvac (ph_list (urgent l)) (baseFee (urgent l))) as Hvu.
  pose proof (Hvac (ph_list (floating l)) (baseFee (floating l))) as Hvf.
  destruct (decide (live all (ph_list (urgent l)) = [])) as [Hun|Hun];
    destruct (decide (live all (ph_list (floating l)) = [])) as [Hfn|Hfn];
    rewrite ?(bool_decide_eq_true_2 _ Hun), ?(bool_decide_eq_false_2 _ Hun),
      ?(bool_decide_eq_true_2 _ Hfn), ?(bool_decide_eq_false_2 _ Hfn);
    destruct bu, bf; cbn; eexists _, _; (split; [done|]);
    (split; [done|]); (split; [unfold tracked; cbn; by rewrite !live_app, Hlu, ?Hlf|]); clear -Hsu Hsf Hun Hfn Hvu Hvf; naive_solver.
Qed.

(** ** Rebuilding the heaps *)

Lemma pop_n_spec n h :
  heap_ok h → (n ≤ length (ph_list h))%nat →
  ∃ ts h', pop_n n h = Some (ts, h') ∧ ts ++ ph_list h' ≡ₚ ph_list h ∧ heap_ok h' ∧
    baseFee h' = baseFee h ∧ length ts = n ∧
    (∀ x y, x ∈ ts → y ∈ ph_list h' → less (baseFee h) y x = false).
Proof.
  revert h. induction n as [|n IH]; intros h Hh Hn.
  - exists [], h. split_and!; try done. intros x y Hx. by apply elem_of_nil in Hx.
  - destruct (pop_spec h Hh) as (tx & rest & h1 & Hl & Hpop & Hp & Hok & Hb & Hleast).
    { intros He. rewrite He in Hn. cbn in Hn. lia. }
    cbn [pop_n]. rewrite Hpop. cbn [mbind option_bind].
    destruct (IH h1 Hok) as (ts & h2 & -> & Hp2 & Hok2 & Hb2 & Hlen & Hle).
    { rewrite (Permutation_length Hp). rewrite Hl in Hn. cbn in Hn. lia. }
    cbn [mbind option_bind]. exists (tx :: ts), h2. rewrite Hl. split_and!; try done.
    + by rewrite <- Hp, <- Hp2.
    + congruence.
    + cbn. by rewrite Hlen.
    + intros x y [->|Hx]%elem_of_cons Hy; [|rewrite <- Hb; by apply Hle].
      apply Hleast. rewrite Hl, <- Hp. right. rewrite <- Hp2, elem_of_app. by right.
Qed.

(** Rebuilding the heaps of the pool.  Afterwards they hold exactly the
    transactions of the table, none stale, a fifth of them in the floating heap
    and these the worst by the order of the urgent one. *)
Theorem Reheap_spec (R : MapRange) all l :
  ∃ l', Reheap all l = Some l' ∧ priced_ok l' ∧ stales l' = 0 ∧
    baseFee (urgent l') = baseFee (urgent l) ∧
    ph_list (urgent l') ++ ph_list (floating l') ≡ₚ (map_to_list (lk_txs all)).*2 ∧
    len (ph_list (floating l')) = Lookup.Count all / 5 ∧
    (∀ x y, x ∈ ph_list (floating l') → y ∈ ph_list (urgent l') → less (baseFee (urgent l)) y x = false).
Proof.
  unfold Reheap. set (u0 := Init (less (baseFee (urgent l))) (range_values (lk_txs all))).
  destruct (Init_spec (less (baseFee (urgent l))) (range_values (lk_txs all))) as [Hh Hp]. fold u0 in Hh, Hp.
  assert (Hcount : len u0 = Lookup.Count all) by (rewrite (len_perm _ _ Hp); apply map_len_range).
  pose proof (len_nonneg u0) as Hnn. rewrite Z.mul_1_r. change (urgentRatio + floatingRatio) with 5.
  assert (Hdiv : 0 <= len u0 / 5 <= len u0) by (split; [apply Z.div_pos; lia|apply Z.div_le_upper_bound; lia]).
  destruct (pop_n_spec (Z.to_nat (len u0 / 5)) (MkPriceHeap (baseFee (urgent l)) u0))
    as (ts & u & -> & Hp2 & Hok & Hb & Hlen & Hle); [done|cbn [ph_list]; pose proof (to_nat_len u0); lia|].
  cbn [mbind option_bind ph_list baseFee] in *. eexists. split; [done|].
  cbn [stales urgent floating ph_list baseFee].
  destruct (Init_spec (less (baseFee (floating l))) ts) as [Hf Hpf].
  split_and!; try done.
  - by rewrite Hpf, Permutation_app_comm, Hp2, Hp, range_values_perm.
  - rewrite (len_perm _ _ Hpf). unfold len. rewrite Hlen, <- Hcount. lia.
  - intros x y Hx Hy. rewrite Hpf in Hx. by apply Hle.
Qed.
End Priced.

(** ** The table *)

Module LookupLaws.
Section Laws.
Context `{Authorities}.

(** Every transaction is under its hash, the slots are theirs, and the index of
    the authorities says which transactions name an account. *)
Record lk_ok (t : lookup_) : Prop := {
  lk_hash h tx : lk_txs t !! h = Some tx → Tx.Hash_ tx = h;
  lk_slots : slots t = Priced.total_slots (map_to_list (lk_txs t)).*2;
  lk_auths a h :
    h ∈ default [] (auths t !! a) ↔ ∃ tx, lk_txs t !! h = Some tx ∧ a ∈ SetCodeAuthorities tx;
  lk_auths_nodup a l : auths t !! a = Some l → NoDup l ∧ l ≠ []
}.

Lemma newLookup_ok : lk_ok newLookup.
Proof.
  split; cbn.
  - intros h tx. by rewrite lookup_empty.
  - by rewrite map_to_list_empty.
  - intros a h. rewrite lookup_empty. cbn. rewrite elem_of_nil. split; [done|].
    intros (tx & Htx & _). by rewrite lookup_empty in Htx.
  - intros a l. by rewrite lookup_empty.
Qed.

Lemma addAuthority_lookup hash au addr a h :
  h ∈ default [] (Lookup.addAuthority hash au addr !! a) ↔
    h ∈ default [] (au !! a) ∨ (a = addr ∧ h = hash).
Proof.
  unfold Lookup.addAuthority. case_bool_decide as Hin; [naive_solver|].
  destruct (decide (a = addr)) as [->|Hne].
  - rewrite lookup_insert_eq. cbn. rewrite elem_of_app, list_elem_of_singleton. naive_solver.
  - rewrite lookup_insert_ne by done. naive_solver.
Qed.

Definition auths_ok (au : gmap Z (list Hash)) : Prop := ∀ a l, au !! a = Some l → NoDup l ∧ l ≠ [].

Lemma addAuthority_ok hash au addr : auths_ok au → auths_ok (Lookup.addAuthority hash au addr).
Proof.
  intros Hau. unfold Lookup.addAuthority. case_bool_decide as Hin; [done|].
  intros a l. rewrite lookup_insert_Some. intros [[<- <-]|[_ Ha]]; [|by apply (Hau a)].
  split; [|by destruct (default [] _)]. apply NoDup_app. split_and!.
  - destruct (au !! addr) eqn:E; cbn; [by apply (Hau addr)|constructor].
  - intros x Hx ->%list_elem_of_singleton. done.
  - apply NoDup_singleton.
Qed.

Lemma addAuthorities_lookup hash addrs au a h :
  auths_ok au →
  auths_ok (fold_left (Lookup.addAuthority hash) addrs au) ∧
  (h ∈ default [] (fold_left (Lookup.addAuthority hash) addrs au !! a) ↔
    h ∈ default [] (au !! a) ∨ (a ∈ addrs ∧ h = hash)).
Proof.
  revert au. induction addrs as [|b addrs IH]; intros au Hau; cbn.
  - rewrite elem_of_nil. naive_solver.
  - destruct (IH (Lookup.addAuthority hash au b)) as [H1 H2]; [by apply addAuthority_ok|].
    split; [done|]. rewrite H2, addAuthority_lookup, elem_of_cons. naive_solver.
Qed.

Lemma drop_hash_elem hash l h :
  NoDup l → h ∈ Lookup.remove_first hash l ↔ h ∈ l ∧ h ≠ hash.
Proof.
  induction 1 as [|x l Hx Hnd IH]; cbn; [rewrite elem_of_nil; naive_solver|].
  destruct (Z.eqb_spec x hash) as [->|Hne].
  - rewrite elem_of_cons. split; [intros Hh; split; [by right|congruence]|intros [[->|?] ?]; done].
  - rewrite !elem_of_cons, IH. naive_solver.
Qed.

Lemma remove_first_sub hash l : Lookup.remove_first hash l `sublist_of` l.
Proof.
  induction l as [|x l IH]; cbn; [constructor|]. case_match; [by apply sublist_cons|by apply sublist_skip].
Qed.

Lemma Add_ok t tx :
  lk_ok t → lk_txs t !! Tx.Hash_ tx = None → lk_ok (Lookup.Add t tx).
Proof.
  intros [Hh Hs Ha Hn] Hnew. split; cbn.
  - intros h x. rewrite lookup_insert_Some. intros [[<- <-]|[_ Hx]]; [done|by apply Hh].
  - rewrite map_to_list_insert by done. cbn. lia.
  - intros a h. destruct (addAuthorities_lookup (Tx.Hash_ tx) (SetCodeAuthorities tx) (auths t) a h Hn) as [_ ->].
    rewrite Ha. split.
    + intros [(x & Hx & Hax)|[Hax ->]]; [|exists tx; by rewrite lookup_insert_eq].
      exists x. rewrite lookup_insert_ne; [done|]. intros <-. congruence.
    + intros (x & Hx & Hax). apply lookup_insert_Some in Hx as [[<- <-]|[_ Hx]]; [by right|left; by exists x].
  - by destruct (addAuthorities_lookup (Tx.Hash_ tx) (SetCodeAuthorities tx) (auths t) 0 0 Hn).
Qed.

Lemma removeAuthorities_lookup t hash a h :
  auths_ok (auths t) →
  h ∈ default [] (auths (Lookup.removeAuthorities t hash) !! a) ↔ h ∈ default [] (auths t !! a) ∧ h ≠ hash.
Proof.
  intros Hn. cbn. rewrite lookup_omap. destruct (auths t !! a) as [l|] eqn:E; cbn.
  - rewrite <- drop_hash_elem by (by apply (Hn a)).
    destruct (Lookup.remove_first hash l) eqn:E'; cbn; [by rewrite elem_of_nil|done].
  - rewrite elem_of_nil. naive_solver.
Qed.

Lemma Remove_ok t hash : lk_ok t → lk_ok (Lookup.Remove t hash).
Proof.
  intros [Hh Hs Ha Hn].
  assert (Hn' : auths_ok (auths (Lookup.removeAuthorities t hash))).
  { intros a l. cbn. rewrite lookup_omap. intros (k & Hk & Hl)%bind_Some. cbn in Hl.
    destruct (Hn a k Hk) as [Hnd _]. pose proof (remove_first_sub hash k) as Hsub.
    destruct (Lookup.remove_first hash k) eqn:E; [done|]. injection Hl as <-.
    split; [|done]. by eapply sublist_NoDup. }
  assert (Hau : ∀ a h, h ∈ default [] (auths (Lookup.removeAuthorities t hash) !! a) ↔
    ∃ tx, delete hash (lk_txs t) !! h = Some tx ∧ a ∈ SetCodeAuthorities tx).
  { intros a h. rewrite removeAuthorities_lookup, Ha by done. setoid_rewrite lookup_delete_Some. naive_solver. }
  unfold Lookup.Remove. change (lk_txs (Lookup.removeAuthorities t hash)) with (lk_txs t).
  destruct (lk_txs t !! hash) as [tx|] eqn:E.
  - split; [|cbn|done|done].
    + intros h x Hx. cbn in Hx. apply lookup_delete_Some in Hx as [_ Hx]. by apply Hh.
    + rewrite Hs, <- (map_to_list_delete _ _ _ E). cbn. lia.
  - rewrite delete_id in Hau by done. by split.
Qed.

(** The table of the pool stays consistent: a transaction is found by its
    hash alone, the slots counted are those of the transactions it holds, and
    an account is listed as an authority exactly of the transactions that carry
    its authorization. *)
Theorem lookup_consistent t tx hash :
  lk_ok t → lk_txs t !! Tx.Hash_ tx = None →
  lk_ok (Lookup.Add t tx) ∧ lk_ok (Lookup.Remove t hash) ∧
  Lookup.Get (Lookup.Add t tx) (Tx.Hash_ tx) = Some tx ∧
  Lookup.Get (Lookup.Remove t hash) hash = None.
Proof.
  intros Hok Hnew. split_and!; [by apply Add_ok|by apply Remove_ok| |].
  - unfold Lookup.Get. cbn. by rewrite lookup_insert_eq.
  - unfold Lookup.Get, Lookup.Remove. change (lk_txs (Lookup.removeAuthorities t hash)) with (lk_txs t).
    destruct (lk_txs t !! hash) eqn:E; cbn; [by rewrite lookup_delete_eq|done].
Qed.
End Laws.

(** ** Concrete inputs *)

Definition ex_priced_tx (hash nonce cap tip : Z) : Transaction :=
  MkTx (TDynamicFee (DynamicFeeTx.mk 1 nonce tip cap 21000 (Some 7) 0 [] [] 0 0 0)) hash 200 0.

Definition no_authorities : Authorities := λ _, None.

Definition ex_table : lookup_ :=
  @Lookup.Add no_authorities (@Lookup.Add no_authorities
    (@Lookup.Add no_authorities newLookup (ex_priced_tx 1 0 30 3)) (ex_priced_tx 2 1 20 5)) (ex_priced_tx 3 0 40 1).

(** A heap that still holds a transaction the pool no longer has. *)
Definition ex_priced : pricedList :=
  fold_left Priced.Put
    [ex_priced_tx 1 0 30 3; ex_priced_tx 9 4 10 1; ex_priced_tx 2 1 20 5; ex_priced_tx 3 0 40 1]
    (MkPricedList 1 (MkPriceHeap (Some 10) []) (MkPriceHeap None [])).

Lemma ex_priced_ok : Priced.priced_ok ex_priced.
Proof.
  unfold ex_priced, fold_left. do 4 (apply (Priced.Put_spec ex_table)). by split.
Qed.

Lemma evict_spec_witness :
  Priced.priced_ok ex_priced ∧
  (∃ l', Priced.Discard ex_table ex_priced 1 = Some ([ex_priced_tx 3 0 40 1], true, l')) ∧
  ∃ drop ok l', Priced.Discard ex_table ex_priced 1 = Some (drop, ok, l') ∧ Priced.priced_ok l' ∧
    Priced.tracked ex_table ex_priced ≡ₚ drop ++ Priced.tracked ex_table l' ∧
    (if ok : bool then
       1 <= Priced.total_slots drop ∧ ∀ d x, drop = d ++ [x] → Priced.total_slots d < 1
     else drop = [] ∧ Priced.total_slots (Priced.tracked ex_table ex_priced) < 1).
Proof.
  split; [exact ex_priced_ok|]. split; [eexists; vm_compute; reflexivity|].
  exact (Priced.evict_spec ex_table ex_priced 1 ex_priced_ok).
Defined.

Lemma underpriced_exact_witness :
  Priced.priced_ok ex_priced ∧
  ∃ b l', Priced.Underpriced ex_table ex_priced (ex_priced_tx 5 0 15 1) = Some (b, l') ∧
    Priced.priced_ok l' ∧ Priced.tracked ex_table l' ≡ₚ Priced.tracked ex_table ex_priced ∧
    (b = true ↔ Priced.tracked ex_table ex_priced ≠ [] ∧
      (∀ y, y ∈ Priced.live ex_table (ph_list (urgent ex_priced)) →
        0 <= Priced.cmp (baseFee (urgent ex_priced)) y (ex_priced_tx 5 0 15 1)) ∧
      (∀ y, y ∈ Priced.live ex_table (ph_list (floating ex_priced)) →
        0 <= Priced.cmp (baseFee (floating ex_priced)) y (ex_priced_tx 5 0 15 1))).
Proof.
  split; [exact ex_priced_ok|].
  exact (Priced.underpriced_exact ex_table ex_priced (ex_priced_tx 5 0 15 1) ex_priced_ok).
Defined.

Lemma lookup_consistent_witness :
  @lk_ok no_authorities newLookup ∧
  (@lk_ok no_authorities (@Lookup.Add no_authorities newLookup (ex_priced_tx 1 0 30 3)) ∧
   @lk_ok no_authorities (Lookup.Remove newLookup 7) ∧
   Lookup.Get (@Lookup.Add no_authorities newLookup (ex_priced_tx 1 0 30 3)) 1 = Some (ex_priced_tx 1 0 30 3) ∧
   Lookup.Get (Lookup.Remove newLookup 7) 7 = None).
Proof.
  split; [exact (@newLookup_ok no_authorities)|].
  exact (@lookup_consistent no_authorities newLookup (ex_priced_tx 1 0 30 3) 7
    (@newLookup_ok no_authorities) eq_refl).
Defined.
End LookupLaws.
