(* ===== verification/ParallelList.v ===== *)
(** * The transaction list of one account

    parallelizable-client-go-ethereum/core/txpool/parallelpool/list.go: the
    transactions of an account indexed twice, by nonce and by hash, with
    replacement by price and the two sorted views [Ready] and [Flatten].

    The mutex is not modelled: every method holds it from its first to its last
    statement. *)

From S2P Require Import Prelude GoSort TxTypes.

(** ** Data and operations *)

Record parallelList : Type := MkParallelList {
  items : gmap Z Transaction;
  txs : gmap Z Transaction
}.

(** The client's [ParallelTxData]. *)
Record ParallelTxData : Type := MkParallelTxData {
  Dependencies : list Hash
}.

Definition newParallelList : parallelList := MkParallelList ∅ ∅.

Module ParallelList.
Definition Add (l : parallelList) (tx : Transaction) : parallelList * bool :=
  let hash := Tx.Hash_ tx in
  let nonce := Tx.Nonce tx in
  match txs l !! hash with
  | Some _ => (l, false)
  | None =>
      match items l !! nonce with
      | Some old =>
          if Cmp (Tx.GasPrice tx) (Tx.GasPrice old) >? 0 then
            (MkParallelList (<[nonce := tx]> (items l))
               (delete (Tx.Hash_ old) (<[hash := tx]> (txs l))), true)
          else (l, false)
      | None =>
          (MkParallelList (<[nonce := tx]> (items l)) (<[hash := tx]> (txs l)), true)
      end
  end.

Definition Get (l : parallelList) (nonce : Z) : option Transaction := items l !! nonce.

Definition GetByHash (l : parallelList) (hash : Hash) : option Transaction := txs l !! hash.

Definition Remove (l : parallelList) (hash : Hash) : parallelList :=
  match txs l !! hash with
  | None => l
  | Some tx => MkParallelList (delete (Tx.Nonce tx) (items l)) (delete hash (txs l))
  end.

Definition extractParallelTxData (tx : Transaction) : ParallelTxData := MkParallelTxData [].

Definition isParallelizableTx (tx : Transaction) (txData : ParallelTxData) : bool :=
  len (Dependencies txData) =? 0.

(** The comparator of [Ready]. *)
Definition ready_less (txI txJ : Transaction) : bool :=
  if negb (Tx.Nonce txI =? Tx.Nonce txJ) then Tx.Nonce txI <? Tx.Nonce txJ
  else
    let txDataI := extractParallelTxData txI in
    let txDataJ := extractParallelTxData txJ in
    let isParallelI := isParallelizableTx txI txDataI in
    let isParallelJ := isParallelizableTx txJ txDataJ in
    if negb (Bool.eqb isParallelI isParallelJ) then isParallelI
    else Cmp (Tx.GasPrice txI) (Tx.GasPrice txJ) >? 0.

(** The loop of [Ready] that splits the sorted slice. *)
Definition group_step (acc : list Transaction * list Transaction) (tx : Transaction)
    : list Transaction * list Transaction :=
  let '(independent, dependent) := acc in
  let txData := extractParallelTxData tx in
  if len (Dependencies txData) =? 0 then (independent ++ [tx], dependent)
  else (independent, dependent ++ [tx]).

Definition Ready `{MapRange, StableSorter} (l : parallelList) : list Transaction :=
  if map_len (items l) =? 0 then []
  else
    let txs := range_values (items l) in
    let txs := sort_SliceStable ready_less txs in
    let '(independent, dependent) := fold_left group_step txs ([], []) in
    independent ++ dependent.

Definition Flatten `{MapRange, Sorter} (l : parallelList) : list Transaction :=
  if map_len (items l) =? 0 then []
  else sort_Slice (λ i j, Tx.Nonce i <? Tx.Nonce j) (range_values (items l)).

Definition Len (l : parallelList) : Z := map_len (items l).

Definition Empty (l : parallelList) : bool := map_len (items l) =? 0.

(** ** Invariant *)

(** The two indices hold the same transactions, each under its own key. *)
Record wf (l : parallelList) : Prop := {
  wf_items n tx : items l !! n = Some tx → Tx.Nonce tx = n ∧ txs l !! Tx.Hash_ tx = Some tx;
  wf_txs h tx : txs l !! h = Some tx → Tx.Hash_ tx = h ∧ items l !! Tx.Nonce tx = Some tx
}.

(** The transactions of the list. *)
Definition contents (l : parallelList) (tx : Transaction) : Prop :=
  items l !! Tx.Nonce tx = Some tx.

Lemma newParallelList_wf : wf newParallelList.
Proof. split; intros ??; simpl; by rewrite lookup_empty. Qed.

Lemma Add_wf l tx : wf l → wf (Add l tx).1.
Proof.
  intros [Hi Ht]. unfold Add.
  destruct (txs l !! Tx.Hash_ tx) eqn:Hh; [done|].
  destruct (items l !! Tx.Nonce tx) as [old|] eqn:Hn.
  - destruct (Hi _ _ Hn) as [Hon Hoh].
    destruct (_ >? 0); simpl; [|done]. split; simpl.
    + intros n t. rewrite lookup_insert_Some. intros [[<- <-]|[Hne Hnt]].
      * split; [done|]. rewrite lookup_delete_ne, lookup_insert_eq by congruence. done.
      * destruct (Hi _ _ Hnt) as [<- Hth]. split; [done|].
        assert (Tx.Hash_ old ≠ Tx.Hash_ t) by congruence.
        rewrite lookup_delete_ne, lookup_insert_ne by congruence. done.
    + intros h t. rewrite lookup_delete_Some, lookup_insert_Some.
      intros [Hne [[<- <-]|[Hne' Hth]]]; [by rewrite lookup_insert_eq|].
      destruct (Ht _ _ Hth) as [<- Htn]. split; [done|].
      rewrite lookup_insert_ne; [done|]. intros Heq. congruence.
  - simpl. split; simpl.
    + intros n t. rewrite lookup_insert_Some. intros [[<- <-]|[Hne Hnt]].
      * by rewrite lookup_insert_eq.
      * destruct (Hi _ _ Hnt) as [<- Hth]. by rewrite lookup_insert_ne by congruence.
    + intros h t. rewrite lookup_insert_Some. intros [[<- <-]|[Hne Hth]].
      * by rewrite lookup_insert_eq.
      * destruct (Ht _ _ Hth) as [<- Htn]. by rewrite lookup_insert_ne by congruence.
Qed.

Lemma Remove_wf l h : wf l → wf (Remove l h).
Proof.
  intros [Hi Ht]. unfold Remove. destruct (txs l !! h) as [tx|] eqn:Hh; [|done].
  destruct (Ht _ _ Hh) as [<- Hn]. split; simpl.
  - intros n t. rewrite lookup_delete_Some. intros [Hne Hnt].
    destruct (Hi _ _ Hnt) as [<- Hth]. rewrite lookup_delete_ne by congruence. done.
  - intros h t. rewrite lookup_delete_Some. intros [Hne Hth].
    destruct (Ht _ _ Hth) as [<- Htn]. rewrite lookup_delete_ne by congruence. done.
Qed.

(** Adding and removing keep the index by nonce and the index by hash of an
    account the two views of one set of transactions: whatever is replaced or
    removed leaves both, nothing that is refused enters either, and of the
    offers for a nonce the list never trades one for a cheaper one. *)
Theorem indexes_agree l tx h :
  wf l →
  wf (Add l tx).1 ∧ wf (Remove l h) ∧
  (∀ n old, Get l n = Some old →
    ∃ new, Get (Add l tx).1 n = Some new ∧ Tx.GasPrice old <= Tx.GasPrice new).
Proof.
  intros Hw. split_and!; [by apply Add_wf|by apply Remove_wf|].
  intros n old Hold. unfold Get, Add in *.
  destruct (txs l !! Tx.Hash_ tx); simpl; [eexists; split; [done|lia]|].
  destruct (items l !! Tx.Nonce tx) as [old'|] eqn:Hn; simpl.
  - rewrite Z.gtb_ltb, Cmp_gtb. destruct (Z.ltb_spec (Tx.GasPrice old') (Tx.GasPrice tx)); simpl;
      [|eexists; split; [done|lia]].
    rewrite lookup_insert. case_decide; [|eexists; split; [done|lia]].
    eexists; split; [done|]. simplify_eq. lia.
  - rewrite lookup_insert_ne by congruence. eexists; split; [done|lia].
Qed.

(** ** Functional behaviour *)

(** What [Add] does to the index by nonce, and when it reports success. *)
Lemma Add_result l tx :
  (Add l tx).2 = true ↔
  GetByHash l (Tx.Hash_ tx) = None ∧
  (∀ old, Get l (Tx.Nonce tx) = Some old → Tx.GasPrice old < Tx.GasPrice tx).
Proof.
  unfold Add, GetByHash, Get. destruct (txs l !! Tx.Hash_ tx); [naive_solver|].
  destruct (items l !! Tx.Nonce tx) as [old|]; [|naive_solver].
  rewrite Z.gtb_ltb, Cmp_gtb. destruct (Z.ltb_spec (Tx.GasPrice old) (Tx.GasPrice tx)); simpl.
  - naive_solver.
  - split; [done|]. intros [_ H']. specialize (H' _ eq_refl). lia.
Qed.

Lemma Add_items l tx :
  items (Add l tx).1 =
    if (Add l tx).2 then <[Tx.Nonce tx := tx]> (items l) else items l.
Proof.
  unfold Add. destruct (txs l !! Tx.Hash_ tx); [done|].
  destruct (items l !! Tx.Nonce tx); [|done]. by destruct (_ >? 0).
Qed.

Lemma Add_rejected l tx : (Add l tx).2 = false → (Add l tx).1 = l.
Proof.
  unfold Add. destruct (txs l !! Tx.Hash_ tx); [done|].
  destruct (items l !! Tx.Nonce tx); [|done]. by destruct (_ >? 0).
Qed.

(** After [Add] the nonce is taken, by the new transaction or by one that is at
    least as expensive. *)
Lemma Add_nonempty l tx : wf l → items (Add l tx).1 ≠ ∅.
Proof.
  intros [Hi Ht]. unfold Add. destruct (txs l !! Tx.Hash_ tx) as [t|] eqn:Hh; simpl.
  - destruct (Ht _ _ Hh) as [_ Hn]. intros He. by rewrite He, lookup_empty in Hn.
  - destruct (items l !! Tx.Nonce tx) as [old|] eqn:Hn.
    + destruct (_ >? 0); simpl; [apply insert_non_empty|].
      intros He. by rewrite He, lookup_empty in Hn.
    + simpl. apply insert_non_empty.
Qed.

Lemma contents_Add l tx t :
  contents (Add l tx).1 t → t = tx ∨ contents l t.
Proof.
  unfold contents. rewrite Add_items. destruct (Add l tx).2; [|by right].
  rewrite lookup_insert_Some. naive_solver.
Qed.

Lemma contents_Remove l h t :
  wf l → contents (Remove l h) t ↔ contents l t ∧ Tx.Hash_ t ≠ h.
Proof.
  intros [Hi Ht]. unfold contents, Remove. destruct (txs l !! h) as [tx|] eqn:Hh; simpl.
  - destruct (Ht _ _ Hh) as [<- Hn]. rewrite lookup_delete_Some. split.
    + intros [Hne Hc]. split; [done|]. intros Heq.
      destruct (Hi _ _ Hc) as [_ Hth]. rewrite Heq in Hth. congruence.
    + intros [Hc Hne]. split; [|done]. intros Heq. rewrite <-Heq in Hc. congruence.
  - split; [|tauto]. intros Hc. split; [done|]. intros <-.
    destruct (Hi _ _ Hc) as [_ Hth]. congruence.
Qed.

Lemma contents_items l n tx : wf l → items l !! n = Some tx → contents l tx.
Proof. intros [Hi _] Hn. by destruct (Hi _ _ Hn) as [<- _]. Qed.

Lemma contents_txs l h tx : wf l → txs l !! h = Some tx → contents l tx.
Proof. intros [_ Ht] Hh. by destruct (Ht _ _ Hh) as [_ Hc]. Qed.

(** The transaction that leaves is the one with that hash, and removing twice is
    removing once. *)
Lemma Remove_absent l h : txs l !! h = None → Remove l h = l.
Proof. intros Hh. unfold Remove. by rewrite Hh. Qed.

Lemma Remove_comm l h1 h2 : Remove (Remove l h1) h2 = Remove (Remove l h2) h1.
Proof.
  destruct (decide (h1 = h2)) as [->|Hne]; [done|].
  unfold Remove.
  destruct (txs l !! h1) as [t1|] eqn:H1; destruct (txs l !! h2) as [t2|] eqn:H2; simpl;
    rewrite ?lookup_delete_ne, ?H1, ?H2 by congruence; simpl; try done.
  f_equal; apply delete_delete.
Qed.

Lemma Remove_idemp l h : Remove (Remove l h) h = Remove l h.
Proof.
  unfold Remove at 2 3. destruct (txs l !! h) eqn:Hh.
  - unfold Remove. simpl. by rewrite lookup_delete_eq.
  - unfold Remove. by rewrite Hh.
Qed.

(** ** The sorted views *)

Lemma ready_less_lex txI txJ :
  ready_less txI txJ = less_lex (less_by Tx.Nonce) (more_by Tx.GasPrice) txI txJ.
Proof.
  unfold ready_less, less_lex, less_by, more_by, isParallelizableTx, extractParallelTxData.
  simpl. rewrite Z.gtb_ltb, Cmp_gtb.
  destruct (Z.eqb_spec (Tx.Nonce txI) (Tx.Nonce txJ)) as [->|Hne]; simpl.
  - by rewrite Z.ltb_irrefl.
  - destruct (Z.ltb_spec (Tx.Nonce txI) (Tx.Nonce txJ)); simpl; [done|].
    by destruct (Z.ltb_spec (Tx.Nonce txJ) (Tx.Nonce txI)); [|lia].
Qed.

#[export] Instance ready_less_weak : StrictWeak ready_less.
Proof.
  pose proof (less_lex_weak (less_by Tx.Nonce) (more_by Tx.GasPrice) _ _) as [Hi Ht Hn].
  split; intros *; rewrite !ready_less_lex; eauto.
Qed.

(** No transaction of the client has dependencies, so the second group is
    empty and the split keeps the order. *)
Lemma group_independent l acc dep :
  fold_left group_step l (acc, dep) = (acc ++ l, dep).
Proof.
  revert acc. induction l as [|tx l IH]; intros acc; simpl; [by rewrite app_nil_r|].
  by rewrite IH, <-app_assoc.
Qed.

Section Views.
Context `{MapRange, StableSorter, Sorter}.

Lemma Ready_sorted_items l : Ready l = sort_SliceStable ready_less (range_values (items l)).
Proof.
  unfold Ready. destruct (Z.eqb_spec (map_len (items l)) 0) as [He|_].
  - apply map_len_zero in He. rewrite He. symmetry. apply Permutation_nil_r.
    rewrite sort_SliceStable_perm, range_values_perm, map_to_list_empty. done.
  - by rewrite group_independent, app_nil_r.
Qed.

Lemma Flatten_sorted_items l :
  Flatten l = sort_Slice (less_by Tx.Nonce) (range_values (items l)).
Proof.
  unfold Flatten. destruct (Z.eqb_spec (map_len (items l)) 0) as [He|_]; [|done].
  apply map_len_zero in He. rewrite He. symmetry. apply Permutation_nil_r.
  rewrite sort_Slice_perm, range_values_perm, map_to_list_empty. done.
Qed.

(** Nonces separate the transactions of a list. *)
Lemma items_nonce_inj l x y :
  wf l → x ∈ range_values (items l) → y ∈ range_values (items l) →
  Tx.Nonce x = Tx.Nonce y → x = y.
Proof.
  intros Hw [n Hn]%range_values_elem [m Hm]%range_values_elem Heq.
  destruct (wf_items _ Hw _ _ Hn) as [<- _]. destruct (wf_items _ Hw _ _ Hm) as [<- _].
  congruence.
Qed.

Lemma Ready_elem l tx : wf l → tx ∈ Ready l ↔ contents l tx.
Proof.
  intros Hw. rewrite Ready_sorted_items, sort_SliceStable_elem, range_values_elem.
  split; [intros [n Hn]; by eapply contents_items|]. intros Hc. by eexists.
Qed.

Lemma items_nonces l : wf l → Tx.Nonce <$> range_values (items l) = (map_range (items l)).*1.
Proof.
  intros Hw. unfold range_values. rewrite <-list_fmap_compose.
  apply list_fmap_ext. intros i [n tx] Hi. simpl.
  apply list_elem_of_lookup_2, map_range_elem in Hi.
  by destruct (wf_items _ Hw _ _ Hi).
Qed.

Lemma Ready_nonces_NoDup l : wf l → NoDup (Tx.Nonce <$> Ready l).
Proof.
  intros Hw. rewrite Ready_sorted_items, sort_SliceStable_perm, items_nonces by done.
  apply map_range_NoDup.
Qed.

Lemma Flatten_elem l tx : wf l → tx ∈ Flatten l ↔ contents l tx.
Proof.
  intros Hw. rewrite Flatten_sorted_items, sort_Slice_elem, range_values_elem.
  split; [intros [n Hn]; by eapply contents_items|]. intros Hc. by eexists.
Qed.

Lemma Ready_by_nonce l : StronglySorted (not_after (less_by Tx.Nonce)) (Ready l).
Proof.
  rewrite Ready_sorted_items.
  eapply StronglySorted_weaken; [|apply sort_SliceStable_sorted, _].
  unfold not_after. intros x y. rewrite ready_less_lex. unfold less_lex.
  by intros [? _]%orb_false_iff.
Qed.
End Views.

(** A nonce-sorted permutation of the items is [Ready], whatever the iteration
    order and the algorithm. *)
Lemma Ready_unique (R : MapRange) (SS : StableSorter) l k :
  wf l → StronglySorted (not_after (less_by Tx.Nonce)) k →
  k ≡ₚ (map_to_list (items l)).*2 → @Ready R SS l = k.
Proof.
  intros Hw Hs Hp. pose proof (Ready_by_nonce l) as Hr.
  rewrite Ready_sorted_items in *. apply (sorted_perm_unique (less_by Tx.Nonce)); [|done..|].
  - intros x y. rewrite !sort_SliceStable_elem. unfold less_by. rewrite !Z.ltb_ge.
    intros Hx Hy ??. eapply (@items_nonce_inj R l); eauto; lia.
  - by rewrite sort_SliceStable_perm, range_values_perm, Hp.
Qed.

Lemma Ready_order (R1 R2 : MapRange) (SS1 SS2 : StableSorter) l :
  wf l → @Ready R1 SS1 l = @Ready R2 SS2 l.
Proof.
  intros Hw. apply Ready_unique; [done|apply Ready_by_nonce|].
  by rewrite Ready_sorted_items, sort_SliceStable_perm, range_values_perm.
Qed.

(** The executable view [Ready] and the plain view [Flatten] of an account
    are the same slice, for any two iteration orders of the map, any sorting
    algorithm behind [sort.SliceStable] and any behind [sort.Slice]: the
    grouping by dependencies and the tie-breaking by parallelizability and gas
    price that [Ready] announces never decide anything. *)
Theorem Ready_is_Flatten (R1 R2 : MapRange) (SS : StableSorter) (SO : Sorter) l :
  wf l → @Ready R1 SS l = @Flatten R2 SO l.
Proof.
  intros Hw. rewrite Flatten_sorted_items. apply Ready_unique; [done| |].
  - apply sort_Slice_sorted, _.
  - by rewrite sort_Slice_perm, range_values_perm.
Qed.

(** The executable view of an account lists exactly the transactions it
    holds, each once, in strictly increasing nonce order. *)
Theorem Ready_spec (R : MapRange) (SS : StableSorter) l :
  wf l →
  (∀ tx, tx ∈ Ready l ↔ contents l tx) ∧ len (Ready l) = Len l ∧
  StronglySorted (λ x y, Tx.Nonce x < Tx.Nonce y) (Ready l).
Proof.
  intros Hw. split; [|split].
  - intros tx. by apply Ready_elem.
  - unfold Len. rewrite Ready_sorted_items, <-map_len_range.
    apply len_perm, sort_SliceStable_perm.
  - apply sorted_strict; [|by apply Ready_nonces_NoDup].
    eapply StronglySorted_weaken; [|apply Ready_by_nonce].
    intros x y. unfold not_after, less_by. apply Z.ltb_ge.
Qed.

(** The best offer for a nonce: a transaction that [Add] is offered ends up in
    the list, or the list holds one with its hash or one at least as
    expensive for its nonce. *)
Lemma Add_best l tx :
  wf l →
  ∃ t, contents (Add l tx).1 t ∧
    (Tx.Hash_ t = Tx.Hash_ tx ∨ Tx.Nonce t = Tx.Nonce tx ∧ Tx.GasPrice tx <= Tx.GasPrice t).
Proof.
  intros Hw. unfold Add. destruct (txs l !! Tx.Hash_ tx) as [t|] eqn:Hh; simpl.
  - exists t. destruct (wf_txs _ Hw _ _ Hh) as [Hht Hc]. by split; [|left].
  - destruct (items l !! Tx.Nonce tx) as [old|] eqn:Hn.
    + rewrite Z.gtb_ltb, Cmp_gtb. destruct (Z.ltb_spec (Tx.GasPrice old) (Tx.GasPrice tx)); simpl.
      * exists tx. split; [|by left]. unfold contents. simpl. by rewrite lookup_insert_eq.
      * exists old. destruct (wf_items _ Hw _ _ Hn) as [Hon _]. split; [|right; split; done || lia].
        by eapply contents_items.
    + exists tx. split; [|by left]. unfold contents. simpl. by rewrite lookup_insert_eq.
Qed.

(** ** Concrete inputs *)

Definition ex_list_tx (hash nonce price : Z) : Transaction :=
  MkTx (TLegacy (LegacyTx.mk nonce price 21000 (Some 7) 0 [] 0 0 0)) hash 0 0.
Definition ex_list : parallelList :=
  (Add (Add newParallelList (ex_list_tx 11 4 9)).1 (ex_list_tx 12 3 9)).1.

Lemma indexes_agree_witness :
  wf ex_list ∧
  (wf (Add ex_list (ex_list_tx 13 3 8)).1 ∧ wf (Remove ex_list 11) ∧
   (∀ n old, Get ex_list n = Some old →
     ∃ new, Get (Add ex_list (ex_list_tx 13 3 8)).1 n = Some new ∧
       Tx.GasPrice old <= Tx.GasPrice new)).
Proof.
  assert (wf ex_list) as Hw by apply Add_wf, Add_wf, newParallelList_wf.
  split; [exact Hw|]. exact (indexes_agree ex_list (ex_list_tx 13 3 8) 11 Hw).
Defined.

Lemma Ready_is_Flatten_witness :
  wf ex_list ∧
  @Ready canonical_range insertion_stable_sorter ex_list = @Flatten reverse_range insertion_sorter ex_list.
Proof.
  assert (wf ex_list) as Hw by apply Add_wf, Add_wf, newParallelList_wf.
  split; [exact Hw|]. exact (Ready_is_Flatten _ _ _ _ ex_list Hw).
Defined.

Lemma Ready_spec_witness :
  wf ex_list ∧ Len ex_list = 2 ∧
  ((∀ tx, tx ∈ Ready ex_list ↔ contents ex_list tx) ∧ len (Ready ex_list) = Len ex_list ∧
   StronglySorted (λ x y, Tx.Nonce x < Tx.Nonce y) (Ready ex_list)).
Proof.
  assert (wf ex_list) as Hw by apply Add_wf, Add_wf, newParallelList_wf.
  split; [exact Hw|]. split; [reflexivity|]. exact (Ready_spec canonical_range _ ex_list Hw).
Defined.
End ParallelList.
