(* ===== verification/PoolParts.v ===== *)
(** * The small structures of the parallel pool

    parallelizable-client-go-ethereum/core/txpool/parallelpool: the journal, the
    set of local accounts and the price-sorted list (parallelpool.go), and the
    lookup table (interfaces.go). *)

From S2P Require Import Prelude GoSort TxTypes.

(** ** The journal *)

Record journal : Type := MkJournal { transactions : list Transaction }.

Definition newJournal : journal := MkJournal [].

Definition journal_Add (j : journal) (tx : Transaction) : journal :=
  MkJournal (transactions j ++ [tx]).

(** ** The set of accounts *)

Record accountSet : Type := MkAccountSet {
  accounts : gmap Z unit;
  txTypes : gmap Z bool
}.

Definition newAccountSet (types : list Z) : accountSet :=
  MkAccountSet ∅ (fold_left (λ m ty, <[ty := true]> m) types ∅).

Module AccountSet.
Definition add (as_ : accountSet) (addr : Address) : accountSet :=
  MkAccountSet (<[addr := tt]> (accounts as_)) (txTypes as_).

Definition addresses `{MapRange} (as_ : accountSet) : list Address :=
  (map_range (accounts as_)).*1.

Definition contains (as_ : accountSet) (addr : Address) : bool :=
  bool_decide (is_Some (accounts as_ !! addr)).

Lemma contains_add as_ a b : contains (add as_ a) b = bool_decide (a = b) || contains as_ b.
Proof.
  unfold contains, add. simpl. destruct (decide (a = b)) as [->|Hne].
  - by rewrite lookup_insert_eq, !(bool_decide_eq_true_2 (b = b)).
  - rewrite lookup_insert_ne, (bool_decide_eq_false_2 (a = b)) by done. done.
Qed.

Lemma addresses_spec `{MapRange} as_ :
  NoDup (addresses as_) ∧ ∀ a, a ∈ addresses as_ ↔ contains as_ a = true.
Proof.
  unfold addresses. split; [apply map_range_NoDup|]. intros a. unfold contains.
  rewrite bool_decide_eq_true, list_elem_of_fmap. split.
  - intros ([b []] & -> & Hb%map_range_elem). by eexists.
  - intros [[] Ha]. exists (a, tt). split; [done|]. by apply map_range_elem.
Qed.
End AccountSet.

(** ** The lookup table *)

Record txLookup : Type := MkTxLookup { lookup_all : gmap Z Transaction }.

Definition newTxLookup : txLookup := MkTxLookup ∅.

Module TxLookup.
Definition Get (t : txLookup) (hash : Hash) : option Transaction := lookup_all t !! hash.

Definition Count (t : txLookup) : Z := map_len (lookup_all t).

Definition Add (t : txLookup) (tx : Transaction) : txLookup :=
  MkTxLookup (<[Tx.Hash_ tx := tx]> (lookup_all t)).

Definition Remove (t : txLookup) (hash : Hash) : txLookup :=
  MkTxLookup (delete hash (lookup_all t)).
End TxLookup.

(** ** The price-sorted list *)

(** Prices descending.  The field [all] of the Go struct, which no method
    reads, is the pool's own table. *)
Record parallelPricedList : Type := MkPricedList {
  priced_items : list Transaction;
  stales : Z
}.

Definition newParallelPricedList : parallelPricedList := MkPricedList [] 0.

Module PricedList.
Section Operations.
Context `{Sorter}.

Definition price_less (i j : Transaction) : bool :=
  Cmp (Tx.GasPrice i) (Tx.GasPrice j) >? 0.

Definition Put (l : parallelPricedList) (tx : Transaction) : parallelPricedList :=
  MkPricedList (sort_Slice price_less (priced_items l ++ [tx])) (stales l).

(** The loop of [Remove]: the first item with that hash goes. *)
Fixpoint remove_first (hash : Hash) (l : list Transaction) : list Transaction :=
  match l with
  | [] => []
  | item :: l => if Tx.Hash_ item =? hash then l else item :: remove_first hash l
  end.

Definition Remove (l : parallelPricedList) (tx : Transaction) : parallelPricedList :=
  MkPricedList (remove_first (Tx.Hash_ tx) (priced_items l)) (stales l).

Definition Underpriced (l : parallelPricedList) (tx : Transaction) : bool :=
  match last (priced_items l) with
  | None => false
  | Some item => Cmp (Tx.GasPrice item) (Tx.GasPrice tx) >=? 0
  end.

(** [None] is the panic of the slice expression on a negative count. *)
Definition Discard (l : parallelPricedList) (count : Z)
    : option (parallelPricedList * list Transaction) :=
  let count := if count >? len (priced_items l) then len (priced_items l) else count in
  if count <? 0 then None
  else
    let keep := Z.to_nat (len (priced_items l) - count) in
    Some (MkPricedList (take keep (priced_items l)) (stales l), drop keep (priced_items l)).

(** ** Invariant *)

(** Descending prices. *)
Definition sorted (l : parallelPricedList) : Prop :=
  StronglySorted (λ x y, Tx.GasPrice y <= Tx.GasPrice x) (priced_items l).

Lemma price_less_more i j : price_less i j = more_by Tx.GasPrice i j.
Proof. unfold price_less, more_by. by rewrite Z.gtb_ltb, Cmp_gtb. Qed.

Lemma price_less_weak : StrictWeak price_less.
Proof.
  destruct (more_by_weak Tx.GasPrice) as [Hi Ht Hn].
  split; intros *; rewrite !price_less_more; eauto.
Qed.

Lemma new_sorted : sorted newParallelPricedList.
Proof. constructor. Qed.

Lemma Put_sorted l tx : sorted (Put l tx).
Proof.
  unfold sorted, Put. simpl.
  eapply StronglySorted_weaken; [|apply sort_Slice_sorted, price_less_weak].
  unfold not_after. intros x y. rewrite price_less_more. unfold more_by.
  by rewrite Z.ltb_ge.
Qed.

Lemma Put_perm l tx : priced_items (Put l tx) ≡ₚ tx :: priced_items l.
Proof. unfold Put. simpl. rewrite sort_Slice_perm, Permutation_app_comm. done. Qed.

Lemma remove_first_sublist h l : remove_first h l `sublist_of` l.
Proof.
  induction l as [|x l IH]; simpl; [done|]. destruct (_ =? _).
  - by apply sublist_cons.
  - by apply sublist_skip.
Qed.

Lemma StronglySorted_sublist {A} (R : A → A → Prop) l k :
  l `sublist_of` k → StronglySorted R k → StronglySorted R l.
Proof.
  induction 1 as [|x l k Hs IH|x l k Hs IH]; intros Hk; [done| |]; inversion Hk; subst.
  - constructor; [by apply IH|]. rewrite Forall_forall in *.
    intros y Hy. apply H3. apply sublist_subseteq in Hs. by apply Hs.
  - by apply IH.
Qed.

Lemma Remove_sorted l tx : sorted l → sorted (Remove l tx).
Proof.
  unfold sorted, Remove. simpl. apply StronglySorted_sublist, remove_first_sublist.
Qed.

Lemma remove_first_elem h l x :
  x ∈ l → Tx.Hash_ x ≠ h → x ∈ remove_first h l.
Proof.
  intros Hx Hne. induction l as [|y l IH]; simpl; [by apply not_elem_of_nil in Hx|].
  destruct (Z.eqb_spec (Tx.Hash_ y) h) as [Hy|]; apply elem_of_cons in Hx as [->|Hx].
  - congruence.
  - done.
  - by left.
  - right. by apply IH.
Qed.

Lemma remove_first_perm h l x :
  x ∈ l → Tx.Hash_ x = h → ∃ y, Tx.Hash_ y = h ∧ l ≡ₚ y :: remove_first h l.
Proof.
  intros Hx <-. induction l as [|y l IH]; simpl; [by apply not_elem_of_nil in Hx|].
  destruct (Z.eqb_spec (Tx.Hash_ y) (Tx.Hash_ x)) as [Hy|Hne]; [by exists y|].
  apply elem_of_cons in Hx as [->|Hx]; [done|].
  destruct (IH Hx) as (z & Hz & Hp). exists z. split; [done|].
  rewrite Hp at 1. apply Permutation_swap.
Qed.

Lemma remove_first_comm h1 h2 l :
  remove_first h1 (remove_first h2 l) = remove_first h2 (remove_first h1 l).
Proof.
  destruct (decide (h1 = h2)) as [->|Hne]; [done|].
  induction l as [|x l IH]; simpl; [done|].
  destruct (Z.eqb_spec (Tx.Hash_ x) h2) as [H2|H2], (Z.eqb_spec (Tx.Hash_ x) h1) as [H1|H1];
    simpl; [congruence| | |].
  - destruct (Z.eqb_spec (Tx.Hash_ x) h2); [done|congruence].
  - destruct (Z.eqb_spec (Tx.Hash_ x) h1); [done|congruence].
  - destruct (Z.eqb_spec (Tx.Hash_ x) h1), (Z.eqb_spec (Tx.Hash_ x) h2); try congruence.
Qed.

Lemma last_minimal l x y :
  StronglySorted (λ x y, Tx.GasPrice y <= Tx.GasPrice x) l →
  last l = Some y → x ∈ l → Tx.GasPrice y <= Tx.GasPrice x.
Proof.
  intros Hs Hl Hx. apply last_Some in Hl as [l' ->].
  apply elem_of_app in Hx as [Hx|Hx%list_elem_of_singleton]; [|subst; lia].
  apply (StronglySorted_app_1_elem_of _ l' [y] x y Hs Hx).
  by apply list_elem_of_singleton.
Qed.

(** On a price list that its operations built, [Underpriced] is the global
    test it stands for: the pool holds something, and nothing it holds is
    cheaper than the transaction. *)
Lemma Underpriced_spec l tx :
  sorted l →
  Underpriced l tx = true ↔
  priced_items l ≠ [] ∧ ∀ item, item ∈ priced_items l → Tx.GasPrice tx <= Tx.GasPrice item.
Proof.
  intros Hs. unfold Underpriced. destruct (last (priced_items l)) as [y|] eqn:Hl.
  - rewrite Z.geb_leb, Cmp_geb, Z.leb_le. split.
    + intros Hle. split; [intros He; by rewrite He in Hl|]. intros x Hx.
      pose proof (last_minimal _ _ _ Hs Hl Hx). lia.
    + intros [_ Hall]. apply Hall. by apply last_Some_elem_of.
  - apply last_None in Hl. rewrite Hl. naive_solver.
Qed.

(** [Discard] splits the list: it drops as many transactions as asked (all
    of them when there are fewer), none of them more expensive than any that
    stays, and it panics exactly on a negative count. *)
Theorem Discard_spec l count :
  sorted l →
  match Discard l count with
  | None => count < 0
  | Some (l', drop) =>
      0 <= count ∧ priced_items l = priced_items l' ++ drop ∧
      len drop = Z.min count (len (priced_items l)) ∧ sorted l' ∧
      ∀ x y, x ∈ priced_items l' → y ∈ drop → Tx.GasPrice y <= Tx.GasPrice x
  end.
Proof.
  intros Hs. unfold Discard. rewrite Z.gtb_ltb.
  assert ((if len (priced_items l) <? count then len (priced_items l) else count)
    = Z.min count (len (priced_items l))) as -> by (split_ifs; lia).
  set (n := Z.min _ _).
  pose proof (len_nonneg (priced_items l)).
  destruct (Z.ltb_spec n 0); [lia|]. simpl. set (k := Z.to_nat _).
  unfold sorted in Hs. rewrite <-(take_drop k (priced_items l)) in Hs.
  split_and!; [lia|by rewrite take_drop| | |].
  - unfold len in *. rewrite length_drop. unfold k. lia.
  - by eapply StronglySorted_app_1_l.
  - intros x y Hx Hy. by apply (StronglySorted_app_1_elem_of _ _ _ x y Hs).
Qed.
End Operations.

(** Two transactions, at 7 and 5 per unit of gas. *)
Definition example_tx (hash price : Z) : Transaction :=
  MkTx (TLegacy (LegacyTx.mk 0 price 21000 None 0 [] 0 0 0)) hash 0 0.
Definition example_list : parallelPricedList :=
  Put (Put newParallelPricedList (example_tx 1 5)) (example_tx 2 7).

Lemma Underpriced_spec_witness :
  Underpriced example_list (example_tx 3 5) = true ↔
  priced_items example_list ≠ [] ∧
  ∀ item, item ∈ priced_items example_list → Tx.GasPrice (example_tx 3 5) <= Tx.GasPrice item.
Proof. apply Underpriced_spec. apply Put_sorted. Defined.

Lemma Discard_spec_witness :
  match Discard example_list 1 with
  | None => 1 < 0
  | Some (l', drop) =>
      0 <= 1 ∧ priced_items example_list = priced_items l' ++ drop ∧
      len drop = Z.min 1 (len (priced_items example_list)) ∧ sorted l' ∧
      ∀ x y, x ∈ priced_items l' → y ∈ drop → Tx.GasPrice y <= Tx.GasPrice x
  end.
Proof. apply (Discard_spec example_list 1). apply Put_sorted. Defined.
End PricedList.
