(* ===== verification/StateInterface.v ===== *)
(** * What the pools use of the state

    The interface through which the transaction pools see a state database
    (core/state.StateDB): the nonce and the balance of an account, a copy, and
    the one write the simulated execution does.  [AccountState] has the
    operations and [AccountStateLaws] what the clients rely on; the file of the
    state database gives its own instance, and [map_state] is a small one. *)

From S2P Require Import Prelude.

Class AccountState (St : Type) : Type := {
  GetNonce : St → Address → Z;
  GetBalance : St → Address → Z;
  SetNonce : St → Address → Z → St;
  Copy : St → St
}.

Class AccountStateLaws (St : Type) `{AccountState St} : Prop := {
  GetNonce_Copy s a : GetNonce (Copy s) a = GetNonce s a;
  GetBalance_Copy s a : GetBalance (Copy s) a = GetBalance s a;
  GetNonce_SetNonce_eq s a n : GetNonce (SetNonce s a n) a = n;
  GetNonce_SetNonce_ne s a b n : a ≠ b → GetNonce (SetNonce s a n) b = GetNonce s b
}.

(** A state given by two tables, absent entries reading as zero. *)
Record map_state : Type := MkMapState {
  ms_nonces : gmap Z Z;
  ms_balances : gmap Z Z
}.

#[export] Instance map_state_account : AccountState map_state := {|
  GetNonce s a := default 0 (ms_nonces s !! a);
  GetBalance s a := default 0 (ms_balances s !! a);
  SetNonce s a n := MkMapState (<[a := n]> (ms_nonces s)) (ms_balances s);
  Copy s := s
|}.

#[export] Instance map_state_laws : AccountStateLaws map_state.
Proof.
  split; simpl; intros; [done|done|by rewrite lookup_insert_eq|].
  by rewrite lookup_insert_ne.
Qed.
