(* ===== verification/ParallelPool.v ===== *)
(** * The parallel pool

    parallelizable-client-go-ethereum/core/txpool/parallelpool/parallelpool.go:
    the pool, its state and its operations.

    The pool is generic over the signer (the Go field has the interface type
    [types.Signer]), over the state database ([AccountState]) and over the
    chain, as in the code.  Gauges, meters and logs are not modelled; [feed]
    records the events sent to the subscribers.  Every exported method but
    [ExecuteBatch] holds the pool's lock throughout, so a method is a function
    on the state; [ExecuteBatch] is taken to run with no other method beside it.

    Three names that the Go file uses are not declared in the repository
    ([Config.PriceLimit], the four-argument [core.IntrinsicGas], and, in [New],
    [newPriceHeap] and [statedb.ManageState]): they are parameters. *)

From S2P Require Import Prelude GoSort TxTypes Signers ParallelList PoolParts StateInterface.

(** ** Constants and errors *)

Fixpoint string_bytes (s : string) : bytes :=
  match s with
  | EmptyString => []
  | String c s => Z.of_N (Ascii.N_of_ascii c) :: string_bytes s
  end.

Definition ParallelizableTag : bytes := string_bytes "PARALLEL".
Definition SequentialTag : bytes := string_bytes "SEQUENTIAL".

Definition txMaxSize : Z := 4 * 1024 * 1024.
Definition DefaultBatchSize : Z := 64.
Definition MaxBatchSize : Z := 256.

Inductive pool_error : Type :=
  | ErrInvalidParallelTx
  | ErrIntrinsicGas
  | ErrNegativeValue
  | ErrOversizedData
  | ErrNonceTooLow
  | ErrInsufficientFunds
  | ErrInvalidSender
  | ErrUnderpriced
  | ErrSigner (err : signer_error)
  | ErrGasUintOverflow.

(** ** Data *)

Record PendingFilter : Type := MkPendingFilter {
  OnlyPlainTxs : bool;
  MinTip : option Z;
  BaseFee : option Z
}.

Record TxBatch : Type := MkTxBatch {
  Transactions : list Transaction;
  BatchID : Z
}.

(** The fields of a header that the pool reads. *)
Record Header : Type := MkHeader { Root : Hash; GasLimit : Z }.

Record ParallelPool (St : Type) : Type := MkPool {
  gasPrice : option Z;
  currentState : St;
  pendingState : St;
  currentMaxGas : Z;
  locals : accountSet;
  pool_journal : journal;
  pending : gmap Z parallelList;
  queue : gmap Z parallelList;
  all : gmap Z Transaction;
  priced : parallelPricedList;
  parallelizableTxs : gmap Z (list Transaction);
  batchedTxs : list TxBatch;
  batchSize : Z;
  feed : list (list Transaction)
}.
Arguments MkPool {St}. Arguments gasPrice {St}. Arguments currentState {St}.
Arguments pendingState {St}. Arguments currentMaxGas {St}. Arguments locals {St}.
Arguments pool_journal {St}. Arguments pending {St}. Arguments queue {St}.
Arguments all {St}. Arguments priced {St}. Arguments parallelizableTxs {St}.
Arguments batchedTxs {St}. Arguments batchSize {St}. Arguments feed {St}.

(** Assignments to the fields. *)
Section Setters.
Context {St : Type}.
Implicit Types p : ParallelPool St.

Definition set_states p cur pend maxGas : ParallelPool St :=
  MkPool (gasPrice p) cur pend maxGas (locals p) (pool_journal p) (pending p) (queue p)
    (all p) (priced p) (parallelizableTxs p) (batchedTxs p) (batchSize p) (feed p).
Definition set_locals p x : ParallelPool St :=
  MkPool (gasPrice p) (currentState p) (pendingState p) (currentMaxGas p) x (pool_journal p)
    (pending p) (queue p) (all p) (priced p) (parallelizableTxs p) (batchedTxs p)
    (batchSize p) (feed p).
Definition set_pending p x : ParallelPool St :=
  MkPool (gasPrice p) (currentState p) (pendingState p) (currentMaxGas p) (locals p)
    (pool_journal p) x (queue p) (all p) (priced p) (parallelizableTxs p) (batchedTxs p)
    (batchSize p) (feed p).
Definition set_queue p x : ParallelPool St :=
  MkPool (gasPrice p) (currentState p) (pendingState p) (currentMaxGas p) (locals p)
    (pool_journal p) (pending p) x (all p) (priced p) (parallelizableTxs p) (batchedTxs p)
    (batchSize p) (feed p).
Definition set_all p x y : ParallelPool St :=
  MkPool (gasPrice p) (currentState p) (pendingState p) (currentMaxGas p) (locals p)
    (pool_journal p) (pending p) (queue p) x y (parallelizableTxs p) (batchedTxs p)
    (batchSize p) (feed p).
Definition set_parallelizable p x : ParallelPool St :=
  MkPool (gasPrice p) (currentState p) (pendingState p) (currentMaxGas p) (locals p)
    (pool_journal p) (pending p) (queue p) (all p) (priced p) x (batchedTxs p)
    (batchSize p) (feed p).
Definition set_batches p x y : ParallelPool St :=
  MkPool (gasPrice p) (currentState p) (pendingState p) (currentMaxGas p) (locals p)
    (pool_journal p) (pending p) (queue p) (all p) (priced p) (parallelizableTxs p) x
    y (feed p).
Definition send_feed p x : ParallelPool St :=
  MkPool (gasPrice p) (currentState p) (pendingState p) (currentMaxGas p) (locals p)
    (pool_journal p) (pending p) (queue p) (all p) (priced p) (parallelizableTxs p)
    (batchedTxs p) (batchSize p) (feed p ++ [x]).
End Setters.

(** ** Batches *)

(** The locals of the loop of [prepareBatches]; [reads] counts the readings of
    the clock so far. *)
Record batch_state : Type := MkBatchState {
  bs_done : list TxBatch;
  bs_current : TxBatch;
  bs_txCount : Z;
  bs_reads : nat
}.

Section Batches.
Context (clock : nat → Z) (size : Z).

Definition batch_step (st : batch_state) (tx : Transaction) : batch_state :=
  let current := MkTxBatch (Transactions (bs_current st) ++ [tx]) (BatchID (bs_current st)) in
  let txCount := bs_txCount st + 1 in
  if txCount >=? size then
    MkBatchState (bs_done st ++ [current]) (MkTxBatch [] (clock (S (bs_reads st)))) 0
      (S (bs_reads st))
  else MkBatchState (bs_done st) current txCount (bs_reads st).

Definition batch_init : batch_state := MkBatchState [] (MkTxBatch [] (clock 0%nat)) 0 0.

(** The two nested loops, over the accounts and over their transactions. *)
Definition batch_accounts (accounts : list (Z * list Transaction)) : batch_state :=
  fold_left (λ st entry, fold_left batch_step entry.2 st) accounts batch_init.

Definition batch_finish (st : batch_state) : list TxBatch :=
  if bs_txCount st >? 0 then bs_done st ++ [bs_current st] else bs_done st.
End Batches.

(** ** Operations *)

Section Pool.
Context `{MR : MapRange, SO : Sorter, SS : StableSorter}.
Context {St : Type} `{AccountState St}.

(** [types.Sender(p.signer, tx)] *)
Context (types_Sender : Transaction → result signer_error Address).
(** [p.config.PriceLimit] *)
Context (PriceLimit : Z).
(** [core.IntrinsicGas(tx.Data(), tx.AccessList(), tx.To() == nil, isShanghai)] *)
Context (IntrinsicGas : bytes → AccessList → bool → bool → option Z).
Context (isShanghai : bool).
(** [p.chain.StateAt(root)]; [None] is an error. *)
Context (StateAt : Hash → option St).

(** [New]: [managed] and [newPriceHeap] are what the undeclared functions
    return. *)
Definition New (current managed : St) (newPriceHeap : parallelPricedList) : ParallelPool St := {|
  gasPrice := None;
  currentState := current;
  pendingState := managed;
  currentMaxGas := 0;
  locals := newAccountSet [];
  pool_journal := newJournal;
  pending := ∅;
  queue := ∅;
  all := ∅;
  priced := newPriceHeap;
  parallelizableTxs := ∅;
  batchedTxs := [];
  batchSize := DefaultBatchSize;
  feed := []
|}.

Definition Type_ : Z := ParallelTxType.

Definition Has (p : ParallelPool St) (hash : Hash) : bool := bool_decide (is_Some (all p !! hash)).

Definition Get (p : ParallelPool St) (hash : Hash) : option Transaction := all p !! hash.

(** The body of the filter loop of [Pending]: is the transaction kept? *)
Definition filter_keep (filter : PendingFilter) (tx : Transaction) : bool :=
  if OnlyPlainTxs filter && negb (Tx.Type_ tx =? LegacyTxType) then false
  else match MinTip filter, BaseFee filter with
  | Some minTip, Some baseFee =>
      let '(effectiveTip, err) := Tx.EffectiveGasTip tx (Some baseFee) in
      if err || (Cmp effectiveTip minTip <? 0) then false else true
  | _, _ => true
  end.

Definition filter_txs (filter : option PendingFilter) (txs : list Transaction)
    : list Transaction :=
  match filter with
  | Some filter =>
      fold_left (λ kept tx, if filter_keep filter tx then kept ++ [tx] else kept) txs []
  | None => txs
  end.

(** The result is a map, filled in the order of the iteration. *)
Definition Pending (p : ParallelPool St) (filter : option PendingFilter)
    : gmap Z (list Transaction) :=
  fold_left (λ result entry,
      <[entry.1 := filter_txs filter (ParallelList.Ready entry.2)]> result)
    (map_range (pending p)) ∅.

Definition PendingWithFilter (p : ParallelPool St) : gmap Z (list Transaction) := Pending p None.

Definition hasTag (txData : bytes) : bool :=
  if len txData >? 8 then bool_decide (take 8 txData = ParallelizableTag) else false.

Definition validateTx (p : ParallelPool St) (tx : Transaction) (local : bool)
    : option pool_error :=
  if Tx.Size tx >? txMaxSize then Some ErrOversizedData
  else if Z.sgn (Tx.Value tx) <? 0 then Some ErrNegativeValue
  else match types_Sender tx with
  | Err _ => Some ErrInvalidSender
  | Ok from =>
      if negb local && (Tx.GasFeeCapIntCmp tx PriceLimit <? 0) then Some ErrUnderpriced
      else if GetNonce (currentState p) from >? Tx.Nonce tx then Some ErrNonceTooLow
      else
        let isParallelizable := hasTag (Tx.Data tx) in
        if Cmp (GetBalance (currentState p) from) (Tx.Cost tx) <? 0
        then Some ErrInsufficientFunds
        else if negb isParallelizable then
          match IntrinsicGas (Tx.Data tx) (Tx.AccessList_ tx)
                  (bool_decide (Tx.To tx = None)) isShanghai with
          | None => Some ErrGasUintOverflow
          | Some intrGas => if Tx.Gas tx <? intrGas then Some ErrIntrinsicGas else None
          end
        else None
  end.

Definition prepareBatches (clock : nat → Z) (p : ParallelPool St) : ParallelPool St :=
  let totalTxs := fold_left (λ n entry, n + len entry.2) (map_range (parallelizableTxs p)) 0 in
  if totalTxs =? 0 then p
  else
    let st := batch_accounts clock (batchSize p) (map_range (parallelizableTxs p)) in
    set_batches p (batch_finish st) (batchSize p).

(** [list.Add] on the entry of an account, created when missing. *)
Definition add_to (m : gmap Z parallelList) (from : Address) (tx : Transaction)
    : gmap Z parallelList :=
  <[from := (ParallelList.Add (default newParallelList (m !! from)) tx).1]> m.

Definition add (clock : nat → Z) (p : ParallelPool St) (tx : Transaction) (local : bool)
    : ParallelPool St * option pool_error :=
  if negb (Tx.Type_ tx =? ParallelTxType) then (p, Some ErrInvalidParallelTx)
  else match validateTx p tx local with
  | Some err => (p, Some err)
  | None =>
      match types_Sender tx with
      | Err err => (p, Some (ErrSigner err))
      | Ok from =>
          let isParallelizable := hasTag (Tx.Data tx) in
          let p := set_all p (<[Tx.Hash_ tx := tx]> (all p)) (PricedList.Put (priced p) tx) in
          let p :=
            if isParallelizable then
              set_parallelizable p
                (<[from := default [] (parallelizableTxs p !! from) ++ [tx]]>
                   (parallelizableTxs p))
            else
              let nonce := Tx.Nonce tx in
              if GetNonce (pendingState p) from =? nonce then
                set_pending p (add_to (pending p) from tx)
              else set_queue p (add_to (queue p) from tx) in
          (prepareBatches clock p, None)
      end
  end.

(** The address of a local transaction's sender is remembered. *)
Definition mark_local (p : ParallelPool St) (tx : Transaction) : ParallelPool St :=
  match types_Sender tx with
  | Ok from => set_locals p (AccountSet.add (locals p) from)
  | Err _ => p
  end.

Definition Process (clock : nat → Z) (p : ParallelPool St) (tx : Transaction) (local : bool)
    : ParallelPool St * option pool_error :=
  if negb (Tx.Type_ tx =? ParallelTxType) then (p, Some ErrInvalidParallelTx)
  else match add clock p tx local with
  | (p, Some err) => (p, Some err)
  | (p, None) =>
      let p := if local then mark_local p tx else p in
      (send_feed p [tx], None)
  end.

Definition AddLocal (clock : nat → Z) (p : ParallelPool St) (tx : Transaction)
    : ParallelPool St * option pool_error :=
  Process clock p tx true.

(** One turn of the loop of [Add]. *)
Definition add_one (clock : nat → Z) (local : bool)
    (acc : ParallelPool St * list (option pool_error)) (tx : Transaction)
    : ParallelPool St * list (option pool_error) :=
  let '(p, errs) := acc in
  if negb (Tx.Type_ tx =? ParallelTxType) then (p, errs ++ [Some ErrInvalidParallelTx])
  else
    let '(p, err) := add clock p tx local in
    let p :=
      match err with
      | None => if local then mark_local p tx else p
      | Some _ => p
      end in
    (p, errs ++ [err]).

Definition Add (clock : nat → Z) (p : ParallelPool St) (txs : list Transaction) (local : bool)
    : ParallelPool St * list (option pool_error) :=
  let '(p, errs) := fold_left (add_one clock local) txs (p, []) in
  let p := if len txs >? 0 then send_feed p txs else p in
  (p, errs).

(** The inner loop of [promoteExecutables]: pending, the list of the queue and
    the next nonce. *)
Definition promote_one (addr : Address) (acc : gmap Z parallelList * parallelList * Z)
    (tx : Transaction) : gmap Z parallelList * parallelList * Z :=
  let '(pend, list, nonce) := acc in
  if Tx.Nonce tx =? nonce then
    (add_to pend addr tx, ParallelList.Remove list (Tx.Hash_ tx), wrap64 (nonce + 1))
  else acc.

Definition promote_account (p : ParallelPool St) (entry : Z * parallelList) : ParallelPool St :=
  let '(addr, list) := entry in
  let nonce := GetNonce (pendingState p) addr in
  let ready := ParallelList.Ready list in
  let '(pend, list, _) := fold_left (promote_one addr) ready (pending p, list, nonce) in
  set_queue (set_pending p pend)
    (if ParallelList.Empty list then delete addr (queue p) else <[addr := list]> (queue p)).

Definition promoteExecutables (p : ParallelPool St) : ParallelPool St :=
  fold_left promote_account (map_range (queue p)) p.

(** The removal from the lists of one account, which goes when it is empty. *)
Definition remove_from (hash : Hash) (entry : option parallelList) : option parallelList :=
  match entry with
  | None => None
  | Some list =>
      let list := ParallelList.Remove list hash in
      if ParallelList.Empty list then None else Some list
  end.

Definition removeTx (p : ParallelPool St) (hash : Hash) : ParallelPool St :=
  match all p !! hash with
  | None => p
  | Some tx =>
      let from := match types_Sender tx with Ok from => from | Err _ => 0 end in
      let p := set_all p (delete hash (all p)) (PricedList.Remove (priced p) tx) in
      let p := set_pending p (partial_alter (remove_from hash) from (pending p)) in
      set_queue p (partial_alter (remove_from hash) from (queue p))
  end.

Definition Reset (p : ParallelPool St) (newHead : Header) : ParallelPool St :=
  let p := set_pending p ∅ in
  let p := set_queue p ∅ in
  let p := set_all p ∅ newParallelPricedList in
  match StateAt (Root newHead) with
  | None => p
  | Some statedb => set_states p statedb (Copy statedb) (GasLimit newHead)
  end.

Definition Clear (p : ParallelPool St) : ParallelPool St :=
  let p := set_pending p ∅ in
  let p := set_queue p ∅ in
  set_all p ∅ newParallelPricedList.

Definition Stats (p : ParallelPool St) : Z * Z := (map_len (pending p), map_len (queue p)).

Definition Content (p : ParallelPool St)
    : gmap Z (list Transaction) * gmap Z (list Transaction) :=
  (fold_left (λ m entry, <[entry.1 := ParallelList.Flatten entry.2]> m)
     (map_range (pending p)) ∅,
   fold_left (λ m entry, <[entry.1 := ParallelList.Flatten entry.2]> m)
     (map_range (queue p)) ∅).

Definition Locals (p : ParallelPool St) : list Address := AccountSet.addresses (locals p).

Definition GetBatches (p : ParallelPool St) : list TxBatch := batchedTxs p.

Definition SetBatchSize (clock : nat → Z) (p : ParallelPool St) (size : Z) : ParallelPool St :=
  let size := if size <=? 0 then DefaultBatchSize else size in
  let size := if size >? MaxBatchSize then MaxBatchSize else size in
  prepareBatches clock (set_batches p (batchedTxs p) size).

(** What the goroutine of a transaction does, on its own copy of the state. *)
Definition execute_tx (stateDB : St) (tx : Transaction) : result signer_error St :=
  let txStateDB := Copy stateDB in
  match types_Sender tx with
  | Err err => Err err
  | Ok from => Ok (SetNonce txStateDB from (wrap64 (GetNonce txStateDB from + 1)))
  end.

(** One turn of the loop that collects the results. *)
Definition collect_one (stateDB : St) (acc : ParallelPool St * list Hash) (tx : Transaction)
    : ParallelPool St * list Hash :=
  let '(p, executedTxs) := acc in
  match execute_tx stateDB tx with
  | Err _ => (p, executedTxs)
  | Ok _ => (removeTx p (Tx.Hash_ tx), executedTxs ++ [Tx.Hash_ tx])
  end.

(** [completion] is the order in which the results arrive; [None] is the error
    of [StateAt]. *)
Definition ExecuteBatch (head : Header) (completion : list Transaction)
    (p : ParallelPool St) (batch : TxBatch) : ParallelPool St * option (list Hash) :=
  if len (Transactions batch) =? 0 then (p, Some [])
  else match StateAt (Root head) with
  | None => (p, None)
  | Some stateDB =>
      let '(p, executedTxs) := fold_left (collect_one stateDB) completion (p, []) in
      (p, Some executedTxs)
  end.
End Pool.
