(* ===== verification/PoolBatches.v ===== *)
(** * The batches of the parallel pool

    What [prepareBatches] and [SetBatchSize] of ParallelPool.v guarantee: the
    batches are the parallelizable transactions, cut into pieces of the
    configured size. *)

From S2P Require Import Prelude GoSort TxTypes Signers ParallelList PoolParts StateInterface.
From S2P Require Import ParallelPool.

(** ** The loop *)

Section Loop.
Context (clock : nat → Z) (size : Z).

(** The nested loops run over the concatenation. *)
Lemma batch_accounts_concat entries :
  batch_accounts clock size entries
  = fold_left (batch_step clock size) (concat entries.*2) (batch_init clock).
Proof.
  unfold batch_accounts. generalize (batch_init clock).
  induction entries as [|[a l] entries IH]; intros st; simpl; [done|].
  by rewrite fold_left_app, IH.
Qed.

(** What the loop has done with the transactions it has seen. *)
Record batch_inv (seen : list Transaction) (st : batch_state) : Prop := {
  bi_seen : concat (Transactions <$> bs_done st) ++ Transactions (bs_current st) = seen;
  bi_full : Forall (λ b, len (Transactions b) = size) (bs_done st);
  bi_count : bs_txCount st = len (Transactions (bs_current st));
  bi_room : bs_txCount st < size
}.

Lemma batch_step_inv seen st tx :
  batch_inv seen st → batch_inv (seen ++ [tx]) (batch_step clock size st tx).
Proof.
  intros [Hs Hf Hc Hr]. unfold batch_step. rewrite Z.geb_leb.
  destruct (Z.leb_spec size (bs_txCount st + 1)) as [Hle|Hgt]; split; simpl.
  - rewrite fmap_app, concat_app. simpl. by rewrite !app_nil_r, app_assoc, Hs.
  - apply Forall_app. split; [done|]. repeat constructor. simpl.
    rewrite len_app, len_cons, len_nil. lia.
  - done.
  - pose proof (len_nonneg (Transactions (bs_current st))). lia.
  - by rewrite app_assoc, Hs.
  - done.
  - rewrite len_app, len_cons, len_nil. lia.
  - lia.
Qed.

Lemma batch_loop_inv l :
  0 < size → batch_inv l (fold_left (batch_step clock size) l (batch_init clock)).
Proof.
  intros Hsize. induction l as [|tx l IH] using rev_ind.
  - split; simpl; [done|constructor|done|done].
  - rewrite fold_left_app. by apply batch_step_inv.
Qed.

(** The batches at the end: full ones and at most one smaller. *)
Definition well_batched (l : list Transaction) (batches : list TxBatch) : Prop :=
  concat (Transactions <$> batches) = l ∧
  ∃ full rest, batches = full ++ rest ∧
    Forall (λ b, len (Transactions b) = size) full ∧
    (rest = [] ∨ ∃ b, rest = [b] ∧ 0 < len (Transactions b) < size).

Lemma batch_finish_spec seen st : batch_inv seen st → well_batched seen (batch_finish st).
Proof.
  intros [Hs Hf Hc Hr]. unfold batch_finish. rewrite Z.gtb_ltb.
  destruct (Z.ltb_spec 0 (bs_txCount st)) as [Hpos|Hzero].
  - split; [by rewrite fmap_app, concat_app; simpl; rewrite app_nil_r|].
    exists (bs_done st), [bs_current st]. split_and!; [done..|].
    right. exists (bs_current st). split; [done|lia].
  - pose proof (len_nonneg (Transactions (bs_current st))).
    assert (Transactions (bs_current st) = []) as He by (apply len_zero_iff; lia).
    rewrite He, app_nil_r in Hs. split; [done|].
    exists (bs_done st), []. split_and!; [by rewrite app_nil_r|done|by left].
Qed.

Lemma well_batched_bounds l batches :
  0 < size → well_batched l batches →
  Forall (λ b, 0 < len (Transactions b) <= size) batches ∧
  (len batches - 1) * size < Z.max 1 (len l) <= Z.max 1 (len batches * size).
Proof.
  intros Hsize (Hl & full & rest & -> & Hf & Hrest).
  assert (Hlen : len (concat (Transactions <$> full)) = len full * size).
  { clear Hl Hrest. induction Hf as [|b full Hb Hf IH]; [done|].
    rewrite fmap_cons. cbn [concat]. rewrite len_app, len_cons, IH, Hb. lia. }
  rewrite <-Hl, fmap_app, concat_app, !len_app, Hlen.
  pose proof (len_nonneg full). pose proof (Z.mul_nonneg_nonneg (len full) size).
  assert (Forall (λ b, 0 < len (Transactions b) <= size) full) as Hf'
    by (eapply Forall_impl; [exact Hf|]; simpl; lia).
  destruct Hrest as [->|(b & -> & Hb)]; cbn [fmap list_fmap concat];
    rewrite ?app_nil_r, ?(len_cons (A:=TxBatch)), (len_nil (A:=TxBatch)).
  - split; [done|]. rewrite (len_nil (A:=Transaction)). lia.
  - split; [apply Forall_app; split; [done|]; repeat constructor; lia|]. lia.
Qed.
End Loop.

(** ** The operations *)

Section Operations.
Context `{MR : MapRange, SO : Sorter, SS : StableSorter}.
Context {St : Type}.
Implicit Types p : ParallelPool St.

(** All the parallelizable transactions, in the order of one iteration. *)
Definition all_parallelizable p : list Transaction :=
  concat (range_values (parallelizableTxs p)).

Lemma totalTxs_len (entries : list (Z * list Transaction)) n :
  fold_left (λ n entry, n + len entry.2) entries n = n + len (concat entries.*2).
Proof.
  revert n. induction entries as [|[a l] entries IH]; intros n; cbn [fmap list_fmap concat fold_left].
  - rewrite (len_nil (A:=Transaction)). lia.
  - rewrite IH, len_app. lia.
Qed.

Lemma prepareBatches_cases clock p :
  0 < batchSize p →
  all_parallelizable p = [] ∧ prepareBatches clock p = p ∨
  all_parallelizable p ≠ [] ∧ ∃ batches,
    prepareBatches clock p = set_batches p batches (batchSize p) ∧
    well_batched (batchSize p) (all_parallelizable p) batches.
Proof.
  intros Hsize. unfold prepareBatches. rewrite totalTxs_len, Z.add_0_l.
  fold (range_values (parallelizableTxs p)). fold (all_parallelizable p).
  destruct (Z.eqb_spec (len (all_parallelizable p)) 0) as [H0|H0].
  - left. split; [by apply len_zero_iff|done].
  - right. split; [intros He; apply H0; by rewrite He|].
    eexists. split; [done|]. apply batch_finish_spec.
    rewrite batch_accounts_concat. by apply batch_loop_inv.
Qed.

(** C23: [prepareBatches] cuts the parallelizable transactions, in the order it
    visits them, into batches: together the batches are exactly those
    transactions with their multiplicity, no batch is empty or larger than the
    configured size, and every batch but the last one is full. *)
Theorem prepareBatches_partition clock p :
  0 < batchSize p → all_parallelizable p ≠ [] →
  let batches := batchedTxs (prepareBatches clock p) in
  concat (Transactions <$> batches) = all_parallelizable p ∧
  Forall (λ b, 0 < len (Transactions b) <= batchSize p) batches ∧
  ∃ full rest, batches = full ++ rest ∧ len rest <= 1 ∧
    Forall (λ b, len (Transactions b) = batchSize p) full.
Proof.
  intros Hsize Hne.
  destruct (prepareBatches_cases clock p Hsize) as [[He _]|(_ & batches & -> & Hb)]; [done|].
  simpl. destruct (well_batched_bounds _ _ _ Hsize Hb) as [Hall _].
  destruct Hb as (Hl & full & rest & Heq & Hf & Hrest).
  split_and!; [done..|]. exists full, rest. split_and!; [done| |done].
  destruct Hrest as [->|(b & -> & _)]; unfold len; simpl; lia.
Qed.

Lemma prepareBatches_batchSize clock p : batchSize (prepareBatches clock p) = batchSize p.
Proof. unfold prepareBatches. by destruct (_ =? _). Qed.

(** Nothing but the batches changes. *)
Lemma prepareBatches_frame clock p :
  prepareBatches clock p
  = set_batches p (batchedTxs (prepareBatches clock p)) (batchSize p).
Proof. unfold prepareBatches. destruct p; simpl. by destruct (_ =? _). Qed.

Lemma SetBatchSize_batchSize clock p size :
  batchSize (SetBatchSize clock p size)
  = if size <=? 0 then DefaultBatchSize else Z.min size MaxBatchSize.
Proof.
  unfold SetBatchSize. rewrite prepareBatches_batchSize. simpl.
  unfold DefaultBatchSize, MaxBatchSize.
  destruct (Z.leb_spec size 0); simpl; [done|]. rewrite Z.gtb_ltb.
  destruct (Z.ltb_spec 256 size); lia.
Qed.

Lemma SetBatchSize_range clock p size :
  1 <= batchSize (SetBatchSize clock p size) <= MaxBatchSize.
Proof.
  rewrite SetBatchSize_batchSize. unfold DefaultBatchSize, MaxBatchSize.
  destruct (Z.leb_spec size 0); lia.
Qed.
End Operations.

(** Three transactions of two accounts, in batches of two. *)
Definition example_tagged (hash nonce : Z) : Transaction :=
  MkTx (TParallel (ParallelTx.mk 1 nonce 1 2 21000 None 0 (ParallelizableTag ++ [0]) [] 0 []
    0 0 0 0)) hash 0 0.
Definition example_pool : ParallelPool map_state :=
  let p := New (MkMapState ∅ ∅) (MkMapState ∅ ∅) newParallelPricedList in
  set_batches (set_parallelizable p
    {[ 1 := [example_tagged 10 0; example_tagged 11 1]; 2 := [example_tagged 20 0] ]}) [] 2.

Lemma prepareBatches_partition_witness :
  let batches := batchedTxs (prepareBatches (λ n, Z.of_nat n) example_pool) in
  concat (Transactions <$> batches) = all_parallelizable example_pool ∧
  Forall (λ b, 0 < len (Transactions b) <= batchSize example_pool) batches ∧
  ∃ full rest, batches = full ++ rest ∧ len rest <= 1 ∧
    Forall (λ b, len (Transactions b) = batchSize example_pool) full.
Proof.
  apply prepareBatches_partition; [reflexivity|]. vm_compute. discriminate.
Defined.
