(* ===== verification/PoolInvariant.v ===== *)
(** * The invariant of the parallel pool

    The states that the operations of ParallelPool.v reach from [New], as a
    step relation, and the invariant they keep.  Each step may visit the maps
    in an order of its own and sort with an algorithm of its own. *)

From S2P Require Import Prelude GoSort TxTypes Signers ParallelList PoolParts StateInterface.
From S2P Require Import ParallelPool PoolBatches.

Lemma concat_perm {A} (l k : list (list A)) : l ≡ₚ k → concat l ≡ₚ concat k.
Proof.
  induction 1; simpl; [done|by f_equiv| |by etrans].
  rewrite !app_assoc. f_equiv. apply Permutation_app_comm.
Qed.

Section Invariant.
Context {St : Type} `{AccountState St}.
Context (types_Sender : Transaction → result signer_error Address).
Context (PriceLimit : Z).
Context (IntrinsicGas : bytes → AccessList → bool → bool → option Z).
Context (isShanghai : bool).
Context (StateAt : Hash → option St).
(** The transactions offered to the pool; their hashes do not collide. *)
Context (known : Transaction → Prop).

Abbreviation add_ clock p tx local :=
  (add types_Sender PriceLimit IntrinsicGas isShanghai clock p tx local).

(** ** The step relation *)

Inductive pool_step : ParallelPool St → ParallelPool St → Prop :=
  | step_Process (MR : MapRange) (SO : Sorter) clock p tx local :
      known tx →
      pool_step p (Process types_Sender PriceLimit IntrinsicGas isShanghai clock p tx local).1
  | step_Add (MR : MapRange) (SO : Sorter) clock p txs local :
      Forall known txs →
      pool_step p (Add types_Sender PriceLimit IntrinsicGas isShanghai clock p txs local).1
  | step_Reset p newHead : pool_step p (Reset StateAt p newHead)
  | step_Clear p : pool_step p (Clear p)
  | step_SetBatchSize (MR : MapRange) clock p size : pool_step p (SetBatchSize clock p size)
  | step_ExecuteBatch head completion p batch :
      completion ≡ₚ Transactions batch →
      pool_step p (ExecuteBatch types_Sender StateAt head completion p batch).1.

Definition reachable (p : ParallelPool St) : Prop :=
  ∃ current managed, rtc pool_step (New current managed newParallelPricedList) p.

(** The same when no transaction is offered that the table has: the callers look it up
    first. *)
Inductive fresh_step : ParallelPool St → ParallelPool St → Prop :=
  | fresh_Process (MR : MapRange) (SO : Sorter) clock p tx local :
      known tx → Get p (Tx.Hash_ tx) = None →
      fresh_step p (Process types_Sender PriceLimit IntrinsicGas isShanghai clock p tx local).1
  | fresh_Add (MR : MapRange) (SO : Sorter) clock p txs local :
      Forall known txs → NoDup (Tx.Hash_ <$> txs) → (∀ tx, tx ∈ txs → Get p (Tx.Hash_ tx) = None) →
      fresh_step p (Add types_Sender PriceLimit IntrinsicGas isShanghai clock p txs local).1
  | fresh_Reset p newHead : fresh_step p (Reset StateAt p newHead)
  | fresh_Clear p : fresh_step p (Clear p)
  | fresh_SetBatchSize (MR : MapRange) clock p size : fresh_step p (SetBatchSize clock p size)
  | fresh_ExecuteBatch head completion p batch :
      completion ≡ₚ Transactions batch →
      fresh_step p (ExecuteBatch types_Sender StateAt head completion p batch).1.

Definition fresh_reachable (p : ParallelPool St) : Prop :=
  ∃ current managed, rtc fresh_step (New current managed newParallelPricedList) p.

Lemma fresh_step_step p q : fresh_step p q → pool_step p q.
Proof. destruct 1; by constructor. Qed.

Lemma fresh_reachable_reachable p : fresh_reachable p → reachable p.
Proof.
  intros (cur & man & Hr). exists cur, man. induction Hr as [|p q r Hs _ IH]; [done|]. eapply rtc_l; [by apply fresh_step_step|done].
Qed.

(** ** The invariant *)

(** The lists of the accounts: well formed, not empty, and every transaction
    under the address of its sender and in the pool's table. *)
Definition lists_ok (al : gmap Z Transaction) (m : gmap Z parallelList)
    (nonce_ok : Z → Z → Prop) : Prop :=
  ∀ a l, m !! a = Some l → ParallelList.wf l ∧ items l ≠ ∅ ∧
    ∀ tx, ParallelList.contents l tx →
      types_Sender tx = Ok a ∧ al !! Tx.Hash_ tx = Some tx ∧ nonce_ok a (Tx.Nonce tx).

Record core_wf (p : ParallelPool St) : Prop := {
  wf_all h tx : all p !! h = Some tx →
    Tx.Hash_ tx = h ∧ known tx ∧ Tx.Type_ tx = ParallelTxType ∧ is_ok (types_Sender tx) = true;
  wf_pending : lists_ok (all p) (pending p) (λ a n, n = GetNonce (pendingState p) a);
  wf_queue : lists_ok (all p) (queue p) (λ a n, n ≠ GetNonce (pendingState p) a);
  wf_sorted : PricedList.sorted (priced p);
  wf_priced h tx : all p !! h = Some tx → tx ∈ priced_items (priced p);
  wf_batchSize : 1 <= batchSize p <= MaxBatchSize;
  wf_parallelizable a txs tx : parallelizableTxs p !! a = Some txs → tx ∈ txs →
    types_Sender tx = Ok a ∧ hasTag (Tx.Data tx) = true
}.

(** The parallelizable transactions, in the canonical order. *)
Definition parallelizable_bag (p : ParallelPool St) : list Transaction :=
  concat (map_to_list (parallelizableTxs p)).*2.

Record pool_wf (p : ParallelPool St) : Prop := {
  wf_core : core_wf p;
  wf_bag : concat (Transactions <$> batchedTxs p) ≡ₚ parallelizable_bag p;
  wf_lengths : Forall (λ b, 0 < len (Transactions b) <= MaxBatchSize) (batchedTxs p)
}.

(** ** Lists of accounts *)

Lemma lists_ok_empty al ok : lists_ok al ∅ ok.
Proof. intros a l Hl. by rewrite lookup_empty in Hl. Qed.

Lemma lists_ok_add al m ok a tx :
  lists_ok al m ok → types_Sender tx = Ok a → al !! Tx.Hash_ tx = Some tx →
  ok a (Tx.Nonce tx) → lists_ok al (add_to m a tx) ok.
Proof.
  intros Hm Hs Hal Hok b l. unfold add_to. rewrite lookup_insert_Some.
  intros [[<- <-]|[_ Hl]]; [|by apply Hm].
  assert (ParallelList.wf (default newParallelList (m !! a)) ∧
    ∀ t, ParallelList.contents (default newParallelList (m !! a)) t →
      types_Sender t = Ok a ∧ al !! Tx.Hash_ t = Some t ∧ ok a (Tx.Nonce t)) as [Hw Hc].
  { destruct (m !! a) as [l|] eqn:Hl; simpl.
    - destruct (Hm a l Hl) as (? & _ & ?). done.
    - split; [apply ParallelList.newParallelList_wf|].
      intros t Ht. unfold ParallelList.contents in Ht. simpl in Ht.
      by rewrite lookup_empty in Ht. }
  split_and!.
  - by apply ParallelList.Add_wf.
  - by apply ParallelList.Add_nonempty.
  - intros t [->|Ht]%ParallelList.contents_Add; [done|]. by apply Hc.
Qed.

Lemma lists_ok_insert al m ok tx :
  lists_ok al m ok → (∀ t, al !! Tx.Hash_ tx = Some t → t = tx) →
  lists_ok (<[Tx.Hash_ tx := tx]> al) m ok.
Proof.
  intros Hm Hfresh a l Hl. destruct (Hm a l Hl) as (Hw & Hne & Hc).
  split_and!; [done..|]. intros t Ht. destruct (Hc t Ht) as (Hs & Hal & Hok).
  split_and!; [done| |done]. rewrite lookup_insert.
  case_decide as Heq; [|done]. rewrite <-Heq in Hal. by rewrite (Hfresh _ Hal).
Qed.

Lemma lists_ok_remove al m ok h tx a :
  lists_ok al m ok → al !! h = Some tx → types_Sender tx = Ok a →
  lists_ok (delete h al) (partial_alter (remove_from h) a m) ok.
Proof.
  intros Hm Hal Hs b l Hl.
  destruct (decide (a = b)) as [<-|Hne].
  - rewrite lookup_partial_alter_eq in Hl. unfold remove_from in Hl.
    destruct (m !! a) as [l0|] eqn:Hl0; [|done].
    destruct (Hm a l0 Hl0) as (Hw & _ & Hc).
    destruct (ParallelList.Empty _) eqn:He; simplify_eq.
    split_and!; [by apply ParallelList.Remove_wf| |].
    + intros Hempty. unfold ParallelList.Empty in He. apply Z.eqb_neq in He.
      by apply He, map_len_zero.
    + intros t [Ht Hh]%ParallelList.contents_Remove; [|done].
      destruct (Hc t Ht) as (? & ? & ?). by rewrite lookup_delete_ne by congruence.
  - rewrite lookup_partial_alter_ne in Hl by done.
    destruct (Hm b l Hl) as (Hw & Hnem & Hc). split_and!; [done..|].
    intros t Ht. destruct (Hc t Ht) as (Hst & Hat & Hok).
    split_and!; [done| |done]. rewrite lookup_delete_ne; [done|].
    intros ->. congruence.
Qed.

(** ** Every operation keeps the invariant *)

Context (hash_inj : ∀ t1 t2, known t1 → known t2 → Tx.Hash_ t1 = Tx.Hash_ t2 → t1 = t2).

Lemma all_known_fresh p tx t :
  core_wf p → known tx → all p !! Tx.Hash_ tx = Some t → t = tx.
Proof. intros Hw Hk Ht. destruct (wf_all _ Hw _ _ Ht) as (Hh & Hkt & _). by apply hash_inj. Qed.

Lemma parallelizable_bag_range (MR : MapRange) p :
  all_parallelizable p ≡ₚ parallelizable_bag p.
Proof. apply concat_perm, range_values_perm. Qed.

Lemma core_wf_set_batches p bs size :
  core_wf p → 1 <= size <= MaxBatchSize → core_wf (set_batches p bs size).
Proof. intros [] ?. split; done. Qed.

Lemma prepareBatches_wf (MR : MapRange) clock p :
  core_wf p →
  (parallelizable_bag p = [] → pool_wf p) → pool_wf (prepareBatches clock p).
Proof.
  intros Hw Hempty. pose proof (wf_batchSize _ Hw).
  destruct (prepareBatches_cases clock p) as [[He ->]|(Hne & batches & -> & Hb)]; [lia| |].
  - apply Hempty, Permutation_nil_r. by rewrite <-(parallelizable_bag_range MR), He.
  - split; simpl.
    + by apply core_wf_set_batches.
    + destruct Hb as [-> _]. exact (parallelizable_bag_range MR p).
    + destruct (well_batched_bounds (batchSize p) _ _ ltac:(lia) Hb) as [Hall _].
      eapply Forall_impl; [exact Hall|]. simpl. lia.
Qed.

Lemma SetBatchSize_wf (MR : MapRange) clock p size :
  pool_wf p → pool_wf (SetBatchSize clock p size).
Proof.
  intros [Hw Hb Hl]. pose proof (SetBatchSize_range clock p size) as Hr.
  unfold SetBatchSize in *. rewrite prepareBatches_batchSize in Hr. simpl in Hr.
  apply prepareBatches_wf; [by apply core_wf_set_batches|].
  intros _. split; simpl; [|done..]. by apply core_wf_set_batches.
Qed.

(** The pool with one more transaction in its table. *)
Lemma core_wf_admit (SO : Sorter) p tx a :
  core_wf p → known tx → Tx.Type_ tx = ParallelTxType → types_Sender tx = Ok a →
  core_wf (set_all p (<[Tx.Hash_ tx := tx]> (all p)) (PricedList.Put (priced p) tx)).
Proof.
  intros Hw Hk Hty Hs. pose proof (all_known_fresh p tx) as Hfresh. destruct Hw.
  split; simpl; try done.
  - intros h t. rewrite lookup_insert_Some. intros [[<- <-]|[_ Ht]]; [by rewrite Hs|eauto].
  - apply lists_ok_insert; eauto using Build_core_wf.
  - apply lists_ok_insert; eauto using Build_core_wf.
  - apply PricedList.Put_sorted.
  - intros h t Ht. change (t ∈ priced_items (PricedList.Put (priced p) tx)).
    rewrite PricedList.Put_perm, elem_of_cons.
    apply lookup_insert_Some in Ht as [[<- <-]|[_ Ht]]; [by left|right; eauto].
Qed.

Lemma parallelizable_bag_elem p tx :
  tx ∈ parallelizable_bag p ↔ ∃ a l, parallelizableTxs p !! a = Some l ∧ tx ∈ l.
Proof.
  unfold parallelizable_bag. rewrite list_elem_of_In, in_concat. split.
  - intros (l & Hl%list_elem_of_In & Htx%list_elem_of_In).
    apply list_elem_of_fmap in Hl as ([a l'] & -> & Ha%elem_of_map_to_list). eauto.
  - intros (a & l & Ha & Htx). exists l. rewrite <-!list_elem_of_In. split; [|done].
    apply list_elem_of_fmap. exists (a, l). by rewrite elem_of_map_to_list.
Qed.

Lemma core_wf_tagged p a tx :
  core_wf p → types_Sender tx = Ok a → hasTag (Tx.Data tx) = true →
  core_wf (set_parallelizable p
    (<[a := default [] (parallelizableTxs p !! a) ++ [tx]]> (parallelizableTxs p))).
Proof.
  intros [? ? ? ? ? ? Hpar] Hs Htag. split; try done. simpl. intros b l t.
  rewrite lookup_insert_Some. intros [[<- <-]|[_ Hl]] Ht; [|by eapply Hpar].
  apply elem_of_app in Ht as [Ht|Ht%list_elem_of_singleton]; [|by subst].
  destruct (parallelizableTxs p !! a) as [l|] eqn:Hf; [by eapply Hpar|].
  by apply not_elem_of_nil in Ht.
Qed.

Lemma core_wf_enqueue p a tx :
  core_wf p → types_Sender tx = Ok a → all p !! Tx.Hash_ tx = Some tx →
  core_wf (if GetNonce (pendingState p) a =? Tx.Nonce tx
           then set_pending p (add_to (pending p) a tx)
           else set_queue p (add_to (queue p) a tx)).
Proof.
  intros [] Hs Hal. destruct (Z.eqb_spec (GetNonce (pendingState p) a) (Tx.Nonce tx));
    split; try done; simpl; by apply lists_ok_add.
Qed.

Lemma add_wf (MR : MapRange) (SO : Sorter) clock p tx local :
  pool_wf p → known tx → pool_wf (add_ clock p tx local).1.
Proof.
  intros Hp Hk. unfold add. destruct (Z.eqb_spec (Tx.Type_ tx) ParallelTxType) as [Hty|]; [|done].
  simpl. destruct (validateTx _ _ _ _ _ _ _); [done|].
  destruct (types_Sender tx) as [from|] eqn:Hs; [|done]. simpl.
  destruct Hp as [Hw Hb Hl].
  pose proof (core_wf_admit SO p tx from Hw Hk Hty Hs) as Ha.
  assert (all (set_all p (<[Tx.Hash_ tx := tx]> (all p)) (PricedList.Put (priced p) tx))
    !! Tx.Hash_ tx = Some tx) as Hin by apply lookup_insert_eq.
  destruct (hasTag (Tx.Data tx)) eqn:Htag; apply prepareBatches_wf.
  - exact (core_wf_tagged _ from tx Ha Hs Htag).
  - intros Hempty. exfalso. apply (not_elem_of_nil tx). rewrite <-Hempty.
    apply parallelizable_bag_elem. simpl. eexists from, _.
    rewrite lookup_insert_eq. split; [done|]. apply elem_of_app. right. by left.
  - exact (core_wf_enqueue _ from tx Ha Hs Hin).
  - intros _. split; [exact (core_wf_enqueue _ from tx Ha Hs Hin)| |]; simpl; by case_match.
Qed.

Lemma set_locals_wf p x : pool_wf p → pool_wf (set_locals p x).
Proof. intros [[] ? ?]. split; [by split|done..]. Qed.

Lemma send_feed_wf p x : pool_wf p → pool_wf (send_feed p x).
Proof. intros [[] ? ?]. split; [by split|done..]. Qed.

Lemma mark_local_wf p tx : pool_wf p → pool_wf (mark_local types_Sender p tx).
Proof. intros Hp. unfold mark_local. case_match; [by apply set_locals_wf|done]. Qed.

Lemma Process_wf (MR : MapRange) (SO : Sorter) clock p tx local :
  pool_wf p → known tx →
  pool_wf (Process types_Sender PriceLimit IntrinsicGas isShanghai clock p tx local).1.
Proof.
  intros Hp Hk. unfold Process. destruct (negb _); [done|].
  pose proof (add_wf MR SO clock p tx local Hp Hk) as Ha.
  destruct (add_ clock p tx local) as [q [err|]]; [done|]. simpl in *.
  apply send_feed_wf. destruct local; [by apply mark_local_wf|done].
Qed.

Lemma add_one_wf (MR : MapRange) (SO : Sorter) clock local acc tx :
  pool_wf acc.1 → known tx →
  pool_wf (add_one types_Sender PriceLimit IntrinsicGas isShanghai clock local acc tx).1.
Proof.
  destruct acc as [p errs]. simpl. intros Hp Hk. destruct (negb _); [done|].
  pose proof (add_wf MR SO clock p tx local Hp Hk) as Ha.
  destruct (add_ clock p tx local) as [q [err|]]; simpl in *; [done|].
  destruct local; [by apply mark_local_wf|done].
Qed.

Lemma pool_Add_wf (MR : MapRange) (SO : Sorter) clock p txs local :
  pool_wf p → Forall known txs →
  pool_wf (Add types_Sender PriceLimit IntrinsicGas isShanghai clock p txs local).1.
Proof.
  intros Hp Hk. unfold Add.
  assert (∀ acc, pool_wf acc.1 → pool_wf (fold_left
    (add_one types_Sender PriceLimit IntrinsicGas isShanghai clock local) txs acc).1) as Hfold.
  { clear Hp. induction Hk as [|tx txs Hk _ IH]; intros acc Hacc; simpl; [done|].
    by apply IH, add_one_wf. }
  specialize (Hfold (p, []) Hp). destruct (fold_left _ _ _) as [q errs]. simpl in *.
  destruct (_ >? 0); [by apply send_feed_wf|done].
Qed.

Lemma removeTx_wf p h : pool_wf p → pool_wf (removeTx types_Sender p h).
Proof.
  intros [Hw Hb Hl]. unfold removeTx. destruct (all p !! h) as [tx|] eqn:Htx; [|done].
  destruct (wf_all _ Hw _ _ Htx) as (Hh & _ & _ & Hok).
  destruct (types_Sender tx) as [from|] eqn:Hs; [|done].
  split; [|done..]. destruct Hw. split; simpl; try done.
  - intros h' t [_ Ht]%lookup_delete_Some. eauto.
  - by eapply lists_ok_remove.
  - by eapply lists_ok_remove.
  - by apply PricedList.Remove_sorted.
  - intros h' t [Hne Ht]%lookup_delete_Some. apply PricedList.remove_first_elem; [eauto|].
    destruct (wf_all0 _ _ Ht) as [<- _]. congruence.
Qed.

Lemma Clear_wf p : pool_wf p → pool_wf (Clear p).
Proof.
  intros [[] Hb Hl]. split; [|done..]. split; simpl; try done.
  all: try apply lists_ok_empty; try apply PricedList.new_sorted.
Qed.

Lemma Reset_wf p newHead : pool_wf p → pool_wf (Reset StateAt p newHead).
Proof.
  intros Hp%Clear_wf. unfold Reset. fold (Clear p). case_match; [|done].
  destruct Hp as [[] Hb Hl]. split; [|done..]. split; simpl; try done; apply lists_ok_empty.
Qed.

Lemma ExecuteBatch_wf head completion p batch :
  pool_wf p → pool_wf (ExecuteBatch types_Sender StateAt head completion p batch).1.
Proof.
  intros Hp. unfold ExecuteBatch. destruct (_ =? 0); [done|].
  destruct (StateAt _) as [s|]; [|done].
  assert (∀ acc, pool_wf acc.1 →
    pool_wf (fold_left (collect_one types_Sender s) completion acc).1) as Hfold.
  { induction completion as [|tx l IH]; intros [q ex] Hq; simpl; [done|]. apply IH.
    simpl. case_match; simpl; [by apply removeTx_wf|done]. }
  specialize (Hfold (p, []) Hp). by destruct (fold_left _ _ _).
Qed.

Lemma New_wf current managed : pool_wf (New current managed newParallelPricedList).
Proof.
  split; [|done|by constructor]. split; simpl; try done.
  all: try apply lists_ok_empty; try apply PricedList.new_sorted.
Qed.

Lemma pool_step_wf p q : pool_step p q → pool_wf p → pool_wf q.
Proof.
  destruct 1; intros Hp; eauto using Process_wf, pool_Add_wf, Reset_wf, Clear_wf,
    SetBatchSize_wf, ExecuteBatch_wf.
Qed.

Lemma reachable_pool_wf p : reachable p → pool_wf p.
Proof.
  intros (cur & man & Hr). remember (New cur man newParallelPricedList) as p0 eqn:Hp0.
  assert (pool_wf p0) as Hw0 by (rewrite Hp0; apply New_wf). clear Hp0.
  induction Hr as [|? ? ? Hs _ IH]; [done|]. by eapply IH, pool_step_wf.
Qed.

(** ** The price list is the table

    When nothing is offered twice, each transaction of the table is once in the price
    list, and nothing else is. *)

Definition priced_exact (p : ParallelPool St) : Prop := priced_items (priced p) ≡ₚ (map_to_list (all p)).*2.

Lemma prepareBatches_keeps (MR : MapRange) clock (p : ParallelPool St) :
  all (prepareBatches clock p) = all p ∧ priced (prepareBatches clock p) = priced p.
Proof. unfold prepareBatches. by destruct (_ =? 0). Qed.

Lemma add_table (MR : MapRange) (SO : Sorter) clock (p : ParallelPool St) tx local :
  let p' := (add_ clock p tx local).1 in
  (all p' = all p ∧ priced p' = priced p) ∨ (all p' = <[Tx.Hash_ tx := tx]> (all p) ∧ priced p' = PricedList.Put (priced p) tx).
Proof.
  unfold add. destruct (negb _); [by left|]. destruct (validateTx _ _ _ _ _ _ _); [by left|].
  destruct (types_Sender tx); [|by left]. right. cbn [fst]. destruct (prepareBatches_keeps MR clock (set_all p (<[Tx.Hash_ tx := tx]> (all p)) (PricedList.Put (priced p) tx))).
  destruct (hasTag _); [|destruct (_ =? _)]; (edestruct prepareBatches_keeps as [-> ->]; done).
Qed.

Lemma admit_exact (SO : Sorter) (p : ParallelPool St) tx (q : ParallelPool St) :
  priced_exact p → all p !! Tx.Hash_ tx = None →
  (all q = all p ∧ priced q = priced p) ∨ (all q = <[Tx.Hash_ tx := tx]> (all p) ∧ priced q = PricedList.Put (priced p) tx) → priced_exact q.
Proof.
  intros Hp Hn [[Ha Hpr]|[Ha Hpr]]; unfold priced_exact in *; rewrite Ha, Hpr; [done|].
  by rewrite PricedList.Put_perm, map_to_list_insert, Hp by done.
Qed.

Lemma Process_exact (MR : MapRange) (SO : Sorter) clock (p : ParallelPool St) tx local :
  priced_exact p → all p !! Tx.Hash_ tx = None →
  priced_exact (Process types_Sender PriceLimit IntrinsicGas isShanghai clock p tx local).1.
Proof.
  intros Hp Hn. pose proof (admit_exact SO p tx _ Hp Hn (add_table MR SO clock p tx local)) as Ha. unfold Process.
  destruct (negb _); [done|]. destruct (add_ clock p tx local) as [q [err|]]; [done|]. cbn [fst] in *.
  destruct local; [unfold mark_local; by destruct (types_Sender tx)|done].
Qed.

Lemma pool_Add_exact (MR : MapRange) (SO : Sorter) clock (p : ParallelPool St) txs local :
  priced_exact p → NoDup (Tx.Hash_ <$> txs) → (∀ tx, tx ∈ txs → all p !! Tx.Hash_ tx = None) →
  priced_exact (Add types_Sender PriceLimit IntrinsicGas isShanghai clock p txs local).1.
Proof.
  intros Hp Hnd Hnew. unfold Add.
  assert (∀ acc, priced_exact acc.1 → (∀ tx, tx ∈ txs → all acc.1 !! Tx.Hash_ tx = None) → priced_exact (fold_left
    (add_one types_Sender PriceLimit IntrinsicGas isShanghai clock local) txs acc).1) as Hfold.
  { clear Hp Hnew. induction txs as [|tx txs IH]; intros [q errs] Hq Hnew; [done|]. apply NoDup_cons in Hnd as [Hni Hnd]. cbn [fold_left].
    pose proof (Hnew tx ltac:(by left)) as Hn. pose proof (add_table MR SO clock q tx local) as Ht. cbv zeta in Ht.
    pose proof (admit_exact SO q tx _ Hq Hn Ht) as Ha.
    assert (Hone : ∃ r, (add_one types_Sender PriceLimit IntrinsicGas isShanghai clock local (q, errs) tx).1 = r ∧
      (r = q ∨ all r = all (add_ clock q tx local).1 ∧ priced r = priced (add_ clock q tx local).1)).
    { eexists. split; [done|]. cbn [add_one]. destruct (negb _); [by left|]. right. destruct (add_ clock q tx local) as [r [err|]]; [done|]. cbn [fst].
      destruct local; [unfold mark_local; by destruct (types_Sender tx)|done]. }
    destruct Hone as (r & Hr & Hcase). apply (IH Hnd); rewrite Hr.
    - destruct Hcase as [->|[He1 He2]]; [done|]. unfold priced_exact. by rewrite He1, He2.
    - intros t Hin. pose proof (Hnew t ltac:(by right)) as Hnt. destruct Hcase as [->|[-> _]]; [done|].
      destruct Ht as [[-> _]|[-> _]]; [done|]. rewrite lookup_insert_ne; [done|]. intros He. apply Hni. rewrite He. by apply list_elem_of_fmap_2. }
  specialize (Hfold (p, []) Hp Hnew). destruct (fold_left _ _ _) as [q errs]. by destruct (_ >? 0).
Qed.

Lemma removeTx_exact p h : pool_wf p → priced_exact p → priced_exact (removeTx types_Sender p h).
Proof.
  intros [Hw _ _] Hp. unfold removeTx. destruct (all p !! h) as [tx|] eqn:Htx; [|done].
  destruct (wf_all _ Hw _ _ Htx) as (Hh & _). unfold priced_exact in *.
  change (PricedList.remove_first (Tx.Hash_ tx) (priced_items (priced p)) ≡ₚ (map_to_list (delete h (all p))).*2).
  assert (Hone : ∀ x, x ∈ priced_items (priced p) → Tx.Hash_ x = Tx.Hash_ tx → x = tx).
  { intros x Hx He. rewrite Hp in Hx. apply list_elem_of_fmap in Hx as ([k y] & -> & Hk%elem_of_map_to_list). cbn in *.
    destruct (wf_all _ Hw _ _ Hk) as (Hk' & _). congruence. }
  destruct (PricedList.remove_first_perm (Tx.Hash_ tx) (priced_items (priced p)) tx) as (y & Hy & Hsplit); [by eapply wf_priced|done|].
  assert (y = tx) as -> by (apply Hone; [rewrite Hsplit; by left|done]).
  apply (Permutation_cons_inv (a := tx)). rewrite <- Hsplit, Hp. by rewrite <- (map_to_list_delete (all p) h tx Htx).
Qed.

Lemma ExecuteBatch_exact head completion p batch :
  pool_wf p → priced_exact p → priced_exact (ExecuteBatch types_Sender StateAt head completion p batch).1.
Proof.
  intros Hw Hp. unfold ExecuteBatch. destruct (_ =? 0); [done|].
  destruct (StateAt _) as [s|]; [|done].
  assert (∀ acc, pool_wf acc.1 → priced_exact acc.1 →
    priced_exact (fold_left (collect_one types_Sender s) completion acc).1) as Hfold.
  { induction completion as [|tx l IH]; intros [q ex] Hq He; simpl; [done|]. apply IH;
    simpl; case_match; simpl; [by apply removeTx_wf|done|by apply removeTx_exact|done]. }
  specialize (Hfold (p, []) Hw Hp). by destruct (fold_left _ _ _).
Qed.

Lemma empty_exact (p : ParallelPool St) : all p = ∅ → priced p = newParallelPricedList → priced_exact p.
Proof. unfold priced_exact. intros -> ->. by rewrite map_to_list_empty. Qed.

Lemma fresh_reachable_exact p : fresh_reachable p → priced_exact p.
Proof.
  intros (cur & man & Hr). remember (New cur man newParallelPricedList) as p0 eqn:Hp0.
  assert (pool_wf p0 ∧ priced_exact p0) as [Hw0 He0] by (rewrite Hp0; split; [apply New_wf|by apply empty_exact]). clear Hp0.
  induction Hr as [|p q r Hs _ IH]; [done|]. pose proof (pool_step_wf _ _ (fresh_step_step _ _ Hs) Hw0) as Hw. apply IH; [done|].
  destruct Hs; [by apply Process_exact|by apply pool_Add_exact|unfold Reset; destruct (StateAt _); by apply empty_exact|by apply empty_exact| |by apply ExecuteBatch_exact].
  unfold SetBatchSize, priced_exact. by edestruct prepareBatches_keeps as [-> ->].
Qed.
End Invariant.
