(* ===== verification/PoolExecution.v ===== *)
(** * Removal and execution

    What [removeTx], [ExecuteBatch], [Pending] and the admission of
    ParallelPool.v do to a pool that satisfies the invariant of
    PoolInvariant.v, and what they do not do. *)

From S2P Require Import Prelude GoSort TxTypes Signers ParallelList PoolParts StateInterface.
From S2P Require Import ParallelPool PoolBatches PoolInvariant.

Section Execution.
Context {St : Type} `{AccountState St}.
Context (types_Sender : Transaction → result signer_error Address).
Context (StateAt : Hash → option St).
Implicit Types p : ParallelPool St.

Abbreviation remove := (removeTx types_Sender).
Abbreviation exec := (ExecuteBatch types_Sender StateAt).

(** ** Removal *)

Lemma remove_from_comm h1 h2 entry :
  remove_from h1 (remove_from h2 entry) = remove_from h2 (remove_from h1 entry).
Proof.
  destruct entry as [l|]; [|done]. unfold remove_from.
  assert (∀ l h, ParallelList.Empty l = true →
    ParallelList.Empty (ParallelList.Remove l h) = true) as He.
  { unfold ParallelList.Empty. intros l0 h. rewrite !Z.eqb_eq, !map_len_zero. intros H0.
    unfold ParallelList.Remove. destruct (txs l0 !! h); [|done]. simpl. by rewrite H0, delete_empty. }
  pose proof (ParallelList.Remove_comm l h1 h2) as Hc.
  destruct (ParallelList.Empty (ParallelList.Remove l h2)) eqn:E2;
    destruct (ParallelList.Empty (ParallelList.Remove l h1)) eqn:E1; simpl; try done.
  - by rewrite Hc, He.
  - by rewrite <-Hc, He.
  - by rewrite Hc.
Qed.

Lemma partial_alter_remove_comm h1 h2 a b (m : gmap Z parallelList) :
  partial_alter (remove_from h1) a (partial_alter (remove_from h2) b m)
  = partial_alter (remove_from h2) b (partial_alter (remove_from h1) a m).
Proof.
  destruct (decide (a = b)) as [<-|Hne].
  - apply map_eq. intros k. destruct (decide (a = k)) as [<-|].
    + rewrite !lookup_partial_alter_eq. apply remove_from_comm.
    + by rewrite !lookup_partial_alter_ne.
  - by apply partial_alter_partial_alter_ne.
Qed.

(** The fields that [removeTx] changes, side by side. *)
Lemma removeTx_mk gp (cur pst : St) mg lo jo pend que al pri par ba bz fe h :
  remove (MkPool gp cur pst mg lo jo pend que al pri par ba bz fe) h =
  match al !! h with
  | None => MkPool gp cur pst mg lo jo pend que al pri par ba bz fe
  | Some tx =>
      let from := match types_Sender tx with Ok from => from | Err _ => 0 end in
      MkPool gp cur pst mg lo jo (partial_alter (remove_from h) from pend)
        (partial_alter (remove_from h) from que) (delete h al) (PricedList.Remove pri tx)
        par ba bz fe
  end.
Proof. reflexivity. Qed.

Lemma removeTx_comm p h1 h2 : remove (remove p h1) h2 = remove (remove p h2) h1.
Proof.
  destruct (decide (h1 = h2)) as [->|Hne]; [done|].
  destruct p as [? ? ? ? ? ? pend que al pri ? ? ? ?]. rewrite !removeTx_mk.
  destruct (al !! h1) as [t1|] eqn:H1; destruct (al !! h2) as [t2|] eqn:H2;
    rewrite !removeTx_mk, ?H1, ?H2; rewrite ?lookup_delete_ne, ?H1, ?H2 by done; try done.
  f_equal; try apply partial_alter_remove_comm.
  - apply delete_delete.
  - unfold PricedList.Remove. simpl. f_equal. apply PricedList.remove_first_comm.
Qed.

Lemma removeTx_frame p h :
  parallelizableTxs (remove p h) = parallelizableTxs p ∧
  batchedTxs (remove p h) = batchedTxs p ∧ batchSize (remove p h) = batchSize p ∧
  all (remove p h) = delete h (all p).
Proof.
  unfold removeTx. destruct (all p !! h) eqn:Hh; simpl; [done|].
  by rewrite delete_id.
Qed.

(** Is the transaction in one of the lists of a table? *)
Definition listed (m : gmap Z parallelList) (tx : Transaction) : Prop :=
  ∃ a l, m !! a = Some l ∧ ParallelList.contents l tx.

(** Removal by the sender's address reaches every list that holds the hash. *)
Lemma listed_remove al m ok h tx a t :
  lists_ok types_Sender al m ok → al !! h = Some tx → types_Sender tx = Ok a →
  listed (partial_alter (remove_from h) a m) t ↔ listed m t ∧ Tx.Hash_ t ≠ h.
Proof.
  intros Hm Hal Hs. unfold listed. split.
  - intros (b & l & Hl & Ht). destruct (decide (a = b)) as [<-|Hne].
    + rewrite lookup_partial_alter_eq in Hl. unfold remove_from in Hl.
      destruct (m !! a) as [l0|] eqn:Hl0; [|done].
      destruct (ParallelList.Empty _); simplify_eq. destruct (Hm a l0 Hl0) as (Hw & _ & _).
      apply ParallelList.contents_Remove in Ht as [Ht Hh]; [|done]. eauto.
    + rewrite lookup_partial_alter_ne in Hl by done. split; [eauto|].
      destruct (Hm b l Hl) as (_ & _ & Hc). destruct (Hc t Ht) as (Hst & Hat & _).
      intros <-. congruence.
  - intros [(b & l & Hl & Ht) Hh]. exists b. destruct (decide (a = b)) as [<-|Hne].
    + rewrite lookup_partial_alter_eq, Hl. simpl. destruct (Hm a l Hl) as (Hw & _ & _).
      assert (ParallelList.contents (ParallelList.Remove l h) t) as Hr
        by by apply ParallelList.contents_Remove.
      exists (ParallelList.Remove l h). split; [|done].
      destruct (ParallelList.Empty _) eqn:He; [|done]. exfalso.
      apply Z.eqb_eq, map_len_zero in He. unfold ParallelList.contents in Hr.
      by rewrite He, lookup_empty in Hr.
    + exists l. by rewrite lookup_partial_alter_ne.
Qed.

Lemma listed_absent al m ok h t :
  lists_ok types_Sender al m ok → al !! h = None →
  listed m t ↔ listed m t ∧ Tx.Hash_ t ≠ h.
Proof.
  intros Hm Hal. split; [|by intros []]. intros Ht. split; [done|].
  destruct Ht as (b & l & Hl & Ht). destruct (Hm b l Hl) as (_ & _ & Hc).
  destruct (Hc t Ht) as (_ & Hat & _). intros <-. congruence.
Qed.

(** Under the invariant, [removeTx] takes the transaction with that hash,
    and no other, out of the pool: out of the table, out of the pending list
    and the queue of its sender; every other transaction stays where it was. *)
Theorem removeTx_spec known p h :
  pool_wf types_Sender known p →
  Has (removeTx types_Sender p h) h = false ∧
  (∀ h', h' ≠ h → Get (removeTx types_Sender p h) h' = Get p h') ∧
  (∀ tx, listed (pending (removeTx types_Sender p h)) tx ↔ listed (pending p) tx ∧ Tx.Hash_ tx ≠
      h) ∧
  (∀ tx, listed (queue (removeTx types_Sender p h)) tx ↔ listed (queue p) tx ∧ Tx.Hash_ tx ≠ h).
Proof.
  intros [Hw _ _]. unfold Has, Get. destruct (removeTx_frame p h) as (_ & _ & _ & ->).
  split_and!.
  - rewrite lookup_delete_eq. apply bool_decide_eq_false. by intros [].
  - intros h' Hne. by rewrite lookup_delete_ne.
  - intros tx. unfold removeTx. destruct (all p !! h) as [t|] eqn:Ht.
    + destruct (wf_all _ _ _ Hw _ _ Ht) as (_ & _ & _ & Hok).
      destruct (types_Sender t) as [a|] eqn:Hs; [|done]. simpl.
      eapply listed_remove; eauto. apply (wf_pending _ _ _ Hw).
    + eapply listed_absent; eauto. apply (wf_pending _ _ _ Hw).
  - intros tx. unfold removeTx. destruct (all p !! h) as [t|] eqn:Ht.
    + destruct (wf_all _ _ _ Hw _ _ Ht) as (_ & _ & _ & Hok).
      destruct (types_Sender t) as [a|] eqn:Hs; [|done]. simpl.
      eapply listed_remove; eauto. apply (wf_queue _ _ _ Hw).
    + eapply listed_absent; eauto. apply (wf_queue _ _ _ Hw).
Qed.

(** ** Execution *)

(** The hashes that an execution reports, and the pool without them. *)
Definition executed (txs : list Transaction) : list Hash :=
  Tx.Hash_ <$> List.filter (λ tx, is_ok (types_Sender tx)) txs.

Definition remove_all p (hs : list Hash) : ParallelPool St := fold_left remove hs p.

Lemma collect_split s txs p ex :
  fold_left (collect_one types_Sender s) txs (p, ex)
  = (remove_all p (executed txs), ex ++ executed txs).
Proof.
  revert p ex. induction txs as [|tx txs IH]; intros p ex; [by rewrite app_nil_r|].
  cbn [fold_left collect_one]. unfold execute_tx, executed, remove_all.
  cbn [List.filter]. destruct (types_Sender tx); cbn [is_ok];
    rewrite IH; unfold executed, remove_all; [|done].
  rewrite fmap_cons. cbn [fold_left]. by rewrite <-app_assoc.
Qed.

Lemma ExecuteBatch_result head completion p batch s :
  Transactions batch ≠ [] → StateAt (Root head) = Some s →
  exec head completion p batch
  = (remove_all p (executed completion), Some (executed completion)).
Proof.
  intros Hne Hs. unfold ExecuteBatch.
  destruct (Z.eqb_spec (len (Transactions batch)) 0) as [H0|_]; [by apply len_zero_iff in H0|].
  by rewrite Hs, collect_split.
Qed.

Lemma remove_all_perm p hs ks : hs ≡ₚ ks → remove_all p hs = remove_all p ks.
Proof. apply fold_left_perm. intros. apply removeTx_comm. Qed.

Lemma executed_perm txs txs' : txs ≡ₚ txs' → executed txs ≡ₚ executed txs'.
Proof.
  intros Hp. unfold executed. f_equiv. induction Hp; simpl; repeat case_match; try done;
    [by f_equiv|by constructor|by etrans].
Qed.

Lemma remove_all_all p hs h :
  all (remove_all p hs) !! h = if bool_decide (h ∈ hs) then None else all p !! h.
Proof.
  clear StateAt.
  revert p. induction hs as [|k hs IH]; intros p; simpl; [done|].
  unfold remove_all in *. simpl. rewrite IH. destruct (removeTx_frame p k) as (_ & _ & _ & ->).
  rewrite lookup_delete. rewrite (bool_decide_ext (h ∈ k :: hs) (h = k ∨ h ∈ hs))
    by apply elem_of_cons.
  destruct (decide (k = h)) as [->|Hne]; case_bool_decide as H1; case_bool_decide as H2;
    try done; tauto || (exfalso; intuition congruence).
Qed.

Lemma remove_all_frame p hs :
  parallelizableTxs (remove_all p hs) = parallelizableTxs p ∧
  batchedTxs (remove_all p hs) = batchedTxs p ∧ batchSize (remove_all p hs) = batchSize p.
Proof.
  revert p. induction hs as [|k hs IH]; intros p; simpl; [done|].
  unfold remove_all in *. simpl. destruct (IH (remove p k)) as (-> & -> & ->).
  by destruct (removeTx_frame p k) as (-> & -> & -> & _).
Qed.

(** C8: the order in which the goroutines of a batch finish does not matter:
    any two orders leave the same pool, and report the same hashes up to their
    order (the same error, when the state is missing). *)
Theorem ExecuteBatch_confluent head completion1 completion2 p batch :
  completion1 ≡ₚ Transactions batch → completion2 ≡ₚ Transactions batch →
  (ExecuteBatch types_Sender StateAt head completion1 p batch).1 = (ExecuteBatch types_Sender
      StateAt head completion2 p batch).1 ∧
  option_Forall2 Permutation (ExecuteBatch types_Sender StateAt head completion1 p batch).2
    (ExecuteBatch types_Sender StateAt head completion2 p batch).2.
Proof.
  intros H1 H2. assert (completion1 ≡ₚ completion2) as H12 by by rewrite H1, H2.
  destruct (Transactions batch) as [|tx txs] eqn:Hb.
  { unfold ExecuteBatch. rewrite Hb. split; [done|]. by constructor. }
  destruct (StateAt (Root head)) as [s|] eqn:Hs.
  - rewrite !(ExecuteBatch_result _ _ _ _ s) by (done || by rewrite Hb). simpl. split.
    + by apply remove_all_perm, executed_perm.
    + constructor. by apply executed_perm.
  - unfold ExecuteBatch. rewrite Hb, Hs. simpl. split; [done|]. constructor.
Qed.

(** Executing a batch reports the hash of every transaction whose sender
    can be recovered, and takes exactly those out of the pool's table; but the
    batches and the parallelizable transactions stay as they were, so that the
    same batch, executed again, reports the same hashes again. *)
Theorem ExecuteBatch_executed head completion p batch s :
  completion ≡ₚ Transactions batch → StateAt (Root head) = Some s →
  ∃ hs, (ExecuteBatch types_Sender StateAt head completion p batch).2 = Some hs ∧
  hs ≡ₚ executed (Transactions batch) ∧
  (∀ h, Has (ExecuteBatch types_Sender StateAt head completion p batch).1 h = Has p h && negb
      (bool_decide (h ∈ hs))) ∧
  GetBatches (ExecuteBatch types_Sender StateAt head completion p batch).1 = GetBatches p ∧
  parallelizableTxs (ExecuteBatch types_Sender StateAt head completion p batch).1 =
      parallelizableTxs p ∧
  (ExecuteBatch types_Sender StateAt head completion (ExecuteBatch types_Sender StateAt head
      completion p batch).1 batch).2 = Some hs.
Proof.
  intros Hc Hs. destruct (Transactions batch) as [|tx txs] eqn:Hb.
  - assert (completion = []) as -> by by apply Permutation_nil_r.
    unfold ExecuteBatch. rewrite Hb. exists []. split_and!; try done.
    intros h. by rewrite andb_true_r.
  - assert (Transactions batch ≠ []) as Hne by by rewrite Hb.
    rewrite !(ExecuteBatch_result _ _ _ _ s) by done. simpl.
    exists (executed completion). split_and!; [done| | | | |done].
    + by apply executed_perm.
    + intros h. unfold Has. rewrite remove_all_all.
      destruct (bool_decide (h ∈ executed completion)); simpl.
      * by rewrite andb_false_r.
      * by rewrite andb_true_r.
    + apply remove_all_frame.
    + apply remove_all_frame.
Qed.
End Execution.
