(* ===== verification/PoolAdmission.v ===== *)
(** * Admission, the pending view and promotion

    What [validateTx], [Process], [Add], [Pending] and [promoteExecutables] of
    ParallelPool.v do. *)

From S2P Require Import Prelude GoSort TxTypes Signers ParallelList PoolParts StateInterface.
From S2P Require Import ParallelPool PoolBatches PoolInvariant PoolExecution.

Section Admission.
Context {St : Type} `{AccountState St}.
Context (types_Sender : Transaction → result signer_error Address).
Context (PriceLimit : Z).
Context (IntrinsicGas : bytes → AccessList → bool → bool → option Z).
Context (isShanghai : bool).
Implicit Types p : ParallelPool St.

Abbreviation validate := (validateTx types_Sender PriceLimit IntrinsicGas isShanghai).
Abbreviation process := (Process types_Sender PriceLimit IntrinsicGas isShanghai).
Abbreviation add_many := (Add types_Sender PriceLimit IntrinsicGas isShanghai).

(** ** Validation *)

(** A transaction passes validation exactly when it is of bounded size and
    non-negative value, its sender can be recovered, it pays the minimal fee
    unless it is local, its nonce is not used up, its sender can pay its cost,
    and, unless it is tagged as parallelizable, its gas covers the intrinsic
    gas: a tagged transaction is not held to any gas limit. *)
Theorem validateTx_spec p tx local :
  validateTx types_Sender PriceLimit IntrinsicGas isShanghai p tx local = None ↔
  Tx.Size tx <= txMaxSize ∧ 0 <= Tx.Value tx ∧
  ∃ from, types_Sender tx = Ok from ∧
    (local = true ∨ PriceLimit <= Tx.GasFeeCap tx) ∧
    GetNonce (currentState p) from <= Tx.Nonce tx ∧
    Tx.Cost tx <= GetBalance (currentState p) from ∧
    (hasTag (Tx.Data tx) = true ∨
     ∃ gas, IntrinsicGas (Tx.Data tx) (Tx.AccessList_ tx) (bool_decide (Tx.To tx = None))
              isShanghai = Some gas ∧ gas <= Tx.Gas tx).
Proof.
  unfold validateTx. rewrite !Z.gtb_ltb.
  destruct (Z.ltb_spec txMaxSize (Tx.Size tx)); [split; [done|intros [? _]; lia]|].
  destruct (Z.ltb_spec (Z.sgn (Tx.Value tx)) 0) as [Hv|Hv];
    [split; [done|intros (_ & ? & _)]; lia|].
  destruct (types_Sender tx) as [from|]; [|split; [done|intros (_ & _ & ? & ? & _); done]].
  unfold Tx.GasFeeCapIntCmp. rewrite !Cmp_ltb. fold (Tx.GasFeeCap tx).
  destruct (negb local && (Tx.GasFeeCap tx <? PriceLimit)) eqn:Hfee.
  { apply andb_prop in Hfee as [->%negb_true_iff Hfee%Z.ltb_lt].
    split; [done|]. intros (_ & _ & ? & _ & [?|?] & _); [done|lia]. }
  assert (local = true ∨ PriceLimit <= Tx.GasFeeCap tx) as Hfee'.
  { destruct local; [by left|right]. by apply Z.ltb_ge in Hfee. }
  rewrite Z.gtb_ltb. destruct (Z.ltb_spec (Tx.Nonce tx) (GetNonce (currentState p) from)).
  { split; [done|]. intros (_ & _ & ? & ? & _ & ? & _). simplify_eq. lia. }
  destruct (Z.ltb_spec (GetBalance (currentState p) from) (Tx.Cost tx)).
  { split; [done|]. intros (_ & _ & ? & ? & _ & _ & ? & _). simplify_eq. lia. }
  destruct (hasTag (Tx.Data tx)); simpl.
  { split; [|done]. intros _. split_and!; [done|lia|]. exists from. eauto 10. }
  destruct (IntrinsicGas _ _ _ _) as [g|].
  - destruct (Z.ltb_spec (Tx.Gas tx) g).
    + split; [done|]. intros (_ & _ & ? & _ & _ & _ & _ & [?|(? & ? & ?)]); simplify_eq. lia.
    + split; [|done]. intros _. split_and!; [done|lia|]. exists from. eauto 10.
  - split; [done|]. intros (_ & _ & ? & _ & _ & _ & _ & [?|(? & ? & ?)]); done.
Qed.

(** ** Admission *)

(** Where an admitted transaction goes. *)
Definition admitted `{MR : MapRange, SO : Sorter} clock p tx from : ParallelPool St :=
  let p := set_all p (<[Tx.Hash_ tx := tx]> (all p)) (PricedList.Put (priced p) tx) in
  prepareBatches clock
    (if hasTag (Tx.Data tx) then
       set_parallelizable p
         (<[from := default [] (parallelizableTxs p !! from) ++ [tx]]> (parallelizableTxs p))
     else if GetNonce (pendingState p) from =? Tx.Nonce tx
     then set_pending p (add_to (pending p) from tx)
     else set_queue p (add_to (queue p) from tx)).

Lemma add_cases `{MR : MapRange, SO : Sorter} clock p tx local :
  (∃ err, add types_Sender PriceLimit IntrinsicGas isShanghai clock p tx local = (p, Some err)) ∨
  Tx.Type_ tx = ParallelTxType ∧ ∃ from, types_Sender tx = Ok from ∧
  validate p tx local = None ∧
  add types_Sender PriceLimit IntrinsicGas isShanghai clock p tx local
  = (admitted clock p tx from, None).
Proof.
  unfold add, admitted. destruct (Z.eqb_spec (Tx.Type_ tx) ParallelTxType) as [Hty|];
    [|left; by eexists].
  simpl. destruct (validateTx _ _ _ _ _ _ _); [left; by eexists|].
  destruct (types_Sender tx) as [from|]; [|left; by eexists].
  right. split; [done|]. exists from. split_and!; done.
Qed.

Lemma concat_insert_perm (m : gmap Z (list Transaction)) a tx :
  concat (map_to_list (<[a := default [] (m !! a) ++ [tx]]> m)).*2
  ≡ₚ tx :: concat (map_to_list m).*2.
Proof.
  destruct (m !! a) as [l|] eqn:Hl; simpl.
  - assert (map_to_list (<[a := l ++ [tx]]> m) ≡ₚ (a, l ++ [tx]) :: map_to_list (delete a m))
      as H1 by (rewrite <-insert_delete_eq; apply map_to_list_insert, lookup_delete_eq).
    pose proof (map_to_list_delete m a l Hl) as H2.
    transitivity (concat ((a, l ++ [tx]) :: map_to_list (delete a m)).*2);
      [by apply concat_perm, fmap_Permutation|].
    transitivity (tx :: concat ((a, l) :: map_to_list (delete a m)).*2);
      [|by constructor; apply concat_perm, fmap_Permutation].
    simpl. rewrite <-app_assoc. simpl. symmetry. apply Permutation_middle.
  - transitivity (concat ((a, [tx]) :: map_to_list m).*2); [|done].
    by apply concat_perm, fmap_Permutation, map_to_list_insert.
Qed.

(** A transaction submitted on its own is either refused, and then the pool
    is unchanged and nobody is told, or it is in the table, its event is sent,
    and it has gone to one place: tagged, to the parallelizable transactions,
    once more on every submission; untagged, to the pending list of its sender
    when its nonce is the next one and to the queue otherwise. *)
Theorem Process_spec (MR : MapRange) (SO : Sorter) clock p tx local :
  let '(q, err) := Process types_Sender PriceLimit IntrinsicGas isShanghai clock p tx local in
  match err with
  | Some _ => q = p
  | None =>
      ∃ from, types_Sender tx = Ok from ∧ Get q (Tx.Hash_ tx) = Some tx ∧
      feed q = feed p ++ [[tx]] ∧
      (if hasTag (Tx.Data tx) then
         pending q = pending p ∧ queue q = queue p ∧
         parallelizable_bag q ≡ₚ tx :: parallelizable_bag p
       else
         parallelizableTxs q = parallelizableTxs p ∧
         if GetNonce (pendingState p) from =? Tx.Nonce tx
         then pending q = add_to (pending p) from tx ∧ queue q = queue p
         else pending q = pending p ∧ queue q = add_to (queue p) from tx)
  end.
Proof.
  unfold Process. destruct (negb _); [done|].
  destruct (add_cases clock p tx local) as [(err & ->)|(_ & from & Hs & _ & ->)]; [done|].
  exists from. split; [done|]. unfold mark_local, admitted. rewrite Hs.
  rewrite prepareBatches_frame. set (batches := batchedTxs _). clearbody batches.
  unfold Get, parallelizable_bag.
  destruct local, (hasTag (Tx.Data tx)); simpl; [| |idtac|];
    try (destruct (_ =? _); simpl; rewrite lookup_insert_eq; done).
  all: rewrite lookup_insert_eq; split_and!; try done; apply concat_insert_perm.
Qed.

(** [Add] tells the subscribers of every transaction it is handed, also of
    those that it refuses: the event carries the whole slice. *)
Theorem Add_announces_all (MR : MapRange) (SO : Sorter) clock p txs local :
  txs ≠ [] → feed (Add types_Sender PriceLimit IntrinsicGas isShanghai clock p txs local).1 =
      feed p ++ [txs].
Proof.
  intros Hne. unfold Add.
  assert (∀ acc, feed (fold_left
    (add_one types_Sender PriceLimit IntrinsicGas isShanghai clock local) txs acc).1
    = feed acc.1) as Hfold.
  { clear Hne. induction txs as [|tx txs IH]; intros [q errs]; simpl; [done|]. rewrite IH. simpl.
    destruct (negb _); [done|].
    destruct (add_cases clock q tx local) as [(err & ->)|(_ & from & Hs & _ & ->)]; [done|].
    unfold mark_local, admitted. rewrite Hs, prepareBatches_frame.
    destruct local, (hasTag (Tx.Data tx)); simpl; try done; by destruct (_ =? _). }
  specialize (Hfold (p, [])). destruct (fold_left _ _ _) as [q errs]. simpl in *.
  assert ((len txs >? 0) = true) as ->.
  { apply Z.gtb_lt. pose proof (len_nonneg txs). pose proof (len_zero_iff txs).
    destruct (Z.eq_dec (len txs) 0); [tauto|lia]. }
  simpl. by rewrite Hfold.
Qed.

(** ** The pending view *)

(** Is a transaction kept by a filter? *)
Definition keep (filter : option PendingFilter) (tx : Transaction) : bool :=
  match filter with Some f => filter_keep f tx | None => true end.

Lemma filter_keep_spec f tx :
  filter_keep f tx = true ↔
  (OnlyPlainTxs f = true → Tx.Type_ tx = LegacyTxType) ∧
  (∀ minTip baseFee, MinTip f = Some minTip → BaseFee f = Some baseFee →
    baseFee <= Tx.GasFeeCap tx ∧ minTip <= Tx.EffectiveGasTipValue tx (Some baseFee)).
Proof.
  unfold filter_keep.
  destruct (OnlyPlainTxs f && negb (Tx.Type_ tx =? LegacyTxType)) eqn:Hp.
  { apply andb_prop in Hp as [Hp Hty%negb_true_iff]. apply Z.eqb_neq in Hty.
    split; [done|]. intros [Hc _]. by apply Hc in Hp. }
  assert (OnlyPlainTxs f = true → Tx.Type_ tx = LegacyTxType) as Hp'.
  { intros Hf. rewrite Hf in Hp. simpl in Hp. by apply negb_false_iff, Z.eqb_eq in Hp. }
  destruct (MinTip f) as [minTip|]; [|split; [done|]; done].
  destruct (BaseFee f) as [baseFee|]; [|split; [done|]; done].
  pose proof (EffectiveGasTip_err tx baseFee) as Herr.
  pose proof (eq_refl (Tx.EffectiveGasTipValue tx (Some baseFee))) as Hval.
  unfold Tx.EffectiveGasTipValue in Hval at 1.
  destruct (Tx.EffectiveGasTip tx (Some baseFee)) as [tip err]. cbn [fst snd] in *.
  rewrite Cmp_ltb. destruct err; cbn [orb].
  - split; [done|]. intros [_ Hm]. destruct (Hm _ _ eq_refl eq_refl). lia.
  - assert (baseFee <= Tx.GasFeeCap tx) as Hb.
    { destruct (Z.le_gt_cases baseFee (Tx.GasFeeCap tx)) as [|Hlt]; [done|].
      by apply Herr in Hlt. }
    destruct (Z.ltb_spec tip minTip).
    + split; [done|]. intros [_ Hm]. destruct (Hm _ _ eq_refl eq_refl). lia.
    + split; [|done]. intros _. split; [done|]. intros; simplify_eq. split; [done|lia].
Qed.

Lemma filter_txs_filter filter l : filter_txs filter l = List.filter (keep filter) l.
Proof.
  destruct filter as [f|]; simpl.
  - enough (∀ acc, fold_left (λ kept tx, if filter_keep f tx then kept ++ [tx] else kept) l acc
      = acc ++ List.filter (filter_keep f) l) as Hacc by apply Hacc.
    induction l as [|tx l IH]; intros acc; simpl; [by rewrite app_nil_r|].
    rewrite IH. destruct (filter_keep f tx); [by rewrite <-app_assoc|done].
  - induction l; simpl; [done|]. by f_equal.
Qed.

Lemma Pending_fmap `{MR : MapRange, SS : StableSorter} p filter :
  Pending p filter = (λ l, filter_txs filter (ParallelList.Ready l)) <$> pending p.
Proof. apply (range_insert (λ l, filter_txs filter (ParallelList.Ready l))). Qed.

(** [Pending] does not depend on the order in which the maps are visited
    nor on the sorting algorithm; it has an entry for every account with a
    pending list, and the entry holds exactly the transactions of the list that
    the filter keeps. *)
Theorem Pending_spec known (R1 R2 : MapRange) (SS1 SS2 : StableSorter) p filter :
  pool_wf types_Sender known p →
  @Pending R1 SS1 St p filter = @Pending R2 SS2 St p filter ∧
  (∀ a, is_Some (Pending p filter !! a) ↔ is_Some (pending p !! a)) ∧
  (∀ a txs, Pending p filter !! a = Some txs →
    ∃ l, pending p !! a = Some l ∧
    ∀ tx, tx ∈ txs ↔ ParallelList.contents l tx ∧ keep filter tx = true).
Proof.
  intros [Hw _ _]. rewrite !Pending_fmap. split_and!.
  - apply map_fmap_ext. intros a l Hl. f_equal. apply ParallelList.Ready_order.
    by destruct (wf_pending _ _ _ Hw a l Hl).
  - intros a. rewrite lookup_fmap. by rewrite fmap_is_Some.
  - intros a txs Htxs. rewrite lookup_fmap in Htxs.
    apply fmap_Some in Htxs as (l & Hl & ->). exists l. split; [done|]. intros tx.
    rewrite filter_txs_filter, list_elem_of_In, filter_In, <-list_elem_of_In.
    rewrite ParallelList.Ready_elem by by destruct (wf_pending _ _ _ Hw a l Hl). done.
Qed.

(** A request for plain transactions only gets none: the pool admits only
    transactions of type 5, and the filter keeps only legacy ones, so every
    account is listed with an empty slice. *)
Theorem Pending_plain_empty known (R : MapRange) (SS : StableSorter) p f a txs :
  pool_wf types_Sender known p → OnlyPlainTxs f = true →
  Pending p (Some f) !! a = Some txs → txs = [].
Proof.
  intros [Hw _ _] Hf Htxs. rewrite Pending_fmap, lookup_fmap in Htxs.
  apply fmap_Some in Htxs as (l & Hl & ->).
  destruct (filter_txs _ _) as [|tx rest] eqn:Ht; [done|]. exfalso.
  assert (tx ∈ filter_txs (Some f) (ParallelList.Ready l)) as Htx by (rewrite Ht; by left).
  rewrite filter_txs_filter, list_elem_of_In, filter_In, <-list_elem_of_In in Htx.
  destruct (wf_pending _ _ _ Hw a l Hl) as (Hlw & _ & Hc).
  destruct Htx as [Htx%ParallelList.Ready_elem Hk]; [|done].
  destruct (Hc _ Htx) as (_ & Hall & _).
  destruct (wf_all _ _ _ Hw _ _ Hall) as (_ & _ & Hty & _).
  apply filter_keep_spec in Hk as [Hk _]. by rewrite (Hk Hf) in Hty.
Qed.
End Admission.
