(* ===== verification/PoolTheorems.v ===== *)
(** * The reachable states of the parallel pool

    What holds in every state that the operations of ParallelPool.v reach from
    [New], with any signer, and what becomes of the pool with the signers the
    repository has.  The concrete inputs of the theorems about the pool are at
    the end of the file. *)

From S2P Require Import Prelude GoSort TxTypes Signers ParallelList PoolParts StateInterface.
From S2P Require Import ParallelPool PoolBatches PoolInvariant PoolExecution PoolAdmission.

Section Reachable.
Context {St : Type} `{AccountState St}.
Context (types_Sender : Transaction → result signer_error Address).
Context (PriceLimit : Z).
Context (IntrinsicGas : bytes → AccessList → bool → bool → option Z).
Context (isShanghai : bool).
Context (StateAt : Hash → option St).
Context (known : Transaction → Prop).
Implicit Types p : ParallelPool St.

Abbreviation reach := (reachable types_Sender PriceLimit IntrinsicGas isShanghai StateAt known).
Abbreviation collision_free :=
  (∀ t1 t2, known t1 → known t2 → Tx.Hash_ t1 = Tx.Hash_ t2 → t1 = t2).

(** C7: the structures of the parallel pool, in every reachable state, as long as the
    hashes of the submitted transactions do not collide: everything in a pending list
    or in the queue is in the table, under its sender's address; the table maps each
    hash to the transaction with that hash; everything in the table is in the price
    list, which is sorted; the batch size is between 1 and 256.  The converses do not
    hold in general: a transaction whose slot a later one took stays in the table, and
    one that was offered twice leaves a copy in the price list
    ([resubmitted_stays_priced]).  But when no transaction is offered while the table
    has it, the price list holds exactly the transactions of the table, each once. *)
Theorem reachable_consistent p :
  collision_free → reachable types_Sender PriceLimit IntrinsicGas isShanghai StateAt known p →
  (∀ h tx, Get p h = Some tx → Tx.Hash_ tx = h ∧ tx ∈ priced_items (priced p)) ∧
  (∀ a l tx, pending p !! a = Some l ∨ queue p !! a = Some l → ParallelList.contents l tx →
    types_Sender tx = Ok a ∧ Get p (Tx.Hash_ tx) = Some tx) ∧
  PricedList.sorted (priced p) ∧ 1 <= batchSize p <= MaxBatchSize ∧
  (fresh_reachable types_Sender PriceLimit IntrinsicGas isShanghai StateAt known p →
    priced_items (priced p) ≡ₚ (map_to_list (all p)).*2).
Proof.
  intros Hinj Hp. destruct (reachable_pool_wf _ _ _ _ _ _ Hinj _ Hp) as [Hw _ _].
  split_and!; [| |apply Hw|apply Hw..|by apply fresh_reachable_exact].
  - intros h tx Htx. split; [by apply (wf_all _ _ _ Hw)|by eapply wf_priced].
  - intros a l tx [Hl|Hl] Htx.
    + destruct (wf_pending _ _ _ Hw a l Hl) as (_ & _ & Hc). by destruct (Hc tx Htx) as (? & ? & _).
    + destruct (wf_queue _ _ _ Hw a l Hl) as (_ & _ & Hc). by destruct (Hc tx Htx) as (? & ? & _).
Qed.

(** At most one transaction per account is ever pending, however many
    consecutive nonces it has submitted: in every reachable state the pending
    list of an account holds one transaction, with the account's next nonce,
    and the queue none with that nonce; no operation moves a transaction from
    the queue to the pending list. *)
Theorem reachable_pending_single p a l :
  collision_free → reachable types_Sender PriceLimit IntrinsicGas isShanghai StateAt known p →
      pending p !! a = Some l →
  (∃ tx, ∀ (R : MapRange) (SS : StableSorter), ParallelList.Ready l = [tx] ∧
     Tx.Nonce tx = GetNonce (pendingState p) a) ∧
  ∀ lq tx, queue p !! a = Some lq → ParallelList.contents lq tx →
    Tx.Nonce tx ≠ GetNonce (pendingState p) a.
Proof.
  intros Hinj Hp Hl. destruct (reachable_pool_wf _ _ _ _ _ _ Hinj _ Hp) as [Hw _ _].
  split.
  - destruct (wf_pending _ _ _ Hw a l Hl) as (Hlw & Hne & Hc).
    apply map_choose in Hne as (n & tx & Hn).
    pose proof (ParallelList.contents_items _ _ _ Hlw Hn) as Htx.
    exists tx. intros R SS. split; [|by apply Hc].
    apply ParallelList.Ready_unique; [done|repeat constructor|].
    assert (items l = {[n := tx]}) as ->; [|by rewrite map_to_list_singleton].
    apply map_eq. intros m. destruct (items l !! m) as [t|] eqn:Hm.
    + pose proof (ParallelList.contents_items _ _ _ Hlw Hm) as Ht.
      destruct (ParallelList.wf_items _ Hlw _ _ Hm) as [Hm' _].
      destruct (ParallelList.wf_items _ Hlw _ _ Hn) as [Hn' _].
      destruct (Hc t Ht) as (_ & _ & Hnt). destruct (Hc tx Htx) as (_ & _ & Hntx).
      assert (m = n) as -> by congruence. rewrite lookup_singleton_eq. congruence.
    + rewrite lookup_singleton_ne; [done|]. intros ->. congruence.
  - intros lq tx Hlq Htx. destruct (wf_queue _ _ _ Hw a lq Hlq) as (_ & _ & Hc).
    by destruct (Hc tx Htx) as (_ & _ & ?).
Qed.

(** In every reachable state the current batches hold exactly the
    parallelizable transactions, each as often as it was submitted, in batches
    of 1 to 256: the executed ones too, and those that [Clear] and [Reset] have
    dropped from the rest of the pool. *)
Theorem reachable_batches p (R : MapRange) :
  collision_free → reachable types_Sender PriceLimit IntrinsicGas isShanghai StateAt known p →
  concat (Transactions <$> GetBatches p) ≡ₚ all_parallelizable p ∧
  Forall (λ b, 1 <= len (Transactions b) <= MaxBatchSize) (GetBatches p) ∧
  parallelizableTxs (Clear p) = parallelizableTxs p ∧ GetBatches (Clear p) = GetBatches p ∧
  ∀ head, parallelizableTxs (Reset StateAt p head) = parallelizableTxs p ∧
    GetBatches (Reset StateAt p head) = GetBatches p.
Proof.
  intros Hinj Hp. destruct (reachable_pool_wf _ _ _ _ _ _ Hinj _ Hp) as [Hw Hb Hl].
  split_and!; [|eapply Forall_impl; [exact Hl|]; simpl; lia|done|done|].
  - unfold GetBatches. rewrite Hb. symmetry. apply parallelizable_bag_range.
  - intros head. unfold Reset, GetBatches. by destruct (StateAt _).
Qed.
End Reachable.

(** ** The signers of the repository *)

Section RepositorySigners.
Context {St : Type} `{AccountState St}.
Context (rlpHash : list hash_item → Hash).
Context (prefixedRlpHash : Z → list hash_item → Hash).
Context (Keccak256 : bytes → bytes).
Context (Ecrecover : Hash → bytes → option bytes).
Context (signer : Signer).
Context (PriceLimit : Z).
Context (IntrinsicGas : bytes → AccessList → bool → bool → option Z).
Context (isShanghai : bool).
Context (StateAt : Hash → option St).
Implicit Types p : ParallelPool St.

Abbreviation Sender_of := (signer_Sender rlpHash prefixedRlpHash Keccak256 Ecrecover signer).

(** Every transaction of type 5 is refused. *)
Lemma signer_add_refuses (MR : MapRange) (SO : Sorter) clock p tx local :
  ∃ err, add Sender_of PriceLimit IntrinsicGas isShanghai clock p tx local = (p, Some err).
Proof.
  destruct (add_cases Sender_of PriceLimit IntrinsicGas isShanghai clock p tx local)
    as [|(Hty & from & Hs & _)]; [done|].
  destruct tx as [d h sz t]. destruct d; try done. destruct signer; discriminate Hs.
Qed.

(** A pool without transactions. *)
Definition pool_empty p : Prop :=
  pending p = ∅ ∧ queue p = ∅ ∧ all p = ∅ ∧ parallelizableTxs p = ∅ ∧ batchedTxs p = [].

Lemma prepareBatches_empty `{MapRange} clock p : pool_empty p → pool_empty (prepareBatches clock p).
Proof.
  intros Hp. pose proof Hp as (_ & _ & _ & Hpar & _). unfold prepareBatches.
  rewrite totalTxs_len. fold (range_values (parallelizableTxs p)).
  assert (range_values (parallelizableTxs p) = []) as ->; [|done].
  apply Permutation_nil_r. rewrite range_values_perm, Hpar, map_to_list_empty. done.
Qed.

Lemma step_empty p q :
  pool_step Sender_of PriceLimit IntrinsicGas isShanghai StateAt (λ _, True) p q →
  pool_empty p → pool_empty q.
Proof.
  destruct 1 as [MR SO clock p tx local _|MR SO clock p txs local _|p head|p|MR clock p size
    |head completion p batch _]; intros Hp.
  - unfold Process. destruct (negb _); [done|].
    by destruct (signer_add_refuses MR SO clock p tx local) as [err ->].
  - unfold Add. assert (∀ acc, pool_empty acc.1 → pool_empty (fold_left (add_one Sender_of
      PriceLimit IntrinsicGas isShanghai clock local) txs acc).1) as Hfold.
    { induction txs as [|tx txs IH]; intros [q errs] Hq; simpl; [done|]. apply IH. simpl.
      destruct (negb _); [done|].
      by destruct (signer_add_refuses MR SO clock q tx local) as [err ->]. }
    specialize (Hfold (p, []) Hp). destruct (fold_left _ _ _) as [q errs].
    by destruct (_ >? 0).
  - unfold Reset. destruct Hp as (_ & _ & _ & ? & ?). by destruct (StateAt _).
  - by destruct Hp as (_ & _ & _ & ? & ?).
  - unfold SetBatchSize. by apply prepareBatches_empty.
  - unfold ExecuteBatch. destruct (_ =? 0); [done|]. destruct (StateAt _) as [s|]; [|done].
    rewrite collect_split. simpl. unfold remove_all. generalize (executed Sender_of completion).
    intros hs. induction hs as [|h hs IH]; [done|]. simpl. unfold removeTx at 2.
    destruct Hp as (_ & _ & Hall & _). by rewrite Hall, lookup_empty.
Qed.

(** With any of the signers that [types.LatestSigner] returns, no sequence of
    operations ever puts a transaction into the parallel pool: its admission
    asks for type 5 and for a recovered sender, and no signer recovers the
    sender of a transaction of type 5. *)
Theorem pool_admits_nothing p :
  reachable Sender_of PriceLimit IntrinsicGas isShanghai StateAt (λ _, True) p →
  pool_empty p.
Proof.
  intros (cur & man & Hr).
  assert (pool_empty (New cur man newParallelPricedList)) as H0 by done.
  induction Hr as [|? ? ? Hs _ IH]; [done|]. by eapply IH, step_empty.
Qed.
End RepositorySigners.

(** ** Concrete inputs *)

Definition ex_sender (tx : Transaction) : result signer_error Address := Ok 7.
Definition ex_gas (_ : bytes) (_ : AccessList) (_ _ : bool) : option Z := Some 21000.
Definition ex_state : map_state := MkMapState {[ 7 := 0 ]} {[ 7 := 1000000 ]}.
Definition ex_stateAt (_ : Hash) : option map_state := Some ex_state.
Definition ex_clock (n : nat) : Z := Z.of_nat n.

(** An untagged transaction of nonce 0 and a tagged one. *)
Definition ex_plain : Transaction :=
  MkTx (TParallel (ParallelTx.mk 1 0 1 2 21000 (Some 5) 1 [] [] 0 [] 0 0 0 0)) 100 120 0.
Definition ex_tagged : Transaction :=
  MkTx (TParallel (ParallelTx.mk 1 1 1 2 0 (Some 5) 1 (ParallelizableTag ++ [1]) [] 0 [] 0 0 0 0))
    101 130 0.
Definition ex_known (tx : Transaction) : Prop := tx = ex_plain ∨ tx = ex_tagged.

Lemma ex_known_inj t1 t2 :
  ex_known t1 → ex_known t2 → Tx.Hash_ t1 = Tx.Hash_ t2 → t1 = t2.
Proof. intros [->| ->] [->| ->]; done. Qed.

Abbreviation ex_process p tx := (Process ex_sender 0 ex_gas true ex_clock p tx false).
Definition ex_new : ParallelPool map_state := New ex_state ex_state newParallelPricedList.
Definition ex_pool : ParallelPool map_state :=
  (ex_process (ex_process ex_new ex_plain).1 ex_tagged).1.

Lemma ex_pool_reachable : reachable ex_sender 0 ex_gas true ex_stateAt ex_known ex_pool.
Proof.
  exists ex_state, ex_state. unfold ex_pool.
  eapply rtc_l; [apply step_Process; by left|].
  eapply rtc_l; [apply step_Process; by right|]. constructor.
Qed.

Example ex_pool_content :
  (Stats ex_pool, len (GetBatches ex_pool), map_len (all ex_pool)) = ((1, 0), 1, 2).
Proof. vm_compute. reflexivity. Qed.

Lemma ex_pool_wf : pool_wf ex_sender ex_known ex_pool.
Proof. eapply reachable_pool_wf; [apply ex_known_inj|apply ex_pool_reachable]. Qed.

Definition ex_batch : TxBatch := MkTxBatch [ex_tagged; ex_plain] 0.

(** The pool after the plain transaction was executed. *)
Definition ex_executed : ParallelPool map_state :=
  (ExecuteBatch ex_sender ex_stateAt (MkHeader 0 0) [ex_plain] ex_pool (MkTxBatch [ex_plain] 0)).1.

Lemma ex_fresh p tx : ex_known tx → Get p (Tx.Hash_ tx) = None →
  fresh_step ex_sender 0 ex_gas true ex_stateAt ex_known p (ex_process p tx).1.
Proof. intros Hk Hn. by apply fresh_Process. Qed.

Lemma ex_executed_fresh : fresh_reachable ex_sender 0 ex_gas true ex_stateAt ex_known ex_executed.
Proof.
  exists ex_state, ex_state. apply (rtc_l _ _ (ex_process ex_new ex_plain).1); [apply ex_fresh; [by left|vm_compute; reflexivity]|].
  apply (rtc_l _ _ ex_pool); [apply ex_fresh; [by right|vm_compute; reflexivity]|]. apply rtc_once. by apply fresh_ExecuteBatch.
Qed.

Lemma reachable_consistent_witness :
  PricedList.sorted (priced ex_executed) ∧ priced_items (priced ex_executed) ≡ₚ [ex_tagged].
Proof.
  destruct (reachable_consistent ex_sender 0 ex_gas true ex_stateAt ex_known ex_executed)
    as (_ & _ & Hs & _ & Hex); [apply ex_known_inj|apply fresh_reachable_reachable, ex_executed_fresh|].
  split; [exact Hs|]. rewrite (Hex ex_executed_fresh).
  assert (Hm : (map_to_list (all ex_executed)).*2 = [ex_tagged]) by (vm_compute; reflexivity). by rewrite Hm.
Defined.

(** Offered twice and executed, a transaction stays in the price list and nowhere else. *)
Lemma resubmitted_stays_priced :
  let p := (ex_process (ex_process ex_new ex_plain).1 ex_plain).1 in
  let q := (ExecuteBatch ex_sender ex_stateAt (MkHeader 0 0) [ex_plain] p (MkTxBatch [ex_plain] 0)).1 in
  reachable ex_sender 0 ex_gas true ex_stateAt ex_known q ∧ Get q 100 = None ∧ Stats q = (0, 0) ∧ priced_items (priced q) = [ex_plain].
Proof.
  cbv zeta. split; [|split; [vm_compute; reflexivity|split; vm_compute; reflexivity]]. exists ex_state, ex_state.
  apply (rtc_l _ _ (ex_process ex_new ex_plain).1); [by apply step_Process; left|].
  apply (rtc_l _ _ (ex_process (ex_process ex_new ex_plain).1 ex_plain).1); [by apply step_Process; left|]. apply rtc_once. by apply step_ExecuteBatch.
Qed.

Lemma reachable_pending_single_witness :
  ∃ l tx, pending ex_pool !! 7 = Some l ∧ ∀ (R : MapRange) (SS : StableSorter),
    ParallelList.Ready l = [tx] ∧ Tx.Nonce tx = GetNonce (pendingState ex_pool) 7.
Proof.
  eexists _.
  destruct (reachable_pending_single ex_sender 0 ex_gas true ex_stateAt ex_known ex_pool 7
    (MkParallelList {[ 0 := ex_plain ]} {[ 100 := ex_plain ]})) as [[tx Htx] _];
    [apply ex_known_inj|apply ex_pool_reachable|vm_compute; reflexivity|].
  exists tx. split; [|exact Htx]. vm_compute. reflexivity.
Defined.

Lemma reachable_batches_witness :
  concat (Transactions <$> GetBatches ex_pool) ≡ₚ all_parallelizable ex_pool.
Proof.
  apply (reachable_batches ex_sender 0 ex_gas true ex_stateAt ex_known ex_pool);
    [apply ex_known_inj|apply ex_pool_reachable].
Defined.

Lemma pool_admits_nothing_witness :
  pool_empty (ExecuteBatch
    (signer_Sender example_rlp example_prlp example_keccak example_pub (pragueSigner 1))
    ex_stateAt (MkHeader 0 0) [] ex_new (MkTxBatch [] 0)).1.
Proof.
  apply (pool_admits_nothing example_rlp example_prlp example_keccak example_pub
    (pragueSigner 1) 0 ex_gas true ex_stateAt).
  exists ex_state, ex_state. eapply rtc_l; [|constructor].
  apply step_ExecuteBatch. reflexivity.
Defined.

Lemma removeTx_spec_witness :
  Has (removeTx ex_sender ex_pool 100) 100 = false ∧
  Get (removeTx ex_sender ex_pool 100) 101 = Get ex_pool 101.
Proof.
  destruct (removeTx_spec ex_sender ex_known ex_pool 100 ex_pool_wf) as (H1 & H2 & _).
  split; [exact H1|]. apply H2. lia.
Defined.

Lemma ExecuteBatch_confluent_witness :
  (ExecuteBatch ex_sender ex_stateAt (MkHeader 0 0) [ex_plain; ex_tagged] ex_pool ex_batch).1
  = (ExecuteBatch ex_sender ex_stateAt (MkHeader 0 0) [ex_tagged; ex_plain] ex_pool ex_batch).1.
Proof.
  apply (ExecuteBatch_confluent ex_sender ex_stateAt (MkHeader 0 0) [ex_plain; ex_tagged]
    [ex_tagged; ex_plain]); simpl; [apply perm_swap|reflexivity].
Defined.

Lemma ExecuteBatch_executed_witness :
  ∃ hs, (ExecuteBatch ex_sender ex_stateAt (MkHeader 0 0) [ex_plain; ex_tagged] ex_pool
           ex_batch).2 = Some hs ∧ hs ≡ₚ executed ex_sender [ex_tagged; ex_plain].
Proof.
  destruct (ExecuteBatch_executed ex_sender ex_stateAt (MkHeader 0 0) [ex_plain; ex_tagged]
    ex_pool ex_batch ex_state) as (hs & H1 & H2 & _); [apply perm_swap|reflexivity|].
  exists hs. split; [exact H1|exact H2].
Defined.

Lemma Add_announces_all_witness :
  feed (Add ex_sender 0 ex_gas true ex_clock ex_new [example_signed] false).1
  = feed ex_new ++ [[example_signed]].
Proof. apply Add_announces_all. discriminate. Defined.

Lemma Pending_spec_witness :
  @Pending canonical_range _ _ ex_pool None = @Pending reverse_range _ _ ex_pool None ∧
  is_Some (Pending ex_pool None !! 7).
Proof.
  destruct (Pending_spec ex_sender ex_known canonical_range reverse_range
    insertion_stable_sorter insertion_stable_sorter ex_pool None ex_pool_wf) as (H1 & H2 & _).
  split; [exact H1|]. apply H2. vm_compute. by eexists.
Defined.

Lemma Pending_plain_empty_witness :
  ∃ txs, Pending ex_pool (Some (MkPendingFilter true None None)) !! 7 = Some txs ∧ txs = [].
Proof.
  eexists. assert (Pending ex_pool (Some (MkPendingFilter true None None)) !! 7 = Some [])
    as Hp by (vm_compute; reflexivity).
  split; [exact Hp|].
  exact (Pending_plain_empty ex_sender ex_known canonical_range insertion_stable_sorter ex_pool
    (MkPendingFilter true None None) 7 [] ex_pool_wf eq_refl Hp).
Defined.
