(* ===== verification/BatchExec.v ===== *)
(** * The goroutines of a batch

    The concurrent part of [ExecuteBatch] (parallelpool.go): the loop that
    launches one goroutine per transaction, the semaphore that bounds how many
    run at once, the buffered channel of results, and the loop that collects
    them and takes what succeeded out of the pool, one result at a time.  A
    state is what the goroutines share, the pool included; a step is one action
    of one of them.  [ExecuteBatch] of ParallelPool.v is the execution without
    goroutines, in an order that it is given. *)

From S2P Require Import Prelude GoSort TxTypes Signers ParallelList PoolParts StateInterface.
From S2P Require Import ParallelPool PoolBatches PoolInvariant PoolExecution PoolTheorems.

(** ** Steps *)

(** [txResult] *)
Record txResult : Type := MkResult { txHash : Hash; res_err : option signer_error }.

Record exec_state (St : Type) : Type := MkExec {
  (** the transactions that the launching loop has still to visit *)
  to_launch : list Transaction;
  (** the goroutines at work, each holding a slot of the semaphore *)
  running : list Transaction;
  (** how many have sent their result and have not yet given the slot back *)
  releasing : nat;
  (** [resultCh], oldest first *)
  resultCh : list txResult;
  (** the counter of the collecting loop *)
  received : nat;
  executedTxs : list Hash;
  failedTxs : gmap Hash signer_error;
  (** the pool, which the collecting loop changes *)
  pool : ParallelPool St
}.
Arguments MkExec {St}. Arguments to_launch {St}. Arguments running {St}. Arguments releasing {St}.
Arguments resultCh {St}. Arguments received {St}. Arguments executedTxs {St}. Arguments failedTxs {St}. Arguments pool {St}.

Definition exec_init {St} (batch : list Transaction) (p : ParallelPool St) : exec_state St :=
  MkExec batch [] 0 [] 0 [] ∅ p.

Section Steps.
Context {St : Type} `{AccountState St}.
Context (types_Sender : Transaction → result signer_error Address).
(** [runtime.NumCPU()], the capacity of the semaphore; [len(batch.Transactions)], the
    capacity of the channel and the bound of the collecting loop; and the state. *)
Context (NumCPU capacity : nat) (stateDB : St).

(** What the goroutine of a transaction sends. *)
Definition goroutine (tx : Transaction) : txResult :=
  MkResult (Tx.Hash_ tx) (match execute_tx types_Sender stateDB tx with Err err => Some err | Ok _ => None end).

(** The body of the collecting loop. *)
Definition collect (r : txResult) (s : exec_state St) : exec_state St :=
  match res_err r with
  | Some err =>
      MkExec (to_launch s) (running s) (releasing s) (resultCh s) (S (received s)) (executedTxs s)
        (<[txHash r := err]> (failedTxs s)) (pool s)
  | None =>
      MkExec (to_launch s) (running s) (releasing s) (resultCh s) (S (received s)) (executedTxs s ++ [txHash r])
        (failedTxs s) (removeTx types_Sender (pool s) (txHash r))
  end.

Inductive exec_step : exec_state St → exec_state St → Prop :=
  | exec_launch tx rest run rel ch n ex fl p :
      (length run + rel < NumCPU)%nat →
      exec_step (MkExec (tx :: rest) run rel ch n ex fl p) (MkExec rest (run ++ [tx]) rel ch n ex fl p)
  | exec_send launch run1 tx run2 rel ch n ex fl p :
      (length ch < capacity)%nat →
      exec_step (MkExec launch (run1 ++ tx :: run2) rel ch n ex fl p)
        (MkExec launch (run1 ++ run2) (S rel) (ch ++ [goroutine tx]) n ex fl p)
  | exec_release launch run rel ch n ex fl p :
      exec_step (MkExec launch run (S rel) ch n ex fl p) (MkExec launch run rel ch n ex fl p)
  | exec_collect run rel r ch n ex fl p :
      (n < capacity)%nat →
      exec_step (MkExec [] run rel (r :: ch) n ex fl p) (collect r (MkExec [] run rel ch n ex fl p)).

(** Both loops are over. *)
Definition exec_done (s : exec_state St) : Prop := to_launch s = [] ∧ received s = capacity.

(** Where each transaction is: still to launch, at work, its result in the channel
    ([sent]), or collected ([got], in this order); the pool and what was recorded are
    what collecting [got] one by one makes of them. *)
Record exec_at (batch : list Transaction) (p0 : ParallelPool St) (s : exec_state St) (sent got : list Transaction) : Prop := {
  ea_perm : to_launch s ++ running s ++ sent ++ got ≡ₚ batch;
  ea_slots : (length (running s) + releasing s <= NumCPU)%nat;
  ea_channel : resultCh s = map goroutine sent;
  ea_received : received s = length got;
  ea_pool : (pool s, executedTxs s) = fold_left (collect_one types_Sender stateDB) got (p0, []);
  ea_failed h : is_Some (failedTxs s !! h) ↔ ∃ tx, tx ∈ got ∧ Tx.Hash_ tx = h ∧ is_ok (types_Sender tx) = false
}.

Definition exec_inv batch p0 s : Prop := ∃ sent got, exec_at batch p0 s sent got.

(** What is left to do. *)
Definition exec_measure (s : exec_state St) : nat :=
  4 * length (to_launch s) + 3 * length (running s) + releasing s + length (resultCh s).

Lemma exec_step_measure s s' : exec_step s s' → (exec_measure s' + 1 = exec_measure s)%nat.
Proof.
  unfold exec_measure. destruct 1 as [| | |run rel r ch n ex fl p]; cbn [to_launch running releasing resultCh length]; rewrite ?length_app; cbn [length]; try lia.
  unfold collect. destruct (res_err r); cbn; lia.
Qed.

Lemma goroutine_err tx :
  res_err (goroutine tx) = match types_Sender tx with Err err => Some err | Ok _ => None end.
Proof. unfold goroutine, execute_tx. by destruct (types_Sender tx). Qed.

Lemma collect_at batch p0 run rel ch n ex fl p tx sent got :
  exec_at batch p0 (MkExec [] run rel (goroutine tx :: ch) n ex fl p) (tx :: sent) got →
  exec_at batch p0 (collect (goroutine tx) (MkExec [] run rel ch n ex fl p)) sent (got ++ [tx]).
Proof.
  intros [Hp Hs Hc Hr Hpool Hf]. cbn in *. injection Hc as Hc. subst n.
  assert (Hfold : fold_left (collect_one types_Sender stateDB) (got ++ [tx]) (p0, []) = collect_one types_Sender stateDB (p, ex) tx)
    by (rewrite fold_left_app, <- Hpool; done).
  assert (Hbag : run ++ sent ++ got ++ [tx] ≡ₚ batch) by (rewrite <- Hp; solve_Permutation).
  unfold collect. rewrite goroutine_err. unfold collect_one, execute_tx in Hfold.
  destruct (types_Sender tx) as [from|err] eqn:Hsend; split; cbn; try done; rewrite ?length_app; cbn; try lia; try (by rewrite Hfold).
  - intros h. rewrite Hf. split; [intros (t & Ht & ?); exists t; split; [apply elem_of_app; by left|done]|].
    intros (t & [Ht|Ht%list_elem_of_singleton]%elem_of_app & Hh & Hok); [by exists t|]. subst t. by rewrite Hsend in Hok.
  - intros h. destruct (decide (Tx.Hash_ tx = h)) as [<-|Hne].
    + rewrite lookup_insert_eq. split; [|by eexists]. intros _. exists tx. split; [apply elem_of_app; right; by left|]. by rewrite Hsend.
    + rewrite lookup_insert_ne by done. rewrite Hf. split; [intros (t & Ht & ?); exists t; split; [apply elem_of_app; by left|done]|].
      intros (t & [Ht|Ht%list_elem_of_singleton]%elem_of_app & Hh & Hok); [by exists t|]. congruence.
Qed.

Lemma exec_step_inv batch p0 s s' : exec_step s s' → exec_inv batch p0 s → exec_inv batch p0 s'.
Proof.
  destruct 1 as [tx rest run rel ch n ex fl p Hlt|launch run1 tx run2 rel ch n ex fl p Hlt|launch run rel ch n ex fl p|run rel r ch n ex fl p Hlt];
    intros (sent & got & Hat).
  - exists sent, got. destruct Hat; split; cbn in *; try done; [rewrite <- ea_perm0; solve_Permutation|rewrite length_app; cbn; lia].
  - exists (sent ++ [tx]), got. destruct Hat; split; cbn in *; try done; [rewrite <- ea_perm0; solve_Permutation|rewrite length_app in *; cbn in *; lia|].
    by rewrite map_app, <- ea_channel0.
  - exists sent, got. destruct Hat; split; cbn in *; try done. lia.
  - pose proof Hat as [_ _ Hc _ _ _]. cbn in Hc. destruct sent as [|tx sent]; [done|]. injection Hc as -> ->. exists sent, (got ++ [tx]). by apply collect_at.
Qed.

Lemma exec_init_inv batch p : exec_inv batch p (exec_init batch p).
Proof.
  exists [], []. split; cbn; [by rewrite app_nil_r|lia|done|done|done|]. intros h. rewrite lookup_empty. split; [by intros []|].
  intros (tx & Hin & _). by apply elem_of_nil in Hin.
Qed.
End Steps.

Section Runs.
Context {St : Type} `{AccountState St}.
Context (types_Sender : Transaction → result signer_error Address).
Context (NumCPU : nat) (stateDB : St) (batch : list Transaction) (p : ParallelPool St).

Abbreviation step := (exec_step types_Sender NumCPU (length batch) stateDB).
Abbreviation inv_ := (exec_inv types_Sender NumCPU stateDB batch p).

Lemma exec_reach_inv s : rtc step (exec_init batch p) s → inv_ s.
Proof.
  intros Hr. pose proof (exec_init_inv types_Sender NumCPU stateDB batch p) as Hi.
  induction Hr as [|? ? ? Hs _ IH]; [done|]. by eapply IH, exec_step_inv.
Qed.

Lemma exec_steps_measure n s s' : nsteps step n s s' → (exec_measure s' + n = exec_measure s)%nat.
Proof.
  induction 1 as [|n x y z Hs _ IH]; [lia|]. apply exec_step_measure in Hs. lia.
Qed.

Lemma exec_at_len s sent got :
  exec_at types_Sender NumCPU stateDB batch p s sent got →
  (length (to_launch s) + length (running s) + length (resultCh s) + received s = length batch)%nat.
Proof. intros [Hp _ Hc Hr _ _]. rewrite <- Hp, Hc, Hr, !length_app, length_map. lia. Qed.

Lemma exec_progress s :
  (1 <= NumCPU)%nat → inv_ s → exec_done (length batch) s ∨ ∃ s', step s s'.
Proof.
  intros HN (sent & got & Hat). pose proof (exec_at_len s sent got Hat) as Hlen. destruct Hat as [_ Hslots _ _ _ _].
  destruct s as [launch run rel ch n ex fl q]. cbn in *. destruct run as [|tx run].
  - destruct rel as [|rel]; [|right; eexists; by apply exec_release]. destruct launch as [|tx launch].
    + destruct ch as [|r ch]; [left; split; cbn in *; [done|lia]|right]. eexists. apply exec_collect. cbn in *. lia.
    + right. eexists. apply exec_launch. cbn. lia.
  - right. eexists. apply (exec_send _ _ _ _ launch [] tx run). cbn in *. lia.
Qed.

(** Executing a batch cannot deadlock and ends: with at least one slot in the
    semaphore, from every state that the goroutines reach either both loops are
    over or some goroutine can act, never more goroutines run than there are
    slots, and after at most four actions per transaction there is none left. *)
Theorem batch_execution_terminates s n :
  (1 <= NumCPU)%nat → nsteps step n (exec_init batch p) s →
  (exec_done (length batch) s ∨ ∃ s', step s s') ∧ (length (running s) <= NumCPU)%nat ∧ (n <= 4 * length batch)%nat.
Proof.
  intros HN Hn. assert (inv_ s) as Hinv by (apply exec_reach_inv; by eapply rtc_nsteps_2).
  split_and!.
  - by apply exec_progress.
  - destruct Hinv as (sent & got & Hat). destruct Hat. lia.
  - pose proof (exec_steps_measure _ _ _ Hn) as Hm. unfold exec_measure in Hm at 2. cbn in Hm. lia.
Qed.

(** C40: whatever the goroutines do, an execution of a batch that runs to its end
    leaves the pool as executing the transactions one after the other does: the loop
    has received one result per transaction and none is left in the channel, the pool
    is that of the sequential [ExecuteBatch], the hashes that are returned are the
    sequential ones, in some order, and [failedTxs] has exactly the hashes of the
    transactions whose sender is not recovered. *)
Theorem batch_execution_sequential (StateAt : Hash → option St) head batchID s :
  StateAt (Root head) = Some stateDB →
  rtc (exec_step types_Sender NumCPU (length batch) stateDB) (exec_init batch p) s → exec_done (length batch) s →
  received s = length batch ∧ resultCh s = [] ∧ running s = [] ∧
  ∃ hs, ExecuteBatch types_Sender StateAt head batch p (MkTxBatch batch batchID) = (pool s, Some hs) ∧
    executedTxs s ≡ₚ hs ∧
    ∀ h, is_Some (failedTxs s !! h) ↔ ∃ tx, tx ∈ batch ∧ Tx.Hash_ tx = h ∧ is_ok (types_Sender tx) = false.
Proof.
  intros Hst Hr [Hl Hc]. destruct (exec_reach_inv s Hr) as (sent & got & Hat). pose proof (exec_at_len s sent got Hat) as Hlen.
  destruct Hat as [Hp _ Hch Hrec Hpool Hf]. rewrite Hl in *. cbn [length app] in *.
  assert (running s = []) as Hrun by (apply length_zero_iff_nil; lia). assert (resultCh s = []) as Hres by (apply length_zero_iff_nil; lia).
  rewrite Hres in Hch. symmetry in Hch. apply map_eq_nil in Hch as ->. rewrite Hrun in Hp. cbn in Hp. split_and!; [done..|].
  rewrite collect_split in Hpool. injection Hpool as Hq Hex. cbn in Hex. exists (executed types_Sender batch). split_and!.
  - unfold ExecuteBatch. cbn [Transactions]. destruct (Z.eqb_spec (len batch) 0) as [H0|_].
    + apply len_zero_iff in H0. rewrite H0 in Hp |- *. apply Permutation_nil_r in Hp as ->. by rewrite Hq.
    + rewrite Hst, collect_split. cbn. rewrite Hq. assert (executed types_Sender batch ≡ₚ executed types_Sender got) as Hperm by by apply executed_perm.
      by rewrite (remove_all_perm types_Sender p _ _ Hperm).
  - rewrite Hex. by apply executed_perm.
  - intros h. rewrite Hf. by setoid_rewrite Hp.
Qed.
End Runs.

(** ** Concrete inputs *)

(** Two goroutines; the result of the second arrives first. *)
Definition ex_txs : list Transaction := [ex_plain; ex_tagged].
Abbreviation ex_step := (exec_step ex_sender 2 2 ex_state).
Abbreviation ex_goroutine := (goroutine ex_sender ex_state).

Definition ex_run_end : exec_state map_state :=
  MkExec [] [] 2 [] 2 [101; 100] ∅ (removeTx ex_sender (removeTx ex_sender ex_pool 101) 100).

Lemma ex_run : nsteps ex_step 6 (exec_init ex_txs ex_pool) ex_run_end.
Proof.
  eapply nsteps_l; [apply (exec_launch ex_sender 2 2 ex_state ex_plain [ex_tagged] []); cbn; lia|].
  eapply nsteps_l; [apply (exec_launch ex_sender 2 2 ex_state ex_tagged [] [ex_plain]); cbn; lia|].
  eapply nsteps_l; [apply (exec_send ex_sender 2 2 ex_state [] [ex_plain] ex_tagged []); cbn; lia|].
  eapply nsteps_l; [apply (exec_send ex_sender 2 2 ex_state [] [] ex_plain []); cbn; lia|].
  eapply nsteps_l; [apply (exec_collect ex_sender 2 2 ex_state [] 2 (ex_goroutine ex_tagged)); lia|].
  eapply nsteps_l; [apply (exec_collect ex_sender 2 2 ex_state [] 2 (ex_goroutine ex_plain) [] 1 [101] ∅ (removeTx ex_sender ex_pool 101)); lia|].
  constructor.
Qed.

Lemma batch_execution_terminates_witness :
  (length (running ex_run_end) <= 2)%nat ∧ (6 <= 4 * length ex_txs)%nat.
Proof.
  destruct (batch_execution_terminates ex_sender 2 ex_state ex_txs ex_pool ex_run_end 6) as (_ & H1 & H2);
    [lia|exact ex_run|]. split; [exact H1|exact H2].
Defined.

Lemma batch_execution_sequential_witness :
  (Stats ex_pool, map_len (all ex_pool)) = ((1, 0), 2) ∧ (Stats (pool ex_run_end), map_len (all (pool ex_run_end))) = ((0, 0), 0) ∧
  ∃ hs, ExecuteBatch ex_sender ex_stateAt (MkHeader 0 0) ex_txs ex_pool (MkTxBatch ex_txs 0) = (pool ex_run_end, Some hs) ∧
    executedTxs ex_run_end ≡ₚ hs ∧ hs = [100; 101].
Proof.
  split; [vm_compute; reflexivity|]. split; [vm_compute; reflexivity|].
  destruct (batch_execution_sequential ex_sender 2 ex_state ex_txs ex_pool ex_stateAt (MkHeader 0 0) 0 ex_run_end) as (_ & _ & _ & hs & Hrun & Hex & _);
    [reflexivity|eapply rtc_nsteps_2, ex_run|split; reflexivity|].
  exists hs. split; [exact Hrun|split; [exact Hex|]].
  assert (Hs : (ExecuteBatch ex_sender ex_stateAt (MkHeader 0 0) ex_txs ex_pool (MkTxBatch ex_txs 0)).2 = Some [100; 101]) by (vm_compute; reflexivity).
  rewrite Hrun in Hs. by injection Hs.
Defined.
