(* ===== verification/ParallelAPI.v ===== *)
(** * The RPC interface of the parallel pool

    parallelizable-client-go-ethereum/core/txpool/parallelpool/api.go: status,
    tagging, batch size, execution of all the batches, and the three queries.
    A result that the Go code builds as a map with a fixed set of keys is a
    record, the keys that may be missing being options. *)

From S2P Require Import Prelude GoSort TxTypes Signers ParallelList PoolParts StateInterface.
From S2P Require Import ParallelPool PoolBatches PoolInvariant PoolExecution.

Local Open Scope eigen_scope.

Definition TxGas : Z := 21000.
Definition InitialBaseFee : Z := 1000000000.

Inductive api_error : Type :=
  | errNoCurrentBlock
  | errNoState
  | errMarshal
  | errBatchSizeZero
  | errBatchSizeMax
  | errNotFound.

(** ** Data *)

Record ParallelPoolStatus : Type := MkStatus {
  status_Pending : Z;
  status_Queued : Z;
  status_Parallelizable : Z;
  status_Batches : Z;
  status_BatchSize : Z;
  status_TotalProcessed : Z;
  status_SuccessfullyBatched : Z
}.

Record TagTransactionRequest : Type := MkTagRequest {
  req_From : Address;
  req_To : option Address;
  req_Gas : option Z;
  req_GasPrice : option Z;
  req_Value : option Z;
  req_Data : bytes;
  req_Nonce : option Z;
  req_Parallel : bool
}.

(** What [IsParallelizable] tells about a transaction with more than eight
    bytes of data, and about the others. *)
Record TagDetails : Type := MkTagDetails {
  det_tag : bytes;
  det_from : option Address;
  det_to : option Address;
  det_nonce : Z;
  det_value : Z;
  det_gas : Z;
  det_gasPrice : Z;
  (** [inBatch] and [batchID], of the tagged ones *)
  det_inBatch : option (bool * option Z)
}.

Record TagReport : Type := MkTagReport {
  rep_hash : Hash;
  rep_isParallelizable : bool;
  (** [None] comes with the error entry *)
  rep_details : option TagDetails
}.

Record BatchGas : Type := MkBatchGas {
  totalGas : Z;
  avgGas : Z;
  minGas : Z;
  maxGas : Z
}.

Record BatchInfo : Type := MkBatchInfo {
  info_batchID : Z;
  info_txCount : Z;
  info_uniqueSenders : Z;
  info_gas : option BatchGas
}.

Record BatchStats : Type := MkBatchStats {
  stats_batchSize : Z;
  stats_batchCount : Z;
  stats_totalBatchedTxs : Z;
  (** minimum, maximum and median *)
  stats_sizes : option (Z * Z * Z);
  stats_batches : list BatchInfo
}.

Inductive method_type : Type := ERC20Transfer | ETHTransfer | UnknownContractInteraction.

Record DataReport : Type := MkDataReport {
  dataLength : Z;
  isTagged : bool;
  (** ["PARALLEL"] or ["SEQUENTIAL"] *)
  report_tag : option bytes;
  methodSignature : option bytes;
  methodType : option method_type;
  parallelRecommendation : option bool
}.

(** ** Operations *)

(** The accumulation over the transactions of a batch. *)
Definition gas_step (acc : Z * Z * Z) (tx : Transaction) : Z * Z * Z :=
  let '(totalGas, minGas, maxGas) := acc in
  let gas := Tx.Gas tx in
  (wrap64 (totalGas + gas), if gas <? minGas then gas else minGas,
   if gas >? maxGas then gas else maxGas).

Definition batch_gas (txs : list Transaction) : option BatchGas :=
  match txs with
  | [] => None
  | tx :: _ =>
      let minGas := Tx.Gas tx in
      let maxGas := minGas in
      let '(totalGas, minGas, maxGas) := fold_left gas_step txs (0, minGas, maxGas) in
      Some (MkBatchGas totalGas (totalGas / len txs) minGas maxGas)
  end.

(** The distribution of the sizes: [None] when there are none. *)
Definition size_distribution `{Sorter} (batchSizes : list Z) : option (Z * Z * Z) :=
  let sorted := sort_Slice Z.ltb batchSizes in
  let at_ (i : Z) := default 0 (sorted !! Z.to_nat i) in
  let n := len sorted in
  if n >? 0 then
    let median :=
      if n mod 2 =? 0 then (at_ (n / 2 - 1) + at_ (n / 2)) / 2 else at_ (n / 2) in
    Some (at_ 0, at_ (n - 1), median)
  else None.

Definition ERC20_transfer : bytes := [0xa9; 0x05; 0x9c; 0xbb].

Definition AnalyzeTransactionData (data : bytes) : DataReport :=
  let dataLen := len data in
  let analyze :=
    if dataLen >=? 4 then
      let methodSignature := take 4 data in
      if bool_decide (methodSignature = ERC20_transfer) && (dataLen >=? 68) then
        MkDataReport dataLen false None (Some methodSignature) (Some ERC20Transfer) (Some true)
      else if dataLen <=? 4 then
        MkDataReport dataLen false None (Some methodSignature) (Some ETHTransfer) (Some true)
      else
        MkDataReport dataLen false None (Some methodSignature)
          (Some UnknownContractInteraction) (Some false)
    else MkDataReport dataLen false None None None None in
  if dataLen >=? 8 then
    let prefix := take 8 data in
    if bool_decide (prefix = ParallelizableTag) then
      MkDataReport dataLen true (Some ParallelizableTag) None None None
    else if bool_decide (prefix = SequentialTag) then
      MkDataReport dataLen true (Some SequentialTag) None None None
    else analyze
  else analyze.

Section API.
Context `{MR : MapRange, SO : Sorter}.
Context {St : Type} `{AccountState St}.
Context (types_Sender : Transaction → result signer_error Address).
Context (StateAt : Hash → option St).
(** [tx.MarshalBinary()] *)
Context (MarshalBinary : Transaction → option bytes).
(** The hash and the size of a transaction, computed on demand in the code. *)
Context (hash_of size_of : TxData → Z).
Implicit Types p : ParallelPool St.

Definition Status p : ParallelPoolStatus :=
  let batches := GetBatches p in
  let txCount := fold_left (λ n batch, n + len (Transactions batch)) batches 0 in
  {| status_Pending := map_len (pending p);
     status_Queued := map_len (queue p);
     status_Parallelizable := txCount;
     status_Batches := len batches;
     status_BatchSize := batchSize p;
     status_TotalProcessed := 0;
     status_SuccessfullyBatched := 0 |}.

(** The transaction that [TagTransaction] builds; [head] is the current block,
    which may be missing. *)
Definition tagged_transaction p (head : option Header) (args : TagTransactionRequest)
    : result api_error Transaction :=
  let* nonce :=
    match req_Nonce args with
    | Some nonce => Ok nonce
    | None =>
        match head with
        | None => Err errNoCurrentBlock
        | Some currentBlock =>
            match StateAt (Root currentBlock) with
            | None => Err errNoState
            | Some stateDB => Ok (GetNonce stateDB (req_From args))
            end
        end
    end in
  let gas := match req_Gas args with Some gas => gas | None => TxGas end in
  let price :=
    match req_GasPrice args with
    | Some price => price
    | None => match gasPrice p with Some price => price | None => InitialBaseFee end
    end in
  let value := match req_Value args with Some value => value | None => 0 end in
  let data :=
    if req_Parallel args then ParallelizableTag ++ req_Data args
    else SequentialTag ++ req_Data args in
  let inner := TxData.copy (RLegacy (LegacyTx.mk nonce (Some price) gas (req_To args)
    (Some value) data None None None)) in
  Ok (MkTx inner (hash_of inner) (size_of inner) 0).

Definition TagTransaction p head args : result api_error bytes :=
  match tagged_transaction p head args with
  | Err err => Err err
  | Ok tx => match MarshalBinary tx with Some b => Ok b | None => Err errMarshal end
  end.

Definition API_SetBatchSize clock p (size : Z) : ParallelPool St * option api_error :=
  if size <=? 0 then (p, Some errBatchSizeZero)
  else if size >? MaxBatchSize then (p, Some errBatchSizeMax)
  else (SetBatchSize clock p size, None).

(** [completion] gives the order in which the results of a batch arrive. *)
Definition execute_one (head : Header) (completion : TxBatch → list Transaction)
    (acc : ParallelPool St * list Hash) (batch : TxBatch) : ParallelPool St * list Hash :=
  let '(p, allExecuted) := acc in
  match ExecuteBatch types_Sender StateAt head (completion batch) p batch with
  | (p, None) => (p, allExecuted)
  | (p, Some executed) => (p, allExecuted ++ executed)
  end.

Definition ExecuteBatches head completion p : ParallelPool St * list Hash :=
  let batches := GetBatches p in
  if len batches =? 0 then (p, [])
  else fold_left (execute_one head completion) batches (p, []).

(** The search for a hash in the batches. *)
Fixpoint find_batch (batches : list TxBatch) (txHash : Hash) : option Z :=
  match batches with
  | [] => None
  | batch :: batches =>
      if existsb (λ tx, Tx.Hash_ tx =? txHash) (Transactions batch) then Some (BatchID batch)
      else find_batch batches txHash
  end.

Definition IsParallelizable p (txHash : Hash) : result api_error TagReport :=
  match all p !! txHash with
  | None => Err errNotFound
  | Some tx =>
      let txData := Tx.Data tx in
      if len txData >? 8 then
        let tag := take 8 txData in
        let isParallel := bool_decide (tag = ParallelizableTag) in
        Ok (MkTagReport txHash isParallel (Some {|
          det_tag := tag;
          det_from := match types_Sender tx with Ok from => Some from | Err _ => None end;
          det_to := Tx.To tx;
          det_nonce := Tx.Nonce tx;
          det_value := Tx.Value tx;
          det_gas := Tx.Gas tx;
          det_gasPrice := Tx.GasPrice tx;
          det_inBatch :=
            if isParallel then
              let found := find_batch (batchedTxs p) txHash in
              Some (bool_decide (is_Some found), found)
            else None |}))
      else Ok (MkTagReport txHash false None)
  end.

(** The set of the senders that can be recovered. *)
Definition batch_senders (txs : list Transaction) : gmap Z bool :=
  fold_left (λ senders tx,
    match types_Sender tx with Ok sender => <[sender := true]> senders | Err _ => senders end)
    txs ∅.

Definition batch_info (batch : TxBatch) : BatchInfo :=
  MkBatchInfo (BatchID batch) (len (Transactions batch))
    (map_len (batch_senders (Transactions batch))) (batch_gas (Transactions batch)).

Definition BatchStatistics p : BatchStats :=
  let batchSizes := (λ batch, len (Transactions batch)) <$> batchedTxs p in
  {| stats_batchSize := batchSize p;
     stats_batchCount := len (batchedTxs p);
     stats_totalBatchedTxs :=
       fold_left (λ n batch, n + len (Transactions batch)) (batchedTxs p) 0;
     stats_sizes := size_distribution batchSizes;
     stats_batches := batch_info <$> batchedTxs p |}.
End API.

(** ** The three readings of the tag *)

Lemma take_prefix (tag data : bytes) :
  take (length tag) data = tag ↔ ∃ rest, data = tag ++ rest.
Proof.
  split.
  - intros Ht. exists (drop (length tag) data). rewrite <-Ht at 1. by rewrite take_drop.
  - intros [rest ->]. apply take_app_length.
Qed.

Lemma len_tag_app rest : len (ParallelizableTag ++ rest) = 8 + len rest.
Proof. by rewrite len_app. Qed.

(** The pool, the query [IsParallelizable] and the advice of
    [AnalyzeTransactionData] do not read the tag in the same way.  Data counts
    as tagged for the pool when it is the tag followed by at least one byte, for
    the advice also when it is the tag alone; and no data at all is advised to
    be tagged sequential: the ten bytes that [TagTransaction] writes are
    compared with a prefix of eight. *)
Theorem tag_readings data :
  (hasTag data = true ↔ ∃ rest, rest ≠ [] ∧ data = ParallelizableTag ++ rest) ∧
  (isTagged (AnalyzeTransactionData data) = true ↔ ∃ rest, data = ParallelizableTag ++ rest) ∧
  report_tag (AnalyzeTransactionData data) ≠ Some SequentialTag.
Proof.
  pose proof (take_prefix ParallelizableTag data) as Htake.
  change (length ParallelizableTag) with 8%nat in Htake. split_and!.
  - unfold hasTag. rewrite Z.gtb_ltb. destruct (Z.ltb_spec 8 (len data)) as [Hl|Hl].
    + rewrite bool_decide_eq_true, Htake. split; [|intros (rest & _ & ->); by exists rest].
      intros [rest ->]. exists rest. split; [|done]. intros ->.
      rewrite len_tag_app, (len_nil (A:=Z)) in Hl. lia.
    + split; [done|]. intros (rest & Hne & ->). rewrite len_tag_app in Hl.
      pose proof (len_nonneg rest). pose proof (len_zero_iff rest). exfalso. apply Hne.
      apply len_zero_iff. lia.
  - unfold AnalyzeTransactionData. rewrite Z.geb_leb.
    destruct (Z.leb_spec 8 (len data)) as [Hl|Hl].
    + case_bool_decide as Ht; [split; [by intros _; apply Htake|done]|].
      rewrite Htake in Ht.
      destruct (bool_decide (take 8 data = SequentialTag)) eqn:Hs.
      { apply bool_decide_eq_true in Hs. apply (f_equal length) in Hs.
        rewrite length_take in Hs. change (length SequentialTag) with 10%nat in Hs. lia. }
      repeat case_match; simpl; split; try done; intros; contradiction.
    + assert (¬ ∃ rest, data = ParallelizableTag ++ rest) as Ht.
      { intros [rest ->]. rewrite len_tag_app in Hl. pose proof (len_nonneg rest). lia. }
      repeat case_match; simpl; split; try done; intros; contradiction.
  - unfold AnalyzeTransactionData.
    destruct (bool_decide (take 8 data = SequentialTag)) eqn:Hs.
    { apply bool_decide_eq_true in Hs. apply (f_equal length) in Hs.
      rewrite length_take in Hs. change (length SequentialTag) with 10%nat in Hs. lia. }
    repeat case_match; simpl; try done.
Qed.

(** ** Tagging *)

Section Tagging.
Context {St : Type} `{AccountState St}.
Context (types_Sender : Transaction → result signer_error Address).
Context (StateAt : Hash → option St).
Context (hash_of size_of : TxData → Z).
Implicit Types p : ParallelPool St.

(** What [TagTransaction] returns can never be submitted to the pool it is
    meant for: whatever the request, it builds a legacy transaction, and the
    pool refuses it, unchanged, as not parallel. *)
Theorem tagged_transaction_refused (MR : MapRange) (SO : Sorter) PriceLimit IntrinsicGas
    isShanghai clock p head args tx local :
  tagged_transaction StateAt hash_of size_of p head args = Ok tx →
  Process types_Sender PriceLimit IntrinsicGas isShanghai clock p tx local
  = (p, Some ErrInvalidParallelTx).
Proof.
  unfold tagged_transaction. destruct (match req_Nonce args with Some _ => _ | None => _ end);
    simpl; intros; simplify_eq. done.
Qed.

(** Executing all the batches twice reports everything twice: when the state
    is available, the second run returns the hashes of the first, although the
    first has removed their transactions from the pool. *)
Theorem ExecuteBatches_repeats head completion p s :
  (∀ b, b ∈ GetBatches p → completion b ≡ₚ Transactions b) → StateAt (Root head) = Some s →
  (ExecuteBatches types_Sender StateAt head completion
     (ExecuteBatches types_Sender StateAt head completion p).1).2
  = (ExecuteBatches types_Sender StateAt head completion p).2 ∧
  ∀ h, h ∈ (ExecuteBatches types_Sender StateAt head completion p).2 →
    Has (ExecuteBatches types_Sender StateAt head completion p).1 h = false.
Proof.
  intros Hc Hs.
  assert (∀ bs q ex, (∀ b, b ∈ bs → completion b ≡ₚ Transactions b) →
    fold_left (execute_one types_Sender StateAt head completion) bs (q, ex)
    = (remove_all types_Sender q (concat ((λ b, executed types_Sender (completion b)) <$> bs)),
       ex ++ concat ((λ b, executed types_Sender (completion b)) <$> bs))) as Hfold.
  { clear Hc. induction bs as [|b bs IH]; intros q ex Hc; cbn [fold_left fmap list_fmap concat].
    { by rewrite app_nil_r. }
    assert (ExecuteBatch types_Sender StateAt head (completion b) q b
      = (remove_all types_Sender q (executed types_Sender (completion b)),
         Some (executed types_Sender (completion b)))) as Hb.
    { destruct (Transactions b) as [|tx txs] eqn:Hb.
      - assert (completion b = []) as ->.
        { apply Permutation_nil_r. rewrite <-Hb. apply Hc. by left. }
        unfold ExecuteBatch. by rewrite Hb.
      - apply (ExecuteBatch_result types_Sender StateAt _ _ _ _ s); [by rewrite Hb|done]. }
    unfold execute_one at 2. rewrite Hb, IH by set_solver.
    rewrite <-app_assoc. unfold remove_all. by rewrite fold_left_app. }
  assert (∀ q, batchedTxs q = batchedTxs p →
    ExecuteBatches types_Sender StateAt head completion q
    = (remove_all types_Sender q
         (concat ((λ b, executed types_Sender (completion b)) <$> GetBatches p)),
       concat ((λ b, executed types_Sender (completion b)) <$> GetBatches p))) as Hrun.
  { intros q Hq. unfold ExecuteBatches, GetBatches in *. rewrite Hq.
    destruct (Z.eqb_spec (len (batchedTxs p)) 0) as [H0|_]; [|by rewrite Hfold].
    by apply len_zero_iff in H0 as ->. }
  rewrite (Hrun p eq_refl). simpl. set (hs := concat _).
  destruct (remove_all_frame types_Sender p hs) as (_ & Hbs & _).
  rewrite (Hrun _ Hbs). split; [done|].
  intros h Hh. unfold Has. rewrite remove_all_all, (bool_decide_eq_true_2 _ Hh). done.
Qed.
End Tagging.

(** ** Statistics *)

Lemma len_fold batches n :
  fold_left (λ n batch, n + len (Transactions batch)) batches n
  = n + len (concat (Transactions <$> batches)).
Proof.
  revert n. induction batches as [|b batches IH]; intros n; cbn [fold_left fmap list_fmap concat].
  - rewrite (len_nil (A:=Transaction)). lia.
  - rewrite IH, len_app. lia.
Qed.

(** The sum of the gas limits, without wrapping. *)
Definition gas_sum (txs : list Transaction) : Z := foldr (λ tx n, Tx.Gas tx + n) 0 txs.

Lemma gas_fold txs t mn mx :
  Forall (λ tx, 0 <= Tx.Gas tx) txs → is_uint64 (t + gas_sum txs) → 0 <= t →
  ∃ mn' mx', fold_left gas_step txs (t, mn, mx) = (t + gas_sum txs, mn', mx') ∧
  mn' <= mn ∧ mx <= mx' ∧ Forall (λ tx, mn' <= Tx.Gas tx <= mx') txs.
Proof.
  intros Hall. revert t mn mx. induction Hall as [|tx txs Htx Hall IH]; intros t mn mx Hs Ht.
  - exists mn, mx. simpl. rewrite Z.add_0_r. split_and!; [done|lia|lia|constructor].
  - assert (0 <= gas_sum txs) as Hpos.
    { clear -Hall. induction Hall; simpl; lia. }
    simpl in Hs |- *. rewrite wrap64_id by ulia.
    destruct (IH (t + Tx.Gas tx) (if Tx.Gas tx <? mn then Tx.Gas tx else mn)
      (if Tx.Gas tx >? mx then Tx.Gas tx else mx)) as (mn' & mx' & -> & Hmn & Hmx & Hin);
      [ulia|lia|].
    exists mn', mx'. rewrite Z.add_assoc. split; [done|].
    rewrite Z.gtb_ltb in Hmx.
    destruct (Z.ltb_spec (Tx.Gas tx) mn), (Z.ltb_spec mx (Tx.Gas tx));
      (split_and!; [lia|lia|constructor; [lia|done]]).
Qed.

Lemma gas_sum_bounds txs mn mx :
  Forall (λ tx, mn <= Tx.Gas tx <= mx) txs → mn * len txs <= gas_sum txs <= mx * len txs.
Proof.
  induction 1 as [|tx txs Htx _ IH]; simpl; [rewrite (len_nil (A:=Transaction)); lia|].
  rewrite len_cons. lia.
Qed.

(** The gas statistics of a batch are right as long as the total fits in 64
    bits: the total is the sum, every transaction lies between the minimum and
    the maximum, and so does the average. *)
Theorem batch_gas_spec txs g :
  Forall (λ tx, 0 <= Tx.Gas tx) txs → gas_sum txs < two64 → batch_gas txs = Some g →
  totalGas g = gas_sum txs ∧ Forall (λ tx, minGas g <= Tx.Gas tx <= maxGas g) txs ∧
  minGas g <= avgGas g <= maxGas g.
Proof.
  intros Hall Hsum. unfold batch_gas. destruct txs as [|tx rest]; [done|]. intros Hg.
  assert (0 <= gas_sum (tx :: rest)) as Hpos.
  { clear -Hall. induction Hall; simpl in *; lia. }
  remember (tx :: rest) as txs eqn:Htxs.
  destruct (gas_fold txs 0 (Tx.Gas tx) (Tx.Gas tx)) as (mn & mx & Hf & _ & _ & Hin);
    [done|ulia|lia|].
  rewrite Hf, Z.add_0_l in Hg.
  assert (0 < len txs) as Hlen
    by (rewrite Htxs, len_cons; pose proof (len_nonneg rest); lia).
  pose proof (gas_sum_bounds _ _ _ Hin). clear Htxs. simplify_eq.
  cbn [totalGas avgGas minGas maxGas]. split_and!; [done|done| |].
  - apply Z.div_le_lower_bound; lia.
  - apply Z.div_le_upper_bound; lia.
Qed.

Lemma batch_gas_spec_witness :
  ∃ g, batch_gas [example_signed; example_signed] = Some g ∧ minGas g <= avgGas g <= maxGas g.
Proof.
  eexists. assert (batch_gas [example_signed; example_signed]
    = Some (MkBatchGas 42000 21000 21000 21000)) as Hg by (vm_compute; reflexivity).
  split; [exact Hg|].
  apply (batch_gas_spec [example_signed; example_signed] _); [|reflexivity|exact Hg].
  repeat (constructor; [vm_compute; discriminate|]). constructor.
Defined.

Definition ex_request : TagTransactionRequest := MkTagRequest 7 (Some 9) None None None [1] (Some 3) true.

Lemma tagged_transaction_refused_witness :
  ∃ tx, tagged_transaction (λ _, None) (λ _, 0) (λ _, 0) example_pool None ex_request = Ok tx ∧
  Process (λ _, Ok 7) 0 (λ _ _ _ _, None) true (λ _, 0) example_pool tx true
  = (example_pool, Some ErrInvalidParallelTx).
Proof.
  eexists. split; [reflexivity|].
  apply (tagged_transaction_refused (λ _, Ok 7) (λ _, None) (λ _, 0) (λ _, 0) _ _ 0
    (λ _ _ _ _, None) true (λ _, 0) example_pool None ex_request). reflexivity.
Defined.

Definition ex_batched : ParallelPool map_state := prepareBatches (λ n, Z.of_nat n) example_pool.

Lemma ExecuteBatches_repeats_witness :
  let run := ExecuteBatches (λ _, Ok 7) (λ _, Some (MkMapState ∅ ∅)) (MkHeader 0 0) Transactions in
  (run (run ex_batched).1).2 = (run ex_batched).2.
Proof.
  intros run.
  apply (ExecuteBatches_repeats (λ _, Ok 7) (λ _, Some (MkMapState ∅ ∅)) (MkHeader 0 0)
    Transactions ex_batched (MkMapState ∅ ∅)); [intros; reflexivity|reflexivity].
Defined.
