(* ===== verification/ProtoList.v ===== *)
(** * The transaction list of the first parallel pool

    src/core/txpool/parallelpool/list.go: the transactions of an account by
    nonce, with a sorted slice that is rebuilt when the list has changed.
    [GetParallelTxData], a method of transactions that no file of the repository
    defines, is a parameter. *)

From S2P Require Import Prelude GoSort TxTypes.

Record protoList : Type := MkProtoList {
  pl_txs : gmap Z Transaction;
  pl_items : list Transaction;
  dirty : bool
}.

Module ProtoList.
Definition newParallelList : protoList := MkProtoList ∅ [] false.

(** Whether it was inserted, and the transaction it replaced. *)
Definition Add (l : protoList) (tx : Transaction) (priceBump : Z)
    : protoList * (bool * option Transaction) :=
  let nonce := Tx.Nonce tx in
  match pl_txs l !! nonce with
  | Some old =>
      if Tx.GasFeeCapCmp old tx >=? 0 then (l, (false, None))
      else (MkProtoList (<[nonce := tx]> (pl_txs l)) (pl_items l) true, (true, Some old))
  | None => (MkProtoList (<[nonce := tx]> (pl_txs l)) (pl_items l) true, (true, None))
  end.

Definition Get (l : protoList) (nonce : Z) : option Transaction := pl_txs l !! nonce.

Definition Remove (l : protoList) (nonce : Z) : protoList :=
  MkProtoList (delete nonce (pl_txs l)) (pl_items l) true.

Definition Len (l : protoList) : Z := map_len (pl_txs l).

Definition Empty (l : protoList) : bool := map_len (pl_txs l) =? 0.

Definition Clear (l : protoList) : protoList := MkProtoList ∅ [] false.

Section Ready.
Context (GetParallelTxData : Transaction → option (ParallelTx.t Z)).

Definition ready_less (tx1 tx2 : Transaction) : bool :=
  match GetParallelTxData tx1, GetParallelTxData tx2 with
  | Some ptx1, Some ptx2 =>
      if negb (Bool.eqb (ParallelTx.IsParallelizable ptx1) (ParallelTx.IsParallelizable ptx2))
      then ParallelTx.IsParallelizable ptx1
      else Tx.GasFeeCapCmp tx1 tx2 >? 0
  | _, _ => Tx.GasFeeCapCmp tx1 tx2 >? 0
  end.

(** The slice that is returned is also the one that is kept. *)
Definition Ready `{MapRange, StableSorter} (l : protoList) : list Transaction * protoList :=
  if negb (dirty l) then (pl_items l, l)
  else
    let items := sort_SliceStable ready_less (range_values (pl_txs l)) in
    (items, MkProtoList (pl_txs l) items false).

Definition Flatten `{MapRange, StableSorter} (l : protoList) : list Transaction * protoList :=
  Ready l.

(** ** Invariant *)

(** The order that [Ready] announces, on parallel transactions: the independent
    ones first, then the higher fee caps. *)
Definition announced (x y : Transaction) : Prop :=
  ∃ px py, GetParallelTxData x = Some px ∧ GetParallelTxData y = Some py ∧
  (ParallelTx.IsParallelizable py = true → ParallelTx.IsParallelizable px = true) ∧
  (ParallelTx.IsParallelizable px = ParallelTx.IsParallelizable py →
    Tx.GasFeeCap y <= Tx.GasFeeCap x).

Definition all_parallel (l : protoList) : Prop :=
  ∀ n tx, pl_txs l !! n = Some tx → is_Some (GetParallelTxData tx).

(** Transactions are filed under their nonces, and a clean list has in its slice
    what it has in its map, in the announced order. *)
Record wf (l : protoList) : Prop := {
  wf_nonce n tx : pl_txs l !! n = Some tx → Tx.Nonce tx = n;
  wf_clean : dirty l = false → pl_items l ≡ₚ (map_to_list (pl_txs l)).*2;
  wf_order : dirty l = false → all_parallel l → StronglySorted announced (pl_items l)
}.

Lemma list_new_wf : wf newParallelList.
Proof.
  split; simpl; [intros n tx; by rewrite lookup_empty| |by constructor].
  intros _. by rewrite map_to_list_empty.
Qed.

Lemma Add_wf_ l tx b : wf l → wf (Add l tx b).1.
Proof.
  intros Hw. unfold Add.
  assert (wf (MkProtoList (<[Tx.Nonce tx:=tx]> (pl_txs l)) (pl_items l) true)) as Hi.
  { split; simpl; [|done..]. intros n t. rewrite lookup_insert_Some.
    intros [[<- <-]|[_ Hn]]; [done|by eapply wf_nonce]. }
  destruct (pl_txs l !! Tx.Nonce tx); [|done]. by destruct (_ >=? 0).
Qed.

Lemma Remove_wf_ l n : wf l → wf (Remove l n).
Proof.
  intros Hw. split; simpl; [|done..]. intros m t. rewrite lookup_delete_Some.
  intros [_ Hm]. by eapply wf_nonce.
Qed.

(** The comparator, on transactions that all have parallel data: a strict weak
    order given by two keys. *)
Definition independent_key (tx : Transaction) : Z :=
  match GetParallelTxData tx with
  | Some ptx => if ParallelTx.IsParallelizable ptx then 1 else 0
  | None => 0
  end.

Lemma ready_less_keys x y :
  is_Some (GetParallelTxData x) → is_Some (GetParallelTxData y) →
  ready_less x y = less_lex (more_by independent_key) (more_by Tx.GasFeeCap) x y.
Proof.
  intros [px Hx] [py Hy]. unfold ready_less, less_lex, more_by, independent_key.
  rewrite Hx, Hy. unfold Tx.GasFeeCapCmp. rewrite Z.gtb_ltb, Cmp_gtb.
  destruct (ParallelTx.IsParallelizable px), (ParallelTx.IsParallelizable py); simpl;
    rewrite ?andb_true_r, ?andb_false_r, ?orb_false_r; done.
Qed.

Lemma Ready_wf (R1 : MapRange) (SS1 : StableSorter) l :
  wf l →
  wf (Ready l).2 ∧ pl_txs (Ready l).2 = pl_txs l ∧ (Ready l).1 ≡ₚ (map_to_list (pl_txs l)).*2 ∧
  (all_parallel l → StronglySorted announced (Ready l).1) ∧
  (∀ (R : MapRange) (SS : StableSorter), @Ready R SS (@Ready R1 SS1 l).2 = @Ready R1 SS1 l).
Proof.
  intros Hw. unfold Ready. destruct (dirty l) eqn:Hd; simpl.
  2: { split_and!; [done|done|by apply wf_clean|by apply wf_order|]. intros R SS. by rewrite Hd. }
  set (items := sort_SliceStable ready_less (range_values (pl_txs l))).
  assert (items ≡ₚ (map_to_list (pl_txs l)).*2) as Hp.
  { unfold items. by rewrite sort_SliceStable_perm, range_values_perm. }
  assert (all_parallel l → StronglySorted announced items) as Hs.
  { intros Hall.
    assert (∀ x, x ∈ range_values (pl_txs l) → is_Some (GetParallelTxData x)) as Hr
      by (intros x [n Hn]%range_values_elem; eauto).
    unfold items. rewrite (sort_SliceStable_ext _
      (less_lex (more_by independent_key) (more_by Tx.GasFeeCap))).
    2: { intros x y Hx Hy. apply ready_less_keys; auto. }
    set (s := sort_SliceStable _ _).
    assert (StronglySorted (not_after (less_lex (more_by independent_key)
      (more_by Tx.GasFeeCap))) s) as Hss by apply sort_SliceStable_sorted, _.
    assert (∀ x, x ∈ s → is_Some (GetParallelTxData x)) as Hrs
      by (intros x; unfold s; rewrite sort_SliceStable_elem; apply Hr).
    clearbody s. clear -Hss Hrs. induction Hss as [|x s Hss IH Hx]; constructor.
    - apply IH. intros y Hy. apply Hrs. by right.
    - rewrite Forall_forall in *. intros y Hy. specialize (Hx y Hy).
      destruct (Hrs x ltac:(by left)) as [px Hpx]. destruct (Hrs y ltac:(by right)) as [py Hpy].
      exists px, py. split_and!; [done..| |]; revert Hx;
        unfold not_after, less_lex, more_by, independent_key; rewrite Hpx, Hpy;
        destruct (ParallelTx.IsParallelizable px), (ParallelTx.IsParallelizable py); simpl;
        rewrite ?andb_true_r, ?orb_false_r; try done; intros; by apply Z.ltb_ge. }
  split_and!; try done. split; simpl; [apply Hw|done|done].
Qed.

(** The sorted slice of the list is a faithful cache: after any changes,
    [Ready] gives every transaction of the list once, independent ones first
    and then by fee cap, when all of them are parallel; it changes nothing of
    what the list holds, and asking again gives the same slice, whatever the
    order of the iteration over the map in either call. *)
Theorem Ready_is_cached (R1 R2 : MapRange) (SS1 SS2 : StableSorter) l :
  wf l →
  let '(items, l') := @Ready R1 SS1 l in
  items ≡ₚ (map_to_list (pl_txs l)).*2 ∧ pl_txs l' = pl_txs l ∧ wf l' ∧
  (all_parallel l → StronglySorted announced items) ∧ @Ready R2 SS2 l' = (items, l').
Proof.
  intros Hw. destruct (@Ready_wf R1 SS1 l Hw) as (H1 & H2 & H3 & H4 & H5).
  specialize (H5 R2 SS2). destruct (@Ready R1 SS1 l) as [items l'] eqn:Hr. simpl in *.
  by split_and!.
Qed.
End Ready.

(** ** Concrete inputs *)

Definition ex_tx (hash nonce cap : Z) : Transaction :=
  MkTx (TParallel (ParallelTx.mk 1 nonce 1 cap 21000 None 0 [] [] 0 [] 0 0 0 0)) hash 0 0.
Definition ex_data (tx : Transaction) : option (ParallelTx.t Z) :=
  match inner tx with TParallel ptx => Some ptx | _ => None end.
Definition ex_list : protoList :=
  (Add (Add newParallelList (ex_tx 11 3 5) 10).1 (ex_tx 12 4 9) 10).1.

(** The two transactions come in the order of their fees, which is not that of
    their nonces. *)
Lemma Ready_is_cached_witness :
  wf ex_data ex_list ∧
  (Ready ex_data ex_list).1 = [ex_tx 12 4 9; ex_tx 11 3 5] ∧
  @Ready ex_data reverse_range _ (Ready ex_data ex_list).2 = Ready ex_data ex_list.
Proof.
  assert (wf ex_data ex_list) as Hw by apply Add_wf_, Add_wf_, list_new_wf.
  split; [exact Hw|]. split; [reflexivity|].
  pose proof (Ready_is_cached ex_data canonical_range reverse_range _ _ ex_list Hw) as Hr.
  destruct (@Ready ex_data canonical_range insertion_stable_sorter ex_list) as [items l'].
  apply Hr.
Defined.
End ProtoList.
