(* ===== verification/ProtoPool.v ===== *)
(** * The first parallel pool

    src/core/txpool/parallelpool/parallelpool.go.  The lookup table
    ([txpool.NewLookup], which no package of the repository exports) is an
    interface with its laws, that the lookup table of PoolParts.v has; the
    parallel data of a transaction, the recovery of senders and the chain are
    parameters.  The reservations, the heartbeats and the virtual nonces, which
    no operation of the file uses, are left out, and so is [Nonce], which reads
    the last. *)

From S2P Require Import Prelude GoSort TxTypes Signers PoolParts StateInterface ProtoList.

Class Lookup (L : Type) : Type := {
  lk_new : L;
  lk_Get : L → Hash → option Transaction;
  lk_Add : L → Transaction → L;
  lk_Remove : L → Hash → L
}.

Class LookupLaws (L : Type) `{Lookup L} : Prop := {
  lk_Get_new h : lk_Get lk_new h = None;
  lk_Get_Add l tx h :
    lk_Get (lk_Add l tx) h = if bool_decide (Tx.Hash_ tx = h) then Some tx else lk_Get l h;
  lk_Get_Remove l k h : lk_Get (lk_Remove l k) h = if bool_decide (k = h) then None else lk_Get l h
}.

#[export] Instance txLookup_lookup : Lookup txLookup := {|
  lk_new := newTxLookup;
  lk_Get := TxLookup.Get;
  lk_Add := TxLookup.Add;
  lk_Remove := TxLookup.Remove
|}.

#[export] Instance txLookup_laws : LookupLaws txLookup.
Proof.
  split; simpl; [done|..]; intros; unfold TxLookup.Get; simpl;
    rewrite ?lookup_insert, ?lookup_delete; by repeat case_decide || case_bool_decide.
Qed.

Inductive proto_error : Type :=
  | PErrSender (e : signer_error)
  | PErrTxTypeNotSupported
  | PErrInsufficientFunds
  | PErrNonceTooLow
  | PErrNotParallelizable
  | PErrUnderpriced.

Inductive TxStatus : Type := TxStatusUnknown | TxStatusQueued | TxStatusPending.

Record LazyTransaction : Type := MkLazy {
  lazy_Hash : Hash;
  lazy_Tx : Transaction;
  lazy_Time : Z;
  lazy_GasFeeCap : Z;
  lazy_GasTipCap : Z;
  lazy_Gas : Z
}.

(** [proto_state] is [None] until the first [Reset]. *)
Record ProtoPool (St L : Type) : Type := MkProto {
  PriceBump : Z;
  gasTip : Z;
  proto_state : option St;
  proto_head : option Hash;
  proto_pending : gmap Z protoList;
  proto_queue : gmap Z protoList;
  proto_all : L;
  proto_feed : list Transaction
}.
Arguments MkProto {St L}.
Arguments PriceBump {St L}.
Arguments gasTip {St L}.
Arguments proto_state {St L}.
Arguments proto_head {St L}.
Arguments proto_pending {St L}.
Arguments proto_queue {St L}.
Arguments proto_all {St L}.
Arguments proto_feed {St L}.

Module ProtoPool.
Section Pool.
Context {St L : Type} `{AccountState St} `{Lookup L}.
Context (types_Sender : Transaction → result signer_error Address).
Context (GetParallelTxData : Transaction → option (ParallelTx.t Z)).
Context (CurrentBlock : Hash) (StateAt : Hash → option St).
Implicit Types p : ProtoPool St L.

Definition set_content p pending queue all feed : ProtoPool St L :=
  MkProto (PriceBump p) (gasTip p) (proto_state p) (proto_head p) pending queue all feed.

(** [Config.sanitize] *)
Definition sanitize (priceBump : Z) : Z := if priceBump <? 1 then 1 else priceBump.

Definition New (priceBump : Z) : ProtoPool St L :=
  MkProto (sanitize priceBump) 0 None None ∅ ∅ lk_new [].

Definition Filter (tx : Transaction) : bool := Tx.Type_ tx =? ParallelTxType.

Definition Init p (tip : Z) (head : Hash) : ProtoPool St L :=
  MkProto (PriceBump p) tip (proto_state p) (Some head) (proto_pending p) (proto_queue p)
    (proto_all p) (proto_feed p).

(** The outer [None] is the panic on a state that was never set. *)
Definition validateTx p (tx : Transaction) : option (option proto_error) :=
  match types_Sender tx with
  | Err e => Some (Some (PErrSender e))
  | Ok from =>
      if negb (Filter tx) then Some (Some PErrTxTypeNotSupported)
      else match proto_state p with
      | None => None
      | Some currentState => Some (
          if Cmp (GetBalance currentState from) (Tx.Cost tx) <? 0 then Some PErrInsufficientFunds
          else if GetNonce currentState from >? Tx.Nonce tx then Some PErrNonceTooLow
          else match GetParallelTxData tx with
          | Some ptx =>
              if negb (ParallelTx.IsParallelizable ptx) then Some PErrNotParallelizable else None
          | None => Some PErrNotParallelizable
          end)
      end
  end.

Definition sender_of (tx : Transaction) : Address :=
  match types_Sender tx with Ok from => from | Err _ => 0 end.

(** Whether an old transaction was replaced, or the error. *)
Definition enqueueTx p (tx : Transaction) : ProtoPool St L * result proto_error bool :=
  let from := sender_of tx in
  let list := default ProtoList.newParallelList (proto_queue p !! from) in
  let '(list, (inserted, old)) := ProtoList.Add list tx (PriceBump p) in
  let queue := <[from := list]> (proto_queue p) in
  if negb inserted then
    (set_content p (proto_pending p) queue (proto_all p) (proto_feed p), Err PErrUnderpriced)
  else match old with
  | Some old =>
      (set_content p (proto_pending p) queue (lk_Remove (proto_all p) (Tx.Hash_ old))
         (proto_feed p), Ok true)
  | None =>
      (set_content p (proto_pending p) queue (lk_Add (proto_all p) tx) (proto_feed p), Ok false)
  end.

Definition add p (tx : Transaction) : option (ProtoPool St L * option proto_error) :=
  match validateTx p tx with
  | None => None
  | Some (Some err) => Some (p, Some err)
  | Some None => Some (
      let from := sender_of tx in
      match proto_pending p !! from with
      | Some list =>
          let '(list, (inserted, old)) := ProtoList.Add list tx (PriceBump p) in
          let pending := <[from := list]> (proto_pending p) in
          if negb inserted then
            (set_content p pending (proto_queue p) (proto_all p) (proto_feed p),
             Some PErrUnderpriced)
          else
            let '(all, feed) :=
              match old with
              | Some old => (lk_Remove (proto_all p) (Tx.Hash_ old), proto_feed p ++ [tx])
              | None => (proto_all p, proto_feed p)
              end in
            (set_content p pending (proto_queue p) (lk_Add all tx) feed, None)
      | None =>
          match enqueueTx p tx with
          | (p, Err err) => (p, Some err)
          | (p, Ok replaced) =>
              (if negb replaced
               then set_content p (proto_pending p) (proto_queue p) (proto_all p)
                      (proto_feed p ++ [tx])
               else p, None)
          end
      end)
  end.

Fixpoint Add p (txs : list Transaction) : option (ProtoPool St L * list (option proto_error)) :=
  match txs with
  | [] => Some (p, [])
  | tx :: txs =>
      match add p tx with
      | None => None
      | Some (p, err) =>
          match Add p txs with
          | None => None
          | Some (p, errs) => Some (p, err :: errs)
          end
      end
  end.

(** A fee that [uint256.MustFromBig] converts without a panic. *)
Definition fits (z : Z) : bool := BitLen z <=? 256.

Definition lazy (tx : Transaction) : LazyTransaction :=
  MkLazy (Tx.Hash_ tx) tx (Tx.Time tx) (wrap256 (Tx.GasFeeCap tx)) (wrap256 (Tx.GasTipCap tx))
    (Tx.Gas tx).

Definition lazies (txs : list Transaction) : option (list LazyTransaction) :=
  if forallb (λ tx, fits (Tx.GasFeeCap tx) && fits (Tx.GasTipCap tx)) txs
  then Some (lazy <$> txs) else None.

(** One account of the loop of [Pending]; [None] is a panic. *)
Definition pending_one `{MapRange, StableSorter}
    (acc : option (gmap Z (list LazyTransaction) * gmap Z protoList)) (entry : Z * protoList)
    : option (gmap Z (list LazyTransaction) * gmap Z protoList) :=
  match acc with
  | None => None
  | Some (result, lists) =>
      let '(txs, list) := ProtoList.Flatten GetParallelTxData entry.2 in
      let lists := <[entry.1 := list]> lists in
      if len txs =? 0 then Some (result, lists)
      else match lazies txs with
      | Some ls => Some (<[entry.1 := ls]> result, lists)
      | None => None
      end
  end.

Definition Pending `{MapRange, StableSorter} p
    : option (gmap Z (list LazyTransaction) * ProtoPool St L) :=
  match fold_left pending_one (map_range (proto_pending p)) (Some (∅, proto_pending p)) with
  | None => None
  | Some (result, pending) =>
      Some (result, set_content p pending (proto_queue p) (proto_all p) (proto_feed p))
  end.

Definition Get p (hash : Hash) : option Transaction := lk_Get (proto_all p) hash.

Definition Has p (hash : Hash) : bool := bool_decide (is_Some (Get p hash)).

Definition holds (m : gmap Z protoList) (from : Address) (nonce : Z) : bool :=
  match m !! from with
  | Some list => bool_decide (is_Some (ProtoList.Get list nonce))
  | None => false
  end.

Definition Status p (hash : Hash) : TxStatus :=
  match Get p hash with
  | None => TxStatusUnknown
  | Some tx =>
      let from := sender_of tx in
      if holds (proto_pending p) from (Tx.Nonce tx) then TxStatusPending
      else if holds (proto_queue p) from (Tx.Nonce tx) then TxStatusQueued
      else TxStatusUnknown
  end.

Definition count_all `{MapRange} (m : gmap Z protoList) : Z :=
  fold_left (λ n entry, n + ProtoList.Len entry.2) (map_range m) 0.

Definition Stats `{MapRange} p : Z * Z := (count_all (proto_pending p), count_all (proto_queue p)).

(** Flattening fills the caches of the lists. *)
Definition Content `{MapRange, StableSorter} p
    : gmap Z (list Transaction) * gmap Z (list Transaction) * ProtoPool St L :=
  let flat := ProtoList.Flatten GetParallelTxData in
  ((λ l, (flat l).1) <$> proto_pending p, (λ l, (flat l).1) <$> proto_queue p,
   set_content p ((λ l, (flat l).2) <$> proto_pending p) ((λ l, (flat l).2) <$> proto_queue p)
     (proto_all p) (proto_feed p)).

Definition flatten_at `{MapRange, StableSorter} (m : gmap Z protoList) (addr : Address)
    : list Transaction * gmap Z protoList :=
  match m !! addr with
  | Some list =>
      let '(txs, list) := ProtoList.Flatten GetParallelTxData list in (txs, <[addr := list]> m)
  | None => ([], m)
  end.

Definition ContentFrom `{MapRange, StableSorter} p (addr : Address)
    : list Transaction * list Transaction * ProtoPool St L :=
  let '(pending, m) := flatten_at (proto_pending p) addr in
  let '(queued, q) := flatten_at (proto_queue p) addr in
  (pending, queued, set_content p m q (proto_all p) (proto_feed p)).

Definition Clear p : ProtoPool St L := set_content p ∅ ∅ lk_new (proto_feed p).

(** [None] is the panic on a tip of more than 256 bits. *)
Definition SetGasTip p (tip : Z) : option (ProtoPool St L) :=
  if fits tip then
    Some (MkProto (PriceBump p) (wrap256 tip) (proto_state p) (proto_head p) (proto_pending p)
      (proto_queue p) (proto_all p) (proto_feed p))
  else None.

Definition Reset p (newHead : option Hash) : ProtoPool St L :=
  let newHead := default CurrentBlock newHead in
  match StateAt newHead with
  | None => p
  | Some statedb =>
      MkProto (PriceBump p) (gasTip p) (Some statedb) (Some newHead) (proto_pending p)
        (proto_queue p) (proto_all p) (proto_feed p)
  end.

(** ** Reachable states *)

Inductive proto_step : ProtoPool St L → ProtoPool St L → Prop :=
  | step_init p tip head : proto_step p (Init p tip head)
  | step_add p txs q errs : Add p txs = Some (q, errs) → proto_step p q
  | step_pending `{MapRange, StableSorter} p r q : Pending p = Some (r, q) → proto_step p q
  | step_content `{MapRange, StableSorter} p : proto_step p (Content p).2
  | step_contentFrom `{MapRange, StableSorter} p a : proto_step p (ContentFrom p a).2
  | step_clear p : proto_step p (Clear p)
  | step_tip p tip q : SetGasTip p tip = Some q → proto_step p q
  | step_reset p head : proto_step p (Reset p head).

Definition proto_reachable p : Prop := ∃ priceBump, rtc proto_step (New priceBump) p.

(** The state of the lists: nothing is pending, what is queued is filed under its
    sender and its nonce, and the table holds only what is queued. *)
Record proto_wf p : Prop := {
  pw_pending : proto_pending p = ∅;
  pw_lists a l : proto_queue p !! a = Some l → ProtoList.wf GetParallelTxData l;
  pw_queue a l n tx : proto_queue p !! a = Some l → pl_txs l !! n = Some tx →
    types_Sender tx = Ok a ∧ is_Some (GetParallelTxData tx);
  pw_all h tx : Get p h = Some tx → Tx.Hash_ tx = h ∧
    ∃ a l, types_Sender tx = Ok a ∧ proto_queue p !! a = Some l ∧
      ProtoList.Get l (Tx.Nonce tx) = Some tx
}.

Context `{!LookupLaws L}.

Lemma New_wf_ b : proto_wf (New b).
Proof.
  split; [done|intros a l|intros a l n tx|intros h tx]; unfold Get; simpl;
    rewrite ?lk_Get_new; by rewrite ?lookup_empty.
Qed.

(** What [validateTx] accepts. *)
Lemma validateTx_ok p tx :
  validateTx p tx = Some None →
  ∃ from ptx s, types_Sender tx = Ok from ∧ Tx.Type_ tx = ParallelTxType ∧
    proto_state p = Some s ∧ Tx.Cost tx <= GetBalance s from ∧ GetNonce s from <= Tx.Nonce tx ∧
    GetParallelTxData tx = Some ptx ∧ ParallelTx.IsParallelizable ptx = true.
Proof.
  unfold validateTx, Filter. destruct (types_Sender tx) as [from|]; [|done].
  destruct (Z.eqb_spec (Tx.Type_ tx) ParallelTxType) as [Ht|]; simpl; [|done].
  destruct (proto_state p) as [s|]; [|done]. intros [= Hv].
  rewrite Cmp_ltb in Hv. destruct (Z.ltb_spec (GetBalance s from) (Tx.Cost tx)); [done|].
  rewrite Z.gtb_ltb in Hv. destruct (Z.ltb_spec (Tx.Nonce tx) (GetNonce s from)); [done|].
  destruct (GetParallelTxData tx) as [ptx|] eqn:Hd; [|done].
  destruct (ParallelTx.IsParallelizable ptx) eqn:Hp; [|done]. by exists from, ptx, s.
Qed.

(** What adding to a list does. *)
Lemma list_Add_cases l tx b :
  let '(l', (inserted, old)) := ProtoList.Add l tx b in
  (inserted = false ∧ old = None ∧ l' = l ∧
    ∃ o, pl_txs l !! Tx.Nonce tx = Some o ∧ Tx.GasFeeCap tx <= Tx.GasFeeCap o) ∨
  (inserted = true ∧ old = pl_txs l !! Tx.Nonce tx ∧ pl_txs l' = <[Tx.Nonce tx := tx]> (pl_txs l) ∧
    ∀ o, old = Some o → Tx.GasFeeCap o < Tx.GasFeeCap tx).
Proof.
  unfold ProtoList.Add. destruct (pl_txs l !! Tx.Nonce tx) as [o|] eqn:Ho.
  - rewrite Z.geb_leb. unfold Tx.GasFeeCapCmp. rewrite Cmp_geb.
    destruct (Z.leb_spec (TxData.gasFeeCap (inner tx)) (TxData.gasFeeCap (inner o))).
    + left. split_and!; try done. by exists o.
    + right. split_and!; try done. by intros ? [= <-].
  - right. split_and!; try done.
Qed.

(** Replacing the list of an account by one with [tx] at its nonce. *)
Lemma queue_insert p a l tx all feed :
  proto_wf p → types_Sender tx = Ok a → is_Some (GetParallelTxData tx) →
  ProtoList.wf GetParallelTxData l →
  pl_txs l = <[Tx.Nonce tx := tx]>
    (pl_txs (default ProtoList.newParallelList (proto_queue p !! a))) →
  (∀ h t, lk_Get all h = Some t → Tx.Hash_ t = h ∧
    (t = tx ∨ Get p h = Some t ∧ (types_Sender t = Ok a → Tx.Nonce t ≠ Tx.Nonce tx))) →
  proto_wf (set_content p (proto_pending p) (<[a := l]> (proto_queue p)) all feed).
Proof.
  intros [Hp Hl Hq Ha] Hs Hd Hw Htxs Hall. split; simpl; [done|..].
  - intros b k. rewrite lookup_insert_Some. intros [[<- <-]|[_ Hb]]; [done|by eapply Hl].
  - intros b k n t. rewrite lookup_insert_Some. intros [[<- <-]|[_ Hb]] Hn; [|by eapply Hq].
    rewrite Htxs, lookup_insert_Some in Hn. destruct Hn as [[_ <-]|[_ Hn]]; [done|].
    destruct (proto_queue p !! a) as [l0|] eqn:Hl0; simpl in Hn; [by eapply Hq|].
    by rewrite lookup_empty in Hn.
  - intros h t Ht. unfold Get in *. simpl in Ht. destruct (Hall h t Ht) as [Hh Hcase].
    split; [done|]. destruct Hcase as [->|[Hold Hne]].
    + exists a, l. rewrite lookup_insert_eq. split_and!; try done. unfold ProtoList.Get.
      by rewrite Htxs, lookup_insert_eq.
    + destruct (Ha h t Hold) as (_ & b & k & Hb & Hk & Hg). destruct (decide (a = b)) as [<-|Hab].
      * exists a, l. rewrite lookup_insert_eq. split_and!; try done. unfold ProtoList.Get in *.
        rewrite Htxs, lookup_insert_ne by (intros Heq; by apply Hne). by rewrite Hk.
      * exists b, k. by rewrite lookup_insert_ne.
Qed.

Lemma add_wf_ p tx q err : proto_wf p → add p tx = Some (q, err) → proto_wf q.
Proof.
  intros Hw. unfold add. destruct (validateTx p tx) as [[e|]|] eqn:Hv; [| |done].
  { by intros [= <- <-]. }
  destruct (validateTx_ok p tx Hv) as (a & ptx & s & Hs & _ & _ & _ & _ & Hd & _).
  assert (sender_of tx = a) as Hof by (unfold sender_of; by rewrite Hs).
  rewrite (pw_pending _ Hw), lookup_empty. unfold enqueueTx. rewrite Hof.
  set (l0 := default ProtoList.newParallelList (proto_queue p !! a)).
  assert (ProtoList.wf GetParallelTxData l0) as Hw0.
  { unfold l0. destruct (proto_queue p !! a) eqn:Hl0; simpl; [by eapply pw_lists|apply ProtoList.list_new_wf]. }
  pose proof (list_Add_cases l0 tx (PriceBump p)) as Hadd.
  pose proof (ProtoList.Add_wf_ _ l0 tx (PriceBump p) Hw0) as Hw1.
  destruct (ProtoList.Add l0 tx (PriceBump p)) as [l1 [inserted old]]. simpl in Hw1.
  destruct Hadd as [(-> & -> & -> & o & Ho & _)|(-> & -> & Htxs & _)]; simpl.
  - intros [= <- <-]. destruct (proto_queue p !! a) as [lq|] eqn:Hl0; simpl in *;
      [|by rewrite lookup_empty in Ho].
    assert (<[a := l0]> (proto_queue p) = proto_queue p) as -> by by apply insert_id.
    destruct Hw as [H1 H2 H3 H4]. by split.
  - assert (∀ t, Get p (Tx.Hash_ t) = Some t → types_Sender t = Ok a →
      pl_txs l0 !! Tx.Nonce t = Some t) as Hin.
    { intros t Ht Hst. destruct (pw_all _ Hw _ _ Ht) as (_ & b & k & Hb & Hk & Hg).
      assert (a = b) as <- by congruence. unfold l0. by rewrite Hk. }
    destruct (pl_txs l0 !! Tx.Nonce tx) as [o|] eqn:Ho; simpl; intros [= <- <-];
      unfold set_content at 1; simpl; apply (queue_insert p a l1 tx); try done; try by eexists.
    + intros h t. rewrite lk_Get_Remove. case_bool_decide as Hh; [done|]. intros Ht.
      destruct (pw_all _ Hw _ _ Ht) as [Hth _]. split; [done|right]. split; [done|].
      intros Hst Hn. rewrite <-Hth in Ht. pose proof (Hin t Ht Hst). congruence.
    + intros h t. rewrite lk_Get_Add. case_bool_decide as Hh; [intros [= <-]; by split; [|left]|].
      intros Ht. destruct (pw_all _ Hw _ _ Ht) as [Hth _]. split; [done|right]. split; [done|].
      intros Hst Hn. rewrite <-Hth in Ht. pose proof (Hin t Ht Hst). congruence.
Qed.

Lemma Add_wf_all p txs q errs : proto_wf p → Add p txs = Some (q, errs) → proto_wf q.
Proof.
  revert p q errs. induction txs as [|tx txs IH]; intros p q errs Hw; simpl; [by intros [= <- <-]|].
  destruct (add p tx) as [[p1 err]|] eqn:Ha; [|done].
  destruct (Add p1 txs) as [[p2 errs']|] eqn:Hr; [|done]. intros [= <- <-].
  eapply IH; [|exact Hr]. by eapply add_wf_.
Qed.

(** Flattening a queued list changes nothing that the invariant sees. *)
Lemma queue_flatten p q :
  proto_wf p →
  (∀ a, option_Forall2 (λ l l', ProtoList.wf GetParallelTxData l' ∧ pl_txs l' = pl_txs l)
     (proto_queue p !! a) (q !! a)) →
  proto_wf (set_content p ∅ q (proto_all p) (proto_feed p)).
Proof.
  intros [Hp Hl Hq Ha] Hf. split; simpl; [done|..].
  - intros a l Hal. specialize (Hf a). rewrite Hal in Hf. inv Hf. naive_solver.
  - intros a l n tx Hal Hn. specialize (Hf a). rewrite Hal in Hf.
    inversion Hf as [l0 l1 [_ Htx] Hl0 Hl1|]; subst. rewrite Htx in Hn. by eapply Hq.
  - intros h tx Ht. destruct (Ha h tx Ht) as (Hh & a & l & Hs & Hal & Hg). split; [done|].
    specialize (Hf a). rewrite Hal in Hf.
    inversion Hf as [l0 l1 [_ Htx] Hl0 Hl1|]; subst. exists a, l1. split_and!; try done.
    unfold ProtoList.Get in *. by rewrite Htx.
Qed.

Lemma proto_step_wf p q : proto_wf p → proto_step p q → proto_wf q.
Proof.
  intros Hw Hstep. pose proof Hw as [Hp Hl Hq Ha].
  destruct Hstep as [p tip head|p txs q errs Hadd|? ? p r q Hpend|? ? p|? ? p a|p|p tip q Htip|p head].
  - by split.
  - by eapply Add_wf_all.
  - unfold Pending in Hpend. rewrite Hp in Hpend.
    assert (map_range (∅ : gmap Z protoList) = []) as Hr.
    { apply Permutation_nil_r. by rewrite map_range_perm, map_to_list_empty. }
    rewrite Hr in Hpend. simpl in Hpend. simplify_eq. by split.
  - unfold Content. simpl. rewrite Hp, fmap_empty. apply queue_flatten; [done|].
    intros a. rewrite lookup_fmap. destruct (proto_queue p !! a) as [l|] eqn:Hal; constructor.
    destruct (ProtoList.Ready_wf GetParallelTxData _ _ l (Hl a l Hal)) as (H1' & H2' & _). done.
  - unfold ContentFrom, flatten_at. rewrite Hp, lookup_empty.
    destruct (proto_queue p !! a) as [l|] eqn:Hal; [|rewrite <-Hp; by split].
    pose proof (ProtoList.Ready_wf GetParallelTxData _ _ l (Hl a l Hal)) as (H1' & H2' & _).
    unfold ProtoList.Flatten. destruct (ProtoList.Ready _ l) as [txs l']. simpl in *.
    apply queue_flatten; [done|]. intros b. destruct (decide (a = b)) as [<-|Hne].
    + rewrite lookup_insert_eq, Hal. by constructor.
    + rewrite lookup_insert_ne by done. destruct (proto_queue p !! b) as [k|] eqn:Hb; constructor.
      split; [by eapply Hl|done].
  - split; [done|intros b l|intros b l n tx|intros h tx]; unfold Get; simpl;
      rewrite ?lk_Get_new; by rewrite ?lookup_empty.
  - unfold SetGasTip in Htip. destruct (fits tip); [|done]. simplify_eq. by split.
  - unfold Reset. destruct (StateAt _); [by split|done].
Qed.

Lemma proto_reachable_wf p : proto_reachable p → proto_wf p.
Proof.
  intros [b Hr]. pose proof (New_wf_ b) as Hw. revert Hw.
  induction Hr as [|p1 p2 p3 Hs _ IH]; intros Hw; [done|]. apply IH. by eapply proto_step_wf.
Qed.

(** In every state that the operations of the pool reach, nothing is
    processable: [Pending] always answers with no transaction, as nothing ever
    moves from the queue to the pending lists; every transaction of the table
    is under its hash and has the status queued, and every queued transaction
    is filed under its sender and its nonce. *)
Theorem proto_never_pending (R : MapRange) (SS : StableSorter) p :
  proto_reachable p →
  (∃ q, Pending p = Some (∅, q)) ∧
  (∀ h tx, Get p h = Some tx → Tx.Hash_ tx = h ∧ Status p h = TxStatusQueued) ∧
  (∀ a l n tx, proto_queue p !! a = Some l → ProtoList.Get l n = Some tx →
    Tx.Nonce tx = n ∧ types_Sender tx = Ok a).
Proof.
  intros Hr. pose proof (proto_reachable_wf p Hr) as [Hp Hl Hq Ha]. split_and!.
  - unfold Pending. rewrite Hp.
    assert (map_range (∅ : gmap Z protoList) = []) as ->.
    { apply Permutation_nil_r. by rewrite map_range_perm, map_to_list_empty. }
    simpl. by eexists.
  - intros h tx Ht. destruct (Ha h tx Ht) as (Hh & a & l & Hs & Hal & Hg). split; [done|].
    unfold Status, holds, sender_of. rewrite Ht, Hs, Hp, lookup_empty, Hal, Hg. done.
  - intros a l n tx Hal Hg. split; [by eapply ProtoList.wf_nonce; [by eapply Hl|]|].
    by apply (Hq a l n tx).
Qed.

(** A transaction that replaces a cheaper one of the same sender and nonce is
    queued, and forgotten: the table loses the old one and does not get the
    new one, so that the pool answers that it does not have it and that its
    status is unknown, and it is not announced. *)
Theorem replacement_forgotten p tx old a l :
  proto_reachable p → validateTx p tx = Some None → types_Sender tx = Ok a →
  proto_queue p !! a = Some l → ProtoList.Get l (Tx.Nonce tx) = Some old →
  Tx.GasFeeCap old < Tx.GasFeeCap tx → Get p (Tx.Hash_ tx) = None →
  ∃ q l', add p tx = Some (q, None) ∧
    proto_queue q !! a = Some l' ∧ ProtoList.Get l' (Tx.Nonce tx) = Some tx ∧
    Has q (Tx.Hash_ tx) = false ∧ Status q (Tx.Hash_ tx) = TxStatusUnknown ∧
    Has q (Tx.Hash_ old) = false ∧ proto_feed q = proto_feed p.
Proof.
  intros Hr Hv Hs Hal Hg Hfee Hnew. pose proof (proto_reachable_wf p Hr) as Hw.
  unfold add. rewrite Hv. unfold sender_of. rewrite Hs, (pw_pending _ Hw), lookup_empty.
  unfold enqueueTx, sender_of. rewrite Hs, Hal. simpl.
  pose proof (list_Add_cases l tx (PriceBump p)) as Hadd.
  destruct (ProtoList.Add l tx (PriceBump p)) as [l1 [inserted o]].
  unfold ProtoList.Get in Hg. rewrite Hg in Hadd.
  destruct Hadd as [(_ & _ & _ & o' & Ho' & Hle)|(-> & -> & Htxs & _)].
  { simplify_eq. unfold Tx.GasFeeCap in *. lia. }
  simpl. eexists _, l1. split; [done|]. simpl. rewrite lookup_insert_eq.
  assert (lk_Get (lk_Remove (proto_all p) (Tx.Hash_ old)) (Tx.Hash_ tx) = None) as Hn
    by (rewrite lk_Get_Remove; by case_bool_decide).
  split_and!; try done.
  - unfold ProtoList.Get. by rewrite Htxs, lookup_insert_eq.
  - unfold Has, Get. simpl. by rewrite Hn.
  - unfold Status, Get. simpl. by rewrite Hn.
  - unfold Has, Get. simpl. 
    by rewrite lk_Get_Remove, (bool_decide_eq_true_2 (Tx.Hash_ old = Tx.Hash_ old)).
Qed.
End Pool.

(** ** Concrete inputs *)

Definition ex_sender (tx : Transaction) : result signer_error Address := Ok 7.
Definition ex_at (_ : Hash) : option map_state := Some (MkMapState ∅ {[ 7 := 10000000 ]}).
Definition ex_pool0 : ProtoPool map_state txLookup :=
  Reset 0 ex_at (New 10) None.
Definition ex_pool : ProtoPool map_state txLookup :=
  match Add ex_sender ProtoList.ex_data ex_pool0 [ProtoList.ex_tx 11 3 5] with
  | Some (p, _) => p
  | None => ex_pool0
  end.

Lemma ex_proto_reachable : proto_reachable ex_sender ProtoList.ex_data 0 ex_at ex_pool.
Proof.
  exists 10. eapply rtc_l; [apply (step_reset _ _ _ _ _ None)|].
  eapply rtc_l; [|apply rtc_refl].
  apply (step_add _ _ _ _ _ [ProtoList.ex_tx 11 3 5] _ [None]). vm_compute. reflexivity.
Qed.

Lemma proto_never_pending_witness :
  (∃ q, Pending ProtoList.ex_data ex_pool = Some (∅, q)) ∧
  Get ex_pool 11 = Some (ProtoList.ex_tx 11 3 5) ∧ Status ex_sender ex_pool 11 = TxStatusQueued.
Proof.
  destruct (proto_never_pending ex_sender ProtoList.ex_data 0 ex_at canonical_range
    insertion_stable_sorter ex_pool ex_proto_reachable) as (Hp & Hs & _).
  split; [exact Hp|]. assert (Get ex_pool 11 = Some (ProtoList.ex_tx 11 3 5)) as Hg by reflexivity.
  split; [exact Hg|]. apply (Hs 11 _ Hg).
Defined.

Lemma replacement_forgotten_witness :
  ∃ q, add ex_sender ProtoList.ex_data ex_pool (ProtoList.ex_tx 13 3 6) = Some (q, None) ∧
  Has q 13 = false ∧ Has q 11 = false.
Proof.
  assert (∃ l, proto_queue ex_pool !! 7 = Some l ∧
    ProtoList.Get l 3 = Some (ProtoList.ex_tx 11 3 5)) as (l & Hl & Hg)
    by (eexists; split; reflexivity).
  destruct (replacement_forgotten ex_sender ProtoList.ex_data 0 ex_at ex_pool
    (ProtoList.ex_tx 13 3 6) (ProtoList.ex_tx 11 3 5) 7 l ex_proto_reachable eq_refl eq_refl Hl Hg
    eq_refl eq_refl) as (q & l' & Ha & _ & _ & Hn & _ & Ho & _).
  exists q. split; [exact Ha|]. split; [exact Hn|exact Ho].
Defined.
End ProtoPool.
