(* ===== verification/GasRules.v ===== *)
(** * Gas: the price of a transaction before it runs

    core/gaspool.go, and the functions of core/state_transition.go that price a
    transaction by its data ([IntrinsicGas], [FloorDataGas], [toWordSize]).  All
    the quantities are [uint64]: each sum and product is written with its
    wrap-around, and the theorems say when there is none. *)

From S2P Require Import Prelude TxTypes.
Open Scope eigen_scope.

(** ** Parameters (params/protocol_params.go) *)

Definition TxGas : Z := 21000.
Definition TxGasContractCreation : Z := 53000.
Definition TxDataZeroGas : Z := 4.
Definition TxDataNonZeroGasFrontier : Z := 68.
Definition TxDataNonZeroGasEIP2028 : Z := 16.
Definition InitCodeWordGas : Z := 2.
Definition TxAccessListAddressGas : Z := 2400.
Definition TxAccessListStorageKeyGas : Z := 1900.
Definition CallNewAccountGas : Z := 25000.
Definition TxAuthTupleGas : Z := 12500.
Definition TxTokenPerNonZeroByte : Z := 4.
Definition TxCostFloorPerToken : Z := 10.
Definition RefundQuotient : Z := 2.
Definition RefundQuotientEIP3529 : Z := 5.
Definition MaxInitCodeSize : Z := 49152.

(** The errors of core/error.go that applying a message returns. *)
Inductive core_error : Type :=
  | ErrGasLimitReached
  | ErrGasUintOverflow
  | ErrIntrinsicGas
  | ErrFloorDataGas
  | ErrInsufficientFunds
  | ErrInsufficientFundsForTransfer
  | ErrMaxInitCodeSizeExceeded
  | ErrNonceTooHigh
  | ErrNonceTooLow
  | ErrNonceMax
  | ErrSenderNoEOA
  | ErrFeeCapVeryHigh
  | ErrTipVeryHigh
  | ErrTipAboveFeeCap
  | ErrFeeCapTooLow
  | ErrBlobTxCreate
  | ErrMissingBlobHashes
  | ErrBlobHashVersion
  | ErrBlobFeeCapTooLow
  | ErrSetCodeTxCreate
  | ErrEmptyAuthList.

(** ** The gas pool of a block *)

(** [None] is the panic. *)
Definition AddGas (gp amount : Z) : option Z :=
  if gp >? max_uint64 - amount then None else Some (wrap64 (gp + amount)).

Definition SubGas (gp amount : Z) : result core_error Z :=
  if gp <? amount then Err ErrGasLimitReached else Ok (wrap64 (gp - amount)).

(** ** Intrinsic gas *)

(** [bytes.Count(data, []byte{0})] *)
Definition zero_bytes (data : bytes) : Z := len (filter (λ b, b = 0) data).

Definition toWordSize (size : Z) : Z :=
  if size >? max_uint64 - 31 then max_uint64 / 32 + 1 else wrap64 (size + 31) / 32.

(** [gas += n * price], when it fits. *)
Definition add_cost (gas n price : Z) : result core_error Z :=
  if (max_uint64 - gas) / price <? n then Err ErrGasUintOverflow
  else Ok (wrap64 (gas + wrap64 (n * price))).

Definition IntrinsicGas (data : bytes) (accessList : AccessList)
    (authList : list SetCodeAuthorization)
    (isContractCreation isHomestead isEIP2028 isEIP3860 : bool) : result core_error Z :=
  let gas := if isContractCreation && isHomestead then TxGasContractCreation else TxGas in
  let dataLen := len data in
  let* gas :=
    (if dataLen >? 0 then
      let z := zero_bytes data in
      let nz := wrap64 (dataLen - z) in
      let nonZeroGas :=
        if isEIP2028 then TxDataNonZeroGasEIP2028 else TxDataNonZeroGasFrontier in
      let* gas := add_cost gas nz nonZeroGas in
      let* gas := add_cost gas z TxDataZeroGas in
      if isContractCreation && isEIP3860 then add_cost gas (toWordSize dataLen) InitCodeWordGas
      else Ok gas
    else Ok gas) in
  let gas := wrap64 (gas + wrap64 (len accessList * TxAccessListAddressGas)) in
  let gas := wrap64 (gas + wrap64 (StorageKeys accessList * TxAccessListStorageKeyGas)) in
  Ok (wrap64 (gas + wrap64 (len authList * CallNewAccountGas))).

Definition FloorDataGas (data : bytes) : result core_error Z :=
  let z := zero_bytes data in
  let nz := wrap64 (len data - z) in
  let tokens := wrap64 (wrap64 (nz * TxTokenPerNonZeroByte) + z) in
  if (max_uint64 - TxGas) / TxCostFloorPerToken <? tokens then Err ErrGasUintOverflow
  else Ok (wrap64 (TxGas + wrap64 (tokens * TxCostFloorPerToken))).

(** ** Properties *)

Lemma SubGas_ok gp amount gp' :
  is_uint64 gp → is_uint64 amount → SubGas gp amount = Ok gp' → amount <= gp ∧ gp' = gp - amount.
Proof.
  unfold SubGas. intros. destruct (Z.ltb_spec gp amount); [done|]. simplify_eq.
  split; [lia|]. apply wrap64_id. ulia.
Qed.

Lemma AddGas_fits gp amount :
  is_uint64 gp → is_uint64 amount → gp + amount < two64 → AddGas gp amount = Some (gp + amount).
Proof.
  unfold AddGas. intros. rewrite Z.gtb_ltb.
  destruct (Z.ltb_spec (max_uint64 - amount) gp); [ulia|]. f_equal. apply wrap64_id. ulia.
Qed.

Lemma zero_bytes_range data : 0 <= zero_bytes data <= len data.
Proof.
  unfold zero_bytes, len. pose proof (length_filter (λ b, b = 0) data). lia.
Qed.

Lemma toWordSize_spec size : is_uint64 size → toWordSize size = (size + 31) / 32.
Proof.
  intros Hs. unfold toWordSize. rewrite Z.gtb_ltb.
  destruct (Z.ltb_spec (max_uint64 - 31) size) as [Hb|Hb].
  - unfold is_uint64, max_uint64, two64 in *.
    assert ((18446744073709551616 - 1) / 32 + 1 = 576460752303423488) as -> by reflexivity.
    apply Z.div_unique with (size + 31 - 18446744073709551616); lia.
  - rewrite wrap64_id; [done|]. ulia.
Qed.

Lemma add_cost_spec gas n price :
  is_uint64 gas → 0 <= n → 0 < price →
  add_cost gas n price
  = if gas + n * price <? two64 then Ok (gas + n * price) else Err ErrGasUintOverflow.
Proof.
  intros Hg Hn Hp. unfold add_cost.
  destruct (Z.ltb_spec ((max_uint64 - gas) / price) n) as [Ho|Ho].
  - assert (max_uint64 - gas < n * price) as Hb
      by (rewrite Z.mul_comm; apply Z.lt_le_trans with (price * (((max_uint64 - gas) / price) + 1));
        [apply Z.mul_succ_div_gt; lia|apply Z.mul_le_mono_nonneg_l; lia]).
    destruct (Z.ltb_spec (gas + n * price) two64); [ulia|done].
  - assert (n * price <= max_uint64 - gas) as Hb
      by (rewrite Z.mul_comm; etrans; [apply Z.mul_le_mono_nonneg_l with (m := (max_uint64 - gas) / price); lia|
        apply Z.mul_div_le; lia]).
    destruct (Z.ltb_spec (gas + n * price) two64); [|ulia].
    f_equal. rewrite (wrap64_id (n * price)) by ulia. apply wrap64_id. ulia.
Qed.

(** The cost of the data of a transaction. *)
Definition data_cost (data : bytes) (creation eip2028 eip3860 : bool) : Z :=
  (len data - zero_bytes data)
    * (if eip2028 then TxDataNonZeroGasEIP2028 else TxDataNonZeroGasFrontier)
  + zero_bytes data * TxDataZeroGas
  + (if creation && eip3860 then ((len data + 31) / 32) * InitCodeWordGas else 0).

Definition base_cost (creation homestead : bool) : Z :=
  if creation && homestead then TxGasContractCreation else TxGas.

Definition list_cost (accessList : AccessList) (authList : list SetCodeAuthorization) : Z :=
  len accessList * TxAccessListAddressGas + StorageKeys accessList * TxAccessListStorageKeyGas
  + len authList * CallNewAccountGas.

Lemma StorageKeys_nonneg al : 0 <= StorageKeys al.
Proof.
  unfold StorageKeys. assert (∀ n, 0 <= n → 0 <= fold_left (λ sum tuple,
    sum + len (tuple_StorageKeys tuple)) al n) as H; [|by apply H].
  induction al as [|t al IH]; intros n Hn; simpl; [done|].
  apply IH. pose proof (len_nonneg (tuple_StorageKeys t)). lia.
Qed.

Lemma data_cost_nonneg data c e2028 e3860 : 0 <= data_cost data c e2028 e3860.
Proof.
  unfold data_cost, TxDataZeroGas, TxDataNonZeroGasEIP2028, TxDataNonZeroGasFrontier,
    InitCodeWordGas.
  pose proof (zero_bytes_range data). pose proof (Z.div_pos (len data + 31) 32).
  destruct e2028, (c && e3860); lia.
Qed.

Lemma list_cost_nonneg al auths : 0 <= list_cost al auths.
Proof.
  unfold list_cost, TxAccessListAddressGas, TxAccessListStorageKeyGas, CallNewAccountGas.
  pose proof (StorageKeys_nonneg al). pose proof (len_nonneg al). pose proof (len_nonneg auths). lia.
Qed.

Lemma data_gas_spec data (c h e2028 e3860 : bool) :
  len data < two64 →
  (let gas := base_cost c h in
   if len data >? 0 then
     let* gas := add_cost gas (wrap64 (len data - zero_bytes data))
       (if e2028 then TxDataNonZeroGasEIP2028 else TxDataNonZeroGasFrontier) in
     let* gas := add_cost gas (zero_bytes data) TxDataZeroGas in
     if c && e3860 then add_cost gas (toWordSize (len data)) InitCodeWordGas else Ok gas
   else Ok gas)
  = if base_cost c h + data_cost data c e2028 e3860 <? two64
    then Ok (base_cost c h + data_cost data c e2028 e3860) else Err ErrGasUintOverflow.
Proof.
  intros Hlen. pose proof (zero_bytes_range data) as Hz. cbn zeta.
  assert (0 <= base_cost c h <= 53000) as Hb by (unfold base_cost; destruct (c && h); done).
  pose proof (Z.div_pos (len data + 31) 32 ltac:(lia) ltac:(lia)) as Hw.
  unfold data_cost. set (p := if e2028 then TxDataNonZeroGasEIP2028 else TxDataNonZeroGasFrontier).
  assert (0 < p) as Hp by (unfold p; by destruct e2028).
  rewrite Z.gtb_ltb. destruct (Z.ltb_spec 0 (len data)) as [H0|H0].
  - rewrite (wrap64_id (len data - zero_bytes data)) by ulia.
    rewrite add_cost_spec by (ulia || done). unfold TxDataZeroGas, InitCodeWordGas.
    rewrite toWordSize_spec by ulia.
    assert (0 <= (len data - zero_bytes data) * p) as Hnz by (apply Z.mul_nonneg_nonneg; lia).
    set (nzc := (len data - zero_bytes data) * p) in *. clearbody nzc p.
    destruct (Z.ltb_spec (base_cost c h + nzc) two64); simpl.
    + rewrite add_cost_spec by (ulia || lia).
      destruct (Z.ltb_spec (base_cost c h + nzc + zero_bytes data * 4) two64); simpl.
      * destruct (c && e3860); [|].
        -- rewrite add_cost_spec by (ulia || lia). by rewrite !Z.add_assoc.
        -- rewrite Z.add_0_r, Z.add_assoc. split_ifs; done || lia.
      * destruct (c && e3860); split_ifs; done || lia.
    + destruct (c && e3860); split_ifs; done || lia.
  - assert (len data = 0) as E by (pose proof (len_nonneg data); lia).
    assert (zero_bytes data = 0) as -> by lia. rewrite E. simpl.
    assert ((if c && e3860 then (0 + 31) / 32 * InitCodeWordGas else 0) = 0) as ->
      by by destruct (c && e3860).
    rewrite Z.add_0_r. destruct (Z.ltb_spec (base_cost c h) two64); [done|ulia].
Qed.

Lemma wrap64_add_l a b : wrap64 (wrap64 a + b) = wrap64 (a + b).
Proof. unfold wrap64. by rewrite Z.add_mod_idemp_l. Qed.

Lemma wrap64_add_r a b : wrap64 (a + wrap64 b) = wrap64 (a + b).
Proof. unfold wrap64. by rewrite Z.add_mod_idemp_r. Qed.

Lemma IntrinsicGas_result data al auths c h e2028 e3860 :
  len data < two64 →
  IntrinsicGas data al auths c h e2028 e3860
  = if base_cost c h + data_cost data c e2028 e3860 <? two64
    then Ok (wrap64 (base_cost c h + data_cost data c e2028 e3860 + list_cost al auths))
    else Err ErrGasUintOverflow.
Proof.
  intros Hlen. unfold IntrinsicGas. fold (base_cost c h).
  pose proof (data_gas_spec data c h e2028 e3860 Hlen) as Hd. cbv zeta in *. rewrite Hd.
  destruct (_ <? two64); simpl; [|done]. f_equal. unfold list_cost.
  generalize (base_cost c h + data_cost data c e2028 e3860). intros g.
  rewrite !wrap64_add_r, wrap64_add_l, <-(Z.add_assoc (wrap64 _)), wrap64_add_l. f_equal. lia.
Qed.

(** The intrinsic gas of a message is the sum of the costs of what it carries
    (21000 or 53000, each zero and non-zero byte, each word of init code, each
    address and key of the access list, each authorization), exactly, whenever
    that sum fits in 64 bits; the overflow of the cost of the data is an error,
    but that of the lists wraps around unnoticed. *)
Theorem IntrinsicGas_spec data al auths c h e2028 e3860 :
  len data < two64 →
  let cost := base_cost c h + data_cost data c e2028 e3860 in
  (cost + list_cost al auths < two64 →
    IntrinsicGas data al auths c h e2028 e3860 = Ok (cost + list_cost al auths)) ∧
  (two64 <= cost → IntrinsicGas data al auths c h e2028 e3860 = Err ErrGasUintOverflow) ∧
  (cost < two64 →
    IntrinsicGas data al auths c h e2028 e3860 = Ok (wrap64 (cost + list_cost al auths))).
Proof.
  intros Hlen cost. rewrite IntrinsicGas_result by done. fold cost.
  pose proof (list_cost_nonneg al auths). pose proof (data_cost_nonneg data c e2028 e3860).
  assert (0 <= base_cost c h) by (unfold base_cost; by destruct (c && h)).
  split_and!; intros Hc; destruct (Z.ltb_spec cost two64); try done; try lia.
  f_equal. apply wrap64_id. unfold is_uint64. lia.
Qed.

Lemma IntrinsicGas_spec_witness :
  IntrinsicGas [0; 1; 2] [MkAccessTuple 7 [1; 2]] [] true true true true = Ok 59238.
Proof.
  apply (IntrinsicGas_spec [0; 1; 2] [MkAccessTuple 7 [1; 2]] [] true true true true);
    vm_compute; reflexivity.
Defined.

Lemma FloorDataGas_ok data :
  len data * TxTokenPerNonZeroByte < two64 →
  FloorDataGas data
  = let tokens := (len data - zero_bytes data) * TxTokenPerNonZeroByte + zero_bytes data in
    if TxGas + tokens * TxCostFloorPerToken <? two64
    then Ok (TxGas + tokens * TxCostFloorPerToken) else Err ErrGasUintOverflow.
Proof.
  intros Hlen. unfold FloorDataGas, TxTokenPerNonZeroByte in *. pose proof (zero_bytes_range data).
  rewrite (wrap64_id (len data - _)) by ulia. rewrite (wrap64_id (_ * 4)) by ulia.
  rewrite wrap64_id by ulia.
  set (tokens := (len data - zero_bytes data) * 4 + zero_bytes data).
  pose proof (add_cost_spec TxGas tokens TxCostFloorPerToken) as Ha.
  unfold add_cost in Ha. cbn zeta. rewrite <-Ha; [done|done|lia|done].
Qed.

Lemma FloorDataGas_range data gas : FloorDataGas data = Ok gas → is_uint64 gas.
Proof.
  unfold FloorDataGas. destruct (_ <? _); [done|]. intros. simplify_eq. apply wrap64_range.
Qed.

Lemma IntrinsicGas_range data al auths c h e2028 e3860 gas :
  IntrinsicGas data al auths c h e2028 e3860 = Ok gas → is_uint64 gas.
Proof.
  unfold IntrinsicGas. destruct (if len data >? 0 then _ else _); simpl; [|done].
  intros. simplify_eq. apply wrap64_range.
Qed.
