(* ===== verification/VMInterface.v ===== *)
(** * What applying a message uses of the state

    The part of the interface vm.StateDB (core/vm/interface.go) that
    core/state_transition.go calls.  [VMState] has the operations, [VMStateLaws]
    what the theorems about messages rely on: each write changes what it is
    meant to change and nothing else that is read.  The reads are functions of
    the state: the caches that they fill in the implementation are not
    observable through the interface.  [map_vm] is a small instance, of tables. *)

From S2P Require Import Prelude TxTypes.

(** The flags of params.Rules, as [ChainConfig.Rules] computes them for a block. *)
Record Rules : Type := MkRules {
  IsHomestead : bool;
  IsIstanbul : bool;
  IsLondon : bool;
  IsShanghai : bool;
  IsPrague : bool;
  IsEIP2929 : bool;
  IsEIP4762 : bool
}.

Class VMState (St : Type) : Type := {
  GetBalance : St → Address → Z;
  SubBalance : St → Address → Z → St;
  AddBalance : St → Address → Z → St;
  GetNonce : St → Address → Z;
  SetNonce : St → Address → Z → St;
  GetCode : St → Address → bytes;
  SetCode : St → Address → bytes → St;
  Exist : St → Address → bool;
  AddRefund : St → Z → St;
  GetRefund : St → Z;
  AddAddressToAccessList : St → Address → St;
  (** rules, sender, coinbase, dst, precompiles, list; [None] is the panic *)
  Prepare : St → Rules → Address → Address → option Address → list Address → AccessList →
    option St
}.

(** The parts of an account that the writes may change. *)
Record same_accounts `{VMState St} (s t : St) : Prop := {
  same_balance a : GetBalance t a = GetBalance s a;
  same_nonce a : GetNonce t a = GetNonce s a;
  same_code a : GetCode t a = GetCode s a
}.

Class VMStateLaws (St : Type) `{VMState St} : Prop := {
  GetBalance_Sub s a x b : GetBalance (SubBalance s a x) b
    = if bool_decide (a = b) then wrap256 (GetBalance s a - x) else GetBalance s b;
  GetBalance_Add s a x b : GetBalance (AddBalance s a x) b
    = if bool_decide (a = b) then wrap256 (GetBalance s a + x) else GetBalance s b;
  GetBalance_SetNonce s a n b : GetBalance (SetNonce s a n) b = GetBalance s b;
  GetBalance_SetCode s a c b : GetBalance (SetCode s a c) b = GetBalance s b;
  GetNonce_Sub s a x b : GetNonce (SubBalance s a x) b = GetNonce s b;
  GetNonce_Add s a x b : GetNonce (AddBalance s a x) b = GetNonce s b;
  GetNonce_SetNonce s a n b :
    GetNonce (SetNonce s a n) b = if bool_decide (a = b) then n else GetNonce s b;
  GetNonce_SetCode s a c b : GetNonce (SetCode s a c) b = GetNonce s b;
  GetCode_SetNonce s a n b : GetCode (SetNonce s a n) b = GetCode s b;
  GetCode_SetCode s a c b :
    GetCode (SetCode s a c) b = if bool_decide (a = b) then c else GetCode s b;
  AddRefund_same s n : same_accounts s (AddRefund s n);
  AddAddress_same s a : same_accounts s (AddAddressToAccessList s a);
  Prepare_same s rules sender coinbase dst pre al t :
    Prepare s rules sender coinbase dst pre al = Some t → same_accounts s t;
  Prepare_total s rules sender coinbase dst pre al :
    IsEIP2929 rules && IsEIP4762 rules = false →
    is_Some (Prepare s rules sender coinbase dst pre al);
  GetRefund_range s : is_uint64 (GetRefund s);
  GetRefund_AddRefund s n : GetRefund (AddRefund s n) = wrap64 (GetRefund s + n);
  GetRefund_SetNonce s a n : GetRefund (SetNonce s a n) = GetRefund s;
  GetRefund_SetCode s a c : GetRefund (SetCode s a c) = GetRefund s;
  GetRefund_AddAddress s a : GetRefund (AddAddressToAccessList s a) = GetRefund s
}.

#[export] Instance same_accounts_preorder `{VMState St} : PreOrder same_accounts.
Proof. split; [by split|]. intros s t u [] []. split; intros; congruence. Qed.

(** ** Tables *)

Record map_vm : Type := MkMapVM {
  vm_balances : gmap Z Z;
  vm_nonces : gmap Z Z;
  vm_codes : gmap Z bytes;
  vm_refund : Z;
  vm_warm : gmap Z unit
}.

(** An account exists when one of the tables has an entry for it. *)
#[export] Instance map_vm_state : VMState map_vm := {|
  GetBalance s a := default 0 (vm_balances s !! a);
  SubBalance s a x := MkMapVM
    (<[a := wrap256 (default 0 (vm_balances s !! a) - x)]> (vm_balances s))
    (vm_nonces s) (vm_codes s) (vm_refund s) (vm_warm s);
  AddBalance s a x := MkMapVM
    (<[a := wrap256 (default 0 (vm_balances s !! a) + x)]> (vm_balances s))
    (vm_nonces s) (vm_codes s) (vm_refund s) (vm_warm s);
  GetNonce s a := default 0 (vm_nonces s !! a);
  SetNonce s a n := MkMapVM (vm_balances s) (<[a := n]> (vm_nonces s)) (vm_codes s)
    (vm_refund s) (vm_warm s);
  GetCode s a := default [] (vm_codes s !! a);
  SetCode s a c := MkMapVM (vm_balances s) (vm_nonces s) (<[a := c]> (vm_codes s))
    (vm_refund s) (vm_warm s);
  Exist s a := bool_decide (is_Some (vm_balances s !! a)) || bool_decide (is_Some (vm_nonces s !! a))
    || bool_decide (is_Some (vm_codes s !! a));
  AddRefund s n := MkMapVM (vm_balances s) (vm_nonces s) (vm_codes s)
    (wrap64 (vm_refund s + n)) (vm_warm s);
  GetRefund s := wrap64 (vm_refund s);
  AddAddressToAccessList s a := MkMapVM (vm_balances s) (vm_nonces s) (vm_codes s)
    (vm_refund s) (<[a := tt]> (vm_warm s));
  Prepare s rules sender coinbase dst pre al :=
    if IsEIP2929 rules && IsEIP4762 rules then None
    else Some (MkMapVM (vm_balances s) (vm_nonces s) (vm_codes s) (vm_refund s) {[sender := tt]})
|}.

#[export] Instance map_vm_laws : VMStateLaws map_vm.
Proof.
  split; simpl; try done; try (intros; rewrite lookup_insert; by case_decide; case_bool_decide).
  - intros s rules sender coinbase dst pre al t. destruct (_ && _); intros; by simplify_eq.
  - intros s rules sender coinbase dst pre al ->. by eexists.
  - intros s. apply wrap64_range.
  - intros s n. rewrite wrap64_id by apply wrap64_range. unfold wrap64. by rewrite Z.add_mod_idemp_l.
Qed.
