(* ===== verification/StateTransition.v ===== *)
(** * Applying a message

    core/state_transition.go: the checks before a message runs, the purchase of
    its gas, the EIP-7702 authorizations, the call of the EVM, the refund and
    the payments, over any state with the interface of VMInterface.v.  The EVM
    itself ([Create] and [Call] of core/vm/evm.go) is a parameter, as are the
    hash and the recovery of public keys.  Every function is in a small monad of
    the transition object: it returns, fails with one of the errors of
    core/error.go, or panics; a failure keeps the object as the code has left it,
    since the pointers to the pool and to the state outlive it. *)

From S2P Require Import Prelude TxTypes Signers GasRules VMInterface.
Open Scope eigen_scope.

(** ** Delegations (core/types/tx_setcode.go) *)

Definition DelegationPrefix : bytes := [0xef; 0x01; 0x00].

Definition ParseDelegation (b : bytes) : option Address :=
  if negb (len b =? 23) || negb (bool_decide (take 3 b = DelegationPrefix)) then None
  else Some (be_decode (drop 3 b)).

Definition AddressToDelegation (addr : Address) : bytes := DelegationPrefix ++ be_encode 20 addr.

(** [uint256.FromBig]: the low 256 bits, and whether there are more. *)
Definition FromBig (b : Z) : Z * bool := (wrap256 b, BitLen b >? 256).

(** crypto/kzg4844: the first byte of the hash is the version. *)
Definition IsValidVersionedHash (h : Hash) : bool := Z.shiftr h 248 =? 1.

(** ** Data *)

(** What the block and the configuration of the EVM give to the transition: the
    fork flags, the fees ([None] when nil) and the active precompiles. *)
Record Env : Type := MkEnv {
  env_rules : Rules;
  IsCancun : bool;
  ChainID : Z;
  Coinbase : Address;
  BaseFee : option Z;
  BlobBaseFee : option Z;
  NoBaseFee : bool;
  ActivePrecompiles : list Address
}.

Record Message : Type := MkMessage {
  msg_To : option Address;
  From : Address;
  msg_Nonce : Z;
  msg_Value : Z;
  GasLimit : Z;
  msg_GasPrice : Z;
  msg_GasFeeCap : option Z;
  msg_GasTipCap : Z;
  msg_Data : bytes;
  msg_AccessList : AccessList;
  msg_BlobGasFeeCap : option Z;
  msg_BlobHashes : option (list Hash);
  msg_SetCodeAuthorizations : option (list SetCodeAuthorization);
  SkipNonceChecks : bool;
  SkipFromEOACheck : bool
}.

(** The message, and the error of recovering its sender. *)
Definition TransactionToMessage (types_Sender : Transaction → result signer_error Address)
    (tx : Transaction) (baseFee : option Z) : Message * option signer_error :=
  let price :=
    match baseFee with
    | None => Tx.GasPrice tx
    | Some baseFee =>
        let p := Tx.GasTipCap tx + baseFee in
        if Cmp p (Tx.GasFeeCap tx) >? 0 then Tx.GasFeeCap tx else p
    end in
  let '(from, err) :=
    match types_Sender tx with Ok a => (a, None) | Err e => (0, Some e) end in
  (MkMessage (Tx.To tx) from (Tx.Nonce tx) (Tx.Value tx) (Tx.Gas tx) price
    (Some (Tx.GasFeeCap tx)) (Tx.GasTipCap tx) (Tx.Data tx) (Tx.AccessList_ tx)
    (Tx.BlobGasFeeCap tx) (Tx.BlobHashes tx) (Tx.SetCodeAuthorizations tx) false false, err).

Record ExecutionResult (VE : Type) : Type := MkResult {
  UsedGas : Z;
  RefundedGas : Z;
  res_Err : option VE;
  ReturnData : bytes
}.
Arguments MkResult {VE}.
Arguments UsedGas {VE}.
Arguments RefundedGas {VE}.
Arguments res_Err {VE}.
Arguments ReturnData {VE}.

Definition Failed {VE} (result : ExecutionResult VE) : bool :=
  bool_decide (is_Some (res_Err result)).

Definition Return_ {VE} (result : ExecutionResult VE) : option bytes :=
  match res_Err result with Some _ => None | None => Some (ReturnData result) end.

Inductive auth_error : Type :=
  | ErrAuthorizationWrongChainID
  | ErrAuthorizationNonceOverflow
  | ErrAuthorizationInvalidSignature
  | ErrAuthorizationDestinationHasCode
  | ErrAuthorizationNonceMismatch.

(** ** The monad of the transition *)

Record Transition (St : Type) : Type := MkTransition {
  gp : Z;
  gasRemaining : Z;
  initialGas : Z;
  state : St
}.
Arguments MkTransition {St}.
Arguments gp {St}.
Arguments gasRemaining {St}.
Arguments initialGas {St}.
Arguments state {St}.

Inductive outcome (St A : Type) : Type :=
  | Done (a : A) (t : Transition St)
  | Fail (e : core_error) (t : Transition St)
  | Panic.
Arguments Done {St A}.
Arguments Fail {St A}.
Arguments Panic {St A}.

Definition bind {St A B} (m : Transition St → outcome St A)
    (f : A → Transition St → outcome St B) : Transition St → outcome St B := λ t,
  match m t with
  | Done a t => f a t
  | Fail e t => Fail e t
  | Panic => Panic
  end.

Notation "'let!' x := m 'in' k" := (bind m (λ x, k))
  (at level 10, x pattern, m at level 100, k at level 200) : eigen_scope.

Section Monad.
Context {St : Type}.
Implicit Types t : Transition St.

Definition ret {A} (a : A) t : outcome St A := Done a t.
Definition fail {A} (e : core_error) t : outcome St A := Fail e t.
Definition panic {A} t : outcome St A := Panic.
Definition get t : outcome St (Transition St) := Done t t.
Definition set_state (s : St) t : outcome St unit :=
  Done tt (MkTransition (gp t) (gasRemaining t) (initialGas t) s).
Definition set_gas (gas : Z) t : outcome St unit :=
  Done tt (MkTransition (gp t) gas (initialGas t) (state t)).
Definition set_initial (gas : Z) t : outcome St unit :=
  Done tt (MkTransition (gp t) (gasRemaining t) gas (state t)).
Definition set_pool (pool : Z) t : outcome St unit :=
  Done tt (MkTransition pool (gasRemaining t) (initialGas t) (state t)).
(** [if err != nil { return err }] *)
Definition try {A} (r : result core_error A) : Transition St → outcome St A :=
  match r with Ok a => ret a | Err e => fail e end.
(** [if cond { return err }] *)
Definition refuse (cond : bool) (e : core_error) : Transition St → outcome St unit :=
  if cond then fail e else ret tt.
End Monad.

(** ** The transition *)

Section StateTransition.
Context {St : Type} `{VMState St}.
Context {VE : Type}.
Context (prefixedRlpHash : Z → list hash_item → Hash).
Context (Keccak256 : bytes → bytes).
Context (Ecrecover : Hash → bytes → option bytes).
(** from, code or input, gas, value: the returned data, the gas left, the error
    of the virtual machine and the state. *)
Context (evm_Create : Address → bytes → Z → Z → St → bytes * Z * option VE * St).
Context (evm_Call : Address → Address → bytes → Z → Z → St → bytes * Z * option VE * St).
Context (env : Env).
Context (msg : Message).
Implicit Types t : Transition St.

Abbreviation rules := (env_rules env).
Abbreviation M A := (Transition St → outcome St A).

Definition newStateTransition (pool : Z) (s : St) : Transition St := MkTransition pool 0 0 s.

Definition to : Address := default 0 (msg_To msg).

Definition gasUsed t : Z := wrap64 (initialGas t - gasRemaining t).

Definition blobGasUsed : Z :=
  wrap64 (len (default [] (msg_BlobHashes msg)) * BlobTxBlobGasPerBlob).

(** The two sums of [buyGas]: what the sender must have, and what it pays now;
    [None] is the panic on a missing blob fee. *)
Definition gas_sums : option (Z * Z) :=
  let mgval := GasLimit msg * msg_GasPrice msg in
  let balanceCheck :=
    match msg_GasFeeCap msg with
    | Some cap => GasLimit msg * cap
    | None => mgval
    end in
  let balanceCheck := balanceCheck + msg_Value msg in
  if IsCancun env && (blobGasUsed >? 0) then
    match msg_BlobGasFeeCap msg, BlobBaseFee env with
    | Some cap, Some fee => Some (balanceCheck + blobGasUsed * cap, mgval + blobGasUsed * fee)
    | _, _ => None
    end
  else Some (balanceCheck, mgval).

Definition buyGas : M unit :=
  match gas_sums with
  | None => panic
  | Some (balanceCheck, mgval) =>
      let '(balanceCheckU256, overflow) := FromBig balanceCheck in
      let! _ := refuse overflow ErrInsufficientFunds in
      let! t := get in
      let! _ := refuse (Cmp (GetBalance (state t) (From msg)) balanceCheckU256 <? 0)
                  ErrInsufficientFunds in
      let! pool := try (SubGas (gp t) (GasLimit msg)) in
      let! _ := set_pool pool in
      let! _ := set_gas (GasLimit msg) in
      let! _ := set_initial (GasLimit msg) in
      set_state (SubBalance (state t) (From msg) (FromBig mgval).1)
  end.

(** The four groups of checks of [preCheck]. *)
Definition check_nonce : M unit :=
  if SkipNonceChecks msg then ret tt
  else
    let! t := get in
    let stNonce := GetNonce (state t) (From msg) in
    if stNonce <? msg_Nonce msg then fail ErrNonceTooHigh
    else if stNonce >? msg_Nonce msg then fail ErrNonceTooLow
    else refuse (wrap64 (stNonce + 1) <? stNonce) ErrNonceMax.

Definition check_sender : M unit :=
  if SkipFromEOACheck msg then ret tt
  else
    let! t := get in
    let code := GetCode (state t) (From msg) in
    refuse ((len code >? 0) && negb (bool_decide (is_Some (ParseDelegation code)))) ErrSenderNoEOA.

Definition check_fees : M unit :=
  if negb (IsLondon rules) then ret tt
  else
    match msg_GasFeeCap msg with
    | None => panic
    | Some cap =>
        if NoBaseFee env && (BitLen cap =? 0) && (BitLen (msg_GasTipCap msg) =? 0) then ret tt
        else
          let! _ := refuse (BitLen cap >? 256) ErrFeeCapVeryHigh in
          let! _ := refuse (BitLen (msg_GasTipCap msg) >? 256) ErrTipVeryHigh in
          let! _ := refuse (Cmp cap (msg_GasTipCap msg) <? 0) ErrTipAboveFeeCap in
          match BaseFee env with
          | None => panic
          | Some baseFee => refuse (Cmp cap baseFee <? 0) ErrFeeCapTooLow
          end
    end.

Definition check_blobs : M unit :=
  match msg_BlobHashes msg with
  | None => ret tt
  | Some hashes =>
      let! _ := refuse (negb (bool_decide (is_Some (msg_To msg)))) ErrBlobTxCreate in
      let! _ := refuse (len hashes =? 0) ErrMissingBlobHashes in
      refuse (negb (forallb IsValidVersionedHash hashes)) ErrBlobHashVersion
  end.

Definition check_blob_fee : M unit :=
  if IsCancun env && (blobGasUsed >? 0) then
    match msg_BlobGasFeeCap msg with
    | None => panic
    | Some cap =>
        if NoBaseFee env && (BitLen cap =? 0) then ret tt
        else
          match BlobBaseFee env with
          | None => panic
          | Some fee => refuse (Cmp cap fee <? 0) ErrBlobFeeCapTooLow
          end
    end
  else ret tt.

Definition check_auths : M unit :=
  match msg_SetCodeAuthorizations msg with
  | None => ret tt
  | Some auths =>
      let! _ := refuse (negb (bool_decide (is_Some (msg_To msg)))) ErrSetCodeTxCreate in
      refuse (len auths =? 0) ErrEmptyAuthList
  end.

Definition preCheck : M unit :=
  let! _ := check_nonce in
  let! _ := check_sender in
  let! _ := check_fees in
  let! _ := check_blobs in
  let! _ := check_blob_fee in
  let! _ := check_auths in
  buyGas.

(** ** EIP-7702 authorizations *)

Definition auth_sigHash (auth : SetCodeAuthorization) : Hash :=
  prefixedRlpHash 5 [HInt (auth_ChainID auth); HAddr (Some (auth_Address auth));
    HInt (auth_Nonce auth)].

Definition Authority (auth : SetCodeAuthorization) : result signer_error Address :=
  let sighash := auth_sigHash auth in
  if negb (ValidateSignatureValues (auth_V auth) (auth_R auth) (auth_S auth) true)
  then Err ErrInvalidSig
  else recover_pubkey Keccak256 Ecrecover sighash
    (be_encode 32 (auth_R auth) ++ be_encode 32 (auth_S auth) ++ [auth_V auth]).

Definition validateAuthorization (auth : SetCodeAuthorization) (s : St)
    : result auth_error Address * St :=
  if negb (auth_ChainID auth =? 0) && negb (auth_ChainID auth =? ChainID env)
  then (Err ErrAuthorizationWrongChainID, s)
  else if wrap64 (auth_Nonce auth + 1) <? auth_Nonce auth
  then (Err ErrAuthorizationNonceOverflow, s)
  else
    match Authority auth with
    | Err _ => (Err ErrAuthorizationInvalidSignature, s)
    | Ok authority =>
        let s := AddAddressToAccessList s authority in
        let code := GetCode s authority in
        if negb (len code =? 0) && negb (bool_decide (is_Some (ParseDelegation code)))
        then (Err ErrAuthorizationDestinationHasCode, s)
        else if negb (GetNonce s authority =? auth_Nonce auth)
        then (Err ErrAuthorizationNonceMismatch, s)
        else (Ok authority, s)
    end.

Definition applyAuthorization (auth : SetCodeAuthorization) (s : St)
    : option auth_error * St :=
  match validateAuthorization auth s with
  | (Err e, s) => (Some e, s)
  | (Ok authority, s) =>
      let s := if Exist s authority then AddRefund s (CallNewAccountGas - TxAuthTupleGas) else s in
      let s := SetNonce s authority (wrap64 (auth_Nonce auth + 1)) in
      if auth_Address auth =? 0 then (None, SetCode s authority [])
      else (None, SetCode s authority (AddressToDelegation (auth_Address auth)))
  end.

(** The loop of [execute]: the errors are ignored. *)
Definition applyAuthorizations (auths : list SetCodeAuthorization) (s : St) : St :=
  fold_left (λ s auth, (applyAuthorization auth s).2) auths s.

(** ** Execution *)

(** core/evm.go *)
Definition CanTransfer (s : St) (addr : Address) (amount : Z) : bool :=
  Cmp (GetBalance s addr) amount >=? 0.

Definition calcRefund t : Z :=
  let refund :=
    if negb (IsLondon rules) then gasUsed t / RefundQuotient
    else gasUsed t / RefundQuotientEIP3529 in
  if refund >? GetRefund (state t) then GetRefund (state t) else refund.

Definition returnGas : M unit :=
  let! t := get in
  let '(price, overflow) := FromBig (msg_GasPrice msg) in
  if overflow then panic
  else
    let remaining := wrap256 (gasRemaining t * price) in
    let! _ := set_state (AddBalance (state t) (From msg) remaining) in
    match AddGas (gp t) (gasRemaining t) with
    | None => panic
    | Some pool => set_pool pool
    end.

(** The clauses 4 and 5 of [execute]: the intrinsic and the floor cost; returns
    the floor. *)
Definition charge_intrinsic : M Z :=
  let contractCreation := negb (bool_decide (is_Some (msg_To msg))) in
  let! gas := try (IntrinsicGas (msg_Data msg) (msg_AccessList msg)
    (default [] (msg_SetCodeAuthorizations msg)) contractCreation
    (IsHomestead rules) (IsIstanbul rules) (IsShanghai rules)) in
  let! t := get in
  let! _ := refuse (gasRemaining t <? gas) ErrIntrinsicGas in
  let! floorDataGas :=
    (if IsPrague rules then
      let! floorDataGas := try (FloorDataGas (msg_Data msg)) in
      let! _ := refuse (GasLimit msg <? floorDataGas) ErrFloorDataGas in
      ret floorDataGas
    else ret 0) in
  let! _ := set_gas (wrap64 (gasRemaining t - gas)) in
  ret floorDataGas.

(** Clause 6, the size of the init code and the preparation of the state; returns
    the value to transfer. *)
Definition check_transfer : M Z :=
  let contractCreation := negb (bool_decide (is_Some (msg_To msg))) in
  let '(value, overflow) := FromBig (msg_Value msg) in
  let! _ := refuse overflow ErrInsufficientFundsForTransfer in
  let! t := get in
  let! _ := refuse (negb (value =? 0) && negb (CanTransfer (state t) (From msg) value))
              ErrInsufficientFundsForTransfer in
  let! _ := refuse (IsShanghai rules && contractCreation && (len (msg_Data msg) >? MaxInitCodeSize))
              ErrMaxInitCodeSizeExceeded in
  match Prepare (state t) rules (From msg) (Coinbase env) (msg_To msg)
          (ActivePrecompiles env) (msg_AccessList msg) with
  | None => panic
  | Some s => let! _ := set_state s in ret value
  end.

(** The state right before the call of the EVM, when the message is not a
    creation. *)
Definition before_call (s : St) (dst : Address) : St :=
  let s := SetNonce s (From msg) (wrap64 (GetNonce s (From msg) + 1)) in
  let s :=
    match msg_SetCodeAuthorizations msg with
    | Some auths => applyAuthorizations auths s
    | None => s
    end in
  match ParseDelegation (GetCode s dst) with
  | Some addr => AddAddressToAccessList s addr
  | None => s
  end.

Definition run_evm (value : Z) : M (bytes * option VE) :=
  let! t := get in
  let '(ret_, gas, vmerr, s) :=
    match msg_To msg with
    | None => evm_Create (From msg) (msg_Data msg) (gasRemaining t) value (state t)
    | Some dst =>
        evm_Call (From msg) to (msg_Data msg) (gasRemaining t) value (before_call (state t) dst)
    end in
  let! _ := set_gas gas in
  let! _ := set_state s in
  ret (ret_, vmerr).

(** The refund, and the floor of EIP-7623; returns the refund. *)
Definition settle_gas (floorDataGas : Z) : M Z :=
  let! t := get in
  let gasRefund := calcRefund t in
  let! _ := set_gas (wrap64 (gasRemaining t + gasRefund)) in
  let! t := get in
  let! _ :=
    (if IsPrague rules && (gasUsed t <? floorDataGas) then
      set_gas (wrap64 (initialGas t - floorDataGas))
    else ret tt) in
  ret gasRefund.

(** The tip per unit of gas; [None] is the panic on a missing fee. *)
Definition effective_tip : option Z :=
  if IsLondon rules then
    match msg_GasFeeCap msg, BaseFee env with
    | Some cap, Some baseFee =>
        let effectiveTip := cap - baseFee in
        Some (if Cmp effectiveTip (msg_GasTipCap msg) >? 0 then msg_GasTipCap msg
              else effectiveTip)
    | _, _ => None
    end
  else Some (msg_GasPrice msg).

Definition pay_coinbase : M unit :=
  match effective_tip with
  | None => panic
  | Some effectiveTip =>
      let! t := get in
      let fee := wrap256 (gasUsed t * (FromBig effectiveTip).1) in
      let pay := set_state (AddBalance (state t) (Coinbase env) fee) in
      if NoBaseFee env then
        match msg_GasFeeCap msg with
        | None => panic
        | Some cap => if (cap =? 0) && (msg_GasTipCap msg =? 0) then ret tt else pay
        end
      else pay
  end.

Definition execute : M (ExecutionResult VE) :=
  let! _ := preCheck in
  let! floorDataGas := charge_intrinsic in
  let! value := check_transfer in
  let! (ret_, vmerr) := run_evm value in
  let! gasRefund := settle_gas floorDataGas in
  let! _ := returnGas in
  let! _ := pay_coinbase in
  let! t := get in
  ret (MkResult (gasUsed t) gasRefund vmerr ret_).

Definition ApplyMessage (pool : Z) (s : St) : outcome St (ExecutionResult VE) :=
  execute (newStateTransition pool s).
End StateTransition.
