(* ===== verification/TransitionTheorems.v ===== *)
(** * What applying a message guarantees

    The theorems about StateTransition.v.  They are derived with a weakest
    precondition of the transition monad: what holds of the result, what holds
    of the object after a failure, and whether a panic is allowed. *)

From S2P Require Import Prelude TxTypes Signers GasRules VMInterface StateTransition.
Open Scope eigen_scope.

(** ** Weakest preconditions *)

Section WP.
Context {St : Type}.
Implicit Types t : Transition St.

Definition wp {A} (m : Transition St → outcome St A) (Q : A → Transition St → Prop)
    (E : core_error → Transition St → Prop) (P : Prop) t : Prop :=
  match m t with
  | Done a t => Q a t
  | Fail e t => E e t
  | Panic => P
  end.

Lemma tr_bind {A B} (m : Transition St → outcome St A) (f : A → Transition St → outcome St B) Q E P t :
  wp m (λ a, wp (f a) Q E P) E P t → wp (bind m f) Q E P t.
Proof. unfold wp, bind. by destruct (m t). Qed.

Lemma tr_mono {A} (m : Transition St → outcome St A) (Q Q' : A → Transition St → Prop)
    (E E' : core_error → Transition St → Prop) (P P' : Prop) t :
  wp m Q E P t → (∀ a u, Q a u → Q' a u) → (∀ e u, E e u → E' e u) → (P → P') →
  wp m Q' E' P' t.
Proof. unfold wp. destruct (m t); eauto. Qed.

Lemma wp_refuse cond e (Q : unit → Transition St → Prop) (E : core_error → Transition St → Prop) P t :
  (cond = true → E e t) → (cond = false → Q tt t) → wp (refuse cond e) Q E P t.
Proof. unfold wp, refuse. destruct cond; simpl; eauto. Qed.

Lemma transition_wp_try {A} (r : result core_error A) (Q : A → Transition St → Prop)
    (E : core_error → Transition St → Prop) P t :
  (∀ a, r = Ok a → Q a t) → (∀ e, r = Err e → E e t) → wp (try r) Q E P t.
Proof. unfold wp, try. destruct r; simpl; eauto. Qed.

(** The primitives of the monad. *)
Section Primitives.
Context {A : Type}.
Context (E : core_error → Transition St → Prop) (P : Prop).

Lemma tr_ret (a : A) (Q : A → Transition St → Prop) t : Q a t → wp (ret a) Q E P t.
Proof. done. Qed.
Lemma wp_raise e (Q : A → Transition St → Prop) t : E e t → wp (fail e) Q E P t.
Proof. done. Qed.
Lemma wp_panicking (Q : A → Transition St → Prop) t : P → wp panic Q E P t.
Proof. done. Qed.
Lemma tr_get Q t : Q t t → wp get Q E P t.
Proof. done. Qed.
Lemma wp_set_state s Q t :
  Q tt (MkTransition (gp t) (gasRemaining t) (initialGas t) s) → wp (set_state s) Q E P t.
Proof. done. Qed.
Lemma wp_set_gas gas Q t :
  Q tt (MkTransition (gp t) gas (initialGas t) (state t)) → wp (set_gas gas) Q E P t.
Proof. done. Qed.
Lemma wp_set_initial gas Q t :
  Q tt (MkTransition (gp t) (gasRemaining t) gas (state t)) → wp (set_initial gas) Q E P t.
Proof. done. Qed.
Lemma wp_set_pool pool Q t :
  Q tt (MkTransition pool (gasRemaining t) (initialGas t) (state t)) → wp (set_pool pool) Q E P t.
Proof. done. Qed.
End Primitives.

Lemma wp_done {A} (m : Transition St → outcome St A) Q E P t a u :
  wp m Q E P t → m t = Done a u → Q a u.
Proof. unfold wp. intros Hw Heq. by rewrite Heq in Hw. Qed.

Lemma tr_fail {A} (m : Transition St → outcome St A) Q E P t e u :
  wp m Q E P t → m t = Fail e u → E e u.
Proof. unfold wp. intros Hw Heq. by rewrite Heq in Hw. Qed.

Lemma wp_panic {A} (m : Transition St → outcome St A) Q E t :
  wp m Q E False t → m t ≠ Panic.
Proof. unfold wp. intros Hw Heq. by rewrite Heq in Hw. Qed.
End WP.

(** One step of a weakest precondition. *)
Ltac wp_step :=
  match goal with
  | |- wp (bind _ _) _ _ _ _ => apply tr_bind
  | |- wp (refuse _ _) _ _ _ _ => apply wp_refuse; intros ?Hcond
  | |- wp (try _) _ _ _ _ => apply transition_wp_try; intros ?x ?Htry
  | |- wp (ret _) _ _ _ _ => apply tr_ret; cbn beta iota zeta delta [gp gasRemaining initialGas state]
  | |- wp (fail _) _ _ _ _ => apply wp_raise; cbn beta iota zeta delta [gp gasRemaining initialGas state]
  | |- wp panic _ _ _ _ => apply wp_panicking; cbn beta iota zeta delta [gp gasRemaining initialGas state]
  | |- wp get _ _ _ _ => apply tr_get; cbn beta iota zeta delta [gp gasRemaining initialGas state]
  | |- wp (set_state _) _ _ _ _ => apply wp_set_state; cbn beta iota zeta delta [gp gasRemaining initialGas state]
  | |- wp (set_gas _) _ _ _ _ => apply wp_set_gas; cbn beta iota zeta delta [gp gasRemaining initialGas state]
  | |- wp (set_initial _) _ _ _ _ => apply wp_set_initial; cbn beta iota zeta delta [gp gasRemaining initialGas state]
  | |- wp (set_pool _) _ _ _ _ => apply wp_set_pool; cbn beta iota zeta delta [gp gasRemaining initialGas state]
  end.

(** ** Delegations *)

Lemma ParseDelegation_AddressToDelegation addr :
  0 <= addr < 2 ^ 160 → ParseDelegation (AddressToDelegation addr) = Some addr.
Proof.
  intros Ha. unfold ParseDelegation, AddressToDelegation.
  assert (be_decode (be_encode 20 addr) = addr) as He
    by (apply be_decode_encode; by change (256 ^ Z.of_nat 20) with (2 ^ 160)).
  pose proof (length_be_encode 20 addr) as Hl.
  generalize dependent (be_encode 20 addr). intros e He Hl.
  rewrite len_app. unfold len. rewrite Hl. simpl. f_equal. exact He.
Qed.

Section Transition.
Context {St : Type} `{VMStateLaws St}.
Context (prefixedRlpHash : Z → list hash_item → Hash).
Context (Keccak256 : bytes → bytes).
Context (Ecrecover : Hash → bytes → option bytes).
Context (env : Env).
Implicit Types t : Transition St.

Abbreviation Apply := (applyAuthorization prefixedRlpHash Keccak256 Ecrecover env).
Abbreviation Auth := (Authority prefixedRlpHash Keccak256 Ecrecover).

(** ** Authorizations *)

(** When an authorization is accepted, and what it then does. *)
Definition auth_acceptable (auth : SetCodeAuthorization) (s : St) (authority : Address) : Prop :=
  (auth_ChainID auth = 0 ∨ auth_ChainID auth = ChainID env) ∧ auth_Nonce auth < max_uint64 ∧
  Auth auth = Ok authority ∧
  (GetCode s authority = [] ∨ is_Some (ParseDelegation (GetCode s authority))) ∧
  GetNonce s authority = auth_Nonce auth.

Definition delegation_of (auth : SetCodeAuthorization) : bytes :=
  if auth_Address auth =? 0 then [] else AddressToDelegation (auth_Address auth).

Lemma applyAuthorization_ok auth s :
  is_uint64 (auth_Nonce auth) →
  match Apply auth s with
  | (Some _, t) => same_accounts s t
  | (None, t) => ∃ a, auth_acceptable auth s a ∧
      ∀ b, GetBalance t b = GetBalance s b ∧
        GetNonce t b = (if bool_decide (a = b) then auth_Nonce auth + 1 else GetNonce s b) ∧
        GetCode t b = (if bool_decide (a = b) then delegation_of auth else GetCode s b)
  end.
Proof.
  intros Hn. unfold applyAuthorization, validateAuthorization, auth_acceptable.
  destruct (negb (auth_ChainID auth =? 0) && negb (auth_ChainID auth =? ChainID env)) eqn:Hc;
    [reflexivity|].
  destruct (Z.ltb_spec (wrap64 (auth_Nonce auth + 1)) (auth_Nonce auth)) as [|Hw]; [reflexivity|].
  destruct (Auth auth) as [a|]; [|reflexivity].
  pose proof (AddAddress_same s a) as Hs. destruct Hs as [Hb Hno Hco].
  rewrite Hco, Hno.
  destruct (negb (len (GetCode s a) =? 0) && _) eqn:Hcode; [by split|].
  destruct (Z.eqb_spec (GetNonce s a) (auth_Nonce auth)) as [Hnonce|]; simpl; [|by split].
  assert (auth_Nonce auth < max_uint64) as Hmax.
  { destruct (Z.eq_dec (auth_Nonce auth) max_uint64) as [E|]; [|ulia]. rewrite E in Hw. by vm_compute in Hw. }
  rewrite (wrap64_id (_ + 1)) by ulia.
  assert (∃ u, (∀ b, GetBalance u b = GetBalance s b ∧ GetNonce u b = GetNonce s b ∧
      GetCode u b = GetCode s b) ∧
    (if Exist (AddAddressToAccessList s a) a
     then AddRefund (AddAddressToAccessList s a) (CallNewAccountGas - TxAuthTupleGas)
     else AddAddressToAccessList s a) = u) as (u & Hu & ->).
  { eexists. split; [|done]. intros b. destruct (Exist _ _); [|done].
    destruct (AddRefund_same (AddAddressToAccessList s a) (CallNewAccountGas - TxAuthTupleGas))
      as [-> -> ->]. done. }
  unfold delegation_of. destruct (auth_Address auth =? 0); exists a; split_and!;
    try done; try (intros b; destruct (Hu b) as (? & ? & ?)).
  all: try (apply andb_false_iff in Hc as [Hc|Hc]; rewrite negb_false_iff, Z.eqb_eq in Hc; tauto).
  all: try (apply andb_false_iff in Hcode as [Hc'|Hc']; rewrite negb_false_iff in Hc';
    [left; by apply len_zero_iff, Z.eqb_eq|right; by apply bool_decide_eq_true in Hc']).
  all: rewrite GetBalance_SetCode, GetBalance_SetNonce, GetNonce_SetCode, GetNonce_SetNonce,
    GetCode_SetCode, GetCode_SetNonce; split_and!; try done;
    repeat case_bool_decide; congruence.
Qed.

(** C39: an EIP-7702 authorization is all or nothing, and cannot be replayed: it is
    refused, and no balance, nonce or code changes, unless it is for this chain
    (or any), its signature recovers to an account with the nonce it names and
    without code of its own; accepted, it sets that account's code to the
    delegation and increments its nonce and changes nothing else, so that
    applying it once more is refused. *)
Theorem authorization_not_replayed auth s :
  is_uint64 (auth_Nonce auth) →
  let '(err, t) := applyAuthorization prefixedRlpHash Keccak256 Ecrecover env auth s in
  match err with
  | Some _ => same_accounts s t
  | None => ∃ a, auth_acceptable auth s a ∧
      (∀ b, GetBalance t b = GetBalance s b ∧
        GetNonce t b = (if bool_decide (a = b) then auth_Nonce auth + 1 else GetNonce s b) ∧
        GetCode t b = (if bool_decide (a = b) then delegation_of auth else GetCode s b)) ∧
      is_Some (applyAuthorization prefixedRlpHash Keccak256 Ecrecover env auth t).1
  end.
Proof.
  intros Hn. pose proof (applyAuthorization_ok auth s Hn) as Ha.
  destruct (Apply auth s) as [[e|] t]; [done|]. destruct Ha as (a & Hok & Hall).
  exists a. split_and!; [done..|].
  pose proof (applyAuthorization_ok auth t Hn) as Ht.
  destruct (Apply auth t) as [[e|] u]; [by eexists|]. destruct Ht as (a' & Hok' & _).
  destruct Hok as (_ & _ & Hr & _), Hok' as (_ & _ & Hr' & _ & Hno).
  assert (a' = a) as -> by congruence.
  destruct (Hall a) as (_ & Hna & _). rewrite bool_decide_eq_true_2 in Hna by done. lia.
Qed.

(** ** Before the message runs *)

Context {VE : Type}.
Context (evm_Create : Address → bytes → Z → Z → St → bytes * Z * option VE * St).
Context (evm_Call : Address → Address → bytes → Z → Z → St → bytes * Z * option VE * St).
Context (msg : Message).

Abbreviation buy := (buyGas env msg).
Abbreviation pre := (preCheck env msg).

(** The object after the gas is bought: [mgval] is what it costs. *)
Definition bought t (mgval : Z) : Transition St :=
  MkTransition (wrap64 (gp t - GasLimit msg)) (GasLimit msg) (GasLimit msg)
    (SubBalance (state t) (From msg) (FromBig mgval).1).

(** What [preCheck] has checked when it lets a message through. *)
Record checked t : Prop := {
  ck_nonce : SkipNonceChecks msg = false → GetNonce (state t) (From msg) = msg_Nonce msg;
  ck_sender : SkipFromEOACheck msg = false →
    GetCode (state t) (From msg) = [] ∨ is_Some (ParseDelegation (GetCode (state t) (From msg)));
  ck_fees cap : IsLondon (env_rules env) = true → msg_GasFeeCap msg = Some cap →
    (NoBaseFee env = true ∧ cap = 0 ∧ msg_GasTipCap msg = 0) ∨
    ∃ baseFee, BaseFee env = Some baseFee ∧ baseFee <= cap ∧ msg_GasTipCap msg <= cap ∧
      BitLen cap <= 256;
  ck_blobs hashes : msg_BlobHashes msg = Some hashes → hashes ≠ [] ∧ is_Some (msg_To msg);
  ck_blob_fee : IsCancun env = true → 0 < blobGasUsed msg → ∃ cap,
    msg_BlobGasFeeCap msg = Some cap ∧
    ((NoBaseFee env = true ∧ cap = 0) ∨ ∃ fee, BlobBaseFee env = Some fee ∧ fee <= cap);
  ck_auths auths : msg_SetCodeAuthorizations msg = Some auths → auths ≠ [] ∧ is_Some (msg_To msg);
  ck_funds bc mgval : gas_sums env msg = Some (bc, mgval) →
    BitLen bc <= 256 ∧ wrap256 bc <= GetBalance (state t) (From msg);
  ck_pool : GasLimit msg <= gp t
}.

Lemma BitLen_zero z : BitLen z = 0 → z = 0.
Proof.
  unfold BitLen. destruct (Z.eqb_spec z 0); [done|]. pose proof (Z.log2_nonneg (Z.abs z)). lia.
Qed.

(** A check: it changes nothing, and when it passes [Q] holds. *)
Abbreviation check m Q nopanic t :=
  (wp m (λ _ u, u = t ∧ Q) (λ _ u, u = t) (¬ nopanic) t).

Lemma check_seq {A} (m : Transition St → outcome St A) (k : Transition St → outcome St unit)
    (Q : Prop) (R : Transition St → Prop) (N : Prop) t :
  check m Q N t → (Q → wp k (λ _ u, R u) (λ _ u, u = t) (¬ N) t) →
  wp (bind m (λ _, k)) (λ _ u, R u) (λ _ u, u = t) (¬ N) t.
Proof.
  intros Hm Hk. apply tr_bind. eapply tr_mono; [exact Hm|..]; simpl; try done.
  intros _ u [-> HQ]. by apply Hk.
Qed.

Lemma check_nonce_spec t N :
  check (check_nonce msg)
    (SkipNonceChecks msg = false → GetNonce (state t) (From msg) = msg_Nonce msg) N t.
Proof.
  unfold check_nonce. destruct (SkipNonceChecks msg); [wp_step; done|].
  do 2 wp_step. split_ifs; try (wp_step; done).
  wp_step; split; intros; lia || done.
Qed.

Lemma check_sender_spec t N :
  check (check_sender msg)
    (SkipFromEOACheck msg = false →
      GetCode (state t) (From msg) = [] ∨
      is_Some (ParseDelegation (GetCode (state t) (From msg)))) N t.
Proof.
  unfold check_sender. destruct (SkipFromEOACheck msg); [wp_step; done|].
  do 2 wp_step. wp_step; [done|]. split; [done|]. intros _.
  apply andb_false_iff in Hcond as [Hc|Hc].
  - left. apply len_zero_iff. pose proof (len_nonneg (GetCode (state t) (From msg))).
    rewrite Z.gtb_ltb, Z.ltb_ge in Hc. lia.
  - right. by rewrite negb_false_iff, bool_decide_eq_true in Hc.
Qed.

(** What is needed for the fee checks not to panic. *)
Record fees_present : Prop := {
  fp_cap : is_Some (msg_GasFeeCap msg);
  fp_base : IsLondon (env_rules env) = true → is_Some (BaseFee env);
  fp_blob : IsCancun env = true → 0 < blobGasUsed msg →
    is_Some (msg_BlobGasFeeCap msg) ∧ is_Some (BlobBaseFee env)
}.

Lemma check_fees_spec t :
  check (check_fees env msg)
    (∀ cap, IsLondon (env_rules env) = true → msg_GasFeeCap msg = Some cap →
      (NoBaseFee env = true ∧ cap = 0 ∧ msg_GasTipCap msg = 0) ∨
      ∃ baseFee, BaseFee env = Some baseFee ∧ baseFee <= cap ∧ msg_GasTipCap msg <= cap ∧
        BitLen cap <= 256) fees_present t.
Proof.
  unfold check_fees. destruct (IsLondon (env_rules env)) eqn:HL; simpl; [|by wp_step].
  destruct (msg_GasFeeCap msg) as [cap|] eqn:Hcap.
  2: { wp_step. intros [Hc _ _]. rewrite Hcap in Hc. by destruct Hc. }
  destruct (NoBaseFee env && (BitLen cap =? 0) && _) eqn:Hskip.
  { apply andb_prop in Hskip as [[HN H1]%andb_prop H2]. wp_step. split; [done|].
    intros c _ [= <-]. left. split_and!; [done|by apply BitLen_zero, Z.eqb_eq..]. }
  do 2 (wp_step; wp_step; [done|]). wp_step; wp_step; [done|].
  destruct (BaseFee env) as [bf|] eqn:HB.
  2: { wp_step. intros [_ Hb _]. rewrite HB in Hb. by destruct (Hb HL). }
  wp_step; [done|]. split; [done|]. intros c _ [= <-]. right. exists bf.
  rewrite Cmp_ltb, Z.ltb_ge in Hcond1, Hcond2. rewrite Z.gtb_ltb, Z.ltb_ge in Hcond. done.
Qed.

Lemma check_blobs_spec t N :
  check (check_blobs msg)
    (∀ hashes, msg_BlobHashes msg = Some hashes → hashes ≠ [] ∧ is_Some (msg_To msg)) N t.
Proof.
  unfold check_blobs. destruct (msg_BlobHashes msg) as [hs|]; [|by wp_step].
  wp_step; wp_step; [done|]. wp_step; wp_step; [done|]. wp_step; [done|].
  split; [done|]. intros h [= <-].
  rewrite negb_false_iff, bool_decide_eq_true in Hcond. split; [|done].
  intros ->. by rewrite Z.eqb_neq in Hcond0.
Qed.

Lemma check_blob_fee_spec t :
  check (check_blob_fee env msg)
    (IsCancun env = true → 0 < blobGasUsed msg → ∃ cap,
      msg_BlobGasFeeCap msg = Some cap ∧
      ((NoBaseFee env = true ∧ cap = 0) ∨ ∃ fee, BlobBaseFee env = Some fee ∧ fee <= cap))
    fees_present t.
Proof.
  unfold check_blob_fee. destruct (IsCancun env) eqn:HC; simpl; [|by wp_step].
  rewrite Z.gtb_ltb. destruct (Z.ltb_spec 0 (blobGasUsed msg)) as [Hpos|]; [|wp_step; split; [done|lia]].
  destruct (msg_BlobGasFeeCap msg) as [cap|] eqn:Hcap.
  2: { wp_step. intros [_ _ Hb]. destruct (Hb HC Hpos) as [Hc _]. rewrite Hcap in Hc. by destruct Hc. }
  destruct (NoBaseFee env && (BitLen cap =? 0)) eqn:Hskip.
  { apply andb_prop in Hskip as [HN H1]. wp_step. split; [done|]. intros _ _. exists cap.
    split; [done|]. left. split; [done|]. by apply BitLen_zero, Z.eqb_eq. }
  destruct (BlobBaseFee env) as [fee|] eqn:HB.
  2: { wp_step. intros [_ _ Hb]. destruct (Hb HC Hpos) as [_ Hc]. rewrite HB in Hc. by destruct Hc. }
  wp_step; [done|]. split; [done|]. intros _ _. exists cap. split; [done|]. right. exists fee.
  rewrite Cmp_ltb, Z.ltb_ge in Hcond. done.
Qed.

Lemma check_auths_spec t N :
  check (check_auths msg)
    (∀ auths, msg_SetCodeAuthorizations msg = Some auths → auths ≠ [] ∧ is_Some (msg_To msg)) N t.
Proof.
  unfold check_auths. destruct (msg_SetCodeAuthorizations msg) as [hs|]; [|by wp_step].
  wp_step; wp_step; [done|]. wp_step; [done|].
  split; [done|]. intros h [= <-].
  rewrite negb_false_iff, bool_decide_eq_true in Hcond. split; [|done].
  intros ->. by rewrite Z.eqb_neq in Hcond0.
Qed.

Lemma FromBig_fits z : 0 <= z → (FromBig z).2 = false → is_uint256 z ∧ (FromBig z).1 = z.
Proof.
  unfold FromBig. simpl. rewrite Z.gtb_ltb, Z.ltb_ge. intros Hz Hb%BitLen_le; try lia.
  assert (is_uint256 z) by (unfold is_uint256; by change two256 with (2 ^ 256)).
  split; [done|by apply wrap256_id].
Qed.

Lemma gas_sums_present : fees_present → is_Some (gas_sums env msg).
Proof.
  intros [_ _ Hb]. unfold gas_sums. destruct (IsCancun env) eqn:HC; simpl; [|by eexists].
  rewrite Z.gtb_ltb. destruct (Z.ltb_spec 0 (blobGasUsed msg)); [|by eexists].
  destruct Hb as [[c ->] [f ->]]; [done|done|by eexists].
Qed.

Lemma buyGas_spec t :
  wp buy (λ _ u, ∃ bc mgval, gas_sums env msg = Some (bc, mgval) ∧ BitLen bc <= 256 ∧
      wrap256 bc <= GetBalance (state t) (From msg) ∧ GasLimit msg <= gp t ∧ u = bought t mgval)
    (λ _ u, u = t) (¬ fees_present) t.
Proof.
  unfold buyGas. destruct (gas_sums env msg) as [[bc mg]|] eqn:Hs.
  2: { wp_step. intros [x Hx]%gas_sums_present. congruence. }
  cbn [FromBig]. wp_step; wp_step; [done|]. do 2 wp_step. wp_step; wp_step; [done|].
  wp_step; wp_step; [|done]. unfold SubGas in Htry.
  destruct (Z.ltb_spec (gp t) (GasLimit msg)); [done|]. simplify_eq.
  do 3 (wp_step; wp_step). wp_step. exists bc, mg.
  rewrite Cmp_ltb, Z.ltb_ge in Hcond0. rewrite Z.gtb_ltb, Z.ltb_ge in Hcond. done.
Qed.

Lemma preCheck_spec t :
  wp pre (λ _ u, checked t ∧ ∃ bc mgval, gas_sums env msg = Some (bc, mgval) ∧ u = bought t mgval)
    (λ _ u, u = t) (¬ fees_present) t.
Proof.
  unfold preCheck.
  eapply check_seq; [apply check_nonce_spec|intros Hn].
  eapply check_seq; [apply check_sender_spec|intros Hs].
  eapply check_seq; [apply check_fees_spec|intros Hf].
  eapply check_seq; [apply check_blobs_spec|intros Hb].
  eapply check_seq; [apply check_blob_fee_spec|intros Hbf].
  eapply check_seq; [apply check_auths_spec|intros Ha].
  eapply tr_mono; [apply buyGas_spec|..]; try done. simpl.
  intros _ u (bc & mg & Hsum & Hbits & Hfunds & Hpool & ->). split; [|by exists bc, mg].
  split; try done. intros bc' mg' Heq. by simplify_eq.
Qed.

(** A message that a transaction becomes, in this block: nothing is negative, and
    the price of the gas is at most the fee cap. *)
Record msg_ok : Prop := {
  mo_limit : is_uint64 (GasLimit msg);
  mo_value : 0 <= msg_Value msg;
  mo_price : 0 <= msg_GasPrice msg;
  mo_cap : ∃ cap, msg_GasFeeCap msg = Some cap ∧ msg_GasPrice msg <= cap;
  mo_tip : 0 <= msg_GasTipCap msg;
  mo_auths : Forall (λ auth, is_uint64 (auth_Nonce auth))
    (default [] (msg_SetCodeAuthorizations msg));
  mo_blob_cap : ∀ cap, msg_BlobGasFeeCap msg = Some cap → 0 <= cap;
  mo_blob_fee : ∀ fee, BlobBaseFee env = Some fee → 0 <= fee
}.

Lemma gas_sums_le t bc mgval :
  msg_ok → checked t → NoBaseFee env = false → gas_sums env msg = Some (bc, mgval) →
  0 <= mgval /\ mgval + msg_Value msg <= bc.
Proof.
  intros [[Hl _] Hv Hp (cap & Hcap & Hle) _ _ Hbc Hbf] Hck HN. unfold gas_sums. rewrite Hcap.
  assert (0 <= GasLimit msg * msg_GasPrice msg) by by apply Z.mul_nonneg_nonneg.
  assert (GasLimit msg * msg_GasPrice msg <= GasLimit msg * cap) by by apply Z.mul_le_mono_nonneg_l.
  destruct (IsCancun env) eqn:HC; simpl; [|intros; simplify_eq; lia].
  rewrite Z.gtb_ltb. destruct (Z.ltb_spec 0 (blobGasUsed msg)) as [Hpos|]; [|intros; simplify_eq; lia].
  destruct (ck_blob_fee _ Hck HC Hpos) as (bcap & Hb & [[? _]|(fee & Hfee & Hle')]); [congruence|].
  rewrite Hb, Hfee. intros; simplify_eq. specialize (Hbf _ Hfee).
  assert (0 <= blobGasUsed msg * fee) by (apply Z.mul_nonneg_nonneg; lia).
  assert (blobGasUsed msg * fee <= blobGasUsed msg * bcap) by (apply Z.mul_le_mono_nonneg_l; lia).
  lia.
Qed.

(** C36: the checks before a message runs either refuse it and leave the pool and
    the state as they were, or take exactly the cost of its gas (and of its
    blobs) from the sender's balance and its gas limit from the pool: neither
    goes below zero, and what the sender keeps covers the value it transfers;
    the message then has the account's next nonce, its sender is no contract
    (unless the caller asked not to check these), and its fee cap covers the
    base fee. *)
Theorem preCheck_never_overdraws t :
  msg_ok → fees_present → NoBaseFee env = false → is_uint64 (gp t) →
  is_uint256 (GetBalance (state t) (From msg)) →
  match preCheck env msg t with
  | Panic => False
  | Fail _ u => u = t
  | Done _ u => ∃ bc mgval, gas_sums env msg = Some (bc, mgval) ∧ 0 <= mgval ∧
      gp u = gp t - GasLimit msg ∧ 0 <= gp u ∧
      gasRemaining u = GasLimit msg ∧ initialGas u = GasLimit msg ∧
      GetBalance (state u) (From msg) = GetBalance (state t) (From msg) - mgval ∧
      msg_Value msg <= GetBalance (state u) (From msg) ∧
      (∀ a, a ≠ From msg → GetBalance (state u) a = GetBalance (state t) a) ∧
      (SkipNonceChecks msg = false → GetNonce (state u) (From msg) = msg_Nonce msg) ∧
      (SkipFromEOACheck msg = false → GetCode (state t) (From msg) = [] ∨
        is_Some (ParseDelegation (GetCode (state t) (From msg)))) ∧
      (IsLondon (env_rules env) = true → ∃ cap baseFee, msg_GasFeeCap msg = Some cap ∧
        BaseFee env = Some baseFee ∧ baseFee <= cap)
  end.
Proof.
  intros Hok Hfees HN Hgp Hbal. pose proof (preCheck_spec t) as Hp. unfold wp in Hp.
  destruct (pre t) as [_ u|e u|]; [|done|done].
  destruct Hp as (Hck & bc & mg & Hsum & ->).
  destruct (gas_sums_le t bc mg Hok Hck HN Hsum) as [Hmg Hle].
  pose proof (mo_value Hok) as Hv. pose proof (mo_limit Hok) as Hl.
  destruct (ck_funds _ Hck _ _ Hsum) as [Hbits Hfunds].
  assert (is_uint256 bc ∧ (FromBig bc).1 = bc) as [Hbc _].
  { apply FromBig_fits; [lia|]. unfold FromBig. simpl. rewrite Z.gtb_ltb. by apply Z.ltb_ge. }
  rewrite wrap256_id in Hfunds by done.
  assert (wrap256 mg = mg) as Hmgw by (apply wrap256_id; unfold is_uint256 in *; lia).
  pose proof (ck_pool _ Hck) as Hpool. exists bc, mg. unfold bought. cbn [FromBig fst gp state
    gasRemaining initialGas]. rewrite Hmgw.
  assert (GetBalance (SubBalance (state t) (From msg) mg) (From msg)
    = GetBalance (state t) (From msg) - mg) as Hb.
  { rewrite GetBalance_Sub, bool_decide_eq_true_2 by done. apply wrap256_id.
    unfold is_uint256 in *. lia. }
  rewrite Hb, wrap64_id by (unfold is_uint64 in *; lia).
  split_and!; try done; try (unfold is_uint64 in *; lia).
  - intros a Ha. rewrite GetBalance_Sub, bool_decide_eq_false_2 by done. done.
  - intros Hs. rewrite GetNonce_Sub. by apply (ck_nonce _ Hck).
  - apply (ck_sender _ Hck).
  - intros HL. destruct (mo_cap Hok) as (cap & Hcap & _).
    destruct (ck_fees _ Hck _ HL Hcap) as [[? _]|(bf & ? & ? & _)]; [congruence|].
    by exists cap, bf.
Qed.

(** ** The run *)

Abbreviation creation := (negb (bool_decide (is_Some (msg_To msg)))).
Abbreviation intrinsic :=
  (IntrinsicGas (msg_Data msg) (msg_AccessList msg) (default [] (msg_SetCodeAuthorizations msg))
    creation (IsHomestead (env_rules env)) (IsIstanbul (env_rules env))
    (IsShanghai (env_rules env))).
Abbreviation before := (before_call prefixedRlpHash Keccak256 Ecrecover env msg).

(** The floor of EIP-7623: none before Prague. *)
Definition floor_ok (floor : Z) : Prop :=
  if IsPrague (env_rules env) then FloorDataGas (msg_Data msg) = Ok floor ∧ floor <= GasLimit msg
  else floor = 0.

Definition with_gas t (gas : Z) : Transition St := MkTransition (gp t) gas (initialGas t) (state t).
Definition with_state t (s : St) : Transition St :=
  MkTransition (gp t) (gasRemaining t) (initialGas t) s.

Lemma charge_intrinsic_spec t :
  is_uint64 (gasRemaining t) →
  wp (charge_intrinsic env msg) (λ floor u, floor_ok floor ∧ 0 <= floor ∧ ∃ gas,
    intrinsic = Ok gas ∧ 0 <= gas <= gasRemaining t ∧ u = with_gas t (gasRemaining t - gas))
    (λ _ u, u = t) False t.
Proof.
  intros Hg. unfold charge_intrinsic, floor_ok. wp_step; wp_step; [|done].
  pose proof (IntrinsicGas_range _ _ _ _ _ _ _ _ Htry) as Hx.
  do 2 wp_step. wp_step; wp_step; [done|]. apply Z.ltb_ge in Hcond.
  assert (wrap64 (gasRemaining t - x) = gasRemaining t - x) as Hw
    by (apply wrap64_id; unfold is_uint64 in *; lia).
  wp_step. destruct (IsPrague (env_rules env)).
  - wp_step; wp_step; [|done]. pose proof (FloorDataGas_range _ _ Htry0).
    wp_step; wp_step; [done|]. apply Z.ltb_ge in Hcond0. wp_step. wp_step. wp_step. wp_step.
    rewrite Hw. split_and!; try done; [unfold is_uint64 in *; lia|].
    exists x. split_and!; try done. unfold is_uint64 in *; lia.
  - wp_step. wp_step. wp_step. wp_step. rewrite Hw. split_and!; try done.
    exists x. split_and!; try done. unfold is_uint64 in *; lia.
Qed.

Lemma check_transfer_spec t :
  wp (check_transfer env msg) (λ value u, value = wrap256 (msg_Value msg) ∧ ∃ s,
    same_accounts (state t) s ∧ u = with_state t s)
    (λ _ u, u = t) (IsEIP2929 (env_rules env) && IsEIP4762 (env_rules env) = true) t.
Proof.
  unfold check_transfer. cbn [FromBig]. wp_step; wp_step; [done|]. do 2 wp_step.
  wp_step; wp_step; [done|]. wp_step; wp_step; [done|].
  destruct (Prepare _ _ _ _ _ _ _) as [s|] eqn:Hp.
  - wp_step. wp_step. wp_step. split; [done|]. exists s. split; [|done]. by eapply Prepare_same.
  - wp_step. destruct (IsEIP2929 (env_rules env) && IsEIP4762 (env_rules env)) eqn:He; [done|].
    destruct (Prepare_total (state t) (env_rules env) (From msg) (Coinbase env) (msg_To msg)
      (ActivePrecompiles env) (msg_AccessList msg) He). congruence.
Qed.

(** Nothing that precedes the call moves funds. *)
Lemma applyAuthorizations_balance auths s a :
  Forall (λ auth, is_uint64 (auth_Nonce auth)) auths →
  GetBalance (applyAuthorizations prefixedRlpHash Keccak256 Ecrecover env auths s) a
  = GetBalance s a.
Proof.
  intros Hf. unfold applyAuthorizations. revert s. induction Hf as [|auth l Hn _ IH]; intros s; simpl; [done|].
  rewrite IH. pose proof (applyAuthorization_ok auth s Hn) as Ha.
  destruct (Apply auth s) as [[e|] t]; simpl; [apply Ha|]. destruct Ha as (x & _ & Hb). apply Hb.
Qed.

Lemma before_call_balance s dst a :
  Forall (λ auth, is_uint64 (auth_Nonce auth)) (default [] (msg_SetCodeAuthorizations msg)) →
  GetBalance (before s dst) a = GetBalance s a.
Proof.
  intros Hf. unfold before_call. set (s1 := SetNonce _ _ _).
  set (s2 := match msg_SetCodeAuthorizations msg with Some _ => _ | None => _ end).
  assert (GetBalance s2 a = GetBalance s a) as Hb.
  { unfold s2, s1. destruct (msg_SetCodeAuthorizations msg); simpl in *;
      rewrite ?applyAuthorizations_balance by done; apply GetBalance_SetNonce. }
  destruct (ParseDelegation _) as [d|]; [|done]. by rewrite (same_balance _ _ (AddAddress_same s2 d)).
Qed.

(** What the virtual machine is given and gives back. *)
Definition evm_run (gas value : Z) (s : St) : bytes * Z * option VE * St :=
  match msg_To msg with
  | None => evm_Create (From msg) (msg_Data msg) gas value s
  | Some dst => evm_Call (From msg) dst (msg_Data msg) gas value (before s dst)
  end.

(** The virtual machine does not return more gas than it is given. *)
Definition evm_gas_ok : Prop :=
  (∀ from code gas value s, is_uint64 gas → 0 <= (evm_Create from code gas value s).1.1.2 <= gas) ∧
  (∀ from dst input gas value s, is_uint64 gas →
    0 <= (evm_Call from dst input gas value s).1.1.2 <= gas).

Lemma run_evm_spec value t :
  run_evm prefixedRlpHash Keccak256 Ecrecover evm_Create evm_Call env msg value t
  = let '(ret_, gas, vmerr, s) := evm_run (gasRemaining t) value (state t) in
    Done (ret_, vmerr) (MkTransition (gp t) gas (initialGas t) s).
Proof.
  unfold run_evm, evm_run, bind, get, to. destruct (msg_To msg); simpl;
    by destruct (_ : _ * _ * _ * _) as [[[??]?]?].
Qed.

Lemma evm_run_gas gas value s :
  evm_gas_ok → is_uint64 gas → 0 <= (evm_run gas value s).1.1.2 <= gas.
Proof. intros [Hc Hl] Hg. unfold evm_run. destruct (msg_To msg); eauto. Qed.

(** ** After the run *)

Lemma calcRefund_spec t :
  is_uint64 (gasUsed t) →
  0 <= calcRefund env t ∧
  (if IsLondon (env_rules env) then 5 else 2) * calcRefund env t <= gasUsed t.
Proof.
  intros Hg. unfold calcRefund, RefundQuotient, RefundQuotientEIP3529.
  pose proof (GetRefund_range (state t)). unfold is_uint64 in *.
  pose proof (Z.mul_div_le (gasUsed t) 2). pose proof (Z.mul_div_le (gasUsed t) 5).
  pose proof (Z.div_pos (gasUsed t) 2). pose proof (Z.div_pos (gasUsed t) 5).
  destruct (IsLondon (env_rules env)); simpl; split_ifs; lia.
Qed.

Lemma settle_gas_spec floor t :
  is_uint64 (initialGas t) → 0 <= gasRemaining t <= initialGas t → 0 <= floor <= initialGas t →
  floor_ok floor →
  wp (settle_gas env floor) (λ refund u, ∃ rem, u = with_gas t rem ∧ 0 <= refund ∧
      (if IsLondon (env_rules env) then 5 else 2) * refund <= initialGas t - gasRemaining t ∧
      0 <= rem <= initialGas t ∧ floor <= initialGas t - rem ∧
      initialGas t - gasRemaining t - refund <= initialGas t - rem)
    (λ _ _, False) False t.
Proof.
  intros Hi Hg Hf Hfloor. unfold settle_gas. do 2 wp_step.
  assert (gasUsed t = initialGas t - gasRemaining t) as Hused
    by (apply wrap64_id; unfold is_uint64 in *; lia).
  destruct (calcRefund_spec t) as [Hr0 Hr]; [rewrite Hused; unfold is_uint64 in *; lia|].
  rewrite Hused in Hr. set (r := calcRefund env t) in *. clearbody r.
  assert (gasRemaining t + r <= initialGas t) as Hle by (destruct (IsLondon (env_rules env)); lia).
  assert (wrap64 (gasRemaining t + r) = gasRemaining t + r) as ->
    by (apply wrap64_id; unfold is_uint64 in *; lia).
  do 5 wp_step. unfold gasUsed. cbn [initialGas gasRemaining].
  assert (wrap64 (initialGas t - (gasRemaining t + r)) = initialGas t - (gasRemaining t + r)) as ->
    by (apply wrap64_id; unfold is_uint64 in *; lia).
  unfold floor_ok in Hfloor. destruct (IsPrague (env_rules env)); simpl.
  - destruct (Z.ltb_spec (initialGas t - (gasRemaining t + r)) floor).
    + assert (wrap64 (initialGas t - floor) = initialGas t - floor) as ->
        by (apply wrap64_id; unfold is_uint64 in *; lia).
      do 2 wp_step. exists (initialGas t - floor). split_and!; try done; lia.
    + do 2 wp_step. exists (gasRemaining t + r). split_and!; try done; lia.
  - do 2 wp_step. exists (gasRemaining t + r). split_and!; try done; lia.
Qed.

Lemma returnGas_spec t :
  0 <= msg_GasPrice msg < two256 → is_uint64 (gp t) → is_uint64 (gasRemaining t) →
  gp t + gasRemaining t < two64 →
  wp (returnGas msg) (λ _ u, u = MkTransition (gp t + gasRemaining t) (gasRemaining t) (initialGas t)
      (AddBalance (state t) (From msg) (wrap256 (gasRemaining t * msg_GasPrice msg))))
    (λ _ _, False) False t.
Proof.
  intros Hp Hg Hr Hsum. unfold returnGas. do 2 wp_step. unfold FromBig.
  assert ((BitLen (msg_GasPrice msg) >? 256) = false) as ->.
  { rewrite Z.gtb_ltb, Z.ltb_ge. apply BitLen_le; [lia..|]. change (2 ^ 256) with two256. lia. }
  rewrite (wrap256_id (msg_GasPrice msg)) by (unfold is_uint256; lia). do 2 wp_step.
  rewrite AddGas_fits by done. by wp_step.
Qed.

Lemma pay_coinbase_spec t :
  NoBaseFee env = false → is_Some (effective_tip env msg) →
  wp (pay_coinbase env msg) (λ _ u, ∃ tip, effective_tip env msg = Some tip ∧
      u = with_state t (AddBalance (state t) (Coinbase env)
        (wrap256 (gasUsed t * wrap256 tip))))
    (λ _ _, False) False t.
Proof.
  intros HN [tip Ht]. unfold pay_coinbase. rewrite Ht, HN. do 2 wp_step. wp_step. by exists tip.
Qed.

Lemma gasUsed_mk pool rem limit (s : St) :
  is_uint64 limit → 0 <= rem <= limit → gasUsed (MkTransition pool rem limit s) = limit - rem.
Proof. intros. apply wrap64_id. cbn. unfold is_uint64 in *. lia. Qed.

(** ** The whole transition *)

(** What a message that was applied has done: [u] is the object at the end,
    reached from [t]. *)
Record applied t (r : ExecutionResult VE) (u : Transition St) : Prop := {
  ap_checked : checked t;
  ap_used : 0 <= UsedGas r <= GasLimit msg;
  ap_pool : gp u = gp t - UsedGas r;
  ap_refund : 0 <= RefundedGas r ∧
    (if IsLondon (env_rules env) then 4 else 1) * RefundedGas r <= UsedGas r;
  ap_intrinsic : ∃ gas, intrinsic = Ok gas ∧
    (if IsLondon (env_rules env) then 4 else 1) * gas
      <= (if IsLondon (env_rules env) then 5 else 2) * UsedGas r;
  ap_floor : ∃ floor, floor_ok floor ∧ floor <= UsedGas r;
  ap_state : ∃ bc mgval tip s1 gas s2, gas_sums env msg = Some (bc, mgval) ∧
    effective_tip env msg = Some tip ∧
    same_accounts (SubBalance (state t) (From msg) (wrap256 mgval)) s1 ∧
    (evm_run gas (wrap256 (msg_Value msg)) s1).2 = s2 ∧
    state u = AddBalance
      (AddBalance s2 (From msg) (wrap256 ((GasLimit msg - UsedGas r) * msg_GasPrice msg)))
      (Coinbase env) (wrap256 (UsedGas r * wrap256 tip))
}.

(** A price of the gas of 256 bits. *)
Lemma price_bits t :
  msg_ok → checked t → NoBaseFee env = false → IsLondon (env_rules env) = true →
  0 <= msg_GasPrice msg < two256 ∧ is_Some (effective_tip env msg).
Proof.
  intros Hok Hck HN HL. pose proof (mo_price Hok). destruct (mo_cap Hok) as (cap & Hcap & Hle).
  destruct (ck_fees _ Hck cap HL Hcap) as [[? _]|(bf & Hbf & Hlebf & _ & Hbits)]; [congruence|].
  apply BitLen_le in Hbits; [|lia..]. change (2 ^ 256) with two256 in Hbits.
  split; [lia|]. unfold effective_tip. rewrite HL, Hcap, Hbf. by eexists.
Qed.

Abbreviation exec :=
  (execute prefixedRlpHash Keccak256 Ecrecover evm_Create evm_Call env msg).

Lemma execute_spec t :
  msg_ok → NoBaseFee env = false → IsLondon (env_rules env) = true → evm_gas_ok →
  is_uint64 (gp t) →
  wp exec (λ r u, applied t r u) (λ _ u, u = t ∨ ∃ bc mgval gas,
      gas_sums env msg = Some (bc, mgval) ∧ u = with_gas (bought t mgval) gas)
    (¬ fees_present ∨ IsEIP2929 (env_rules env) && IsEIP4762 (env_rules env) = true) t.
Proof.
  intros Hok HN HL Hevm Hgp. pose proof (mo_limit Hok) as Hlim.
  unfold execute. apply tr_bind. eapply tr_mono; [apply preCheck_spec|..]; simpl; [|tauto..].
  intros _ u (Hck & bc & mg & Hsum & ->).
  destruct (price_bits t Hok Hck HN HL) as [Hprice Htip].
  pose proof (ck_pool _ Hck) as Hpool.
  apply tr_bind. eapply tr_mono; [by apply charge_intrinsic_spec|..]; simpl;
    [|intros _ u ->; right; by exists bc, mg, (GasLimit msg)|tauto].
  intros floor u (Hfloor & Hf0 & gas & Hgas & Hrange & ->).
  apply tr_bind. eapply tr_mono; [apply check_transfer_spec|..]; simpl;
    [|intros _ u ->; right; by exists bc, mg, (GasLimit msg - gas)|tauto].
  intros value u (-> & s1 & Hs1 & ->).
  apply tr_bind. unfold wp at 1. rewrite run_evm_spec.
  cbn [with_gas with_state bought gp gasRemaining initialGas state] in *.
  pose proof (evm_run_gas (GasLimit msg - gas) (wrap256 (msg_Value msg)) s1 Hevm
    ltac:(unfold is_uint64 in *; lia)) as Hleft.
  destruct (evm_run _ _ _) as [[[ret_ left] vmerr] s2] eqn:He. cbn [fst snd] in Hleft.
  assert (floor <= GasLimit msg) as Hfl
    by (unfold floor_ok in Hfloor; destruct (IsPrague (env_rules env)); lia).
  apply tr_bind. eapply tr_mono; [apply (settle_gas_spec floor)|..]; cbn [initialGas gasRemaining];
    try done; try lia.
  intros refund u (rem & -> & Hr0 & Hr & Hrem & Hfu & Hru).
  cbn [with_gas gp gasRemaining initialGas state] in *.
  assert (wrap64 (gp t - GasLimit msg) = gp t - GasLimit msg) as Hw
    by (apply wrap64_id; unfold is_uint64 in *; lia).
  apply tr_bind. eapply tr_mono; [apply returnGas_spec; cbn [with_gas gp gasRemaining]; rewrite ?Hw;
    try done; unfold is_uint64 in *; lia|..]; [|done..].
  intros _ u ->. cbn [with_gas gp gasRemaining initialGas state] in *. rewrite ?Hw.
  apply tr_bind. eapply tr_mono; [by apply pay_coinbase_spec|..]; try done.
  intros _ u (tip & Htip' & ->). cbn [with_state gp gasRemaining initialGas state].
  do 2 wp_step. wp_step.
  unfold with_state. cbn [gp gasRemaining initialGas state].
  rewrite !gasUsed_mk by done. rewrite HL in *.
  split; cbn [UsedGas RefundedGas gp state]; rewrite ?HL; cbn iota; try done; try lia.
  - exists gas. split; [done|lia].
  - exists floor. split; [done|lia].
  - exists bc, mg, tip, s1, (GasLimit msg - gas), s2. split_and!; try done; [by rewrite He|].
    by replace (GasLimit msg - (GasLimit msg - rem)) with rem by lia.
Qed.

Abbreviation Apply_msg :=
  (ApplyMessage prefixedRlpHash Keccak256 Ecrecover evm_Create evm_Call env msg).

(** What the theorems about whole messages assume: a message that a transaction
    becomes, the rules since London, with the fees switched on, and a virtual
    machine that returns no more gas than it was given. *)
Record run_ok (pool : Z) : Prop := {
  rn_msg : msg_ok;
  rn_fees : NoBaseFee env = false;
  rn_london : IsLondon (env_rules env) = true;
  rn_evm : evm_gas_ok;
  rn_pool : is_uint64 pool
}.

Lemma ApplyMessage_spec pool s :
  run_ok pool →
  wp (λ _, Apply_msg pool s) (λ r u, applied (newStateTransition pool s) r u)
    (λ _ u, u = newStateTransition pool s ∨ ∃ bc mgval gas,
      gas_sums env msg = Some (bc, mgval) ∧
      u = with_gas (bought (newStateTransition pool s) mgval) gas)
    (¬ fees_present ∨ IsEIP2929 (env_rules env) && IsEIP4762 (env_rules env) = true)
    (newStateTransition pool s).
Proof. intros []. by apply (execute_spec (newStateTransition pool s)). Qed.

(** C24: the gas of an applied message adds up: what it used is at most its limit,
    what it did not use is back in the pool, the refund is at most a fifth of
    the gas spent (a quarter of what is charged in the end), and the charge is
    at least four fifths of the intrinsic cost and, under the Prague rules, at
    least the floor cost of the data. *)
Theorem applied_gas pool s r u :
  run_ok pool → ApplyMessage prefixedRlpHash Keccak256 Ecrecover evm_Create evm_Call env msg pool
      s = Done r u →
  0 <= UsedGas r <= GasLimit msg ∧ gp u = pool - UsedGas r ∧ 0 <= gp u ∧
  0 <= RefundedGas r ∧ 4 * RefundedGas r <= UsedGas r ∧
  (∃ gas, intrinsic = Ok gas ∧ 4 * gas <= 5 * UsedGas r) ∧
  (IsPrague (env_rules env) = true →
    ∃ floor, FloorDataGas (msg_Data msg) = Ok floor ∧ floor <= UsedGas r).
Proof.
  intros Hrun Hdone. pose proof (ApplyMessage_spec pool s Hrun) as Hs.
  unfold wp in Hs. rewrite Hdone in Hs. destruct Hs as [Hck Hu Hp Hr Hi Hf _].
  rewrite (rn_london _ Hrun) in *. pose proof (ck_pool _ Hck) as Hle.
  cbn [newStateTransition gp] in *. split_and!; try tauto; try lia.
  intros HP. destruct Hf as (floor & Hfl & Hle'). unfold floor_ok in Hfl. rewrite HP in Hfl.
  exists floor. tauto.
Qed.

(** Applying a message never panics, in a block that has the fees the rules
    ask for: it is applied, or refused with an error. A refusal by the checks
    has changed nothing; a later one (the intrinsic cost, the floor, the
    value, the size of the init code) has already bought the gas, so that the
    caller has to undo it. *)
Theorem applying_never_panics pool s :
  run_ok pool → fees_present → IsEIP2929 (env_rules env) && IsEIP4762 (env_rules env) = false →
  match ApplyMessage prefixedRlpHash Keccak256 Ecrecover evm_Create evm_Call env msg pool s with
  | Panic => False
  | Fail _ u => (gp u = pool ∧ state u = s) ∨
      (gp u = wrap64 (pool - GasLimit msg) ∧ ∃ bc mgval,
        gas_sums env msg = Some (bc, mgval) ∧
        state u = SubBalance s (From msg) (wrap256 mgval))
  | Done r u => checked (newStateTransition pool s)
  end.
Proof.
  intros Hrun Hfees Hrules. pose proof (ApplyMessage_spec pool s Hrun) as Hs.
  unfold wp in Hs. destruct (Apply_msg pool s) as [r u|e u|]; [apply Hs| |].
  - destruct Hs as [->|(bc & mg & gas & Hsum & ->)]; [by left|right]. simpl. eauto.
  - destruct Hs as [?|?]; [done|congruence].
Qed.

(** The tip is what the price leaves above the base fee. *)
Lemma effective_tip_price baseFee cap :
  IsLondon (env_rules env) = true → BaseFee env = Some baseFee → msg_GasFeeCap msg = Some cap →
  msg_GasPrice msg = Z.min (msg_GasTipCap msg + baseFee) cap →
  effective_tip env msg = Some (msg_GasPrice msg - baseFee).
Proof.
  intros HL HB Hcap Hprice. unfold effective_tip. rewrite HL, Hcap, HB, Z.gtb_ltb, Cmp_gtb, Hprice.
  destruct (Z.ltb_spec (msg_GasTipCap msg) (cap - baseFee)); f_equal; lia.
Qed.

(** The purchase is the price of the whole limit, and the blob fee. *)
Lemma gas_sums_price bc mgval :
  msg_ok → gas_sums env msg = Some (bc, mgval) →
  let blob := if IsCancun env && (blobGasUsed msg >? 0)
              then blobGasUsed msg * default 0 (BlobBaseFee env) else 0 in
  mgval = GasLimit msg * msg_GasPrice msg + blob ∧ 0 <= blob.
Proof.
  intros Hok Hsum. destruct (mo_cap Hok) as (cap & Hcap & _).
  unfold gas_sums in Hsum. rewrite Hcap in Hsum.
  destruct (IsCancun env && (blobGasUsed msg >? 0)) eqn:HC; [|simplify_eq; lia].
  apply andb_prop in HC as [_ HC]. rewrite Z.gtb_ltb, Z.ltb_lt in HC.
  destruct (msg_BlobGasFeeCap msg), (BlobBaseFee env) as [fee|] eqn:Hfee; simplify_eq.
  pose proof (mo_blob_fee Hok _ Hfee). simpl. split; [lia|apply Z.mul_nonneg_nonneg; lia].
Qed.

(** C31: where the fees go: the sender pays the price of the gas that was used and
    the blob fee, the coinbase receives the tip on that gas, and the
    difference, the base fee, goes to nobody: the sender's purchase is the sum
    of what it gets back, what the coinbase gets and what is burnt, and no
    product overflows. [s1] is the state that the run starts from, with the
    balances that the purchase has left ([evm_run] is the call with the steps
    right before it, which move no funds), and [s2] the one it ends in. *)
Theorem applied_fees pool s r u baseFee cap :
  run_ok pool → is_uint256 (GetBalance s (From msg)) →
  BaseFee env = Some baseFee → 0 <= baseFee → msg_GasFeeCap msg = Some cap →
  msg_GasPrice msg = Z.min (msg_GasTipCap msg + baseFee) cap →
  ApplyMessage prefixedRlpHash Keccak256 Ecrecover evm_Create evm_Call env msg pool s = Done r u →
  let used := UsedGas r in
  let back := (GasLimit msg - used) * msg_GasPrice msg in
  let tip := used * (msg_GasPrice msg - baseFee) in
  ∃ paid s1 gas, same_accounts (SubBalance s (From msg) paid) s1 ∧
    paid <= GetBalance s (From msg) ∧
    paid - (if IsCancun env && (blobGasUsed msg >? 0)
            then blobGasUsed msg * default 0 (BlobBaseFee env) else 0)
      = back + tip + used * baseFee ∧
    0 <= back ∧ 0 <= tip ∧
    let s2 := (evm_run gas (wrap256 (msg_Value msg)) s1).2 in
    ∀ a, GetBalance (state u) a
      = let b := if bool_decide (From msg = a) then wrap256 (GetBalance s2 a + back)
                 else GetBalance s2 a in
        if bool_decide (Coinbase env = a) then wrap256 (b + tip) else b.
Proof.
  intros Hrun Hbal HB Hb0 Hcap Hprice Hdone used back tip.
  pose proof (ApplyMessage_spec pool s Hrun) as Hs. unfold wp in Hs. rewrite Hdone in Hs.
  destruct Hs as [Hck Hused _ _ _ _ (bc & mg & tp & s1 & gas & s2 & Hsum & Htip & Hs1 & Hs2 & Hst)].
  pose proof (rn_msg _ Hrun) as Hok.
  destruct (gas_sums_le _ _ _ Hok Hck (rn_fees _ Hrun) Hsum) as [Hmg Hle].
  destruct (ck_funds _ Hck _ _ Hsum) as [Hbits Hfunds]. cbn [newStateTransition state] in *.
  pose proof (mo_value Hok). pose proof (mo_price Hok). pose proof (mo_tip Hok).
  assert (is_uint256 bc ∧ (FromBig bc).1 = bc) as [Hbc _].
  { apply FromBig_fits; [lia|]. unfold FromBig. simpl. rewrite Z.gtb_ltb. by apply Z.ltb_ge. }
  rewrite wrap256_id in Hfunds by done.
  rewrite (wrap256_id mg) in Hs1 by (unfold is_uint256 in *; lia).
  assert (baseFee <= cap) as Hbase.
  { destruct (ck_fees _ Hck _ (rn_london _ Hrun) Hcap) as [[? _]|(bf & Hbf & ? & _)].
    - pose proof (rn_fees _ Hrun). congruence.
    - simplify_eq. done. }
  rewrite (effective_tip_price baseFee cap) in Htip by (done || apply Hrun). injection Htip as <-.
  set (blob := if IsCancun env && (blobGasUsed msg >? 0) then _ else 0).
  destruct (gas_sums_price bc mg Hok Hsum) as [Hmgeq Hblob]. fold blob in Hmgeq, Hblob.
  fold used back in Hst, Hused.
  assert (0 <= back) as Hback by (apply Z.mul_nonneg_nonneg; lia).
  assert (0 <= used * baseFee) as Hburn by (apply Z.mul_nonneg_nonneg; lia).
  assert (0 <= tip) as Htip0 by (apply Z.mul_nonneg_nonneg; lia).
  assert (GasLimit msg * msg_GasPrice msg = back + tip + used * baseFee) as Hsplit
    by (unfold back, tip; ring).
  unfold is_uint256 in Hbc, Hbal.
  assert (0 <= msg_GasPrice msg - baseFee < two256) as Htp.
  { split; [lia|]. destruct (price_bits _ Hok Hck (rn_fees _ Hrun) (rn_london _ Hrun)) as [[_ ?] _]. lia. }
  rewrite (wrap256_id (_ - baseFee)) in Hst by done. fold tip in Hst.
  rewrite (wrap256_id back), (wrap256_id tip) in Hst by (unfold is_uint256; lia).
  exists mg, s1, gas. split_and!; try done; try lia. cbn zeta. rewrite Hs2, Hst. intros a.
  rewrite !GetBalance_Add. repeat case_bool_decide; subst; congruence.
Qed.
End Transition.

(** ** Messages of transactions *)

(** The amounts of a transaction: the encodings have no negative ones. *)
Record amounts_ok (tx : Transaction) : Prop := {
  am_gas : is_uint64 (Tx.Gas tx);
  am_value : 0 <= Tx.Value tx;
  am_tip : 0 <= Tx.GasTipCap tx;
  am_cap : 0 <= Tx.GasFeeCap tx;
  am_auths : Forall (λ auth, is_uint64 (auth_Nonce auth)) (default [] (Tx.SetCodeAuthorizations tx));
  am_blob : ∀ cap, Tx.BlobGasFeeCap tx = Some cap → 0 <= cap
}.

Lemma message_ok env sender tx baseFee :
  amounts_ok tx → BaseFee env = Some baseFee → 0 <= baseFee →
  (∀ fee, BlobBaseFee env = Some fee → 0 <= fee) →
  let msg := (TransactionToMessage sender tx (Some baseFee)).1 in
  msg_ok env msg ∧ msg_GasFeeCap msg = Some (Tx.GasFeeCap tx) ∧
  msg_GasPrice msg = Z.min (msg_GasTipCap msg + baseFee) (Tx.GasFeeCap tx).
Proof.
  intros [Hg Hv Ht Hc Ha Hb] HB Hb0 Hfee. unfold TransactionToMessage.
  rewrite Z.gtb_ltb, Cmp_gtb.
  assert ((if Tx.GasFeeCap tx <? Tx.GasTipCap tx + baseFee then Tx.GasFeeCap tx
    else Tx.GasTipCap tx + baseFee) = Z.min (Tx.GasTipCap tx + baseFee) (Tx.GasFeeCap tx)) as ->.
  { destruct (Z.ltb_spec (Tx.GasFeeCap tx) (Tx.GasTipCap tx + baseFee)); lia. }
  destruct (sender tx) as [a|e]; simpl; (split; [|done]);
    (split; simpl; try done; [lia|eexists; split; [done|lia]]).
Qed.

(** ** Concrete inputs *)

Definition ex_tx : Transaction :=
  MkTx (TDynamicFee (DynamicFeeTx.mk 1 4 3 20 50000 (Some 9) 1000 [1; 0] [] 0 0 0)) 1 100 0.
Definition ex_env : Env :=
  MkEnv (MkRules true true true true true true false) true 1 8 (Some 7) (Some 1) false [1; 2].
Definition ex_msg : Message := (TransactionToMessage (λ _, Ok 5) ex_tx (Some 7)).1.
Definition ex_vm : map_vm := MkMapVM {[ 5 := 1000000000 ]} {[ 5 := 4 ]} ∅ 0 ∅.

(** A virtual machine that moves the value and uses half of the gas. *)
Definition ex_Create (from : Address) (code : bytes) (gas value : Z) (s : map_vm)
    : bytes * Z * option unit * map_vm := ([], gas / 2, None, s).
Definition ex_Call (from dst : Address) (input : bytes) (gas value : Z) (s : map_vm)
    : bytes * Z * option unit * map_vm :=
  ([], gas / 2, None, AddBalance (SubBalance s from value) dst value).

Abbreviation ex_apply :=
  (ApplyMessage (λ _ _, 0) (λ b, b) (λ _ _, None) ex_Create ex_Call ex_env ex_msg 90000 ex_vm).

Lemma ex_run_ok : run_ok ex_env ex_Create ex_Call ex_msg 90000.
Proof.
  split; try done.
  - apply message_ok; [split; try done; simpl; lia || constructor|done|done|].
    intros fee [= <-]. done.
  - unfold evm_gas_ok, is_uint64; simpl. split; intros; (split; [apply Z.div_pos; lia|]);
      apply Z.div_le_upper_bound; lia.
Qed.

Lemma ex_done : ∃ r u, ex_apply = Done r u ∧ UsedGas r = 35510 ∧
  GetBalance (state u) 5 = 1000000000 - 1000 - 35510 * 10 ∧ GetBalance (state u) 9 = 1000 ∧
  GetBalance (state u) 8 = 35510 * 3.
Proof. eexists _, _. split; [vm_compute; reflexivity|]. by vm_compute. Qed.

Lemma applied_gas_witness :
  ∃ r u, ex_apply = Done r u ∧ 0 <= UsedGas r <= 50000 ∧ gp u = 90000 - UsedGas r.
Proof.
  assert (∃ r u, ex_apply = Done r u) as (r & u & Hd) by (eexists _, _; vm_compute; reflexivity).
  exists r, u. split; [exact Hd|].
  destruct (applied_gas (λ _ _, 0) (λ b, b) (λ _ _, None) ex_env ex_Create ex_Call ex_msg
    90000 ex_vm r u ex_run_ok Hd) as (Hu & Hp & _).
  split; [exact Hu|exact Hp].
Defined.

Lemma ex_fees_present : fees_present ex_env ex_msg.
Proof. split; [by eexists|intros; by eexists|]. intros _ Hb. by vm_compute in Hb. Qed.

Lemma applying_never_panics_witness :
  match ex_apply with
  | Panic => False
  | Fail _ u => (gp u = 90000 ∧ state u = ex_vm) ∨
      (gp u = wrap64 (90000 - 50000) ∧ ∃ bc mgval,
        gas_sums ex_env ex_msg = Some (bc, mgval) ∧
        state u = SubBalance ex_vm 5 (wrap256 mgval))
  | Done r u => checked ex_env ex_msg (newStateTransition 90000 ex_vm)
  end.
Proof.
  apply (applying_never_panics (λ _ _, 0) (λ b, b) (λ _ _, None) ex_env ex_Create ex_Call ex_msg
    90000 ex_vm ex_run_ok ex_fees_present). reflexivity.
Defined.

Lemma applied_fees_witness :
  ∃ r u, ex_apply = Done r u ∧
  ∃ paid s1 gas, same_accounts (SubBalance ex_vm 5 paid) s1 ∧
    paid <= GetBalance ex_vm 5 ∧
    paid - 0 = (50000 - UsedGas r) * 10 + UsedGas r * (10 - 7) + UsedGas r * 7 ∧
    GetBalance (state u) 8
    = wrap256 (GetBalance (evm_run (λ _ _, 0) (λ b, b) (λ _ _, None) ex_env ex_Create ex_Call ex_msg
        gas 1000 s1).2 8 + UsedGas r * (10 - 7)).
Proof.
  assert (∃ r u, ex_apply = Done r u) as (r & u & Hd) by (eexists _, _; vm_compute; reflexivity).
  exists r, u. split; [exact Hd|].
  assert (is_uint256 (GetBalance ex_vm (From ex_msg))) as Hb
    by (vm_compute; split; [discriminate|reflexivity]).
  assert (0 <= 7) as H7 by lia.
  assert (msg_GasPrice ex_msg = Z.min (msg_GasTipCap ex_msg + 7) 20) as Hp
    by (vm_compute; reflexivity).
  pose proof (applied_fees (λ _ _, 0) (λ b, b) (λ _ _, None) ex_env ex_Create ex_Call ex_msg
    90000 ex_vm r u 7 20 ex_run_ok Hb eq_refl H7 eq_refl Hp Hd) as Hf.
  cbv zeta in Hf. destruct Hf as (paid & s1 & gas & H1 & H2 & H3 & _ & _ & H4).
  exists paid, s1, gas. split; [exact H1|]. split; [exact H2|]. split; [exact H3|].
  exact (H4 8).
Defined.

Lemma preCheck_never_overdraws_witness :
  match preCheck ex_env ex_msg (newStateTransition 90000 ex_vm) with
  | Panic | Fail _ _ => False
  | Done _ u => gp u = 40000 ∧ ∃ mgval, 0 <= mgval ∧
      GetBalance (state u) 5 = 1000000000 - mgval
  end.
Proof.
  pose proof (preCheck_never_overdraws ex_env ex_msg (newStateTransition 90000 ex_vm)
    (rn_msg _ _ _ _ _ ex_run_ok) ex_fees_present eq_refl
    ltac:(vm_compute; split; [discriminate|reflexivity])
    ltac:(vm_compute; split; [discriminate|reflexivity])) as Hp.
  assert (∃ u, preCheck ex_env ex_msg (newStateTransition 90000 ex_vm) = Done tt u) as (u & Hd)
    by (eexists; vm_compute; reflexivity).
  rewrite Hd in *. destruct Hp as (bc & mg & _ & Hmg & Hgp & _ & _ & _ & Hb & _).
  split; [exact Hgp|]. exists mg. split; [exact Hmg|exact Hb].
Defined.

Definition ex_auth : SetCodeAuthorization := MkAuth 1 77 4 0 1 1.
Definition ex_recover (_ : Hash) (_ : bytes) : option bytes := Some (4 :: repeat 0 64).
Definition ex_hash (_ : bytes) : bytes := repeat 0 31 ++ [5].

(** Account 5 delegates to account 77, once. *)
Lemma authorization_not_replayed_witness :
  is_uint64 (auth_Nonce ex_auth) ∧
  ∃ t, applyAuthorization (λ _ _, 0) ex_hash ex_recover ex_env ex_auth ex_vm = (None, t) ∧
  GetNonce t 5 = 5 ∧ ParseDelegation (GetCode t 5) = Some 77 ∧
  is_Some (applyAuthorization (λ _ _, 0) ex_hash ex_recover ex_env ex_auth t).1.
Proof.
  assert (is_uint64 (auth_Nonce ex_auth)) as Hn by (vm_compute; split; [discriminate|reflexivity]).
  split; [exact Hn|].
  pose proof (authorization_not_replayed (λ _ _, 0) ex_hash ex_recover ex_env ex_auth ex_vm Hn) as Ha.
  assert (∃ t, applyAuthorization (λ _ _, 0) ex_hash ex_recover ex_env ex_auth ex_vm = (None, t))
    as (t & Ht) by (eexists; vm_compute; reflexivity).
  exists t. split; [exact Ht|]. rewrite Ht in Ha. destruct Ha as (a & _ & _ & Hr).
  vm_compute in Ht. injection Ht as <-. split; [reflexivity|]. split; [reflexivity|exact Hr].
Defined.
