(* ===== verification/AccessList.v ===== *)
(** * Access lists and transient storage

    parallelizable-client-go-ethereum/core/state: access_list.go and
    transient_storage.go.  Both are undone by the journal entry by entry, and
    the undoing operations give back exactly the structure before. *)

From S2P Require Import Prelude GoSort.

(** ** The access list *)

(** An address is at index -1 when it has no slots. *)
Record accessList : Type := MkAccessList {
  addresses : gmap Z Z;
  slots : list (gset Z)
}.

#[export] Instance accessList_eq_dec : EqDecision accessList.
Proof. solve_decision. Defined.

Definition newAccessList : accessList := MkAccessList ∅ [].

Module AccessList.
Definition ContainsAddress (al : accessList) (address : Address) : bool :=
  bool_decide (is_Some (addresses al !! address)).

(** Reading [al.slots] out of range panics; [wf] excludes it, and the default
    stands for it. *)
Definition Contains (al : accessList) (address : Address) (slot : Hash) : bool * bool :=
  match addresses al !! address with
  | None => (false, false)
  | Some idx =>
      if idx =? -1 then (true, false)
      else (true, bool_decide (slot ∈ default ∅ (slots al !! Z.to_nat idx)))
  end.

(** The maps are cloned: a value of the model is its own copy. *)
Definition Copy (al : accessList) : accessList := MkAccessList (addresses al) (slots al).

Definition AddAddress (al : accessList) (address : Address) : accessList * bool :=
  match addresses al !! address with
  | Some _ => (al, false)
  | None => (MkAccessList (<[address := -1]> (addresses al)) (slots al), true)
  end.

(** The new list, and whether the address and the slot were added. *)
Definition AddSlot (al : accessList) (address : Address) (slot : Hash)
    : accessList * bool * bool :=
  let idx := addresses al !! address in
  if bool_decide (idx = None) || bool_decide (idx = Some (-1)) then
    (MkAccessList (<[address := len (slots al)]> (addresses al)) (slots al ++ [{[ slot ]}]),
     bool_decide (idx = None), true)
  else
    let idx := default 0 idx in
    let slotmap := default ∅ (slots al !! Z.to_nat idx) in
    if bool_decide (slot ∈ slotmap) then (al, false, false)
    else (MkAccessList (addresses al) (<[Z.to_nat idx := {[ slot ]} ∪ slotmap]> (slots al)),
          false, true).

(** [None] is a panic: the explicit one, and the index -1. *)
Definition DeleteSlot (al : accessList) (address : Address) (slot : Hash) : option accessList :=
  match addresses al !! address with
  | None => None
  | Some idx =>
      if idx <? 0 then None
      else match slots al !! Z.to_nat idx with
      | None => None
      | Some slotmap =>
          let slotmap := slotmap ∖ {[ slot ]} in
          if bool_decide (slotmap = ∅) then
            Some (MkAccessList (<[address := -1]> (addresses al)) (take (Z.to_nat idx) (slots al)))
          else
            Some (MkAccessList (addresses al) (<[Z.to_nat idx := slotmap]> (slots al)))
      end
  end.

Definition DeleteAddress (al : accessList) (address : Address) : accessList :=
  MkAccessList (delete address (addresses al)) (slots al).

Definition Equal (al other : accessList) : bool :=
  bool_decide (addresses al = addresses other) && bool_decide (slots al = slots other).

(** ** Invariant *)

(** Every index is -1 or points to a non-empty set. *)
Definition wf (al : accessList) : Prop :=
  ∀ a idx, addresses al !! a = Some idx →
    idx = -1 ∨ 0 <= idx ∧ ∃ m, slots al !! Z.to_nat idx = Some m ∧ m ≠ ∅.

Lemma newAccessList_wf : wf newAccessList.
Proof. intros a idx. simpl. by rewrite lookup_empty. Qed.

Lemma AddAddress_wf al a : wf al → wf (AddAddress al a).1.
Proof.
  intros Hw. unfold AddAddress. destruct (addresses al !! a) eqn:Ha; [done|].
  intros b idx. simpl. rewrite lookup_insert_Some. intros [[<- <-]|[_ Hb]]; [by left|].
  by apply (Hw b).
Qed.

Lemma AddSlot_wf al a k : wf al → wf (AddSlot al a k).1.1.
Proof.
  intros Hw. unfold AddSlot.
  destruct (bool_decide (_ = None) || _) eqn:Hc; simpl.
  - intros b idx. simpl. rewrite lookup_insert_Some. intros [[<- <-]|[_ Hb]].
    + right. split; [apply len_nonneg|]. exists {[ k ]}. unfold len. rewrite Nat2Z.id.
      rewrite lookup_app_r, Nat.sub_diag by lia. split; [done|set_solver].
    + destruct (Hw b idx Hb) as [->|(Hi & m & Hm & Hne)]; [by left|right].
      split; [done|]. exists m. split; [|done]. by apply lookup_app_l_Some.
  - destruct (bool_decide (k ∈ _)); simpl; [done|].
    intros b idx Hb. simpl in *. destruct (Hw b idx Hb) as [->|(Hi & m & Hm & Hne)]; [by left|].
    right. split; [done|]. destruct (decide (Z.to_nat idx = Z.to_nat (default 0 (addresses al !! a))))
      as [<-|Hd].
    + exists ({[ k ]} ∪ m). rewrite Hm. simpl. split; [|set_solver].
      apply list_lookup_insert_eq. by eapply lookup_lt_Some.
    + exists m. split; [|done]. by rewrite list_lookup_insert_ne.
Qed.

(** ** What the operations mean *)

Lemma Contains_AddAddress al a b k :
  ContainsAddress (AddAddress al a).1 b = bool_decide (a = b) || ContainsAddress al b ∧
  (Contains (AddAddress al a).1 b k).2 = (Contains al b k).2.
Proof.
  unfold ContainsAddress, Contains, AddAddress. destruct (addresses al !! a) as [i|] eqn:Ha; simpl.
  - split; [|done]. destruct (decide (a = b)) as [->|].
    + rewrite Ha, (bool_decide_eq_true_2 (b = b)) by done. apply bool_decide_eq_true_2. by eexists.
    + by rewrite (bool_decide_eq_false_2 (a = b)).
  - destruct (decide (a = b)) as [->|].
    + rewrite lookup_insert_eq, Ha, (bool_decide_eq_true_2 (b = b)) by done. done.
    + by rewrite lookup_insert_ne, (bool_decide_eq_false_2 (a = b)) by done.
Qed.

(** ** Exact undo *)

(** Undoing the addition of an address gives back the access list. *)
Lemma DeleteAddress_AddAddress al a :
  (AddAddress al a).2 = true → DeleteAddress (AddAddress al a).1 a = al.
Proof.
  unfold AddAddress, DeleteAddress. destruct (addresses al !! a) eqn:Ha; [done|]. intros _.
  destruct al as [ads sl]. simpl in *. f_equal. by rewrite delete_insert_id.
Qed.

(** [DeleteSlot] undoes [AddSlot] to the letter: it gives back the very list
    before, the indexes of the other accounts included, except that an address
    that [AddSlot] had to add stays, without slots, for [DeleteAddress] to take
    away; it panics in neither case. *)
Lemma DeleteSlot_AddSlot al a k :
  wf al → (AddSlot al a k).2 = true →
  DeleteSlot (AddSlot al a k).1.1 a k = Some (AddAddress al a).1 ∧
  ((AddSlot al a k).1.2 = true ↔ (AddAddress al a).2 = true) ∧
  ((AddSlot al a k).1.2 = true → DeleteAddress (AddAddress al a).1 a = al) ∧
  ((AddSlot al a k).1.2 = false → (AddAddress al a).1 = al).
Proof.
  intros Hw. assert (∀ al, (AddAddress al a).2 = true → DeleteAddress (AddAddress al a).1 a = al)
    as Hundo by (intros; by apply DeleteAddress_AddAddress).
  unfold AddSlot. destruct (addresses al !! a) as [i|] eqn:Ha.
  - assert ((AddAddress al a) = (al, false)) as Hadd by (unfold AddAddress; by rewrite Ha).
    rewrite Hadd. destruct (decide (i = -1)) as [->|Hi]; simpl.
    + intros _. split_and!; [|done..]. unfold DeleteSlot. simpl.
      rewrite lookup_insert_eq. pose proof (len_nonneg (slots al)).
      destruct (Z.ltb_spec (len (slots al)) 0); [lia|].
      unfold len. rewrite Nat2Z.id, lookup_app_r, Nat.sub_diag by lia. simpl.
      rewrite bool_decide_eq_true_2 by set_solver. rewrite take_app_length.
      rewrite insert_insert_eq, insert_id by done. by destruct al.
    + rewrite (bool_decide_eq_false_2 (Some i = Some (-1))) by congruence. simpl.
      destruct (Hw a i Ha) as [?|(Hpos & m & Hm & Hne)]; [done|]. rewrite Hm. simpl.
      destruct (decide (k ∈ m)) as [Hk|Hk].
      { by rewrite bool_decide_eq_true_2. }
      rewrite bool_decide_eq_false_2 by done. simpl. intros _. split_and!; [|done..].
      unfold DeleteSlot. simpl. rewrite Ha.
      destruct (Z.ltb_spec i 0); [lia|].
      rewrite list_lookup_insert_eq by by eapply lookup_lt_Some.
      assert (({[ k ]} ∪ m) ∖ {[ k ]} = m) as -> by set_solver.
      rewrite bool_decide_eq_false_2 by done. rewrite list_insert_insert_eq.
      rewrite list_insert_id by done. by destruct al.
  - assert ((AddAddress al a).2 = true) as Hadd by (unfold AddAddress; by rewrite Ha).
    simpl. intros _. split_and!; [|by rewrite Hadd|by intros; apply Hundo|done].
    unfold DeleteSlot, AddAddress. rewrite Ha. simpl. rewrite lookup_insert_eq.
    pose proof (len_nonneg (slots al)). destruct (Z.ltb_spec (len (slots al)) 0); [lia|].
    unfold len. rewrite Nat2Z.id, lookup_app_r, Nat.sub_diag by lia. simpl.
    rewrite bool_decide_eq_true_2 by set_solver. rewrite take_app_length.
    by rewrite insert_insert_eq.
Qed.
End AccessList.

(** ** Transient storage *)

Abbreviation transientStorage := (gmap Z (gmap Z Z)) (only parsing).

Definition newTransientStorage : transientStorage := ∅.

Module TransientStorage.
Definition Set_ (t : transientStorage) (addr : Address) (key value : Hash) : transientStorage :=
  if value =? 0 then
    match t !! addr with
    | Some storage =>
        let storage := delete key storage in
        if map_len storage =? 0 then delete addr t else <[addr := storage]> t
    | None => t
    end
  else <[addr := <[key := value]> (default ∅ (t !! addr))]> t.

Definition Get (t : transientStorage) (addr : Address) (key : Hash) : Hash :=
  match t !! addr with
  | None => 0
  | Some val => default 0 (val !! key)
  end.

Definition Copy (t : transientStorage) : transientStorage := (λ storage, storage) <$> t.

(** No account without entries, and no entry with the zero value. *)
Definition wf (t : transientStorage) : Prop :=
  ∀ a m, t !! a = Some m → m ≠ ∅ ∧ ∀ k v, m !! k = Some v → v ≠ 0.

Lemma new_wf : wf newTransientStorage.
Proof. intros a m. unfold newTransientStorage. by rewrite lookup_empty. Qed.

Lemma Set_wf t a k v : wf t → wf (Set_ t a k v).
Proof.
  intros Hw. unfold Set_. destruct (Z.eqb_spec v 0) as [->|Hv].
  - destruct (t !! a) as [m|] eqn:Ha; [|done].
    destruct (Z.eqb_spec (map_len (delete k m)) 0) as [He|He].
    + intros b n [_ Hb]%lookup_delete_Some. by apply (Hw b).
    + intros b n. rewrite lookup_insert_Some. intros [[<- <-]|[_ Hb]]; [|by apply (Hw b)].
      split; [by intros Hd; apply He, map_len_zero|].
      intros k' v' [_ Hk]%lookup_delete_Some. destruct (Hw a m Ha) as [_ Hz]. by eapply Hz.
  - intros b n. rewrite lookup_insert_Some. intros [[<- <-]|[_ Hb]]; [|by apply (Hw b)].
    split; [apply insert_non_empty|].
    intros k' v'. rewrite lookup_insert_Some. intros [[_ <-]|[_ Hk]]; [done|].
    destruct (t !! a) as [m|] eqn:Ha; simpl in Hk; [|by rewrite lookup_empty in Hk].
    destruct (Hw a m Ha) as [_ Hz]. by eapply Hz.
Qed.

Lemma Get_Set t a k v b j :
  Get (Set_ t a k v) b j = if bool_decide (a = b ∧ k = j) then v else Get t b j.
Proof.
  unfold Get, Set_. destruct (Z.eqb_spec v 0) as [->|Hv].
  - destruct (t !! a) as [m|] eqn:Ha.
    + destruct (decide (a = b)) as [<-|Hab].
      * destruct (Z.eqb_spec (map_len (delete k m)) 0) as [He|He].
        -- apply map_len_zero in He. rewrite lookup_delete_eq, Ha. case_bool_decide as Hc; [done|].
           destruct (m !! j) eqn:Hj; [|done]. exfalso. apply Hc. split; [done|].
           destruct (decide (k = j)); [done|]. rewrite <-(lookup_delete_ne m k j) in Hj by done.
           by rewrite He, lookup_empty in Hj.
        -- rewrite lookup_insert_eq, Ha, lookup_delete.
           case_decide as Hkj; case_bool_decide as Hc; try done; tauto.
      * rewrite bool_decide_eq_false_2 by by intros [].
        destruct (_ =? 0); [by rewrite lookup_delete_ne|by rewrite lookup_insert_ne].
    + case_bool_decide as Hc; [|done]. destruct Hc as [-> ->]. by rewrite Ha.
  - destruct (decide (a = b)) as [<-|Hab].
    + rewrite lookup_insert_eq. rewrite lookup_insert.
      case_decide as Hkj; case_bool_decide as Hc; try done; try tauto.
      destruct (t !! a) as [m|]; [done|]. simpl. by rewrite ?lookup_empty.
    + rewrite lookup_insert_ne by done. by rewrite bool_decide_eq_false_2 by by intros [].
Qed.

(** Canonical: two storages that read the same are the same. *)
Lemma wf_ext t t' : wf t → wf t' → (∀ a k, Get t a k = Get t' a k) → t = t'.
Proof.
  assert (∀ t t', wf t → wf t' → (∀ a k, Get t a k = Get t' a k) →
    ∀ a m, t !! a = Some m → t' !! a = Some m) as Hhalf.
  { clear. intros t t' Hw Hw' Hg a m Ha. destruct (Hw a m Ha) as [Hne Hz].
    destruct (t' !! a) as [m'|] eqn:Ha'.
    - f_equal. apply map_eq. intros k. specialize (Hg a k). unfold Get in Hg. rewrite Ha, Ha' in Hg.
      destruct (Hw' a m' Ha') as [_ Hz'].
      destruct (m !! k) as [v|] eqn:Hk, (m' !! k) as [v'|] eqn:Hk'; simpl in Hg; try done.
      + by subst.
      + subst. by apply Hz in Hk.
      + subst. by apply Hz' in Hk'.
    - apply map_choose in Hne as (k & v & Hk). specialize (Hg a k). unfold Get in Hg.
      rewrite Ha, Ha', Hk in Hg. simpl in Hg. by apply Hz in Hk. }
  intros Hw Hw' Hg. apply map_eq. intros a. destruct (t !! a) as [m|] eqn:Ha.
  - symmetry. exact (Hhalf t t' Hw Hw' Hg a m Ha).
  - destruct (t' !! a) as [m'|] eqn:Ha'; [|done]. exfalso.
    assert (∀ a k, Get t' a k = Get t a k) as Hg' by by intros.
    pose proof (Hhalf t' t Hw' Hw Hg' a m' Ha'). congruence.
Qed.

(** Writing back the value that was read before a write restores the transient
    storage itself, not only its readings: no empty account is left behind. *)
Lemma Set_undo t a k v : wf t → Set_ (Set_ t a k v) a k (Get t a k) = t.
Proof.
  intros Hw. apply wf_ext; [by do 2 apply Set_wf|done|].
  intros b j. rewrite !Get_Set. case_bool_decide as Hc; [|done]. by destruct Hc as [-> ->].
Qed.
End TransientStorage.
