(* ===== verification/StateTypes.v ===== *)
(** * The data of the state database

    parallelizable-client-go-ethereum/core/state: accounts and state objects
    (state_object.go), the journal and its entries (journal.go), and the
    database struct (statedb.go).  Tries, the prefetcher, the witness, the
    access events and the measurements are left out: nothing below reads them.

    An operation that reads may fill a cache or record a database error, so it
    returns the new state with its result; [None] stands for a panic. *)

From S2P Require Import Prelude GoSort AccessList.

(** ** Accounts *)

Abbreviation Storage := (gmap Z Z) (only parsing).

Record StateAccount : Type := MkAccount {
  acct_Nonce : Z;
  acct_Balance : Z;
  acct_Root : Hash;
  acct_CodeHash : Hash
}.

Record stateObject : Type := MkObject {
  obj_address : Address;
  origin : option StateAccount;
  data : StateAccount;
  code : bytes;
  originStorage : Storage;
  dirtyStorage : Storage;
  pendingStorage : Storage;
  uncommittedStorage : Storage;
  dirtyCode : bool;
  selfDestructed : bool;
  newContract : bool
}.

Definition EmptyRootHash : Hash :=
  0x56e81f171bcc55a6ff8345e692c0f86e5b48e01b996cadc001622fb5e363b421.

(** ** The journal *)

Inductive journalEntry : Type :=
  | createObjectChange (account : Address)
  | createContractChange (account : Address)
  | selfDestructChange (account : Address)
  | balanceChange (account : Address) (prev : Z)
  | nonceChange (account : Address) (prev : Z)
  | storageChange (account : Address) (key prevvalue origvalue : Hash)
  | codeChange (account : Address) (prevCode : bytes)
  | refundChange (prev : Z)
  | addLogChange (txhash : Hash)
  | touchChange (account : Address)
  | accessListAddAccountChange (address : Address)
  | accessListAddSlotChange (address : Address) (slot : Hash)
  | transientStorageChange (account : Address) (key prevalue : Hash).

Record revision : Type := MkRevision {
  id : Z;
  journalIndex : Z
}.

Record journal : Type := MkJournal {
  entries : list journalEntry;
  dirties : gmap Z Z;
  validRevisions : list revision;
  nextRevisionId : Z
}.

(** ** The database *)

Record Log : Type := MkLog {
  log_Address : Address;
  log_Topics : list Hash;
  log_Data : bytes;
  log_TxHash : Hash;
  log_TxIndex : Z;
  log_Index : Z
}.

Inductive mutationType : Type := update | deletion.

Record mutation : Type := MkMutation {
  typ : mutationType;
  applied : bool
}.

(** What a read of the database can fail with. *)
Inductive db_error : Type :=
  | errGetObject (addr : Address)
  | errStorage (addr : Address) (key : Hash)
  | errLoadCode (codeHash : Hash)
  | errLoadCodeSize (codeHash : Hash)
  | errCodeNotFound (codeHash : Hash).

Record StateDB : Type := MkState {
  stateObjects : gmap Z stateObject;
  stateObjectsDestruct : gmap Z stateObject;
  mutations : gmap Z mutation;
  dbErr : option db_error;
  refund : Z;
  thash : Hash;
  txIndex : Z;
  logs : gmap Z (list Log);
  logSize : Z;
  preimages : gmap Z bytes;
  accessList_ : accessList;
  transientStorage_ : transientStorage;
  journal_ : journal
}.

(** The interface [Reader] of a database at its original root; [None] is an
    error, and an account that does not exist is [Some None]. *)
Record Reader : Type := MkReader {
  Account : Address → option (option StateAccount);
  Storage_ : Address → Hash → option Hash;
  Code : Address → Hash → option bytes;
  CodeSize : Address → Hash → option Z
}.

(** ** Assignments to the fields *)

Section Setters.
Implicit Types s : StateDB.

Definition set_stateObjects s x : StateDB :=
  MkState x (stateObjectsDestruct s) (mutations s) (dbErr s) (refund s) (thash s) (txIndex s)
    (logs s) (logSize s) (preimages s) (accessList_ s) (transientStorage_ s) (journal_ s).
Definition set_destruct s x : StateDB :=
  MkState (stateObjects s) x (mutations s) (dbErr s) (refund s) (thash s) (txIndex s)
    (logs s) (logSize s) (preimages s) (accessList_ s) (transientStorage_ s) (journal_ s).
Definition set_mutations s x : StateDB :=
  MkState (stateObjects s) (stateObjectsDestruct s) x (dbErr s) (refund s) (thash s) (txIndex s)
    (logs s) (logSize s) (preimages s) (accessList_ s) (transientStorage_ s) (journal_ s).
Definition set_dbErr s x : StateDB :=
  MkState (stateObjects s) (stateObjectsDestruct s) (mutations s) x (refund s) (thash s)
    (txIndex s) (logs s) (logSize s) (preimages s) (accessList_ s) (transientStorage_ s)
    (journal_ s).
Definition set_refund s x : StateDB :=
  MkState (stateObjects s) (stateObjectsDestruct s) (mutations s) (dbErr s) x (thash s)
    (txIndex s) (logs s) (logSize s) (preimages s) (accessList_ s) (transientStorage_ s)
    (journal_ s).
Definition set_tx s h i : StateDB :=
  MkState (stateObjects s) (stateObjectsDestruct s) (mutations s) (dbErr s) (refund s) h i
    (logs s) (logSize s) (preimages s) (accessList_ s) (transientStorage_ s) (journal_ s).
Definition set_logs s x n : StateDB :=
  MkState (stateObjects s) (stateObjectsDestruct s) (mutations s) (dbErr s) (refund s) (thash s)
    (txIndex s) x n (preimages s) (accessList_ s) (transientStorage_ s) (journal_ s).
Definition set_preimages s x : StateDB :=
  MkState (stateObjects s) (stateObjectsDestruct s) (mutations s) (dbErr s) (refund s) (thash s)
    (txIndex s) (logs s) (logSize s) x (accessList_ s) (transientStorage_ s) (journal_ s).
Definition set_accessList s x : StateDB :=
  MkState (stateObjects s) (stateObjectsDestruct s) (mutations s) (dbErr s) (refund s) (thash s)
    (txIndex s) (logs s) (logSize s) (preimages s) x (transientStorage_ s) (journal_ s).
Definition set_transient s x : StateDB :=
  MkState (stateObjects s) (stateObjectsDestruct s) (mutations s) (dbErr s) (refund s) (thash s)
    (txIndex s) (logs s) (logSize s) (preimages s) (accessList_ s) x (journal_ s).
Definition set_journal s x : StateDB :=
  MkState (stateObjects s) (stateObjectsDestruct s) (mutations s) (dbErr s) (refund s) (thash s)
    (txIndex s) (logs s) (logSize s) (preimages s) (accessList_ s) (transientStorage_ s) x.
End Setters.

Section ObjectSetters.
Implicit Types o : stateObject.

Definition set_data o x : stateObject :=
  MkObject (obj_address o) (origin o) x (code o) (originStorage o) (dirtyStorage o)
    (pendingStorage o) (uncommittedStorage o) (dirtyCode o) (selfDestructed o) (newContract o).
Definition set_originStorage o x : stateObject :=
  MkObject (obj_address o) (origin o) (data o) (code o) x (dirtyStorage o)
    (pendingStorage o) (uncommittedStorage o) (dirtyCode o) (selfDestructed o) (newContract o).
Definition set_dirtyStorage o x : stateObject :=
  MkObject (obj_address o) (origin o) (data o) (code o) (originStorage o) x
    (pendingStorage o) (uncommittedStorage o) (dirtyCode o) (selfDestructed o) (newContract o).
Definition set_pending_uncommitted o x y : stateObject :=
  MkObject (obj_address o) (origin o) (data o) (code o) (originStorage o) (dirtyStorage o)
    x y (dirtyCode o) (selfDestructed o) (newContract o).
Definition set_code_cache o x : stateObject :=
  MkObject (obj_address o) (origin o) (data o) x (originStorage o) (dirtyStorage o)
    (pendingStorage o) (uncommittedStorage o) (dirtyCode o) (selfDestructed o) (newContract o).
Definition set_dirtyCode o x : stateObject :=
  MkObject (obj_address o) (origin o) (data o) (code o) (originStorage o) (dirtyStorage o)
    (pendingStorage o) (uncommittedStorage o) x (selfDestructed o) (newContract o).
Definition set_selfDestructed o x : stateObject :=
  MkObject (obj_address o) (origin o) (data o) (code o) (originStorage o) (dirtyStorage o)
    (pendingStorage o) (uncommittedStorage o) (dirtyCode o) x (newContract o).
Definition set_newContract o x : stateObject :=
  MkObject (obj_address o) (origin o) (data o) (code o) (originStorage o) (dirtyStorage o)
    (pendingStorage o) (uncommittedStorage o) (dirtyCode o) (selfDestructed o) x.
End ObjectSetters.

(** ** The journal alone *)

(** core/state/journal.go *)
Module Journal.
Definition newJournal : journal := MkJournal [] ∅ [] 0.

Definition reset (j : journal) : journal := MkJournal [] ∅ [] 0.

Definition length_ (j : journal) : Z := len (entries j).

Definition snapshot (j : journal) : Z * journal :=
  let id := nextRevisionId j in
  (id, MkJournal (entries j) (dirties j) (validRevisions j ++ [MkRevision id (length_ j)])
         (nextRevisionId j + 1)).

(** The account that an entry makes dirty. *)
Definition dirtied (entry : journalEntry) : option Address :=
  match entry with
  | createObjectChange account | selfDestructChange account | touchChange account
  | balanceChange account _ | nonceChange account _ | codeChange account _
  | storageChange account _ _ _ => Some account
  | createContractChange _ | transientStorageChange _ _ _ | refundChange _ | addLogChange _
  | accessListAddAccountChange _ | accessListAddSlotChange _ _ => None
  end.

Definition dirty (j : journal) (addr : Address) : journal :=
  MkJournal (entries j) (<[addr := default 0 (dirties j !! addr) + 1]> (dirties j))
    (validRevisions j) (nextRevisionId j).

Definition append (j : journal) (entry : journalEntry) : journal :=
  let j := MkJournal (entries j ++ [entry]) (dirties j) (validRevisions j) (nextRevisionId j) in
  match dirtied entry with
  | Some addr => dirty j addr
  | None => j
  end.

(** The bookkeeping of [revert] for one entry. *)
Definition undirty (d : gmap Z Z) (entry : journalEntry) : gmap Z Z :=
  match dirtied entry with
  | Some addr =>
      let n := default 0 (d !! addr) - 1 in
      if n =? 0 then delete addr d else <[addr := n]> d
  | None => d
  end.

Definition ripemd : Address := 3.

Definition touchChange_ (j : journal) (address : Address) : journal :=
  let j := append j (touchChange address) in
  if address =? ripemd then dirty j address else j.

(** [copy] of an entry: the one of a storage change leaves [origvalue] at its
    zero value. *)
Definition entry_copy (entry : journalEntry) : journalEntry :=
  match entry with
  | storageChange account key prevvalue origvalue => storageChange account key prevvalue 0
  | _ => entry
  end.

Definition copy (j : journal) : journal :=
  MkJournal (entry_copy <$> entries j) (dirties j) (validRevisions j) (nextRevisionId j).

(** [sort.Search]: the first index from which the predicate holds, by binary
    search between [i] and [j]. *)
Fixpoint search (fuel : nat) (f : Z → bool) (i j : Z) : Z :=
  match fuel with
  | O => i
  | S fuel =>
      if i <? j then
        let h := (i + j) / 2 in
        if negb (f h) then search fuel f (h + 1) j else search fuel f i h
      else i
  end.

Definition Search (n : Z) (f : Z → bool) : Z := search (Z.to_nat n) f 0 n.

(** The index of a revision, when it is valid. *)
Definition find_revision (j : journal) (revid : Z) : option (Z * revision) :=
  let revs := validRevisions j in
  let at_ (i : Z) := revs !! Z.to_nat i in
  let idx := Search (len revs)
    (λ i, match at_ i with Some r => id r >=? revid | None => false end) in
  match at_ idx with
  | Some r => if negb (id r =? revid) then None else Some (idx, r)
  | None => None
  end.

(** ** Binary search *)

Lemma search_spec fuel f i j :
  0 <= i <= j → j - i <= Z.of_nat fuel →
  (∀ x y, i <= x <= y → y < j → f x = true → f y = true) →
  i <= search fuel f i j <= j ∧
  (∀ x, i <= x < search fuel f i j → f x = false) ∧
  (search fuel f i j < j → f (search fuel f i j) = true).
Proof.
  revert i j. induction fuel as [|fuel IH]; intros i j Hij Hfuel Hmono; cbn [search].
  { split_and!; [lia..|]. intros. lia. }
  destruct (Z.ltb_spec i j) as [Hlt|]; [|split_and!; intros; lia].
  set (h := (i + j) / 2).
  assert (i <= h < j) as Hh by (unfold h; split;
    [apply Z.div_le_lower_bound|apply Z.div_lt_upper_bound]; lia).
  destruct (f h) eqn:Hf; simpl.
  - destruct (IH i h) as (Hr & Hbelow & Hat); [lia|lia|intros; eapply Hmono; eauto; lia|].
    split_and!; [lia|lia|exact Hbelow|]. intros _.
    destruct (Z.eq_dec (search fuel f i h) h) as [->|]; [done|]. apply Hat. lia.
  - destruct (IH (h + 1) j) as (Hr & Hbelow & Hat); [lia|lia|intros; eapply Hmono; eauto; lia|].
    split_and!; [lia|lia| |exact Hat]. intros x Hx.
    destruct (Z.leb_spec x h); [|apply Hbelow; lia].
    destruct (f x) eqn:Hfx; [|done]. rewrite (Hmono x h) in Hf; [done|lia|lia|done].
Qed.

(** Revisions in the order in which they were taken. *)
Definition revisions_sorted (revs : list revision) : Prop :=
  ∀ i j r r', (i < j)%nat → revs !! i = Some r → revs !! j = Some r' →
    id r < id r' ∧ journalIndex r <= journalIndex r'.

(** The binary search of [revertToSnapshot] finds a revision exactly when it is
    among the valid ones, whose ids increase: it panics on an id that was
    never given out or was already reverted past, and on no other. *)
Lemma find_revision_spec j revid :
  revisions_sorted (validRevisions j) →
  match find_revision j revid with
  | Some (idx, r) => 0 <= idx ∧ validRevisions j !! Z.to_nat idx = Some r ∧ id r = revid
  | None => ∀ i r, validRevisions j !! i = Some r → id r ≠ revid
  end.
Proof.
  intros Hs. unfold find_revision. set (revs := validRevisions j) in *.
  set (f := λ i : Z, match revs !! Z.to_nat i with Some r => id r >=? revid | None => false end).
  destruct (search_spec (Z.to_nat (len revs)) f 0 (len revs)) as (Hr & Hbelow & Hat).
  { pose proof (len_nonneg revs). lia. }
  { pose proof (len_nonneg revs). lia. }
  { intros x y Hxy Hy. unfold f. destruct (revs !! Z.to_nat x) as [r|] eqn:Hx; [|done].
    destruct (lookup_lt_is_Some_2 revs (Z.to_nat y)) as [r' Hr']; [unfold len in *; lia|].
    rewrite Hr', !Z.geb_le. destruct (Z.eq_dec x y) as [->|]; [simplify_eq; lia|].
    destruct (Hs (Z.to_nat x) (Z.to_nat y) r r'); [lia|done..|]. lia. }
  fold (Search (len revs) f) in *. set (idx := Search (len revs) f) in *.
  destruct (revs !! Z.to_nat idx) as [r|] eqn:Hidx.
  - destruct (Z.eqb_spec (id r) revid) as [Heq|Hne]; simpl; [split_and!; [lia|done|done]|].
    intros i r' Hi Hid. assert (id r > revid) as Hgt.
    { assert (f idx = true) as Hfi by (apply Hat; apply lookup_lt_Some in Hidx; unfold len in *; lia).
      unfold f in Hfi. rewrite Hidx in Hfi. apply Z.geb_le in Hfi. lia. }
    destruct (Nat.lt_trichotomy i (Z.to_nat idx)) as [Hlt|[->|Hlt]].
    + assert (f (Z.of_nat i) = false) as Hfi by (apply Hbelow; lia).
      unfold f in Hfi. rewrite Nat2Z.id, Hi, Z.geb_leb in Hfi. apply Z.leb_gt in Hfi. lia.
    + rewrite Hidx in Hi. simplify_eq.
    + destruct (Hs _ _ r r' Hlt Hidx Hi). lia.
  - intros i r Hi Hid. apply lookup_ge_None in Hidx.
    pose proof (lookup_lt_Some _ _ _ Hi) as Hlt.
    assert (f (Z.of_nat i) = false) as Hfi by (apply Hbelow; lia).
    unfold f in Hfi. rewrite Nat2Z.id, Hi, Z.geb_leb in Hfi. apply Z.leb_gt in Hfi. lia.
Qed.
End Journal.
