(* ===== verification/StateDB.v ===== *)
(** * The state database

    parallelizable-client-go-ethereum/core/state: the methods of a state object
    (state_object.go), the undo of a journal entry (journal.go) and the methods
    of [StateDB] (statedb.go) that a transaction uses.

    A state object is reached through [stateObjects], where the database holds
    the only pointer to it: a method of an object is a function on the
    database that writes the changed object back. *)

From S2P Require Import Prelude GoSort TxTypes AccessList StateTypes.

Section StateDB.
Context (Keccak256Hash : bytes → Hash).
Context (reader : Reader).
Implicit Types s : StateDB.

Definition EmptyCodeHash : Hash := Keccak256Hash [].

Definition NewEmptyStateAccount : StateAccount := MkAccount 0 0 EmptyRootHash EmptyCodeHash.

(** ** State objects *)

Definition obj_empty (obj : stateObject) : bool :=
  (acct_Nonce (data obj) =? 0) && (acct_Balance (data obj) =? 0) &&
  (acct_CodeHash (data obj) =? EmptyCodeHash).

Definition newObject (address : Address) (acct : option StateAccount) : stateObject := {|
  obj_address := address;
  origin := acct;
  data := match acct with Some acct => acct | None => NewEmptyStateAccount end;
  code := [];
  originStorage := ∅;
  dirtyStorage := ∅;
  pendingStorage := ∅;
  uncommittedStorage := ∅;
  dirtyCode := false;
  selfDestructed := false;
  newContract := false
|}.

(** [setError] keeps the first error. *)
Definition setError s (err : db_error) : StateDB :=
  match dbErr s with
  | None => set_dbErr s (Some err)
  | Some _ => s
  end.

Definition setStateObject s (obj : stateObject) : StateDB :=
  set_stateObjects s (<[obj_address obj := obj]> (stateObjects s)).

Definition getStateObject s (addr : Address) : option stateObject * StateDB :=
  match stateObjects s !! addr with
  | Some obj => (Some obj, s)
  | None =>
      if bool_decide (is_Some (stateObjectsDestruct s !! addr)) then (None, s)
      else match Account reader addr with
      | None => (None, setError s (errGetObject addr))
      | Some None => (None, s)
      | Some (Some acct) =>
          let obj := newObject addr (Some acct) in
          (Some obj, setStateObject s obj)
      end
  end.

Definition journal_append s (entry : journalEntry) : StateDB :=
  set_journal s (Journal.append (journal_ s) entry).

Definition createObject s (addr : Address) : stateObject * StateDB :=
  let obj := newObject addr None in
  let s := journal_append s (createObjectChange addr) in
  (obj, setStateObject s obj).

Definition getOrNewStateObject s (addr : Address) : stateObject * StateDB :=
  let '(obj, s) := getStateObject s addr in
  match obj with
  | Some obj => (obj, s)
  | None => createObject s addr
  end.

(** [GetCommittedState] of an object: value, object with its cache, database. *)
Definition obj_GetCommittedState s (obj : stateObject) (key : Hash)
    : Hash * stateObject * StateDB :=
  match pendingStorage obj !! key with
  | Some value => (value, obj, s)
  | None =>
      match originStorage obj !! key with
      | Some value => (value, obj, s)
      | None =>
          if bool_decide (is_Some (stateObjectsDestruct s !! obj_address obj)) then
            (0, set_originStorage obj (<[key := 0]> (originStorage obj)), s)
          else match Storage_ reader (obj_address obj) key with
          | None => (0, obj, setError s (errStorage (obj_address obj) key))
          | Some value =>
              (value, set_originStorage obj (<[key := value]> (originStorage obj)), s)
          end
      end
  end.

(** [getState]: the value and the original one. *)
Definition obj_getState s (obj : stateObject) (key : Hash)
    : Hash * Hash * stateObject * StateDB :=
  let '(origin, obj, s) := obj_GetCommittedState s obj key in
  match dirtyStorage obj !! key with
  | Some value => (value, origin, obj, s)
  | None => (origin, origin, obj, s)
  end.

Definition obj_setState (obj : stateObject) (key value origin : Hash) : stateObject :=
  if value =? origin then set_dirtyStorage obj (delete key (dirtyStorage obj))
  else set_dirtyStorage obj (<[key := value]> (dirtyStorage obj)).

Definition obj_SetState s (obj : stateObject) (key value : Hash) : Hash * StateDB :=
  let '(prev, origin, obj, s) := obj_getState s obj key in
  if prev =? value then (prev, setStateObject s obj)
  else
    let s := journal_append s (storageChange (obj_address obj) key prev origin) in
    (prev, setStateObject s (obj_setState obj key value origin)).

Definition obj_setBalance (obj : stateObject) (amount : Z) : stateObject :=
  set_data obj (MkAccount (acct_Nonce (data obj)) amount (acct_Root (data obj))
    (acct_CodeHash (data obj))).

Definition obj_SetBalance s (obj : stateObject) (amount : Z) : Z * StateDB :=
  let prev := acct_Balance (data obj) in
  let s := journal_append s (balanceChange (obj_address obj) prev) in
  (prev, setStateObject s (obj_setBalance obj amount)).

Definition obj_AddBalance s (obj : stateObject) (amount : Z) : Z * StateDB :=
  if amount =? 0 then
    let s :=
      if obj_empty obj then set_journal s (Journal.touchChange_ (journal_ s) (obj_address obj))
      else s in
    (acct_Balance (data obj), s)
  else obj_SetBalance s obj (wrap256 (acct_Balance (data obj) + amount)).

Definition obj_setNonce (obj : stateObject) (nonce : Z) : stateObject :=
  set_data obj (MkAccount nonce (acct_Balance (data obj)) (acct_Root (data obj))
    (acct_CodeHash (data obj))).

Definition obj_SetNonce s (obj : stateObject) (nonce : Z) : StateDB :=
  let s := journal_append s (nonceChange (obj_address obj) (acct_Nonce (data obj))) in
  setStateObject s (obj_setNonce obj nonce).

Definition obj_setCode (obj : stateObject) (codeHash : Hash) (code : bytes) : stateObject :=
  let obj := set_code_cache obj code in
  let obj := set_data obj (MkAccount (acct_Nonce (data obj)) (acct_Balance (data obj))
    (acct_Root (data obj)) codeHash) in
  set_dirtyCode obj true.

Definition obj_SetCode s (obj : stateObject) (codeHash : Hash) (newCode : bytes)
    : bytes * StateDB :=
  let prev := code obj in
  let s := journal_append s (codeChange (obj_address obj) prev) in
  (prev, setStateObject s (obj_setCode obj codeHash newCode)).

Definition obj_Code s (obj : stateObject) : bytes * stateObject * StateDB :=
  if negb (len (code obj) =? 0) then (code obj, obj, s)
  else if acct_CodeHash (data obj) =? EmptyCodeHash then ([], obj, s)
  else
    let hash := acct_CodeHash (data obj) in
    let '(code, s) :=
      match Code reader (obj_address obj) hash with
      | Some code => (code, s)
      | None => ([], setError s (errLoadCode hash))
      end in
    let s := if len code =? 0 then setError s (errCodeNotFound hash) else s in
    (code, set_code_cache obj code, s).

Definition obj_CodeSize s (obj : stateObject) : Z * StateDB :=
  if negb (len (code obj) =? 0) then (len (code obj), s)
  else if acct_CodeHash (data obj) =? EmptyCodeHash then (0, s)
  else
    let hash := acct_CodeHash (data obj) in
    let '(size, s) :=
      match CodeSize reader (obj_address obj) hash with
      | Some size => (size, s)
      | None => (0, setError s (errLoadCodeSize hash))
      end in
    (size, if size =? 0 then setError s (errCodeNotFound hash) else s).

Definition obj_deepCopy (obj : stateObject) : stateObject := {|
  obj_address := obj_address obj;
  origin := origin obj;
  data := data obj;
  code := code obj;
  originStorage := originStorage obj;
  pendingStorage := pendingStorage obj;
  dirtyStorage := dirtyStorage obj;
  uncommittedStorage := uncommittedStorage obj;
  dirtyCode := dirtyCode obj;
  selfDestructed := selfDestructed obj;
  newContract := newContract obj
|}.

(** ** Reading *)

Definition Exist s addr : bool * StateDB :=
  let '(obj, s) := getStateObject s addr in (bool_decide (is_Some obj), s).

Definition Empty s addr : bool * StateDB :=
  let '(obj, s) := getStateObject s addr in
  (match obj with Some so => obj_empty so | None => true end, s).

Definition GetBalance s addr : Z * StateDB :=
  let '(obj, s) := getStateObject s addr in
  (match obj with Some obj => acct_Balance (data obj) | None => 0 end, s).

Definition GetNonce s addr : Z * StateDB :=
  let '(obj, s) := getStateObject s addr in
  (match obj with Some obj => acct_Nonce (data obj) | None => 0 end, s).

Definition GetStorageRoot s addr : Hash * StateDB :=
  let '(obj, s) := getStateObject s addr in
  (match obj with Some obj => acct_Root (data obj) | None => 0 end, s).

Definition GetCodeHash s addr : Hash * StateDB :=
  let '(obj, s) := getStateObject s addr in
  (match obj with Some obj => acct_CodeHash (data obj) | None => 0 end, s).

Definition GetCode s addr : bytes * StateDB :=
  let '(obj, s) := getStateObject s addr in
  match obj with
  | Some obj => let '(code, obj, s) := obj_Code s obj in (code, setStateObject s obj)
  | None => ([], s)
  end.

Definition GetCodeSize s addr : Z * StateDB :=
  let '(obj, s) := getStateObject s addr in
  match obj with
  | Some obj => obj_CodeSize s obj
  | None => (0, s)
  end.

Definition GetState s addr (hash : Hash) : Hash * StateDB :=
  let '(obj, s) := getStateObject s addr in
  match obj with
  | Some obj =>
      let '(value, _, obj, s) := obj_getState s obj hash in (value, setStateObject s obj)
  | None => (0, s)
  end.

Definition GetCommittedState s addr (hash : Hash) : Hash * StateDB :=
  let '(obj, s) := getStateObject s addr in
  match obj with
  | Some obj =>
      let '(value, obj, s) := obj_GetCommittedState s obj hash in (value, setStateObject s obj)
  | None => (0, s)
  end.

Definition HasSelfDestructed s addr : bool * StateDB :=
  let '(obj, s) := getStateObject s addr in
  (match obj with Some obj => selfDestructed obj | None => false end, s).

Definition GetRefund s : Z := refund s.

Definition GetTransientState s addr key : Hash :=
  TransientStorage.Get (transientStorage_ s) addr key.

Definition AddressInAccessList s addr : bool :=
  AccessList.ContainsAddress (accessList_ s) addr.

Definition SlotInAccessList s addr slot : bool * bool :=
  AccessList.Contains (accessList_ s) addr slot.

(** ** Writing *)

Definition AddBalance s addr (amount : Z) : Z * StateDB :=
  let '(stateObject, s) := getOrNewStateObject s addr in
  obj_AddBalance s stateObject amount.

Definition SubBalance s addr (amount : Z) : Z * StateDB :=
  let '(stateObject, s) := getOrNewStateObject s addr in
  if amount =? 0 then (acct_Balance (data stateObject), s)
  else obj_SetBalance s stateObject (wrap256 (acct_Balance (data stateObject) - amount)).

Definition SetBalance s addr (amount : Z) : StateDB :=
  let '(stateObject, s) := getOrNewStateObject s addr in
  (obj_SetBalance s stateObject amount).2.

Definition SetNonce s addr (nonce : Z) : StateDB :=
  let '(stateObject, s) := getOrNewStateObject s addr in
  obj_SetNonce s stateObject nonce.

Definition SetCode s addr (newCode : bytes) : bytes * StateDB :=
  let '(stateObject, s) := getOrNewStateObject s addr in
  obj_SetCode s stateObject (Keccak256Hash newCode) newCode.

Definition SetState s addr key value : Hash * StateDB :=
  let '(stateObject, s) := getOrNewStateObject s addr in
  obj_SetState s stateObject key value.

Definition CreateAccount s addr : StateDB := (createObject s addr).2.

(** [None] is the panic on a missing object. *)
Definition CreateContract s addr : option StateDB :=
  let '(obj, s) := getStateObject s addr in
  match obj with
  | None => None
  | Some obj =>
      if negb (newContract obj) then
        let s := setStateObject s (set_newContract obj true) in
        Some (journal_append s (createContractChange addr))
      else Some s
  end.

Definition SelfDestruct s addr : Z * StateDB :=
  let '(stateObject, s) := getStateObject s addr in
  match stateObject with
  | None => (0, s)
  | Some obj =>
      let prevBalance := acct_Balance (data obj) in
      let '(obj, s) :=
        if negb (prevBalance =? 0) then
          (obj_setBalance obj 0, (obj_SetBalance s obj 0).2)
        else (obj, s) in
      let s :=
        if negb (selfDestructed obj) then
          let s := journal_append s (selfDestructChange addr) in
          setStateObject s (set_selfDestructed obj true)
        else s in
      (prevBalance, s)
  end.

Definition SelfDestruct6780 s addr : Z * bool * StateDB :=
  let '(stateObject, s) := getStateObject s addr in
  match stateObject with
  | None => (0, false, s)
  | Some obj =>
      if newContract obj then
        let '(prev, s) := SelfDestruct s addr in (prev, true, s)
      else (acct_Balance (data obj), false, s)
  end.

Definition setTransientState s addr key value : StateDB :=
  set_transient s (TransientStorage.Set_ (transientStorage_ s) addr key value).

Definition SetTransientState s addr key value : StateDB :=
  let prev := GetTransientState s addr key in
  if prev =? value then s
  else
    let s := journal_append s (transientStorageChange addr key prev) in
    setTransientState s addr key value.

Definition AddLog s (log : Log) : StateDB :=
  let s := journal_append s (addLogChange (thash s)) in
  let log := MkLog (log_Address log) (log_Topics log) (log_Data log) (thash s) (txIndex s)
    (logSize s) in
  set_logs s (<[thash s := default [] (logs s !! thash s) ++ [log]]> (logs s)) (logSize s + 1).

Definition AddPreimage s (hash : Hash) (preimage : bytes) : StateDB :=
  match preimages s !! hash with
  | Some _ => s
  | None => set_preimages s (<[hash := preimage]> (preimages s))
  end.

Definition AddRefund s (gas : Z) : StateDB :=
  let s := journal_append s (refundChange (refund s)) in
  set_refund s (wrap64 (refund s + gas)).

Definition SubRefund s (gas : Z) : option StateDB :=
  let s := journal_append s (refundChange (refund s)) in
  if gas >? refund s then None else Some (set_refund s (refund s - gas)).

Definition AddAddressToAccessList s addr : StateDB :=
  let '(al, added) := AccessList.AddAddress (accessList_ s) addr in
  let s := set_accessList s al in
  if added then journal_append s (accessListAddAccountChange addr) else s.

Definition AddSlotToAccessList s addr slot : StateDB :=
  let '(al, addrMod, slotMod) := AccessList.AddSlot (accessList_ s) addr slot in
  let s := set_accessList s al in
  let s := if addrMod then journal_append s (accessListAddAccountChange addr) else s in
  if slotMod then journal_append s (accessListAddSlotChange addr slot) else s.

Definition SetTxContext s (hash : Hash) (ti : Z) : StateDB := set_tx s hash ti.

(** ** Undoing *)

(** [revert] of an entry; [None] is the panic on a missing object. *)
Definition with_object s addr (f : stateObject → stateObject) : option StateDB :=
  let '(obj, s) := getStateObject s addr in
  match obj with
  | Some obj => Some (setStateObject s (f obj))
  | None => None
  end.

Definition entry_revert (entry : journalEntry) s : option StateDB :=
  match entry with
  | createObjectChange account =>
      Some (set_stateObjects s (delete account (stateObjects s)))
  | createContractChange account =>
      with_object s account (λ obj, set_newContract obj false)
  | selfDestructChange account =>
      let '(obj, s) := getStateObject s account in
      match obj with
      | Some obj => Some (setStateObject s (set_selfDestructed obj false))
      | None => Some s
      end
  | touchChange _ => Some s
  | balanceChange account prev => with_object s account (λ obj, obj_setBalance obj prev)
  | nonceChange account prev => with_object s account (λ obj, obj_setNonce obj prev)
  | codeChange account prevCode =>
      with_object s account (λ obj, obj_setCode obj (Keccak256Hash prevCode) prevCode)
  | storageChange account key prevvalue origvalue =>
      with_object s account (λ obj, obj_setState obj key prevvalue origvalue)
  | transientStorageChange account key prevalue =>
      Some (setTransientState s account key prevalue)
  | refundChange prev => Some (set_refund s prev)
  | addLogChange txhash =>
      let ls := default [] (logs s !! txhash) in
      if len ls =? 1 then Some (set_logs s (delete txhash (logs s)) (logSize s - 1))
      else if len ls =? 0 then None
      else Some (set_logs s (<[txhash := removelast ls]> (logs s)) (logSize s - 1))
  | accessListAddAccountChange address =>
      Some (set_accessList s (AccessList.DeleteAddress (accessList_ s) address))
  | accessListAddSlotChange address slot =>
      match AccessList.DeleteSlot (accessList_ s) address slot with
      | Some al => Some (set_accessList s al)
      | None => None
      end
  end.

(** The loop of the journal's [revert], over the entries from the last one. *)
Fixpoint revert_entries (es : list journalEntry) s : option StateDB :=
  match es with
  | [] => Some s
  | e :: es =>
      match entry_revert e s with
      | None => None
      | Some s =>
          let j := journal_ s in
          revert_entries es (set_journal s (StateTypes.MkJournal (entries j)
            (Journal.undirty (dirties j) e) (validRevisions j) (nextRevisionId j)))
      end
  end.

Definition journal_revert s (snapshot : Z) : option StateDB :=
  let j := journal_ s in
  match revert_entries (rev (drop (Z.to_nat snapshot) (entries j))) s with
  | None => None
  | Some s =>
      let j := journal_ s in
      Some (set_journal s (StateTypes.MkJournal (take (Z.to_nat snapshot) (entries j))
        (dirties j) (validRevisions j) (nextRevisionId j)))
  end.

Definition Snapshot s : Z * StateDB :=
  let '(id, j) := Journal.snapshot (journal_ s) in (id, set_journal s j).

Definition RevertToSnapshot s (revid : Z) : option StateDB :=
  match Journal.find_revision (journal_ s) revid with
  | None => None
  | Some (idx, r) =>
      match journal_revert s (journalIndex r) with
      | None => None
      | Some s =>
          let j := journal_ s in
          Some (set_journal s (StateTypes.MkJournal (entries j) (dirties j)
            (take (Z.to_nat idx) (validRevisions j)) (nextRevisionId j)))
      end
  end.

(** ** The end of a transaction *)

Definition clearJournalAndRefund s : StateDB :=
  let s := set_journal s (Journal.reset (journal_ s)) in
  set_refund s 0.

Definition markDelete s addr : StateDB :=
  set_mutations s (<[addr := MkMutation deletion false]> (mutations s)).

Definition markUpdate s addr : StateDB :=
  set_mutations s (<[addr := MkMutation update false]> (mutations s)).

(** One turn of the loop of an object's [finalise]. *)
Definition finalise_slot (acc : stateObject * StateDB) (slot : Hash * Hash)
    : stateObject * StateDB :=
  let '(obj, s) := acc in
  let '(key, value) := slot in
  let '(obj, s) :=
    match uncommittedStorage obj !! key with
    | Some origin =>
        if origin =? value then
          (set_pending_uncommitted obj (pendingStorage obj)
             (delete key (uncommittedStorage obj)), s)
        else (obj, s)
    | None =>
        let '(origin, obj, s) := obj_GetCommittedState s obj key in
        (set_pending_uncommitted obj (pendingStorage obj)
           (<[key := origin]> (uncommittedStorage obj)), s)
    end in
  (set_pending_uncommitted obj (<[key := value]> (pendingStorage obj)) (uncommittedStorage obj),
   s).

Definition obj_finalise `{MapRange} s (obj : stateObject) : stateObject * StateDB :=
  let '(obj, s) := fold_left finalise_slot (map_range (dirtyStorage obj)) (obj, s) in
  let obj := if map_len (dirtyStorage obj) >? 0 then set_dirtyStorage obj ∅ else obj in
  (set_newContract obj false, s).

Definition finalise_account `{MapRange} (deleteEmptyObjects : bool) s (addr : Address)
    : StateDB :=
  match stateObjects s !! addr with
  | None => s
  | Some obj =>
      if selfDestructed obj || (deleteEmptyObjects && obj_empty obj) then
        let s := set_stateObjects s (delete (obj_address obj) (stateObjects s)) in
        let s := markDelete s addr in
        if bool_decide (is_Some (stateObjectsDestruct s !! obj_address obj)) then s
        else set_destruct s (<[obj_address obj := obj]> (stateObjectsDestruct s))
      else
        let '(obj, s) := obj_finalise s obj in
        markUpdate (setStateObject s obj) addr
  end.

Definition Finalise `{MapRange} s (deleteEmptyObjects : bool) : StateDB :=
  let s := fold_left (finalise_account deleteEmptyObjects)
    (map_range (dirties (journal_ s))).*1 s in
  clearJournalAndRefund s.

(** ** Preparing and copying *)

Record Rules : Type := MkRules {
  IsEIP2929 : bool;
  IsEIP4762 : bool;
  rules_IsShanghai : bool
}.

(** The loop of [Prepare] over the access list of the transaction. *)
Definition prepare_tuple (al : accessList) (el : AccessTuple) : accessList :=
  let al := (AccessList.AddAddress al (tuple_Address el)).1 in
  fold_left (λ al key, (AccessList.AddSlot al (tuple_Address el) key).1.1)
    (tuple_StorageKeys el) al.

Definition Prepare s (rules : Rules) (sender coinbase : Address) (dst : option Address)
    (precompiles : list Address) (list : list AccessTuple) : option StateDB :=
  if IsEIP2929 rules && IsEIP4762 rules then None
  else
    let s :=
      if IsEIP2929 rules then
        let al := newAccessList in
        let al := (AccessList.AddAddress al sender).1 in
        let al := match dst with
                  | Some dst => (AccessList.AddAddress al dst).1
                  | None => al
                  end in
        let al := fold_left (λ al addr, (AccessList.AddAddress al addr).1) precompiles al in
        let al := fold_left prepare_tuple list al in
        let al :=
          if rules_IsShanghai rules then (AccessList.AddAddress al coinbase).1 else al in
        set_accessList s al
      else s in
    Some (set_transient s newTransientStorage).

Definition Copy s : StateDB := {|
  stateObjects := obj_deepCopy <$> stateObjects s;
  stateObjectsDestruct := obj_deepCopy <$> stateObjectsDestruct s;
  mutations := (λ m, MkMutation (typ m) (applied m)) <$> mutations s;
  dbErr := dbErr s;
  refund := refund s;
  thash := thash s;
  txIndex := txIndex s;
  logs := logs s;
  logSize := logSize s;
  preimages := preimages s;
  accessList_ := AccessList.Copy (accessList_ s);
  transientStorage_ := TransientStorage.Copy (transientStorage_ s);
  journal_ := Journal.copy (journal_ s)
|}.

(** [SetStorage], a debugging aid: [storage] in the order of the iteration. *)
Definition SetStorage s addr (storage : list (Hash * Hash)) : StateDB :=
  let '(obj, s) := getStateObject s addr in
  let s :=
    match obj with
    | Some obj =>
        if bool_decide (is_Some (stateObjectsDestruct s !! addr)) then s
        else set_destruct s (<[addr := obj]> (stateObjectsDestruct s))
    | None => s
    end in
  let '(_, s) := createObject s addr in
  let s := fold_left (λ s slot, (SetState s addr slot.1 slot.2).2) storage s in
  match obj with
  | Some obj =>
      let '(newObj, s) := getOrNewStateObject s addr in
      let s := (obj_SetCode s newObj (acct_CodeHash (data obj)) (code obj)).2 in
      let s := SetNonce s addr (acct_Nonce (data obj)) in
      SetBalance s addr (acct_Balance (data obj))
  | None => s
  end.
End StateDB.

(** [New] with an empty state over a reader. *)
Definition NewStateDB : StateDB := {|
  stateObjects := ∅;
  stateObjectsDestruct := ∅;
  mutations := ∅;
  dbErr := None;
  refund := 0;
  thash := 0;
  txIndex := 0;
  logs := ∅;
  logSize := 0;
  preimages := ∅;
  accessList_ := newAccessList;
  transientStorage_ := newTransientStorage;
  journal_ := Journal.newJournal
|}.
