(* ===== verification/StateEquiv.v ===== *)
(** * States that read the same

    Two states of the database are equivalent when every account, slot, code,
    flag, log, list and counter reads the same in both: the caches of loaded
    accounts and slots, the database error and the journal may differ.  The
    getters of StateDB.v are functions of the class and stay within it. *)

From S2P Require Import Prelude GoSort TxTypes AccessList StateTypes StateDB.

Section Equiv.
Context (Keccak256Hash : bytes → Hash).
Context (reader : Reader).
Implicit Types s t : StateDB.
Implicit Types o : stateObject.

Abbreviation getObject := (getStateObject Keccak256Hash reader).

(** ** What an account reads *)

(** The object at an address, loaded or not. *)
Definition obj_lookup s (addr : Address) : option stateObject :=
  match stateObjects s !! addr with
  | Some obj => Some obj
  | None =>
      if bool_decide (is_Some (stateObjectsDestruct s !! addr)) then None
      else match Account reader addr with
      | Some (Some acct) => Some (newObject Keccak256Hash addr (Some acct))
      | _ => None
      end
  end.

(** The value of a slot before and in the current transaction; [d] is the table
    of the destructed objects. *)
Definition committed (d : gmap Z stateObject) o (key : Hash) : Hash :=
  match pendingStorage o !! key with
  | Some value => value
  | None =>
      match originStorage o !! key with
      | Some value => value
      | None =>
          if bool_decide (is_Some (d !! obj_address o)) then 0
          else default 0 (Storage_ reader (obj_address o) key)
      end
  end.

Definition current (d : gmap Z stateObject) o (key : Hash) : Hash :=
  match dirtyStorage o !! key with
  | Some value => value
  | None => committed d o key
  end.

Definition code_of o : bytes :=
  if negb (len (code o) =? 0) then code o
  else if acct_CodeHash (data o) =? EmptyCodeHash Keccak256Hash then []
  else default [] (Code reader (obj_address o) (acct_CodeHash (data o))).

Record obj_equiv (d : gmap Z stateObject) o o' : Prop := {
  oe_address : obj_address o = obj_address o';
  oe_data : data o = data o';
  oe_code : code_of o = code_of o';
  oe_selfDestructed : selfDestructed o = selfDestructed o';
  oe_newContract : newContract o = newContract o';
  oe_committed key : committed d o key = committed d o' key;
  oe_current key : current d o key = current d o' key
}.

Record state_equiv s t : Prop := {
  se_destruct : stateObjectsDestruct s = stateObjectsDestruct t;
  se_refund : refund s = refund t;
  se_tx : thash s = thash t ∧ txIndex s = txIndex t;
  se_logs : logs s = logs t ∧ logSize s = logSize t;
  se_accessList : accessList_ s = accessList_ t;
  se_transient : transientStorage_ s = transientStorage_ t;
  se_objects addr : option_Forall2 (obj_equiv (stateObjectsDestruct s))
    (obj_lookup s addr) (obj_lookup t addr)
}.

#[export] Instance obj_equiv_equivalence d : Equivalence (obj_equiv d).
Proof.
  split.
  - intros o. by split.
  - intros o o' []. split; intros; congruence.
  - intros o1 o2 o3 [] []. split; intros; congruence.
Qed.

#[export] Instance state_equiv_equivalence : Equivalence state_equiv.
Proof.
  split.
  - intros s. by split.
  - intros s t [Hd Hr Ht Hl Ha Hts Ho]. split; try done; try tauto; try (intuition congruence).
    intros a. rewrite <-Hd. symmetry. apply Ho.
  - intros s1 s2 s3 [Hd Hr Ht Hl Ha Hts Ho] [Hd' Hr' Ht' Hl' Ha' Hts' Ho'].
    split; try (intuition congruence).
    intros a. etrans; [apply Ho|]. rewrite Hd. apply Ho'.
Qed.

Infix "≈" := state_equiv (at level 70).

(** ** Well-formed states *)

Record state_wf s : Prop := {
  sw_address addr obj : stateObjects s !! addr = Some obj → obj_address obj = addr;
  sw_logs h : logs s !! h ≠ Some [];
  sw_accessList : AccessList.wf (accessList_ s);
  sw_transient : TransientStorage.wf (transientStorage_ s)
}.

Lemma NewStateDB_wf : state_wf NewStateDB.
Proof.
  split; simpl.
  - intros a o. by rewrite lookup_empty.
  - intros h. by rewrite lookup_empty.
  - apply AccessList.newAccessList_wf.
  - apply TransientStorage.new_wf.
Qed.

Lemma obj_lookup_address s a o : state_wf s → obj_lookup s a = Some o → obj_address o = a.
Proof.
  intros Hw. unfold obj_lookup. destruct (stateObjects s !! a) eqn:Ha.
  - intros. simplify_eq. by eapply sw_address.
  - case_bool_decide; [done|]. destruct (Account reader a) as [[acct|]|]; intros; by simplify_eq.
Qed.

(** ** Fields that the objects do not depend on *)

Lemma setError_fields s err :
  stateObjects (setError s err) = stateObjects s ∧
  stateObjectsDestruct (setError s err) = stateObjectsDestruct s ∧
  journal_ (setError s err) = journal_ s ∧ logs (setError s err) = logs s ∧
  accessList_ (setError s err) = accessList_ s ∧
  transientStorage_ (setError s err) = transientStorage_ s.
Proof. unfold setError. by destruct (dbErr s). Qed.

Lemma setError_equiv s err : setError s err ≈ s.
Proof. unfold setError. destruct (dbErr s); [done|]. by split. Qed.

Lemma setError_wf s err : state_wf s → state_wf (setError s err).
Proof. unfold setError. destruct (dbErr s); [done|]. intros []. by split. Qed.

Lemma set_journal_equiv s j : set_journal s j ≈ s.
Proof. by split. Qed.

Lemma set_journal_wf s j : state_wf s → state_wf (set_journal s j).
Proof. intros []. by split. Qed.

(** ** Writing an object back *)

Lemma obj_lookup_set s o a :
  obj_lookup (setStateObject s o) a
  = if bool_decide (obj_address o = a) then Some o else obj_lookup s a.
Proof.
  unfold obj_lookup, setStateObject. simpl. destruct (decide (obj_address o = a)) as [Ha|Ha].
  - by rewrite Ha, lookup_insert_eq, (bool_decide_eq_true_2 (a = a)).
  - by rewrite lookup_insert_ne, (bool_decide_eq_false_2 (obj_address o = a)).
Qed.

Lemma setStateObject_wf s o : state_wf s → state_wf (setStateObject s o).
Proof.
  intros []. split; try done. simpl. intros a o'.
  rewrite lookup_insert_Some. intros [[<- <-]|[_ Ho]]; [done|eauto].
Qed.

Lemma setStateObject_equiv s t o o' :
  s ≈ t → obj_equiv (stateObjectsDestruct s) o o' → setStateObject s o ≈ setStateObject t o'.
Proof.
  intros [Hd Hr Htx Hl Ha Ht Ho] Hoo. split; try done. intros a. rewrite !obj_lookup_set.
  simpl. rewrite (oe_address _ _ _ Hoo). case_bool_decide; [by constructor|apply Ho].
Qed.

(** An object that reads the same may replace the one in the table. *)
Lemma setStateObject_same s o o' :
  obj_lookup s (obj_address o') = Some o' → obj_equiv (stateObjectsDestruct s) o o' →
  setStateObject s o ≈ s.
Proof.
  intros Hl Hoo. split; try done. intros a. rewrite obj_lookup_set. simpl.
  rewrite (oe_address _ _ _ Hoo). case_bool_decide as Ha; [|reflexivity].
  rewrite <-Ha, Hl. by constructor.
Qed.

(** ** Reading an object *)

Lemma getStateObject_spec s a :
  state_wf s →
  (getObject s a).1 = obj_lookup s a ∧ (getObject s a).2 ≈ s ∧ state_wf (getObject s a).2 ∧
  journal_ (getObject s a).2 = journal_ s ∧
  stateObjectsDestruct (getObject s a).2 = stateObjectsDestruct s ∧
  (∀ o, obj_lookup s a = Some o → stateObjects (getObject s a).2 !! a = Some o).
Proof.
  intros Hw. unfold getStateObject, obj_lookup.
  destruct (stateObjects s !! a) as [o|] eqn:Ha; simpl.
  { split_and!; try done. intros; by simplify_eq. }
  case_bool_decide as Hd; simpl; [by split_and!|].
  destruct (Account reader a) as [[acct|]|] eqn:Hacct; simpl.
  - split_and!; try done.
    + assert (obj_lookup s a = Some (newObject Keccak256Hash a (Some acct))) as Hl.
      { unfold obj_lookup. by rewrite Ha, bool_decide_eq_false_2, Hacct. }
      by apply (setStateObject_same s _ (newObject Keccak256Hash a (Some acct))).
    + by apply setStateObject_wf.
    + intros. simplify_eq. by rewrite lookup_insert_eq.
  - by split_and!.
  - destruct (setError_fields s (errGetObject a)) as (_ & Hd' & Hj & _).
    split_and!; try done; [apply setError_equiv|by apply setError_wf].
Qed.

Lemma obj_GetCommittedState_spec s o k :
  let r := obj_GetCommittedState reader s o k in
  r.1.1 = committed (stateObjectsDestruct s) o k ∧
  obj_equiv (stateObjectsDestruct s) r.1.2 o ∧ r.2 ≈ s ∧
  dirtyStorage r.1.2 = dirtyStorage o ∧ pendingStorage r.1.2 = pendingStorage o ∧
  uncommittedStorage r.1.2 = uncommittedStorage o ∧
  journal_ r.2 = journal_ s ∧ stateObjectsDestruct r.2 = stateObjectsDestruct s ∧
  stateObjects r.2 = stateObjects s ∧ (state_wf s → state_wf r.2).
Proof.
  unfold obj_GetCommittedState, committed.
  destruct (pendingStorage o !! k) as [v|] eqn:Hp; simpl; [by split_and!|].
  destruct (originStorage o !! k) as [v|] eqn:Ho; simpl; [by split_and!|].
  assert (∀ v, committed (stateObjectsDestruct s) o k = v →
    obj_equiv (stateObjectsDestruct s)
      (set_originStorage o (<[k := v]> (originStorage o))) o) as Hcache.
  { intros v Hv. assert (∀ j, committed (stateObjectsDestruct s)
      (set_originStorage o (<[k := v]> (originStorage o))) j
      = committed (stateObjectsDestruct s) o j) as Hc.
    { intros j. unfold committed in *. simpl. destruct (pendingStorage o !! j) eqn:Hj; [done|].
      destruct (decide (k = j)) as [<-|Hne]; [|by rewrite lookup_insert_ne].
      rewrite lookup_insert_eq. by rewrite Hj in Hv. }
    split; try done. intros j. unfold current. simpl. by rewrite Hc. }
  unfold committed in Hcache. rewrite Hp, Ho in Hcache.
  case_bool_decide as Hd; simpl; [by split_and!; try done; apply Hcache|].
  destruct (Storage_ reader (obj_address o) k) as [v|]; simpl in *.
  - by split_and!; try done; apply Hcache.
  - destruct (setError_fields s (errStorage (obj_address o) k)) as (Hs & Hd' & Hj & _).
    split_and!; try done; [apply setError_equiv|intros; by apply setError_wf].
Qed.

Lemma obj_getState_spec s o k :
  let r := obj_getState reader s o k in
  r.1.1.1 = current (stateObjectsDestruct s) o k ∧
  r.1.1.2 = committed (stateObjectsDestruct s) o k ∧
  obj_equiv (stateObjectsDestruct s) r.1.2 o ∧ r.2 ≈ s ∧
  dirtyStorage r.1.2 = dirtyStorage o ∧
  journal_ r.2 = journal_ s ∧ stateObjectsDestruct r.2 = stateObjectsDestruct s ∧
  stateObjects r.2 = stateObjects s ∧ (state_wf s → state_wf r.2).
Proof.
  unfold obj_getState, current.
  pose proof (obj_GetCommittedState_spec s o k) as Hc.
  destruct (obj_GetCommittedState reader s o k) as [[v o'] s']. simpl in Hc.
  destruct Hc as (-> & Hoo & Hss & Hdirty & _ & _ & Hj & Hd & Hst & Hw).
  rewrite Hdirty. destruct (dirtyStorage o !! k); by split_and!.
Qed.
End Equiv.

(** * What a journal entry undoes

    Each operation of StateDB.v appends to the journal entries that lead back:
    [trace s es t] says that undoing [es], from the last to the first, takes a
    state that reads like [t] to one that reads like [s].  One lemma per
    operation shows that it [extends] the journal this way. *)

Section Undo.
Context (Keccak256Hash : bytes → Hash).
Context (reader : Reader).
Implicit Types s t : StateDB.
Implicit Types o : stateObject.

Abbreviation getObject := (getStateObject Keccak256Hash reader).
Abbreviation lookup_obj := (obj_lookup Keccak256Hash reader).
Abbreviation oequiv := (obj_equiv Keccak256Hash reader).
Abbreviation undo := (entry_revert Keccak256Hash reader).
Infix "≈" := (state_equiv Keccak256Hash reader) (at level 70).

(** ** Traces *)

(** Undoing [e] takes any state that reads like [t] to one that reads like [s],
    and does not panic. *)
Definition undoes (e : journalEntry) t s : Prop :=
  ∀ u, state_wf u → u ≈ t →
  ∃ u', undo e u = Some u' ∧ state_wf u' ∧ u' ≈ s ∧ journal_ u' = journal_ u.

Inductive trace : StateDB → list journalEntry → StateDB → Prop :=
  | trace_nil s t : s ≈ t → trace s [] t
  | trace_snoc s es t e u : trace s es t → undoes e u t → trace s (es ++ [e]) u.

Lemma undoes_equiv e t t' s : t' ≈ t → undoes e t s → undoes e t' s.
Proof. intros Ht Hu u Hw Heq. apply Hu; [done|]. by etrans. Qed.

Lemma trace_equiv_r s es t t' : t ≈ t' → trace s es t → trace s es t'.
Proof.
  intros Ht Htr. destruct Htr as [s t Hs|s es t1 e u Htr Hu].
  - constructor. by etrans.
  - econstructor; [done|]. eapply undoes_equiv; [|done]. by symmetry.
Qed.

Lemma trace_trans s es t fs u : trace s es t → trace t fs u → trace s (es ++ fs) u.
Proof.
  intros Hst. induction 1 as [t u Ht|t fs u e v _ IH Hu].
  - rewrite app_nil_r. by eapply trace_equiv_r.
  - rewrite app_assoc. econstructor; eauto.
Qed.

Lemma trace_snoc_inv s es e u : trace s (es ++ [e]) u → ∃ t, trace s es t ∧ undoes e u t.
Proof.
  intros Htr. remember (es ++ [e]) as l eqn:Hl. destruct Htr as [|s es' t e' u Htr Hu].
  - by destruct es.
  - apply app_inj_tail in Hl as [-> ->]. eauto.
Qed.

Lemma trace_split s es fs u : trace s (es ++ fs) u → ∃ t, trace s es t ∧ trace t fs u.
Proof.
  revert u. induction fs as [|e fs IH] using rev_ind; intros u Htr.
  - rewrite app_nil_r in Htr. exists u. split; [done|]. by constructor.
  - rewrite app_assoc in Htr. apply trace_snoc_inv in Htr as (t & Htr & Hu).
    destruct (IH t Htr) as (m & H1 & H2). exists m. split; [done|]. by econstructor.
Qed.

(** The loop of [revert] over a trace. *)
Lemma revert_entries_trace s es t :
  trace s es t → ∀ u, state_wf u → u ≈ t →
  ∃ u', revert_entries Keccak256Hash reader (rev es) u = Some u' ∧ state_wf u' ∧ u' ≈ s ∧
    entries (journal_ u') = entries (journal_ u) ∧
    validRevisions (journal_ u') = validRevisions (journal_ u) ∧
    nextRevisionId (journal_ u') = nextRevisionId (journal_ u).
Proof.
  induction 1 as [s t Hs|s es t e v Htr IH Hu]; intros u Hw Heq.
  - exists u. simpl. split_and!; try done. etrans; [done|]. by symmetry.
  - rewrite rev_unit. simpl. destruct (Hu u Hw Heq) as (u1 & -> & Hw1 & Heq1 & Hj1).
    set (j := StateTypes.MkJournal _ _ _ _).
    destruct (IH (set_journal u1 j)) as (u' & Hr & Hw' & Heq' & He & Hv & Hn).
    + by apply set_journal_wf.
    + etrans; [apply set_journal_equiv|done].
    + exists u'. simpl in He, Hv, Hn. rewrite He, Hv, Hn, Hj1. by split_and!.
Qed.

(** ** Extensions of the journal *)

Record extends s (es : list journalEntry) t : Prop := {
  ex_entries : entries (journal_ t) = entries (journal_ s) ++ es;
  ex_revisions : validRevisions (journal_ t) = validRevisions (journal_ s);
  ex_nextId : nextRevisionId (journal_ t) = nextRevisionId (journal_ s);
  ex_trace : trace s es t;
  ex_wf : state_wf t
}.

Lemma extends_refl s t : state_wf t → t ≈ s → journal_ t = journal_ s → extends s [] t.
Proof.
  intros Hw Heq Hj. split; rewrite ?Hj, ?app_nil_r; try done. constructor. by symmetry.
Qed.

Lemma extends_trans s es t fs u : extends s es t → extends t fs u → extends s (es ++ fs) u.
Proof.
  intros [He Hr Hn Ht Hw] [He' Hr' Hn' Ht' Hw']. split; [|congruence|congruence|by eapply trace_trans|done].
  by rewrite He', He, app_assoc.
Qed.

Lemma append_journal j e :
  entries (Journal.append j e) = entries j ++ [e] ∧
  validRevisions (Journal.append j e) = validRevisions j ∧
  nextRevisionId (Journal.append j e) = nextRevisionId j.
Proof. unfold Journal.append. by destruct (Journal.dirtied e). Qed.

(** One entry, for a state with that entry appended. *)
Lemma extends_one s e t :
  state_wf t → journal_ t = Journal.append (journal_ s) e → undoes e t s → extends s [e] t.
Proof.
  intros Hw Hj Hu. destruct (append_journal (journal_ s) e) as (He & Hr & Hn).
  split; rewrite ?Hj; try done.
  apply (trace_snoc s [] s e t); [by constructor|done].
Qed.

(** ** Objects *)

(** Undoing a change of one object. *)
Lemma undoes_object e a (f : stateObject → stateObject) s o0 o1 t :
  state_wf s →
  (∀ u o, state_wf u → lookup_obj u a = Some o →
    undo e u = with_object Keccak256Hash reader u a f) →
  lookup_obj s a = Some o0 → obj_address o1 = a → t ≈ setStateObject s o1 →
  (∀ o, oequiv (stateObjectsDestruct s) o o1 → oequiv (stateObjectsDestruct s) (f o) o0) →
  undoes e t s.
Proof.
  intros Hws Hundo Ho0 Ha1 Ht Hf u Hw Hu.
  assert (u ≈ setStateObject s o1) as Hus by by etrans.
  destruct Hus as [Hd Hr Htx Hl Hal Hts Hobj]. simpl in *.
  pose proof (Hobj a) as Hoa. rewrite obj_lookup_set in Hoa.
  rewrite bool_decide_eq_true_2 in Hoa by done. inversion Hoa as [o ? Hoo Hlu|]; subst.
  symmetry in Hlu.
  rewrite (Hundo u o Hw Hlu).
  unfold with_object.
  destruct (getStateObject_spec Keccak256Hash reader u (obj_address o1) Hw)
    as (H1 & H2 & H3 & H4 & H5 & _).
  destruct (getObject u (obj_address o1)) as [ro u1]. simpl in *. subst ro. rewrite Hlu.
  rewrite Hd in Hoo. pose proof (Hf o Hoo) as Hfo.
  assert (obj_address o0 = obj_address o1) as Ha0
    by exact (obj_lookup_address Keccak256Hash reader s _ _ Hws Ho0).
  eexists. split; [done|]. split; [by apply setStateObject_wf|]. split; [|done].
  destruct H2 as [Hd2 Hr2 Htx2 Hl2 Hal2 Hts2 Hobj2].
  split; simpl; try (intuition congruence).
  intros b. rewrite obj_lookup_set, (oe_address _ _ _ _ _ Hfo), Ha0.
  destruct (decide (obj_address o1 = b)) as [<-|Hb].
  - rewrite bool_decide_eq_true_2, Ho0 by done. rewrite Hd2, Hd. by constructor.
  - rewrite bool_decide_eq_false_2 by done. etrans; [apply Hobj2|].
    rewrite Hd2. specialize (Hobj b). rewrite obj_lookup_set, bool_decide_eq_false_2 in Hobj by done.
    done.
Qed.

(** An operation that replaces one object and logs how to undo it. *)
Lemma extends_object s e a f o0 o1 :
  state_wf s → lookup_obj s a = Some o0 → obj_address o1 = a →
  (∀ u o, state_wf u → lookup_obj u a = Some o →
    undo e u = with_object Keccak256Hash reader u a f) →
  (∀ o, oequiv (stateObjectsDestruct s) o o1 → oequiv (stateObjectsDestruct s) (f o) o0) →
  extends s [e] (setStateObject (journal_append s e) o1).
Proof.
  intros Hw Ho0 Ha Hundo Hf. apply extends_one.
  - by apply setStateObject_wf, set_journal_wf.
  - done.
  - eapply (undoes_object e a f s o0 o1); try done.
Qed.

(** The object that an operation works on, created when missing. *)
Lemma getStateObject_extends s a :
  state_wf s → extends s [] (getObject s a).2.
Proof.
  intros Hw. destruct (getStateObject_spec Keccak256Hash reader s a Hw) as (_ & H2 & H3 & H4 & _).
  by apply extends_refl.
Qed.

Lemma lookup_of_table s a o : stateObjects s !! a = Some o → lookup_obj s a = Some o.
Proof. unfold obj_lookup. by intros ->. Qed.

Lemma createObject_extends s a :
  state_wf s → lookup_obj s a = None →
  let r := createObject Keccak256Hash s a in
  extends s [createObjectChange a] r.2 ∧ lookup_obj r.2 a = Some r.1 ∧ obj_address r.1 = a.
Proof.
  intros Hw Hnone. simpl. split_and!; [|by rewrite obj_lookup_set, bool_decide_eq_true_2|done].
  apply extends_one; [by apply setStateObject_wf, set_journal_wf|done|].
  intros u Hwu Hu. simpl. eexists. split; [done|]. split; [|split; [|done]].
  - destruct Hwu. split; try done. simpl. intros b o [_ Hb]%lookup_delete_Some. eauto.
  - destruct Hu as [Hd Hr Htx Hl Hal Hts Hobj]. simpl in *. split; try done.
    intros b. simpl. destruct (decide (a = b)) as [<-|Hb].
    + rewrite Hnone. unfold obj_lookup in *. simpl in *. rewrite lookup_delete_eq, Hd.
      destruct (stateObjects s !! a) eqn:Hs; [done|]. rewrite Hnone. constructor.
    + specialize (Hobj b). rewrite obj_lookup_set, bool_decide_eq_false_2 in Hobj by done.
      unfold obj_lookup in *. simpl in *. by rewrite lookup_delete_ne.
Qed.

Lemma getOrNewStateObject_extends s a :
  state_wf s →
  let r := getOrNewStateObject Keccak256Hash reader s a in
  ∃ es, extends s es r.2 ∧ lookup_obj r.2 a = Some r.1 ∧ obj_address r.1 = a ∧
    (∀ o, lookup_obj s a = Some o → r.1 = o) ∧
    (lookup_obj s a = None → r.1 = newObject Keccak256Hash a None).
Proof.
  intros Hw. unfold getOrNewStateObject.
  destruct (getStateObject_spec Keccak256Hash reader s a Hw) as (H1 & H2 & H3 & H4 & H5 & H6).
  pose proof (getStateObject_extends s a Hw) as Hext.
  destruct (getObject s a) as [[o|] s1]; simpl in *.
  - exists []. split_and!; [done| | | |by rewrite <-H1].
    + apply lookup_of_table. apply H6. by symmetry.
    + by apply (obj_lookup_address Keccak256Hash reader s).
    + intros o' Ho'. congruence.
  - assert (lookup_obj s1 a = None) as Hn.
    { pose proof (se_objects _ _ _ _ H2 a) as Ho. rewrite <-H1 in Ho. by inversion Ho. }
    destruct (createObject_extends s1 a H3 Hn) as (He & Hl & Ha).
    exists ([] ++ [createObjectChange a]). split_and!; [by eapply extends_trans|done|done| |done].
    intros o Ho. congruence.
Qed.
End Undo.
