(* ===== verification/StateRevert.v ===== *)
(** * Snapshots and reverts

    Every operation of StateDB.v extends the journal by entries that undo it
    (StateEquiv.v); so reverting to a snapshot gives back a state that reads like
    the one at which the snapshot was taken, whatever was done in between. *)

From S2P Require Import Prelude GoSort TxTypes AccessList StateTypes StateDB StateEquiv.

Section Revert.
Context (Keccak256Hash : bytes → Hash).
Context (reader : Reader).
Implicit Types s t : StateDB.
Implicit Types o : stateObject.

Abbreviation getObject := (getStateObject Keccak256Hash reader).
Abbreviation lookup_obj := (obj_lookup Keccak256Hash reader).
Abbreviation oequiv := (obj_equiv Keccak256Hash reader).
Abbreviation undo := (entry_revert Keccak256Hash reader).
Abbreviation ext := (extends Keccak256Hash reader).
Abbreviation code_at := (code_of Keccak256Hash reader).
Abbreviation committed_ := (committed reader).
Abbreviation current_ := (current reader).
Infix "≈" := (state_equiv Keccak256Hash reader) (at level 70).

(** ** Changes of one object *)

(** A change of the account data that keeps the code hash. *)
Lemma undo_data o o0 d (f g : StateAccount → StateAccount) :
  (∀ a, acct_CodeHash (f a) = acct_CodeHash a) → (∀ a, acct_CodeHash (g a) = acct_CodeHash a) →
  f (g (data o0)) = data o0 →
  oequiv d o (set_data o0 (g (data o0))) → oequiv d (set_data o (f (data o))) o0.
Proof.
  intros Hf Hg Hfg [Ha Hd Hc Hs Hn Hco Hcu]. simpl in *. split; simpl; try done.
  - by rewrite Hd.
  - unfold code_of in *. simpl in *. by rewrite Hf, Hc, Hg.
Qed.

Lemma obj_SetBalance_extends s a o x :
  state_wf s → lookup_obj s a = Some o → obj_address o = a →
  ext s [balanceChange a (acct_Balance (data o))] (obj_SetBalance s o x).2.
Proof.
  intros Hw Hl Ha. unfold obj_SetBalance. simpl. rewrite Ha.
  apply (extends_object _ _ s _ a (λ u, obj_setBalance u (acct_Balance (data o))) o); try done.
  intros u Hu. unfold obj_setBalance in *.
  apply (undo_data u o _ (λ d, MkAccount (acct_Nonce d) (acct_Balance (data o)) (acct_Root d)
    (acct_CodeHash d)) (λ d, MkAccount (acct_Nonce d) x (acct_Root d) (acct_CodeHash d)));
    try done. simpl. by destruct (data o).
Qed.

Lemma obj_SetNonce_extends s a o n :
  state_wf s → lookup_obj s a = Some o → obj_address o = a →
  ext s [nonceChange a (acct_Nonce (data o))] (obj_SetNonce s o n).
Proof.
  intros Hw Hl Ha. unfold obj_SetNonce. rewrite Ha.
  apply (extends_object _ _ s _ a (λ u, obj_setNonce u (acct_Nonce (data o))) o); try done.
  intros u Hu. unfold obj_setNonce in *.
  apply (undo_data u o _ (λ d, MkAccount (acct_Nonce (data o)) (acct_Balance d) (acct_Root d)
    (acct_CodeHash d)) (λ d, MkAccount n (acct_Balance d) (acct_Root d) (acct_CodeHash d)));
    try done. simpl. by destruct (data o).
Qed.

(** The code of the object is loaded, or there is none. *)
Definition code_loaded o : Prop := Keccak256Hash (code o) = acct_CodeHash (data o).

Lemma obj_SetCode_extends s a o h c :
  state_wf s → lookup_obj s a = Some o → obj_address o = a → code_loaded o →
  ext s [codeChange a (code o)] (obj_SetCode s o h c).2.
Proof.
  intros Hw Hl Ha Hload. unfold obj_SetCode. simpl. rewrite Ha.
  apply (extends_object _ _ s _ a
    (λ u, obj_setCode u (Keccak256Hash (code o)) (code o)) o); try done.
  intros u [Hua Hud Huc Hus Hun Huco Hucu]. simpl in *. split; simpl; try done.
  - rewrite Hud, Hload. simpl. by destruct (data o).
  - unfold code_of. simpl. by rewrite Hload, Hua.
Qed.

Lemma current_setState d o k w orig j :
  current_ d (obj_setState o k w orig) j
  = if bool_decide (k = j) then (if w =? orig then committed_ d o k else w)
    else current_ d o j.
Proof.
  unfold current, obj_setState. destruct (Z.eqb_spec w orig) as [->|Hw]; simpl.
  - case_bool_decide as Hk; [subst; by rewrite lookup_delete_eq|by rewrite lookup_delete_ne].
  - case_bool_decide as Hk; [subst; by rewrite lookup_insert_eq|by rewrite lookup_insert_ne].
Qed.

Lemma setState_frame o k w orig :
  obj_address (obj_setState o k w orig) = obj_address o ∧
  data (obj_setState o k w orig) = data o ∧
  code_at (obj_setState o k w orig) = code_at o ∧
  selfDestructed (obj_setState o k w orig) = selfDestructed o ∧
  newContract (obj_setState o k w orig) = newContract o ∧
  ∀ d j, committed_ d (obj_setState o k w orig) j = committed_ d o j.
Proof. unfold obj_setState. by destruct (w =? orig). Qed.

Lemma undo_setState d o u k v :
  oequiv d u (obj_setState o k v (committed_ d o k)) →
  oequiv d (obj_setState u k (current_ d o k) (committed_ d o k)) o.
Proof.
  intros [Ha Hd Hc Hs Hn Hco Hcu].
  destruct (setState_frame o k v (committed_ d o k)) as (H1 & H2 & H3 & H4 & H5 & H6).
  destruct (setState_frame u k (current_ d o k) (committed_ d o k))
    as (U1 & U2 & U3 & U4 & U5 & U6).
  split; [congruence|congruence|congruence|congruence|congruence|intros j|intros j].
  - by rewrite U6, Hco, H6.
  - specialize (Hcu j). rewrite current_setState in Hcu |- *.
    case_bool_decide as Hk; [subst j|done].
    destruct (Z.eqb_spec (current_ d o k) (committed_ d o k)) as [->|]; [|done].
    by rewrite Hco, H6.
Qed.

Lemma setState_equiv d o o' k v w :
  oequiv d o o' → oequiv d (obj_setState o k v w) (obj_setState o' k v w).
Proof.
  intros [Ha Hd Hc Hs Hn Hco Hcu].
  destruct (setState_frame o k v w) as (H1 & H2 & H3 & H4 & H5 & H6).
  destruct (setState_frame o' k v w) as (U1 & U2 & U3 & U4 & U5 & U6).
  split; [congruence|congruence|congruence|congruence|congruence|intros j|intros j].
  - by rewrite U6, H6.
  - rewrite !current_setState. case_bool_decide; [|done]. by rewrite Hco.
Qed.

Lemma obj_SetState_extends s a o k v :
  state_wf s → lookup_obj s a = Some o → obj_address o = a →
  ∃ es, ext s es (obj_SetState reader s o k v).2.
Proof.
  intros Hw Hl Ha. unfold obj_SetState.
  pose proof (obj_getState_spec Keccak256Hash reader s o k) as Hg.
  destruct (obj_getState reader s o k) as [[[prev orig] o'] s']. simpl in Hg.
  destruct Hg as (-> & -> & Hoo & Hss & Hdirty & Hj & Hd & Hst & Hw').
  specialize (Hw' Hw).
  assert (lookup_obj s' a = Some o) as Hl'.
  { unfold obj_lookup in *. by rewrite Hst, Hd. }
  assert (ext s [] s') as Hcache by by apply extends_refl.
  assert (obj_address o' = a) as Ha' by (rewrite (oe_address _ _ _ _ _ Hoo); done).
  destruct (Z.eqb_spec (current_ (stateObjectsDestruct s) o k) v) as [Heq|Hne]; simpl.
  - exists ([] ++ []). eapply extends_trans; [exact Hcache|].
    apply extends_refl; [by apply setStateObject_wf| |done].
    apply (setStateObject_same _ _ s' o' o); [by rewrite Ha|by rewrite Hd].
  - eexists ([] ++ _). eapply extends_trans; [exact Hcache|]. rewrite Ha', <-Hd.
    apply (extends_object _ _ s' _ a (λ u, obj_setState u k
      (current_ (stateObjectsDestruct s') o k) (committed_ (stateObjectsDestruct s') o k)) o);
      try done.
    + by destruct (setState_frame o' k v (committed_ (stateObjectsDestruct s') o k)) as (-> & _).
    + intros u Hlu. apply (undo_setState _ o u k v). etrans; [exact Hlu|].
      apply setState_equiv. by rewrite Hd.
Qed.

(** ** Other parts of the state *)

Lemma refund_extends s n :
  state_wf s →
  ext s [refundChange (refund s)] (set_refund (journal_append s (refundChange (refund s))) n).
Proof.
  intros Hw. apply extends_one; [|done|].
  - destruct Hw. by split.
  - intros u Hwu [Hd Hr Htx Hl Hal Hts Hobj]. eexists. split; [done|].
    split; [destruct Hwu; by split|]. by split.
Qed.

Lemma transient_extends s a k v :
  state_wf s → ext s [transientStorageChange a k (GetTransientState s a k)]
    (setTransientState (journal_append s (transientStorageChange a k (GetTransientState s a k)))
      a k v).
Proof.
  intros Hw. apply extends_one; [|done|].
  - destruct Hw. split; try done. simpl. by apply TransientStorage.Set_wf.
  - intros u Hwu [Hd Hr Htx Hl Hal Hts Hobj]. eexists. split; [done|].
    split; [destruct Hwu; split; try done; by apply TransientStorage.Set_wf|].
    split; [|done]. split; try done. simpl. rewrite Hts. simpl.
    apply TransientStorage.Set_undo. apply Hw.
Qed.

Lemma access_address_extends s a :
  state_wf s → ∃ es, ext s es (AddAddressToAccessList s a).
Proof.
  intros Hw. unfold AddAddressToAccessList.
  pose proof (AccessList.DeleteAddress_AddAddress (accessList_ s) a) as Hundo.
  pose proof (AccessList.AddAddress_wf (accessList_ s) a (sw_accessList _ Hw)) as Hal.
  destruct (AccessList.AddAddress (accessList_ s) a) as [al added] eqn:Hadd. simpl in *.
  destruct added.
  - exists [accessListAddAccountChange a]. apply extends_one; [|done|].
    + destruct Hw. by split.
    + intros u Hwu [Hd Hr Htx Hl Hala Hts Hobj]. simpl in *. eexists. split; [done|].
      rewrite Hala, Hundo by done. split; [destruct Hwu, Hw; by split|]. by split.
  - exists []. unfold AccessList.AddAddress in Hadd.
    destruct (addresses (accessList_ s) !! a); simplify_eq.
    apply extends_refl; [destruct Hw; by split|by split|done].
Qed.

Lemma access_slot_extends s a k :
  state_wf s → ∃ es, ext s es (AddSlotToAccessList s a k).
Proof.
  intros Hw. unfold AddSlotToAccessList.
  pose proof (AccessList.DeleteSlot_AddSlot (accessList_ s) a k (sw_accessList _ Hw)) as Hundo.
  pose proof (AccessList.AddSlot_wf (accessList_ s) a k (sw_accessList _ Hw)) as Hal.
  pose proof (AccessList.AddAddress_wf (accessList_ s) a (sw_accessList _ Hw)) as Hala.
  destruct (AccessList.AddSlot (accessList_ s) a k) as [[al addrMod] slotMod] eqn:Hadd.
  simpl in *. destruct slotMod.
  - destruct (Hundo eq_refl) as (Hslot & _ & Hat & Haf).
    set (al1 := (AccessList.AddAddress (accessList_ s) a).1) in *.
    assert (∀ t0, state_wf t0 → accessList_ t0 = al1 →
      ext t0 [accessListAddSlotChange a k]
        (journal_append (set_accessList t0 al) (accessListAddSlotChange a k))) as Hstep.
    { intros t0 Hw0 Ht0. apply extends_one; [destruct Hw0; by split|done|].
      intros u Hwu [Hd Hr Htx Hl Halu Hts Hobj]. simpl in *. rewrite Halu, Hslot.
      eexists. split; [done|]. split; [destruct Hwu, Hw0; split; try done; by rewrite <-Ht0|].
      by split. }
    destruct addrMod.
    + eexists ([_] ++ [_]). eapply extends_trans.
      * apply (extends_one _ _ s (accessListAddAccountChange a)
          (journal_append (set_accessList s al1) (accessListAddAccountChange a)));
          [destruct Hw; by split|done|].
        intros u Hwu [Hd Hr Htx Hl Halu Hts Hobj]. simpl in *. eexists. split; [done|].
        rewrite Halu, Hat by done. split; [destruct Hwu, Hw; by split|]. by split.
      * apply Hstep; [destruct Hw; by split|done].
    + exists [accessListAddSlotChange a k]. apply Hstep; [done|]. by rewrite Haf.
  - exists []. unfold AccessList.AddSlot in Hadd.
    destruct (bool_decide (_ = None) || _); [simplify_eq|].
    destruct (bool_decide (k ∈ _)); simplify_eq.
    apply extends_refl; [destruct Hw; by split|by split|done].
Qed.

Lemma log_extends s log :
  state_wf s → ext s [addLogChange (thash s)] (AddLog s log).
Proof.
  intros Hw. unfold AddLog. set (l := MkLog _ _ _ _ _ _). simpl.
  set (old := default [] (logs s !! thash s)).
  apply extends_one; [|done|].
  - destruct Hw as [Hwa Hwl ? ?]. split; try done. simpl. intros h.
    rewrite lookup_insert_Some. intros [[_ Hn]|[_ Hh]]; [by destruct old|by apply (Hwl h)].
  - intros u Hwu [Hd Hr Htx [Hl Hn] Hal Hts Hobj]. simpl in *. rewrite Hl, lookup_insert_eq. simpl.
    rewrite len_app, len_cons, (len_nil (A:=Log)). rewrite Hn.
    assert (∀ ls, (∀ h, ls !! h ≠ Some []) → ls = logs s →
      state_wf (set_logs u ls (logSize s + 1 - 1)) ∧ set_logs u ls (logSize s + 1 - 1) ≈ s) as Hend.
    { intros ls Hls ->. split; [destruct Hwu; by split|]. split; try done. simpl.
      split; [done|lia]. }
    pose proof (sw_logs _ Hw (thash s)) as Hwl.
    destruct (logs s !! thash s) as [ls|] eqn:Hls; simpl in old.
    + subst old. assert (0 < len ls) as Hpos.
      { destruct ls as [|x ls']; [done|]. rewrite len_cons. pose proof (len_nonneg ls'). lia. }
      destruct (Z.eqb_spec (len ls + (1 + 0)) 1); [lia|].
      destruct (Z.eqb_spec (len ls + (1 + 0)) 0); [lia|].
      eexists. split; [done|]. rewrite removelast_last, insert_insert_eq, insert_id by done.
      destruct (Hend (logs s)) as [? ?]; [apply Hw|done|]. done.
    + simpl. eexists. split; [done|]. rewrite delete_insert_id by done.
      destruct (Hend (logs s)) as [? ?]; [apply Hw|done|]. done.
Qed.
End Revert.

(** * Scopes

    The operations of a transaction on the state database as a data type, and
    the theorem on snapshots: from [Snapshot] through any sequence of operations,
    nested snapshots and reverts included, to [RevertToSnapshot]. *)

(** ** Operations *)

Inductive tx_op : Type :=
  | OpGetBalance (a : Address)
  | OpGetNonce (a : Address)
  | OpGetCode (a : Address)
  | OpGetCodeSize (a : Address)
  | OpGetState (a : Address) (k : Hash)
  | OpGetCommittedState (a : Address) (k : Hash)
  | OpAddBalance (a : Address) (x : Z)
  | OpSubBalance (a : Address) (x : Z)
  | OpSetBalance (a : Address) (x : Z)
  | OpSetNonce (a : Address) (n : Z)
  | OpSetCode (a : Address) (c : bytes)
  | OpSetState (a : Address) (k v : Hash)
  | OpSetTransientState (a : Address) (k v : Hash)
  | OpCreateAccount (a : Address)
  | OpCreateContract (a : Address)
  | OpSelfDestruct (a : Address)
  | OpSelfDestruct6780 (a : Address)
  | OpAddLog (log : Log)
  | OpAddPreimage (h : Hash) (b : bytes)
  | OpAddRefund (gas : Z)
  | OpSubRefund (gas : Z)
  | OpAddAddressToAccessList (a : Address)
  | OpAddSlotToAccessList (a : Address) (k : Hash)
  | OpSnapshot
  | OpRevertToSnapshot (id : Z).

Section Scope.
Context (Keccak256Hash : bytes → Hash).
Context (reader : Reader).
Implicit Types s t : StateDB.

Abbreviation lookup_obj := (obj_lookup Keccak256Hash reader).
Abbreviation ext := (extends Keccak256Hash reader).
Abbreviation K := Keccak256Hash.
Infix "≈" := (state_equiv Keccak256Hash reader) (at level 70).

Definition run_op (op : tx_op) s : option StateDB :=
  match op with
  | OpGetBalance a => Some (GetBalance K reader s a).2
  | OpGetNonce a => Some (GetNonce K reader s a).2
  | OpGetCode a => Some (GetCode K reader s a).2
  | OpGetCodeSize a => Some (GetCodeSize K reader s a).2
  | OpGetState a k => Some (GetState K reader s a k).2
  | OpGetCommittedState a k => Some (GetCommittedState K reader s a k).2
  | OpAddBalance a x => Some (AddBalance K reader s a x).2
  | OpSubBalance a x => Some (SubBalance K reader s a x).2
  | OpSetBalance a x => Some (SetBalance K reader s a x)
  | OpSetNonce a n => Some (SetNonce K reader s a n)
  | OpSetCode a c => Some (SetCode K reader s a c).2
  | OpSetState a k v => Some (SetState K reader s a k v).2
  | OpSetTransientState a k v => Some (SetTransientState s a k v)
  | OpCreateAccount a => Some (CreateAccount K s a)
  | OpCreateContract a => CreateContract K reader s a
  | OpSelfDestruct a => Some (SelfDestruct K reader s a).2
  | OpSelfDestruct6780 a => Some (SelfDestruct6780 K reader s a).2
  | OpAddLog log => Some (AddLog s log)
  | OpAddPreimage h b => Some (AddPreimage s h b)
  | OpAddRefund gas => Some (AddRefund s gas)
  | OpSubRefund gas => SubRefund s gas
  | OpAddAddressToAccessList a => Some (AddAddressToAccessList s a)
  | OpAddSlotToAccessList a k => Some (AddSlotToAccessList s a k)
  | OpSnapshot => Some (Snapshot s).2
  | OpRevertToSnapshot id => RevertToSnapshot K reader s id
  end.

(** What the callers of two operations see to: [CreateAccount] is for an account
    that does not exist, and the code of an account is read before it is
    replaced. *)
Definition op_ok (op : tx_op) s : Prop :=
  match op with
  | OpSetCode a _ => ∀ o, lookup_obj s a = Some o → code_loaded K o
  | OpCreateAccount a => lookup_obj s a = None
  | _ => True
  end.

(** The operations one after the other; [None] when one of them panics. *)
Fixpoint exec_ops (ops : list tx_op) s : option StateDB :=
  match ops with
  | [] => Some s
  | op :: ops => s1 ← run_op op s; exec_ops ops s1
  end.

Lemma exec_ops_app ops1 ops2 s : exec_ops (ops1 ++ ops2) s = s1 ← exec_ops ops1 s; exec_ops ops2 s1.
Proof. revert s. induction ops1 as [|op ops1 IH]; intros s; cbn; [done|]. destruct (run_op op s); cbn; [apply IH|done]. Qed.

(** In the history [ops], the code of an account has been read whenever it is replaced. *)
Definition code_read (ops : list tx_op) : Prop :=
  ∀ before a c after s, ops = before ++ OpSetCode a c :: after → exec_ops before NewStateDB = Some s →
    ∀ o, lookup_obj s a = Some o → code_loaded K o.

(** In the history [ops], only accounts that do not exist are created. *)
Definition creates_absent (ops : list tx_op) : Prop :=
  ∀ before a after s, ops = before ++ OpCreateAccount a :: after → exec_ops before NewStateDB = Some s → lookup_obj s a = None.

(** A run of operations whose callers keep these rules. *)
Inductive run_ops : list tx_op → StateDB → StateDB → Prop :=
  | run_nil s : run_ops [] s s
  | run_cons op ops s s' s'' :
      op_ok op s → run_op op s = Some s' → run_ops ops s' s'' → run_ops (op :: ops) s s''.

Lemma history_run before ops s t :
  code_read (before ++ ops) → creates_absent (before ++ ops) → exec_ops before NewStateDB = Some s → exec_ops ops s = Some t → run_ops ops s t.
Proof.
  intros Hc Ha. revert before s Hc Ha. induction ops as [|op ops IH]; intros before s Hc Ha Hs Hrun; cbn in Hrun; [simplify_eq; constructor|].
  apply bind_Some in Hrun as (s1 & Hop & Hrun). econstructor; [|exact Hop|].
  - destruct op; try done; cbn; [by eapply Hc|by eapply Ha].
  - apply (IH (before ++ [op])); [by rewrite <- app_assoc..| |done]. rewrite exec_ops_app, Hs. cbn. by rewrite Hop.
Qed.

(** The rules along a concrete history. *)
Definition op_okb (op : tx_op) s : bool :=
  match op with
  | OpSetCode a _ => match lookup_obj s a with Some o => K (code o) =? acct_CodeHash (data o) | None => true end
  | OpCreateAccount a => match lookup_obj s a with Some _ => false | None => true end
  | _ => true
  end.

Fixpoint ops_okb (ops : list tx_op) s : bool :=
  match ops with
  | [] => true
  | op :: ops => op_okb op s && match run_op op s with Some s1 => ops_okb ops s1 | None => true end
  end.

Lemma ops_okb_at before op after s s1 : ops_okb (before ++ op :: after) s = true → exec_ops before s = Some s1 → op_okb op s1 = true.
Proof.
  revert s. induction before as [|op' before IH]; intros s; cbn; intros [Hop Hrest]%andb_prop; [by intros [= <-]|].
  intros (s2 & Hs2 & Hrun)%bind_Some. rewrite Hs2 in Hrest. by eapply IH.
Qed.

Lemma ops_okb_rules ops : ops_okb ops NewStateDB = true → code_read ops ∧ creates_absent ops.
Proof.
  intros Hb. split.
  - intros before a c after s -> Hs o Ho. pose proof (ops_okb_at _ _ _ _ _ Hb Hs) as Hop. cbn in Hop. rewrite Ho in Hop. by apply Z.eqb_eq in Hop.
  - intros before a after s -> Hs. pose proof (ops_okb_at _ _ _ _ _ Hb Hs) as Hop. cbn in Hop. by destruct (lookup_obj s a).
Qed.

(** ** Every operation extends the journal *)

(** Reading through an object, and writing its cache back. *)
Lemma write_back s a o s1 o' s2 :
  state_wf s → getStateObject K reader s a = (Some o, s1) →
  obj_equiv K reader (stateObjectsDestruct s1) o' o → s2 ≈ s1 → journal_ s2 = journal_ s1 →
  stateObjects s2 = stateObjects s1 → stateObjectsDestruct s2 = stateObjectsDestruct s1 →
  (state_wf s1 → state_wf s2) → ext s [] (setStateObject s2 o').
Proof.
  intros Hw Hget Hoo Hs Hj Hst Hd Hw2.
  destruct (getStateObject_spec K reader s a Hw) as (H1 & H2 & H3 & H4 & H5 & H6).
  rewrite Hget in *. simpl in *. symmetry in H1.
  assert (obj_address o = a) as Ha by (by apply (obj_lookup_address K reader s)).
  apply extends_refl.
  - by apply setStateObject_wf, Hw2.
  - etrans; [|etrans; [exact Hs|exact H2]]. apply (setStateObject_same _ _ s2 o' o).
    + apply lookup_of_table. rewrite Hst, Ha. by apply H6.
    + by rewrite Hd.
  - simpl. congruence.
Qed.

Lemma obj_Code_spec s o :
  let r := obj_Code K reader s o in
  r.1.1 = code_of K reader o ∧ obj_equiv K reader (stateObjectsDestruct s) r.1.2 o ∧
  r.2 ≈ s ∧ journal_ r.2 = journal_ s ∧ stateObjects r.2 = stateObjects s ∧
  stateObjectsDestruct r.2 = stateObjectsDestruct s ∧ (state_wf s → state_wf r.2).
Proof.
  unfold obj_Code, code_of. destruct (negb (len (code o) =? 0)) eqn:Hlen; simpl; [by split_and!|].
  destruct (Z.eqb_spec (acct_CodeHash (data o)) (EmptyCodeHash K)) as [Hh|Hh]; simpl; [by split_and!|].
  set (hash := acct_CodeHash (data o)).
  assert (∀ s1 err (c : bytes), ∃ s', (if len c =? 0 then setError s1 err else s1) = s' ∧
    s' ≈ s1 ∧ journal_ s' = journal_ s1 ∧ stateObjects s' = stateObjects s1 ∧
    stateObjectsDestruct s' = stateObjectsDestruct s1 ∧ (state_wf s1 → state_wf s')) as Herr.
  { intros s1 err c. eexists. split; [done|]. destruct (len c =? 0); [|by split_and!].
    destruct (setError_fields s1 err) as (? & ? & ? & _). split_and!; try done;
      [apply setError_equiv|apply setError_wf]. }
  assert (∀ c, c = default [] (Code reader (obj_address o) hash) →
    obj_equiv K reader (stateObjectsDestruct s) (set_code_cache o c) o) as Hcache.
  { intros c ->. split; try done. unfold code_of. simpl. rewrite Hlen.
    destruct (Z.eqb_spec (acct_CodeHash (data o)) (EmptyCodeHash K)); [done|]. simpl. fold hash.
    by destruct (negb (len (default [] (Code reader (obj_address o) hash)) =? 0)). }
  destruct (Code reader (obj_address o) hash) as [c|] eqn:Hc; simpl.
  - destruct (Herr s (errCodeNotFound hash) c) as (s' & -> & ? & ? & ? & ? & ?).
    split_and!; try done. apply Hcache. done.
  - destruct (setError_fields s (errLoadCode hash)) as (H1 & H2 & H3 & _).
    destruct (Herr (setError s (errLoadCode hash)) (errCodeNotFound hash) [])
      as (s' & Hs' & He & Hj & Ho & Hd & Hw). simpl in Hs'. rewrite Hs'.
    split_and!; try congruence.
    + by apply Hcache.
    + etrans; [exact He|apply setError_equiv].
    + intros. by apply Hw, setError_wf.
Qed.

Lemma getters_extend s op :
  state_wf s →
  match op with
  | OpGetBalance _ | OpGetNonce _ | OpGetCode _ | OpGetCodeSize _ | OpGetState _ _
  | OpGetCommittedState _ _ => True
  | _ => False
  end →
  ∃ t, run_op op s = Some t ∧ ext s [] t.
Proof.
  intros Hw Hop. destruct op as [a|a|a|a|a k|a k| | | | | | | | | | | | | | | | | | |];
    try done; simpl; eexists; (split; [reflexivity|]);
    pose proof (getStateObject_extends K reader s a Hw) as Hext;
    unfold GetBalance, GetNonce, GetCode, GetCodeSize, GetState, GetCommittedState;
    destruct (getStateObject K reader s a) as [[o|] s1] eqn:Hget; simpl in *; try done.
  - pose proof (obj_Code_spec s1 o) as Hc. destruct (obj_Code K reader s1 o) as [[c o'] s2].
    simpl in *. destruct Hc as (_ & Hoo & Hs & Hj & Hst & Hd & Hw2). by eapply write_back.
  - unfold obj_CodeSize. destruct (negb _); [done|]. destruct (_ =? _); [done|].
    assert (∀ u err, ext s [] u → ext s [] (setError u err)) as Herr.
    { intros u err Hu. change (@nil journalEntry) with (@nil journalEntry ++ []).
      eapply extends_trans; [exact Hu|].
      apply extends_refl; [apply setError_wf, Hu|apply setError_equiv|apply setError_fields]. }
    destruct (CodeSize reader _ _) as [n|]; simpl; [destruct (n =? 0)|]; auto.
  - pose proof (obj_getState_spec K reader s1 o k) as Hc.
    destruct (obj_getState reader s1 o k) as [[[v w] o'] s2]. simpl in *.
    destruct Hc as (_ & _ & Hoo & Hs & _ & Hj & Hd & Hst & Hw2). by eapply write_back.
  - pose proof (obj_GetCommittedState_spec K reader s1 o k) as Hc.
    destruct (obj_GetCommittedState reader s1 o k) as [[v o'] s2]. simpl in *.
    destruct Hc as (_ & Hoo & Hs & _ & _ & _ & Hj & Hd & Hst & Hw2). by eapply write_back.
Qed.

(** A setter of an object, after the object is fetched or created. *)
Lemma on_object s a (f : stateObject → StateDB → StateDB) :
  state_wf s →
  (∀ t o, state_wf t → lookup_obj t a = Some o → obj_address o = a →
    (∀ o', lookup_obj s a = Some o' → o = o') →
    (lookup_obj s a = None → o = newObject K a None) → ∃ es, ext t es (f o t)) →
  ∃ es, ext s es (let '(o, t) := getOrNewStateObject K reader s a in f o t).
Proof.
  intros Hw Hf. destruct (getOrNewStateObject_extends K reader s a Hw)
    as (es & Hes & Hl & Ha & Hsome & Hnone).
  destruct (getOrNewStateObject K reader s a) as [o t]. simpl in *.
  destruct (Hf t o) as [fs Hfs]; try done; [apply Hes|].
  exists (es ++ fs). by eapply extends_trans.
Qed.

Lemma touch_extends s a :
  state_wf s → ext s [touchChange a] (set_journal s (Journal.touchChange_ (journal_ s) a)).
Proof.
  intros Hw.
  assert (∀ j, entries (Journal.touchChange_ j a) = entries j ++ [touchChange a] ∧
    validRevisions (Journal.touchChange_ j a) = validRevisions j ∧
    nextRevisionId (Journal.touchChange_ j a) = nextRevisionId j) as Hj.
  { intros j. unfold Journal.touchChange_. by destruct (a =? Journal.ripemd). }
  destruct (Hj (journal_ s)) as (He & Hr & Hn). split; simpl; try done.
  - apply (trace_snoc K reader s [] s (touchChange a)); [by constructor|].
    intros u Hwu Hu. eexists. split; [done|]. split_and!; [done| |done].
    etrans; [exact Hu|apply set_journal_equiv].
  - by apply set_journal_wf.
Qed.

Lemma fetch_extends s a o s1 (f : StateDB → StateDB) :
  state_wf s → getStateObject K reader s a = (Some o, s1) →
  (state_wf s1 → lookup_obj s1 a = Some o → obj_address o = a → ∃ es, ext s1 es (f s1)) →
  ∃ es, ext s es (f s1).
Proof.
  intros Hw Hget Hf. pose proof (getStateObject_extends K reader s a Hw) as Hext.
  destruct (getStateObject_spec K reader s a Hw) as (H1 & H2 & H3 & H4 & H5 & H6).
  rewrite Hget in *. simpl in *. symmetry in H1.
  destruct Hf as [es Hes]; [done|by apply lookup_of_table, H6|
    by apply (obj_lookup_address K reader s)|].
  exists ([] ++ es). by eapply extends_trans.
Qed.

Lemma selfDestruct_flag_extends s a o :
  state_wf s → lookup_obj s a = Some o → obj_address o = a → selfDestructed o = false →
  ext s [selfDestructChange a]
    (setStateObject (journal_append s (selfDestructChange a)) (set_selfDestructed o true)).
Proof.
  intros Hw Hl Ha Hsd.
  apply (extends_object _ _ s _ a (λ u, set_selfDestructed u false) o); try done.
  - intros u o' Hwu Hu. simpl. unfold with_object.
    destruct (getStateObject_spec K reader u a Hwu) as (H1 & _).
    destruct (getStateObject K reader u a) as [ro u1]. simpl in *. subst ro. by rewrite Hu.
  - intros u []. split; try done.
Qed.

Lemma SelfDestruct_extends s a : state_wf s → ∃ es, ext s es (SelfDestruct K reader s a).2.
Proof.
  intros Hw. unfold SelfDestruct.
  destruct (getStateObject K reader s a) as [[o|] s1] eqn:Hget.
  - assert (∀ f : StateDB → StateDB, f s1 = (let '(obj, s2) :=
      if negb (acct_Balance (data o) =? 0) then (obj_setBalance o 0, (obj_SetBalance s1 o 0).2)
      else (o, s1) in if negb (selfDestructed obj) then
        setStateObject (journal_append s2 (selfDestructChange a)) (set_selfDestructed obj true)
        else s2) → ∃ es, ext s es (f s1)) as Hmain.
    { intros f Hf. eapply fetch_extends; [done|exact Hget|]. intros Hw1 Hl1 Ha1. rewrite Hf.
      destruct (negb (acct_Balance (data o) =? 0)).
      - pose proof (obj_SetBalance_extends K reader s1 a o 0 Hw1 Hl1 Ha1) as Hb.
        destruct (selfDestructed (obj_setBalance o 0)) eqn:Hsd; simpl; [by eexists|].
        eexists. eapply extends_trans; [exact Hb|]. apply selfDestruct_flag_extends; try done.
        + apply Hb.
        + unfold obj_SetBalance. simpl. rewrite obj_lookup_set. simpl.
          by rewrite bool_decide_eq_true_2.
      - destruct (selfDestructed o) eqn:Hsd; simpl.
        + exists []. by apply extends_refl.
        + eexists. by apply selfDestruct_flag_extends. }
    specialize (Hmain (λ _, (let '(obj, s2) :=
      if negb (acct_Balance (data o) =? 0) then (obj_setBalance o 0, (obj_SetBalance s1 o 0).2)
      else (o, s1) in if negb (selfDestructed obj) then
        setStateObject (journal_append s2 (selfDestructChange a)) (set_selfDestructed obj true)
        else s2)) eq_refl).
    simpl in Hmain. by destruct (negb (acct_Balance (data o) =? 0)).
  - exists []. pose proof (getStateObject_extends K reader s a Hw) as Hext. by rewrite Hget in Hext.
Qed.

Lemma CreateContract_extends s a t :
  state_wf s → CreateContract K reader s a = Some t → ∃ es, ext s es t.
Proof.
  intros Hw. unfold CreateContract.
  destruct (getStateObject K reader s a) as [[o|] s1] eqn:Hget; [|done].
  destruct (newContract o) eqn:Hn; simpl; intros; simplify_eq.
  - eapply (fetch_extends s a o t (λ u, u)); try done. intros. exists []. by apply extends_refl.
  - eapply (fetch_extends s a o s1 (λ u, journal_append (setStateObject u (set_newContract o true))
      (createContractChange a))); try done.
    intros Hw1 Hl1 Ha1. exists [createContractChange a].
    apply (extends_object _ _ s1 (createContractChange a) a (λ u, set_newContract u false) o
      (set_newContract o true)); try done.
    intros u []. split; try done.
Qed.

Lemma AddBalance_extends s a x : state_wf s → ∃ es, ext s es (AddBalance K reader s a x).2.
Proof.
  intros Hw.
  unfold AddBalance. destruct (on_object s a (λ o t, (obj_AddBalance K t o x).2) Hw) as [es Hes].
  + intros t o Hwt Hl Ha _ _. unfold obj_AddBalance. destruct (x =? 0); simpl.
    * destruct (obj_empty K o); [|exists []; by apply extends_refl].
      eexists. rewrite Ha. by apply touch_extends.
    * eexists. by apply obj_SetBalance_extends.
  + exists es. by destruct (getOrNewStateObject K reader s a).
Qed.

Lemma SubBalance_extends s a x : state_wf s → ∃ es, ext s es (SubBalance K reader s a x).2.
Proof.
  intros Hw.
  unfold SubBalance. destruct (on_object s a (λ o t, (if x =? 0 then (acct_Balance (data o), t)
    else obj_SetBalance t o (wrap256 (acct_Balance (data o) - x))).2) Hw) as [es Hes].
  + intros t o Hwt Hl Ha _ _. destruct (x =? 0); simpl; [exists []; by apply extends_refl|].
    eexists. by apply obj_SetBalance_extends.
  + exists es. destruct (getOrNewStateObject K reader s a). by destruct (x =? 0).
Qed.

Lemma SetCode_extends s a c : state_wf s → op_ok (OpSetCode a c) s →
  ∃ es, ext s es (SetCode K reader s a c).2.
Proof.
  intros Hw Hok.
  unfold SetCode. destruct (on_object s a (λ o t, (obj_SetCode t o (K c) c).2) Hw) as [es Hes].
  + intros t o Hwt Hl Ha Hsome Hnone. eexists. apply obj_SetCode_extends; try done.
    destruct (lookup_obj s a) as [o'|] eqn:Ho'; [|by rewrite Hnone].
    rewrite (Hsome o') by done. by apply Hok.
  + exists es. by destruct (getOrNewStateObject K reader s a).
Qed.

Lemma SelfDestruct6780_extends s a : state_wf s → ∃ es, ext s es (SelfDestruct6780 K reader s a).2.
Proof.
  intros Hw.
  unfold SelfDestruct6780. destruct (getStateObject K reader s a) as [[o|] s1] eqn:Hget.
  + eapply (fetch_extends s a o s1 (λ u, (if newContract o then
      let '(prev, s2) := SelfDestruct K reader u a in (prev, true, s2)
      else (acct_Balance (data o), false, u)).2)); try done.
    intros Hw1 _ _. destruct (newContract o); simpl; [|exists []; by apply extends_refl].
    destruct (SelfDestruct_extends s1 a Hw1) as [es Hes]. exists es.
    by destruct (SelfDestruct K reader s1 a).
  + exists []. pose proof (getStateObject_extends K reader s a Hw) as He. by rewrite Hget in He.
Qed.

(** Every operation, snapshots apart, leaves in the journal how to undo it. *)
Lemma op_extends s op t :
  state_wf s → op_ok op s → run_op op s = Some t →
  match op with OpSnapshot | OpRevertToSnapshot _ => True | _ => ∃ es, ext s es t end.
Proof.
  intros Hw Hok Hrun.
  destruct op as [a|a|a|a|a k|a k|a x|a x|a x|a n|a c|a k v|a k v|a|a|a|a|log|h b|gas|gas|a|a k| |];
    try done.
  all: try (edestruct (getters_extend s) as (t' & Hr' & He'); [exact Hw| |
    rewrite Hrun in Hr'; simplify_eq; eexists; exact He']; done).
  all: simpl in Hrun; simplify_eq.
  - by apply AddBalance_extends.
  - by apply SubBalance_extends.
  - apply (on_object s a (λ o t, (obj_SetBalance t o x).2) Hw). intros t o Hwt Hl Ha _ _.
    eexists. by apply obj_SetBalance_extends.
  - apply (on_object s a (λ o t, obj_SetNonce t o n) Hw). intros t o Hwt Hl Ha _ _.
    eexists. by apply obj_SetNonce_extends.
  - by apply SetCode_extends.
  - unfold SetState. destruct (on_object s a (λ o t, (obj_SetState reader t o k v).2) Hw) as [es Hes].
    + intros t o Hwt Hl Ha _ _. by apply (obj_SetState_extends K reader t a).
    + exists es. by destruct (getOrNewStateObject K reader s a).
  - unfold SetTransientState. destruct (_ =? v); [exists []; by apply extends_refl|].
    eexists. by apply transient_extends.
  - destruct (createObject_extends K reader s a Hw Hok) as (Hc & _). eexists. exact Hc.
  - by eapply CreateContract_extends.
  - by apply SelfDestruct_extends.
  - by apply SelfDestruct6780_extends.
  - eexists. by apply log_extends.
  - exists []. unfold AddPreimage. destruct (preimages s !! h); apply extends_refl; try done;
      destruct Hw; by split.
  - eexists. by apply refund_extends.
  - unfold SubRefund in Hrun. destruct (_ >? _); simplify_eq. eexists. by apply refund_extends.
  - by apply access_address_extends.
  - by apply access_slot_extends.
Qed.
End Scope.
