(* ===== verification/StateSnapshot.v ===== *)
(** * Reverting to a snapshot

    The theorems on [Snapshot] and [RevertToSnapshot]: every state reached by
    operations of StateRevert.v has its revisions in order, and reverting gives
    back what the state read when the snapshot was taken. *)

From S2P Require Import Prelude GoSort TxTypes AccessList StateTypes StateDB StateEquiv StateRevert.

Section Snapshots.
Context (Keccak256Hash : bytes → Hash).
Context (reader : Reader).
Implicit Types s t : StateDB.

Abbreviation ext := (extends Keccak256Hash reader).
Abbreviation revert_to := (RevertToSnapshot Keccak256Hash reader).
Abbreviation runs := (run_ops Keccak256Hash reader).
Abbreviation tr := (trace Keccak256Hash reader).
Infix "≈" := (state_equiv Keccak256Hash reader) (at level 70).

Abbreviation revs s := (validRevisions (journal_ s)).
Abbreviation es_of s := (entries (journal_ s)).

(** The revisions are in order, and within the journal. *)
Record revisions_ok s : Prop := {
  ro_sorted : Journal.revisions_sorted (revs s);
  ro_bounds i r : revs s !! i = Some r →
    id r < nextRevisionId (journal_ s) ∧ 0 <= journalIndex r <= len (es_of s)
}.

Lemma revisions_ok_extends s es t : ext s es t → revisions_ok s → revisions_ok t.
Proof.
  intros [He Hr Hn _ _] [Hs Hb]. split; [by rewrite Hr|]. intros i r. rewrite Hr, Hn, He.
  intros Hi. destruct (Hb i r Hi). rewrite len_app. pose proof (len_nonneg es). lia.
Qed.

Lemma Snapshot_ok s : revisions_ok s → revisions_ok (Snapshot s).2.
Proof.
  intros [Hs Hb]. unfold Snapshot. simpl. split; simpl.
  - intros i j r r' Hij Hi Hj. apply lookup_app_Some in Hj as [Hj|[Hge Hj]].
    + apply lookup_app_Some in Hi as [Hi|[Hge Hi]]; [by eapply Hs|].
      apply lookup_lt_Some in Hj. lia.
    + apply list_lookup_singleton_Some in Hj as [Hj0 <-]. simpl.
      apply lookup_app_Some in Hi as [Hi|[Hge' Hi]].
      * destruct (Hb i r Hi). unfold Journal.length_. lia.
      * apply list_lookup_singleton_Some in Hi as [Hi0 _]. lia.
  - intros i r Hi. apply lookup_app_Some in Hi as [Hi|[_ Hi]].
    + destruct (Hb i r Hi). lia.
    + apply list_lookup_singleton_Some in Hi as [_ <-]. simpl. unfold Journal.length_.
      pose proof (len_nonneg (es_of s)). lia.
Qed.

Lemma revisions_sorted_take revs n :
  Journal.revisions_sorted revs → Journal.revisions_sorted (take n revs).
Proof.
  intros Hs i j r r' Hij Hi Hj. apply lookup_take_Some in Hi as [Hi _], Hj as [Hj _].
  by apply (Hs i j).
Qed.

(** What a successful revert does to the journal, and what it needs. *)
Lemma revert_to_inv s rid t :
  revisions_ok s → revert_to s rid = Some t →
  ∃ i r u, revs s !! i = Some r ∧ id r = rid ∧
    revert_entries Keccak256Hash reader (rev (drop (Z.to_nat (journalIndex r)) (es_of s))) s
      = Some u ∧
    t = set_journal u (StateTypes.MkJournal (take (Z.to_nat (journalIndex r))
      (entries (journal_ u))) (dirties (journal_ u)) (take i (validRevisions (journal_ u)))
      (nextRevisionId (journal_ u))).
Proof.
  intros [Hs _] Hrev. unfold RevertToSnapshot in Hrev.
  pose proof (Journal.find_revision_spec (journal_ s) rid Hs) as Hf.
  destruct (Journal.find_revision (journal_ s) rid) as [[idx r]|]; [|done].
  destruct Hf as (Hidx & Hr & Hid). unfold journal_revert in Hrev.
  destruct (revert_entries _ _ _ _) as [u|] eqn:Hu; [|done]. simplify_eq.
  exists (Z.to_nat idx), r, u. by split_and!.
Qed.

(** Reverting along a trace from the state of the snapshot. *)
Lemma revert_to_trace s0 s es rid i r :
  revisions_ok s → state_wf s → revs s !! i = Some r → id r = rid →
  take (Z.to_nat (journalIndex r)) (es_of s) = es_of s0 →
  drop (Z.to_nat (journalIndex r)) (es_of s) = es → tr s0 es s →
  ∃ t, revert_to s rid = Some t ∧ t ≈ s0 ∧ state_wf t ∧ es_of t = es_of s0 ∧
    revs t = take i (revs s) ∧ nextRevisionId (journal_ t) = nextRevisionId (journal_ s).
Proof.
  intros Hok Hw Hi Hid Htake Hdrop Htr.
  pose proof (Journal.find_revision_spec (journal_ s) rid (ro_sorted _ Hok)) as Hf.
  unfold RevertToSnapshot.
  destruct (Journal.find_revision (journal_ s) rid) as [[idx r']|]; [|by apply Hf in Hi].
  destruct Hf as (Hidx & Hr & Hid').
  assert (Z.to_nat idx = i) as Hii.
  { destruct (Nat.lt_trichotomy (Z.to_nat idx) i) as [Hlt|[?|Hlt]]; [|done|].
    - destruct (ro_sorted _ Hok _ _ _ _ Hlt Hr Hi). lia.
    - destruct (ro_sorted _ Hok _ _ _ _ Hlt Hi Hr). lia. }
  assert (r' = r) as -> by (rewrite Hii in Hr; congruence).
  unfold journal_revert. rewrite Hdrop.
  assert (s ≈ s) as Hss by reflexivity.
  destruct (revert_entries_trace Keccak256Hash reader s0 es s Htr s Hw Hss)
    as (u & -> & Hwu & Hus & He & Hv & Hn).
  eexists. split; [done|]. simpl. rewrite He, Hv, Hn, Hii. split_and!; try done.
  - do 2 (etrans; [apply set_journal_equiv|]). done.
  - by do 2 apply set_journal_wf.
Qed.

(** ** All along a run *)

(** Every revision of the state leads back to some state, along the journal. *)
Record state_good s : Prop := {
  sg_wf : state_wf s;
  sg_revisions : revisions_ok s;
  sg_trace : ∃ s0, es_of s0 = [] ∧ tr s0 (es_of s) s
}.

Lemma NewStateDB_good : state_good NewStateDB.
Proof.
  split; [apply NewStateDB_wf| |].
  - split; [intros i j r r' _ Hi; done|intros i r Hi; done].
  - exists NewStateDB. split; [done|]. constructor. reflexivity.
Qed.

Lemma Snapshot_frame s :
  (Snapshot s).2 ≈ s ∧ es_of (Snapshot s).2 = es_of s ∧
  revs (Snapshot s).2 = revs s ++ [MkRevision (nextRevisionId (journal_ s)) (len (es_of s))] ∧
  nextRevisionId (journal_ (Snapshot s).2) = nextRevisionId (journal_ s) + 1.
Proof. unfold Snapshot. simpl. split_and!; try done. Qed.

(** A valid revision splits the trace at its index. *)
Lemma good_split s i r :
  state_good s → revs s !! i = Some r →
  ∃ m, es_of m = take (Z.to_nat (journalIndex r)) (es_of s) ∧
    tr m (drop (Z.to_nat (journalIndex r)) (es_of s)) s ∧
    ∃ s0, es_of s0 = [] ∧ tr s0 (es_of m) m.
Proof.
  intros [Hw Hok (s0 & Hs0 & Htr)] Hi.
  rewrite <-(take_drop (Z.to_nat (journalIndex r)) (es_of s)) in Htr.
  apply trace_split in Htr as (m & H1 & H2).
  set (j := StateTypes.MkJournal (take (Z.to_nat (journalIndex r)) (es_of s)) ∅ [] 0).
  exists (set_journal m j). split; [done|]. split.
  - eapply (trace_trans _ _ _ []); [|exact H2]. constructor. apply set_journal_equiv.
  - exists s0. split; [done|]. eapply trace_equiv_r; [|exact H1].
    symmetry. apply set_journal_equiv.
Qed.

Lemma RevertToSnapshot_good s rid t : state_good s → revert_to s rid = Some t → state_good t.
Proof.
  intros Hg Hrev. pose proof Hg as [Hw Hok _].
  destruct (revert_to_inv s rid t Hok Hrev) as (i & r & _ & Hi & Hid & _).
  destruct (good_split s i r Hg Hi) as (m & Hem & Hm & s0 & Hs0 & Htr).
  destruct (revert_to_trace m s _ rid i r Hok Hw Hi Hid (eq_sym Hem) eq_refl Hm)
    as (t' & Hrev' & Hteq & Hwt & Het & Hrt & Hnt).
  rewrite Hrev in Hrev'. simplify_eq. split; [done| |].
  - split; [rewrite Hrt; apply revisions_sorted_take, Hok|].
    intros k r' Hk. rewrite Hrt in Hk. apply lookup_take_Some in Hk as [Hk Hlt].
    destruct (ro_bounds _ Hok k r' Hk) as [Hb1 Hb2].
    destruct (ro_sorted _ Hok _ _ _ _ Hlt Hk Hi) as [_ Hidx].
    destruct (ro_bounds _ Hok i r Hi) as [_ Hb3].
    rewrite Hnt, Het, Hem. split; [done|]. unfold len in *. rewrite length_take. lia.
  - exists s0. split; [done|]. rewrite Het. eapply trace_equiv_r; [|exact Htr]. by symmetry.
Qed.

Lemma run_op_good s op t :
  state_good s → op_ok Keccak256Hash reader op s → run_op Keccak256Hash reader op s = Some t →
  state_good t.
Proof.
  intros Hg Hok Hrun. pose proof Hg as [Hw Hrev (s0 & Hs0 & Htr)].
  pose proof (op_extends Keccak256Hash reader s op t Hw Hok Hrun) as Hext.
  assert (∀ es, ext s es t → state_good t) as Hgood.
  { intros es He. split; [apply He|by eapply revisions_ok_extends|]. exists s0. split; [done|].
    rewrite (ex_entries _ _ _ _ _ He). eapply trace_trans; [exact Htr|apply He]. }
  destruct op; try (destruct Hext as [es He]; by apply (Hgood es)).
  - assert (t = (Snapshot s).2) as -> by (by injection Hrun).
    destruct (Snapshot_frame s) as (Heq & He & _).
    split; [by apply set_journal_wf|by apply Snapshot_ok|].
    exists s0. split; [done|]. rewrite He. eapply trace_equiv_r; [|exact Htr]. by symmetry.
  - by eapply RevertToSnapshot_good.
Qed.

Lemma run_ops_good ops s t : runs ops s t → state_good s → state_good t.
Proof. induction 1; eauto using run_op_good. Qed.

(** ** A scope *)

(** Between a snapshot of [s0] and now: the revision is still there and the
    journal leads back to [s0], or it is gone for good. *)
Definition in_scope s0 s : Prop :=
  nextRevisionId (journal_ s0) < nextRevisionId (journal_ s) ∧
  ((∃ es later, es_of s = es_of s0 ++ es ∧ tr s0 es s ∧
     revs s = revs s0 ++
       MkRevision (nextRevisionId (journal_ s0)) (len (es_of s0)) :: later) ∨
   ∀ i r, revs s !! i = Some r → id r ≠ nextRevisionId (journal_ s0)).

Lemma in_scope_start s0 : in_scope s0 (Snapshot s0).2.
Proof.
  destruct (Snapshot_frame s0) as (Heq & He & Hr & Hn). split; [lia|]. left.
  exists [], []. rewrite He, app_nil_r. split_and!; [done| |done]. constructor. by symmetry.
Qed.

Lemma in_scope_revert s0 s rid t :
  state_good s → in_scope s0 s → revert_to s rid = Some t → in_scope s0 t.
Proof.
  intros Hg [Hn Hcase] Hrev. pose proof Hg as [Hw Hok _].
  destruct (revert_to_inv s rid t Hok Hrev) as (i & r & _ & Hi & Hid & _).
  destruct (good_split s i r Hg Hi) as (m & Hem & Hm & _).
  destruct (revert_to_trace m s _ rid i r Hok Hw Hi Hid (eq_sym Hem) eq_refl Hm)
    as (t' & Hrev' & Hteq & Hwt & Het & Hrt & Hnt).
  rewrite Hrev in Hrev'. simplify_eq. split; [lia|].
  destruct Hcase as [(es & later & He & Htr & Hrevs)|Hgone]; [|right].
  2: { intros k r' Hk. rewrite Hrt in Hk. apply lookup_take_Some in Hk as [Hk _]. by eapply Hgone. }
  set (n := length (revs s0)).
  assert (revs s !! n = Some (MkRevision (nextRevisionId (journal_ s0)) (len (es_of s0)))) as Hmid.
  { rewrite Hrevs. unfold n. by rewrite lookup_app_r, Nat.sub_diag by lia. }
  destruct (decide (n < i)%nat) as [Hlt|Hge].
  - left. destruct (ro_sorted _ Hok _ _ _ _ Hlt Hmid Hi) as [_ Hidx]. simpl in Hidx.
    destruct (ro_bounds _ Hok i r Hi) as [_ Hb].
    set (k := Z.to_nat (journalIndex r)) in *.
    assert (length (es_of s0) <= k)%nat as Hk by (unfold len in *; lia).
    exists (take (k - length (es_of s0)) es), (take (i - S n) later). split_and!.
    + rewrite Het, Hem, He. rewrite take_app. by rewrite take_ge by lia.
    + rewrite <-(take_drop (k - length (es_of s0)) es) in Htr.
      apply trace_split in Htr as (m' & H1 & H2).
      (* the revert follows the trace back to [m'] *)
      assert (es_of (set_journal m' (StateTypes.MkJournal (take k (es_of s)) ∅ [] 0))
        = take k (es_of s)) as Hem' by done.
      destruct (revert_to_trace (set_journal m' (StateTypes.MkJournal (take k (es_of s)) ∅ [] 0)) s
        (drop k (es_of s)) (id r) i r Hok Hw Hi eq_refl eq_refl eq_refl)
        as (t2 & Hrev' & Hteq' & _).
      { rewrite He, drop_app. rewrite drop_ge by lia. simpl.
        eapply (trace_trans _ _ _ []); [|exact H2]. constructor. apply set_journal_equiv. }
      rewrite Hrev in Hrev'. simplify_eq. eapply trace_equiv_r; [|exact H1].
      symmetry. etrans; [exact Hteq'|apply set_journal_equiv].
    + rewrite Hrt, Hrevs. rewrite take_app, take_ge by (unfold n in Hlt; lia). f_equal.
      replace (i - length (revs s0))%nat with (S (i - S n)) by (unfold n in *; lia). done.
  - right. intros k r' Hk Hid'. rewrite Hrt in Hk. apply lookup_take_Some in Hk as [Hk Hlt].
    destruct (ro_sorted _ Hok k n r' _ ltac:(lia) Hk Hmid) as [Hlt' _]. simpl in Hlt'. lia.
Qed.

Lemma in_scope_op s0 s op t :
  state_good s → in_scope s0 s → op_ok Keccak256Hash reader op s →
  run_op Keccak256Hash reader op s = Some t → in_scope s0 t.
Proof.
  intros Hg Hsc Hok Hrun. pose proof Hg as [Hw _ _].
  pose proof (op_extends Keccak256Hash reader s op t Hw Hok Hrun) as Hext.
  assert (∀ es, ext s es t → in_scope s0 t) as Hscope.
  { intros es [He Hr Hn Htr _]. destruct Hsc as [Hlt Hcase]. split; [lia|]. rewrite Hr.
    destruct Hcase as [(es0 & later & He0 & Htr0 & Hrevs)|Hgone]; [left|by right].
    exists (es0 ++ es), later. split_and!; [by rewrite He, He0, app_assoc| |done].
    by eapply trace_trans. }
  destruct op; try (destruct Hext as [es He]; by apply (Hscope es)).
  - assert (t = (Snapshot s).2) as -> by (by injection Hrun).
    destruct (Snapshot_frame s) as (Heq & He & Hr & Hn).
    destruct Hsc as [Hlt Hcase]. split; [lia|].
    destruct Hcase as [(es0 & later & He0 & Htr0 & Hrevs)|Hgone]; [left|right].
    + exists es0, (later ++ [MkRevision (nextRevisionId (journal_ s)) (len (es_of s))]).
      rewrite He, Hr, Hrevs. split_and!; [done| |by rewrite <-app_assoc].
      eapply trace_equiv_r; [|exact Htr0]. by symmetry.
    + intros i r Hi. rewrite Hr in Hi. apply lookup_app_Some in Hi as [Hi|[_ Hi]]; [by eapply Hgone|].
      apply list_lookup_singleton_Some in Hi as [_ <-]. simpl. lia.
  - by eapply in_scope_revert.
Qed.

Lemma in_scope_ops s0 ops s t : runs ops s t → state_good s → in_scope s0 s → in_scope s0 t.
Proof. induction 1; eauto using in_scope_op, run_op_good. Qed.

Lemma revert_restores ops0 s0 ops s t :
  runs ops0 NewStateDB s0 → runs ops (Snapshot s0).2 s → revert_to s (Snapshot s0).1 = Some t →
  t ≈ s0 ∧ es_of t = es_of s0 ∧ revs t = revs s0.
Proof.
  intros H0 Hops Hrev. pose proof (run_ops_good _ _ _ H0 NewStateDB_good) as Hg0.
  assert (state_good (Snapshot s0).2) as Hg1 by by apply (run_op_good s0 OpSnapshot).
  pose proof (run_ops_good _ _ _ Hops Hg1) as Hg.
  destruct (in_scope_ops s0 _ _ _ Hops Hg1 (in_scope_start s0)) as [_ Hcase].
  pose proof Hg as [Hw Hok _].
  destruct (revert_to_inv s _ t Hok Hrev) as (i & r & _ & Hi & Hid & _).
  destruct Hcase as [(es & later & He & Htr & Hrevs)|Hgone]; [|by apply Hgone in Hi].
  set (r0 := MkRevision _ _) in Hrevs.
  assert (revs s !! length (revs s0) = Some r0) as Hmid
    by by rewrite Hrevs, lookup_app_r, Nat.sub_diag by lia.
  assert (Z.to_nat (journalIndex r0) = length (es_of s0)) as Hidx
    by (unfold r0, len; simpl; lia).
  destruct (revert_to_trace s0 s es (Snapshot s0).1 (length (revs s0)) r0)
    as (t' & Hrev' & Ht & _ & Het & Hrt & _); try done.
  - by rewrite Hidx, He, take_app_length.
  - by rewrite Hidx, He, drop_app_length.
  - rewrite Hrev in Hrev'. simplify_eq. split_and!; [done|done|].
    by rewrite Hrt, Hrevs, take_app_length.
Qed.

(** C21: reverting undoes everything.  From the state that a history of operations
    leads to take a snapshot, run further operations (creating, destroying,
    transferring, writing code and storage, logs, refunds, access lists, nested
    snapshots and reverts), and revert to the snapshot: if its id is still valid the
    result reads, at every account, slot, flag, counter and list, as when the snapshot
    was taken, the journal is as long as it was then, and the same revisions are valid.
    Two rules are asked of the history, and the callers in the EVM keep them: when the
    code of an account is replaced it has been read ([code_read]; without it the code
    is lost, [SetCode_unread_loses_code] below), and only an account that does not
    exist is created ([creates_absent]; else the revert takes away what the account had
    become, [CreateAccount_existing_loses_account]). *)
Theorem snapshot_revert_restores ops0 s0 ops s t :
  exec_ops Keccak256Hash reader ops0 NewStateDB = Some s0 →
  exec_ops Keccak256Hash reader ops (Snapshot s0).2 = Some s →
  code_read Keccak256Hash reader (ops0 ++ OpSnapshot :: ops) →
  creates_absent Keccak256Hash reader (ops0 ++ OpSnapshot :: ops) →
  RevertToSnapshot Keccak256Hash reader s (Snapshot s0).1 = Some t →
  t ≈ s0 ∧ es_of t = es_of s0 ∧ revs t = revs s0.
Proof.
  intros He0 He Hread Habs Hrev.
  assert (runs ops0 NewStateDB s0) as H0.
  { apply (history_run _ _ []); [..|done|done]; cbn.
    - intros before a c after s1 Heq. apply (Hread before a c (after ++ OpSnapshot :: ops)). by rewrite Heq, <- app_assoc.
    - intros before a after s1 Heq. apply (Habs before a (after ++ OpSnapshot :: ops)). by rewrite Heq, <- app_assoc. }
  assert (runs ops (Snapshot s0).2 s) as Hops.
  { apply (history_run _ _ (ops0 ++ [OpSnapshot])); [by rewrite <- app_assoc..| |done]. by rewrite exec_ops_app, He0. }
  by apply (revert_restores ops0 s0 ops s t).
Qed.

(** Reverting panics only on ids that are not valid: in every state reached
    by operations, [RevertToSnapshot] succeeds exactly on the ids on the stack
    of valid revisions, and leaves the earlier ones valid; in particular no
    journal entry ever fails to be undone. *)
Theorem revert_succeeds_iff ops s rid :
  run_ops Keccak256Hash reader ops NewStateDB s →
  (∃ t, RevertToSnapshot Keccak256Hash reader s rid = Some t) ↔ ∃ r, r ∈ revs s ∧ id r = rid.
Proof.
  intros Hops. pose proof (run_ops_good _ _ _ Hops NewStateDB_good) as Hg.
  pose proof Hg as [Hw Hok _]. split.
  - intros [t Ht]. destruct (revert_to_inv s rid t Hok Ht) as (i & r & _ & Hi & Hid & _).
    exists r. split; [by eapply list_elem_of_lookup_2|done].
  - intros (r & Hr & Hid). apply list_elem_of_lookup in Hr as [i Hi].
    destruct (good_split s i r Hg Hi) as (m & Hem & Hm & _).
    destruct (revert_to_trace m s _ rid i r Hok Hw Hi Hid (eq_sym Hem) eq_refl Hm) as (t & Ht & _).
    by exists t.
Qed.
End Snapshots.

(** ** Copies *)

Lemma Copy_equiv Keccak256Hash reader s :
  state_equiv Keccak256Hash reader (Copy s) s.
Proof.
  assert (∀ m : gmap Z stateObject, obj_deepCopy <$> m = m) as Hcopy.
  { intros m. rewrite <-(map_fmap_id m) at 2. apply map_fmap_ext. by intros a []. }
  unfold Copy, AccessList.Copy, TransientStorage.Copy. rewrite !Hcopy, map_fmap_id.
  split; try done. cbn [accessList_]. by destruct (accessList_ s).
Qed.

(** ** Concrete inputs *)

(** Account 1 exists, with a balance of 100 and the value 5 in its slot 7. *)
Definition ex_keccak (b : bytes) : Hash := be_decode b + 1.
Definition ex_reader : Reader := {|
  Account a := if a =? 1 then Some (Some (MkAccount 3 100 9 1)) else Some None;
  Storage_ a k := Some (if (a =? 1) && (k =? 7) then 5 else 0);
  Code _ _ := Some [];
  CodeSize _ _ := Some 0
|}.

(** What runs before the snapshot, and after it: the new account 2 gets code, and the
    code of account 1 is replaced. *)
Definition ex_ops0 : list tx_op := [OpAddBalance 1 10; OpSetState 1 7 0].
Definition ex_ops : list tx_op :=
  [OpSetState 1 7 8; OpGetCode 1; OpSetCode 1 [96]; OpCreateAccount 2; OpSetCode 2 [97]; OpSelfDestruct 1; OpSnapshot; OpSetNonce 2 1;
   OpRevertToSnapshot 1; OpAddSlotToAccessList 4 5; OpAddLog (MkLog 1 [] [] 0 0 0)].
Abbreviation exec_ops := (StateRevert.exec_ops ex_keccak ex_reader).

Definition ex_s0 : StateDB := default NewStateDB (exec_ops ex_ops0 NewStateDB).
Definition ex_s : StateDB := default NewStateDB (exec_ops ex_ops (Snapshot ex_s0).2).
Definition ex_t : StateDB :=
  default NewStateDB (RevertToSnapshot ex_keccak ex_reader ex_s (Snapshot ex_s0).1).

Lemma ex_rules : code_read ex_keccak ex_reader (ex_ops0 ++ OpSnapshot :: ex_ops) ∧ creates_absent ex_keccak ex_reader (ex_ops0 ++ OpSnapshot :: ex_ops).
Proof. apply ops_okb_rules. vm_compute. reflexivity. Qed.

Lemma ex_s0_run : run_ops ex_keccak ex_reader ex_ops0 NewStateDB ex_s0.
Proof.
  destruct (ops_okb_rules ex_keccak ex_reader ex_ops0) as [Hc Ha]; [vm_compute; reflexivity|].
  apply (history_run _ _ []); [done|done|done|vm_compute; reflexivity].
Qed.

Lemma snapshot_revert_restores_witness :
  exec_ops ex_ops0 NewStateDB = Some ex_s0 ∧ exec_ops ex_ops (Snapshot ex_s0).2 = Some ex_s ∧
  RevertToSnapshot ex_keccak ex_reader ex_s (Snapshot ex_s0).1 = Some ex_t ∧
  state_equiv ex_keccak ex_reader ex_t ex_s0.
Proof.
  assert (exec_ops ex_ops0 NewStateDB = Some ex_s0) as H0 by (vm_compute; reflexivity).
  assert (exec_ops ex_ops (Snapshot ex_s0).2 = Some ex_s) as H1 by (vm_compute; reflexivity).
  assert (RevertToSnapshot ex_keccak ex_reader ex_s (Snapshot ex_s0).1 = Some ex_t) as Hr
    by (vm_compute; reflexivity).
  split; [exact H0|]. split; [exact H1|]. split; [exact Hr|].
  apply (snapshot_revert_restores ex_keccak ex_reader ex_ops0 ex_s0 ex_ops ex_s ex_t H0 H1 (proj1 ex_rules) (proj2 ex_rules) Hr).
Defined.

Lemma revert_succeeds_iff_witness :
  (∃ t, RevertToSnapshot ex_keccak ex_reader ex_s0 0 = Some t) ↔
  ∃ r, r ∈ validRevisions (journal_ ex_s0) ∧ id r = 0.
Proof. apply (revert_succeeds_iff ex_keccak ex_reader ex_ops0). exact ex_s0_run. Defined.

(** A copy of the state reads as the original, but does not revert as it does:
    the journal entries of the copy have lost the original values of the slots.
    Here a slot that held 5 is set to 0 and, after a snapshot, to 8: reverting
    the original brings back 0, reverting the copy brings back 5. *)
Theorem copy_reverts_differently :
  ∃ s, run_ops ex_keccak ex_reader (ex_ops0 ++ [OpSnapshot; OpSetState 1 7 8]) NewStateDB s ∧
  state_equiv ex_keccak ex_reader (Copy s) s ∧
  ∃ t t', RevertToSnapshot ex_keccak ex_reader s 0 = Some t ∧
  RevertToSnapshot ex_keccak ex_reader (Copy s) 0 = Some t' ∧
  (GetState ex_keccak ex_reader t 1 7).1 = 0 ∧ (GetState ex_keccak ex_reader t' 1 7).1 = 5.
Proof.
  set (ops := ex_ops0 ++ [OpSnapshot; OpSetState 1 7 8]).
  assert (∃ s, exec_ops ops NewStateDB = Some s) as [s Hs] by (vm_compute; by eexists).
  exists s. split.
  { destruct (ops_okb_rules ex_keccak ex_reader ops) as [Hc Ha]; [vm_compute; reflexivity|]. by apply (history_run _ _ []). }
  split; [apply Copy_equiv|].
  assert (s = default NewStateDB (exec_ops ops NewStateDB)) as -> by by rewrite Hs.
  eexists _, _. split; [vm_compute; reflexivity|]. split; [vm_compute; reflexivity|].
  by vm_compute.
Qed.

(** The undo of [SetCode] relies on the code having been read before: replacing
    the code of an account whose code is not loaded and reverting leaves the
    account without code, with the hash of the empty code. *)
Theorem SetCode_unread_loses_code :
  let reader := MkReader (λ a, Some (Some (MkAccount 1 0 9 (ex_keccak [96]))))
    (λ _ _, Some 0) (λ _ _, Some [96]) (λ _ _, Some 1) in
  let '(id, s) := Snapshot NewStateDB in
  let s := (SetCode ex_keccak reader s 1 [97]).2 in
  ∃ t, RevertToSnapshot ex_keccak reader s id = Some t ∧
  (GetCode ex_keccak reader NewStateDB 1).1 = [96] ∧ (GetCode ex_keccak reader t 1).1 = [].
Proof. vm_compute. eexists. split; [reflexivity|]. by vm_compute. Qed.

(** The undo of [CreateAccount] deletes the object, and with it what an account that
    existed before had become. *)
Theorem CreateAccount_existing_loses_account :
  let s0 := (AddBalance ex_keccak ex_reader NewStateDB 2 10).2 in
  let '(id, s) := Snapshot s0 in
  ∃ t, RevertToSnapshot ex_keccak ex_reader (CreateAccount ex_keccak s 2) id = Some t ∧
  (GetBalance ex_keccak ex_reader s0 2).1 = 10 ∧ (GetBalance ex_keccak ex_reader t 2).1 = 0.
Proof. vm_compute. eexists. split; [reflexivity|]. by vm_compute. Qed.

(** * The state database behind the pools

    The operations of StateDB.v that the transaction pools call, and that they
    satisfy the laws of StateInterface.v: what the theorems about the pools
    assume of their states, the state databases of the repository provide. *)

From S2P Require Import StateInterface.

Section StateInstance.
Context (Keccak256Hash : bytes → Hash).
Context (reader : Reader).
Implicit Types s : StateDB.

Abbreviation lookup_obj := (obj_lookup Keccak256Hash reader).

(** A component of the account at an address, zero when there is none. *)
Definition account_part (f : StateAccount → Z) s (a : Address) : Z :=
  match lookup_obj s a with Some o => f (data o) | None => 0 end.

(** The accessors, by the object that an address reads as. *)
Lemma GetNonce_part s a :
  state_wf s → (StateDB.GetNonce Keccak256Hash reader s a).1 = account_part acct_Nonce s a.
Proof.
  intros Hw. unfold StateDB.GetNonce, account_part.
  destruct (getStateObject_spec Keccak256Hash reader s a Hw) as [<- _].
  by destruct (getStateObject _ _ s a) as [[o|] s'].
Qed.

Lemma GetBalance_part s a :
  state_wf s → (StateDB.GetBalance Keccak256Hash reader s a).1 = account_part acct_Balance s a.
Proof.
  intros Hw. unfold StateDB.GetBalance, account_part.
  destruct (getStateObject_spec Keccak256Hash reader s a Hw) as [<- _].
  by destruct (getStateObject _ _ s a) as [[o|] s'].
Qed.

(** Equivalent states have the same accounts. *)
Lemma account_part_equiv f s t a :
  state_equiv Keccak256Hash reader s t → account_part f s a = account_part f t a.
Proof.
  intros He. unfold account_part. pose proof (se_objects _ _ _ _ He a) as Ho.
  destruct Ho as [o o' Hoo|]; [|done]. by rewrite (oe_data _ _ _ _ _ Hoo).
Qed.

(** The object [SetNonce] writes to: the one of the address, or a new one. *)
Lemma getOrNewStateObject_spec s a :
  state_wf s →
  let r := getOrNewStateObject Keccak256Hash reader s a in
  obj_address r.1 = a ∧ state_wf r.2 ∧
  (∀ f b, a ≠ b → account_part f r.2 b = account_part f s b).
Proof.
  intros Hw. unfold getOrNewStateObject.
  destruct (getStateObject_spec Keccak256Hash reader s a Hw) as (Hl & He & Hw' & _).
  destruct (getStateObject _ _ s a) as [[o|] s'] eqn:Hg; simpl in *.
  - split_and!; [by apply (obj_lookup_address Keccak256Hash reader s)|done|].
    intros f b _. by apply account_part_equiv.
  - split_and!; [done| |].
    + by apply setStateObject_wf, set_journal_wf.
    + intros f b Hb. rewrite <-(account_part_equiv f s' s b He).
      unfold account_part. rewrite obj_lookup_set, bool_decide_eq_false_2 by done. done.
Qed.

Lemma SetNonce_spec s a n :
  state_wf s →
  let t := StateDB.SetNonce Keccak256Hash reader s a n in
  state_wf t ∧ account_part acct_Nonce t a = n ∧
  (∀ b, a ≠ b → account_part acct_Nonce t b = account_part acct_Nonce s b).
Proof.
  intros Hw. unfold StateDB.SetNonce.
  pose proof (getOrNewStateObject_spec s a Hw) as (Ha & Hw' & Hb). simpl in *.
  destruct (getOrNewStateObject _ _ s a) as [o s']. simpl in *.
  unfold obj_SetNonce. split_and!.
  - by apply setStateObject_wf, set_journal_wf.
  - unfold account_part. rewrite obj_lookup_set, bool_decide_eq_true_2 by done. done.
  - intros b Hne. unfold account_part. rewrite obj_lookup_set, bool_decide_eq_false_2
      by (simpl; congruence). apply (Hb acct_Nonce b Hne).
Qed.

Lemma Copy_wf s : state_wf s → state_wf (StateDB.Copy s).
Proof.
  intros [Ha Hl Hal Ht]. split; simpl; [|done| |].
  - intros a o. rewrite lookup_fmap_Some. intros (o' & <- & Ho). simpl. by apply Ha.
  - unfold AccessList.Copy. by destruct (accessList_ s).
  - unfold TransientStorage.Copy. rewrite map_fmap_id. done.
Qed.

(** What comes back from [New] and the operations of the scope, as a state of
    the pools: the accessors drop the caches they filled, as reads do not change
    what a state reads as. *)
Definition wf_state : Type := { s : StateDB | state_wf s }.

#[export] Instance wf_state_account : AccountState wf_state := {|
  GetNonce w a := (StateDB.GetNonce Keccak256Hash reader (`w) a).1;
  GetBalance w a := (StateDB.GetBalance Keccak256Hash reader (`w) a).1;
  SetNonce w a n :=
    StateDB.SetNonce Keccak256Hash reader (`w) a n ↾ proj1 (SetNonce_spec (`w) a n (proj2_sig w));
  Copy w := StateDB.Copy (`w) ↾ Copy_wf (`w) (proj2_sig w)
|}.

#[export] Instance wf_state_laws : AccountStateLaws wf_state.
Proof.
  split; intros [s Hw] a; simpl.
  - rewrite !GetNonce_part by (done || by apply Copy_wf). apply account_part_equiv, Copy_equiv.
  - rewrite !GetBalance_part by (done || by apply Copy_wf). apply account_part_equiv, Copy_equiv.
  - intros n. destruct (SetNonce_spec s a n Hw) as (Hwt & Hn & _). by rewrite GetNonce_part.
  - intros b n Hne. destruct (SetNonce_spec s a n Hw) as (Hwt & _ & Hn).
    rewrite !GetNonce_part by done. by apply Hn.
Qed.
End StateInstance.
