(* ===== verification/StateFinalise.v ===== *)
(** * The end of a transaction

    What [Finalise] of StateDB.v does to every account, in whatever order it
    visits the dirty accounts and their dirty slots. *)

From S2P Require Import Prelude GoSort TxTypes AccessList StateTypes StateDB StateEquiv StateRevert.
From S2P Require Import StateSnapshot.

Lemma list_to_map_range `{MapRange} {A} (m : gmap Z A) :
  list_to_map (M:=gmap Z A) (map_range m) = m.
Proof.
  rewrite (list_to_map_proper (map_range m) (map_to_list m));
    [apply list_to_map_to_list|apply map_range_NoDup|apply map_range_perm].
Qed.

Section Finalise.
Context (Keccak256Hash : bytes → Hash).
Context (reader : Reader).
Implicit Types s t : StateDB.
Implicit Types o : stateObject.

Abbreviation committed_ := (committed reader).
Abbreviation current_ := (current reader).

(** ** One object *)

(** What a slot is tracked with, once its dirty value is moved. *)
Definition track (tracked : option Hash) (orig value : Hash) : option Hash :=
  match tracked with
  | Some o => if o =? value then None else Some o
  | None => Some orig
  end.

(** The parts that the loop leaves alone. *)
Record slot_frame (o : stateObject) s (o' : stateObject) s' : Prop := {
  sf_address : obj_address o' = obj_address o;
  sf_data : data o' = data o;
  sf_code : code o' = code o ∧ dirtyCode o' = dirtyCode o;
  sf_dirty : dirtyStorage o' = dirtyStorage o;
  sf_selfDestructed : selfDestructed o' = selfDestructed o;
  sf_destruct : stateObjectsDestruct s' = stateObjectsDestruct s;
  sf_objects : stateObjects s' = stateObjects s;
  sf_journal : journal_ s' = journal_ s;
  sf_mutations : mutations s' = mutations s
}.

Lemma obj_GetCommittedState_frame s o k :
  let r := obj_GetCommittedState reader s o k in
  slot_frame o s r.1.2 r.2 ∧ pendingStorage r.1.2 = pendingStorage o ∧
  uncommittedStorage r.1.2 = uncommittedStorage o.
Proof.
  unfold obj_GetCommittedState.
  destruct (pendingStorage o !! k); [by split_and!|].
  destruct (originStorage o !! k); [by split_and!|].
  case_bool_decide; [by split_and!|].
  destruct (Storage_ reader _ k); [by split_and!|].
  simpl. unfold setError. by destruct (dbErr s).
Qed.

Lemma finalise_slot_spec o s k v :
  let r := finalise_slot reader (o, s) (k, v) in
  slot_frame o s r.1 r.2 ∧
  (∀ j, committed_ (stateObjectsDestruct s) r.1 j
    = if bool_decide (k = j) then v else committed_ (stateObjectsDestruct s) o j) ∧
  (∀ j, uncommittedStorage r.1 !! j
    = if bool_decide (k = j)
      then track (uncommittedStorage o !! k) (committed_ (stateObjectsDestruct s) o k) v
      else uncommittedStorage o !! j).
Proof.
  unfold finalise_slot. destruct (uncommittedStorage o !! k) as [tr|] eqn:Hu.
  - assert (∀ o', slot_frame o s o' s → originStorage o' = originStorage o →
      pendingStorage o' = <[k := v]> (pendingStorage o) →
      ∀ j, committed_ (stateObjectsDestruct s) o' j
      = if bool_decide (k = j) then v else committed_ (stateObjectsDestruct s) o j) as Hc.
    { intros o' [Ha _ _ _ _ _ _ _ _] Ho Hp j. unfold committed. rewrite Hp, Ho, Ha.
      destruct (decide (k = j)) as [<-|].
      - by rewrite lookup_insert_eq, (bool_decide_eq_true_2 (k = k)).
      - by rewrite lookup_insert_ne, (bool_decide_eq_false_2 (k = j)). }
    destruct (Z.eqb_spec tr v) as [->|Hne]; (split_and!; [done|by apply Hc|]); intros j; simpl.
    + rewrite Z.eqb_refl, lookup_delete. case_decide; case_bool_decide; done.
    + case_bool_decide; [subst; rewrite Hu|done]. by destruct (Z.eqb_spec tr v).
  - pose proof (obj_GetCommittedState_spec Keccak256Hash reader s o k) as Hg.
    pose proof (obj_GetCommittedState_frame s o k) as Hf.
    destruct (obj_GetCommittedState reader s o k) as [[orig o'] s']. simpl in *.
    destruct Hg as (-> & Hoo & _). destruct Hf as ([] & Hp & Hun).
    split_and!; [by split| |].
    + intros j. pose proof (oe_committed _ _ _ _ _ Hoo j) as Hj. rewrite <-Hj.
      unfold committed. simpl. rewrite sf_address0.
      destruct (decide (k = j)) as [<-|].
      * by rewrite lookup_insert_eq, (bool_decide_eq_true_2 (k = k)).
      * by rewrite lookup_insert_ne, (bool_decide_eq_false_2 (k = j)).
    + intros j. simpl. rewrite Hun, lookup_insert. case_decide; case_bool_decide; done.
Qed.

Lemma slot_frame_trans o s o1 s1 o2 s2 :
  slot_frame o s o1 s1 → slot_frame o1 s1 o2 s2 → slot_frame o s o2 s2.
Proof. intros [] []. split; intuition congruence. Qed.

Lemma finalise_slots_spec l o s :
  NoDup l.*1 →
  let r := fold_left (finalise_slot reader) l (o, s) in
  slot_frame o s r.1 r.2 ∧
  ∀ j, committed_ (stateObjectsDestruct s) r.1 j
    = match list_to_map (M:=gmap Z Z) l !! j with
      | Some v => v
      | None => committed_ (stateObjectsDestruct s) o j
      end ∧
    uncommittedStorage r.1 !! j
    = match list_to_map (M:=gmap Z Z) l !! j with
      | Some v => track (uncommittedStorage o !! j) (committed_ (stateObjectsDestruct s) o j) v
      | None => uncommittedStorage o !! j
      end.
Proof.
  revert o s. induction l as [|[k v] l IH]; intros o s Hnd; [by split|].
  inversion Hnd as [|?? Hk Hnd']; subst. cbn [fold_left].
  destruct (finalise_slot_spec o s k v) as (Hf & Hc & Hu).
  destruct (finalise_slot reader (o, s) (k, v)) as [o1 s1]. cbn [fst snd] in *.
  destruct (IH o1 s1 Hnd') as (Hf' & Hj').
  destruct (fold_left _ _ _) as [o2 s2]. cbn [fst snd] in *.
  split; [by eapply slot_frame_trans|]. intros j.
  destruct (Hj' j) as [Hcj Huj]. rewrite (sf_destruct _ _ _ _ Hf) in *.
  specialize (Hc j). specialize (Hu j). cbn [list_to_map foldr].
  change (list_to_map ((k, v) :: l)) with (<[k := v]> (list_to_map l) : gmap Z Z).
  destruct (decide (k = j)) as [<-|Hne].
  - rewrite bool_decide_eq_true_2 in Hc, Hu by done. rewrite lookup_insert_eq.
    rewrite not_elem_of_list_to_map_1 in Hcj, Huj by done. by rewrite Hcj, Huj, Hc, Hu.
  - rewrite bool_decide_eq_false_2 in Hc, Hu by done. rewrite lookup_insert_ne by done.
    by rewrite Hcj, Huj, Hc, Hu.
Qed.

(** An object whose dirty slots have been moved. *)
Record finalised (d : gmap Z stateObject) (o o' : stateObject) : Prop := {
  fi_address : obj_address o' = obj_address o;
  fi_data : data o' = data o;
  fi_code : code o' = code o ∧ dirtyCode o' = dirtyCode o;
  fi_dirty : dirtyStorage o' = ∅;
  fi_selfDestructed : selfDestructed o' = selfDestructed o;
  fi_newContract : newContract o' = false;
  fi_slots k : current_ d o' k = current_ d o k ∧ committed_ d o' k = current_ d o k;
  fi_uncommitted k : uncommittedStorage o' !! k
    = match dirtyStorage o !! k with
      | Some v => track (uncommittedStorage o !! k) (committed_ d o k) v
      | None => uncommittedStorage o !! k
      end
}.

Lemma obj_finalise_spec `{MapRange} s o :
  let r := obj_finalise reader s o in
  finalised (stateObjectsDestruct s) o r.1 ∧ stateObjectsDestruct r.2 = stateObjectsDestruct s ∧
  stateObjects r.2 = stateObjects s ∧ journal_ r.2 = journal_ s ∧ mutations r.2 = mutations s.
Proof.
  unfold obj_finalise.
  destruct (finalise_slots_spec (map_range (dirtyStorage o)) o s (map_range_NoDup _)) as [Hf Hj].
  rewrite list_to_map_range in Hj.
  destruct (fold_left _ _ _) as [o1 s1]. simpl in *. destruct Hf.
  assert ((if map_len (dirtyStorage o1) >? 0 then set_dirtyStorage o1 ∅ else o1)
    = set_dirtyStorage o1 ∅) as ->.
  { destruct (Z.gtb_spec (map_len (dirtyStorage o1)) 0) as [|H0]; [done|].
    assert (dirtyStorage o1 = ∅) as Hd.
    { apply map_len_zero. unfold map_len in *. lia. }
    unfold set_dirtyStorage. rewrite <-Hd. by destruct o1. }
  split_and!; try done. split; simpl; try done.
  - intros k. unfold current. simpl. rewrite lookup_empty.
    assert (∀ d, committed_ d (set_newContract (set_dirtyStorage o1 ∅) false) k
      = committed_ d o1 k) as -> by done.
    destruct (Hj k) as [-> _]. by destruct (dirtyStorage o !! k).
  - intros k. by destruct (Hj k) as [_ ->].
Qed.

(** ** One account *)

Definition to_delete (deleteEmptyObjects : bool) o : bool :=
  selfDestructed o || (deleteEmptyObjects && obj_empty Keccak256Hash o).

(** The fate of the account [a]. *)
Record account_finalised (deleteEmptyObjects : bool) s (a : Address) t : Prop := {
  af_absent : stateObjects s !! a = None →
    stateObjects t !! a = None ∧ stateObjectsDestruct t !! a = stateObjectsDestruct s !! a;
  af_deleted o : stateObjects s !! a = Some o → to_delete deleteEmptyObjects o = true →
    stateObjects t !! a = None ∧ is_Some (stateObjectsDestruct t !! a) ∧
    mutations t !! a = Some (MkMutation deletion false);
  af_kept o : stateObjects s !! a = Some o → to_delete deleteEmptyObjects o = false →
    ∃ o', stateObjects t !! a = Some o' ∧ finalised (stateObjectsDestruct s) o o' ∧
    stateObjectsDestruct t !! a = stateObjectsDestruct s !! a ∧
    mutations t !! a = Some (MkMutation update false)
}.

(** The two states agree at [a]. *)
Definition same_at s (a : Address) t : Prop :=
  stateObjects t !! a = stateObjects s !! a ∧
  stateObjectsDestruct t !! a = stateObjectsDestruct s !! a ∧
  mutations t !! a = mutations s !! a.

Lemma finalise_account_spec `{MapRange} del s a :
  (∀ o, stateObjects s !! a = Some o → obj_address o = a) →
  let t := finalise_account Keccak256Hash reader del s a in
  account_finalised del s a t ∧ (∀ b, a ≠ b → same_at s b t).
Proof.
  intros Ha. unfold finalise_account. destruct (stateObjects s !! a) as [o|] eqn:Ho; simpl.
  2: { split; [split; intros; simplify_eq; by rewrite ?Ho|done]. }
  specialize (Ha o eq_refl). fold (to_delete del o). destruct (to_delete del o) eqn:Hdel.
  - rewrite Ha. split.
    + split; intros; simplify_eq; try congruence.
      case_bool_decide; simpl; rewrite ?lookup_delete_eq, ?lookup_insert_eq; split_and!; try done;
        by eexists.
    + intros b Hb. unfold same_at.
      case_bool_decide; simpl; by rewrite ?lookup_delete_ne, ?lookup_insert_ne by done.
  - destruct (obj_finalise_spec s o) as (Hf & Hd & Hst & Hj & Hm).
    destruct (obj_finalise reader s o) as [o' s']. simpl in *.
    assert (obj_address o' = a) as Ha' by (rewrite (fi_address _ _ _ Hf); done).
    split.
    + split; intros; simplify_eq; try congruence. exists o'. simpl. rewrite !Ha', !lookup_insert_eq.
      split_and!; [done|done|by rewrite Hd|done].
    + intros b Hb. unfold same_at. simpl. rewrite !lookup_insert_ne by congruence.
      by rewrite Hst, Hd, Hm.
Qed.

Lemma committed_ext d d' o k :
  (is_Some (d !! obj_address o) ↔ is_Some (d' !! obj_address o)) →
  committed_ d o k = committed_ d' o k.
Proof.
  intros Hd. unfold committed. destruct (pendingStorage o !! k); [done|].
  destruct (originStorage o !! k); [done|]. by rewrite (bool_decide_ext _ _ Hd).
Qed.

Lemma finalised_ext d d' o o' :
  (is_Some (d !! obj_address o) ↔ is_Some (d' !! obj_address o)) →
  finalised d o o' → finalised d' o o'.
Proof.
  intros Hd [Ha Hda Hc Hdi Hs Hn Hsl Hu].
  assert (∀ k, committed_ d o k = committed_ d' o k) as Ho by (intros; by apply committed_ext).
  assert (∀ k, committed_ d o' k = committed_ d' o' k) as Ho'
    by (intros; apply committed_ext; by rewrite Ha).
  split; try done.
  - intros k. unfold current in *. specialize (Hsl k). by rewrite <-Ho, <-Ho'.
  - intros k. rewrite <-Ho. apply Hu.
Qed.

Lemma finalise_accounts_spec `{MapRange} del l s :
  NoDup l → (∀ a o, stateObjects s !! a = Some o → obj_address o = a) →
  let t := fold_left (finalise_account Keccak256Hash reader del) l s in
  (∀ a, a ∈ l → account_finalised del s a t) ∧ (∀ a, a ∉ l → same_at s a t).
Proof.
  revert s. induction l as [|a l IH]; intros s Hnd Haddr; simpl.
  { split; [intros a Ha; by apply not_elem_of_nil in Ha|done]. }
  inversion Hnd as [|?? Hal Hnd']; subst.
  destruct (finalise_account_spec del s a (Haddr a)) as [Hacc Hother].
  set (s1 := finalise_account Keccak256Hash reader del s a) in *.
  assert (∀ b o, stateObjects s1 !! b = Some o → obj_address o = b) as Haddr1.
  { intros b o Hb. destruct (decide (a = b)) as [<-|Hne].
    - destruct (stateObjects s !! a) as [oa|] eqn:Hoa.
      + destruct (to_delete del oa) eqn:Hdel.
        * destruct (af_deleted _ _ _ _ Hacc oa Hoa Hdel) as (Hn & _). congruence.
        * destruct (af_kept _ _ _ _ Hacc oa Hoa Hdel) as (o' & Ho' & Hf & _).
          rewrite Ho' in Hb. simplify_eq. rewrite (fi_address _ _ _ Hf). by apply Haddr.
      + destruct (af_absent _ _ _ _ Hacc Hoa). congruence.
    - destruct (Hother b Hne) as [Hs _]. rewrite Hs in Hb. by apply Haddr. }
  destruct (IH s1 Hnd' Haddr1) as [Hin Hout]. split.
  - intros b Hb. apply elem_of_cons in Hb as [->|Hb].
    + destruct (Hout a Hal) as (Hs & Hd & Hm). destruct Hacc as [Ha1 Ha2 Ha3].
      split; rewrite Hs, Hd; [exact Ha1|by rewrite Hm..].
    + assert (a ≠ b) as Hne by (intros ->; done).
      destruct (Hother b Hne) as (Hs & Hd & Hm). destruct (Hin b Hb) as [Ha1 Ha2 Ha3].
      rewrite Hs, Hd in *. split; [exact Ha1|exact Ha2|].
      intros o Ho Hdel. destruct (Ha3 o Ho Hdel) as (o' & H1 & H2 & H3 & H4).
      exists o'. split_and!; try done. eapply finalised_ext; [|exact H2].
      rewrite (Haddr b o Ho), Hd. done.
  - intros b Hb. apply not_elem_of_cons in Hb as [Hne Hb].
    destruct (Hother b (not_eq_sym Hne)) as (Hs & Hd & Hm).
    destruct (Hout b Hb) as (Hs' & Hd' & Hm'). unfold same_at. split_and!; congruence.
Qed.

(** [Finalise], in whatever order it visits the dirty accounts and slots, ends
    the transaction: the journal, the snapshots and the refund are cleared; a
    dirty account that self-destructed (or is empty, when asked) is gone and
    reads as absent until it is created again; every other dirty account keeps
    its data and all its current slot values, which become its committed
    values, has no dirty slot left and is no longer a new contract; accounts
    that are not dirty are untouched. *)
Theorem Finalise_spec (MR : MapRange) s del :
  state_wf s →
  let t := Finalise Keccak256Hash reader s del in
  entries (journal_ t) = [] ∧ validRevisions (journal_ t) = [] ∧ refund t = 0 ∧
  (∀ a o, is_Some (dirties (journal_ s) !! a) → stateObjects s !! a = Some o →
    if to_delete del o then
      obj_lookup Keccak256Hash reader t a = None ∧
      mutations t !! a = Some (MkMutation deletion false)
    else ∃ o', stateObjects t !! a = Some o' ∧ finalised (stateObjectsDestruct s) o o' ∧
      (∀ k, current_ (stateObjectsDestruct t) o' k = current_ (stateObjectsDestruct s) o k ∧
            committed_ (stateObjectsDestruct t) o' k = current_ (stateObjectsDestruct s) o k) ∧
      mutations t !! a = Some (MkMutation update false)) ∧
  (∀ a, dirties (journal_ s) !! a = None → same_at s a t).
Proof.
  intros Hw. unfold Finalise.
  assert (NoDup (map_range (dirties (journal_ s))).*1) as Hnd by apply map_range_NoDup.
  assert (∀ a, a ∈ (map_range (dirties (journal_ s))).*1 ↔ is_Some (dirties (journal_ s) !! a))
    as Hin.
  { intros a. rewrite list_elem_of_fmap. split.
    - intros ([b n] & -> & Hb%map_range_elem). by exists n.
    - intros [n Hn]. exists (a, n). split; [done|]. by apply map_range_elem. }
  destruct (finalise_accounts_spec del _ s Hnd (sw_address _ Hw)) as [Hacc Hout].
  set (u := fold_left _ _ _) in *. cbn zeta. split_and!; [done..| |].
  - intros a o Ha Ho. apply Hin, Hacc in Ha. destruct (to_delete del o) eqn:Hdel.
    + destruct (af_deleted _ _ _ _ Ha o Ho Hdel) as (Hn & Hd & Hm). split; [|done].
      unfold obj_lookup. simpl. by rewrite Hn, (bool_decide_eq_true_2 _ Hd).
    + destruct (af_kept _ _ _ _ Ha o Ho Hdel) as (o' & Ho' & Hf & Hd & Hm).
      exists o'. split_and!; try done. intros k.
      assert (obj_address o = a) as Hao by by eapply sw_address.
      assert (finalised (stateObjectsDestruct u) o o') as [_ _ _ _ _ _ Hsl _].
      { eapply finalised_ext; [|exact Hf]. by rewrite Hao, Hd. }
      destruct (Hsl k) as [H1 H2]. change (stateObjectsDestruct (clearJournalAndRefund u))
        with (stateObjectsDestruct u). rewrite H1, H2.
      assert (current_ (stateObjectsDestruct u) o k = current_ (stateObjectsDestruct s) o k) as ->;
        [|done].
      unfold current. destruct (dirtyStorage o !! k); [done|]. apply committed_ext.
      by rewrite Hao, Hd.
  - intros a Ha. apply Hout. rewrite Hin, Ha. by intros [].
Qed.
End Finalise.

(** ** Concrete inputs *)

(** The state of StateSnapshot.v in which slot 7 of account 1 is dirty. *)
Lemma Finalise_spec_witness :
  state_wf ex_s0 ∧
  (∃ o', stateObjects (Finalise ex_keccak ex_reader ex_s0 true) !! 1 = Some o' ∧
   dirtyStorage o' = ∅) ∧
  same_at ex_s0 2 (Finalise ex_keccak ex_reader ex_s0 true).
Proof.
  assert (state_wf ex_s0) as Hw
    by apply (run_ops_good ex_keccak ex_reader _ _ _ ex_s0_run), NewStateDB_good.
  destruct (Finalise_spec ex_keccak ex_reader canonical_range ex_s0 true Hw)
    as (_ & _ & _ & Hdirty & Hclean).
  split; [exact Hw|]. split; [|apply Hclean; vm_compute; reflexivity].
  assert (∃ o, stateObjects ex_s0 !! 1 = Some o ∧ to_delete ex_keccak true o = false) as (o & Ho & Hd)
    by (eexists; split; vm_compute; reflexivity).
  assert (is_Some (dirties (journal_ ex_s0) !! 1)) as Hj by (vm_compute; by eexists).
  specialize (Hdirty 1 o Hj Ho). rewrite Hd in Hdirty.
  destruct Hdirty as (o' & Ho' & Hf & _). exists o'. split; [exact Ho'|apply Hf].
Defined.
