(* ===== verification/VMInstance.v ===== *)
(** * The state database behind the messages

    The state database of StateDB.v has the interface of VMInterface.v and
    satisfies its laws: the theorems about messages hold of it.  A read of the
    database also returns a database, with more cached; the instance drops it,
    since what a database reads as does not depend on its caches (StateEquiv.v). *)

From S2P Require Import Prelude TxTypes AccessList StateTypes StateDB StateEquiv StateRevert.
From S2P Require Import VMInterface.

Section VMInstance.
Context (Keccak256Hash : bytes → Hash).
Context (reader : Reader).
Implicit Types s t : StateDB.
Implicit Types o : stateObject.

Abbreviation lookup_obj := (obj_lookup Keccak256Hash reader).

(** What can be read of an account: its balance, its nonce and its code. *)
Definition obj_view (mo : option stateObject) : Z * Z * bytes :=
  match mo with
  | Some o => (acct_Balance (data o), acct_Nonce (data o), code_of Keccak256Hash reader o)
  | None => (0, 0, [])
  end.

Definition view s (a : Address) : Z * Z * bytes := obj_view (lookup_obj s a).

(** The states of the instance: balances and the refund at their width. *)
Record vm_ok s : Prop := {
  vo_wf : state_wf s;
  vo_balance a : is_uint256 (view s a).1.1;
  vo_refund : is_uint64 (refund s)
}.

Lemma view_equiv s t a : state_equiv Keccak256Hash reader s t → view s a = view t a.
Proof.
  intros He. unfold view. destruct (se_objects _ _ _ _ He a) as [o o' Ho|]; [|done]. simpl.
  by rewrite (oe_data _ _ _ _ _ Ho), (oe_code _ _ _ _ _ Ho).
Qed.

Lemma vm_ok_equiv s t :
  state_equiv Keccak256Hash reader t s → state_wf t → vm_ok s → vm_ok t.
Proof.
  intros He Hw [_ Hb Hr]. split; [done| |by rewrite (se_refund _ _ _ _ He)].
  intros a. by rewrite (view_equiv t s a He).
Qed.

(** ** Reads *)

Lemma GetBalance_view s a :
  state_wf s → (StateDB.GetBalance Keccak256Hash reader s a).1 = (view s a).1.1.
Proof.
  intros Hw. unfold StateDB.GetBalance, view.
  destruct (getStateObject_spec Keccak256Hash reader s a Hw) as [<- _].
  by destruct (getStateObject _ _ s a) as [[o|] s'].
Qed.

Lemma GetNonce_view s a :
  state_wf s → (StateDB.GetNonce Keccak256Hash reader s a).1 = (view s a).1.2.
Proof.
  intros Hw. unfold StateDB.GetNonce, view.
  destruct (getStateObject_spec Keccak256Hash reader s a Hw) as [<- _].
  by destruct (getStateObject _ _ s a) as [[o|] s'].
Qed.

Lemma GetCode_view s a :
  state_wf s → (StateDB.GetCode Keccak256Hash reader s a).1 = (view s a).2.
Proof.
  intros Hw. unfold StateDB.GetCode, view.
  destruct (getStateObject_spec Keccak256Hash reader s a Hw) as [<- _].
  destruct (getStateObject _ _ s a) as [[o|] s']; [|done]. simpl.
  pose proof (obj_Code_spec Keccak256Hash reader s' o) as [Hc _].
  by destruct (obj_Code _ _ s' o) as [[c o'] s''].
Qed.

(** ** Writes *)

Lemma view_set s o a :
  view (setStateObject s o) a
  = if bool_decide (obj_address o = a) then obj_view (Some o) else view s a.
Proof. unfold view. rewrite obj_lookup_set. by case_bool_decide. Qed.

Lemma view_journal s j a : view (set_journal s j) a = view s a.
Proof. done. Qed.

(** The object that a write starts from, and where the state is left. *)
Lemma getOrNew_view s a :
  vm_ok s →
  let r := getOrNewStateObject Keccak256Hash reader s a in
  obj_address r.1 = a ∧ obj_view (Some r.1) = view s a ∧ vm_ok r.2 ∧
  refund r.2 = refund s ∧ (∀ b, view r.2 b = view s b).
Proof.
  intros Hok. pose proof (vo_wf _ Hok) as Hw. unfold getOrNewStateObject.
  destruct (getStateObject_spec Keccak256Hash reader s a Hw) as (Hl & He & Hw' & _).
  assert (∀ b, view (getStateObject Keccak256Hash reader s a).2 b = view s b) as Hv
    by (intros; by apply view_equiv).
  pose proof (vm_ok_equiv _ _ He Hw' Hok) as Hok'. pose proof (se_refund _ _ _ _ He) as Hr.
  destruct (getStateObject _ _ s a) as [[o|] s'] eqn:Hg; cbn [fst snd] in *.
  - split_and!; try done; [by apply (obj_lookup_address Keccak256Hash reader s)|].
    unfold view. by rewrite <-Hl.
  - assert (obj_view (Some (newObject Keccak256Hash a None)) = (0, 0, [])) as Hnew.
    { simpl. unfold code_of. simpl. by rewrite Z.eqb_refl. }
    assert (∀ b, view (createObject Keccak256Hash s' a).2 b = view s b) as Hv'.
    { intros b. unfold createObject. cbn [snd]. rewrite view_set. rewrite Hnew.
      case_bool_decide as Hb; [|apply (Hv b)]. cbn in Hb. subst b. unfold view. by rewrite <-Hl. }
    split_and!; try done; 
      [by change (obj_view (Some (newObject Keccak256Hash a None)) = view s a);
        rewrite Hnew; unfold view; rewrite <-Hl|].
    split; [by apply setStateObject_wf, set_journal_wf| |apply (vo_refund _ Hok')].
    intros b. rewrite Hv'. apply Hok.
Qed.

(** Writing back an object of the address. *)
Lemma write_view s a o o' j :
  vm_ok s → obj_address o = a → obj_address o' = obj_address o →
  is_uint256 (acct_Balance (data o')) →
  let t := setStateObject (set_journal s j) o' in
  vm_ok t ∧ refund t = refund s ∧
  ∀ b, view t b = if bool_decide (a = b) then obj_view (Some o') else view s b.
Proof.
  intros [Hw Hb Hr] Ha Ha' Hbal t.
  assert (∀ b, view t b = if bool_decide (a = b) then obj_view (Some o') else view s b) as Hv.
  { intros b. unfold t. rewrite view_set, Ha', Ha. done. }
  split_and!; [|done|done]. split; [by apply setStateObject_wf, set_journal_wf| |done].
  intros b. rewrite Hv. case_bool_decide; [done|apply Hb].
Qed.

Lemma SetBalance_view s o a x :
  vm_ok s → obj_address o = a → is_uint256 x →
  let t := (obj_SetBalance s o x).2 in
  vm_ok t ∧ refund t = refund s ∧
  ∀ b, view t b = if bool_decide (a = b)
                  then (x, (obj_view (Some o)).1.2, (obj_view (Some o)).2) else view s b.
Proof. intros Hok Ha Hx. by apply (write_view s a o). Qed.

Lemma AddBalance_view s a x :
  vm_ok s →
  let t := (StateDB.AddBalance Keccak256Hash reader s a x).2 in
  vm_ok t ∧ refund t = refund s ∧
  ∀ b, view t b = if bool_decide (a = b)
    then (wrap256 ((view s a).1.1 + x), (view s a).1.2, (view s a).2) else view s b.
Proof.
  intros Hok. unfold StateDB.AddBalance.
  pose proof (getOrNew_view s a Hok) as (Ha & Hv & Hok' & Hr & Hvs).
  destruct (getOrNewStateObject _ _ s a) as [o s']. cbn [fst snd] in *. unfold obj_AddBalance.
  destruct (Z.eqb_spec x 0) as [->|Hx].
  - set (s1 := if obj_empty _ o then _ else s').
    assert (∀ b, view s1 b = view s b) as Hs1 by (intros b; unfold s1; destruct (obj_empty _ o); apply Hvs).
    assert (refund s1 = refund s) as Hr1 by (unfold s1; by destruct (obj_empty _ o)).
    split_and!; [|done|].
    + split; [unfold s1; destruct (obj_empty _ o); [apply set_journal_wf|]; apply Hok'| |].
      * intros b. change (s1, s1).2 with s1. simpl. rewrite Hs1. apply Hok.
      * simpl. rewrite Hr1. apply Hok.
    + intros b. simpl. rewrite Hs1. case_bool_decide as Hb; [subst b|done].
      rewrite Z.add_0_r, wrap256_id by apply Hok. by destruct (view s a) as [[? ?] ?].
  - destruct (SetBalance_view s' o a (wrap256 (acct_Balance (data o) + x)) Hok' Ha (wrap256_range _))
      as (H1 & H2 & H3).
    split_and!; [done|congruence|]. intros b. rewrite H3, Hvs, Hv.
    by assert (acct_Balance (data o) = (view s a).1.1) as -> by by rewrite <-Hv.
Qed.

Lemma SubBalance_view s a x :
  vm_ok s →
  let t := (StateDB.SubBalance Keccak256Hash reader s a x).2 in
  vm_ok t ∧ refund t = refund s ∧
  ∀ b, view t b = if bool_decide (a = b)
    then (wrap256 ((view s a).1.1 - x), (view s a).1.2, (view s a).2) else view s b.
Proof.
  intros Hok. unfold StateDB.SubBalance.
  pose proof (getOrNew_view s a Hok) as (Ha & Hv & Hok' & Hr & Hvs).
  destruct (getOrNewStateObject _ _ s a) as [o s']. cbn [fst snd] in *.
  destruct (Z.eqb_spec x 0) as [->|Hx]; cbn [snd].
  - split_and!; [done..|]. intros b. rewrite Hvs. case_bool_decide as Hb; [subst b|done].
    rewrite Z.sub_0_r, wrap256_id by apply Hok. by destruct (view s a) as [[? ?] ?].
  - destruct (SetBalance_view s' o a (wrap256 (acct_Balance (data o) - x)) Hok' Ha (wrap256_range _))
      as (H1 & H2 & H3).
    split_and!; [done|congruence|]. intros b. rewrite H3, Hvs, Hv.
    by assert (acct_Balance (data o) = (view s a).1.1) as -> by by rewrite <-Hv.
Qed.

Lemma SetNonce_view s a n :
  vm_ok s →
  let t := StateDB.SetNonce Keccak256Hash reader s a n in
  vm_ok t ∧ refund t = refund s ∧
  ∀ b, view t b = if bool_decide (a = b) then ((view s a).1.1, n, (view s a).2) else view s b.
Proof.
  intros Hok. unfold StateDB.SetNonce.
  pose proof (getOrNew_view s a Hok) as (Ha & Hv & Hok' & Hr & Hvs).
  destruct (getOrNewStateObject _ _ s a) as [o s']. cbn [fst snd] in *.
  assert (acct_Balance (data o) = (view s a).1.1) as Hbal by by rewrite <-Hv.
  destruct (write_view s' a o (obj_setNonce o n)
    (Journal.append (journal_ s') (nonceChange (obj_address o) (acct_Nonce (data o)))) Hok' Ha eq_refl)
    as (H1 & H2 & H3); [simpl; rewrite Hbal; apply Hok|].
  split_and!; [exact H1|rewrite <-Hr; exact H2|]. intros b. unfold obj_SetNonce, journal_append.
  rewrite H3, Hvs, <-Hv. by case_bool_decide.
Qed.

Lemma SetCode_view s a c :
  vm_ok s →
  let t := (StateDB.SetCode Keccak256Hash reader s a c).2 in
  vm_ok t ∧ refund t = refund s ∧
  ∀ b, view t b = if bool_decide (a = b) then ((view s a).1.1, (view s a).1.2, c) else view s b.
Proof.
  intros Hok. unfold StateDB.SetCode.
  pose proof (getOrNew_view s a Hok) as (Ha & Hv & Hok' & Hr & Hvs).
  destruct (getOrNewStateObject _ _ s a) as [o s']. cbn [fst snd] in *.
  assert (acct_Balance (data o) = (view s a).1.1) as Hbal by by rewrite <-Hv.
  destruct (write_view s' a o (obj_setCode o (Keccak256Hash c) c)
    (Journal.append (journal_ s') (codeChange (obj_address o) (code o))) Hok' Ha eq_refl)
    as (H1 & H2 & H3); [simpl; rewrite Hbal; apply Hok|].
  assert (code_of Keccak256Hash reader (obj_setCode o (Keccak256Hash c) c) = c) as Hc.
  { unfold code_of. simpl. destruct (Z.eqb_spec (len c) 0) as [Hl|]; [|done].
    apply len_zero_iff in Hl as ->. simpl. unfold EmptyCodeHash. by rewrite Z.eqb_refl. }
  split_and!; [exact H1|rewrite <-Hr; exact H2|]. intros b. unfold obj_SetCode, journal_append. cbn [snd].
  rewrite H3, Hvs, <-Hv. case_bool_decide; [|done]. cbn [obj_view fst snd]. by rewrite Hc.
Qed.

(** What the other writes leave as it was: the accounts. *)
Lemma same_view s t :
  vm_ok s → state_wf t → refund t = wrap64 (refund t) → (∀ b, view t b = view s b) → vm_ok t.
Proof.
  intros Hok Hw Hr Hv. split; [done| |rewrite Hr; apply wrap64_range].
  intros b. rewrite Hv. apply Hok.
Qed.

Lemma AddRefund_ok s n : vm_ok s → vm_ok (StateDB.AddRefund s n) ∧
  refund (StateDB.AddRefund s n) = wrap64 (refund s + n) ∧
  ∀ b, view (StateDB.AddRefund s n) b = view s b.
Proof.
  intros Hok. split_and!; [|done..]. split; [|apply Hok|apply wrap64_range].
  by destruct (vo_wf _ Hok).
Qed.

Lemma AddAddress_ok s a : vm_ok s → vm_ok (StateDB.AddAddressToAccessList s a) ∧
  refund (StateDB.AddAddressToAccessList s a) = refund s ∧
  ∀ b, view (StateDB.AddAddressToAccessList s a) b = view s b.
Proof.
  intros [[H1 H2 H3 H4] Hb Hr]. unfold StateDB.AddAddressToAccessList.
  pose proof (AccessList.AddAddress_wf (accessList_ s) a H3) as Hal.
  destruct (AccessList.AddAddress (accessList_ s) a) as [al added]. simpl in Hal.
  destruct added; (split_and!; [by split|done|done]).
Qed.

(** The rules of the state database. *)
Definition db_rules (rules : Rules) : StateDB.Rules :=
  StateDB.MkRules (IsEIP2929 rules) (IsEIP4762 rules) (IsShanghai rules).

Lemma foldl_wf {A} (f : accessList → A → accessList) (l : list A) al :
  (∀ al x, AccessList.wf al → AccessList.wf (f al x)) → AccessList.wf al →
  AccessList.wf (fold_left f l al).
Proof. intros Hf. revert al. induction l; intros al Hal; simpl; eauto. Qed.

Lemma Prepare_ok s rules sender coinbase dst pre al :
  vm_ok s →
  match StateDB.Prepare s (db_rules rules) sender coinbase dst pre al with
  | Some t => vm_ok t ∧ (∀ b, view t b = view s b)
  | None => IsEIP2929 rules && IsEIP4762 rules = true
  end.
Proof.
  intros [[H1 H2 H3 H4] Hb Hr]. unfold StateDB.Prepare. simpl.
  destruct (IsEIP2929 rules && IsEIP4762 rules); [done|].
  destruct (IsEIP2929 rules); (split; [|done]); (split; [split|..]; try done).
  all: try apply TransientStorage.new_wf.
  simpl. set (al1 := match dst with Some _ => _ | None => _ end).
  assert (AccessList.wf al1) as Hal1.
  { unfold al1. destruct dst; repeat apply AccessList.AddAddress_wf; apply AccessList.newAccessList_wf. }
  assert (∀ x l, AccessList.wf x → AccessList.wf (fold_left prepare_tuple l x)) as Hprep.
  { intros x l Hx. apply foldl_wf; [|done]. intros y el Hy. apply foldl_wf.
    - intros z k Hz. by apply AccessList.AddSlot_wf.
    - by apply AccessList.AddAddress_wf. }
  assert (AccessList.wf (fold_left prepare_tuple al
    (fold_left (λ al addr, (AccessList.AddAddress al addr).1) pre al1))) as Hall.
  { apply Hprep. apply foldl_wf; [|done]. intros. by apply AccessList.AddAddress_wf. }
  destruct (IsShanghai rules); [by apply AccessList.AddAddress_wf|done].
Qed.

(** ** The instance *)

Definition vm_state : Type := { s : StateDB | vm_ok s }.

Definition vm_prepare (w : vm_state) (rules : Rules) (sender coinbase : Address)
    (dst : option Address) (pre : list Address) (al : list AccessTuple) : option vm_state :=
  match StateDB.Prepare (`w) (db_rules rules) sender coinbase dst pre al as r
    return (match r with Some t => vm_ok t ∧ _ | None => _ end → option vm_state) with
  | Some t => λ H, Some (t ↾ proj1 H)
  | None => λ _, None
  end (Prepare_ok (`w) rules sender coinbase dst pre al (proj2_sig w)).

#[export] Instance vm_state_vm : VMState vm_state := {|
  GetBalance w a := (StateDB.GetBalance Keccak256Hash reader (`w) a).1;
  SubBalance w a x := _ ↾ proj1 (SubBalance_view (`w) a x (proj2_sig w));
  AddBalance w a x := _ ↾ proj1 (AddBalance_view (`w) a x (proj2_sig w));
  GetNonce w a := (StateDB.GetNonce Keccak256Hash reader (`w) a).1;
  SetNonce w a n := _ ↾ proj1 (SetNonce_view (`w) a n (proj2_sig w));
  GetCode w a := (StateDB.GetCode Keccak256Hash reader (`w) a).1;
  SetCode w a c := _ ↾ proj1 (SetCode_view (`w) a c (proj2_sig w));
  Exist w a := (StateDB.Exist Keccak256Hash reader (`w) a).1;
  AddRefund w n := _ ↾ proj1 (AddRefund_ok (`w) n (proj2_sig w));
  GetRefund w := StateDB.GetRefund (`w);
  AddAddressToAccessList w a := _ ↾ proj1 (AddAddress_ok (`w) a (proj2_sig w));
  Prepare := vm_prepare
|}.

Lemma reads_view (w : vm_state) a :
  GetBalance w a = (view (`w) a).1.1 ∧ GetNonce w a = (view (`w) a).1.2 ∧
  GetCode w a = (view (`w) a).2.
Proof.
  destruct w as [s Hok]. pose proof (vo_wf _ Hok).
  split_and!; [by apply GetBalance_view|by apply GetNonce_view|by apply GetCode_view].
Qed.

Lemma same_reads (w w' : vm_state) :
  (∀ b, view (`w') b = view (`w) b) → same_accounts w w'.
Proof.
  intros Hv. split; intros a; destruct (reads_view w a) as (H1 & H2 & H3);
    destruct (reads_view w' a) as (H1' & H2' & H3'); rewrite Hv in *; congruence.
Qed.

Lemma vm_prepare_spec w rules sender coinbase dst pre al :
  match vm_prepare w rules sender coinbase dst pre al with
  | Some w' => ∀ b, view (`w') b = view (`w) b
  | None => IsEIP2929 rules && IsEIP4762 rules = true
  end.
Proof.
  unfold vm_prepare. generalize (Prepare_ok (`w) rules sender coinbase dst pre al (proj2_sig w)).
  destruct (StateDB.Prepare (`w) (db_rules rules) sender coinbase dst pre al); [|done].
  intros [Hok Hv]. done.
Qed.

(** One law about a write, from its effect on the view of the accounts. *)
Ltac law Hview :=
  repeat match goal with
  | |- context [GetBalance ?w ?a] => rewrite (proj1 (reads_view w a))
  | |- context [GetNonce ?w ?a] => rewrite (proj1 (proj2 (reads_view w a)))
  | |- context [GetCode ?w ?a] => rewrite (proj2 (proj2 (reads_view w a)))
  end; simpl proj1_sig; rewrite Hview; try case_bool_decide; subst; try done.

#[export] Instance vm_state_laws : VMStateLaws vm_state.
Proof.
  split.
  - intros w a x b. law (proj2 (proj2 (SubBalance_view (`w) a x (proj2_sig w))) b).
  - intros w a x b. law (proj2 (proj2 (AddBalance_view (`w) a x (proj2_sig w))) b).
  - intros w a n b. law (proj2 (proj2 (SetNonce_view (`w) a n (proj2_sig w))) b).
  - intros w a c b. law (proj2 (proj2 (SetCode_view (`w) a c (proj2_sig w))) b).
  - intros w a x b. law (proj2 (proj2 (SubBalance_view (`w) a x (proj2_sig w))) b).
  - intros w a x b. law (proj2 (proj2 (AddBalance_view (`w) a x (proj2_sig w))) b).
  - intros w a n b. law (proj2 (proj2 (SetNonce_view (`w) a n (proj2_sig w))) b).
  - intros w a c b. law (proj2 (proj2 (SetCode_view (`w) a c (proj2_sig w))) b).
  - intros w a n b. law (proj2 (proj2 (SetNonce_view (`w) a n (proj2_sig w))) b).
  - intros w a c b. law (proj2 (proj2 (SetCode_view (`w) a c (proj2_sig w))) b).
  - intros w n. apply same_reads. apply (AddRefund_ok (`w) n (proj2_sig w)).
  - intros w a. apply same_reads. apply (AddAddress_ok (`w) a (proj2_sig w)).
  - intros w rules sender coinbase dst pre al w' Hp.
    pose proof (vm_prepare_spec w rules sender coinbase dst pre al) as Hs. simpl in Hp.
    rewrite Hp in Hs. by apply same_reads.
  - intros w rules sender coinbase dst pre al Hr.
    pose proof (vm_prepare_spec w rules sender coinbase dst pre al) as Hs. simpl.
    destruct (vm_prepare _ _ _ _ _ _ _); [by eexists|congruence].
  - intros w. apply (proj2_sig w).
  - intros w n. apply (AddRefund_ok (`w) n (proj2_sig w)).
  - intros w a n. apply (SetNonce_view (`w) a n (proj2_sig w)).
  - intros w a c. apply (SetCode_view (`w) a c (proj2_sig w)).
  - intros w a. apply (AddAddress_ok (`w) a (proj2_sig w)).
Qed.
End VMInstance.
