(* ===== verification/EvmCode.v ===== *)
(** * The code of a contract and its jump destinations

    parallelizable-client-go-ethereum/core/vm/analysis_legacy.go: the bitmap of
    the bytes of a contract that are data of a PUSH, written eight or sixteen
    bits at a time, and the reference it stands for: the positions at which an
    instruction starts.  A bitmap is its bytes; [None] is an index out of range,
    which the analysis never meets. *)

From S2P Require Import Prelude.

Definition set2BitsMask : Z := 0x3.
Definition set3BitsMask : Z := 0x7.
Definition set4BitsMask : Z := 0xf.
Definition set5BitsMask : Z := 0x1f.
Definition set6BitsMask : Z := 0x3f.
Definition set7BitsMask : Z := 0x7f.

Abbreviation bitvec := (list Z) (only parsing).

Definition PUSH1 : Z := 0x60.
Definition PUSH32 : Z := 0x7f.

(** [bits[i] |= v] and [bits[i] = v]. *)
Definition or_at (i v : Z) (bits : bitvec) : option bitvec :=
  match bits !! Z.to_nat i with
  | Some b => Some (<[Z.to_nat i := Z.lor b v]> bits)
  | None => None
  end.
Definition put_at (i v : Z) (bits : bitvec) : option bitvec :=
  match bits !! Z.to_nat i with
  | Some _ => Some (<[Z.to_nat i := v]> bits)
  | None => None
  end.

Definition set1 (pos : Z) (bits : bitvec) : option bitvec :=
  or_at (pos / 8) (Z.shiftl 1 (pos mod 8) mod 256) bits.

Definition setN (flag pos : Z) (bits : bitvec) : option bitvec :=
  let a := Z.shiftl flag (pos mod 8) mod 65536 in
  bits ← or_at (pos / 8) (a mod 256) bits;
  let b := Z.shiftr a 8 mod 256 in
  if negb (b =? 0) then put_at (pos / 8 + 1) b bits else Some bits.

Definition set8 (pos : Z) (bits : bitvec) : option bitvec :=
  let a := Z.shiftl 0xFF (pos mod 8) mod 256 in
  bits ← or_at (pos / 8) a bits;
  put_at (pos / 8 + 1) (Z.lxor a 0xFF) bits.

Definition set16 (pos : Z) (bits : bitvec) : option bitvec :=
  let a := Z.shiftl 0xFF (pos mod 8) mod 256 in
  bits ← or_at (pos / 8) a bits;
  bits ← put_at (pos / 8 + 1) 0xFF bits;
  put_at (pos / 8 + 2) (Z.lxor a 0xFF) bits.

Definition codeSegment (bits : bitvec) (pos : Z) : option bool :=
  b ← bits !! Z.to_nat (pos / 8);
  Some (Z.land (Z.shiftr b (pos mod 8)) 1 =? 0).

(** The two loops over [numbits], and the switch after them. *)
Fixpoint sixteens (fuel : nat) (bits : bitvec) (numbits pc : Z) : option (bitvec * Z * Z) :=
  match fuel with
  | S fuel =>
      if numbits >=? 16 then bits ← set16 pc bits; sixteens fuel bits (numbits - 16) (pc + 16)
      else Some (bits, numbits, pc)
  | O => Some (bits, numbits, pc)
  end.

Fixpoint eights (fuel : nat) (bits : bitvec) (numbits pc : Z) : option (bitvec * Z * Z) :=
  match fuel with
  | S fuel =>
      if numbits >=? 8 then bits ← set8 pc bits; eights fuel bits (numbits - 8) (pc + 8)
      else Some (bits, numbits, pc)
  | O => Some (bits, numbits, pc)
  end.

Definition last_bits (bits : bitvec) (numbits pc : Z) : option (bitvec * Z) :=
  if numbits =? 1 then bits ← set1 pc bits; Some (bits, pc + 1)
  else if numbits =? 2 then bits ← setN set2BitsMask pc bits; Some (bits, pc + 2)
  else if numbits =? 3 then bits ← setN set3BitsMask pc bits; Some (bits, pc + 3)
  else if numbits =? 4 then bits ← setN set4BitsMask pc bits; Some (bits, pc + 4)
  else if numbits =? 5 then bits ← setN set5BitsMask pc bits; Some (bits, pc + 5)
  else if numbits =? 6 then bits ← setN set6BitsMask pc bits; Some (bits, pc + 6)
  else if numbits =? 7 then bits ← setN set7BitsMask pc bits; Some (bits, pc + 7)
  else Some (bits, pc).

(** [int8(op)] *)
Definition to_int8 (op : Z) : Z := if op <? 128 then op else op - 256.

(** The loop; each turn moves on by a byte at least, so that the length of the
    code is fuel enough. *)
Fixpoint bitmap_loop (fuel : nat) (code : bytes) (bits : bitvec) (pc : Z) : option bitvec :=
  match fuel with
  | O => Some bits
  | S fuel =>
      if pc <? len code then
        op ← code !! Z.to_nat pc;
        let pc := pc + 1 in
        if to_int8 op <? to_int8 PUSH1 then bitmap_loop fuel code bits pc
        else
          let numbits := op - PUSH1 + 1 in
          '(bits, numbits, pc) ←
            (if numbits >=? 8 then
               '(bits, numbits, pc) ← sixteens 2 bits numbits pc;
               eights 2 bits numbits pc
             else Some (bits, numbits, pc));
          '(bits, pc) ← last_bits bits numbits pc;
          bitmap_loop fuel code bits pc
      else Some bits
  end.

Definition codeBitmapInternal (code : bytes) (bits : bitvec) : option bitvec :=
  bitmap_loop (length code) code bits 0.

Definition codeBitmap (code : bytes) : option bitvec :=
  codeBitmapInternal code (replicate (Z.to_nat (len code / 8 + 1 + 4)) 0).

(** ** The reference *)

(** How many bytes an instruction takes. *)
Definition op_size (op : Z) : Z := if (PUSH1 <=? op) && (op <=? PUSH32) then op - PUSH1 + 2 else 1.

(** The positions at which an instruction starts. *)
Inductive instruction_at (code : bytes) : Z → Prop :=
  | instruction_first : instruction_at code 0
  | instruction_next pc op :
      instruction_at code pc → 0 <= pc → code !! Z.to_nat pc = Some op →
      instruction_at code (pc + op_size op).

(** ** Bits *)

Definition bit (bits : bitvec) (j : Z) : bool := Z.testbit (default 0 (bits !! Z.to_nat (j / 8))) (j mod 8).

(** [bits'] has the bits from [pos] to [pos + n] besides those of [bits]. *)
Record marks (bits bits' : bitvec) (pos n : Z) : Prop := {
  mk_len : length bits' = length bits;
  mk_bits j : 0 <= j → bit bits' j = bit bits j || ((pos <=? j) && (j <? pos + n))
}.

(** Nothing is marked from [pos] on. *)
Definition clear_from (bits : bitvec) (pos : Z) : Prop := ∀ j, pos <= j → bit bits j = false.

Lemma marks_trans bits bits' bits'' pos n m :
  0 <= n → 0 <= m → marks bits bits' pos n → marks bits' bits'' (pos + n) m → marks bits bits'' pos (n + m).
Proof.
  intros Hn Hm [Hl1 H1] [Hl2 H2]. split; [congruence|]. intros j Hj. rewrite H2, H1 by done.
  rewrite <- orb_assoc. f_equal. destruct (Z.leb_spec pos j), (Z.ltb_spec j (pos + n)), (Z.leb_spec (pos + n) j),
    (Z.ltb_spec j (pos + n + m)), (Z.ltb_spec j (pos + (n + m))); try done; lia.
Qed.

Lemma marks_clear bits bits' pos n : 0 <= pos → 0 <= n → marks bits bits' pos n → clear_from bits pos → clear_from bits' (pos + n).
Proof.
  intros Hp Hn [_ H] Hc j Hj. rewrite H, Hc by lia. cbn. destruct (Z.ltb_spec j (pos + n)); [lia|]. by rewrite andb_false_r.
Qed.

Lemma bit_put bits i v j :
  0 <= i < len bits → 0 <= j →
  bit (<[Z.to_nat i := v]> bits) j = if j / 8 =? i then Z.testbit v (j mod 8) else bit bits j.
Proof.
  intros Hi Hj. unfold bit, len in *. pose proof (Z.div_pos j 8). destruct (Z.eqb_spec (j / 8) i) as [->|Hne].
  - by rewrite list_lookup_insert_eq by lia.
  - by rewrite list_lookup_insert_ne by lia.
Qed.

Lemma or_at_spec bits i v :
  0 <= i < len bits → ∃ b, bits !! Z.to_nat i = Some b ∧ or_at i v bits = Some (<[Z.to_nat i := Z.lor b v]> bits).
Proof.
  intros Hi. unfold or_at, len in *. destruct (lookup_lt_is_Some_2 bits (Z.to_nat i)) as [b Hb]; [lia|].
  exists b. by rewrite Hb.
Qed.

Lemma put_at_spec bits i v : 0 <= i < len bits → put_at i v bits = Some (<[Z.to_nat i := v]> bits).
Proof.
  intros Hi. unfold put_at, len in *. destruct (lookup_lt_is_Some_2 bits (Z.to_nat i)) as [b Hb]; [lia|]. by rewrite Hb.
Qed.

(** A bit of a shifted mask. *)
Lemma testbit_window n s k :
  0 <= n → 0 <= s → 0 <= k → Z.testbit (Z.shiftl (Z.ones n) s) k = (s <=? k) && (k <? s + n).
Proof.
  intros Hn Hs Hk. rewrite Z.shiftl_spec by done. destruct (Z.leb_spec s k); cbn.
  - rewrite Z.testbit_ones_nonneg by lia. destruct (Z.ltb_spec (k - s) n), (Z.ltb_spec k (s + n)); try done; lia.
  - by rewrite Z.testbit_neg_r by lia.
Qed.

Lemma testbit_byte x k : 0 <= k < 8 → Z.testbit (x mod 256) k = Z.testbit x k.
Proof. intros Hk. change 256 with (2 ^ 8). by rewrite Z.mod_pow2_bits_low by lia. Qed.

(** The bytes that a mask of at most sixteen bits touches, one after the other. *)
Lemma write_window bits pos n (v0 v1 v2 : Z) (k : Z) :
  0 <= pos → 0 <= n → clear_from bits pos → 0 <= k <= 2 → pos / 8 + k < len bits → pos mod 8 + n <= 8 * (k + 1) →
  (∀ r, 0 <= r < 8 → Z.testbit v0 r = (pos mod 8 <=? r) && (r <? pos mod 8 + n)) →
  (1 <= k → ∀ r, 0 <= r < 8 → Z.testbit v1 r = (pos mod 8 <=? r + 8) && (r + 8 <? pos mod 8 + n)) →
  (2 <= k → ∀ r, 0 <= r < 8 → Z.testbit v2 r = (pos mod 8 <=? r + 16) && (r + 16 <? pos mod 8 + n)) →
  ∃ b, or_at (pos / 8) v0 bits = Some b ∧
    let b1 := if 1 <=? k then <[Z.to_nat (pos / 8 + 1) := v1]> b else b in
    let b2 := if 2 <=? k then <[Z.to_nat (pos / 8 + 2) := v2]> b1 else b1 in
    length b = length bits ∧ length b1 = length bits ∧ marks bits b2 pos n.
Proof.
  intros Hp Hn Hc Hk Hlen Hfit H0 H1 H2. pose proof (Z.div_pos pos 8). pose proof (Z.mod_pos_bound pos 8).
  pose proof (Z.div_mod pos 8).
  destruct (or_at_spec bits (pos / 8) v0) as (b & Hb & ->); [unfold len in *; lia|]. eexists. split; [reflexivity|]. cbn zeta.
  assert (∀ b' : bitvec, length b' = length bits → len b' = len bits) as Hll by (unfold len; by intros ? ->).
  set (b0 := <[_ := _]> bits). assert (length b0 = length bits) as Hl0 by apply length_insert.
  set (b1 := if 1 <=? k then _ else _). assert (length b1 = length bits) as Hl1.
  { unfold b1. destruct (1 <=? k); [by rewrite length_insert|done]. }
  set (b2 := if 2 <=? k then _ else _). assert (length b2 = length bits) as Hl2.
  { unfold b2. destruct (2 <=? k); [by rewrite length_insert|done]. }
  split; [done|]. split; [done|]. split; [done|]. intros j Hj.
  assert (∀ r, 0 <= r < 8 → pos / 8 * 8 + r = j → bit b0 j = bit bits j || ((pos mod 8 <=? r) && (r <? pos mod 8 + n))) as Hfirst.
  { intros r Hr <-. unfold b0. rewrite bit_put by (unfold len in *; lia).
    assert ((pos / 8 * 8 + r) / 8 = pos / 8) as Hd by (rewrite Z.add_comm, Z.div_add, Z.div_small; lia).
    assert ((pos / 8 * 8 + r) mod 8 = r) as Hm by (rewrite Z.add_comm, Z.mod_add, Z.mod_small; lia).
    rewrite Hd, Hm, Z.eqb_refl, Z.lor_spec, H0 by lia. f_equal. unfold bit. by rewrite Hd, Hm, Hb. }
  assert (j = j / 8 * 8 + j mod 8) as Hj8 by (pose proof (Z.div_mod j 8); lia). pose proof (Z.mod_pos_bound j 8).
  assert (bit b0 j = if j / 8 =? pos / 8 then bit bits j || ((pos mod 8 <=? j mod 8) && (j mod 8 <? pos mod 8 + n)) else bit bits j) as Hb0.
  { destruct (Z.eqb_spec (j / 8) (pos / 8)) as [He|Hne]; [apply Hfirst; lia|]. unfold b0.
    rewrite bit_put by (unfold len in *; lia). by destruct (Z.eqb_spec (j / 8) (pos / 8)). }
  assert (bit b1 j = if (1 <=? k) && (j / 8 =? pos / 8 + 1) then Z.testbit v1 (j mod 8) else bit b0 j) as Hb1.
  { unfold b1. destruct (Z.leb_spec 1 k); [|done]. rewrite bit_put; [done| |done]. rewrite (Hll b0 Hl0). lia. }
  assert (bit b2 j = if (2 <=? k) && (j / 8 =? pos / 8 + 2) then Z.testbit v2 (j mod 8) else bit b1 j) as Hb2.
  { unfold b2. destruct (Z.leb_spec 2 k); [|done]. rewrite bit_put; [done| |done]. rewrite (Hll b1 Hl1). lia. }
  rewrite Hb2. destruct ((2 <=? k) && (j / 8 =? pos / 8 + 2)) eqn:E2; [|rewrite Hb1; destruct ((1 <=? k) && (j / 8 =? pos / 8 + 1)) eqn:E1; [|rewrite Hb0]].
  - apply andb_true_iff in E2 as [Hk2%Z.leb_le E2%Z.eqb_eq]. rewrite (Hc j) by lia. cbn. rewrite H2 by lia.
    f_equal; [destruct (Z.leb_spec (pos mod 8) (j mod 8 + 16)), (Z.leb_spec pos j)|destruct (Z.ltb_spec (j mod 8 + 16) (pos mod 8 + n)), (Z.ltb_spec j (pos + n))]; try done; lia.
  - apply andb_true_iff in E1 as [Hk1%Z.leb_le E1%Z.eqb_eq]. rewrite (Hc j) by lia. cbn. rewrite H1 by lia.
    f_equal; [destruct (Z.leb_spec (pos mod 8) (j mod 8 + 8)), (Z.leb_spec pos j)|destruct (Z.ltb_spec (j mod 8 + 8) (pos mod 8 + n)), (Z.ltb_spec j (pos + n))]; try done; lia.
  - destruct (Z.eqb_spec (j / 8) (pos / 8)).
    + f_equal. f_equal; [destruct (Z.leb_spec (pos mod 8) (j mod 8)), (Z.leb_spec pos j)|destruct (Z.ltb_spec (j mod 8) (pos mod 8 + n)), (Z.ltb_spec j (pos + n))]; try done; lia.
    + destruct (Z.leb_spec pos j), (Z.ltb_spec j (pos + n)); cbn; rewrite ?orb_false_r; try done. exfalso.
      apply andb_false_iff in E1, E2. rewrite Z.leb_gt, Z.eqb_neq in E1, E2. lia.
Qed.

Ltac bounds_bool :=
  repeat match goal with
  | |- context [?a <=? ?b] => destruct (Z.leb_spec a b)
  | |- context [?a <? ?b] => destruct (Z.ltb_spec a b)
  end; try done; lia.

Lemma testbit_flag n s r : 0 <= n → 0 <= s → 0 <= r < 8 →
  Z.testbit (Z.shiftl (Z.ones n) s mod 256) r = (s <=? r) && (r <? s + n).
Proof. intros. rewrite testbit_byte, testbit_window by lia. done. Qed.

Lemma set1_marks bits pos :
  0 <= pos → clear_from bits pos → pos / 8 < len bits →
  ∃ b, set1 pos bits = Some b ∧ marks bits b pos 1.
Proof.
  intros Hp Hc Hl. pose proof (Z.mod_pos_bound pos 8).
  destruct (write_window bits pos 1 (Z.shiftl 1 (pos mod 8) mod 256) 0 0 0) as (b & Hb & _ & _ & Hm); try lia; try done.
  - intros r Hr. change 1 with (Z.ones 1) at 1. apply testbit_flag; lia.
  - by exists b.
Qed.

Lemma setN_marks bits pos n :
  0 <= pos → 0 <= n <= 8 → clear_from bits pos → (pos + n) / 8 < len bits →
  ∃ b, setN (Z.ones n) pos bits = Some b ∧ marks bits b pos n.
Proof.
  intros Hp Hn Hc Hl. pose proof (Z.mod_pos_bound pos 8). unfold setN.
  set (a := Z.shiftl (Z.ones n) (pos mod 8) mod 65536).
  assert (∀ r, 0 <= r < 16 → Z.testbit a r = (pos mod 8 <=? r) && (r <? pos mod 8 + n)) as Ha.
  { intros r Hr. unfold a. change 65536 with (2 ^ 16). rewrite Z.mod_pow2_bits_low by lia. apply testbit_window; lia. }
  set (b := Z.shiftr a 8 mod 256).
  assert (∀ r, 0 <= r < 8 → Z.testbit b r = (pos mod 8 <=? r + 8) && (r + 8 <? pos mod 8 + n)) as Hb.
  { intros r Hr. unfold b. rewrite testbit_byte, Z.shiftr_spec, Ha by lia. done. }
  assert (b = 0 → pos mod 8 + n <= 8) as Hfit.
  { intros Hz. destruct (Z.ltb_spec 8 (pos mod 8 + n)) as [Hlt|]; [|lia]. specialize (Hb 0). rewrite Hz, Z.testbit_0_l in Hb.
    destruct (Z.leb_spec (pos mod 8) (0 + 8)), (Z.ltb_spec (0 + 8) (pos mod 8 + n)); lia. }
  assert (b ≠ 0 → 8 < pos mod 8 + n) as Hover.
  { intros Hz. destruct (Z.ltb_spec 8 (pos mod 8 + n)) as [|Hle]; [done|]. destruct Hz. apply Z.bits_inj'. intros r Hr.
    rewrite Z.testbit_0_l. destruct (Z.ltb_spec r 8).
    - rewrite Hb by lia. bounds_bool.
    - unfold b. change 256 with (2 ^ 8). apply Z.mod_pow2_bits_high. lia. }
  pose proof (Z.div_mod pos 8). pose proof (Z.div_le_mono pos (pos + n) 8).
  assert (b ≠ 0 → pos / 8 + 1 <= (pos + n) / 8) as Hnext by (intros Hz%Hover; apply Z.div_le_lower_bound; lia).
  set (k := if b =? 0 then 0 else 1).
  assert (0 <= k <= 1 ∧ (b = 0 ∨ k = 1) ∧ pos / 8 + k < len bits) as (Hk & Hbk & Hkl) by (unfold k; destruct (Z.eqb_spec b 0); lia).
  destruct (write_window bits pos n (a mod 256) b 0 k) as (b' & Hb' & Hm); [lia|lia|done|lia|lia|lia| |done|lia|].
  { intros r Hr. rewrite testbit_byte, Ha by lia. done. }
  unfold k in Hm. clear k Hk Hbk Hkl.
  rewrite Hb'. cbn [mbind option_bind]. destruct (Z.eqb_spec b 0) as [Hz|Hz]; cbn [negb].
  - exists b'. split; [done|]. apply Hm.
  - destruct Hm as (Hl1 & _ & Hm). rewrite put_at_spec; [by eexists|]. pose proof (Z.div_pos pos 8). unfold len in *. lia.
Qed.

Lemma testbit_inverted s r : 0 <= s < 8 → 0 <= r < 8 →
  Z.testbit (Z.lxor (Z.shiftl 0xFF s mod 256) 0xFF) r = (r <? s).
Proof.
  intros Hs Hr. rewrite Z.lxor_spec. change 0xFF with (Z.ones 8). rewrite testbit_flag, Z.testbit_ones_nonneg by lia.
  destruct (Z.leb_spec s r), (Z.ltb_spec r (s + 8)), (Z.ltb_spec r 8), (Z.ltb_spec r s); try done; lia.
Qed.

Lemma set8_marks bits pos :
  0 <= pos → clear_from bits pos → pos / 8 + 1 < len bits →
  ∃ b, set8 pos bits = Some b ∧ marks bits b pos 8.
Proof.
  intros Hp Hc Hl. pose proof (Z.mod_pos_bound pos 8). unfold set8.
  destruct (write_window bits pos 8 (Z.shiftl 0xFF (pos mod 8) mod 256)
    (Z.lxor (Z.shiftl 0xFF (pos mod 8) mod 256) 0xFF) 0 1) as (b & Hb & Hl1 & _ & Hm); try lia; try done.
  - intros r Hr. change 0xFF with (Z.ones 8). apply testbit_flag; lia.
  - intros _ r Hr. rewrite testbit_inverted by lia. bounds_bool.
  - rewrite Hb. cbn [mbind option_bind]. rewrite put_at_spec; [by eexists|]. pose proof (Z.div_pos pos 8). unfold len in *. lia.
Qed.

Lemma set16_marks bits pos :
  0 <= pos → clear_from bits pos → pos / 8 + 2 < len bits →
  ∃ b, set16 pos bits = Some b ∧ marks bits b pos 16.
Proof.
  intros Hp Hc Hl. pose proof (Z.mod_pos_bound pos 8). unfold set16. pose proof (Z.div_pos pos 8).
  destruct (write_window bits pos 16 (Z.shiftl 0xFF (pos mod 8) mod 256) 0xFF
    (Z.lxor (Z.shiftl 0xFF (pos mod 8) mod 256) 0xFF) 2) as (b & Hb & Hl1 & Hl2 & Hm); try lia; try done.
  - intros r Hr. change 0xFF with (Z.ones 8). rewrite testbit_flag by lia. bounds_bool.
  - intros _ r Hr. change 0xFF with (Z.ones 8). rewrite Z.testbit_ones_nonneg by lia. bounds_bool.
  - intros _ r Hr. rewrite testbit_inverted by lia. bounds_bool.
  - rewrite Hb. cbn [mbind option_bind]. rewrite put_at_spec by (unfold len in *; lia). cbn [mbind option_bind].
    rewrite put_at_spec; [by eexists|]. cbn in Hl2. unfold len in *. rewrite length_insert. lia.
Qed.

(** ** The switch and the loops *)

(** [bits] has room for [n] more bits from [pos], and the byte after. *)
Definition room (bits : bitvec) (pos n : Z) : Prop := (pos + n) / 8 < len bits.

Lemma last_bits_marks bits n pc :
  0 <= pc → 0 <= n < 8 → clear_from bits pc → room bits pc n →
  ∃ b, last_bits bits n pc = Some (b, pc + n) ∧ marks bits b pc n.
Proof.
  intros Hp Hn Hc Hr. unfold room in Hr. pose proof (Z.div_le_mono pc (pc + n) 8). unfold last_bits.
  assert (n = 0 ∨ n = 1 ∨ n = 2 ∨ n = 3 ∨ n = 4 ∨ n = 5 ∨ n = 6 ∨ n = 7) as [->|Hcase] by lia.
  { exists bits. rewrite Z.add_0_r. split; [done|]. split; [done|]. intros j _. rewrite Z.add_0_r.
    destruct (Z.leb_spec pc j), (Z.ltb_spec j pc); cbn; rewrite ?orb_false_r; try done. lia. }
  destruct Hcase as [->|Hcase].
  { destruct (set1_marks bits pc) as (b & Hb & Hm); [done|done|lia|]. exists b. cbn -[set1]. by rewrite Hb. }
  destruct (setN_marks bits pc n) as (b & Hb & Hm); [done|lia|done|lia|]. exists b.
  destruct Hcase as [->|[->|[->|[->|[->| ->]]]]]; cbn -[setN];
    unfold set2BitsMask, set3BitsMask, set4BitsMask, set5BitsMask, set6BitsMask, set7BitsMask;
    match type of Hb with setN (Z.ones ?k) _ _ = _ => let v := eval compute in (Z.ones k) in change (Z.ones k) with v in Hb end;
    by rewrite Hb.
Qed.

Lemma room_less bits pos n m : 0 <= m → room bits pos (n + m) → room bits (pos + n) m.
Proof. intros Hm Hr. unfold room in *. by replace (pos + n + m) with (pos + (n + m)) by lia. Qed.

Lemma marks_room bits bits' pos n k m : marks bits bits' k m → room bits pos n → room bits' pos n.
Proof. intros [Hl _]. unfold room, len. by rewrite Hl. Qed.

Lemma marks_nil bits pos : marks bits bits pos 0.
Proof.
  split; [done|]. intros j _. destruct (Z.leb_spec pos j), (Z.ltb_spec j (pos + 0)); cbn; rewrite ?orb_false_r; try done. lia.
Qed.

Lemma sixteens_marks fuel bits n pc :
  0 <= pc → 0 <= n < 16 * (Z.of_nat fuel + 1) → clear_from bits pc → room bits pc n →
  ∃ b, sixteens fuel bits n pc = Some (b, n mod 16, pc + (n - n mod 16)) ∧ marks bits b pc (n - n mod 16).
Proof.
  revert bits n pc. induction fuel as [|fuel IH]; intros bits n pc Hp Hn Hc Hr; cbn [sixteens].
  { rewrite Z.mod_small, Z.sub_diag, Z.add_0_r by lia. exists bits. split; [done|apply marks_nil]. }
  rewrite Z.geb_leb. destruct (Z.leb_spec 16 n) as [Hge|Hlt].
  - destruct (set16_marks bits pc) as (b & Hb & Hm); [done|done| |].
    { unfold room in Hr. pose proof (Z.div_le_mono (pc + 2 * 8) (pc + n) 8). rewrite Z.div_add in * by lia. lia. }
    rewrite Hb. cbn [mbind option_bind].
    destruct (IH b (n - 16) (pc + 16)) as (b' & Hb' & Hm'); [lia|lia|by eapply marks_clear| |].
    { eapply marks_room; [exact Hm|]. apply room_less; [lia|]. by replace (16 + (n - 16)) with n by lia. }
    assert ((n - 16) mod 16 = n mod 16) as Hmod.
    { replace (n - 16) with (n + (-1) * 16) by lia. by rewrite Z.mod_add. }
    pose proof (Z.mod_le n 16). pose proof (Z.mod_le (n - 16) 16). rewrite Hmod in *.
    rewrite Hb'. exists b'. split; [f_equal; f_equal; lia|].
    replace (n - n mod 16) with (16 + (n - 16 - n mod 16)) by lia. eapply marks_trans; [..|exact Hm|exact Hm']; lia.
  - rewrite Z.mod_small, Z.sub_diag, Z.add_0_r by lia. exists bits. split; [done|apply marks_nil].
Qed.

Lemma eights_marks fuel bits n pc :
  0 <= pc → 0 <= n < 8 * (Z.of_nat fuel + 1) → clear_from bits pc → room bits pc n →
  ∃ b, eights fuel bits n pc = Some (b, n mod 8, pc + (n - n mod 8)) ∧ marks bits b pc (n - n mod 8).
Proof.
  revert bits n pc. induction fuel as [|fuel IH]; intros bits n pc Hp Hn Hc Hr; cbn [eights].
  { rewrite Z.mod_small, Z.sub_diag, Z.add_0_r by lia. exists bits. split; [done|apply marks_nil]. }
  rewrite Z.geb_leb. destruct (Z.leb_spec 8 n) as [Hge|Hlt].
  - destruct (set8_marks bits pc) as (b & Hb & Hm); [done|done| |].
    { unfold room in Hr. pose proof (Z.div_le_mono (pc + 1 * 8) (pc + n) 8). rewrite Z.div_add in * by lia. lia. }
    rewrite Hb. cbn [mbind option_bind].
    destruct (IH b (n - 8) (pc + 8)) as (b' & Hb' & Hm'); [lia|lia|by eapply marks_clear| |].
    { eapply marks_room; [exact Hm|]. apply room_less; [lia|]. by replace (8 + (n - 8)) with n by lia. }
    assert ((n - 8) mod 8 = n mod 8) as Hmod.
    { replace (n - 8) with (n + (-1) * 8) by lia. by rewrite Z.mod_add. }
    pose proof (Z.mod_le n 8). pose proof (Z.mod_le (n - 8) 8). rewrite Hmod in *.
    rewrite Hb'. exists b'. split; [f_equal; f_equal; lia|].
    replace (n - n mod 8) with (8 + (n - 8 - n mod 8)) by lia. eapply marks_trans; [..|exact Hm|exact Hm']; lia.
  - rewrite Z.mod_small, Z.sub_diag, Z.add_0_r by lia. exists bits. split; [done|apply marks_nil].
Qed.

(** ** The walk over the code *)

Lemma op_size_pos op : 1 <= op_size op.
Proof. unfold op_size. destruct (Z.leb_spec PUSH1 op); cbn; [destruct (op <=? PUSH32)|]; lia. Qed.

Lemma instruction_at_nonneg code pc : instruction_at code pc → 0 <= pc.
Proof. induction 1 as [|pc op _ IH _ _]; [lia|]. pose proof (op_size_pos op). lia. Qed.

(** No instruction starts inside another one. *)
Lemma instruction_apart code a b :
  instruction_at code a → instruction_at code b → a < b →
  ∃ op, code !! Z.to_nat a = Some op ∧ a + op_size op <= b.
Proof.
  intros Ha Hb. pose proof (instruction_at_nonneg _ _ Hb) as Hb0. revert a Ha Hb.
  induction (Z.lt_wf 0 b) as [b _ IH]; intros a Ha Hb Hab.
  inversion Hb as [|b' op Hb' Hb'0 Hop He]; subst; [pose proof (instruction_at_nonneg _ _ Ha); lia|].
  pose proof (op_size_pos op). destruct (Z.lt_trichotomy a b') as [Hlt|[->|Hgt]].
  - destruct (IH b' ltac:(lia) Hb'0 a Ha Hb' Hlt) as (op' & Hop' & Hle). exists op'. split; [done|lia].
  - by exists op.
  - destruct (IH a ltac:(lia) ltac:(lia) b' Hb' Ha Hgt) as (op' & Hop' & Hle). simplify_eq. lia.
Qed.

(** What is marked below [pc] is what is not the start of an instruction. *)
Record walked (code : bytes) (bits : bitvec) (pc : Z) : Prop := {
  wk_at : instruction_at code pc;
  wk_clear : clear_from bits pc;
  wk_below j : 0 <= j < pc → bit bits j = false ↔ instruction_at code j;
  wk_len : len bits = len code / 8 + 1 + 4
}.

Lemma walked_next code bits bits' pc op :
  walked code bits pc → code !! Z.to_nat pc = Some op →
  marks bits bits' (pc + 1) (op_size op - 1) → walked code bits' (pc + op_size op).
Proof.
  intros [Hat Hc Hb Hl] Hop Hm. pose proof (instruction_at_nonneg _ _ Hat) as Hp. pose proof (op_size_pos op).
  pose proof Hm as [Hl' Hbits]. split.
  - by apply instruction_next.
  - intros j Hj. rewrite Hbits, Hc by lia. destruct (Z.ltb_spec j (pc + 1 + (op_size op - 1))); [lia|]. by rewrite andb_false_r.
  - intros j Hj. rewrite Hbits by lia. destruct (Z.lt_trichotomy j pc) as [Hlt|[->|Hgt]].
    + rewrite <- Hb by lia. destruct (Z.leb_spec (pc + 1) j); [lia|]. cbn. by rewrite orb_false_r.
    + rewrite Hc by lia. destruct (Z.leb_spec (pc + 1) pc); [lia|]. done.
    + destruct (Z.leb_spec (pc + 1) j), (Z.ltb_spec j (pc + 1 + (op_size op - 1))); try lia. cbn. rewrite orb_true_r.
      split; [done|]. intros Hj'. destruct (instruction_apart code pc j Hat Hj' Hgt) as (op' & Hop' & Hle). simplify_eq. lia.
  - unfold len in *. by rewrite Hl'.
Qed.

Lemma bitmap_loop_spec fuel code bits pc :
  Forall is_byte code → walked code bits pc → len code - pc <= Z.of_nat fuel →
  ∃ b pc', bitmap_loop fuel code bits pc = Some b ∧ len code <= pc' ∧ walked code b pc'.
Proof.
  intros Hcode. revert bits pc. induction fuel as [|fuel IH]; intros bits pc Hw Hf; cbn [bitmap_loop].
  { exists bits, pc. split; [done|]. split; [lia|done]. }
  destruct (Z.ltb_spec pc (len code)) as [Hlt|Hge]; [|exists bits, pc; split; [done|]; split; [lia|done]].
  pose proof (instruction_at_nonneg _ _ (wk_at _ _ _ Hw)) as Hp.
  destruct (lookup_lt_is_Some_2 code (Z.to_nat pc)) as [op Hop]; [unfold len in *; lia|]. rewrite Hop. cbn [mbind option_bind].
  assert (is_byte op) as Hbyte by (by eapply Forall_lookup_1). unfold is_byte in Hbyte.
  assert (clear_from bits (pc + 1)) as Hc by (intros j Hj; apply (wk_clear _ _ _ Hw); lia).
  assert (to_int8 op <? to_int8 PUSH1 = negb ((PUSH1 <=? op) && (op <=? PUSH32))) as ->.
  { unfold to_int8, PUSH1, PUSH32. destruct (Z.ltb_spec op 128), (Z.leb_spec 0x60 op), (Z.leb_spec op 0x7f); cbn; bounds_bool. }
  destruct ((PUSH1 <=? op) && (op <=? PUSH32)) eqn:Hpush; cbn [negb].
  - assert (op_size op = op - PUSH1 + 1 + 1) as Hsize by (unfold op_size; rewrite Hpush; lia).
    apply andb_true_iff in Hpush as [H1%Z.leb_le H2%Z.leb_le]. unfold PUSH1, PUSH32 in *.
    assert (∀ n, 0 <= n <= 32 → room bits (pc + 1) n) as Hroom.
    { intros n Hn. unfold room. rewrite (wk_len _ _ _ Hw). pose proof (Z.div_le_mono (pc + 1 + n) (len code + 32) 8).
      replace (len code + 32) with (len code + 4 * 8) in * by lia. rewrite Z.div_add in * by lia.
      pose proof (Z.div_le_mono (pc + 1 + n) (len code + 4 * 8) 8). lia. }
    set (n := op - 96 + 1) in *.
    assert (∃ b, ('(b, k, q) ← (if n >=? 8 then '(b, k, q) ← sixteens 2 bits n (pc + 1); eights 2 b k q
        else Some (bits, n, pc + 1)); last_bits b k q) = Some (b, pc + 1 + n) ∧ marks bits b (pc + 1) n) as (b & Hb & Hm).
    { assert (∃ b k, (if n >=? 8 then '(b, k, q) ← sixteens 2 bits n (pc + 1); eights 2 b k q else Some (bits, n, pc + 1))
          = Some (b, k, pc + 1 + (n - k)) ∧ 0 <= k < 8 ∧ 0 <= n - k ∧ marks bits b (pc + 1) (n - k)) as (b & k & Hb & Hk & Hnk & Hm).
      { rewrite Z.geb_leb. destruct (Z.leb_spec 8 n).
        - destruct (sixteens_marks 2 bits n (pc + 1)) as (b & Hb & Hm); [lia|lia|done|apply Hroom; lia|].
          pose proof (Z.mod_pos_bound n 16). pose proof (Z.mod_le n 16).
          rewrite Hb. cbn [mbind option_bind]. pose proof (Z.mod_pos_bound (n mod 16) 8). pose proof (Z.mod_le (n mod 16) 8).
          destruct (eights_marks 2 b (n mod 16) (pc + 1 + (n - n mod 16))) as (b' & Hb' & Hm'); [lia|lia|eapply marks_clear; [..|exact Hm|done]; lia| |].
          { eapply marks_room; [exact Hm|]. apply room_less; [lia|]. replace (n - n mod 16 + n mod 16) with n by lia. apply Hroom. lia. }
          rewrite Hb'. exists b', (n mod 16 mod 8). split; [f_equal; f_equal; lia|]. split; [lia|]. split; [lia|].
          replace (n - n mod 16 mod 8) with (n - n mod 16 + (n mod 16 - n mod 16 mod 8)) by lia.
          eapply marks_trans; [..|exact Hm|exact Hm']; lia.
        - exists bits, n. rewrite Z.sub_diag, Z.add_0_r. split; [done|]. split; [lia|]. split; [lia|apply marks_nil]. }
      rewrite Hb. cbn [mbind option_bind].
      destruct (last_bits_marks b k (pc + 1 + (n - k))) as (b' & Hb' & Hm'); [lia|lia|eapply marks_clear; [..|exact Hm|done]; lia| |].
      { eapply marks_room; [exact Hm|]. apply room_less; [lia|]. replace (n - k + k) with n by lia. apply Hroom. lia. }
      rewrite Hb'. exists b'. split; [f_equal; f_equal; lia|]. replace n with (n - k + k) by lia.
      eapply marks_trans; [..|exact Hm|exact Hm']; lia. }
    destruct (IH b (pc + op_size op)) as (b' & pc' & Hb' & Hpc' & Hw').
    { eapply walked_next; [done|done|]. rewrite Hsize. by replace (n + 1 - 1) with n by lia. }
    { rewrite Hsize. lia. }
    exists b', pc'. split; [|done].
    match type of Hb with mbind _ ?e = _ => destruct e as [[[b0 k0] q0]|]; [|done] end.
    cbn [mbind option_bind] in *. rewrite Hb. cbn [mbind option_bind]. rewrite <- Hb'. f_equal. rewrite Hsize. lia.
  - assert (op_size op = 1) as Hsize by (unfold op_size; by rewrite Hpush).
    apply IH; [|lia]. rewrite <- Hsize. eapply walked_next; [done|done|]. rewrite Hsize. apply marks_nil.
Qed.

Lemma bit_codeSegment bits pos : 0 <= pos → pos / 8 < len bits → codeSegment bits pos = Some (negb (bit bits pos)).
Proof.
  intros Hp Hl. unfold codeSegment, bit. pose proof (Z.div_pos pos 8).
  destruct (lookup_lt_is_Some_2 bits (Z.to_nat (pos / 8))) as [b Hb]; [unfold len in *; lia|]. rewrite Hb. cbn. f_equal.
  rewrite Z.testbit_odd. change 1 with (Z.ones 1). rewrite Z.land_ones by lia. change (2 ^ 1) with 2. rewrite Zmod_odd.
  by destruct (Z.odd _).
Qed.

Lemma codeBitmap_walked code :
  Forall is_byte code → ∃ bits pc, codeBitmap code = Some bits ∧ len code <= pc ∧ walked code bits pc.
Proof.
  intros Hcode. unfold codeBitmap, codeBitmapInternal. apply bitmap_loop_spec; [done| |unfold len; lia].
  assert (∀ j, bit (replicate (Z.to_nat (len code / 8 + 1 + 4)) 0) j = false) as Hz.
  { intros j. unfold bit. destruct (replicate _ 0 !! _) as [b|] eqn:Hb; cbn; [|apply Z.testbit_0_l].
    apply lookup_replicate in Hb as [-> _]. apply Z.testbit_0_l. }
  split; [apply instruction_first|intros j _; apply Hz|intros j Hj; lia|]. unfold len at 1. rewrite length_replicate.
  pose proof (len_nonneg code). pose proof (Z.div_pos (len code) 8). lia.
Qed.

Lemma codeBitmap_len code bits : Forall is_byte code → codeBitmap code = Some bits → len bits = len code / 8 + 1 + 4.
Proof.
  intros Hcode Hb. destruct (codeBitmap_walked code Hcode) as (bits' & pc & Hb' & _ & Hw). simplify_eq. apply (wk_len _ _ _ Hw).
Qed.

Lemma codeBitmap_total code : Forall is_byte code → is_Some (codeBitmap code).
Proof. intros Hcode. destruct (codeBitmap_walked code Hcode) as (bits & pc & -> & _). done. Qed.

(** Any position of the code can be looked up. *)
Lemma codeSegment_total code bits pos :
  Forall is_byte code → codeBitmap code = Some bits → 0 <= pos < len code → is_Some (codeSegment bits pos).
Proof.
  intros Hcode Hb Hp. rewrite bit_codeSegment; [done|lia|]. rewrite (codeBitmap_len code) by done.
  pose proof (Z.div_le_mono pos (len code) 8). lia.
Qed.

(** What the analysis of a code says of a position. *)
Lemma codeSegment_exact code bits pos b :
  Forall is_byte code → 0 <= pos < len code → codeBitmap code = Some bits → codeSegment bits pos = Some b →
  b = true ↔ instruction_at code pos.
Proof.
  intros Hcode Hp Hb Hs. destruct (codeBitmap_walked code Hcode) as (bits' & pc & Hb' & Hpc & Hw). simplify_eq.
  rewrite bit_codeSegment in Hs; [|lia|rewrite (codeBitmap_len code) by done; pose proof (Z.div_le_mono pos (len code) 8); lia].
  injection Hs as <-. rewrite negb_true_iff. apply (wk_below _ _ _ Hw). lia.
Qed.

(** C15: the analysis of a contract finds the instructions: it never leaves the
    bitmap, and a position of the code is reported as code exactly when the walk
    from the first byte, over the data of every PUSH, comes to it.  However the
    bits are written, one, eight or sixteen at a time, no data is taken for a jump
    destination, and no instruction is refused. *)
Theorem jumpdest_analysis_exact code pos :
  Forall is_byte code → 0 <= pos < len code →
  ∃ bits b, codeBitmap code = Some bits ∧ codeSegment bits pos = Some b ∧ (b = true ↔ instruction_at code pos).
Proof.
  intros Hcode Hp. destruct (codeBitmap_total code Hcode) as [bits Hb]. destruct (codeSegment_total code bits pos Hcode Hb Hp) as [b Hs].
  exists bits, b. split; [done|]. split; [done|]. by apply (codeSegment_exact code bits).
Qed.

(** PUSH1 0x5b, JUMPDEST: the first 0x5b is data, the second one is not. *)
Lemma jumpdest_analysis_exact_witness :
  (∃ bits b, codeBitmap [0x60; 0x5b; 0x5b] = Some bits ∧ codeSegment bits 2 = Some b ∧
    (b = true ↔ instruction_at [0x60; 0x5b; 0x5b] 2)) ∧
  codeBitmap [0x60; 0x5b; 0x5b] = Some [2; 0; 0; 0; 0].
Proof.
  split; [|reflexivity]. apply (jumpdest_analysis_exact [0x60; 0x5b; 0x5b] 2); [|vm_compute; split; done].
  repeat (apply Forall_cons; split; [unfold is_byte; lia|]). constructor.
Defined.
