(* ===== verification/EvmBase.v ===== *)
(** * The machine: words, memory, gas arithmetic

    parallelizable-client-go-ethereum/core/vm: common.go, memory.go, the pure
    part of gas.go and gas_table.go, errors.go, and the safe arithmetic of
    common/math/integer.go.  A word is a number below 2^256; the operations of
    [uint256.Int] beyond plain arithmetic are a class with what the library
    documents.  [None] is a panic; a slice of memory beyond its length, which Go
    allows up to the capacity, is one too. *)

From S2P Require Import Prelude.
Open Scope eigen_scope.

(** ** Errors *)

Inductive vm_error : Type :=
  | ErrOutOfGas
  | ErrCodeStoreOutOfGas
  | ErrDepth
  | ErrInsufficientBalance
  | ErrContractAddressCollision
  | ErrExecutionReverted
  | ErrMaxCodeSizeExceeded
  | ErrMaxInitCodeSizeExceeded
  | ErrInvalidJump
  | ErrWriteProtection
  | ErrReturnDataOutOfBounds
  | ErrGasUintOverflow
  | ErrInvalidCode
  | ErrNonceUintOverflow
  | errStopToken
  | ErrStackUnderflow (stackLen required : Z)
  | ErrStackOverflow (stackLen limit : Z)
  | ErrInvalidOpCode (opcode : Z)
  | errReentrancySentry
  | errPrecompile (n : Z)
  (** [fmt.Errorf] around [ErrOutOfGas], another error than [ErrOutOfGas] *)
  | OutOfGasBecause (err : vm_error).

#[export] Instance vm_error_eq_dec : EqDecision vm_error.
Proof. solve_decision. Defined.

(** ** Words *)

(** [x.Uint64()], [x.Uint64WithOverflow()], [x.IsUint64()]; [SetUint64] is the
    number itself. *)
Definition Uint64 (x : Z) : Z := wrap64 x.
Definition IsUint64 (x : Z) : bool := x <? two64.
Definition Uint64WithOverflow (x : Z) : Z * bool := (wrap64 x, negb (IsUint64 x)).

(** [x.Bytes20()] and [x.Bytes32()], as numbers. *)
Definition Bytes20 (x : Z) : Address := x mod 2 ^ 160.

Definition b2w (b : bool) : Z := if b then 1 else 0.

(** A word as a two's complement number. *)
Definition to_signed (x : Z) : Z := if x <? 2 ^ 255 then x else x - two256.

(** The documented operations of [uint256.Int] that are more than arithmetic
    modulo 2^256. *)
Class Uint256 : Type := {
  SDiv : Z → Z → Z;
  SMod : Z → Z → Z;
  Exp : Z → Z → Z;
  (** x, the number of bytes *)
  ExtendSign : Z → Z → Z;
  (** the value, the position from the most significant byte *)
  Byte_ : Z → Z → Z;
  AddMod : Z → Z → Z → Z;
  MulMod : Z → Z → Z → Z;
  SRsh : Z → Z → Z;
  SDiv_doc x y : is_uint256 x → is_uint256 y →
    SDiv x y = if y =? 0 then 0 else wrap256 (Z.quot (to_signed x) (to_signed y));
  SMod_doc x y : is_uint256 x → is_uint256 y →
    SMod x y = if y =? 0 then 0 else wrap256 (Z.rem (to_signed x) (to_signed y));
  Exp_doc x y : is_uint256 x → is_uint256 y → Exp x y = wrap256 (x ^ y);
  ExtendSign_doc x b : is_uint256 x → is_uint256 b →
    ExtendSign x b = if b >? 30 then x
      else let m := 2 ^ (8 * (b + 1)) in
           let y := x mod m in wrap256 (if y <? m / 2 then y else y - m);
  Byte_doc x n : is_uint256 x → is_uint256 n →
    Byte_ x n = if n <? 32 then Z.shiftr x (8 * (31 - n)) mod 256 else 0;
  AddMod_doc x y m : is_uint256 x → is_uint256 y → is_uint256 m →
    AddMod x y m = if m =? 0 then 0 else (x + y) mod m;
  MulMod_doc x y m : is_uint256 x → is_uint256 y → is_uint256 m →
    MulMod x y m = if m =? 0 then 0 else (x * y) mod m;
  SRsh_doc x n : is_uint256 x → is_uint64 n → SRsh x n = wrap256 (Z.shiftr (to_signed x) n)
}.

(** ** Safe arithmetic (common/math/integer.go) *)

Definition SafeAdd (x y : Z) : Z * bool := (wrap64 (x + y), negb (x + y <? two64)).
Definition SafeMul (x y : Z) : Z * bool := (wrap64 (x * y), negb (x * y <? two64)).

(** ** Slices of bytes *)

Definition slice (l : bytes) (i j : Z) : option bytes :=
  if (0 <=? i) && (i <=? j) && (j <=? len l) then Some (take (Z.to_nat (j - i)) (drop (Z.to_nat i) l)) else None.

(** [copy(l[i:], v)]: as much of [v] as fits. *)
Definition copy_at (l : bytes) (i : Z) (v : bytes) : bytes :=
  let v := take (length l - Z.to_nat i) v in
  take (Z.to_nat i) l ++ v ++ drop (Z.to_nat i + length v) l.

(** [int(x)] of a [uint64]. *)
Definition to_int (x : Z) : Z := if x <? 2 ^ 63 then x else x - two64.

(** common/bytes.go *)
Definition RightPadBytes (sl : bytes) (l : Z) : bytes :=
  if l <=? len sl then sl else sl ++ replicate (Z.to_nat (l - len sl)) 0.

Definition getData (data : bytes) (start size : Z) : option bytes :=
  let length := len data in
  let start := if start >? length then length else start in
  let end_ := wrap64 (start + size) in
  let end_ := if end_ >? length then length else end_ in
  d ← slice data start end_;
  Some (RightPadBytes d (to_int size)).

Definition toWordSize (size : Z) : Z :=
  if size >? max_uint64 - 31 then max_uint64 / 32 + 1 else (size + 31) / 32.

(** ** Sizes of memory (common.go) *)

Definition calcMemSize64WithUint (off length64 : Z) : Z * bool :=
  if length64 =? 0 then (0, false)
  else
    let '(offset64, overflow) := Uint64WithOverflow off in
    if overflow then (0, true)
    else
      let val := wrap64 (offset64 + length64) in
      (val, val <? offset64).

Definition calcMemSize64 (off l : Z) : Z * bool :=
  if negb (IsUint64 l) then (0, true) else calcMemSize64WithUint off (Uint64 l).

(** ** Memory (memory.go) *)

Record Memory : Type := MkMemory {
  store : bytes;
  lastGasCost : Z
}.

Definition NewMemory : Memory := MkMemory [] 0.

Definition Len (m : Memory) : Z := len (store m).

Definition set_store (m : Memory) (s : bytes) : Memory := MkMemory s (lastGasCost m).

Definition Set_ (m : Memory) (offset size : Z) (value : bytes) : option Memory :=
  if size >? 0 then
    if wrap64 (offset + size) >? Len m then None
    else
      _ ← slice (store m) offset (wrap64 (offset + size));
      Some (set_store m (copy_at (store m) offset (take (Z.to_nat size) value)))
  else Some m.

(** [val.PutUint256] writes the 32 bytes of the word. *)
Definition Set32 (m : Memory) (offset val : Z) : option Memory :=
  if wrap64 (offset + 32) >? Len m then None
  else
    _ ← slice (store m) offset (offset + 32);
    Some (set_store m (copy_at (store m) offset (be_encode 32 val))).

Definition Resize (m : Memory) (size : Z) : Memory :=
  if Len m <? size then set_store m (store m ++ replicate (Z.to_nat (size - Len m)) 0) else m.

Definition GetCopy (m : Memory) (offset size : Z) : option bytes :=
  if size =? 0 then Some [] else slice (store m) offset (wrap64 (offset + size)).

Definition GetPtr (m : Memory) (offset size : Z) : option bytes :=
  if size =? 0 then Some [] else slice (store m) offset (wrap64 (offset + size)).

Definition Copy (m : Memory) (dst src len_ : Z) : option Memory :=
  if len_ =? 0 then Some m
  else
    _ ← slice (store m) dst (len (store m));
    v ← slice (store m) src (wrap64 (src + len_));
    Some (set_store m (copy_at (store m) dst v)).

(** ** Gas *)

Definition GasQuickStep : Z := 2.
Definition GasFastestStep : Z := 3.
Definition GasFastishStep : Z := 4.
Definition GasFastStep : Z := 5.
Definition GasMidStep : Z := 8.
Definition GasSlowStep : Z := 10.
Definition GasExtStep : Z := 20.

(** params/protocol_params.go *)
Definition MemoryGas : Z := 3.
Definition QuadCoeffDiv : Z := 512.

(** [memoryGasCost]: the fee, and the memory with the total fee so far. *)
Definition memoryGasCost (mem : Memory) (newMemSize : Z) : result vm_error Z * Memory :=
  if newMemSize =? 0 then (Ok 0, mem)
  else if newMemSize >? 0x1FFFFFFFE0 then (Err ErrGasUintOverflow, mem)
  else
    let newMemSizeWords := toWordSize newMemSize in
    let newMemSize := wrap64 (newMemSizeWords * 32) in
    if newMemSize >? Len mem then
      let square := wrap64 (newMemSizeWords * newMemSizeWords) in
      let linCoef := wrap64 (newMemSizeWords * MemoryGas) in
      let quadCoef := square / QuadCoeffDiv in
      let newTotalFee := wrap64 (linCoef + quadCoef) in
      let fee := wrap64 (newTotalFee - lastGasCost mem) in
      (Ok fee, MkMemory (store mem) newTotalFee)
    else (Ok 0, mem).

Definition callGas (isEip150 : bool) (availableGas base callCost : Z) : result vm_error Z :=
  let availableGas := wrap64 (availableGas - base) in
  let gas := wrap64 (availableGas - availableGas / 64) in
  if isEip150 && (negb (IsUint64 callCost) || (gas <? Uint64 callCost)) then Ok gas
  else if negb (IsUint64 callCost) then Err ErrGasUintOverflow
  else Ok (Uint64 callCost).
