(* ===== verification/EvmState.v ===== *)
(** * What the virtual machine asks of the state

    The rest of the interface vm.StateDB
    (parallelizable-client-go-ethereum/core/vm/interface.go), over the part of
    VMInterface.v.  Reads are functions of the state.  Every write is an [action];
    [EvmStateLaws] says what the machine relies on: when a write succeeds, that
    the states stay good, that a snapshot taken earlier can still be reverted to
    and gives back the state it was taken in, and which writes leave the accounts
    as they were.  [tables] is an instance. *)

From S2P Require Import Prelude Crypto TxTypes VMInterface.
From S2P Require StateTypes.

Abbreviation Log := StateTypes.Log.

Class EvmState (St : Type) : Type := {
  evm_vm :: VMState St;
  CreateAccount : St → Address → St;
  (** [None]: there is no such account *)
  CreateContract : St → Address → option St;
  GetCodeHash : St → Address → Hash;
  GetCodeSize : St → Address → Z;
  (** [None]: the panic of a counter below zero *)
  SubRefund : St → Z → option St;
  GetCommittedState : St → Address → Hash → Hash;
  GetState : St → Address → Hash → Hash;
  SetState : St → Address → Hash → Hash → St;
  GetStorageRoot : St → Address → Hash;
  GetTransientState : St → Address → Hash → Hash;
  SetTransientState : St → Address → Hash → Hash → St;
  SelfDestruct : St → Address → St;
  HasSelfDestructed : St → Address → bool;
  SelfDestruct6780 : St → Address → St;
  Empty : St → Address → bool;
  AddressInAccessList : St → Address → bool;
  SlotInAccessList : St → Address → Hash → bool * bool;
  AddSlotToAccessList : St → Address → Hash → St;
  Snapshot : St → Z * St;
  RevertToSnapshot : St → Z → option St;
  AddLog : St → Log → St;
  AddPreimage : St → Hash → bytes → St
}.

(** ** Writes *)

Inductive action : Type :=
  | ASubBalance (a : Address) (x : Z)
  | AAddBalance (a : Address) (x : Z)
  | ASetNonce (a : Address) (n : Z)
  | ASetCode (a : Address) (c : bytes)
  | ACreateAccount (a : Address)
  | ACreateContract (a : Address)
  | AAddRefund (x : Z)
  | ASubRefund (x : Z)
  | ASetState (a : Address) (k v : Hash)
  | ASetTransientState (a : Address) (k v : Hash)
  | ASelfDestruct (a : Address)
  | ASelfDestruct6780 (a : Address)
  | AAddAddress (a : Address)
  | AAddSlot (a : Address) (k : Hash)
  | AAddLog (l : Log)
  | AAddPreimage (h : Hash) (b : bytes).

Definition do_action `{EvmState St} (s : St) (act : action) : option St :=
  match act with
  | ASubBalance a x => Some (SubBalance s a x)
  | AAddBalance a x => Some (AddBalance s a x)
  | ASetNonce a n => Some (SetNonce s a n)
  | ASetCode a c => Some (SetCode s a c)
  | ACreateAccount a => Some (CreateAccount s a)
  | ACreateContract a => CreateContract s a
  | AAddRefund x => Some (AddRefund s x)
  | ASubRefund x => SubRefund s x
  | ASetState a k v => Some (SetState s a k v)
  | ASetTransientState a k v => Some (SetTransientState s a k v)
  | ASelfDestruct a => Some (SelfDestruct s a)
  | ASelfDestruct6780 a => Some (SelfDestruct6780 s a)
  | AAddAddress a => Some (AddAddressToAccessList s a)
  | AAddSlot a k => Some (AddSlotToAccessList s a k)
  | AAddLog l => Some (AddLog s l)
  | AAddPreimage h b => Some (AddPreimage s h b)
  end.

(** Data whose length is a length. *)
Definition data_ok (b : bytes) : Prop := Forall is_byte b ∧ len b < 2 ^ 62.

Lemma data_ok_nil : data_ok [].
Proof. split; [constructor|done]. Qed.
#[export] Hint Resolve data_ok_nil : eigen.

(** What the callers of a write see to: the values are at their width, and an
    account is created when there is none. *)
Definition action_ok `{EvmState St} (s : St) (act : action) : Prop :=
  match act with
  | ASubBalance _ x | AAddBalance _ x => is_uint256 x
  | ASetNonce _ n => is_uint64 n
  | ASetCode _ c => data_ok c
  | ACreateAccount a => Exist s a = false
  | ACreateContract a => Exist s a = true
  | AAddRefund x | ASubRefund x => is_uint64 x
  | ASetState _ _ v | ASetTransientState _ _ v => is_uint256 v
  | _ => True
  end.

(** The writes that leave the accounts, the storage and the logs as they were. *)
Definition quiet (act : action) : Prop :=
  match act with
  | ASubBalance _ x | AAddBalance _ x => x = 0
  | ACreateAccount _ | AAddRefund _ | ASubRefund _ | AAddAddress _ | AAddSlot _ _ | AAddPreimage _ _ => True
  | _ => False
  end.

(** The same balances, nonces, codes, storage and logs. *)
Record unchanged `{EvmState St} {L : Type} (logs : St → L) (s t : St) : Prop := {
  uc_balance a : GetBalance t a = GetBalance s a;
  uc_nonce a : GetNonce t a = GetNonce s a;
  uc_code a : GetCode t a = GetCode s a;
  uc_state a k : GetState t a k = GetState s a k;
  uc_transient a k : GetTransientState t a k = GetTransientState s a k;
  uc_logs : logs t = logs s
}.

#[export] Instance unchanged_preorder `{EvmState St} {L} (logs : St → L) : PreOrder (unchanged logs).
Proof. split; [by split|]. intros s t u [] []. split; intros; congruence. Qed.

(** ** Laws *)

Class EvmStateLaws (St : Type) `{EvmState St} `{Keccak} : Type := {
  good : St → Prop;
  (** two states that read the same *)
  same : St → St → Prop;
  (** [within s id t]: [t] comes from [s], whose snapshot [id] is still valid *)
  within : St → Z → St → Prop;
  LogsOf : Type;
  logs : St → LogsOf;

  same_equiv :: Equivalence same;
  same_unchanged s t : same s t → unchanged logs s t;

  good_balance s a : good s → is_uint256 (GetBalance s a);
  good_nonce s a : good s → is_uint64 (GetNonce s a);
  good_code s a : good s → data_ok (GetCode s a);
  good_code_hash s a : good s → is_uint256 (GetCodeHash s a);
  good_hash_of s a : good s → GetCode s a ≠ [] → GetCodeHash s a = Keccak256Hash (GetCode s a);
  good_state s a k : good s → is_uint256 (GetState s a k);
  good_transient s a k : good s → is_uint256 (GetTransientState s a k);

  action_good s act t : good s → action_ok s act → do_action s act = Some t → good t;
  action_within s act t r id : good s → within r id s → action_ok s act → do_action s act = Some t → within r id t;
  action_quiet s act t : good s → action_ok s act → quiet act → do_action s act = Some t → unchanged logs s t;
  (** only the refund counter can refuse *)
  action_total s act : good s → action_ok s act → (∀ x, act ≠ ASubRefund x) → is_Some (do_action s act);
  exist_created s a : good s → Exist s a = false → Exist (CreateAccount s a) a = true;

  snapshot_good s : good s → good (Snapshot s).2;
  snapshot_same s : good s → same s (Snapshot s).2;
  snapshot_starts s : good s → within s (Snapshot s).1 (Snapshot s).2;
  snapshot_within s r id : good s → within r id s → within r id (Snapshot s).2;
  revert_spec s id t : good s → good t → within s id t →
    ∃ u, RevertToSnapshot t id = Some u ∧ good u ∧ same s u ∧ ∀ r i, within r i s → within r i u
}.

Section Later.
Context `{EvmStateLaws St}.

(** [t] is good, and no snapshot taken before [s] was lost. *)
Record later (s t : St) : Prop := {
  lt_good : good t;
  lt_within r id : within r id s → within r id t
}.

Lemma later_refl s : good s → later s s.
Proof. by split. Qed.

Lemma later_trans s t u : later s t → later t u → later s u.
Proof. intros [] []. split; auto. Qed.

Lemma later_action s act t : good s → action_ok s act → do_action s act = Some t → later s t.
Proof. intros Hg Ha Hd. split; [by eapply action_good|]. intros r id Hw. by eapply action_within. Qed.

Lemma later_snapshot s : good s → later s (Snapshot s).2.
Proof. intros Hg. split; [by apply snapshot_good|]. intros r id. by apply snapshot_within. Qed.

(** A revert to a snapshot, after anything in between. *)
Lemma later_revert s t :
  good s → later (Snapshot s).2 t → ∃ u, RevertToSnapshot t (Snapshot s).1 = Some u ∧ later s u ∧ same s u.
Proof.
  intros Hg [Hgt Hw]. destruct (revert_spec s (Snapshot s).1 t) as (u & Hu & Hgu & Hs & Hwu); [done|done|by apply Hw, snapshot_starts|].
  exists u. split; [done|]. split; [by split|done].
Qed.
End Later.
