(* ===== verification/EvmFrame.v ===== *)
(** * Frames of execution

    parallelizable-client-go-ethereum/core/vm: the fields of the machine that
    change (evm.go, interpreter.go), contract.go, stack.go, and the monad of the
    instructions.  An instruction acts on a frame: its program counter, stack,
    memory and contract, and the machine that all frames share.  It goes on, halts
    with data and an error ([errStopToken] is no error), or panics; the frame of a
    halt is what the code has left, since the gas and the state outlive it.  The
    top of the stack is the head of the list. *)

From S2P Require Import Prelude Crypto EvmCode EvmBase TxTypes VMInterface EvmState.
From S2P Require ChainConfig.

(** [AnalysisPanic] is an index past the end of the analysis of a code. *)
Inductive vm_panic : Type :=
  | IndexPanic
  | AnalysisPanic
  | MemoryPanic
  | NilPanic
  | RefundPanic
  | SnapshotPanic.

Inductive outcome (T A : Type) : Type :=
  | Done (a : A) (t : T)
  | Halt (res : bytes) (err : vm_error) (t : T)
  | Panics (p : vm_panic)
  | NoFuel.
Arguments Done {T A}.
Arguments Halt {T A}.
Arguments Panics {T A}.
Arguments NoFuel {T A}.

Definition X (T A : Type) : Type := T → outcome T A.

Section Monad.
Context {T : Type}.

Definition ret {A} (a : A) : X T A := λ t, Done a t.
Definition bind {A B} (m : X T A) (f : A → X T B) : X T B := λ t,
  match m t with
  | Done a t => f a t
  | Halt res err t => Halt res err t
  | Panics p => Panics p
  | NoFuel => NoFuel
  end.
(** [return res, err] *)
Definition halt {A} (res : bytes) (err : vm_error) : X T A := λ t, Halt res err t.
Definition fail {A} (err : vm_error) : X T A := halt [] err.
Definition panic {A} (p : vm_panic) : X T A := λ _, Panics p.
Definition get : X T T := λ t, Done t t.
Definition gets {A} (f : T → A) : X T A := λ t, Done (f t) t.
Definition modify (f : T → T) : X T unit := λ t, Done tt (f t).
Definition of_option {A} (p : vm_panic) (o : option A) : X T A :=
  match o with Some a => ret a | None => panic p end.
Definition of_result {A} (r : result vm_error A) : X T A :=
  match r with Ok a => ret a | Err e => fail e end.
(** [if overflow { return 0, ErrGasUintOverflow }] *)
Definition no_overflow (r : Z * bool) : X T Z := if r.2 then fail ErrGasUintOverflow else ret r.1.
End Monad.

Declare Scope evm_scope.
Delimit Scope evm_scope with evm.
Notation "'do' x <- m ; k" := (bind m (λ x, k)) (at level 200, x pattern, m at level 100, k at level 200) : evm_scope.
Notation "'do!' m ; k" := (bind m (λ _, k)) (at level 200, m at level 100, k at level 200) : evm_scope.
Open Scope evm_scope.

(** ** What does not change during a transaction *)

(** A precompiled contract, outside of the machine (contracts.go). *)
Record PrecompiledContract : Type := MkPrecompiled {
  RequiredGas : bytes → Z;
  Run : bytes → bytes * option vm_error
}.

(** The contexts of the block and of the transaction; a nil pointer is [None]. *)
Record EvmEnv : Type := MkEvmEnv {
  chainRules : ChainConfig.Config.Rules;
  config_ChainID : option Z;
  EnablePreimageRecording : bool;
  GetHash : Z → Hash;
  Coinbase : Address;
  ctx_GasLimit : Z;
  BlockNumber : Z;
  Time : Z;
  Difficulty : option Z;
  BaseFee : option Z;
  BlobBaseFee : option Z;
  Random : option Hash;
  Origin : Address;
  GasPrice : Z;
  BlobHashes : list Hash;
  precompiles : Address → option PrecompiledContract
}.

(** ** Contracts (contract.go) *)

Record Contract : Type := MkContract {
  caller : Address;
  address : Address;
  analysis : option bitvec;
  Code : bytes;
  CodeHash : Hash;
  Input : bytes;
  IsDeployment : bool;
  IsSystemCall : bool;
  Gas : Z;
  value : Z
}.

(** The map of the jump destinations is that of the machine. *)
Definition NewContract (caller address : Address) (value gas : Z) : Contract :=
  MkContract caller address None [] 0 [] false false gas value.

Definition SetCallCode (c : Contract) (hash : Hash) (code : bytes) : Contract :=
  MkContract (caller c) (address c) (analysis c) code hash (Input c) (IsDeployment c) (IsSystemCall c) (Gas c) (value c).
Definition set_Input (c : Contract) (input : bytes) : Contract :=
  MkContract (caller c) (address c) (analysis c) (Code c) (CodeHash c) input (IsDeployment c) (IsSystemCall c) (Gas c) (value c).
Definition set_analysis (c : Contract) (a : bitvec) : Contract :=
  MkContract (caller c) (address c) (Some a) (Code c) (CodeHash c) (Input c) (IsDeployment c) (IsSystemCall c) (Gas c) (value c).
Definition set_Gas (c : Contract) (gas : Z) : Contract :=
  MkContract (caller c) (address c) (analysis c) (Code c) (CodeHash c) (Input c) (IsDeployment c) (IsSystemCall c) gas (value c).
Definition set_deployment (c : Contract) : Contract :=
  MkContract (caller c) (address c) (analysis c) (Code c) (CodeHash c) (Input c) true (IsSystemCall c) (Gas c) (value c).
Definition set_system (c : Contract) (b : bool) : Contract :=
  MkContract (caller c) (address c) (analysis c) (Code c) (CodeHash c) (Input c) (IsDeployment c) b (Gas c) (value c).

Definition STOP : Z := 0.
Definition JUMPDEST : Z := 0x5b.

Definition GetOp (c : Contract) (n : Z) : Z :=
  if n <? len (Code c) then default STOP (Code c !! Z.to_nat n) else STOP.

Definition UseGas (c : Contract) (gas : Z) : bool * Contract :=
  if Gas c <? gas then (false, c) else (true, set_Gas c (wrap64 (Gas c - gas))).

Definition RefundGas (c : Contract) (gas : Z) : Contract :=
  if gas =? 0 then c else set_Gas c (wrap64 (Gas c + gas)).

(** ** The machine and a frame *)

(** The fields of the EVM and of its interpreter that change. *)
Record Evm (St : Type) : Type := MkEvm {
  StateDB : St;
  depth : Z;
  readOnly : bool;
  returnData : bytes;
  callGasTemp : Z;
  jumpDests : gmap Hash bitvec
}.
Arguments MkEvm {St}.
Arguments StateDB {St}.
Arguments depth {St}.
Arguments readOnly {St}.
Arguments returnData {St}.
Arguments callGasTemp {St}.
Arguments jumpDests {St}.

Record Frame (St : Type) : Type := MkFrame {
  pc : Z;
  Stk : list Z;
  Mem : Memory;
  Con : Contract;
  Vm : Evm St
}.
Arguments MkFrame {St}.
Arguments pc {St}.
Arguments Stk {St}.
Arguments Mem {St}.
Arguments Con {St}.
Arguments Vm {St}.

Section Frames.
Context {St : Type}.
Implicit Types (e : Evm St) (f : Frame St).

Definition set_StateDB e (s : St) : Evm St := MkEvm s (depth e) (readOnly e) (returnData e) (callGasTemp e) (jumpDests e).
Definition set_depth e d : Evm St := MkEvm (StateDB e) d (readOnly e) (returnData e) (callGasTemp e) (jumpDests e).
Definition set_readOnly e b : Evm St := MkEvm (StateDB e) (depth e) b (returnData e) (callGasTemp e) (jumpDests e).
Definition set_returnData e d : Evm St := MkEvm (StateDB e) (depth e) (readOnly e) d (callGasTemp e) (jumpDests e).
Definition set_callGasTemp e g : Evm St := MkEvm (StateDB e) (depth e) (readOnly e) (returnData e) g (jumpDests e).
Definition set_jumpDests e j : Evm St := MkEvm (StateDB e) (depth e) (readOnly e) (returnData e) (callGasTemp e) j.

Definition set_pc (x : Z) f : Frame St := MkFrame x (Stk f) (Mem f) (Con f) (Vm f).
Definition set_Stk (x : list Z) f : Frame St := MkFrame (pc f) x (Mem f) (Con f) (Vm f).
Definition set_Mem (x : Memory) f : Frame St := MkFrame (pc f) (Stk f) x (Con f) (Vm f).
Definition set_Con (x : Contract) f : Frame St := MkFrame (pc f) (Stk f) (Mem f) x (Vm f).
Definition set_Vm (x : Evm St) f : Frame St := MkFrame (pc f) (Stk f) (Mem f) (Con f) x.

(** ** The stack (stack.go) *)

Definition push (d : Z) : X (Frame St) unit := modify (λ f, set_Stk (d :: Stk f) f).

Definition pop : X (Frame St) Z := λ f,
  match Stk f with
  | [] => Panics IndexPanic
  | x :: st => Done x (set_Stk st f)
  end.

Definition Back (n : nat) : X (Frame St) Z := λ f, of_option IndexPanic (Stk f !! n) f.
Definition peek : X (Frame St) Z := Back 0.

(** Writing to the word that [peek] points to. *)
Definition set_top (v : Z) : X (Frame St) unit := λ f,
  match Stk f with
  | [] => Panics IndexPanic
  | _ :: st => Done tt (set_Stk (v :: st) f)
  end.

(** [swap1] to [swap16] *)
Definition swap (n : nat) : X (Frame St) unit := λ f,
  match Stk f !! 0%nat, Stk f !! n with
  | Some a, Some b => Done tt (set_Stk (<[0%nat := b]> (<[n := a]> (Stk f))) f)
  | _, _ => Panics IndexPanic
  end.

Definition dup (n : nat) : X (Frame St) unit := do x <- Back (n - 1); push x.

(** ** The state, the contract, the machine *)

Definition state_of : X (Frame St) St := gets (λ f, StateDB (Vm f)).
Definition contract_of : X (Frame St) Contract := gets Con.
Definition self : X (Frame St) Address := gets (λ f, address (Con f)).
Definition modify_con (g : Contract → Contract) : X (Frame St) unit := modify (λ f, set_Con (g (Con f)) f).
Definition modify_vm (g : Evm St → Evm St) : X (Frame St) unit := modify (λ f, set_Vm (g (Vm f)) f).
Definition mem_get {A} (g : Memory → option A) : X (Frame St) A := λ f, of_option MemoryPanic (g (Mem f)) f.
Definition mem_put (g : Memory → option Memory) : X (Frame St) unit := λ f,
  match g (Mem f) with Some m => Done tt (set_Mem m f) | None => Panics MemoryPanic end.

(** [contract.UseGas(gas)] *)
Definition use_gas (gas : Z) : X (Frame St) bool := λ f,
  let '(ok, c) := UseGas (Con f) gas in Done ok (set_Con c f).
Definition refund_gas (gas : Z) : X (Frame St) unit := modify_con (λ c, RefundGas c gas).

(** A step of the machine alone. *)
Definition on_evm {A} (m : X (Evm St) A) : X (Frame St) A := λ f,
  match m (Vm f) with
  | Done a e => Done a (set_Vm e f)
  | Halt res err e => Halt res err (set_Vm e f)
  | Panics p => Panics p
  | NoFuel => NoFuel
  end.
End Frames.

Definition vm_action `{EvmState St} (act : action) : X (Evm St) unit := λ e,
  match do_action (StateDB e) act with
  | Some s => Done tt (set_StateDB e s)
  | None => Panics (match act with ASubRefund _ => RefundPanic | _ => NilPanic end)
  end.

(** A write to the state. *)
Definition act `{EvmState St} (a : action) : X (Frame St) unit := on_evm (vm_action a).

(** ** Jump destinations *)

Section Jumps.
Context {St : Type}.

(** [isCode]: with the analysis at hand, the one of the machine, or a new one. *)
Definition isCode (udest : Z) : X (Frame St) bool :=
  do c <- contract_of;
  match analysis c with
  | Some a => of_option AnalysisPanic (codeSegment a udest)
  | None =>
      if negb (CodeHash c =? 0) then
        do dests <- gets (λ f, jumpDests (Vm f));
        do a <- (match dests !! CodeHash c with
                 | Some a => ret a
                 | None =>
                     do a <- of_option IndexPanic (codeBitmap (Code c));
                     do! modify_vm (λ e, set_jumpDests e (<[CodeHash c := a]> (jumpDests e)));
                     ret a
                 end);
        do! modify_con (λ c, set_analysis c a);
        of_option AnalysisPanic (codeSegment a udest)
      else
        do a <- of_option IndexPanic (codeBitmap (Code c));
        do! modify_con (λ c, set_analysis c a);
        of_option AnalysisPanic (codeSegment a udest)
  end.

Definition validJumpdest (dest : Z) : X (Frame St) bool :=
  do c <- contract_of;
  let '(udest, overflow) := Uint64WithOverflow dest in
  if overflow || (udest >=? len (Code c)) then ret false
  else
    do op <- of_option IndexPanic (Code c !! Z.to_nat udest);
    if negb (op =? JUMPDEST) then ret false else isCode udest.
End Jumps.
