(* ===== verification/EvmOps.v ===== *)
(** * The instructions

    parallelizable-client-go-ethereum/core/vm/instructions.go, the instructions of
    eips.go, and memory_table.go.  The calls of other contracts are parameters
    here ([Calls]); EvmRun.v ties the knot.  [abort] is the flag that another
    thread may set at any moment.  The instruction sets name their functions:
    [Exec.t] and [MemFn.t] are the names, [execute] and [memorySize_fn] what they
    stand for. *)

From S2P Require Import Prelude Crypto EvmCode EvmBase TxTypes VMInterface EvmState EvmFrame.
From S2P Require StateTypes ChainConfig.

(** params/protocol_params.go *)
Definition CallStipend : Z := 2300.

(** ** Names *)

Module Exec.
Inductive t : Type :=
  | opAdd | opSub | opMul | opDiv | opSdiv | opMod | opSmod | opExp | opSignExtend | opNot
  | opLt | opGt | opSlt | opSgt | opEq | opIszero | opAnd | opOr | opXor | opByte
  | opAddmod | opMulmod | opSHL | opSHR | opSAR | opKeccak256
  | opAddress | opBalance | opOrigin | opCaller | opCallValue
  | opCallDataLoad | opCallDataSize | opCallDataCopy | opReturnDataSize | opReturnDataCopy
  | opExtCodeSize | opCodeSize | opCodeCopy | opExtCodeCopy | opExtCodeHash
  | opGasprice | opBlockhash | opCoinbase | opTimestamp | opNumber | opDifficulty | opRandom | opGasLimit
  | opPop | opMload | opMstore | opMstore8 | opSload | opSstore
  | opJump | opJumpi | opJumpdest | opPc | opMsize | opGas
  | opSwap (n : nat)
  | opCreate | opCreate2 | opCall | opCallCode | opDelegateCall | opStaticCall
  | opReturn | opRevert | opUndefined | opStop | opSelfdestruct | opSelfdestruct6780
  | makeLog (size : nat) | opPush1 | makePush (size pushByteSize : Z) | makeDup (size : nat)
  | opSelfBalance | opChainID | opTload | opTstore | opBaseFee | opPush0 | opMcopy | opBlobHash | opBlobBaseFee.

#[global] Instance t_eq_dec : EqDecision t.
Proof. solve_decision. Defined.
End Exec.

Module MemFn.
Inductive t : Type :=
  | memoryKeccak256 | memoryCallDataCopy | memoryReturnDataCopy | memoryCodeCopy | memoryExtCodeCopy
  | memoryMLoad | memoryMStore8 | memoryMStore | memoryMcopy | memoryCreate | memoryCreate2
  | memoryCall | memoryDelegateCall | memoryStaticCall | memoryReturn | memoryRevert | memoryLog.

#[global] Instance t_eq_dec : EqDecision t.
Proof. solve_decision. Defined.
End MemFn.

(** ** Memory sizes (memory_table.go) *)

Section MemorySizes.
Context {St : Type}.
Abbreviation M A := (X (Frame St) A).

Definition size_of_range (off l : nat) : M (Z * bool) :=
  do a <- Back off; do b <- Back l; ret (calcMemSize64 a b).

Definition memoryKeccak256 : M (Z * bool) := size_of_range 0 1.
Definition memoryCallDataCopy : M (Z * bool) := size_of_range 0 2.
Definition memoryReturnDataCopy : M (Z * bool) := size_of_range 0 2.
Definition memoryCodeCopy : M (Z * bool) := size_of_range 0 2.
Definition memoryExtCodeCopy : M (Z * bool) := size_of_range 1 3.
Definition memoryMLoad : M (Z * bool) := do a <- Back 0; ret (calcMemSize64WithUint a 32).
Definition memoryMStore8 : M (Z * bool) := do a <- Back 0; ret (calcMemSize64WithUint a 1).
Definition memoryMStore : M (Z * bool) := do a <- Back 0; ret (calcMemSize64WithUint a 32).
Definition memoryMcopy : M (Z * bool) :=
  do mStart <- Back 0;
  do src <- Back 1;
  let mStart := if src >? mStart then src else mStart in
  do l <- Back 2;
  ret (calcMemSize64 mStart l).
Definition memoryCreate : M (Z * bool) := size_of_range 1 2.
Definition memoryCreate2 : M (Z * bool) := size_of_range 1 2.

(** The larger of two ranges. *)
Definition size_of_ranges (off1 l1 off2 l2 : nat) : M (Z * bool) :=
  do (x, overflow) <- size_of_range off1 l1;
  if overflow : bool then ret (0, true)
  else
    do (y, overflow) <- size_of_range off2 l2;
    if overflow : bool then ret (0, true)
    else if x >? y then ret (x, false) else ret (y, false).

Definition memoryCall : M (Z * bool) := size_of_ranges 5 6 3 4.
Definition memoryDelegateCall : M (Z * bool) := size_of_ranges 4 5 2 3.
Definition memoryStaticCall : M (Z * bool) := size_of_ranges 4 5 2 3.
Definition memoryReturn : M (Z * bool) := size_of_range 0 1.
Definition memoryRevert : M (Z * bool) := size_of_range 0 1.
Definition memoryLog : M (Z * bool) := size_of_range 0 1.

Definition memorySize_fn (fn : MemFn.t) : M (Z * bool) :=
  match fn with
  | MemFn.memoryKeccak256 => memoryKeccak256
  | MemFn.memoryCallDataCopy => memoryCallDataCopy
  | MemFn.memoryReturnDataCopy => memoryReturnDataCopy
  | MemFn.memoryCodeCopy => memoryCodeCopy
  | MemFn.memoryExtCodeCopy => memoryExtCodeCopy
  | MemFn.memoryMLoad => memoryMLoad
  | MemFn.memoryMStore8 => memoryMStore8
  | MemFn.memoryMStore => memoryMStore
  | MemFn.memoryMcopy => memoryMcopy
  | MemFn.memoryCreate => memoryCreate
  | MemFn.memoryCreate2 => memoryCreate2
  | MemFn.memoryCall => memoryCall
  | MemFn.memoryDelegateCall => memoryDelegateCall
  | MemFn.memoryStaticCall => memoryStaticCall
  | MemFn.memoryReturn => memoryReturn
  | MemFn.memoryRevert => memoryRevert
  | MemFn.memoryLog => memoryLog
  end.
End MemorySizes.

(** ** Instructions *)

(** The calls of the machine: the data, the address that was created, the gas
    that is left, the error. *)
Record Calls (St : Type) : Type := MkCalls {
  evm_Call : Address → Address → bytes → Z → Z → X (Evm St) (bytes * Z * option vm_error);
  evm_CallCode : Address → Address → bytes → Z → Z → X (Evm St) (bytes * Z * option vm_error);
  evm_DelegateCall : Address → Address → Address → bytes → Z → Z → X (Evm St) (bytes * Z * option vm_error);
  evm_StaticCall : Address → Address → bytes → Z → X (Evm St) (bytes * Z * option vm_error);
  evm_Create : Address → bytes → Z → Z → X (Evm St) (bytes * Address * Z * option vm_error);
  evm_Create2 : Address → bytes → Z → Z → Z → X (Evm St) (bytes * Address * Z * option vm_error)
}.
Arguments evm_Call {St}.
Arguments evm_CallCode {St}.
Arguments evm_DelegateCall {St}.
Arguments evm_StaticCall {St}.
Arguments evm_Create {St}.
Arguments evm_Create2 {St}.

Section Instructions.
Context {St : Type} `{EvmState St} `{Keccak} `{Uint256}.
Context (env : EvmEnv) (abort : Frame St → bool).
Abbreviation M A := (X (Frame St) A).

(** [return nil, nil] *)
Definition nil_nil : M bytes := ret [].

(** [x, y := pop(), peek(); y.Op(&x, y)] *)
Definition binary (g : Z → Z → Z) : M bytes :=
  do x <- pop; do y <- peek; do! set_top (g x y); nil_nil.
Definition ternary (g : Z → Z → Z → Z) : M bytes :=
  do x <- pop; do y <- pop; do z <- peek; do! set_top (g x y z); nil_nil.
Definition push_word (v : Z) : M bytes := do! push v; nil_nil.

Definition opAdd : M bytes := binary (λ x y, wrap256 (x + y)).
Definition opSub : M bytes := binary (λ x y, wrap256 (x - y)).
Definition opMul : M bytes := binary (λ x y, wrap256 (x * y)).
Definition opDiv : M bytes := binary (λ x y, if y =? 0 then 0 else x / y).
Definition opSdiv : M bytes := binary (λ x y, SDiv x y).
Definition opMod : M bytes := binary (λ x y, if y =? 0 then 0 else x mod y).
Definition opSmod : M bytes := binary (λ x y, SMod x y).
Definition opExp : M bytes := binary (λ base exponent, Exp base exponent).
Definition opSignExtend : M bytes := binary (λ back num, ExtendSign num back).
Definition opNot : M bytes := do x <- peek; do! set_top (two256 - 1 - x); nil_nil.
Definition opLt : M bytes := binary (λ x y, b2w (x <? y)).
Definition opGt : M bytes := binary (λ x y, b2w (x >? y)).
Definition opSlt : M bytes := binary (λ x y, b2w (to_signed x <? to_signed y)).
Definition opSgt : M bytes := binary (λ x y, b2w (to_signed x >? to_signed y)).
Definition opEq : M bytes := binary (λ x y, b2w (x =? y)).
Definition opIszero : M bytes := do x <- peek; do! set_top (b2w (x =? 0)); nil_nil.
Definition opAnd : M bytes := binary (λ x y, Z.land x y).
Definition opOr : M bytes := binary (λ x y, Z.lor x y).
Definition opXor : M bytes := binary (λ x y, Z.lxor x y).
Definition opByte : M bytes := binary (λ th val, Byte_ val th).
Definition opAddmod : M bytes := ternary (λ x y z, AddMod x y z).
Definition opMulmod : M bytes := ternary (λ x y z, MulMod x y z).

Definition opSHL : M bytes :=
  binary (λ shift value, if shift <? 256 then wrap256 (Z.shiftl value (Uint64 shift)) else 0).
Definition opSHR : M bytes :=
  binary (λ shift value, if shift <? 256 then Z.shiftr value (Uint64 shift) else 0).
Definition opSAR : M bytes :=
  binary (λ shift value,
    if shift >? 256 then (if to_signed value >=? 0 then 0 else two256 - 1)
    else SRsh value (Uint64 shift)).

Definition opKeccak256 : M bytes :=
  do offset <- pop;
  do size <- peek;
  do data <- mem_get (λ m, GetPtr m (Uint64 offset) (Uint64 size));
  let hash := Keccak256Hash data in
  do! (if EnablePreimageRecording env then act (AAddPreimage hash data) else ret tt);
  do! set_top hash;
  nil_nil.

Definition opAddress : M bytes := do a <- self; push_word a.
Definition opBalance : M bytes :=
  do slot <- peek; do s <- state_of; do! set_top (GetBalance s (Bytes20 slot)); nil_nil.
Definition opOrigin : M bytes := push_word (Origin env).
Definition opCaller : M bytes := do c <- contract_of; push_word (caller c).
Definition opCallValue : M bytes := do c <- contract_of; push_word (value c).

Definition opCallDataLoad : M bytes :=
  do x <- peek;
  do c <- contract_of;
  let '(offset, overflow) := Uint64WithOverflow x in
  do! (if negb overflow then
         do data <- of_option IndexPanic (getData (Input c) offset 32); set_top (be_decode data)
       else set_top 0);
  nil_nil.

Definition opCallDataSize : M bytes := do c <- contract_of; push_word (wrap64 (len (Input c))).

(** The end of the instructions that copy to the memory. *)
Definition copy_to_memory (memOffset : Z) (data : bytes) (dataOffset length : Z) : M bytes :=
  let '(dataOffset64, overflow) := Uint64WithOverflow dataOffset in
  let dataOffset64 := if overflow then max_uint64 else dataOffset64 in
  do d <- of_option IndexPanic (getData data dataOffset64 (Uint64 length));
  do! mem_put (λ m, Set_ m (Uint64 memOffset) (Uint64 length) d);
  nil_nil.

Definition opCallDataCopy : M bytes :=
  do memOffset <- pop; do dataOffset <- pop; do length <- pop;
  do c <- contract_of;
  copy_to_memory memOffset (Input c) dataOffset length.

Definition opReturnDataSize : M bytes :=
  do e <- gets Vm; push_word (wrap64 (len (returnData e))).

Definition opReturnDataCopy : M bytes :=
  do memOffset <- pop; do dataOffset <- pop; do length <- pop;
  do e <- gets Vm;
  let '(offset64, overflow) := Uint64WithOverflow dataOffset in
  if overflow then fail ErrReturnDataOutOfBounds
  else
    let end_ := wrap256 (dataOffset + length) in
    let '(end64, overflow) := Uint64WithOverflow end_ in
    if overflow || (len (returnData e) <? end64) then fail ErrReturnDataOutOfBounds
    else
      do d <- of_option IndexPanic (slice (returnData e) offset64 end64);
      do! mem_put (λ m, Set_ m (Uint64 memOffset) (Uint64 length) d);
      nil_nil.

Definition opExtCodeSize : M bytes :=
  do slot <- peek; do s <- state_of; do! set_top (wrap64 (GetCodeSize s (Bytes20 slot))); nil_nil.
Definition opCodeSize : M bytes := do c <- contract_of; push_word (wrap64 (len (Code c))).

Definition opCodeCopy : M bytes :=
  do memOffset <- pop; do codeOffset <- pop; do length <- pop;
  do c <- contract_of;
  copy_to_memory memOffset (Code c) codeOffset length.

Definition opExtCodeCopy : M bytes :=
  do a <- pop; do memOffset <- pop; do codeOffset <- pop; do length <- pop;
  do s <- state_of;
  copy_to_memory memOffset (GetCode s (Bytes20 a)) codeOffset length.

Definition opExtCodeHash : M bytes :=
  do slot <- peek; do s <- state_of;
  do! set_top (if Empty s (Bytes20 slot) then 0 else GetCodeHash s (Bytes20 slot));
  nil_nil.

(** [uint256.FromBig]: the low 256 bits. *)
Definition push_big (b : option Z) : M bytes :=
  do v <- of_option NilPanic b; push_word (wrap256 v).

Definition opGasprice : M bytes := push_big (Some (GasPrice env)).

Definition opBlockhash : M bytes :=
  do num <- peek;
  let '(num64, overflow) := Uint64WithOverflow num in
  let upper := wrap64 (BlockNumber env) in
  let lower := if upper <? 257 then 0 else upper - 256 in
  do! (if overflow then set_top 0
       else if (num64 >=? lower) && (num64 <? upper) then set_top (GetHash env num64)
       else set_top 0);
  nil_nil.

Definition opCoinbase : M bytes := push_word (Coinbase env).
Definition opTimestamp : M bytes := push_word (Time env).
Definition opNumber : M bytes := push_big (Some (BlockNumber env)).
Definition opDifficulty : M bytes := push_big (Difficulty env).
Definition opRandom : M bytes := do v <- of_option NilPanic (Random env); push_word v.
Definition opGasLimit : M bytes := push_word (ctx_GasLimit env).

Definition opPop : M bytes := do _ <- pop; nil_nil.

Definition opMload : M bytes :=
  do v <- peek;
  do d <- mem_get (λ m, GetPtr m (Uint64 v) 32);
  do! set_top (be_decode d);
  nil_nil.
Definition opMstore : M bytes :=
  do mStart <- pop; do val <- pop; do! mem_put (λ m, Set32 m (Uint64 mStart) val); nil_nil.

(** [store[off] = byte(val)] *)
Definition set_byte (m : Memory) (off val : Z) : option Memory :=
  _ ← store m !! Z.to_nat off;
  Some (set_store m (<[Z.to_nat off := val mod 256]> (store m))).
Definition opMstore8 : M bytes :=
  do off <- pop; do val <- pop; do! mem_put (λ m, set_byte m (Uint64 off) (Uint64 val)); nil_nil.

Definition opSload : M bytes :=
  do loc <- peek; do s <- state_of; do a <- self; do! set_top (GetState s a loc); nil_nil.

(** [if interpreter.readOnly { return nil, ErrWriteProtection }] *)
Definition write_protected : M unit :=
  do e <- gets Vm; if readOnly e then fail ErrWriteProtection else ret tt.

Definition opSstore : M bytes :=
  do! write_protected;
  do loc <- pop; do val <- pop; do a <- self;
  do! act (ASetState a loc val);
  nil_nil.

Definition opJump : M bytes :=
  do f <- get;
  if abort f then fail errStopToken
  else
    do pos <- pop;
    do ok <- validJumpdest pos;
    if negb ok then fail ErrInvalidJump
    else do! modify (set_pc (wrap64 (Uint64 pos - 1))); nil_nil.

Definition opJumpi : M bytes :=
  do f <- get;
  if abort f then fail errStopToken
  else
    do pos <- pop; do cond <- pop;
    if negb (cond =? 0) then
      do ok <- validJumpdest pos;
      if negb ok then fail ErrInvalidJump
      else do! modify (set_pc (wrap64 (Uint64 pos - 1))); nil_nil
    else nil_nil.

Definition opJumpdest : M bytes := nil_nil.
Definition opPc : M bytes := do f <- get; push_word (pc f).
Definition opMsize : M bytes := do f <- get; push_word (wrap64 (Len (Mem f))).
Definition opGas : M bytes := do c <- contract_of; push_word (Gas c).
Definition opSwap (n : nat) : M bytes := do! swap n; nil_nil.

(** ** Calls *)

Context (calls : Calls St).

(** [UseGas] whose answer is not looked at. *)
Definition spend (gas : Z) : M unit := do _ <- use_gas gas; ret tt.

Definition return_data (d : bytes) : M unit := modify_vm (λ e, set_returnData e d).

(** The end of the two instructions that create. *)
Definition created (stackvalue : Z) (res : bytes) (returnGas : Z) (suberr : option vm_error) : M bytes :=
  do! push stackvalue;
  do! refund_gas returnGas;
  if bool_decide (suberr = Some ErrExecutionReverted) then do! return_data res; ret res
  else do! return_data []; nil_nil.

Definition opCreate : M bytes :=
  do! write_protected;
  do value <- pop; do offset <- pop; do size <- pop;
  do input <- mem_get (λ m, GetCopy m (Uint64 offset) (Uint64 size));
  do c <- contract_of;
  let gas := Gas c in
  let gas := if ChainConfig.Config.r_IsEIP150 (chainRules env) then wrap64 (gas - gas / 64) else gas in
  do! spend gas;
  do a <- self;
  do (res, addr, returnGas, suberr) <- on_evm (evm_Create calls a input gas value);
  let stackvalue :=
    if ChainConfig.Config.r_IsHomestead (chainRules env) && bool_decide (suberr = Some ErrCodeStoreOutOfGas) then 0
    else if bool_decide (is_Some suberr) && bool_decide (suberr ≠ Some ErrCodeStoreOutOfGas) then 0
    else addr in
  created stackvalue res returnGas suberr.

Definition opCreate2 : M bytes :=
  do! write_protected;
  do endowment <- pop; do offset <- pop; do size <- pop; do salt <- pop;
  do input <- mem_get (λ m, GetCopy m (Uint64 offset) (Uint64 size));
  do c <- contract_of;
  let gas := Gas c in
  let gas := wrap64 (gas - gas / 64) in
  do! spend gas;
  do a <- self;
  do (res, addr, returnGas, suberr) <- on_evm (evm_Create2 calls a input gas endowment salt);
  let stackvalue := if bool_decide (is_Some suberr) then 0 else addr in
  created stackvalue res returnGas suberr.

(** The end of the four instructions that call. *)
Definition called (retOffset retSize : Z) (ret_ : bytes) (returnGas : Z) (err : option vm_error) : M bytes :=
  do! push (b2w (negb (bool_decide (is_Some err))));
  do! (if bool_decide (err = None) || bool_decide (err = Some ErrExecutionReverted)
       then mem_put (λ m, Set_ m (Uint64 retOffset) (Uint64 retSize) ret_) else ret tt);
  do! refund_gas returnGas;
  do! return_data ret_;
  ret ret_.

Definition opCall : M bytes :=
  do _ <- pop;
  do gas <- gets (λ f, callGasTemp (Vm f));
  do addr <- pop; do value <- pop; do inOffset <- pop; do inSize <- pop; do retOffset <- pop; do retSize <- pop;
  let toAddr := Bytes20 addr in
  do args <- mem_get (λ m, GetPtr m (Uint64 inOffset) (Uint64 inSize));
  do e <- gets Vm;
  if readOnly e && negb (value =? 0) then fail ErrWriteProtection
  else
    let gas := if negb (value =? 0) then wrap64 (gas + CallStipend) else gas in
    do a <- self;
    do (ret_, returnGas, err) <- on_evm (evm_Call calls a toAddr args gas value);
    called retOffset retSize ret_ returnGas err.

Definition opCallCode : M bytes :=
  do _ <- pop;
  do gas <- gets (λ f, callGasTemp (Vm f));
  do addr <- pop; do value <- pop; do inOffset <- pop; do inSize <- pop; do retOffset <- pop; do retSize <- pop;
  let toAddr := Bytes20 addr in
  do args <- mem_get (λ m, GetPtr m (Uint64 inOffset) (Uint64 inSize));
  let gas := if negb (value =? 0) then wrap64 (gas + CallStipend) else gas in
  do a <- self;
  do (ret_, returnGas, err) <- on_evm (evm_CallCode calls a toAddr args gas value);
  called retOffset retSize ret_ returnGas err.

Definition opDelegateCall : M bytes :=
  do _ <- pop;
  do gas <- gets (λ f, callGasTemp (Vm f));
  do addr <- pop; do inOffset <- pop; do inSize <- pop; do retOffset <- pop; do retSize <- pop;
  let toAddr := Bytes20 addr in
  do args <- mem_get (λ m, GetPtr m (Uint64 inOffset) (Uint64 inSize));
  do c <- contract_of;
  do (ret_, returnGas, err) <-
    on_evm (evm_DelegateCall calls (caller c) (address c) toAddr args gas (value c));
  called retOffset retSize ret_ returnGas err.

Definition opStaticCall : M bytes :=
  do _ <- pop;
  do gas <- gets (λ f, callGasTemp (Vm f));
  do addr <- pop; do inOffset <- pop; do inSize <- pop; do retOffset <- pop; do retSize <- pop;
  let toAddr := Bytes20 addr in
  do args <- mem_get (λ m, GetPtr m (Uint64 inOffset) (Uint64 inSize));
  do a <- self;
  do (ret_, returnGas, err) <- on_evm (evm_StaticCall calls a toAddr args gas);
  called retOffset retSize ret_ returnGas err.

(** ** Halting *)

Definition opReturn : M bytes :=
  do offset <- pop; do size <- pop;
  do ret_ <- mem_get (λ m, GetCopy m (Uint64 offset) (Uint64 size));
  halt ret_ errStopToken.

Definition opRevert : M bytes :=
  do offset <- pop; do size <- pop;
  do ret_ <- mem_get (λ m, GetCopy m (Uint64 offset) (Uint64 size));
  do! return_data ret_;
  halt ret_ ErrExecutionReverted.

Definition opUndefined : M bytes :=
  do f <- get;
  do op <- of_option IndexPanic (Code (Con f) !! Z.to_nat (pc f));
  fail (ErrInvalidOpCode op).

Definition opStop : M bytes := fail errStopToken.

Definition opSelfdestruct : M bytes :=
  do! write_protected;
  do beneficiary <- pop;
  do s <- state_of; do a <- self;
  let balance := GetBalance s a in
  do! act (AAddBalance (Bytes20 beneficiary) balance);
  do! act (ASelfDestruct a);
  fail errStopToken.

Definition opSelfdestruct6780 : M bytes :=
  do! write_protected;
  do beneficiary <- pop;
  do s <- state_of; do a <- self;
  let balance := GetBalance s a in
  do! act (ASubBalance a balance);
  do! act (AAddBalance (Bytes20 beneficiary) balance);
  do! act (ASelfDestruct6780 a);
  fail errStopToken.

(** ** Logs, pushes and dups *)

Fixpoint pop_n (n : nat) : M (list Z) :=
  match n with
  | O => ret []
  | S n => do x <- pop; do l <- pop_n n; ret (x :: l)
  end.

Definition makeLog (size : nat) : M bytes :=
  do! write_protected;
  do mStart <- pop; do mSize <- pop;
  do topics <- pop_n size;
  do d <- mem_get (λ m, GetCopy m (Uint64 mStart) (Uint64 mSize));
  do a <- self;
  do! act (AAddLog (StateTypes.MkLog a topics d 0 0 0));
  nil_nil.

Definition opPush1 : M bytes :=
  do! modify (λ f, set_pc (wrap64 (pc f + 1)) f);
  do f <- get;
  let code := Code (Con f) in
  if pc f <? len code then
    do b <- of_option IndexPanic (code !! Z.to_nat (pc f)); push_word b
  else push_word 0.

Definition makePush (size pushByteSize : Z) : M bytes :=
  do f <- get;
  let code := Code (Con f) in
  let codeLen := len code in
  let start := Z.min codeLen (to_int (wrap64 (pc f + 1))) in
  let end_ := Z.min codeLen (start + pushByteSize) in
  do d <- of_option IndexPanic (slice code start end_);
  let a := be_decode d in
  let missing := pushByteSize - (end_ - start) in
  let a := if missing >? 0 then wrap256 (Z.shiftl a (8 * missing)) else a in
  do! push a;
  do! modify (λ f, set_pc (wrap64 (pc f + size)) f);
  nil_nil.

Definition makeDup (size : nat) : M bytes := do! dup size; nil_nil.

(** ** eips.go *)

Definition opSelfBalance : M bytes := do s <- state_of; do a <- self; push_word (GetBalance s a).
Definition opChainID : M bytes := push_big (config_ChainID env).
Definition opTload : M bytes :=
  do loc <- peek; do s <- state_of; do a <- self; do! set_top (GetTransientState s a loc); nil_nil.
Definition opTstore : M bytes :=
  do! write_protected;
  do loc <- pop; do val <- pop; do a <- self;
  do! act (ASetTransientState a loc val);
  nil_nil.
Definition opBaseFee : M bytes := push_big (BaseFee env).
Definition opPush0 : M bytes := push_word 0.
Definition opMcopy : M bytes :=
  do dst <- pop; do src <- pop; do length <- pop;
  do! mem_put (λ m, Copy m (Uint64 dst) (Uint64 src) (Uint64 length));
  nil_nil.
Definition opBlobHash : M bytes :=
  do index <- peek;
  do! (if index <? len (BlobHashes env) then
         do h <- of_option IndexPanic (BlobHashes env !! Z.to_nat (Uint64 index)); set_top h
       else set_top 0);
  nil_nil.
Definition opBlobBaseFee : M bytes := push_big (BlobBaseFee env).

Definition execute (fn : Exec.t) : M bytes :=
  match fn with
  | Exec.opAdd => opAdd | Exec.opSub => opSub | Exec.opMul => opMul | Exec.opDiv => opDiv
  | Exec.opSdiv => opSdiv | Exec.opMod => opMod | Exec.opSmod => opSmod | Exec.opExp => opExp
  | Exec.opSignExtend => opSignExtend | Exec.opNot => opNot | Exec.opLt => opLt | Exec.opGt => opGt
  | Exec.opSlt => opSlt | Exec.opSgt => opSgt | Exec.opEq => opEq | Exec.opIszero => opIszero
  | Exec.opAnd => opAnd | Exec.opOr => opOr | Exec.opXor => opXor | Exec.opByte => opByte
  | Exec.opAddmod => opAddmod | Exec.opMulmod => opMulmod | Exec.opSHL => opSHL | Exec.opSHR => opSHR
  | Exec.opSAR => opSAR | Exec.opKeccak256 => opKeccak256 | Exec.opAddress => opAddress
  | Exec.opBalance => opBalance | Exec.opOrigin => opOrigin | Exec.opCaller => opCaller
  | Exec.opCallValue => opCallValue | Exec.opCallDataLoad => opCallDataLoad
  | Exec.opCallDataSize => opCallDataSize | Exec.opCallDataCopy => opCallDataCopy
  | Exec.opReturnDataSize => opReturnDataSize | Exec.opReturnDataCopy => opReturnDataCopy
  | Exec.opExtCodeSize => opExtCodeSize | Exec.opCodeSize => opCodeSize | Exec.opCodeCopy => opCodeCopy
  | Exec.opExtCodeCopy => opExtCodeCopy | Exec.opExtCodeHash => opExtCodeHash
  | Exec.opGasprice => opGasprice | Exec.opBlockhash => opBlockhash | Exec.opCoinbase => opCoinbase
  | Exec.opTimestamp => opTimestamp | Exec.opNumber => opNumber | Exec.opDifficulty => opDifficulty
  | Exec.opRandom => opRandom | Exec.opGasLimit => opGasLimit | Exec.opPop => opPop
  | Exec.opMload => opMload | Exec.opMstore => opMstore | Exec.opMstore8 => opMstore8
  | Exec.opSload => opSload | Exec.opSstore => opSstore | Exec.opJump => opJump | Exec.opJumpi => opJumpi
  | Exec.opJumpdest => opJumpdest | Exec.opPc => opPc | Exec.opMsize => opMsize | Exec.opGas => opGas
  | Exec.opSwap n => opSwap n | Exec.opCreate => opCreate | Exec.opCreate2 => opCreate2
  | Exec.opCall => opCall | Exec.opCallCode => opCallCode | Exec.opDelegateCall => opDelegateCall
  | Exec.opStaticCall => opStaticCall | Exec.opReturn => opReturn | Exec.opRevert => opRevert
  | Exec.opUndefined => opUndefined | Exec.opStop => opStop | Exec.opSelfdestruct => opSelfdestruct
  | Exec.opSelfdestruct6780 => opSelfdestruct6780 | Exec.makeLog n => makeLog n | Exec.opPush1 => opPush1
  | Exec.makePush n k => makePush n k | Exec.makeDup n => makeDup n | Exec.opSelfBalance => opSelfBalance
  | Exec.opChainID => opChainID | Exec.opTload => opTload | Exec.opTstore => opTstore
  | Exec.opBaseFee => opBaseFee | Exec.opPush0 => opPush0 | Exec.opMcopy => opMcopy
  | Exec.opBlobHash => opBlobHash | Exec.opBlobBaseFee => opBlobBaseFee
  end.
End Instructions.
