(* ===== verification/EvmGas.v ===== *)
(** * The dynamic gas of the instructions

    parallelizable-client-go-ethereum/core/vm/gas_table.go and operations_acl.go.
    A gas function charges nothing itself, but for the cold access of a call,
    which it gives back; it moves the refund counter, the access list and the gas
    of the next call.  The branches of EIP-4762 are left out.  [GasFn.t] names the
    functions, [dynamicGas_fn] is what they stand for. *)

From S2P Require Import Prelude Crypto EvmCode EvmBase TxTypes VMInterface EvmState EvmFrame.
From S2P Require ChainConfig GasRules StateTransition.

(** params/protocol_params.go *)
Definition CallValueTransferGas : Z := 9000.
Definition CallNewAccountGas : Z := 25000.
Definition LogDataGas : Z := 8.
Definition Keccak256WordGas : Z := 6.
Definition SstoreSetGas : Z := 20000.
Definition SstoreResetGas : Z := 5000.
Definition SstoreClearGas : Z := 5000.
Definition SstoreRefundGas : Z := 15000.
Definition NetSstoreNoopGas : Z := 200.
Definition NetSstoreInitGas : Z := 20000.
Definition NetSstoreCleanGas : Z := 5000.
Definition NetSstoreDirtyGas : Z := 200.
Definition NetSstoreClearRefund : Z := 15000.
Definition NetSstoreResetRefund : Z := 4800.
Definition NetSstoreResetClearRefund : Z := 19800.
Definition SstoreSentryGasEIP2200 : Z := 2300.
Definition SstoreSetGasEIP2200 : Z := 20000.
Definition SstoreResetGasEIP2200 : Z := 5000.
Definition SstoreClearsScheduleRefundEIP2200 : Z := 15000.
Definition ColdAccountAccessCostEIP2929 : Z := 2600.
Definition ColdSloadCostEIP2929 : Z := 2100.
Definition WarmStorageReadCostEIP2929 : Z := 100.
Definition SstoreClearsScheduleRefundEIP3529 : Z :=
  SstoreResetGasEIP2200 - ColdSloadCostEIP2929 + GasRules.TxAccessListStorageKeyGas.
Definition SloadGasEIP2200 : Z := 800.
Definition ExpGas : Z := 10.
Definition ExpByteFrontier : Z := 10.
Definition ExpByteEIP158 : Z := 50.
Definition LogGas : Z := 375.
Definition LogTopicGas : Z := 375.
Definition CopyGas : Z := 3.
Definition InitCodeWordGas : Z := 2.
Definition MaxCodeSize : Z := 24576.
Definition MaxInitCodeSize : Z := 2 * MaxCodeSize.
Definition SelfdestructGasEIP150 : Z := 5000.
Definition SelfdestructRefundGas : Z := 24000.
Definition CreateBySelfdestructGas : Z := 25000.

Module GasFn.
Inductive t : Type :=
  | gasCallDataCopy | gasCodeCopy | gasMcopy | gasExtCodeCopy | gasReturnDataCopy
  | gasSStore | gasSStoreEIP2200 | gasSStoreEIP2929 | gasSStoreEIP3529
  | makeGasLog (n : nat) | gasKeccak256
  | gasReturn | gasRevert | gasMLoad | gasMStore8 | gasMStore | gasCreate
  | gasCreate2 | gasCreateEip3860 | gasCreate2Eip3860 | gasExpFrontier | gasExpEIP158
  | gasCall | gasCallCode | gasDelegateCall | gasStaticCall | gasSelfdestruct
  | gasSLoadEIP2929 | gasExtCodeCopyEIP2929 | gasEip2929AccountCheck
  | gasCallEIP2929 | gasCallCodeEIP2929 | gasDelegateCallEIP2929 | gasStaticCallEIP2929
  | gasSelfdestructEIP2929 | gasSelfdestructEIP3529
  | gasCallEIP7702 | gasCallCodeEIP7702 | gasDelegateCallEIP7702 | gasStaticCallEIP7702.

#[global] Instance t_eq_dec : EqDecision t.
Proof. solve_decision. Defined.
End GasFn.

Section Gas.
Context {St : Type} `{EvmState St}.
Context (rules : ChainConfig.Config.Rules).
Abbreviation M A := (X (Frame St) A).

(** [memoryGasCost(mem, memorySize)] *)
Definition memory_gas (memorySize : Z) : M Z := λ f,
  let '(r, m) := memoryGasCost (Mem f) memorySize in of_result r (set_Mem m f).

(** [math.SafeAdd] and [math.SafeMul], and the error of their overflow. *)
Definition safe_add (x y : Z) : M Z := no_overflow (SafeAdd x y).
Definition safe_mul (x y : Z) : M Z := no_overflow (SafeMul x y).

(** [stack.Back(n).Uint64WithOverflow()], and the error of its overflow. *)
Definition back64 (n : nat) : M Z := do x <- Back n; no_overflow (Uint64WithOverflow x).

Definition memoryCopierGas (stackpos : nat) (memorySize : Z) : M Z :=
  do gas <- memory_gas memorySize;
  do words <- back64 stackpos;
  do words <- safe_mul (toWordSize words) CopyGas;
  safe_add gas words.

Definition gasCallDataCopy : Z → M Z := memoryCopierGas 2.
Definition gasCodeCopy : Z → M Z := memoryCopierGas 2.
Definition gasMcopy : Z → M Z := memoryCopierGas 2.
Definition gasExtCodeCopy : Z → M Z := memoryCopierGas 3.
Definition gasReturnDataCopy : Z → M Z := memoryCopierGas 2.

(** [if cond { m }] *)
Definition when (cond : bool) (m : M unit) : M unit := if cond then m else ret tt.

(** The refunds of a write to a dirty slot: when it clears or restores it, and
    when it resets it to the original value. *)
Definition dirty_refunds (original current value clear reset_zero reset : Z) : M unit :=
  do! (if negb (original =? 0) then
         if current =? 0 then act (ASubRefund clear)
         else when (value =? 0) (act (AAddRefund clear))
       else ret tt);
  when (original =? value)
    (if original =? 0 then act (AAddRefund reset_zero) else act (AAddRefund reset)).

Definition gasSStore (memorySize : Z) : M Z :=
  do y <- Back 1; do x <- Back 0;
  do s <- state_of; do a <- self;
  let current := GetState s a x in
  if ChainConfig.Config.r_IsPetersburg rules || negb (ChainConfig.Config.r_IsConstantinople rules) then
    if (current =? 0) && negb (y =? 0) then ret SstoreSetGas
    else if negb (current =? 0) && (y =? 0) then
      do! act (AAddRefund SstoreRefundGas); ret SstoreClearGas
    else ret SstoreResetGas
  else
    let value := y in
    if current =? value then ret NetSstoreNoopGas
    else
      let original := GetCommittedState s a x in
      if original =? current then
        if original =? 0 then ret NetSstoreInitGas
        else do! when (value =? 0) (act (AAddRefund NetSstoreClearRefund)); ret NetSstoreCleanGas
      else
        do! dirty_refunds original current value NetSstoreClearRefund NetSstoreResetClearRefund NetSstoreResetRefund;
        ret NetSstoreDirtyGas.

(** The sentry of EIP-2200. *)
Definition sentry : M unit :=
  do c <- contract_of;
  if Gas c <=? SstoreSentryGasEIP2200 then fail errReentrancySentry else ret tt.

Definition gasSStoreEIP2200 (memorySize : Z) : M Z :=
  do! sentry;
  do y <- Back 1; do x <- Back 0;
  do s <- state_of; do a <- self;
  let current := GetState s a x in
  let value := y in
  if current =? value then ret SloadGasEIP2200
  else
    let original := GetCommittedState s a x in
    if original =? current then
      if original =? 0 then ret SstoreSetGasEIP2200
      else do! when (value =? 0) (act (AAddRefund SstoreClearsScheduleRefundEIP2200)); ret SstoreResetGasEIP2200
    else
      do! dirty_refunds original current value SstoreClearsScheduleRefundEIP2200
            (SstoreSetGasEIP2200 - SloadGasEIP2200) (SstoreResetGasEIP2200 - SloadGasEIP2200);
      ret SloadGasEIP2200.

(** [makeGasSStoreFunc] *)
Definition makeGasSStoreFunc (clearingRefund memorySize : Z) : M Z :=
  do! sentry;
  do y <- Back 1; do x <- peek;
  do s <- state_of; do a <- self;
  let current := GetState s a x in
  let slotPresent := (SlotInAccessList s a x).2 in
  let cost := if negb slotPresent then ColdSloadCostEIP2929 else 0 in
  do! when (negb slotPresent) (act (AAddSlot a x));
  let value := y in
  if current =? value then ret (cost + WarmStorageReadCostEIP2929)
  else
    do s <- state_of;
    let original := GetCommittedState s a x in
    if original =? current then
      if original =? 0 then ret (cost + SstoreSetGasEIP2200)
      else
        do! when (value =? 0) (act (AAddRefund clearingRefund));
        ret (cost + (SstoreResetGasEIP2200 - ColdSloadCostEIP2929))
    else
      do! dirty_refunds original current value clearingRefund
            (SstoreSetGasEIP2200 - WarmStorageReadCostEIP2929)
            (SstoreResetGasEIP2200 - ColdSloadCostEIP2929 - WarmStorageReadCostEIP2929);
      ret (cost + WarmStorageReadCostEIP2929).

Definition gasSStoreEIP2929 : Z → M Z := makeGasSStoreFunc SstoreClearsScheduleRefundEIP2200.
Definition gasSStoreEIP3529 : Z → M Z := makeGasSStoreFunc SstoreClearsScheduleRefundEIP3529.

Definition makeGasLog (n : Z) (memorySize : Z) : M Z :=
  do requestedSize <- back64 1;
  do gas <- memory_gas memorySize;
  do gas <- safe_add gas LogGas;
  do gas <- safe_add gas (wrap64 (n * LogTopicGas));
  do memorySizeGas <- safe_mul requestedSize LogDataGas;
  safe_add gas memorySizeGas.

Definition gasKeccak256 (memorySize : Z) : M Z :=
  do gas <- memory_gas memorySize;
  do wordGas <- back64 1;
  do wordGas <- safe_mul (toWordSize wordGas) Keccak256WordGas;
  safe_add gas wordGas.

Definition pureMemoryGascost (memorySize : Z) : M Z := memory_gas memorySize.

Definition gasCreate2 (memorySize : Z) : M Z :=
  do gas <- memory_gas memorySize;
  do wordGas <- back64 2;
  do wordGas <- safe_mul (toWordSize wordGas) Keccak256WordGas;
  safe_add gas wordGas.

(** The two functions of EIP-3860 differ in the cost of a word. *)
Definition gasCreateEip3860 (memorySize : Z) : M Z :=
  do gas <- memory_gas memorySize;
  do size <- back64 2;
  if size >? MaxInitCodeSize then fail ErrMaxInitCodeSizeExceeded
  else
    let moreGas := wrap64 (InitCodeWordGas * ((size + 31) / 32)) in
    safe_add gas moreGas.

Definition gasCreate2Eip3860 (memorySize : Z) : M Z :=
  do gas <- memory_gas memorySize;
  do size <- back64 2;
  if size >? MaxInitCodeSize then fail ErrMaxInitCodeSizeExceeded
  else
    let moreGas := wrap64 ((InitCodeWordGas + Keccak256WordGas) * ((size + 31) / 32)) in
    safe_add gas moreGas.

Definition gasExpFrontier (memorySize : Z) : M Z :=
  do exponent <- Back 1;
  let expByteLen := (BitLen exponent + 7) / 8 in
  let gas := wrap64 (expByteLen * ExpByteFrontier) in
  safe_add gas ExpGas.

Definition gasExpEIP158 (memorySize : Z) : M Z :=
  do exponent <- Back 1;
  let expByteLen := (BitLen exponent + 7) / 8 in
  let gas := wrap64 (expByteLen * ExpByteEIP158) in
  safe_add gas ExpGas.

(** The end of the gas functions of calls: the gas of the callee. *)
Definition with_call_gas (gas : Z) : M Z :=
  do c <- contract_of;
  do requested <- Back 0;
  do temp <- (match callGas (ChainConfig.Config.r_IsEIP150 rules) (Gas c) gas requested with
              | Ok g => do! modify_vm (λ e, set_callGasTemp e g); ret g
              | Err err => do! modify_vm (λ e, set_callGasTemp e 0); fail err
              end);
  safe_add gas temp.

Definition gasCall (memorySize : Z) : M Z :=
  do v <- Back 2;
  let transfersValue := negb (v =? 0) in
  do a <- Back 1;
  let address := Bytes20 a in
  do s <- state_of;
  let gas :=
    if ChainConfig.Config.r_IsEIP158 rules then
      if transfersValue && Empty s address then CallNewAccountGas else 0
    else if negb (Exist s address) then CallNewAccountGas else 0 in
  let gas := if transfersValue then gas + CallValueTransferGas else gas in
  do memoryGas <- memory_gas memorySize;
  do gas <- safe_add gas memoryGas;
  with_call_gas gas.

Definition gasCallCode (memorySize : Z) : M Z :=
  do memoryGas <- memory_gas memorySize;
  do v <- Back 2;
  let gas := if negb (v =? 0) then CallValueTransferGas else 0 in
  do gas <- safe_add gas memoryGas;
  with_call_gas gas.

Definition gasDelegateCall (memorySize : Z) : M Z :=
  do gas <- memory_gas memorySize; with_call_gas gas.

Definition gasStaticCall (memorySize : Z) : M Z :=
  do gas <- memory_gas memorySize; with_call_gas gas.

Definition gasSelfdestruct (memorySize : Z) : M Z :=
  do s <- state_of; do c <- contract_of;
  do gas <- (if ChainConfig.Config.r_IsEIP150 rules then
               do b <- Back 0;
               let address_ := Bytes20 b in
               ret (if ChainConfig.Config.r_IsEIP158 rules then
                      if Empty s address_ && negb (GetBalance s (address c) =? 0)
                      then SelfdestructGasEIP150 + CreateBySelfdestructGas else SelfdestructGasEIP150
                    else if negb (Exist s address_)
                    then SelfdestructGasEIP150 + CreateBySelfdestructGas else SelfdestructGasEIP150)
             else ret 0);
  do! when (negb (HasSelfDestructed s (address c))) (act (AAddRefund SelfdestructRefundGas));
  ret gas.

(** ** operations_acl.go *)

Definition gasSLoadEIP2929 (memorySize : Z) : M Z :=
  do slot <- peek; do s <- state_of; do a <- self;
  if negb (SlotInAccessList s a slot).2 then
    do! act (AAddSlot a slot); ret ColdSloadCostEIP2929
  else ret WarmStorageReadCostEIP2929.

Definition gasExtCodeCopyEIP2929 (memorySize : Z) : M Z :=
  do gas <- gasExtCodeCopy memorySize;
  do a <- peek;
  let addr := Bytes20 a in
  do s <- state_of;
  if negb (AddressInAccessList s addr) then
    do! act (AAddAddress addr);
    safe_add gas (ColdAccountAccessCostEIP2929 - WarmStorageReadCostEIP2929)
  else ret gas.

Definition gasEip2929AccountCheck (memorySize : Z) : M Z :=
  do a <- peek;
  let addr := Bytes20 a in
  do s <- state_of;
  if negb (AddressInAccessList s addr) then
    do! act (AAddAddress addr); ret (ColdAccountAccessCostEIP2929 - WarmStorageReadCostEIP2929)
  else ret 0.

(** [contract.Gas += gas] *)
Definition give_back (gas : Z) : M unit := modify_con (λ c, set_Gas c (wrap64 (Gas c + gas))).

(** [if !contract.UseGas(gas) { return 0, ErrOutOfGas }] *)
Definition must_use (gas : Z) : M unit :=
  do ok <- use_gas gas; if negb ok then fail ErrOutOfGas else ret tt.

Definition makeCallVariantGasCallEIP2929 (oldCalculator : Z → M Z) (addressPosition : nat) (memorySize : Z) : M Z :=
  do a <- Back addressPosition;
  let addr := Bytes20 a in
  do s <- state_of;
  let warmAccess := AddressInAccessList s addr in
  let coldCost := ColdAccountAccessCostEIP2929 - WarmStorageReadCostEIP2929 in
  do! when (negb warmAccess) (do! act (AAddAddress addr); must_use coldCost);
  do gas <- oldCalculator memorySize;
  if warmAccess then ret gas
  else
    do! give_back coldCost;
    safe_add gas coldCost.

(** The cold access of an account by its code: its cost, if any, is charged. *)
Definition makeCallVariantGasCallEIP7702 (oldCalculator : Z → M Z) (memorySize : Z) : M Z :=
  do a <- Back 1;
  let addr := Bytes20 a in
  do s <- state_of;
  do total <-
    (if negb (AddressInAccessList s addr) then
       do! act (AAddAddress addr);
       let coldCost := ColdAccountAccessCostEIP2929 - WarmStorageReadCostEIP2929 in
       do! must_use coldCost;
       ret coldCost
     else ret 0);
  do s <- state_of;
  do total <-
    (match StateTransition.ParseDelegation (GetCode s addr) with
     | Some target =>
         do cost <-
           (if AddressInAccessList s target then ret WarmStorageReadCostEIP2929
            else do! act (AAddAddress target); ret ColdAccountAccessCostEIP2929);
         do! must_use cost;
         ret (total + cost)
     | None => ret total
     end);
  do old <- oldCalculator memorySize;
  do! give_back total;
  safe_add old total.

Definition makeSelfdestructGasFn (refundsEnabled : bool) (memorySize : Z) : M Z :=
  do b <- peek;
  let address_ := Bytes20 b in
  do s <- state_of; do c <- contract_of;
  let present := AddressInAccessList s address_ in
  do! when (negb present) (act (AAddAddress address_));
  let gas := if negb present then ColdAccountAccessCostEIP2929 else 0 in
  do s <- state_of;
  let gas := if Empty s address_ && negb (GetBalance s (address c) =? 0) then gas + CreateBySelfdestructGas else gas in
  do! when (refundsEnabled && negb (HasSelfDestructed s (address c))) (act (AAddRefund SelfdestructRefundGas));
  ret gas.

Definition dynamicGas_fn (fn : GasFn.t) : Z → M Z :=
  match fn with
  | GasFn.gasCallDataCopy => gasCallDataCopy
  | GasFn.gasCodeCopy => gasCodeCopy
  | GasFn.gasMcopy => gasMcopy
  | GasFn.gasExtCodeCopy => gasExtCodeCopy
  | GasFn.gasReturnDataCopy => gasReturnDataCopy
  | GasFn.gasSStore => gasSStore
  | GasFn.gasSStoreEIP2200 => gasSStoreEIP2200
  | GasFn.gasSStoreEIP2929 => gasSStoreEIP2929
  | GasFn.gasSStoreEIP3529 => gasSStoreEIP3529
  | GasFn.makeGasLog n => makeGasLog (Z.of_nat n)
  | GasFn.gasKeccak256 => gasKeccak256
  | GasFn.gasReturn | GasFn.gasRevert | GasFn.gasMLoad | GasFn.gasMStore8 | GasFn.gasMStore
  | GasFn.gasCreate => pureMemoryGascost
  | GasFn.gasCreate2 => gasCreate2
  | GasFn.gasCreateEip3860 => gasCreateEip3860
  | GasFn.gasCreate2Eip3860 => gasCreate2Eip3860
  | GasFn.gasExpFrontier => gasExpFrontier
  | GasFn.gasExpEIP158 => gasExpEIP158
  | GasFn.gasCall => gasCall
  | GasFn.gasCallCode => gasCallCode
  | GasFn.gasDelegateCall => gasDelegateCall
  | GasFn.gasStaticCall => gasStaticCall
  | GasFn.gasSelfdestruct => gasSelfdestruct
  | GasFn.gasSLoadEIP2929 => gasSLoadEIP2929
  | GasFn.gasExtCodeCopyEIP2929 => gasExtCodeCopyEIP2929
  | GasFn.gasEip2929AccountCheck => gasEip2929AccountCheck
  | GasFn.gasCallEIP2929 => makeCallVariantGasCallEIP2929 gasCall 1
  | GasFn.gasCallCodeEIP2929 => makeCallVariantGasCallEIP2929 gasCallCode 1
  | GasFn.gasDelegateCallEIP2929 => makeCallVariantGasCallEIP2929 gasDelegateCall 1
  | GasFn.gasStaticCallEIP2929 => makeCallVariantGasCallEIP2929 gasStaticCall 1
  | GasFn.gasSelfdestructEIP2929 => makeSelfdestructGasFn true
  | GasFn.gasSelfdestructEIP3529 => makeSelfdestructGasFn false
  | GasFn.gasCallEIP7702 => makeCallVariantGasCallEIP7702 gasCall
  | GasFn.gasCallCodeEIP7702 => makeCallVariantGasCallEIP7702 gasCallCode
  | GasFn.gasDelegateCallEIP7702 => makeCallVariantGasCallEIP7702 gasDelegateCall
  | GasFn.gasStaticCallEIP7702 => makeCallVariantGasCallEIP7702 gasStaticCall
  end.
End Gas.
