(* ===== verification/EvmTable.v ===== *)
(** * The instruction sets

    parallelizable-client-go-ethereum/core/vm: opcodes.go, stack_table.go,
    jump_table.go and the activations of eips.go, from Frontier to Prague.  An
    operation is the names of its functions, its constant gas and the bounds of the
    stack.  A table is a map over the 256 opcodes; the sets of the verkle fork and
    of the EVM object format are left out.  The last part is a check of a whole
    table, by computation. *)

From S2P Require Import Prelude EvmBase EvmOps EvmGas.
From S2P Require ChainConfig.

Module OpCode.
Definition STOP : Z := 0x00.
Definition ADD : Z := 0x01.
Definition MUL : Z := 0x02.
Definition SUB : Z := 0x03.
Definition DIV : Z := 0x04.
Definition SDIV : Z := 0x05.
Definition MOD : Z := 0x06.
Definition SMOD : Z := 0x07.
Definition ADDMOD : Z := 0x08.
Definition MULMOD : Z := 0x09.
Definition EXP : Z := 0x0a.
Definition SIGNEXTEND : Z := 0x0b.
Definition LT : Z := 0x10.
Definition GT : Z := 0x11.
Definition SLT : Z := 0x12.
Definition SGT : Z := 0x13.
Definition EQ : Z := 0x14.
Definition ISZERO : Z := 0x15.
Definition AND : Z := 0x16.
Definition OR : Z := 0x17.
Definition XOR : Z := 0x18.
Definition NOT : Z := 0x19.
Definition BYTE : Z := 0x1a.
Definition SHL : Z := 0x1b.
Definition SHR : Z := 0x1c.
Definition SAR : Z := 0x1d.
Definition KECCAK256 : Z := 0x20.
Definition ADDRESS : Z := 0x30.
Definition BALANCE : Z := 0x31.
Definition ORIGIN : Z := 0x32.
Definition CALLER : Z := 0x33.
Definition CALLVALUE : Z := 0x34.
Definition CALLDATALOAD : Z := 0x35.
Definition CALLDATASIZE : Z := 0x36.
Definition CALLDATACOPY : Z := 0x37.
Definition CODESIZE : Z := 0x38.
Definition CODECOPY : Z := 0x39.
Definition GASPRICE : Z := 0x3a.
Definition EXTCODESIZE : Z := 0x3b.
Definition EXTCODECOPY : Z := 0x3c.
Definition RETURNDATASIZE : Z := 0x3d.
Definition RETURNDATACOPY : Z := 0x3e.
Definition EXTCODEHASH : Z := 0x3f.
Definition BLOCKHASH : Z := 0x40.
Definition COINBASE : Z := 0x41.
Definition TIMESTAMP : Z := 0x42.
Definition NUMBER : Z := 0x43.
Definition DIFFICULTY : Z := 0x44.
Definition RANDOM : Z := 0x44.
Definition PREVRANDAO : Z := 0x44.
Definition GASLIMIT : Z := 0x45.
Definition CHAINID : Z := 0x46.
Definition SELFBALANCE : Z := 0x47.
Definition BASEFEE : Z := 0x48.
Definition BLOBHASH : Z := 0x49.
Definition BLOBBASEFEE : Z := 0x4a.
Definition POP : Z := 0x50.
Definition MLOAD : Z := 0x51.
Definition MSTORE : Z := 0x52.
Definition MSTORE8 : Z := 0x53.
Definition SLOAD : Z := 0x54.
Definition SSTORE : Z := 0x55.
Definition JUMP : Z := 0x56.
Definition JUMPI : Z := 0x57.
Definition PC : Z := 0x58.
Definition MSIZE : Z := 0x59.
Definition GAS : Z := 0x5a.
Definition JUMPDEST : Z := 0x5b.
Definition TLOAD : Z := 0x5c.
Definition TSTORE : Z := 0x5d.
Definition MCOPY : Z := 0x5e.
Definition PUSH0 : Z := 0x5f.
Definition PUSH1 : Z := 0x60.
Definition PUSH2 : Z := 0x61.
Definition PUSH3 : Z := 0x62.
Definition PUSH4 : Z := 0x63.
Definition PUSH5 : Z := 0x64.
Definition PUSH6 : Z := 0x65.
Definition PUSH7 : Z := 0x66.
Definition PUSH8 : Z := 0x67.
Definition PUSH9 : Z := 0x68.
Definition PUSH10 : Z := 0x69.
Definition PUSH11 : Z := 0x6a.
Definition PUSH12 : Z := 0x6b.
Definition PUSH13 : Z := 0x6c.
Definition PUSH14 : Z := 0x6d.
Definition PUSH15 : Z := 0x6e.
Definition PUSH16 : Z := 0x6f.
Definition PUSH17 : Z := 0x70.
Definition PUSH18 : Z := 0x71.
Definition PUSH19 : Z := 0x72.
Definition PUSH20 : Z := 0x73.
Definition PUSH21 : Z := 0x74.
Definition PUSH22 : Z := 0x75.
Definition PUSH23 : Z := 0x76.
Definition PUSH24 : Z := 0x77.
Definition PUSH25 : Z := 0x78.
Definition PUSH26 : Z := 0x79.
Definition PUSH27 : Z := 0x7a.
Definition PUSH28 : Z := 0x7b.
Definition PUSH29 : Z := 0x7c.
Definition PUSH30 : Z := 0x7d.
Definition PUSH31 : Z := 0x7e.
Definition PUSH32 : Z := 0x7f.
Definition DUP1 : Z := 0x80.
Definition DUP2 : Z := 0x81.
Definition DUP3 : Z := 0x82.
Definition DUP4 : Z := 0x83.
Definition DUP5 : Z := 0x84.
Definition DUP6 : Z := 0x85.
Definition DUP7 : Z := 0x86.
Definition DUP8 : Z := 0x87.
Definition DUP9 : Z := 0x88.
Definition DUP10 : Z := 0x89.
Definition DUP11 : Z := 0x8a.
Definition DUP12 : Z := 0x8b.
Definition DUP13 : Z := 0x8c.
Definition DUP14 : Z := 0x8d.
Definition DUP15 : Z := 0x8e.
Definition DUP16 : Z := 0x8f.
Definition SWAP1 : Z := 0x90.
Definition SWAP2 : Z := 0x91.
Definition SWAP3 : Z := 0x92.
Definition SWAP4 : Z := 0x93.
Definition SWAP5 : Z := 0x94.
Definition SWAP6 : Z := 0x95.
Definition SWAP7 : Z := 0x96.
Definition SWAP8 : Z := 0x97.
Definition SWAP9 : Z := 0x98.
Definition SWAP10 : Z := 0x99.
Definition SWAP11 : Z := 0x9a.
Definition SWAP12 : Z := 0x9b.
Definition SWAP13 : Z := 0x9c.
Definition SWAP14 : Z := 0x9d.
Definition SWAP15 : Z := 0x9e.
Definition SWAP16 : Z := 0x9f.
Definition LOG0 : Z := 0xa0.
Definition LOG1 : Z := 0xa1.
Definition LOG2 : Z := 0xa2.
Definition LOG3 : Z := 0xa3.
Definition LOG4 : Z := 0xa4.
Definition CREATE : Z := 0xf0.
Definition CALL : Z := 0xf1.
Definition CALLCODE : Z := 0xf2.
Definition RETURN : Z := 0xf3.
Definition DELEGATECALL : Z := 0xf4.
Definition CREATE2 : Z := 0xf5.
Definition STATICCALL : Z := 0xfa.
Definition REVERT : Z := 0xfd.
Definition INVALID : Z := 0xfe.
Definition SELFDESTRUCT : Z := 0xff.
End OpCode.

(** params/protocol_params.go *)
Definition StackLimit : Z := 1024.
Definition Keccak256Gas : Z := 30.
Definition JumpdestGas : Z := 1.
Definition CreateGas : Z := 32000.
Definition Create2Gas : Z := 32000.
Definition CallGasFrontier : Z := 40.
Definition CallGasEIP150 : Z := 700.
Definition BalanceGasFrontier : Z := 20.
Definition BalanceGasEIP150 : Z := 400.
Definition BalanceGasEIP1884 : Z := 700.
Definition ExtcodeSizeGasFrontier : Z := 20.
Definition ExtcodeSizeGasEIP150 : Z := 700.
Definition SloadGasFrontier : Z := 50.
Definition SloadGasEIP150 : Z := 200.
Definition SloadGasEIP1884 : Z := 800.
Definition ExtcodeHashGasConstantinople : Z := 400.
Definition ExtcodeHashGasEIP1884 : Z := 700.
Definition ExtcodeCopyBaseFrontier : Z := 20.
Definition ExtcodeCopyBaseEIP150 : Z := 700.

(** ** Bounds of the stack (stack_table.go) *)

Definition maxStack (pop push : Z) : Z := StackLimit + pop - push.
Definition minStack (pops push : Z) : Z := pops.
Definition minSwapStack (n : Z) : Z := minStack n n.
Definition maxSwapStack (n : Z) : Z := maxStack n n.
Definition minDupStack (n : Z) : Z := minStack n (n + 1).
Definition maxDupStack (n : Z) : Z := maxStack n (n + 1).

(** ** Operations *)

Record operation : Type := MkOperation {
  op_execute : Exec.t;
  constantGas : Z;
  dynamicGas : option GasFn.t;
  op_minStack : Z;
  op_maxStack : Z;
  memorySize : option MemFn.t
}.

Definition JumpTable : Type := gmap Z operation.

Definition set_constantGas (g : Z) (o : operation) : operation :=
  MkOperation (op_execute o) g (dynamicGas o) (op_minStack o) (op_maxStack o) (memorySize o).
Definition set_dynamicGas (g : GasFn.t) (o : operation) : operation :=
  MkOperation (op_execute o) (constantGas o) (Some g) (op_minStack o) (op_maxStack o) (memorySize o).

(** [jt[op].constantGas = g], [jt[op].dynamicGas = g], [jt[op] = o] *)
Definition gas_at (op g : Z) (jt : JumpTable) : JumpTable := alter (set_constantGas g) op jt.
Definition dynamic_at (op : Z) (g : GasFn.t) (jt : JumpTable) : JumpTable := alter (set_dynamicGas g) op jt.
Definition put_op (op : Z) (o : operation) (jt : JumpTable) : JumpTable := <[op := o]> jt.

(** An operation with constant gas only. *)
Definition simple_op (fn : Exec.t) (gas pops pushes : Z) : operation :=
  MkOperation fn gas None (minStack pops pushes) (maxStack pops pushes) None.

(** [in.table[op]]; every opcode has an entry. *)
Definition undefined_op : operation := MkOperation Exec.opUndefined 0 None 0 (maxStack 0 0) None.
Definition table_at (jt : JumpTable) (op : Z) : operation := default undefined_op (jt !! op).

(** [validate]: the panics it has are [false]. *)
Definition all_opcodes : list Z := seqZ 0 256.
Definition validate (jt : JumpTable) : bool :=
  forallb (λ i, match jt !! i with
                | Some o => negb (bool_decide (is_Some (memorySize o)) && bool_decide (dynamicGas o = None))
                | None => false
                end) all_opcodes.

(** ** Frontier to Constantinople (jump_table.go) *)

(** Arithmetic, comparison and bits. *)
Definition ops_arithmetic : list (Z * operation) :=
  [(OpCode.STOP, MkOperation Exec.opStop 0 None (minStack 0 0) (maxStack 0 0) None);
   (OpCode.ADD, MkOperation Exec.opAdd GasFastestStep None (minStack 2 1) (maxStack 2 1) None);
   (OpCode.MUL, MkOperation Exec.opMul GasFastStep None (minStack 2 1) (maxStack 2 1) None);
   (OpCode.SUB, MkOperation Exec.opSub GasFastestStep None (minStack 2 1) (maxStack 2 1) None);
   (OpCode.DIV, MkOperation Exec.opDiv GasFastStep None (minStack 2 1) (maxStack 2 1) None);
   (OpCode.SDIV, MkOperation Exec.opSdiv GasFastStep None (minStack 2 1) (maxStack 2 1) None);
   (OpCode.MOD, MkOperation Exec.opMod GasFastStep None (minStack 2 1) (maxStack 2 1) None);
   (OpCode.SMOD, MkOperation Exec.opSmod GasFastStep None (minStack 2 1) (maxStack 2 1) None);
   (OpCode.ADDMOD, MkOperation Exec.opAddmod GasMidStep None (minStack 3 1) (maxStack 3 1) None);
   (OpCode.MULMOD, MkOperation Exec.opMulmod GasMidStep None (minStack 3 1) (maxStack 3 1) None);
   (OpCode.EXP, MkOperation Exec.opExp 0 (Some GasFn.gasExpFrontier) (minStack 2 1) (maxStack 2 1) None);
   (OpCode.SIGNEXTEND, MkOperation Exec.opSignExtend GasFastStep None (minStack 2 1) (maxStack 2 1) None);
   (OpCode.LT, MkOperation Exec.opLt GasFastestStep None (minStack 2 1) (maxStack 2 1) None);
   (OpCode.GT, MkOperation Exec.opGt GasFastestStep None (minStack 2 1) (maxStack 2 1) None);
   (OpCode.SLT, MkOperation Exec.opSlt GasFastestStep None (minStack 2 1) (maxStack 2 1) None);
   (OpCode.SGT, MkOperation Exec.opSgt GasFastestStep None (minStack 2 1) (maxStack 2 1) None);
   (OpCode.EQ, MkOperation Exec.opEq GasFastestStep None (minStack 2 1) (maxStack 2 1) None);
   (OpCode.ISZERO, MkOperation Exec.opIszero GasFastestStep None (minStack 1 1) (maxStack 1 1) None);
   (OpCode.AND, MkOperation Exec.opAnd GasFastestStep None (minStack 2 1) (maxStack 2 1) None);
   (OpCode.XOR, MkOperation Exec.opXor GasFastestStep None (minStack 2 1) (maxStack 2 1) None);
   (OpCode.OR, MkOperation Exec.opOr GasFastestStep None (minStack 2 1) (maxStack 2 1) None);
   (OpCode.NOT, MkOperation Exec.opNot GasFastestStep None (minStack 1 1) (maxStack 1 1) None);
   (OpCode.BYTE, MkOperation Exec.opByte GasFastestStep None (minStack 2 1) (maxStack 2 1) None)].

(** The hash, the contract and the block. *)
Definition ops_environment : list (Z * operation) :=
  [(OpCode.KECCAK256, MkOperation Exec.opKeccak256 Keccak256Gas (Some GasFn.gasKeccak256) (minStack 2 1) (maxStack 2 1) (Some MemFn.memoryKeccak256));
   (OpCode.ADDRESS, MkOperation Exec.opAddress GasQuickStep None (minStack 0 1) (maxStack 0 1) None);
   (OpCode.BALANCE, MkOperation Exec.opBalance BalanceGasFrontier None (minStack 1 1) (maxStack 1 1) None);
   (OpCode.ORIGIN, MkOperation Exec.opOrigin GasQuickStep None (minStack 0 1) (maxStack 0 1) None);
   (OpCode.CALLER, MkOperation Exec.opCaller GasQuickStep None (minStack 0 1) (maxStack 0 1) None);
   (OpCode.CALLVALUE, MkOperation Exec.opCallValue GasQuickStep None (minStack 0 1) (maxStack 0 1) None);
   (OpCode.CALLDATALOAD, MkOperation Exec.opCallDataLoad GasFastestStep None (minStack 1 1) (maxStack 1 1) None);
   (OpCode.CALLDATASIZE, MkOperation Exec.opCallDataSize GasQuickStep None (minStack 0 1) (maxStack 0 1) None);
   (OpCode.CALLDATACOPY, MkOperation Exec.opCallDataCopy GasFastestStep (Some GasFn.gasCallDataCopy) (minStack 3 0) (maxStack 3 0) (Some MemFn.memoryCallDataCopy));
   (OpCode.CODESIZE, MkOperation Exec.opCodeSize GasQuickStep None (minStack 0 1) (maxStack 0 1) None);
   (OpCode.CODECOPY, MkOperation Exec.opCodeCopy GasFastestStep (Some GasFn.gasCodeCopy) (minStack 3 0) (maxStack 3 0) (Some MemFn.memoryCodeCopy));
   (OpCode.GASPRICE, MkOperation Exec.opGasprice GasQuickStep None (minStack 0 1) (maxStack 0 1) None);
   (OpCode.EXTCODESIZE, MkOperation Exec.opExtCodeSize ExtcodeSizeGasFrontier None (minStack 1 1) (maxStack 1 1) None);
   (OpCode.EXTCODECOPY, MkOperation Exec.opExtCodeCopy ExtcodeCopyBaseFrontier (Some GasFn.gasExtCodeCopy) (minStack 4 0) (maxStack 4 0) (Some MemFn.memoryExtCodeCopy));
   (OpCode.BLOCKHASH, MkOperation Exec.opBlockhash GasExtStep None (minStack 1 1) (maxStack 1 1) None);
   (OpCode.COINBASE, MkOperation Exec.opCoinbase GasQuickStep None (minStack 0 1) (maxStack 0 1) None);
   (OpCode.TIMESTAMP, MkOperation Exec.opTimestamp GasQuickStep None (minStack 0 1) (maxStack 0 1) None);
   (OpCode.NUMBER, MkOperation Exec.opNumber GasQuickStep None (minStack 0 1) (maxStack 0 1) None);
   (OpCode.DIFFICULTY, MkOperation Exec.opDifficulty GasQuickStep None (minStack 0 1) (maxStack 0 1) None);
   (OpCode.GASLIMIT, MkOperation Exec.opGasLimit GasQuickStep None (minStack 0 1) (maxStack 0 1) None)].

(** The stack, the memory, the storage and the jumps. *)
Definition ops_flow : list (Z * operation) :=
  [(OpCode.POP, MkOperation Exec.opPop GasQuickStep None (minStack 1 0) (maxStack 1 0) None);
   (OpCode.MLOAD, MkOperation Exec.opMload GasFastestStep (Some GasFn.gasMLoad) (minStack 1 1) (maxStack 1 1) (Some MemFn.memoryMLoad));
   (OpCode.MSTORE, MkOperation Exec.opMstore GasFastestStep (Some GasFn.gasMStore) (minStack 2 0) (maxStack 2 0) (Some MemFn.memoryMStore));
   (OpCode.MSTORE8, MkOperation Exec.opMstore8 GasFastestStep (Some GasFn.gasMStore8) (minStack 2 0) (maxStack 2 0) (Some MemFn.memoryMStore8));
   (OpCode.SLOAD, MkOperation Exec.opSload SloadGasFrontier None (minStack 1 1) (maxStack 1 1) None);
   (OpCode.SSTORE, MkOperation Exec.opSstore 0 (Some GasFn.gasSStore) (minStack 2 0) (maxStack 2 0) None);
   (OpCode.JUMP, MkOperation Exec.opJump GasMidStep None (minStack 1 0) (maxStack 1 0) None);
   (OpCode.JUMPI, MkOperation Exec.opJumpi GasSlowStep None (minStack 2 0) (maxStack 2 0) None);
   (OpCode.PC, MkOperation Exec.opPc GasQuickStep None (minStack 0 1) (maxStack 0 1) None);
   (OpCode.MSIZE, MkOperation Exec.opMsize GasQuickStep None (minStack 0 1) (maxStack 0 1) None);
   (OpCode.GAS, MkOperation Exec.opGas GasQuickStep None (minStack 0 1) (maxStack 0 1) None);
   (OpCode.JUMPDEST, MkOperation Exec.opJumpdest JumpdestGas None (minStack 0 0) (maxStack 0 0) None)].

(** The pushes. *)
Definition ops_push : list (Z * operation) :=
  [(OpCode.PUSH1, MkOperation Exec.opPush1 GasFastestStep None (minStack 0 1) (maxStack 0 1) None);
   (OpCode.PUSH2, MkOperation (Exec.makePush 2 2) GasFastestStep None (minStack 0 1) (maxStack 0 1) None);
   (OpCode.PUSH3, MkOperation (Exec.makePush 3 3) GasFastestStep None (minStack 0 1) (maxStack 0 1) None);
   (OpCode.PUSH4, MkOperation (Exec.makePush 4 4) GasFastestStep None (minStack 0 1) (maxStack 0 1) None);
   (OpCode.PUSH5, MkOperation (Exec.makePush 5 5) GasFastestStep None (minStack 0 1) (maxStack 0 1) None);
   (OpCode.PUSH6, MkOperation (Exec.makePush 6 6) GasFastestStep None (minStack 0 1) (maxStack 0 1) None);
   (OpCode.PUSH7, MkOperation (Exec.makePush 7 7) GasFastestStep None (minStack 0 1) (maxStack 0 1) None);
   (OpCode.PUSH8, MkOperation (Exec.makePush 8 8) GasFastestStep None (minStack 0 1) (maxStack 0 1) None);
   (OpCode.PUSH9, MkOperation (Exec.makePush 9 9) GasFastestStep None (minStack 0 1) (maxStack 0 1) None);
   (OpCode.PUSH10, MkOperation (Exec.makePush 10 10) GasFastestStep None (minStack 0 1) (maxStack 0 1) None);
   (OpCode.PUSH11, MkOperation (Exec.makePush 11 11) GasFastestStep None (minStack 0 1) (maxStack 0 1) None);
   (OpCode.PUSH12, MkOperation (Exec.makePush 12 12) GasFastestStep None (minStack 0 1) (maxStack 0 1) None);
   (OpCode.PUSH13, MkOperation (Exec.makePush 13 13) GasFastestStep None (minStack 0 1) (maxStack 0 1) None);
   (OpCode.PUSH14, MkOperation (Exec.makePush 14 14) GasFastestStep None (minStack 0 1) (maxStack 0 1) None);
   (OpCode.PUSH15, MkOperation (Exec.makePush 15 15) GasFastestStep None (minStack 0 1) (maxStack 0 1) None);
   (OpCode.PUSH16, MkOperation (Exec.makePush 16 16) GasFastestStep None (minStack 0 1) (maxStack 0 1) None)].

Definition ops_push_wide : list (Z * operation) :=
  [(OpCode.PUSH17, MkOperation (Exec.makePush 17 17) GasFastestStep None (minStack 0 1) (maxStack 0 1) None);
   (OpCode.PUSH18, MkOperation (Exec.makePush 18 18) GasFastestStep None (minStack 0 1) (maxStack 0 1) None);
   (OpCode.PUSH19, MkOperation (Exec.makePush 19 19) GasFastestStep None (minStack 0 1) (maxStack 0 1) None);
   (OpCode.PUSH20, MkOperation (Exec.makePush 20 20) GasFastestStep None (minStack 0 1) (maxStack 0 1) None);
   (OpCode.PUSH21, MkOperation (Exec.makePush 21 21) GasFastestStep None (minStack 0 1) (maxStack 0 1) None);
   (OpCode.PUSH22, MkOperation (Exec.makePush 22 22) GasFastestStep None (minStack 0 1) (maxStack 0 1) None);
   (OpCode.PUSH23, MkOperation (Exec.makePush 23 23) GasFastestStep None (minStack 0 1) (maxStack 0 1) None);
   (OpCode.PUSH24, MkOperation (Exec.makePush 24 24) GasFastestStep None (minStack 0 1) (maxStack 0 1) None);
   (OpCode.PUSH25, MkOperation (Exec.makePush 25 25) GasFastestStep None (minStack 0 1) (maxStack 0 1) None);
   (OpCode.PUSH26, MkOperation (Exec.makePush 26 26) GasFastestStep None (minStack 0 1) (maxStack 0 1) None);
   (OpCode.PUSH27, MkOperation (Exec.makePush 27 27) GasFastestStep None (minStack 0 1) (maxStack 0 1) None);
   (OpCode.PUSH28, MkOperation (Exec.makePush 28 28) GasFastestStep None (minStack 0 1) (maxStack 0 1) None);
   (OpCode.PUSH29, MkOperation (Exec.makePush 29 29) GasFastestStep None (minStack 0 1) (maxStack 0 1) None);
   (OpCode.PUSH30, MkOperation (Exec.makePush 30 30) GasFastestStep None (minStack 0 1) (maxStack 0 1) None);
   (OpCode.PUSH31, MkOperation (Exec.makePush 31 31) GasFastestStep None (minStack 0 1) (maxStack 0 1) None);
   (OpCode.PUSH32, MkOperation (Exec.makePush 32 32) GasFastestStep None (minStack 0 1) (maxStack 0 1) None)].

Definition ops_dup : list (Z * operation) :=
  [(OpCode.DUP1, MkOperation (Exec.makeDup 1) GasFastestStep None (minDupStack 1) (maxDupStack 1) None);
   (OpCode.DUP2, MkOperation (Exec.makeDup 2) GasFastestStep None (minDupStack 2) (maxDupStack 2) None);
   (OpCode.DUP3, MkOperation (Exec.makeDup 3) GasFastestStep None (minDupStack 3) (maxDupStack 3) None);
   (OpCode.DUP4, MkOperation (Exec.makeDup 4) GasFastestStep None (minDupStack 4) (maxDupStack 4) None);
   (OpCode.DUP5, MkOperation (Exec.makeDup 5) GasFastestStep None (minDupStack 5) (maxDupStack 5) None);
   (OpCode.DUP6, MkOperation (Exec.makeDup 6) GasFastestStep None (minDupStack 6) (maxDupStack 6) None);
   (OpCode.DUP7, MkOperation (Exec.makeDup 7) GasFastestStep None (minDupStack 7) (maxDupStack 7) None);
   (OpCode.DUP8, MkOperation (Exec.makeDup 8) GasFastestStep None (minDupStack 8) (maxDupStack 8) None);
   (OpCode.DUP9, MkOperation (Exec.makeDup 9) GasFastestStep None (minDupStack 9) (maxDupStack 9) None);
   (OpCode.DUP10, MkOperation (Exec.makeDup 10) GasFastestStep None (minDupStack 10) (maxDupStack 10) None);
   (OpCode.DUP11, MkOperation (Exec.makeDup 11) GasFastestStep None (minDupStack 11) (maxDupStack 11) None);
   (OpCode.DUP12, MkOperation (Exec.makeDup 12) GasFastestStep None (minDupStack 12) (maxDupStack 12) None);
   (OpCode.DUP13, MkOperation (Exec.makeDup 13) GasFastestStep None (minDupStack 13) (maxDupStack 13) None);
   (OpCode.DUP14, MkOperation (Exec.makeDup 14) GasFastestStep None (minDupStack 14) (maxDupStack 14) None);
   (OpCode.DUP15, MkOperation (Exec.makeDup 15) GasFastestStep None (minDupStack 15) (maxDupStack 15) None);
   (OpCode.DUP16, MkOperation (Exec.makeDup 16) GasFastestStep None (minDupStack 16) (maxDupStack 16) None)].

Definition ops_swap : list (Z * operation) :=
  [(OpCode.SWAP1, MkOperation (Exec.opSwap 1) GasFastestStep None (minSwapStack 2) (maxSwapStack 2) None);
   (OpCode.SWAP2, MkOperation (Exec.opSwap 2) GasFastestStep None (minSwapStack 3) (maxSwapStack 3) None);
   (OpCode.SWAP3, MkOperation (Exec.opSwap 3) GasFastestStep None (minSwapStack 4) (maxSwapStack 4) None);
   (OpCode.SWAP4, MkOperation (Exec.opSwap 4) GasFastestStep None (minSwapStack 5) (maxSwapStack 5) None);
   (OpCode.SWAP5, MkOperation (Exec.opSwap 5) GasFastestStep None (minSwapStack 6) (maxSwapStack 6) None);
   (OpCode.SWAP6, MkOperation (Exec.opSwap 6) GasFastestStep None (minSwapStack 7) (maxSwapStack 7) None);
   (OpCode.SWAP7, MkOperation (Exec.opSwap 7) GasFastestStep None (minSwapStack 8) (maxSwapStack 8) None);
   (OpCode.SWAP8, MkOperation (Exec.opSwap 8) GasFastestStep None (minSwapStack 9) (maxSwapStack 9) None);
   (OpCode.SWAP9, MkOperation (Exec.opSwap 9) GasFastestStep None (minSwapStack 10) (maxSwapStack 10) None);
   (OpCode.SWAP10, MkOperation (Exec.opSwap 10) GasFastestStep None (minSwapStack 11) (maxSwapStack 11) None);
   (OpCode.SWAP11, MkOperation (Exec.opSwap 11) GasFastestStep None (minSwapStack 12) (maxSwapStack 12) None);
   (OpCode.SWAP12, MkOperation (Exec.opSwap 12) GasFastestStep None (minSwapStack 13) (maxSwapStack 13) None);
   (OpCode.SWAP13, MkOperation (Exec.opSwap 13) GasFastestStep None (minSwapStack 14) (maxSwapStack 14) None);
   (OpCode.SWAP14, MkOperation (Exec.opSwap 14) GasFastestStep None (minSwapStack 15) (maxSwapStack 15) None);
   (OpCode.SWAP15, MkOperation (Exec.opSwap 15) GasFastestStep None (minSwapStack 16) (maxSwapStack 16) None);
   (OpCode.SWAP16, MkOperation (Exec.opSwap 16) GasFastestStep None (minSwapStack 17) (maxSwapStack 17) None)].

(** Logs, calls and halts. *)
Definition ops_system : list (Z * operation) :=
  [(OpCode.LOG0, MkOperation (Exec.makeLog 0) 0 (Some (GasFn.makeGasLog 0)) (minStack 2 0) (maxStack 2 0) (Some MemFn.memoryLog));
   (OpCode.LOG1, MkOperation (Exec.makeLog 1) 0 (Some (GasFn.makeGasLog 1)) (minStack 3 0) (maxStack 3 0) (Some MemFn.memoryLog));
   (OpCode.LOG2, MkOperation (Exec.makeLog 2) 0 (Some (GasFn.makeGasLog 2)) (minStack 4 0) (maxStack 4 0) (Some MemFn.memoryLog));
   (OpCode.LOG3, MkOperation (Exec.makeLog 3) 0 (Some (GasFn.makeGasLog 3)) (minStack 5 0) (maxStack 5 0) (Some MemFn.memoryLog));
   (OpCode.LOG4, MkOperation (Exec.makeLog 4) 0 (Some (GasFn.makeGasLog 4)) (minStack 6 0) (maxStack 6 0) (Some MemFn.memoryLog));
   (OpCode.CREATE, MkOperation Exec.opCreate CreateGas (Some GasFn.gasCreate) (minStack 3 1) (maxStack 3 1) (Some MemFn.memoryCreate));
   (OpCode.CALL, MkOperation Exec.opCall CallGasFrontier (Some GasFn.gasCall) (minStack 7 1) (maxStack 7 1) (Some MemFn.memoryCall));
   (OpCode.CALLCODE, MkOperation Exec.opCallCode CallGasFrontier (Some GasFn.gasCallCode) (minStack 7 1) (maxStack 7 1) (Some MemFn.memoryCall));
   (OpCode.RETURN, MkOperation Exec.opReturn 0 (Some GasFn.gasReturn) (minStack 2 0) (maxStack 2 0) (Some MemFn.memoryReturn));
   (OpCode.SELFDESTRUCT, MkOperation Exec.opSelfdestruct 0 (Some GasFn.gasSelfdestruct) (minStack 1 0) (maxStack 1 0) None);
   (OpCode.INVALID, MkOperation Exec.opUndefined 0 None (minStack 0 0) (maxStack 0 0) None)].

Definition frontier_ops : list (Z * operation) :=
  ops_arithmetic ++ ops_environment ++ ops_flow ++ ops_push ++ ops_push_wide ++ ops_dup ++ ops_swap ++ ops_system.

Definition newFrontierInstructionSet : JumpTable :=
  let tbl : JumpTable := list_to_map frontier_ops in
  fold_left (λ jt i, match jt !! i with None => put_op i undefined_op jt | Some _ => jt end) all_opcodes tbl.

Definition newHomesteadInstructionSet : JumpTable :=
  put_op OpCode.DELEGATECALL
    (MkOperation Exec.opDelegateCall CallGasFrontier (Some GasFn.gasDelegateCall) (minStack 6 1) (maxStack 6 1)
      (Some MemFn.memoryDelegateCall)) newFrontierInstructionSet.

Definition newTangerineWhistleInstructionSet : JumpTable :=
  let jt := newHomesteadInstructionSet in
  let jt := gas_at OpCode.BALANCE BalanceGasEIP150 jt in
  let jt := gas_at OpCode.EXTCODESIZE ExtcodeSizeGasEIP150 jt in
  let jt := gas_at OpCode.SLOAD SloadGasEIP150 jt in
  let jt := gas_at OpCode.EXTCODECOPY ExtcodeCopyBaseEIP150 jt in
  let jt := gas_at OpCode.CALL CallGasEIP150 jt in
  let jt := gas_at OpCode.CALLCODE CallGasEIP150 jt in
  gas_at OpCode.DELEGATECALL CallGasEIP150 jt.

Definition newSpuriousDragonInstructionSet : JumpTable :=
  dynamic_at OpCode.EXP GasFn.gasExpEIP158 newTangerineWhistleInstructionSet.

Definition newByzantiumInstructionSet : JumpTable :=
  let jt := newSpuriousDragonInstructionSet in
  let jt := put_op OpCode.STATICCALL
    (MkOperation Exec.opStaticCall CallGasEIP150 (Some GasFn.gasStaticCall) (minStack 6 1) (maxStack 6 1)
      (Some MemFn.memoryStaticCall)) jt in
  let jt := put_op OpCode.RETURNDATASIZE (simple_op Exec.opReturnDataSize GasQuickStep 0 1) jt in
  let jt := put_op OpCode.RETURNDATACOPY
    (MkOperation Exec.opReturnDataCopy GasFastestStep (Some GasFn.gasReturnDataCopy) (minStack 3 0) (maxStack 3 0)
      (Some MemFn.memoryReturnDataCopy)) jt in
  put_op OpCode.REVERT
    (MkOperation Exec.opRevert 0 (Some GasFn.gasRevert) (minStack 2 0) (maxStack 2 0) (Some MemFn.memoryRevert)) jt.

Definition newConstantinopleInstructionSet : JumpTable :=
  let jt := newByzantiumInstructionSet in
  let jt := put_op OpCode.SHL (simple_op Exec.opSHL GasFastestStep 2 1) jt in
  let jt := put_op OpCode.SHR (simple_op Exec.opSHR GasFastestStep 2 1) jt in
  let jt := put_op OpCode.SAR (simple_op Exec.opSAR GasFastestStep 2 1) jt in
  let jt := put_op OpCode.EXTCODEHASH (simple_op Exec.opExtCodeHash ExtcodeHashGasConstantinople 1 1) jt in
  put_op OpCode.CREATE2
    (MkOperation Exec.opCreate2 Create2Gas (Some GasFn.gasCreate2) (minStack 4 1) (maxStack 4 1)
      (Some MemFn.memoryCreate2)) jt.

(** ** The changes of eips.go *)

Definition enable1884 (jt : JumpTable) : JumpTable :=
  let jt := gas_at OpCode.SLOAD SloadGasEIP1884 jt in
  let jt := gas_at OpCode.BALANCE BalanceGasEIP1884 jt in
  let jt := gas_at OpCode.EXTCODEHASH ExtcodeHashGasEIP1884 jt in
  put_op OpCode.SELFBALANCE (simple_op Exec.opSelfBalance GasFastStep 0 1) jt.

Definition enable1344 (jt : JumpTable) : JumpTable :=
  put_op OpCode.CHAINID (simple_op Exec.opChainID GasQuickStep 0 1) jt.

Definition enable2200 (jt : JumpTable) : JumpTable :=
  dynamic_at OpCode.SSTORE GasFn.gasSStoreEIP2200 (gas_at OpCode.SLOAD SloadGasEIP2200 jt).

Definition enable2929 (jt : JumpTable) : JumpTable :=
  let jt := dynamic_at OpCode.SSTORE GasFn.gasSStoreEIP2929 jt in
  let jt := dynamic_at OpCode.SLOAD GasFn.gasSLoadEIP2929 (gas_at OpCode.SLOAD 0 jt) in
  let jt := dynamic_at OpCode.EXTCODECOPY GasFn.gasExtCodeCopyEIP2929
              (gas_at OpCode.EXTCODECOPY WarmStorageReadCostEIP2929 jt) in
  let jt := dynamic_at OpCode.EXTCODESIZE GasFn.gasEip2929AccountCheck
              (gas_at OpCode.EXTCODESIZE WarmStorageReadCostEIP2929 jt) in
  let jt := dynamic_at OpCode.EXTCODEHASH GasFn.gasEip2929AccountCheck
              (gas_at OpCode.EXTCODEHASH WarmStorageReadCostEIP2929 jt) in
  let jt := dynamic_at OpCode.BALANCE GasFn.gasEip2929AccountCheck
              (gas_at OpCode.BALANCE WarmStorageReadCostEIP2929 jt) in
  let jt := dynamic_at OpCode.CALL GasFn.gasCallEIP2929 (gas_at OpCode.CALL WarmStorageReadCostEIP2929 jt) in
  let jt := dynamic_at OpCode.CALLCODE GasFn.gasCallCodeEIP2929
              (gas_at OpCode.CALLCODE WarmStorageReadCostEIP2929 jt) in
  let jt := dynamic_at OpCode.STATICCALL GasFn.gasStaticCallEIP2929
              (gas_at OpCode.STATICCALL WarmStorageReadCostEIP2929 jt) in
  let jt := dynamic_at OpCode.DELEGATECALL GasFn.gasDelegateCallEIP2929
              (gas_at OpCode.DELEGATECALL WarmStorageReadCostEIP2929 jt) in
  dynamic_at OpCode.SELFDESTRUCT GasFn.gasSelfdestructEIP2929
    (gas_at OpCode.SELFDESTRUCT SelfdestructGasEIP150 jt).

Definition enable3529 (jt : JumpTable) : JumpTable :=
  dynamic_at OpCode.SELFDESTRUCT GasFn.gasSelfdestructEIP3529 (dynamic_at OpCode.SSTORE GasFn.gasSStoreEIP3529 jt).

Definition enable3198 (jt : JumpTable) : JumpTable :=
  put_op OpCode.BASEFEE (simple_op Exec.opBaseFee GasQuickStep 0 1) jt.

Definition enable1153 (jt : JumpTable) : JumpTable :=
  put_op OpCode.TSTORE (simple_op Exec.opTstore WarmStorageReadCostEIP2929 2 0)
    (put_op OpCode.TLOAD (simple_op Exec.opTload WarmStorageReadCostEIP2929 1 1) jt).

Definition enable3855 (jt : JumpTable) : JumpTable :=
  put_op OpCode.PUSH0 (simple_op Exec.opPush0 GasQuickStep 0 1) jt.

Definition enable3860 (jt : JumpTable) : JumpTable :=
  dynamic_at OpCode.CREATE2 GasFn.gasCreate2Eip3860 (dynamic_at OpCode.CREATE GasFn.gasCreateEip3860 jt).

Definition enable5656 (jt : JumpTable) : JumpTable :=
  put_op OpCode.MCOPY
    (MkOperation Exec.opMcopy GasFastestStep (Some GasFn.gasMcopy) (minStack 3 0) (maxStack 3 0)
      (Some MemFn.memoryMcopy)) jt.

Definition enable4844 (jt : JumpTable) : JumpTable :=
  put_op OpCode.BLOBHASH (simple_op Exec.opBlobHash GasFastestStep 1 1) jt.

Definition enable7516 (jt : JumpTable) : JumpTable :=
  put_op OpCode.BLOBBASEFEE (simple_op Exec.opBlobBaseFee GasQuickStep 0 1) jt.

Definition enable6780 (jt : JumpTable) : JumpTable :=
  put_op OpCode.SELFDESTRUCT
    (MkOperation Exec.opSelfdestruct6780 SelfdestructGasEIP150 (Some GasFn.gasSelfdestructEIP3529)
      (minStack 1 0) (maxStack 1 0) None) jt.

Definition enable7702 (jt : JumpTable) : JumpTable :=
  let jt := dynamic_at OpCode.CALL GasFn.gasCallEIP7702 jt in
  let jt := dynamic_at OpCode.CALLCODE GasFn.gasCallCodeEIP7702 jt in
  let jt := dynamic_at OpCode.STATICCALL GasFn.gasStaticCallEIP7702 jt in
  dynamic_at OpCode.DELEGATECALL GasFn.gasDelegateCallEIP7702 jt.

(** [EnableEIP]; EIP-4762 is not modelled. *)
Definition EnableEIP (eipNum : Z) (jt : JumpTable) : option JumpTable :=
  if eipNum =? 5656 then Some (enable5656 jt)
  else if eipNum =? 6780 then Some (enable6780 jt)
  else if eipNum =? 3855 then Some (enable3855 jt)
  else if eipNum =? 3860 then Some (enable3860 jt)
  else if eipNum =? 3529 then Some (enable3529 jt)
  else if eipNum =? 3198 then Some (enable3198 jt)
  else if eipNum =? 2929 then Some (enable2929 jt)
  else if eipNum =? 2200 then Some (enable2200 jt)
  else if eipNum =? 1884 then Some (enable1884 jt)
  else if eipNum =? 1344 then Some (enable1344 jt)
  else if eipNum =? 1153 then Some (enable1153 jt)
  else if eipNum =? 7702 then Some (enable7702 jt)
  else None.

(** ** Istanbul to Prague (jump_table.go) *)

Definition newIstanbulInstructionSet : JumpTable :=
  enable2200 (enable1884 (enable1344 newConstantinopleInstructionSet)).
Definition newBerlinInstructionSet : JumpTable := enable2929 newIstanbulInstructionSet.
Definition newLondonInstructionSet : JumpTable := enable3198 (enable3529 newBerlinInstructionSet).
Definition newMergeInstructionSet : JumpTable :=
  put_op OpCode.PREVRANDAO (simple_op Exec.opRandom GasQuickStep 0 1) newLondonInstructionSet.
Definition newShanghaiInstructionSet : JumpTable := enable3860 (enable3855 newMergeInstructionSet).
Definition newCancunInstructionSet : JumpTable :=
  enable6780 (enable5656 (enable1153 (enable7516 (enable4844 newShanghaiInstructionSet)))).
Definition newPragueInstructionSet : JumpTable := enable7702 newCancunInstructionSet.

(** The choice of [NewEVMInterpreter]; [None] is the verkle fork. *)
Definition instruction_set (rules : ChainConfig.Config.Rules) : option JumpTable :=
  if ChainConfig.Config.r_IsVerkle rules then None
  else Some
    (if ChainConfig.Config.r_IsPrague rules then newPragueInstructionSet
     else if ChainConfig.Config.r_IsCancun rules then newCancunInstructionSet
     else if ChainConfig.Config.r_IsShanghai rules then newShanghaiInstructionSet
     else if ChainConfig.Config.r_IsMerge rules then newMergeInstructionSet
     else if ChainConfig.Config.r_IsLondon rules then newLondonInstructionSet
     else if ChainConfig.Config.r_IsBerlin rules then newBerlinInstructionSet
     else if ChainConfig.Config.r_IsIstanbul rules then newIstanbulInstructionSet
     else if ChainConfig.Config.r_IsConstantinople rules then newConstantinopleInstructionSet
     else if ChainConfig.Config.r_IsByzantium rules then newByzantiumInstructionSet
     else if ChainConfig.Config.r_IsEIP158 rules then newSpuriousDragonInstructionSet
     else if ChainConfig.Config.r_IsEIP150 rules then newTangerineWhistleInstructionSet
     else if ChainConfig.Config.r_IsHomestead rules then newHomesteadInstructionSet
     else newFrontierInstructionSet).
