(* ===== verification/EvmRun.v ===== *)
(** * The interpreter and the calls

    parallelizable-client-go-ethereum/core/vm/interpreter.go and evm.go, with
    [RunPrecompiledContract] (contracts.go), [CanTransfer] and [Transfer]
    (core/evm.go).  One turn of the loop is [step]; the loop and the calls that it
    makes share their fuel.  Tracing and the charges of EIP-4762 are left out. *)

From S2P Require Import Prelude Crypto EvmCode EvmBase TxTypes VMInterface EvmState EvmFrame EvmOps EvmGas EvmTable.
From S2P Require ChainConfig StateTransition StateTypes.

(** params/protocol_params.go *)
Definition CallCreateDepth : Z := 1024.
Definition CreateDataGas : Z := 200.
Definition SystemAddress : Address := 0xfffffffffffffffffffffffffffffffffffffffe.

Definition isSystemCall (caller : Address) : bool := caller =? SystemAddress.

Section Interpreter.
Context {St : Type} `{EvmState St} `{Keccak} `{Uint256}.
Context (env : EvmEnv) (abort : Frame St → bool) (table : JumpTable).
Abbreviation M A := (X (Frame St) A).
Abbreviation E A := (X (Evm St) A).
Abbreviation rules := (chainRules env).

(** What a run of a contract gives: the data, the error, and the gas left. *)
Definition run_result : Type := bytes * option vm_error * Z.

(** ** One turn of the loop *)

(** The operation at the program counter, its checks and its constant gas. *)
Definition fetch : M operation :=
  do f <- get;
  let op := GetOp (Con f) (pc f) in
  let operation := table_at table op in
  let sLen := len (Stk f) in
  if sLen <? op_minStack operation then fail (ErrStackUnderflow sLen (op_minStack operation))
  else if sLen >? op_maxStack operation then fail (ErrStackOverflow sLen (op_maxStack operation))
  else if Gas (Con f) <? constantGas operation then fail ErrOutOfGas
  else
    do! modify_con (λ c, set_Gas c (wrap64 (Gas c - constantGas operation)));
    ret operation.

(** The size the memory must have: whole words. *)
Definition needed_memory (operation : operation) : M Z :=
  match memorySize operation with
  | None => ret 0
  | Some fn =>
      do r <- memorySize_fn fn;
      do memSize <- no_overflow r;
      no_overflow (SafeMul (toWordSize memSize) 32)
  end.

(** An error of the gas function is an [ErrOutOfGas]. *)
Definition wrap_gas_error (m : M Z) : M Z := λ f,
  match m f with
  | Halt _ err f => Halt [] (OutOfGasBecause err) f
  | r => r
  end.

(** The dynamic gas is charged, and the memory expanded. *)
Definition charge (operation : operation) : M unit :=
  match dynamicGas operation with
  | None => ret tt
  | Some fn =>
      do memorySize <- needed_memory operation;
      do dynamicCost <- wrap_gas_error (dynamicGas_fn rules fn memorySize);
      do c <- contract_of;
      if Gas c <? dynamicCost then fail ErrOutOfGas
      else
        do! modify_con (λ c, set_Gas c (wrap64 (Gas c - dynamicCost)));
        if memorySize >? 0 then modify (λ f, set_Mem (Resize (Mem f) memorySize) f) else ret tt
  end.

Definition step (calls : Calls St) : M unit :=
  do operation <- fetch;
  do! charge operation;
  do _ <- execute env abort calls (op_execute operation);
  modify (λ f, set_pc (wrap64 (pc f + 1)) f).

(** ** Calls (evm.go) *)

Section Calls.
Context (run : Contract → bytes → bool → E run_result).

Definition state_e : E St := gets StateDB.

Definition CanTransfer (s : St) (addr : Address) (amount : Z) : bool := Cmp (GetBalance s addr) amount >=? 0.

Definition Transfer (sender recipient : Address) (amount : Z) : E unit :=
  do! vm_action (ASubBalance sender amount); vm_action (AAddBalance recipient amount).

Definition RunPrecompiledContract (p : PrecompiledContract) (input : bytes) (suppliedGas : Z)
    : bytes * Z * option vm_error :=
  let gasCost := RequiredGas p input in
  if suppliedGas <? gasCost then ([], 0, Some ErrOutOfGas)
  else
    let '(output, err) := Run p input in
    (output, wrap64 (suppliedGas - gasCost), err).

Definition resolveCode (s : St) (addr : Address) : bytes :=
  let code := GetCode s addr in
  if negb (ChainConfig.Config.r_IsPrague rules) then code
  else match StateTransition.ParseDelegation code with
       | Some target => GetCode s target
       | None => code
       end.

Definition resolveCodeHash (s : St) (addr : Address) : Hash :=
  if ChainConfig.Config.r_IsPrague rules then
    match StateTransition.ParseDelegation (GetCode s addr) with
    | Some target => GetCodeHash s target
    | None => GetCodeHash s addr
    end
  else GetCodeHash s addr.

Definition snapshot : E Z := λ e,
  let '(id, s) := Snapshot (StateDB e) in Done id (set_StateDB e s).
Definition revert (id : Z) : E unit := λ e,
  match RevertToSnapshot (StateDB e) id with
  | Some s => Done tt (set_StateDB e s)
  | None => Panics SnapshotPanic
  end.

Definition when_e (cond : bool) (m : E unit) : E unit := if cond then m else ret tt.

(** The end of a call: an error reverts the state, and takes the gas unless the
    callee has reverted. *)
Definition settle (id : Z) (ret_ : bytes) (gas : Z) (err : option vm_error) : E (bytes * Z * option vm_error) :=
  match err with
  | None => ret (ret_, gas, None)
  | Some e =>
      do! revert id;
      ret (ret_, if bool_decide (e = ErrExecutionReverted) then gas else 0, Some e)
  end.

Definition run_contract (contract : Contract) (input : bytes) (readOnly : bool) : E (bytes * Z * option vm_error) :=
  do (ret_, err, gas) <- run contract input readOnly; ret (ret_, gas, err).

(** The body of a call: a precompile, or the code of the address. *)
Definition Call (caller addr : Address) (input : bytes) (gas value : Z) : E (bytes * Z * option vm_error) :=
  do e <- get;
  if depth e >? CallCreateDepth then ret ([], gas, Some ErrDepth)
  else if negb (value =? 0) && negb (CanTransfer (StateDB e) caller value) then
    ret ([], gas, Some ErrInsufficientBalance)
  else
    do id <- snapshot;
    let p := precompiles env addr in
    let isPrecompile := bool_decide (is_Some p) in
    do s <- state_e;
    if negb (Exist s addr) && negb isPrecompile && ChainConfig.Config.r_IsEIP158 rules && (value =? 0) then
      ret ([], gas, None)
    else
      do! when_e (negb (Exist s addr)) (vm_action (ACreateAccount addr));
      do! Transfer caller addr value;
      do (ret_, gas, err) <-
        (match p with
         | Some p => ret (RunPrecompiledContract p input gas)
         | None =>
             do s <- state_e;
             let code := resolveCode s addr in
             if len code =? 0 then ret ([], gas, None)
             else
               let contract := set_system (NewContract caller addr value gas) (isSystemCall caller) in
               run_contract (SetCallCode contract (resolveCodeHash s addr) code) input false
         end);
      settle id ret_ gas err.

(** The body of the other three calls. *)
Definition call_body (addr : Address) (contract : Contract) (input : bytes) (gas : Z) (readOnly : bool)
    : E (bytes * Z * option vm_error) :=
  match precompiles env addr with
  | Some p => ret (RunPrecompiledContract p input gas)
  | None =>
      do s <- state_e;
      run_contract (SetCallCode contract (resolveCodeHash s addr) (resolveCode s addr)) input readOnly
  end.

Definition CallCode (caller addr : Address) (input : bytes) (gas value : Z) : E (bytes * Z * option vm_error) :=
  do e <- get;
  if depth e >? CallCreateDepth then ret ([], gas, Some ErrDepth)
  else if negb (CanTransfer (StateDB e) caller value) then ret ([], gas, Some ErrInsufficientBalance)
  else
    do id <- snapshot;
    do (ret_, gas, err) <- call_body addr (NewContract caller caller value gas) input gas false;
    settle id ret_ gas err.

Definition DelegateCall (originCaller caller addr : Address) (input : bytes) (gas value : Z)
    : E (bytes * Z * option vm_error) :=
  do e <- get;
  if depth e >? CallCreateDepth then ret ([], gas, Some ErrDepth)
  else
    do id <- snapshot;
    do (ret_, gas, err) <- call_body addr (NewContract originCaller caller value gas) input gas false;
    settle id ret_ gas err.

Definition StaticCall (caller addr : Address) (input : bytes) (gas : Z) : E (bytes * Z * option vm_error) :=
  do e <- get;
  if depth e >? CallCreateDepth then ret ([], gas, Some ErrDepth)
  else
    do id <- snapshot;
    do! vm_action (AAddBalance addr 0);
    do (ret_, gas, err) <- call_body addr (NewContract caller addr 0 gas) input gas true;
    settle id ret_ gas err.

(** [initNewContract]: the data, the error, and the gas of the contract. *)
Definition initNewContract (contract : Contract) (address : Address) : E run_result :=
  do (ret_, err, gas) <- run contract [] false;
  match err with
  | Some _ => ret (ret_, err, gas)
  | None =>
      if ChainConfig.Config.r_IsEIP158 rules && (len ret_ >? MaxCodeSize) then ret (ret_, Some ErrMaxCodeSizeExceeded, gas)
      else if (len ret_ >=? 1) && bool_decide (ret_ !! 0%nat = Some 0xEF) && ChainConfig.Config.r_IsLondon rules then
        ret (ret_, Some ErrInvalidCode, gas)
      else
        let createDataGas := wrap64 (len ret_ * CreateDataGas) in
        if gas <? createDataGas then ret (ret_, Some ErrCodeStoreOutOfGas, gas)
        else
          do! vm_action (ASetCode address ret_);
          ret (ret_, None, wrap64 (gas - createDataGas))
  end.

Definition create (caller : Address) (code : bytes) (gas value : Z) (address : Address)
    : E (bytes * Address * Z * option vm_error) :=
  do e <- get;
  if depth e >? CallCreateDepth then ret ([], 0, gas, Some ErrDepth)
  else if negb (CanTransfer (StateDB e) caller value) then ret ([], 0, gas, Some ErrInsufficientBalance)
  else
    let nonce := GetNonce (StateDB e) caller in
    if wrap64 (nonce + 1) <? nonce then ret ([], 0, gas, Some ErrNonceUintOverflow)
    else
      do! vm_action (ASetNonce caller (wrap64 (nonce + 1)));
      do! when_e (ChainConfig.Config.r_IsEIP2929 rules) (vm_action (AAddAddress address));
      do s <- state_e;
      let contractHash := GetCodeHash s address in
      let storageRoot := GetStorageRoot s address in
      if negb (GetNonce s address =? 0) ||
         (negb (contractHash =? 0) && negb (contractHash =? Keccak256Hash [])) ||
         (negb (storageRoot =? 0) && negb (storageRoot =? StateTypes.EmptyRootHash)) then
        ret ([], 0, 0, Some ErrContractAddressCollision)
      else
        do id <- snapshot;
        do s <- state_e;
        do! when_e (negb (Exist s address)) (vm_action (ACreateAccount address));
        do! vm_action (ACreateContract address);
        do! when_e (ChainConfig.Config.r_IsEIP158 rules) (vm_action (ASetNonce address 1));
        do! Transfer caller address value;
        let contract := set_deployment (SetCallCode (NewContract caller address value gas) 0 code) in
        do (ret_, err, gas) <- initNewContract contract address;
        match err with
        | Some e =>
            if ChainConfig.Config.r_IsHomestead rules || bool_decide (e ≠ ErrCodeStoreOutOfGas) then
              do! revert id;
              ret (ret_, address, if bool_decide (e = ErrExecutionReverted) then gas else 0, err)
            else ret (ret_, address, gas, err)
        | None => ret (ret_, address, gas, None)
        end.

Definition Create (caller : Address) (code : bytes) (gas value : Z) : E (bytes * Address * Z * option vm_error) :=
  do s <- state_e;
  create caller code gas value (CreateAddress caller (GetNonce s caller)).

Definition Create2 (caller : Address) (code : bytes) (gas endowment salt : Z)
    : E (bytes * Address * Z * option vm_error) :=
  create caller code gas endowment (CreateAddress2 caller salt (keccak code)).

Definition evm_calls : Calls St := {|
  evm_Call := Call;
  evm_CallCode := CallCode;
  evm_DelegateCall := DelegateCall;
  evm_StaticCall := StaticCall;
  evm_Create := Create;
  evm_Create2 := Create2
|}.
End Calls.

(** ** The loop *)

(** The end of [Run]: the depth and the flag go back to what they were. *)
Definition leave (was : Evm St) (e : Evm St) : Evm St := set_readOnly (set_depth e (depth was)) (readOnly was).

(** [Run], around a loop. *)
Definition run_with (loop : Frame St → outcome (Evm St) run_result) (contract : Contract) (input : bytes)
    (readOnly_ : bool) : E run_result := λ e,
  let e' := set_returnData (set_readOnly (set_depth e (depth e + 1)) (readOnly e || readOnly_)) [] in
  let r :=
    if len (Code contract) =? 0 then Done ([], None, Gas contract) e'
    else loop (MkFrame 0 [] NewMemory (set_Input contract input) e') in
  match r with
  | Done a e'' => Done a (leave e e'')
  | Halt res err e'' => Halt res err (leave e e'')
  | Panics p => Panics p
  | NoFuel => NoFuel
  end.

Fixpoint loop (fuel : nat) (f : Frame St) : outcome (Evm St) run_result :=
  match fuel with
  | O => NoFuel
  | S fuel =>
      match step (evm_calls (run_with (loop fuel))) f with
      | Done _ f => loop fuel f
      | Halt res err f =>
          Done (res, if bool_decide (err = errStopToken) then None else Some err, Gas (Con f)) (Vm f)
      | Panics p => Panics p
      | NoFuel => NoFuel
      end
  end.

Definition Interpreter_Run (fuel : nat) : Contract → bytes → bool → E run_result := run_with (loop fuel).

(** The machine's calls. *)
Definition machine (fuel : nat) : Calls St := evm_calls (Interpreter_Run fuel).
End Interpreter.
