(* ===== verification/EvmMemory.v ===== *)
(** * Laws of memory, slices and gas arithmetic

    The lemmas on the words, the slices and the memory of EvmBase.v that the rest
    of the machine uses: when the sizes fit, nothing panics, a read gives bytes of
    the length asked for, and a write keeps the length.  [fee] is the total price of
    a memory of so many words. *)

From S2P Require Import Prelude Rlp Crypto TxTypes VMInterface EvmBase EvmState.

Definition max_memory : Z := 0x1FFFFFFFE0.

Ltac b_lia := unfold Len, is_uint64, is_uint256, max_uint64, two64, two256 in *; lia.
Ltac div_lia :=
  unfold Len, max_memory, is_uint64, is_uint256, max_uint64, two64, two256 in *;
  Z.to_euclidean_division_equations; lia.


(** ** Lists of bytes *)

Lemma len_take {A} n (l : list A) : len (take n l) = Z.min (Z.of_nat n) (len l).
Proof. unfold len. rewrite length_take. lia. Qed.

Lemma len_drop {A} n (l : list A) : len (drop n l) = Z.max 0 (len l - Z.of_nat n).
Proof. unfold len. rewrite length_drop. lia. Qed.

Lemma len_replicate {A} n (x : A) : len (replicate n x) = Z.of_nat n.
Proof. unfold len. by rewrite length_replicate. Qed.

Lemma zeros_bytes n : Forall is_byte (replicate n 0).
Proof. apply Forall_replicate. unfold is_byte. lia. Qed.

Lemma slice_ok l i j :
  Forall is_byte l → 0 <= i <= j → j <= len l →
  ∃ d, slice l i j = Some d ∧ Forall is_byte d ∧ len d = j - i.
Proof.
  intros Hl Hij Hj. unfold slice.
  assert ((0 <=? i) && (i <=? j) && (j <=? len l) = true) as -> by lia.
  eexists. split; [done|]. split; [by apply Forall_take, Forall_drop|].
  rewrite len_take, len_drop. lia.
Qed.

Lemma copy_at_ok l i v :
  Forall is_byte l → Forall is_byte v → 0 <= i <= len l →
  Forall is_byte (copy_at l i v) ∧ len (copy_at l i v) = len l.
Proof.
  intros Hl Hv Hi. unfold copy_at. set (w := take (length l - Z.to_nat i) v).
  assert (Forall is_byte w) as Hw by by apply Forall_take.
  assert (len w <= len l - i) as Hlw by (unfold w; rewrite len_take; unfold len in *; lia).
  split.
  - apply Forall_app. split; [by apply Forall_take|]. apply Forall_app. split; [done|by apply Forall_drop].
  - rewrite !len_app, len_take, len_drop. unfold len in *. lia.
Qed.

Lemma getData_ok data start size :
  data_ok data → is_uint64 start → 0 <= size <= max_memory →
  ∃ d, getData data start size = Some d ∧ Forall is_byte d ∧ len d = size.
Proof.
  intros [Hb Hl] Hs Hz. unfold getData. pose proof (len_nonneg data) as Hn.
  set (s := if start >? len data then len data else start).
  assert (0 <= s <= len data) as Hsr by (unfold s; rewrite Z.gtb_ltb; destruct (Z.ltb_spec (len data) start); b_lia).
  assert (wrap64 (s + size) = s + size) as -> by (apply wrap64_id; unfold max_memory in *; b_lia).
  set (e := if s + size >? len data then len data else s + size).
  assert (s <= e <= len data ∧ e <= s + size) as [He Hes] by (unfold e; rewrite Z.gtb_ltb; destruct (Z.ltb_spec (len data) (s + size)); lia).
  destruct (slice_ok data s e Hb) as (d & -> & Hd & Hld); [lia|lia|]. cbn.
  assert (to_int size = size) as -> by (unfold to_int; destruct (Z.ltb_spec size (2 ^ 63)); unfold max_memory in *; lia).
  eexists. split; [done|]. unfold RightPadBytes. destruct (Z.leb_spec size (len d)) as [Hle|Hgt].
  - split; [done|lia].
  - split; [apply Forall_app; split; [done|apply zeros_bytes]|]. rewrite len_app, len_replicate. lia.
Qed.

Lemma be_decode_word d : Forall is_byte d → len d = 32 → is_uint256 (be_decode d).
Proof.
  intros Hd Hl. pose proof (be_decode_range d Hd) as Hr.
  assert (length d = 32%nat) as Hn by (unfold len in *; lia). rewrite Hn in Hr. exact Hr.
Qed.

Lemma Uint64_id x : is_uint64 x → Uint64 x = x.
Proof. apply wrap64_id. Qed.

Lemma Uint64_range x : is_uint64 (Uint64 x).
Proof. apply wrap64_range. Qed.
#[export] Hint Resolve Uint64_range : eigen.

Lemma Bytes20_range x : 0 <= Bytes20 x < 2 ^ 160.
Proof. apply Z.mod_pos_bound. lia. Qed.

Lemma b2w_range b : is_uint256 (b2w b).
Proof. unfold b2w. destruct b; b_lia. Qed.

Lemma is_uint64_256 x : is_uint64 x → is_uint256 x.
Proof. b_lia. Qed.
#[export] Hint Resolve b2w_range is_uint64_256 : eigen.

(** ** Ranges of memory *)

(** A range of [l] bytes at [off] is inside [L] bytes of memory. *)
Definition fits (L off l : Z) : Prop := is_uint64 l ∧ (l ≠ 0 → off + l <= L).

Lemma calcMemSize64WithUint_spec off l v :
  is_uint256 off → is_uint64 l → calcMemSize64WithUint off l = (v, false) →
  is_uint64 v ∧ v = if l =? 0 then 0 else off + l.
Proof.
  intros Ho Hl. unfold calcMemSize64WithUint, Uint64WithOverflow, IsUint64.
  destruct (Z.eqb_spec l 0) as [->|Hne]; [intros; simplify_eq; b_lia|].
  destruct (Z.ltb_spec off two64) as [Hlt|]; cbn; [|done].
  rewrite (wrap64_id off) by b_lia. unfold wrap64. intros [= <- Hv].
  assert (off + l < two64) as Hs.
  { destruct (Z.lt_ge_cases (off + l) two64) as [|Hge]; [done|]. exfalso.
    assert ((off + l) mod two64 = off + l - two64) as Hm by (symmetry; apply (Z.mod_unique _ _ 1); b_lia).
    rewrite Hm in Hv. b_lia. }
  rewrite Z.mod_small by b_lia. b_lia.
Qed.

Lemma calcMemSize64_spec off l v :
  is_uint256 off → is_uint256 l → calcMemSize64 off l = (v, false) →
  is_uint64 l ∧ is_uint64 v ∧ v = if l =? 0 then 0 else off + l.
Proof.
  intros Ho Hl. unfold calcMemSize64, IsUint64. destruct (Z.ltb_spec l two64) as [Hlt|]; cbn; [|done].
  assert (is_uint64 l) as H64 by b_lia. rewrite Uint64_id by done. intros Hv. split; [done|].
  by apply calcMemSize64WithUint_spec.
Qed.

(** The size that was asked for covers the range. *)
Lemma calcMemSize64_fits off l v L :
  is_uint256 off → is_uint256 l → calcMemSize64 off l = (v, false) → v <= L → fits L off l.
Proof.
  intros Ho Hl Hv Hle. destruct (calcMemSize64_spec off l v Ho Hl Hv) as (H1 & _ & ->).
  split; [done|]. intros Hne. destruct (Z.eqb_spec l 0); [done|lia].
Qed.

Lemma size_in_words n : is_uint64 n → toWordSize n = (n + 31) / 32.
Proof.
  intros Hn. unfold toWordSize. rewrite Z.gtb_ltb. destruct (Z.ltb_spec (max_uint64 - 31) n) as [Hl|]; [|done].
  change (max_uint64 / 32 + 1) with (2 ^ 59). apply (Z.div_unique _ _ _ (n + 31 - two64)); b_lia.
Qed.

(** ** The price of memory *)

Definition fee (words : Z) : Z := 3 * words + words * words / 512.

Lemma fee_mono a b : 0 <= a <= b → fee a <= fee b.
Proof. intros Hab. unfold fee. assert (a * a / 512 <= b * b / 512) by (apply Z.div_le_mono; nia). lia. Qed.

Lemma fee_range a : 0 <= a <= 2 ^ 32 - 1 → 0 <= fee a < 2 ^ 62.
Proof.
  intros Ha. unfold fee. assert (0 <= a * a / 512 <= (2 ^ 32 - 1) * (2 ^ 32 - 1) / 512) as Hq.
  { split; [apply Z.div_pos; nia|]. apply Z.div_le_mono; nia. }
  assert ((2 ^ 32 - 1) * (2 ^ 32 - 1) / 512 < 2 ^ 61) by done. lia.
Qed.

(** The words that [n] bytes take. *)
Definition words_of (n : Z) : Z := (n + 31) / 32.

(** The fee was paid for [n] bytes, that the memory may not have yet. *)
Record mem_paid (m : Memory) (n : Z) : Prop := {
  mp_bytes : Forall is_byte (store m);
  mp_words : Len m mod 32 = 0;
  mp_max : Len m <= max_memory;
  mp_fee : lastGasCost m = fee (words_of (Z.max (Len m) n))
}.

Definition mem_ok (m : Memory) : Prop := mem_paid m 0.

Lemma Len_nonneg m : 0 <= Len m.
Proof. apply len_nonneg. Qed.

Lemma mem_ok_fee m : mem_ok m → lastGasCost m = fee (Len m / 32) ∧ 0 <= Len m / 32 <= 2 ^ 32 - 1.
Proof.
  intros [_ Hw Hm Hf]. pose proof (Len_nonneg m). rewrite Z.max_l in Hf by done.
  unfold words_of, max_memory in *. split; [rewrite Hf; f_equal|]; div_lia.
Qed.

Lemma NewMemory_ok : mem_ok NewMemory.
Proof. by split. Qed.

Lemma memoryGasCost_exact m n :
  mem_ok m → is_uint64 n →
  memoryGasCost m n =
    if n >? max_memory then (Err ErrGasUintOverflow, m)
    else
      let new := Z.max (Len m / 32) (words_of n) in
      (Ok (fee new - fee (Len m / 32)), MkMemory (store m) (fee new)).
Proof.
  intros Hm Hn. destruct (mem_ok_fee m Hm) as [Hf Hr]. pose proof (mp_words _ _ Hm) as Hw.
  unfold memoryGasCost. change 0x1FFFFFFFE0 with max_memory.
  assert (MkMemory (store m) (fee (Len m / 32)) = m) as Hsame by (rewrite <-Hf; by destruct m).
  destruct (Z.eqb_spec n 0) as [->|Hnz].
  { change (0 >? max_memory) with false. cbn zeta. change (words_of 0) with 0. rewrite Z.max_l by lia. by rewrite Hsame, Z.sub_diag. }
  rewrite !Z.gtb_ltb. destruct (Z.ltb_spec max_memory n) as [|Hle]; [done|].
  rewrite size_in_words by done. change ((n + 31) / 32) with (words_of n). cbn zeta.
  assert (0 <= words_of n <= 2 ^ 32 - 1) as Hwr by (unfold words_of in *; div_lia).
  rewrite (wrap64_id (words_of n * 32)) by b_lia.
  destruct (Z.ltb_spec (Len m) (words_of n * 32)) as [Hgt|Hle2].
  - rewrite Z.max_r by div_lia. pose proof (fee_range (words_of n) Hwr). pose proof (fee_range (Len m / 32) Hr).
    assert (fee (Len m / 32) <= fee (words_of n)) by (apply fee_mono; div_lia).
    assert (wrap64 (words_of n * words_of n) = words_of n * words_of n) as -> by (apply wrap64_id; unfold is_uint64, two64; nia).
    assert (wrap64 (words_of n * MemoryGas) = 3 * words_of n) as -> by (rewrite wrap64_id; unfold MemoryGas; b_lia).
    change (3 * words_of n + words_of n * words_of n / QuadCoeffDiv) with (fee (words_of n)).
    rewrite (wrap64_id (fee (words_of n))) by b_lia. rewrite Hf. rewrite wrap64_id by b_lia. done.
  - rewrite Z.max_l by div_lia. by rewrite Hsame, Z.sub_diag.
Qed.

(** The gas is not negative, and the fee is paid. *)
Lemma memoryGasCost_paid m n r m' :
  mem_ok m → is_uint64 n → n mod 32 = 0 → memoryGasCost m n = (r, m') →
  match r with
  | Ok gas => is_uint64 gas ∧ n <= max_memory ∧ store m' = store m ∧ mem_paid m' n
  | Err err => m' = m
  end.
Proof.
  intros Hm Hn Hw. rewrite memoryGasCost_exact by done. rewrite Z.gtb_ltb.
  destruct (Z.ltb_spec max_memory n) as [|Hle]; intros [= <- <-]; [done|].
  destruct (mem_ok_fee m Hm) as [Hf Hr]. pose proof (mp_words _ _ Hm) as Hmw.
  assert (0 <= words_of n <= 2 ^ 32 - 1) as Hwr by (unfold words_of in *; div_lia).
  set (new := Z.max (Len m / 32) (words_of n)).
  assert (0 <= new <= 2 ^ 32 - 1 ∧ Len m / 32 <= new) as [Hn1 Hn2] by lia.
  pose proof (fee_range new Hn1) as H1. pose proof (fee_range (Len m / 32) Hr) as H2.
  assert (fee (Len m / 32) <= fee new) by (apply fee_mono; lia). split; [b_lia|]. split; [done|]. split; [done|]. destruct Hm as [Hb _ Hmax _]. split; [done..|].
  cbn. f_equal. unfold new. change (Len {| store := store m; lastGasCost := fee (Z.max (Len m / 32) (words_of n)) |}) with (Len m). unfold words_of. div_lia.
Qed.

Lemma Resize_ok m n :
  mem_paid m n → 0 <= n <= max_memory → n mod 32 = 0 →
  mem_ok (Resize m n) ∧ Len (Resize m n) = Z.max (Len m) n.
Proof.
  intros [Hb Hw Hmax Hf] Hn Hn32. unfold Resize. pose proof (Len_nonneg m).
  destruct (Z.ltb_spec (Len m) n) as [Hlt|Hge].
  - assert (Len (set_store m (store m ++ replicate (Z.to_nat (n - Len m)) 0)) = n) as HL.
    { unfold Len, set_store. cbn. rewrite len_app, len_replicate. b_lia. }
    split; [|rewrite HL; lia]. split; rewrite ?HL; [|done|lia|].
    + cbn. apply Forall_app. split; [done|apply zeros_bytes].
    + cbn. rewrite Hf. f_equal. f_equal. lia.
  - split; [|lia]. split; try done. rewrite Hf. f_equal. f_equal. lia.
Qed.

(** ** Reads and writes *)

(** A write keeps the length and the fee. *)
Definition written (m m' : Memory) : Prop :=
  Forall is_byte (store m') ∧ Len m' = Len m ∧ lastGasCost m' = lastGasCost m.

Lemma written_ok m m' : mem_ok m → written m m' → mem_ok m'.
Proof. intros [Hb Hw Hm Hf] (H1 & H2 & H3). split; rewrite ?H2, ?H3; done. Qed.

Lemma fits_Uint64 m off l :
  mem_ok m → is_uint256 off → fits (Len m) off l → l ≠ 0 →
  Uint64 off = off ∧ Uint64 l = l ∧ off + l <= Len m ∧ 0 < l ∧ Len m <= max_memory.
Proof.
  intros Hm Ho [Hl Hf] Hne. pose proof (mp_max _ _ Hm). specialize (Hf Hne). unfold max_memory in *.
  rewrite !Uint64_id by b_lia. b_lia.
Qed.

Lemma GetPtr_ok m off l :
  mem_ok m → is_uint256 off → fits (Len m) off l →
  ∃ d, GetPtr m (Uint64 off) (Uint64 l) = Some d ∧ data_ok d ∧ len d = l.
Proof.
  intros Hm Ho Hf. unfold GetPtr. destruct (Z.eqb_spec (Uint64 l) 0) as [Hz|Hnz].
  - rewrite Uint64_id in Hz by apply Hf. subst l. exists []. split; [done|]. split; [apply data_ok_nil|done].
  - assert (l ≠ 0) as Hne by (intros ->; done).
    destruct (fits_Uint64 m off l Hm Ho Hf Hne) as (-> & -> & Hle & Hpos & Hmax). unfold max_memory in *.
    rewrite wrap64_id by b_lia. destruct (slice_ok (store m) off (off + l)) as (d & -> & Hd & Hld); [apply Hm|b_lia|done|].
    exists d. split; [done|]. split; [split; [done|]|]; b_lia.
Qed.

Lemma GetCopy_ok m off l :
  mem_ok m → is_uint256 off → fits (Len m) off l →
  ∃ d, GetCopy m (Uint64 off) (Uint64 l) = Some d ∧ data_ok d ∧ len d = l.
Proof. apply GetPtr_ok. Qed.

Lemma Set_ok m off l v :
  mem_ok m → is_uint256 off → fits (Len m) off l → Forall is_byte v →
  ∃ m', Set_ m (Uint64 off) (Uint64 l) v = Some m' ∧ written m m'.
Proof.
  intros Hm Ho Hf Hv. unfold Set_. rewrite Z.gtb_ltb. pose proof (Uint64_range l) as Hr.
  destruct (Z.ltb_spec 0 (Uint64 l)) as [Hpos|]; [|exists m; split; [done|]; split; [apply Hm|done]].
  assert (l ≠ 0) as Hne by (intros ->; done).
  destruct (fits_Uint64 m off l Hm Ho Hf Hne) as (-> & -> & Hle & Hp & Hmax). unfold max_memory in *.
  rewrite wrap64_id by b_lia. rewrite Z.gtb_ltb. destruct (Z.ltb_spec (Len m) (off + l)) as [|_]; [lia|].
  destruct (slice_ok (store m) off (off + l)) as (d & -> & _); [apply Hm|b_lia|done|].
  cbn. eexists. split; [done|]. destruct (copy_at_ok (store m) off (take (Z.to_nat l) v)) as [H1 H2];
    [apply Hm|by apply Forall_take|b_lia|]. by split.
Qed.

Lemma Set32_ok m off v :
  mem_ok m → is_uint256 off → off + 32 <= Len m →
  ∃ m', Set32 m (Uint64 off) v = Some m' ∧ written m m'.
Proof.
  intros Hm Ho Hle. unfold Set32. destruct (fits_Uint64 m off 32 Hm Ho) as (-> & _ & _ & _ & Hmax); [by split|done|].
  unfold max_memory in *. rewrite wrap64_id by b_lia. rewrite Z.gtb_ltb.
  destruct (Z.ltb_spec (Len m) (off + 32)) as [|_]; [lia|].
  destruct (slice_ok (store m) off (off + 32)) as (d & -> & _); [apply Hm|b_lia|done|]. cbn.
  eexists. split; [done|]. destruct (copy_at_ok (store m) off (be_encode 32 v)) as [H1 H2]; [apply Hm|apply be_encode_bytes|b_lia|].
  by split.
Qed.

Lemma Copy_ok m dst src l :
  mem_ok m → is_uint256 dst → is_uint256 src → fits (Len m) (Z.max dst src) l →
  ∃ m', Copy m (Uint64 dst) (Uint64 src) (Uint64 l) = Some m' ∧ written m m'.
Proof.
  intros Hm Hd Hs Hf. unfold Copy. destruct (Z.eqb_spec (Uint64 l) 0) as [|Hnz].
  { exists m. split; [done|]. split; [apply Hm|done]. }
  assert (l ≠ 0) as Hne by (intros ->; done).
  assert (fits (Len m) dst l) as Hfd by (destruct Hf as [H1 H2]; split; [done|intros; specialize (H2 Hne); lia]).
  assert (fits (Len m) src l) as Hfs by (destruct Hf as [H1 H2]; split; [done|intros; specialize (H2 Hne); lia]).
  destruct (fits_Uint64 m dst l Hm Hd Hfd Hne) as (-> & _ & Hle & _ & Hmax).
  destruct (fits_Uint64 m src l Hm Hs Hfs Hne) as (-> & -> & Hle' & Hpos & _). unfold max_memory in *.
  destruct (slice_ok (store m) dst (len (store m))) as (d & -> & _); [apply Hm|b_lia|done|]. cbn.
  rewrite wrap64_id by b_lia.
  destruct (slice_ok (store m) src (src + l)) as (d' & -> & Hd' & _); [apply Hm|b_lia|done|]. cbn.
  eexists. split; [done|]. destruct (copy_at_ok (store m) dst d') as [H1 H2]; [apply Hm|done|b_lia|]. by split.
Qed.

(** ** Gas *)

Lemma SafeAdd_spec x y : is_uint64 x → is_uint64 y → (SafeAdd x y).2 = false → (SafeAdd x y).1 = x + y ∧ is_uint64 (x + y).
Proof.
  intros Hx Hy. unfold SafeAdd. cbn. destruct (Z.ltb_spec (x + y) two64) as [Hs|]; [|done].
  intros _. rewrite wrap64_id; b_lia.
Qed.

Lemma SafeMul_spec x y : is_uint64 x → is_uint64 y → (SafeMul x y).2 = false → (SafeMul x y).1 = x * y ∧ is_uint64 (x * y).
Proof.
  intros Hx Hy. unfold SafeMul. cbn. destruct (Z.ltb_spec (x * y) two64) as [Hs|]; [|done].
  intros _. assert (is_uint64 (x * y)) by (unfold is_uint64 in *; nia). by rewrite wrap64_id.
Qed.

(** The gas of a call: what was asked for, or all but a 64th part of what is left. *)
Lemma callGas_exact isEip150 availableGas base callCost :
  is_uint64 availableGas → is_uint64 base → is_uint256 callCost → base <= availableGas →
  callGas isEip150 availableGas base callCost =
    let left := availableGas - base in
    let most := left - left / 64 in
    if isEip150 then Ok (Z.min callCost most)
    else if callCost <? two64 then Ok callCost else Err ErrGasUintOverflow.
Proof.
  intros Ha Hb Hc Hle. unfold callGas, IsUint64. cbn zeta.
  rewrite (wrap64_id (availableGas - base)) by b_lia.
  set (left := availableGas - base). assert (0 <= left < two64) as Hl by (unfold left; b_lia).
  rewrite (wrap64_id (left - left / 64)) by div_lia.
  destruct (Z.ltb_spec callCost two64) as [H64|H64]; cbn [negb orb].
  - rewrite Uint64_id by b_lia. destruct isEip150; cbn; [|done].
    destruct (Z.ltb_spec (left - left / 64) callCost); f_equal; div_lia.
  - destruct isEip150; cbn; [|done]. f_equal. div_lia.
Qed.

Lemma callGas_range isEip150 availableGas base callCost g :
  callGas isEip150 availableGas base callCost = Ok g → is_uint64 g.
Proof.
  unfold callGas. destruct (_ && _); [intros [= <-]; apply wrap64_range|].
  destruct (negb _); [done|]. intros [= <-]. apply Uint64_range.
Qed.
