(* ===== verification/EvmWp.v ===== *)
(** * Invariants of the machine, and weakest preconditions

    What is always true of a machine, a contract and a frame, and the rules to
    prove it of the monad of EvmFrame.v.  [wp m P R t]: from [t], [m] goes on with
    [P] or halts with [R]; it has enough fuel, and the only panics it may end in are
    the two that [excused] names: a refund counter below zero, and the analysis of
    another code with the same hash. *)

From S2P Require ChainConfig.
From S2P Require ChainConfig StateTypes.
From S2P Require Import Prelude Crypto TxTypes VMInterface EvmCode EvmBase EvmState EvmFrame EvmOps EvmMemory.

Definition excused (p : vm_panic) : Prop := p = RefundPanic ∨ p = AnalysisPanic.

Definition wp {T A} (m : X T A) (P : A → T → Prop) (R : bytes → vm_error → T → Prop) (t : T) : Prop :=
  match m t with
  | Done a t' => P a t'
  | Halt res err t' => R res err t'
  | Panics p => excused p
  | NoFuel => False
  end.

Definition no_halt {T} : bytes → vm_error → T → Prop := λ _ _ _, False.

Section Rules.
Context {T : Type}.
Implicit Types t : T.

Lemma evm_wp_bind {A B} (m : X T A) (k : A → X T B) P R t :
  wp m (λ a t', wp (k a) P R t') R t → wp (bind m k) P R t.
Proof. unfold wp, bind. by destruct (m t). Qed.

Lemma evm_wp_mono {A} (m : X T A) (P P' : A → T → Prop) (R R' : bytes → vm_error → T → Prop) t :
  wp m P R t → (∀ a t', P a t' → P' a t') → (∀ r e t', R r e t' → R' r e t') → wp m P' R' t.
Proof. unfold wp. destruct (m t); auto. Qed.

Lemma evm_wp_ret {A} (a : A) (P : A → T → Prop) R t : P a t → wp (ret a) P R t.
Proof. done. Qed.

Lemma wp_gets {A} (g : T → A) (P : A → T → Prop) R t : P (g t) t → wp (gets g) P R t.
Proof. done. Qed.

Lemma evm_wp_get (P : T → T → Prop) R t : P t t → wp get P R t.
Proof. done. Qed.

Lemma evm_wp_modify (g : T → T) (P : unit → T → Prop) R t : P tt (g t) → wp (modify g) P R t.
Proof. done. Qed.

Lemma evm_wp_fail {A} err (P : A → T → Prop) (R : bytes → vm_error → T → Prop) t : R [] err t → wp (fail err) P R t.
Proof. done. Qed.

Lemma evm_wp_of_option {A} p (o : option A) a (P : A → T → Prop) R t : o = Some a → P a t → wp (of_option p o) P R t.
Proof. by intros ->. Qed.

Lemma wp_no_overflow r (P : Z → T → Prop) (R : bytes → vm_error → T → Prop) t :
  (r.2 = true → R [] ErrGasUintOverflow t) → (r.2 = false → P r.1 t) → wp (no_overflow r) P R t.
Proof. unfold no_overflow. destruct r.2; intros H1 H2; [by apply H1|by apply H2]. Qed.
End Rules.

(** ** Invariants *)

Section Invariants.
Context {St : Type} `{Hst : EvmState St} `{Hk : Keccak} `{Hlaws : !EvmStateLaws St}.
Implicit Types (e : Evm St) (f : Frame St).

(** An analysis is that of a code with the hash. *)
Definition analysis_of (h : Hash) (a : bitvec) : Prop :=
  ∃ code, data_ok code ∧ codeBitmap code = Some a ∧ Keccak256Hash code = h.

Record con_ok (c : Contract) : Prop := {
  ck_caller : is_uint256 (caller c);
  ck_address : is_uint256 (address c);
  ck_value : is_uint256 (value c);
  ck_gas : is_uint64 (Gas c);
  ck_code : data_ok (Code c);
  ck_input : data_ok (Input c);
  ck_hash : Code c ≠ [] → CodeHash c = 0 ∨ CodeHash c = Keccak256Hash (Code c);
  ck_analysis a : analysis c = Some a → analysis_of (Keccak256Hash (Code c)) a
}.

Record evm_ok e : Prop := {
  ek_good : good (StateDB e);
  ek_return : data_ok (returnData e);
  ek_temp : is_uint64 (callGasTemp e);
  ek_jumps h a : jumpDests e !! h = Some a → analysis_of h a
}.

(** The stack is not bounded here: the table bounds it. *)
Record frame_ok f : Prop := {
  fk_stack : Forall is_uint256 (Stk f);
  fk_mem : mem_ok (Mem f);
  fk_con : con_ok (Con f);
  fk_vm : evm_ok (Vm f)
}.

(** What a machine may have become: the snapshots stay, a read-only machine has
    changed no account, and the depth is the same. *)
Record evm_le e e' : Prop := {
  el_later : later (StateDB e) (StateDB e');
  el_quiet : readOnly e = true → unchanged logs (StateDB e) (StateDB e');
  el_readOnly : readOnly e' = readOnly e;
  el_depth : depth e' = depth e
}.

Lemma evm_le_refl e : evm_ok e → evm_le e e.
Proof. intros [Hg _ _ _]. split; [by apply later_refl|done..]. Qed.

Lemma evm_le_trans e1 e2 e3 : evm_le e1 e2 → evm_le e2 e3 → evm_le e1 e3.
Proof.
  intros [L1 U1 R1 D1] [L2 U2 R2 D2]. split; [by eapply later_trans| |congruence..].
  intros Hr. etrans; [by apply U1|apply U2]. congruence.
Qed.

(** Only the state matters. *)
Lemma evm_le_with e e1 e2 :
  evm_le e e1 → StateDB e2 = StateDB e1 → readOnly e2 = readOnly e1 → depth e2 = depth e1 → evm_le e e2.
Proof. intros [L U R D] Hs Hr Hd. split; [by rewrite Hs|by rewrite Hs|congruence..]. Qed.

(** A frame that goes on, and one that halts. *)
Record runs f0 (B : Z) f : Prop := {
  rn_ok : frame_ok f;
  rn_le : evm_le (Vm f0) (Vm f);
  rn_code : Code (Con f) = Code (Con f0);
  rn_gas : Gas (Con f) <= B
}.

Record halts f0 (B : Z) (res : bytes) (err : vm_error) f : Prop := {
  ha_data : data_ok res;
  ha_vm : evm_ok (Vm f);
  ha_le : evm_le (Vm f0) (Vm f);
  ha_gas : 0 <= Gas (Con f) <= B
}.

Lemma runs_refl f B : frame_ok f → Gas (Con f) <= B → runs f B f.
Proof. intros Hf Hg. split; [done|apply evm_le_refl, Hf|done..]. Qed.

Lemma runs_halts f0 B f res err : runs f0 B f → data_ok res → halts f0 B res err f.
Proof. intros [Hf Hl _ Hg] Hd. split; [done|apply Hf|done|]. split; [apply Hf|done]. Qed.

(** Pieces of a frame that are replaced. *)
Lemma runs_Stk f0 B f st : runs f0 B f → Forall is_uint256 st → runs f0 B (set_Stk st f).
Proof. intros [[H1 H2 H3 H4] Hl Hc Hg] Hs. by split. Qed.

Lemma runs_pc f0 B f x : runs f0 B f → runs f0 B (set_pc x f).
Proof. intros [[H1 H2 H3 H4] Hl Hc Hg]. by split. Qed.

Lemma runs_Mem f0 B f m : runs f0 B f → mem_ok m → runs f0 B (set_Mem m f).
Proof. intros [[H1 H2 H3 H4] Hl Hc Hg] Hs. by split. Qed.

Lemma runs_Vm f0 B f e : runs f0 B f → evm_ok e → evm_le (Vm f) e → runs f0 B (set_Vm e f).
Proof. intros [[H1 H2 H3 H4] Hl Hc Hg] He Hle. split; [done|by eapply evm_le_trans|done..]. Qed.

Lemma runs_Con f0 B f c :
  runs f0 B f → con_ok c → Code c = Code (Con f) → Gas c <= B → runs f0 B (set_Con c f).
Proof. intros [[H1 H2 H3 H4] Hl Hc Hg] Hok Hcode Hgas. split; [done|done|cbn; congruence|done]. Qed.

Lemma runs_budget f0 B B' f : runs f0 B f → Gas (Con f) <= B' → runs f0 B' f.
Proof. intros [H1 H2 H3 H4] Hle. by split. Qed.

Lemma con_ok_Gas c g : con_ok c → is_uint64 g → con_ok (set_Gas c g).
Proof. intros []. by split. Qed.

(** ** Rules of the frame *)

Lemma wp_pop f x st (P : Z → Frame St → Prop) R : Stk f = x :: st → P x (set_Stk st f) → wp pop P R f.
Proof. intros Hs. unfold wp, pop. by rewrite Hs. Qed.

Lemma wp_Back f n x (P : Z → Frame St → Prop) R : Stk f !! n = Some x → P x f → wp (Back n) P R f.
Proof. intros Hs. unfold wp, Back, of_option. by rewrite Hs. Qed.

Lemma wp_set_top f x st v (P : unit → Frame St → Prop) R :
  Stk f = x :: st → P tt (set_Stk (v :: st) f) → wp (set_top v) P R f.
Proof. intros Hs. unfold wp, set_top. by rewrite Hs. Qed.

Lemma wp_push f v (P : unit → Frame St → Prop) R : P tt (set_Stk (v :: Stk f) f) → wp (push v) P R f.
Proof. done. Qed.

Lemma wp_mem_get {A} f (g : Memory → option A) a (P : A → Frame St → Prop) R :
  g (Mem f) = Some a → P a f → wp (mem_get g) P R f.
Proof. intros Hg. unfold wp, mem_get, of_option. by rewrite Hg. Qed.

Lemma wp_mem_put f (g : Memory → option Memory) m (P : unit → Frame St → Prop) R :
  g (Mem f) = Some m → P tt (set_Mem m f) → wp (mem_put g) P R f.
Proof. intros Hg. unfold wp, mem_put. by rewrite Hg. Qed.

Lemma wp_on_evm {A} f (m : X (Evm St) A) (P : A → Frame St → Prop) R :
  wp m (λ a e, P a (set_Vm e f)) (λ r x e, R r x (set_Vm e f)) (Vm f) → wp (on_evm m) P R f.
Proof. unfold wp, on_evm. by destruct (m (Vm f)). Qed.

(** [UseGas], whose answer may be ignored. *)
Lemma wp_use_gas f gas (P : bool → Frame St → Prop) R :
  is_uint64 (Gas (Con f)) → is_uint64 gas →
  (Gas (Con f) < gas → P false f) →
  (gas <= Gas (Con f) → P true (set_Con (set_Gas (Con f) (Gas (Con f) - gas)) f)) →
  wp (use_gas gas) P R f.
Proof.
  intros Hg Hg' H1 H2. unfold wp, use_gas, UseGas. destruct (Z.ltb_spec (Gas (Con f)) gas) as [Hlt|Hle].
  - replace (set_Con (Con f) f) with f by by destruct f. by apply H1.
  - rewrite wrap64_id by b_lia. by apply H2.
Qed.

(** ** Writes to the state *)

Lemma evm_action e act s :
  evm_ok e → action_ok (StateDB e) act → (readOnly e = true → quiet act) → do_action (StateDB e) act = Some s →
  evm_ok (set_StateDB e s) ∧ evm_le e (set_StateDB e s).
Proof.
  intros [Hg Hr Ht Hj] Ha Hq Hd. split.
  - split; [by eapply action_good|done..].
  - split; [by eapply later_action| |done..]. intros Hro. eapply action_quiet; eauto.
Qed.

Lemma wp_vm_action e act (P : unit → Evm St → Prop) R :
  evm_ok e → action_ok (StateDB e) act → (readOnly e = true → quiet act) →
  (∀ s, do_action (StateDB e) act = Some s →
     evm_ok (set_StateDB e s) → evm_le e (set_StateDB e s) → P tt (set_StateDB e s)) →
  wp (vm_action act) P R e.
Proof.
  intros He Ha Hq HP. unfold wp, vm_action. destruct (do_action (StateDB e) act) as [s|] eqn:Hd.
  - destruct (evm_action e act s He Ha Hq Hd). by apply HP.
  - destruct act; try by left.
    all: exfalso; edestruct action_total as [s Hs]; [apply He|exact Ha|done|congruence].
Qed.

(** A write by an instruction: the machine goes on with another state. *)
Lemma wp_act f a (P : unit → Frame St → Prop) R :
  evm_ok (Vm f) → action_ok (StateDB (Vm f)) a → (readOnly (Vm f) = true → quiet a) →
  (∀ e, evm_ok e → evm_le (Vm f) e → callGasTemp e = callGasTemp (Vm f) → P tt (set_Vm e f)) →
  wp (act a) P R f.
Proof. intros He Ha Hq HP. apply wp_on_evm, wp_vm_action; [done..|]. intros s _ H1 H2. by apply HP. Qed.
End Invariants.

(** ** The environment *)

Record precompile_ok (p : PrecompiledContract) : Prop := {
  pk_gas input : data_ok input → is_uint64 (RequiredGas p input);
  pk_run input : data_ok input → data_ok (Run p input).1
}.

Record env_ok (env : EvmEnv) : Prop := {
  vk_hash n : is_uint256 (GetHash env n);
  vk_coinbase : is_uint256 (Coinbase env);
  vk_gaslimit : is_uint64 (ctx_GasLimit env);
  vk_time : is_uint64 (Time env);
  vk_random h : Random env = Some h → is_uint256 h;
  vk_origin : is_uint256 (Origin env);
  vk_blobs : Forall is_uint256 (BlobHashes env);
  vk_precompiles a p : precompiles env a = Some p → precompile_ok p
}.

(** * Laws of the instructions

    What each instruction needs and what it leaves: [effect] is what it takes from
    the stack and puts there, [ranges] the memory that the size function of its
    entry covers, [executed] the invariant of EvmWp.v with both.  An instruction
    that is [ready] does not panic; calls are in EvmInstr.v. *)

(** ** What the instructions need *)

(** The words taken, and the words put. *)
Definition effect (fn : Exec.t) : nat * nat :=
  match fn with
  | Exec.opAdd | Exec.opSub | Exec.opMul | Exec.opDiv | Exec.opSdiv | Exec.opMod | Exec.opSmod | Exec.opExp
  | Exec.opSignExtend | Exec.opLt | Exec.opGt | Exec.opSlt | Exec.opSgt | Exec.opEq | Exec.opAnd | Exec.opOr
  | Exec.opXor | Exec.opByte | Exec.opSHL | Exec.opSHR | Exec.opSAR | Exec.opKeccak256 => (2, 1)
  | Exec.opAddmod | Exec.opMulmod => (3, 1)
  | Exec.opNot | Exec.opIszero | Exec.opBalance | Exec.opCallDataLoad | Exec.opExtCodeSize | Exec.opExtCodeHash
  | Exec.opBlockhash | Exec.opMload | Exec.opSload | Exec.opTload | Exec.opBlobHash => (1, 1)
  | Exec.opAddress | Exec.opOrigin | Exec.opCaller | Exec.opCallValue | Exec.opCallDataSize | Exec.opReturnDataSize
  | Exec.opCodeSize | Exec.opGasprice | Exec.opCoinbase | Exec.opTimestamp | Exec.opNumber | Exec.opDifficulty
  | Exec.opRandom | Exec.opGasLimit | Exec.opPc | Exec.opMsize | Exec.opGas | Exec.opPush1 | Exec.makePush _ _
  | Exec.opSelfBalance | Exec.opChainID | Exec.opBaseFee | Exec.opPush0 | Exec.opBlobBaseFee => (0, 1)
  | Exec.opCallDataCopy | Exec.opReturnDataCopy | Exec.opCodeCopy | Exec.opMcopy => (3, 0)
  | Exec.opExtCodeCopy => (4, 0)
  | Exec.opPop | Exec.opJump | Exec.opSelfdestruct | Exec.opSelfdestruct6780 => (1, 0)
  | Exec.opMstore | Exec.opMstore8 | Exec.opSstore | Exec.opTstore | Exec.opJumpi | Exec.opReturn | Exec.opRevert => (2, 0)
  | Exec.opJumpdest | Exec.opUndefined | Exec.opStop => (0, 0)
  | Exec.opSwap n => (S n, S n)
  | Exec.opCreate => (3, 1)
  | Exec.opCreate2 => (4, 1)
  | Exec.opCall | Exec.opCallCode => (7, 1)
  | Exec.opDelegateCall | Exec.opStaticCall => (6, 1)
  | Exec.makeLog n => (S (S n), 0)
  | Exec.makeDup n => (n, S n)
  end%nat.

Definition mem_of (fn : Exec.t) : option MemFn.t :=
  match fn with
  | Exec.opKeccak256 => Some MemFn.memoryKeccak256
  | Exec.opCallDataCopy => Some MemFn.memoryCallDataCopy
  | Exec.opReturnDataCopy => Some MemFn.memoryReturnDataCopy
  | Exec.opCodeCopy => Some MemFn.memoryCodeCopy
  | Exec.opExtCodeCopy => Some MemFn.memoryExtCodeCopy
  | Exec.opMload => Some MemFn.memoryMLoad
  | Exec.opMstore8 => Some MemFn.memoryMStore8
  | Exec.opMstore => Some MemFn.memoryMStore
  | Exec.opMcopy => Some MemFn.memoryMcopy
  | Exec.opCreate => Some MemFn.memoryCreate
  | Exec.opCreate2 => Some MemFn.memoryCreate2
  | Exec.opCall | Exec.opCallCode => Some MemFn.memoryCall
  | Exec.opDelegateCall => Some MemFn.memoryDelegateCall
  | Exec.opStaticCall => Some MemFn.memoryStaticCall
  | Exec.opReturn => Some MemFn.memoryReturn
  | Exec.opRevert => Some MemFn.memoryRevert
  | Exec.makeLog _ => Some MemFn.memoryLog
  | _ => None
  end.

Definition word (st : list Z) (i : nat) : Z := default 0 (st !! i).

(** The ranges of memory, as offset and length. *)
Definition ranges (mf : MemFn.t) (st : list Z) : list (Z * Z) :=
  match mf with
  | MemFn.memoryKeccak256 | MemFn.memoryReturn | MemFn.memoryRevert | MemFn.memoryLog => [(word st 0, word st 1)]
  | MemFn.memoryCallDataCopy | MemFn.memoryReturnDataCopy | MemFn.memoryCodeCopy => [(word st 0, word st 2)]
  | MemFn.memoryExtCodeCopy => [(word st 1, word st 3)]
  | MemFn.memoryMLoad | MemFn.memoryMStore => [(word st 0, 32)]
  | MemFn.memoryMStore8 => [(word st 0, 1)]
  | MemFn.memoryMcopy => [(Z.max (word st 0) (word st 1), word st 2)]
  | MemFn.memoryCreate | MemFn.memoryCreate2 => [(word st 1, word st 2)]
  | MemFn.memoryCall => [(word st 5, word st 6); (word st 3, word st 4)]
  | MemFn.memoryDelegateCall | MemFn.memoryStaticCall => [(word st 4, word st 5); (word st 2, word st 3)]
  end.

Definition mem_arity (mf : MemFn.t) : nat :=
  match mf with
  | MemFn.memoryKeccak256 | MemFn.memoryReturn | MemFn.memoryRevert | MemFn.memoryLog => 2
  | MemFn.memoryCallDataCopy | MemFn.memoryReturnDataCopy | MemFn.memoryCodeCopy
  | MemFn.memoryMcopy | MemFn.memoryCreate | MemFn.memoryCreate2 => 3
  | MemFn.memoryExtCodeCopy => 4
  | MemFn.memoryMLoad | MemFn.memoryMStore | MemFn.memoryMStore8 => 1
  | MemFn.memoryCall => 7
  | MemFn.memoryDelegateCall | MemFn.memoryStaticCall => 6
  end.

Definition covers (L : Z) (rs : list (Z * Z)) : Prop := Forall (λ r, fits L r.1 r.2) rs.

Definition covered (fn : Exec.t) (L : Z) (st : list Z) : Prop :=
  match mem_of fn with Some mf => covers L (ranges mf st) | None => True end.

Section MemorySize.
Context {St : Type}.
Implicit Types f : Frame St.

Lemma Back_total f n : (n < length (Stk f))%nat → Back n f = Done (word (Stk f) n) f.
Proof.
  intros Hn. unfold Back, of_option, word. by destruct (lookup_lt_is_Some_2 (Stk f) n Hn) as [a ->].
Qed.

Lemma word_range f n : Forall is_uint256 (Stk f) → is_uint256 (word (Stk f) n).
Proof.
  intros Hw. unfold word. destruct (Stk f !! n) as [x|] eqn:Hx; [by eapply Forall_lookup_1|cbn; b_lia].
Qed.

Lemma size_of_range_total f off l :
  (Nat.max off l < length (Stk f))%nat → size_of_range off l f = Done (calcMemSize64 (word (Stk f) off) (word (Stk f) l)) f.
Proof. intros Hn. unfold size_of_range, bind. rewrite Back_total by lia. rewrite Back_total by lia. done. Qed.

(** The size function of an entry, when there are words enough: the size covers
    the ranges. *)
Definition sized (rs : list (Z * Z)) (r : Z * bool) : Prop :=
  is_uint64 r.1 ∧ (r.2 = false → ∀ L, r.1 <= L → covers L rs).

Lemma sized_range off l :
  is_uint256 off → is_uint256 l → sized [(off, l)] (calcMemSize64 off l).
Proof.
  intros Ho Hl. split.
  - unfold calcMemSize64, calcMemSize64WithUint. repeat case_match; cbn; simplify_eq; eauto with eigen; b_lia.
  - destruct (calcMemSize64 off l) as [v o] eqn:Hc. cbn. intros -> L HL. constructor; [|constructor].
    by apply (calcMemSize64_fits off l v).
Qed.

Lemma sized_word off l : is_uint256 off → 0 < l < 2 ^ 32 → sized [(off, l)] (calcMemSize64WithUint off l).
Proof.
  intros Ho Hl. split.
  - unfold calcMemSize64WithUint. repeat case_match; cbn; simplify_eq; eauto with eigen; b_lia.
  - destruct (calcMemSize64WithUint off l) as [v o] eqn:Hc. cbn. intros -> L HL. constructor; [|constructor].
    destruct (calcMemSize64WithUint_spec off l v Ho) as [_ Hv]; [b_lia|done|]. split; cbn; [b_lia|].
    destruct (Z.eqb_spec l 0); lia.
Qed.

Lemma sized_ranges off1 l1 off2 l2 f :
  (Nat.max (Nat.max off1 l1) (Nat.max off2 l2) < length (Stk f))%nat → Forall is_uint256 (Stk f) →
  ∃ r, size_of_ranges off1 l1 off2 l2 f = Done r f ∧
    sized [(word (Stk f) off1, word (Stk f) l1); (word (Stk f) off2, word (Stk f) l2)] r.
Proof.
  intros Hn Hw. unfold size_of_ranges, bind. rewrite !size_of_range_total by lia.
  pose proof (sized_range (word (Stk f) off1) (word (Stk f) l1) (word_range f _ Hw) (word_range f _ Hw)) as [H1 H2].
  pose proof (sized_range (word (Stk f) off2) (word (Stk f) l2) (word_range f _ Hw) (word_range f _ Hw)) as [H3 H4].
  destruct (calcMemSize64 (word (Stk f) off1) _) as [x [|]]; cbn in *.
  { eexists. split; [done|]. by split. }
  rewrite size_of_range_total by lia. destruct (calcMemSize64 (word (Stk f) off2) _) as [y [|]]; cbn in *.
  { eexists. split; [done|]. by split. }
  rewrite Z.gtb_ltb. destruct (Z.ltb_spec y x); eexists; (split; [done|]); (split; [done|]); cbn; intros _ L HL;
    (constructor; [|constructor; [|constructor]]); cbn.
  all: first [exact (Forall_inv (H2 eq_refl L ltac:(lia)))|exact (Forall_inv (H4 eq_refl L ltac:(lia)))].
Qed.

Lemma memorySize_fn_spec mf f :
  (mem_arity mf <= length (Stk f))%nat → Forall is_uint256 (Stk f) →
  ∃ r, memorySize_fn mf f = Done r f ∧ sized (ranges mf (Stk f)) r.
Proof.
  intros Hn Hw. pose proof (λ n, word_range f n Hw) as Hr. destruct mf; cbn in Hn;
    first
    [ apply sized_ranges; [lia|done]
    | eexists; split; [apply size_of_range_total; lia|by apply sized_range]
    | eexists; split; [unfold memorySize_fn, memoryMLoad, memoryMStore, memoryMStore8, bind; rewrite Back_total by lia; done|
        by apply sized_word]
    | idtac ].
  unfold memorySize_fn, memoryMcopy, bind. rewrite !Back_total by lia. cbn.
  eexists. split; [done|]. cbn.
  set (m := if word (Stk f) 1 >? word (Stk f) 0 then word (Stk f) 1 else word (Stk f) 0).
  assert (m = Z.max (word (Stk f) 0) (word (Stk f) 1)) as ->
    by (unfold m; rewrite Z.gtb_ltb; destruct (Z.ltb_spec (word (Stk f) 0) (word (Stk f) 1)); lia).
  apply sized_range; [|done]. pose proof (Hr 0%nat). pose proof (Hr 1%nat). b_lia.
Qed.
End MemorySize.

(** The widths of the instructions that push. *)
Definition small_push (fn : Exec.t) : Prop :=
  match fn with Exec.makePush n k => 0 <= n <= 32 ∧ 0 <= k <= 32 | Exec.makeDup n => (1 <= n)%nat | _ => True end.

(** The fields of the environment that an instruction reads. *)
Definition provided (env : EvmEnv) (fn : Exec.t) : Prop :=
  match fn with
  | Exec.opDifficulty => is_Some (Difficulty env)
  | Exec.opRandom => is_Some (Random env)
  | Exec.opChainID => is_Some (config_ChainID env)
  | Exec.opBaseFee => is_Some (BaseFee env)
  | Exec.opBlobBaseFee => is_Some (BlobBaseFee env)
  | _ => True
  end.

(** ** Ready, and executed *)

Section Ready.
Context {St : Type} `{Hst : EvmState St} `{Hk : Keccak} `{Hlaws : !EvmStateLaws St}.
Context (env : EvmEnv).
Implicit Types (e : Evm St) (f : Frame St) (fn : Exec.t).

Record ready fn (B : Z) f : Prop := {
  rd_ok : frame_ok f;
  rd_pc : 0 <= pc f < len (Code (Con f));
  rd_gas : Gas (Con f) <= B;
  rd_stack : ((effect fn).1 <= length (Stk f))%nat;
  rd_mem : covered fn (Len (Mem f)) (Stk f);
  rd_small : small_push fn;
  rd_env : provided env fn
}.

(** The program counter, once it has moved on. *)
Definition next_pc (x : Z) : Prop := 0 <= wrap64 (x + 1) <= 2 ^ 62 + 64.

Record executed fn (B : Z) f f' : Prop := {
  ex_runs : runs f B f';
  ex_pc : next_pc (pc f');
  ex_stack : (length (Stk f') + (effect fn).1 = length (Stk f) + (effect fn).2)%nat
}.

Definition goes fn (B : Z) f (m : X (Frame St) bytes) : Prop := wp m (λ _, executed fn B f) (halts f B) f.

Lemma ready_runs fn B f : ready fn B f → runs f B f.
Proof. intros []. by apply runs_refl. Qed.

Lemma ready_pc fn B f : ready fn B f → next_pc (pc f).
Proof.
  intros [[_ _ Hc _] Hpc _ _ _ _ _]. destruct (ck_code _ Hc) as [_ Hl]. unfold next_pc. rewrite wrap64_id; b_lia.
Qed.

Lemma ready_halts fn B f err : ready fn B f → halts f B [] err f.
Proof. intros Hr. apply runs_halts; [by eapply ready_runs|apply data_ok_nil]. Qed.

Lemma ready_word fn B f i : ready fn B f → is_uint256 (word (Stk f) i).
Proof. intros Hr. apply word_range, Hr. Qed.

Lemma ready_fits fn B f mf off l :
  ready fn B f → mem_of fn = Some mf → (off, l) ∈ ranges mf (Stk f) → fits (Len (Mem f)) off l.
Proof.
  intros Hr Hm Hin. pose proof (rd_mem _ _ _ Hr) as Hc. unfold covered in Hc. rewrite Hm in Hc.
  unfold covers in Hc. rewrite Forall_forall in Hc. exact (Hc _ Hin).
Qed.

(** Only the stack changes. *)
Lemma executed_Stk fn B f st :
  ready fn B f → Forall is_uint256 st → (length st + (effect fn).1 = length (Stk f) + (effect fn).2)%nat →
  executed fn B f (set_Stk st f).
Proof.
  intros Hr Hs Hl. split; [apply runs_Stk; [by eapply ready_runs|done]|exact (ready_pc _ _ _ Hr)|done].
Qed.

(** The stack and the memory. *)
Lemma executed_Mem fn B f st m :
  ready fn B f → Forall is_uint256 st → (length st + (effect fn).1 = length (Stk f) + (effect fn).2)%nat →
  written (Mem f) m → executed fn B f (set_Mem m (set_Stk st f)).
Proof.
  intros Hr Hs Hl Hm. split; [|exact (ready_pc _ _ _ Hr)|done].
  apply runs_Mem; [apply runs_Stk; [by eapply ready_runs|done]|]. eapply written_ok; [apply Hr|done].
Qed.

(** The stack and the machine. *)
Lemma executed_Vm fn B f st e :
  ready fn B f → Forall is_uint256 st → (length st + (effect fn).1 = length (Stk f) + (effect fn).2)%nat →
  evm_ok e → evm_le (Vm f) e → executed fn B f (set_Vm e (set_Stk st f)).
Proof.
  intros Hr Hs Hl He Hle. split; [|exact (ready_pc _ _ _ Hr)|done].
  by apply runs_Vm; [apply runs_Stk; [by eapply ready_runs|done]|..].
Qed.
End Ready.

(** Name the words that an instruction takes: from [Hr : ready fn B f], the stack
    is the words and [st]. *)
Tactic Notation "stack_of" hyp(Hr) simple_intropattern(pat) :=
  pose proof (rd_stack _ _ _ _ Hr) as Hlen; pose proof (fk_stack _ (rd_ok _ _ _ _ Hr)) as Hws;
  cbn [effect fst] in Hlen;
  match type of Hlen with (_ <= length (Stk ?f))%nat => destruct (Stk f) as pat eqn:Hstk end;
  cbn [length] in Hlen; try (exfalso; lia);
  rewrite ?Forall_cons in Hws; destruct_and? Hws.

(** Run the next action on the stack. *)
Ltac wp_next :=
  lazymatch goal with
  | |- wp (bind _ _) _ _ _ => apply evm_wp_bind
  | |- wp pop _ _ _ => first [eapply wp_pop; [eassumption|] | eapply wp_pop; [reflexivity|]]
  | |- wp (Back _) _ _ _ =>
      first [eapply wp_Back; [match goal with H : Stk _ = _ |- _ => rewrite H end; reflexivity|] | eapply wp_Back; [reflexivity|]]
  | |- wp peek _ _ _ =>
      first [eapply wp_Back; [match goal with H : Stk _ = _ |- _ => rewrite H end; reflexivity|] | eapply wp_Back; [reflexivity|]]
  | |- wp (set_top _) _ _ _ => first [eapply wp_set_top; [eassumption|] | eapply wp_set_top; [reflexivity|]]
  | |- wp (push _) _ _ _ => apply wp_push
  | |- wp get _ _ _ => apply evm_wp_get
  | |- wp (gets _) _ _ _ => apply wp_gets
  | |- wp state_of _ _ _ => apply wp_gets
  | |- wp contract_of _ _ _ => apply wp_gets
  | |- wp self _ _ _ => apply wp_gets
  | |- wp (modify _) _ _ _ => apply evm_wp_modify
  | |- wp (ret _) _ _ _ => apply evm_wp_ret
  end.
Ltac wp_run := repeat wp_next.

(** The first action of a sequence. *)
Ltac into := lazymatch goal with |- wp (bind _ _) _ _ _ => apply evm_wp_bind | _ => idtac end.

(** One write of each kind, the stack first. *)
Ltac frame_norm :=
  repeat match goal with
  | |- context [set_Stk ?a (set_Stk ?b ?f)] => change (set_Stk a (set_Stk b f)) with (set_Stk a f)
  | |- context [set_Stk ?a (set_Vm ?b ?f)] => change (set_Stk a (set_Vm b f)) with (set_Vm b (set_Stk a f))
  | |- context [set_Stk ?a (set_Mem ?b ?f)] => change (set_Stk a (set_Mem b f)) with (set_Mem b (set_Stk a f))
  | |- context [set_Stk ?a (set_Con ?b ?f)] => change (set_Stk a (set_Con b f)) with (set_Con b (set_Stk a f))
  | |- context [set_Stk ?a (set_pc ?b ?f)] => change (set_Stk a (set_pc b f)) with (set_pc b (set_Stk a f))
  | |- context [set_Vm ?a (set_Vm ?b ?f)] => change (set_Vm a (set_Vm b f)) with (set_Vm a f)
  end.

(** What is left to show at the end: the words of the new stack and its length. *)
Ltac wp_words := repeat (apply Forall_cons; split); try assumption; auto with eigen.
Ltac wp_length := repeat match goal with H : Stk _ = _ |- _ => rewrite H | H : effect _ = _ |- _ => rewrite H end; cbn; lia.
