(* ===== verification/EvmInstr.v ===== *)
(** * The instructions are safe

    An instruction that is [ready] is [executed]: it does not panic, its words stay
    words, its gas within the budget.  The instructions that call are in
    the second part. *)

From S2P Require ChainConfig StateTypes.
From S2P Require Import Prelude Crypto TxTypes VMInterface EvmCode EvmBase EvmState EvmFrame EvmOps EvmMemory EvmWp.

(** ** Words *)

Section Words.
Context `{Hu : Uint256}.

Lemma small_uint256 x y : is_uint256 y → 0 <= x <= y → is_uint256 x.
Proof. b_lia. Qed.

Lemma bits_range x n : 0 <= n → 0 <= x < 2 ^ n ↔ 0 <= x ∧ ∀ i, n <= i → Z.testbit x i = false.
Proof.
  intros Hn. split.
  - intros [H0 Hx]. split; [done|]. intros i Hi. destruct (Z.eq_dec x 0) as [->|]; [by rewrite Z.bits_0|].
    apply Z.bits_above_log2; [done|]. enough (Z.log2 x < n) by lia. apply Z.log2_lt_pow2; lia.
  - intros [H0 Hb]. split; [done|]. destruct (Z.eq_dec x 0) as [->|]; [lia|].
    destruct (Z.lt_ge_cases x (2 ^ n)) as [|Hge]; [done|]. exfalso.
    assert (n <= Z.log2 x) as Hl by (apply Z.log2_le_pow2; lia).
    specialize (Hb _ Hl). rewrite Z.bit_log2 in Hb by lia. done.
Qed.

Lemma uint256_bits x : is_uint256 x ↔ 0 <= x ∧ ∀ i, 256 <= i → Z.testbit x i = false.
Proof. exact (bits_range x 256 ltac:(lia)). Qed.

Lemma land_range x y : is_uint256 x → is_uint256 y → is_uint256 (Z.land x y).
Proof.
  rewrite !uint256_bits. intros [H1 H2] [H3 H4]. split; [by apply Z.land_nonneg; left|].
  intros i Hi. by rewrite Z.land_spec, H2.
Qed.

Lemma lor_range x y : is_uint256 x → is_uint256 y → is_uint256 (Z.lor x y).
Proof.
  rewrite !uint256_bits. intros [H1 H2] [H3 H4]. split; [by apply Z.lor_nonneg|].
  intros i Hi. by rewrite Z.lor_spec, H2, H4.
Qed.

Lemma lxor_range x y : is_uint256 x → is_uint256 y → is_uint256 (Z.lxor x y).
Proof.
  rewrite !uint256_bits. intros [H1 H2] [H3 H4]. split; [by apply Z.lxor_nonneg|].
  intros i Hi. by rewrite Z.lxor_spec, H2, H4.
Qed.

Lemma shiftr_range x n : is_uint256 x → 0 <= n → is_uint256 (Z.shiftr x n).
Proof.
  intros Hx Hn. rewrite Z.shiftr_div_pow2 by done. pose proof (Z.pow_pos_nonneg 2 n).
  apply (small_uint256 _ x); [done|]. split; [apply Z.div_pos; b_lia|]. apply Z.div_le_upper_bound; [lia|]. unfold is_uint256 in *. nia.
Qed.

Lemma div_range x y : is_uint256 x → is_uint256 y → is_uint256 (if y =? 0 then 0 else x / y).
Proof.
  intros Hx Hy. destruct (Z.eqb_spec y 0); [b_lia|]. apply (small_uint256 _ x); [done|]. unfold is_uint256 in *.
  split; [apply Z.div_pos; lia|]. apply Z.div_le_upper_bound; nia.
Qed.

Lemma mod_range a y : is_uint256 y → is_uint256 (if y =? 0 then 0 else a mod y).
Proof.
  intros Hy. destruct (Z.eqb_spec y 0); [b_lia|]. apply (small_uint256 _ y); [done|]. unfold is_uint256 in *.
  pose proof (Z.mod_pos_bound a y). lia.
Qed.

Lemma zero_uint256 : is_uint256 0.
Proof. b_lia. Qed.

Lemma if_range (b : bool) x y : is_uint256 x → is_uint256 y → is_uint256 (if b then x else y).
Proof. by destruct b. Qed.

(** The operations of the library are words. *)
Lemma SDiv_range x y : is_uint256 x → is_uint256 y → is_uint256 (SDiv x y).
Proof. intros Hx Hy. rewrite SDiv_doc by done. apply if_range; [apply zero_uint256|apply wrap256_range]. Qed.
Lemma SMod_range x y : is_uint256 x → is_uint256 y → is_uint256 (SMod x y).
Proof. intros Hx Hy. rewrite SMod_doc by done. apply if_range; [apply zero_uint256|apply wrap256_range]. Qed.
Lemma Exp_range x y : is_uint256 x → is_uint256 y → is_uint256 (Exp x y).
Proof. intros Hx Hy. rewrite Exp_doc by done. apply wrap256_range. Qed.
Lemma ExtendSign_range x y : is_uint256 x → is_uint256 y → is_uint256 (ExtendSign x y).
Proof. intros Hx Hy. rewrite ExtendSign_doc by done. apply if_range; [done|apply wrap256_range]. Qed.
Lemma Byte_range x y : is_uint256 x → is_uint256 y → is_uint256 (Byte_ x y).
Proof.
  intros Hx Hy. rewrite Byte_doc by done. apply if_range; [|apply zero_uint256].
  pose proof (Z.mod_pos_bound (Z.shiftr x (8 * (31 - y))) 256). b_lia.
Qed.
Lemma AddMod_range x y z : is_uint256 x → is_uint256 y → is_uint256 z → is_uint256 (AddMod x y z).
Proof. intros Hx Hy Hz. rewrite AddMod_doc by done. by apply mod_range. Qed.
Lemma MulMod_range x y z : is_uint256 x → is_uint256 y → is_uint256 z → is_uint256 (MulMod x y z).
Proof. intros Hx Hy Hz. rewrite MulMod_doc by done. by apply mod_range. Qed.
Lemma SRsh_range x y : is_uint256 x → is_uint256 (SRsh x (Uint64 y)).
Proof. intros Hx. rewrite SRsh_doc by auto with eigen. apply wrap256_range. Qed.

Lemma max_word : is_uint256 (two256 - 1).
Proof. b_lia. Qed.
End Words.

#[export] Hint Resolve land_range lor_range lxor_range div_range mod_range zero_uint256 if_range
  SDiv_range SMod_range Exp_range ExtendSign_range Byte_range AddMod_range MulMod_range SRsh_range max_word : eigen.

(** ** The instructions *)

Section Instr.
Context {St : Type} `{Hst : EvmState St} `{Hk : Keccak} `{Hlaws : !EvmStateLaws St} `{Hu : Uint256}.
Context (env : EvmEnv) (Henv : env_ok env) (abort : Frame St → bool) (calls : Calls St).
Implicit Types (e : Evm St) (f : Frame St) (fn : Exec.t).
Abbreviation ready := (ready env).
Abbreviation executed_Stk := (executed_Stk env).
Abbreviation executed_Mem := (executed_Mem env).
Abbreviation executed_Vm := (executed_Vm env).

(** ** Words *)

Lemma goes_nil fn B f f' : executed fn B f f' → wp nil_nil (λ _, executed fn B f) (halts f B) f'.
Proof. done. Qed.

Lemma goes_binary fn B f g :
  ready fn B f → effect fn = (2, 1)%nat → (∀ x y, is_uint256 x → is_uint256 y → is_uint256 (g x y)) →
  goes fn B f (binary g).
Proof.
  intros Hr He Hg. pose proof (rd_stack _ _ _ _ Hr) as Hlen. pose proof (fk_stack _ (rd_ok _ _ _ _ Hr)) as Hws. rewrite He in Hlen.
  destruct (Stk f) as [|x [|y st]] eqn:Hstk; cbn in Hlen; try lia. rewrite !Forall_cons in Hws. destruct_and! Hws.
  unfold goes, binary. wp_run. apply goes_nil. frame_norm. apply executed_Stk; [done| |wp_length].
  apply Forall_cons. auto.
Qed.

Lemma goes_ternary fn B f g :
  ready fn B f → effect fn = (3, 1)%nat →
  (∀ x y z, is_uint256 x → is_uint256 y → is_uint256 z → is_uint256 (g x y z)) → goes fn B f (ternary g).
Proof.
  intros Hr He Hg. pose proof (rd_stack _ _ _ _ Hr) as Hlen. pose proof (fk_stack _ (rd_ok _ _ _ _ Hr)) as Hws. rewrite He in Hlen.
  destruct (Stk f) as [|x [|y [|z st]]] eqn:Hstk; cbn in Hlen; try lia. rewrite !Forall_cons in Hws. destruct_and! Hws.
  unfold goes, ternary. wp_run. apply goes_nil. frame_norm. apply executed_Stk; [done| |wp_length].
  apply Forall_cons. auto.
Qed.

(** The top is replaced. *)
Lemma goes_top fn B f v :
  ready fn B f → effect fn = (1, 1)%nat → is_uint256 v →
  wp (set_top v) (λ _, executed fn B f) (halts f B) f.
Proof.
  intros Hr He Hv. pose proof (rd_stack _ _ _ _ Hr) as Hlen. pose proof (fk_stack _ (rd_ok _ _ _ _ Hr)) as Hws. rewrite He in Hlen.
  destruct (Stk f) as [|x st] eqn:Hstk; cbn in Hlen; try lia. rewrite !Forall_cons in Hws. destruct_and! Hws.
  wp_run. apply executed_Stk; [done| |wp_length]. by apply Forall_cons.
Qed.

Lemma goes_peek_top fn B f g :
  ready fn B f → effect fn = (1, 1)%nat → (∀ x, is_uint256 x → is_uint256 (g x)) →
  goes fn B f (do x <- peek; do! set_top (g x); nil_nil).
Proof.
  intros Hr He Hg. pose proof (rd_stack _ _ _ _ Hr) as Hlen. rewrite He in Hlen. unfold goes.
  apply evm_wp_bind, wp_Back with (x := word (Stk f) 0); [unfold word; by destruct (Stk f); cbn in *; [lia|]|].
  apply evm_wp_bind. eapply evm_wp_mono; [apply goes_top; [done|done|apply Hg; by eapply ready_word]|done|done].
Qed.

Lemma goes_push_word fn B f v :
  ready fn B f → effect fn = (0, 1)%nat → is_uint256 v → goes fn B f (push_word v).
Proof.
  intros Hr He Hv. unfold goes, push_word. wp_run. apply goes_nil, executed_Stk; [done| |wp_length].
  apply Forall_cons. split; [done|]. apply Hr.
Qed.

Lemma goes_push_big fn B f o : ready fn B f → effect fn = (0, 1)%nat → is_Some o → goes fn B f (push_big o).
Proof.
  intros Hr He [v ->]. unfold goes, push_big. apply evm_wp_bind. eapply evm_wp_of_option; [done|].
  apply goes_push_word; auto with eigen.
Qed.
(** ** Memory *)

Lemma goes_keccak B f : ready Exec.opKeccak256 B f → goes Exec.opKeccak256 B f (opKeccak256 env).
Proof.
  intros Hr. pose proof (ready_fits _ _ _ _ MemFn.memoryKeccak256 (word (Stk f) 0) (word (Stk f) 1) Hr eq_refl ltac:(left)) as Hfit.
  stack_of Hr [|x [|y st]]. unfold goes, opKeccak256. wp_run.
  destruct (GetPtr_ok (Mem f) x y) as (d & Hd & [Hdb Hdl] & _); [apply Hr|done|exact Hfit|].
  into. eapply wp_mem_get; [exact Hd|]. apply evm_wp_bind.
  assert (is_uint256 (Keccak256Hash d)) as Hh by apply Keccak256Hash_range.
  assert (evm_ok (Vm f)) as He by apply Hr.
  assert (∀ e, evm_ok e → evm_le (Vm f) e →
    wp (do! set_top (Keccak256Hash d); nil_nil) (λ _, executed Exec.opKeccak256 B f) (halts f B) (set_Vm e (set_Stk (y :: st) f))) as Hend.
  { intros e Hok Hle. wp_run. apply goes_nil. frame_norm. apply executed_Vm; [done|by apply Forall_cons|wp_length|done..]. }
  destruct (EnablePreimageRecording env).
  - apply wp_act; [done..|]. intros e Hok Hle _. by apply Hend.
  - apply evm_wp_ret. apply (Hend (Vm f)); [done|by apply evm_le_refl].
Qed.

Lemma wp_copy_to_memory f memOffset data dataOffset l (P : bytes → Frame St → Prop) R :
  mem_ok (Mem f) → data_ok data → is_uint256 memOffset → is_uint256 dataOffset → fits (Len (Mem f)) memOffset l →
  (∀ m, written (Mem f) m → P [] (set_Mem m f)) →
  wp (copy_to_memory memOffset data dataOffset l) P R f.
Proof.
  intros Hm Hd Ho Hdo Hf HP. unfold copy_to_memory, Uint64WithOverflow.
  assert (0 <= Uint64 l <= max_memory) as Hl.
  { pose proof (mp_max _ _ Hm). destruct Hf as [Hl64 Hf]. rewrite Uint64_id by done.
    destruct (Z.eq_dec l 0); [unfold max_memory; lia|]. specialize (Hf ltac:(done)). b_lia. }
  set (off := if negb (IsUint64 dataOffset) then max_uint64 else wrap64 dataOffset).
  assert (is_uint64 off) as Hoff by (unfold off; destruct (negb _); [b_lia|apply wrap64_range]).
  destruct (getData_ok data off (Uint64 l) Hd Hoff Hl) as (d & Hgd & Hdb & Hdl).
  into. eapply evm_wp_of_option; [exact Hgd|]. apply evm_wp_bind.
  destruct (Set_ok (Mem f) memOffset l d Hm Ho Hf Hdb) as (m & Hset & Hw).
  eapply wp_mem_put; [exact Hset|]. by apply HP.
Qed.

(** The copies of 3 words: the call data and the code. *)
Lemma goes_copy fn B f mf (data : Contract → bytes) :
  ready fn B f → effect fn = (3, 0)%nat → mem_of fn = Some mf → ranges mf = ranges MemFn.memoryCodeCopy → data_ok (data (Con f)) →
  goes fn B f (do memOffset <- pop; do dataOffset <- pop; do length <- pop; do c <- contract_of;
    copy_to_memory memOffset (data c) dataOffset length).
Proof.
  intros Hr He Hm Hrg Hd.
  pose proof (ready_fits _ _ _ _ mf (word (Stk f) 0) (word (Stk f) 2) Hr Hm ltac:(rewrite Hrg; left)) as Hfit.
  pose proof (rd_stack _ _ _ _ Hr) as Hlen. pose proof (fk_stack _ (rd_ok _ _ _ _ Hr)) as Hws. rewrite He in Hlen.
  destruct (Stk f) as [|x [|y [|z st]]] eqn:Hstk; cbn in Hlen; try lia. rewrite !Forall_cons in Hws. destruct_and! Hws.
  unfold goes. wp_run. frame_norm. apply wp_copy_to_memory; [apply Hr|done..|].
  intros m Hw. apply executed_Mem; [done|done|wp_length|done].
Qed.

Lemma goes_extcodecopy B f : ready Exec.opExtCodeCopy B f → goes Exec.opExtCodeCopy B f opExtCodeCopy.
Proof.
  intros Hr. pose proof (ready_fits _ _ _ _ MemFn.memoryExtCodeCopy (word (Stk f) 1) (word (Stk f) 3) Hr eq_refl ltac:(left)) as Hfit.
  stack_of Hr [|a [|x [|y [|z st]]]]. unfold goes, opExtCodeCopy. wp_run. frame_norm.
  apply wp_copy_to_memory; [apply Hr|apply good_code, Hr|done..|].
  intros m Hw. apply executed_Mem; [done|done|wp_length|done].
Qed.

Lemma goes_returndatacopy B f : ready Exec.opReturnDataCopy B f → goes Exec.opReturnDataCopy B f opReturnDataCopy.
Proof.
  intros Hr. pose proof (ready_fits _ _ _ _ MemFn.memoryReturnDataCopy (word (Stk f) 0) (word (Stk f) 2) Hr eq_refl ltac:(left)) as Hfit.
  pose proof (λ err st Hst, runs_halts f B _ [] err (runs_Stk f B f st (ready_runs _ _ _ _ Hr) Hst) data_ok_nil) as Hhalt.
  stack_of Hr [|x [|y [|z st]]]. cbn in Hfit. unfold goes, opReturnDataCopy. wp_run. frame_norm.
  unfold Uint64WithOverflow, IsUint64. destruct (Z.ltb_spec y two64) as [Hy|]; cbn [negb]; [|by apply evm_wp_fail, Hhalt].
  assert (is_uint64 z) as Hz by apply Hfit. assert (is_uint256 (y + z)) as Hsum by b_lia. rewrite (wrap256_id (y + z)) by done.
  destruct (Z.ltb_spec (y + z) two64) as [Hyz|]; cbn [negb orb]; [|by apply evm_wp_fail, Hhalt].
  rewrite !wrap64_id by b_lia. cbn [Vm set_Stk].
  destruct (Z.ltb_spec (len (returnData (Vm f))) (y + z)) as [|Hle]; [by apply evm_wp_fail, Hhalt|].
  destruct (slice_ok (returnData (Vm f)) y (y + z)) as (d & Hs & Hd & _); [apply Hr|b_lia|done|].
  into. eapply evm_wp_of_option; [exact Hs|]. apply evm_wp_bind.
  destruct (Set_ok (Mem f) x z d) as (m & Hset & Hw); [apply Hr|done..|].
  eapply wp_mem_put; [exact Hset|]. apply goes_nil, executed_Mem; [done|done|wp_length|done].
Qed.

Lemma goes_mload B f : ready Exec.opMload B f → goes Exec.opMload B f opMload.
Proof.
  intros Hr. pose proof (ready_fits _ _ _ _ MemFn.memoryMLoad (word (Stk f) 0) 32 Hr eq_refl ltac:(left)) as Hfit.
  stack_of Hr [|x st]. cbn in Hfit. unfold goes, opMload. wp_run.
  destruct (GetPtr_ok (Mem f) x 32) as (d & Hd & [Hdb Hdl] & Hl); [apply Hr|done|done|].
  into. eapply wp_mem_get; [exact Hd|]. wp_run. apply goes_nil, executed_Stk; [done| |wp_length].
  apply Forall_cons. split; [by apply be_decode_word|done].
Qed.

Lemma goes_mstore B f : ready Exec.opMstore B f → goes Exec.opMstore B f opMstore.
Proof.
  intros Hr. pose proof (ready_fits _ _ _ _ MemFn.memoryMStore (word (Stk f) 0) 32 Hr eq_refl ltac:(left)) as Hfit.
  stack_of Hr [|x [|y st]]. cbn in Hfit. unfold goes, opMstore. wp_run. frame_norm.
  destruct (Set32_ok (Mem f) x y) as (m & Hset & Hw); [apply Hr|done|by apply Hfit|].
  into. eapply wp_mem_put; [exact Hset|]. apply goes_nil, executed_Mem; [done|done|wp_length|done].
Qed.

Lemma set_byte_ok m off v :
  mem_ok m → is_uint256 off → off + 1 <= Len m → ∃ m', set_byte m (Uint64 off) v = Some m' ∧ written m m'.
Proof.
  intros Hm Ho Hle. unfold set_byte. destruct (fits_Uint64 m off 1 Hm Ho) as (-> & _); [by split|done|].
  destruct (lookup_lt_is_Some_2 (store m) (Z.to_nat off)) as [b Hb]; [unfold Len, len in Hle; b_lia|].
  rewrite Hb. cbn. eexists. split; [done|]. split; [|split; [|done]].
  - cbn. apply Forall_insert; [apply Hm|]. unfold is_byte. apply Z.mod_pos_bound. lia.
  - unfold Len, len. cbn. by rewrite length_insert.
Qed.

Lemma goes_mstore8 B f : ready Exec.opMstore8 B f → goes Exec.opMstore8 B f opMstore8.
Proof.
  intros Hr. pose proof (ready_fits _ _ _ _ MemFn.memoryMStore8 (word (Stk f) 0) 1 Hr eq_refl ltac:(left)) as Hfit.
  stack_of Hr [|x [|y st]]. cbn in Hfit. unfold goes, opMstore8. wp_run. frame_norm.
  destruct (set_byte_ok (Mem f) x (Uint64 y)) as (m & Hset & Hw); [apply Hr|done|by apply Hfit|].
  into. eapply wp_mem_put; [exact Hset|]. apply goes_nil, executed_Mem; [done|done|wp_length|done].
Qed.

Lemma goes_mcopy B f : ready Exec.opMcopy B f → goes Exec.opMcopy B f opMcopy.
Proof.
  intros Hr. pose proof (ready_fits _ _ _ _ MemFn.memoryMcopy (Z.max (word (Stk f) 0) (word (Stk f) 1)) (word (Stk f) 2) Hr eq_refl ltac:(left)) as Hfit.
  stack_of Hr [|x [|y [|z st]]]. cbn in Hfit. unfold goes, opMcopy. wp_run. frame_norm.
  destruct (Copy_ok (Mem f) x y z) as (m & Hset & Hw); [apply Hr|done..|].
  into. eapply wp_mem_put; [exact Hset|]. apply goes_nil, executed_Mem; [done|done|wp_length|done].
Qed.


(** ** The state *)

Lemma goes_calldataload B f : ready Exec.opCallDataLoad B f → goes Exec.opCallDataLoad B f opCallDataLoad.
Proof.
  intros Hr. unfold goes, opCallDataLoad, Uint64WithOverflow.
  assert (Stk f !! 0%nat = Some (word (Stk f) 0)) as H0.
  { pose proof (rd_stack _ _ _ _ Hr) as Hl. cbn in Hl. unfold word. by destruct (Stk f); cbn in *; [lia|]. }
  into. eapply wp_Back; [exact H0|]. wp_run. cbn [Con].
  assert (∀ v, is_uint256 v → wp (set_top v) (λ _ f', wp nil_nil (λ _, executed Exec.opCallDataLoad B f) (halts f B) f') (halts f B) f) as Hend
    by (intros v Hv; by apply goes_top).
  into. destruct (negb (IsUint64 _)); cbn [negb].
  - apply Hend, zero_uint256.
  - destruct (getData_ok (Input (Con f)) (wrap64 (word (Stk f) 0)) 32) as (d & Hd & Hb & Hl); [apply Hr|apply wrap64_range|done|].
    into. eapply evm_wp_of_option; [exact Hd|]. apply Hend. by apply be_decode_word.
Qed.

Lemma goes_sload B f : ready Exec.opSload B f → goes Exec.opSload B f opSload.
Proof.
  intros Hr. stack_of Hr [|x st]. unfold goes, opSload. wp_run. apply goes_nil, executed_Stk; [done| |wp_length].
  apply Forall_cons. split; [apply good_state, Hr|done].
Qed.

Lemma goes_tload B f : ready Exec.opTload B f → goes Exec.opTload B f opTload.
Proof.
  intros Hr. stack_of Hr [|x st]. unfold goes, opTload. wp_run. apply goes_nil, executed_Stk; [done| |wp_length].
  apply Forall_cons. split; [apply good_transient, Hr|done].
Qed.

Lemma wp_write_protected fn B f (P : unit → Frame St → Prop) :
  ready fn B f → (readOnly (Vm f) = false → P tt f) → wp write_protected P (halts f B) f.
Proof.
  intros Hr HP. unfold write_protected. wp_run. destruct (readOnly (Vm f)); [apply evm_wp_fail; by eapply ready_halts|by apply HP].
Qed.

Lemma goes_sstore B f : ready Exec.opSstore B f → goes Exec.opSstore B f opSstore.
Proof.
  intros Hr. unfold goes, opSstore. into. eapply wp_write_protected; [done|]. intros Hro.
  stack_of Hr [|x [|y st]]. wp_run. frame_norm.
  apply wp_act; [apply Hr|done|cbn; congruence|]. intros e He Hle _. apply goes_nil, executed_Vm; [done|done|wp_length|done|done].
Qed.

Lemma goes_tstore B f : ready Exec.opTstore B f → goes Exec.opTstore B f opTstore.
Proof.
  intros Hr. unfold goes, opTstore. into. eapply wp_write_protected; [done|]. intros Hro.
  stack_of Hr [|x [|y st]]. wp_run. frame_norm.
  apply wp_act; [apply Hr|done|cbn; congruence|]. intros e He Hle _. apply goes_nil, executed_Vm; [done|done|wp_length|done|done].
Qed.

Lemma wp_pop_n n f (P : list Z → Frame St → Prop) R :
  (n <= length (Stk f))%nat → P (take n (Stk f)) (set_Stk (drop n (Stk f)) f) → wp (pop_n n) P R f.
Proof.
  revert f P. induction n as [|n IH]; intros f P Hn HP; cbn [pop_n].
  - wp_run. cbn in HP. by destruct f.
  - destruct (Stk f) as [|x st] eqn:Hs; cbn in Hn; [lia|]. into. eapply wp_pop; [exact Hs|]. into.
    apply IH; [cbn; lia|]. wp_run. exact HP.
Qed.

Lemma goes_log n B f : ready (Exec.makeLog n) B f → goes (Exec.makeLog n) B f (makeLog n).
Proof.
  intros Hr. pose proof (ready_fits _ _ _ _ MemFn.memoryLog (word (Stk f) 0) (word (Stk f) 1) Hr eq_refl ltac:(left)) as Hfit.
  unfold goes, makeLog. into. eapply wp_write_protected; [done|]. intros Hro.
  stack_of Hr [|x [|y st]]. cbn in Hfit. into. eapply wp_pop; [exact Hstk|]. into. eapply wp_pop; [reflexivity|]. into.
  apply wp_pop_n; [cbn; lia|]. frame_norm. cbn [Stk set_Stk].
  destruct (GetCopy_ok (Mem f) x y) as (d & Hd & _); [apply Hr|done|done|].
  into. eapply wp_mem_get; [exact Hd|]. wp_run.
  apply wp_act; [apply Hr|done|cbn; congruence|]. intros e He Hle _.
  apply goes_nil, executed_Vm; [done|by apply Forall_drop|rewrite length_drop, Hstk; cbn; lia|done|done].
Qed.

(** ** Jumps *)

Lemma isCode_spec f udest :
  frame_ok f → 0 <= udest < len (Code (Con f)) →
  ∃ code a c e, data_ok code ∧ codeBitmap code = Some a ∧ Keccak256Hash code = Keccak256Hash (Code (Con f)) ∧
    con_ok c ∧ Code c = Code (Con f) ∧ Gas c = Gas (Con f) ∧
    evm_ok e ∧ StateDB e = StateDB (Vm f) ∧ readOnly e = readOnly (Vm f) ∧ depth e = depth (Vm f) ∧
    isCode udest f = of_option AnalysisPanic (codeSegment a udest) (set_Con c (set_Vm e f)).
Proof.
  intros [Hs Hm Hc He] Hu'. assert (∀ c a, con_ok c → analysis_of (Keccak256Hash (Code c)) a → con_ok (set_analysis c a)) as Hset.
  { intros c a [] Ha. split; try done. by intros ? [= <-]. }
  assert (data_ok (Code (Con f))) as Hd by apply Hc. destruct (codeBitmap_total (Code (Con f))) as [b Hb]; [apply Hd|].
  assert (analysis_of (Keccak256Hash (Code (Con f))) b) as Hab by by exists (Code (Con f)).
  unfold isCode, contract_of, bind, gets. destruct (analysis (Con f)) as [a|] eqn:Ha.
  { destruct (ck_analysis _ Hc a Ha) as (code & H1 & H2 & H3). exists code, a, (Con f), (Vm f). by destruct f. }
  destruct (Z.eqb_spec (CodeHash (Con f)) 0) as [Hz|Hnz]; cbn [negb].
  { rewrite Hb. exists (Code (Con f)), b, (set_analysis (Con f) b), (Vm f). split_and!; auto. }
  destruct (ck_hash _ Hc) as [|Hh]; [intros Hn; rewrite Hn in Hu'; unfold len in Hu'; cbn in Hu'; lia|done|].
  destruct (jumpDests (Vm f) !! CodeHash (Con f)) as [a|] eqn:Hj.
  { destruct (ek_jumps _ He _ _ Hj) as (code & H1 & H2 & H3). rewrite Hh in H3.
    exists code, a, (set_analysis (Con f) a), (Vm f). split_and!; try done. apply Hset; [done|]. by exists code. }
  rewrite Hb. cbn.
  exists (Code (Con f)), b, (set_analysis (Con f) b), (set_jumpDests (Vm f) (<[CodeHash (Con f) := b]> (jumpDests (Vm f)))).
  split_and!; auto. destruct He as [E1 E2 E3 E4]. split; try done. intros h a. cbn. rewrite lookup_insert.
  case_decide as Heq; [|apply E4]. intros [= <-]. by rewrite <-Heq, Hh.
Qed.

Lemma wp_validJumpdest f dest (P : bool → Frame St → Prop) R :
  frame_ok f → 0 <= dest →
  (∀ b c e, con_ok c → Code c = Code (Con f) → Gas c = Gas (Con f) → evm_ok e → evm_le (Vm f) e →
     (b = true → dest < len (Code (Con f))) → P b (set_Con c (set_Vm e f))) →
  wp (validJumpdest dest) P R f.
Proof.
  intros Hf Hd HP.
  assert (∀ b, (b = true → dest < len (Code (Con f))) → P b f) as Hsame.
  { intros b Hb. specialize (HP b (Con f) (Vm f)). destruct Hf as [? ? Hc He].
    replace f with (set_Con (Con f) (set_Vm (Vm f) f)) by by destruct f. apply HP; auto using evm_le_refl. }
  unfold validJumpdest, Uint64WithOverflow, IsUint64. into. apply wp_gets.
  destruct (Z.ltb_spec dest two64) as [Hlt|]; cbn [negb orb]; [|apply evm_wp_ret, Hsame; done].
  rewrite wrap64_id by b_lia. rewrite Z.geb_leb. destruct (Z.leb_spec (len (Code (Con f))) dest) as [|Hin]; [apply evm_wp_ret, Hsame; done|].
  destruct (lookup_lt_is_Some_2 (Code (Con f)) (Z.to_nat dest)) as [op Hop]; [unfold len in Hin; lia|].
  into. eapply evm_wp_of_option; [exact Hop|]. destruct (negb (op =? JUMPDEST)); [apply evm_wp_ret, Hsame; done|].
  destruct (isCode_spec f dest Hf) as (code & a & c & e & _ & _ & _ & H1 & H2 & H3 & H4 & H5 & H6 & H7 & Heq); [lia|].
  unfold wp. rewrite Heq. unfold of_option. destruct (codeSegment a dest); cbn; [|by right].
  apply HP; [done..| |done]. eapply evm_le_with; [apply evm_le_refl, Hf|done..].
Qed.

(** A jump, after its destination was taken from the stack. *)
Lemma goes_jump_to fn B f st dest :
  ready fn B f → Forall is_uint256 st → (length st + (effect fn).1 = length (Stk f) + (effect fn).2)%nat → is_uint256 dest →
  wp (do ok <- validJumpdest dest;
      if negb ok then fail ErrInvalidJump else do! modify (set_pc (wrap64 (Uint64 dest - 1))); nil_nil)
    (λ _, executed fn B f) (halts f B) (set_Stk st f).
Proof.
  intros Hr Hs Hl Hd. pose proof (runs_Stk f B f st (ready_runs _ _ _ _ Hr) Hs) as Hruns.
  into. apply wp_validJumpdest; [apply Hruns|b_lia|]. intros b c e Hc Hcode Hgas He Hle Hb.
  assert (runs f B (set_Con c (set_Vm e (set_Stk st f)))) as Hend.
  { apply runs_Con; [by apply runs_Vm|done|done|]. rewrite Hgas. apply Hruns. }
  destruct b; cbn [negb]; [|apply evm_wp_fail; apply runs_halts; [done|apply data_ok_nil]].
  wp_run. apply goes_nil. split; [by apply runs_pc| |exact Hl]. cbn. unfold next_pc.
  destruct (ck_code _ (fk_con _ (rd_ok _ _ _ _ Hr))) as [_ Hlen]. specialize (Hb eq_refl). change (dest < len (Code (Con f))) in Hb.
  rewrite (Uint64_id dest) by b_lia. unfold wrap64. rewrite Zplus_mod_idemp_l. replace (dest - 1 + 1) with dest by lia.
  rewrite Z.mod_small; b_lia.
Qed.

Lemma goes_jump B f : ready Exec.opJump B f → goes Exec.opJump B f (opJump abort).
Proof.
  intros Hr. unfold goes, opJump. wp_run. destruct (abort f); [apply evm_wp_fail; by eapply ready_halts|].
  stack_of Hr [|x st]. into. eapply wp_pop; [exact Hstk|]. apply goes_jump_to; [done|done|wp_length|done].
Qed.

Lemma goes_jumpi B f : ready Exec.opJumpi B f → goes Exec.opJumpi B f (opJumpi abort).
Proof.
  intros Hr. unfold goes, opJumpi. wp_run. destruct (abort f); [apply evm_wp_fail; by eapply ready_halts|].
  stack_of Hr [|x [|y st]]. into. eapply wp_pop; [exact Hstk|]. into. eapply wp_pop; [reflexivity|]. frame_norm.
  destruct (negb (y =? 0)); [apply goes_jump_to; [done|done|wp_length|done]|].
  apply goes_nil, executed_Stk; [done|done|wp_length].
Qed.


(** ** Pushes, dups and swaps *)

Lemma pushed fn B f v x :
  ready fn B f → effect fn = (0, 1)%nat → is_uint256 v → next_pc x →
  executed fn B f (set_pc x (set_Stk (v :: Stk f) f)).
Proof.
  intros Hr He Hv Hx. split; [|done|cbn; rewrite He; cbn; lia].
  apply runs_pc, runs_Stk; [by eapply ready_runs|]. apply Forall_cons. split; [done|]. apply Hr.
Qed.

Lemma goes_push1 B f : ready Exec.opPush1 B f → goes Exec.opPush1 B f opPush1.
Proof.
  intros Hr. pose proof (rd_pc _ _ _ _ Hr) as Hpc. destruct (ck_code _ (fk_con _ (rd_ok _ _ _ _ Hr))) as [Hb Hl].
  assert (wrap64 (pc f + 1) = pc f + 1) as Hw by (apply wrap64_id; b_lia).
  assert (next_pc (pc f + 1)) as Hn by (unfold next_pc; rewrite wrap64_id; b_lia).
  unfold goes, opPush1. wp_run. cbn [pc set_pc Code Con]. rewrite Hw.
  destruct (Z.ltb_spec (pc f + 1) (len (Code (Con f)))) as [Hlt|].
  - destruct (lookup_lt_is_Some_2 (Code (Con f)) (Z.to_nat (pc f + 1))) as [x Hx]; [unfold len in Hlt; lia|].
    into. eapply evm_wp_of_option; [exact Hx|]. unfold push_word. wp_run. apply goes_nil, (pushed _ B f x); [done|done| |done].
    pose proof (Forall_lookup_1 _ _ _ _ Hb Hx) as Hbx. unfold is_byte in Hbx. b_lia.
  - unfold push_word. wp_run. apply goes_nil, (pushed _ B f 0); [done|done|apply zero_uint256|done].
Qed.

Lemma push_value_range d missing :
  Forall is_byte d → 0 <= len d <= 32 →
  is_uint256 (if missing >? 0 then wrap256 (Z.shiftl (be_decode d) (8 * missing)) else be_decode d).
Proof.
  intros Hd Hl. apply if_range; [apply wrap256_range|]. pose proof (be_decode_range d Hd) as Hr.
  assert (256 ^ Z.of_nat (length d) <= 256 ^ 32) by (apply Z.pow_le_mono_r; unfold len in Hl; lia).
  change (256 ^ 32) with two256 in *. b_lia.
Qed.

Lemma goes_makePush n k B f : ready (Exec.makePush n k) B f → goes (Exec.makePush n k) B f (makePush n k).
Proof.
  intros Hr. pose proof (rd_pc _ _ _ _ Hr) as Hpc. destruct (ck_code _ (fk_con _ (rd_ok _ _ _ _ Hr))) as [Hb Hl].
  destruct (rd_small _ _ _ _ Hr) as [Hn Hk'].
  assert (wrap64 (pc f + 1) = pc f + 1) as Hw by (apply wrap64_id; b_lia).
  unfold goes, makePush. into. apply evm_wp_get. rewrite Hw.
  assert (to_int (pc f + 1) = pc f + 1) as -> by (unfold to_int; destruct (Z.ltb_spec (pc f + 1) (2 ^ 63)); lia).
  rewrite (Z.min_r (len (Code (Con f)))) by lia.
  set (end_ := Z.min (len (Code (Con f))) (pc f + 1 + k)). assert (pc f + 1 <= end_ <= pc f + 1 + k) as Hend by (unfold end_; lia).
  destruct (slice_ok (Code (Con f)) (pc f + 1) end_) as (d & Hd & Hdb & Hdl); [done|lia|unfold end_; lia|].
  into. eapply evm_wp_of_option; [exact Hd|]. wp_run. apply goes_nil. cbn [pc set_Stk].
  apply pushed; [done|done|apply push_value_range; [done|lia]|]. unfold next_pc. rewrite (wrap64_id (pc f + n)) by b_lia.
  rewrite wrap64_id; b_lia.
Qed.

Lemma goes_dup n B f : ready (Exec.makeDup n) B f → goes (Exec.makeDup n) B f (makeDup n).
Proof.
  intros Hr. pose proof (rd_stack _ _ _ _ Hr) as Hlen. cbn in Hlen. pose proof (rd_small _ _ _ _ Hr) as Hn. cbn in Hn.
  destruct (lookup_lt_is_Some_2 (Stk f) (n - 1)) as [x Hx]; [lia|]. unfold goes, makeDup, dup. into. into.
  eapply wp_Back; [exact Hx|]. wp_run. apply goes_nil, executed_Stk; [done| |cbn; lia].
  apply Forall_cons. split; [|apply Hr]. eapply Forall_lookup_1; [apply Hr|done].
Qed.

Lemma goes_swap n B f : ready (Exec.opSwap n) B f → goes (Exec.opSwap n) B f (opSwap n).
Proof.
  intros Hr. pose proof (rd_stack _ _ _ _ Hr) as Hlen. cbn in Hlen.
  pose proof (fk_stack _ (rd_ok _ _ _ _ Hr)) as Hws.
  destruct (lookup_lt_is_Some_2 (Stk f) 0) as [a Ha]; [lia|]. destruct (lookup_lt_is_Some_2 (Stk f) n) as [b Hb]; [lia|].
  unfold goes, opSwap. into. unfold wp at 1, swap. rewrite Ha, Hb. apply goes_nil, executed_Stk; [done| |rewrite !length_insert; cbn; lia].
  apply Forall_insert; [apply Forall_insert; [done|]|]; by eapply Forall_lookup_1.
Qed.

(** ** Halting *)

Lemma goes_return B f : ready Exec.opReturn B f → goes Exec.opReturn B f opReturn.
Proof.
  intros Hr. pose proof (ready_fits _ _ _ _ MemFn.memoryReturn (word (Stk f) 0) (word (Stk f) 1) Hr eq_refl ltac:(left)) as Hfit.
  stack_of Hr [|x [|y st]]. cbn in Hfit. unfold goes, opReturn. wp_run.
  destruct (GetCopy_ok (Mem f) x y) as (d & Hd & Hdok & _); [apply Hr|done|done|]. eapply wp_mem_get; [exact Hd|].
  apply runs_halts; [|done]. frame_norm. apply runs_Stk; [by eapply ready_runs|done].
Qed.

Lemma evm_ok_return e d : evm_ok e → data_ok d → evm_ok (set_returnData e d).
Proof. intros [] Hd. by split. Qed.

Lemma evm_le_return e d : evm_ok e → evm_le e (set_returnData e d).
Proof. intros He. eapply evm_le_with; [by apply evm_le_refl|done..]. Qed.

Lemma goes_revert B f : ready Exec.opRevert B f → goes Exec.opRevert B f opRevert.
Proof.
  intros Hr. pose proof (ready_fits _ _ _ _ MemFn.memoryRevert (word (Stk f) 0) (word (Stk f) 1) Hr eq_refl ltac:(left)) as Hfit.
  assert (evm_ok (Vm f)) as He by apply Hr.
  stack_of Hr [|x [|y st]]. cbn in Hfit. unfold goes, opRevert. wp_run. frame_norm.
  destruct (GetCopy_ok (Mem f) x y) as (d & Hd & Hdok & _); [apply Hr|done|done|]. eapply wp_mem_get; [exact Hd|].
  into. apply evm_wp_modify. apply runs_halts; [|done].
  apply (runs_Vm _ _ (set_Stk st f)); [apply runs_Stk; [by eapply ready_runs|done]|by apply evm_ok_return|by apply evm_le_return].
Qed.

Lemma goes_undefined B f : ready Exec.opUndefined B f → goes Exec.opUndefined B f opUndefined.
Proof.
  intros Hr. pose proof (rd_pc _ _ _ _ Hr) as Hpc. unfold goes, opUndefined. wp_run.
  destruct (lookup_lt_is_Some_2 (Code (Con f)) (Z.to_nat (pc f))) as [x Hx]; [unfold len in Hpc; lia|].
  eapply evm_wp_of_option; [exact Hx|]. by eapply ready_halts.
Qed.

Lemma goes_selfdestruct B f : ready Exec.opSelfdestruct B f → goes Exec.opSelfdestruct B f opSelfdestruct.
Proof.
  intros Hr. unfold goes, opSelfdestruct. into. eapply wp_write_protected; [done|]. intros Hro.
  stack_of Hr [|x st]. wp_run. frame_norm.
  apply wp_act; [apply Hr|apply good_balance, Hr|cbn; congruence|]. intros e He Hle _. into.
  apply wp_act; [done|done|cbn; rewrite (el_readOnly _ _ Hle); cbn; congruence|]. intros e' He' Hle' _. frame_norm.
  apply evm_wp_fail, runs_halts; [|apply data_ok_nil]. apply runs_Vm; [apply runs_Stk; [by eapply ready_runs|done]|done|].
  by eapply evm_le_trans.
Qed.

Lemma goes_selfdestruct6780 B f : ready Exec.opSelfdestruct6780 B f → goes Exec.opSelfdestruct6780 B f opSelfdestruct6780.
Proof.
  intros Hr. unfold goes, opSelfdestruct6780. into. eapply wp_write_protected; [done|]. intros Hro.
  stack_of Hr [|x st]. wp_run. frame_norm.
  apply wp_act; [apply Hr|apply good_balance, Hr|cbn; congruence|]. intros e He Hle _. into.
  apply wp_act; [done|apply good_balance, Hr|cbn; rewrite (el_readOnly _ _ Hle); cbn; congruence|]. intros e' He' Hle' _. into.
  apply wp_act; [done|done|cbn; rewrite (el_readOnly _ _ Hle'); cbn; rewrite (el_readOnly _ _ Hle); cbn; congruence|].
  intros e'' He'' Hle'' _. frame_norm.
  apply evm_wp_fail, runs_halts; [|apply data_ok_nil]. apply runs_Vm; [apply runs_Stk; [by eapply ready_runs|done]|done|].
  eapply evm_le_trans; [|done]. by eapply evm_le_trans.
Qed.


(** ** All the instructions that do not call *)

(** The top is replaced by a value of the state. *)
Lemma goes_state_top fn B f (g : Z → St → Z) :
  ready fn B f → effect fn = (1, 1)%nat → (∀ x s, good s → is_uint256 (g x s)) →
  goes fn B f (do x <- peek; do s <- state_of; do! set_top (g x s); nil_nil).
Proof.
  intros Hr He Hg. pose proof (rd_stack _ _ _ _ Hr) as Hlen. rewrite He in Hlen. unfold goes.
  into. apply wp_Back with (x := word (Stk f) 0); [unfold word; by destruct (Stk f); cbn in *; [lia|]|].
  wp_run. eapply evm_wp_mono; [apply goes_top; [done|done|apply Hg, Hr]|done|done].
Qed.

Lemma goes_blockhash B f : ready Exec.opBlockhash B f → goes Exec.opBlockhash B f (opBlockhash env).
Proof.
  intros Hr. unfold goes, opBlockhash, Uint64WithOverflow. stack_of Hr [|x st].
  into. eapply wp_Back; [rewrite Hstk; done|]. set (upper := wrap64 (BlockNumber env)).
  assert (∀ v, is_uint256 v → wp (set_top v) (λ _ f', wp nil_nil (λ _, executed Exec.opBlockhash B f) (halts f B) f') (halts f B) f) as Hend
    by (intros v Hv; by apply goes_top).
  into. destruct (negb (IsUint64 x)); [apply Hend, zero_uint256|].
  destruct (_ && _); apply Hend; [apply Henv|apply zero_uint256].
Qed.

Lemma goes_blobhash B f : ready Exec.opBlobHash B f → goes Exec.opBlobHash B f (opBlobHash env).
Proof.
  intros Hr. unfold goes, opBlobHash. stack_of Hr [|x st].
  into. eapply wp_Back; [rewrite Hstk; done|].
  assert (∀ v, is_uint256 v → wp (set_top v) (λ _ f', wp nil_nil (λ _, executed Exec.opBlobHash B f) (halts f B) f') (halts f B) f) as Hend
    by (intros v Hv; by apply goes_top).
  into. destruct (Z.ltb_spec x (len (BlobHashes env))) as [Hlt|]; [|apply Hend, zero_uint256].
  assert (Uint64 x <= x) as Hle by (unfold Uint64, wrap64; apply Z.mod_le; b_lia).
  pose proof (Uint64_range x) as Hux.
  destruct (lookup_lt_is_Some_2 (BlobHashes env) (Z.to_nat (Uint64 x))) as [h Hh]; [unfold len in Hlt; b_lia|].
  into. eapply evm_wp_of_option; [exact Hh|]. apply Hend. eapply Forall_lookup_1; [apply Henv|done].
Qed.

Lemma goes_pop B f : ready Exec.opPop B f → goes Exec.opPop B f opPop.
Proof.
  intros Hr. stack_of Hr [|x st]. unfold goes, opPop. wp_run. apply goes_nil, executed_Stk; [done|done|wp_length].
Qed.

Definition calls_out fn : bool :=
  match fn with
  | Exec.opCreate | Exec.opCreate2 | Exec.opCall | Exec.opCallCode | Exec.opDelegateCall | Exec.opStaticCall => true
  | _ => false
  end.

(** What the environment and the contract push. *)
Lemma goes_push_from fn B f {A} (g : Frame St → A) (v : A → Z) :
  ready fn B f → effect fn = (0, 1)%nat → is_uint256 (v (g f)) → goes fn B f (do a <- gets g; push_word (v a)).
Proof. intros Hr He Hv. unfold goes. into. apply wp_gets. by apply goes_push_word. Qed.

Lemma shifted x y : is_uint256 x → is_uint256 y →
  is_uint256 (if x <? 256 then wrap256 (Z.shiftl y (Uint64 x)) else 0) ∧
  is_uint256 (if x <? 256 then Z.shiftr y (Uint64 x) else 0) ∧
  is_uint256 (if x >? 256 then (if to_signed y >=? 0 then 0 else two256 - 1) else SRsh y (Uint64 x)).
Proof.
  intros Hx Hy. split_and!; repeat apply if_range; auto with eigen. apply shiftr_range; [done|]. apply Uint64_range.
Qed.

Lemma bounded_word x : 0 <= x < 2 ^ 160 → is_uint256 x.
Proof. b_lia. Qed.

Lemma executed_noop fn B f : ready fn B f → effect fn = (0, 0)%nat → executed fn B f f.
Proof.
  intros Hr He. split; [by eapply ready_runs|exact (ready_pc _ _ _ _ Hr)|by rewrite He].
Qed.

Lemma goes_simple fn B f : calls_out fn = false → ready fn B f → goes fn B f (execute env abort calls fn).
Proof.
  intros Hc Hr. pose proof (rd_ok _ _ _ _ Hr) as [Hs Hm Hcon Hvm]. pose proof (rd_env _ _ _ _ Hr) as Hprov.
  destruct Hcon as [Hk1 Hk2 Hk3 Hk4 _ _ _ _]. pose proof (ek_good _ Hvm) as Hgood.
  destruct fn; try done; cbn [execute];
    lazymatch goal with
    | |- goes _ _ _ (push_word _) => apply goes_push_word; [done|done|]
    | |- _ => idtac
    end.
  all: try (apply goes_binary; [done|done|intros x y Hx Hy; cbn beta; auto with eigen; try apply (shifted x y Hx Hy)]).
  all: try (apply goes_ternary; [done|done|auto with eigen]).
  all: try (apply goes_push_big; [done|done|first [by eexists|exact Hprov]]).
  all: try (apply goes_push_from; [done|done|auto with eigen]).
  all: try (apply goes_peek_top; [done|done|intros x Hx; first [b_lia|auto with eigen]]).
  all: try (apply goes_state_top; [done|done|intros x s Hs'; try (apply if_range; [b_lia|]); eauto using good_balance, good_code_hash with eigen]).
  all: eauto using goes_keccak, goes_extcodecopy, goes_returndatacopy, goes_mload, goes_mstore, goes_mstore8, goes_mcopy,
    goes_calldataload, goes_sload, goes_tload, goes_sstore, goes_tstore, goes_log, goes_jump, goes_jumpi, goes_push1,
    goes_makePush, goes_dup, goes_swap, goes_return, goes_revert, goes_undefined, goes_selfdestruct, goes_selfdestruct6780,
    goes_blockhash, goes_blobhash, goes_pop.
  - exact (vk_origin _ Henv).
  - apply (goes_copy _ _ _ MemFn.memoryCallDataCopy Input); [done..|apply Hr].
  - apply (goes_copy _ _ _ MemFn.memoryCodeCopy Code); [done..|apply Hr].
  - exact (vk_coinbase _ Henv).
  - apply is_uint64_256, (vk_time _ Henv).
  - destruct Hprov as [h Hh]. unfold goes, opRandom. rewrite Hh. into. apply evm_wp_ret.
    apply goes_push_word; [done|done|by apply (vk_random _ Henv)].
  - apply is_uint64_256, (vk_gaslimit _ Henv).
  - by apply goes_nil, executed_noop.
  - pose proof (rd_pc _ _ _ _ Hr). destruct (ck_code _ (fk_con _ (rd_ok _ _ _ _ Hr))). b_lia.
  - apply evm_wp_fail. by eapply ready_halts.
  - by apply good_balance.
  - apply goes_push_word; [done|done|apply zero_uint256].
Qed.

End Instr.

(** * The instructions that call are safe

    What an instruction relies on when it calls another contract ([calls_ok]): the
    call gives back data, no more gas than it got, and a machine that is later; an
    error leaves the state as it was.  With it, the six instructions that call keep
    the invariant: what a call gives back is at most what was reserved for it. *)

Section Calls.
Context {St : Type} `{Hst : EvmState St} `{Hk : Keccak} `{Hlaws : !EvmStateLaws St} `{Hu : Uint256}.
Context (env : EvmEnv) (Henv : env_ok env) (abort : Frame St → bool).
Implicit Types (e : Evm St) (f : Frame St) (fn : Exec.t).

(** What a call returns. *)
Record call_post e (gas : Z) (ret_ : bytes) (left : Z) e' : Prop := {
  cp_data : data_ok ret_;
  cp_gas : 0 <= left <= gas;
  cp_ok : evm_ok e';
  cp_le : evm_le e e'
}.

(** After an error, the state is the one before, and the gas is gone but for a
    revert and for a call that did not start. *)
Definition reverted (err : option vm_error) (left : Z) e e' : Prop :=
  ∀ x, err = Some x →
    same (StateDB e) (StateDB e') ∧ (x ∈ [ErrExecutionReverted; ErrDepth; ErrInsufficientBalance] ∨ left = 0).

Record call_pre e (B : Z) (caller addr : Address) (input : bytes) (gas value : Z) : Prop := {
  pre_ok : evm_ok e;
  pre_caller : is_uint256 caller;
  pre_addr : is_uint256 addr;
  pre_input : data_ok input;
  pre_gas : 0 <= gas <= B;
  pre_gas64 : is_uint64 gas;
  pre_value : is_uint256 value
}.

(** The calls of the machine, with up to [B] of gas. *)
Record calls_ok (calls : Calls St) (B : Z) : Prop := {
  ok_call caller addr input gas value e :
    call_pre e B caller addr input gas value → (readOnly e = true → value = 0) →
    wp (evm_Call calls caller addr input gas value)
      (λ '(r, g, err) e', call_post e gas r g e' ∧ reverted err g e e') no_halt e;
  ok_callcode caller addr input gas value e :
    call_pre e B caller addr input gas value →
    wp (evm_CallCode calls caller addr input gas value)
      (λ '(r, g, err) e', call_post e gas r g e' ∧ reverted err g e e') no_halt e;
  ok_delegatecall origin caller addr input gas value e :
    call_pre e B caller addr input gas value → is_uint256 origin →
    wp (evm_DelegateCall calls origin caller addr input gas value)
      (λ '(r, g, err) e', call_post e gas r g e' ∧ reverted err g e e') no_halt e;
  ok_staticcall caller addr input gas e :
    call_pre e B caller addr input gas 0 →
    wp (evm_StaticCall calls caller addr input gas)
      (λ '(r, g, err) e', call_post e gas r g e' ∧ reverted err g e e') no_halt e;
  ok_create caller code gas value e :
    call_pre e B caller 0 code gas value → readOnly e = false →
    wp (evm_Create calls caller code gas value)
      (λ '(r, a, g, err) e', call_post e gas r g e' ∧ is_uint256 a) no_halt e;
  ok_create2 caller code gas endowment salt e :
    call_pre e B caller 0 code gas endowment → readOnly e = false → is_uint256 salt →
    wp (evm_Create2 calls caller code gas endowment salt)
      (λ '(r, a, g, err) e', call_post e gas r g e' ∧ is_uint256 a) no_halt e
}.

Context (calls : Calls St) (B : Z) (Hcalls : calls_ok calls B) (HB : is_uint64 B).
Abbreviation ready := (ready env).
Abbreviation goes fn f := (goes fn B f).

(** The gas that the gas function has set aside for the call. *)
Definition stipend fn (st : list Z) : Z :=
  match fn with
  | Exec.opCall | Exec.opCallCode => if word st 2 =? 0 then 0 else CallStipend
  | _ => 0
  end.

Definition reserved fn f : Z :=
  match fn with
  | Exec.opCall | Exec.opCallCode | Exec.opDelegateCall | Exec.opStaticCall => callGasTemp (Vm f) + stipend fn (Stk f)
  | _ => 0
  end.

Lemma no_halt_any {T} (R : bytes → vm_error → T → Prop) r x t : no_halt r x t → R r x t.
Proof. done. Qed.

(** The end of a call: a word, the gas, perhaps the data in memory. *)
Lemma goes_called fn f st e retOffset retSize ret_ gas left err :
  ready fn B f → Forall is_uint256 st → (S (length st) + (effect fn).1 = length (Stk f) + (effect fn).2)%nat →
  is_uint256 retOffset → fits (Len (Mem f)) retOffset retSize →
  call_post (Vm f) gas ret_ left e → Gas (Con f) + gas <= B →
  wp (called retOffset retSize ret_ left err) (λ _, executed fn B f) (halts f B) (set_Vm e (set_Stk st f)).
Proof.
  intros Hr Hs Hl Ho Hfit [Hd Hg He Hle] Hgas. pose proof (ready_runs env _ _ _ Hr) as Hruns.
  unfold called. wp_run. frame_norm.
  assert (∀ m, written (Mem f) m → wp (do! refund_gas left; do! return_data ret_; ret ret_) (λ _, executed fn B f) (halts f B)
    (set_Mem m (set_Vm e (set_Stk (b2w (negb (bool_decide (is_Some err))) :: st) f)))) as Hend.
  { intros m Hw. into. apply evm_wp_modify. into. apply evm_wp_modify. apply evm_wp_ret. split; [|exact (ready_pc env _ _ _ Hr)|exact Hl].
    apply runs_Vm.
    - apply runs_Con.
      + apply runs_Mem; [|eapply written_ok; [apply Hr|done]]. apply runs_Vm; [|done|done]. apply runs_Stk; [done|].
        apply Forall_cons. split; [apply b2w_range|done].
      + cbn. pose proof (fk_con _ (rd_ok _ _ _ _ Hr)) as Hc. unfold RefundGas. destruct (left =? 0); [done|]. apply con_ok_Gas; [done|apply wrap64_range].
      + cbn. unfold RefundGas. by destruct (left =? 0).
      + cbn. unfold RefundGas. pose proof (ck_gas _ (fk_con _ (rd_ok _ _ _ _ Hr))) as Hc. destruct (Z.eqb_spec left 0); cbn; [b_lia|]. rewrite wrap64_id; b_lia.
    - by apply evm_ok_return.
    - cbn. eapply evm_le_return. done. }
  into. destruct (_ || _).
  - destruct (Set_ok (Mem f) retOffset retSize ret_) as (m & Hset & Hw); [apply Hr|done|done|apply Hd|].
    eapply wp_mem_put; [exact Hset|]. by apply Hend.
  - apply evm_wp_ret. apply (Hend (Mem f)). split; [apply Hr|done].
Qed.

(** The memory of the arguments. *)
Lemma ready_args fn f mf off l :
  ready fn B f → mem_of fn = Some mf → (off, l) ∈ ranges mf (Stk f) → is_uint256 off →
  ∃ d, GetPtr (Mem f) (Uint64 off) (Uint64 l) = Some d ∧ data_ok d.
Proof.
  intros Hr Hm Hin Ho. pose proof (ready_fits env _ _ _ _ _ _ Hr Hm Hin) as Hf.
  destruct (GetPtr_ok (Mem f) off l) as (d & Hd & Hok & _); [apply Hr|done|done|]. by exists d.
Qed.

Lemma Bytes20_word x : is_uint256 (Bytes20 x).
Proof. pose proof (Bytes20_range x). b_lia. Qed.

Lemma reserved_gas (v : Z) f gas :
  ready gas B f → Gas (Con f) + (callGasTemp (Vm f) + (if v =? 0 then 0 else CallStipend)) <= B →
  let g := if negb (v =? 0) then wrap64 (callGasTemp (Vm f) + CallStipend) else callGasTemp (Vm f) in
  is_uint64 g ∧ g = callGasTemp (Vm f) + (if v =? 0 then 0 else CallStipend).
Proof.
  intros Hr Hle. pose proof (ek_temp _ (fk_vm _ (rd_ok _ _ _ _ Hr))) as Ht. pose proof (ck_gas _ (fk_con _ (rd_ok _ _ _ _ Hr))) as Hg.
  unfold CallStipend in *. destruct (v =? 0); cbn [negb] in *; [split; [done|lia]|].
  cbv zeta. rewrite wrap64_id by b_lia. b_lia.
Qed.

Lemma goes_call f : ready Exec.opCall B f → Gas (Con f) + reserved Exec.opCall f <= B → goes Exec.opCall f (opCall calls).
Proof.
  intros Hr Hres. destruct (ready_args _ f MemFn.memoryCall (word (Stk f) 3) (word (Stk f) 4) Hr eq_refl ltac:(right; left)) as (d & Hd & Hdok); [by eapply ready_word|].
  pose proof (ready_fits env _ _ _ MemFn.memoryCall (word (Stk f) 5) (word (Stk f) 6) Hr eq_refl ltac:(left)) as Hfit.
  pose proof (fk_vm _ (rd_ok _ _ _ _ Hr)) as He. pose proof (fk_con _ (rd_ok _ _ _ _ Hr)) as Hc.
  pose proof (ek_temp _ He) as Ht. pose proof (ck_gas _ Hc) as Hg.
  unfold reserved, stipend in Hres. pose proof (reserved_gas _ f _ Hr Hres) as [Hg64 Hgv]. 
  stack_of Hr [|g [|a [|v [|io [|il [|ro [|rs st]]]]]]]. cbn [word from_option id lookup list_lookup] in *.
  unfold EvmWp.goes, opCall. wp_run. frame_norm. eapply wp_mem_get; [exact Hd|]. wp_run. cbn [Vm set_Stk].
  destruct (readOnly (Vm f) && negb (v =? 0)) eqn:Hro.
  { apply evm_wp_fail, runs_halts; [|apply data_ok_nil]. apply runs_Stk; [by eapply ready_runs|done]. }
  wp_run. apply wp_on_evm. eapply evm_wp_mono; [apply (ok_call _ _ Hcalls)|..].
  - split; [done|apply Hc|apply Bytes20_word|done| |done|done]. rewrite Hgv. b_lia.
  - cbn. intros Hrt. rewrite Hrt in Hro. cbn in Hro. destruct (Z.eqb_spec v 0); [done|done].
  - intros [[r lft] err] e' [Hpost _]. eapply goes_called; [done|done|wp_length|done|exact Hfit|exact Hpost|]. rewrite Hgv. lia.
  - intros r x e' [].
Qed.
Lemma goes_callcode f : ready Exec.opCallCode B f → Gas (Con f) + reserved Exec.opCallCode f <= B → goes Exec.opCallCode f (opCallCode calls).
Proof.
  intros Hr Hres. destruct (ready_args _ f MemFn.memoryCall (word (Stk f) 3) (word (Stk f) 4) Hr eq_refl ltac:(right; left)) as (d & Hd & Hdok); [by eapply ready_word|].
  pose proof (ready_fits env _ _ _ MemFn.memoryCall (word (Stk f) 5) (word (Stk f) 6) Hr eq_refl ltac:(left)) as Hfit.
  pose proof (fk_vm _ (rd_ok _ _ _ _ Hr)) as He. pose proof (fk_con _ (rd_ok _ _ _ _ Hr)) as Hc.
  pose proof (ek_temp _ He) as Ht. pose proof (ck_gas _ Hc) as Hg.
  unfold reserved, stipend in Hres. pose proof (reserved_gas _ f _ Hr Hres) as [Hg64 Hgv].
  stack_of Hr [|g [|a [|v [|io [|il [|ro [|rs st]]]]]]]. cbn [word from_option id lookup list_lookup] in *.
  unfold EvmWp.goes, opCallCode. wp_run. frame_norm. eapply wp_mem_get; [exact Hd|]. wp_run. cbn [Vm Con set_Stk].
  apply wp_on_evm. eapply evm_wp_mono; [apply (ok_callcode _ _ Hcalls)|..].
  - split; [done|apply Hc|apply Bytes20_word|done| |done|done]. rewrite Hgv. b_lia.
  - intros [[r lft] err] e' [Hpost _]. eapply goes_called; [done|done|wp_length|done|exact Hfit|exact Hpost|]. rewrite Hgv. lia.
  - intros r x e' [].
Qed.

Lemma goes_delegatecall f :
  ready Exec.opDelegateCall B f → Gas (Con f) + reserved Exec.opDelegateCall f <= B → goes Exec.opDelegateCall f (opDelegateCall calls).
Proof.
  intros Hr Hres. destruct (ready_args _ f MemFn.memoryDelegateCall (word (Stk f) 2) (word (Stk f) 3) Hr eq_refl ltac:(right; left)) as (d & Hd & Hdok); [by eapply ready_word|].
  pose proof (ready_fits env _ _ _ MemFn.memoryDelegateCall (word (Stk f) 4) (word (Stk f) 5) Hr eq_refl ltac:(left)) as Hfit.
  pose proof (fk_vm _ (rd_ok _ _ _ _ Hr)) as He. pose proof (fk_con _ (rd_ok _ _ _ _ Hr)) as Hc.
  pose proof (ek_temp _ He) as Ht. pose proof (ck_gas _ Hc) as Hg. cbn in Hres.
  stack_of Hr [|g [|a [|io [|il [|ro [|rs st]]]]]]. cbn [word from_option id lookup list_lookup] in *.
  unfold EvmWp.goes, opDelegateCall. wp_run. frame_norm. eapply wp_mem_get; [exact Hd|]. wp_run. cbn [Vm Con set_Stk].
  apply wp_on_evm. eapply evm_wp_mono; [apply (ok_delegatecall _ _ Hcalls)|..].
  - split; [done|apply Hc|apply Bytes20_word|done|cbn; b_lia|done|apply Hc].
  - apply Hc.
  - intros [[r lft] err] e' [Hpost _]. eapply goes_called; [done|done|wp_length|done|exact Hfit|exact Hpost|]. cbn. lia.
  - intros r x e' [].
Qed.

Lemma goes_staticcall f :
  ready Exec.opStaticCall B f → Gas (Con f) + reserved Exec.opStaticCall f <= B → goes Exec.opStaticCall f (opStaticCall calls).
Proof.
  intros Hr Hres. destruct (ready_args _ f MemFn.memoryStaticCall (word (Stk f) 2) (word (Stk f) 3) Hr eq_refl ltac:(right; left)) as (d & Hd & Hdok); [by eapply ready_word|].
  pose proof (ready_fits env _ _ _ MemFn.memoryStaticCall (word (Stk f) 4) (word (Stk f) 5) Hr eq_refl ltac:(left)) as Hfit.
  pose proof (fk_vm _ (rd_ok _ _ _ _ Hr)) as He. pose proof (fk_con _ (rd_ok _ _ _ _ Hr)) as Hc.
  pose proof (ek_temp _ He) as Ht. pose proof (ck_gas _ Hc) as Hg. cbn in Hres.
  stack_of Hr [|g [|a [|io [|il [|ro [|rs st]]]]]]. cbn [word from_option id lookup list_lookup] in *.
  unfold EvmWp.goes, opStaticCall. wp_run. frame_norm. eapply wp_mem_get; [exact Hd|]. wp_run. cbn [Vm Con set_Stk].
  apply wp_on_evm. eapply evm_wp_mono; [apply (ok_staticcall _ _ Hcalls)|..].
  - split; [done|apply Hc|apply Bytes20_word|done|cbn; b_lia|done|apply zero_uint256].
  - intros [[r lft] err] e' [Hpost _]. eapply goes_called; [done|done|wp_length|done|exact Hfit|exact Hpost|]. cbn. lia.
  - intros r x e' [].
Qed.

(** The end of a creation: the address, the gas, the data of a revert. *)
Lemma goes_created fn f st e a ret_ gas left err :
  ready fn B f → Forall is_uint256 st → (S (length st) + (effect fn).1 = length (Stk f) + (effect fn).2)%nat →
  is_uint256 a → call_post (Vm f) gas ret_ left e → 0 <= gas <= Gas (Con f) →
  wp (created a ret_ left err) (λ _, executed fn B f) (halts f B)
    (set_Vm e (set_Con (set_Gas (Con f) (Gas (Con f) - gas)) (set_Stk st f))).
Proof.
  intros Hr Hs Hl Ha [Hd Hg He Hle] Hgas. pose proof (ready_runs env _ _ _ Hr) as Hruns.
  pose proof (fk_con _ (rd_ok _ _ _ _ Hr)) as Hc. pose proof (ck_gas _ Hc) as Hgc. pose proof (rd_gas _ _ _ _ Hr) as HgB.
  set (c1 := set_Gas (Con f) (Gas (Con f) - gas)).
  assert (con_ok (RefundGas c1 left) ∧ Code (RefundGas c1 left) = Code (Con f) ∧ Gas (RefundGas c1 left) <= B) as (Hc1 & Hc2 & Hc3).
  { assert (con_ok c1) as Hc0 by (apply con_ok_Gas; [done|b_lia]).
    unfold RefundGas. destruct (Z.eqb_spec left 0); [split; [done|]; split; [done|]; cbn; lia|].
    split; [apply con_ok_Gas; [done|apply wrap64_range]|]. split; [done|]. cbn. rewrite wrap64_id; b_lia. }
  unfold created. wp_run. into. apply evm_wp_modify. cbn [set_Con Con]. frame_norm.
  assert (∀ d, data_ok d → executed fn B f (set_Vm (set_returnData e d) (set_Con (RefundGas c1 left) (set_Stk (a :: st) f)))) as Hend.
  { intros d Hdok. split; [|exact (ready_pc env _ _ _ Hr)|exact Hl]. apply runs_Vm; [|by apply evm_ok_return|].
    - apply runs_Con; [|done|done|done]. apply runs_Stk; [done|]. by apply Forall_cons.
    - eapply evm_le_trans; [exact Hle|by apply evm_le_return]. }
  destruct (bool_decide _); into; apply evm_wp_modify, evm_wp_ret; [exact (Hend ret_ Hd)|exact (Hend [] data_ok_nil)].
Qed.

(** The input of a creation, and the gas that it takes. *)
Lemma ready_init fn f mf off l :
  ready fn B f → mem_of fn = Some mf → (off, l) ∈ ranges mf (Stk f) → is_uint256 off →
  ∃ d, GetCopy (Mem f) (Uint64 off) (Uint64 l) = Some d ∧ data_ok d.
Proof. apply ready_args. Qed.

Lemma wp_spend f gas (P : unit → Frame St → Prop) R :
  is_uint64 (Gas (Con f)) → 0 <= gas <= Gas (Con f) →
  P tt (set_Con (set_Gas (Con f) (Gas (Con f) - gas)) f) → wp (spend gas) P R f.
Proof.
  intros Hg Hle HP. unfold spend. into. apply wp_use_gas; [done|b_lia|b_lia|]. intros _. by apply evm_wp_ret.
Qed.

Lemma goes_create f : ready Exec.opCreate B f → goes Exec.opCreate f (opCreate env calls).
Proof.
  intros Hr. destruct (ready_init _ f MemFn.memoryCreate (word (Stk f) 1) (word (Stk f) 2) Hr eq_refl ltac:(left)) as (d & Hd & Hdok); [by eapply ready_word|].
  pose proof (fk_vm _ (rd_ok _ _ _ _ Hr)) as He. pose proof (fk_con _ (rd_ok _ _ _ _ Hr)) as Hc.
  pose proof (ck_gas _ Hc) as Hg. pose proof (rd_gas _ _ _ _ Hr) as HgB.
  unfold EvmWp.goes, opCreate. into. eapply wp_write_protected; [done|]. intros Hro.
  stack_of Hr [|v [|off [|sz st]]]. cbn [word from_option id lookup list_lookup] in *.
  wp_run. frame_norm. eapply wp_mem_get; [exact Hd|]. wp_run. cbn [Con set_Stk].
  set (g := if ChainConfig.Config.r_IsEIP150 (chainRules env) then wrap64 (Gas (Con f) - Gas (Con f) / 64) else Gas (Con f)).
  assert (0 <= g <= Gas (Con f)) as Hgr.
  { unfold g. destruct (ChainConfig.Config.r_IsEIP150 _); [|b_lia]. rewrite wrap64_id; div_lia. }
  apply wp_spend; [done|done|]. wp_run. apply wp_on_evm. eapply evm_wp_mono; [apply (ok_create _ _ Hcalls)|..].
  - split; [done|apply Hc|apply zero_uint256|done|b_lia|b_lia|done].
  - done.
  - intros [[[r a] lft] err] e' [Hpost Ha]. eapply (goes_created _ f); [done|done|wp_length| |exact Hpost|done].
    repeat apply if_range; (done || apply zero_uint256).
  - intros r x e' [].
Qed.

Lemma goes_create2 f : ready Exec.opCreate2 B f → goes Exec.opCreate2 f (opCreate2 calls).
Proof.
  intros Hr. destruct (ready_init _ f MemFn.memoryCreate2 (word (Stk f) 1) (word (Stk f) 2) Hr eq_refl ltac:(left)) as (d & Hd & Hdok); [by eapply ready_word|].
  pose proof (fk_vm _ (rd_ok _ _ _ _ Hr)) as He. pose proof (fk_con _ (rd_ok _ _ _ _ Hr)) as Hc.
  pose proof (ck_gas _ Hc) as Hg. pose proof (rd_gas _ _ _ _ Hr) as HgB.
  unfold EvmWp.goes, opCreate2. into. eapply wp_write_protected; [done|]. intros Hro.
  stack_of Hr [|v [|off [|sz [|salt st]]]]. cbn [word from_option id lookup list_lookup] in *.
  wp_run. frame_norm. eapply wp_mem_get; [exact Hd|]. wp_run. cbn [Con set_Stk].
  assert (0 <= wrap64 (Gas (Con f) - Gas (Con f) / 64) <= Gas (Con f)) as Hgr by (rewrite wrap64_id; div_lia).
  apply wp_spend; [done|done|]. wp_run. apply wp_on_evm. eapply evm_wp_mono; [apply (ok_create2 _ _ Hcalls)|..].
  - split; [done|apply Hc|apply zero_uint256|done|b_lia|b_lia|done].
  - done.
  - done.
  - intros [[[r a] lft] err] e' [Hpost Ha]. eapply (goes_created _ f); [done|done|wp_length| |exact Hpost|done].
    apply if_range; [apply zero_uint256|done].
  - intros r x e' [].
Qed.

Lemma goes_calling fn f :
  calls_out fn = true → ready fn B f → Gas (Con f) + reserved fn f <= B → goes fn f (execute env abort calls fn).
Proof.
  intros Hc Hr Hres. destruct fn; try done; cbn [execute];
    eauto using goes_call, goes_callcode, goes_delegatecall, goes_staticcall, goes_create, goes_create2.
Qed.

End Calls.
