(* ===== verification/EvmGasLaws.v ===== *)
(** * Laws of the gas functions

    A gas function whose words are there does not panic, but for a refund counter
    below zero.  Its cost is a [uint64] ([priced]), at least [min_gas]; it leaves the
    stack, the code and the gas of the frame as they were, pays for the memory, and
    what it sets aside for a call is part of its cost. *)

From S2P Require Import Prelude Crypto EvmCode EvmBase TxTypes VMInterface EvmState EvmFrame EvmOps EvmGas EvmMemory EvmWp EvmInstr.
From S2P Require ChainConfig StateTransition GasRules.

(** The words that a gas function reads. *)
Definition gas_arity (g : GasFn.t) : nat :=
  match g with
  | GasFn.gasCallDataCopy | GasFn.gasCodeCopy | GasFn.gasMcopy | GasFn.gasReturnDataCopy
  | GasFn.gasCreate2 | GasFn.gasCreateEip3860 | GasFn.gasCreate2Eip3860
  | GasFn.gasCall | GasFn.gasCallCode | GasFn.gasCallEIP2929 | GasFn.gasCallCodeEIP2929
  | GasFn.gasCallEIP7702 | GasFn.gasCallCodeEIP7702 => 3
  | GasFn.gasExtCodeCopy | GasFn.gasExtCodeCopyEIP2929 => 4
  | GasFn.gasSStore | GasFn.gasSStoreEIP2200 | GasFn.gasSStoreEIP2929 | GasFn.gasSStoreEIP3529
  | GasFn.makeGasLog _ | GasFn.gasKeccak256 | GasFn.gasExpFrontier | GasFn.gasExpEIP158
  | GasFn.gasDelegateCall | GasFn.gasStaticCall | GasFn.gasDelegateCallEIP2929 | GasFn.gasStaticCallEIP2929
  | GasFn.gasDelegateCallEIP7702 | GasFn.gasStaticCallEIP7702 => 2
  | GasFn.gasSelfdestruct | GasFn.gasSLoadEIP2929 | GasFn.gasEip2929AccountCheck
  | GasFn.gasSelfdestructEIP2929 | GasFn.gasSelfdestructEIP3529 => 1
  | GasFn.gasReturn | GasFn.gasRevert | GasFn.gasMLoad | GasFn.gasMStore8 | GasFn.gasMStore | GasFn.gasCreate => 0
  end.

(** The functions that pay for memory. *)
Definition charges_memory (g : GasFn.t) : bool :=
  match g with
  | GasFn.gasSStore | GasFn.gasSStoreEIP2200 | GasFn.gasSStoreEIP2929 | GasFn.gasSStoreEIP3529
  | GasFn.gasExpFrontier | GasFn.gasExpEIP158 | GasFn.gasSelfdestruct | GasFn.gasSLoadEIP2929
  | GasFn.gasEip2929AccountCheck | GasFn.gasSelfdestructEIP2929 | GasFn.gasSelfdestructEIP3529 => false
  | _ => true
  end.

(** The call that a function sets gas aside for. *)
Definition for_call (g : GasFn.t) : option Exec.t :=
  match g with
  | GasFn.gasCall | GasFn.gasCallEIP2929 | GasFn.gasCallEIP7702 => Some Exec.opCall
  | GasFn.gasCallCode | GasFn.gasCallCodeEIP2929 | GasFn.gasCallCodeEIP7702 => Some Exec.opCallCode
  | GasFn.gasDelegateCall | GasFn.gasDelegateCallEIP2929 | GasFn.gasDelegateCallEIP7702 => Some Exec.opDelegateCall
  | GasFn.gasStaticCall | GasFn.gasStaticCallEIP2929 | GasFn.gasStaticCallEIP7702 => Some Exec.opStaticCall
  | _ => None
  end.

Definition min_gas (g : GasFn.t) : Z :=
  match g with
  | GasFn.gasSStore | GasFn.gasSStoreEIP2200 | GasFn.gasSStoreEIP2929 | GasFn.gasSStoreEIP3529 => 100
  | GasFn.makeGasLog _ => LogGas
  | GasFn.gasExpFrontier | GasFn.gasExpEIP158 => ExpGas
  | GasFn.gasSLoadEIP2929 => WarmStorageReadCostEIP2929
  | _ => 0
  end.

Section GasLaws.
Context {St : Type} `{Hst : EvmState St} `{Hk : Keccak} `{Hlaws : !EvmStateLaws St}.
Context (rules : ChainConfig.Config.Rules).
Implicit Types (e : Evm St) (f : Frame St) (g : GasFn.t).

Record gas_ready (arity : nat) (memory : bool) (n : Z) f : Prop := {
  gr_ok : frame_ok f;
  gr_n : is_uint64 n;
  gr_words : n mod 32 = 0;
  gr_stack : (arity <= length (Stk f))%nat;
  gr_memory : memory = false → n = 0
}.

(** After some work on the machine, [t] of the gas is lent. *)
Record lent f (t : Z) f' : Prop := {
  ln_stack : Stk f' = Stk f;
  ln_pc : pc f' = pc f;
  ln_mem : Mem f' = Mem f;
  ln_con : con_ok (Con f');
  ln_code : Code (Con f') = Code (Con f);
  ln_gas : Gas (Con f') = Gas (Con f) - t;
  ln_range : 0 <= t < 2 ^ 20;
  ln_vm : evm_ok (Vm f');
  ln_le : evm_le (Vm f) (Vm f')
}.

Record priced (call : option Exec.t) (low n : Z) f (cost : Z) f' : Prop := {
  pr_stack : Stk f' = Stk f;
  pr_pc : pc f' = pc f;
  pr_con : con_ok (Con f');
  pr_code : Code (Con f') = Code (Con f);
  pr_gas : Gas (Con f') = Gas (Con f);
  pr_vm : evm_ok (Vm f');
  pr_le : evm_le (Vm f) (Vm f');
  pr_cost : is_uint64 cost;
  pr_low : low <= cost;
  pr_store : store (Mem f') = store (Mem f);
  pr_paid : mem_paid (Mem f') n;
  pr_max : n <= max_memory;
  pr_call fn : call = Some fn → callGasTemp (Vm f') + stipend fn (Stk f) <= cost
}.

Abbreviation stops f := (halts f (Gas (Con f))).
Abbreviation prices g n f m := (wp m (priced (for_call g) (min_gas g) n f) (stops f) f).

Lemma set_Vm_id f : set_Vm (Vm f) f = f.
Proof. by destruct f. Qed.
Lemma set_Mem_id f : set_Mem (Mem f) f = f.
Proof. by destruct f. Qed.

(** An error of the function itself. *)
Lemma stops_here f err : frame_ok f → stops f [] err f.
Proof. intros Hf. apply runs_halts; [by apply runs_refl|apply data_ok_nil]. Qed.

Lemma stops_Vm f e err : frame_ok f → evm_ok e → evm_le (Vm f) e → stops f [] err (set_Vm e f).
Proof. intros Hf He Hle. apply runs_halts; [|apply data_ok_nil]. apply runs_Vm; [by apply runs_refl|done|done]. Qed.

Lemma stops_lent f t f' r x : lent f t f' → stops f' r x f' → stops f r x f'.
Proof.
  intros [] [Hd Hv Hle Hg]. split; [done|done|by eapply evm_le_trans|lia].
Qed.

(** ** Rules *)

Lemma wp_memory_gas f n (P : Z → Frame St → Prop) R :
  mem_ok (Mem f) → is_uint64 n → n mod 32 = 0 → (∀ err, R [] err f) →
  (∀ gas m, is_uint64 gas → n <= max_memory → store m = store (Mem f) → mem_paid m n → P gas (set_Mem m f)) →
  wp (memory_gas n) P R f.
Proof.
  intros Hm Hn Hw HR HP. unfold wp, memory_gas.
  destruct (memoryGasCost (Mem f) n) as [r m'] eqn:Hc. pose proof (memoryGasCost_paid _ _ _ _ Hm Hn Hw Hc) as Hp.
  destruct r as [gas|err]; cbn.
  - destruct Hp as (H1 & H2 & H3 & H4). by apply HP.
  - subst m'. rewrite set_Mem_id. apply HR.
Qed.

Lemma wp_safe_add f x y (P : Z → Frame St → Prop) R :
  is_uint64 x → is_uint64 y → (∀ err, R [] err f) → (is_uint64 (x + y) → P (x + y) f) → wp (safe_add x y) P R f.
Proof.
  intros Hx Hy HR HP. unfold safe_add. apply wp_no_overflow; [intros _; apply HR|]. intros Hs.
  destruct (SafeAdd_spec x y Hx Hy Hs) as [-> H]. by apply HP.
Qed.

Lemma wp_safe_mul f x y (P : Z → Frame St → Prop) R :
  is_uint64 x → is_uint64 y → (∀ err, R [] err f) → (is_uint64 (x * y) → P (x * y) f) → wp (safe_mul x y) P R f.
Proof.
  intros Hx Hy HR HP. unfold safe_mul. apply wp_no_overflow; [intros _; apply HR|]. intros Hs.
  destruct (SafeMul_spec x y Hx Hy Hs) as [-> H]. by apply HP.
Qed.

Lemma wp_word f i (P : Z → Frame St → Prop) R :
  (i < length (Stk f))%nat → P (word (Stk f) i) f → wp (Back i) P R f.
Proof. intros Hi HP. unfold wp. by rewrite Back_total. Qed.

Lemma wp_back64 f i (P : Z → Frame St → Prop) R :
  (i < length (Stk f))%nat → Forall is_uint256 (Stk f) → (∀ err, R [] err f) →
  (is_uint64 (word (Stk f) i) → P (word (Stk f) i) f) → wp (back64 i) P R f.
Proof.
  intros Hi Hs HR HP. unfold back64. into. apply wp_word; [done|]. apply wp_no_overflow; [intros _; apply HR|].
  unfold Uint64WithOverflow, IsUint64. cbn. destruct (Z.ltb_spec (word (Stk f) i) two64) as [Hlt|]; [|done]. intros _.
  pose proof (word_range f i Hs). rewrite wrap64_id by b_lia. apply HP. b_lia.
Qed.

Lemma toWordSize_range x : is_uint64 x → is_uint64 (toWordSize x).
Proof. intros Hx. rewrite size_in_words by done. div_lia. Qed.

(** ** Memory and words *)

(** Only the memory was paid for. *)
Lemma priced_Mem g n f cost m :
  for_call g = None → gas_ready (gas_arity g) (charges_memory g) n f → is_uint64 cost → min_gas g <= cost → n <= max_memory →
  store m = store (Mem f) → mem_paid m n → priced (for_call g) (min_gas g) n f cost (set_Mem m f).
Proof.
  intros Hg [Hf _ _ _ _] Hc Hl Hn Hs Hp. rewrite Hg. destruct Hf as [? ? Hcon Hvm].
  split; try done. by apply evm_le_refl.
Qed.

(** Only the machine was worked on. *)
Lemma priced_Vm g n f cost e :
  for_call g = None → gas_ready (gas_arity g) (charges_memory g) n f → charges_memory g = false → is_uint64 cost → min_gas g <= cost →
  evm_ok e → evm_le (Vm f) e → priced (for_call g) (min_gas g) n f cost (set_Vm e f).
Proof.
  intros Hg [Hf Hn _ _ Hz] Hm Hc Hl He Hle. rewrite Hg, (Hz Hm). destruct Hf as [? ? Hcon Hvm].
  split; try done.
Qed.

Lemma priced_same g n f cost :
  for_call g = None → gas_ready (gas_arity g) (charges_memory g) n f → charges_memory g = false → is_uint64 cost → min_gas g <= cost →
  priced (for_call g) (min_gas g) n f cost f.
Proof.
  intros Hg Hr Hm Hc Hl. pose proof (priced_Vm g n f cost (Vm f) Hg Hr Hm Hc Hl) as Hp. rewrite set_Vm_id in Hp.
  apply Hp; [apply Hr|apply evm_le_refl, Hr].
Qed.

Ltac gas_run Hr :=
  repeat lazymatch goal with
  | |- wp (bind _ _) _ _ _ => apply evm_wp_bind
  | |- wp (memory_gas _) _ _ _ =>
      apply wp_memory_gas; [apply (gr_ok _ _ _ _ Hr)|apply (gr_n _ _ _ _ Hr)|apply (gr_words _ _ _ _ Hr)|intros; apply stops_here, Hr|];
      let gas := fresh "gas" in let m := fresh "m" in
      let Hgas := fresh "Hgas" in let Hmax := fresh "Hmax" in let Hstore := fresh "Hstore" in let Hpaid := fresh "Hpaid" in
      intros gas m Hgas Hmax Hstore Hpaid
  | |- wp state_of _ _ _ => apply wp_gets
  | |- wp contract_of _ _ _ => apply wp_gets
  | |- wp self _ _ _ => apply wp_gets
  | |- wp peek _ _ _ => apply wp_word; [pose proof (gr_stack _ _ _ _ Hr) as Hlen; cbn in Hlen |- *; lia|]
  | |- wp (Back _) _ _ _ => apply wp_word; [pose proof (gr_stack _ _ _ _ Hr) as Hlen; cbn in Hlen |- *; lia|]
  | |- wp (ret _) _ _ _ => apply evm_wp_ret
  end.

(** The frame when only the memory changed: an error may come after the fee was
    computed. *)
Lemma stops_Mem f m err : frame_ok f → stops f [] err (set_Mem m f).
Proof.
  intros Hf. pose proof (stops_here f err Hf) as [H1 H2 H3 H4]. by split.
Qed.

Lemma goes_memory_only g n f :
  gas_ready (gas_arity g) (charges_memory g) n f → for_call g = None → min_gas g = 0 → charges_memory g = true →
  prices g n f (pureMemoryGascost n).
Proof.
  intros Hr Hc Hl Hm. unfold pureMemoryGascost. gas_run Hr. apply priced_Mem; [done|done|done|rewrite Hl; b_lia|done..].
Qed.

(** The fee of the memory, and a price for each word of a length. *)
Lemma goes_memory_words g n f i price :
  gas_ready (gas_arity g) (charges_memory g) n f → for_call g = None → min_gas g = 0 → charges_memory g = true →
  (i < gas_arity g)%nat → is_uint64 price →
  prices g n f (do gas <- memory_gas n; do words <- back64 i; do words <- safe_mul (toWordSize words) price; safe_add gas words).
Proof.
  intros Hr Hc Hl Hm Hi Hp. gas_run Hr.
  apply wp_back64; [pose proof (gr_stack _ _ _ _ Hr); cbn; lia|apply Hr|intros; by apply stops_Mem, Hr|]. intros Hw. into.
  apply wp_safe_mul; [by apply toWordSize_range|done|intros; by apply stops_Mem, Hr|]. intros Hmul.
  apply wp_safe_add; [done|done|intros; by apply stops_Mem, Hr|]. intros Hsum.
  apply priced_Mem; [done|done|done|rewrite Hl; b_lia|done..].
Qed.
(** The fee of the memory, and the price of the words of an init code. *)
Lemma goes_init_code g n f price :
  gas_ready (gas_arity g) (charges_memory g) n f → for_call g = None → min_gas g = 0 → charges_memory g = true →
  (2 < gas_arity g)%nat → 0 <= price < 2 ^ 16 →
  prices g n f (do gas <- memory_gas n; do size <- back64 2;
    if size >? MaxInitCodeSize then fail ErrMaxInitCodeSizeExceeded
    else let moreGas := wrap64 (price * ((size + 31) / 32)) in safe_add gas moreGas).
Proof.
  intros Hr Hc Hl Hm Hi Hp. gas_run Hr.
  apply wp_back64; [pose proof (gr_stack _ _ _ _ Hr); cbn; lia|apply Hr|intros; by apply stops_Mem, Hr|]. intros Hw.
  destruct (_ >? _); [apply evm_wp_fail; by apply stops_Mem, Hr|]. cbv zeta.
  apply wp_safe_add; [done|apply wrap64_range|intros; by apply stops_Mem, Hr|]. intros Hsum.
  apply priced_Mem; [done|done|done| |done..]. rewrite Hl. pose proof (wrap64_range (price * ((word (Stk f) 2 + 31) / 32))). cbn [Stk set_Mem]. b_lia.
Qed.

Lemma goes_log_gas k n f :
  gas_ready 2 true n f → prices (GasFn.makeGasLog k) n f (makeGasLog (Z.of_nat k) n).
Proof.
  intros Hr. unfold makeGasLog. into.
  apply wp_back64; [pose proof (gr_stack _ _ _ _ Hr); cbn; lia|apply Hr|intros; by apply stops_here, Hr|]. intros Hw.
  gas_run Hr. assert (∀ err, stops f [] err (set_Mem m f)) as Hstop by (intros; by apply stops_Mem, Hr).
  apply wp_safe_add; [done|done|done|]. intros H1. into.
  apply wp_safe_add; [done|apply wrap64_range|done|]. intros H2. into.
  apply wp_safe_mul; [done|done|done|]. intros H3.
  apply wp_safe_add; [done|done|done|]. intros H4.
  apply (priced_Mem (GasFn.makeGasLog k)); [done|done|done| |done..]. cbn.
  pose proof (wrap64_range (Z.of_nat k * LogTopicGas)). b_lia.
Qed.

(** The bytes of an exponent. *)
Lemma goes_exp g price n f :
  gas_ready (gas_arity g) (charges_memory g) n f → gas_arity g = 2%nat → charges_memory g = false → for_call g = None → min_gas g = ExpGas →
  prices g n f (do exponent <- Back 1;
    let expByteLen := (BitLen exponent + 7) / 8 in
    let gas := wrap64 (expByteLen * price) in safe_add gas ExpGas).
Proof.
  intros Hr Ha Hm Hc Hl. into. apply wp_word; [pose proof (gr_stack _ _ _ _ Hr); lia|]. cbv zeta.
  set (c := wrap64 _). pose proof (wrap64_range ((BitLen (word (Stk f) 1) + 7) / 8 * price) : is_uint64 c).
  apply wp_safe_add; [done|done|intros; by apply stops_here, Hr|]. intros Hs.
  apply priced_same; [done..|rewrite Hl; b_lia].
Qed.

(** ** Storage *)

(** Some writes that only the machine sees. *)
Definition quietly f (m : X (Frame St) unit) : Prop :=
  ∀ (P : unit → Frame St → Prop) R, (∀ e, evm_ok e → evm_le (Vm f) e → P tt (set_Vm e f)) → wp m P R f.

Lemma quietly_ret f : frame_ok f → quietly f (ret tt).
Proof. intros Hf P R HP. apply evm_wp_ret. rewrite <-(set_Vm_id f). apply HP; [apply Hf|apply evm_le_refl, Hf]. Qed.

Lemma quietly_act f a : frame_ok f → action_ok (StateDB (Vm f)) a → quiet a → quietly f (act a).
Proof. intros Hf Ha Hq P R HP. apply wp_act; [apply Hf|done|done|]. intros e He Hle _. by apply HP. Qed.

Lemma quietly_when f (b : bool) m : frame_ok f → quietly f m → quietly f (when b m).
Proof. intros Hf Hm. destruct b; [done|by apply quietly_ret]. Qed.

Lemma frame_ok_Vm f e : frame_ok f → evm_ok e → frame_ok (set_Vm e f).
Proof. intros [] He. by split. Qed.

Lemma quietly_seq f m1 m2 :
  quietly f m1 → (∀ e, evm_ok e → evm_le (Vm f) e → quietly (set_Vm e f) m2) → quietly f (do! m1; m2).
Proof.
  intros H1 H2 P R HP. into. apply H1. intros e He Hle. apply H2; [done..|].
  intros e' He' Hle'. frame_norm. apply HP; [done|by eapply evm_le_trans].
Qed.

Lemma quietly_dirty f original current value clear reset_zero reset :
  frame_ok f → is_uint64 clear → is_uint64 reset_zero → is_uint64 reset →
  quietly f (dirty_refunds original current value clear reset_zero reset).
Proof.
  intros Hf H1 H2 H3. unfold dirty_refunds. apply quietly_seq.
  - destruct (negb _); [|by apply quietly_ret].
    destruct (current =? 0); [by apply quietly_act|]. by apply quietly_when, quietly_act.
  - intros e He Hle. pose proof (frame_ok_Vm f e Hf He) as Hf'. apply quietly_when; [done|].
    destruct (original =? 0); by apply quietly_act.
Qed.

(** A constant cost after some quiet writes. *)
Lemma wp_quiet_cost g n f m cost :
  for_call g = None → gas_ready (gas_arity g) (charges_memory g) n f → charges_memory g = false →
  is_uint64 cost → min_gas g <= cost → quietly f m → prices g n f (do! m; ret cost).
Proof.
  intros Hg Hr Hm Hc Hl Hq. into. apply Hq. intros e He Hle. apply evm_wp_ret. by apply priced_Vm.
Qed.

Lemma wp_cost g n f cost :
  for_call g = None → gas_ready (gas_arity g) (charges_memory g) n f → charges_memory g = false →
  is_uint64 cost → min_gas g <= cost → prices g n f (ret cost).
Proof.
  intros Hg Hr Hm Hc Hl. apply evm_wp_ret. by apply priced_same.
Qed.

Ltac gas_const := cbv; split; congruence.

Lemma goes_gasSStore n f : gas_ready 2 false n f → prices GasFn.gasSStore n f (gasSStore rules n).
Proof.
  intros Hr. pose proof (gr_ok _ _ _ _ Hr) as Hf. unfold gasSStore. gas_run Hr.
  repeat match goal with |- wp (if ?b then _ else _) _ _ _ => destruct b end.
  all: first
    [ apply (wp_cost GasFn.gasSStore); [done|done|done|gas_const|done]
    | apply (wp_quiet_cost GasFn.gasSStore); [done|done|done|gas_const|done|] ].
  - apply quietly_act; [done|gas_const|done].
  - apply quietly_when; [done|]. apply quietly_act; [done|gas_const|done].
  - apply quietly_dirty; [done|gas_const..].
Qed.

Lemma wp_sentry f (P : unit → Frame St → Prop) : frame_ok f → P tt f → wp sentry P (stops f) f.
Proof. intros Hf HP. unfold sentry. into. apply wp_gets. destruct (_ <=? _); [apply evm_wp_fail; by apply stops_here|by apply evm_wp_ret]. Qed.

Lemma goes_gasSStoreEIP2200 n f : gas_ready 2 false n f → prices GasFn.gasSStoreEIP2200 n f (gasSStoreEIP2200 n).
Proof.
  intros Hr. pose proof (gr_ok _ _ _ _ Hr) as Hf. unfold gasSStoreEIP2200. into. apply wp_sentry; [done|]. gas_run Hr.
  repeat match goal with |- wp (if ?b then _ else _) _ _ _ => destruct b end.
  all: first
    [ apply (wp_cost GasFn.gasSStoreEIP2200); [done|done|done|gas_const|done]
    | apply (wp_quiet_cost GasFn.gasSStoreEIP2200); [done|done|done|gas_const|done|] ].
  - apply quietly_when; [done|]. apply quietly_act; [done|gas_const|done].
  - apply quietly_dirty; [done|gas_const..].
Qed.

Lemma goes_makeGasSStore g clear n f :
  gas_arity g = 2%nat → charges_memory g = false → for_call g = None → min_gas g = 100 → is_uint64 clear →
  gas_ready (gas_arity g) (charges_memory g) n f → prices g n f (makeGasSStoreFunc clear n).
Proof.
  intros Ha Hm Hc Hl Hclear Hr. pose proof (gr_ok _ _ _ _ Hr) as Hf. pose proof (gr_stack _ _ _ _ Hr) as Hlen. rewrite Ha in Hlen.
  unfold makeGasSStoreFunc. into. apply wp_sentry; [done|]. into. apply wp_word; [lia|]. into. apply wp_word; [lia|]. into. apply wp_gets. into. apply wp_gets.
  cbv zeta. set (present := (SlotInAccessList _ _ _).2).
  set (cost := if negb present then ColdSloadCostEIP2929 else 0). assert (0 <= cost <= 2100) as Hcost by (unfold cost; destruct (negb present); unfold ColdSloadCostEIP2929; lia).
  into. eapply quietly_when; [done|by apply quietly_act|]. intros e He Hle.
  pose proof (frame_ok_Vm f e Hf He) as Hf'.
  assert (∀ c m, 0 <= c <= 30000 → quietly (set_Vm e f) m →
    wp (do! m; ret (cost + (100 + c))) (priced (for_call g) (min_gas g) n f) (stops f) (set_Vm e f)) as Hend.
  { intros c m Hcr Hq. into. apply Hq. intros e' He' Hle'. apply evm_wp_ret. frame_norm. apply priced_Vm; [done..|b_lia|lia|done|by eapply evm_le_trans]. }
  assert (∀ c, 0 <= c <= 30000 → wp (ret (cost + (100 + c))) (priced (for_call g) (min_gas g) n f) (stops f) (set_Vm e f)) as Hret.
  { intros c Hcr. exact (Hend c (ret tt) Hcr (quietly_ret _ Hf')). }
  destruct (_ =? _); [exact (Hret 0 ltac:(lia))|]. into. apply wp_gets.
  destruct (_ =? _).
  - destruct (_ =? _); [exact (Hret 19900 ltac:(lia))|]. refine (Hend 2800 _ ltac:(lia) _). by apply quietly_when, quietly_act.
  - refine (Hend 0 _ ltac:(lia) _). apply quietly_dirty; [done|done|gas_const..].
Qed.


(** ** Access lists *)

Lemma goes_sload_gas n f : gas_ready 1 false n f → prices GasFn.gasSLoadEIP2929 n f (gasSLoadEIP2929 n).
Proof.
  intros Hr. pose proof (gr_ok _ _ _ _ Hr) as Hf. unfold gasSLoadEIP2929. gas_run Hr. destruct (negb _).
  - apply (wp_quiet_cost GasFn.gasSLoadEIP2929); [done|done|done|gas_const|done|by apply quietly_act].
  - apply (wp_cost GasFn.gasSLoadEIP2929); [done|done|done|gas_const|done].
Qed.

Lemma goes_account_check n f : gas_ready 1 false n f → prices GasFn.gasEip2929AccountCheck n f (gasEip2929AccountCheck n).
Proof.
  intros Hr. pose proof (gr_ok _ _ _ _ Hr) as Hf. unfold gasEip2929AccountCheck. gas_run Hr. destruct (negb _).
  - apply (wp_quiet_cost GasFn.gasEip2929AccountCheck); [done|done|done|gas_const|done|by apply quietly_act].
  - apply (wp_cost GasFn.gasEip2929AccountCheck); [done|done|done|gas_const|done].
Qed.

Lemma goes_selfdestruct_gas n f : gas_ready 1 false n f → prices GasFn.gasSelfdestruct n f (gasSelfdestruct rules n).
Proof.
  intros Hr. pose proof (gr_ok _ _ _ _ Hr) as Hf. unfold gasSelfdestruct. gas_run Hr.
  assert (∀ gas, 0 <= gas <= 30000 → wp (do! when (negb (HasSelfDestructed (StateDB (Vm f)) (address (Con f)))) (act (AAddRefund SelfdestructRefundGas)); ret gas)
    (priced (for_call GasFn.gasSelfdestruct) (min_gas GasFn.gasSelfdestruct) n f) (stops f) f) as Hend.
  { intros gas Hgas. apply (wp_quiet_cost GasFn.gasSelfdestruct); [done..|b_lia|cbn; lia|]. by apply quietly_when, quietly_act. }
  pose proof (gr_stack _ _ _ _ Hr) as Hlen. destruct (ChainConfig.Config.r_IsEIP150 rules).
  - into. apply wp_word; [lia|]. apply evm_wp_ret. apply Hend.
    repeat case_match; unfold SelfdestructGasEIP150, CreateBySelfdestructGas; lia.
  - apply evm_wp_ret. apply Hend. lia.
Qed.

Lemma goes_selfdestruct_acl g enabled n f :
  gas_arity g = 1%nat → charges_memory g = false → for_call g = None → min_gas g = 0 →
  gas_ready (gas_arity g) (charges_memory g) n f → prices g n f (makeSelfdestructGasFn enabled n).
Proof.
  intros Ha Hm Hc Hl Hr. pose proof (gr_ok _ _ _ _ Hr) as Hf. pose proof (gr_stack _ _ _ _ Hr) as Hlen. rewrite Ha in Hlen.
  unfold makeSelfdestructGasFn. into. apply wp_word; [lia|]. into. apply wp_gets. into. apply wp_gets. cbv zeta.
  into. eapply quietly_when; [done|by apply quietly_act|]. intros e He Hle. pose proof (frame_ok_Vm f e Hf He) as Hf'.
  into. apply wp_gets. into.
  eapply quietly_when; [done|by apply quietly_act|]. intros e' He' Hle'. frame_norm. apply evm_wp_ret.
  apply priced_Vm; [done..| |rewrite Hl|done|by eapply evm_le_trans].
  all: repeat case_match; unfold ColdAccountAccessCostEIP2929, CreateBySelfdestructGas; b_lia.
Qed.

Lemma goes_extcodecopy_acl n f : gas_ready 4 true n f → prices GasFn.gasExtCodeCopyEIP2929 n f (gasExtCodeCopyEIP2929 n).
Proof.
  intros Hr. unfold gasExtCodeCopyEIP2929. into.
  eapply evm_wp_mono; [apply (goes_memory_words GasFn.gasExtCodeCopy n f 3 CopyGas Hr); [done..|cbn; lia|gas_const]| |done].
  intros cost f' Hp. pose proof (gr_stack _ _ _ _ Hr) as Hlen.
  into. apply wp_word; [rewrite (pr_stack _ _ _ _ _ _ Hp); lia|]. cbv zeta. into. apply wp_gets.
  destruct (negb _); [|apply evm_wp_ret; destruct Hp; by split].
  into. apply wp_act; [apply Hp|done|done|]. intros e He Hle _.
  apply wp_safe_add; [apply Hp|gas_const| |].
  - intros err. destruct Hp as [H1 H2 H3 H4 H5 H6 H7 H8 H9 H10 H11 H12 H13]. split; [apply data_ok_nil|done|by eapply evm_le_trans|].
    cbn. rewrite H5. pose proof (ck_gas _ H3). b_lia.
  - intros Hs. destruct Hp as [H1 H2 H3 H4 H5 H6 H7 H8 H9 H10 H11 H12 H13]. split; try done; [by eapply evm_le_trans|].
    cbn in *. unfold ColdAccountAccessCostEIP2929, WarmStorageReadCostEIP2929. lia.
Qed.

(** ** The gas of a call *)

Lemma wp_with_call_gas g n f gas m e :
  gas_ready (gas_arity g) (charges_memory g) n f → (1 <= gas_arity g)%nat → min_gas g = 0 →
  is_uint64 gas → n <= max_memory → store m = store (Mem f) → mem_paid m n →
  evm_ok e → evm_le (Vm f) e →
  (∀ fn, for_call g = Some fn → stipend fn (Stk f) <= gas) →
  wp (with_call_gas rules gas) (priced (for_call g) (min_gas g) n f) (stops f) (set_Mem m (set_Vm e f)).
Proof.
  intros Hr Ha Hl Hgas Hn Hs Hp He Hle Hst'. pose proof (gr_ok _ _ _ _ Hr) as [Hstk Hmem Hcon Hvm].
  assert (∀ err t, is_uint64 t → stops f [] err (set_Vm (set_callGasTemp e t) (set_Mem m f))) as Hstop.
  { intros err t Ht. split; [apply data_ok_nil| | |cbn; pose proof (ck_gas _ Hcon); b_lia].
    - destruct He. by split.
    - by eapply evm_le_with. }
  unfold with_call_gas. into. apply wp_gets. into. apply wp_word; [pose proof (gr_stack _ _ _ _ Hr); cbn; lia|].
  into. cbn [Con set_Mem set_Vm Stk]. destruct (callGas _ _ gas _) as [t|err] eqn:Hc; into; apply evm_wp_modify.
  - pose proof (callGas_range _ _ _ _ _ Hc) as Ht. apply evm_wp_ret.
    apply wp_safe_add; [done|done|intros; by apply Hstop|]. intros Hsum.
    split; try done; [by destruct He|by eapply evm_le_with|rewrite Hl; b_lia|].
    intros fn Hfn. specialize (Hst' fn Hfn). cbn. lia.
  - apply evm_wp_fail, Hstop. b_lia.
Qed.

Lemma word_eqb_stipend fn st gas rest :
  (fn = Exec.opCall ∨ fn = Exec.opCallCode) → 0 <= rest →
  gas = (if negb (word st 2 =? 0) then rest + CallValueTransferGas else rest) → stipend fn st <= gas.
Proof.
  intros [->| ->] Hr ->; unfold stipend, CallValueTransferGas, CallStipend; destruct (word st 2 =? 0); cbn [negb]; lia.
Qed.

Lemma goes_gasCall n f : gas_ready 3 true n f → prices GasFn.gasCall n f (gasCall rules n).
Proof.
  intros Hr. unfold gasCall. gas_run Hr. cbv zeta. into. gas_run Hr.
  set (rest := if ChainConfig.Config.r_IsEIP158 rules then _ else _).
  assert (0 <= rest <= 25000) as Hrest by (unfold rest; repeat case_match; unfold CallNewAccountGas; lia).
  set (base := if negb _ then _ else _). assert (0 <= base <= 34000) as Hb by (unfold base, CallValueTransferGas; case_match; lia).
  apply wp_safe_add; [b_lia|done|intros; by apply stops_Mem, Hr|]. intros Hsum.
  change (set_Mem m f) with (set_Mem m (set_Vm (Vm f) f)).
  apply (wp_with_call_gas GasFn.gasCall n f); [done|cbn; lia|done..|apply Hr|apply evm_le_refl, Hr|].
  intros fn [= <-]. assert (stipend Exec.opCall (Stk f) <= base); [|b_lia]. apply (word_eqb_stipend _ _ _ rest); [by left|lia|done].
Qed.

Lemma goes_gasCallCode n f : gas_ready 3 true n f → prices GasFn.gasCallCode n f (gasCallCode rules n).
Proof.
  intros Hr. unfold gasCallCode. gas_run Hr. cbv zeta. gas_run Hr.
  set (base := if negb _ then _ else _). assert (0 <= base <= 34000) as Hb by (unfold base, CallValueTransferGas; case_match; lia).
  apply wp_safe_add; [b_lia|done|intros; by apply stops_Mem, Hr|]. intros Hsum.
  change (set_Mem m f) with (set_Mem m (set_Vm (Vm f) f)).
  apply (wp_with_call_gas GasFn.gasCallCode n f); [done|cbn; lia|done..|apply Hr|apply evm_le_refl, Hr|].
  intros fn [= <-]. assert (stipend Exec.opCallCode (Stk f) <= base); [|b_lia]. apply (word_eqb_stipend _ _ _ 0); [by right|lia|done].
Qed.

Lemma goes_gasOtherCall g n f :
  gas_arity g = 2%nat → charges_memory g = true → min_gas g = 0 → (∀ fn, for_call g = Some fn → fn = Exec.opDelegateCall ∨ fn = Exec.opStaticCall) →
  gas_ready (gas_arity g) (charges_memory g) n f → prices g n f (do gas <- memory_gas n; with_call_gas rules gas).
Proof.
  intros Ha Hm Hl Hc Hr. gas_run Hr. change (set_Mem m f) with (set_Mem m (set_Vm (Vm f) f)).
  apply wp_with_call_gas; [done|rewrite Ha; lia|done..|apply Hr|apply evm_le_refl, Hr|].
  intros fn Hfn. destruct (Hc fn Hfn) as [->| ->]; cbn; b_lia.
Qed.


(** ** Cold accounts *)

Lemma lent_refl f : frame_ok f → lent f 0 f.
Proof. intros Hf. split; try done; [apply Hf|lia|apply Hf|apply evm_le_refl, Hf]. Qed.

Lemma lent_stops f t f' err : lent f t f' → stops f [] err f'.
Proof.
  intros []. split; [apply data_ok_nil|done|done|]. pose proof (ck_gas _ ln_con0). b_lia.
Qed.

Lemma lent_ready a b n f t f' : gas_ready a b n f → lent f t f' → gas_ready a b n f'.
Proof.
  intros [Hf H1 H2 H3 H4] [L1 L2 L3 L4 L5 L6 L7 L8 L9]. split; try done; [|by rewrite L1].
  destruct Hf. split; [by rewrite L1|by rewrite L3|done|done].
Qed.

Lemma wp_lent_act f t f1 a (P : unit → Frame St → Prop) R :
  lent f t f1 → action_ok (StateDB (Vm f1)) a → quiet a → (∀ f2, lent f t f2 → P tt f2) → wp (act a) P R f1.
Proof.
  intros [] Ha Hq HP. apply wp_act; [done|done|done|]. intros e He Hle _. apply HP. split; try done. by eapply evm_le_trans.
Qed.

Lemma wp_must_use f t f1 c (P : unit → Frame St → Prop) :
  lent f t f1 → 0 <= c → t + c < 2 ^ 20 → (∀ f2, lent f (t + c) f2 → P tt f2) → wp (must_use c) P (stops f) f1.
Proof.
  intros Hln Hc Ht HP. unfold must_use. into. pose proof (ck_gas _ (ln_con _ _ _ Hln)) as Hg. pose proof (ln_range _ _ _ Hln) as Htr.
  apply wp_use_gas; [done|b_lia| |].
  - intros _. apply evm_wp_fail. by eapply lent_stops.
  - intros Hle. apply evm_wp_ret. apply HP. destruct Hln as [L1 L2 L3 L4 L5 L6 L7 L8 L9]. split; try done; cbn; [|lia|lia].
    apply con_ok_Gas; [done|]. cbn in *. b_lia.
Qed.

(** The end: the price, and what was lent. *)
Lemma wp_give_back call n f t f1 cost f2 :
  frame_ok f → lent f t f1 → priced call 0 n f1 cost f2 →
  wp (do! give_back t; safe_add cost t) (priced call 0 n f) (stops f) f2.
Proof.
  intros Hf [L1 L2 L3 L4 L5 L6 L7 L8 L9] [H1 H2 H3 H4 H5 H6 H7 H8 H9 H10 H11 H12 H13].
  pose proof (ck_gas _ (fk_con _ Hf)) as Hg. pose proof (ck_gas _ L4) as Hg1.
  assert (wrap64 (Gas (Con f2) + t) = Gas (Con f)) as Hw by (rewrite H5, L6, wrap64_id; b_lia).
  into. apply evm_wp_modify. apply wp_safe_add; [done|b_lia| |].
  - intros err. split; [apply data_ok_nil|done|by eapply evm_le_trans|]. cbn. rewrite Hw. b_lia.
  - intros Hs. split; cbn; try congruence; try done.
    + by apply con_ok_Gas; [|apply wrap64_range].
    + by eapply evm_le_trans.
    + lia.
    + intros fn Hfn. specialize (H13 fn Hfn). rewrite L1 in H13. lia.
Qed.

Lemma wp_old_call old call n f t f1 :
  frame_ok f → lent f t f1 → wp (old n) (priced call 0 n f1) (stops f1) f1 →
  wp (do old_ <- old n; do! give_back t; safe_add old_ t) (priced call 0 n f) (stops f) f1.
Proof.
  intros Hf Hln Hold. into. eapply evm_wp_mono; [exact Hold| |].
  - intros cost f2 Hp. by eapply wp_give_back.
  - intros r x f2 Hh. destruct Hln as [L1 L2 L3 L4 L5 L6 L7 L8 L9]. destruct Hh as [Hd Hv Hle Hg].
    split; [done|done|by eapply evm_le_trans|lia].
Qed.

Ltac gas_le := unfold ColdAccountAccessCostEIP2929, WarmStorageReadCostEIP2929; lia.

Lemma goes_call_acl old call a n f :
  gas_ready a true n f → (1 < a)%nat → (∀ f1, gas_ready a true n f1 → wp (old n) (priced call 0 n f1) (stops f1) f1) →
  wp (makeCallVariantGasCallEIP2929 old 1 n) (priced call 0 n f) (stops f) f.
Proof.
  intros Hr Ha Hold. pose proof (gr_ok _ _ _ _ Hr) as Hf. unfold makeCallVariantGasCallEIP2929. into.
  apply wp_word; [pose proof (gr_stack _ _ _ _ Hr); lia|]. cbv zeta. into. apply wp_gets. into.
  destruct (AddressInAccessList _ _); cbn [negb when].
  - apply evm_wp_ret. into. eapply evm_wp_mono; [by apply Hold| |done]. intros. by apply evm_wp_ret.
  - into. eapply wp_lent_act; [by apply lent_refl|done|done|]. intros f1 H1.
    eapply wp_must_use; [exact H1|gas_le|gas_le|]. intros f2 H2.
    eapply (wp_old_call old); [done|exact H2|]. apply Hold. by eapply lent_ready.
Qed.

Lemma goes_call_7702 old call a n f :
  gas_ready a true n f → (1 < a)%nat → (∀ f1, gas_ready a true n f1 → wp (old n) (priced call 0 n f1) (stops f1) f1) →
  wp (makeCallVariantGasCallEIP7702 old n) (priced call 0 n f) (stops f) f.
Proof.
  intros Hr Ha Hold. pose proof (gr_ok _ _ _ _ Hr) as Hf. unfold makeCallVariantGasCallEIP7702. into.
  apply wp_word; [pose proof (gr_stack _ _ _ _ Hr); lia|]. cbv zeta. into. apply wp_gets. into.
  set (k := λ total : Z, _).
  assert (∀ t f1, lent f t f1 → t <= 5000 → k t f1) as Hk1; subst k; cbn beta.
  2: { destruct (AddressInAccessList _ _); cbn [negb].
    - apply evm_wp_ret. apply Hk1; [by apply lent_refl|lia].
    - into. eapply wp_lent_act; [by apply lent_refl|done|done|]. intros f1 H1. into.
      eapply wp_must_use; [exact H1|gas_le|gas_le|]. intros f2 H2. apply evm_wp_ret. apply Hk1; [exact H2|done]. }
  intros t f1 H1 Ht. into. apply wp_gets. into.
  assert (∀ t2 f2, lent f t2 f2 → wp (do old_ <- old n; do! give_back t2; safe_add old_ t2) (priced call 0 n f) (stops f) f2) as Hend.
  { intros t2 f2 H2. eapply (wp_old_call old); [done|exact H2|]. apply Hold. by eapply lent_ready. }
  destruct (StateTransition.ParseDelegation _) as [target|]; [|apply evm_wp_ret; by apply Hend].
  into. destruct (AddressInAccessList _ _).
  - apply evm_wp_ret. into. pose proof (ln_range _ _ _ H1). eapply wp_must_use; [exact H1|gas_le|gas_le|].
    intros f2 H2. apply evm_wp_ret. by apply Hend.
  - into. eapply wp_lent_act; [exact H1|done|done|]. intros f2 H2. apply evm_wp_ret. into. pose proof (ln_range _ _ _ H1).
    eapply wp_must_use; [exact H2|gas_le|gas_le|]. intros f3 H3. apply evm_wp_ret. by apply Hend.
Qed.

(** ** All the gas functions *)

Lemma goes_dynamicGas g n f : gas_ready (gas_arity g) (charges_memory g) n f → prices g n f (dynamicGas_fn rules g n).
Proof.
  intros Hr. destruct g; cbn [dynamicGas_fn].
  all: try (apply goes_memory_only; done).
  all: try (apply (goes_memory_words _ n f); [done|done|done|done|cbn; lia|gas_const]).
  all: try (apply (goes_call_acl _ _ _ n f Hr); [cbn; lia|intros f1 Hr1]).
  all: try (apply (goes_call_7702 _ _ _ n f Hr); [cbn; lia|intros f1 Hr1]).
  all: try (by apply goes_gasCall).
  all: try (by apply goes_gasCallCode).
  - by apply goes_gasSStore.
  - by apply goes_gasSStoreEIP2200.
  - apply goes_makeGasSStore; [done..|gas_const|done].
  - apply goes_makeGasSStore; [done..|gas_const|done].
  - by apply goes_log_gas.
  - apply (goes_init_code GasFn.gasCreateEip3860 n f InitCodeWordGas); [done..|cbn; lia|gas_const].
  - apply (goes_init_code GasFn.gasCreate2Eip3860 n f (InitCodeWordGas + Keccak256WordGas)); [done..|cbn; lia|gas_const].
  - by apply (goes_exp GasFn.gasExpFrontier).
  - by apply (goes_exp GasFn.gasExpEIP158).
  - apply goes_gasOtherCall; [done..|intros fn [= <-]; by left|done].
  - apply goes_gasOtherCall; [done..|intros fn [= <-]; by right|done].
  - by apply goes_selfdestruct_gas.
  - by apply goes_sload_gas.
  - by apply goes_extcodecopy_acl.
  - by apply goes_account_check.
  - apply (goes_gasOtherCall GasFn.gasDelegateCall); [done..|intros fn [= <-]; by left|done].
  - apply (goes_gasOtherCall GasFn.gasStaticCall); [done..|intros fn [= <-]; by right|done].
  - by apply goes_selfdestruct_acl.
  - by apply goes_selfdestruct_acl.
  - apply (goes_gasOtherCall GasFn.gasDelegateCall); [done..|intros fn [= <-]; by left|done].
  - apply (goes_gasOtherCall GasFn.gasStaticCall); [done..|intros fn [= <-]; by right|done].
Qed.

End GasLaws.
