(* ===== verification/EvmStep.v ===== *)
(** * One turn of the interpreter

    A table is sound when the bounds of each entry fit its instruction ([op_check], a
    computation), the entry at 0 stops, and the environment has what its
    instructions read.  With a sound table, [step] keeps the typing of a frame
    ([live]) and, unless it halts, takes at least one unit of gas. *)

From S2P Require ChainConfig StateTransition StateTypes.
From S2P Require Import Prelude Crypto TxTypes VMInterface EvmCode EvmBase EvmState EvmFrame EvmOps EvmGas EvmTable.
From S2P Require Import EvmRun EvmMemory EvmWp EvmInstr EvmGasLaws.

(** ** Sound tables *)

(** The instructions that never go on. *)
Definition stopping (fn : Exec.t) : bool :=
  match fn with
  | Exec.opStop | Exec.opReturn | Exec.opRevert | Exec.opUndefined | Exec.opSelfdestruct | Exec.opSelfdestruct6780 => true
  | _ => false
  end.

Definition small_push_b (fn : Exec.t) : bool :=
  match fn with
  | Exec.makePush n k => (0 <=? n) && (n <=? 32) && (0 <=? k) && (k <=? 32)
  | Exec.makeDup n => (1 <=? n)%nat
  | _ => true
  end.

Definition gas_of (o : operation) : Z :=
  constantGas o + match dynamicGas o with Some g => min_gas g | None => 0 end.

Definition takes (o : operation) : nat := (effect (op_execute o)).1.
Definition puts (o : operation) : nat := (effect (op_execute o)).2.

Definition calling_b (o : operation) : bool :=
  match op_execute o with
  | Exec.opCall | Exec.opCallCode | Exec.opDelegateCall | Exec.opStaticCall =>
      (0 <? constantGas o) && match dynamicGas o with Some g => bool_decide (for_call g = Some (op_execute o)) | None => false end
  | _ => true
  end.

Definition dynamic_b (o : operation) : bool :=
  match dynamicGas o with
  | Some g => (gas_arity g <=? takes o)%nat && (charges_memory g || bool_decide (memorySize o = None))
  | None => bool_decide (memorySize o = None)
  end.

Definition op_check (o : operation) : bool :=
  (Z.of_nat (takes o) <=? op_minStack o) && (op_maxStack o <=? 1024 + Z.of_nat (takes o) - Z.of_nat (puts o)) &&
  (0 <=? constantGas o) && (constantGas o <? two64) && bool_decide (memorySize o = mem_of (op_execute o)) &&
  dynamic_b o && calling_b o && (stopping (op_execute o) || (0 <? gas_of o)) && small_push_b (op_execute o).

Definition table_check (jt : JumpTable) : bool :=
  forallb (λ i, op_check (table_at jt i)) all_opcodes && bool_decide (op_execute (table_at jt STOP) = Exec.opStop).

Record op_ok (o : operation) : Prop := {
  oo_min : Z.of_nat (takes o) <= op_minStack o;
  oo_max : op_maxStack o <= 1024 + Z.of_nat (takes o) - Z.of_nat (puts o);
  oo_const : is_uint64 (constantGas o);
  oo_mem : memorySize o = mem_of (op_execute o);
  oo_dynamic g : dynamicGas o = Some g → (gas_arity g <= takes o)%nat ∧ (charges_memory g = false → memorySize o = None);
  oo_static : dynamicGas o = None → memorySize o = None;
  oo_calling : calling_b o = true;
  oo_cost : stopping (op_execute o) = false → 0 < gas_of o;
  oo_small : small_push (op_execute o)
}.

Lemma small_push_sound fn : small_push_b fn = true → small_push fn.
Proof. destruct fn; try done; cbn; [lia|]. by destruct size; [|lia]. Qed.

Lemma op_check_sound o : op_check o = true → op_ok o.
Proof.
  unfold op_check. rewrite !andb_true_iff, orb_true_iff, !Z.leb_le, !Z.ltb_lt, bool_decide_eq_true.
  intros ((((((((H1 & H2) & H3) & H4) & H5) & H6) & H7) & H8) & H9). unfold dynamic_b in H6. split; try done.
  - intros g Hg. rewrite Hg, andb_true_iff, orb_true_iff, bool_decide_eq_true in H6. destruct H6 as [H6 H6'].
    split; [by apply Nat.leb_le|]. intros Hc. rewrite Hc in H6'. by destruct H6'.
  - intros Hd. rewrite Hd in H6. by apply bool_decide_eq_true in H6.
  - intros Hs. rewrite Hs in H8. by destruct H8.
  - by apply small_push_sound.
Qed.

Record table_ok (env : EvmEnv) (jt : JumpTable) : Prop := {
  tk_ops i : 0 <= i < 256 → op_ok (table_at jt i);
  tk_stop : op_execute (table_at jt STOP) = Exec.opStop;
  tk_env i : 0 <= i < 256 → provided env (op_execute (table_at jt i))
}.

Lemma table_check_sound jt :
  table_check jt = true →
  (∀ i, 0 <= i < 256 → op_ok (table_at jt i)) ∧ op_execute (table_at jt STOP) = Exec.opStop.
Proof.
  unfold table_check. rewrite andb_true_iff, bool_decide_eq_true, forallb_forall. intros [Hops Hs]. split; [|done].
  intros i Hi. apply op_check_sound, Hops. apply list_elem_of_In. unfold all_opcodes. apply elem_of_seqZ. lia.
Qed.

Lemma mem_arity_effect fn mf : mem_of fn = Some mf → (mem_arity mf <= (effect fn).1)%nat.
Proof. destruct fn; intros [= <-]; cbn; lia. Qed.

(** ** Instructions that never go on *)

Definition never {T A} (m : X T A) : Prop := ∀ t a t', m t ≠ Done a t'.

Lemma never_seq {T A B} (m : X T A) (k : A → X T B) : (∀ a, never (k a)) → never (bind m k).
Proof. intros Hk t a t'. unfold bind. destruct (m t) eqn:Hm; [apply Hk|done..]. Qed.

Lemma never_halt {T A} res err : never (@halt T A res err).
Proof. done. Qed.

Section Step.
Context {St : Type} `{Hst : EvmState St} `{Hk : Keccak} `{Hlaws : !EvmStateLaws St} `{Hu : Uint256}.
Context (env : EvmEnv) (Henv : env_ok env) (abort : Frame St → bool) (table : JumpTable) (Htable : table_ok env table).
Implicit Types (e : Evm St) (f : Frame St) (fn : Exec.t).

Lemma stopping_never calls fn : stopping fn = true → never (execute env abort calls fn).
Proof.
  destruct fn; try done; intros _; cbn [execute];
    unfold opStop, opReturn, opRevert, opUndefined, opSelfdestruct, opSelfdestruct6780; repeat (apply never_seq; intros ?); apply never_halt.
Qed.

(** The typing of a frame between two turns. *)
Record live f : Prop := {
  lv_ok : frame_ok f;
  lv_pc : 0 <= pc f <= 2 ^ 62 + 64;
  lv_stack : len (Stk f) <= 1024
}.

(** The frame at which the instruction [o] starts: its gas was paid. *)
Record paid (o : operation) f f' : Prop := {
  pd_runs : runs f (Gas (Con f)) f';
  pd_pc : pc f' = pc f;
  pd_stack : Stk f' = Stk f;
  pd_room : Z.of_nat (takes o) <= len (Stk f) ∧ len (Stk f) <= 1024 + Z.of_nat (takes o) - Z.of_nat (puts o);
  pd_mem : covered (op_execute o) (Len (Mem f')) (Stk f');
  pd_gas : Gas (Con f') + gas_of o <= Gas (Con f);
  pd_reserved : Gas (Con f') + reserved (op_execute o) f' + constantGas o <= Gas (Con f)
}.

Abbreviation stops f := (halts f (Gas (Con f))).

Lemma wp_wrap_gas_error f m (P : Z → Frame St → Prop) (R R' : bytes → vm_error → Frame St → Prop) :
  wp m P R f → (∀ r x f', R r x f' → R' [] (OutOfGasBecause x) f') → wp (wrap_gas_error m) P R' f.
Proof. unfold wp, wrap_gas_error. intros Hm HR. destruct (m f); [done|by eapply HR|done|done]. Qed.

(** The size that the memory must have. *)
Lemma wp_needed_memory o f (P : Z → Frame St → Prop) R :
  frame_ok f → memorySize o = mem_of (op_execute o) → (takes o <= length (Stk f))%nat → (∀ err, R [] err f) →
  (∀ n, is_uint64 n → n mod 32 = 0 → (memorySize o = None → n = 0) →
     (∀ L, n <= L → covered (op_execute o) L (Stk f)) → P n f) →
  wp (needed_memory o) P R f.
Proof.
  intros Hf Hm Hlen HR HP. unfold needed_memory. rewrite Hm. destruct (mem_of (op_execute o)) as [mf|] eqn:Hmf.
  - pose proof (mem_arity_effect _ _ Hmf). destruct (memorySize_fn_spec mf f) as (r & Hr & Hr64 & Hcov);
      [unfold takes in Hlen; lia|apply Hf|].
    into. unfold wp at 1. rewrite Hr. into. apply wp_no_overflow; [intros _; apply HR|]. intros Hr2.
    apply wp_no_overflow; [intros _; apply HR|]. intros Hs2.
    destruct (SafeMul_spec (toWordSize r.1) 32) as [-> H64]; [by apply toWordSize_range|b_lia|done|].
    rewrite size_in_words in * by done. apply HP; [done|apply Z.mod_mul; lia|congruence|].
    intros L HL. unfold covered. rewrite Hmf. apply Hcov; [done|]. div_lia.
  - apply evm_wp_ret. apply HP; [b_lia|done|done|]. intros L _. unfold covered. by rewrite Hmf.
Qed.

Lemma charged_con c cost : con_ok c → 0 <= cost <= Gas c → con_ok (set_Gas c (wrap64 (Gas c - cost))) ∧ wrap64 (Gas c - cost) = Gas c - cost.
Proof. intros Hc Hle. pose proof (ck_gas _ Hc). rewrite wrap64_id by b_lia. split; [apply con_ok_Gas; [done|b_lia]|done]. Qed.

(** A call has a constant price, and its gas function sets its gas aside. *)
Lemma calling_spec o :
  calling_b o = true → (∀ f, reserved (op_execute o) f = 0) ∨
    (0 < constantGas o ∧ ∃ g, dynamicGas o = Some g ∧ for_call g = Some (op_execute o)).
Proof.
  unfold calling_b. destruct (op_execute o); try (by left); rewrite andb_true_iff, Z.ltb_lt; intros [H1 H2]; right;
    (split; [done|]); (destruct (dynamicGas o) as [g|]; [|done]); apply bool_decide_eq_true in H2; by exists g.
Qed.

(** The operation at the program counter. *)
Definition op_at f : operation := table_at table (GetOp (Con f) (pc f)).

Lemma GetOp_byte c n : data_ok (Code c) → 0 <= GetOp c n < 256.
Proof.
  intros [Hb _]. unfold GetOp, STOP. destruct (n <? len (Code c)); [|lia].
  destruct (Code c !! Z.to_nat n) as [x|] eqn:Hx; cbn; [|lia]. exact (Forall_lookup_1 _ _ _ _ Hb Hx).
Qed.

Lemma wp_fetch f (P : operation → Frame St → Prop) :
  live f →
  (op_ok (op_at f) → provided env (op_execute (op_at f)) →
   Z.of_nat (takes (op_at f)) <= len (Stk f) <= 1024 + Z.of_nat (takes (op_at f)) - Z.of_nat (puts (op_at f)) →
   constantGas (op_at f) <= Gas (Con f) →
   P (op_at f) (set_Con (set_Gas (Con f) (Gas (Con f) - constantGas (op_at f))) f)) →
  wp (fetch table) P (stops f) f.
Proof.
  intros [Hf _ _] HP. unfold fetch. into. apply evm_wp_get. fold (op_at f). pose proof (stops_here f) as Hstop.
  assert (0 <= GetOp (Con f) (pc f) < 256) as Hb by (apply GetOp_byte, Hf).
  pose proof (tk_ops _ _ Htable _ Hb) as Ho. fold (op_at f) in Ho.
  destruct (Z.ltb_spec (len (Stk f)) (op_minStack (op_at f))) as [|H1]; [by apply evm_wp_fail, Hstop|]. rewrite Z.gtb_ltb.
  destruct (Z.ltb_spec (op_maxStack (op_at f)) (len (Stk f))) as [|H2]; [by apply evm_wp_fail, Hstop|].
  destruct (Z.ltb_spec (Gas (Con f)) (constantGas (op_at f))) as [|H3]; [by apply evm_wp_fail, Hstop|].
  into. apply evm_wp_modify, evm_wp_ret. pose proof (oo_const _ Ho) as Hc.
  destruct (charged_con (Con f) (constantGas (op_at f))) as [_ ->]; [apply Hf|b_lia|].
  pose proof (oo_min _ Ho). pose proof (oo_max _ Ho). apply HP; [done|by apply tk_env|lia|done].
Qed.

Lemma wp_charge f (P : unit → Frame St → Prop) :
  live f → op_ok (op_at f) →
  Z.of_nat (takes (op_at f)) <= len (Stk f) <= 1024 + Z.of_nat (takes (op_at f)) - Z.of_nat (puts (op_at f)) →
  constantGas (op_at f) <= Gas (Con f) →
  (∀ f', paid (op_at f) f f' → P tt f') →
  wp (charge env (op_at f)) P (stops f) (set_Con (set_Gas (Con f) (Gas (Con f) - constantGas (op_at f))) f).
Proof.
  intros [Hf Hpc Hs] Ho Hroom Hc HP. set (o := op_at f) in *. pose proof (ck_gas _ (fk_con _ Hf)) as Hg.
  pose proof (oo_const _ Ho) as Hconst. unfold charge.
  set (f1 := set_Con (set_Gas (Con f) (Gas (Con f) - constantGas o)) f).
  assert (runs f (Gas (Con f)) f1) as H1.
  { apply runs_Con; [by apply runs_refl|apply con_ok_Gas; [apply Hf|b_lia]|done|cbn; b_lia]. }
  assert (∀ err, stops f [] err f1) as Hstop by (intros; apply runs_halts; [done|apply data_ok_nil]).
  destruct (dynamicGas o) as [g|] eqn:Hd.
  2: { apply evm_wp_ret, HP. split; try done.
    - unfold covered. by rewrite <-(oo_mem _ Ho), (oo_static _ Ho Hd).
    - unfold gas_of. rewrite Hd. cbn. lia.
    - destruct (calling_spec o (oo_calling _ Ho)) as [Hz|(_ & g & Hg' & _)]; [rewrite Hz; cbn; lia|congruence]. }
  destruct (oo_dynamic _ Ho g Hd) as [Harity Hnomem]. into.
  apply wp_needed_memory; [apply H1|by apply oo_mem|cbn; unfold len in Hroom; lia|done|].
  intros n Hn Hn32 Hn0 Hcov. into. apply (wp_wrap_gas_error _ _ _ (stops f1)).
  2: { intros r x f' [Hd' Hv Hle Hgas]. split; [apply data_ok_nil|done|exact Hle|cbn in Hgas; b_lia]. }
  eapply evm_wp_mono; [apply goes_dynamicGas| |done].
  { split; [apply H1|done|done|cbn; unfold len in Hroom; lia|auto]. }
  intros cost f2 [P1 P2 P3 P4 P5 P6 P7 P8 P9 P10 P11 P12 P13]. into. apply wp_gets.
  assert (∀ err, stops f [] err f2) as Hstop2.
  { intros err. split; [apply data_ok_nil|done|exact P7|]. rewrite P5. cbn. pose proof (ck_gas _ P3). b_lia. }
  destruct (Z.ltb_spec (Gas (Con f2)) cost) as [|Hcost]; [by apply evm_wp_fail|].
  destruct (charged_con (Con f2) cost P3) as [Hcon Heq]; [b_lia|]. rewrite Heq in Hcon. into. apply evm_wp_modify. cbn beta. rewrite Heq.
  destruct (Resize_ok (Mem f2) n P11) as [Hmem HL]; [b_lia|done|].
  assert (reserved (op_execute o) f2 <= cost) as Hres.
  { destruct (calling_spec o (oo_calling _ Ho)) as [Hz|(_ & g' & Hg' & Hfor)]; [rewrite Hz; b_lia|].
    assert (g' = g) as -> by congruence. specialize (P13 _ Hfor). destruct (op_execute o); cbn in *; rewrite ?P1; cbn; b_lia. }
  assert (paid o f (set_Mem (Resize (Mem f2) n) (set_Con (set_Gas (Con f2) (Gas (Con f2) - cost)) f2))) as Hend.
  { split; [split; [split|..]|..]; cbn in *; try done; try congruence.
    - rewrite P1. apply Hf.
    - rewrite P5. b_lia.
    - rewrite P1. apply Hcov. lia.
    - rewrite P5. unfold gas_of. rewrite Hd. lia.
    - change (Gas (Con f2) - cost + reserved (op_execute o) f2 + constantGas o <= Gas (Con f)). rewrite P5. cbn. lia. }
  rewrite Z.gtb_ltb. destruct (Z.ltb_spec 0 n) as [Hpos|Hz]; [apply evm_wp_modify; by apply HP|].
  apply evm_wp_ret, HP. assert (n = 0) as -> by b_lia.
  assert (Resize (Mem f2) 0 = Mem f2) as HR0 by (unfold Resize; pose proof (Len_nonneg (Mem f2)); destruct (Z.ltb_spec (Len (Mem f2)) 0); [lia|done]).
  rewrite HR0 in Hend. exact Hend.
Qed.

(** One turn. *)
Lemma step_spec calls f :
  live f → calls_ok calls (Gas (Con f) - 1) →
  wp (step env abort table calls)
    (λ _ f', live f' ∧ runs f (Gas (Con f) - 1) f') (stops f) f.
Proof.
  intros Hl Hcalls. unfold step. into. apply wp_fetch; [done|]. intros Ho Hprov Hroom Hc. into.
  apply wp_charge; [done..|]. intros f1 Hp. into. set (o := op_at f) in *.
  assert (∀ r x f2, halts f1 (Gas (Con f)) r x f2 → stops f r x f2) as Hhalt.
  { intros r x f2 [Hd Hv Hle Hg]. split; [done|done| |done]. eapply evm_le_trans; [apply (pd_runs _ _ _ Hp)|done]. }
  pose proof (pd_runs _ _ _ Hp) as Hr1. pose proof (ck_gas _ (fk_con _ (rn_ok _ _ _ Hr1))) as Hg1.
  destruct (bool_decide (op_execute o = Exec.opStop)) eqn:Hstop.
  { apply bool_decide_eq_true in Hstop. rewrite Hstop. apply evm_wp_fail. apply runs_halts; [done|apply data_ok_nil]. }
  assert (pc f < len (Code (Con f))) as Hpc.
  { destruct (Z.lt_ge_cases (pc f) (len (Code (Con f)))) as [|Hge]; [done|]. exfalso. apply bool_decide_eq_false in Hstop.
    apply Hstop. unfold o, op_at, GetOp. destruct (Z.ltb_spec (pc f) (len (Code (Con f)))); [lia|]. apply Htable. }
  assert (∀ B, Gas (Con f1) <= B → ready env (op_execute o) B f1) as Hready.
  { intros B HB. split; try done.
    - apply Hr1.
    - rewrite (pd_pc _ _ _ Hp), (rn_code _ _ _ Hr1). split; [apply Hl|done].
    - rewrite (pd_stack _ _ _ Hp). unfold len in Hroom. unfold takes in Hroom. lia.
    - apply Hp.
    - apply oo_small, Ho. }
  destruct (stopping (op_execute o)) eqn:Hst2.
  { pose proof (goes_simple env Henv abort calls (op_execute o) (Gas (Con f)) f1) as Hgo. pose proof (stopping_never calls _ Hst2) as Hnever.
    unfold goes in Hgo. eapply evm_wp_mono; [|intros a t' Hf'; exact Hf'|exact Hhalt].
    assert (calls_out (op_execute o) = false) as Hno by by destruct (op_execute o).
    specialize (Hgo Hno (Hready _ (rn_gas _ _ _ Hr1))). unfold wp in *. destruct (execute env abort calls (op_execute o) f1) eqn:Hx; try done.
    by apply Hnever in Hx. }
  pose proof (oo_cost _ Ho Hst2) as Hcost. pose proof (pd_gas _ _ _ Hp) as Hpg. pose proof (pd_reserved _ _ _ Hp) as Hpr.
  assert (goes (op_execute o) (Gas (Con f) - 1) f1 (execute env abort calls (op_execute o))) as Hgo.
  { destruct (calls_out (op_execute o)) eqn:Hco; [|apply goes_simple; [done|done|apply Hready; lia]].
    apply goes_calling; [done|pose proof (ck_gas _ (fk_con _ (lv_ok _ Hl))); pose proof (oo_const _ Ho); b_lia|done|apply Hready; lia|].
    destruct (calling_spec o (oo_calling _ Ho)) as [Hz|[Hpos _]]; [rewrite Hz|]; lia. }
  eapply evm_wp_mono; [exact Hgo| |].
  - intros _ f2 [Hr2 Hpc2 Hst3]. apply evm_wp_modify. split.
    + split; [|exact Hpc2|].
      * apply (runs_pc f1 (Gas (Con f) - 1) f2); done.
      * cbn. rewrite (pd_stack _ _ _ Hp) in Hst3. unfold len in *. fold (takes o) in Hst3. fold (puts o) in Hst3. lia.
    + apply runs_pc. destruct Hr2 as [R1 R2 R3 R4]. split; [done|eapply evm_le_trans; [apply Hr1|done]|rewrite R3; apply Hr1|done].
  - intros r x f2 [Hd Hv Hle Hg]. apply Hhalt. split; [done|done|done|lia].
Qed.
End Step.

(** * The calls of the machine

    With a sound table, and more fuel than gas, every call returns: data, at most
    the gas that it was given, and a machine that is later; an error leaves the
    state as it was ([calls_ok]).  By induction on the fuel: a turn of the loop takes
    gas, and a call in it has less gas than the caller had. *)

Section RunLaws.
Context {St : Type} `{Hst : EvmState St} `{Hk : Keccak} `{Hlaws : !EvmStateLaws St} `{Hu : Uint256}.
Context (env : EvmEnv) (Henv : env_ok env) (abort : Frame St → bool) (table : JumpTable) (Htable : table_ok env table).
Implicit Types (e : Evm St) (f : Frame St).
Abbreviation E A := (X (Evm St) A).

(** What a run of a contract leaves. *)
Definition run_post (c : Contract) (readOnly_ : bool) e : run_result → Evm St → Prop := λ '(r, _, g) e',
  call_post e (Gas c) r g e' ∧ (readOnly_ = true → unchanged logs (StateDB e) (StateDB e')).

Definition run_ok (run : Contract → bytes → bool → E run_result) (B : Z) : Prop :=
  ∀ c input ro e, con_ok c → data_ok input → evm_ok e → Gas c <= B → wp (run c input ro) (run_post c ro e) no_halt e.

(** ** The run of a contract *)

Lemma call_post_refl e gas r : evm_ok e → data_ok r → 0 <= gas → call_post e gas r gas e.
Proof. intros He Hd Hg. split; [done|lia|done|by apply evm_le_refl]. Qed.

Lemma call_post_trans e1 e2 e3 gas r g : evm_le e1 e2 → call_post e2 gas r g e3 → call_post e1 gas r g e3.
Proof. intros Hle []. split; [done|done|done|by eapply evm_le_trans]. Qed.

Lemma leave_spec e ro e'' :
  evm_ok e'' → evm_le (set_returnData (set_readOnly (set_depth e (depth e + 1)) (readOnly e || ro)) []) e'' →
  evm_ok (leave e e'') ∧ evm_le e (leave e e'') ∧ (ro = true → unchanged logs (StateDB e) (StateDB e'')).
Proof.
  intros [] [Hl Hq Hr Hd]. cbn in *. split; [by split|]. split; [split; try done|].
  - cbn. intros Hro. apply Hq. by rewrite Hro.
  - intros ->. apply Hq. by rewrite orb_true_r.
Qed.

Lemma run_with_ok (lp : Frame St → outcome (Evm St) run_result) B :
  (∀ f, live f → Gas (Con f) <= B → wp (λ _ : Evm St, lp f) (λ '(r, _, g) e', call_post (Vm f) (Gas (Con f)) r g e') no_halt (Vm f)) →
  run_ok (run_with lp) B.
Proof.
  intros Hlp c input ro e Hc Hi He Hg.
  set (e1 := set_returnData (set_readOnly (set_depth e (depth e + 1)) (readOnly e || ro)) []).
  assert (evm_ok e1) as He1 by (destruct He; split; [done|apply data_ok_nil|done..]).
  set (r := if len (Code c) =? 0 then Done ([], None, Gas c) e1 else lp (MkFrame 0 [] NewMemory (set_Input c input) e1)).
  assert (wp (λ _ : Evm St, r) (λ '(r, _, g) e', call_post e1 (Gas c) r g e') no_halt e1) as Hr.
  { unfold r. destruct (len (Code c) =? 0).
    - unfold wp. apply call_post_refl; [done|apply data_ok_nil|apply Hc].
    - apply (Hlp (MkFrame 0 [] NewMemory (set_Input c input) e1)); [|done].
      split; [split; [constructor|apply NewMemory_ok| |done]|cbn; lia|done]. destruct Hc. by split. }
  unfold wp in *. change (run_with lp c input ro e) with
    (match r with Done a e'' => Done a (leave e e'') | Halt res err e'' => Halt res err (leave e e'') | Panics p => Panics p | NoFuel => NoFuel end).
  destruct r as [[[d err] g] e'' | | |]; try done.
  destruct Hr as [Hd Hg' Hok Hle]. destruct (leave_spec e ro e'' Hok Hle) as (H1 & H2 & H3).
  change (call_post e (Gas c) d g (leave e e'') ∧ (ro = true → unchanged logs (StateDB e) (StateDB e''))).
  split; [by split|exact H3].
Qed.

(** ** The calls *)

Section Bodies.
Context (run : Contract → bytes → bool → E run_result) (B : Z) (Hrun : run_ok run B).

Lemma wp_action e a (P : unit → Evm St → Prop) R :
  evm_ok e → action_ok (StateDB e) a → (readOnly e = true → quiet a) →
  (∀ e', evm_ok e' → evm_le e e' → P tt e') → wp (vm_action a) P R e.
Proof. intros He Ha Hq HP. apply wp_vm_action; [done..|]. intros s _ H1 H2. by apply HP. Qed.

Lemma wp_Transfer e sender recipient amount (P : unit → Evm St → Prop) R :
  evm_ok e → is_uint256 amount → (readOnly e = true → amount = 0) →
  (∀ e', evm_ok e' → evm_le e e' → P tt e') → wp (Transfer sender recipient amount) P R e.
Proof.
  intros He Ha Hro HP. unfold Transfer. into. apply wp_action; [done..|]. intros e1 H1 Hle1.
  apply wp_action; [done|done|rewrite (el_readOnly _ _ Hle1); done|]. intros e2 H2 Hle2. apply HP; [done|by eapply evm_le_trans].
Qed.

(** A snapshot, and the end of a call: what came after it, or the state before. *)
Definition snapped e : Evm St := set_StateDB e (Snapshot (StateDB e)).2.

Lemma snapped_ok e : evm_ok e → evm_ok (snapped e) ∧ evm_le e (snapped e).
Proof.
  intros [Hg Hr Ht Hj]. split.
  - split; [by apply snapshot_good|done..].
  - split; [by apply later_snapshot| |done..]. intros _. by apply same_unchanged, snapshot_same.
Qed.

Lemma wp_snapshot e (P : Z → Evm St → Prop) R : P (Snapshot (StateDB e)).1 (snapped e) → wp snapshot P R e.
Proof. unfold wp, snapshot, snapped. by destruct (Snapshot (StateDB e)). Qed.

Lemma wp_revert e e2 (P : unit → Evm St → Prop) R :
  evm_ok e → evm_ok e2 → evm_le (snapped e) e2 →
  (∀ e3, evm_ok e3 → evm_le e e3 → same (StateDB e) (StateDB e3) → P tt e3) →
  wp (revert (Snapshot (StateDB e)).1) P R e2.
Proof.
  intros He [Hg Hr Ht Hj] [Hl Hq Hro Hd] HP. destruct (later_revert (StateDB e) (StateDB e2)) as (u & Hu' & Hlu & Hsu); [apply He|exact Hl|].
  unfold wp, revert. rewrite Hu'. apply HP; [split; [apply Hlu|done..]|split; [done|intros _; by apply same_unchanged|done..]|done].
Qed.

Lemma wp_settle e e2 gas r g err :
  evm_ok e → call_post (snapped e) gas r g e2 →
  wp (settle (Snapshot (StateDB e)).1 r g err) (λ '(r, g, err) e', call_post e gas r g e' ∧ reverted err g e e') no_halt e2.
Proof.
  intros He [Hd Hg Hok Hle]. unfold settle. destruct err as [x|].
  - into. apply wp_revert; [done..|]. intros e3 H3 Hle3 Hs. apply evm_wp_ret. split.
    + split; [done| |done|done]. case_bool_decide; lia.
    + intros y [= <-]. split; [done|]. case_bool_decide as Hx; [left; subst x; by left|by right].
  - apply evm_wp_ret. split; [|intros y [=]]. split; [done|done|done|]. eapply evm_le_trans; [by apply snapped_ok|done].
Qed.

Lemma precompile_spec p input gas r g err :
  precompile_ok p → data_ok input → is_uint64 gas → RunPrecompiledContract p input gas = (r, g, err) → data_ok r ∧ 0 <= g <= gas.
Proof.
  intros [H1 H2] Hi Hg. unfold RunPrecompiledContract. specialize (H1 input Hi). specialize (H2 input Hi).
  destruct (Z.ltb_spec gas (RequiredGas p input)) as [|Hle]; [intros [= <- <- <-]; split; [apply data_ok_nil|b_lia]|].
  destruct (Run p input) as [output x]. intros [= <- <- <-]. split; [done|]. rewrite wrap64_id; b_lia.
Qed.

(** The code of an address, and its hash. *)
Lemma resolved s addr :
  good s → data_ok (resolveCode env s addr) ∧
    (resolveCode env s addr ≠ [] → resolveCodeHash env s addr = 0 ∨ resolveCodeHash env s addr = Keccak256Hash (resolveCode env s addr)).
Proof.
  intros Hg. unfold resolveCode, resolveCodeHash. destruct (ChainConfig.Config.r_IsPrague _); cbn [negb].
  - destruct (StateTransition.ParseDelegation (GetCode s addr)) as [t|]; (split; [by apply good_code|intros Hne; right; by apply good_hash_of]).
  - split; [by apply good_code|intros Hne; right; by apply good_hash_of].
Qed.

Lemma new_contract_ok a b v gas hash code :
  is_uint256 a → is_uint256 b → is_uint256 v → is_uint64 gas → data_ok code → (code ≠ [] → hash = 0 ∨ hash = Keccak256Hash code) →
  con_ok (SetCallCode (NewContract a b v gas) hash code).
Proof. intros Ha Hb Hv Hg Hc Hh. by split; try apply data_ok_nil. Qed.

(** A contract that may be given any code. *)
Definition new_ok (c : Contract) : Prop :=
  is_uint64 (Gas c) ∧ ∀ hash code, data_ok code → (code ≠ [] → hash = 0 ∨ hash = Keccak256Hash code) → con_ok (SetCallCode c hash code).

Lemma NewContract_ok a b v gas : is_uint256 a → is_uint256 b → is_uint256 v → is_uint64 gas → new_ok (NewContract a b v gas).
Proof. intros Ha Hb Hv Hg. split; [done|]. intros hash code Hc Hh. by apply new_contract_ok. Qed.

(** A run of a contract in a call. *)
Lemma wp_run_contract c input ro e :
  con_ok c → data_ok input → evm_ok e → Gas c <= B →
  wp (run_contract run c input ro)
    (λ '(r, g, _) e', call_post e (Gas c) r g e' ∧ (ro = true → unchanged logs (StateDB e) (StateDB e'))) no_halt e.
Proof.
  intros Hc Hi He Hg. unfold run_contract. into. eapply evm_wp_mono; [by apply Hrun| |done]. by intros [[r err] g] e' Hp.
Qed.

Lemma wp_call_body addr c input ro e :
  new_ok c → data_ok input → evm_ok e → Gas c <= B →
  wp (call_body env run addr c input (Gas c) ro)
    (λ '(r, g, _) e', call_post e (Gas c) r g e' ∧ (ro = true → unchanged logs (StateDB e) (StateDB e'))) no_halt e.
Proof.
  intros Hc Hi He Hg. unfold call_body. destruct (precompiles env addr) as [p|] eqn:Hp.
  - apply evm_wp_ret. destruct (RunPrecompiledContract p input (Gas c)) as [[r g] err] eqn:Hr.
    destruct (precompile_spec p input (Gas c) r g err) as [H1 H2]; [by eapply Henv|done|apply Hc|done|].
    split; [split; [done|done|done|by apply evm_le_refl]|done].
  - into. apply wp_gets. destruct (resolved (StateDB e) addr) as [H1 H2]; [apply He|].
    apply (wp_run_contract (SetCallCode c (resolveCodeHash env (StateDB e) addr) (resolveCode env (StateDB e) addr))); [|done..].
    by apply Hc.
Qed.
Abbreviation call_spec e gas := (λ '(r, g, err) e', call_post e gas r g e' ∧ reverted err g e e').

(** A refusal: nothing happens. *)
Lemma refused e gas err :
  evm_ok e → 0 <= gas → err = ErrDepth ∨ err = ErrInsufficientBalance → call_post e gas [] gas e ∧ reverted (Some err) gas e e.
Proof.
  intros He Hg Hx. split; [by apply call_post_refl; [|apply data_ok_nil|]|]. intros y [= <-]. split; [done|]. left. set_solver.
Qed.

Lemma Call_ok caller addr input gas value e :
  call_pre e B caller addr input gas value → (readOnly e = true → value = 0) →
  wp (Call env run caller addr input gas value) (call_spec e gas) no_halt e.
Proof.
  intros [He Hca Had Hi Hg Hg64 Hv] Hro. unfold Call. into. apply evm_wp_get.
  destruct (_ >? _); [apply evm_wp_ret; apply refused; [done|lia|auto]|].
  destruct (_ && _); [apply evm_wp_ret; apply refused; [done|lia|auto]|].
  into. apply wp_snapshot. destruct (snapped_ok e He) as [H1 Hle1]. cbv zeta. into. apply wp_gets.
  destruct (_ && _).
  { apply evm_wp_ret. split; [|by intros y [=]]. split; [apply data_ok_nil|lia|done|done]. }
  assert (∀ e1, evm_ok e1 → evm_le (snapped e) e1 →
    wp (do! Transfer caller addr value;
      do (ret_, gas, err) <-
        (match precompiles env addr with
         | Some p => ret (RunPrecompiledContract p input gas)
         | None =>
             do s <- state_e;
             let code := resolveCode env s addr in
             if len code =? 0 then ret ([], gas, None)
             else
               let contract := set_system (NewContract caller addr value gas) (isSystemCall caller) in
               run_contract run (SetCallCode contract (resolveCodeHash env s addr) code) input false
         end);
      settle (Snapshot (StateDB e)).1 ret_ gas err) (call_spec e gas) no_halt e1) as Hbody.
  { intros e1 He1 Hl1. into. apply wp_Transfer; [done|done|rewrite (el_readOnly _ _ Hl1); exact Hro|]. intros e2 He2 Hl2.
    assert (evm_le (snapped e) e2) as Hl3 by by eapply evm_le_trans.
    assert (∀ r g err e3, call_post e2 gas r g e3 → wp (settle (Snapshot (StateDB e)).1 r g err) (call_spec e gas) no_halt e3) as Hend.
    { intros r g err e3 Hp. apply wp_settle; [done|]. by eapply call_post_trans. }
    into. destruct (precompiles env addr) as [p|] eqn:Hp.
    - apply evm_wp_ret. destruct (RunPrecompiledContract p input gas) as [[r g] err] eqn:Hr. apply Hend.
      destruct (precompile_spec p input gas r g err) as [P1 P2]; [by eapply Henv|done..|]. split; [done..|by apply evm_le_refl].
    - into. apply wp_gets. cbv zeta. destruct (len _ =? 0); [apply evm_wp_ret; apply Hend, call_post_refl; [done|apply data_ok_nil|lia]|].
      destruct (resolved (StateDB e2) addr) as [R1 R2]; [apply He2|].
      eapply evm_wp_mono; [apply wp_run_contract| |done].
      + destruct (NewContract_ok caller addr value gas) as [_ Hc]; [done..|]. destruct (Hc _ _ R1 R2). by split.
      + done.
      + done.
      + apply Hg.
      + intros [[r g] err] e3 [Hp3 _]. by apply Hend. }
  into. destruct (Exist (StateDB (snapped e)) addr) eqn:Hex; cbn [negb when_e].
  - apply evm_wp_ret. apply Hbody; [done|by apply evm_le_refl].
  - apply wp_action; [done|done|done|]. intros e1 He1 Hl1. by apply Hbody.
Qed.

(** The end of the other three calls. *)
Lemma wp_call_settle e e1 addr c input ro gas :
  evm_ok e → evm_ok e1 → evm_le (snapped e) e1 → new_ok c → data_ok input → Gas c = gas → gas <= B →
  wp (do (ret_, gas, err) <- call_body env run addr c input gas ro; settle (Snapshot (StateDB e)).1 ret_ gas err)
    (call_spec e gas) no_halt e1.
Proof.
  intros He He1 Hl1 Hc Hi <- Hg. into. eapply evm_wp_mono; [by apply wp_call_body| |done].
  intros [[r g] err] e2 [Hp _]. apply wp_settle; [done|]. by eapply call_post_trans.
Qed.

Lemma CallCode_ok caller addr input gas value e :
  call_pre e B caller addr input gas value →
  wp (CallCode env run caller addr input gas value) (call_spec e gas) no_halt e.
Proof.
  intros [He Hca Had Hi Hg Hg64 Hv]. unfold CallCode. into. apply evm_wp_get.
  destruct (_ >? _); [apply evm_wp_ret; apply refused; [done|lia|auto]|].
  destruct (negb _); [apply evm_wp_ret; apply refused; [done|lia|auto]|].
  into. apply wp_snapshot. destruct (snapped_ok e He) as [H1 Hle1].
  apply wp_call_settle; [done|done|by apply evm_le_refl|by apply NewContract_ok|done|done|lia].
Qed.

Lemma DelegateCall_ok origin caller addr input gas value e :
  call_pre e B caller addr input gas value → is_uint256 origin →
  wp (DelegateCall env run origin caller addr input gas value) (call_spec e gas) no_halt e.
Proof.
  intros [He Hca Had Hi Hg Hg64 Hv] Ho. unfold DelegateCall. into. apply evm_wp_get.
  destruct (_ >? _); [apply evm_wp_ret; apply refused; [done|lia|auto]|].
  into. apply wp_snapshot. destruct (snapped_ok e He) as [H1 Hle1].
  apply wp_call_settle; [done|done|by apply evm_le_refl|by apply NewContract_ok|done|done|lia].
Qed.

Lemma StaticCall_ok caller addr input gas e :
  call_pre e B caller addr input gas 0 →
  wp (StaticCall env run caller addr input gas) (call_spec e gas) no_halt e.
Proof.
  intros [He Hca Had Hi Hg Hg64 Hv]. unfold StaticCall. into. apply evm_wp_get.
  destruct (_ >? _); [apply evm_wp_ret; apply refused; [done|lia|auto]|].
  into. apply wp_snapshot. destruct (snapped_ok e He) as [H1 Hle1].
  into. apply wp_action; [done|done|done|]. intros e1 He1 Hl1.
  apply wp_call_settle; [done..|by apply NewContract_ok|done|done|lia].
Qed.

(** The states of a static call only differ in what no contract reads. *)
Lemma StaticCall_unchanged caller addr input gas e :
  call_pre e B caller addr input gas 0 →
  wp (StaticCall env run caller addr input gas) (λ _ e', unchanged logs (StateDB e) (StateDB e')) no_halt e.
Proof.
  intros [He Hca Had Hi Hg Hg64 Hv]. unfold StaticCall. into. apply evm_wp_get.
  destruct (_ >? _); [by apply evm_wp_ret|].
  into. apply wp_snapshot. destruct (snapped_ok e He) as [H1 Hle1].
  into. unfold wp at 1. unfold vm_action. cbn [do_action]. set (e1 := set_StateDB (snapped e) _).
  destruct (evm_action (snapped e) (AAddBalance addr 0) (AddBalance (StateDB (snapped e)) addr 0)) as [He1 Hl1]; [done..|].
  assert (unchanged logs (StateDB e) (StateDB e1)) as Hu1.
  { etrans; [by apply same_unchanged, snapshot_same, He|]. eapply (action_quiet _ (AAddBalance addr 0)); [apply H1|done..]. }
  into. eapply evm_wp_mono; [apply (wp_call_body addr (NewContract caller addr 0 gas)); [by apply NewContract_ok|done|done|apply Hg]| |done].
  intros [[r g] err] e2 [Hp Hq]. unfold settle. destruct err as [x|].
  - into. apply (wp_revert e); [done|apply Hp|eapply evm_le_trans; [exact Hl1|apply Hp]|]. intros e3 _ _ Hs. apply evm_wp_ret. by apply same_unchanged.
  - apply evm_wp_ret. etrans; [exact Hu1|by apply Hq].
Qed.


(** ** Creations *)

Lemma wp_initNewContract c address_ e :
  con_ok c → evm_ok e → Gas c <= B → readOnly e = false →
  wp (initNewContract env run c address_) (λ '(r, _, g) e', call_post e (Gas c) r g e') no_halt e.
Proof.
  intros Hc He Hg Hro. unfold initNewContract. into. eapply evm_wp_mono; [apply Hrun; [done|apply data_ok_nil|done|done]| |done].
  intros [[r err] g] e1 [Hp _]. destruct err as [x|]; [by apply evm_wp_ret|].
  destruct (_ && _); [by apply evm_wp_ret|]. destruct (_ && _); [by apply evm_wp_ret|]. cbv zeta.
  destruct (Z.ltb_spec g (wrap64 (len r * CreateDataGas))) as [|Hle]; [by apply evm_wp_ret|].
  destruct Hp as [Hd Hgas Hok Hle1]. into. apply wp_action; [done|done|rewrite (el_readOnly _ _ Hle1); congruence|].
  intros e2 He2 Hl2. apply evm_wp_ret. pose proof (wrap64_range (len r * CreateDataGas)).
  pose proof (ck_gas _ Hc). split; [done|rewrite wrap64_id; b_lia|done|by eapply evm_le_trans].
Qed.

Abbreviation create_spec e gas := (λ '(r, a, g, _) e', call_post e gas r g e' ∧ is_uint256 a).

(** From the snapshot on. *)
Lemma wp_create_body caller code gas value address_ e :
  evm_ok e → readOnly e = false → is_uint256 caller → is_uint256 address_ → data_ok code → is_uint64 gas → gas <= B → is_uint256 value →
  wp (do id <- snapshot;
      do s <- state_e;
      do! when_e (negb (Exist s address_)) (vm_action (ACreateAccount address_));
      do! vm_action (ACreateContract address_);
      do! when_e (ChainConfig.Config.r_IsEIP158 (chainRules env)) (vm_action (ASetNonce address_ 1));
      do! Transfer caller address_ value;
      do (ret_, err, gas) <- initNewContract env run (set_deployment (SetCallCode (NewContract caller address_ value gas) 0 code)) address_;
      match err with
      | Some e =>
          if ChainConfig.Config.r_IsHomestead (chainRules env) || bool_decide (e ≠ ErrCodeStoreOutOfGas) then
            do! revert id;
            ret (ret_, address_, if bool_decide (e = ErrExecutionReverted) then gas else 0, err)
          else ret (ret_, address_, gas, err)
      | None => ret (ret_, address_, gas, None)
      end) (create_spec e gas) no_halt e.
Proof.
  intros He Hro Hca Ha Hcode Hg HgB Hv. into. apply wp_snapshot. destruct (snapped_ok e He) as [H1 Hle1].
  assert (∀ e1, evm_ok e1 → evm_le (snapped e) e1 → readOnly e1 = false) as Hro1 by (intros e1 _ Hl; by rewrite (el_readOnly _ _ Hl)).
  into. apply wp_gets. into. set (k := λ (_ : unit) (t' : Evm St), wp _ _ _ t').
  assert (∀ e1, evm_ok e1 → evm_le (snapped e) e1 → Exist (StateDB e1) address_ = true → k tt e1) as Hk1; subst k; cbn beta.
  - intros e1 He1 Hl1 Hex. into. apply wp_action; [done|done|rewrite (Hro1 e1) by done; done|]. intros e2 He2 Hl2.
    assert (evm_le (snapped e) e2) as Hl2' by by eapply evm_le_trans. into.
    set (k := λ (_ : unit) (t' : Evm St), wp _ _ _ t').
    assert (∀ e3, evm_ok e3 → evm_le (snapped e) e3 → k tt e3) as Hk2; subst k; cbn beta.
    + intros e3 He3 Hl3. into. apply wp_Transfer; [done|done|rewrite (Hro1 e3) by done; done|]. intros e4 He4 Hl4.
      assert (evm_le (snapped e) e4) as Hl4' by by eapply evm_le_trans. into.
      eapply evm_wp_mono; [apply wp_initNewContract| |done].
      * destruct (NewContract_ok caller address_ value gas) as [_ Hc]; [done..|]. destruct (Hc 0 code Hcode ltac:(by left)). by split.
      * done.
      * exact HgB.
      * by apply Hro1.
      * intros [[r err] g] e5 Hp5. assert (call_post (snapped e) gas r g e5) as Hp by by eapply call_post_trans.
        destruct Hp as [Hd Hgas Hok Hle]. destruct err as [x|].
        -- destruct (_ || _).
           ++ into. apply (wp_revert e); [done..|]. intros e6 H6 Hle6 _. apply evm_wp_ret. split; [|done]. split; [done| |done|done].
              cbn in Hgas. case_bool_decide; lia.
           ++ apply evm_wp_ret. split; [|done]. split; [done..|by eapply evm_le_trans].
        -- apply evm_wp_ret. split; [|done]. split; [done..|by eapply evm_le_trans].
    + destruct (ChainConfig.Config.r_IsEIP158 _); [|by apply evm_wp_ret, Hk2].
      apply wp_action; [done|cbn; b_lia|rewrite (Hro1 e2) by done; done|]. intros e3 He3 Hl3. apply Hk2; [done|by eapply evm_le_trans].
  - destruct (Exist (StateDB (snapped e)) address_) eqn:Hex; cbn [negb when_e].
    + apply evm_wp_ret. apply Hk1; [done|by apply evm_le_refl|done].
    + apply wp_vm_action; [done..|]. cbn [do_action]. intros s [= <-] He1 Hl1. apply Hk1; [done|done|].
      apply exist_created; [apply H1|done].
Qed.


Lemma create_ok caller code gas value address_ e :
  call_pre e B caller 0 code gas value → readOnly e = false → is_uint256 address_ →
  wp (create env run caller code gas value address_) (create_spec e gas) no_halt e.
Proof.
  intros [He Hca _ Hi Hg Hg64 Hv] Hro Ha. unfold create. into. apply evm_wp_get.
  assert (∀ e1 g, evm_ok e1 → evm_le e e1 → 0 <= g <= gas → call_post e gas [] g e1 ∧ is_uint256 0) as Hno
    by (intros e1 g H1 H2 H3; split; [split; [apply data_ok_nil|done..]|apply zero_uint256]).
  pose proof (evm_le_refl e He) as Hrefl.
  destruct (_ >? _); [apply evm_wp_ret; apply Hno; [done|done|lia]|].
  destruct (negb _); [apply evm_wp_ret; apply Hno; [done|done|lia]|]. cbv zeta.
  destruct (_ <? _); [apply evm_wp_ret; apply Hno; [done|done|lia]|].
  into. apply wp_action; [done|apply wrap64_range|rewrite Hro; done|]. intros e1 He1 Hl1. into.
  set (k := λ (_ : unit) (t' : Evm St), wp _ _ _ t').
  assert (∀ e2, evm_ok e2 → evm_le e e2 → k tt e2) as Hk1; subst k; cbn beta.
  - intros e2 He2 Hl2. into. apply wp_gets. destruct (_ || _); [apply evm_wp_ret; apply Hno; [done|done|lia]|].
    eapply evm_wp_mono; [apply wp_create_body; [done|by rewrite (el_readOnly _ _ Hl2)|done..|apply Hg|done]| |done].
    intros [[[r a] g] err] e3 [Hp Har]. split; [by eapply call_post_trans|done].
  - destruct (ChainConfig.Config.r_IsEIP2929 _); [|by apply evm_wp_ret, Hk1].
    apply wp_action; [done|done|done|]. intros e2 He2 Hl2. apply Hk1; [done|by eapply evm_le_trans].
Qed.

Lemma created_address_range h : len h = 32 → Forall is_byte h → is_uint256 (hash_address h).
Proof. intros Hl Hb. pose proof (hash_address_range h Hl Hb). b_lia. Qed.

(** The calls of a machine whose runs are fine. *)
Lemma evm_calls_ok : calls_ok (evm_calls env run) B.
Proof.
  split; cbn.
  - intros. by apply Call_ok.
  - intros. by apply CallCode_ok.
  - intros. by apply DelegateCall_ok.
  - intros. by apply StaticCall_ok.
  - intros. unfold Create. into. apply wp_gets. apply create_ok; [done|done|]. apply created_address_range; [apply keccak_len|apply keccak_bytes].
  - intros. unfold Create2. apply create_ok; [done|done|]. apply created_address_range; [apply keccak_len|apply keccak_bytes].
Qed.

End Bodies.
(** ** The loop *)

Lemma loop_spec fuel f :
  live f → Gas (Con f) < Z.of_nat fuel →
  wp (λ _ : Evm St, loop env abort table fuel f) (λ '(r, _, g) e', call_post (Vm f) (Gas (Con f)) r g e') no_halt (Vm f).
Proof.
  revert f. induction fuel as [|fuel IH]; intros f Hl Hg; [pose proof (ck_gas _ (fk_con _ (lv_ok _ Hl))); b_lia|].
  assert (calls_ok (evm_calls env (run_with (loop env abort table fuel))) (Gas (Con f) - 1)) as Hcalls.
  { apply evm_calls_ok, run_with_ok. intros f' Hl' Hg'. apply IH; [done|lia]. }
  pose proof (step_spec env Henv abort table Htable _ f Hl Hcalls) as Hs.
  unfold wp in *. cbn [loop]. destruct (step env abort table _ f) as [u f'|r x f'|p|]; try done.
  - destruct Hs as [Hl' Hr]. specialize (IH f' Hl'). destruct Hr as [R1 R2 R3 R4]. specialize (IH ltac:(lia)).
    destruct (loop env abort table fuel f') as [[[r err] g] e'| | |]; try done. destruct IH as [I1 I2 I3 I4].
    split; [done|lia|done|by eapply evm_le_trans].
  - destruct Hs as [H1 H2 H3 H4]. by split.
Qed.

(** Every call of the machine, with more fuel than gas. *)
Lemma machine_ok fuel B : B < Z.of_nat fuel → calls_ok (machine env abort table fuel) B.
Proof. intros HB. apply evm_calls_ok, run_with_ok. intros f Hl Hg. apply loop_spec; [done|lia]. Qed.

End RunLaws.

(** * Fuel

    More fuel changes nothing but a lack of fuel: [refines m m'] when [m] has not
    enough, or ends as [m'] does.  It goes through the monad, the instructions, the
    turn, the calls and the loop. *)

Definition refines {T A} (m m' : X T A) : Prop := ∀ t, m t = NoFuel ∨ m t = m' t.

Lemma refines_refl {T A} (m : X T A) : refines m m.
Proof. by right. Qed.

Lemma refines_trans {T A} (m1 m2 m3 : X T A) : refines m1 m2 → refines m2 m3 → refines m1 m3.
Proof. intros H1 H2 t. destruct (H1 t) as [->| ->]; [by left|apply H2]. Qed.

Lemma refines_bind {T A B} (m m' : X T A) (k k' : A → X T B) :
  refines m m' → (∀ a, refines (k a) (k' a)) → refines (bind m k) (bind m' k').
Proof. intros Hm Hk t. unfold bind. destruct (Hm t) as [->| ->]; [by left|]. destruct (m' t); auto; apply Hk. Qed.

Lemma refines_on_evm {St A} (m m' : X (Evm St) A) : refines m m' → refines (on_evm m) (on_evm m').
Proof. intros Hm f. unfold on_evm. destruct (Hm (Vm f)) as [->| ->]; [by left|by right]. Qed.

(** Calls with less fuel, and with more. *)
Record calls_refine {St} (c c' : Calls St) : Prop := {
  cr_call a b i g v : refines (evm_Call c a b i g v) (evm_Call c' a b i g v);
  cr_callcode a b i g v : refines (evm_CallCode c a b i g v) (evm_CallCode c' a b i g v);
  cr_delegatecall o a b i g v : refines (evm_DelegateCall c o a b i g v) (evm_DelegateCall c' o a b i g v);
  cr_staticcall a b i g : refines (evm_StaticCall c a b i g) (evm_StaticCall c' a b i g);
  cr_create a i g v : refines (evm_Create c a i g v) (evm_Create c' a i g v);
  cr_create2 a i g v s : refines (evm_Create2 c a i g v s) (evm_Create2 c' a i g v s)
}.

(** Two programs that differ in the calls only. *)
Ltac refines_walk :=
  repeat first
  [ apply refines_refl
  | apply refines_bind; [|intros ?]
  | apply refines_on_evm
  | match goal with
    | |- refines (let '(_, _) := ?x in _) _ => destruct x
    | |- refines (if ?b then _ else _) _ => destruct b
    | |- refines (match ?x with Some _ => _ | None => _ end) _ => destruct x
    end ].

Section Fuel.
Context {St : Type} `{Hst : EvmState St} `{Hk : Keccak} `{Hu : Uint256}.
Context (env : EvmEnv) (abort : Frame St → bool) (table : JumpTable).
Abbreviation E A := (X (Evm St) A).

Lemma execute_refines (c c' : Calls St) fn : calls_refine c c' → refines (execute env abort c fn) (execute env abort c' fn).
Proof.
  intros [H1 H2 H3 H4 H5 H6]. destruct fn; try apply refines_refl; cbn [execute];
    unfold opCall, opCallCode, opDelegateCall, opStaticCall, opCreate, opCreate2; refines_walk; auto.
Qed.

Lemma turn_refines (c c' : Calls St) : calls_refine c c' → refines (step env abort table c) (step env abort table c').
Proof.
  intros Hc. unfold step. apply refines_bind; [apply refines_refl|]. intros o. apply refines_bind; [apply refines_refl|]. intros _.
  apply refines_bind; [by apply execute_refines|]. intros _. apply refines_refl.
Qed.

Lemma evm_calls_refine (run run' : Contract → bytes → bool → E run_result) :
  (∀ c i ro, refines (run c i ro) (run' c i ro)) → calls_refine (evm_calls env run) (evm_calls env run').
Proof.
  intros Hrun. split; intros; cbn;
    unfold Call, CallCode, DelegateCall, StaticCall, Create, Create2, create, call_body, initNewContract, run_contract; refines_walk; auto.
Qed.

Lemma run_with_refines (lp lp' : Frame St → outcome (Evm St) run_result) c i ro :
  (∀ f, lp f = NoFuel ∨ lp f = lp' f) → refines (run_with lp c i ro) (run_with lp' c i ro).
Proof.
  intros Hlp e. unfold run_with. destruct (len (Code c) =? 0); [by right|].
  destruct (Hlp (MkFrame 0 [] NewMemory (set_Input c i) (set_returnData (set_readOnly (set_depth e (depth e + 1)) (readOnly e || ro)) []))) as [->| ->];
    [by left|by right].
Qed.

Lemma loop_S fuel f :
  loop env abort table (S fuel) f =
    match step env abort table (evm_calls env (run_with (loop env abort table fuel))) f with
    | Done _ f => loop env abort table fuel f
    | Halt res err f => Done (res, if bool_decide (err = errStopToken) then None else Some err, Gas (Con f)) (Vm f)
    | Panics p => Panics p
    | NoFuel => NoFuel
    end.
Proof. done. Qed.

Lemma loop_more fuel f : loop env abort table fuel f = NoFuel ∨ loop env abort table fuel f = loop env abort table (S fuel) f.
Proof.
  revert f. induction fuel as [|fuel IH]; intros f; [by left|].
  assert (calls_refine (evm_calls env (run_with (loop env abort table fuel))) (evm_calls env (run_with (loop env abort table (S fuel))))) as Hc.
  { apply evm_calls_refine. intros c i ro. by apply run_with_refines. }
  rewrite (loop_S (S fuel) f), (loop_S fuel f). destruct (turn_refines _ _ Hc f) as [->| ->]; [by left|].
  destruct (step env abort table (evm_calls env (run_with (loop env abort table (S fuel)))) f); try by right. apply IH.
Qed.

Lemma loop_fuel fuel fuel' f :
  (fuel <= fuel')%nat → loop env abort table fuel f = NoFuel ∨ loop env abort table fuel f = loop env abort table fuel' f.
Proof.
  induction 1 as [|fuel' _ IH]; [by right|]. destruct IH as [IH|IH]; [by left|].
  destruct (loop_more fuel' f) as [Hm|Hm]; [left; congruence|right; congruence].
Qed.

Lemma machine_fuel fuel fuel' : (fuel <= fuel')%nat → calls_refine (machine env abort table fuel) (machine env abort table fuel').
Proof. intros Hle. apply evm_calls_refine. intros c i ro. apply run_with_refines. intros f. by apply loop_fuel. Qed.
End Fuel.
