(* ===== verification/EvmTheorems.v ===== *)
(** * A state of tables

    An instance of the interface of EvmState.v, for the examples: the accounts in
    maps, and a snapshot is a copy of them. *)

From S2P Require ChainConfig StateTypes.
From S2P Require Import Prelude Crypto TrieTheorems TxTypes VMInterface EvmCode EvmBase EvmState EvmFrame EvmOps EvmGas.
From S2P Require Import EvmTable EvmRun EvmMemory EvmWp EvmInstr EvmGasLaws EvmStep.

Record world : Type := MkWorld {
  w_balance : gmap Z Z;
  w_nonce : gmap Z Z;
  w_code : gmap Z bytes;
  w_exist : gset Z;
  w_storage : gmap (Z * Z) Z;
  w_committed : gmap (Z * Z) Z;
  w_transient : gmap (Z * Z) Z;
  w_refund : Z;
  w_logs : list Log;
  w_destructed : gset Z;
  w_new : gset Z;
  w_warm : gset Z;
  w_warm_slots : gset (Z * Z)
}.

Record tables : Type := MkTables {
  cur : world;
  snaps : list (Z * world);
  next_id : Z
}.

Definition empty_world : world := MkWorld ∅ ∅ ∅ ∅ ∅ ∅ ∅ 0 [] ∅ ∅ ∅ ∅.
Definition empty_tables : tables := MkTables empty_world [] 0.

Definition set_cur (s : tables) (w : world) : tables := MkTables w (snaps s) (next_id s).

Section Tables.
Context `{Keccak}.

Definition w_set_balance (w : world) (a x : Z) : world :=
  MkWorld (<[a := x]> (w_balance w)) (w_nonce w) (w_code w) ({[a]} ∪ w_exist w) (w_storage w) (w_committed w)
    (w_transient w) (w_refund w) (w_logs w) (w_destructed w) (w_new w) (w_warm w) (w_warm_slots w).
Definition w_set_nonce (w : world) (a x : Z) : world :=
  MkWorld (w_balance w) (<[a := x]> (w_nonce w)) (w_code w) ({[a]} ∪ w_exist w) (w_storage w) (w_committed w)
    (w_transient w) (w_refund w) (w_logs w) (w_destructed w) (w_new w) (w_warm w) (w_warm_slots w).
Definition w_set_code (w : world) (a : Z) (c : bytes) : world :=
  MkWorld (w_balance w) (w_nonce w) (<[a := c]> (w_code w)) ({[a]} ∪ w_exist w) (w_storage w) (w_committed w)
    (w_transient w) (w_refund w) (w_logs w) (w_destructed w) (w_new w) (w_warm w) (w_warm_slots w).
Definition w_create (w : world) (a : Z) : world :=
  MkWorld (w_balance w) (w_nonce w) (w_code w) ({[a]} ∪ w_exist w) (w_storage w) (w_committed w)
    (w_transient w) (w_refund w) (w_logs w) (w_destructed w) (w_new w) (w_warm w) (w_warm_slots w).
Definition w_set_new (w : world) (a : Z) : world :=
  MkWorld (w_balance w) (w_nonce w) (w_code w) (w_exist w) (w_storage w) (w_committed w)
    (w_transient w) (w_refund w) (w_logs w) (w_destructed w) ({[a]} ∪ w_new w) (w_warm w) (w_warm_slots w).
Definition w_set_refund (w : world) (x : Z) : world :=
  MkWorld (w_balance w) (w_nonce w) (w_code w) (w_exist w) (w_storage w) (w_committed w)
    (w_transient w) x (w_logs w) (w_destructed w) (w_new w) (w_warm w) (w_warm_slots w).
Definition w_set_state (w : world) (a k v : Z) : world :=
  MkWorld (w_balance w) (w_nonce w) (w_code w) ({[a]} ∪ w_exist w) (<[(a, k) := v]> (w_storage w)) (w_committed w)
    (w_transient w) (w_refund w) (w_logs w) (w_destructed w) (w_new w) (w_warm w) (w_warm_slots w).
Definition w_set_transient (w : world) (a k v : Z) : world :=
  MkWorld (w_balance w) (w_nonce w) (w_code w) (w_exist w) (w_storage w) (w_committed w)
    (<[(a, k) := v]> (w_transient w)) (w_refund w) (w_logs w) (w_destructed w) (w_new w) (w_warm w) (w_warm_slots w).
Definition w_destruct (w : world) (a : Z) : world :=
  MkWorld (<[a := 0]> (w_balance w)) (w_nonce w) (w_code w) (w_exist w) (w_storage w) (w_committed w)
    (w_transient w) (w_refund w) (w_logs w) ({[a]} ∪ w_destructed w) (w_new w) (w_warm w) (w_warm_slots w).
Definition w_add_log (w : world) (l : Log) : world :=
  MkWorld (w_balance w) (w_nonce w) (w_code w) (w_exist w) (w_storage w) (w_committed w)
    (w_transient w) (w_refund w) (w_logs w ++ [l]) (w_destructed w) (w_new w) (w_warm w) (w_warm_slots w).
Definition w_touch (w : world) (a : Z) : world :=
  MkWorld (w_balance w) (w_nonce w) (w_code w) (w_exist w) (w_storage w) (w_committed w)
    (w_transient w) (w_refund w) (w_logs w) (w_destructed w) (w_new w) ({[a]} ∪ w_warm w) (w_warm_slots w).
Definition w_touch_slot (w : world) (a k : Z) : world :=
  MkWorld (w_balance w) (w_nonce w) (w_code w) (w_exist w) (w_storage w) (w_committed w)
    (w_transient w) (w_refund w) (w_logs w) (w_destructed w) (w_new w) ({[a]} ∪ w_warm w) ({[(a, k)]} ∪ w_warm_slots w).

Definition bal (w : world) (a : Z) : Z := default 0 (w_balance w !! a).
Definition code_at (w : world) (a : Z) : bytes := default [] (w_code w !! a).

Fixpoint find_snap (id : Z) (l : list (Z * world)) : option (world * list (Z * world)) :=
  match l with
  | [] => None
  | (i, w) :: l => if i =? id then Some (w, l) else find_snap id l
  end.

#[export] Instance tables_vm : VMState tables := {|
  GetBalance s a := bal (cur s) a;
  SubBalance s a x := set_cur s (w_set_balance (cur s) a (wrap256 (bal (cur s) a - x)));
  AddBalance s a x := set_cur s (w_set_balance (cur s) a (wrap256 (bal (cur s) a + x)));
  GetNonce s a := default 0 (w_nonce (cur s) !! a);
  SetNonce s a n := set_cur s (w_set_nonce (cur s) a n);
  GetCode s a := code_at (cur s) a;
  SetCode s a c := set_cur s (w_set_code (cur s) a c);
  Exist s a := bool_decide (a ∈ w_exist (cur s));
  AddRefund s x := set_cur s (w_set_refund (cur s) (wrap64 (w_refund (cur s) + x)));
  GetRefund s := wrap64 (w_refund (cur s));
  AddAddressToAccessList s a := set_cur s (w_touch (cur s) a);
  Prepare s rules sender coinbase dst pre al :=
    if IsEIP2929 rules && IsEIP4762 rules then None else Some (set_cur s (w_touch (cur s) sender))
|}.

#[export] Instance tables_evm : EvmState tables := {|
  CreateAccount s a := set_cur s (w_create (cur s) a);
  CreateContract s a :=
    if bool_decide (a ∈ w_exist (cur s)) then Some (set_cur s (w_set_new (cur s) a)) else None;
  GetCodeHash s a :=
    if bool_decide (a ∈ w_exist (cur s)) || negb (len (code_at (cur s) a) =? 0)
    then Keccak256Hash (code_at (cur s) a) else 0;
  GetCodeSize s a := len (code_at (cur s) a);
  SubRefund s x :=
    if x >? w_refund (cur s) then None else Some (set_cur s (w_set_refund (cur s) (w_refund (cur s) - x)));
  GetCommittedState s a k := default 0 (w_committed (cur s) !! (a, k));
  GetState s a k := default 0 (w_storage (cur s) !! (a, k));
  SetState s a k v := set_cur s (w_set_state (cur s) a k v);
  GetStorageRoot s a := 0;
  GetTransientState s a k := default 0 (w_transient (cur s) !! (a, k));
  SetTransientState s a k v := set_cur s (w_set_transient (cur s) a k v);
  SelfDestruct s a := set_cur s (w_destruct (cur s) a);
  HasSelfDestructed s a := bool_decide (a ∈ w_destructed (cur s));
  SelfDestruct6780 s a :=
    if bool_decide (a ∈ w_new (cur s)) then set_cur s (w_destruct (cur s) a) else s;
  Empty s a := (bal (cur s) a =? 0) && (default 0 (w_nonce (cur s) !! a) =? 0) && (len (code_at (cur s) a) =? 0);
  AddressInAccessList s a := bool_decide (a ∈ w_warm (cur s));
  SlotInAccessList s a k := (bool_decide (a ∈ w_warm (cur s)), bool_decide ((a, k) ∈ w_warm_slots (cur s)));
  AddSlotToAccessList s a k := set_cur s (w_touch_slot (cur s) a k);
  Snapshot s := (next_id s, MkTables (cur s) ((next_id s, cur s) :: snaps s) (next_id s + 1));
  RevertToSnapshot s id :=
    '(w, l) ← find_snap id (snaps s); Some (MkTables w l (next_id s));
  AddLog s l := set_cur s (w_add_log (cur s) l);
  AddPreimage s h b := s
|}.

(** The values are at their width. *)
Record world_ok (w : world) : Prop := {
  wo_balance a : is_uint256 (bal w a);
  wo_nonce a : is_uint64 (default 0 (w_nonce w !! a));
  wo_code a : data_ok (code_at w a);
  wo_storage k : is_uint256 (default 0 (w_storage w !! k));
  wo_transient k : is_uint256 (default 0 (w_transient w !! k));
  wo_refund : is_uint64 (w_refund w)
}.

(** The snapshots are in order, newest first. *)
Fixpoint snaps_ok (bound : Z) (l : list (Z * world)) : Prop :=
  match l with
  | [] => True
  | (id, w) :: l => id < bound ∧ world_ok w ∧ snaps_ok id l
  end.

Record tables_ok (s : tables) : Prop := {
  to_world : world_ok (cur s);
  to_snaps : snaps_ok (next_id s) (snaps s)
}.

Definition tables_within (r : tables) (id : Z) (s : tables) : Prop :=
  id = next_id r ∧ id < next_id s ∧
  ∃ l, snaps s = l ++ (id, cur r) :: snaps r ∧ Forall (λ e, id < e.1) l.

Lemma find_snap_app id l w rest :
  Forall (λ e, id < e.1) l → find_snap id (l ++ (id, w) :: rest) = Some (w, rest).
Proof.
  induction 1 as [|[i w'] l Hi _ IH]; cbn; [by rewrite Z.eqb_refl|]. cbn in Hi.
  destruct (Z.eqb_spec i id); [lia|done].
Qed.

Lemma snaps_ok_app bound l rest : snaps_ok bound (l ++ rest) → ∃ b, snaps_ok b rest ∧ b <= bound.
Proof.
  revert bound. induction l as [|[i w] l IH]; intros bound; cbn; [exists bound; by split|].
  intros (Hi & _ & Hl). destruct (IH i Hl) as (b & Hb & Hle). exists b. split; [done|lia].
Qed.

Lemma snaps_ok_mono b b' l : b <= b' → snaps_ok b l → snaps_ok b' l.
Proof. destruct l as [|[i w] l]; cbn; [done|]. intros Hle (? & ? & ?). split; [lia|done]. Qed.

Lemma default_insert {K} `{Countable K} {A} (m : gmap K A) k v k' d :
  default d (<[k := v]> m !! k') = if decide (k = k') then v else default d (m !! k').
Proof. rewrite lookup_insert. by destruct (decide (k = k')). Qed.

Ltac tables_law :=
  cbn; unfold bal, code_at in *; intros; cbn in *; rewrite ?default_insert;
  repeat match goal with |- context [decide ?P] => destruct (decide P) end;
  repeat match goal with |- context [bool_decide ?P] => case_bool_decide end; try done; try congruence; try ulia.

#[export] Instance tables_vm_laws : VMStateLaws tables.
Proof.
  split; try (by tables_law).
  - cbn. intros s rules sender coinbase dst pre al t. destruct (_ && _); intros; simplify_eq. by split.
  - cbn. intros s rules sender coinbase dst pre al ->. by eexists.
  - intros s. apply wrap64_range.
  - intros s n. cbn. rewrite wrap64_id by apply wrap64_range. unfold wrap64. by rewrite Z.add_mod_idemp_l.
Qed.

(** A write keeps the snapshots. *)
Lemma do_action_snaps s act t :
  do_action s act = Some t → snaps t = snaps s ∧ next_id t = next_id s.
Proof.
  destruct act; cbn; repeat case_bool_decide; repeat case_match; intros; simplify_eq; done.
Qed.

Lemma do_action_world s act t :
  tables_ok s → action_ok s act → do_action s act = Some t → world_ok (cur t).
Proof.
  intros [[Hb Hn Hc Hs Ht Hr] _] Ha Hd.
  destruct act as [a x|a x|a n|a c|a|a|x|x|a k v|a k v|a|a|a|a k|l|h b]; cbn in Ha, Hd;
    repeat case_bool_decide; repeat case_match; simplify_eq; split; try done; cbn; intros;
    unfold bal, code_at in *; cbn; rewrite ?default_insert; try case_decide; auto with eigen; try done;
    try (apply Hb || apply Hn || apply Hc || apply Hs || apply Ht || apply Hr).
  all: ulia.
Qed.

#[export] Program Instance tables_laws : EvmStateLaws tables := {|
  good := tables_ok;
  same s t := cur s = cur t;
  within := tables_within;
  LogsOf := list Log;
  logs s := w_logs (cur s)
|}.
Next Obligation. split; [by intros s|by intros s t|by intros s t u -> ->]. Qed.
Next Obligation. intros s t Hst. split; cbn; by rewrite ?Hst. Qed.
Next Obligation. intros s a [[Hb _ _ _ _ _] _]. apply Hb. Qed.
Next Obligation. intros s a [[_ Hn _ _ _ _] _]. apply Hn. Qed.
Next Obligation. intros s a [[_ _ Hc _ _ _] _]. apply Hc. Qed.
Next Obligation. intros s a _. cbn. destruct (_ || _); [apply Keccak256Hash_range|ulia]. Qed.
Next Obligation.
  intros s a _ Hne. cbn in *. destruct (Z.eqb_spec (len (code_at (cur s) a)) 0) as [Hz|]; [|by rewrite orb_true_r].
  by apply len_zero_iff in Hz.
Qed.
Next Obligation. intros s a k [[_ _ _ Hs _ _] _]. apply Hs. Qed.
Next Obligation. intros s a k [[_ _ _ _ Ht _] _]. apply Ht. Qed.
Next Obligation.
  intros s act t Hs Ha Hd. destruct (do_action_snaps s act t Hd) as [Hsn Hid]. split; [by eapply do_action_world|].
  rewrite Hsn, Hid. apply Hs.
Qed.
Next Obligation.
  intros s act t r id _ Hw _ Hd. destruct (do_action_snaps s act t Hd) as [Hsn Hid].
  unfold tables_within in *. by rewrite Hsn, Hid.
Qed.
Next Obligation.
  intros s act t Hs Ha Hq Hd. destruct act as [a x|a x|a n|a c|a|a|x|x|a k v|a k v|a|a|a|a k|l|h b]; cbn in Hq, Hd; try done;
    repeat case_match; simplify_eq; split; try done; cbn; intros a'; unfold bal; cbn; rewrite default_insert; case_decide as Heq; [subst a'|done|subst a'|done].
  - rewrite Z.sub_0_r. apply wrap256_id. apply Hs.
  - rewrite Z.add_0_r. apply wrap256_id. apply Hs.
Qed.
Next Obligation.
  intros s act _ Ha Hx. destruct act; cbn in *; try done; [by rewrite Ha|]. by specialize (Hx x).
Qed.
Next Obligation. intros s a _ _. cbn. apply bool_decide_eq_true_2. set_solver. Qed.
Next Obligation. intros s [Hw Hs]. split; cbn; [done|]. split; [lia|done]. Qed.
Next Obligation. done. Qed.
Next Obligation. intros s _. cbn. split; [done|]. split; [cbn; lia|]. exists []. split; [done|constructor]. Qed.
Next Obligation.
  intros s r id _ (Hid & Hlt & l & Hl & Hf). cbn. split; [done|]. split; [cbn; lia|].
  exists ((next_id s, cur s) :: l). cbn. split; [by rewrite Hl|]. by constructor.
Qed.
Next Obligation.
  intros s id t [Hw Hs] [_ Ht] (Hid & Hlt & l & Hl & Hf). cbn. rewrite Hl, find_snap_app by done. cbn. eexists. split; [done|].
  split; [split; cbn; [done|]; eapply snaps_ok_mono; [|exact Hs]; lia|]. split; [done|].
  intros r i (Hi & Hlt' & l' & Hl' & Hf'). split; [done|]. cbn. split; [lia|]. by exists l'.
Qed.
End Tables.

(** ** The words of the library *)

(** Functions that do what the library documents. *)
Definition word_ops : Uint256 := {|
  SDiv x y := if y =? 0 then 0 else wrap256 (Z.quot (to_signed x) (to_signed y));
  SMod x y := if y =? 0 then 0 else wrap256 (Z.rem (to_signed x) (to_signed y));
  Exp x y := wrap256 (x ^ y);
  ExtendSign x b := if b >? 30 then x
    else let m := 2 ^ (8 * (b + 1)) in
         let y := x mod m in wrap256 (if y <? m / 2 then y else y - m);
  Byte_ x n := if n <? 32 then Z.shiftr x (8 * (31 - n)) mod 256 else 0;
  AddMod x y m := if m =? 0 then 0 else (x + y) mod m;
  MulMod x y m := if m =? 0 then 0 else (x * y) mod m;
  SRsh x n := wrap256 (Z.shiftr (to_signed x) n);
  SDiv_doc _ _ _ _ := eq_refl;
  SMod_doc _ _ _ _ := eq_refl;
  Exp_doc _ _ _ _ := eq_refl;
  ExtendSign_doc _ _ _ _ := eq_refl;
  Byte_doc _ _ _ _ := eq_refl;
  AddMod_doc _ _ _ _ _ _ := eq_refl;
  MulMod_doc _ _ _ _ _ _ := eq_refl;
  SRsh_doc _ _ _ _ := eq_refl
|}.

(** ** A world with one contract *)

(** Account 0xca has 10 wei, and 0xc0 a code. *)
Definition one_world (code : bytes) : world :=
  MkWorld {[0xca := 10]} ∅ {[0xc0 := code]} {[0xca; 0xc0]} ∅ ∅ ∅ 0 [] ∅ ∅ ∅ ∅.
Definition one_state (code : bytes) : tables := MkTables (one_world code) [] 0.

Lemma one_state_ok code : data_ok code → tables_ok (one_state code).
Proof.
  intros Hc. split; [|done]. cbn. split; unfold bal, code_at, one_world; cbn; intros; rewrite ?lookup_empty, ?lookup_singleton; cbn;
    try ulia; case_decide; cbn; try ulia; [done|apply data_ok_nil].
Qed.

(** * What the virtual machine promises

    The theorems of parallelizable-client-go-ethereum/core/vm: every instruction set
    is sound; a turn of the interpreter keeps the typing of its frame; a call
    returns, whatever the code; an error leaves no trace in the state, and a static
    call none at all; a jump lands on an instruction; the prices of memory and of
    the gas of a call. *)

(** ** The instruction sets *)

Lemma instruction_set_checks rules jt : instruction_set rules = Some jt → table_check jt = true ∧ validate jt = true.
Proof.
  unfold instruction_set. destruct (ChainConfig.Config.r_IsVerkle rules); [done|]. intros [= <-].
  repeat match goal with |- context [if ?b then _ else _] => destruct b; [split; vm_compute; reflexivity|] end.
  split; vm_compute; reflexivity.
Qed.

(** C34: every instruction set, from Frontier to Prague, is sound: each of its 256
    entries asks for the words that its instruction takes and leaves room for those
    that it puts, charges for the memory that it covers, sets gas aside before a
    call, and has a price unless it never goes on; and the check of the source
    accepts it. *)
Theorem instruction_sets_sound rules jt :
  instruction_set rules = Some jt →
  (∀ i, 0 <= i < 256 → op_ok (table_at jt i)) ∧ op_execute (table_at jt STOP) = Exec.opStop ∧ validate jt = true.
Proof.
  intros Hjt. destruct (instruction_set_checks rules jt Hjt) as [Hc Hv]. destruct (table_check_sound jt Hc). done.
Qed.

(** ** A machine *)

(** The environment of a block: its table, and what the table reads. *)
Record sound_env (env : EvmEnv) (jt : JumpTable) : Prop := {
  se_env : env_ok env;
  se_set : instruction_set (chainRules env) = Some jt;
  se_reads : ∀ i, 0 <= i < 256 → provided env (op_execute (table_at jt i))
}.

Lemma sound_table env jt : sound_env env jt → table_ok env jt.
Proof.
  intros [_ Hset Hreads]. destruct (instruction_set_checks _ _ Hset) as [Hc _]. destruct (table_check_sound jt Hc). done.
Qed.

Section Theorems.
Context {St : Type} `{Hst : EvmState St} `{Hk : Keccak} `{Hlaws : !EvmStateLaws St} `{Hu : Uint256}.
Context (env : EvmEnv) (abort : Frame St → bool) (jt : JumpTable) (Hsound : sound_env env jt).
Implicit Types (e : Evm St) (f : Frame St).
Abbreviation calls fuel := (machine env abort jt fuel).

Lemma sound_calls fuel B : B < Z.of_nat fuel → calls_ok (calls fuel) B.
Proof. intros HB. apply machine_ok; [apply Hsound|by apply sound_table|done]. Qed.

(** C4: a call always returns.  Whatever the code, the input and the state, with
    more fuel than gas the call ends: with data, at most the gas that it was given,
    and a machine that is well-typed again.  No instruction reads past the stack,
    the memory, the code or a nil pointer, and no loop or recursion goes on for
    ever; the only panics left are a refund counter below zero, and a code whose
    analysis was cached under the hash of another one. *)
Theorem call_returns fuel caller addr input gas value e :
  call_pre e gas caller addr input gas value → (readOnly e = true → value = 0) → gas < Z.of_nat fuel →
  match evm_Call (calls fuel) caller addr input gas value e with
  | Done (ret_, gas_left, err) e' => data_ok ret_ ∧ 0 <= gas_left <= gas ∧ evm_ok e' ∧ depth e' = depth e
  | Panics p => p = RefundPanic ∨ p = AnalysisPanic
  | Halt _ _ _ | NoFuel => False
  end.
Proof.
  intros Hpre Hro Hf. pose proof (ok_call _ _ (sound_calls fuel gas Hf) caller addr input gas value e Hpre Hro) as Hw.
  unfold wp in Hw. destruct (evm_Call _ _ _ _ _ _ _) as [[[r g] err] e'| | |]; try done.
  destruct Hw as [[H1 H2 H3 H4] _]. split; [done|]. split; [done|]. split; [done|]. apply H4.
Qed.

(** The fuel of the model stands for nothing: any two amounts above the gas
    give the same call. *)
Theorem call_fuel_irrelevant fuel fuel' caller addr input gas value e :
  call_pre e gas caller addr input gas value → (readOnly e = true → value = 0) →
  gas < Z.of_nat fuel → gas < Z.of_nat fuel' →
  evm_Call (calls fuel) caller addr input gas value e = evm_Call (calls fuel') caller addr input gas value e.
Proof.
  intros Hpre Hro Hf Hf'.
  assert (∀ n m, (n <= m)%nat → gas < Z.of_nat n →
    evm_Call (calls n) caller addr input gas value e = evm_Call (calls m) caller addr input gas value e) as Hle.
  { intros n m Hnm Hn. pose proof (ok_call _ _ (sound_calls n gas Hn) caller addr input gas value e Hpre Hro) as Hw.
    destruct (cr_call _ _ (machine_fuel env abort jt n m Hnm) caller addr input gas value e) as [Hno|]; [|done].
    unfold wp in Hw. by rewrite Hno in Hw. }
  destruct (Nat.le_ge_cases fuel fuel'); [by apply Hle|symmetry; by apply Hle].
Qed.

(** A turn of the interpreter keeps the types: the stack holds at most 1024
    words of 256 bits, the memory whole words of bytes with their fee paid, the
    contract its gas as a uint64.  A turn that goes on has taken gas; one that halts
    has data to return. *)
Theorem step_keeps_types fuel f :
  live f → Gas (Con f) <= Z.of_nat fuel →
  match step env abort jt (calls fuel) f with
  | Done _ f' => live f' ∧ Gas (Con f') < Gas (Con f) ∧ Code (Con f') = Code (Con f)
  | Halt res err f' => data_ok res ∧ evm_ok (Vm f') ∧ 0 <= Gas (Con f') <= Gas (Con f)
  | Panics p => p = RefundPanic ∨ p = AnalysisPanic
  | NoFuel => False
  end.
Proof.
  intros Hl Hg. pose proof (step_spec env (se_env _ _ Hsound) abort jt (sound_table _ _ Hsound) (calls fuel) f Hl) as Hs.
  specialize (Hs (sound_calls fuel (Gas (Con f) - 1) ltac:(lia))). unfold wp in Hs.
  destruct (step env abort jt (calls fuel) f) as [u f'|r x f'|p|]; try done.
  - destruct Hs as [Hl' [R1 R2 R3 R4]]. split; [done|]. split; [lia|done].
  - destruct Hs as [H1 H2 H3 H4]. done.
Qed.

(** C17: a call that fails leaves the state as it was, and its gas is gone, unless
    the callee reverted or the call did not start. *)
Theorem failed_call_reverts fuel caller addr input gas value e ret_ gas_left x e' :
  call_pre e gas caller addr input gas value → (readOnly e = true → value = 0) → gas < Z.of_nat fuel →
  evm_Call (calls fuel) caller addr input gas value e = Done (ret_, gas_left, Some x) e' →
  same (StateDB e) (StateDB e') ∧ (x ∈ [ErrExecutionReverted; ErrDepth; ErrInsufficientBalance] ∨ gas_left = 0).
Proof.
  intros Hpre Hro Hf Hd. pose proof (ok_call _ _ (sound_calls fuel gas Hf) caller addr input gas value e Hpre Hro) as Hw.
  unfold wp in Hw. rewrite Hd in Hw. destruct Hw as [_ Hr]. by apply Hr.
Qed.

(** C16: a static call changes nothing that can be read: no balance, nonce, code,
    storage or transient storage of any account, and no log, whatever the code does
    and calls in turn. *)
Theorem static_call_keeps_world fuel caller addr input gas e ret_ gas_left err e' :
  call_pre e gas caller addr input gas 0 → gas < Z.of_nat fuel →
  evm_StaticCall (calls fuel) caller addr input gas e = Done (ret_, gas_left, err) e' →
  unchanged logs (StateDB e) (StateDB e').
Proof.
  intros Hpre Hf Hd.
  assert (run_ok (Interpreter_Run env abort jt fuel) gas) as Hrun.
  { apply run_with_ok. intros f Hl Hg. apply loop_spec; [apply Hsound|by apply sound_table|done|lia]. }
  pose proof (StaticCall_unchanged env (se_env _ _ Hsound) _ gas Hrun caller addr input gas e Hpre) as Hw.
  unfold wp in Hw. change (StaticCall env (Interpreter_Run env abort jt fuel) caller addr input gas e) with
    (evm_StaticCall (calls fuel) caller addr input gas e) in Hw. by rewrite Hd in Hw.
Qed.
End Theorems.

(** ** Jumps *)

(** C35: a jump that is accepted lands on an instruction of its code, and that
    instruction is a JUMPDEST, never on the data of a PUSH; the exception is a cached
    analysis of another code with the same hash. *)
Theorem jump_lands_on_instruction {St} `{Hst : EvmState St} `{Hk : Keccak} `{Hlaws : !EvmStateLaws St} (f f' : Frame St) dest :
  frame_ok f → is_uint256 dest → validJumpdest dest f = Done true f' →
  (Code (Con f) !! Z.to_nat dest = Some JUMPDEST ∧ instruction_at (Code (Con f)) dest) ∨
  (∃ code, code ≠ Code (Con f) ∧ Keccak256Hash code = Keccak256Hash (Code (Con f))).
Proof.
  intros Hf Hd. unfold validJumpdest, bind, contract_of, gets, Uint64WithOverflow, IsUint64.
  destruct (Z.ltb_spec dest two64) as [Hlt|]; cbn [negb orb]; [|done]. rewrite wrap64_id by b_lia.
  rewrite Z.geb_leb. destruct (Z.leb_spec (len (Code (Con f))) dest) as [|Hin]; [done|].
  unfold of_option. destruct (Code (Con f) !! Z.to_nat dest) as [op|] eqn:Hop; [|done]. cbn [ret].
  destruct (Z.eqb_spec op JUMPDEST) as [->|]; cbn [negb]; [|done].
  destruct (isCode_spec f dest Hf) as (code & a & c & e & Hdc & Ha & Hh & _ & _ & _ & _ & _ & _ & _ & ->); [b_lia|].
  unfold of_option. destruct (codeSegment a dest) as [b|] eqn:Hs; [|done]. cbn. intros [= -> _].
  destruct (decide (code = Code (Con f))) as [->|Hne]; [left|right; by exists code].
  split; [done|]. apply (codeSegment_exact _ a dest true); [apply Hdc|b_lia|done|done|done].
Qed.

(** ** Prices *)

(** The price of memory is 3 per word and a 512th of the square of the words,
    paid once: growing from [Len m] to [n] bytes costs the difference of the two
    totals, nothing when there is memory enough; more than 0x1FFFFFFFE0 bytes are
    refused, and no sum or product overflows below. *)
Theorem memory_price m n :
  mem_ok m → is_uint64 n →
  (memoryGasCost m n).1 =
    if n >? 0x1FFFFFFFE0 then Err ErrGasUintOverflow
    else Ok (fee (Z.max (Len m / 32) ((n + 31) / 32)) - fee (Len m / 32)).
Proof. intros Hm Hn. rewrite memoryGasCost_exact by done. by destruct (n >? max_memory) eqn:Hmax; unfold max_memory in Hmax; rewrite Hmax. Qed.

(** Since EIP-150 a call gets what it asks for, up to all but one 64th of the
    gas that is left after the price of the call; before it, exactly what it asks
    for. *)
Theorem call_gas_bound isEip150 availableGas base callCost :
  is_uint64 availableGas → is_uint64 base → is_uint256 callCost → base <= availableGas →
  callGas isEip150 availableGas base callCost =
    let left := availableGas - base in
    if isEip150 then Ok (Z.min callCost (left - left / 64))
    else if callCost <? two64 then Ok callCost else Err ErrGasUintOverflow.
Proof. apply callGas_exact. Qed.

(** ** Examples *)

#[local] Existing Instance toy_keccak.
#[local] Existing Instance word_ops.

(** The rules and the fields of a block of the Prague fork. *)
Definition ex_rules : ChainConfig.Config.Rules :=
  ChainConfig.Config.MkRules 1 true true true true true true true true true true true true true true true false false false.
Definition ex_env : EvmEnv :=
  MkEvmEnv ex_rules (Some 1) false (λ _, 0) 0xcb 30000000 1 1000 (Some 0) (Some 7) (Some 1) (Some 5) 0xca 10 [] (λ _, None).
Definition ex_evm (code : bytes) : Evm tables := MkEvm (one_state code) 0 false [] 0 ∅.
Definition ex_calls (fuel : nat) : Calls tables := machine ex_env (λ _, false) newPragueInstructionSet fuel.

Lemma ex_sound : sound_env ex_env newPragueInstructionSet.
Proof.
  split; [|done|].
  - split; cbn; try done; try (intros; ulia). intros h [= <-]. ulia.
  - intros i _. destruct (op_execute _); cbn; eauto.
Qed.

Lemma ex_evm_ok code : data_ok code → evm_ok (ex_evm code).
Proof. intros Hc. split; [by apply one_state_ok|apply data_ok_nil|done|]. intros h a. cbn. by rewrite lookup_empty. Qed.

Lemma ex_pre code gas value :
  data_ok code → is_uint64 gas → is_uint256 value → call_pre (ex_evm code) gas 0xca 0xc0 [] gas value.
Proof. intros Hc Hg Hv. split; [by apply ex_evm_ok|ulia|ulia|apply data_ok_nil|ulia|done|done]. Qed.

Ltac code_ok := split; [repeat (apply Forall_cons; split; [unfold is_byte; lia|]); constructor|vm_compute; reflexivity].

(** PUSH1 5, PUSH1 3, ADD, PUSH1 0, MSTORE, PUSH1 32, PUSH1 0, RETURN *)
Definition code_sum : bytes := [0x60; 5; 0x60; 3; 0x01; 0x60; 0; 0x52; 0x60; 32; 0x60; 0; 0xf3].
(** JUMPDEST, PUSH1 0, JUMP: a loop *)
Definition code_loop : bytes := [0x5b; 0x60; 0; 0x56].
(** PUSH1 1, PUSH1 0, SSTORE, JUMP: the stack is empty at the end *)
Definition code_fail : bytes := [0x60; 1; 0x60; 0; 0x55; 0x56].

Lemma code_sum_ok : data_ok code_sum.
Proof. code_ok. Qed.
Lemma code_loop_ok : data_ok code_loop.
Proof. code_ok. Qed.
Lemma code_fail_ok : data_ok code_fail.
Proof. code_ok. Qed.

(** What a call gives, without its machine. *)
Definition outcome_of (o : outcome (Evm tables) (bytes * Z * option vm_error)) : option (bytes * Z * option vm_error) :=
  match o with Done r _ => Some r | _ => None end.

Lemma instruction_sets_sound_witness :
  instruction_set ex_rules = Some newPragueInstructionSet ∧
  ((∀ i, 0 <= i < 256 → op_ok (table_at newPragueInstructionSet i)) ∧
    op_execute (table_at newPragueInstructionSet STOP) = Exec.opStop ∧ validate newPragueInstructionSet = true).
Proof. split; [done|]. by apply (instruction_sets_sound ex_rules). Defined.

(** 5 + 3 = 8, for 24 of gas; and a loop, that runs out of gas. *)
Lemma call_returns_witness :
  outcome_of (evm_Call (ex_calls 2000) 0xca 0xc0 [] 1000 0 (ex_evm code_sum)) = Some (be_encode 32 8, 976, None) ∧
  outcome_of (evm_Call (ex_calls 2000) 0xca 0xc0 [] 1000 0 (ex_evm code_loop)) = Some ([], 0, Some ErrOutOfGas) ∧
  match evm_Call (ex_calls 2000) 0xca 0xc0 [] 1000 0 (ex_evm code_loop) with
  | Done (ret_, gas_left, err) e' => data_ok ret_ ∧ 0 <= gas_left <= 1000 ∧ evm_ok e' ∧ depth e' = depth (ex_evm code_loop)
  | Panics p => p = RefundPanic ∨ p = AnalysisPanic
  | Halt _ _ _ | NoFuel => False
  end.
Proof.
  split; [vm_compute; reflexivity|]. split; [vm_compute; reflexivity|].
  apply (call_returns ex_env (λ _, false) newPragueInstructionSet ex_sound); [apply ex_pre; [apply code_loop_ok|ulia|ulia]|done|lia].
Defined.

Lemma call_fuel_irrelevant_witness :
  evm_Call (ex_calls 1001) 0xca 0xc0 [] 1000 0 (ex_evm code_loop) = evm_Call (ex_calls 5000) 0xca 0xc0 [] 1000 0 (ex_evm code_loop) ∧
  outcome_of (evm_Call (ex_calls 10) 0xca 0xc0 [] 1000 0 (ex_evm code_loop)) = None.
Proof.
  split; [|vm_compute; reflexivity].
  apply (call_fuel_irrelevant ex_env (λ _, false) newPragueInstructionSet ex_sound); [apply ex_pre; [apply code_loop_ok|ulia|ulia]|done|lia|lia].
Defined.

(** The frame of a contract that starts. *)
Definition ex_frame (code : bytes) (gas : Z) : Frame tables :=
  MkFrame 0 [] NewMemory (SetCallCode (NewContract 0xca 0xc0 0 gas) (Keccak256Hash code) code) (ex_evm code).

Lemma ex_live code gas : data_ok code → is_uint64 gas → live (ex_frame code gas).
Proof.
  intros Hc Hg. split; [split; [constructor|apply NewMemory_ok| |by apply ex_evm_ok]|cbn; lia|done].
  apply new_contract_ok; [ulia|ulia|ulia|done|done|by right].
Qed.

Lemma step_keeps_types_witness :
  match step ex_env (λ _, false) newPragueInstructionSet (ex_calls 100) (ex_frame code_sum 100) with
  | Done _ f' => live f' ∧ Gas (Con f') < 100 ∧ Code (Con f') = code_sum
  | Halt res err f' => data_ok res ∧ evm_ok (Vm f') ∧ 0 <= Gas (Con f') <= 100
  | Panics p => p = RefundPanic ∨ p = AnalysisPanic
  | NoFuel => False
  end ∧
  match step ex_env (λ _, false) newPragueInstructionSet (ex_calls 100) (ex_frame code_sum 100) with
  | Done _ f' => (Stk f', pc f', Gas (Con f')) = ([5], 2, 97)
  | _ => False
  end.
Proof.
  split; [|vm_compute; reflexivity].
  apply (step_keeps_types ex_env (λ _, false) newPragueInstructionSet ex_sound 100 (ex_frame code_sum 100)); [|done].
  apply ex_live; [apply code_sum_ok|ulia].
Defined.

(** The write is undone. *)
Lemma failed_call_reverts_witness :
  match evm_Call (ex_calls 30000) 0xca 0xc0 [] 29000 0 (ex_evm code_fail) with
  | Done (_, gas_left, Some x) e' =>
      (same (StateDB (ex_evm code_fail)) (StateDB e') ∧ (x ∈ [ErrExecutionReverted; ErrDepth; ErrInsufficientBalance] ∨ gas_left = 0)) ∧
      (x, gas_left) = (ErrStackUnderflow 0 1, 0)
  | _ => False
  end.
Proof.
  pose proof (failed_call_reverts ex_env (λ _, false) newPragueInstructionSet ex_sound 30000 0xca 0xc0 [] 29000 0 (ex_evm code_fail)) as Ht.
  assert (outcome_of (evm_Call (ex_calls 30000) 0xca 0xc0 [] 29000 0 (ex_evm code_fail)) = Some ([], 0, Some (ErrStackUnderflow 0 1))) as Hc
    by (vm_compute; reflexivity).
  unfold ex_calls in *. destruct (evm_Call _ _ _ _ _ _ _) as [[[r g] err] e'| | |]; try done.
  cbn in Hc. assert (g = 0) by congruence. assert (err = Some (ErrStackUnderflow 0 1)) by congruence. subst g err.
  split; [|done]. eapply Ht; [apply ex_pre; [apply code_fail_ok|ulia|ulia]|done|vm_compute; reflexivity|done].
Defined.

(** The write is refused. *)
Lemma static_call_keeps_world_witness :
  match evm_StaticCall (ex_calls 30000) 0xca 0xc0 [] 29000 (ex_evm code_fail) with
  | Done (_, _, err) e' => unchanged logs (StateDB (ex_evm code_fail)) (StateDB e') ∧ err = Some ErrWriteProtection
  | _ => False
  end.
Proof.
  pose proof (static_call_keeps_world ex_env (λ _, false) newPragueInstructionSet ex_sound 30000 0xca 0xc0 [] 29000 (ex_evm code_fail)) as Ht.
  assert (outcome_of (evm_StaticCall (ex_calls 30000) 0xca 0xc0 [] 29000 (ex_evm code_fail)) = Some ([], 0, Some ErrWriteProtection)) as Hc
    by (vm_compute; reflexivity).
  unfold ex_calls in *. destruct (evm_StaticCall _ _ _ _ _ _) as [[[r g] err] e'| | |]; try done.
  cbn in Hc. assert (err = Some ErrWriteProtection) by congruence. subst err. split; [|done].
  eapply Ht; [apply ex_pre; [apply code_fail_ok|ulia|ulia]|vm_compute; reflexivity|done].
Defined.

(** The loop jumps to 0; the second byte is data. *)
Lemma jump_lands_on_instruction_witness :
  match validJumpdest 0 (ex_frame code_loop 100) with
  | Done true f' =>
      (code_loop !! Z.to_nat 0 = Some JUMPDEST ∧ instruction_at code_loop 0) ∨
      (∃ code, code ≠ code_loop ∧ Keccak256Hash code = Keccak256Hash code_loop)
  | _ => False
  end.
Proof.
  pose proof (λ f', jump_lands_on_instruction (ex_frame code_loop 100) f' 0) as Ht.
  assert (match validJumpdest 0 (ex_frame code_loop 100) with Done b _ => Some b | _ => None end = Some true) as Hc by (vm_compute; reflexivity).
  destruct (validJumpdest 0 (ex_frame code_loop 100)) as [[|] f'| | |]; try done.
  apply (Ht f'); [|ulia|done]. apply ex_live; [apply code_loop_ok|ulia].
Defined.

(** 1024 bytes at once: 3 * 32 + 32 * 32 / 512. *)
Lemma memory_price_witness :
  (memoryGasCost NewMemory 1024).1 =
    (if 1024 >? 0x1FFFFFFFE0 then Err ErrGasUintOverflow
     else Ok (fee (Z.max (Len NewMemory / 32) ((1024 + 31) / 32)) - fee (Len NewMemory / 32))) ∧
  (memoryGasCost NewMemory 1024).1 = Ok 98.
Proof. split; [|reflexivity]. apply memory_price; [apply NewMemory_ok|ulia]. Defined.

Lemma call_gas_bound_witness :
  callGas true 6500 100 (2 ^ 200) =
    (let left := 6500 - 100 in
     if true then Ok (Z.min (2 ^ 200) (left - left / 64))
     else if 2 ^ 200 <? two64 then Ok (2 ^ 200) else Err ErrGasUintOverflow) ∧
  callGas true 6500 100 (2 ^ 200) = Ok 6300.
Proof. split; [|reflexivity]. apply call_gas_bound; ulia. Defined.
