(* ===== verification/TxValidation.v ===== *)
(** * What every pool asks of a transaction

    parallelizable-client-go-ethereum/core/txpool: the errors of a pool (errors.go)
    and the checks that all pools make (validation.go), first those that need the
    head of the chain only, then those against the state.  Signatures are checked by
    the class [Sending], blobs by the class [BlobProofs]. *)

From S2P Require Import Prelude TxTypes Signers ChainConfig BlockFees GasRules StateInterface.
Import Config.
Open Scope eigen_scope.

(** The errors of txpool, of the legacy pool and of core that adding a transaction
    returns; [PoolPanic] is a panic. *)
Inductive txpool_error : Type :=
  | ErrAlreadyKnown
  | ErrInvalidSender (err : signer_error)
  | ErrUnderpriced
  | ErrReplaceUnderpriced
  | ErrAccountLimitExceeded
  | ErrGasLimit
  | ErrNegativeValue
  | ErrOversizedData
  | ErrAlreadyReserved
  | ErrNotReserved
  | ErrNotOwned
  | ErrTxPoolOverflow
  | ErrInflightTxLimitReached
  | ErrAuthorityReserved
  | ErrFutureReplacePending
  | ErrTxTypeNotSupported
  | ErrCore (err : core_error)
  | ErrSigner (err : signer_error)
  | ErrMissingSidecar
  | ErrBlobless
  | ErrTooManyBlobs
  | ErrInvalidBlobs
  | ErrNoAuthorizations
  | ErrState
  | PoolPanic.

(** [types.Sender(signer, tx)].  The cache of the transaction does not change the
    answer (Signers.v). *)
Class Sending : Type := types_Sender : Signer → Transaction → result signer_error Address.

Definition signers_Sending (rlpHash : list hash_item → Hash) (prefixedRlpHash : Z → list hash_item → Hash)
    (Keccak256 : bytes → bytes) (Ecrecover : Hash → bytes → option bytes) : Sending :=
  λ signer tx, (Sender rlpHash prefixedRlpHash Keccak256 Ecrecover signer None tx).1.

(** The hash of a commitment (sha256) and the proof of a blob (KZG). *)
Class BlobProofs : Type := {
  sha256 : bytes → bytes;
  VerifyBlobProof : bytes → bytes → bytes → bool
}.

(** [kzg4844.CalcBlobHashV1]: the first byte is the version. *)
Definition CalcBlobHashV1 `{BlobProofs} (commit : bytes) : Hash := be_decode (1 :: drop 1 (sha256 commit)).

(** ** Without the state *)

Record ValidationOptions : Type := MkValidationOptions {
  vo_Config : ChainConfig;
  Accept : Z;
  MaxSize : Z;
  vo_MinTip : Z
}.

Definition blobTxMinBlobGasPrice : Z := 1.

(** [if cond { return err }]. *)
Definition refuse {A} (cond : bool) (err : txpool_error) (rest : result txpool_error A) : result txpool_error A :=
  if cond then Err err else rest.

Definition of_core {A} (r : result core_error A) : result txpool_error A :=
  match r with Ok a => Ok a | Err e => Err (ErrCore e) end.

(** The loops over the hashes and over the blobs. *)
Fixpoint check_hashes `{BlobProofs} (hashes : list Hash) (commitments : list bytes) : result txpool_error () :=
  match hashes, commitments with
  | [], _ => Ok tt
  | vhash :: hashes, c :: commitments => refuse (negb (vhash =? CalcBlobHashV1 c)) ErrInvalidBlobs (check_hashes hashes commitments)
  | _ :: _, [] => Err PoolPanic
  end.

Fixpoint check_proofs `{BlobProofs} (blobs commitments proofs : list bytes) : result txpool_error () :=
  match blobs, commitments, proofs with
  | [], _, _ => Ok tt
  | b :: blobs, c :: commitments, p :: proofs =>
      refuse (negb (VerifyBlobProof b c p)) ErrInvalidBlobs (check_proofs blobs commitments proofs)
  | _ :: _, _, _ => Err PoolPanic
  end.

Definition validateBlobSidecar `{BlobProofs} (hashes : list Hash) (sidecar : BlobTxSidecar) : result txpool_error () :=
  refuse (negb (len (Blobs sidecar) =? len hashes)) ErrInvalidBlobs (
  refuse (negb (len (Commitments sidecar) =? len hashes)) ErrInvalidBlobs (
  refuse (negb (len (Proofs sidecar) =? len hashes)) ErrInvalidBlobs (
  let* _ := check_hashes hashes (Commitments sidecar) in
  check_proofs (Blobs sidecar) (Commitments sidecar) (Proofs sidecar)))).

(** [tx.BlobTxSidecar()] *)
Definition tx_sidecar (tx : Transaction) : option BlobTxSidecar :=
  match inner tx with TBlob b => BlobTx.Sidecar b | _ => None end.

(** The last part of [ValidateTransaction], by type. *)
Definition check_type `{BlobProofs} (tx : Transaction) (head : Header.Header) (opts : ValidationOptions) : result txpool_error () :=
  let* _ :=
    (if Tx.Type_ tx =? BlobTxType then
      refuse (Cmp (default 0 (Tx.BlobGasFeeCap tx)) blobTxMinBlobGasPrice <? 0) ErrUnderpriced (
      match tx_sidecar tx with
      | None => Err ErrMissingSidecar
      | Some sidecar =>
          let hashes := default [] (Tx.BlobHashes tx) in
          refuse (len hashes =? 0) ErrBlobless (
          refuse (len hashes >? MaxBlobsPerBlock (vo_Config opts) (Header.Time head)) ErrTooManyBlobs (
          validateBlobSidecar hashes sidecar))
      end)
    else Ok tt) in
  if Tx.Type_ tx =? SetCodeTxType then
    refuse (len (default [] (Tx.SetCodeAuthorizations tx)) =? 0) ErrNoAuthorizations (Ok tt)
  else Ok tt.

(** Enough gas for the data, by the price of the fork and by its floor. *)
Definition check_gas (tx : Transaction) (head : Header.Header) (config : ChainConfig) (r : Rules) : result txpool_error () :=
  let creation := bool_decide (Tx.To tx = None) in
  let* intrGas := of_core (IntrinsicGas (Tx.Data tx) (Tx.AccessList_ tx) (default [] (Tx.SetCodeAuthorizations tx)) creation true
    (r_IsIstanbul r) (r_IsShanghai r)) in
  refuse (Tx.Gas tx <? intrGas) (ErrCore ErrIntrinsicGas) (
  if IsPrague config (Header.Number head) (Header.Time head) then
    let* floorDataGas := of_core (FloorDataGas (Tx.Data tx)) in
    refuse (Tx.Gas tx <? floorDataGas) (ErrCore ErrFloorDataGas) (Ok tt)
  else Ok tt).

Definition ValidateTransaction `{Sending, BlobProofs} (tx : Transaction) (head : Header.Header) (signer : Signer)
    (opts : ValidationOptions) : result txpool_error () :=
  refuse (Z.land (Accept opts) (Z.shiftl 1 (Tx.Type_ tx) mod 256) =? 0) ErrTxTypeNotSupported (
  refuse (Tx.Size tx >? MaxSize opts) ErrOversizedData (
  match Header.Difficulty head with
  | None => Err PoolPanic
  | Some difficulty =>
      let r := rules (vo_Config opts) (Header.Number head) (difficulty =? 0) (Header.Time head) in
      refuse (negb (r_IsBerlin r) && negb (Tx.Type_ tx =? LegacyTxType)) ErrTxTypeNotSupported (
      refuse (negb (r_IsLondon r) && (Tx.Type_ tx =? DynamicFeeTxType)) ErrTxTypeNotSupported (
      refuse (negb (r_IsCancun r) && (Tx.Type_ tx =? BlobTxType)) ErrTxTypeNotSupported (
      refuse (negb (r_IsPrague r) && (Tx.Type_ tx =? SetCodeTxType)) ErrTxTypeNotSupported (
      refuse (r_IsShanghai r && bool_decide (Tx.To tx = None) && (len (Tx.Data tx) >? MaxInitCodeSize))
        (ErrCore ErrMaxInitCodeSizeExceeded) (
      refuse (Tx.Value tx <? 0) ErrNegativeValue (
      refuse (Header.GasLimit head <? Tx.Gas tx) ErrGasLimit (
      refuse (BitLen (Tx.GasFeeCap tx) >? 256) (ErrCore ErrFeeCapVeryHigh) (
      refuse (BitLen (Tx.GasTipCap tx) >? 256) (ErrCore ErrTipVeryHigh) (
      refuse (Tx.GasFeeCapIntCmp tx (Tx.GasTipCap tx) <? 0) (ErrCore ErrTipAboveFeeCap) (
      match types_Sender signer tx with
      | Err err => Err (ErrInvalidSender err)
      | Ok _ =>
          let* _ := check_gas tx head (vo_Config opts) r in
          refuse (Tx.GasTipCapIntCmp tx (vo_MinTip opts) <? 0) ErrUnderpriced (check_type tx head opts)
      end))))))))))
  end)).

(** ** With the state *)

(** [UsedAndLeftSlots] gives the slots left; those used are only printed. *)
Record ValidationOptionsWithState (St : Type) : Type := MkStateOptions {
  vo_State : St;
  FirstNonceGap : option (Address → Z);
  UsedAndLeftSlots : option (Address → Z);
  ExistingExpenditure : Address → Z;
  ExistingCost : Address → Z → option Z
}.
Arguments MkStateOptions {St}. Arguments vo_State {St}. Arguments FirstNonceGap {St}. Arguments UsedAndLeftSlots {St}.
Arguments ExistingExpenditure {St}. Arguments ExistingCost {St}.

Definition ValidateTransactionWithState {St} `{AccountState St, Sending} (tx : Transaction) (signer : Signer)
    (opts : ValidationOptionsWithState St) : result txpool_error () :=
  match types_Sender signer tx with
  | Err err => Err (ErrSigner err)
  | Ok from =>
      let next := GetNonce (vo_State opts) from in
      refuse (next >? Tx.Nonce tx) (ErrCore ErrNonceTooLow) (
      refuse (match FirstNonceGap opts with Some gap => gap from <? Tx.Nonce tx | None => false end) (ErrCore ErrNonceTooHigh) (
      let balance := GetBalance (vo_State opts) from in
      let cost := Tx.Cost tx in
      refuse (Cmp balance cost <? 0) (ErrCore ErrInsufficientFunds) (
      let spent := ExistingExpenditure opts from in
      match ExistingCost opts from (Tx.Nonce tx) with
      | Some prev =>
          let bump := cost - prev in
          let need := spent + bump in
          refuse (Cmp balance need <? 0) (ErrCore ErrInsufficientFunds) (Ok tt)
      | None =>
          let need := spent + cost in
          refuse (Cmp balance need <? 0) (ErrCore ErrInsufficientFunds) (
          refuse (match UsedAndLeftSlots opts with Some slots_left => slots_left from <=? 0 | None => false end) ErrAccountLimitExceeded (Ok tt))
      end)))
  end.
