(* ===== verification/TxPool.v ===== *)
(** * The coordinator of the pools

    parallelizable-client-go-ethereum/core/txpool: what the specialized pools share
    (subpool.go) and the pool in front of them (txpool.go): the reservations of
    accounts, the distribution of calls, and the loop that follows the chain's
    head.  A pool is an instance of [SubPool]; an operation of it takes and returns
    the reservations, which it may change through the callback [reserver]. *)

From S2P Require Import Prelude StateError GoSort TxTypes BlockFees TxValidation.
Open Scope eigen_scope.
Open Scope step_scope.

Inductive TxStatus : Type := TxStatusUnknown | TxStatusQueued | TxStatusPending | TxStatusIncluded.

#[export] Instance TxStatus_eq : EqDecision TxStatus.
Proof. solve_decision. Defined.

(** The pool of the handle is the one that returns it. *)
Record LazyTransaction : Type := MkLazy {
  lazy_Hash : Hash;
  lazy_Tx : option Transaction;
  lazy_Time : Z;
  lazy_GasFeeCap : Z;
  lazy_GasTipCap : Z;
  lazy_Gas : Z;
  lazy_BlobGas : Z
}.

(** [Get] is the one of the pool. *)
Definition Resolve (ltx : LazyTransaction) (Get : Hash → option Transaction) : option Transaction :=
  match lazy_Tx ltx with Some tx => Some tx | None => Get (lazy_Hash ltx) end.

Record PendingFilter : Type := MkPendingFilter {
  MinTip : option Z;
  BaseFee_ : option Z;
  BlobFee : option Z;
  OnlyPlainTxs : bool;
  OnlyBlobTxs : bool
}.

(** Which pool owns an account, by its place in the list of pools. *)
Abbreviation Reservations := (gmap Address nat) (only parsing).

(** ** Reservations *)

Definition reserver (id : nat) (reservations : Reservations) (addr : Address) (reserve : bool)
    : result txpool_error () * Reservations :=
  let owner := reservations !! addr in
  if reserve then
    match owner with
    | Some owner => if (owner =? id)%nat then (Ok tt, reservations) else (Err ErrAlreadyReserved, reservations)
    | None => (Ok tt, <[addr := id]> reservations)
    end
  else
    match owner with
    | None => (Err ErrNotReserved, reservations)
    | Some owner => if negb (id =? owner)%nat then (Err ErrNotOwned, reservations) else (Ok tt, delete addr reservations)
    end.

(** ** The pools *)

(** An operation of a pool [T]; the only error is a panic. *)
Abbreviation Sub T A := (SE (T * Reservations) txpool_error A).
Abbreviation AccountTxs := (gmap Address (list Transaction)) (only parsing).

Class SubPool (T : Type) : Type := {
  sub_Filter : T → Transaction → bool;
  sub_Init : Z → Header.Header → nat → Sub T (option txpool_error);
  sub_Close : Sub T ();
  sub_Reset : option Header.Header → option Header.Header → Sub T ();
  sub_SetGasTip : Z → Sub T ();
  sub_Has : T → Hash → bool;
  sub_Get : T → Hash → option Transaction;
  sub_Add : list Transaction → bool → Sub T (list (option txpool_error));
  sub_Pending : PendingFilter → Sub T (gmap Address (list LazyTransaction));
  sub_Nonce : Address → Sub T Z;
  sub_Stats : T → Z * Z;
  sub_Content : Sub T (AccountTxs * AccountTxs);
  sub_ContentFrom : Address → Sub T (list Transaction * list Transaction);
  sub_Status : T → Hash → TxStatus;
  sub_Clear : Sub T ()
}.

Record TxPool (T : Type) : Type := MkTxPool {
  subpools : list T;
  reservations : Reservations
}.
Arguments MkTxPool {T}. Arguments subpools {T}. Arguments reservations {T}.

Section TxPool.
Context {T : Type} `{SubPool T}.
Abbreviation P A := (SE (TxPool T) txpool_error A).

(** An operation of the pool at a place. *)
Definition on_sub {A} (i : nat) (m : Sub T A) : P A := λ p,
  match subpools p !! i with
  | None => (Err PoolPanic, p)
  | Some s =>
      let '(r, (s, res)) := m (s, reservations p) in
      (r, MkTxPool (<[i := s]> (subpools p)) res)
  end.

(** [for i, subpool := range p.subpools]: the results, in order. *)
Fixpoint over_subs {A} (idx : list nat) (m : nat → Sub T A) : P (list A) :=
  match idx with
  | [] => ret []
  | i :: idx =>
      do a <- on_sub i (m i);
      do l <- over_subs idx m;
      ret (a :: l)
  end.

Definition each_sub {A} (m : nat → Sub T A) : P (list A) :=
  do n <- get (λ p, length (subpools p));
  over_subs (seq 0 n) m.

(** [New]: the pools are initialised in order; the first that fails ends it, and
    those before are closed from the last to the first. *)
Fixpoint init_subs (gasTip : Z) (head : Header.Header) (i n : nat) : P (option txpool_error) :=
  match n with
  | O => ret None
  | S n =>
      do err <- on_sub i (sub_Init gasTip head i);
      match err with
      | Some e => do! over_subs (rev (seq 0 i)) (λ _, sub_Close); ret (Some e)
      | None => init_subs gasTip head (S i) n
      end
  end.

Definition New (gasTip : Z) (head : Header.Header) (subpools : list T) : result txpool_error (option txpool_error) * TxPool T :=
  init_subs gasTip head 0 (length subpools) (MkTxPool subpools ∅).

Definition SetGasTip (tip : Z) : P () := do! each_sub (λ _, sub_SetGasTip tip); ret tt.

(** The pools' part of [Close]; the loop has its [Quit]. *)
Definition Close : P () := do! each_sub (λ _, sub_Close); ret tt.

(** What the goroutine of the loop runs. *)
Definition Reset (oldHead newHead : option Header.Header) : P () := do! each_sub (λ _, sub_Reset oldHead newHead); ret tt.

Definition Has (p : TxPool T) (hash : Hash) : bool := existsb (λ s, sub_Has s hash) (subpools p).

Definition Get (p : TxPool T) (hash : Hash) : option Transaction := head (omap (λ s, sub_Get s hash) (subpools p)).

(** The first pool that takes the transaction. *)
Definition split_of (subs : list T) (tx : Transaction) : option nat :=
  fst <$> list_find (λ s, sub_Filter s tx = true) subs.

(** The loop that gives every transaction the next error of its pool. *)
Fixpoint piece_back (splits : list (option nat)) (errsets : list (list (option txpool_error)))
    : result txpool_error (list (option txpool_error)) :=
  match splits with
  | [] => Ok []
  | None :: splits => let* errs := piece_back splits errsets in Ok (Some ErrTxTypeNotSupported :: errs)
  | Some i :: splits =>
      match errsets !! i with
      | Some (err :: rest) => let* errs := piece_back splits (<[i := rest]> errsets) in Ok (err :: errs)
      | _ => Err PoolPanic
      end
  end.

(** What the pool at a place gets. *)
Definition txset {A} (splits : list (option nat)) (txs : list A) (i : nat) : list A :=
  (List.filter (λ x, bool_decide (x.1 = Some i)) (zip splits txs)).*2.

Definition Add (txs : list Transaction) (sync : bool) : P (list (option txpool_error)) :=
  do subs <- get subpools;
  let splits := map (split_of subs) txs in
  do errsets <- each_sub (λ i, sub_Add (txset splits txs i) sync);
  of_result (piece_back splits errsets).

(** The maps of the pools in one; of two with the account, the later. *)
Definition merge {A} (l : list (gmap Address A)) : gmap Address A := fold_left (λ all m, m ∪ all) l ∅.

Definition Pending (filter : PendingFilter) : P (gmap Address (list LazyTransaction)) :=
  do l <- each_sub (λ _, sub_Pending filter); ret (merge l).

Definition Nonce (addr : Address) : P Z :=
  do l <- each_sub (λ _, sub_Nonce addr);
  ret (fold_left (λ nonce next, if nonce <? next then next else nonce) l 0).

Definition Stats (p : TxPool T) : Z * Z :=
  fold_left (λ acc s, let '(run, block) := sub_Stats s in (acc.1 + run, acc.2 + block)) (subpools p) (0, 0).

Definition Content : P (AccountTxs * AccountTxs) :=
  do l <- each_sub (λ _, sub_Content); ret (merge l.*1, merge l.*2).

(** The pools are asked in order until one has transactions of the account. *)
Fixpoint content_from (addr : Address) (i n : nat) : P (list Transaction * list Transaction) :=
  match n with
  | O => ret ([], [])
  | S n =>
      do (run, block) <- on_sub i (sub_ContentFrom addr);
      if negb (len run =? 0) || negb (len block =? 0) then ret (run, block) else content_from addr (S i) n
  end.

Definition ContentFrom (addr : Address) : P (list Transaction * list Transaction) :=
  do n <- get (λ p, length (subpools p)); content_from addr 0 n.

Definition Status (p : TxPool T) (hash : Hash) : TxStatus :=
  default TxStatusUnknown (head (List.filter (λ s, negb (bool_decide (s = TxStatusUnknown))) (map (λ s, sub_Status s hash) (subpools p)))).

Definition Clear : P () := do! each_sub (λ _, sub_Clear); ret tt.
End TxPool.

(** ** The loop that follows the head *)

Section Loop.
Context {Head : Type} `{EqDecision Head}.

(** The locals of [loop]; [running] is the reset whose goroutine holds the busy
    marker, [resets] those that were started and [woken] the waiters that were
    notified, with whether it was without an error, the newest last. *)
Record loop_state : Type := MkLoop {
  oldHead : Head;
  newHead : Head;
  running : option (Head * Head);
  resetForced : bool;
  resetWaiter : option nat;
  terminated : bool;
  resets : list (Head * Head);
  woken : list (nat * bool)
}.

Inductive loop_event : Type :=
  | HeadEvent (header : Head)
  | ResetDone
  | SyncRequest (waiter : nat)
  | Quit.

(** The top of the loop: start a reset when one is wanted and none runs. *)
Definition launch (s : loop_state) : loop_state :=
  if negb (bool_decide (newHead s = oldHead s)) || resetForced s then
    match running s with
    | None =>
        let r := (oldHead s, newHead s) in
        MkLoop (oldHead s) (newHead s) (Some r) false (resetWaiter s) (terminated s) (resets s ++ [r]) (woken s)
    | Some _ => s
    end
  else s.

(** The select; [ResetDone] can only come while a reset runs. *)
Definition loop_select (s : loop_state) (e : loop_event) : option loop_state :=
  match e with
  | HeadEvent h =>
      Some (MkLoop (oldHead s) h (running s) (resetForced s) (resetWaiter s) false (resets s) (woken s))
  | ResetDone =>
      match running s with
      | None => None
      | Some (_, head) =>
          let s := MkLoop head (newHead s) None (resetForced s) (resetWaiter s) false (resets s) (woken s) in
          match resetWaiter s with
          | Some w =>
              if negb (resetForced s) then
                Some (MkLoop (oldHead s) (newHead s) None (resetForced s) None false (resets s) (woken s ++ [(w, true)]))
              else Some s
          | None => Some s
          end
      end
  | SyncRequest w =>
      Some (MkLoop (oldHead s) (newHead s) (running s) true (Some w) false (resets s) (woken s))
  | Quit =>
      let told := match resetWaiter s with Some w => [(w, false)] | None => [] end in
      Some (MkLoop (oldHead s) (newHead s) (running s) (resetForced s) None true (resets s) (woken s ++ told))
  end.

(** A round of the loop, from its select to the next; after [Quit] there is none. *)
Definition loop_step (s : loop_state) (e : loop_event) : option loop_state :=
  if terminated s then None
  else
    s ← loop_select s e;
    Some (if terminated s then s else launch s).

Definition loop_start (head : Head) : loop_state := MkLoop head head None false None false [] [].

Fixpoint loop_run (s : loop_state) (es : list loop_event) : option loop_state :=
  match es with
  | [] => Some s
  | e :: es => s ← loop_step s e; loop_run s es
  end.

(** *** What the loop achieves *)

(** The resets follow each other from the first head on. *)
Fixpoint linked (from : Head) (l : list (Head * Head)) : Prop :=
  match l with
  | [] => True
  | (o, n) :: l => o = from ∧ linked n l
  end.

Fixpoint linked_end (from : Head) (l : list (Head * Head)) : Head :=
  match l with [] => from | (_, n) :: l => linked_end n l end.

Lemma linked_snoc from l n : linked from l → linked from (l ++ [(linked_end from l, n)]).
Proof. revert from. induction l as [|[o m] l IH]; intros from; cbn; [done|]. intros [-> Hl]. split; [done|by apply IH]. Qed.

Lemma linked_end_snoc from l o n : linked_end from (l ++ [(o, n)]) = n.
Proof. revert from. by induction l as [|[a b] l IH]; intros from; cbn. Qed.

(** Nothing is missed: an idle loop is at the newest head and owes nobody; a busy one
    runs the last of the linked resets. *)
Record loop_ok (start : Head) (s : loop_state) : Prop := {
  lo_linked : linked start (resets s);
  lo_idle : running s = None → oldHead s = linked_end start (resets s) ∧ newHead s = oldHead s ∧ resetForced s = false ∧ resetWaiter s = None;
  lo_busy r : running s = Some r → ∃ before, resets s = before ++ [r] ∧ r.1 = oldHead s ∧ linked_end start before = oldHead s
}.

Lemma launch_ok start s :
  linked start (resets s) →
  (running s = None → oldHead s = linked_end start (resets s) ∧ (newHead s = oldHead s → resetForced s = false → resetWaiter s = None)) →
  (∀ r, running s = Some r → ∃ before, resets s = before ++ [r] ∧ r.1 = oldHead s ∧ linked_end start before = oldHead s) →
  loop_ok start (launch s).
Proof.
  intros Hl Hi Hb. unfold launch. destruct (negb (bool_decide (newHead s = oldHead s)) || resetForced s) eqn:Hwant.
  - destruct (running s) as [r|] eqn:Hr; [split; [done|congruence|by rewrite Hr]|]. destruct (Hi eq_refl) as [Ho _]. split; cbn.
    + rewrite Ho. by apply linked_snoc.
    + done.
    + intros r [= <-]. by exists (resets s).
  - apply orb_false_iff in Hwant as [Hh Hf]. apply negb_false_iff, bool_decide_eq_true in Hh. split; [done| |done].
    intros Hr. destruct (Hi Hr) as [Ho Hw]. auto.
Qed.

Lemma loop_step_ok start s e s' : terminated s' = false → loop_ok start s → loop_step s e = Some s' → loop_ok start s'.
Proof.
  intros Ht [Hl Hi Hb]. unfold loop_step. destruct (terminated s); [done|]. intros (s1 & Hs1 & [= <-])%bind_Some.
  destruct e as [h| |w|]; cbn in Hs1.
  - injection Hs1 as <-. cbn in *. apply launch_ok; cbn; [done| |done]. intros Hr. destruct (Hi Hr) as (? & ? & ? & ?). done.
  - destruct (running s) as [[o n]|] eqn:Hr; [|done]. destruct (Hb _ eq_refl) as (before & Hres & Ho & He).
    assert (Hend : n = linked_end start (resets s)) by (by rewrite Hres, linked_end_snoc).
    destruct (resetWaiter s) as [w|] eqn:Hw; [destruct (resetForced s) eqn:Hf|]; cbn in Hs1; injection Hs1 as <-; cbn; apply launch_ok; cbn; try done; by rewrite ?Hf.
  - injection Hs1 as <-. cbn in *. apply launch_ok; cbn; [done| |done]. intros Hr. by destruct (Hi Hr) as (? & ? & ? & ?).
  - injection Hs1 as <-. done.
Qed.

Lemma loop_run_ok start s es s' : terminated s' = false → loop_ok start s → loop_run s es = Some s' → loop_ok start s'.
Proof.
  intros Ht. revert s. induction es as [|e es IH]; intros s Hs; cbn; [by intros [= <-]|]. intros (s1 & Hs1 & Hrun)%bind_Some.
  apply (IH s1); [|done]. eapply loop_step_ok; [|done|done]. destruct (terminated s1) eqn:H1'; [|done].
  destruct es as [|e' es]; cbn in Hrun; [congruence|]. unfold loop_step in Hrun. by rewrite H1' in Hrun.
Qed.

(** *** Who is answered

    The loop holds one waiter; a later [Sync] takes its place (txpool.go:276). *)

Definition asked (es : list (loop_event)) : list nat := omap (λ e, match e with SyncRequest w => Some w | _ => None end) es.

(** The loop holds [w] after the events. *)
Definition holds (start : Head) (es : list loop_event) (w : nat) : Prop :=
  ∃ s, loop_run (loop_start start) es = Some s ∧ resetWaiter s = Some w.

(** A request came while the loop held [w]. *)
Definition replaced (start : Head) (es : list loop_event) (w : nat) : Prop :=
  ∃ es1 w' es2, es = es1 ++ SyncRequest w' :: es2 ∧ holds start es1 w.

(** Each caller was answered, is held, or was replaced, and only one of the three. *)
Record accounted (start : Head) (es : list loop_event) (s : loop_state) : Prop := {
  ac_all w : w ∈ asked es ↔ w ∈ (woken s).*1 ∨ resetWaiter s = Some w ∨ replaced start es w;
  ac_held w : resetWaiter s = Some w → w ∉ (woken s).*1;
  ac_replaced w : replaced start es w → resetWaiter s ≠ Some w ∧ w ∉ (woken s).*1;
  ac_fine w b : (w, b) ∈ woken s → b = false → terminated s = true
}.

Lemma loop_run_app s es1 es2 : loop_run s (es1 ++ es2) = s1 ← loop_run s es1; loop_run s1 es2.
Proof. revert s. induction es1 as [|e es1 IH]; intros s; cbn; [done|]. destruct (loop_step s e); cbn; [apply IH|done]. Qed.

Lemma replaced_snoc start es e w :
  replaced start (es ++ [e]) w ↔ replaced start es w ∨ ((∃ w', e = SyncRequest w') ∧ holds start es w).
Proof.
  split.
  - intros (es1 & w' & es2 & He & Hh). destruct es2 as [|e' es3 _] using rev_ind.
    + apply app_inj_tail in He as [-> ->]. right. split; [by exists w'|done].
    + rewrite app_comm_cons, app_assoc in He. apply app_inj_tail in He as [-> ->]. left. by exists es1, w', es3.
  - intros [(es1 & w' & es2 & -> & Hh)|[[w' ->] Hh]]; [exists es1, w', (es2 ++ [e])|by exists es, w', []]. by rewrite <- app_assoc.
Qed.

Lemma launch_waits s : resetWaiter (launch s) = resetWaiter s ∧ woken (launch s) = woken s ∧ terminated (launch s) = terminated s.
Proof. unfold launch. by destruct (_ || _), (running s). Qed.

(** What a round does to the waiter and to those notified. *)
Lemma loop_step_waits s e s' :
  loop_step s e = Some s' →
  match e with
  | HeadEvent _ => resetWaiter s' = resetWaiter s ∧ woken s' = woken s ∧ terminated s' = false
  | SyncRequest w => resetWaiter s' = Some w ∧ woken s' = woken s ∧ terminated s' = false
  | ResetDone => terminated s' = false ∧
      ((resetWaiter s' = resetWaiter s ∧ woken s' = woken s) ∨
       ∃ w, resetWaiter s = Some w ∧ resetWaiter s' = None ∧ woken s' = woken s ++ [(w, true)])
  | Quit => terminated s' = true ∧ resetWaiter s' = None ∧
      woken s' = woken s ++ match resetWaiter s with Some w => [(w, false)] | None => [] end
  end.
Proof.
  unfold loop_step. destruct (terminated s); [done|]. intros (s1 & Hs1 & [= <-])%bind_Some. pose proof (launch_waits s1) as (Hw & Hk & Ht).
  destruct e as [h| |w|]; cbn in Hs1.
  - injection Hs1 as <-. cbn in *. by rewrite Hw, Hk, Ht.
  - destruct (running s) as [[o n]|]; [|done]. destruct (resetWaiter s) as [w|] eqn:Hw1; [destruct (resetForced s)|]; cbn in Hs1; injection Hs1 as <-; cbn in *; rewrite Hw, Hk, Ht; (split; [done|]); [by left|right; by exists w|by left].
  - injection Hs1 as <-. cbn in *. by rewrite Hw, Hk, Ht.
  - by injection Hs1 as <-.
Qed.

Lemma asked_app es1 es2 : asked (es1 ++ es2) = asked es1 ++ asked es2.
Proof. apply omap_app. Qed.

Lemma asked_snoc es e : asked (es ++ [e]) = asked es ++ match e with SyncRequest w => [w] | _ => [] end.
Proof. rewrite asked_app. f_equal. by destruct e. Qed.

Lemma accounted_snoc start es s e s' :
  loop_run (loop_start start) es = Some s → loop_step s e = Some s' → NoDup (asked (es ++ [e])) →
  accounted start es s → accounted start (es ++ [e]) s'.
Proof.
  intros Hrun Hstep Hnd [Hall Hheld Hrep Hfine]. pose proof (loop_step_waits s e s' Hstep) as Hw.
  assert (Ht : terminated s = false) by (unfold loop_step in Hstep; by destruct (terminated s)).
  assert (Hholds : ∀ w, holds start es w ↔ resetWaiter s = Some w).
  { intros w. split; [|by exists s]. intros (s0 & H0' & H1'). congruence. }
  assert (Hsnoc : ∀ w v b (l : list (nat * bool)), w ∈ (l ++ [(v, b)]).*1 ↔ w ∈ l.*1 ∨ w = v) by (intros w v b l; rewrite fmap_app, elem_of_app; apply or_iff_compat_l, list_elem_of_singleton).
  rewrite asked_snoc in Hnd. destruct e as [h| |w|].
  - destruct Hw as (Hw1 & Hw2 & Ht'). rewrite app_nil_r in Hnd. split; rewrite ?Hw1, ?Hw2; intros w; try (rewrite replaced_snoc; setoid_rewrite Hholds); rewrite ?asked_snoc, ?app_nil_r.
    + rewrite Hall. naive_solver.
    + apply Hheld.
    + intros [Hr|[[? [=]] _]]. by apply Hrep.
    + intros b Hb Hf. specialize (Hfine w b Hb Hf). congruence.
  - destruct Hw as (Ht' & [[Hw1 Hw2]|(v & Hv & Hw1 & Hw2)]); split; rewrite ?Hw1, ?Hw2; intros w; try (rewrite replaced_snoc; setoid_rewrite Hholds); rewrite ?asked_snoc, ?app_nil_r.
    + rewrite Hall. naive_solver.
    + apply Hheld.
    + intros [Hr|[[? [=]] _]]. by apply Hrep.
    + intros b Hb Hf. specialize (Hfine w b Hb Hf). congruence.
    + rewrite Hall, Hsnoc, Hv. naive_solver.
    + done.
    + intros [Hr|[[? [=]] _]]. destruct (Hrep w Hr) as [Hne Hnw]. split; [done|]. rewrite Hsnoc. naive_solver congruence.
    + intros b [Hb|[= -> ->]%list_elem_of_singleton]%elem_of_app Hf; [|done]. specialize (Hfine w b Hb Hf). congruence.
  - destruct Hw as (Hw1 & Hw2 & Ht'). apply NoDup_app in Hnd as (_ & Hnew & _).
    assert (Hfresh : w ∉ asked es) by (intros Hin; apply (Hnew w Hin); by left). clear Hnew.
    split; rewrite ?Hw1, ?Hw2; intros v; try (rewrite replaced_snoc; setoid_rewrite Hholds); rewrite ?asked_snoc.
    + rewrite elem_of_app, list_elem_of_singleton, Hall. naive_solver.
    + intros [= <-] Hin. apply Hfresh, Hall. by left.
    + intros [Hr|[_ Hr]]; (split; [intros [= <-]; apply Hfresh, Hall; by eauto|]); [by apply Hrep|by apply Hheld].
    + intros b Hb Hf. specialize (Hfine v b Hb Hf). congruence.
  - destruct Hw as (Ht' & Hw1 & Hw2). split; rewrite ?Hw1, ?Hw2; intros w; try (rewrite replaced_snoc; setoid_rewrite Hholds); rewrite ?asked_snoc, ?app_nil_r.
    + rewrite Hall. destruct (resetWaiter s); rewrite ?app_nil_r, ?Hsnoc; naive_solver.
    + done.
    + intros [Hr|[[? [=]] _]]. destruct (Hrep w Hr) as [Hne Hnw]. split; [done|].
      destruct (resetWaiter s); rewrite ?app_nil_r, ?Hsnoc; naive_solver congruence.
    + done.
Qed.

Lemma loop_accounted start es s : loop_run (loop_start start) es = Some s → NoDup (asked es) → accounted start es s.
Proof.
  revert s. induction es as [|e es IH] using rev_ind; intros s Hrun Hnd.
  - injection Hrun as <-. assert (Hno : ∀ w, ¬ replaced start [] w) by (by intros w ([|] & ? & ? & ? & _)).
    split; cbn; [|done|by intros w Hw; destruct (Hno w)|intros w b Hin; by apply elem_of_nil in Hin]. intros w. rewrite !elem_of_nil. specialize (Hno w). naive_solver.
  - rewrite loop_run_app in Hrun. apply bind_Some in Hrun as (s1 & Hrun & Hstep). cbn in Hstep. apply bind_Some in Hstep as (s2 & Hstep & [= ->]).
    eapply accounted_snoc; try done. apply IH; [done|]. rewrite asked_snoc in Hnd. apply NoDup_app in Hnd as [Hnd _]. exact Hnd.
Qed.

(** C29: the pool follows the head of the chain, and of those who call [Sync] only one
    is remembered.  Whatever the order of new heads, finished resets and requests, the
    resets that were started link up, each from the head of the one before, beginning
    with the first head; at most one runs, the last; and when none runs the pool is at
    the newest head and the loop holds no request.  Every caller of [Sync] has been
    answered, or is the one that the loop holds, or was replaced by a later caller
    while the loop held him, and only one of the three: whom a later caller replaced
    has no answer. *)
Theorem loop_follows start es s :
  loop_run (loop_start start) es = Some s → terminated s = false → NoDup (asked es) → loop_ok start s ∧ accounted start es s.
Proof. intros Hrun Ht Hnd. split; [|by apply loop_accounted]. eapply loop_run_ok; [done| |done]. split; [done|done|done]. Qed.

(** What the end of a reset leads to. *)
Lemma reset_done old new n f waiter m wok :
  loop_step (MkLoop old new (Some (old, n)) f waiter false m wok) ResetDone =
  Some (let again := negb (bool_decide (new = n)) || f in
        MkLoop n new (if again then Some (n, new) else None) false (if f then waiter else None) false
          (if again then m ++ [(n, new)] else m) (wok ++ match waiter with Some w => if f then [] else [(w, true)] | None => [] end)).
Proof.
  unfold loop_step. cbn [terminated loop_select running resetWaiter resetForced newHead woken resets oldHead].
  destruct waiter as [w|], f; cbn; unfold launch; cbn; destruct (bool_decide (new = n)); cbn; by rewrite ?app_nil_r.
Qed.

Lemma loop_rests start es s :
  loop_run (loop_start start) es = Some s → terminated s = false →
  ∃ k s', (k <= 2)%nat ∧ loop_run s (repeat ResetDone k) = Some s' ∧ running s' = None ∧ oldHead s' = newHead s ∧ newHead s' = newHead s ∧
    terminated s' = false ∧ resetWaiter s' = None.
Proof.
  intros Hrun Ht. assert (Hok : loop_ok start s) by (eapply loop_run_ok; [done| |done]; split; done). destruct Hok as [_ Hi Hb].
  destruct s as [old new run forced waiter term res wok]. cbn in *. subst term. destruct run as [[o n]|].
  2: { destruct (Hi eq_refl) as (_ & -> & -> & ->). exists 0%nat. eexists. split; [lia|]. cbn. done. }
  destruct (Hb _ eq_refl) as (_ & _ & Ho & _). cbn in Ho. subst o.
  pose proof (reset_done old new n forced waiter res wok) as Hone.
  destruct (negb (bool_decide (new = n)) || forced) eqn:Hagain; cbv zeta iota in Hone.
  - exists 2%nat. eexists. split; [lia|]. cbn [repeat loop_run]. rewrite Hone. cbn [mbind option_bind]. rewrite reset_done.
    cbn [mbind option_bind loop_run]. split; [done|]. by rewrite bool_decide_true by done.
  - apply orb_false_iff in Hagain as [Hn%negb_false_iff%bool_decide_eq_true ->]. exists 1%nat. eexists. split; [lia|].
    cbn [repeat loop_run]. rewrite Hone. cbn [mbind option_bind]. by split.
Qed.

Lemma asked_dones es k : asked (es ++ repeat ResetDone k) = asked es.
Proof. rewrite asked_app. induction k as [|k IH]; cbn; [apply app_nil_r|done]. Qed.

Lemma replaced_dones start es k w : replaced start (es ++ repeat ResetDone k) w ↔ replaced start es w.
Proof.
  induction k as [|k IH]; [cbn; by rewrite app_nil_r|].
  replace (S k) with (k + 1)%nat by lia. rewrite repeat_app, app_assoc. cbn [repeat]. rewrite replaced_snoc, IH. split; [|by left].
  by intros [?|[[? [=]] _]].
Qed.

(** C28: the pool catches up.  When heads and requests stop coming, at most two more
    resets have to finish until the loop is idle at the newest head.  By then a caller
    of [Sync] has been notified, without an error, exactly if no later caller took his
    place while the loop held him; the last caller always is. *)
Theorem loop_settles start es s :
  loop_run (loop_start start) es = Some s → terminated s = false → NoDup (asked es) →
  ∃ k s', (k <= 2)%nat ∧ loop_run s (repeat ResetDone k) = Some s' ∧ running s' = None ∧ oldHead s' = newHead s ∧ newHead s' = newHead s ∧
    (∀ w, w ∈ asked es → (w, true) ∈ woken s' ↔ ¬ replaced start es w) ∧
    (∀ w, last (asked es) = Some w → (w, true) ∈ woken s').
Proof.
  intros Hrun Ht Hnd. destruct (loop_rests start es s Hrun Ht) as (k & s' & Hk & Hrun' & Hr & Ho & Hn & Ht' & Hw).
  assert (Hall : accounted start (es ++ repeat ResetDone k) s').
  { apply loop_accounted; [by rewrite loop_run_app, Hrun|by rewrite asked_dones]. }
  assert (Hiff : ∀ w, w ∈ asked es → (w, true) ∈ woken s' ↔ ¬ replaced start es w).
  { intros w Hin. rewrite <- (replaced_dones start es k). destruct Hall as [Hall Hheld Hrep Hfine]. rewrite Hw in *. split.
    - intros Hwk Hre. apply (Hrep w Hre). by apply (list_elem_of_fmap_2 fst) in Hwk.
    - intros Hre. rewrite <- (asked_dones es k) in Hin. apply Hall in Hin as [[[v b] [-> Hb]]%list_elem_of_fmap|[?|?]]; [|done..].
      destruct b; [done|]. specialize (Hfine v false Hb eq_refl). congruence. }
  exists k, s'. split_and!; try done. intros w Hlast. apply Hiff; [by apply last_Some_elem_of|].
  intros (es1 & w' & es2 & -> & Hh). rewrite asked_app in Hnd, Hlast. apply NoDup_app in Hnd as (Hnd1 & Hd & _).
  change (asked (SyncRequest w' :: es2)) with (w' :: asked es2) in Hd, Hlast. rewrite last_app_cons in Hlast.
  apply (Hd w); [|by apply last_Some_elem_of]. destruct Hh as (s1 & Hs1 & Hw1). apply (ac_all _ _ _ (loop_accounted start es1 s1 Hs1 Hnd1)). by right; left.
Qed.
End Loop.
Arguments loop_state : clear implicits.
Arguments loop_event : clear implicits.

(** ** Concrete runs of the loop *)

(** Two heads come while the reset to the first runs, and two callers want to wait. *)
Definition ex_events : list (loop_event nat) := [HeadEvent 1%nat; SyncRequest 5%nat; HeadEvent 2%nat; SyncRequest 6%nat; HeadEvent 3%nat].

Definition ex_loop : loop_state nat := MkLoop 0%nat 3%nat (Some (0, 1)%nat) true (Some 6%nat) false [(0, 1)%nat] [].

Lemma loop_follows_witness : loop_run (loop_start 0%nat) ex_events = Some ex_loop ∧ loop_ok 0%nat ex_loop ∧ accounted 0%nat ex_events ex_loop.
Proof.
  assert (Hrun : loop_run (loop_start 0%nat) ex_events = Some ex_loop) by (vm_compute; reflexivity).
  split; [exact Hrun|]. refine (loop_follows 0%nat ex_events ex_loop Hrun eq_refl _). vm_compute. apply NoDup_cons; split; [intros Hin; inversion Hin; subst; inversion H1|apply NoDup_singleton].
Defined.

(** Two callers: the second takes the place of the first, who is never answered. *)
Lemma loop_settles_witness :
  loop_run (loop_start 0%nat) ex_events = Some ex_loop ∧ asked ex_events = [5; 6]%nat ∧
  ∃ k s', (k <= 2)%nat ∧ loop_run ex_loop (repeat ResetDone k) = Some s' ∧ running s' = None ∧ oldHead s' = 3%nat ∧ newHead s' = 3%nat ∧
    (6%nat, true) ∈ woken s' ∧ ¬ (5%nat, true) ∈ woken s'.
Proof.
  assert (Hrun : loop_run (loop_start 0%nat) ex_events = Some ex_loop) by (vm_compute; reflexivity).
  split; [exact Hrun|]. split; [vm_compute; reflexivity|].
  destruct (loop_settles 0%nat ex_events ex_loop Hrun eq_refl) as (k & s' & Hk & Hr & Hi & Ho & Hn & Hiff & Hlast).
  { vm_compute. apply NoDup_cons; split; [intros Hin; inversion Hin; subst; inversion H1|apply NoDup_singleton]. }
  exists k, s'. split; [exact Hk|]. split; [exact Hr|]. split; [exact Hi|]. split; [exact Ho|]. split; [exact Hn|]. split; [apply Hlast; reflexivity|].
  intros Hw. apply Hiff in Hw; [|vm_compute; left]. apply Hw. exists [HeadEvent 1%nat; SyncRequest 5%nat; HeadEvent 2%nat], 6%nat, [HeadEvent 3%nat].
  split; [reflexivity|]. eexists. split; vm_compute; reflexivity.
Defined.
