(* ===== verification/LegacyPool.v ===== *)
(** * The legacy pool

    parallelizable-client-go-ethereum/core/txpool/legacypool/legacypool.go: the pool
    of the plain transactions, above its lists (SortedMap.v, LegacyList.v) and its
    prices (LegacyPriced.v).  A method that holds the pool's lock is a step on the
    record [LegacyPool]; a Go error is an error of the step and keeps the state, as
    the code does, and [PoolPanic] is a panic.  The reservations are those of the
    coordinator (TxPool.v).  What the loop that schedules the reorganisations keeps
    for itself is the record [Schedule]. *)

From S2P Require Import Prelude StateError GoSort GoHeap TxTypes Signers ChainConfig BlockFees StateInterface.
From S2P Require Import SortedMap LegacyList LegacyPriced TxValidation TxPool.
Import Config.
Open Scope eigen_scope.
Open Scope step_scope.

Definition txMaxSize : Z := 4 * txSlotSize.

(** ** What the pool is given *)

(** [GetCodeHash], and the hash of no code. *)
Class CodeHashes (St : Type) : Type := {
  GetCodeHash : St → Address → Hash;
  EmptyCodeHash : Hash
}.

(** [header.Hash()] *)
Class HeaderHash : Type := header_Hash : Header.Header → Hash.

(** [time.Now()]: the readings of the clock, in nanoseconds of the Unix epoch. *)
Class Clock : Type := clock : nat → Z.

Record Block : Type := MkBlock {
  block_Hash : Hash;
  block_ParentHash : Hash;
  NumberU64 : Z;
  Transactions : list Transaction
}.

Record BlockChain (St : Type) : Type := MkChain {
  CurrentBlock : Header.Header;
  GetBlock : Hash → Z → option Block;
  StateAt : Hash → option St
}.
Arguments MkChain {St}. Arguments CurrentBlock {St}. Arguments GetBlock {St}. Arguments StateAt {St}.

Record Config : Type := MkConfig {
  PriceLimit : Z;
  PriceBump : Z;
  AccountSlots : Z;
  GlobalSlots : Z;
  AccountQueue : Z;
  GlobalQueue : Z;
  Lifetime : Z
}.

Definition DefaultConfig : Config := MkConfig 1 10 16 (4096 + 1024) 64 1024 (3 * 3600 * 1000000000).

Definition at_least_1 (x def : Z) : Z := if x <? 1 then def else x.

Definition sanitize (c : Config) : Config :=
  MkConfig (at_least_1 (PriceLimit c) (PriceLimit DefaultConfig)) (at_least_1 (PriceBump c) (PriceBump DefaultConfig))
    (at_least_1 (AccountSlots c) (AccountSlots DefaultConfig)) (at_least_1 (GlobalSlots c) (GlobalSlots DefaultConfig))
    (at_least_1 (AccountQueue c) (AccountQueue DefaultConfig)) (at_least_1 (GlobalQueue c) (GlobalQueue DefaultConfig))
    (at_least_1 (Lifetime c) (Lifetime DefaultConfig)).

(** [types.LatestSigner] of the configuration. *)
Definition latest_signer (c : ChainConfig) : Signer :=
  LatestSigner (MkForks (cc_ChainID c) (ChainConfig.PragueTime c) (ChainConfig.CancunTime c) (ChainConfig.LondonBlock c)
    (ChainConfig.BerlinBlock c) (ChainConfig.EIP155Block c)).

(** ** State *)

(** [accountSet]: the accounts; the signer is the pool's. *)
Abbreviation accountSet := (gmap Address ()) (only parsing).

(** The locals of [scheduleReorgLoop]: the pending request to reset, the accounts to
    promote, the events to send, and whether to launch a run.  A request to reset is
    the old and the new head. *)
Record Schedule : Type := MkSchedule {
  rq_reset : option (option Header.Header * option Header.Header);
  rq_dirty : option accountSet;
  rq_events : gmap Address SortedMap;
  rq_launch : bool
}.

(** [self]: the place of the pool in the coordinator; [clock_reads]: how often the
    clock was read; [feed]: the events that were sent. *)
Record LegacyPool (St : Type) : Type := MkLegacy {
  config : Config;
  chainconfig : ChainConfig;
  self : nat;
  gasTip : Z;
  currentHead : Header.Header;
  currentState : St;
  pendingNonces : noncer;
  reserved : Reservations;
  pending : gmap Address list_;
  queue : gmap Address list_;
  beats : gmap Address Z;
  all : lookup_;
  priced : pricedList;
  changesSinceReorg : Z;
  schedule : Schedule;
  clock_reads : nat;
  feed : list (list Transaction)
}.
Arguments MkLegacy {St}. Arguments config {St}. Arguments chainconfig {St}. Arguments self {St}. Arguments gasTip {St}.
Arguments currentHead {St}. Arguments currentState {St}. Arguments pendingNonces {St}. Arguments reserved {St}.
Arguments pending {St}. Arguments queue {St}. Arguments beats {St}. Arguments all {St}. Arguments priced {St}.
Arguments changesSinceReorg {St}. Arguments schedule {St}. Arguments clock_reads {St}. Arguments feed {St}.

Section Setters.
Context {St : Type}.
Implicit Types p : LegacyPool St.

Definition set_gasTip x p := MkLegacy (config p) (chainconfig p) (self p) x (currentHead p) (currentState p)
  (pendingNonces p) (reserved p) (pending p) (queue p) (beats p) (all p) (priced p) (changesSinceReorg p) (schedule p) (clock_reads p) (feed p).
Definition set_head h (st : St) n p := MkLegacy (config p) (chainconfig p) (self p) (gasTip p) h st
  n (reserved p) (pending p) (queue p) (beats p) (all p) (priced p) (changesSinceReorg p) (schedule p) (clock_reads p) (feed p).
Definition set_nonces x p := set_head (currentHead p) (currentState p) x p.
Definition set_reserved x p := MkLegacy (config p) (chainconfig p) (self p) (gasTip p) (currentHead p) (currentState p)
  (pendingNonces p) x (pending p) (queue p) (beats p) (all p) (priced p) (changesSinceReorg p) (schedule p) (clock_reads p) (feed p).
Definition set_pending x p := MkLegacy (config p) (chainconfig p) (self p) (gasTip p) (currentHead p) (currentState p)
  (pendingNonces p) (reserved p) x (queue p) (beats p) (all p) (priced p) (changesSinceReorg p) (schedule p) (clock_reads p) (feed p).
Definition set_queue x p := MkLegacy (config p) (chainconfig p) (self p) (gasTip p) (currentHead p) (currentState p)
  (pendingNonces p) (reserved p) (pending p) x (beats p) (all p) (priced p) (changesSinceReorg p) (schedule p) (clock_reads p) (feed p).
Definition set_beats x n p := MkLegacy (config p) (chainconfig p) (self p) (gasTip p) (currentHead p) (currentState p)
  (pendingNonces p) (reserved p) (pending p) (queue p) x (all p) (priced p) (changesSinceReorg p) (schedule p) n (feed p).
Definition set_all x y p := MkLegacy (config p) (chainconfig p) (self p) (gasTip p) (currentHead p) (currentState p)
  (pendingNonces p) (reserved p) (pending p) (queue p) (beats p) x y (changesSinceReorg p) (schedule p) (clock_reads p) (feed p).
Definition set_changes x p := MkLegacy (config p) (chainconfig p) (self p) (gasTip p) (currentHead p) (currentState p)
  (pendingNonces p) (reserved p) (pending p) (queue p) (beats p) (all p) (priced p) x (schedule p) (clock_reads p) (feed p).
Definition set_schedule x p := MkLegacy (config p) (chainconfig p) (self p) (gasTip p) (currentHead p) (currentState p)
  (pendingNonces p) (reserved p) (pending p) (queue p) (beats p) (all p) (priced p) (changesSinceReorg p) x (clock_reads p) (feed p).
Definition send_feed x p := MkLegacy (config p) (chainconfig p) (self p) (gasTip p) (currentHead p) (currentState p)
  (pendingNonces p) (reserved p) (pending p) (queue p) (beats p) (all p) (priced p) (changesSinceReorg p) (schedule p) (clock_reads p) (feed p ++ [x]).
End Setters.

(** ** Steps *)

Section Steps.
Context {S A : Type}.

(** A call whose error is dropped; a panic is not an error. *)
Definition try_ (m : SE S txpool_error A) : SE S txpool_error (result txpool_error A) := λ s,
  match m s with
  | (Err PoolPanic, s) => (Err PoolPanic, s)
  | (r, s) => (Ok r, s)
  end.

Definition ignore (m : SE S txpool_error A) : SE S txpool_error () := do! try_ m; ret tt.

Definition panics (o : option A) : SE S txpool_error A := of_option PoolPanic o.

(** [for _, x := range l]. *)
Fixpoint each (f : A → SE S txpool_error ()) (l : list A) : SE S txpool_error () :=
  match l with
  | [] => ret tt
  | x :: l => do! f x; each f l
  end.

Definition when (b : bool) (m : SE S txpool_error ()) : SE S txpool_error () := if b then m else ret tt.
End Steps.

Definition has {A} (o : option A) : bool := match o with Some _ => true | None => false end.

Section LegacyPool.
Context {St : Type} `{AccountState St, CodeHashes St, Sending, BlobProofs, Authorities, HeaderHash, Clock, MapRange, Sorter}.
Abbreviation Pool := (LegacyPool St).
Abbreviation L A := (SE Pool txpool_error A).

Definition signer (p : Pool) : Signer := latest_signer (chainconfig p).

(** [from, _ := types.Sender(pool.signer, tx)] *)
Definition sender (p : Pool) (tx : Transaction) : Address :=
  match types_Sender (signer p) tx with Ok a => a | Err _ => 0 end.

Definition all_Remove (hash : Hash) : L () := modify (λ p, set_all (Lookup.Remove (all p) hash) (priced p) p).
Definition all_Add (tx : Transaction) : L () := modify (λ p, set_all (Lookup.Add (all p) tx) (priced p) p).
Definition priced_Put (tx : Transaction) : L () := modify (λ p, set_all (all p) (Priced.Put (priced p) tx) p).
Definition priced_Removed (count : Z) : L () :=
  do p <- get id;
  do l <- panics (Priced.Removed (all p) (priced p) count);
  modify (set_all (all p) l).

(** The lists of an account, written back after a method has changed them. *)
Definition put_pending (addr : Address) (l : list_) : L () := modify (λ p, set_pending (<[addr := l]> (pending p)) p).
Definition put_queue (addr : Address) (l : list_) : L () := modify (λ p, set_queue (<[addr := l]> (queue p)) p).
Definition delete_pending (addr : Address) : L () := modify (λ p, set_pending (delete addr (pending p)) p).
Definition delete_queue (addr : Address) : L () :=
  modify (λ p, set_beats (delete addr (beats p)) (clock_reads p) (set_queue (delete addr (queue p)) p)).

(** [pool.beats[addr] = time.Now()] *)
Definition beat (addr : Address) : L () :=
  modify (λ p, set_beats (<[addr := clock (clock_reads p)]> (beats p)) (S (clock_reads p)) p).

Definition nonce_get (addr : Address) : L Z := λ p,
  let '(n, txn) := Noncer.get (pendingNonces p) addr in (Ok n, set_nonces txn p).
Definition nonce_set (addr : Address) (nonce : Z) : L () := modify (λ p, set_nonces (Noncer.set (pendingNonces p) addr nonce) p).
Definition nonce_setIfLower (addr : Address) (nonce : Z) : L () :=
  modify (λ p, set_nonces (Noncer.setIfLower (pendingNonces p) addr nonce) p).

Definition reserve (addr : Address) (b : bool) : L () := λ p,
  let '(r, res) := reserver (self p) (reserved p) addr b in (r, set_reserved res p).

(** Release an account without transactions. *)
Definition release (addr : Address) : L () :=
  do p <- get id;
  when (negb (has (pending p !! addr)) && negb (has (queue p !! addr))) (ignore (reserve addr false)).

(** [queueTxEvent], with what the loop does with the transaction. *)
Definition queueTxEvent (tx : Transaction) : L () := modify (λ p,
  let s := schedule p in
  let addr := sender p tx in
  let m := default NewSortedMap (rq_events s !! addr) in
  set_schedule (MkSchedule (rq_reset s) (rq_dirty s) (<[addr := SortedMap.Put m tx]> (rq_events s)) (rq_launch s)) p).

(** ** Validation *)

(** [1<<LegacyTxType | 1<<AccessListTxType | 1<<DynamicFeeTxType | 1<<SetCodeTxType] *)
Definition accepted_types : Z :=
  Z.lor (Z.lor (Z.lor (Z.shiftl 1 LegacyTxType) (Z.shiftl 1 AccessListTxType)) (Z.shiftl 1 DynamicFeeTxType)) (Z.shiftl 1 SetCodeTxType).

Definition validateTxBasics (p : Pool) (tx : Transaction) : result txpool_error () :=
  ValidateTransaction tx (currentHead p) (signer p) (MkValidationOptions (chainconfig p) accepted_types txMaxSize (gasTip p)).

Definition contains (o : option list_) (nonce : Z) : bool :=
  match o with Some l => LegacyList.Contains l nonce | None => false end.

Definition length_of (o : option list_) : Z := match o with Some l => LegacyList.Len l | None => 0 end.

Definition validateAuth (p : Pool) (tx : Transaction) : result txpool_error () :=
  let from := sender p tx in
  let delegated := negb (GetCodeHash (currentState p) from =? EmptyCodeHash)
    || negb (len (default [] (auths (all p) !! from)) =? 0) in
  let count := length_of (pending p !! from) + length_of (queue p !! from) in
  let exists_ := contains (pending p !! from) (Tx.Nonce tx) || contains (queue p !! from) (Tx.Nonce tx) in
  refuse (delegated && (count >=? 1) && negb exists_) ErrInflightTxLimitReached (
  refuse (existsb (λ auth, has (pending p !! auth) || has (queue p !! auth)) (SetCodeAuthorities tx)) ErrAuthorityReserved (Ok tt)).

Definition validateTx (p : Pool) (tx : Transaction) : result txpool_error () :=
  let opts := {|
    vo_State := currentState p;
    FirstNonceGap := None;
    UsedAndLeftSlots := None;
    ExistingExpenditure addr := match pending p !! addr with Some l => totalcost l | None => 0 end;
    ExistingCost addr nonce := l ← pending p !! addr; tx ← SortedMap.Get (txs l) nonce; Some (Tx.Cost tx)
  |} in
  let* _ := ValidateTransactionWithState tx (signer p) opts in
  validateAuth p tx.

(** ** Queueing, promoting, removing *)

(** [pool.all.Remove(old.Hash())] and [pool.priced.Removed(1)]. *)
Definition replace_old (old : option Transaction) : L () :=
  match old with
  | Some old => do! all_Remove (Tx.Hash_ old); priced_Removed 1
  | None => ret tt
  end.

Definition enqueueTx (hash : Hash) (tx : Transaction) (addAll : bool) : L bool :=
  do p <- get id;
  let from := sender p tx in
  let l := default (newList false) (queue p !! from) in
  do! put_queue from l;
  do (inserted, old, l) <- panics (LegacyList.Add l tx (PriceBump (config p)));
  do! put_queue from l;
  if negb inserted then fail ErrReplaceUnderpriced
  else
    do! replace_old old;
    do! when addAll (do! all_Add tx; priced_Put tx);
    do known <- get (λ p, has (beats p !! from));
    do! when (negb known) (beat from);
    ret (has old).

Definition promoteTx (addr : Address) (hash : Hash) (tx : Transaction) : L bool :=
  do p <- get id;
  let l := default (newList true) (pending p !! addr) in
  do! put_pending addr l;
  do (inserted, old, l) <- panics (LegacyList.Add l tx (PriceBump (config p)));
  do! put_pending addr l;
  if negb inserted then
    do! all_Remove hash;
    do! priced_Removed 1;
    ret false
  else
    do! replace_old old;
    do! nonce_set addr (wrap64 (Tx.Nonce tx + 1));
    do! beat addr;
    ret true.

(** The transaction and those after it leave the pending list; the latter are
    queued.  [None]: the list does not have it. *)
Definition remove_pending (addr : Address) (tx : Transaction) : L (option Z) :=
  do p <- get id;
  match pending p !! addr with
  | None => ret None
  | Some l =>
      do (removed, invalids, l) <- panics (LegacyList.Remove l tx);
      do! put_pending addr l;
      if negb removed then ret None
      else
        do! when (LegacyList.Empty l) (delete_pending addr);
        do! each (λ tx, ignore (enqueueTx (Tx.Hash_ tx) tx false)) invalids;
        do! nonce_setIfLower addr (Tx.Nonce tx);
        ret (Some (1 + len invalids))
  end.

Definition remove_queued (addr : Address) (tx : Transaction) : L () :=
  do p <- get id;
  match queue p !! addr with
  | None => ret tt
  | Some l =>
      do (_, _, l) <- panics (LegacyList.Remove l tx);
      do! put_queue addr l;
      when (LegacyList.Empty l) (delete_queue addr)
  end.

(** The number of transactions that left the pending list. *)
Definition removeTx (hash : Hash) (outofbound unreserve : bool) : L Z :=
  do p <- get id;
  match Lookup.Get (all p) hash with
  | None => ret 0
  | Some tx =>
      let addr := sender p tx in
      do! all_Remove hash;
      do! when outofbound (priced_Removed 1);
      do r <- remove_pending addr tx;
      do n <- match r with
              | Some n => ret n
              | None => do! remove_queued addr tx; ret 0
              end;
      do! when unreserve (release addr);
      ret n
  end.

(** ** Adding *)

(** The loop of [isGapped]; each turn finds another transaction of the queue. *)
Fixpoint gap_loop (fuel : nat) (l : list_) (nonce last : Z) : bool :=
  match fuel with
  | O => false
  | S fuel =>
      if nonce <? last then
        if LegacyList.Contains l nonce then gap_loop fuel l (wrap64 (nonce + 1)) last else true
      else false
  end.

Definition isGapped (from : Address) (tx : Transaction) : L bool :=
  do next <- nonce_get from;
  if Tx.Nonce tx <=? next then ret false
  else
    do q <- get (λ p, queue p !! from);
    match q with
    | None => ret true
    | Some l => ret (gap_loop (S (Z.to_nat (LegacyList.Len l))) l next (Tx.Nonce tx))
    end.

(** Whether a dropped transaction has the nonce of a pending one of its sender. *)
Definition drops_pending (p : Pool) (drop : list Transaction) : bool :=
  existsb (λ tx, contains (pending p !! sender p tx) (Tx.Nonce tx)) drop.

Definition kick_out (from : Address) (tx : Transaction) : L () :=
  do s <- get (λ p, sender p tx);
  do dropped <- removeTx (Tx.Hash_ tx) false (negb (s =? from));
  modify (λ p, set_changes (changesSinceReorg p + dropped) p).

Definition global_limit (c : Config) : Z := wrap64 (GlobalSlots c + GlobalQueue c).

(** The part of [add] for a full pool: room for the transaction, or its error. *)
Definition make_room (from : Address) (tx : Transaction) : L () :=
  do p <- get id;
  if negb (wrap64 (Lookup.Slots (all p) + numSlots tx) >? global_limit (config p)) then ret tt
  else
    do (under, l) <- panics (Priced.Underpriced (all p) (priced p) tx);
    do! modify (set_all (all p) l);
    if (under : bool) then fail ErrUnderpriced
    else if changesSinceReorg p >? to_int64 (GlobalSlots (config p) / 4) then fail ErrTxPoolOverflow
    else
      do (drop, success, l) <- panics (Priced.Discard (all p) l
        (Lookup.Slots (all p) - to_int64 (global_limit (config p)) + numSlots tx));
      do! modify (set_all (all p) l);
      if negb success then fail ErrTxPoolOverflow
      else
        do gapped <- isGapped from tx;
        do replaces <- get (λ p, drops_pending p drop);
        if gapped && replaces then
          do! each priced_Put drop;
          fail ErrFutureReplacePending
        else each (kick_out from) drop.

(** The new transaction takes the place of a pending one with its nonce. *)
Definition replace_pending (from : Address) (tx : Transaction) (l : list_) : L bool :=
  do bump <- get (λ p, PriceBump (config p));
  do (inserted, old, l) <- panics (LegacyList.Add l tx bump);
  do! put_pending from l;
  if negb inserted then fail ErrReplaceUnderpriced
  else
    do! replace_old old;
    do! all_Add tx;
    do! priced_Put tx;
    do! queueTxEvent tx;
    do! beat from;
    ret (has old).

Definition add_validated (from : Address) (tx : Transaction) : L bool :=
  do! make_room from tx;
  do o <- get (λ p, pending p !! from);
  match o with
  | Some l =>
      if LegacyList.Contains l (Tx.Nonce tx) then replace_pending from tx l
      else enqueueTx (Tx.Hash_ tx) tx true
  | None => enqueueTx (Tx.Hash_ tx) tx true
  end.

(** The deferred function: an error releases the account that was reserved. *)
Definition or_release {A} (taken : bool) (from : Address) (m : L A) : L A :=
  do r <- try_ m;
  match r with
  | Ok a => ret a
  | Err e => do! when taken (ignore (reserve from false)); fail e
  end.

Definition add (tx : Transaction) : L bool :=
  do p <- get id;
  if has (Lookup.Get (all p) (Tx.Hash_ tx)) then fail ErrAlreadyKnown
  else
    do! of_result (validateTx p tx);
    let from := sender p tx in
    let unknown := negb (has (pending p !! from)) && negb (has (queue p !! from)) in
    do! when unknown (reserve from true);
    or_release unknown from (add_validated from tx).

(** The errors, and the senders that have a new transaction. *)
Fixpoint addTxsLocked (ts : list Transaction) (dirty : accountSet) : L (list (option txpool_error) * accountSet) :=
  match ts with
  | [] => ret ([], dirty)
  | tx :: ts =>
      do r <- try_ (add tx);
      do p <- get id;
      let dirty :=
        match r, types_Sender (signer p) tx with
        | Ok false, Ok addr => <[addr := tt]> dirty
        | _, _ => dirty
        end in
      do (errs, dirty) <- addTxsLocked ts dirty;
      ret ((match r with Ok _ => None | Err e => Some e end) :: errs, dirty)
  end.

(** The first loop of [Add]. *)
Definition prefilter (p : Pool) (tx : Transaction) : option txpool_error :=
  if has (Lookup.Get (all p) (Tx.Hash_ tx)) then Some ErrAlreadyKnown
  else match validateTxBasics p tx with Err e => Some e | Ok _ => None end.

Definition is_panic (err : option txpool_error) : bool := match err with Some PoolPanic => true | _ => false end.

(** The new errors fill the empty places. *)
Fixpoint merge_errors (errs newErrs : list (option txpool_error)) : option (list (option txpool_error)) :=
  match errs, newErrs with
  | _, [] => Some errs
  | [], _ :: _ => None
  | Some e :: errs, _ => cons (Some e) <$> merge_errors errs newErrs
  | None :: errs, err :: newErrs => cons err <$> merge_errors errs newErrs
  end.

Definition requestPromoteExecutables (set : accountSet) : L () := modify (λ p,
  let s := schedule p in
  let dirty := match rq_dirty s with None => set | Some d => set ∪ d end in
  set_schedule (MkSchedule (rq_reset s) (Some dirty) (rq_events s) true) p).

Definition requestReset (oldHead newHead : option Header.Header) : L () := modify (λ p,
  let s := schedule p in
  let reset := match rq_reset s with None => (oldHead, newHead) | Some (old, _) => (old, newHead) end in
  set_schedule (MkSchedule (Some reset) (rq_dirty s) (rq_events s) true) p).

(** With [sync] the caller waits for the run that it requests. *)
Definition Add (ts : list Transaction) (sync : bool) : L (list (option txpool_error)) :=
  do p <- get id;
  let errs := map (prefilter p) ts in
  let news := List.filter (λ tx, negb (has (prefilter p tx))) ts in
  if existsb is_panic errs then fail PoolPanic
  else if len news =? 0 then ret errs
  else
    do (newErrs, dirtyAddrs) <- addTxsLocked news ∅;
    do errs <- panics (merge_errors errs newErrs);
    do! requestPromoteExecutables dirtyAddrs;
    ret errs.

(** ** Reorganisation *)

(** The accounts of a map, in the order of a range over it. *)
Definition range_keys {A} (m : gmap Address A) : list Address := (map_range m).*1.

(** Dropping transactions that have left their list. *)
Definition forget (ts : list Transaction) : L () := each (λ tx, all_Remove (Tx.Hash_ tx)) ts.

(** A turn of [promoteExecutables]: the promoted transactions of an account. *)
Definition promote_readies (addr : Address) : list Transaction → L (list Transaction) :=
  fix go ts :=
    match ts with
    | [] => ret []
    | tx :: ts =>
        do ok <- promoteTx addr (Tx.Hash_ tx) tx;
        do promoted <- go ts;
        ret (if ok : bool then tx :: promoted else promoted)
    end.

Definition promote_account (addr : Address) : L (list Transaction) :=
  do p <- get id;
  match queue p !! addr with
  | None => ret []
  | Some l =>
      let gasLimit := Header.GasLimit (currentHead p) in
      do (forwards, l) <- panics (LegacyList.Forward l (GetNonce (currentState p) addr));
      do! put_queue addr l;
      do! forget forwards;
      do (drops, _, l) <- panics (LegacyList.Filter l (GetBalance (currentState p) addr) gasLimit);
      do! put_queue addr l;
      do! forget drops;
      do next <- nonce_get addr;
      do (readies, l) <- panics (LegacyList.Ready l next);
      do! put_queue addr l;
      do promoted <- promote_readies addr readies;
      do (caps, l) <- panics (LegacyList.Cap l (to_int64 (AccountQueue (config p))));
      do! put_queue addr l;
      do! forget caps;
      do! priced_Removed (len forwards + len drops + len caps);
      do! when (LegacyList.Empty l)
        (do! delete_queue addr;
         do p <- get id;
         when (negb (has (pending p !! addr))) (ignore (reserve addr false)));
      ret promoted
  end.

Fixpoint promoteExecutables (accounts : list Address) : L (list Transaction) :=
  match accounts with
  | [] => ret []
  | addr :: accounts =>
      do promoted <- promote_account addr;
      do rest <- promoteExecutables accounts;
      ret (promoted ++ rest)
  end.

(** Back to the queue. *)
Definition demote (ts : list Transaction) : L () := each (λ tx, ignore (enqueueTx (Tx.Hash_ tx) tx false)) ts.

(** A turn of [demoteUnexecutables]. *)
Definition demote_account (addr : Address) : L () :=
  do p <- get id;
  match pending p !! addr with
  | None => ret tt
  | Some l =>
      let gasLimit := Header.GasLimit (currentHead p) in
      let nonce := GetNonce (currentState p) addr in
      do (olds, l) <- panics (LegacyList.Forward l nonce);
      do! put_pending addr l;
      do! forget olds;
      do (drops, invalids, l) <- panics (LegacyList.Filter l (GetBalance (currentState p) addr) gasLimit);
      do! put_pending addr l;
      do! forget drops;
      do! demote invalids;
      do l <- (if (LegacyList.Len l >? 0) && negb (has (SortedMap.Get (txs l) nonce)) then
                 do (gapped, l) <- panics (LegacyList.Cap l 0);
                 do! put_pending addr l;
                 do! demote gapped;
                 ret l
               else ret l);
      when (LegacyList.Empty l)
        (do! delete_pending addr;
         do p <- get id;
         when (negb (has (queue p !! addr))) (ignore (reserve addr false)))
  end.

Definition demoteUnexecutables : L () :=
  do addrs <- get (λ p, range_keys (pending p));
  each demote_account addrs.

(** ** Limits *)

Definition count (m : gmap Address list_) : Z := fold_left (λ n l, wrap64 (n + LegacyList.Len l)) (range_values m) 0.

(** The last transaction of the account's pending list is dropped. *)
Definition drop_last (addr : Address) : L () :=
  do p <- get id;
  match pending p !! addr with
  | None => fail PoolPanic
  | Some l =>
      do (caps, l) <- panics (LegacyList.Cap l (LegacyList.Len l - 1));
      do! put_pending addr l;
      do! each (λ tx, do! all_Remove (Tx.Hash_ tx); nonce_setIfLower addr (Tx.Nonce tx)) caps;
      priced_Removed (len caps)
  end.

(** One from each of the accounts; [pending--] each time. *)
Fixpoint drop_each (addrs : list Address) (n : Z) : L Z :=
  match addrs with
  | [] => ret n
  | addr :: addrs => do! drop_last addr; drop_each addrs (wrap64 (n - 1))
  end.

(** [for pending > GlobalSlots && len(pool.pending[last]) > threshold]; [last]
    loses one a turn. *)
Fixpoint equalize (fuel : nat) (last : Address) (threshold : Z) (offenders : list Address) (n : Z) : L Z :=
  match fuel with
  | O => fail PoolPanic
  | S fuel =>
      do p <- get id;
      match pending p !! last with
      | None => if n >? GlobalSlots (config p) then fail PoolPanic else ret n
      | Some l =>
          if (n >? GlobalSlots (config p)) && (LegacyList.Len l >? threshold) then
            do n <- drop_each offenders n;
            equalize fuel last threshold offenders n
          else ret n
      end
  end.

Definition equalize_fuel (p : Pool) (last : Address) : nat := S (Z.to_nat (length_of (pending p !! last))).

(** common/prque: a heap with the greatest priority on top. *)
Abbreviation prque := (list (Address * Z)) (only parsing).
Definition higher (a b : Address * Z) : bool := a.2 >? b.2.

(** The loop over the offenders, who are kept in the order of their penalties. *)
Fixpoint penalize (fuel : nat) (spammers : prque) (offenders : list Address) (n : Z) : L (list Address * Z) :=
  match fuel with
  | O => fail PoolPanic
  | S fuel =>
      do p <- get id;
      if negb ((n >? GlobalSlots (config p)) && negb (len spammers =? 0)) then ret (offenders, n)
      else
        do ((offender, _), spammers) <- panics (Pop higher spammers);
        let before := offenders in
        let offenders := offenders ++ [offender] in
        do n <- match last before with
                | None => ret n
                | Some prev => equalize (equalize_fuel p prev) prev (length_of (pending p !! offender)) before n
                end;
        penalize fuel spammers offenders n
  end.

Definition spam_order (p : Pool) : prque :=
  fold_left (λ q e, if LegacyList.Len e.2 >? AccountSlots (config p) then Push higher q (e.1, LegacyList.Len e.2) else q)
    (map_range (pending p)) [].

Definition truncatePending : L () :=
  do p <- get id;
  let n := count (pending p) in
  if n <=? GlobalSlots (config p) then ret tt
  else
    let spammers := spam_order p in
    do (offenders, n) <- penalize (S (length spammers)) spammers [] n;
    match last offenders with
    | None => ret tt
    | Some o =>
        do p <- get id;
        do! equalize (equalize_fuel p o) o (AccountSlots (config p)) offenders n;
        ret tt
    end.

(** A heartbeat that was never set is the zero time. *)
Definition zero_time : Z := - 62135596800 * 1000000000.

(** [time.Since], which saturates. *)
Definition since (now t : Z) : Z := Z.max (- 2 ^ 63) (Z.min (2 ^ 63 - 1) (now - t)).

Definition heartbeat (p : Pool) (addr : Address) : Z := default zero_time (beats p !! addr).

Definition remove_all (ts : list Transaction) : L () := each (λ tx, do! removeTx (Tx.Hash_ tx) true true; ret tt) ts.

(** [list.Flatten()] of a queued list. *)
Definition flatten_queued (addr : Address) : L (list Transaction) :=
  do p <- get id;
  match queue p !! addr with
  | None => fail PoolPanic
  | Some l => let '(ts, l) := LegacyList.Flatten l in do! put_queue addr l; ret ts
  end.

(** The accounts are taken from the end of the slice, which is [addresses]
    reversed; [drop] is an uint64. *)
Fixpoint truncate_accounts (addresses : list Address) (drop_ : Z) : L () :=
  match addresses with
  | [] => ret tt
  | addr :: addresses =>
      if drop_ >? 0 then
        do p <- get id;
        let size := length_of (queue p !! addr) in
        do ts <- flatten_queued addr;
        if size <=? drop_ then
          do! remove_all ts;
          truncate_accounts addresses (wrap64 (drop_ - size))
        else
          let gone := take (Z.to_nat drop_) (rev ts) in
          do! remove_all gone;
          truncate_accounts addresses (wrap64 (drop_ - len gone))
      else ret tt
  end.

Definition truncateQueue : L () :=
  do p <- get id;
  let queued := count (queue p) in
  if queued <=? GlobalQueue (config p) then ret tt
  else
    let addresses := map (λ addr, (addr, heartbeat p addr)) (range_keys (queue p)) in
    let sorted := sort_Slice (λ a b, b.2 <? a.2) addresses in
    truncate_accounts (rev sorted.*1) (wrap64 (queued - GlobalQueue (config p))).

(** A tick of the eviction timer in [loop]. *)
Definition evict_account (addr : Address) : L () :=
  do p <- get id;
  match queue p !! addr with
  | None => ret tt
  | Some _ =>
      do! modify (λ p, set_beats (beats p) (S (clock_reads p)) p);
      if since (clock (clock_reads p)) (heartbeat p addr) >? Lifetime (config p) then
        do ts <- flatten_queued addr;
        remove_all ts
      else ret tt
  end.

Definition evict : L () :=
  do addrs <- get (λ p, range_keys (queue p));
  each evict_account addrs.

(** ** The reset to a new head *)

(** [float64(x)] of an integer and the rounded result of a subtraction: to 53
    bits, half to even. *)
Definition float64 (x : Z) : Z :=
  if Z.abs x <? 2 ^ 53 then x
  else
    let e := 2 ^ (Z.log2 (Z.abs x) - 52) in
    let q := x / e in
    let r := x mod e in
    (if (2 * r >? e) || ((2 * r =? e) && Z.odd q) then q + 1 else q) * e.

Definition reorg_depth (oldNum newNum : Z) : Z := wrap64 (Z.abs (float64 (float64 oldNum - float64 newNum))).

(** [types.TxDifference(a, b)] *)
Definition TxDifference (a b : list Transaction) : list Transaction :=
  List.filter (λ tx, negb (existsb (λ tx', Tx.Hash_ tx' =? Tx.Hash_ tx) b)) a.

Definition Filter (tx : Transaction) : bool :=
  (Tx.Type_ tx =? LegacyTxType) || (Tx.Type_ tx =? AccessListTxType) || (Tx.Type_ tx =? DynamicFeeTxType) ||
  (Tx.Type_ tx =? SetCodeTxType).

Definition parent_of (chain : BlockChain St) (b : Block) : option Block :=
  GetBlock chain (block_ParentHash b) (wrap64 (NumberU64 b - 1)).

(** The first two loops: back to the height, with the transactions on the way;
    [None] is a missing block.  A block is one lower than its child. *)
Fixpoint rewind_to (chain : BlockChain St) (fuel : nat) (b : Block) (height : Z) (acc : list Transaction)
    : option (Block * list Transaction) :=
  if NumberU64 b >? height then
    match fuel with
    | O => None
    | S fuel =>
        parent ← parent_of chain b;
        rewind_to chain fuel parent height (acc ++ Transactions b)
    end
  else Some (b, acc).

(** The third loop: both back to the common ancestor. *)
Fixpoint rewind_both (chain : BlockChain St) (fuel : nat) (rem add : Block) (discarded included : list Transaction)
    : option (list Transaction * list Transaction) :=
  if negb (block_Hash rem =? block_Hash add) then
    match fuel with
    | O => None
    | S fuel =>
        rem' ← parent_of chain rem;
        add' ← parent_of chain add;
        rewind_both chain fuel rem' add' (discarded ++ Transactions rem) (included ++ Transactions add)
    end
  else Some (discarded, included).

Definition chain_fuel (b : Block) : nat := S (Z.to_nat (NumberU64 b)).

(** The transactions that the reorganisation lost. *)
Definition lost_txs (chain : BlockChain St) (rem add : Block) : option (list Transaction) :=
  '(rem', discarded) ← rewind_to chain (chain_fuel rem) rem (NumberU64 add) [];
  '(add', included) ← rewind_to chain (chain_fuel add) add (NumberU64 rem') [];
  '(discarded, included) ← rewind_both chain (chain_fuel rem') rem' add' discarded included;
  Some (List.filter Filter (TxDifference discarded included)).

(** What to inject again; [None] when the reset is given up. *)
Definition reinject (chain : BlockChain St) (oldHead newHead : Header.Header) : result txpool_error (option (list Transaction)) :=
  if header_Hash oldHead =? Header.ParentHash newHead then Ok (Some [])
  else
    match Header.Number oldHead, Header.Number newHead with
    | Some oldN, Some newN =>
        let oldNum := wrap64 oldN in
        let newNum := wrap64 newN in
        if reorg_depth oldNum newNum >? 64 then Ok (Some [])
        else
          match GetBlock chain (header_Hash oldHead) oldNum with
          | None => if newNum >=? oldNum then Ok None else Ok (Some [])
          | Some rem =>
              match GetBlock chain (header_Hash newHead) newNum with
              | None => Ok None
              | Some add => Ok (lost_txs chain rem add)
              end
          end
    | _, _ => Err PoolPanic
    end.

Definition reset (chain : BlockChain St) (oldHead newHead : option Header.Header) : L () :=
  do again <- match oldHead, newHead with
              | None, _ => ret (Some [])
              | Some _, None => fail PoolPanic
              | Some o, Some n => of_result (reinject chain o n)
              end;
  match again with
  | None => ret tt
  | Some again =>
      let newHead := default (CurrentBlock chain) newHead in
      match StateAt chain (Header.Root newHead) with
      | None => ret tt
      | Some statedb =>
          do! modify (set_head newHead statedb (Noncer.newNoncer (GetNonce (Copy statedb))));
          do! addTxsLocked again ∅;
          ret tt
      end
  end.

(** The events whose nonces the reset has passed are dropped. *)
Fixpoint forward_events (addrs : list Address) (events : gmap Address SortedMap) : L (gmap Address SortedMap) :=
  match addrs with
  | [] => ret events
  | addr :: addrs =>
      match events !! addr with
      | None => forward_events addrs events
      | Some m =>
          do next <- nonce_get addr;
          do (_, m) <- panics (SortedMap.Forward m next);
          forward_events addrs (if SortedMap.Len m =? 0 then delete addr events else <[addr := m]> events)
      end
  end.

(** [setAll]: the nonce after the last pending transaction of each account. *)
Fixpoint highest_nonces (addrs : list Address) (nonces : gmap Address Z) : L (gmap Address Z) :=
  match addrs with
  | [] => ret nonces
  | addr :: addrs =>
      do p <- get id;
      match pending p !! addr with
      | None => highest_nonces addrs nonces
      | Some l =>
          do (tx, l) <- panics (LegacyList.LastElement l);
          do! put_pending addr l;
          highest_nonces addrs (<[addr := wrap64 (Tx.Nonce tx + 1)]> nonces)
      end
  end.

Definition set_base_fee (newHead : option Header.Header) : L () :=
  match newHead with
  | None => ret tt
  | Some h =>
      do p <- get id;
      match Header.Number h with
      | None => fail PoolPanic
      | Some n =>
          if IsLondon (chainconfig p) (Some (n + 1)) then
            do fee <- panics (CalcBaseFee (chainconfig p) h);
            do l <- panics (Priced.SetBaseFee (all p) (priced p) (Some fee));
            modify (set_all (all p) l)
          else
            do l <- panics (Priced.Reheap (all p) (priced p));
            modify (set_all (all p) l)
      end
  end.

(** The demotions after a reset, and the nonces that are pending from now on. *)
Definition settle_reset (newHead : option Header.Header) : L () :=
  do! demoteUnexecutables;
  do! set_base_fee newHead;
  do addrs <- get (λ p, range_keys (pending p));
  do nonces <- highest_nonces addrs ∅;
  modify (λ p, set_nonces (Noncer.setAll (pendingNonces p) nonces) p).

(** The events of a run, and what the subscribers are sent. *)
Definition add_events (p : Pool) (promoted : list Transaction) (events : gmap Address SortedMap) : gmap Address SortedMap :=
  fold_left (λ ev tx, let addr := sender p tx in <[addr := SortedMap.Put (default NewSortedMap (ev !! addr)) tx]> ev) promoted events.

Definition event_txs (events : gmap Address SortedMap) : list Transaction :=
  concat (map (λ m, (SortedMap.Flatten m).1) (range_values events)).

(** [runReorg], from the lock to the notification. *)
Definition runReorg (chain : BlockChain St) (rq : option (option Header.Header * option Header.Header))
    (dirty : option accountSet) (events : gmap Address SortedMap) : L () :=
  do (addrs, events) <-
    match rq with
    | None => ret (match dirty with Some d => range_keys d | None => [] end, events)
    | Some (oldHead, newHead) =>
        do! reset chain oldHead newHead;
        do events <- forward_events (range_keys events) events;
        do addrs <- get (λ p, range_keys (queue p));
        ret (addrs, events)
    end;
  do promoted <- promoteExecutables addrs;
  do! match rq with Some (_, newHead) => settle_reset newHead | None => ret tt end;
  do! truncatePending;
  do! truncateQueue;
  do! modify (set_changes 0);
  do events <- get (λ p, add_events p promoted events);
  when (negb (bool_decide (events = ∅))) (modify (send_feed (event_txs events))).

(** The loop launches a run with what has been requested, and starts afresh. *)
Definition launch_run (chain : BlockChain St) : L () :=
  do s <- get schedule;
  when (rq_launch s)
    (do! modify (set_schedule (MkSchedule None None ∅ false));
     runReorg chain (rq_reset s) (rq_dirty s) (rq_events s)).

(** ** The other operations *)

Definition New (config : Config) (chainconfig : ChainConfig) (self : nat) (st : St) (head : Header.Header) : Pool :=
  MkLegacy (sanitize config) chainconfig self 0 head st (Noncer.newNoncer (GetNonce st)) ∅ ∅ ∅ ∅ newLookup newPricedList 0
    (MkSchedule None None ∅ false) 0 [].

(** The state of the head, or the empty one. *)
Definition Init (chain : BlockChain St) (emptyRoot : Hash) (tip : Z) (head : Header.Header) (reserved : Reservations) : L () :=
  do! modify (λ p, set_gasTip tip (set_reserved reserved p));
  match StateAt chain (Header.Root head), StateAt chain emptyRoot with
  | None, None => fail ErrState
  | Some st, _ | None, Some st => modify (set_head head st (Noncer.newNoncer (GetNonce (Copy st))))
  end.

Definition SetGasTip (tip : Z) : L () :=
  do old <- get gasTip;
  do newTip <- panics (MustFromBig tip);
  do! modify (set_gasTip newTip);
  when (Cmp newTip old >? 0)
    (do drop <- get (λ p, Lookup.TxsBelowTip (all p) tip);
     do! each (λ tx, do! removeTx (Tx.Hash_ tx) false true; ret tt) drop;
     priced_Removed (len drop)).

Definition Nonce (addr : Address) : L Z := nonce_get addr.

(** [list.Len()] summed as ints. *)
Definition total_len (m : gmap Address list_) : Z := fold_left (λ n l, n + LegacyList.Len l) (range_values m) 0.

Definition Stats (p : Pool) : Z * Z := (total_len (pending p), total_len (queue p)).

(** [Flatten] of every list, which fills the caches. *)
Definition flatten_all (m : gmap Address list_) : gmap Address (list Transaction) * gmap Address list_ :=
  ((λ l, (LegacyList.Flatten l).1) <$> m, (λ l, (LegacyList.Flatten l).2) <$> m).

Definition Content : L (gmap Address (list Transaction) * gmap Address (list Transaction)) := λ p,
  let '(pend, lp) := flatten_all (pending p) in
  let '(queued, lq) := flatten_all (queue p) in
  (Ok (pend, queued), set_queue lq (set_pending lp p)).

Definition ContentFrom (addr : Address) : L (list Transaction * list Transaction) :=
  do p <- get id;
  do pend <- match pending p !! addr with
             | Some l => let '(ts, l) := LegacyList.Flatten l in do! put_pending addr l; ret ts
             | None => ret []
             end;
  do queued <- match queue p !! addr with
               | Some l => let '(ts, l) := LegacyList.Flatten l in do! put_queue addr l; ret ts
               | None => ret []
               end;
  ret (pend, queued).

(** The transactions before the first that tips too little. *)
Fixpoint enforce_tip (minTip : Z) (baseFee : option Z) (ts : list Transaction) : list Transaction :=
  match ts with
  | [] => []
  | tx :: ts => if Tx.EffectiveGasTipIntCmp tx minTip baseFee <? 0 then [] else tx :: enforce_tip minTip baseFee ts
  end.

Definition lazy_of (tx : Transaction) : option LazyTransaction :=
  feeCap ← MustFromBig (Tx.GasFeeCap tx);
  tipCap ← MustFromBig (Tx.GasTipCap tx);
  Some (MkLazy (Tx.Hash_ tx) (Some tx) (Tx.Time tx) feeCap tipCap (Tx.Gas tx) (Tx.BlobGas tx)).

Fixpoint pending_of (filter : PendingFilter) (addrs : list Address) (acc : gmap Address (list LazyTransaction))
    : L (gmap Address (list LazyTransaction)) :=
  match addrs with
  | [] => ret acc
  | addr :: addrs =>
      do p <- get id;
      match pending p !! addr with
      | None => pending_of filter addrs acc
      | Some l =>
          let '(ts, l) := LegacyList.Flatten l in
          do! put_pending addr l;
          let ts := match MinTip filter with Some tip => enforce_tip tip (BaseFee_ filter) ts | None => ts end in
          if len ts >? 0 then
            do lazies <- panics (mapM lazy_of ts);
            pending_of filter addrs (<[addr := lazies]> acc)
          else pending_of filter addrs acc
      end
  end.

Definition Pending (filter : PendingFilter) : L (gmap Address (list LazyTransaction)) :=
  if OnlyBlobTxs filter then ret ∅
  else
    do addrs <- get (λ p, range_keys (pending p));
    pending_of filter addrs ∅.

Definition Get (p : Pool) (hash : Hash) : option Transaction := Lookup.Get (all p) hash.
Definition Has (p : Pool) (hash : Hash) : bool := has (Lookup.Get (all p) hash).

Definition Status (p : Pool) (hash : Hash) : TxStatus :=
  match Get p hash with
  | None => TxStatusUnknown
  | Some tx =>
      let from := sender p tx in
      if contains (pending p !! from) (Tx.Nonce tx) then TxStatusPending
      else if contains (queue p !! from) (Tx.Nonce tx) then TxStatusQueued
      else TxStatusUnknown
  end.

Definition Clear : L () :=
  do p <- get id;
  do! each (λ tx, ignore (reserve (sender p tx) false)) (range_values (lk_txs (all p)));
  do! modify (set_all newLookup newPricedList);
  do! modify (set_pending ∅);
  do! modify (set_queue ∅);
  modify (λ p, set_nonces (Noncer.newNoncer (GetNonce (Copy (currentState p)))) p).
End LegacyPool.
