(* ===== verification/LegacyInv.v ===== *)
(** * The invariant of the legacy pool

    What holds of the pool between two operations: every transaction of the table is
    in one list of its sender, pending or queued, under its nonce, and nowhere
    else; an account is reserved when and only when it has a list; no list is
    empty; the price heaps know every transaction; the totals fit.  While an
    operation runs some of it is suspended, by the amount that a [slack] says.  The
    file has the slack, the invariant and what the steps on single parts do to it. *)

From S2P Require Import Prelude GoSort GoHeap ChainConfig BlockFees TxTypes Signers SortedMap LegacyList LegacyPriced.
From S2P Require Import StateInterface StateError TxValidation TxPool LegacyPool.

Open Scope eigen_scope.
Open Scope step_scope.

(** ** Transactions can be compared *)

#[export] Instance AccessTuple_eq : EqDecision AccessTuple.
Proof. solve_decision. Defined.
#[export] Instance SetCodeAuthorization_eq : EqDecision SetCodeAuthorization.
Proof. solve_decision. Defined.
#[export] Instance BlobTxSidecar_eq : EqDecision BlobTxSidecar.
Proof. solve_decision. Defined.
#[export] Instance TxData_eq : EqDecision TxData.
Proof.
  intros x y. unfold Decision. decide equality; match goal with |- {?a = ?b} + {_} => change (Decision (a = b)); solve_decision end.
Defined.
#[export] Instance Transaction_eq : EqDecision Transaction.
Proof. solve_decision. Defined.

(** ** The lists, by their contents *)

Module Lists.
Import LegacyList ListLaws.

Lemma subTotalCost_strict l ts l' : subTotalCost l ts = Some l' → strict l' = strict l.
Proof.
  revert l. induction ts as [|tx ts IH]; intros l; cbn [subTotalCost]; [by intros [= ->]|].
  destruct (MustFromBig (Tx.Cost tx)); cbn [mbind option_bind]; [|done]. destruct (_ <? _); [done|]. intros ->%IH. done.
Qed.

Lemma Forward_takes l ts th :
  lrepr l ts →
  let out := List.filter (λ tx, Tx.Nonce tx <? th) ts in
  let rest := List.filter (λ tx, negb (Tx.Nonce tx <? th)) ts in
  ∃ l', Forward l th = Some (out, l') ∧ strict l' = strict l ∧ lrepr l' rest ∧ ts ≡ₚ out ++ rest.
Proof.
  intros Hl out rest. destruct (Forward_ok l ts th Hl) as (l' & HF & Hl'). exists l'. split_and!; [done| |done|apply filter_split_perm].
  unfold Forward in HF. apply bind_Some in HF as ([o m] & _ & HF). apply bind_Some in HF as (l0 & Hs & [= _ <-]).
  by apply subTotalCost_strict in Hs.
Qed.

Lemma Cap_takes `{Sorter} l ts th :
  lrepr l ts → 0 <= th →
  ∃ l', Cap l th = Some (rev (drop (Z.to_nat th) ts), l') ∧ strict l' = strict l ∧ lrepr l' (take (Z.to_nat th) ts) ∧
    ts ≡ₚ rev (drop (Z.to_nat th) ts) ++ take (Z.to_nat th) ts.
Proof.
  intros Hl Hth. destruct (Cap_ok l ts th Hl Hth) as (l' & HC & Hl'). exists l'. split_and!; [done| |done|].
  - unfold Cap in HC. apply bind_Some in HC as ([o m] & _ & HC). apply bind_Some in HC as (l0 & Hs & [= _ <-]).
    by apply subTotalCost_strict in Hs.
  - by rewrite <- Permutation_rev, Permutation_app_comm, take_drop.
Qed.

Lemma Ready_takes l ts start :
  lrepr l ts →
  let k := SortedMap.ready_count start ts in
  ∃ l', Ready l start = Some (take k ts, l') ∧ strict l' = strict l ∧ lrepr l' (drop k ts) ∧ ts ≡ₚ take k ts ++ drop k ts.
Proof.
  intros Hl k. destruct (Ready_ok l ts start Hl) as (l' & HR & Hl'). exists l'. split_and!; [done| |done|by rewrite take_drop].
  unfold Ready in HR. apply bind_Some in HR as ([o m] & _ & HR). apply bind_Some in HR as (l0 & Hs & [= _ <-]).
  by apply subTotalCost_strict in Hs.
Qed.

(** A queued list gives no transaction back as gapped. *)
Lemma Filter_takes (R : MapRange) l ts cost gas :
  lrepr l ts →
  ∃ removed invalids l', Filter l cost gas = Some (removed, invalids, l') ∧ strict l' = strict l ∧
    lrepr l' (kept (strict l) cost gas ts) ∧ ts ≡ₚ (removed ++ invalids) ++ kept (strict l) cost gas ts ∧
    (strict l = false → invalids = []).
Proof.
  intros Hl. destruct (list_Filter_spec_core R l ts cost gas Hl) as (removed & invalids & l' & HF & Hr & Hst & Hp & Hl').
  exists removed, invalids, l'. split_and!; try done. intros Hs. rewrite Hs in Hp. cbn [kept] in Hp.
  pose proof (filter_split_perm (unpayable cost gas) ts) as Hsp. rewrite <- Hr in Hsp.
  apply Permutation_length in Hp, Hsp. rewrite !length_app in *. unfold compose in *. destruct invalids; [done|]. cbn in *. lia.
Qed.

(** Offering a transaction, whatever the price bump. *)
Lemma Add_outcome l ts tx bump :
  lrepr l ts → is_uint64 (Tx.Nonce tx) → 0 <= Tx.Cost tx → total (SortedMap.put_nonce tx ts) < two256 →
  let old := SortedMap.Get (txs l) (Tx.Nonce tx) in
  (∃ o, old = Some o ∧ outbids o tx bump = false ∧ Add l tx bump = Some (false, None, l)) ∨
  ((∀ o, old = Some o → outbids o tx bump = true) ∧
   ∃ l', Add l tx bump = Some (true, old, l') ∧ strict l' = strict l ∧ lrepr l' (SortedMap.put_nonce tx ts)).
Proof.
  intros Hl Hu Hcost Hb old.
  assert (Hput : Tx.Cost tx < two256).
  { rewrite total_put in Hb by apply (lrepr_txs _ _ Hl).
    enough (0 <= total (List.filter (λ x, negb (Tx.Nonce x =? Tx.Nonce tx)) ts)) by lia.
    apply total_nonneg. intros x [Hx _]%SortedMap.elem_of_list_filter. by apply (lrepr_costs _ _ Hl). }
  assert (Hstrict : ∀ l0 : list_, strict (let l1 := if Cmp (costcap l0) (Tx.Cost tx) <? 0 then set_caps l0 (Tx.Cost tx) (gascap l0) else l0 in
    if gascap l1 <? Tx.Gas tx then set_caps l1 (costcap l1) (Tx.Gas tx) else l1) = strict l0).
  { intros l0. cbv zeta. by repeat destruct (_ <? _). }
  unfold Add. rewrite (FromBig_ok (Tx.Cost tx)) by lia. fold old. destruct old as [o|] eqn:Ho.
  - destruct (Get_old l ts tx o Hl Ho) as [Hin Heq]. destruct (outbids o tx bump) eqn:Hout; [right|left; by exists o].
    split; [by intros ? [= <-]|]. rewrite (sub_old l ts tx o Hl Hin Heq). cbn [mbind option_bind].
    eexists. split; [done|]. split; [etrans; [apply Hstrict|done]|]. set (l1 := set_totalcost l _) at 1. by apply (insert_lrepr l l1).
  - right. split; [done|]. eexists. split; [done|]. split; [etrans; [apply Hstrict|done]|].
    apply (insert_lrepr l l); try done. rewrite (without_absent l ts) by done. apply (lrepr_total _ _ Hl).
Qed.

(** The nonces of a list fit into 64 bits, so 2^64 transactions at most are in it. *)
Lemma sorted_count ts lo hi :
  StronglySorted SortedMap.nonce_lt ts → (∀ tx, tx ∈ ts → lo <= Tx.Nonce tx < hi) → ts ≠ [] → len ts <= hi - lo.
Proof.
  intros Hs. revert lo. induction Hs as [|x ts _ IH Hall]; intros lo Hb Hne; [done|]. rewrite len_cons.
  pose proof (Hb x (list_elem_of_here _ _)). destruct ts as [|y ts]; [rewrite (@len_nil Transaction); lia|].
  assert (len (y :: ts) <= hi - (Tx.Nonce x + 1)); [|lia]. apply IH; [|done]. intros z Hz. rewrite Forall_forall in Hall.
  specialize (Hall z Hz). unfold SortedMap.nonce_lt in Hall. specialize (Hb z ltac:(by right)). lia.
Qed.

Lemma total_le ts c : (∀ tx, tx ∈ ts → Tx.Cost tx <= c) → total ts <= len ts * c.
Proof.
  induction ts as [|x ts IH]; intros Hc; [done|]. cbn [total]. rewrite len_cons.
  pose proof (Hc x (list_elem_of_here _ _)). assert (total ts <= len ts * c) by (apply IH; intros; apply Hc; by right). lia.
Qed.

(** What one account can owe: its balance was once at least each cost. *)
Definition max_cost : Z := Eval cbv in 2 ^ 192.

Lemma total_fits ts :
  StronglySorted SortedMap.nonce_lt ts → SortedMap.nonces_ok ts → (∀ tx, tx ∈ ts → Tx.Cost tx < max_cost) → total ts < two256.
Proof.
  intros Hs Hn Hc. destruct ts as [|x ts]; [done|].
  pose proof (total_le (x :: ts) (max_cost - 1) ltac:(intros y Hy; specialize (Hc y Hy); lia)).
  pose proof (sorted_count (x :: ts) 0 two64 Hs Hn ltac:(done)). pose proof (len_nonneg (x :: ts)).
  assert (two64 * (max_cost - 1) < two256) by done. assert (0 < max_cost - 1) by done. nia.
Qed.
End Lists.

(** ** The invariant *)

Section Invariant.
Context {St : Type} `{AccountState St, CodeHashes St, Sending, BlobProofs, Authorities, HeaderHash, Clock, MapRange, Sorter}.
Context (cfg : Config) (cc : ChainConfig) (me : nat) (U : Transaction → Prop).
Implicit Types p : LegacyPool St.

(** The fees fit into words, which the first checks of a transaction ask. *)
Record fees_fit (x : Transaction) : Prop := {
  ff_cap : BitLen (Tx.GasFeeCap x) <= 256;
  ff_tip : BitLen (Tx.GasTipCap x) <= 256
}.

(** The transactions that the pool may be offered: one hash is one transaction, and
    they are decoded, so that nonces and costs have their types. *)
Record universe : Prop := {
  un_fees x : U x → fees_fit x;
  un_hash x y : U x → U y → Tx.Hash_ x = Tx.Hash_ y → x = y;
  un_nonce x : U x → is_uint64 (Tx.Nonce x);
  un_cost x : U x → 0 <= Tx.Cost x
}.

Definition sender_of (tx : Transaction) : Address :=
  match types_Sender (latest_signer cc) tx with Ok a => a | Err _ => 0 end.

Record good (tx : Transaction) : Prop := {
  good_U : U tx;
  good_cost : Tx.Cost tx < Lists.max_cost;
  good_sender : types_Sender (latest_signer cc) tx = Ok (sender_of tx)
}.

(** No account has 2^192. *)
Definition modest (st : St) : Prop := ∀ a, 0 <= GetBalance st a < Lists.max_cost.

(** A header has a number and a difficulty, and after London a base fee and gas. *)
Record headed (h : Header.Header) : Prop := {
  hd_number : is_Some (Header.Number h);
  hd_difficulty : is_Some (Header.Difficulty h);
  hd_london : Config.IsLondon cc (Header.Number h) = true → is_Some (Header.BaseFee h) ∧ 2 <= Header.GasLimit h
}.

Record settled (st : St) (h : Header.Header) : Prop := {
  sd_modest : modest st;
  sd_headed : headed h
}.

(** The pending lists and the queued ones. *)
Definition lists (b : bool) p : gmap Address list_ := if b then pending p else queue p.

Definition slot (m : gmap Address list_) (a : Address) (n : Z) : option Transaction :=
  l ← m !! a; SortedMap.Get (txs l) n.

Record content (b : bool) (a : Address) (l : list_) (ts : list Transaction) : Prop := {
  co_lrepr : ListLaws.lrepr l ts;
  co_strict : strict l = b;
  co_good tx : tx ∈ ts → good tx ∧ sender_of tx = a
}.

Definition heap_txs p : list Transaction := ph_list (urgent (priced p)) ++ ph_list (floating (priced p)).

Definition events_ok (ev : gmap Address SortedMap) : Prop := ∀ a m, ev !! a = Some m → ∃ ts, SortedMap.repr m ts.

(** The heads of a request to reset: the new one is there and whole, of the old one
    at least the number is known. *)
Record request_ok (rq : option Header.Header * option Header.Header) : Prop := {
  rq_new : ∃ h, rq.2 = Some h ∧ headed h;
  rq_old o : rq.1 = Some o → is_Some (Header.Number o)
}.

Record sched_ok (s : Schedule) : Prop := {
  sc_events : events_ok (rq_events s);
  sc_reset rq : rq_reset s = Some rq → request_ok rq
}.

(** What is suspended: transactions of the table that are in no list ([limbo]), or
    listed ones that the table has lost ([ghosts]), or that the heaps do not know
    ([untracked]); accounts that are held without a list ([held]) and lists that
    may be empty ([hollow]). *)
Record slack : Type := MkSlack {
  limbo : list Transaction;
  ghosts : list Transaction;
  untracked : list Transaction;
  held : Address → Prop;
  hollow : bool → Address → Prop
}.

Definition key (tx : Transaction) : Address * Z := (sender_of tx, Tx.Nonce tx).

Record inv (s : slack) p : Prop := {
  iv_config : config p = cfg;
  iv_chain : chainconfig p = cc;
  iv_self : self p = me;
  iv_lists b a l : lists b p !! a = Some l → ∃ ts, content b a l ts ∧ (ts = [] → hollow s b a);
  iv_table : LookupLaws.lk_ok (all p);
  iv_filed tx : Lookup.Get (all p) (Tx.Hash_ tx) = Some tx ↔
    tx ∉ ghosts s ∧ ((∃ b, slot (lists b p) (sender_of tx) (Tx.Nonce tx) = Some tx) ∨ tx ∈ limbo s);
  iv_apart a n b x b' y : slot (lists b p) a n = Some x → slot (lists b' p) a n = Some y → b = b';
  iv_limbo tx : tx ∈ limbo s → good tx ∧ tx ∉ ghosts s ∧
    ∀ b t, slot (lists b p) (sender_of tx) (Tx.Nonce tx) = Some t → t ∈ ghosts s;
  iv_limbo_nodup : NoDup (key <$> limbo s);
  iv_reserved a : reserved p !! a = Some me ↔ (∃ b, is_Some (lists b p !! a)) ∨ held s a;
  iv_heaps : Priced.priced_ok (priced p);
  iv_heaps_U tx : tx ∈ heap_txs p → U tx;
  iv_tracked tx : Lookup.Get (all p) (Tx.Hash_ tx) = Some tx → tx ∈ heap_txs p ∨ tx ∈ untracked s;
  iv_schedule : sched_ok (schedule p);
  iv_state : settled (currentState p) (currentHead p)
}.

(** Writing the lists of one kind. *)
Definition set_lists (b : bool) (m : gmap Address list_) p : LegacyPool St :=
  if b then set_pending m p else set_queue m p.

(** Nothing is suspended. *)
Definition tight : slack := MkSlack [] [] [] (λ _, False) (λ _ _, False).

Definition with_limbo (l : list Transaction) (s : slack) : slack := MkSlack l (ghosts s) (untracked s) (held s) (hollow s).
Definition with_ghosts (l : list Transaction) (s : slack) : slack := MkSlack (limbo s) l (untracked s) (held s) (hollow s).
Definition with_untracked (l : list Transaction) (s : slack) : slack := MkSlack (limbo s) (ghosts s) l (held s) (hollow s).
Definition with_held (h : Address → Prop) (s : slack) : slack := MkSlack (limbo s) (ghosts s) (untracked s) h (hollow s).
Definition with_hollow (e : bool → Address → Prop) (s : slack) : slack := MkSlack (limbo s) (ghosts s) (untracked s) (held s) e.

Definition or_at {A} (a : A) (P : A → Prop) (x : A) : Prop := x = a ∨ P x.

Context (HU : universe).

Lemma sender_is p tx : chainconfig p = cc → sender p tx = sender_of tx.
Proof. intros Hcc. unfold sender, signer, sender_of. by rewrite Hcc. Qed.

(** *** Slots *)

Lemma slot_content b a l ts m n tx :
  m !! a = Some l → content b a l ts → slot m a n = Some tx ↔ tx ∈ ts ∧ Tx.Nonce tx = n.
Proof. intros Hm Hc. unfold slot. rewrite Hm. apply SortedMap.Get_spec, Hc. Qed.

Lemma slot_insert m a l a' n : slot (<[a := l]> m) a' n = if decide (a' = a) then SortedMap.Get (txs l) n else slot m a' n.
Proof.
  unfold slot. case_decide as Heq; [subst; by rewrite lookup_insert_eq|by rewrite lookup_insert_ne].
Qed.

Lemma slot_delete_other m a a' n : a' ≠ a → slot (delete a m) a' n = slot m a' n.
Proof. intros Hne. unfold slot. by rewrite lookup_delete_ne. Qed.

Lemma slot_delete_empty b m a l a' n : m !! a = Some l → content b a l [] → slot (delete a m) a' n = slot m a' n.
Proof.
  intros Hm Hc. destruct (decide (a' = a)) as [->|]; [|by apply slot_delete_other]. unfold slot. rewrite lookup_delete_eq, Hm. cbn.
  destruct (SortedMap.Get (txs l) n) as [tx|] eqn:Hg; [|done].
  apply (SortedMap.Get_spec _ _ _ _ (ListLaws.lrepr_txs _ _ (co_lrepr _ _ _ _ Hc))) in Hg as [?%elem_of_nil _]. done.
Qed.

Lemma content_nonces b a l ts : content b a l ts → NoDup (Tx.Nonce <$> ts).
Proof. intros Hc. apply SortedMap.nonce_lt_NoDup. apply (SortedMap.core_sorted _ _ _ (proj1 (ListLaws.lrepr_txs _ _ (co_lrepr _ _ _ _ Hc)))). Qed.

Lemma content_sorted b a l ts : content b a l ts → StronglySorted SortedMap.nonce_lt ts.
Proof. intros Hc. apply (SortedMap.core_sorted _ _ _ (proj1 (ListLaws.lrepr_txs _ _ (co_lrepr _ _ _ _ Hc)))). Qed.

Lemma content_total b a l ts : content b a l ts → ListLaws.total ts < two256.
Proof.
  intros Hc. apply Lists.total_fits; [by eapply content_sorted|apply (ListLaws.lrepr_nonces _ _ (co_lrepr _ _ _ _ Hc))|].
  intros tx Htx. apply (good_cost tx). by apply Hc.
Qed.

Lemma contains_slot m a n : contains (m !! a) n = bool_decide (is_Some (slot m a n)).
Proof. unfold contains, slot. destruct (m !! a); [done|]. symmetry. apply bool_decide_eq_false. by intros [? ?]. Qed.

(** A transaction in a slot is good, and its sender's. *)
Lemma slot_good s p b a n tx : inv s p → slot (lists b p) a n = Some tx → good tx ∧ sender_of tx = a ∧ Tx.Nonce tx = n.
Proof.
  intros Hi Hs. destruct (lists b p !! a) as [l|] eqn:Hl.
  - destruct (iv_lists _ _ Hi b a l Hl) as (ts & Hc & _). apply (slot_content b a l ts) in Hs as [Hin <-]; [|done|done].
    destruct (co_good _ _ _ _ Hc tx Hin). done.
  - unfold slot in Hs. by rewrite Hl in Hs.
Qed.

(** A transaction of the table is good. *)
Lemma table_good s p tx : inv s p → Lookup.Get (all p) (Tx.Hash_ tx) = Some tx → good tx.
Proof.
  intros Hi [_ [[b Hs]|Hl]]%(iv_filed _ _ Hi); [by eapply slot_good in Hs as [? _]|by apply (iv_limbo _ _ Hi)].
Qed.

Lemma table_hash s p h tx : inv s p → Lookup.Get (all p) h = Some tx → h = Tx.Hash_ tx.
Proof. intros Hi Hg. symmetry. by apply (LookupLaws.lk_hash _ (iv_table _ _ Hi)). Qed.

(** *** Weakening *)

Lemma inv_weaken s s' p :
  inv s p → limbo s' = limbo s → ghosts s' = ghosts s → (∀ tx, tx ∈ untracked s → tx ∈ untracked s') →
  (∀ a, held s' a ↔ held s a) → (∀ b a, hollow s b a → hollow s' b a) → inv s' p.
Proof.
  intros [] HL HG HW HR HE. split; try done; rewrite ?HL, ?HG; try done.
  - intros b a l Hl. destruct (iv_lists0 b a l Hl) as (ts & Hc & He). exists ts. auto.
  - intros a. by rewrite HR.
  - intros tx Htx. destruct (iv_tracked0 tx Htx); auto.
Qed.

Lemma lists_set b b' m p : lists b' (set_lists b m p) = if decide (b' = b) then m else lists b' p.
Proof. by destruct b, b'. Qed.

Lemma lists_set_eq b m p : lists b (set_lists b m p) = m.
Proof. by destruct b. Qed.
End Invariant.

#[global] Arguments good_U {_ _ _ _}. #[global] Arguments good_cost {_ _ _ _}. #[global] Arguments good_sender {_ _ _ _}.
#[global] Arguments slot_good {_ _ _ _ _ _ _ _ _ _ _ _ _ _}.
#[global] Arguments table_good {_ _ _ _ _ _ _ _ _ _ _}. #[global] Arguments table_hash {_ _ _ _ _ _ _ _ _ _ _ _}.
#[global] Arguments inv_weaken {_ _ _ _ _ _ _ _ _}.
#[global] Arguments iv_config {_ _ _ _ _ _ _ _ _ _}. #[global] Arguments iv_chain {_ _ _ _ _ _ _ _ _ _}.
#[global] Arguments iv_self {_ _ _ _ _ _ _ _ _ _}. #[global] Arguments iv_lists {_ _ _ _ _ _ _ _ _ _}.
#[global] Arguments iv_table {_ _ _ _ _ _ _ _ _ _}. #[global] Arguments iv_filed {_ _ _ _ _ _ _ _ _ _}.
#[global] Arguments iv_apart {_ _ _ _ _ _ _ _ _ _}. #[global] Arguments iv_limbo {_ _ _ _ _ _ _ _ _ _}.
#[global] Arguments iv_limbo_nodup {_ _ _ _ _ _ _ _ _ _}. #[global] Arguments iv_reserved {_ _ _ _ _ _ _ _ _ _}.
#[global] Arguments iv_heaps {_ _ _ _ _ _ _ _ _ _}. #[global] Arguments iv_heaps_U {_ _ _ _ _ _ _ _ _ _}.
#[global] Arguments iv_tracked {_ _ _ _ _ _ _ _ _ _}. #[global] Arguments iv_schedule {_ _ _ _ _ _ _ _ _ _}.
#[global] Arguments iv_state {_ _ _ _ _ _ _ _ _ _}.
#[global] Arguments co_lrepr {_ _ _ _ _ _ _}. #[global] Arguments co_strict {_ _ _ _ _ _ _}. #[global] Arguments co_good {_ _ _ _ _ _ _}.
#[global] Arguments un_hash {_}. #[global] Arguments un_fees {_}. #[global] Arguments un_nonce {_}. #[global] Arguments un_cost {_}.

(** * The steps of the legacy pool on its parts

    What taking transactions out of a list, putting one in, and the changes of the
    table, the price heaps and the reservations do to the invariant of LegacyInv.v. *)

Open Scope eigen_scope.
Open Scope step_scope.

Section Parts.
Context {St : Type} `{AccountState St, CodeHashes St, Sending, BlobProofs, Authorities, HeaderHash, Clock, MapRange, Sorter}.
Context (cfg : Config) (cc : ChainConfig) (me : nat) (U : Transaction → Prop) (HU : universe U).
Implicit Types p : LegacyPool St.
Abbreviation inv := (inv cfg cc me U).
Abbreviation sender_of := (sender_of cc).
Abbreviation key := (key cc).
Abbreviation content := (content cc U).

(** ** Lists *)

(** The slots of a list that lost [out]. *)
Lemma slot_rest b p a l ts l' out rest a' n tx :
  lists b p !! a = Some l → content b a l ts → ListLaws.lrepr l' rest → ts ≡ₚ out ++ rest →
  slot (<[a := l']> (lists b p)) a' n = Some tx ↔
    slot (lists b p) a' n = Some tx ∧ ¬ (a' = a ∧ tx ∈ out).
Proof.
  intros Hl Hc Hl' Hp. rewrite slot_insert. case_decide as Ha; [subst a'|naive_solver].
  rewrite (SortedMap.Get_spec _ _ _ _ (ListLaws.lrepr_txs _ _ Hl')), (slot_content cc U b a l ts) by done.
  rewrite Hp. pose proof (content_nonces _ _ _ _ _ _ Hc) as Hnd. rewrite Hp, fmap_app, NoDup_app in Hnd.
  destruct Hnd as (_ & Hd & _). rewrite elem_of_app. split.
  - intros [Hr Hn]. split; [auto|]. intros [_ Ho]. apply (Hd (Tx.Nonce tx)); by apply list_elem_of_fmap_2.
  - intros [[[Ho|Hr] Hn] Hno]; [by destruct Hno|done].
Qed.

(** Taking transactions out of a list; those that the table had lost are gone, the
    others are in limbo. *)
Lemma inv_take s p b a l ts l' gone out rest (hollow' : bool → Address → Prop) :
  inv s p → lists b p !! a = Some l → content b a l ts →
  ListLaws.lrepr l' rest → strict l' = strict l → ts ≡ₚ (gone ++ out) ++ rest → ghosts s = gone →
  (∀ b' a', hollow s b' a' → hollow' b' a') → (rest = [] → hollow' b a) →
  inv (MkSlack (out ++ limbo s) [] (untracked s) (held s) hollow') (set_lists b (<[a := l']> (lists b p)) p).
Proof.
  intros Hi Hl Hc Hl' Hst Hp Hg HE Hr.
  assert (Hslot : ∀ b' a' n tx, slot (lists b' (set_lists b (<[a:=l']> (lists b p)) p)) a' n = Some tx ↔
    slot (lists b' p) a' n = Some tx ∧ ¬ (b' = b ∧ a' = a ∧ tx ∈ gone ++ out)).
  { intros b' a' n tx. rewrite lists_set. case_decide as Hb; [subst b'|naive_solver].
    rewrite (slot_rest b p a l ts l' (gone ++ out) rest) by done. naive_solver. }
  assert (Hin : ∀ tx, tx ∈ gone ++ out → good cc U tx ∧ sender_of tx = a ∧ slot (lists b p) a (Tx.Nonce tx) = Some tx).
  { intros tx Htx. assert (tx ∈ ts) as Hts by (rewrite Hp, elem_of_app; auto).
    destruct (co_good Hc tx Hts). split_and!; [done..|]. by apply (slot_content cc U b a l ts). }
  assert (Hdisj : ∀ tx, tx ∈ gone → tx ∈ out → False).
  { intros tx Hg' Ho. pose proof (content_nonces _ _ _ _ _ _ Hc) as Hnd. rewrite Hp, !fmap_app, !NoDup_app in Hnd.
    destruct Hnd as ((_ & Hd & _) & _). apply (Hd (Tx.Nonce tx)); by apply list_elem_of_fmap_2. }
  split; cbn [limbo ghosts untracked held hollow].
  - rewrite <- (iv_config Hi). by destruct b.
  - rewrite <- (iv_chain Hi). by destruct b.
  - rewrite <- (iv_self Hi). by destruct b.
  - intros b' a' l0. rewrite lists_set. case_decide as Hb; [subst b'|].
    + intros [[<- <-]|[Hne Hl0]]%lookup_insert_Some.
      * exists rest. split; [|done]. split; [done|by rewrite Hst, (co_strict Hc)|]. intros tx Htx. apply (co_good Hc). rewrite Hp, elem_of_app. auto.
      * destruct (iv_lists Hi _ _ _ Hl0) as (ts0 & Hc0 & He). exists ts0. auto.
    + intros Hl0. destruct (iv_lists Hi _ _ _ Hl0) as (ts0 & Hc0 & He). exists ts0. auto.
  - pose proof (iv_table Hi). by destruct b.
  - intros tx. transitivity (Lookup.Get (all p) (Tx.Hash_ tx) = Some tx); [by destruct b|]. rewrite (iv_filed Hi tx), Hg. setoid_rewrite Hslot. rewrite (elem_of_app out (limbo s)). split.
    + intros [Hng [[b' Hb']|HL]]; [|split; [by apply not_elem_of_nil|auto]]. split; [by apply not_elem_of_nil|].
      destruct (decide (tx ∈ out)); [auto|]. left. exists b'. split; [done|]. intros (_ & _ & [?|?]%elem_of_app); done.
    + intros [_ [(b' & Hb' & Hno)|[Ho|HL]]].
      * split; [|eauto]. intros Hgo. apply Hno. destruct (Hin tx) as (_ & <- & Hs); [apply elem_of_app; auto|].
        split_and!; [by eapply (iv_apart Hi)|done|apply elem_of_app; auto].
      * destruct (Hin tx) as (_ & <- & Hs); [apply elem_of_app; auto|]. split; [|eauto]. intros ?. by eapply Hdisj.
      * destruct (iv_limbo Hi tx HL) as (_ & Hng & _). rewrite Hg in Hng. auto.
  - intros a' n b1 x b2 y [H1' _]%Hslot [H2' _]%Hslot. by eapply (iv_apart Hi).
  - intros tx [Ho|HL]%elem_of_app.
    + destruct (Hin tx) as (Hgd & Hsd & Hs); [apply elem_of_app; auto|]. split_and!; [done|by apply not_elem_of_nil|].
      intros b' t [Hs' Hno]%Hslot. rewrite Hsd in Hs', Hno. assert (b' = b) as -> by by eapply (iv_apart Hi).
      rewrite Hs in Hs'. injection Hs' as <-. destruct Hno. split_and!; [done..|]. apply elem_of_app; auto.
    + destruct (iv_limbo Hi tx HL) as (Hgd & _ & Hs). split_and!; [done|by apply not_elem_of_nil|].
      intros b' t [Hs' Hno]%Hslot. specialize (Hs _ _ Hs'). rewrite Hg in Hs. destruct Hno.
      destruct (slot_good Hi Hs') as (_ & Hst' & Hnt). destruct (Hin t) as (_ & Hta & Hts); [apply elem_of_app; auto|].
      rewrite Hst' in Hta. rewrite Hta, Hnt in *. split_and!; [by eapply (iv_apart Hi)|done|apply elem_of_app; auto].
  - rewrite fmap_app, NoDup_app. split_and!; [|..|apply (iv_limbo_nodup Hi)].
    + pose proof (content_nonces _ _ _ _ _ _ Hc) as Hnd. rewrite Hp, !fmap_app, !NoDup_app in Hnd. destruct Hnd as ((_ & _ & Hnd) & _).
      assert (snd <$> (key <$> out) = Tx.Nonce <$> out) as Hk by by rewrite <- list_fmap_compose. rewrite <- Hk in Hnd. by eapply NoDup_fmap_1.
    + intros k (x & -> & Hx)%list_elem_of_fmap (y & Hk & Hy)%list_elem_of_fmap. injection Hk as Hsd Hnn.
      destruct (Hin x) as (_ & Hxa & Hxs); [apply elem_of_app; auto|]. destruct (iv_limbo Hi y Hy) as (_ & _ & Hs).
      rewrite <- Hsd, <- Hnn, Hxa in Hs. specialize (Hs _ _ Hxs). rewrite Hg in Hs. by eapply Hdisj.
  - intros a'. transitivity (reserved p !! a' = Some me); [by destruct b|]. rewrite (iv_reserved Hi a'). f_equiv.
    split; intros [b' Hb']; exists b'; rewrite lists_set in *; case_decide; try done; subst.
    + destruct (decide (a = a')) as [<-|]; [by rewrite lookup_insert_eq|by rewrite lookup_insert_ne].
    + destruct (decide (a = a')) as [<-|]; [by rewrite Hl|by rewrite lookup_insert_ne in Hb'].
  - pose proof (iv_heaps Hi). by destruct b.
  - intros tx Htx. apply (iv_heaps_U Hi). by destruct b.
  - intros tx Htx. pose proof (iv_tracked Hi tx) as Ht. by destruct b; apply Ht in Htx.
  - pose proof (iv_schedule Hi). by destruct b.
  - pose proof (iv_state Hi). by destruct b.
Qed.

(** The list of an account, or a new one. *)
Lemma default_content s p b a :
  inv s p → ∃ ts, content b a (default (newList b) (lists b p !! a)) ts ∧
    ∀ n tx, slot (lists b p) a n = Some tx ↔ tx ∈ ts ∧ Tx.Nonce tx = n.
Proof.
  intros Hi. destruct (lists b p !! a) as [l|] eqn:Hl.
  - destruct (iv_lists Hi _ _ _ Hl) as (ts & Hc & _). exists ts. split; [done|]. intros n tx. by apply (slot_content cc U b a l).
  - exists []. split; [split; [apply ListLaws.newList_lrepr|done|by intros tx ?%elem_of_nil]|]. intros n tx.
    unfold slot. rewrite Hl. split; [done|]. by intros [?%elem_of_nil _].
Qed.

(** The slots of a list that got a transaction. *)
Lemma slot_put b p a ts l' t a' n tx :
  (∀ n tx, slot (lists b p) a n = Some tx ↔ tx ∈ ts ∧ Tx.Nonce tx = n) → StronglySorted SortedMap.nonce_lt ts →
  ListLaws.lrepr l' (SortedMap.put_nonce t ts) →
  slot (<[a := l']> (lists b p)) a' n = Some tx ↔
    (a' = a ∧ n = Tx.Nonce t ∧ tx = t) ∨ (slot (lists b p) a' n = Some tx ∧ ¬ (a' = a ∧ n = Tx.Nonce t)).
Proof.
  intros Hts Hs Hl'. rewrite slot_insert. case_decide as Ha; [subst a'|naive_solver].
  rewrite (SortedMap.Get_spec _ _ _ _ (ListLaws.lrepr_txs _ _ Hl')), (SortedMap.put_nonce_elem t ts tx Hs), Hts. naive_solver.
Qed.

(** Writing a list that got a transaction: what does not depend on where the
    transaction was before. *)
Lemma inv_write s s' p b t ts l' :
  inv s p → good cc U t → content b (sender_of t) (default (newList b) (lists b p !! sender_of t)) ts →
  (∀ n tx, slot (lists b p) (sender_of t) n = Some tx ↔ tx ∈ ts ∧ Tx.Nonce tx = n) →
  ListLaws.lrepr l' (SortedMap.put_nonce t ts) → strict l' = b →
  reserved p !! sender_of t = Some me → (∀ b', b' ≠ b → slot (lists b' p) (sender_of t) (Tx.Nonce t) = None) →
  untracked s' = untracked s → held s' = held s → hollow s' = hollow s →
  let p' := set_lists b (<[sender_of t := l']> (lists b p)) p in
  (∀ tx, Lookup.Get (all p) (Tx.Hash_ tx) = Some tx ↔
    tx ∉ ghosts s' ∧ ((∃ b, slot (lists b p') (sender_of tx) (Tx.Nonce tx) = Some tx) ∨ tx ∈ limbo s')) →
  (∀ tx, tx ∈ limbo s' → good cc U tx ∧ tx ∉ ghosts s' ∧
    ∀ b t, slot (lists b p') (sender_of tx) (Tx.Nonce tx) = Some t → t ∈ ghosts s') →
  NoDup (key <$> limbo s') → inv s' p'.
Proof.
  intros Hi Hg Hc Hts Hl' Hst Hres Hoth Hu Hh Ho p' Hf Hlb Hnd. set (a := sender_of t) in *.
  pose proof (content_sorted _ _ _ _ _ _ Hc) as Hs.
  assert (Hslot : ∀ b' a' n tx, slot (lists b' p') a' n = Some tx → (b' = b ∧ a' = a ∧ n = Tx.Nonce t) ∨ (slot (lists b' p) a' n = Some tx)).
  { intros b' a' n tx. unfold p'. rewrite lists_set. case_decide as Hb; [subst b'|auto]. rewrite (slot_put b p a ts l' t) by done. naive_solver. }
  split; rewrite ?Hu, ?Hh, ?Ho; try done.
  - rewrite <- (iv_config Hi). by destruct b.
  - rewrite <- (iv_chain Hi). by destruct b.
  - rewrite <- (iv_self Hi). by destruct b.
  - intros b' a' l0. unfold p'. rewrite lists_set. case_decide as Hb; [subst b'|apply (iv_lists Hi)].
    intros [[<- <-]|[Hne Hl0]]%lookup_insert_Some; [|by apply (iv_lists Hi)].
    exists (SortedMap.put_nonce t ts). split.
    + split; [done..|]. intros tx [->|[Htx _]]%SortedMap.put_nonce_elem; [done|by apply (co_good Hc)|done].
    + intros He. assert (t ∈ SortedMap.put_nonce t ts) as Hin by (apply SortedMap.put_nonce_elem; auto). rewrite He in Hin. by apply elem_of_nil in Hin.
  - pose proof (iv_table Hi). by destruct b.
  - intros tx. specialize (Hf tx). transitivity (Lookup.Get (all p) (Tx.Hash_ tx) = Some tx); [by destruct b|done].
  - assert (Hcross : ∀ b1 b2 a' n x y, slot (lists b1 p') a' n = Some x → slot (lists b2 p') a' n = Some y → b1 = b → b2 = b).
    { intros b1 b2 a' n x y Hx Hy ->. destruct (decide (b2 = b)) as [|Hne]; [done|]. unfold p' in Hy. rewrite lists_set, decide_False in Hy by done.
      apply Hslot in Hx as [(_ & -> & ->)|Hx]; [by rewrite Hoth in Hy|by eapply (iv_apart Hi)]. }
    intros a' n b1 x b2 y Hx Hy. destruct (decide (b1 = b)) as [->|Hn1]; [symmetry; exact (Hcross _ _ _ _ _ _ Hx Hy eq_refl)|].
    destruct (decide (b2 = b)) as [->|Hn2]; [exact (Hcross _ _ _ _ _ _ Hy Hx eq_refl)|]. unfold p' in Hx, Hy. rewrite lists_set, decide_False in Hx by done.
    rewrite lists_set, decide_False in Hy by done. by eapply (iv_apart Hi).
  - intros a'. transitivity (reserved p !! a' = Some me); [by destruct b|]. rewrite (iv_reserved Hi a'). split.
    + intros [[b' Hb']|?]; [left|auto]. exists b'. unfold p'. rewrite lists_set. case_decide; [subst b'|done].
      destruct (decide (a = a')) as [<-|]; [by rewrite lookup_insert_eq|by rewrite lookup_insert_ne].
    + intros [[b' Hb']|?]; [|auto]. unfold p' in Hb'. rewrite lists_set in Hb'. case_decide; [subst b'|eauto].
      destruct (decide (a = a')) as [<-|]; [by apply (iv_reserved Hi)|]. rewrite lookup_insert_ne in Hb' by done. eauto.
  - pose proof (iv_heaps Hi). by destruct b.
  - intros tx Htx. apply (iv_heaps_U Hi). by destruct b.
  - intros tx Htx. pose proof (iv_tracked Hi tx) as Ht. by destruct b; apply Ht in Htx.
  - pose proof (iv_schedule Hi). by destruct b.
  - pose proof (iv_state Hi). by destruct b.
Qed.

(** A transaction in limbo goes to a list. *)
Lemma inv_put s p b t L ts l' :
  inv s p → limbo s = t :: L → ghosts s = [] →
  content b (sender_of t) (default (newList b) (lists b p !! sender_of t)) ts →
  (∀ n tx, slot (lists b p) (sender_of t) n = Some tx ↔ tx ∈ ts ∧ Tx.Nonce tx = n) →
  ListLaws.lrepr l' (SortedMap.put_nonce t ts) → strict l' = b → reserved p !! sender_of t = Some me →
  inv (with_limbo L s) (set_lists b (<[sender_of t := l']> (lists b p)) p).
Proof.
  intros Hi HL Hg Hc Hts Hl' Hst Hres. destruct (iv_limbo Hi t) as (Hgood & _ & Hfree); [rewrite HL; by left|].
  assert (Hnone : ∀ b', slot (lists b' p) (sender_of t) (Tx.Nonce t) = None).
  { intros b'. destruct (slot _ _ _) as [x|] eqn:Hx; [|done]. apply Hfree in Hx. rewrite Hg in Hx. by apply elem_of_nil in Hx. }
  pose proof (content_sorted _ _ _ _ _ _ Hc) as Hs. pose proof (iv_limbo_nodup Hi) as Hnd. rewrite HL in Hnd. cbn in Hnd. apply NoDup_cons in Hnd as [Hnin Hnd].
  assert (Hslot : ∀ b' a' n tx, slot (lists b' (set_lists b (<[sender_of t := l']> (lists b p)) p)) a' n = Some tx ↔
    (b' = b ∧ a' = sender_of t ∧ n = Tx.Nonce t ∧ tx = t) ∨ slot (lists b' p) a' n = Some tx).
  { intros b' a' n tx. rewrite lists_set. case_decide as Hb; [subst b'|naive_solver]. rewrite (slot_put b p _ ts l' t) by done. split; [naive_solver|].
    intros [?|Hx]; [naive_solver|]. right. split; [done|]. intros [-> ->]. by rewrite Hnone in Hx. }
  eapply (inv_write s _ p b t ts l'); try done; cbn [limbo ghosts with_limbo]; rewrite Hg.
  - intros tx. rewrite (iv_filed Hi tx), Hg, HL. setoid_rewrite Hslot. split.
    + intros [_ [[b' Hb']|[->|Hx]%elem_of_cons]]; (split; [by apply not_elem_of_nil|]); [eauto| |auto]. left. exists b. naive_solver.
    + intros [_ [[b' [(_ & _ & _ & ->)|Hb']]|Hx]]; (split; [by apply not_elem_of_nil|]); [right; by left|eauto|right; by right].
  - intros tx Htx. destruct (iv_limbo Hi tx) as (Hgd & _ & Hf); [rewrite HL; by right|]. split_and!; [done|by apply not_elem_of_nil|].
    intros b' x [(_ & Ha & Hn & _)|Hx]%Hslot; [|rewrite <- Hg; by eapply Hf]. destruct Hnin. apply list_elem_of_fmap. exists tx. split; [|done].
    unfold LegacyInv.key. congruence.
Qed.

(** A new transaction goes to a list, where it may replace another. *)
Lemma inv_fresh s p b t ts l' :
  inv s p → limbo s = [] → ghosts s = [] → good cc U t → Lookup.Get (all p) (Tx.Hash_ t) = None →
  content b (sender_of t) (default (newList b) (lists b p !! sender_of t)) ts →
  (∀ n tx, slot (lists b p) (sender_of t) n = Some tx ↔ tx ∈ ts ∧ Tx.Nonce tx = n) →
  ListLaws.lrepr l' (SortedMap.put_nonce t ts) → strict l' = b → reserved p !! sender_of t = Some me →
  (∀ b', b' ≠ b → slot (lists b' p) (sender_of t) (Tx.Nonce t) = None) →
  inv (with_limbo (option_list (slot (lists b p) (sender_of t) (Tx.Nonce t))) (with_ghosts [t] s))
    (set_lists b (<[sender_of t := l']> (lists b p)) p).
Proof.
  intros Hi HL Hg Hgood Hnew Hc Hts Hl' Hst Hres Hoth. pose proof (content_sorted _ _ _ _ _ _ Hc) as Hs.
  set (old := slot (lists b p) (sender_of t) (Tx.Nonce t)).
  assert (Hslot : ∀ b' a' n tx, slot (lists b' (set_lists b (<[sender_of t := l']> (lists b p)) p)) a' n = Some tx ↔
    (b' = b ∧ a' = sender_of t ∧ n = Tx.Nonce t ∧ tx = t) ∨
    (slot (lists b' p) a' n = Some tx ∧ ¬ (b' = b ∧ a' = sender_of t ∧ n = Tx.Nonce t))).
  { intros b' a' n tx. rewrite lists_set. case_decide as Hb; [subst b'|naive_solver]. rewrite (slot_put b p _ ts l' t) by done. naive_solver. }
  assert (Hnot : ∀ tx, Lookup.Get (all p) (Tx.Hash_ tx) = Some tx → tx ≠ t) by congruence.
  assert (Hold : ∀ tx, tx ∈ option_list old → slot (lists b p) (sender_of t) (Tx.Nonce t) = Some tx ∧ good cc U tx ∧
    sender_of tx = sender_of t ∧ Tx.Nonce tx = Tx.Nonce t ∧ Lookup.Get (all p) (Tx.Hash_ tx) = Some tx).
  { intros tx Htx. unfold old in Htx. destruct (slot _ _ _) as [o|] eqn:Ho; [|by apply elem_of_nil in Htx]. apply list_elem_of_singleton in Htx as ->.
    destruct (slot_good Hi Ho) as (? & Ha & Hn). split_and!; try done. apply (iv_filed Hi). rewrite Hg, Ha, Hn. split; [by apply not_elem_of_nil|eauto]. }
  eapply (inv_write s _ p b t ts l'); try done; cbn [limbo ghosts with_limbo with_ghosts].
  - intros tx. setoid_rewrite Hslot. split.
    + intros Hx. split; [intros ->%list_elem_of_singleton; by apply (Hnot t)|]. apply (iv_filed Hi) in Hx as [_ [[b' Hb']|Hx]]; [|rewrite HL in Hx; by apply elem_of_nil in Hx].
      destruct (decide (b' = b ∧ sender_of tx = sender_of t ∧ Tx.Nonce tx = Tx.Nonce t)) as [(-> & Ha & Hn)|Hne]; [|eauto].
      right. unfold old. rewrite <- Ha, <- Hn, Hb'. by left.
    + intros [Hnt [[b' [(_ & _ & _ & ->)|[Hb' _]]]|Hx]]; [by destruct Hnt; left| |by apply Hold]. apply (iv_filed Hi). rewrite Hg.
      split; [by apply not_elem_of_nil|eauto].
  - intros tx (Hs' & Hgd & Ha & Hn & Hx)%Hold. split_and!; [done|intros ->%list_elem_of_singleton; by apply (Hnot t)|].
    intros b' x [(_ & _ & _ & ->)|[Hb' Hno]]%Hslot; [by left|]. destruct Hno. rewrite Ha, Hn in *. split_and!; [by eapply (iv_apart Hi)|done..].
  - unfold old. destruct (slot _ _ _); cbn; [apply NoDup_singleton|apply NoDup_nil_2].
Qed.

(** ** The table *)

Lemma Get_Remove t hash h : Lookup.Get (Lookup.Remove t hash) h = if decide (h = hash) then None else Lookup.Get t h.
Proof.
  unfold Lookup.Get, Lookup.Remove. change (lk_txs (Lookup.removeAuthorities t hash)) with (lk_txs t).
  destruct (lk_txs t !! hash) as [tx|] eqn:Hh; cbn [lk_txs]; case_decide as Heq; subst; try done.
  - by rewrite lookup_delete_eq.
  - by rewrite lookup_delete_ne.
Qed.

Lemma Get_Add t tx h : Lookup.Get (Lookup.Add t tx) h = if decide (h = Tx.Hash_ tx) then Some tx else Lookup.Get t h.
Proof.
  unfold Lookup.Get, Lookup.Add, Lookup.addAuthorities. cbn [lk_txs]. case_decide as Heq; [subst; by rewrite lookup_insert_eq|by rewrite lookup_insert_ne].
Qed.

(** What the table knows of a transaction when another one is removed. *)
Lemma Remove_filed s p t tx :
  inv s p → good cc U t →
  Lookup.Get (Lookup.Remove (all p) (Tx.Hash_ t)) (Tx.Hash_ tx) = Some tx ↔ Lookup.Get (all p) (Tx.Hash_ tx) = Some tx ∧ tx ≠ t.
Proof.
  intros Hi Hg. rewrite Get_Remove. case_decide as Heq; [|naive_solver]. split; [done|]. intros [Hx Hne]. destruct Hne.
  apply (un_hash HU); [by apply (table_good Hi) in Hx as [? _ _]|apply Hg|done].
Qed.

(** Removing from the table a transaction that is in limbo. *)
Lemma inv_forget s p t L :
  inv s p → limbo s = t :: L → inv (with_limbo L s) (set_all (Lookup.Remove (all p) (Tx.Hash_ t)) (priced p) p).
Proof.
  intros Hi HL. destruct (iv_limbo Hi t) as (Hg & Hng & Hfree); [rewrite HL; by left|].
  pose proof (iv_limbo_nodup Hi) as Hnd. rewrite HL in Hnd. cbn in Hnd. apply NoDup_cons in Hnd as [Hnin Hnd].
  destruct Hi as [H1' H2' H3' H4' H5' H6' H7' H8' H9' H10 H11 H12 H13 H14 H15] eqn:HI. clear HI.
  split; cbn [limbo ghosts untracked held hollow with_limbo]; try done.
  - by apply LookupLaws.Remove_ok.
  - intros tx. change (all (set_all _ _ p)) with (Lookup.Remove (all p) (Tx.Hash_ t)). rewrite (Remove_filed s) by done.
    change (lists ?b (set_all _ _ p)) with (lists b p). rewrite H6', HL. split.
    + intros [[Hn [Hs|[->|Hx]%elem_of_cons]] Hne]; [by auto|done|by auto].
    + intros [Hn Hs]. split; [split; [done|destruct Hs; [auto|right; by right]]|]. intros ->. destruct Hs as [[b Hs]|Hin].
      * destruct Hng. by eapply Hfree.
      * destruct Hnin. by apply list_elem_of_fmap_2.
  - intros tx Hx. apply H8'. rewrite HL. by right.
  - intros tx. change (all (set_all _ _ p)) with (Lookup.Remove (all p) (Tx.Hash_ t)). rewrite (Remove_filed s) by done. intros [? _]. by apply H13.
Qed.

(** Removing from the table a transaction that is in a list. *)
Lemma inv_lose s p b t :
  inv s p → slot (lists b p) (sender_of t) (Tx.Nonce t) = Some t → ghosts s = [] → limbo s = [] →
  inv (with_ghosts [t] s) (set_all (Lookup.Remove (all p) (Tx.Hash_ t)) (priced p) p).
Proof.
  intros Hi Hs Hg HL. destruct (slot_good Hi Hs) as (Hgood & _).
  destruct Hi as [H1' H2' H3' H4' H5' H6' H7' H8' H9' H10 H11 H12 H13 H14 H15] eqn:HI. clear HI.
  split; cbn [limbo ghosts untracked held hollow with_ghosts]; try done.
  - by apply LookupLaws.Remove_ok.
  - intros tx. change (all (set_all _ _ p)) with (Lookup.Remove (all p) (Tx.Hash_ t)). rewrite (Remove_filed s) by done.
    change (lists ?b (set_all _ _ p)) with (lists b p). rewrite H6', Hg, list_elem_of_singleton. split; [naive_solver|].
    intros [Hne Hx]. split; [|done]. split; [by apply not_elem_of_nil|done].
  - intros tx Hx. rewrite HL in Hx. by apply elem_of_nil in Hx.
  - intros tx. change (all (set_all _ _ p)) with (Lookup.Remove (all p) (Tx.Hash_ t)). rewrite (Remove_filed s) by done. intros [? _]. by apply H13.
Qed.

(** A listed transaction that the table does not have gets its entry. *)
Lemma inv_enter s p b t :
  inv s p → slot (lists b p) (sender_of t) (Tx.Nonce t) = Some t → ghosts s = [t] → limbo s = [] →
  Lookup.Get (all p) (Tx.Hash_ t) = None →
  inv (with_untracked (t :: untracked s) (with_ghosts [] s)) (set_all (Lookup.Add (all p) t) (priced p) p).
Proof.
  intros Hi Hs Hg HL Hnew. destruct (slot_good Hi Hs) as (Hgood & _).
  assert (Hget : ∀ tx, Lookup.Get (Lookup.Add (all p) t) (Tx.Hash_ tx) = Some tx ↔ tx = t ∨ Lookup.Get (all p) (Tx.Hash_ tx) = Some tx).
  { intros tx. rewrite Get_Add. case_decide as Heq; [|naive_solver]. rewrite Heq, Hnew. naive_solver. }
  destruct Hi as [H1' H2' H3' H4' H5' H6' H7' H8' H9' H10 H11 H12 H13 H14 H15] eqn:HI. clear HI.
  split; cbn [limbo ghosts untracked held hollow with_ghosts with_untracked]; try done.
  - by apply LookupLaws.Add_ok.
  - intros tx. change (all (set_all _ _ p)) with (Lookup.Add (all p) t). rewrite Hget.
    change (lists ?b (set_all _ _ p)) with (lists b p). rewrite H6', Hg, list_elem_of_singleton. split.
    + intros [->|[_ Hx]]; (split; [by apply not_elem_of_nil|eauto]).
    + intros [_ Hx]. destruct (decide (tx = t)); auto.
  - intros tx Hx. rewrite HL in Hx. by apply elem_of_nil in Hx.
  - intros tx. change (all (set_all _ _ p)) with (Lookup.Add (all p) t). rewrite Hget. intros [->|Hx]; [right; by left|].
    destruct (H13 _ Hx); [by left|right; by right].
Qed.

(** ** The price heaps *)

Lemma inv_heaps s p l W :
  inv s p → Priced.priced_ok l → (∀ tx, tx ∈ ph_list (urgent l) ++ ph_list (floating l) → U tx) →
  (∀ tx, Lookup.Get (all p) (Tx.Hash_ tx) = Some tx → tx ∈ ph_list (urgent l) ++ ph_list (floating l) ∨ tx ∈ W) →
  inv (with_untracked W s) (set_all (all p) l p).
Proof. intros [] ? ? ?. by split. Qed.

(** What the heaps hold counts when it has the hash of a transaction of the pool. *)
Lemma tracked_all s p tx : inv s p → Lookup.Get (all p) (Tx.Hash_ tx) = Some tx → tx ∈ heap_txs p → tx ∈ Priced.tracked (all p) (priced p).
Proof.
  intros Hi Hx Hin. apply SortedMap.elem_of_list_filter. split; [done|]. unfold Priced.is_live. rewrite Hx. by apply bool_decide_true.
Qed.

Lemma tracked_heap all l tx : tx ∈ Priced.tracked all l → tx ∈ ph_list (urgent l) ++ ph_list (floating l).
Proof. by intros [? _]%SortedMap.elem_of_list_filter. Qed.

Lemma inv_Put s p t W :
  inv s p → U t → untracked s = t :: W → inv (with_untracked W s) (set_all (all p) (Priced.Put (priced p) t) p).
Proof.
  intros Hi Ht HW. destruct (Priced.Put_spec (all p) (priced p) t (iv_heaps Hi)) as (Hok & Hp & _). apply inv_heaps; [done|done|..].
  - intros tx. rewrite Hp. intros [->|Hx]%elem_of_cons; [done|by apply (iv_heaps_U Hi)].
  - intros tx Hx. rewrite Hp. destruct (iv_tracked Hi tx Hx) as [Hh|Hw]; [left; by right|]. rewrite HW in Hw.
    apply elem_of_cons in Hw as [->|Hw]; [left; by left|by right].
Qed.

Lemma Reheap_inv s p l0 :
  inv s p → ∃ l, Priced.Reheap (all p) l0 = Some l ∧ inv (with_untracked [] s) (set_all (all p) l p).
Proof.
  intros Hi. destruct (Priced.Reheap_spec _ (all p) l0) as (l & HR & Hok & _ & _ & Hp & _). exists l. split; [done|]. apply inv_heaps; [done|done|..].
  - intros tx. rewrite Hp. intros ([h tx'] & -> & Hx)%list_elem_of_fmap. apply elem_of_map_to_list in Hx. cbn.
    pose proof (table_hash Hi Hx) as ->. apply (table_good Hi Hx).
  - intros tx Hx. left. rewrite Hp. apply list_elem_of_fmap. exists (Tx.Hash_ tx, tx). split; [done|]. by apply elem_of_map_to_list.
Qed.

Lemma priced_Removed_wp s p n (Q : () → LegacyPool St → Prop) X :
  inv s p → (∀ l, inv s (set_all (all p) l p) → Q tt (set_all (all p) l p)) → wp (priced_Removed n) Q X p.
Proof.
  intros Hi HQ. unfold priced_Removed. steps. unfold Priced.Removed.
  set (l := MkPricedList _ _ _). destruct (_ <=? _).
  - apply (wp_of_option _ _ l); [done|]. apply wp_modify. apply HQ.
    eapply inv_weaken; [apply (inv_heaps s p l (untracked s)); [done|split; apply (iv_heaps Hi)|apply (iv_heaps_U Hi)|apply (iv_tracked Hi)]|done..].
  - destruct (Reheap_inv s p l Hi) as (l' & HR & Hi'). apply (wp_of_option _ _ l'); [done|]. apply wp_modify. apply HQ.
    eapply inv_weaken; [exact Hi'|done|done|by intros ? ?%elem_of_nil|done|done].
Qed.

(** ** Reservations and other parts *)

(** An empty list goes, when its account stays listed or held. *)
Lemma inv_delete s p b a l (hollow' : bool → Address → Prop) :
  inv s p → lists b p !! a = Some l → content b a l [] → is_Some (lists (negb b) p !! a) ∨ held s a →
  (∀ b' a', hollow s b' a' → (b' = b ∧ a' = a) ∨ hollow' b' a') →
  inv (with_hollow hollow' s) (set_lists b (delete a (lists b p)) p).
Proof.
  intros Hi Hl Hc Hres HE.
  assert (Hslot : ∀ b' a' n, slot (lists b' (set_lists b (delete a (lists b p)) p)) a' n = slot (lists b' p) a' n).
  { intros b' a' n. rewrite lists_set. case_decide; [subst b'|done]. by eapply slot_delete_empty. }
  split; cbn [limbo ghosts untracked held hollow with_hollow].
  - rewrite <- (iv_config Hi). by destruct b.
  - rewrite <- (iv_chain Hi). by destruct b.
  - rewrite <- (iv_self Hi). by destruct b.
  - intros b' a' l0 Hl0. rewrite lists_set in Hl0. case_decide as Hb; [subst b'; apply lookup_delete_Some in Hl0 as [Hne Hl0]|];
      destruct (iv_lists Hi _ _ _ Hl0) as (ts & Hct & He); exists ts; (split; [done|]); intros Hnil; destruct (HE _ _ (He Hnil)); naive_solver.
  - pose proof (iv_table Hi). by destruct b.
  - intros tx. transitivity (Lookup.Get (all p) (Tx.Hash_ tx) = Some tx); [by destruct b|]. rewrite (iv_filed Hi tx). by setoid_rewrite Hslot.
  - intros a' n b1 x b2 y. rewrite !Hslot. apply (iv_apart Hi).
  - intros tx Hx. setoid_rewrite Hslot. by apply (iv_limbo Hi).
  - apply (iv_limbo_nodup Hi).
  - intros a'. transitivity (reserved p !! a' = Some me); [by destruct b|]. rewrite (iv_reserved Hi a'). split.
    + intros [[b' Hb']|?]; [|auto]. destruct (decide (a' = a)) as [->|Hne].
      * destruct Hres as [Hres|?]; [|auto]. left. exists (negb b). rewrite lists_set. by destruct b.
      * left. exists b'. rewrite lists_set. case_decide; [subst; by rewrite lookup_delete_ne|done].
    + intros [[b' Hb']|?]; [|auto]. rewrite lists_set in Hb'. case_decide; [subst|eauto]. destruct Hb' as [? [? ?]%lookup_delete_Some]. left; eauto.
  - pose proof (iv_heaps Hi). by destruct b.
  - intros tx Htx. apply (iv_heaps_U Hi). by destruct b.
  - intros tx Htx. pose proof (iv_tracked Hi tx) as Ht. by destruct b; apply Ht in Htx.
  - pose proof (iv_schedule Hi). by destruct b.
  - pose proof (iv_state Hi). by destruct b.
Qed.

(** An account without lists is released. *)
Lemma inv_release s p a (held' : Address → Prop) :
  inv s p → lists true p !! a = None → lists false p !! a = None →
  (∀ a', held' a' ↔ held s a' ∧ a' ≠ a) → inv (with_held held' s) (set_reserved (delete a (reserved p)) p).
Proof.
  intros Hi Ht Hf Hh. destruct Hi as [] eqn:HI. split; try done. intros a'. cbn [reserved set_reserved held with_held].
  change (lists ?b (set_reserved _ p)) with (lists b p). rewrite Hh. destruct (decide (a' = a)) as [->|Hne].
  - rewrite lookup_delete_eq. split; [done|]. intros [[[] [l Hl]]|[_ ?]]; congruence.
  - rewrite lookup_delete_ne by done. rewrite iv_reserved0. naive_solver.
Qed.

(** An account is reserved. *)
Lemma inv_reserve s p a (held' : Address → Prop) :
  inv s p → (∀ a', held' a' ↔ a' = a ∨ held s a') → inv (with_held held' s) (set_reserved (<[a := me]> (reserved p)) p).
Proof.
  intros Hi Hh. destruct Hi as [] eqn:HI. split; try done. intros a'. cbn [reserved set_reserved held with_held].
  change (lists ?b (set_reserved _ p)) with (lists b p). rewrite Hh. destruct (decide (a' = a)) as [->|Hne].
  - rewrite lookup_insert_eq. naive_solver.
  - rewrite lookup_insert_ne by done. rewrite iv_reserved0. naive_solver.
Qed.

Lemma inv_nonces s p x : inv s p → inv s (set_nonces x p).
Proof. intros []. by split. Qed.
Lemma inv_beats s p x n : inv s p → inv s (set_beats x n p).
Proof. intros []. by split. Qed.
Lemma inv_changes s p x : inv s p → inv s (set_changes x p).
Proof. intros []. by split. Qed.
Lemma inv_gasTip s p x : inv s p → inv s (set_gasTip x p).
Proof. intros []. by split. Qed.
Lemma inv_feed s p x : inv s p → inv s (send_feed x p).
Proof. intros []. by split. Qed.
Lemma inv_schedule s p x : inv s p → sched_ok cc x → inv s (set_schedule x p).
Proof. intros [] ?. by split. Qed.
Lemma inv_head s p h st n : inv s p → settled cc st h → inv s (set_head h st n p).
Proof. intros [] ?. by split. Qed.
End Parts.

#[global] Arguments inv_take {St H H1 H3 cfg cc me U s p b a l ts l'} gone out rest hollow'. #[global] Arguments default_content {_ _ _ _ _ _ _ _ _ _}.
#[global] Arguments inv_put {_ _ _ _ _ _ _ _ _ _ _ _ _ _ _}. #[global] Arguments inv_fresh {_ _ _ _ _ _ _ _ _ _ _ _ _ _}.
#[global] Arguments inv_enter {_ _ _ _ _ _ _ _ _ _}. #[global] Arguments inv_Put {_ _ _ _ _ _ _ _ _ _}.
