(* ===== verification/LegacyMoves.v ===== *)
(** * Moving transactions in the legacy pool

    Queueing, promoting and removing keep the invariant of LegacyInv.v: what leaves
    a list is in limbo until it is queued, promoted or dropped from the table. *)

From S2P Require Import Prelude StateError GoSort GoHeap TxTypes Signers ChainConfig BlockFees StateInterface.
From S2P Require Import SortedMap LegacyList LegacyPriced TxValidation TxPool LegacyPool LegacyInv.
Open Scope eigen_scope.
Open Scope step_scope.

(** A call whose error is kept, or dropped. *)
Lemma wp_try {S A} (m : SE S txpool_error A) (Q : result txpool_error A → S → Prop) X s :
  wp m (λ a, Q (Ok a)) (λ e s, match e with PoolPanic => X e s | _ => Q (Err e) s end) s → wp (try_ m) Q X s.
Proof. unfold wp, try_. destruct (m s) as [[a|e] s']; [auto|]. destruct e; auto. Qed.

Lemma wp_ignore {S A} (m : SE S txpool_error A) (Q : () → S → Prop) X s :
  wp m (λ _, Q tt) (λ e s, match e with PoolPanic => X e s | _ => Q tt s end) s → wp (ignore m) Q X s.
Proof. intros Hm. unfold ignore. step. apply wp_try. eapply wp_mono; [exact Hm|done|]. intros e s'. by destruct e. Qed.

(** A loop, by an invariant over what is left of the list. *)
Lemma wp_each {S A} (f : A → SE S txpool_error ()) (I : list A → S → Prop) (X : txpool_error → S → Prop) l s :
  I l s → (∀ x l s, I (x :: l) s → wp (f x) (λ _, I l) X s) → wp (each f l) (λ _, I []) X s.
Proof.
  intros HI Hf. revert s HI. induction l as [|x l IH]; intros s HI; cbn [each]; [done|]. step. eapply wp_conseq; [by apply Hf|]. intros [] s'. apply IH.
Qed.

Section Moves.
Context {St : Type} `{AccountState St, CodeHashes St, Sending, BlobProofs, Authorities, HeaderHash, Clock, MapRange, Sorter}.
Context (cfg : Config) (cc : ChainConfig) (me : nat) (U : Transaction → Prop) (HU : universe U).
Implicit Types p : LegacyPool St.
Abbreviation inv := (inv cfg cc me U).
Abbreviation sender_of := (sender_of cc).
Abbreviation content := (content cc U).
Abbreviation good := (good cc U).

(** What a step on the lists of one kind leaves alone: the other lists, the
    reservations, the head. *)
Record kept (b : bool) p p' : Prop := {
  kept_lists : lists b p' = lists b p;
  kept_reserved : reserved p' = reserved p;
  kept_state : currentState p' = currentState p;
  kept_head : currentHead p' = currentHead p
}.

Lemma kept_refl b p : kept b p p.
Proof. by split. Qed.
Lemma kept_trans b p1 p2 p3 : kept b p1 p2 → kept b p2 p3 → kept b p1 p3.
Proof. intros [] []. split; congruence. Qed.
#[local] Hint Resolve kept_refl : core.

(** ** Into a list *)

Lemma fits b a l ts t : content b a l ts → good t → ListLaws.total (SortedMap.put_nonce t ts) < two256.
Proof.
  intros Hc Ht. pose proof (content_sorted _ _ _ _ _ _ Hc) as Hs. apply Lists.total_fits; [by apply SortedMap.put_nonce_sorted|..].
  - intros tx [->|[Htx _]]%SortedMap.put_nonce_elem; [apply (un_nonce HU), Ht|by apply (ListLaws.lrepr_nonces _ _ (co_lrepr Hc))|done].
  - intros tx [->|[Htx _]]%SortedMap.put_nonce_elem; [apply Ht|by apply (co_good Hc)|done].
Qed.

(** Adding a transaction from limbo to a list of its sender succeeds. *)
Lemma add_limbo s p b t L bump :
  inv s p → limbo s = t :: L → ghosts s = [] → reserved p !! sender_of t = Some me →
  ∃ l', LegacyList.Add (default (newList b) (lists b p !! sender_of t)) t bump = Some (true, None, l') ∧
    inv (with_limbo L s) (set_lists b (<[sender_of t := l']> (lists b p)) p).
Proof.
  intros Hi HL Hg Hres. destruct (iv_limbo Hi t) as (Hgood & _ & Hfree); [rewrite HL; by left|].
  destruct (default_content b (sender_of t) Hi) as (ts & Hc & Hts).
  assert (Hold : SortedMap.Get (txs (default (newList b) (lists b p !! sender_of t))) (Tx.Nonce t) = None).
  { destruct (SortedMap.Get _ _) as [o|] eqn:Ho; [|done]. apply (SortedMap.Get_spec _ _ _ _ (ListLaws.lrepr_txs _ _ (co_lrepr Hc))) in Ho.
    apply Hts, Hfree in Ho. rewrite Hg in Ho. by apply elem_of_nil in Ho. }
  destruct (Lists.Add_outcome _ ts t bump (co_lrepr Hc)) as [(o & Ho & _)|(_ & l' & HA & Hst & Hl')];
    [apply (un_nonce HU), Hgood|apply (un_cost HU), Hgood|by eapply fits|congruence|].
  exists l'. rewrite HA, Hold. split; [done|]. eapply inv_put; try done. by rewrite Hst, (co_strict Hc).
Qed.

Lemma put_same (b : bool) p : set_lists b (lists b p) p = p.
Proof. by destruct b, p. Qed.

Lemma put_twice (b : bool) a l l' p :
  set_lists b (<[a := l']> (lists b (set_lists b (<[a := l]> (lists b p)) p))) (set_lists b (<[a := l]> (lists b p)) p) =
    set_lists b (<[a := l']> (lists b p)) p.
Proof. destruct b; unfold set_lists, lists; cbn; by rewrite insert_insert_eq. Qed.

Lemma put_queue_twice a l l' p :
  set_queue (<[a := l']> (queue (set_queue (<[a := l]> (queue p)) p))) (set_queue (<[a := l]> (queue p)) p) =
    set_queue (<[a := l']> (queue p)) p.
Proof. apply (put_twice false). Qed.

Lemma put_pending_twice a l l' p :
  set_pending (<[a := l']> (pending (set_pending (<[a := l]> (pending p)) p))) (set_pending (<[a := l]> (pending p)) p) =
    set_pending (<[a := l']> (pending p)) p.
Proof. apply (put_twice true). Qed.

(** The heartbeat at the end of queueing. *)
Lemma beat_unless s p from b (Q : () → LegacyPool St → Prop) X :
  inv s p → (∀ p', inv s p' → kept true p p' → kept false p p' → all p' = all p → Q tt p') →
  wp (when (negb b) (beat from)) Q X p.
Proof.
  intros Hi HQ. destruct b; cbn [negb when]; steps; [by apply HQ|].
  unfold beat. steps. apply HQ; try done. by apply inv_beats.
Qed.

Lemma enqueue_limbo s p t L (Q : bool → LegacyPool St → Prop) X :
  inv s p → limbo s = t :: L → ghosts s = [] → reserved p !! sender_of t = Some me →
  (∀ p', inv (with_limbo L s) p' → kept true p p' → all p' = all p → Q false p') →
  wp (enqueueTx (Tx.Hash_ t) t false) Q X p.
Proof.
  intros Hi HL Hg Hres HQ. unfold enqueueTx, put_queue. steps. unfold id. rewrite (sender_is cc p t (iv_chain Hi)).
  destruct (add_limbo s p false t L (PriceBump (config p)) Hi HL Hg Hres) as (l' & HA & Hi').
  eapply wp_of_option; [exact HA|]. cbn [fst snd]. steps. rewrite put_queue_twice. cbn [negb replace_old has]. steps. cbn [when]. steps.
  apply (beat_unless (with_limbo L s)); [exact Hi'|]. intros p' Hp' [] _ Ha. steps. by apply HQ.
Qed.

Lemma promote_limbo s p t L (Q : bool → LegacyPool St → Prop) X :
  inv s p → limbo s = t :: L → ghosts s = [] → reserved p !! sender_of t = Some me →
  (∀ p', inv (with_limbo L s) p' → kept false p p' → is_Some (pending p' !! sender_of t) → Q true p') →
  wp (promoteTx (sender_of t) (Tx.Hash_ t) t) Q X p.
Proof.
  intros Hi HL Hg Hres HQ. unfold promoteTx, put_pending, nonce_set, beat. steps. unfold id.
  destruct (add_limbo s p true t L (PriceBump (config p)) Hi HL Hg Hres) as (l' & HA & Hi').
  eapply wp_of_option; [exact HA|]. cbn [fst snd]. steps. rewrite put_pending_twice. cbn [negb replace_old]. steps. apply HQ.
  - by apply inv_beats, inv_nonces.
  - by split.
  - cbn. rewrite lookup_insert_eq. by eexists.
Qed.

(** Dropping the replaced transaction of a list from the table. *)
Lemma replace_old_wp s p o (Q : () → LegacyPool St → Prop) X :
  inv s p → limbo s = option_list o →
  (∀ p', inv (with_limbo [] s) p' → kept true p p' → kept false p p' → (∀ h, Lookup.Get (all p) h = None → Lookup.Get (all p') h = None) → Q tt p') →
  wp (replace_old o) Q X p.
Proof.
  intros Hi HL HQ. destruct o as [o|]; cbn [replace_old option_list] in *.
  - unfold all_Remove. steps. eapply (priced_Removed_wp cfg cc me U (with_limbo [] s)); [by eapply (inv_forget cfg cc me U HU)|].
    intros l Hp'. apply HQ; [done..|]. intros h Hh. cbn [all set_all]. rewrite Get_Remove. by case_decide.
  - steps. apply HQ; try done. by eapply inv_weaken.
Qed.

(** ** A new transaction *)

(** What makes a transaction new to the pool, in the list of one kind. *)
Record fresh (s : slack) (b : bool) (t : Transaction) p : Prop := {
  fr_limbo : limbo s = [];
  fr_ghosts : ghosts s = [];
  fr_good : good t;
  fr_new : Lookup.Get (all p) (Tx.Hash_ t) = None;
  fr_reserved : reserved p !! sender_of t = Some me;
  fr_other b' : b' ≠ b → slot (lists b' p) (sender_of t) (Tx.Nonce t) = None
}.

(** Adding it to the list: refused, or in the list and unknown to the table, the
    transaction that it replaces in limbo. *)
Lemma add_fresh s p b t bump :
  inv s p → fresh s b t p →
  let l := default (newList b) (lists b p !! sender_of t) in
  let old := slot (lists b p) (sender_of t) (Tx.Nonce t) in
  (LegacyList.Add l t bump = Some (false, None, l) ∧ lists b p !! sender_of t = Some l ∧
     ∃ o, old = Some o ∧ LegacyList.outbids o t bump = false) ∨
  (∃ l', LegacyList.Add l t bump = Some (true, old, l') ∧
     (∀ o, old = Some o → LegacyList.outbids o t bump = true) ∧
     inv (with_limbo (option_list old) (with_ghosts [t] s)) (set_lists b (<[sender_of t := l']> (lists b p)) p) ∧
     SortedMap.Get (txs l') (Tx.Nonce t) = Some t).
Proof.
  intros Hi [HL Hg Hgood Hnew Hres Hoth] l old. destruct (default_content b (sender_of t) Hi) as (ts & Hc & Hts). fold l in Hc.
  assert (Hold : SortedMap.Get (txs l) (Tx.Nonce t) = old).
  { apply option_eq. intros o. unfold old. by rewrite Hts, (SortedMap.Get_spec _ _ _ _ (ListLaws.lrepr_txs _ _ (co_lrepr Hc))). }
  destruct (Lists.Add_outcome l ts t bump (co_lrepr Hc)) as [(o & Ho & Hbid & HA)|(Hbid & l' & HA & Hst & Hl')];
    [apply (un_nonce HU), Hgood|apply (un_cost HU), Hgood|by eapply fits|left|right].
  - split; [done|]. rewrite Hold in Ho. split; [|by exists o]. unfold old, slot in Ho. unfold l.
    by destruct (lists b p !! sender_of t).
  - rewrite Hold in HA, Hbid. exists l'. split_and!; [done|done| |].
    + eapply inv_fresh; try done. by rewrite Hst, (co_strict Hc).
    + apply (SortedMap.Get_spec _ _ _ _ (ListLaws.lrepr_txs _ _ Hl')). split; [|done].
      apply SortedMap.put_nonce_elem; [by eapply content_sorted|by left].
Qed.

(** Its entry in the table and in the heaps. *)
Lemma inv_admit s p b t :
  inv (with_limbo [] (with_ghosts [t] s)) p → limbo s = [] → ghosts s = [] → good t →
  slot (lists b p) (sender_of t) (Tx.Nonce t) = Some t → Lookup.Get (all p) (Tx.Hash_ t) = None →
  inv s (set_all (Lookup.Add (all p) t) (Priced.Put (priced p) t) p).
Proof.
  intros Hi HL Hg Hgood Hs Hnew.
  pose proof (inv_enter b t Hi Hs eq_refl eq_refl Hnew) as He.
  pose proof (inv_Put t (untracked s) He (good_U Hgood) eq_refl) as HP. by eapply inv_weaken.
Qed.

Lemma enqueue_fresh s p t (Q : bool → LegacyPool St → Prop) (X : txpool_error → LegacyPool St → Prop) :
  inv s p → fresh s false t p →
  (∀ r p', inv s p' → kept true p p' → Lookup.Get (all p') (Tx.Hash_ t) = Some t → Q r p') →
  (is_Some (queue p !! sender_of t) → X ErrReplaceUnderpriced p) →
  wp (enqueueTx (Tx.Hash_ t) t true) Q X p.
Proof.
  intros Hi Hfr HQ HX. pose proof Hfr as [HL Hg Hgood Hnew _ _]. unfold enqueueTx, put_queue, all_Add, priced_Put. steps. unfold id.
  rewrite (sender_is cc p t (iv_chain Hi)).
  destruct (add_fresh s p false t (PriceBump (config p)) Hi Hfr) as [(HA & Hl & _)|(l' & HA & _ & Hi' & Hslot)];
    (eapply wp_of_option; [exact HA|]); cbn [fst snd]; steps; rewrite put_queue_twice; cbn [negb].
  - apply wp_fail. rewrite insert_id by done. change (set_queue (queue p) p) with (set_lists false (lists false p) p).
    rewrite put_same. apply HX. by exists (default (newList false) (lists false p !! sender_of t)).
  - steps. eapply replace_old_wp; [exact Hi'|done|]. intros p1 Hp1 [Ht1 Hr1 Hs1 Hh1] [Hf1 _ _ _] Hn1.
    cbn [when]. steps. apply (beat_unless s).
    + eapply (inv_admit s p1 false); try done; [|by apply Hn1]. rewrite Hf1. cbn. rewrite slot_insert, decide_True by done. done.
    + intros p2 Hp2 [Ht2 Hr2 Hs2 Hh2] _ Ha2. steps. apply HQ; [done| |].
      * split; cbn in *; congruence.
      * rewrite Ha2. cbn. by rewrite Get_Add, decide_True by done.
Qed.

(** The event of a new transaction. *)
Lemma inv_event s p t : inv s p → inv s ((queueTxEvent t p).2).
Proof.
  intros Hi. unfold queueTxEvent, modify. cbn [snd]. apply inv_schedule; [done|]. destruct (iv_schedule Hi) as [Hev Hrq]. split; [cbn [rq_events]|done].
  intros a m [[<- <-]|[_ Hm]]%lookup_insert_Some; [|exact (Hev a m Hm)].
  destruct (rq_events (schedule p) !! sender p t) as [m0|] eqn:Hm0; cbn [default].
  - destruct (Hev _ _ Hm0) as [ts Hts]. eexists. by apply SortedMap.Put_repr.
  - eexists. apply SortedMap.Put_repr, SortedMap.NewSortedMap_repr.
Qed.

Lemma replace_pending_wp s p t l (Q : bool → LegacyPool St → Prop) (X : txpool_error → LegacyPool St → Prop) :
  inv s p → fresh s true t p → pending p !! sender_of t = Some l →
  (∀ r p', inv s p' → kept false p p' → Lookup.Get (all p') (Tx.Hash_ t) = Some t → Q r p') → X ErrReplaceUnderpriced p →
  wp (replace_pending (sender_of t) t l) Q X p.
Proof.
  intros Hi Hfr Hl HQ HX. pose proof Hfr as [HL Hg Hgood Hnew _ _]. unfold replace_pending, put_pending, all_Add, priced_Put, beat. steps.
  destruct (add_fresh s p true t (PriceBump (config p)) Hi Hfr) as [(HA & Hl' & _)|(l' & HA & _ & Hi' & Hslot)];
    cbn [lists] in HA; rewrite Hl in HA; cbn [default] in HA; (eapply wp_of_option; [exact HA|]); cbn [fst snd]; steps; cbn [negb].
  - apply wp_fail. rewrite insert_id by done. change (set_pending (pending p) p) with (set_lists true (lists true p) p).
    by rewrite put_same.
  - steps. eapply replace_old_wp; [exact Hi'|done|]. intros p1 Hp1 [Ht1 Hr1 Hs1 Hh1] [Hf1 _ _ _] Hn1. steps.
    match goal with |- wp (queueTxEvent t) _ _ ?p2 => assert (Hp2 : inv s p2) end.
    { eapply (inv_admit s p1 true); try done; [|by apply Hn1]. rewrite Ht1. cbn. rewrite slot_insert, decide_True by done. done. }
    apply inv_event with (t := t) in Hp2. unfold queueTxEvent in *. steps. apply HQ; [by apply inv_beats| |].
    + split; cbn in *; congruence.
    + cbn. by rewrite Get_Add, decide_True by done.
Qed.

(** ** Out of a list *)

Lemma Empty_spec b a l ts : content b a l ts → LegacyList.Empty l = bool_decide (ts = []).
Proof.
  intros Hc. unfold LegacyList.Empty, LegacyList.Len. rewrite (SortedMap.Len_spec _ _ (ListLaws.lrepr_txs _ _ (co_lrepr Hc))).
  destruct (Z.eqb_spec (len ts) 0) as [Hz|Hz]; [rewrite bool_decide_true; [done|by apply len_zero_iff]|].
  rewrite bool_decide_false; [done|]. intros ->. done.
Qed.

(** An account that is reserved may be held besides, and need not be when it has a
    list. *)
Lemma inv_hold s p a : inv s p → reserved p !! a = Some me → inv (with_held (or_at a (held s)) s) p.
Proof.
  intros Hi Ha. destruct Hi as [] eqn:HI. split; try done. intros a'. rewrite iv_reserved. unfold or_at. cbn [held with_held]. split; [naive_solver|].
  intros [?|[->|?]]; [auto|by apply iv_reserved|auto].
Qed.

Lemma inv_unhold s p a b : inv (with_held (or_at a (held s)) s) p → is_Some (lists b p !! a) → inv s p.
Proof.
  intros Hi Ha. destruct Hi as [] eqn:HI. split; try done. intros a'. rewrite iv_reserved. unfold or_at. cbn [held with_held]. split; [|naive_solver].
  intros [?|[->|?]]; [auto|left; by exists b|auto].
Qed.

(** Dropping transactions in limbo. *)
Lemma forget_wp s p ts L (Q : () → LegacyPool St → Prop) X :
  inv s p → limbo s = ts ++ L →
  (∀ p', inv (with_limbo L s) p' → kept true p p' → kept false p p' → pendingNonces p' = pendingNonces p → Q tt p') →
  wp (forget ts) Q X p.
Proof.
  intros Hi HL HQ. unfold forget. eapply wp_conseq.
  - apply (wp_each _ (λ ts p', inv (with_limbo (ts ++ L) s) p' ∧ kept true p p' ∧ kept false p p' ∧ pendingNonces p' = pendingNonces p)).
    + split_and!; [by eapply inv_weaken|done..].
    + intros t l p1 (Hp1 & Ht & Hf & Hn). unfold all_Remove. steps. split_and!.
      * by apply (inv_forget cfg cc me U HU _ p1 t (l ++ L) Hp1).
      * by eapply kept_trans; [exact Ht|].
      * by eapply kept_trans; [exact Hf|].
      * done.
  - cbn beta. intros [] p' (Hp' & Ht & Hf & Hn). by apply HQ.
Qed.

(** Queueing transactions from limbo. *)
Lemma demote_wp s p ts L (Q : () → LegacyPool St → Prop) X :
  inv s p → limbo s = ts ++ L → ghosts s = [] → (∀ t, t ∈ ts → reserved p !! sender_of t = Some me) →
  (∀ p', inv (with_limbo L s) p' → kept true p p' → all p' = all p → Q tt p') → wp (demote ts) Q X p.
Proof.
  intros Hi HL Hg Hres HQ. unfold demote. eapply wp_conseq.
  - apply (wp_each _ (λ ts p', inv (with_limbo (ts ++ L) s) p' ∧ kept true p p' ∧ (∀ t, t ∈ ts → reserved p !! sender_of t = Some me) ∧ all p' = all p)).
    + split_and!; [by eapply inv_weaken|done..].
    + intros t l p1 (Hp1 & Ht & Hr & Ha). apply wp_ignore. eapply (enqueue_limbo _ p1 t (l ++ L)); [exact Hp1|done|done|..].
      * rewrite (kept_reserved _ _ _ Ht). apply Hr. by left.
      * intros p2 Hp2 Ht2 Ha2. split_and!; [done|by eapply kept_trans|intros; apply Hr; by right|congruence].
  - cbn beta. intros [] p' (Hp' & Ht & _ & Ha). by apply HQ.
Qed.

(** A transaction, those after it and those before it. *)
Lemma around ts t : StronglySorted SortedMap.nonce_lt ts → t ∈ ts →
  ts ≡ₚ ([t] ++ ListLaws.after (Tx.Nonce t) ts) ++ ListLaws.before (Tx.Nonce t) ts.
Proof.
  intros Hs Ht. rewrite (SortedMap.without_nonce_perm t ts Hs Ht) at 1. cbn. f_equiv.
  rewrite <- (ListLaws.after_without (Tx.Nonce t) ts), <- (ListLaws.before_without (Tx.Nonce t) ts).
  apply ListLaws.filter_split_perm.
Qed.

Lemma slot_list m a n t : slot m a n = Some t → ∃ l, m !! a = Some l.
Proof. unfold slot. intros (l & Hl & _)%bind_Some. by exists l. Qed.

(** An emptied list is deleted, while its account is held. *)
Lemma delete_if_empty s p b a l ts h' :
  inv (with_hollow h' s) p → lists b p !! a = Some l → content b a l ts → held s a →
  (∀ b' a', h' b' a' → (b' = b ∧ a' = a ∧ ts = []) ∨ hollow s b' a') →
  inv s (if LegacyList.Empty l then set_lists b (delete a (lists b p)) p else p).
Proof.
  intros Hi Hl Hc Hh Hh'. rewrite (Empty_spec _ _ _ _ Hc). case_bool_decide as Hts.
  - subst ts. eapply inv_weaken; [eapply (inv_delete _ _ _ _ (with_hollow h' s) p b a l (hollow s)); try done; [by right|]|done..].
    intros b' a' ?. cbn in *. destruct (Hh' b' a'); naive_solver.
  - eapply inv_weaken; [exact Hi|done..|]. cbn. intros b' a' ?. destruct (Hh' b' a'); naive_solver.
Qed.

Lemma when_state {S} (b : bool) (f : S → S) (Q : () → S → Prop) (X : txpool_error → S → Prop) s :
  Q tt (if b then f s else s) → wp (when b (modify f)) Q X s.
Proof. by destruct b. Qed.

Lemma remove_pending_in s p t (Q : option Z → LegacyPool St → Prop) X :
  inv s p → ghosts s = [t] → limbo s = [] → slot (pending p) (sender_of t) (Tx.Nonce t) = Some t → held s (sender_of t) →
  (∀ n p', inv (with_ghosts [] s) p' → reserved p' = reserved p → all p' = all p → Q (Some n) p') →
  wp (remove_pending (sender_of t) t) Q X p.
Proof.
  intros Hi Hg HL Hs Hh HQ. set (a := sender_of t) in *. unfold remove_pending, put_pending, delete_pending, nonce_setIfLower. steps. unfold id.
  destruct (slot_list _ _ _ _ Hs) as [l Hl]. rewrite Hl. step.
  destruct (iv_lists Hi true a l Hl) as (ts & Hc & _). apply (slot_content cc U true a l ts) in Hs as [Ht _]; [|done|done].
  destruct (ListLaws.list_Remove_spec_core _ l ts t (co_lrepr Hc) Ht) as (out & l' & HR & Hst & Hout & Hl').
  rewrite (co_strict Hc) in Hout, Hl'. eapply wp_of_option; [exact HR|]. cbn [fst snd]. step. cbn [negb]. steps.
  pose proof (around ts t (content_sorted _ _ _ _ _ _ Hc) Ht) as Hp. rewrite <- Hout in Hp.
  set (rest := ListLaws.before (Tx.Nonce t) ts) in *. set (h' := λ b' a', (b' = true ∧ a' = a ∧ rest = []) ∨ hollow s b' a').
  assert (Hi1 : inv (MkSlack (out ++ limbo s) [] (untracked s) (held s) h') (set_lists true (<[a := l']> (lists true p)) p)).
  { eapply (inv_take (b := true) [t] out rest); try done; [by right|by left]. }
  assert (Hc' : content true a l' rest).
  { split; [done|by rewrite Hst, (co_strict Hc)|]. intros x Hx. apply (co_good Hc). rewrite Hp, elem_of_app. by right. }
  apply when_state. pose proof (delete_if_empty (MkSlack (out ++ limbo s) [] (untracked s) (held s) (hollow s)) _ true a l' rest h' Hi1) as Hi2.
  cbn [lists set_lists pending set_pending] in Hi2. rewrite lookup_insert_eq in Hi2. specialize (Hi2 eq_refl Hc' Hh ltac:(intros; by unfold h' in *)).
  step. apply (demote_wp _ _ out [] _ X Hi2); [cbn; by rewrite HL|done|..].
  { intros x Hx. assert (x ∈ ts) as Hxts by (rewrite Hp, !elem_of_app; auto). destruct (co_good Hc x Hxts) as [_ ->].
    transitivity (reserved p !! a); [by destruct (LegacyList.Empty l')|]. apply (iv_reserved Hi). by right. }
  intros p3 Hp3 Hk Ha3. steps. apply HQ.
  - apply inv_nonces. by eapply inv_weaken.
  - transitivity (reserved p3); [done|]. rewrite (kept_reserved _ _ _ Hk). by destruct (LegacyList.Empty l').
  - transitivity (all p3); [done|]. rewrite Ha3. by destruct (LegacyList.Empty l').
Qed.

Lemma remove_pending_out s p a t (Q : option Z → LegacyPool St → Prop) X :
  inv s p → slot (pending p) a (Tx.Nonce t) = None → Q None p → wp (remove_pending a t) Q X p.
Proof.
  intros Hi Hs HQ. unfold remove_pending, put_pending. steps. unfold id. destruct (pending p !! a) as [l|] eqn:Hl; [|by steps]. step.
  destruct (iv_lists Hi true a l Hl) as (ts & Hc & _). eapply wp_of_option.
  - apply (ListLaws.list_Remove_absent l ts t (co_lrepr Hc)). intros (x & Hn & Hx)%list_elem_of_fmap.
    assert (slot (pending p) a (Tx.Nonce t) = Some x) as Hs' by (by apply (slot_content cc U true a l ts)). congruence.
  - cbn [fst snd]. steps. cbn [negb]. steps. rewrite insert_id by done. change (Q None (set_lists true (lists true p) p)). by rewrite put_same.
Qed.

(** What removing a queued transaction changes. *)
Record dequeued (t : Transaction) p p' : Prop := {
  dq_kept : kept true p p';
  dq_others a : a ≠ sender_of t → queue p' !! a = queue p !! a;
  dq_length : length_of (queue p' !! sender_of t) = length_of (queue p !! sender_of t) - 1
}.

Lemma length_of_content b a l ts : content b a l ts → length_of (Some l) = len ts.
Proof. intros Hc. apply (SortedMap.Len_spec _ _ (ListLaws.lrepr_txs _ _ (co_lrepr Hc))). Qed.

Lemma remove_queued_in s p t (Q : () → LegacyPool St → Prop) X :
  inv s p → ghosts s = [t] → limbo s = [] → slot (queue p) (sender_of t) (Tx.Nonce t) = Some t → held s (sender_of t) →
  (∀ p', inv (with_ghosts [] s) p' → kept true p p' → (∀ a, a ≠ sender_of t → queue p' !! a = queue p !! a) →
     length_of (queue p' !! sender_of t) = length_of (queue p !! sender_of t) - 1 → all p' = all p → Q tt p') →
  wp (remove_queued (sender_of t) t) Q X p.
Proof.
  intros Hi Hg HL Hs Hh HQ. set (a := sender_of t) in *. unfold remove_queued, put_queue, delete_queue. steps. unfold id.
  destruct (slot_list _ _ _ _ Hs) as [l Hl]. rewrite Hl. step.
  destruct (iv_lists Hi false a l Hl) as (ts & Hc & _). apply (slot_content cc U false a l ts) in Hs as [Ht _]; [|done|done].
  destruct (ListLaws.list_Remove_spec_core _ l ts t (co_lrepr Hc) Ht) as (out & l' & HR & Hst & _ & Hl').
  rewrite (co_strict Hc) in Hl'. eapply wp_of_option; [exact HR|]. cbn [fst snd]. steps.
  set (rest := ListLaws.without (Tx.Nonce t) ts) in *. pose proof (content_sorted _ _ _ _ _ _ Hc) as Hso.
  assert (Hp : ts ≡ₚ ([t] ++ []) ++ rest) by exact (SortedMap.without_nonce_perm t ts Hso Ht).
  set (h' := λ b' a', (b' = false ∧ a' = a ∧ rest = []) ∨ hollow s b' a').
  assert (Hi1 : inv (MkSlack ([] ++ limbo s) [] (untracked s) (held s) h') (set_lists false (<[a := l']> (lists false p)) p)).
  { eapply (inv_take (b := false) [t] [] rest); try done; [by right|by left]. }
  assert (Hc' : content false a l' rest).
  { split; [done|by rewrite Hst, (co_strict Hc)|]. intros x Hx. apply (co_good Hc). rewrite Hp, elem_of_app. by right. }
  apply when_state. pose proof (delete_if_empty (MkSlack [] [] (untracked s) (held s) (hollow s)) (set_queue (<[a := l']> (queue p)) p) false a l' rest h') as Hi2.
  cbn [lists set_lists queue set_queue] in Hi2. specialize (Hi2 ltac:(eapply inv_weaken; [exact Hi1|by cbn; rewrite HL|done..])).
  rewrite lookup_insert_eq in Hi2. specialize (Hi2 eq_refl Hc' Hh ltac:(intros; by unfold h' in *)).
  assert (Hlen : len rest = len ts - 1) by (rewrite (len_perm _ _ Hp), len_app; change (len ([t] ++ [])) with 1; lia).
  rewrite Hl, (length_of_content _ _ _ _ Hc) in HQ.
  rewrite (Empty_spec _ _ _ _ Hc') in *. case_bool_decide as Hr; apply HQ.
  - apply inv_beats. by eapply inv_weaken.
  - by split.
  - intros a' Hne. cbn. by rewrite lookup_delete_ne, lookup_insert_ne by done.
  - cbn. rewrite lookup_delete_eq. rewrite Hr in Hlen. cbn. rewrite <- Hlen. done.
  - done.
  - by eapply inv_weaken.
  - by split.
  - intros a' Hne. cbn. by rewrite lookup_insert_ne by done.
  - cbn [queue set_queue]. rewrite lookup_insert_eq, (length_of_content _ _ _ _ Hc'). done.
  - done.
Qed.

(** Releasing an account without lists. *)
Lemma release_wp s p a (Q : () → LegacyPool St → Prop) X :
  inv (with_held (or_at a (held s)) s) p → ¬ held s a →
  (∀ r, inv s (set_reserved r p) → Q tt (set_reserved r p)) → wp (release a) Q X p.
Proof.
  intros Hi Hh HQ. unfold release. steps. unfold id.
  assert (Hsame : set_reserved (reserved p) p = p) by by destruct p.
  assert (Hkeep : (∃ b, is_Some (lists b p !! a)) → Q tt p).
  { intros [b Hb]. rewrite <- Hsame. apply HQ. rewrite Hsame. by eapply inv_unhold. }
  destruct (pending p !! a) as [l|] eqn:Hp; cbn [has negb andb when]; [steps; apply Hkeep; exists true; by eexists|].
  destruct (queue p !! a) as [l|] eqn:Hq; cbn [has negb andb when]; [steps; apply Hkeep; exists false; by eexists|].
  apply wp_ignore. unfold wp, reserve, reserver. rewrite (iv_self Hi).
  assert (reserved p !! a = Some me) as Hr by (apply (iv_reserved Hi); right; by left). rewrite Hr, Nat.eqb_refl. cbn [negb].
  apply HQ. eapply inv_weaken; [eapply (inv_release cfg cc me U _ p a (held s) Hi Hp Hq)|done..]. intros a'. cbn. unfold or_at.
  split; [intros Ha; split; [auto|by intros ->]|naive_solver].
Qed.

(** Removing a transaction by its hash keeps the invariant; the sender's
    reservation goes with the last of its transactions, unless it must stay. *)
Lemma removeTx_wp s p h oob unreserve (Q : Z → LegacyPool St → Prop) X :
  inv s p → limbo s = [] → ghosts s = [] →
  (∀ t, Lookup.Get (all p) h = Some t → if unreserve : bool then ¬ held s (sender_of t) else held s (sender_of t)) →
  (Lookup.Get (all p) h = None → Q 0 p) →
  (∀ t n p', Lookup.Get (all p) h = Some t → inv s p' → all p' = Lookup.Remove (all p) h →
     (slot (queue p) (sender_of t) (Tx.Nonce t) = Some t → dequeued t p (set_reserved (reserved p) p')) → Q n p') →
  wp (removeTx h oob unreserve) Q X p.
Proof.
  intros Hi HL Hg Hun HQ0 HQ. unfold removeTx. steps. unfold id. destruct (Lookup.Get (all p) h) as [t|] eqn:Hget; [|steps; by apply HQ0].
  pose proof (table_hash Hi Hget) as ->. specialize (Hun t eq_refl). rewrite (sender_is cc p t (iv_chain Hi)). set (a := sender_of t) in *.
  pose proof Hget as Hf. apply (iv_filed Hi) in Hf as [_ [[b Hs]|Hf]]; [|rewrite HL in Hf; by apply elem_of_nil in Hf]. fold a in Hs.
  assert (Hres : reserved p !! a = Some me).
  { destruct (slot_list _ _ _ _ Hs) as [l Hl]. apply (iv_reserved Hi). left. exists b. by eexists. }
  set (s1 := with_ghosts [t] (with_held (or_at a (held s)) s)).
  assert (Hi1 : inv s1 (set_all (Lookup.Remove (all p) (Tx.Hash_ t)) (priced p) p)).
  { eapply (inv_lose cfg cc me U HU _ p b t); [by apply inv_hold|done|by rewrite <- Hg|done]. }
  (* the rest, from any state that differs in the table and the heaps only *)
  assert (Hrest : ∀ x y, x = Lookup.Remove (all p) (Tx.Hash_ t) → inv s1 (set_all x y p) → wp (remove_pending a t) (λ r,
      wp (do n <- match r with Some n => ret n | None => do! remove_queued a t; ret 0 end; do! when unreserve (release a); ret n) Q X) X (set_all x y p)).
  { intros x y Hx Hi2. set (p2 := set_all x y p) in *.
    assert (Hend : ∀ n p3, inv (with_held (or_at a (held s)) s) p3 → all p3 = x →
      (slot (queue p) a (Tx.Nonce t) = Some t → dequeued t p (set_reserved (reserved p) p3)) → wp (when unreserve (release a)) (λ _, wp (ret n) Q X) X p3).
    { intros n p3 Hi3 Ha3 Hq. destruct unreserve; cbn [when].
      - apply (release_wp s); [done|done|]. intros r Hi4. steps. apply (HQ t); [done|done|by transitivity (all p3); [|rewrite Ha3]|]. intros Hsq. destruct (Hq Hsq) as [[] ? ?]. by split.
      - steps. apply (HQ t); [done| |congruence|done]. eapply inv_weaken; [exact Hi3|done|done|done| |done]. intros a'. cbn. unfold or_at.
        split; [auto|intros [->|?]; done]. }
    destruct b.
    - apply (remove_pending_in s1 p2 t); [done|done|done|done|by left|]. intros n p3 Hi3 Hr3 Ha3. steps. apply Hend; [by eapply inv_weaken|done|].
      intros Hsq. pose proof (iv_apart Hi a (Tx.Nonce t) true t false t Hs Hsq). done.
    - apply (remove_pending_out s1 p2 a t); [done| |].
      + destruct (slot (pending p2) a (Tx.Nonce t)) as [o|] eqn:Ho; [|done]. pose proof (iv_apart Hi a (Tx.Nonce t) true o false t Ho Hs). done.
      + steps. apply (remove_queued_in s1 p2 t); [done|done|done|done|by left|]. intros p3 Hi3 [] Hoth Hlen Ha3. steps.
        apply Hend; [by eapply inv_weaken|done|]. intros _. split; [by split|done|done]. }
  unfold all_Remove. step. destruct oob; cbn [when]; steps; [|by apply Hrest].
  eapply (priced_Removed_wp cfg cc me U s1 _ _ _ _ Hi1). intros l Hl. step. exact (Hrest _ l eq_refl Hl).
Qed.
End Moves.
