(* ===== verification/LegacyAdd.v ===== *)
(** * Adding to the legacy pool

    [add] keeps the invariant of LegacyInv.v on every path: known transactions,
    refused ones, full pools where others must leave, replacements in the pending
    list and new entries of the queue.  An error leaves the reservation of the
    sender as it was, and none of them is a panic. *)

From S2P Require Import Prelude StateError GoSort GoHeap ChainConfig BlockFees TxTypes Signers SortedMap LegacyList.
From S2P Require Import LegacyPriced StateInterface GasRules TxValidation TxPool LegacyPool LegacyInv LegacyMoves.

Open Scope eigen_scope.
Open Scope step_scope.

(** ** What the heaps hold after a search for the cheapest *)

Module HeapSub.
Section Sub.
Context `{Authorities}.
Import Priced.

Definition heap_of (l : pricedList) : list Transaction := ph_list (urgent l) ++ ph_list (floating l).

Lemma pop_sub h tx h' : heap_ok h → pop h = Some (tx, h') → heap_ok h' ∧ ph_list h ≡ₚ tx :: ph_list h'.
Proof.
  intros Hh Hp. destruct (decide (ph_list h = [])) as [He|Hne]; [unfold pop in Hp; by rewrite He in Hp|].
  destruct (pop_spec h Hh Hne) as (x & rest & h1 & Hl & Hp' & Hperm & Hok & _). rewrite Hp' in Hp. injection Hp as -> ->.
  split; [done|]. by rewrite Hl, Hperm.
Qed.

Lemma drop_stale_sub all fuel st h st' h' :
  heap_ok h → drop_stale fuel all st h = Some (st', h') → heap_ok h' ∧ ph_list h' ⊆ ph_list h.
Proof.
  revert st h. induction fuel as [|fuel IH]; intros st h Hh; cbn [drop_stale]; [by intros [= _ <-]|].
  destruct (ph_list h) as [|x rest] eqn:Hl; [intros [= _ <-]; by rewrite Hl|]. destruct (negb (is_live all x)); [|intros [= _ <-]; by rewrite Hl].
  intros ([y h1] & Hp & Hd)%bind_Some. apply pop_sub in Hp as [Hok Hperm]; [|done]. apply IH in Hd as [Hok' Hs]; [|done].
  split; [done|]. intros z Hz. rewrite <- Hl, Hperm. right. by apply Hs.
Qed.

Lemma Underpriced_sub all l tx b l' : priced_ok l → Underpriced all l tx = Some (b, l') → heap_of l' ⊆ heap_of l.
Proof.
  intros [Hu Hf] HU. unfold Underpriced, underpricedFor in HU.
  apply bind_Some in HU as ([[bu st] u] & Hu1 & HU). apply bind_Some in Hu1 as ([st1 h1] & Hd1 & Hu1).
  apply drop_stale_sub in Hd1 as [_ Hs1]; [|done]. assert (u = h1) as -> by (destruct (ph_list h1); by simplify_eq).
  destruct (bu || _).
  - apply bind_Some in HU as ([[bf st2] f] & Hf1 & HU). apply bind_Some in Hf1 as ([st3 h3] & Hd2 & Hf1).
    apply drop_stale_sub in Hd2 as [_ Hs2]; [|done]. assert (f = h3) as -> by (destruct (ph_list h3); by simplify_eq).
    injection HU as _ <-. unfold heap_of. cbn. set_solver.
  - injection HU as _ <-. unfold heap_of. cbn. set_solver.
Qed.

Lemma discard_loop_sub all fuel l want drop drop' left l' :
  priced_ok l → discard_loop fuel all l want drop = Some (drop', left, l') →
  priced_ok l' ∧ drop' ++ heap_of l' ⊆ drop ++ heap_of l.
Proof.
  revert l want drop. induction fuel as [|fuel IH]; intros l want drop [Hu Hf]; cbn [discard_loop]; [done|].
  destruct (want <=? 0); [by intros [= <- _ <-]|]. destruct (_ >? _).
  - intros ([x u] & Hp & Hd)%bind_Some. apply pop_sub in Hp as [Hok Hperm]; [|done]. destruct (negb _).
    + apply IH in Hd as [Hok' Hs]; [|done]. split; [done|]. intros z Hz%Hs. revert Hz. unfold heap_of. cbn. rewrite !elem_of_app, Hperm, elem_of_cons. naive_solver.
    + destruct (push_spec (floating l) x Hf) as (Hokf & Hpf & _). apply IH in Hd as [Hok' Hs]; [|done]. split; [done|].
      intros z Hz%Hs. revert Hz. unfold heap_of. cbn [urgent floating]. rewrite !elem_of_app, Hperm, Hpf, !elem_of_cons. naive_solver.
  - destruct (_ =? 0); [by intros [= <- _ <-]|]. intros ([x f] & Hp & Hd)%bind_Some. apply pop_sub in Hp as [Hok Hperm]; [|done]. destruct (negb _).
    + apply IH in Hd as [Hok' Hs]; [|done]. split; [done|]. intros z Hz%Hs. revert Hz. unfold heap_of. cbn. rewrite !elem_of_app, Hperm, elem_of_cons. clear; tauto.
    + apply IH in Hd as [Hok' Hs]; [|done]. split; [done|]. intros z Hz%Hs. revert Hz. unfold heap_of. cbn. rewrite !elem_of_app, Hperm, !elem_of_cons. pose proof (not_elem_of_nil z). tauto.
Qed.

Lemma Put_all_heap (all : lookup_) ts l : priced_ok l → heap_of (fold_left Put ts l) ≡ₚ ts ++ heap_of l.
Proof.
  revert l. induction ts as [|t ts IH]; intros l Hok; cbn [fold_left]; [done|].
  destruct (Put_spec all l t Hok) as (Hok' & Hp & _). rewrite IH by done. unfold heap_of in *. rewrite Hp. by rewrite <- Permutation_middle.
Qed.

Lemma Discard_sub all l want drop ok l' : priced_ok l → Discard all l want = Some (drop, ok, l') → drop ++ heap_of l' ⊆ heap_of l.
Proof.
  intros Hok HD. unfold Discard in HD. apply bind_Some in HD as ([[drop1 left] l1] & HL & HD).
  apply discard_loop_sub in HL as [Hok1 Hs]; [|done]. cbn [app] in Hs. destruct (left >? 0); injection HD as <- _ <-; [|done].
  intros z Hz. apply Hs. cbn [app] in Hz. by rewrite (Put_all_heap all) in Hz.
Qed.
End Sub.
End HeapSub.

Section Adding.
Context {St : Type} `{AccountState St, CodeHashes St, Sending, BlobProofs, Authorities, HeaderHash, Clock, MapRange, Sorter}.
Context (cfg : Config) (cc : ChainConfig) (me : nat) (U : Transaction → Prop) (HU : universe U).
Implicit Types p : LegacyPool St.
Abbreviation inv := (inv cfg cc me U).
Abbreviation sender_of := (sender_of cc).
Abbreviation good := (good cc U).
Abbreviation fresh := (fresh cc me U).

(** The slack while a transaction of the account is added. *)
Definition at_work (a : Address) : slack := with_held (or_at a (λ _, False)) tight.

(** The table has lost entries only. *)
Definition shrinks p p' : Prop := ∀ h x, Lookup.Get (all p') h = Some x → Lookup.Get (all p) h = Some x.

Lemma shrinks_refl p : shrinks p p.
Proof. by intros h x. Qed.
#[local] Hint Resolve shrinks_refl : core.

Lemma shrinks_Remove p p' p'' h : shrinks p p' → all p'' = Lookup.Remove (all p') h → shrinks p p''.
Proof. intros Hs Ha h' x. rewrite Ha, Get_Remove. case_decide; [done|apply Hs]. Qed.

(** ** Validation *)

Lemma refuse_ok {A} c e (r : result txpool_error A) a : refuse c e r = Ok a → c = false ∧ r = Ok a.
Proof. by destruct c. Qed.

Lemma validateTx_good p tx : chainconfig p = cc → modest (currentState p) → U tx → validateTx p tx = Ok tt → good tx.
Proof.
  intros Hcc Hm Htx Hv. unfold validateTx, ValidateTransactionWithState in Hv. unfold signer in Hv. rewrite Hcc in Hv.
  destruct (types_Sender (latest_signer cc) tx) as [from|e] eqn:Hs; [|done].
  destruct (refuse (_ >? _) _ _) as [[]|e] eqn:Hr; [|done].
  apply refuse_ok in Hr as [_ [_ [Hb _]%refuse_ok]%refuse_ok]. cbn [vo_State] in Hb.
  split; [done| |unfold LegacyInv.sender_of; by rewrite Hs]. specialize (Hm from). rewrite Cmp_ltb in Hb. lia.
Qed.

Lemma validateTx_error p tx e : validateTx p tx = Err e → e ≠ PoolPanic.
Proof.
  unfold validateTx, ValidateTransactionWithState, validateAuth, refuse. intros Hv ->. cbn [result_bind] in Hv.
  repeat (case_match; try done).
Qed.

(** ** Room in a full pool *)

Lemma isGapped_wp p from tx (Q : bool → LegacyPool St → Prop) X : (∀ b x, Q b (set_nonces x p)) → wp (isGapped from tx) Q X p.
Proof.
  intros HQ. unfold isGapped, nonce_get. step. unfold wp at 1. destruct (Noncer.get _ _) as [n txn].
  destruct (_ <=? _); steps; [apply HQ|]. destruct (queue _ !! from); steps; apply HQ.
Qed.

(** A transaction that has left the table needs no entry in the heaps. *)
Lemma inv_untrack s p t W : inv s p → untracked s = t :: W → Lookup.Get (all p) (Tx.Hash_ t) = None → inv (with_untracked W s) p.
Proof.
  intros [] HW Hn. split; try done. intros x Hx. destruct (iv_tracked x Hx) as [?|Hin]; [auto|].
  rewrite HW in Hin. apply elem_of_cons in Hin as [->|?]; [congruence|auto].
Qed.

Lemma kick_out_wp p from t W (Q : () → LegacyPool St → Prop) X :
  inv (with_untracked (t :: W) (at_work from)) p → U t →
  (∀ p', inv (with_untracked W (at_work from)) p' → all p' = Lookup.Remove (all p) (Tx.Hash_ t) ∨ all p' = all p → Q tt p') →
  wp (kick_out from t) Q X p.
Proof.
  intros Hi Ht HQ. unfold kick_out. steps. rewrite (sender_is cc p t (iv_chain Hi)).
  apply (removeTx_wp cfg cc me U HU (with_untracked (t :: W) (at_work from))); [done..| | |].
  - intros t' Hget. pose proof (table_hash Hi Hget) as Hh. pose proof (table_good Hi ltac:(by rewrite <- Hh)) as Hg'.
    assert (t' = t) as -> by (symmetry; apply (un_hash HU); [done|apply Hg'|done]). cbn. unfold or_at.
    destruct (Z.eqb_spec (sender_of t) from); cbn [negb]; naive_solver.
  - intros Hn. steps. apply HQ; [|by right]. apply inv_changes. by apply (inv_untrack _ p t W Hi).
  - intros t' n p' Hget Hi' Ha _. steps. apply HQ; [|by left]. apply inv_changes. apply (inv_untrack _ p' t W Hi'); [done|].
    rewrite Ha, Get_Remove. by rewrite decide_True.
Qed.

Lemma kick_all_wp p from drop (Q : () → LegacyPool St → Prop) X :
  inv (with_untracked drop (at_work from)) p → (∀ t, t ∈ drop → U t) →
  (∀ p', inv (at_work from) p' → shrinks p p' → Q tt p') → wp (each (kick_out from) drop) Q X p.
Proof.
  intros Hi HUd HQ. eapply wp_conseq.
  - apply (wp_each _ (λ l p', inv (with_untracked l (at_work from)) p' ∧ (∀ t, t ∈ l → U t) ∧ shrinks p p')); [split_and!; [done|done|apply shrinks_refl]|].
    intros t l p1 (Hp1 & Hul & Hs). apply (kick_out_wp p1 from t l); [done|apply Hul; by left|].
    intros p2 Hp2 Ha. split_and!; [done|intros; apply Hul; by right|]. destruct Ha as [Ha|Ha]; [by eapply shrinks_Remove|].
    intros h x. rewrite Ha. apply Hs.
  - cbn beta. intros [] p' (Hp' & _ & Hs). by apply HQ.
Qed.

Lemma put_back_wp s p drop (Q : () → LegacyPool St → Prop) X :
  inv (with_untracked drop s) p → untracked s = [] → (∀ t, t ∈ drop → U t) →
  (∀ l, inv s (set_all (all p) l p) → Q tt (set_all (all p) l p)) → wp (each priced_Put drop) Q X p.
Proof.
  intros Hi Hs HUd HQ. assert (Hsame : ∀ l, set_all (all p) l p = set_all (all p) l (set_all (all p) (priced p) p)) by done.
  eapply wp_conseq.
  - apply (wp_each _ (λ l p', ∃ x, p' = set_all (all p) x p ∧ inv (with_untracked l s) p' ∧ (∀ t, t ∈ l → U t))).
    + exists (priced p). split_and!; [by destruct p|done..].
    + intros t l p1 (x & -> & Hp1 & Hul). unfold priced_Put. steps. eexists. split; [done|].
      split; [|intros; apply Hul; by right]. by apply (inv_Put (s := with_untracked (t :: l) s) t l Hp1); [apply Hul; left|].
  - cbn beta. intros [] p' (x & -> & Hp' & _). apply HQ. eapply inv_weaken; [exact Hp'|done|done| |done|done]. cbn. by rewrite Hs.
Qed.

(** What the eviction of the price heaps leaves in the pool. *)
Lemma tracked_by s p l W :
  inv s p → untracked s = [] → Priced.priced_ok l → HeapSub.heap_of l ⊆ heap_txs p →
  (∀ x, x ∈ Priced.tracked (all p) (priced p) → x ∈ W ∨ x ∈ Priced.tracked (all p) l) →
  inv (with_untracked W s) (set_all (all p) l p).
Proof.
  intros Hi Hs Hok Hsub Htr. apply inv_heaps; [done..| |].
  - intros x Hx. by apply (iv_heaps_U Hi), Hsub.
  - intros x Hx. destruct (iv_tracked Hi x Hx) as [Hin|Hin]; [|rewrite Hs in Hin; by apply elem_of_nil in Hin].
    destruct (Htr x) as [?|Ht]; [by eapply tracked_all|auto|]. left. by eapply tracked_heap.
Qed.

(** The errors of a pool that has no room, or a slot that is paid better. *)
Definition crowded (e : txpool_error) : bool :=
  match e with ErrUnderpriced | ErrTxPoolOverflow | ErrFutureReplacePending | ErrReplaceUnderpriced => true | _ => false end.

Lemma make_room_wp p from tx (Q : () → LegacyPool St → Prop) (X : txpool_error → LegacyPool St → Prop) :
  inv (at_work from) p →
  (∀ p', inv (at_work from) p' → shrinks p p' → Q tt p') →
  (∀ e p', crowded e = true → inv (at_work from) p' → all p' = all p → (∀ b, lists b p' = lists b p) → X e p') →
  wp (make_room from tx) Q X p.
Proof.
  intros Hi HQ HX. unfold make_room. steps. unfold id. destruct (negb _); [steps; by apply HQ|]. step.
  destruct (Priced.underpriced_exact (all p) (priced p) tx (iv_heaps Hi)) as (under & l & HUn & Hok & Htr & _).
  eapply wp_of_option; [exact HUn|]. cbn [fst snd]. steps.
  assert (Hi1 : inv (at_work from) (set_all (all p) l p)).
  { apply (tracked_by (at_work from) p l []); [done|done|done|by eapply HeapSub.Underpriced_sub; [apply (iv_heaps Hi)|]|].
    intros x Hx. right. by rewrite Htr. }
  destruct under; [apply wp_fail; by apply HX|]. destruct (_ >? _); [apply wp_fail; by apply HX|]. step.
  destruct (Priced.discard_core (all p) l (Lookup.Slots (all p) - to_int64 (global_limit (config p)) + numSlots tx) Hok)
    as (drop & ok & l2 & HD & Hok2 & Htr2 & _).
  eapply wp_of_option; [exact HD|]. cbn [fst snd]. steps. pose proof (HeapSub.Discard_sub _ _ _ _ _ _ Hok HD) as Hsub.
  assert (Hi2 : inv (with_untracked drop (at_work from)) (set_all (all p) l2 p)).
  { apply (tracked_by (at_work from) (set_all (all p) l p) l2 drop Hi1); [done|done|intros x Hx; apply Hsub, elem_of_app; auto|].
    intros x. cbn [all set_all priced]. rewrite Htr2, elem_of_app. done. }
  assert (HUd : ∀ t, t ∈ drop → U t). { intros t Ht. apply (iv_heaps_U Hi1), Hsub, elem_of_app. auto. }
  assert (Hnd : negb ok = true → drop = []).
  { destruct (Priced.discard_core (all p) l (Lookup.Slots (all p) - to_int64 (global_limit (config p)) + numSlots tx) Hok)
      as (drop' & ok' & l2' & HD' & _ & _ & Hr). rewrite HD in HD'. injection HD' as <- <- <-. destruct ok; [done|]. by destruct Hr. }
  destruct (negb ok); [rewrite Hnd in Hi2 by done; apply wp_fail; by apply HX|].
  step. apply isGapped_wp. intros gapped x. steps. pose proof (inv_nonces _ _ _ _ _ _ x Hi2) as Hi3.
  destruct (gapped && _).
  - step. eapply (put_back_wp _ _ _ _ _ Hi3); [done|done|]. intros l3 Hl3. apply wp_fail. by apply HX.
  - apply (kick_all_wp _ from drop _ X Hi3 HUd). intros p' Hp' Hs. by apply HQ.
Qed.

(** ** The transaction enters *)

(** The table has what is listed. *)
Lemma listed_in_table s p b a l :
  inv s p → ghosts s = [] → limbo s = [] → (¬ hollow s b a) → lists b p !! a = Some l →
  ∃ t, Lookup.Get (all p) (Tx.Hash_ t) = Some t ∧ sender_of t = a.
Proof.
  intros Hi Hg HL Hh Hl. destruct (iv_lists Hi b a l Hl) as (ts & Hc & He). destruct ts as [|t ts]; [by destruct (Hh (He eq_refl))|].
  assert (Hs : slot (lists b p) a (Tx.Nonce t) = Some t) by (apply (slot_content cc U b a l (t :: ts)); [done|done|split; [by left|done]]).
  destruct (slot_good Hi Hs) as (_ & Ha & _). exists t. split; [|done]. apply (iv_filed Hi). rewrite Hg, Ha.
  split; [apply not_elem_of_nil|]. left. by exists b.
Qed.

Lemma in_table_listed s p t :
  inv s p → ghosts s = [] → limbo s = [] → Lookup.Get (all p) (Tx.Hash_ t) = Some t → ∃ b, is_Some (lists b p !! sender_of t).
Proof.
  intros Hi Hg HL [_ [[b Hs]|Hin]]%(iv_filed Hi); [|rewrite HL in Hin; by apply elem_of_nil in Hin].
  destruct (slot_list _ _ _ _ Hs) as [l Hl]. exists b. by exists l.
Qed.

(** The account has no list. *)
Definition unlisted p (a : Address) : Prop := ∀ b, lists b p !! a = None.

(** An account without lists gets none when the table shrinks. *)
Lemma unlisted_shrinks s s' p p' a :
  inv s p → inv s' p' → ghosts s = [] → limbo s = [] → ghosts s' = [] → limbo s' = [] → (∀ b, ¬ hollow s' b a) →
  shrinks p p' → unlisted p a → unlisted p' a.
Proof.
  intros Hi Hi' Hg HL Hg' HL' Hh Hsh Hn b. destruct (lists b p' !! a) as [l|] eqn:Hl; [|done].
  destruct (listed_in_table s' p' b a l) as (t & Ht & <-); [done..|]. apply Hsh in Ht.
  destruct (in_table_listed s p t) as (b' & Hb'); [done..|]. rewrite Hn in Hb'. by destruct Hb'.
Qed.

Lemma listed_dec p a : unlisted p a ∨ ∃ b, is_Some (lists b p !! a).
Proof.
  destruct (lists true p !! a) eqn:Ht; [right; exists true; by rewrite Ht|].
  destruct (lists false p !! a) eqn:Hf; [right; exists false; by rewrite Hf|]. left. by intros [].
Qed.

Lemma add_validated_wp p t (Q : bool → LegacyPool St → Prop) (X : txpool_error → LegacyPool St → Prop) :
  inv (at_work (sender_of t)) p → good t → Lookup.Get (all p) (Tx.Hash_ t) = None →
  (∀ r p', inv (at_work (sender_of t)) p' → Lookup.Get (all p') (Tx.Hash_ t) = Some t → Q r p') →
  (∀ e p', crowded e = true → inv (at_work (sender_of t)) p' → shrinks p p' → (unlisted p (sender_of t) ↔ unlisted p' (sender_of t)) → X e p') →
  wp (add_validated (sender_of t) t) Q X p.
Proof.
  intros Hi Hg Hnew HQ HX. unfold add_validated. step. apply make_room_wp; [done| |].
  2: { intros e p' He Hp' Ha Hl. apply HX; [done|done|intros h x; by rewrite Ha|]. unfold unlisted. by setoid_rewrite Hl. }
  intros p1 Hi1 Hsh. steps.
  assert (Hnew1 : Lookup.Get (all p1) (Tx.Hash_ t) = None).
  { destruct (Lookup.Get (all p1) (Tx.Hash_ t)) as [x|] eqn:Hx; [|done]. apply Hsh in Hx. congruence. }
  assert (Hres : reserved p1 !! sender_of t = Some me) by (apply (iv_reserved Hi1); right; by left).
  assert (Herr : ∀ b, is_Some (lists b p1 !! sender_of t) → X ErrReplaceUnderpriced p1).
  { intros b [l Hl]. apply HX; [done..|]. split; [|intros Hn; specialize (Hn b); congruence].
    apply (unlisted_shrinks (at_work (sender_of t)) (at_work (sender_of t))); try done. by intros ? []. }
  assert (Hq : contains (pending p1 !! sender_of t) (Tx.Nonce t) = false →
    wp (enqueueTx (Tx.Hash_ t) t true) Q X p1).
  { intros Hc. rewrite contains_slot, bool_decide_eq_false, <- eq_None_not_Some in Hc.
    apply (enqueue_fresh cfg cc me U HU (at_work (sender_of t))); [done| |intros r p' Hp' _; by apply HQ|apply (Herr false)].
    split; try done. by intros []. }
  destruct (pending p1 !! sender_of t) as [l|] eqn:Hl; [|by apply Hq].
  destruct (LegacyList.Contains l (Tx.Nonce t)) eqn:Hc; [|by apply Hq].
  apply (replace_pending_wp cfg cc me U HU (at_work (sender_of t))); [done| |done|intros r p' Hp' _; by apply HQ|].
  2: { apply (Herr true). cbn [lists]. rewrite Hl. by eexists. }
  split; try done. intros [] Hb; [done|]. destruct (slot (lists false p1) (sender_of t) (Tx.Nonce t)) as [x|] eqn:Hx; [|done].
  assert (Hs : is_Some (slot (lists true p1) (sender_of t) (Tx.Nonce t))).
  { apply (bool_decide_eq_true (is_Some _)). rewrite <- contains_slot. cbn [lists]. by rewrite Hl. }
  destruct Hs as [y Hy]. pose proof (iv_apart Hi1 _ _ _ _ _ _ Hx Hy). done.
Qed.

(** The reservation of an account without lists is taken back. *)
Lemma take_back_wp p a (Q : () → LegacyPool St → Prop) X :
  inv (at_work a) p → unlisted p a → (∀ r, inv tight (set_reserved r p) → Q tt (set_reserved r p)) → wp (ignore (reserve a false)) Q X p.
Proof.
  intros Hi Hn HQ. apply wp_ignore. unfold wp, reserve, reserver. rewrite (iv_self Hi).
  assert (reserved p !! a = Some me) as -> by (apply (iv_reserved Hi); right; by left). rewrite Nat.eqb_refl. cbn [negb].
  apply HQ. eapply inv_weaken; [eapply (inv_release cfg cc me U _ p a (λ _, False) Hi (Hn true) (Hn false))|done..].
  intros a'. unfold at_work, or_at. cbn. naive_solver.
Qed.

Lemma or_release_wp p p0 t (taken : bool) (Q : bool → LegacyPool St → Prop) (X : txpool_error → LegacyPool St → Prop) :
  inv (at_work (sender_of t)) p → good t → Lookup.Get (all p) (Tx.Hash_ t) = None →
  (if taken then unlisted p (sender_of t) else ¬ unlisted p (sender_of t)) →
  (∀ r p', inv tight p' → Lookup.Get (all p') (Tx.Hash_ t) = Some t → Q r p') →
  (∀ e p', crowded e = true → inv tight p' → shrinks p p' → X e p') →
  wp (or_release taken (sender_of t) (add_validated (sender_of t) t)) Q X p.
Proof.
  intros Hi Hg Hnew Htk HQ HX. unfold or_release. step. apply wp_try. set (a := sender_of t) in *.
  apply add_validated_wp; [done..| |]; fold a.
  - intros r p2 Hp2 Hin. steps. apply HQ; [|done]. destruct (in_table_listed _ p2 t Hp2 eq_refl eq_refl Hin) as [b Hb].
    by eapply (inv_unhold cfg cc me U tight p2 a b).
  - intros e p2 He Hp2 Hsh Hl. assert (Herr : ∀ p3, inv tight p3 → shrinks p p3 → X e p3) by auto.
    assert (Hgoal : wp (do! when taken (ignore (reserve a false)); fail e : SE _ _ bool) Q X p2).
    { step. destruct taken; cbn [when].
      - apply (take_back_wp p2 a); [done|by apply Hl|]. intros r Hr. apply wp_fail. apply Herr; [done|exact Hsh].
      - steps. apply wp_fail. apply Herr; [|done]. destruct (listed_dec p2 a) as [Hn|[b Hb]]; [by destruct Htk; apply Hl|].
        by eapply (inv_unhold cfg cc me U tight p2 a b). }
    by destruct e.
Qed.

(** The refusal before the pool is touched: the transaction is known, or not valid, or
    another pool holds its sender; the first of these that applies. *)
Definition refusal p (t : Transaction) : option txpool_error :=
  if has (Lookup.Get (all p) (Tx.Hash_ t)) then Some ErrAlreadyKnown
  else match validateTx p t with
  | Err e => Some e
  | Ok _ =>
      match reserved p !! sender_of t with
      | Some o => if (o =? me)%nat then None else Some ErrAlreadyReserved
      | None => None
      end
  end.

(** Adding keeps the invariant; an error leaves the pool as it was, or comes from a
    full pool or a refused replacement. *)
Lemma add_wp p t (Q : bool → LegacyPool St → Prop) (X : txpool_error → LegacyPool St → Prop) :
  inv tight p → U t →
  (∀ r p', inv tight p' → refusal p t = None → Lookup.Get (all p') (Tx.Hash_ t) = Some t → Q r p') →
  (∀ e p', e ≠ PoolPanic → inv tight p' → shrinks p p' →
     (refusal p t = Some e ∧ p' = p ∨ refusal p t = None ∧ crowded e = true) → X e p') → wp (add t) Q X p.
Proof.
  intros Hi Ht HQ HX. unfold add. steps. unfold id. unfold refusal in *. destruct (Lookup.Get (all p) (Tx.Hash_ t)) as [x|] eqn:Hnew; cbn [has] in *.
  { apply wp_fail. apply HX; [done|done|apply shrinks_refl|by left]. }
  step. apply wp_of_result. destruct (validateTx p t) as [[]|e] eqn:Hv; [|apply HX; [by eapply validateTx_error|done|apply shrinks_refl|by left]].
  pose proof (validateTx_good p t (iv_chain Hi) (sd_modest _ _ _ (iv_state Hi)) Ht Hv) as Hg. rewrite (sender_is cc p t (iv_chain Hi)).
  assert (Hcalm : ∀ e, crowded e = true → e ≠ PoolPanic) by by intros [].
  assert (Hk : negb (has (pending p !! sender_of t)) && negb (has (queue p !! sender_of t)) = true ↔ unlisted p (sender_of t)).
  { unfold unlisted. split.
    - intros Hb. destruct (pending p !! sender_of t) eqn:Hp; [done|]. destruct (queue p !! sender_of t) eqn:Hq; [done|]. by intros [].
    - intros Hn. pose proof (Hn true) as Hp. pose proof (Hn false) as Hq. cbn in Hp, Hq. by rewrite Hp, Hq. }
  destruct (negb (has (pending p !! sender_of t)) && _) eqn:Hb; cbn [when]; step.
  - apply proj1 in Hk. specialize (Hk eq_refl). unfold wp at 1, reserve, reserver. rewrite (iv_self Hi).
    destruct (reserved p !! sender_of t) as [o|] eqn:Ho; [destruct (Nat.eqb_spec o me) as [->|Hne]|].
    + apply (iv_reserved Hi) in Ho as [[b [l Hl]]|[]]. rewrite Hk in Hl. done.
    + assert (set_reserved (reserved p) p = p) as -> by by destruct p. apply HX; [done|done|apply shrinks_refl|by left].
    + apply or_release_wp; try done; [by apply (inv_reserve cfg cc me U tight)|by intros r p' Hp'; apply HQ|intros e p' He Hp' Hs'; apply HX; [by apply Hcalm|done|done|by right]].
  - steps. destruct (listed_dec p (sender_of t)) as [Hn|Hs]; [by apply Hk in Hn|].
    assert (Hown : reserved p !! sender_of t = Some me) by (apply (iv_reserved Hi); by left). rewrite Hown, Nat.eqb_refl in HQ, HX.
    apply or_release_wp; try done; [by apply (inv_hold cfg cc me U tight)|by intros Hn; apply Hk in Hn|by intros r p' Hp'; apply HQ|].
    intros e p' He Hp' Hs'; apply HX; [by apply Hcalm|done|done|by right].
Qed.

(** ** Batches *)

(** A batch is never refused as a whole: one verdict per transaction. *)
Lemma addTxsLocked_wp p ts dirty (Q : list (option txpool_error) * accountSet → LegacyPool St → Prop) X :
  inv tight p → (∀ t, t ∈ ts → U t) → (∀ errs d p', inv tight p' → length errs = length ts → Q (errs, d) p') →
  wp (addTxsLocked ts dirty) Q X p.
Proof.
  revert p dirty Q. induction ts as [|t ts IH]; intros p dirty Q Hi HUs HQ; cbn [addTxsLocked]; [steps; by apply HQ|].
  step. apply wp_try.
  assert (Hrest : ∀ (r : result txpool_error bool) d p1, inv tight p1 →
    wp (do (errs, dirty) <- addTxsLocked ts d; ret ((match r with Ok _ => None | Err e => Some e end) :: errs, dirty)) Q X p1).
  { intros r d p1 Hp1. step. apply IH; [done|intros; apply HUs; by right|]. intros errs d' p2 Hp2 Hlen. cbn. steps. apply HQ; [done|]. cbn. by rewrite Hlen. }
  apply add_wp; [done|apply HUs; by left| |].
  - intros r p1 Hp1 _ _. step. by apply (Hrest (Ok r)).
  - intros e p1 He Hp1 _ _. assert (Hgoal : ∀ d, wp (do (errs, dirty) <- addTxsLocked ts d; ret (Some e :: errs, dirty)) Q X p1) by (intros d; by apply (Hrest (Err e))).
    destruct e; try done; step; apply Hgoal.
Qed.

(** The places without an error. *)
Definition blanks (errs : list (option txpool_error)) : nat := length (List.filter (λ e, negb (has e)) errs).

Lemma merge_errors_total errs news : blanks errs = length news → ∃ l, merge_errors errs news = Some l ∧ length l = length errs.
Proof.
  revert news. induction errs as [|[e|] errs IH]; intros [|n news] Hb; cbn in *; try done; try (by eexists).
  - destruct (IH (n :: news) Hb) as (l & -> & Hl). cbn. eexists. split; [done|]. cbn. by rewrite Hl.
  - destruct (IH news ltac:(unfold blanks; lia)) as (l & -> & Hl). cbn. eexists. split; [done|]. cbn. by rewrite Hl.
Qed.

Lemma blanks_prefilter p ts :
  blanks (map (prefilter p) ts) = length (List.filter (λ tx, negb (has (prefilter p tx))) ts).
Proof. unfold blanks. induction ts as [|t ts IH]; [done|]. cbn. destruct (has (prefilter p t)); cbn; by rewrite IH. Qed.

(** What the first checks let through fits. *)
Lemma validateTxBasics_fees p tx : validateTxBasics p tx = Ok tt → fees_fit tx.
Proof.
  unfold validateTxBasics, ValidateTransaction. intros [_ [_ Hv]%refuse_ok]%refuse_ok. destruct (Header.Difficulty _) as [d|]; [|done].
  do 7 (apply refuse_ok in Hv as [_ Hv]). apply refuse_ok in Hv as [Hc [Ht _]%refuse_ok]. split; lia.
Qed.

Lemma prefilter_fees p tx : prefilter p tx = None → fees_fit tx.
Proof.
  unfold prefilter. destruct (has _); [done|]. destruct (validateTxBasics p tx) as [[]|] eqn:Hv; [|done]. intros _. by eapply validateTxBasics_fees.
Qed.

(** With a difficulty in the head the checks do not panic. *)
Lemma check_hashes_ok hashes cs : (length hashes ≤ length cs)%nat → check_hashes hashes cs ≠ Err PoolPanic.
Proof. revert cs. induction hashes as [|h hs IH]; intros [|c cs] Hl; cbn in *; try done; [lia|]. unfold refuse. destruct (negb _); [done|]. apply IH. lia. Qed.

Lemma check_proofs_ok bs cs ps : (length bs ≤ length cs)%nat → (length bs ≤ length ps)%nat → check_proofs bs cs ps ≠ Err PoolPanic.
Proof.
  revert cs ps. induction bs as [|b bs IH]; intros [|c cs] [|q ps] Hc Hp; cbn in *; try done; try lia. unfold refuse. destruct (negb _); [done|]. apply IH; lia.
Qed.

Lemma validateBlobSidecar_ok hashes sidecar : validateBlobSidecar hashes sidecar ≠ Err PoolPanic.
Proof.
  unfold validateBlobSidecar, refuse. destruct (Z.eqb_spec (len (Blobs sidecar)) (len hashes)) as [Hb|]; cbn [negb]; [|done].
  destruct (Z.eqb_spec (len (Commitments sidecar)) (len hashes)) as [Hc|]; cbn [negb]; [|done].
  destruct (Z.eqb_spec (len (Proofs sidecar)) (len hashes)) as [Hp|]; cbn [negb]; [|done]. unfold len in *.
  pose proof (check_hashes_ok hashes (Commitments sidecar) ltac:(lia)). pose proof (check_proofs_ok (Blobs sidecar) (Commitments sidecar) (Proofs sidecar) ltac:(lia) ltac:(lia)).
  destruct (check_hashes _ _) as [[]|e]; cbn; [done|]. congruence.
Qed.

Lemma refuse_calm {A} c e (r : result txpool_error A) : e ≠ PoolPanic → r ≠ Err PoolPanic → refuse c e r ≠ Err PoolPanic.
Proof. intros He Hr. destruct c; [|done]. cbn. congruence. Qed.

Lemma bind_calm {A B} (r : result txpool_error A) (f : A → result txpool_error B) :
  r ≠ Err PoolPanic → (∀ a, f a ≠ Err PoolPanic) → result_bind r f ≠ Err PoolPanic.
Proof. destruct r; cbn; [auto|]. congruence. Qed.

Lemma of_core_calm {A} (r : result core_error A) : of_core r ≠ Err PoolPanic.
Proof. by destruct r. Qed.

Lemma validateTxBasics_ok p tx : is_Some (Header.Difficulty (currentHead p)) → validateTxBasics p tx ≠ Err PoolPanic.
Proof.
  intros [d Hd]. unfold validateTxBasics, ValidateTransaction. rewrite Hd. do 12 (apply refuse_calm; [done|]).
  destruct (types_Sender _ _); [|done]. apply bind_calm; [|intros _; apply refuse_calm; [done|]].
  - unfold check_gas. apply bind_calm; [apply of_core_calm|]. intros gas. apply refuse_calm; [done|]. case_match; [|done].
    apply bind_calm; [apply of_core_calm|]. intros floor. by apply refuse_calm.
  - unfold check_type. apply bind_calm.
    + case_match; [|done]. apply refuse_calm; [done|]. case_match; [|done]. apply refuse_calm; [done|]. apply refuse_calm; [done|]. apply validateBlobSidecar_ok.
    + intros _. case_match; [|done]. by apply refuse_calm.
Qed.

Lemma prefilter_calm p ts : is_Some (Header.Difficulty (currentHead p)) → existsb is_panic (map (prefilter p) ts) = false.
Proof.
  intros Hd. induction ts as [|t ts IH]; [done|]. cbn. rewrite IH, orb_false_r. unfold prefilter. destruct (has _); [done|].
  pose proof (validateTxBasics_ok p t Hd). destruct (validateTxBasics p t) as [|[]]; done.
Qed.

Lemma Add_wp p ts sync (Q : list (option txpool_error) → LegacyPool St → Prop) X :
  inv tight p → (∀ t, t ∈ ts → fees_fit t → U t) → (∀ errs p', inv tight p' → length errs = length ts → Q errs p') →
  wp (Add ts sync) Q X p.
Proof.
  intros Hi HUs HQ. unfold Add. steps. unfold id.
  rewrite prefilter_calm by apply (hd_difficulty _ _ (sd_headed _ _ _ (iv_state Hi))). destruct (_ =? 0); [steps; apply HQ; [done|by rewrite length_map]|].
  step. apply addTxsLocked_wp; [done| |].
  { intros t [Ht Hpre]%SortedMap.elem_of_list_filter. apply HUs; [done|]. apply (prefilter_fees p). by destruct (prefilter p t). }
  intros errs d p1 Hp1 Hlen. cbn [fst snd]. step.
  destruct (merge_errors_total (map (prefilter p) ts) errs) as (l & Hl & Hlen'); [by rewrite blanks_prefilter|].
  eapply wp_of_option; [exact Hl|]. unfold requestPromoteExecutables. steps. apply HQ; [|by rewrite Hlen', length_map].
  apply inv_schedule; [done|]. destruct (iv_schedule Hp1). by split.
Qed.

(** ** Transactions that leave *)

Lemma remove_each_wp p (oob : bool) ts (Q : () → LegacyPool St → Prop) X :
  inv tight p → (∀ p', inv tight p' → shrinks p p' → (∀ h x, Lookup.Get (all p') h = Some x → x ∉ ts) → Q tt p') →
  wp (each (λ tx, do! removeTx (Tx.Hash_ tx) oob true; ret tt) ts) Q X p.
Proof.
  intros Hi HQ. eapply wp_conseq.
  - apply (wp_each _ (λ l p', inv tight p' ∧ shrinks p p' ∧ ∀ h x, Lookup.Get (all p') h = Some x → x ∈ ts → x ∈ l)); [done|].
    intros t l p1 (Hp1 & Hs & Hl). step. apply (removeTx_wp cfg cc me U HU tight); [done|done|done|by intros t' _ []| |].
    + intros Hn. steps. split_and!; [done..|]. intros h x Hx Hin. pose proof (Hl h x Hx Hin) as [->|?]%elem_of_cons; [|done].
      pose proof (table_hash Hp1 Hx) as ->. congruence.
    + intros t' n p2 _ Hp2 Ha _. steps. split_and!; [done|by eapply shrinks_Remove|]. intros h x. rewrite Ha, Get_Remove. case_decide as Hh; [done|].
      intros Hx Hin. pose proof (Hl h x Hx Hin) as [->|?]%elem_of_cons; [|done]. pose proof (table_hash Hp1 Hx) as ->. done.
  - cbn beta. intros [] p' (Hp' & Hs & Hl). apply HQ; [done..|]. intros h x Hx Hin. apply (Hl h x Hx) in Hin. by apply elem_of_nil in Hin.
Qed.

(** Raising the minimum drops what tips less. *)
Lemma SetGasTip_wp p tip (Q : () → LegacyPool St → Prop) X :
  inv tight p → 0 <= tip < two256 →
  (∀ p', inv tight p' → shrinks p p' →
     (gasTip p < tip → ∀ h x, Lookup.Get (all p') h = Some x → tip <= Tx.GasTipCap x) → Q tt p') → wp (SetGasTip tip) Q X p.
Proof.
  intros Hi Ht HQ. unfold SetGasTip. steps. eapply wp_of_option; [by apply ListLaws.MustFromBig_ok|]. steps.
  pose proof (inv_gasTip cfg cc me U tight p tip Hi) as Hi1. rewrite Z.gtb_ltb, Cmp_gtb.
  destruct (Z.ltb_spec (gasTip p) tip) as [Hlt|Hge]; cbn [when]; [|steps; apply HQ; [done|by intros h x|lia]]. steps.
  apply remove_each_wp; [done|]. intros p1 Hp1 Hs1 Hout. apply (priced_Removed_wp cfg cc me U tight); [done|].
  intros l Hl. apply HQ; [done|done|]. intros _ h x Hx. specialize (Hout h x Hx). apply Hs1 in Hx.
  assert (Hin : x ∉ Lookup.TxsBelowTip (all p) tip) by done. unfold Lookup.TxsBelowTip in Hin. rewrite SortedMap.elem_of_list_filter in Hin.
  unfold Tx.GasTipCapIntCmp in Hin. rewrite Cmp_ltb in Hin. destruct (Z_lt_le_dec (Tx.GasTipCap x) tip) as [Hlt'|]; [|done].
  destruct Hin. split; [|by apply Z.ltb_lt]. rewrite range_values_perm. apply list_elem_of_fmap. exists (h, x). split; [done|]. by apply elem_of_map_to_list.
Qed.
End Adding.

(** * Promotions and demotions in the legacy pool

    A turn of [promoteExecutables] and of [demoteUnexecutables], and what a reset
    does around them, keep the invariant of LegacyInv.v.  While an account is worked
    on it is held, its list may be empty, and what has left the list is in limbo. *)

Open Scope eigen_scope.
Open Scope step_scope.

Section Reorg.
Context {St : Type} `{AccountState St, CodeHashes St, Sending, BlobProofs, Authorities, HeaderHash, Clock, MapRange, Sorter}.
Context (cfg : Config) (cc : ChainConfig) (me : nat) (U : Transaction → Prop) (HU : universe U).
Implicit Types p : LegacyPool St.
Abbreviation inv := (inv cfg cc me U).
Abbreviation sender_of := (sender_of cc).
Abbreviation content := (content cc U).

(** ** Work on one account *)

Definition half (b : bool) (a : Address) (L : list Transaction) : slack :=
  MkSlack L [] [] (or_at a (λ _, False)) (λ b' a', b' = b ∧ a' = a).

(** The list that is worked on, and what it holds. *)
Record working (b : bool) (a : Address) (L : list Transaction) (l : list_) (ts : list Transaction) p : Prop := {
  wk_inv : inv (half b a L) p;
  wk_at : lists b p !! a = Some l;
  wk_content : content b a l ts;
  wk_limbo t : t ∈ L → sender_of t = a
}.

Lemma working_held b a L l ts p : working b a L l ts p → reserved p !! a = Some me.
Proof. intros [Hi _ _ _]. apply (iv_reserved Hi). right. by left. Qed.

Lemma start_working b a l p : inv tight p → lists b p !! a = Some l → ∃ ts, working b a [] l ts p.
Proof.
  intros Hi Hl. destruct (iv_lists Hi b a l Hl) as (ts & Hc & _). exists ts. split; [|done|done|by intros t ?%elem_of_nil].
  assert (Hh : inv (at_work a) p).
  { apply (inv_hold cfg cc me U tight); [done|]. apply (iv_reserved Hi). left. exists b. by eexists. }
  by eapply inv_weaken.
Qed.

Lemma take_working b a l ts l' out rest p :
  working b a [] l ts p → ListLaws.lrepr l' rest → strict l' = strict l → ts ≡ₚ out ++ rest →
  working b a out l' rest (set_lists b (<[a := l']> (lists b p)) p).
Proof.
  intros [Hi Hl Hc _] Hl' Hst Hp. split.
  - pose proof (inv_take [] out rest (hollow (half b a [])) Hi Hl Hc Hl' Hst Hp eq_refl) as Ht. cbn in Ht. rewrite app_nil_r in Ht. by apply Ht.
  - by rewrite lists_set_eq, lookup_insert_eq.
  - split; [done|by rewrite Hst, (co_strict Hc)|]. intros t Ht. apply (co_good Hc). rewrite Hp. apply elem_of_app. auto.
  - intros t Ht. apply (co_good Hc). rewrite Hp. apply elem_of_app. auto.
Qed.

Lemma kept_working b a L L' l ts p p' :
  working b a L l ts p → inv (with_limbo L' (half b a L)) p' → kept b p p' → (∀ t, t ∈ L' → t ∈ L) → working b a L' l ts p'.
Proof. intros [Hi Hl Hc HL] Hi' [Hk _ _ _] Hsub. split; [done|by rewrite Hk|done|auto]. Qed.

Lemma forget_some b a L M l ts p (Q : () → LegacyPool St → Prop) X :
  working b a (L ++ M) l ts p → (∀ p', working b a M l ts p' → kept true p p' → kept false p p' → Q tt p') → wp (forget L) Q X p.
Proof.
  intros Hw HQ. apply (forget_wp cfg cc me U HU (half b a (L ++ M)) p L M); [apply (wk_inv _ _ _ _ _ _ Hw)|done|].
  intros p' Hp' Ht Hf _. apply HQ; [|done|done]. eapply kept_working; [done|done|by destruct b|]. intros t Hin. apply elem_of_app. auto.
Qed.

Lemma forget_working b a L l ts p (Q : () → LegacyPool St → Prop) X :
  working b a L l ts p → (∀ p', working b a [] l ts p' → kept true p p' → kept false p p' → Q tt p') → wp (forget L) Q X p.
Proof. intros Hw. apply forget_some. by rewrite app_nil_r. Qed.

Lemma demote_working a L M l ts p (Q : () → LegacyPool St → Prop) X :
  working true a (L ++ M) l ts p → (∀ p', working true a M l ts p' → kept true p p' → Q tt p') → wp (demote L) Q X p.
Proof.
  intros Hw HQ. apply (demote_wp cfg cc me U HU (half true a (L ++ M)) p L M); [apply (wk_inv _ _ _ _ _ _ Hw)|done|done|..].
  - intros t Ht. rewrite (wk_limbo _ _ _ _ _ _ Hw t) by (apply elem_of_app; auto). by eapply working_held.
  - intros p' Hp' Hk _. apply HQ; [|done]. eapply kept_working; [done|done|done|]. intros t Ht. apply elem_of_app. auto.
Qed.

Lemma promote_working a L M l ts p (Q : list Transaction → LegacyPool St → Prop) X :
  working false a (L ++ M) l ts p → (∀ p', working false a M l ts p' → kept false p p' → Q L p') → wp (promote_readies a L) Q X p.
Proof.
  revert p Q. induction L as [|t L IH]; intros p Q Hw HQ; cbn [promote_readies]; [steps; by apply HQ|]. step.
  assert (sender_of t = a) as Ha by (apply (wk_limbo _ _ _ _ _ _ Hw); by left).
  pose proof (promote_limbo cfg cc me U HU (half false a ((t :: L) ++ M)) p t (L ++ M)) as Hpr. rewrite Ha in Hpr. apply Hpr; clear Hpr;
    [apply (wk_inv _ _ _ _ _ _ Hw)|done|done|by eapply working_held|].
  intros p1 Hp1 Hk _. step. apply IH.
  - eapply kept_working; [done|done|done|]. intros x Hx. by right.
  - intros p2 Hw2 Hk2. steps. apply HQ; [done|by eapply kept_trans].
Qed.

Lemma Removed_working b a l ts p n (Q : () → LegacyPool St → Prop) X :
  working b a [] l ts p → (∀ x, working b a [] l ts (set_all (all p) x p) → Q tt (set_all (all p) x p)) → wp (priced_Removed n) Q X p.
Proof.
  intros [Hi Hl Hc HL] HQ. apply (priced_Removed_wp cfg cc me U (half b a [])); [done|]. intros x Hx. apply HQ. by split.
Qed.

(** The list of the account was deleted; without another it is released. *)
Lemma unreserve_wp p a (b : bool) (Q : () → LegacyPool St → Prop) X :
  inv (at_work a) p → lists b p !! a = None → (∀ r, inv tight (set_reserved r p) → Q tt (set_reserved r p)) →
  wp (do p <- get id; when (negb (has (lists (negb b) p !! a))) (ignore (reserve a false))) Q X p.
Proof.
  intros Hi Hn HQ. step. unfold id. destruct (lists (negb b) p !! a) as [l|] eqn:Hl; cbn [has negb when].
  - steps. assert (set_reserved (reserved p) p = p) as <- by by destruct p. apply HQ.
    assert (set_reserved (reserved p) p = p) as -> by by destruct p.
    apply (inv_unhold cfg cc me U tight p a (negb b)); [done|by rewrite Hl].
  - apply (take_back_wp cfg cc me U); [done| |done]. intros b'. by destruct b, b'.
Qed.

Lemma nonce_get_wp p a (Q : Z → LegacyPool St → Prop) X : (∀ n x, Q n (set_nonces x p)) → wp (nonce_get a) Q X p.
Proof. intros HQ. unfold wp, nonce_get. destruct (Noncer.get _ _) as [n x]. apply HQ. Qed.

Lemma nonces_working b a L l ts p x : working b a L l ts p → working b a L l ts (set_nonces x p).
Proof. intros [Hi Hl Hc HL]. split; [by apply inv_nonces|by destruct b|done|done]. Qed.

(** ** Promotion *)

(** Whether the list is empty is known. *)
Lemma finish_working b a l ts p :
  working b a [] l ts p → inv (at_work a) (if LegacyList.Empty l then set_lists b (delete a (lists b p)) p else p).
Proof.
  intros [Hi Hl Hc _].
  apply (delete_if_empty cfg cc me U (at_work a) p b a l ts (λ b' a', b' = b ∧ a' = a ∧ ts = [])); [|done|done|by left|by left].
  destruct Hi as [] eqn:HI. split; try done. intros b' a' l0 Hl0. destruct (decide (b' = b ∧ a' = a)) as [[-> ->]|Hne].
  - assert (l0 = l) as -> by congruence. exists ts. split; [done|]. by intros ->.
  - destruct (iv_lists b' a' l0 Hl0) as (ts0 & Hc0 & He). exists ts0. split; [done|]. intros Hnil. destruct (He Hnil). by destruct Hne.
Qed.

(** What changed but the list of one account and the other kind of lists. *)
Record touched (b : bool) (a : Address) p p' : Prop := {
  tc_lists a' : a' ≠ a → lists b p' !! a' = lists b p !! a';
  tc_state : currentState p' = currentState p;
  tc_head : currentHead p' = currentHead p
}.

Lemma touched_trans b a p1 p2 p3 : touched b a p1 p2 → touched b a p2 p3 → touched b a p1 p3.
Proof. intros [A1 A2 A3] [B1 B2 B3]. split; [intros a' Hne; by rewrite B1, A1|congruence..]. Qed.

Lemma touched_kept b a p p' : kept b p p' → touched b a p p'.
Proof. intros [Hl _ Hs Hh]. split; [by rewrite Hl|done..]. Qed.

Lemma touched_put (b : bool) a l p : touched b a p (set_lists b (<[a := l]> (lists b p)) p).
Proof. split; [intros a' Hne; by rewrite lists_set_eq, lookup_insert_ne|by destruct b..]. Qed.

(** The emptied list of an account is deleted. *)
Lemma drop_wp (b : bool) p a l ts (del : SE (LegacyPool St) txpool_error ()) (Q : () → LegacyPool St → Prop) X :
  working b a [] l ts p →
  (∀ (R : () → LegacyPool St → Prop), (∀ x n, R tt (set_beats x n (set_lists b (delete a (lists b p)) p))) → wp del R X p) →
  (∀ p', inv tight p' → touched b a p p' → lists b p' !! a = (if LegacyList.Empty l then None else Some l) → Q tt p') →
  wp (when (LegacyList.Empty l)
        (do! del; do p <- get id; when (negb (has (lists (negb b) p !! a))) (ignore (reserve a false)))) Q X p.
Proof.
  intros Hw Hdel HQ. pose proof (finish_working _ _ _ _ _ Hw) as Hd. destruct (LegacyList.Empty l); cbn [when].
  - step. apply Hdel. intros x n. apply (unreserve_wp _ a b); [by apply inv_beats| |].
    + destruct b; apply lookup_delete_eq.
    + intros r Hr. apply HQ; [done| |by destruct b; apply lookup_delete_eq].
      split; [intros a' Hne; by destruct b; cbn; rewrite lookup_delete_ne|by destruct b..].
  - steps. pose proof (wk_at _ _ _ _ _ _ Hw) as Hl. apply HQ; [|by apply touched_kept, kept_refl|done].
    apply (inv_unhold cfg cc me U tight p a b); [done|]. rewrite Hl. by eexists.
Qed.

Lemma drop_queue_wp p a l ts (Q : () → LegacyPool St → Prop) X :
  working false a [] l ts p → (∀ p', inv tight p' → Q tt p') →
  wp (when (LegacyList.Empty l)
        (do! delete_queue a; do p <- get id; when (negb (has (pending p !! a))) (ignore (reserve a false)))) Q X p.
Proof.
  intros Hw HQ. apply (drop_wp false p a l ts); [done| |by intros p' Hp' _ _; apply HQ].
  intros R HR. unfold delete_queue. step. apply HR.
Qed.

Lemma drop_pending_wp p a l ts (Q : () → LegacyPool St → Prop) X :
  working true a [] l ts p →
  (∀ p', inv tight p' → touched true a p p' → pending p' !! a = (if LegacyList.Empty l then None else Some l) → Q tt p') →
  wp (when (LegacyList.Empty l)
        (do! delete_pending a; do p <- get id; when (negb (has (queue p !! a))) (ignore (reserve a false)))) Q X p.
Proof.
  intros Hw HQ. apply (drop_wp true p a l ts); [done| |done]. intros R HR. unfold delete_pending. step.
  specialize (HR (beats p) (clock_reads p)). by destruct p.
Qed.

Lemma promote_account_wp p a (Q : list Transaction → LegacyPool St → Prop) X :
  inv tight p → 0 <= to_int64 (AccountQueue cfg) → (∀ ts p', inv tight p' → Q ts p') → wp (promote_account a) Q X p.
Proof.
  intros Hi Hcap HQ. unfold promote_account, put_queue. steps. unfold id. destruct (queue p !! a) as [l|] eqn:Hl; [|steps; by apply HQ].
  destruct (start_working false a l p Hi Hl) as [ts Hw]. step.
  destruct (Lists.Forward_takes l ts (GetNonce (currentState p) a)) as (l1 & HF & Hst1 & Hl1 & Hp1); [apply (co_lrepr (wk_content _ _ _ _ _ _ Hw))|].
  eapply wp_of_option; [exact HF|]. cbn [fst snd]. steps. pose proof (take_working _ _ _ _ _ _ _ _ Hw Hl1 Hst1 Hp1) as Hw1.
  eapply forget_working; [exact Hw1|]. clear Hw1. intros p1 Hw1 _ _. step.
  destruct (Lists.Filter_takes _ l1 _ (GetBalance (currentState p) a) (Header.GasLimit (currentHead p)) Hl1) as (drops & inval & l2 & HFi & Hst2 & Hl2 & Hp2 & Hinv).
  rewrite Hinv, app_nil_r in Hp2 by apply (co_strict (wk_content _ _ _ _ _ _ Hw1)).
  eapply wp_of_option; [exact HFi|]. cbn [fst snd]. steps. pose proof (take_working _ _ _ _ _ _ _ _ Hw1 Hl2 Hst2 Hp2) as Hw2.
  eapply forget_working; [exact Hw2|]. clear Hw2. intros p2 Hw2 _ _. step. apply nonce_get_wp. intros n x. apply (nonces_working _ _ _ _ _ _ x) in Hw2. step.
  destruct (Lists.Ready_takes l2 _ n Hl2) as (l3 & HR & Hst3 & Hl3 & Hp3).
  eapply wp_of_option; [exact HR|]. cbn [fst snd]. steps. pose proof (take_working _ _ _ _ _ _ _ _ Hw2 Hl3 Hst3 Hp3) as Hw3.
  rewrite <- (app_nil_r (take _ _)) in Hw3. eapply promote_working; [exact Hw3|]. clear Hw3. intros p3 Hw3 Hk3. step.
  destruct (Lists.Cap_takes l3 _ (to_int64 (AccountQueue cfg)) Hl3 Hcap) as (l4 & HC & Hst4 & Hl4 & Hp4).
  rewrite (iv_config Hi). eapply wp_of_option; [exact HC|]. cbn [fst snd]. steps. pose proof (take_working _ _ _ _ _ _ _ _ Hw3 Hl4 Hst4 Hp4) as Hw4.
  eapply forget_working; [exact Hw4|]. clear Hw4. intros p4 Hw4 _ _. step. eapply Removed_working; [exact Hw4|]. clear Hw4. intros y Hw4. step.
  eapply drop_queue_wp; [exact Hw4|]. intros p5 Hp5. steps. by apply HQ.
Qed.

Lemma promoteExecutables_wp p addrs (Q : list Transaction → LegacyPool St → Prop) X :
  inv tight p → 0 <= to_int64 (AccountQueue cfg) → (∀ ts p', inv tight p' → Q ts p') → wp (promoteExecutables addrs) Q X p.
Proof.
  intros Hi Hcap. revert p Q Hi. induction addrs as [|a addrs IH]; intros p Q Hi HQ; cbn [promoteExecutables]; [steps; by apply HQ|].
  step. apply promote_account_wp; [done|done|]. intros ts p1 Hp1. step. apply IH; [done|]. intros ts' p2 Hp2. steps. by apply HQ.
Qed.

(** ** Demotion *)

(** Where an account's pending transactions start, and that it can pay each. *)
Record executable (st : St) (head : Header.Header) (a : Address) (ts : list Transaction) : Prop := {
  ex_first : ∃ t rest, ts = t :: rest ∧ Tx.Nonce t = GetNonce st a;
  ex_payable t : t ∈ ts → Tx.Cost t <= GetBalance st a ∧ Tx.Gas t <= Header.GasLimit head
}.

Definition pending_executable p (a : Address) : Prop :=
  ∀ l, pending p !! a = Some l → ∃ ts, content true a l ts ∧ executable (currentState p) (currentHead p) a ts.

(** The front of a sorted list without nonces below. *)
Lemma first_is ts n t :
  StronglySorted SortedMap.nonce_lt ts → (∀ x, x ∈ ts → n <= Tx.Nonce x) → t ∈ ts → Tx.Nonce t = n →
  ∃ x rest, ts = x :: rest ∧ Tx.Nonce x = n.
Proof.
  intros Hs Hn Ht Htn. destruct ts as [|x rest]; [by apply elem_of_nil in Ht|]. exists x, rest. split; [done|].
  apply elem_of_cons in Ht as [->|Ht]; [done|]. apply StronglySorted_inv in Hs as [_ Hall]. rewrite Forall_forall in Hall.
  specialize (Hall t Ht). unfold SortedMap.nonce_lt in Hall. specialize (Hn x ltac:(by left)). lia.
Qed.

(** What follows a gap at the front goes back to the queue. *)
Lemma gap_demoted_wp p a l ts nonce (Q : list_ → LegacyPool St → Prop) X :
  working true a [] l ts p → (∀ x, x ∈ ts → nonce <= Tx.Nonce x) →
  (∀ l' ts' p', working true a [] l' ts' p' → touched true a p p' →
     (ts' = [] ∨ ts' = ts ∧ ∃ x rest, ts = x :: rest ∧ Tx.Nonce x = nonce) → Q l' p') →
  wp (if (LegacyList.Len l >? 0) && negb (has (SortedMap.Get (txs l) nonce)) then
        do (gapped, l) <- panics (LegacyList.Cap l 0);
        do! put_pending a l;
        do! demote gapped;
        ret l
      else ret l) Q X p.
Proof.
  intros Hw Hn HQ. pose proof (wk_content _ _ _ _ _ _ Hw) as Hc. destruct (_ && _) eqn:Hb.
  - step. destruct (Lists.Cap_takes l _ 0 (co_lrepr Hc) ltac:(done)) as (l4 & HC & Hst4 & Hl4 & Hp4).
    eapply wp_of_option; [exact HC|]. cbn [fst snd]. unfold put_pending. steps. pose proof (take_working _ _ _ _ _ _ _ _ Hw Hl4 Hst4 Hp4) as Hw4.
    eapply (demote_working _ _ []); [by rewrite app_nil_r|]. intros p5 Hw5 Hk5. steps. eapply HQ; [done| |by left].
    eapply touched_trans; [apply (touched_put true)|by apply touched_kept].
  - steps. eapply HQ; [done|by apply touched_kept, kept_refl|]. apply andb_false_iff in Hb as [Hb|Hb].
    + left. pose proof (length_of_content cc U _ _ _ _ Hc) as Hlen. cbn in Hlen. rewrite Hlen in Hb. apply len_zero_iff. pose proof (len_nonneg ts). lia.
    + right. split; [done|]. destruct (SortedMap.Get (txs l) nonce) as [x|] eqn:Hx; [|done].
      apply (SortedMap.Get_spec _ _ _ _ (ListLaws.lrepr_txs _ _ (co_lrepr Hc))) in Hx as [Hin Hxn].
      eapply first_is; [by eapply content_sorted|done..].
Qed.

Lemma demote_account_wp p a (Q : () → LegacyPool St → Prop) X :
  inv tight p → (∀ p', inv tight p' → touched true a p p' → pending_executable p' a → Q tt p') → wp (demote_account a) Q X p.
Proof.
  intros Hi HQ. unfold demote_account, put_pending at 1 2. steps. unfold id. destruct (pending p !! a) as [l|] eqn:Hl.
  2: { steps. apply HQ; [done|by apply touched_kept, kept_refl|]. intros l Hl'. congruence. }
  destruct (start_working true a l p Hi Hl) as [ts Hw]. step.
  destruct (Lists.Forward_takes l ts (GetNonce (currentState p) a)) as (l1 & HF & Hst1 & Hl1 & Hp1); [apply (co_lrepr (wk_content _ _ _ _ _ _ Hw))|].
  eapply wp_of_option; [exact HF|]. cbn [fst snd]. steps. pose proof (take_working _ _ _ _ _ _ _ _ Hw Hl1 Hst1 Hp1) as Hw1.
  eapply forget_working; [exact Hw1|]. clear Hw1. intros p1 Hw1 Hk1 _. step.
  destruct (Lists.Filter_takes _ l1 _ (GetBalance (currentState p) a) (Header.GasLimit (currentHead p)) Hl1) as (drops & inval & l2 & HFi & Hst2 & Hl2 & Hp2 & _).
  eapply wp_of_option; [exact HFi|]. cbn [fst snd]. steps. pose proof (take_working _ _ _ _ _ _ _ _ Hw1 Hl2 Hst2 Hp2) as Hw2.
  eapply forget_some; [exact Hw2|]. clear Hw2. intros p2 Hw2 Hk2 _. step. rewrite <- (app_nil_r inval) in Hw2.
  eapply demote_working; [exact Hw2|]. clear Hw2. intros p3 Hw3 Hk3. step.
  set (rest := ListLaws.kept _ _ _ _) in *.
  assert (Hrest : ∀ x, x ∈ rest → GetNonce (currentState p) a <= Tx.Nonce x ∧ Tx.Cost x <= GetBalance (currentState p) a ∧ Tx.Gas x <= Header.GasLimit (currentHead p)).
  { intros x (Hx & ? & ?)%ListLaws.kept_payable. apply SortedMap.elem_of_list_filter in Hx as [_ Hx]. lia. }
  eapply gap_demoted_wp; [exact Hw3|by intros x Hx; apply Hrest|]. clear Hw3. intros l4 ts4 p4 Hw4 Ht4 Hts4.
  assert (Ht : touched true a p p4).
  { eapply touched_trans; [apply (touched_put true a l1)|]. eapply touched_trans; [by apply touched_kept|].
    eapply touched_trans; [apply (touched_put true a l2)|]. eapply touched_trans; [by apply touched_kept|].
    eapply touched_trans; [by apply touched_kept|done]. }
  eapply drop_pending_wp; [exact Hw4|]. intros p5 Hp5 Ht5 Hl5. apply HQ; [done|by eapply touched_trans|].
  pose proof (touched_trans _ _ _ _ _ Ht Ht5) as [_ Hst Hhd]. intros l' Hl'. rewrite Hst, Hhd. rewrite Hl5 in Hl'.
  pose proof (wk_content _ _ _ _ _ _ Hw4) as Hc4. rewrite (Empty_spec cc U _ _ _ _ Hc4) in Hl'. case_bool_decide as He; [done|]. injection Hl' as <-.
  exists ts4. split; [done|]. destruct Hts4 as [?|[-> Hfirst]]; [done|]. split; [done|]. intros t Ht'. by apply Hrest.
Qed.

Lemma each_inv_wp {A} (f : A → SE (LegacyPool St) txpool_error ()) l p (Q : () → LegacyPool St → Prop) X :
  inv tight p → (∀ a p, inv tight p → wp (f a) (λ _, inv tight) X p) → (∀ p', inv tight p' → Q tt p') → wp (each f l) Q X p.
Proof.
  intros Hi Hf HQ. eapply wp_conseq; [apply (wp_each _ (λ _ p', inv tight p')); [done|]|]; cbn beta; [|intros []; apply HQ].
  intros a l' p'. apply Hf.
Qed.

Lemma demoteUnexecutables_wp p (Q : () → LegacyPool St → Prop) X :
  inv tight p →
  (∀ p', inv tight p' → currentState p' = currentState p → currentHead p' = currentHead p → (∀ a, pending_executable p' a) → Q tt p') →
  wp demoteUnexecutables Q X p.
Proof.
  intros Hi HQ. unfold demoteUnexecutables. step. eapply wp_conseq.
  - apply (wp_each _ (λ l p', inv tight p' ∧ currentState p' = currentState p ∧ currentHead p' = currentHead p ∧
      ∀ a, a ∉ l → pending_executable p' a)).
    + split_and!; [done..|]. intros a Ha l Hl. destruct Ha. unfold range_keys. rewrite map_range_perm.
      apply list_elem_of_fmap. exists (a, l). split; [done|]. by apply elem_of_map_to_list.
    + intros a l p1 (Hp1 & Hs1 & Hh1 & He1). apply demote_account_wp; [done|]. intros p2 Hp2 [Hl2 Hs2 Hh2] He2. split_and!; [done|congruence|congruence|].
      intros a' Ha'. destruct (decide (a' = a)) as [->|Hne]; [done|]. intros l' Hl'. cbn in Hl2. rewrite Hl2 in Hl' by done.
      rewrite Hs2, Hh2. apply (He1 a'); [|done]. by intros [?|?]%elem_of_cons.
  - cbn beta. intros [] p' (Hp' & Hs' & Hh' & He'). apply HQ; [done..|]. intros a. apply He', not_elem_of_nil.
Qed.
End Reorg.

(** * The legacy pool on a new head

    [reset] and the steps of [runReorg] that follow it: the transactions that a
    reorganisation lost are added again, the events that the head has passed are
    dropped, the pending lists are cut to what the new state executes, and the
    pending nonces and the base fee are set. *)

Open Scope eigen_scope.
Open Scope step_scope.

Section Reset.
Context {St : Type} `{AccountState St, CodeHashes St, Sending, BlobProofs, Authorities, HeaderHash, Clock, MapRange, Sorter}.
Context (cfg : Config) (cc : ChainConfig) (me : nat) (U : Transaction → Prop) (HU : universe U).
Implicit Types p : LegacyPool St.
Abbreviation inv := (inv cfg cc me U).
Abbreviation content := (content cc U).
Abbreviation pending_executable := (pending_executable cc U).

(** What the chain gives the pool. *)
Record chain_ok (chain : BlockChain St) : Prop := {
  ck_state root st : StateAt chain root = Some st → modest st;
  ck_txs h n b tx : GetBlock chain h n = Some b → tx ∈ Transactions b → U tx
}.

(** ** Lost transactions *)

Lemma rewind_to_U chain fuel b height acc b' acc' :
  chain_ok chain → (∀ tx, tx ∈ acc → U tx) → (∀ tx, tx ∈ Transactions b → U tx) →
  rewind_to chain fuel b height acc = Some (b', acc') →
  (∀ tx, tx ∈ acc' → U tx) ∧ (∀ tx, tx ∈ Transactions b' → U tx).
Proof.
  intros Hch. revert b acc. induction fuel as [|fuel IH]; intros b acc Ha Hb; cbn [rewind_to]; destruct (_ >? _); try done;
    [by intros [= <- <-]| |by intros [= <- <-]].
  intros (parent & Hp & Hr)%bind_Some. eapply IH; [| |exact Hr].
  - intros tx [?|?]%elem_of_app; auto.
  - intros tx. apply (ck_txs _ Hch _ _ _ _ Hp).
Qed.

Lemma rewind_both_U chain fuel rem add d i d' i' :
  chain_ok chain → (∀ tx, tx ∈ d → U tx) → (∀ tx, tx ∈ Transactions rem → U tx) →
  rewind_both chain fuel rem add d i = Some (d', i') → ∀ tx, tx ∈ d' → U tx.
Proof.
  intros Hch. revert rem add d i. induction fuel as [|fuel IH]; intros rem add d i Hd Hb; cbn [rewind_both]; destruct (negb _); try done;
    [by intros [= <- <-]| |by intros [= <- <-]].
  intros (rem' & Hp & (add' & _ & Hr)%bind_Some)%bind_Some. eapply IH; [| |exact Hr].
  - intros tx [?|?]%elem_of_app; auto.
  - intros tx. apply (ck_txs _ Hch _ _ _ _ Hp).
Qed.

Lemma lost_txs_U chain rem add ts :
  chain_ok chain → (∀ tx, tx ∈ Transactions rem → U tx) → lost_txs chain rem add = Some ts → ∀ tx, tx ∈ ts → U tx.
Proof.
  intros Hch Hb. unfold lost_txs. intros ([rem' d] & Hr & ([add' i] & _ & ([d' i'] & Hr' & [= <-])%bind_Some)%bind_Some)%bind_Some tx.
  apply rewind_to_U in Hr as [Hd Hrem]; [|done|by intros ? ?%elem_of_nil|done]. pose proof (rewind_both_U _ _ _ _ _ _ _ _ Hch Hd Hrem Hr') as HU'.
  intros [[Htx _]%SortedMap.elem_of_list_filter _]%SortedMap.elem_of_list_filter. by apply HU'.
Qed.

Lemma reinject_U chain o n r :
  chain_ok chain → is_Some (Header.Number o) → is_Some (Header.Number n) → reinject chain o n = r →
  ∃ again, r = Ok again ∧ ∀ ts tx, again = Some ts → tx ∈ ts → U tx.
Proof.
  intros Hch [oN HoN] [nN HnN] <-. unfold reinject. rewrite HoN, HnN.
  assert (Hnil : ∀ ts tx, Some ([] : list Transaction) = Some ts → tx ∈ ts → U tx) by (by intros ts tx [= <-] ?%elem_of_nil).
  repeat case_match; eexists; (split; [done|]); try done.
  intros ts tx Hl. eapply lost_txs_U; [done| |done]. intros tx'. by eapply ck_txs.
Qed.

Lemma reset_wp p chain oldHead newHead (Q : () → LegacyPool St → Prop) X :
  inv tight p → chain_ok chain → request_ok cc (oldHead, newHead) → (∀ p', inv tight p' → Q tt p') → wp (reset chain oldHead newHead) Q X p.
Proof.
  intros Hi Hch [(n & Hn & Hnew) Hold] HQ. cbn [fst snd] in *. subst newHead. unfold reset. step.
  assert (Hrest : ∀ again p1, inv tight p1 → (∀ ts tx, again = Some ts → tx ∈ ts → U tx) → wp (match again with
    | None => ret tt
    | Some again =>
        let newHead := default (CurrentBlock chain) (Some n) in
        match StateAt chain (Header.Root newHead) with
        | None => ret tt
        | Some statedb =>
            do! modify (set_head newHead statedb (Noncer.newNoncer (GetNonce (Copy statedb))));
            do! addTxsLocked again ∅;
            ret tt
        end
    end) Q X p1).
  { intros [again|] p1 Hp1 Ha; [|steps; by apply HQ]. cbv zeta. destruct (StateAt _ _) as [statedb|] eqn:Hst; [|steps; by apply HQ].
    step. step. apply (addTxsLocked_wp cfg cc me U HU).
    - apply inv_head; [done|]. split; [by eapply ck_state|]. done.
    - intros t Ht. by eapply Ha.
    - intros errs d p2 Hp2 _. steps. by apply HQ. }
  destruct oldHead as [o|]; [|steps; apply (Hrest (Some [])); [done|by intros ts tx [= <-] ?%elem_of_nil]].
  pose proof (Hold o eq_refl) as Ho. apply wp_of_result.
  destruct (reinject_U chain o n _ Hch Ho (hd_number _ _ Hnew) eq_refl) as (again & -> & Ha). by apply (Hrest again).
Qed.

(** ** Events *)

Lemma forward_events_wp p addrs events (Q : gmap Address SortedMap → LegacyPool St → Prop) X :
  inv tight p → events_ok events → (∀ ev x, events_ok ev → inv tight (set_nonces x p) → Q ev (set_nonces x p)) → wp (forward_events addrs events) Q X p.
Proof.
  assert (Hsame : ∀ p, set_nonces (pendingNonces p) p = p) by by intros [].
  revert p events Q. induction addrs as [|a addrs IH]; intros p events Q Hi Hev HQ; cbn [forward_events].
  { steps. rewrite <- (Hsame p). apply HQ; [done|by rewrite Hsame]. }
  destruct (events !! a) as [m|] eqn:Hm; [|by apply IH]. step. apply nonce_get_wp. intros n x. step.
  destruct (Hev a m Hm) as [ts Hts]. destruct (SortedMap.Forward_spec m ts n Hts) as (m' & HF & Hm'). eapply wp_of_option; [exact HF|]. cbn [fst snd].
  apply IH; [by apply inv_nonces| |].
  - intros b mb. destruct (_ =? 0); [intros [_ Hb]%lookup_delete_Some; by eapply Hev|]. intros [[<- <-]|[_ Hb]]%lookup_insert_Some; [by eexists|by eapply Hev].
  - intros ev y Hev' Hy. change (set_nonces y (set_nonces x p)) with (set_nonces y p) in *. by apply HQ.
Qed.

(** ** The nonces and the price of the next block *)

(** Writing a list back with a cache of its slice. *)
Lemma cached_lrepr l ts m : ListLaws.lrepr l ts → SortedMap.repr m ts → ListLaws.lrepr (set_txs l m) ts.
Proof. intros [] ?. by split. Qed.

Lemma inv_cached s p (b : bool) a l ts m :
  inv s p → ghosts s = [] → limbo s = [] → lists b p !! a = Some l → content b a l ts → SortedMap.repr m ts →
  inv s (set_lists b (<[a := set_txs l m]> (lists b p)) p) ∧ content b a (set_txs l m) ts.
Proof.
  intros Hi Hg HL Hl Hc Hm. pose proof (cached_lrepr l ts m (co_lrepr Hc) Hm) as Hl'. split.
  - eapply inv_weaken; [apply (inv_take (b := b) [] [] ts (hollow s) Hi Hl Hc Hl'); try done|done..].
    destruct (iv_lists Hi b a l Hl) as (ts0 & Hc0 & He). intros ->. apply He.
    assert (len ts0 = 0) as Hz by (rewrite <- (length_of_content cc U _ _ _ _ Hc0), (length_of_content cc U _ _ _ _ Hc); done). by apply len_zero_iff.
  - split; [done|apply (co_strict Hc)|apply (co_good Hc)].
Qed.

(** A list that is not suspended has transactions. *)
Lemma listed_nonempty p (b : bool) a l : inv tight p → lists b p !! a = Some l → ∃ ts, content b a l ts ∧ ts ≠ [].
Proof. intros Hi Hl. destruct (iv_lists Hi b a l Hl) as (ts & Hc & He). exists ts. split; [done|]. intros ->. by apply He. Qed.

(** A list holds one slice. *)
Lemma content_unique b b' a a' l ts ts' : content b a l ts → content b' a' l ts' → ts = ts'.
Proof.
  intros Hc Hc'. destruct (SortedMap.flatten_spec _ _ (ListLaws.lrepr_txs _ _ (co_lrepr Hc))) as [<- _].
  by destruct (SortedMap.flatten_spec _ _ (ListLaws.lrepr_txs _ _ (co_lrepr Hc'))) as [<- _].
Qed.

(** The pending lists are executable and stay so when one gets its cache. *)
Lemma pending_executable_cached p a l ts m :
  pending p !! a = Some l → content true a l ts → content true a (set_txs l m) ts →
  (∀ a, pending_executable p a) → ∀ a', pending_executable (set_pending (<[a := set_txs l m]> (pending p)) p) a'.
Proof.
  intros Hl Hc Hc' He a' l' Hl'. change (<[a := set_txs l m]> (pending p) !! a' = Some l') in Hl'.
  apply lookup_insert_Some in Hl' as [[<- <-]|[Hne Hl']]; [|by apply He].
  destruct (He a l Hl) as (ts' & Hc2 & Hex). exists ts. split; [done|]. by rewrite (content_unique _ _ _ _ _ _ _ Hc Hc2).
Qed.

Lemma LastElement_takes b a l ts : content b a l ts → ts ≠ [] →
  ∃ tx m, LegacyList.LastElement l = Some (tx, set_txs l m) ∧ SortedMap.repr m ts ∧ last ts = Some tx.
Proof.
  intros Hc Hne. destruct (last ts) as [tx|] eqn:Hlast; [|by apply last_None in Hlast].
  destruct (SortedMap.LastElement_spec (txs l) ts tx (ListLaws.lrepr_txs _ _ (co_lrepr Hc)) Hlast) as (m & HL & Hm).
  exists tx, m. unfold LegacyList.LastElement. by rewrite HL.
Qed.

(** What the end of a reset keeps of the lists. *)
Record ready p : Prop := {
  rd_inv : inv tight p;
  rd_executable a : pending_executable p a
}.

Lemma highest_nonces_wp p addrs nonces (Q : gmap Address Z → LegacyPool St → Prop) X :
  ready p → (∀ n p', ready p' → Q n p') → wp (highest_nonces addrs nonces) Q X p.
Proof.
  revert p nonces Q. induction addrs as [|a addrs IH]; intros p nonces Q Hr HQ; cbn [highest_nonces]; [steps; by apply HQ|].
  step. unfold id. destruct (pending p !! a) as [l|] eqn:Hl; [|by apply IH]. pose proof Hr as [Hi He]. step.
  destruct (listed_nonempty p true a l Hi Hl) as (ts & Hc & Hne). destruct (LastElement_takes true a l ts Hc Hne) as (tx & m & HLast & Hm & _).
  eapply wp_of_option; [exact HLast|]. cbn [fst snd]. unfold put_pending. steps.
  destruct (inv_cached tight p true a l ts m Hi eq_refl eq_refl Hl Hc Hm) as [Hi' Hc']. apply IH; [|done]. split; [done|by eapply pending_executable_cached].
Qed.

Lemma set_base_fee_wp p newHead (Q : () → LegacyPool St → Prop) X :
  ready p → (∀ h, newHead = Some h → headed cc h) → (∀ p', ready p' → Q tt p') → wp (set_base_fee newHead) Q X p.
Proof.
  intros [Hi He] Hh HQ. unfold set_base_fee. destruct newHead as [h|]; [|steps; by apply HQ]. destruct (Hh h eq_refl) as [[n Hn] _ Hl].
  step. unfold id. rewrite Hn, (iv_chain Hi).
  assert (Hheap : ∀ l0, ∃ l, Priced.Reheap (all p) l0 = Some l ∧ ready (set_all (all p) l p)).
  { intros l0. destruct (Reheap_inv cfg cc me U tight p l0 Hi) as (l & HR & Hl'). exists l. split; [done|]. split; [by eapply inv_weaken|apply He]. }
  destruct (Config.IsLondon cc (Some (n + 1))); step.
  - assert (∃ fee, CalcBaseFee cc h = Some fee) as [fee Hf].
    { unfold CalcBaseFee. rewrite Hn in *. destruct (Config.IsLondon cc (Some n)); cbn [negb]; [|by eexists]. destruct Hl as [[b Hb] Hgas]; [done|].
      rewrite Hb. cbn [mbind option_bind]. unfold Config.ElasticityMultiplier.
      assert (Header.GasLimit h / 2 ≠ 0) as Hz by (pose proof (Z.div_str_pos (Header.GasLimit h) 2); lia). apply Z.eqb_neq in Hz. rewrite Hz.
      repeat (case_match; try by eexists). }
    eapply wp_of_option; [exact Hf|]. step. destruct (Hheap (MkPricedList (stales (priced p)) (MkPriceHeap (Some fee) (ph_list (urgent (priced p)))) (floating (priced p)))) as (l & HR & Hr).
    eapply wp_of_option; [exact HR|]. steps. by apply HQ.
  - destruct (Hheap (priced p)) as (l & HR & Hr). eapply wp_of_option; [exact HR|]. steps. by apply HQ.
Qed.

Lemma settle_reset_wp p newHead (Q : () → LegacyPool St → Prop) X :
  inv tight p → (∀ h, newHead = Some h → headed cc h) → (∀ p', ready p' → Q tt p') → wp (settle_reset newHead) Q X p.
Proof.
  intros Hi Hh HQ. unfold settle_reset. step. apply (demoteUnexecutables_wp cfg cc me U HU); [done|]. intros p1 Hp1 _ _ He1. step.
  apply set_base_fee_wp; [by split|done|]. intros p2 Hr2. steps. apply highest_nonces_wp; [done|]. intros n p3 [Hp3 He3]. steps. apply HQ.
  split; [by apply inv_nonces|apply He3].
Qed.
End Reset.
