(* ===== verification/LegacyLimits.v ===== *)
(** * The limits of the legacy pool

    [truncatePending] and [truncateQueue]: neither panics, the first leaves at most
    the global slots pending unless no account is above its own, the second at most
    the global queue; both keep the invariant of LegacyInv.v, and pending lists lose
    transactions at their end only. *)

From S2P Require Import Prelude StateError GoSort GoHeap ChainConfig BlockFees TxTypes Signers SortedMap LegacyList.
From S2P Require Import LegacyPriced StateInterface TxValidation TxPool LegacyPool LegacyInv LegacyMoves LegacyAdd.

Open Scope eigen_scope.
Open Scope step_scope.

Lemma wrap64_l a b : wrap64 (wrap64 a + b) = wrap64 (a + b).
Proof. unfold wrap64. apply Zplus_mod_idemp_l. Qed.

Lemma wrap64_minus_l a b : wrap64 (wrap64 a - b) = wrap64 (a - b).
Proof. unfold wrap64. apply Zminus_mod_idemp_l. Qed.

(** ** Counting *)

Section Tally.
Context `{MapRange}.
Implicit Types m : gmap Address list_.

Definition sum_len (ls : list list_) : Z := foldr (λ l n, LegacyList.Len l + n) 0 ls.

#[global] Instance sum_len_Proper : Proper ((≡ₚ) ==> (=)) sum_len.
Proof. intros l k. unfold sum_len. induction 1; cbn [foldr]; lia. Qed.

(** The number of transactions in the lists. *)
Definition tally m : Z := sum_len (map_to_list m).*2.

Lemma tally_delete m a : tally m = length_of (m !! a) + tally (delete a m).
Proof.
  destruct (m !! a) as [l|] eqn:Hl; cbn [length_of]; [|by rewrite delete_id].
  unfold tally. rewrite <- (map_to_list_delete m a l Hl). done.
Qed.

Lemma tally_change m m' a : (∀ b, b ≠ a → m' !! b = m !! b) → tally m' = tally m + (length_of (m' !! a) - length_of (m !! a)).
Proof.
  intros Hm. rewrite (tally_delete m a), (tally_delete m' a).
  assert (delete a m' = delete a m) as ->; [|lia]. apply map_eq. intros b. destruct (decide (b = a)) as [->|Hne].
  - by rewrite !lookup_delete_eq.
  - rewrite !lookup_delete_ne by done. by apply Hm.
Qed.

Lemma count_tally m : count m = wrap64 (tally m).
Proof.
  unfold count, tally. assert (Hgen : ∀ ls acc, fold_left (λ n l, wrap64 (n + LegacyList.Len l)) ls (wrap64 acc) = wrap64 (acc + sum_len ls)).
  { induction ls as [|l ls IH]; intros acc; cbn [fold_left]; [by rewrite Z.add_0_r|]. rewrite wrap64_l, IH. f_equal. unfold sum_len. cbn [foldr]. lia. }
  change 0 with (wrap64 0) at 1. by rewrite Hgen, Z.add_0_l, range_values_perm.
Qed.
End Tally.

Section Limits.
Context {St : Type} `{AccountState St, CodeHashes St, Sending, BlobProofs, Authorities, HeaderHash, Clock, MapRange, Sorter}.
Context (cfg : Config) (cc : ChainConfig) (me : nat) (U : Transaction → Prop) (HU : universe U).
(** Whether the pending lists were executable before. *)
Context (E : Prop) (Hslots : 1 <= AccountSlots cfg).
Implicit Types p : LegacyPool St.
Abbreviation inv := (inv cfg cc me U).
Abbreviation content := (content cc U).
Abbreviation sender_of := (sender_of cc).
Abbreviation pending_executable := (pending_executable cc U).

Record sound p : Prop := {
  so_inv : inv tight p;
  so_executable : E → ∀ a, pending_executable p a
}.

Definition plen p (a : Address) : Z := length_of (pending p !! a).

Lemma plen_content p a l ts : pending p !! a = Some l → content true a l ts → plen p a = len ts.
Proof. intros Hl Hc. unfold plen. rewrite Hl. by eapply length_of_content. Qed.

Lemma plen_some p a : 1 <= plen p a → ∃ l, pending p !! a = Some l.
Proof. unfold plen. destruct (pending p !! a) as [l|]; [by exists l|]. cbn. lia. Qed.

(** ** The last transaction of an account *)

Lemma forget_nonces_wp a L l ts p (Q : () → LegacyPool St → Prop) X :
  working cfg cc me U true a L l ts p →
  (∀ p', working cfg cc me U true a [] l ts p' → kept true p p' → kept false p p' → Q tt p') →
  wp (each (λ tx, do! all_Remove (Tx.Hash_ tx); nonce_setIfLower a (Tx.Nonce tx)) L) Q X p.
Proof.
  intros Hw HQ. eapply wp_conseq.
  - apply (wp_each _ (λ L p', working cfg cc me U true a L l ts p' ∧ kept true p p' ∧ kept false p p')).
    + split_and!; [done|apply kept_refl..].
    + intros t L' p1 (Hw1 & Ht & Hf). unfold all_Remove, nonce_setIfLower. steps. split_and!.
      * apply nonces_working. eapply kept_working; [exact Hw1| | |by intros x Hx; right].
        -- by apply (inv_forget cfg cc me U HU (half true a (t :: L')) p1 t L'); [apply (wk_inv _ _ _ _ _ _ _ _ _ _ Hw1)|].
        -- by split.
      * eapply kept_trans; [exact Ht|]. by split.
      * eapply kept_trans; [exact Hf|]. by split.
  - cbn beta. intros [] p' (Hw' & Ht & Hf). by apply HQ.
Qed.

Lemma executable_take st h a ts k : executable st h a ts → executable st h a (take (S k) ts).
Proof.
  intros [(t & rest & -> & Hn) Hp]. split; [by exists t, (take k rest)|]. intros x Hx. apply Hp.
  rewrite <- (take_drop (S k) (t :: rest)). apply elem_of_app. by left.
Qed.

Lemma drop_last_wp p a (Q : () → LegacyPool St → Prop) X :
  sound p → 2 <= plen p a →
  (∀ p', sound p' → touched true a p p' → queue p' = queue p → plen p' a = plen p a - 1 → Q tt p') → wp (drop_last a) Q X p.
Proof.
  intros [Hi He] Hn HQ. destruct (plen_some p a) as [l Hl]; [lia|]. unfold drop_last. step. unfold id. rewrite Hl. step.
  destruct (start_working cfg cc me U true a l p Hi Hl) as [ts Hw]. pose proof (wk_content _ _ _ _ _ _ _ _ _ _ Hw) as Hc.
  rewrite (plen_content p a l ts Hl Hc) in Hn. pose proof (length_of_content cc U _ _ _ _ Hc) as Hlen. cbn in Hlen.
  destruct (Lists.Cap_takes l ts (LegacyList.Len l - 1) (co_lrepr Hc)) as (l' & HC & Hst & Hl' & Hp); [lia|].
  eapply wp_of_option; [exact HC|]. cbn [fst snd]. unfold put_pending. steps.
  pose proof (take_working _ _ _ _ _ _ _ _ _ _ _ _ Hw Hl' Hst Hp) as Hw1. rewrite Hlen in *. set (k := Z.to_nat (len ts - 1)) in *.
  eapply forget_nonces_wp; [exact Hw1|]. intros p2 Hw2 Hk2 Hq2. eapply Removed_working; [exact Hw2|]. intros y Hw3.
  assert (Hne : take k ts ≠ []).
  { intros Hz. apply (f_equal length) in Hz. rewrite length_take in Hz. unfold len in *. cbn in Hz. lia. }
  pose proof (wk_content _ _ _ _ _ _ _ _ _ _ Hw3) as Hc3. pose proof (wk_at _ _ _ _ _ _ _ _ _ _ Hw3) as Hl3.
  assert (Ht : touched true a p (set_all (all p2) y p2)).
  { eapply touched_trans; [apply (touched_put true a l')|]. eapply touched_trans; [by apply touched_kept|]. by split. }
  apply HQ; [split| | |].
  - apply (inv_unhold cfg cc me U tight _ a true); [|rewrite Hl3; by eexists].
    pose proof (finish_working cfg cc me U _ _ _ _ _ Hw3) as Hf. rewrite (Empty_spec cc U _ _ _ _ Hc3), bool_decide_false in Hf; done.
  - intros HE a' l0 Hl0. destruct Ht as [Hoth Hs Hh]. rewrite Hs, Hh. destruct (decide (a' = a)) as [->|Hna].
    + cbn [lists] in Hl3. rewrite Hl3 in Hl0. injection Hl0 as <-. exists (take k ts). split; [done|].
      destruct (He HE a l Hl) as (ts' & Hc' & Hex). rewrite <- (content_unique cc U _ _ _ _ _ _ _ Hc Hc') in Hex.
      destruct k as [|k]; [done|]. by apply executable_take.
    + cbn [lists] in Hoth. rewrite Hoth in Hl0 by done. by apply He.
  - done.
  - transitivity (queue p2); [done|]. destruct Hq2 as [Hq2 _ _ _]. exact Hq2.
  - rewrite (plen_content p a l ts Hl Hc), (plen_content _ a l' (take k ts)) by done. unfold len. rewrite length_take. unfold len in *. lia.
Qed.

(** ** One from each offender *)

(** The offenders lost as many transactions each, the others none. *)
Record level (offs : list Address) (d : Z) p p' : Prop := {
  lv_sound : sound p';
  lv_offs a : a ∈ offs → plen p' a = plen p a - d;
  lv_others a : a ∉ offs → plen p' a = plen p a;
  lv_queue : queue p' = queue p;
  lv_down : 0 <= d
}.

Definition counted (n : Z) p : Prop := n = wrap64 (tally (pending p)).

Lemma level_refl offs p : sound p → level offs 0 p p.
Proof. split; [done|intros; lia|done|done|done]. Qed.

Lemma level_trans offs d1 d2 p1 p2 p3 : level offs d1 p1 p2 → level offs d2 p2 p3 → level offs (d1 + d2) p1 p3.
Proof.
  intros [_ A1 A2 A3 A4] [B0 B1 B2 B3 B4]. split; [done| | |congruence|lia].
  - intros a Ha. rewrite B1, A1 by done. lia.
  - intros a Ha. by rewrite B2, A2.
Qed.

Lemma drop_each_wp p offs n (Q : Z → LegacyPool St → Prop) X :
  sound p → NoDup offs → (∀ a, a ∈ offs → 2 <= plen p a) → counted n p →
  (∀ n' p', level offs 1 p p' → counted n' p' → Q n' p') → wp (drop_each offs n) Q X p.
Proof.
  intros Hs Hnd. revert p n Q Hs. induction Hnd as [|a offs Ha Hnd IH]; intros p n Q Hs Hlen Hn HQ; cbn [drop_each].
  { steps. apply HQ; [|done]. split; [done|by intros a ?%elem_of_nil|done|done|done]. }
  step. apply drop_last_wp; [done|apply Hlen; by left|]. intros p1 Hs1 Ht1 Hq1 Hl1.
  assert (Hoth : ∀ b, b ≠ a → plen p1 b = plen p b).
  { intros b Hb. unfold plen. pose proof (tc_lists _ _ _ _ Ht1 b Hb) as Hb'. cbn [lists] in Hb'. by rewrite Hb'. }
  apply IH; [done| | |].
  - intros b Hb. rewrite Hoth; [apply Hlen; by right|]. by intros ->.
  - unfold counted in *. rewrite Hn, wrap64_minus_l, (tally_change (pending p) (pending p1) a); [|intros b Hb; by apply (tc_lists _ _ _ _ Ht1 b Hb)].
    f_equal. unfold plen in Hl1. lia.
  - intros n' p2 [Hs2 Ho2 Hr2 Hq2 _] Hn2. apply HQ; [|done]. split; [done| | |congruence|done].
    + intros b [->|Hb]%elem_of_cons; [by rewrite Hr2|]. rewrite Ho2, Hoth; [done|by intros ->|done].
    + intros b [Hba Hb]%not_elem_of_cons. by rewrite Hr2, Hoth.
Qed.

(** ** Equal shares *)

(** The offenders have as much each as their last one. *)
Definition even (offs : list Address) (last : Address) p : Prop := ∀ a, a ∈ offs → plen p a = plen p last.

Lemma even_level offs last d p p' : last ∈ offs → even offs last p → level offs d p p' → even offs last p'.
Proof. intros Hl He [_ Ho _ _ _] a Ha. rewrite !Ho by done. by rewrite He. Qed.

(** Either the limit is met, or the offenders are down to the threshold. *)
Lemma equalize_wp fuel p last threshold offs n (Q : Z → LegacyPool St → Prop) X :
  sound p → last ∈ offs → NoDup offs → even offs last p → counted n p → 1 <= threshold <= plen p last →
  plen p last - threshold < Z.of_nat fuel →
  (∀ n' p' d, level offs d p p' → counted n' p' → even offs last p' → threshold <= plen p' last →
     n' <= GlobalSlots cfg ∨ plen p' last = threshold → Q n' p') →
  wp (equalize fuel last threshold offs n) Q X p.
Proof.
  revert p n Q. induction fuel as [|fuel IH]; intros p n Q Hs Hlast Hnd Hev Hn Hth Hfuel HQ; [lia|]. cbn [equalize]. step. unfold id.
  destruct (plen_some p last) as [l Hl]; [lia|]. rewrite Hl, (iv_config (so_inv _ Hs)).
  assert (Hpl : LegacyList.Len l = plen p last) by (unfold plen; by rewrite Hl). rewrite Hpl.
  destruct (Z.gtb_spec n (GlobalSlots cfg)) as [Hgt|Hle]; cbn [andb].
  2: { steps. apply (HQ n p 0); [by apply level_refl|done|done|lia|lia]. }
  destruct (Z.gtb_spec (plen p last) threshold) as [Hgt2|Hle2].
  2: { steps. apply (HQ n p 0); [by apply level_refl|done|done|lia|lia]. }
  step. apply drop_each_wp; [done|done| |done|].
  - intros a Ha. rewrite Hev by done. lia.
  - intros n1 p1 Hlv Hn1. pose proof (lv_offs _ _ _ _ Hlv last Hlast) as Hl1. apply IH; [apply (lv_sound _ _ _ _ Hlv)|done|done| |done|lia|lia|].
    + by eapply even_level.
    + intros n2 p2 d Hlv2 Hn2 Hev2 Hth2 Hor. eapply HQ; [by eapply level_trans|done|done|done|done].
Qed.

(** ** The order of the offenders *)

#[local] Instance higher_weak : StrictWeak higher.
Proof. unfold higher. split; intros *; rewrite ?Z.gtb_ltb, ?Z.ltb_lt, ?Z.ltb_ge; lia. Qed.

Lemma spam_order_spec p :
  is_heap higher (spam_order p) ∧
  spam_order p ≡ₚ map (λ e, (e.1, LegacyList.Len e.2)) (List.filter (λ e, LegacyList.Len e.2 >? AccountSlots (config p)) (map_range (pending p))).
Proof.
  unfold spam_order. set (keep := λ e : Address * list_, LegacyList.Len e.2 >? AccountSlots (config p)).
  set (f := λ e : Address * list_, (e.1, LegacyList.Len e.2)).
  assert (Hgen : ∀ es q, is_heap higher q →
    let q' := fold_left (λ q e, if keep e then Push higher q (f e) else q) es q in
    is_heap higher q' ∧ q' ≡ₚ map f (List.filter keep es) ++ q).
  { induction es as [|e es IH]; intros q Hq; cbn; [done|]. destruct (keep e); cbn; [|by apply IH].
    destruct (Push_spec higher q (f e) Hq) as [Hh Hp]. destruct (IH _ Hh) as [Hh' Hp']. split; [done|]. by rewrite Hp', Hp, Permutation_middle. }
  destruct (Hgen (map_range (pending p)) []) as [Hh Hp]; [by intros ? ? ? ?|]. rewrite app_nil_r in Hp. done.
Qed.

Lemma elem_of_filtered {A} (f : A → bool) l x : x ∈ List.filter f l ↔ x ∈ l ∧ f x = true.
Proof. by rewrite !list_elem_of_In, List.filter_In. Qed.

Lemma NoDup_keys_filter {A} (f : Address * A → bool) es : NoDup es.*1 → NoDup (List.filter f es).*1.
Proof.
  induction es as [|e es IH]; cbn; [done|]. intros [Hn Hnd]%NoDup_cons. destruct (f e); cbn; [|auto]. apply NoDup_cons. split; [|auto].
  intros (x & Hx & [Hin _]%elem_of_filtered)%list_elem_of_fmap. apply Hn. rewrite Hx. by apply list_elem_of_fmap_2.
Qed.

Record spam (spammers : list (Address * Z)) (offs : list Address) (n : Z) p : Prop := {
  sp_sound : sound p;
  sp_counted : counted n p;
  sp_heap : is_heap higher spammers;
  sp_nodup : NoDup (spammers.*1 ++ offs);
  sp_lens a k : (a, k) ∈ spammers → k = plen p a ∧ AccountSlots cfg < k;
  sp_all a : AccountSlots cfg < plen p a → a ∈ spammers.*1 ++ offs;
  sp_even o : GlobalSlots cfg < n → last offs = Some o →
    even offs o p ∧ AccountSlots cfg < plen p o ∧ ∀ a k, (a, k) ∈ spammers → k <= plen p o
}.

Lemma spam_start p : sound p → spam (spam_order p) [] (count (pending p)) p.
Proof.
  intros Hs. destruct (spam_order_spec p) as [Hh Hp]. rewrite (iv_config (so_inv _ Hs)) in Hp.
  assert (Hin : ∀ a k, (a, k) ∈ spam_order p ↔ ∃ l, pending p !! a = Some l ∧ k = LegacyList.Len l ∧ AccountSlots cfg < k).
  { intros a k. rewrite Hp. setoid_rewrite list_elem_of_fmap. setoid_rewrite elem_of_filtered. setoid_rewrite Z.gtb_ltb. setoid_rewrite Z.ltb_lt. split.
    - intros ([b l] & Heq & Hin & Hlt). injection Heq as -> ->. apply map_range_elem in Hin. by exists l.
    - intros (l & Hl & -> & Hlt). exists (a, l). split_and!; [done|by apply map_range_elem|done]. }
  split; [done|apply count_tally|done| | | |].
  - rewrite app_nil_r, Hp, <- list_fmap_compose. change (NoDup (fst <$> List.filter (λ e, LegacyList.Len e.2 >? AccountSlots cfg) (map_range (pending p)))).
    apply NoDup_keys_filter, map_range_NoDup.
  - intros a k (l & Hl & -> & Hlt)%Hin. split; [|done]. unfold plen. by rewrite Hl.
  - intros a Ha. rewrite app_nil_r. destruct (plen_some p a) as [l Hl]; [lia|]. apply list_elem_of_fmap.
    exists (a, LegacyList.Len l). split; [done|]. apply Hin. exists l. split_and!; [done..|]. unfold plen in Ha. by rewrite Hl in Ha.
  - done.
Qed.

(** Taking the next offender: those before are brought down to it. *)
Lemma spam_next spammers o k rest offs n p :
  spam spammers offs n p → spammers ≡ₚ (o, k) :: rest → is_heap higher rest →
  (∀ b j, (b, j) ∈ spammers → j <= k) → ∀ n' p' d,
  level offs d p p' → counted n' p' →
  (∀ prev, last offs = Some prev → even offs prev p' ∧ (n' <= GlobalSlots cfg ∨ plen p' prev = plen p o)) →
  spam rest (offs ++ [o]) n' p'.
Proof.
  intros Hsp Hperm Hh Hmax n' p' d Hlv Hn' Heq. pose proof Hsp as [Hs Hn _ Hnd Hlens Hall Heven].
  assert (Hk : k = plen p o ∧ AccountSlots cfg < k) by (apply Hlens; rewrite Hperm; by left). destruct Hk as [Hk Hka].
  rewrite Hperm in Hnd. cbn in Hnd.
  assert (Hnd' : NoDup (rest.*1 ++ offs ++ [o])). { rewrite <- (Permutation_app_comm [o]). cbn. by rewrite <- Permutation_middle. }
  assert (Hout : ∀ b, b ∈ rest.*1 ++ [o] → b ∉ offs).
  { intros b Hb Hin. apply NoDup_app in Hnd' as (_ & Hd1 & Hnd2). apply NoDup_app in Hnd2 as (_ & Hd2 & _).
    apply elem_of_app in Hb as [Hb|Hb]; [apply (Hd1 b Hb), elem_of_app; by left|by apply (Hd2 b Hin)]. }
  assert (Ho : plen p' o = k). { rewrite (lv_others _ _ _ _ Hlv); [done|]. apply Hout, elem_of_app. right. by left. }
  assert (Hrest : ∀ b j, (b, j) ∈ rest → j = plen p' b ∧ AccountSlots cfg < j).
  { intros b j Hb. rewrite (lv_others _ _ _ _ Hlv); [apply Hlens; rewrite Hperm; by right|]. apply Hout, elem_of_app. left. by apply (list_elem_of_fmap_2 fst rest (b, j)). }
  split; [apply (lv_sound _ _ _ _ Hlv)|done|done|done|done| |].
  - intros a Ha. assert (Hap : a ∈ spammers.*1 ++ offs).
    { apply Hall. destruct (decide (a ∈ offs)) as [Hin|Hin]; [pose proof (lv_down _ _ _ _ Hlv); rewrite (lv_offs _ _ _ _ Hlv) in Ha by done; lia|by rewrite (lv_others _ _ _ _ Hlv) in Ha]. }
    rewrite Hperm in Hap. cbn in Hap. rewrite !elem_of_app, elem_of_cons, ?elem_of_app in *. pose proof (not_elem_of_nil a) as Hnil. clear -Hap Hnil. naive_solver.
  - intros o' Hgt Hlast. rewrite last_snoc in Hlast. injection Hlast as <-. rewrite Ho. split_and!; [|done|].
    + intros a [Ha|Ha%list_elem_of_singleton]%elem_of_app; [|by subst a]. destruct (last offs) as [prev|] eqn:Hl.
      * destruct (Heq prev eq_refl) as [He [?|Hp]]; [lia|]. rewrite (He a Ha), Hp, Ho. done.
      * apply last_None in Hl as ->. by apply elem_of_nil in Ha.
    + intros a j Haj. apply (Hmax a j). rewrite Hperm. by right.
Qed.

Lemma equalize_done fuel last threshold offs n p (Q : Z → LegacyPool St → Prop) X :
  sound p → n <= GlobalSlots cfg → Q n p → wp (equalize (S fuel) last threshold offs n) Q X p.
Proof.
  intros Hs Hn HQ. cbn [equalize]. step. unfold id. rewrite (iv_config (so_inv _ Hs)).
  assert (n >? GlobalSlots cfg = false) as -> by (rewrite Z.gtb_ltb; apply Z.ltb_ge; lia). destruct (pending p !! last); by steps.
Qed.

(** The next offender to be popped, and what the others may have at most. *)
Lemma pop_highest spammers : is_heap higher spammers → spammers ≠ [] →
  ∃ o k rest, Pop higher spammers = Some ((o, k), rest) ∧ spammers ≡ₚ (o, k) :: rest ∧ is_heap higher rest ∧
    ∀ b j, (b, j) ∈ spammers → j <= k.
Proof.
  intros Hh Hne. destruct spammers as [|[o k] sp]; [done|].
  destruct (Pop_spec higher ((o, k) :: sp) (o, k) Hh eq_refl) as (l0 & rest & Heq & HP & Hp & Hh'). injection Heq as <-.
  exists o, k, rest. split_and!; [done|by rewrite Hp|done|]. intros b j Hb.
  pose proof (heap_least higher _ (o, k) (b, j) Hh eq_refl Hb) as Hl. unfold higher in Hl. cbn in Hl. rewrite Z.gtb_ltb, Z.ltb_ge in Hl. lia.
Qed.

Lemma penalize_wp fuel spammers offs n p (Q : list Address * Z → LegacyPool St → Prop) X :
  spam spammers offs n p → (length spammers < fuel)%nat →
  (∀ spammers' offs' n' p', spam spammers' offs' n' p' → queue p' = queue p → n' <= GlobalSlots cfg ∨ spammers' = [] → Q (offs', n') p') →
  wp (penalize fuel spammers offs n) Q X p.
Proof.
  revert spammers offs n p Q. induction fuel as [|fuel IH]; intros spammers offs n p Q Hsp Hf HQ; [lia|]. cbn [penalize]. step. unfold id.
  rewrite (iv_config (so_inv _ (sp_sound _ _ _ _ Hsp))).
  destruct (Z.gtb_spec n (GlobalSlots cfg)) as [Hgt|Hle]; cbn [andb negb]; [|steps; eapply HQ; [done|done|by left]].
  destruct (Z.eqb_spec (len spammers) 0) as [Hz|Hz]; cbn [negb]; [steps; eapply HQ; [done|done|right; by apply len_zero_iff]|]. step.
  destruct (pop_highest spammers (sp_heap _ _ _ _ Hsp)) as (o & k & rest & HP & Hperm & Hh & Hmax); [by intros ->|].
  eapply wp_of_option; [exact HP|]. cbn [fst snd].
  destruct (sp_lens _ _ _ _ Hsp o k) as [Hk Hka]; [rewrite Hperm; by left|].
  assert (Hlen : (length rest < fuel)%nat) by (apply Permutation_length in Hperm; cbn in Hperm; lia).
  destruct (last offs) as [prev|] eqn:Hlast.
  - destruct (sp_even _ _ _ _ Hsp prev ltac:(lia) Hlast) as (Hev & Hpa & Hpk). step. change (length_of (pending p !! o)) with (plen p o).
    assert (Hin : prev ∈ offs) by (apply last_Some in Hlast as [l ->]; apply elem_of_app; right; by left).
    pose proof (sp_nodup _ _ _ _ Hsp) as Hnd. apply NoDup_app in Hnd as (_ & _ & Hnd).
    assert (Hok : plen p o <= plen p prev) by (rewrite <- Hk; apply (Hpk o k); rewrite Hperm; by left).
    apply equalize_wp; [apply (sp_sound _ _ _ _ Hsp)|done|done|done|apply (sp_counted _ _ _ _ Hsp)|lia| |].
    + unfold equalize_fuel. fold (plen p prev). lia.
    + intros n1 p1 d Hlv Hn1 Hev1 Hth Hor. eapply IH; [|done|].
      * eapply (spam_next spammers o k rest offs n p); try done. intros prev' Hp'. rewrite Hlast in Hp'. injection Hp' as <-. split; [done|].
        destruct Hor as [?|Hp1]; [by left|by right].
      * intros s' o' n' p' Hs' Hq' Hor'. eapply HQ; [done| |done]. rewrite Hq'. apply (lv_queue _ _ _ _ Hlv).
  - step. steps. eapply IH; [|done|done]. apply (spam_next spammers o k rest offs n p Hsp Hperm Hh Hmax n p 0); [|apply (sp_counted _ _ _ _ Hsp)|].
    + apply level_refl, (sp_sound _ _ _ _ Hsp).
    + intros prev Hp. congruence.
Qed.

(** The guarantee of [truncatePending], by the pool's own count. *)
Lemma truncatePending_wp p (Q : () → LegacyPool St → Prop) X :
  sound p →
  (∀ p', sound p' → queue p' = queue p →
     count (pending p') <= GlobalSlots cfg ∨ (∀ a, plen p' a <= AccountSlots cfg) → Q tt p') →
  wp truncatePending Q X p.
Proof.
  intros Hs HQ. unfold truncatePending. step. unfold id. rewrite (iv_config (so_inv _ Hs)).
  destruct (Z.leb_spec (count (pending p)) (GlobalSlots cfg)) as [Hle|Hgt]; [steps; apply HQ; auto|]. step.
  apply (penalize_wp _ _ _ _ _ _ _ (spam_start p Hs)); [lia|]. intros sp offs n p1 Hsp Hq1 Hor. cbn [fst snd].
  pose proof (sp_sound _ _ _ _ Hsp) as Hs1. pose proof (sp_counted _ _ _ _ Hsp) as Hn1. unfold counted in Hn1. rewrite <- count_tally in Hn1.
  destruct (last offs) as [o|] eqn:Hlast.
  - steps. unfold id. destruct (Z_le_gt_dec n (GlobalSlots cfg)) as [Hn|Hn].
    + apply equalize_done; [done|done|]. steps. apply HQ; [done|done|]. left. lia.
    + destruct Hor as [?| ->]; [lia|]. destruct (sp_even _ _ _ _ Hsp o ltac:(lia) Hlast) as (Hev & Hpo & _).
      assert (Hin : o ∈ offs) by (apply last_Some in Hlast as [l ->]; apply elem_of_app; right; by left).
      rewrite (iv_config (so_inv _ Hs1)). apply equalize_wp; [done|done|by apply (sp_nodup _ _ _ _ Hsp)|done|apply (sp_counted _ _ _ _ Hsp)|lia| |].
      { unfold equalize_fuel. fold (plen p1 o). lia. }
      intros n2 p2 d Hlv Hn2 Hev2 _ Hor. steps. apply HQ; [apply (lv_sound _ _ _ _ Hlv)|by rewrite (lv_queue _ _ _ _ Hlv)|].
      destruct Hor as [Hle|Ho]; [left; rewrite count_tally; unfold counted in Hn2; lia|right]. intros a.
      destruct (decide (a ∈ offs)) as [Ha|Ha]; [rewrite Hev2, Ho by done; lia|]. rewrite (lv_others _ _ _ _ Hlv) by done.
      destruct (Z_le_gt_dec (plen p1 a) (AccountSlots cfg)); [done|]. destruct Ha. apply (sp_all _ _ _ _ Hsp a). lia.
  - apply last_None in Hlast as ->. steps. apply HQ; [done|done|]. destruct Hor as [?| ->]; [left; lia|right]. intros a.
    destruct (Z_le_gt_dec (plen p1 a) (AccountSlots cfg)) as [|Ha]; [done|]. pose proof (sp_all _ _ _ _ Hsp a ltac:(lia)) as Hin. by apply elem_of_nil in Hin.
Qed.

(** ** The queue *)

Definition qlen p (a : Address) : Z := length_of (queue p !! a).

Lemma qlen_content p a l ts : queue p !! a = Some l → content false a l ts → qlen p a = len ts.
Proof. intros Hl Hc. unfold qlen. rewrite Hl. by eapply length_of_content. Qed.

(** Only the queue of one account changed. *)
Record queue_only (a : Address) p p' : Prop := {
  qo_pending : pending p' = pending p;
  qo_state : currentState p' = currentState p;
  qo_head : currentHead p' = currentHead p;
  qo_others b : b ≠ a → queue p' !! b = queue p !! b
}.

Lemma queue_only_refl a p : queue_only a p p.
Proof. done. Qed.

Lemma queue_only_trans a p1 p2 p3 : queue_only a p1 p2 → queue_only a p2 p3 → queue_only a p1 p3.
Proof. intros [A1 A2 A3 A4] [B1 B2 B3 B4]. split; [congruence..|]. intros b Hb. by rewrite B4, A4. Qed.

Lemma queue_only_sound a p p' : sound p → inv tight p' → queue_only a p p' → sound p'.
Proof.
  intros [_ He] Hi [Hp Hs Hh _]. split; [done|]. intros HE b l Hl. rewrite Hs, Hh. rewrite Hp in Hl. by apply He.
Qed.

(** Other queued transactions stay where they are when one is removed. *)
Lemma stays_queued p p' a t x :
  inv tight p → inv tight p' → all p' = Lookup.Remove (all p) (Tx.Hash_ t) → pending p' = pending p →
  slot (queue p) a (Tx.Nonce t) = Some t → slot (queue p) a (Tx.Nonce x) = Some x → x ≠ t → slot (queue p') a (Tx.Nonce x) = Some x.
Proof.
  intros Hi Hi' Ha Hp Ht Hx Hne. destruct (slot_good (b := false) Hi Ht) as (Hgt & _). destruct (slot_good (b := false) Hi Hx) as (Hgx & Hsx & _).
  assert (Hget : Lookup.Get (all p') (Tx.Hash_ x) = Some x).
  { rewrite Ha, Get_Remove. rewrite decide_False by (intros Hh; apply Hne, (un_hash HU); [apply Hgx|apply Hgt|done]).
    apply (iv_filed Hi). split; [by apply not_elem_of_nil|]. left. exists false. by rewrite Hsx. }
  apply (iv_filed Hi') in Hget as [_ [[b Hb]|Hl]]; [|by apply elem_of_nil in Hl]. rewrite Hsx in Hb. destruct b; [|done].
  cbn [lists] in Hb. rewrite Hp in Hb. pose proof (iv_apart Hi a (Tx.Nonce x) true x false x Hb Hx). done.
Qed.

Lemma remove_queued_wp p a ts (Q : () → LegacyPool St → Prop) X :
  inv tight p → NoDup ts → (∀ t, t ∈ ts → slot (queue p) a (Tx.Nonce t) = Some t) →
  (∀ p', inv tight p' → queue_only a p p' → qlen p' a = qlen p a - len ts → Q tt p') → wp (remove_all ts) Q X p.
Proof.
  intros Hi Hnd Hts HQ. unfold remove_all. eapply wp_conseq.
  - apply (wp_each _ (λ l p', inv tight p' ∧ NoDup l ∧ (∀ t, t ∈ l → slot (queue p') a (Tx.Nonce t) = Some t) ∧
      queue_only a p p' ∧ qlen p' a = qlen p a - len ts + len l)).
    + split_and!; [done|done|done|apply queue_only_refl|lia].
    + intros t l p1 (Hp1 & Hnd1 & Hl & Hq & Hn). step. apply NoDup_cons in Hnd1 as [Htl Hnd1].
      pose proof (Hl t ltac:(by left)) as Ht. destruct (slot_good (b := false) Hp1 Ht) as (Hg & Hst & _).
      assert (Hget : Lookup.Get (all p1) (Tx.Hash_ t) = Some t).
      { apply (iv_filed Hp1). split; [by apply not_elem_of_nil|]. left. exists false. by rewrite Hst. }
      apply (removeTx_wp cfg cc me U HU tight); [done|done|done|by intros t' _ []|by rewrite Hget|].
      intros t' n p2 Hget' Hp2 Ha2 Hdq. rewrite Hget in Hget'. injection Hget' as <-. rewrite Hst in Hdq. specialize (Hdq Ht) as [[Hk1 _ Hk3 Hk4] Hoth Hlen]. cbn in *.
      steps. split_and!; [done|done| | |].
      * intros x Hx. eapply stays_queued; [exact Hp1|done|exact Ha2|done|done|apply Hl; by right|by intros ->].
      * eapply queue_only_trans; [exact Hq|]. split; [done..|]. intros b Hb. apply Hoth. by rewrite Hst.
      * unfold qlen in *. rewrite Hst in Hlen. rewrite Hlen, Hn, len_cons. lia.
  - cbn beta. intros [] p' (Hp' & _ & _ & Hq & Hn). apply HQ; [done|done|]. rewrite Hn, (@len_nil Transaction). lia.
Qed.

Lemma flatten_queued_wp p a l ts (Q : list Transaction → LegacyPool St → Prop) X :
  inv tight p → queue p !! a = Some l → content false a l ts →
  (∀ p', inv tight p' → queue_only a p p' → qlen p' a = qlen p a → (∀ t, t ∈ ts → slot (queue p') a (Tx.Nonce t) = Some t) → Q ts p') →
  wp (flatten_queued a) Q X p.
Proof.
  intros Hi Hl Hc HQ. unfold flatten_queued. step. unfold id. rewrite Hl. unfold LegacyList.Flatten, SortedMap.Flatten.
  destruct (SortedMap.flatten_spec (txs l) ts (ListLaws.lrepr_txs _ _ (co_lrepr Hc))) as [Hf Hm].
  destruct (SortedMap.flatten (txs l)) as [out m]. cbn [fst snd] in Hf, Hm. subst out. unfold put_queue. steps.
  destruct (inv_cached cfg cc me U tight p false a l ts m Hi eq_refl eq_refl Hl Hc Hm) as [Hi' Hc']. apply HQ; [done| | |].
  - split; [done..|]. intros b Hb. cbn. by rewrite lookup_insert_ne.
  - rewrite (qlen_content p a l ts Hl Hc). apply (qlen_content _ a (set_txs l m)); [apply lookup_insert_eq|done].
  - intros t Ht. apply (slot_content cc U false a (set_txs l m) ts); [apply lookup_insert_eq|done|done].
Qed.

Lemma truncate_nothing addrs p (Q : () → LegacyPool St → Prop) X : Q tt p → wp (truncate_accounts addrs 0) Q X p.
Proof. by destruct addrs. Qed.

Lemma content_NoDup b a l ts : content b a l ts → NoDup ts.
Proof. intros Hc. eapply NoDup_fmap_1, content_nonces, Hc. Qed.

(** A queue without transactions is not kept. *)
Lemma qlen_zero p a : inv tight p → qlen p a = 0 → queue p !! a = None.
Proof.
  intros Hi Hz. destruct (queue p !! a) as [l|] eqn:Hl; [|done].
  destruct (listed_nonempty cfg cc me U p false a l Hi Hl) as (ts & Hc & Hne). rewrite (qlen_content p a l ts Hl Hc) in Hz. by apply len_zero_iff in Hz.
Qed.

(** The overflow is dropped exactly, whatever the word it is counted in. *)
Lemma truncate_accounts_wp addrs p (Q : () → LegacyPool St → Prop) X :
  sound p → NoDup addrs → (∀ a, is_Some (queue p !! a) → a ∈ addrs) → (∀ a, a ∈ addrs → is_Some (queue p !! a)) → 0 <= GlobalQueue cfg < two64 →
  (∀ p', sound p' → pending p' = pending p → count (queue p') <= GlobalQueue cfg → Q tt p') →
  wp (truncate_accounts addrs (wrap64 (tally (queue p) - GlobalQueue cfg))) Q X p.
Proof.
  intros Hs Hnd. revert p Q Hs. induction Hnd as [|a addrs Ha Hnd IH]; intros p Q Hs Hdom Hin HG HQ; cbn [truncate_accounts].
  { steps. apply HQ; [done|done|]. rewrite count_tally. assert (queue p = ∅) as ->; [|unfold tally; rewrite map_to_list_empty; cbn; change (wrap64 0) with 0; lia].
    apply map_eq. intros b. rewrite lookup_empty. apply eq_None_not_Some. intros Hb%Hdom. by apply elem_of_nil in Hb. }
  set (drop_ := wrap64 (tally (queue p) - GlobalQueue cfg)). pose proof (wrap64_range (tally (queue p) - GlobalQueue cfg)) as Hr. fold drop_ in Hr.
  assert (Hend : ∀ p', sound p' → pending p' = pending p → wrap64 (tally (queue p') - GlobalQueue cfg) = 0 → Q tt p').
  { intros p' Hs' Hp' Hz. apply HQ; [done|done|]. rewrite count_tally. enough (wrap64 (tally (queue p')) = GlobalQueue cfg) by lia.
    replace (tally (queue p')) with (tally (queue p') - GlobalQueue cfg + GlobalQueue cfg) by lia. rewrite <- wrap64_l, Hz. by apply wrap64_id. }
  rewrite Z.gtb_ltb. destruct (Z.ltb_spec 0 drop_) as [Hpos|Hle].
  2: { steps. apply Hend; [done|done|]. fold drop_. destruct Hr. lia. }
  destruct (Hin a ltac:(by left)) as [l Hl]. step. unfold id. rewrite Hl. pose proof (so_inv _ Hs) as Hi.
  destruct (listed_nonempty cfg cc me U p false a l Hi Hl) as (ts & Hc & Hne). step.
  apply (flatten_queued_wp p a l ts _ _ Hi Hl Hc). intros p1 Hp1 Hq1 Hn1 Hslots1. cbn [length_of].
  assert (Hlen : LegacyList.Len l = len ts) by exact (length_of_content cc U _ _ _ _ Hc). rewrite Hlen.
  assert (Htally : ∀ p2, queue_only a p p2 → tally (queue p2) = tally (queue p) + (qlen p2 a - qlen p a)).
  { intros p2 Hq2. apply tally_change. intros b Hb. by apply (qo_others _ _ _ Hq2). }
  assert (Hqa : qlen p a = len ts) by (by eapply qlen_content).
  destruct (Z.leb_spec (len ts) drop_) as [Hall|Hsome].
  - step. apply (remove_queued_wp p1 a ts); [done|by eapply content_NoDup|done|]. intros p2 Hp2 Hq2 Hn2.
    pose proof (queue_only_trans _ _ _ _ Hq1 Hq2) as Hq. pose proof (queue_only_sound a p p2 Hs Hp2 Hq) as Hs2.
    unfold drop_. rewrite wrap64_minus_l.
    replace (tally (queue p) - GlobalQueue cfg - len ts) with (tally (queue p2) - GlobalQueue cfg) by (rewrite (Htally p2 Hq); lia).
    pose proof (qlen_zero p2 a Hp2 ltac:(lia)) as Hnone. apply IH; [done| | |done|].
    + intros b Hb. destruct (decide (b = a)) as [->|Hba]; [by rewrite Hnone in Hb; destruct Hb|].
      rewrite (qo_others _ _ _ Hq b Hba) in Hb. apply Hdom in Hb. by apply elem_of_cons in Hb as [?|?].
    + intros b Hb. rewrite (qo_others _ _ _ Hq b) by (by intros ->). apply Hin. by right.
    + intros p3 Hs3 Hp3 Hc3. apply HQ; [done| |done]. rewrite Hp3. apply (qo_pending _ _ _ Hq).
  - step. set (gone := take (Z.to_nat drop_) (rev ts)).
    assert (Hg : len gone = drop_). { unfold gone, len in *. rewrite length_take, length_rev. lia. }
    apply (remove_queued_wp p1 a gone); [done| | |].
    + eapply sublist_NoDup; [|apply sublist_take]. rewrite <- (Permutation_rev ts). by eapply content_NoDup.
    + intros t Ht. apply Hslots1. rewrite (Permutation_rev ts), <- (take_drop (Z.to_nat drop_) (rev ts)). apply elem_of_app. by left.
    + intros p2 Hp2 Hq2 Hn2. pose proof (queue_only_trans _ _ _ _ Hq1 Hq2) as Hq. rewrite Hg, Z.sub_diag. apply truncate_nothing.
      apply Hend; [by eapply queue_only_sound|apply (qo_pending _ _ _ Hq)|]. rewrite (Htally p2 Hq), Hn2, Hn1, Hg.
      replace (tally (queue p) + (qlen p a - drop_ - qlen p a) - GlobalQueue cfg) with (tally (queue p) - GlobalQueue cfg - drop_) by lia.
      rewrite <- wrap64_minus_l. fold drop_. by rewrite Z.sub_diag.
Qed.

Lemma truncateQueue_wp p (Q : () → LegacyPool St → Prop) X :
  sound p → 0 <= GlobalQueue cfg < two64 →
  (∀ p', sound p' → pending p' = pending p → count (queue p') <= GlobalQueue cfg → Q tt p') → wp truncateQueue Q X p.
Proof.
  intros Hs HG HQ. unfold truncateQueue. step. unfold id. rewrite (iv_config (so_inv _ Hs)).
  destruct (Z.leb_spec (count (queue p)) (GlobalQueue cfg)) as [Hle|Hgt]; [steps; by apply HQ|].
  rewrite count_tally, wrap64_minus_l. set (sorted := sort_Slice _ _).
  assert (Hp : rev sorted.*1 ≡ₚ range_keys (queue p)).
  { rewrite <- Permutation_rev. unfold sorted. rewrite sort_Slice_perm, <- list_fmap_compose. by rewrite list_fmap_id. }
  assert (Hk : ∀ a, a ∈ rev sorted.*1 ↔ is_Some (queue p !! a)).
  { intros a. rewrite Hp. unfold range_keys. rewrite list_elem_of_fmap. split.
    - intros ([b l] & -> & Hin). apply map_range_elem in Hin. by exists l.
    - intros [l Hl]. exists (a, l). split; [done|]. by apply map_range_elem. }
  apply truncate_accounts_wp; [done| |by intros a ?%Hk|by intros a ?%Hk|done|done].
  rewrite Hp. apply map_range_NoDup.
Qed.
End Limits.

(** * The legacy pool, run

    [runReorg] as a whole, and the operations that only read or clean up: with those
    of LegacyAdd.v they are all that can happen to the pool between two holds of its
    lock.  The file ends with the sequences of operations from [Init] on. *)

Open Scope eigen_scope.
Open Scope step_scope.

(** What the limits of a configuration need: [sanitize] and the machine words give
    it but for the last, where a limit of 2^63 would be a negative number. *)
Record config_ok (c : Config) : Prop := {
  cf_slots : 1 <= AccountSlots c;
  cf_queue : 0 <= GlobalQueue c < two64;
  cf_cap : 0 <= to_int64 (AccountQueue c)
}.

Lemma sanitize_config_ok c :
  is_uint64 (AccountSlots c) → is_uint64 (GlobalQueue c) → 0 <= AccountQueue c < 2 ^ 63 → config_ok (sanitize c).
Proof.
  unfold is_uint64. intros Hs Hq Hc. unfold sanitize, at_least_1. split; cbn [AccountSlots GlobalQueue AccountQueue].
  - destruct (Z.ltb_spec (AccountSlots c) 1); [done|lia].
  - destruct (Z.ltb_spec (GlobalQueue c) 1); [done|lia].
  - unfold to_int64. destruct (Z.ltb_spec (AccountQueue c) 1); [done|]. destruct (Z.ltb_spec (AccountQueue c) (2 ^ 63)); lia.
Qed.

Section Run.
Context {St : Type} `{AccountState St, CodeHashes St, Sending, BlobProofs, Authorities, HeaderHash, Clock, MapRange, Sorter}.
Context (cfg : Config) (cc : ChainConfig) (me : nat) (U : Transaction → Prop) (HU : universe U) (Hcfg : config_ok cfg).
Implicit Types p : LegacyPool St.
Abbreviation inv := (inv cfg cc me U).
Abbreviation content := (content cc U).
Abbreviation sender_of := (sender_of cc).
Abbreviation pending_executable := (pending_executable cc U).

(** ** A run of the reorganisation *)

(** What holds after a run besides the invariant. *)
Record within_limits p : Prop := {
  wl_pending : count (pending p) <= GlobalSlots cfg ∨ ∀ a, length_of (pending p !! a) <= AccountSlots cfg;
  wl_queue : count (queue p) <= GlobalQueue cfg
}.

Lemma promote_addrs_wp p chain rq (dirty : option (gmap Address ())) events (Q : list Address * gmap Address SortedMap → LegacyPool St → Prop) X :
  inv tight p → chain_ok U chain → (∀ r, rq = Some r → request_ok cc r) → events_ok events →
  (∀ x p', inv tight p' → Q x p') →
  wp (match rq with
      | None => ret (match dirty with Some d => range_keys d | None => [] end, events)
      | Some (oldHead, newHead) =>
          do! reset chain oldHead newHead;
          do events <- forward_events (range_keys events) events;
          do addrs <- get (λ p, range_keys (queue p));
          ret (addrs, events)
      end) Q X p.
Proof.
  intros Hi Hch Hrq Hev HQ. destruct rq as [[oldHead newHead]|]; [|steps; by apply HQ]. step.
  apply (reset_wp cfg cc me U HU); [done|done|by apply Hrq|]. intros p1 Hp1. step.
  apply (forward_events_wp cfg cc me U); [done|done|]. intros ev x _ Hp2. steps. by apply HQ.
Qed.

Lemma runReorg_wp p chain rq dirty events (Q : () → LegacyPool St → Prop) X :
  inv tight p → chain_ok U chain → (∀ r, rq = Some r → request_ok cc r) → events_ok events →
  (∀ p', inv tight p' → within_limits p' → (is_Some rq → ∀ a, pending_executable p' a) → Q tt p') →
  wp (runReorg chain rq dirty events) Q X p.
Proof.
  intros Hi Hch Hrq Hev HQ. unfold runReorg. step. apply promote_addrs_wp; [done..|]. intros [addrs ev] p1 Hp1. cbn [fst snd]. step.
  apply (promoteExecutables_wp cfg cc me U HU); [done|apply cf_cap, Hcfg|]. intros promoted p2 Hp2. step.
  assert (Hrest : ∀ p3, sound cfg cc me U (is_Some rq) p3 → wp (do! truncatePending; do! truncateQueue; do! modify (set_changes 0);
      do events <- get (λ p, add_events p promoted ev);
      when (negb (bool_decide (events = ∅))) (modify (send_feed (event_txs events)))) Q X p3).
  { intros p3 Hs3. step. apply (truncatePending_wp cfg cc me U HU (is_Some rq) (cf_slots _ Hcfg)); [done|]. intros p4 Hs4 _ Hl4. step.
    apply (truncateQueue_wp cfg cc me U HU (is_Some rq)); [done|apply cf_queue, Hcfg|]. intros p5 [Hi5 He5] Hp5 Hl5.
    assert (Hlim : within_limits p5). { split; [|done]. unfold plen in Hl4. by rewrite Hp5. }
    steps. destruct (negb _); cbn [when]; steps; (apply HQ; [|by destruct Hlim|done]).
    - by apply inv_feed, inv_changes.
    - by apply inv_changes. }
  destruct rq as [[oldHead newHead]|]; cbn [snd].
  - apply (settle_reset_wp cfg cc me U HU); [done| |].
    + intros h ->. destruct (Hrq _ eq_refl) as [(n & Hn & Hd) _]. cbn in Hn. by simplify_eq.
    + intros p3 [Hp3 He3]. by apply Hrest.
  - apply wp_ret, Hrest. split; [done|]. by intros [? ?].
Qed.

Lemma launch_run_wp p chain (Q : () → LegacyPool St → Prop) X :
  inv tight p → chain_ok U chain → (∀ p', inv tight p' → Q tt p') → wp (launch_run chain) Q X p.
Proof.
  intros Hi Hch HQ. unfold launch_run. step. destruct (rq_launch _); cbn [when]; [|steps; by apply HQ]. step.
  destruct (iv_schedule Hi) as [Hev Hrq]. apply runReorg_wp; [|done|done|done|by intros; apply HQ].
  apply inv_schedule; [done|]. split; [by intros a m ?|done].
Qed.

(** ** The eviction of idle queues *)

Lemma evict_account_wp p a (Q : () → LegacyPool St → Prop) X :
  inv tight p → (∀ p', inv tight p' → Q tt p') → wp (evict_account a) Q X p.
Proof.
  intros Hi HQ. unfold evict_account. step. unfold id. destruct (queue p !! a) as [l|] eqn:Hl; [|steps; by apply HQ]. step.
  pose proof (inv_beats cfg cc me U tight p (beats p) (S (clock_reads p)) Hi) as Hi1. destruct (_ >? _); [|steps; by apply HQ].
  destruct (listed_nonempty cfg cc me U _ false a l Hi1 Hl) as (ts & Hc & _). step.
  apply (flatten_queued_wp cfg cc me U _ a l ts _ _ Hi1 Hl Hc). intros p2 Hp2 _ _ Hts.
  apply (remove_queued_wp cfg cc me U HU p2 a ts); [done|by eapply (content_NoDup cc U)|done|]. intros p3 Hp3 _ _. by apply HQ.
Qed.

Lemma evict_wp p (Q : () → LegacyPool St → Prop) X : inv tight p → (∀ p', inv tight p' → Q tt p') → wp evict Q X p.
Proof.
  intros Hi HQ. unfold evict. step. apply (each_inv_wp cfg cc me U); [done| |done]. intros a p1 Hp1. by apply evict_account_wp.
Qed.

(** ** Readers *)

(** Lists may get their caches all at once. *)
Lemma inv_relist s p (b : bool) m :
  inv s p → (∀ a n, slot m a n = slot (lists b p) a n) →
  (∀ a l', m !! a = Some l' → ∃ l, lists b p !! a = Some l ∧ ∀ ts, content b a l ts → content b a l' ts) →
  (∀ a, is_Some (lists b p !! a) → is_Some (m !! a)) → inv s (set_lists b m p).
Proof.
  intros Hi Hslots Hl Hdom.
  assert (Hslot : ∀ b' a n, slot (lists b' (set_lists b m p)) a n = slot (lists b' p) a n).
  { intros b' a n. rewrite lists_set. case_decide; [subst; apply Hslots|done]. }
  assert (Hsome : ∀ b' a, is_Some (lists b' (set_lists b m p) !! a) ↔ is_Some (lists b' p !! a)).
  { intros b' a. rewrite lists_set. case_decide; [subst|done]. split; [|apply Hdom]. intros [l' Hl']. destruct (Hl a l' Hl') as (l & Hll & _). by exists l. }
  destruct Hi as [] eqn:HI. split; try (by destruct b).
  - intros b' a l'. rewrite lists_set. case_decide as Hb; [subst b'|apply iv_lists]. intros Hl'. destruct (Hl a l' Hl') as (l & Hll & Hc).
    destruct (iv_lists b a l Hll) as (ts & Hct & He). exists ts. auto.
  - intros tx. transitivity (Lookup.Get (all p) (Tx.Hash_ tx) = Some tx); [by destruct b|]. rewrite (iv_filed tx). by setoid_rewrite Hslot.
  - intros a n b1 x b2 y. rewrite !Hslot. apply iv_apart.
  - intros tx Hx. setoid_rewrite Hslot. by apply iv_limbo.
  - intros a. transitivity (reserved p !! a = Some me); [by destruct b|]. rewrite iv_reserved. by setoid_rewrite Hsome.
Qed.

(** The slice of a list, and its cache. *)
Lemma Flatten_content b a l ts : content b a l ts →
  (LegacyList.Flatten l).1 = ts ∧ content b a (LegacyList.Flatten l).2 ts ∧ ∃ m, (LegacyList.Flatten l).2 = set_txs l m ∧ SortedMap.repr m ts.
Proof.
  intros Hc. destruct (SortedMap.flatten_spec _ _ (ListLaws.lrepr_txs _ _ (co_lrepr Hc))) as [Hf Hm].
  unfold LegacyList.Flatten, SortedMap.Flatten. destruct (SortedMap.flatten (txs l)) as [out m]. cbn [fst snd] in *. split_and!; [done| |by exists m].
  split; [by apply cached_lrepr, Hm; apply (co_lrepr Hc)|apply (co_strict Hc)|apply (co_good Hc)].
Qed.

Lemma inv_flatten_all p (b : bool) : inv tight p → inv tight (set_lists b (flatten_all (lists b p)).2 p).
Proof.
  intros Hi. unfold flatten_all. cbn [snd].
  assert (Hlook : ∀ a, ((λ l, (LegacyList.Flatten l).2) <$> lists b p) !! a = (λ l, (LegacyList.Flatten l).2) <$> (lists b p !! a)) by (intros a; apply lookup_fmap).
  assert (Hct : ∀ a l, lists b p !! a = Some l → ∃ ts, content b a l ts ∧ content b a (LegacyList.Flatten l).2 ts).
  { intros a l Hl. destruct (iv_lists Hi b a l Hl) as (ts & Hc & _). exists ts. split; [done|by apply Flatten_content]. }
  apply inv_relist; [done| | |].
  - intros a n. unfold slot. rewrite Hlook. destruct (lists b p !! a) as [l|] eqn:Hl; [|done]. cbn. destruct (Hct a l Hl) as (ts & Hc & Hc').
    apply option_eq. intros x. by rewrite (SortedMap.Get_spec _ _ _ _ (ListLaws.lrepr_txs _ _ (co_lrepr Hc'))), (SortedMap.Get_spec _ _ _ _ (ListLaws.lrepr_txs _ _ (co_lrepr Hc))).
  - intros a l'. rewrite Hlook. destruct (lists b p !! a) as [l|] eqn:Hl; [|done]. intros [= <-]. exists l. split; [done|]. intros ts Hc. by apply Flatten_content.
  - intros a [l Hl]. rewrite Hlook, Hl. by eexists.
Qed.

Lemma Content_wp p (Q : _ → LegacyPool St → Prop) X : inv tight p → (∀ r p', inv tight p' → Q r p') → wp Content Q X p.
Proof.
  intros Hi HQ. unfold wp, Content. pose proof (inv_flatten_all p true Hi) as H1'. pose proof (inv_flatten_all _ false H1') as H2'. cbn [lists set_lists] in *.
  destruct (flatten_all (pending p)) as [pend lp]. cbn [snd] in *. change (queue (set_pending lp p)) with (queue p) in H2'.
  destruct (flatten_all (queue p)) as [queued lq]. cbn [snd] in *. by apply HQ.
Qed.

(** One account's list, when it has one. *)
Lemma flatten_one_wp p (b : bool) a (Q : list Transaction → LegacyPool St → Prop) X :
  inv tight p → (∀ ts p', inv tight p' → (∀ b', b' ≠ b → lists b' p' = lists b' p) → Q ts p') →
  wp (match lists b p !! a with
      | Some l => let '(ts, l) := LegacyList.Flatten l in do! (if b then put_pending a l else put_queue a l); ret ts
      | None => ret []
      end) Q X p.
Proof.
  intros Hi HQ. destruct (lists b p !! a) as [l|] eqn:Hl; [|steps; by apply HQ].
  destruct (iv_lists Hi b a l Hl) as (ts & Hc & _). destruct (Flatten_content b a l ts Hc) as (Hf & _ & m & Hm & Hr).
  destruct (LegacyList.Flatten l) as [out l']. cbn [fst snd] in *. subst out l'.
  destruct (inv_cached cfg cc me U tight p b a l ts m Hi eq_refl eq_refl Hl Hc Hr) as [Hi' _].
  destruct b; unfold put_pending, put_queue; steps; (apply HQ; [done|by intros []]).
Qed.

Lemma ContentFrom_wp p a (Q : _ → LegacyPool St → Prop) X : inv tight p → (∀ r p', inv tight p' → Q r p') → wp (ContentFrom a) Q X p.
Proof.
  intros Hi HQ. unfold ContentFrom. step. unfold id. step. apply (flatten_one_wp p true a); [done|]. intros pend p1 Hp1 Hq1. cbn beta. step.
  change (queue p) with (lists false p). rewrite <- (Hq1 false) by done. apply (flatten_one_wp p1 false a); [done|]. intros queued p2 Hp2 _. steps. by apply HQ.
Qed.

(** ** What miners are offered *)

Definition pending_txs p (a : Address) : list Transaction :=
  match pending p !! a with Some l => (LegacyList.Flatten l).1 | None => [] end.

(** The transactions of an account that pass the filter. *)
Definition offered (filter : PendingFilter) (ts : list Transaction) : list Transaction :=
  match MinTip filter with Some tip => enforce_tip tip (BaseFee_ filter) ts | None => ts end.

Definition hashes (o : option (list LazyTransaction)) : list Hash := lazy_Hash <$> default [] o.

Lemma pending_txs_content p a l ts : pending p !! a = Some l → content true a l ts → pending_txs p a = ts.
Proof. intros Hl Hc. unfold pending_txs. rewrite Hl. by apply (Flatten_content true a l ts). Qed.

Lemma enforce_tip_spec tip fee ts :
  ∃ rest, ts = enforce_tip tip fee ts ++ rest ∧ (∀ t, t ∈ enforce_tip tip fee ts → 0 <= Tx.EffectiveGasTipIntCmp t tip fee) ∧
    ∀ t, head rest = Some t → Tx.EffectiveGasTipIntCmp t tip fee < 0.
Proof.
  induction ts as [|t ts (rest & Heq & Hin & Hout)]; cbn [enforce_tip].
  - exists []. split_and!; [done|by intros t ?%elem_of_nil|done].
  - destruct (Z.ltb_spec (Tx.EffectiveGasTipIntCmp t tip fee) 0) as [Hlt|Hge].
    + exists (t :: ts). split_and!; [done|by intros x ?%elem_of_nil|]. intros x [= <-]. done.
    + exists rest. split_and!; [cbn; by rewrite <- Heq| |done]. intros x [->|Hx]%elem_of_cons; [done|by apply Hin].
Qed.

Lemma offered_sub filter ts t : t ∈ offered filter ts → t ∈ ts.
Proof.
  unfold offered. destruct (MinTip filter) as [tip|]; [|done]. destruct (enforce_tip_spec tip (BaseFee_ filter) ts) as (rest & Heq & _).
  intros Ht. rewrite Heq. apply elem_of_app. by left.
Qed.

Lemma lazies_of ts : (∀ t, t ∈ ts → fees_fit t) → ∃ lz, mapM lazy_of ts = Some lz ∧ lazy_Hash <$> lz = Tx.Hash_ <$> ts.
Proof.
  intros Hf. destruct (mapM lazy_of ts) as [lz|] eqn:Hm.
  - exists lz. split; [done|]. apply mapM_Some in Hm. induction Hm as [|t z ts lz Hz _ IH]; [done|]. cbn. f_equal.
    + unfold lazy_of in Hz. apply bind_Some in Hz as (c & _ & (d & _ & [= <-])%bind_Some). done.
    + apply IH. intros; apply Hf. by right.
  - exfalso. apply mapM_None, Exists_exists in Hm as (t & Ht & Hz). destruct (Hf t Ht) as [Hc Hd].
    unfold lazy_of, MustFromBig, FromBig in Hz. destruct (Z.gtb_spec (BitLen (Tx.GasFeeCap t)) 256); [lia|]. cbn [mbind option_bind] in Hz.
    destruct (Z.gtb_spec (BitLen (Tx.GasTipCap t)) 256); [lia|done].
Qed.

Lemma pending_of_wp filter addrs acc p (Q : gmap Address (list LazyTransaction) → LegacyPool St → Prop) X :
  inv tight p → NoDup addrs → (∀ a, a ∈ addrs → acc !! a = None) →
  (∀ m p', inv tight p' → (∀ a, pending_txs p' a = pending_txs p a) →
     (∀ a, hashes (m !! a) = if decide (a ∈ addrs) then Tx.Hash_ <$> offered filter (pending_txs p a) else hashes (acc !! a)) → Q m p') →
  wp (pending_of filter addrs acc) Q X p.
Proof.
  intros Hi Hnd. revert p acc Q Hi. induction Hnd as [|a addrs Ha Hnd IH]; intros p acc Q Hi Hacc HQ; cbn [pending_of]; [steps; by apply HQ|].
  step. unfold id.
  (* how the rest goes on from an account that gets [z] *)
  assert (Hrest : ∀ p1 acc1, inv tight p1 → (∀ b, pending_txs p1 b = pending_txs p b) → (∀ b, b ≠ a → acc1 !! b = acc !! b) →
    hashes (acc1 !! a) = Tx.Hash_ <$> offered filter (pending_txs p a) → wp (pending_of filter addrs acc1) Q X p1).
  { intros p1 acc1 Hp1 Htx Hoth Hat. apply IH; [done| |].
    - intros b Hb. rewrite Hoth by (by intros ->). apply Hacc. by right.
    - intros m p2 Hp2 Htx2 Hm. apply HQ; [done|by intros b; rewrite Htx2|]. intros b. rewrite Hm, Htx. destruct (decide (b = a)) as [->|Hba].
      + rewrite (decide_False (P := a ∈ addrs)), decide_True by (done || by left). done.
      + rewrite (Hoth b Hba). destruct (decide (b ∈ addrs)) as [Hb|Hb].
        * by rewrite decide_True by (by right).
        * rewrite decide_False; [done|]. by intros [?|?]%elem_of_cons. }
  destruct (pending p !! a) as [l|] eqn:Hl.
  2: { apply Hrest; [done..|]. unfold pending_txs. rewrite Hl, Hacc by (by left). unfold offered. by destruct (MinTip filter). }
  destruct (iv_lists Hi true a l Hl) as (ts & Hc & _). destruct (Flatten_content true a l ts Hc) as (Hf & _ & m & Hm & Hr).
  pose proof (pending_txs_content p a l ts Hl Hc) as Htxa.
  destruct (LegacyList.Flatten l) as [out l'] eqn:HF. cbn [fst snd] in *. subst out l'.
  destruct (inv_cached cfg cc me U tight p true a l ts m Hi eq_refl eq_refl Hl Hc Hr) as [Hi' Hc'].
  unfold put_pending. step. fold (offered filter ts).
  assert (Htx : ∀ b, pending_txs (set_pending (<[a := set_txs l m]> (pending p)) p) b = pending_txs p b).
  { intros b. destruct (decide (b = a)) as [->|Hba].
    - rewrite Htxa. apply (pending_txs_content _ a (set_txs l m)); [apply lookup_insert_eq|done].
    - unfold pending_txs. cbn. by rewrite lookup_insert_ne. }
  destruct (lazies_of (offered filter ts)) as (lz & Hlz & Hh).
  { intros t Ht%offered_sub. apply (un_fees HU). apply (co_good Hc t Ht). }
  rewrite Z.gtb_ltb. destruct (Z.ltb_spec 0 (len (offered filter ts))) as [Hpos|Hz].
  - step. eapply wp_of_option; [exact Hlz|]. apply Hrest; [done|done|intros b Hb; by rewrite lookup_insert_ne|].
    unfold hashes. rewrite lookup_insert_eq, Htxa. exact Hh.
  - apply Hrest; [done..|]. rewrite Hacc, Htxa by (by left). pose proof (len_nonneg (offered filter ts)).
    assert (offered filter ts = []) as -> by (apply len_zero_iff; lia). done.
Qed.

Lemma Pending_wp filter p (Q : gmap Address (list LazyTransaction) → LegacyPool St → Prop) X :
  inv tight p →
  (∀ m p', inv tight p' →
     (∀ a, hashes (m !! a) = if OnlyBlobTxs filter then [] else Tx.Hash_ <$> offered filter (pending_txs p a)) → Q m p') →
  wp (Pending filter) Q X p.
Proof.
  intros Hi HQ. unfold Pending. destruct (OnlyBlobTxs filter); [steps; apply HQ; [done|]; intros a; by rewrite lookup_empty|].
  step. apply pending_of_wp; [done|apply map_range_NoDup|by intros a _; apply lookup_empty|]. intros m p' Hp' _ Hm. apply HQ; [done|]. intros a. rewrite Hm.
  destruct (decide _) as [|Ha]; [done|]. rewrite lookup_empty. unfold pending_txs. destruct (pending p !! a) as [l|] eqn:Hl.
  - destruct Ha. unfold range_keys. apply list_elem_of_fmap. exists (a, l). split; [done|]. by apply map_range_elem.
  - unfold offered. by destruct (MinTip filter).
Qed.

(** ** The empty pool *)

Lemma priced_empty_ok : Priced.priced_ok newPricedList.
Proof. split; by intros ? ? ? ?. Qed.

(** A pool without lists, table and heaps; nothing is reserved. *)
Lemma inv_empty p :
  config p = cfg → chainconfig p = cc → self p = me → pending p = ∅ → queue p = ∅ → all p = newLookup → priced p = newPricedList →
  (∀ a, reserved p !! a ≠ Some me) → sched_ok cc (schedule p) → settled cc (currentState p) (currentHead p) → inv tight p.
Proof.
  intros Hc Hcc Hme Hp Hq Ha Hpr Hr Hs Hst.
  assert (Hl : ∀ b, lists b p = ∅) by by intros [].
  assert (Hslot : ∀ b a n, slot (lists b p) a n = None) by (intros b a n; unfold slot; by rewrite Hl, lookup_empty).
  split; try done; rewrite ?Ha, ?Hpr.
  - intros b a l. by rewrite Hl, lookup_empty.
  - apply LookupLaws.newLookup_ok.
  - intros tx. cbn. unfold Lookup.Get. cbn. rewrite lookup_empty. split; [done|]. intros [_ [[b Hb]|Hb]]; [by rewrite Hslot in Hb|by apply elem_of_nil in Hb].
  - intros a n b x b' y. by rewrite Hslot.
  - by intros tx ?%elem_of_nil.
  - apply NoDup_nil_2.
  - intros a. split; [by intros ?%Hr|]. intros [[b Hb]|[]]. rewrite Hl, lookup_empty in Hb. by destruct Hb.
  - apply priced_empty_ok.
  - intros tx. unfold heap_txs. rewrite Hpr. cbn. by intros ?%elem_of_nil.
  - intros tx. unfold Lookup.Get. cbn. by rewrite lookup_empty.
Qed.

(** Each reservation is given back, once; other pools' stay. *)
Lemma give_back_wp p0 p ts (Q : () → LegacyPool St → Prop) X :
  self p = me → chainconfig p0 = cc → (∀ a, reserved p !! a = Some me → ∃ t, t ∈ ts ∧ sender_of t = a) →
  (∀ r, (∀ a, r !! a ≠ Some me) → (∀ a o, o ≠ me → r !! a = Some o ↔ reserved p !! a = Some o) → Q tt (set_reserved r p)) →
  wp (each (λ tx, ignore (reserve (sender p0 tx) false)) ts) Q X p.
Proof.
  intros Hme Hcc Hts HQ. assert (Hsame : set_reserved (reserved p) p = p) by by destruct p. eapply wp_conseq.
  - apply (wp_each _ (λ l p', ∃ r, p' = set_reserved r p ∧ (∀ a, r !! a = Some me → ∃ t, t ∈ l ∧ sender_of t = a) ∧
      (∀ a o, o ≠ me → r !! a = Some o ↔ reserved p !! a = Some o))).
    + exists (reserved p). by rewrite Hsame.
    + intros t l p1 (r & -> & Hl & Ho). apply wp_ignore. rewrite (sender_is cc p0 t Hcc). unfold wp, reserve, reserver. cbn [self set_reserved reserved]. rewrite Hme.
      assert (Hskip : r !! sender_of t ≠ Some me → ∃ r', set_reserved r (set_reserved r p) = set_reserved r' p ∧
        (∀ a, r' !! a = Some me → ∃ t, t ∈ l ∧ sender_of t = a) ∧ (∀ a o, o ≠ me → r' !! a = Some o ↔ reserved p !! a = Some o)).
      { intros Hn. exists r. split_and!; [done| |done]. intros a Ha. destruct (Hl a Ha) as (t' & [->|Ht']%elem_of_cons & <-); [done|by exists t']. }
      destruct (r !! sender_of t) as [o|] eqn:Hr; [destruct (Nat.eqb_spec me o) as [<-|Hne]; cbn [negb]|]; [|apply Hskip; congruence|by apply Hskip].
      exists (delete (sender_of t) r). split_and!; [done| |].
      * intros a [Hna Ha]%lookup_delete_Some. destruct (Hl a Ha) as (t' & [->|Ht']%elem_of_cons & Hst); [done|by exists t'].
      * intros a o Hom. rewrite <- (Ho a o Hom), lookup_delete_Some. split; [by intros [_ ?]|]. intros Ha. split; [|done]. intros <-. congruence.
  - cbn beta. intros [] p' (r & -> & Hl & Ho). apply HQ; [|done]. intros a Ha. destruct (Hl a Ha) as (t & Ht & _). by apply elem_of_nil in Ht.
Qed.

Lemma Clear_wp p (Q : () → LegacyPool St → Prop) X : inv tight p → (∀ p', inv tight p' → all p' = newLookup → Q tt p') → wp Clear Q X p.
Proof.
  intros Hi HQ. unfold Clear. step. unfold id. step. apply give_back_wp; [apply (iv_self Hi)|apply (iv_chain Hi)| |].
  - intros a [[b [l Hl]]|[]]%(iv_reserved Hi). destruct (listed_in_table cfg cc me U tight p b a l Hi eq_refl eq_refl) as (t & Ht & Hta); [by intros []|done|].
    exists t. split; [|done]. apply range_values_elem. by exists (Tx.Hash_ t).
  - intros r Hr _. steps. apply HQ; [|done]. destruct Hi. apply inv_empty; try done.
Qed.

Lemma Init_wp chain root tip head r st0 h0 c self0 (Q : () → LegacyPool St → Prop) (X : txpool_error → LegacyPool St → Prop) :
  chain_ok U chain → headed cc head → (∀ a, r !! a ≠ Some me) → cfg = sanitize c → self0 = me →
  (∀ p, inv tight p → pending p = ∅ → queue p = ∅ → Q tt p) → (∀ p, StateAt chain (Header.Root head) = None → StateAt chain root = None → X ErrState p) →
  wp (Init chain root tip head r) Q X (New c cc self0 st0 h0).
Proof.
  intros Hch Hh Hr Hcf Hme HQ HX. unfold Init. step.
  assert (Hst : ∀ st, modest st → Q tt (set_head head st (Noncer.newNoncer (GetNonce (Copy st))) (set_gasTip tip (set_reserved r (New c cc self0 st0 h0))))).
  { intros st Hm. apply HQ; [|done|done]. by apply inv_empty. }
  destruct (StateAt chain (Header.Root head)) as [st|] eqn:E1; [step; apply Hst; by eapply ck_state|].
  destruct (StateAt chain root) as [st|] eqn:E2; [step; apply Hst; by eapply ck_state|]. by apply wp_fail, HX.
Qed.

(** ** Sequences of operations *)

(** What may happen to the pool: its operations, a turn of the scheduler, a tick of
    the eviction timer, and changes of the reservations by other pools. *)
Inductive op : Type :=
  | OAdd (ts : list Transaction) (sync : bool)
  | ORequestReset (oldHead newHead : option Header.Header)
  | ORun (chain : BlockChain St)
  | OSetGasTip (tip : Z)
  | OEvict
  | ONonce (addr : Address)
  | OContent
  | OContentFrom (addr : Address)
  | OPending (filter : PendingFilter)
  | OClear
  | OOthers (f : Reservations → Reservations).

Definition do_op (o : op) : SE (LegacyPool St) txpool_error () :=
  match o with
  | OAdd ts sync => do! Add ts sync; ret tt
  | ORequestReset oldHead newHead => requestReset oldHead newHead
  | ORun chain => launch_run chain
  | OSetGasTip tip => SetGasTip tip
  | OEvict => evict
  | ONonce addr => do! Nonce addr; ret tt
  | OContent => do! Content; ret tt
  | OContentFrom addr => do! ContentFrom addr; ret tt
  | OPending filter => do! Pending filter; ret tt
  | OClear => Clear
  | OOthers f => modify (λ p, set_reserved (f (reserved p)) p)
  end.

(** What callers and the chain keep to. *)
Definition op_ok (o : op) : Prop :=
  match o with
  | OAdd ts _ => ∀ t, t ∈ ts → fees_fit t → U t
  | ORequestReset oldHead newHead => request_ok cc (oldHead, newHead)
  | ORun chain => chain_ok U chain
  | OSetGasTip tip => 0 <= tip < two256
  | OOthers f => ∀ r a, f r !! a = Some me ↔ r !! a = Some me
  | _ => True
  end.

Lemma do_op_wp o p (Q : () → LegacyPool St → Prop) X : inv tight p → op_ok o → (∀ p', inv tight p' → Q tt p') → wp (do_op o) Q X p.
Proof.
  intros Hi Ho HQ. destruct o as [ts sync|oldHead newHead|chain|tip| |addr| |addr|filter| |f]; cbn [do_op op_ok] in *.
  - step. apply (Add_wp cfg cc me U HU); [done|done|]. intros errs p' Hp' _. steps. by apply HQ.
  - unfold requestReset. steps. apply HQ. apply inv_schedule; [done|]. destruct (iv_schedule Hi) as [Hev Hrq]. split; [done|].
    cbn [rq_reset]. destruct (rq_reset (schedule p)) as [[old new]|]; intros rq [= <-]; [|done].
    destruct (Hrq _ eq_refl) as [_ Hold]. split; [apply Ho|apply Hold].
  - by apply launch_run_wp.
  - apply (SetGasTip_wp cfg cc me U HU); [done|done|]. intros p' Hp' _ _. by apply HQ.
  - by apply evict_wp.
  - step. apply nonce_get_wp. intros n x. steps. by apply HQ, inv_nonces.
  - step. apply Content_wp; [done|]. intros r p' Hp'. steps. by apply HQ.
  - step. apply ContentFrom_wp; [done|]. intros r p' Hp'. steps. by apply HQ.
  - step. apply Pending_wp; [done|]. intros m p' Hp' _. steps. by apply HQ.
  - apply Clear_wp; [done|]. intros p' Hp' _. by apply HQ.
  - steps. apply HQ. destruct Hi as [] eqn:HI. split; try done. intros a. cbn [reserved set_reserved]. rewrite Ho. apply iv_reserved.
Qed.

Lemma ops_wp os p (Q : () → LegacyPool St → Prop) X :
  inv tight p → (∀ o, o ∈ os → op_ok o) → (∀ p', inv tight p' → Q tt p') → wp (each do_op os) Q X p.
Proof.
  intros Hi Hos HQ. eapply wp_conseq; [apply (wp_each _ (λ l p', inv tight p' ∧ ∀ o, o ∈ l → op_ok o)); [done|]|].
  - intros o l p1 [Hp1 Hl]. apply do_op_wp; [done|apply Hl; by left|]. intros p2 Hp2. split; [done|]. intros o' Ho'. apply Hl. by right.
  - cbn beta. intros [] p' [Hp' _]. by apply HQ.
Qed.
End Run.
