(* ===== verification/LegacyTheorems.v ===== *)
(** * What the legacy pool promises

    The theorems about the pool of LegacyPool.v: the invariant in its own terms
    ([consistent]), kept by every sequence of operations, none of which panics; the
    limits after a run of the reorganisation; the outcomes of adding; what is
    offered to miners; what a reorganisation of the chain gives back. *)

From S2P Require Import Prelude StateError GoSort GoHeap TxTypes Signers ChainConfig BlockFees StateInterface.
From S2P Require Import SortedMap LegacyList LegacyPriced TxValidation TxPool LegacyPool LegacyInv LegacyMoves LegacyAdd LegacyLimits.
Open Scope eigen_scope.
Open Scope step_scope.

(** What is established is what the run ends with. *)
Lemma wp_run {S E A} (m : SE S E A) (R : A → S → Prop) s : wp m R (λ _ _, False) s → ∃ a s', m s = (Ok a, s') ∧ R a s'.
Proof. unfold wp. destruct (m s) as [[a|e] s']; [|done]. intros HR. by exists a, s'. Qed.

Section Theorems.
Context {St : Type} `{AccountState St, CodeHashes St, Sending, BlobProofs, Authorities, HeaderHash, Clock, MapRange, Sorter}.
Context (cfg : Config) (cc : ChainConfig) (me : nat) (U : Transaction → Prop).
Implicit Types p : LegacyPool St.
Abbreviation sender_of := (sender_of cc).

(** The pool between two operations. *)
Record consistent p : Prop := {
  cs_filed h tx : Get p h = Some tx ↔ h = Tx.Hash_ tx ∧ ∃ b, slot (lists b p) (sender_of tx) (Tx.Nonce tx) = Some tx;
  cs_apart a n : is_Some (slot (pending p) a n) → slot (queue p) a n = None;
  cs_lists b a l : lists b p !! a = Some l →
    ∃ ts, ts ≠ [] ∧ ListLaws.lrepr l ts ∧ strict l = b ∧ ∀ t, t ∈ ts → sender_of t = a;
  cs_reserved a : reserved p !! a = Some me ↔ is_Some (pending p !! a) ∨ is_Some (queue p !! a);
  cs_table : LookupLaws.lk_ok (all p);
  cs_tracked h tx : Get p h = Some tx → tx ∈ Priced.tracked (all p) (priced p)
}.

Lemma inv_consistent p : inv cfg cc me U tight p → consistent p.
Proof.
  intros Hi. split.
  - intros h tx. unfold Get. split.
    + intros Hg. pose proof (table_hash Hi Hg) as ->. split; [done|]. apply (iv_filed Hi) in Hg as [_ [?|Hl]]; [done|by apply elem_of_nil in Hl].
    + intros [-> Hb]. apply (iv_filed Hi). split; [by apply not_elem_of_nil|by left].
  - intros a n [x Hx]. destruct (slot (queue p) a n) as [y|] eqn:Hy; [|done]. pose proof (iv_apart Hi a n true x false y Hx Hy). done.
  - intros b a l Hl. destruct (listed_nonempty cfg cc me U p b a l Hi Hl) as (ts & Hc & Hne). exists ts.
    split_and!; [done|apply (co_lrepr Hc)|apply (co_strict Hc)|]. intros t Ht. by apply (co_good Hc).
  - intros a. rewrite (iv_reserved Hi). split; [|intros [?|?]; left; by eexists true + by eexists false].
    intros [[[] Hb]|[]]; auto.
  - apply (iv_table Hi).
  - intros h tx Hg. unfold Get in Hg. pose proof (table_hash Hi Hg) as ->. destruct (iv_tracked Hi tx Hg) as [Hin|Hin]; [|by apply elem_of_nil in Hin].
    by eapply tracked_all.
Qed.
End Theorems.

(** ** The invariant *)

(** C6: the legacy pool is consistent whatever happens to it.  From [Init] on, any
    sequence of additions, requests and runs of the reorganisation, changes of the
    minimal tip, evictions, reads, clearings and changes of the reservations by
    other pools ends without an error or a panic; afterwards a transaction is in the
    table exactly when it is in one list of its sender, pending or queued, under its
    nonce; no list is empty; an account is reserved exactly when it has a list; the
    slots and the index of authorities are those of the table, and the price heaps
    know every transaction. *)
Theorem legacy_pool_consistent {St} `{AccountState St, CodeHashes St, Sending, BlobProofs, Authorities, HeaderHash, Clock, MapRange, Sorter}
    c cc me U (chain : BlockChain St) root tip head r st0 h0 os :
  universe U → config_ok (sanitize c) → chain_ok U chain → headed cc head → (∀ a, r !! a ≠ Some me) →
  is_Some (StateAt chain (Header.Root head)) → (∀ o, o ∈ os → op_ok cc me U o) →
  ∃ p, (do! Init chain root tip head r; each do_op os) (New c cc me st0 h0) = (Ok tt, p) ∧ consistent cc me p.
Proof.
  intros HU Hc Hch Hh Hr [st Hst] Hos.
  destruct (wp_run (do! Init chain root tip head r; each do_op os) (λ _, consistent cc me) (New c cc me st0 h0)) as ([] & p & Hp & Hcs).
  - step. apply (Init_wp (sanitize c) cc me U chain root tip head r st0 h0 c me); try done; [|by intros p Hn; congruence].
    intros p Hp _ _. apply (ops_wp (sanitize c) cc me U HU Hc); [done|done|]. intros p' Hp'. by eapply inv_consistent.
  - by exists p.
Qed.

(** C13: after a run of the reorganisation the pool is within its limits: at most the
    global slots are pending unless every account has at most its own slots, and at
    most the global queue is queued; after a reset each pending list starts at the
    nonce of its account, and the account can pay each of its transactions within
    the gas of a block.  The run ends without a panic, the accounts are consistent. *)
Theorem run_within_limits {St} `{AccountState St, CodeHashes St, Sending, BlobProofs, Authorities, HeaderHash, Clock, MapRange, Sorter}
    cfg cc me U (chain : BlockChain St) rq dirty events p :
  universe U → config_ok cfg → chain_ok U chain → inv cfg cc me U tight p → (∀ r, rq = Some r → request_ok cc r) → events_ok events →
  ∃ p', runReorg chain rq dirty events p = (Ok tt, p') ∧ consistent cc me p' ∧ within_limits cfg p' ∧
    (is_Some rq → ∀ a, pending_executable cc U p' a).
Proof.
  intros HU Hc Hch Hi Hrq Hev.
  destruct (wp_run (runReorg chain rq dirty events) (λ _ p', consistent cc me p' ∧ within_limits cfg p' ∧
    (is_Some rq → ∀ a, pending_executable cc U p' a)) p) as ([] & p' & Hp & Hr); [|by exists p'].
  apply (runReorg_wp cfg cc me U HU Hc); [done..|]. intros p' Hp' Hl He. split_and!; [by eapply inv_consistent|done|done].
Qed.

(** ** Adding and removing *)

(** C19: the outcomes of [add].  A known transaction is refused with [ErrAlreadyKnown],
    else an invalid one with the error of its validation, else one whose sender another
    pool holds with [ErrAlreadyReserved], and then the pool stays exactly as it was; in
    all other cases the transaction is accepted and in the pool afterwards, or it is
    refused because the pool is full or its slot is paid better, with one of these four
    errors, and nothing is added.  The pool is consistent in every case. *)
Theorem add_outcome {St} `{AccountState St, CodeHashes St, Sending, BlobProofs, Authorities, HeaderHash, Clock, MapRange, Sorter}
    cfg cc me U t (p : LegacyPool St) :
  universe U → inv cfg cc me U tight p → U t →
  consistent cc me (add t p).2 ∧
  match Get p (Tx.Hash_ t), validateTx p t, reserved p !! sender_of cc t with
  | Some _, _, _ => add t p = (Err ErrAlreadyKnown, p)
  | None, Err e, _ => add t p = (Err e, p)
  | None, Ok _, owner =>
      if decide (owner = None ∨ owner = Some me) then
        match add t p with
        | (Ok _, p') => Get p' (Tx.Hash_ t) = Some t
        | (Err e, p') => crowded e = true ∧ ∀ h x, Get p' h = Some x → Get p h = Some x
        end
      else add t p = (Err ErrAlreadyReserved, p)
  end.
Proof.
  intros HU Hi Ht.
  assert (Hw : wp (add t) (λ _ p', consistent cc me p' ∧ refusal cc me p t = None ∧ Get p' (Tx.Hash_ t) = Some t)
    (λ e p', consistent cc me p' ∧ (∀ h x, Get p' h = Some x → Get p h = Some x) ∧
      (refusal cc me p t = Some e ∧ p' = p ∨ refusal cc me p t = None ∧ crowded e = true)) p).
  { apply (add_wp cfg cc me U HU); [done|done| |].
    - intros r p' Hp' Hn Hg. split_and!; [by eapply inv_consistent|done..].
    - intros e p' _ Hp' Hs Hr. split_and!; [by eapply inv_consistent|done|done]. }
  unfold wp, refusal in Hw. change (Lookup.Get (all p) (Tx.Hash_ t)) with (Get p (Tx.Hash_ t)) in Hw.
  destruct (add t p) as [[b|e] p'], (Get p (Tx.Hash_ t)); cbn [has snd] in *; [naive_solver| |naive_solver|]; (destruct (validateTx p t); [|naive_solver]);
    (destruct (reserved p !! sender_of cc t) as [own|]; [destruct (Nat.eqb_spec own me)|]; case_decide; naive_solver).
Qed.

(** A batch gets one verdict per transaction: those that the first checks refuse
    have their error, the others the results of [addTxsLocked] in their order.
    Filling the places never runs out of results. *)
Theorem batch_verdicts {St} `{AccountState St, CodeHashes St, Sending, BlobProofs, Authorities, HeaderHash, Clock, MapRange, Sorter}
    (p : LegacyPool St) ts results :
  length results = length (List.filter (λ tx, negb (has (prefilter p tx))) ts) →
  ∃ errs, merge_errors (map (prefilter p) ts) results = Some errs ∧ length errs = length ts ∧
    (∀ i tx e, ts !! i = Some tx → prefilter p tx = Some e → errs !! i = Some (Some e)) ∧
    (List.filter (λ x, negb (has (prefilter p x.1))) (zip ts errs)).*2 = results.
Proof.
  revert results. induction ts as [|t ts IH]; intros results Hlen; cbn in *.
  { destruct results; [|done]. exists []. split_and!; try done. }
  destruct (prefilter p t) as [e|] eqn:Ht; cbn [has negb length] in *.
  - destruct (IH results Hlen) as (errs & Hm & Hl & Hat & Hrest). exists (Some e :: errs). split_and!.
    + destruct results as [|n results]; [|by rewrite Hm]. destruct (map (prefilter p) ts) as [|[]] eqn:Hmap; cbn in Hm; simplify_eq; try done.
    + cbn. by rewrite Hl.
    + intros [|i] tx e' Hi He; cbn in *; [by simplify_eq|by eapply Hat].
    + cbn. rewrite Ht. exact Hrest.
  - destruct results as [|n results]; [done|]. injection Hlen as Hlen. destruct (IH results Hlen) as (errs & Hm & Hl & Hat & Hrest).
    exists (n :: errs). split_and!.
    + by rewrite Hm.
    + cbn. by rewrite Hl.
    + intros [|i] tx e' Hi He; cbn in *; [by simplify_eq|by eapply Hat].
    + cbn. rewrite Ht. cbn. by rewrite Hrest.
Qed.

(** Raising the minimal tip drops what tips less and nothing is added; the pool
    stays consistent. *)
Theorem SetGasTip_drops {St} `{AccountState St, CodeHashes St, Sending, BlobProofs, Authorities, HeaderHash, Clock, MapRange, Sorter}
    cfg cc me U tip (p : LegacyPool St) :
  universe U → inv cfg cc me U tight p → 0 <= tip < two256 →
  ∃ p', SetGasTip tip p = (Ok tt, p') ∧ consistent cc me p' ∧ (∀ h x, Get p' h = Some x → Get p h = Some x) ∧
    (gasTip p < tip → ∀ h x, Get p' h = Some x → tip <= Tx.GasTipCap x).
Proof.
  intros HU Hi Ht.
  destruct (wp_run (SetGasTip tip) (λ _ p', consistent cc me p' ∧ (∀ h x, Get p' h = Some x → Get p h = Some x) ∧
    (gasTip p < tip → ∀ h x, Get p' h = Some x → tip <= Tx.GasTipCap x)) p) as ([] & p' & Hp & Hr); [|by exists p'].
  apply (SetGasTip_wp cfg cc me U HU); [done|done|]. intros p' Hp' Hs Hout. split_and!; [by eapply inv_consistent|done|done].
Qed.

(** [Pending] offers, of every account, its pending transactions in nonce order;
    with a minimal tip the longest run from the first whose effective tips reach it;
    the filter for blobs gives nothing. *)
Theorem Pending_exact {St} `{AccountState St, CodeHashes St, Sending, BlobProofs, Authorities, HeaderHash, Clock, MapRange, Sorter}
    cfg cc me U filter (p : LegacyPool St) :
  universe U → inv cfg cc me U tight p →
  ∃ m p', Pending filter p = (Ok m, p') ∧ consistent cc me p' ∧
    ∀ a, ∃ ts rest, hashes (m !! a) = Tx.Hash_ <$> ts ∧ (if OnlyBlobTxs filter then ts = [] else pending_txs p a = ts ++ rest) ∧
      match MinTip filter with
      | Some tip => (∀ t, t ∈ ts → 0 <= Tx.EffectiveGasTipIntCmp t tip (BaseFee_ filter)) ∧
          (OnlyBlobTxs filter = false → ∀ t, head rest = Some t → Tx.EffectiveGasTipIntCmp t tip (BaseFee_ filter) < 0)
      | None => OnlyBlobTxs filter = false → rest = []
      end.
Proof.
  intros HU Hi.
  destruct (wp_run (Pending filter) (λ m p', consistent cc me p' ∧
    ∀ a, hashes (m !! a) = if OnlyBlobTxs filter then [] else Tx.Hash_ <$> offered filter (pending_txs p a)) p) as (m & p' & Hp & Hc & Hm).
  { apply (Pending_wp cfg cc me U HU); [done|]. intros m p' Hp' Hm. split; [by eapply inv_consistent|done]. }
  exists m, p'. split_and!; [done|done|]. intros a. specialize (Hm a). destruct (OnlyBlobTxs filter).
  { exists [], []. split_and!; [done|done|]. destruct (MinTip filter); [|done]. split; [by intros t ?%elem_of_nil|done]. }
  unfold offered in Hm. destruct (MinTip filter) as [tip|].
  - destruct (enforce_tip_spec tip (BaseFee_ filter) (pending_txs p a)) as (rest & Heq & Hin & Hout). by exists (enforce_tip tip (BaseFee_ filter) (pending_txs p a)), rest.
  - exists (pending_txs p a), []. by rewrite app_nil_r.
Qed.

(** ** Gaps *)

Lemma gap_loop_spec (fuel : nat) l ts (nonce last : Z) :
  ListLaws.lrepr l ts → 0 <= nonce → last < two64 → (length (List.filter (λ t, (nonce <=? Tx.Nonce t)%Z) ts) < fuel)%nat →
  gap_loop fuel l nonce last = true ↔ ∃ n, nonce <= n < last ∧ ∀ t, t ∈ ts → Tx.Nonce t ≠ n.
Proof.
  intros Hl. revert nonce. induction fuel as [|fuel IH]; intros nonce Hn Hlast Hf; [lia|]. cbn [gap_loop].
  destruct (Z.ltb_spec nonce last) as [Hlt|Hge]; [|split; [done|]; intros (n & ? & _); lia].
  unfold LegacyList.Contains. case_bool_decide as Hc.
  - destruct Hc as [t Ht]. apply (SortedMap.Get_spec _ _ _ _ (ListLaws.lrepr_txs _ _ Hl)) in Ht as [Hin Htn].
    rewrite wrap64_id by (unfold is_uint64; lia). rewrite IH; [|lia|done|].
    + split; intros (n & Hn' & Hno); exists n; (split; [|done]); [lia|]. destruct (decide (n = nonce)) as [->|]; [by destruct (Hno t Hin)|lia].
    + enough (length (List.filter (λ x, (nonce + 1 <=? Tx.Nonce x)%Z) ts) < length (List.filter (λ x, (nonce <=? Tx.Nonce x)%Z) ts))%nat by lia.
      clear -Hin Htn. assert (Hle : ∀ us, (length (List.filter (λ x, (nonce + 1 <=? Tx.Nonce x)%Z) us) <= length (List.filter (λ x, (nonce <=? Tx.Nonce x)%Z) us))%nat).
      { induction us as [|x us IHu]; [done|]. cbn. destruct (Z.leb_spec (nonce + 1) (Tx.Nonce x)), (Z.leb_spec nonce (Tx.Nonce x)); cbn; lia. }
      induction Hin as [z us|z y us Hin' IHin]; cbn.
      * specialize (Hle us). destruct (Z.leb_spec (nonce + 1) (Tx.Nonce z)), (Z.leb_spec nonce (Tx.Nonce z)); cbn; lia.
      * specialize (IHin Htn). destruct (Z.leb_spec (nonce + 1) (Tx.Nonce y)), (Z.leb_spec nonce (Tx.Nonce y)); cbn; lia.
  - split; [intros _; exists nonce|done]. split; [lia|]. intros t Ht Htn. apply Hc. exists t. by apply (SortedMap.Get_spec _ _ _ _ (ListLaws.lrepr_txs _ _ Hl)).
Qed.

(** A transaction is gapped exactly when, from the next nonce of its sender to its
    own, some nonce is missing in the sender's queue; the loop that looks for it
    ends within the length of the queue. *)
Theorem isGapped_exact {St} `{AccountState St, CodeHashes St, Sending, BlobProofs, Authorities, HeaderHash, Clock, MapRange, Sorter}
    cfg cc me U from tx (p : LegacyPool St) :
  let next := (Noncer.get (pendingNonces p) from).1 in
  inv cfg cc me U tight p → 0 <= next → Tx.Nonce tx < two64 →
  ∃ b x, isGapped from tx p = (Ok b, set_nonces x p) ∧
    (b = true ↔ ∃ n, next <= n < Tx.Nonce tx ∧ slot (queue p) from n = None).
Proof.
  intros next Hi Hn Htx. unfold isGapped, nonce_get, bind. unfold next in *. destruct (Noncer.get (pendingNonces p) from) as [n0 x]. cbn [fst] in *.
  destruct (Z.leb_spec (Tx.Nonce tx) n0) as [Hle|Hgt].
  { exists false, x. split; [done|]. split; [done|]. intros (n & ? & _). lia. }
  unfold get. cbn [queue set_nonces set_head]. destruct (queue p !! from) as [l|] eqn:Hl.
  - destruct (iv_lists Hi false from l Hl) as (ts & Hc & _). exists (gap_loop (S (Z.to_nat (LegacyList.Len l))) l n0 (Tx.Nonce tx)), x. split; [done|].
    rewrite (gap_loop_spec _ l ts); [|apply (co_lrepr Hc)|done|done|].
    + f_equiv. intros n. f_equiv. split.
      * intros Hno. apply eq_None_not_Some. intros [t Ht]. apply (slot_content cc U false from l ts) in Ht as [Hin Htn]; [|done|done]. by apply (Hno t).
      * intros Hs t Ht Htn. assert (slot (queue p) from n = Some t) by (by apply (slot_content cc U false from l ts)). congruence.
    + pose proof (length_of_content cc U _ _ _ _ Hc) as Hlen. cbn in Hlen. rewrite Hlen. pose proof (List.filter_length_le (λ t, n0 <=? Tx.Nonce t) ts). unfold len. lia.
  - exists true, x. split; [done|]. split; [|done]. intros _. exists n0. split; [lia|]. unfold slot. by rewrite Hl.
Qed.

(** ** Reorganisations of the chain *)

(** From a block down to an ancestor, the blocks above it. *)
Inductive branch {St} (chain : BlockChain St) : Block → Block → list Block → Prop :=
  | branch_here b : branch chain b b []
  | branch_up b parent anc l :
      parent_of chain b = Some parent → NumberU64 parent = NumberU64 b - 1 → branch chain parent anc l → branch chain b anc (b :: l).

Definition block_txs (l : list Block) : list Transaction := concat (map Transactions l).

Lemma branch_number {St} (chain : BlockChain St) b anc l : branch chain b anc l → NumberU64 b = NumberU64 anc + Z.of_nat (length l).
Proof. induction 1; cbn; lia. Qed.

(** Going down to a height takes the blocks above it. *)
Lemma rewind_to_branch {St} (chain : BlockChain St) fuel b anc l height acc :
  branch chain b anc l → NumberU64 anc <= height → (length l <= fuel)%nat →
  ∃ b' l1 l2, rewind_to chain fuel b height acc = Some (b', acc ++ block_txs l1) ∧ l = l1 ++ l2 ∧ branch chain b' anc l2 ∧
    NumberU64 b' = Z.min height (NumberU64 b).
Proof.
  intros Hb. revert fuel acc. induction Hb as [b|b parent anc l Hp Hn Hb IH]; intros fuel acc Hh Hf.
  - exists b, [], []. rewrite app_nil_r. split_and!; [|done|constructor|lia]. destruct fuel; cbn; (destruct (Z.gtb_spec (NumberU64 b) height); [lia|done]).
  - destruct fuel as [|fuel]; [cbn in Hf; lia|]. cbn [rewind_to]. destruct (Z.gtb_spec (NumberU64 b) height) as [Hgt|Hle].
    + rewrite Hp. cbn [mbind option_bind]. destruct (IH fuel (acc ++ Transactions b)) as (b' & l1 & l2 & -> & -> & Hb' & Hn'); [done|cbn in Hf; lia|].
      exists b', (b :: l1), l2. unfold block_txs. cbn. rewrite app_assoc. split_and!; [done|done|done|lia].
    + exists b, [], (b :: l). rewrite app_nil_r. split_and!; [done|done|by econstructor|lia].
Qed.

Lemma rewind_both_branch {St} (chain : BlockChain St) fuel rem add anc lr la d i :
  branch chain rem anc lr → branch chain add anc la → NumberU64 rem = NumberU64 add → (length lr <= fuel)%nat →
  (∀ x y, x ∈ lr → y ∈ la → NumberU64 x = NumberU64 y → block_Hash x ≠ block_Hash y) →
  rewind_both chain fuel rem add d i = Some (d ++ block_txs lr, i ++ block_txs la).
Proof.
  intros Hr. revert fuel add la d i. induction Hr as [b|b parent anc l Hp Hn Hb IH]; intros fuel add la d i Ha Heq Hf Hd.
  - destruct Ha as [b|b parent anc la Hp Hn Ha]; [|apply branch_number in Ha; lia]. rewrite !app_nil_r.
    destruct fuel; cbn; by rewrite Z.eqb_refl.
  - destruct Ha as [c|c parent' anc la Hp' Hn' Ha]; [apply branch_number in Hb; lia|].
    destruct fuel as [|fuel]; [cbn in Hf; lia|]. cbn [rewind_both].
    destruct (Z.eqb_spec (block_Hash b) (block_Hash c)) as [He|Hne]; [by destruct (Hd b c ltac:(by left) ltac:(by left) Heq)|]. cbn [negb].
    rewrite Hp, Hp'. cbn [mbind option_bind]. rewrite (IH fuel parent' la); [|done|lia|cbn in Hf; lia|].
    + unfold block_txs. cbn. by rewrite !app_assoc.
    + intros x y Hx Hy. apply Hd; by right.
Qed.

(** C30: what a reorganisation gives back.  When the old and the new head descend from
    a common ancestor, and no block above it is on both sides, the search comes to an
    end and finds exactly the transactions of the abandoned blocks that the new ones
    do not have, of the types that the pool takes, in the order of the old blocks. *)
Theorem lost_txs_exact {St} (chain : BlockChain St) rem add anc lr la :
  branch chain rem anc lr → branch chain add anc la → 0 <= NumberU64 anc →
  (∀ x y, x ∈ lr → y ∈ la → NumberU64 x = NumberU64 y → block_Hash x ≠ block_Hash y) →
  lost_txs chain rem add = Some (List.filter Filter (TxDifference (block_txs lr) (block_txs la))).
Proof.
  intros Hr Ha H0' Hd. pose proof (branch_number _ _ _ _ Hr) as Hnr. pose proof (branch_number _ _ _ _ Ha) as Hna. unfold lost_txs, chain_fuel.
  destruct (rewind_to_branch chain (S (Z.to_nat (NumberU64 rem))) rem anc lr (NumberU64 add) [] Hr) as (rem' & lr1 & lr2 & -> & Hlr & Hr2 & Hn2); [lia|lia|].
  cbn [mbind option_bind app].
  destruct (rewind_to_branch chain (S (Z.to_nat (NumberU64 add))) add anc la (NumberU64 rem') [] Ha) as (add' & la1 & la2 & -> & Hla & Ha2 & Hn3);
    [apply branch_number in Hr2; lia|lia|].
  cbn [mbind option_bind app]. pose proof (branch_number _ _ _ _ Hr2) as Hnr2.
  rewrite (rewind_both_branch chain _ rem' add' anc lr2 la2); [|done|done|lia|lia|].
  - cbn [mbind option_bind]. subst lr la. unfold block_txs. by rewrite !map_app, !concat_app.
  - intros x y Hx Hy. subst lr la. apply Hd; apply elem_of_app; by right.
Qed.

(** ** Witnesses *)

(** One account, with three transactions: two in a row and one after a gap; senders
    are read from the recipient. *)
Module Toy.
#[export] Instance sending : Sending := λ _ tx, match Tx.To tx with Some a => Ok a | None => Err ErrInvalidSig end.
#[export] Instance code_hashes : CodeHashes map_state := {| GetCodeHash _ _ := 0; EmptyCodeHash := 0 |}.
#[export] Instance blob_proofs : BlobProofs := {| sha256 b := b; VerifyBlobProof _ _ _ := true |}.
#[export] Instance header_hash : HeaderHash := λ h, default 0 (Header.Number h).
#[export] Instance toy_clock : Clock := Z.of_nat.
#[export] Instance authorities : Authorities := λ _, None.

Definition tx (hash nonce : Z) : Transaction := MkTx (TLegacy (LegacyTx.mk nonce 100 21000 (Some 7) 5 [] 0 0 0)) hash 0 0.

Definition txs : list Transaction := [tx 1 0; tx 2 1; tx 3 7].
Definition U (tx : Transaction) : Prop := tx ∈ txs.
Definition state : map_state := MkMapState ∅ {[ 7 := 10 ^ 18 ]}.
Definition header (n : Z) : Header.Header := header_at n 30000000 15000000 1720000000 (Some 7) None None.
Definition block (n hash parent : Z) (ts : list Transaction) : Block := MkBlock hash parent n ts.

(** Two branches above the block 10: the old one has two blocks, the new one three. *)
Definition base : Block := block 10 10 9 [].
Definition old1 : Block := block 11 111 10 [tx 1 0].
Definition old2 : Block := block 12 112 111 [tx 2 1].
Definition new1 : Block := block 11 211 10 [].
Definition new2 : Block := block 12 212 211 [tx 1 0].
Definition new3 : Block := block 13 213 212 [].

Definition chain : BlockChain map_state :=
  MkChain (header 10) (λ h n, List.find (λ b, (block_Hash b =? h) && (NumberU64 b =? n)) [base; old1; old2; new1; new2; new3]) (λ _, Some state).

Definition config : Config := sanitize DefaultConfig.

Lemma universe_ok : universe U.
Proof.
  split.
  - intros x Hx. unfold U, txs in Hx. rewrite !elem_of_cons, elem_of_nil in Hx. destruct Hx as [->|[->|[->|[]]]]; split; vm_compute; discriminate.
  - intros x y Hx Hy. unfold U, txs in Hx, Hy. rewrite !elem_of_cons, elem_of_nil in Hx, Hy.
    destruct Hx as [->|[->|[->|[]]]], Hy as [->|[->|[->|[]]]]; done.
  - intros x Hx. unfold U, txs in Hx. rewrite !elem_of_cons, elem_of_nil in Hx. destruct Hx as [->|[->|[->|[]]]]; split; vm_compute; done.
  - intros x Hx. unfold U, txs in Hx. rewrite !elem_of_cons, elem_of_nil in Hx. destruct Hx as [->|[->|[->|[]]]]; vm_compute; done.
Qed.

Lemma config_fine : config_ok config.
Proof. split; vm_compute; try split; done. Qed.

Lemma chain_fine : chain_ok U chain.
Proof.
  split.
  - intros root st [= <-] a. cbn. destruct (decide (a = 7)) as [->|Hne]; [rewrite lookup_singleton_eq|rewrite lookup_singleton_ne by done]; split; vm_compute; done.
  - intros h n b tx Hb Htx. cbn [GetBlock chain] in Hb. apply List.find_some in Hb as [Hb _]. unfold U, txs. rewrite list_elem_of_In. apply list_elem_of_In in Htx.
    destruct Hb as [<-|[<-|[<-|[<-|[<-|[<-|[]]]]]]]; cbn in Htx |- *; tauto.
Qed.

Lemma header_fine n : headed Config.mainnet_like (header n).
Proof. split; [by eexists|by eexists|]. intros _. split; [by eexists|vm_compute; done]. Qed.

Definition start : LegacyPool map_state :=
  (Init chain 0 1 (header 10) ∅ (New DefaultConfig Config.mainnet_like 0 state (header 10))).2.

(** The transactions are offered, and the pool run once. *)
Definition ops : list (op (St := map_state)) := [OAdd txs false; ORun chain].
Definition full : LegacyPool map_state := (each do_op ops start).2.

Lemma ops_fine o : o ∈ ops → op_ok Config.mainnet_like 0 U o.
Proof. unfold ops. rewrite !elem_of_cons, elem_of_nil. intros [->|[->|[]]]; cbn; [by intros t Ht _|apply chain_fine]. Qed.

Lemma start_inv : inv config Config.mainnet_like 0 U tight start.
Proof.
  destruct (wp_run (Init chain 0 1 (header 10) ∅) (λ _ p, inv config Config.mainnet_like 0 U tight p) (New DefaultConfig Config.mainnet_like 0 state (header 10))) as ([] & p & Hp & Hi).
  - apply (Init_wp config Config.mainnet_like 0 U); [apply chain_fine|apply header_fine|done|done|done|done|done].
  - unfold start. by rewrite Hp.
Qed.

(** Another pool holds the sender of these transactions. *)
Definition elsewhere : LegacyPool map_state :=
  (Init chain 0 1 (header 10) {[7 := 1%nat]} (New DefaultConfig Config.mainnet_like 0 state (header 10))).2.

Lemma elsewhere_inv : inv config Config.mainnet_like 0 U tight elsewhere.
Proof.
  destruct (wp_run (Init chain 0 1 (header 10) {[7 := 1%nat]}) (λ _ p, inv config Config.mainnet_like 0 U tight p) (New DefaultConfig Config.mainnet_like 0 state (header 10))) as ([] & p & Hp & Hi).
  - apply (Init_wp config Config.mainnet_like 0 U); [apply chain_fine|apply header_fine| |done..].
    intros a. by destruct (decide (a = 7)) as [->|Hne]; [rewrite lookup_singleton_eq|rewrite lookup_singleton_ne].
  - unfold elsewhere. by rewrite Hp.
Qed.

Lemma full_inv : inv config Config.mainnet_like 0 U tight full.
Proof.
  destruct (wp_run (each do_op ops) (λ _ p, inv config Config.mainnet_like 0 U tight p) start) as ([] & p & Hp & Hi).
  - apply (ops_wp config Config.mainnet_like 0 U universe_ok config_fine); [apply start_inv|apply ops_fine|done].
  - unfold full. by rewrite Hp.
Qed.
End Toy.

Section Witnesses.
Import Toy.
Abbreviation cc := Config.mainnet_like.

Definition history : SE (LegacyPool map_state) txpool_error () := do! Init chain 0 1 (header 10) ∅; each do_op ops.

Lemma legacy_pool_consistent_witness :
  is_Some (StateAt chain (Header.Root (header 10))) ∧
  ∃ p, history (New DefaultConfig cc 0 state (header 10)) = (Ok tt, p) ∧ consistent cc 0 p ∧ Stats p = (2, 1).
Proof.
  split; [by exists state|].
  destruct (legacy_pool_consistent DefaultConfig cc 0 U chain 0 1 (header 10) ∅ state (header 10) ops) as (p & Hp & Hc);
    [apply universe_ok|apply config_fine|apply chain_fine|apply header_fine|done|by exists state|apply ops_fine|].
  assert (Hs : Stats (history (New DefaultConfig cc 0 state (header 10))).2 = (2, 1)) by (vm_compute; reflexivity).
  exists p. split_and!; [exact Hp|exact Hc|]. unfold history in Hs. by rewrite Hp in Hs.
Defined.

Lemma run_within_limits_witness :
  Stats full = (2, 1) ∧
  ∃ p', runReorg chain (Some (Some (header 10), Some (header 11))) None ∅ full = (Ok tt, p') ∧ consistent cc 0 p' ∧ within_limits config p' ∧
    (is_Some (Some (Some (header 10), Some (header 11))) → ∀ a, pending_executable cc U p' a).
Proof.
  split; [vm_compute; reflexivity|]. apply run_within_limits; [apply universe_ok|apply config_fine|apply chain_fine|apply full_inv| |by intros a m ?].
  intros r [= <-]. split; [exists (header 11); split; [done|apply header_fine]|]. intros o [= <-]. by eexists.
Defined.

(** A known transaction, a good one, and one whose sender another pool holds. *)
Lemma add_outcome_witness :
  (add (tx 1 0) full).1 = Err ErrAlreadyKnown ∧ (add (tx 2 1) start).1 = Ok false ∧ consistent cc 0 (add (tx 2 1) start).2 ∧
  add (tx 2 1) elsewhere = (Err ErrAlreadyReserved, elsewhere).
Proof.
  split; [vm_compute; reflexivity|]. pose proof (add_outcome config cc 0 U (tx 2 1) start universe_ok start_inv ltac:(right; left)) as [Hc _].
  split; [vm_compute; reflexivity|]. split; [exact Hc|].
  pose proof (add_outcome config cc 0 U (tx 2 1) elsewhere universe_ok elsewhere_inv ltac:(right; left)) as [_ Ha].
  assert (Hg : Get elsewhere (Tx.Hash_ (tx 2 1)) = None) by (vm_compute; reflexivity).
  assert (Hv : validateTx elsewhere (tx 2 1) = Ok tt) by (vm_compute; reflexivity).
  assert (Hr : reserved elsewhere !! sender_of cc (tx 2 1) = Some 1%nat) by (vm_compute; reflexivity).
  rewrite Hg, Hv, Hr, decide_False in Ha by (intros [|]; discriminate). exact Ha.
Defined.

Lemma batch_verdicts_witness :
  map (prefilter full) [tx 1 0; tx 4 2] = [Some ErrAlreadyKnown; None] ∧
  ∃ l, merge_errors (map (prefilter full) [tx 1 0; tx 4 2]) [Some ErrUnderpriced] = Some l ∧ length l = 2%nat.
Proof.
  split; [vm_compute; reflexivity|]. destruct (batch_verdicts full [tx 1 0; tx 4 2] [Some ErrUnderpriced]) as (l & Hm & Hl & _); [vm_compute; reflexivity|].
  exists l. split; [exact Hm|exact Hl].
Defined.

Lemma SetGasTip_drops_witness :
  Has full 1 = true ∧ ∃ p', SetGasTip 101 full = (Ok tt, p') ∧ consistent cc 0 p' ∧ ∀ h, Get p' h = None.
Proof.
  split; [vm_compute; reflexivity|]. destruct (SetGasTip_drops config cc 0 U 101 full universe_ok full_inv) as (p' & Hp & Hc & Hs & Hd); [split; vm_compute; [discriminate|reflexivity]|].
  exists p'. split; [exact Hp|split; [exact Hc|]]. intros h. destruct (Get p' h) as [x|] eqn:Hx; [|done]. specialize (Hd ltac:(vm_compute; reflexivity) h x Hx).
  apply Hs in Hx. exfalso. unfold Get, Lookup.Get in Hx. pose proof (proj2 (range_values_elem (lk_txs (all full)) x) (ex_intro _ h Hx)) as Hin.
  rewrite list_elem_of_In in Hin.
  vm_compute in Hin. destruct Hin as [<-|[<-|[<-|[]]]]; vm_compute in Hd; apply Hd; reflexivity.
Defined.

Lemma Pending_exact_witness :
  ∃ m p', Pending (MkPendingFilter (Some 50) (Some 7) None false false) full = (Ok m, p') ∧ consistent cc 0 p' ∧ hashes (m !! 7) = [1; 2].
Proof.
  destruct (Pending_exact config cc 0 U (MkPendingFilter (Some 50) (Some 7) None false false) full universe_ok full_inv) as (m & p' & Hp & Hc & _).
  exists m, p'. split; [exact Hp|split; [exact Hc|]]. assert (Hm : (λ r, match r with Ok m => hashes (m !! 7) | Err _ => [] end) (Pending (MkPendingFilter (Some 50) (Some 7) None false false) full).1 = [1; 2]) by (vm_compute; reflexivity).
  by rewrite Hp in Hm.
Defined.

Lemma isGapped_exact_witness :
  ∃ b x, isGapped 7 (tx 3 7) full = (Ok b, set_nonces x full) ∧
    (b = true ↔ ∃ n, 2 <= n < 7 ∧ slot (queue full) 7 n = None).
Proof.
  pose proof (isGapped_exact config cc 0 U 7 (tx 3 7) full full_inv) as Hg. cbv zeta in Hg.
  assert (Hn : (Noncer.get (pendingNonces full) 7).1 = 2) by (vm_compute; reflexivity). rewrite Hn in Hg. apply Hg; vm_compute; [discriminate|reflexivity].
Defined.

Lemma lost_txs_exact_witness :
  lost_txs chain old2 new3 = Some (List.filter Filter (TxDifference (block_txs [old2; old1]) (block_txs [new3; new2; new1]))) ∧
  lost_txs chain old2 new3 = Some [tx 2 1].
Proof.
  split; [|vm_compute; reflexivity]. apply (lost_txs_exact chain old2 new3 base).
  - by apply (branch_up _ _ old1), (branch_up _ _ base), branch_here.
  - by apply (branch_up _ _ new2), (branch_up _ _ new1), (branch_up _ _ base), branch_here.
  - vm_compute. discriminate.
  - intros x y Hx%list_elem_of_In Hy%list_elem_of_In. destruct Hx as [<-|[<-|[]]], Hy as [<-|[<-|[<-|[]]]]; vm_compute; discriminate.
Defined.
End Witnesses.
