(* ===== verification/PoolStack.v ===== *)
(** * Pools under the coordinator

    What the coordinator of TxPool.v asks of a pool is the class [PoolLaws]: every
    operation ends, keeps the pool's own promise and touches no other pool's
    reservations.  Against it the coordinator keeps all of its pools good, answers
    for every transaction, and no account is in two pools.  The legacy pool
    implements the class. *)

From S2P Require Import Prelude StateError GoSort GoHeap TxTypes Signers ChainConfig BlockFees StateInterface.
From S2P Require Import SortedMap LegacyList LegacyPriced TxValidation TxPool LegacyPool LegacyInv LegacyMoves LegacyAdd LegacyLimits LegacyTheorems.
Open Scope eigen_scope.
Open Scope step_scope.

(** Others' reservations stay. *)
Definition apart (i : nat) (r r' : Reservations) : Prop := ∀ a j, j ≠ i → r' !! a = Some j ↔ r !! a = Some j.

#[export] Instance apart_preorder i : PreOrder (apart i).
Proof. split; [done|]. intros r1 r2 r3 H1 H2 a j Hj. by rewrite (H2 a j Hj), (H1 a j Hj). Qed.

(** ** Calls of the reserver

    A pool changes the reservations through [reserver] alone, and takes and gives up
    accounts by what it answers. *)

(** The accounts that the pool at [i] has taken, and the reservations, after calls
    with an account and whether to reserve it. *)
Fixpoint calls (i : nat) (cs : list (Address * bool)) (hr : gset Address * Reservations) : gset Address * Reservations :=
  match cs with
  | [] => hr
  | (addr, on) :: cs =>
      let '(answer, r) := reserver i hr.2 addr on in
      let held := match answer with Ok _ => if on then {[addr]} ∪ hr.1 else hr.1 ∖ {[addr]} | Err _ => hr.1 end in
      calls i cs (held, r)
  end.

(** A call that is granted sets the account, or clears it; nothing else changes, and
    no account of another pool. *)
Lemma reserver_spec i r addr on answer r' :
  reserver i r addr on = (answer, r') →
  apart i r r' ∧ (∀ a, a ≠ addr → r' !! a = r !! a) ∧
  match answer with Ok _ => r' !! addr = if on then Some i else None | Err _ => r' = r end.
Proof.
  unfold reserver. destruct on, (r !! addr) as [o|] eqn:Ho; [destruct (Nat.eqb_spec o i) as [->|]| |destruct (Nat.eqb_spec i o) as [<-|]; cbn [negb]|]; intros [= <- <-]; try done.
  - split_and!; [|intros a Ha; by rewrite lookup_insert_ne|apply lookup_insert_eq]. intros a j Hj.
    destruct (decide (a = addr)) as [->|]; [|by rewrite lookup_insert_ne]. rewrite lookup_insert_eq, Ho. split; congruence.
  - split_and!; [|intros a Ha; by rewrite lookup_delete_ne|apply lookup_delete_eq]. intros a j Hj.
    destruct (decide (a = addr)) as [->|]; [|by rewrite lookup_delete_ne]. rewrite lookup_delete_eq, Ho. split; congruence.
Qed.

Lemma calls_app i cs1 cs2 hr : calls i (cs1 ++ cs2) hr = calls i cs2 (calls i cs1 hr).
Proof. revert hr. induction cs1 as [|[a on] cs1 IH]; intros hr; cbn; [done|]. destruct (reserver i hr.2 a on). apply IH. Qed.

Lemma calls_apart i cs hr : apart i hr.2 (calls i cs hr).2.
Proof.
  revert hr. induction cs as [|[a on] cs IH]; intros hr; cbn; [done|]. destruct (reserver i hr.2 a on) as [answer r] eqn:Hr.
  etrans; [by eapply reserver_spec|]. apply (IH (_, r)).
Qed.

(** What was taken is reserved for the pool. *)
Lemma calls_reserved i cs hr :
  (∀ a, a ∈ hr.1 → hr.2 !! a = Some i) → ∀ a, a ∈ (calls i cs hr).1 → (calls i cs hr).2 !! a = Some i.
Proof.
  revert hr. induction cs as [|[addr on] cs IH]; intros hr Hh; cbn; [done|]. destruct (reserver i hr.2 addr on) as [answer r] eqn:Hr.
  apply IH. cbn [fst snd]. apply reserver_spec in Hr as (_ & Hne & Hat). intros a Ha. destruct answer as [?|?]; [|subst r; auto].
  destruct on; (destruct (decide (a = addr)) as [->|Hn]; [|rewrite Hne by done; apply Hh; set_solver]); [done|set_solver].
Qed.

Lemma calls_exact i cs hr :
  (∀ a, a ∈ hr.1 ↔ hr.2 !! a = Some i) → ∀ a, a ∈ (calls i cs hr).1 ↔ (calls i cs hr).2 !! a = Some i.
Proof.
  revert hr. induction cs as [|[addr on] cs IH]; intros hr Hh; cbn; [done|]. destruct (reserver i hr.2 addr on) as [answer r] eqn:Hr.
  apply IH. cbn [fst snd]. apply reserver_spec in Hr as (_ & Hne & Hat). intros a. destruct answer as [?|?]; [|subst r; auto].
  destruct on; (destruct (decide (a = addr)) as [->|Hn]; [rewrite Hat|rewrite Hne by done; rewrite <- Hh]); set_solver.
Qed.

(** The reservations do not depend on what was taken before. *)
Lemma calls_res i cs h1 h2 r : (calls i cs (h1, r)).2 = (calls i cs (h2, r)).2.
Proof. revert h1 h2 r. induction cs as [|[a on] cs IH]; intros h1 h2 r; cbn; [done|]. destruct (reserver i r a on). apply IH. Qed.

(** ** The contract of a pool *)

(** [pool_ok i s r]: the pool at the place [i], between two operations; the other
    predicates are what the callers of an operation keep to.  [accounts s] are those
    that the pool has transactions of; nothing relates them to the reservations but
    the calls of [reserver]. *)
Class PoolPromise (T : Type) : Type := {
  pool_ok : nat → T → Reservations → Prop;
  pool_new : nat → T → Prop;
  accounts : T → gset Address;
  tx_ok : Transaction → Prop;
  tip_ok : Z → Prop;
  init_ok : Header.Header → Prop;
  reset_ok : option Header.Header → option Header.Header → Prop
}.

(** The accounts and the reservations change by calls of the reserver. *)
Definition by_calls `{PoolPromise T} (i : nat) (s : T) (r : Reservations) (s' : T) (r' : Reservations) : Prop :=
  ∃ cs, calls i cs (accounts s, r) = (accounts s', r').

(** A step of the pool at [i] that ends well, with a value that [R] accepts. *)
Definition lawful `{PoolPromise T} {A} (i : nat) (m : Sub T A) (R : A → Prop) : Prop :=
  ∀ s r, pool_ok i s r → ∃ a s' r', m (s, r) = (Ok a, (s', r')) ∧ pool_ok i s' r' ∧ by_calls i s r s' r' ∧ R a.

Class PoolLaws (T : Type) `{SubPool T, PoolPromise T} : Prop := {
  law_stable i s r r' : pool_ok i s r → (∀ a, r' !! a = Some i ↔ r !! a = Some i) → pool_ok i s r';
  law_new i s : pool_new i s → accounts s = ∅;
  law_Init i tip head s r : pool_new i s → (∀ a, r !! a ≠ Some i) → init_ok head →
    ∃ err s' r', sub_Init tip head i (s, r) = (Ok err, (s', r')) ∧ by_calls i s r s' r' ∧ (err = None → pool_ok i s' r');
  law_Close s r : ∃ s' r', sub_Close (s, r) = (Ok tt, (s', r'));
  law_Reset i oldHead newHead : reset_ok oldHead newHead → lawful i (sub_Reset oldHead newHead) (λ _, True);
  law_SetGasTip i tip : tip_ok tip → lawful i (sub_SetGasTip tip) (λ _, True);
  law_Add i ts sync : (∀ t, t ∈ ts → tx_ok t) → lawful i (sub_Add ts sync) (λ errs, length errs = length ts);
  law_Pending i filter : lawful i (sub_Pending filter) (λ _, True);
  law_Nonce i addr : lawful i (sub_Nonce addr) (λ _, True);
  law_Content i : lawful i sub_Content (λ _, True);
  law_ContentFrom i addr : lawful i (sub_ContentFrom addr) (λ _, True);
  law_Clear i : lawful i sub_Clear (λ _, True)
}.

(** ** The coordinator over such pools *)

Section Stack.
Context {T : Type} `{PoolLaws T}.
Implicit Types p : TxPool T.

(** Every pool of the stack is good with the reservations that they share. *)
Definition all_ok p : Prop := ∀ i s, subpools p !! i = Some s → pool_ok i s (reservations p).

Definition pools p : nat := length (subpools p).

(** What a pool has is reserved for it. *)
Definition guarded p : Prop := ∀ i s a, subpools p !! i = Some s → a ∈ accounts s → reservations p !! a = Some i.

(** The pool at [i] changed, by calls of the reserver: the accounts stay guarded, and
    the other pools' reservations stay. *)
Lemma guarded_calls i s s' r' p :
  subpools p !! i = Some s → by_calls i s (reservations p) s' r' → guarded p →
  apart i (reservations p) r' ∧ guarded (MkTxPool (<[i := s']> (subpools p)) r').
Proof.
  intros Hs [cs Hcs] Hg. pose proof (calls_apart i cs (accounts s, reservations p)) as Hap. pose proof (calls_reserved i cs (accounts s, reservations p)) as Hres.
  rewrite Hcs in Hap, Hres. cbn [fst snd] in *. split; [exact Hap|]. intros j t a Ht Ha. cbn [subpools reservations] in *.
  destruct (decide (j = i)) as [->|Hne].
  - rewrite list_lookup_insert_eq in Ht by (by eapply lookup_lt_Some). injection Ht as <-. apply Hres; [|done]. intros b Hb. by eapply Hg.
  - rewrite list_lookup_insert_ne in Ht by done. apply Hap; [done|]. by eapply Hg.
Qed.

Definition stack_ok p : Prop := all_ok p ∧ guarded p.

Lemma on_sub_ok {A} i (m : Sub T A) R p :
  stack_ok p → (i < pools p)%nat → lawful i m R → ∃ a p', on_sub i m p = (Ok a, p') ∧ stack_ok p' ∧ pools p' = pools p ∧ R a.
Proof.
  intros [Hp Hg] Hi Hm. unfold on_sub. destruct (subpools p !! i) as [s|] eqn:Hs; [|apply lookup_ge_None in Hs; unfold pools in Hi; lia].
  destruct (Hm s (reservations p) (Hp i s Hs)) as (a & s' & r' & -> & Hok & Hcs & Ha).
  destruct (guarded_calls i s s' r' p Hs Hcs Hg) as [Hap Hg']. eexists a, _. split; [done|]. split_and!; [split; [|done]|apply length_insert|done].
  intros j t. cbn [subpools reservations]. destruct (decide (j = i)) as [->|Hne].
  - rewrite list_lookup_insert_eq by done. by intros [= <-].
  - rewrite list_lookup_insert_ne by done. intros Ht. apply (law_stable j t (reservations p)); [by apply Hp|]. intros a'. by apply Hap.
Qed.

Lemma over_subs_ok {A} idx (m : nat → Sub T A) R p :
  stack_ok p → (∀ i, i ∈ idx → (i < pools p)%nat ∧ lawful i (m i) (R i)) →
  ∃ l p', over_subs idx m p = (Ok l, p') ∧ stack_ok p' ∧ pools p' = pools p ∧ Forall2 R idx l.
Proof.
  revert p. induction idx as [|i idx IH]; intros p Hp Hm; cbn [over_subs]; [by exists [], p|].
  destruct (Hm i (list_elem_of_here _ _)) as [Hi Hl]. destruct (on_sub_ok i (m i) _ p Hp Hi Hl) as (a & p1 & H1' & Hp1 & Hs1 & Ha).
  destruct (IH p1 Hp1) as (l & p2 & H2' & Hp2 & Hs2 & Hall). { intros j Hj. rewrite Hs1. apply Hm. by right. }
  exists (a :: l), p2. rewrite (bind_Ok _ _ _ _ _ H1'), (bind_Ok _ _ _ _ _ H2'). split_and!; [done|done|by rewrite Hs2|by constructor].
Qed.

Lemma each_sub_ok {A} (m : nat → Sub T A) R p :
  stack_ok p → (∀ i, lawful i (m i) (R i)) →
  ∃ l p', each_sub m p = (Ok l, p') ∧ stack_ok p' ∧ pools p' = pools p ∧ Forall2 R (seq 0 (pools p)) l.
Proof.
  intros Hp Hm. unfold each_sub. apply over_subs_ok; [done|]. intros i Hi%elem_of_seq. split; [lia|apply Hm].
Qed.

(** *** Verdicts *)

Definition share (i : nat) (splits : list (option nat)) : nat := length (List.filter (λ o, bool_decide (o = Some i)) splits).

Lemma txset_length {A} splits (l : list A) i : length l = length splits → length (txset splits l i) = share i splits.
Proof.
  unfold txset, share. rewrite length_fmap. revert l. induction splits as [|o splits IH]; intros [|x l] Hl; try done. cbn in *.
  case_bool_decide; cbn; by rewrite IH by lia.
Qed.

Lemma piece_back_ok splits errsets :
  (∀ i, Some i ∈ splits → is_Some (errsets !! i)) → (∀ i set, errsets !! i = Some set → length set = share i splits) →
  ∃ errs, piece_back splits errsets = Ok errs ∧ length errs = length splits ∧
    (∀ k, splits !! k = Some None → errs !! k = Some (Some ErrTxTypeNotSupported)) ∧
    (∀ i set, errsets !! i = Some set → txset splits errs i = set).
Proof.
  revert errsets. induction splits as [|[i|] splits IH]; intros errsets Hin Hlen; cbn [piece_back].
  - exists []. split_and!; [done..|]. intros i set Hs. by apply Hlen, nil_length_inv in Hs as ->.
  - destruct (Hin i ltac:(by left)) as [set Hset]. pose proof (Hlen i set Hset) as Hl. unfold share in Hl. cbn in Hl.
    rewrite bool_decide_true in Hl by done. rewrite Hset. destruct set as [|e rest]; [done|]. injection Hl as Hl.
    destruct (IH (<[i := rest]> errsets)) as (errs & -> & He & Hn & Hs).
    { intros j Hj. destruct (Hin j ltac:(by right)) as [x Hx]. destruct (decide (j = i)) as [->|]; [rewrite list_lookup_insert_eq by (by eapply lookup_lt_Some)|rewrite list_lookup_insert_ne by done]; by eexists. }
    { intros j x. destruct (decide (j = i)) as [->|Hne].
      - rewrite list_lookup_insert_eq by (by eapply lookup_lt_Some). by intros [= <-].
      - rewrite list_lookup_insert_ne by done. intros Hx%Hlen. unfold share in *. cbn in Hx. rewrite bool_decide_false in Hx by congruence. done. }
    exists (e :: errs). cbn. split_and!; [done|by rewrite He|by intros [|k] Hk; [|apply Hn]|]. intros j x Hx. unfold txset in *. cbn.
    destruct (decide (j = i)) as [->|Hne].
    + rewrite bool_decide_true by done. simplify_eq. cbn. f_equal. apply Hs, list_lookup_insert_eq. by eapply lookup_lt_Some.
    + rewrite bool_decide_false by congruence. apply Hs. by rewrite list_lookup_insert_ne.
  - destruct (IH errsets) as (errs & -> & He & Hn & Hs); [by intros i Hi; apply Hin; right|done|].
    exists (Some ErrTxTypeNotSupported :: errs). cbn. split_and!; [done|by rewrite He|by intros [|k] Hk; [|apply Hn]|done].
Qed.

Lemma zip_map_elem {A B} (f : A → B) l b a : (b, a) ∈ zip (map f l) l → b = f a.
Proof. induction l as [|x l IH]; cbn; [by intros ?%elem_of_nil|]. by intros [[= -> ->]|?%IH]%elem_of_cons. Qed.

Lemma coordinator_Add_ok txs sync p :
  stack_ok p → (∀ t, t ∈ txs → is_Some (split_of (subpools p) t) → tx_ok t) →
  let splits := map (split_of (subpools p)) txs in
  ∃ errsets errs p', each_sub (λ i, sub_Add (txset splits txs i) sync) p = (Ok errsets, p') ∧ TxPool.Add txs sync p = (Ok errs, p') ∧
    stack_ok p' ∧ pools p' = pools p ∧ length errsets = pools p ∧ length errs = length txs ∧
    (∀ k tx, txs !! k = Some tx → split_of (subpools p) tx = None → errs !! k = Some (Some ErrTxTypeNotSupported)) ∧
    (∀ i set, errsets !! i = Some set → txset splits errs i = set).
Proof.
  intros Hp Hok splits. assert (Hlen : length txs = length splits) by (unfold splits; by rewrite length_map).
  destruct (each_sub_ok (λ i, sub_Add (txset splits txs i) sync) (λ i errs, length errs = length (txset splits txs i)) p Hp) as (errsets & p' & Hrun & Hp' & Hs & Hall).
  { intros i. apply law_Add. intros t [[o x] [-> [Hx Ho]%elem_of_filtered]]%list_elem_of_fmap. apply bool_decide_eq_true in Ho. cbn in Ho. subst o.
    pose proof (zip_map_elem _ _ _ _ Hx) as Hsp. apply elem_of_zip_r in Hx. apply Hok; [done|]. cbn. by rewrite <- Hsp. }
  pose proof (Forall2_length _ _ _ Hall) as Hn. rewrite length_seq in Hn.
  destruct (piece_back_ok splits errsets) as (errs & Hback & He & Hnone & Hsets).
  { intros i Hi. apply lookup_lt_is_Some. rewrite <- Hn. unfold splits in Hi. apply list_elem_of_In, in_map_iff in Hi as (t & Ht & _).
    unfold split_of in Ht. apply fmap_Some in Ht as ([j x] & [Hj _]%list_find_Some & ->). by eapply lookup_lt_Some. }
  { intros i set Hset. destruct (Forall2_lookup_r _ _ _ _ _ Hall Hset) as (j & [-> _]%lookup_seq & ->). cbn. by apply txset_length. }
  exists errsets, errs, p'. split_and!; try done.
  - unfold TxPool.Add, bind, get. fold splits. rewrite Hrun, Hback. done.
  - by rewrite He, <- Hlen.
  - intros k tx Hk Htx. apply Hnone. unfold splits. rewrite list_lookup_fmap, Hk. cbn. by rewrite Htx.
Qed.

(** *** The operations *)

Inductive pool_op : Type :=
  | PSetGasTip (tip : Z)
  | PReset (oldHead newHead : option Header.Header)
  | PAdd (txs : list Transaction) (sync : bool)
  | PPending (filter : PendingFilter)
  | PNonce (addr : Address)
  | PContent
  | PContentFrom (addr : Address)
  | PClear
  | PInner (i : nat) (m : Sub T ()).

(** The calls of the coordinator, and what a pool does on its own. *)
Definition do_pool_op (o : pool_op) : SE (TxPool T) txpool_error () :=
  match o with
  | PSetGasTip tip => TxPool.SetGasTip tip
  | PReset oldHead newHead => TxPool.Reset oldHead newHead
  | PAdd txs sync => do! TxPool.Add txs sync; ret tt
  | PPending filter => do! TxPool.Pending filter; ret tt
  | PNonce addr => do! TxPool.Nonce addr; ret tt
  | PContent => do! TxPool.Content; ret tt
  | PContentFrom addr => do! TxPool.ContentFrom addr; ret tt
  | PClear => TxPool.Clear
  | PInner i m => do n <- get pools; if (i <? n)%nat then on_sub i m else ret tt
  end.

Definition pool_op_ok (o : pool_op) : Prop :=
  match o with
  | PSetGasTip tip => tip_ok tip
  | PReset oldHead newHead => reset_ok oldHead newHead
  | PAdd txs _ => ∀ t, t ∈ txs → tx_ok t
  | PInner i m => lawful i m (λ _, True)
  | _ => True
  end.

Lemma each_sub_then {A B} (m : nat → Sub T A) (f : list A → B) R p :
  stack_ok p → (∀ i, lawful i (m i) (R i)) → ∃ b p', (do l <- each_sub m; ret (f l)) p = (Ok b, p') ∧ stack_ok p'.
Proof.
  intros Hp Hm. destruct (each_sub_ok m R p Hp Hm) as (l & p' & Hrun & Hp' & _). exists (f l), p'. by rewrite (bind_Ok _ _ _ _ _ Hrun).
Qed.

Lemma content_from_ok addr i n p : stack_ok p → (i + n = pools p)%nat → ∃ x p', content_from addr i n p = (Ok x, p') ∧ stack_ok p'.
Proof.
  revert i p. induction n as [|n IH]; intros i p Hp Hn; cbn [content_from]; [by eexists _, p|].
  destruct (on_sub_ok i (sub_ContentFrom addr) (λ _, True) p Hp) as ([run block] & p1 & Hrun & Hp1 & Hs & _); [lia|apply law_ContentFrom|].
  rewrite (bind_Ok _ _ _ _ _ Hrun). destruct (_ || _); [by eexists _, p1|]. apply IH; [done|lia].
Qed.

Lemma do_pool_op_ok o p : stack_ok p → pool_op_ok o → ∃ p', do_pool_op o p = (Ok tt, p') ∧ stack_ok p'.
Proof.
  assert (Hdrop : ∀ {A} (m : SE (TxPool T) txpool_error A) q, (∃ a p', m q = (Ok a, p') ∧ stack_ok p') → ∃ p', (do! m; ret tt) q = (Ok tt, p') ∧ stack_ok p').
  { intros A m q (a & p' & Hm & Hp'). exists p'. by rewrite (bind_Ok _ _ _ _ _ Hm). }
  assert (Hunit : ∀ (m : SE (TxPool T) txpool_error ()) q, (∃ a p', m q = (Ok a, p') ∧ stack_ok p') → ∃ p', m q = (Ok tt, p') ∧ stack_ok p').
  { intros m q ([] & p' & Hm & Hp'). by exists p'. }
  intros Hp Ho. destruct o; cbn [do_pool_op pool_op_ok] in *.
  - apply Hunit. eapply (each_sub_then _ _ (λ _ _, True)); [done|]. intros i. by apply law_SetGasTip.
  - apply Hunit. eapply (each_sub_then _ _ (λ _ _, True)); [done|]. intros i. by apply law_Reset.
  - apply Hdrop. destruct (coordinator_Add_ok txs sync p Hp (λ t Ht _, Ho t Ht)) as (_ & errs & p' & _ & Hrun & Hp' & _). by exists errs, p'.
  - apply Hdrop. eapply (each_sub_then _ _ (λ _ _, True)); [done|]. intros i. apply law_Pending.
  - apply Hdrop. eapply (each_sub_then _ _ (λ _ _, True)); [done|]. intros i. apply law_Nonce.
  - apply Hdrop. eapply (each_sub_then _ _ (λ _ _, True)); [done|]. intros i. apply law_Content.
  - apply Hdrop. by apply (content_from_ok addr 0).
  - apply Hunit. eapply (each_sub_then _ _ (λ _ _, True)); [done|]. intros i. apply law_Clear.
  - unfold bind, get. destruct (Nat.ltb_spec i (pools p)); [|by exists p].
    apply Hunit. destruct (on_sub_ok i m _ p Hp ltac:(done) Ho) as (a & p' & Hrun & Hp' & _). by exists a, p'.
Qed.

Lemma pool_ops_ok os p : stack_ok p → (∀ o, o ∈ os → pool_op_ok o) → ∃ p', each do_pool_op os p = (Ok tt, p') ∧ stack_ok p'.
Proof.
  revert p. induction os as [|o os IH]; intros p Hp Hos; cbn [each]; [by exists p|].
  destruct (do_pool_op_ok o p Hp) as (p1 & Hrun & Hp1); [apply Hos; by left|]. rewrite (bind_Ok _ _ _ _ _ Hrun). apply IH; [done|].
  intros o' Ho'. apply Hos. by right.
Qed.

(** *** From the start *)

Lemma close_all idx p : (∀ i, i ∈ idx → (i < pools p)%nat) → ∃ l p', over_subs idx (λ _, sub_Close) p = (Ok l, p').
Proof.
  revert p. induction idx as [|i idx IH]; intros p Hidx; cbn [over_subs]; [by exists [], p|].
  destruct (lookup_lt_is_Some_2 (subpools p) i) as [s Hs]; [apply Hidx; by left|]. destruct (law_Close s (reservations p)) as (s' & r' & Hc).
  assert (Hrun : on_sub i sub_Close p = (Ok tt, MkTxPool (<[i := s']> (subpools p)) r')) by (unfold on_sub; by rewrite Hs, Hc).
  rewrite (bind_Ok _ _ _ _ _ Hrun). destruct (IH (MkTxPool (<[i := s']> (subpools p)) r')) as (l & p' & Hl).
  { intros j Hj. unfold pools. cbn. rewrite length_insert. apply Hidx. by right. }
  exists (tt :: l), p'. by rewrite (bind_Ok _ _ _ _ _ Hl).
Qed.

(** While the pools are initialised those before [i] are good, the others untouched. *)
Definition starting (i : nat) p : Prop :=
  guarded p ∧ ∀ j s, subpools p !! j = Some s → if decide (j < i)%nat then pool_ok j s (reservations p) else pool_new j s ∧ ∀ a, reservations p !! a ≠ Some j.

Lemma init_subs_ok tip head i n p :
  init_ok head → starting i p → (i + n = pools p)%nat → ∃ err p', init_subs tip head i n p = (Ok err, p') ∧ (err = None → stack_ok p').
Proof.
  intros Hh. revert i p. induction n as [|n IH]; intros i p Hp Hn; cbn [init_subs].
  { exists None, p. split; [done|]. intros _. destruct Hp as [Hg Hp]. split; [|done]. intros j s Hs. specialize (Hp j s Hs). rewrite decide_True in Hp; [done|]. apply lookup_lt_Some in Hs. unfold pools in Hn. lia. }
  destruct (lookup_lt_is_Some_2 (subpools p) i) as [s Hs]; [unfold pools in Hn; lia|]. destruct Hp as [Hg Hp]. pose proof (Hp i s Hs) as Hi. rewrite decide_False in Hi by lia.
  destruct Hi as [Hnew Hr]. destruct (law_Init i tip head s (reservations p) Hnew Hr Hh) as (err & s' & r' & Hrun & Hcs & Hok).
  destruct (guarded_calls i s s' r' p Hs Hcs Hg) as [Hap Hg']. set (p1 := MkTxPool (<[i := s']> (subpools p)) r').
  assert (Hlen : pools p1 = pools p) by apply length_insert.
  assert (Hon : on_sub i (sub_Init tip head i) p = (Ok err, p1)) by (unfold on_sub; by rewrite Hs, Hrun).
  rewrite (bind_Ok _ _ _ _ _ Hon). destruct err as [e|].
  - destruct (close_all (rev (seq 0 i)) p1) as (l & p' & Hc).
    { intros j Hj. rewrite list_elem_of_In, <- in_rev, <- list_elem_of_In, elem_of_seq in Hj. lia. }
    exists (Some e), p'. by rewrite (bind_Ok _ _ _ _ _ Hc).
  - apply IH; [|lia]. split; [exact Hg'|]. intros j t. cbn [subpools reservations p1]. destruct (decide (j = i)) as [->|Hne].
    + rewrite list_lookup_insert_eq by (by eapply lookup_lt_Some). intros [= <-]. rewrite decide_True by lia. by apply Hok.
    + rewrite list_lookup_insert_ne by done. intros Ht. specialize (Hp j t Ht). destruct (decide (j < i)%nat).
      * rewrite decide_True by lia. apply (law_stable j t (reservations p)); [done|]. intros a. by apply Hap.
      * rewrite decide_False by lia. destruct Hp as [Hn' Hr']. split; [done|]. intros a Ha. apply (Hr' a). by apply Hap.
Qed.
End Stack.

(** ** The legacy pool leaves the others alone *)

Section Frame.
Context {St : Type} `{AccountState St, CodeHashes St, Sending, BlobProofs, Authorities, HeaderHash, Clock, MapRange, Sorter}.
Implicit Types p : LegacyPool St.

(** The pool keeps its place, and the reservations change by its calls of [reserver]. *)
Definition kin p p' : Prop := self p' = self p ∧ ∃ cs, ∀ h, (calls (self p) cs (h, reserved p)).2 = reserved p'.

(** A step that does so, however it ends. *)
Definition tame {A} (m : SE (LegacyPool St) txpool_error A) : Prop := ∀ p, kin p (m p).2.

Lemma kin_trans p1 p2 p3 : kin p1 p2 → kin p2 p3 → kin p1 p3.
Proof.
  intros [Hs1 [cs1 H1']] [Hs2 [cs2 H2']]. split; [congruence|]. exists (cs1 ++ cs2). intros h. rewrite calls_app. specialize (H1' h).
  destruct (calls (self p1) cs1 (h, reserved p1)) as [h1 r1]. cbn in H1'. subst r1. rewrite <- Hs1. apply H2'.
Qed.

Lemma kin_same p p' : self p' = self p → reserved p' = reserved p → kin p p'.
Proof. intros Hs Hr. split; [done|]. by exists []. Qed.

Lemma tame_ret {A} (a : A) : tame (ret a). Proof. intros p. by apply kin_same. Qed.
Lemma tame_fail {A} e : tame (@fail _ _ A e). Proof. intros p. by apply kin_same. Qed.
Lemma tame_get {A} (f : LegacyPool St → A) : tame (get f). Proof. intros p. by apply kin_same. Qed.
Lemma tame_of_option {A} e (o : option A) : tame (of_option e o). Proof. intros p. by destruct o; apply kin_same. Qed.
Lemma tame_of_result {A} (r : result txpool_error A) : tame (of_result r). Proof. intros p. by destruct r; apply kin_same. Qed.

Lemma tame_modify f : (∀ p, self (f p) = self p ∧ reserved (f p) = reserved p) → tame (modify f).
Proof. intros Hf p. destruct (Hf p) as [Hs Hr]. by apply kin_same. Qed.

Lemma tame_bind {A B} (m : SE (LegacyPool St) txpool_error A) (f : A → SE (LegacyPool St) txpool_error B) :
  tame m → (∀ a, tame (f a)) → tame (bind m f).
Proof.
  intros Hm Hf p. specialize (Hm p). unfold bind. destruct (m p) as [[a|e] p1]; [|done]. eapply kin_trans; [apply Hm|apply Hf].
Qed.

Lemma tame_try {A} (m : SE (LegacyPool St) txpool_error A) : tame m → tame (try_ m).
Proof. intros Hm p. specialize (Hm p). unfold try_. by destruct (m p) as [[a|[]] p1]. Qed.

Lemma tame_when b (m : SE (LegacyPool St) txpool_error ()) : tame m → tame (when b m).
Proof. destruct b; [done|]. intros _. apply tame_ret. Qed.

Lemma tame_each {A} (f : A → SE (LegacyPool St) txpool_error ()) l : (∀ x, tame (f x)) → tame (each f l).
Proof. intros Hf. induction l as [|x l IH]; [apply tame_ret|]. by apply tame_bind. Qed.

Lemma tame_nonce_get addr : tame (nonce_get addr).
Proof. intros p. unfold nonce_get. destruct (Noncer.get _ _). by apply kin_same. Qed.

Lemma tame_reserve addr b : tame (reserve addr b).
Proof.
  intros p. unfold reserve, kin. destruct (reserver (self p) (reserved p) addr b) as [answer r] eqn:Hr. split; [done|].
  exists [(addr, b)]. intros h. cbn. by rewrite Hr.
Qed.

Lemma tame_Content : tame Content.
Proof. intros p. unfold Content. by destruct (flatten_all (pending p)), (flatten_all (queue p)); apply kin_same. Qed.
End Frame.

Create HintDb tame.
#[export] Hint Resolve tame_ret tame_fail tame_get tame_of_option tame_of_result tame_bind tame_try tame_when tame_each tame_nonce_get tame_reserve tame_Content : tame.
#[export] Hint Extern 2 (tame (modify _)) => (apply tame_modify; intros; split; reflexivity) : tame.

(** The steps of a definition one by one, down to those that are known. *)
Ltac tamed := repeat first [ progress intros | solve [eauto 2 with tame nocore] | lazymatch goal with
  | |- tame (bind _ _) => apply tame_bind
  | |- tame (modify _) => apply tame_modify; intros; split; reflexivity
  | |- tame (when _ _) => apply tame_when
  | |- tame (each _ _) => apply tame_each
  | |- tame (try_ _) => apply tame_try
  | |- tame (match ?x with _ => _ end) => destruct x
  | |- tame (panics _) => apply tame_of_option
  end ].

Section Tame.
Context {St : Type} `{AccountState St, CodeHashes St, Sending, BlobProofs, Authorities, HeaderHash, Clock, MapRange, Sorter}.
Abbreviation steady m := (tame (St := St) m).

Lemma tame_ignore {A} (m : SE (LegacyPool St) txpool_error A) : tame m → tame (ignore m).
Proof. intros. unfold ignore. tamed. Qed.
#[local] Hint Resolve tame_ignore : tame.

Lemma tame_all_Remove h : steady (all_Remove h).
Proof. unfold all_Remove. tamed. Qed.
Lemma tame_all_Add tx : steady (all_Add tx).
Proof. unfold all_Add. tamed. Qed.
Lemma tame_priced_Put tx : steady (priced_Put tx).
Proof. unfold priced_Put. tamed. Qed.
Lemma tame_priced_Removed n : steady (priced_Removed n).
Proof. unfold priced_Removed. tamed. Qed.
Lemma tame_put_pending a l : steady (put_pending a l).
Proof. unfold put_pending. tamed. Qed.
Lemma tame_put_queue a l : steady (put_queue a l).
Proof. unfold put_queue. tamed. Qed.
Lemma tame_delete_pending a : steady (delete_pending a).
Proof. unfold delete_pending. tamed. Qed.
Lemma tame_delete_queue a : steady (delete_queue a).
Proof. unfold delete_queue. tamed. Qed.
Lemma tame_beat a : steady (beat a).
Proof. unfold beat. tamed. Qed.
Lemma tame_nonce_set a n : steady (nonce_set a n).
Proof. unfold nonce_set. tamed. Qed.
Lemma tame_nonce_setIfLower a n : steady (nonce_setIfLower a n).
Proof. unfold nonce_setIfLower. tamed. Qed.
Lemma tame_queueTxEvent tx : steady (queueTxEvent tx).
Proof. unfold queueTxEvent. tamed. Qed.
Lemma tame_requestPromoteExecutables d : steady (requestPromoteExecutables d).
Proof. unfold requestPromoteExecutables. tamed. Qed.
Lemma tame_requestReset o n : steady (requestReset o n).
Proof. unfold requestReset. tamed. Qed.
#[local] Hint Resolve tame_all_Remove tame_all_Add tame_priced_Put tame_priced_Removed tame_put_pending tame_put_queue tame_delete_pending tame_delete_queue tame_beat tame_nonce_set tame_nonce_setIfLower tame_queueTxEvent tame_requestPromoteExecutables tame_requestReset : tame.

Lemma tame_release a : steady (release a).
Proof. unfold release. tamed. Qed.
Lemma tame_replace_old o : steady (replace_old o).
Proof. unfold replace_old. tamed. Qed.
Lemma tame_flatten_queued a : steady (flatten_queued a).
Proof. unfold flatten_queued. tamed. Qed.
Lemma tame_isGapped a tx : steady (isGapped a tx).
Proof. unfold isGapped. tamed. Qed.
Lemma tame_forget ts : steady (forget ts).
Proof. unfold forget. tamed. Qed.
Lemma tame_drop_last a : steady (drop_last a).
Proof. unfold drop_last. tamed. Qed.
Lemma tame_set_base_fee h : steady (set_base_fee h).
Proof. unfold set_base_fee. tamed. Qed.
#[local] Hint Resolve tame_release tame_replace_old tame_flatten_queued tame_isGapped tame_forget tame_drop_last tame_set_base_fee : tame.

Lemma tame_enqueueTx h tx b : steady (enqueueTx h tx b).
Proof. unfold enqueueTx. tamed. Qed.
Lemma tame_promoteTx a h tx : steady (promoteTx a h tx).
Proof. unfold promoteTx. tamed. Qed.
Lemma tame_replace_pending a tx l : steady (replace_pending a tx l).
Proof. unfold replace_pending. tamed. Qed.
#[local] Hint Resolve tame_enqueueTx tame_promoteTx tame_replace_pending : tame.

Lemma tame_remove_pending a tx : steady (remove_pending a tx).
Proof. unfold remove_pending. tamed. Qed.
Lemma tame_remove_queued a tx : steady (remove_queued a tx).
Proof. unfold remove_queued. tamed. Qed.
Lemma tame_demote ts : steady (demote ts).
Proof. unfold demote. tamed. Qed.
#[local] Hint Resolve tame_remove_pending tame_remove_queued tame_demote : tame.

Lemma tame_removeTx h b c : steady (removeTx h b c).
Proof. unfold removeTx. tamed. Qed.
Lemma tame_demote_account a : steady (demote_account a).
Proof. unfold demote_account. tamed. Qed.
#[local] Hint Resolve tame_removeTx tame_demote_account : tame.

Lemma tame_kick_out a tx : steady (kick_out a tx).
Proof. unfold kick_out. tamed. Qed.
Lemma tame_remove_all ts : steady (remove_all ts).
Proof. unfold remove_all. tamed. Qed.
Lemma tame_demoteUnexecutables  : steady (demoteUnexecutables).
Proof. unfold demoteUnexecutables. tamed. Qed.
#[local] Hint Resolve tame_kick_out tame_remove_all tame_demoteUnexecutables : tame.

Lemma tame_make_room a tx : steady (make_room a tx).
Proof. unfold make_room. tamed. Qed.
Lemma tame_evict_account a : steady (evict_account a).
Proof. unfold evict_account. tamed. Qed.
#[local] Hint Resolve tame_make_room tame_evict_account : tame.

Lemma tame_add_validated a tx : steady (add_validated a tx).
Proof. unfold add_validated. tamed. Qed.
#[local] Hint Resolve tame_add_validated : tame.

Lemma tame_add tx : steady (add tx).
Proof. unfold add, or_release. tamed. Qed.
#[local] Hint Resolve tame_add : tame.

Lemma tame_addTxsLocked ts dirty : steady (addTxsLocked ts dirty).
Proof. revert dirty. induction ts; cbn [addTxsLocked]; tamed. Qed.
#[local] Hint Resolve tame_addTxsLocked : tame.
Lemma tame_Add ts sync : steady (Add ts sync).
Proof. unfold Add. tamed. Qed.
#[local] Hint Resolve tame_Add : tame.
Lemma tame_promote_readies a ts : steady (promote_readies a ts).
Proof. induction ts; cbn [promote_readies]; tamed. Qed.
#[local] Hint Resolve tame_promote_readies : tame.
Lemma tame_promote_account a : steady (promote_account a).
Proof. unfold promote_account. tamed. Qed.
#[local] Hint Resolve tame_promote_account : tame.
Lemma tame_promoteExecutables l : steady (promoteExecutables l).
Proof. induction l; cbn [promoteExecutables]; tamed. Qed.
#[local] Hint Resolve tame_promoteExecutables : tame.
Lemma tame_drop_each l n : steady (drop_each l n).
Proof. revert n. induction l; cbn [drop_each]; tamed. Qed.
#[local] Hint Resolve tame_drop_each : tame.
Lemma tame_equalize fuel a th l n : steady (equalize fuel a th l n).
Proof. revert a th l n. induction fuel; cbn [equalize]; tamed. Qed.
#[local] Hint Resolve tame_equalize : tame.
Lemma tame_penalize fuel q l n : steady (penalize fuel q l n).
Proof. revert q l n. induction fuel; cbn [penalize]; tamed. Qed.
#[local] Hint Resolve tame_penalize : tame.
Lemma tame_truncate_accounts l n : steady (truncate_accounts l n).
Proof. revert n. induction l; cbn [truncate_accounts]; tamed. Qed.
#[local] Hint Resolve tame_truncate_accounts : tame.
Lemma tame_forward_events l ev : steady (forward_events l ev).
Proof. revert ev. induction l; cbn [forward_events]; tamed. Qed.
#[local] Hint Resolve tame_forward_events : tame.
Lemma tame_highest_nonces l m : steady (highest_nonces l m).
Proof. revert m. induction l; cbn [highest_nonces]; tamed. Qed.
#[local] Hint Resolve tame_highest_nonces : tame.
Lemma tame_pending_of f l acc : steady (pending_of f l acc).
Proof. revert acc. induction l; cbn [pending_of]; tamed. Qed.
#[local] Hint Resolve tame_pending_of : tame.
Lemma tame_truncatePending : steady (truncatePending).
Proof. unfold truncatePending. tamed. Qed.
#[local] Hint Resolve tame_truncatePending : tame.
Lemma tame_truncateQueue : steady (truncateQueue).
Proof. unfold truncateQueue. tamed. Qed.
#[local] Hint Resolve tame_truncateQueue : tame.
Lemma tame_evict : steady (evict).
Proof. unfold evict. tamed. Qed.
#[local] Hint Resolve tame_evict : tame.
Lemma tame_reset chain o n : steady (reset chain o n).
Proof. unfold reset. tamed. Qed.
#[local] Hint Resolve tame_reset : tame.
Lemma tame_settle_reset h : steady (settle_reset h).
Proof. unfold settle_reset. tamed. Qed.
#[local] Hint Resolve tame_settle_reset : tame.
Lemma tame_runReorg chain rq dirty ev : steady (runReorg chain rq dirty ev).
Proof. unfold runReorg. tamed. Qed.
#[local] Hint Resolve tame_runReorg : tame.
Lemma tame_launch_run chain : steady (launch_run chain).
Proof. unfold launch_run. tamed. Qed.
#[local] Hint Resolve tame_launch_run : tame.
Lemma tame_SetGasTip tip : steady (SetGasTip tip).
Proof. unfold SetGasTip. tamed. Qed.
#[local] Hint Resolve tame_SetGasTip : tame.
Lemma tame_ContentFrom a : steady (ContentFrom a).
Proof. unfold ContentFrom. tamed. Qed.
#[local] Hint Resolve tame_ContentFrom : tame.
Lemma tame_Pending f : steady (Pending f).
Proof. unfold Pending. tamed. Qed.
#[local] Hint Resolve tame_Pending : tame.
Lemma tame_Clear : steady (Clear).
Proof. unfold Clear. tamed. Qed.
#[local] Hint Resolve tame_Clear : tame.
End Tame.

(** ** The legacy pool as one of the pools *)

Section Instance.
Context {St : Type} `{AccountState St, CodeHashes St, Sending, BlobProofs, Authorities, HeaderHash, Clock, MapRange, Sorter}.
Context (chain : BlockChain St) (root : Hash).

(** An operation on the reservations of the coordinator. *)
Definition lend {A} (m : SE (LegacyPool St) txpool_error A) : Sub (LegacyPool St) A := λ sr,
  let '(a, p) := m (set_reserved sr.2 sr.1) in (a, (p, reserved p)).

(** The methods; [Reset], and [Add] on demand, wait for the run they asked for. *)
Definition legacy_SubPool : SubPool (LegacyPool St) := {|
  sub_Filter _ tx := Filter tx;
  sub_Init tip head i := lend (do r <- get reserved; do err <- try_ (Init chain root tip head r); ret (match err with Ok _ => None | Err e => Some e end));
  sub_Close := ret tt;
  sub_Reset oldHead newHead := lend (do! requestReset oldHead newHead; launch_run chain);
  sub_SetGasTip tip := lend (SetGasTip tip);
  sub_Has := Has;
  sub_Get := Get;
  sub_Add ts sync := lend (do errs <- Add ts sync; do! when sync (launch_run chain); ret errs);
  sub_Pending filter := lend (Pending filter);
  sub_Nonce addr := lend (Nonce addr);
  sub_Stats := Stats;
  sub_Content := lend Content;
  sub_ContentFrom addr := lend (ContentFrom addr);
  sub_Status := Status;
  sub_Clear := lend Clear
|}.
#[export] Existing Instance legacy_SubPool.

Context (c : Config) (cc : ChainConfig) (U : Transaction → Prop).

#[export] Instance legacy_promise : PoolPromise (LegacyPool St) := {|
  pool_ok i s r := inv (sanitize c) cc i U tight (set_reserved r s);
  pool_new i s := ∃ st0 h0, s = New c cc i st0 h0;
  accounts s := dom (pending s) ∪ dom (queue s);
  tx_ok tx := fees_fit tx → U tx;
  tip_ok tip := 0 <= tip < two256;
  init_ok := headed cc;
  reset_ok oldHead newHead := request_ok cc (oldHead, newHead)
|}.

Lemma has_lists (p : LegacyPool St) a : a ∈ accounts p ↔ ∃ b, is_Some (lists b p !! a).
Proof. cbn. rewrite elem_of_union, !elem_of_dom. split; [intros [?|?]; [by exists true|by exists false]|intros [[] ?]; auto]. Qed.

(** What it has is what is reserved for it. *)
Lemma accounts_exact i p : inv (sanitize c) cc i U tight p → ∀ a, a ∈ accounts p ↔ reserved p !! a = Some i.
Proof. intros Hi a. rewrite has_lists, (iv_reserved Hi). cbn. tauto. Qed.

Lemma kin_by_calls i r p p' :
  inv (sanitize c) cc i U tight (set_reserved r p) → inv (sanitize c) cc i U tight p' → kin (set_reserved r p) p' → by_calls i p r p' (reserved p').
Proof.
  intros Hi Hi' [_ [cs Hcs]]. exists cs. rewrite (iv_self Hi) in Hcs. cbn [reserved set_reserved] in Hcs.
  pose proof (calls_exact i cs (accounts p, r) (accounts_exact i _ Hi)) as Hex. specialize (Hcs (accounts p)).
  destruct (calls i cs (accounts p, r)) as [h r']. cbn [fst snd] in *. subst r'. f_equal. apply set_eq. intros a.
  by rewrite Hex, (accounts_exact i p' Hi').
Qed.

Lemma lend_lawful {A} i (m : SE (LegacyPool St) txpool_error A) (R : A → Prop) :
  tame m → (∀ p, inv (sanitize c) cc i U tight p → wp m (λ a p', inv (sanitize c) cc i U tight p' ∧ R a) (λ _ _, False) p) → lawful i (lend m) R.
Proof.
  intros Htame Hm s r Hok. unfold lend. cbn [fst snd] in *. specialize (Hm _ Hok). specialize (Htame (set_reserved r s)). unfold wp in Hm.
  destruct (m (set_reserved r s)) as [[a|e] p']; [|done]. destruct Hm as [Hp' Ha]. exists a, p', (reserved p').
  split_and!; [done| |by apply (kin_by_calls i)|done]. cbn. by destruct p'.
Qed.

Context (HU : universe U) (Hc : config_ok (sanitize c)) (Hch : chain_ok U chain).

#[local] Hint Resolve tame_launch_run tame_requestReset tame_Add tame_SetGasTip tame_Pending tame_ContentFrom tame_Clear : tame.

Lemma requestReset_wp i oldHead newHead p (Q : () → LegacyPool St → Prop) X :
  inv (sanitize c) cc i U tight p → request_ok cc (oldHead, newHead) → (∀ p', inv (sanitize c) cc i U tight p' → Q tt p') →
  wp (requestReset oldHead newHead) Q X p.
Proof. intros Hi Hr HQ. by apply (do_op_wp (sanitize c) cc i U HU Hc (ORequestReset oldHead newHead)). Qed.

Lemma Init_keeps tip head r (p : LegacyPool St) :
  let p' := (Init chain root tip head r p).2 in reserved p' = r ∧ pending p' = pending p ∧ queue p' = queue p.
Proof. unfold Init, bind, modify. by destruct (StateAt chain (Header.Root head)), (StateAt chain root). Qed.

Lemma legacy_Init_law i tip head s r : pool_new i s → (∀ a, r !! a ≠ Some i) → init_ok head →
  ∃ err s' r', sub_Init tip head i (s, r) = (Ok err, (s', r')) ∧ by_calls i s r s' r' ∧ (err = None → pool_ok i s' r').
Proof.
  intros (st0 & h0 & ->) Hr Hh. cbn [sub_Init legacy_SubPool]. unfold lend, bind, get, try_. cbn [fst snd reserved set_reserved].
  assert (Hw : wp (Init chain root tip head r) (λ _ p, inv (sanitize c) cc i U tight p) (λ e _, e = ErrState) (New c cc i st0 h0)).
  { by apply (Init_wp (sanitize c) cc i U chain root tip head r st0 h0 c i). }
  change (Init chain root tip head r (set_reserved r (New c cc i st0 h0))) with (Init chain root tip head r (New c cc i st0 h0)).
  pose proof (Init_keeps tip head r (New c cc i st0 h0)) as (Hres & Hp & Hq). unfold wp in Hw.
  destruct (Init chain root tip head r (New c cc i st0 h0)) as [[[]|e] p]; cbn [snd] in *; [|subst e]; eexists _, p, (reserved p);
    (split_and!; [done|exists []; cbn; by rewrite Hres, Hp, Hq|]); [|done].
  intros _. cbn. by destruct p.
Qed.

#[export] Instance legacy_laws : PoolLaws (LegacyPool St).
Proof.
  split.
  - intros i s r r' Hok Hr. cbn in *. destruct Hok as [] eqn:HI. split; try done. intros a. cbn [reserved set_reserved]. rewrite Hr. apply iv_reserved.
  - by intros i s (st0 & h0 & ->).
  - apply legacy_Init_law.
  - intros s r. by exists s, r.
  - intros i oldHead newHead Hr. apply lend_lawful; [tamed|]. intros p Hp. step. apply (requestReset_wp i); [done|done|]. intros p1 Hp1.
    apply (launch_run_wp (sanitize c) cc i U HU Hc); [done|done|]. by intros p2 Hp2.
  - intros i tip Ht. apply lend_lawful; [tamed|]. intros p Hp. by apply (SetGasTip_wp (sanitize c) cc i U HU).
  - intros i ts sync Hts. apply lend_lawful; [tamed|]. intros p Hp. step. apply (Add_wp (sanitize c) cc i U HU); [done|done|]. intros errs p1 Hp1 Hl. step.
    destruct sync; cbn [when]; [|by steps]. apply (launch_run_wp (sanitize c) cc i U HU Hc); [done|done|]. intros p2 Hp2. by steps.
  - intros i filter. apply lend_lawful; [tamed|]. intros p Hp. by apply (Pending_wp (sanitize c) cc i U HU).
  - intros i addr. apply lend_lawful; [apply tame_nonce_get|]. intros p Hp. apply nonce_get_wp. intros n x. split; [by apply inv_nonces|done].
  - intros i. apply lend_lawful; [apply tame_Content|]. intros p Hp. by apply (Content_wp (sanitize c) cc i U).
  - intros i addr. apply lend_lawful; [tamed|]. intros p Hp. by apply (ContentFrom_wp (sanitize c) cc i U).
  - intros i. apply lend_lawful; [tamed|]. intros p Hp. by apply (Clear_wp (sanitize c) cc i U).
Qed.
End Instance.

(** ** What they promise together *)

(** C12: an account is in one pool only, because [reserver] gives it to one pool only,
    and the coordinator stays whole.  Of a pool it is asked that it changes the
    reservations by calls of [reserver] alone, and takes up and gives up accounts by
    what these calls answer; nothing is assumed of what other pools hold.  Starting
    with fresh pools that keep the contract, [New] ends without a panic; if no pool
    refused, every sequence of calls, and of what the pools do on their own, ends
    without a panic, and afterwards the accounts of each pool are reserved for it and no
    account belongs to two of the pools. *)
Theorem pools_exclusive {T} `{PoolLaws T} tip head (subs : list T) os :
  (∀ i s, subs !! i = Some s → pool_new i s) → init_ok head → (∀ o, o ∈ os → pool_op_ok o) →
  ∃ err p, TxPool.New tip head subs = (Ok err, p) ∧
    (err = None → ∃ p', each do_pool_op os p = (Ok tt, p') ∧
       (∀ i s a, subpools p' !! i = Some s → a ∈ accounts s → reservations p' !! a = Some i) ∧
       ∀ i j s t a, subpools p' !! i = Some s → subpools p' !! j = Some t → a ∈ accounts s → a ∈ accounts t → i = j).
Proof.
  intros Hsubs Hh Hos. destruct (init_subs_ok tip head 0 (length subs) (MkTxPool subs ∅) Hh) as (err & p & Hrun & Hok); [|done|].
  { split; [intros i s a Hs Ha; cbn in Hs; by rewrite (law_new i s) in Ha by auto|]. intros j s Hs. rewrite decide_False by lia.
    split; [by apply Hsubs|]. intros a. cbn. by rewrite lookup_empty. }
  exists err, p. split; [exact Hrun|]. intros Herr. destruct (pool_ops_ok os p (Hok Herr) Hos) as (p' & Hops & [_ Hg]). exists p'. split; [done|].
  split; [exact Hg|]. intros i j s t a Hs Ht Ha Hb. apply (Hg i s a Hs) in Ha. apply (Hg j t a Ht) in Hb. congruence.
Qed.

(** [Add] answers for every transaction of a batch, in its place.  One that no
    pool takes is of an unsupported type; the verdicts of those that a pool takes are
    the pool's own, in their order; putting them together never runs out. *)
Theorem add_answers {T} `{PoolLaws T} txs sync (p : TxPool T) :
  stack_ok p → (∀ t, t ∈ txs → is_Some (split_of (subpools p) t) → tx_ok t) →
  let splits := map (split_of (subpools p)) txs in
  ∃ errsets errs p', each_sub (λ i, sub_Add (txset splits txs i) sync) p = (Ok errsets, p') ∧ TxPool.Add txs sync p = (Ok errs, p') ∧
    stack_ok p' ∧ length errs = length txs ∧
    (∀ k tx, txs !! k = Some tx → split_of (subpools p) tx = None → errs !! k = Some (Some ErrTxTypeNotSupported)) ∧
    (∀ i set, errsets !! i = Some set → txset splits errs i = set).
Proof.
  intros Hp Hok splits. destruct (coordinator_Add_ok txs sync p Hp Hok) as (sets & errs & p' & ? & ? & ? & _ & _ & ? & ? & ?). by exists sets, errs, p'.
Qed.

(** C18: the legacy pool keeps the contract.  With a universe of transactions in which
    a hash is one transaction, a configuration within the words and a chain of whole
    states, each of its operations, [Reset] and [Add] with the run that they wait for
    included, ends without a panic, leaves the pool good, answers every transaction,
    changes the reservations by calls of [reserver] alone, takes up and gives up
    accounts by what these answer, and so touches no reservation of another pool; what
    it has is what is reserved for it. *)
Theorem legacy_pool_keeps_contract {St} `{AccountState St, CodeHashes St, Sending, BlobProofs, Authorities, HeaderHash, Clock, MapRange, Sorter}
    (chain : BlockChain St) root c cc U :
  universe U → config_ok (sanitize c) → chain_ok U chain →
  let methods := legacy_SubPool chain root in
  let promise := legacy_promise c cc U in
  PoolLaws (LegacyPool St) ∧
  (∀ i s r s' r', by_calls i s r s' r' → apart i r r') ∧
  (∀ i s r a, pool_ok i s r → a ∈ accounts s ↔ r !! a = Some i) ∧
  (∀ s a, a ∈ accounts s ↔ is_Some (pending s !! a) ∨ is_Some (queue s !! a)).
Proof.
  intros HU Hc Hch methods promise. split; [by apply legacy_laws|]. split; [|split].
  - intros i s r s' r' [cs Hcs]. pose proof (calls_apart i cs (accounts s, r)) as Ha. by rewrite Hcs in Ha.
  - intros i s r a Hok. by rewrite <- (accounts_exact c cc U i _ Hok).
  - intros s a. cbn. by rewrite elem_of_union, !elem_of_dom.
Qed.

(** ** Witnesses *)

Section Witnesses.
Import Toy.

(** Two legacy pools; the second, which the coordinator would not ask, is offered the
    transactions that the first has. *)
#[local] Instance ex_SubPool : SubPool (LegacyPool map_state) := legacy_SubPool Toy.chain 0.
#[local] Instance ex_promise : PoolPromise (LegacyPool map_state) := legacy_promise DefaultConfig Config.mainnet_like Toy.U.
#[local] Instance ex_laws : PoolLaws (LegacyPool map_state).
Proof. apply legacy_laws; [apply universe_ok|apply config_fine|apply chain_fine]. Qed.

Definition ex_subs : list (LegacyPool map_state) :=
  [LegacyPool.New DefaultConfig Config.mainnet_like 0 Toy.state (header 10); LegacyPool.New DefaultConfig Config.mainnet_like 1 Toy.state (header 10)].

Definition ex_ops : list (pool_op (T := LegacyPool map_state)) :=
  [PAdd Toy.txs true; PInner 1 (do! sub_Add Toy.txs true; ret tt); PReset (Some (header 10)) (Some (header 11))].

Definition ex_history : SE (TxPool (LegacyPool map_state)) txpool_error () :=
  do! init_subs 1 (header 10) 0 2; each do_pool_op ex_ops.

Lemma ex_ops_ok o : o ∈ ex_ops → pool_op_ok o.
Proof.
  unfold ex_ops. rewrite !elem_of_cons, elem_of_nil. intros [->|[->|[->|[]]]].
  - by intros t Ht _.
  - assert (Htx : ∀ t, t ∈ Toy.txs → tx_ok (T := LegacyPool map_state) t) by (by intros t Ht _).
    intros s r Hok. destruct (law_Add 1 Toy.txs true Htx s r Hok) as (a & s' & r' & Hrun & Hok' & Hap & _).
    exists tt, s', r'. by rewrite (bind_Ok _ _ _ _ _ Hrun).
  - split; [exists (header 11); split; [done|apply header_fine]|]. intros o' [= <-]. by eexists.
Qed.

Lemma pools_exclusive_witness :
  (TxPool.New 1 (header 10) ex_subs).1 = Ok None ∧
  ∃ p, ex_history (MkTxPool ex_subs ∅) = (Ok tt, p) ∧ TxPool.Stats p = (2, 1) ∧
    ∀ i j s t a, subpools p !! i = Some s → subpools p !! j = Some t → a ∈ accounts s → a ∈ accounts t → i = j.
Proof.
  assert (Hnew : (TxPool.New 1 (header 10) ex_subs).1 = Ok None) by (vm_compute; reflexivity).
  assert (Hs : TxPool.Stats (ex_history (MkTxPool ex_subs ∅)).2 = (2, 1)) by (vm_compute; reflexivity).
  split; [exact Hnew|]. destruct (pools_exclusive 1 (header 10) ex_subs ex_ops) as (err & p & Hp & Hrest).
  - intros [|[|i]] s Hsub; cbn in Hsub; [injection Hsub as <-; by eexists _, _..|done].
  - apply header_fine.
  - apply ex_ops_ok.
  - rewrite Hp in Hnew. injection Hnew as ->. destruct (Hrest eq_refl) as (p' & Hp' & _ & Hex). exists p'.
    assert (Hrun : ex_history (MkTxPool ex_subs ∅) = (Ok tt, p')) by (unfold ex_history; rewrite (bind_Ok _ _ _ _ _ Hp); exact Hp').
    split; [exact Hrun|]. rewrite Hrun in Hs. split; [exact Hs|exact Hex].
Defined.

Definition ex_stack : TxPool (LegacyPool map_state) := (TxPool.New 1 (header 10) ex_subs).2.

Lemma ex_stack_ok : stack_ok ex_stack.
Proof.
  destruct (init_subs_ok (T := LegacyPool map_state) 1 (header 10) 0 2 (MkTxPool ex_subs ∅)) as (err & p & Hrun & Hok); [apply header_fine| |done|].
  { assert (Hnew : ∀ j s, ex_subs !! j = Some s → pool_new j s) by (intros [|[|j]] s Hs; cbn in Hs; [injection Hs as <-; by eexists _, _..|done]).
    split; [intros i s a Hs Ha; cbn in Hs; by rewrite (law_new i s) in Ha by auto|].
    intros j s Hs. rewrite decide_False by lia. split; [|intros a; cbn; by rewrite lookup_empty]. destruct j as [|[|j]]; cbn in Hs; [injection Hs as <-; by eexists _, _..|done]. }
  assert (Hnone : (TxPool.New 1 (header 10) ex_subs).1 = Ok None) by (vm_compute; reflexivity).
  change (TxPool.New 1 (header 10) ex_subs = (Ok err, p)) in Hrun. unfold ex_stack. rewrite Hrun in Hnone |- *. injection Hnone as ->. by apply Hok.
Qed.

(** A transaction that no pool takes among those of the legacy pool. *)
Definition ex_blob : Transaction :=
  MkTx (TBlob (BlobTx.mk 1 0 1 100 21000 7 0 [] [] 1 [] None 0 0 0)) 9 0 0.

Lemma add_answers_witness :
  map (split_of ex_subs) [Toy.tx 1 0; ex_blob; Toy.tx 2 1] = [Some 0%nat; None; Some 0%nat] ∧
  ∃ errs p', TxPool.Add [Toy.tx 1 0; ex_blob; Toy.tx 2 1] true ex_stack = (Ok errs, p') ∧ stack_ok p' ∧ length errs = 3%nat ∧
    errs !! 1%nat = Some (Some ErrTxTypeNotSupported).
Proof.
  split; [vm_compute; reflexivity|].
  destruct (add_answers [Toy.tx 1 0; ex_blob; Toy.tx 2 1] true ex_stack ex_stack_ok) as (sets & errs & p' & _ & Hrun & Hok & Hlen & Hnone & _).
  { intros t Ht%list_elem_of_In Hs _. destruct Ht as [<-|[<-|[<-|[]]]]; [by left| |by right; left].
    exfalso. assert (Hb : split_of (subpools ex_stack) ex_blob = None) by (vm_compute; reflexivity). rewrite Hb in Hs. by destruct Hs. }
  exists errs, p'. split; [exact Hrun|]. split; [exact Hok|split; [exact Hlen|]]. apply (Hnone 1%nat ex_blob); vm_compute; reflexivity.
Defined.

Lemma legacy_pool_keeps_contract_witness :
  @PoolLaws (LegacyPool map_state) (legacy_SubPool Toy.chain 0) (legacy_promise DefaultConfig Config.mainnet_like Toy.U).
Proof. apply legacy_pool_keeps_contract; [apply universe_ok|apply config_fine|apply chain_fine]. Defined.
End Witnesses.
