(* ===== verification/BatchExecutor.v ===== *)
(** * The batch executor of the miner

    parallelizable-client-go-ethereum/miner/batch_executor.go: what is done with the
    transactions of an event.  Those whose data starts with the tag run at the same
    time, one goroutine each, on states of a shared store to which they hold
    references; what they did to the accounts that they name is written back one
    after the other; the rest run in order on the state itself.  The class
    [BatchState] is the part of the state that is used; the calls of the file that
    the repository does not define ([AsMessage], [NewEVMContext], [NewEVM]), and the
    run of a message, are the class [Messages]: such a run is a program of accesses
    to a state, between which the other goroutines may act. *)

From stdpp Require Import relations.
From S2P Require Import Prelude TxTypes Signers ChainConfig BlockFees PoolParts ParallelPool VMInterface TxValidation LegacyPool.
Open Scope eigen_scope.

Class BatchState (St : Type) : Type := {
  bs_Copy : St → St;
  bs_GetNonce : St → Address → Z;
  bs_GetBalance : St → Address → Z;
  bs_GetCode : St → Address → bytes;
  bs_SetNonce : St → Address → Z → St;
  bs_SetBalance : St → Address → Z → St;
  bs_SetCode : St → Address → bytes → St
}.

(** What is read of an account. *)
Record account : Type := MkAccount { acc_nonce : Z; acc_balance : Z; acc_code : bytes }.

Definition view `{BatchState St} (s : St) (a : Address) : account :=
  MkAccount (bs_GetNonce s a) (bs_GetBalance s a) (bs_GetCode s a).

(** A copy reads the same, and a write changes what it names. *)
Class BatchStateLaws (St : Type) `{BatchState St} : Prop := {
  view_Copy s a : view (bs_Copy s) a = view s a;
  view_SetNonce s a n b : view (bs_SetNonce s a n) b =
    if decide (b = a) then MkAccount n (acc_balance (view s b)) (acc_code (view s b)) else view s b;
  view_SetBalance s a x b : view (bs_SetBalance s a x) b =
    if decide (b = a) then MkAccount (acc_nonce (view s b)) x (acc_code (view s b)) else view s b;
  view_SetCode s a c b : view (bs_SetCode s a c) b =
    if decide (b = a) then MkAccount (acc_nonce (view s b)) (acc_balance (view s b)) c else view s b
}.

(** A program of accesses to one state: the next access changes the state, and what
    follows may depend on what was there. *)
Inductive prog (St A : Type) : Type :=
  | Ret (a : A)
  | Act (f : St → St) (k : St → prog St A).
Arguments Ret {St A}. Arguments Act {St A}.

(** The program alone, from its first access to the last. *)
Fixpoint run_prog {St A} (p : prog St A) (s : St) : A * St :=
  match p with
  | Ret a => (a, s)
  | Act f k => run_prog (k s) (f s)
  end.

(** How many accesses it makes. *)
Fixpoint accesses {St A} (p : prog St A) (s : St) : nat :=
  match p with
  | Ret _ => 0
  | Act f k => S (accesses (k s) (f s))
  end.

(** [transaction.AsMessage(signer, baseFee)], and [core.ApplyMessage] on a machine for
    the header and the sender, with a gas pool of its own. *)
Class Messages (St : Type) : Type := {
  Msg : Type;
  exec_error : Type;
  AsMessage : Transaction → Signer → option Z → result exec_error Msg;
  ApplyMsg : Header.Header → Address → Msg → Z → prog St (result exec_error ())
}.

Section Executor.
Context {St : Type} `{BatchState St, Messages St, Sending}.
Context (chainConfig : ChainConfig).

(** Why a transaction of a batch has no effect. *)
Inductive run_error : Type :=
  | RunSender (err : signer_error)
  | RunExec (err : exec_error).

(** *** One transaction *)

(** The sender and the message, and what is to be run. *)
Definition prepare (header : Header.Header) (tx : Transaction) : result run_error (prog St (result exec_error ())) :=
  match types_Sender (latest_signer chainConfig) tx with
  | Err err => Err (RunSender err)
  | Ok sender =>
      match AsMessage tx (latest_signer chainConfig) (Header.BaseFee header) with
      | Err err => Err (RunExec err)
      | Ok msg => Ok (ApplyMsg header sender msg (Tx.Gas tx))
      end
  end.

Definition verdict (r : result exec_error ()) : result run_error () :=
  match r with Ok _ => Ok tt | Err err => Err (RunExec err) end.

(** What both batches do with a transaction, on some state. *)
Definition run_tx (header : Header.Header) (tx : Transaction) (st : St) : result run_error () * St :=
  match prepare header tx with
  | Err err => (Err err, st)
  | Ok p => let '(r, st) := run_prog p st in (verdict r, st)
  end.

(** [if len(txData) > 8 { tag == "PARALLEL" }] *)
Definition isParallelizable (tx : Transaction) : bool :=
  let txData := Tx.Data tx in
  if len txData >? 8 then bool_decide (take 8 txData = string_bytes "PARALLEL") else false.

(** *** The parallel batch *)

(** A goroutine holds the reference to its state, the place of it in the store. *)
Inductive job : Type :=
  | Fresh (state : nat)
  | Applying (state : nat) (p : prog St (result exec_error ()))
  | Finished.

(** The store of states, the first of which is [statedb]; the goroutines; and
    [results], which starts with no errors. *)
Record batch_run : Type := MkRun {
  store : list St;
  jobs : list job;
  results : list (option run_error)
}.

(** The first loop: the states that it makes, and the references to them. *)
Definition stateCopies (txs : list Transaction) (statedb : St) : list St * list nat :=
  (map (λ _, bs_Copy statedb) txs, seq 1 (length txs)).

Definition start_batch (txs : list Transaction) (statedb : St) : batch_run :=
  let '(copies, refs) := stateCopies txs statedb in
  MkRun (statedb :: copies) (map Fresh refs) (map (λ _, None) txs).

Definition error_of (r : result run_error ()) : option run_error := match r with Ok _ => None | Err err => Some err end.

(** One action of one goroutine: it finds its sender and its message, or makes an
    access to the state that it refers to, or writes its result. *)
Inductive job_step (header : Header.Header) (txs : list Transaction) : batch_run → batch_run → Prop :=
  | job_fails i tx ref err b :
      txs !! i = Some tx → jobs b !! i = Some (Fresh ref) → prepare header tx = Err err →
      job_step header txs b (MkRun (store b) (<[i := Finished]> (jobs b)) (<[i := Some err]> (results b)))
  | job_begins i tx ref p b :
      txs !! i = Some tx → jobs b !! i = Some (Fresh ref) → prepare header tx = Ok p →
      job_step header txs b (MkRun (store b) (<[i := Applying ref p]> (jobs b)) (results b))
  | job_acts i ref f k s b :
      jobs b !! i = Some (Applying ref (Act f k)) → store b !! ref = Some s →
      job_step header txs b (MkRun (<[ref := f s]> (store b)) (<[i := Applying ref (k s)]> (jobs b)) (results b))
  | job_ends i ref r b :
      jobs b !! i = Some (Applying ref (Ret r)) →
      job_step header txs b (MkRun (store b) (<[i := Finished]> (jobs b)) (<[i := error_of (verdict r)]> (results b))).

(** The action of the goroutine [i], if it has one. *)
Definition act (header : Header.Header) (txs : list Transaction) (i : nat) (b : batch_run) : option batch_run :=
  tx ← txs !! i;
  j ← jobs b !! i;
  match j with
  | Fresh ref =>
      match prepare header tx with
      | Err err => Some (MkRun (store b) (<[i := Finished]> (jobs b)) (<[i := Some err]> (results b)))
      | Ok p => Some (MkRun (store b) (<[i := Applying ref p]> (jobs b)) (results b))
      end
  | Applying ref (Act f k) =>
      s ← store b !! ref;
      Some (MkRun (<[ref := f s]> (store b)) (<[i := Applying ref (k s)]> (jobs b)) (results b))
  | Applying ref (Ret r) =>
      Some (MkRun (store b) (<[i := Finished]> (jobs b)) (<[i := error_of (verdict r)]> (results b)))
  | Finished => None
  end.

(** The goroutines act in the order of a schedule. *)
Fixpoint schedule (header : Header.Header) (txs : list Transaction) (order : list nat) (b : batch_run) : option batch_run :=
  match order with
  | [] => Some b
  | i :: order => b ← act header txs i b; schedule header txs order b
  end.

(** [wg.Wait()]: every goroutine is done. *)
Definition all_done (b : batch_run) : bool :=
  forallb (λ j, match j with Finished => true | _ => false end) (jobs b).

(** The sender of a transaction whose run succeeded. *)
Definition sender_of_tx (tx : Transaction) : Address :=
  match types_Sender (latest_signer chainConfig) tx with Ok a => a | Err _ => 0 end.

(** What the last loop writes for a transaction that succeeded. *)
Definition write_back (tx : Transaction) (copy statedb : St) : St :=
  let sender := sender_of_tx tx in
  let statedb := bs_SetNonce statedb sender (bs_GetNonce copy sender) in
  let statedb := bs_SetBalance statedb sender (bs_GetBalance copy sender) in
  match Tx.To tx with
  | None => statedb
  | Some to =>
      let statedb := bs_SetCode statedb to (bs_GetCode copy to) in
      let statedb := bs_SetNonce statedb to (bs_GetNonce copy to) in
      bs_SetBalance statedb to (bs_GetBalance copy to)
  end.

(** A turn of the last loop, on the store: the transaction, its result, and the
    reference to its state. *)
Definition merge_turn (states : list St) (x : Transaction * (option run_error * nat)) : list St :=
  let '(tx, (res, ref)) := x in
  match res, states !! 0%nat, states !! ref with
  | None, Some statedb, Some copy => <[0%nat := write_back tx copy statedb]> states
  | _, _, _ => states
  end.

Definition merge_store (txs : list Transaction) (refs : list nat) (b : batch_run) : list St :=
  fold_left merge_turn (zip txs (zip (results b) refs)) (store b).

(** The batch without goroutines: every transaction runs on its copy, and its outcome
    is written back. *)
Definition outcomes (header : Header.Header) (txs : list Transaction) (statedb : St) : list (result run_error () * St) :=
  map (λ tx, run_tx header tx (bs_Copy statedb)) txs.

Definition merge_one (statedb : St) (x : Transaction * (result run_error () * St)) : St :=
  match x.2.1 with Ok _ => write_back x.1 x.2.2 statedb | Err _ => statedb end.

Definition executeParallelBatch (header : Header.Header) (txs : list Transaction) (statedb : St) : St :=
  fold_left merge_one (zip txs (outcomes header txs statedb)) statedb.

(** *** The sequential batch, and the whole *)

Definition executeSequentialBatch (header : Header.Header) (txs : list Transaction) (statedb : St) : St :=
  fold_left (λ st tx, (run_tx header tx st).2) txs statedb.

(** The state that is computed, and dropped: the method returns nothing.  [None]
    when there is nothing to do or no state. *)
Definition processBatch (chain : BlockChain St) (txs : list Transaction) : option St :=
  if len txs =? 0 then None
  else
    let parent := CurrentBlock chain in
    statedb ← StateAt chain (Header.Root parent);
    let parallelTxs := List.filter isParallelizable txs in
    let sequentialTxs := List.filter (λ tx, negb (isParallelizable tx)) txs in
    let statedb := if len parallelTxs >? 0 then executeParallelBatch parent parallelTxs statedb else statedb in
    Some (if len sequentialTxs >? 0 then executeSequentialBatch parent sequentialTxs statedb else statedb).

(** The limits that are kept, and not read. *)
Record gas_limits : Type := MkGasLimits { gasFloor : Z; gasCeil : Z }.

Definition SetGasLimits (floor ceil : Z) (_ : gas_limits) : gas_limits := MkGasLimits floor ceil.

(** The block is the head of the chain, and there is never a state with it. *)
Definition executor_Pending (chain : BlockChain St) : Header.Header * option St := (CurrentBlock chain, None).

(** *** The goroutines *)

Lemma act_step header txs i b b' : act header txs i b = Some b' → job_step header txs b b'.
Proof.
  unfold act. intros (tx & Hi & (j & Hj & Ha)%bind_Some)%bind_Some. destruct j as [ref|ref [r|f k]|]; [| | |done].
  - destruct (prepare header tx) as [p|err] eqn:Hp; injection Ha as <-; [by eapply job_begins|by eapply job_fails].
  - injection Ha as <-. by eapply job_ends.
  - apply bind_Some in Ha as (s & Hs & [= <-]). by eapply job_acts.
Qed.

Lemma schedule_steps header txs order b b' : schedule header txs order b = Some b' → nsteps (job_step header txs) (length order) b b'.
Proof.
  revert b. induction order as [|i order IH]; intros b; cbn; [intros [= ->]; constructor|].
  intros (b1 & H1' & H2')%bind_Some. eapply nsteps_l; [by eapply act_step|by apply IH].
Qed.

Lemma outcomes_lookup header txs statedb i tx :
  txs !! i = Some tx → outcomes header txs statedb !! i = Some (run_tx header tx (bs_Copy statedb)).
Proof. intros Hi. unfold outcomes. by rewrite list_lookup_fmap, Hi. Qed.

(** Where a goroutine is: at the start, with its copy; on the way, so that the rest of
    its program ends where the whole does; or at the end. *)
Definition job_at header statedb tx (i : nat) (j : job) (res : option run_error) (s : St) : Prop :=
  match j with
  | Fresh ref => ref = S i ∧ res = None ∧ s = bs_Copy statedb
  | Applying ref p => ref = S i ∧ res = None ∧ ∃ p0, prepare header tx = Ok p0 ∧ run_prog p s = run_prog p0 (bs_Copy statedb)
  | Finished => let out := run_tx header tx (bs_Copy statedb) in res = error_of out.1 ∧ s = out.2
  end.

Record run_ok header (txs : list Transaction) statedb (b : batch_run) : Prop := {
  ro_jobs : length (jobs b) = length txs;
  ro_first : store b !! 0%nat = Some statedb;
  ro_at i tx : txs !! i = Some tx → ∃ j res s,
    jobs b !! i = Some j ∧ results b !! i = Some res ∧ store b !! S i = Some s ∧ job_at header statedb tx i j res s
}.

Lemma start_ok header txs statedb : run_ok header txs statedb (start_batch txs statedb).
Proof.
  split; cbn; [by rewrite length_map, length_seq|done|]. intros i tx Hi. pose proof (lookup_lt_Some _ _ _ Hi).
  exists (Fresh (S i)), None, (bs_Copy statedb). split_and!; [| |change (stdpp.base.lookup i (map (λ _, bs_Copy statedb) txs) = Some (bs_Copy statedb))|done]; rewrite list_lookup_fmap; [by rewrite lookup_seq_lt|by rewrite Hi..].
Qed.

(** An action of the goroutine [i] that keeps it on its way, and leaves the states
    but its own. *)
Lemma run_ok_act header txs statedb b i j' res' s' :
  run_ok header txs statedb b → (i < length txs)%nat →
  (∀ tx, txs !! i = Some tx → job_at header statedb tx i j' res' s') →
  run_ok header txs statedb (MkRun (<[S i := s']> (store b)) (<[i := j']> (jobs b)) (<[i := res']> (results b))).
Proof.
  intros [Hl Hf Hat] Hi Hnew. split; cbn; [by rewrite length_insert|by rewrite list_lookup_insert_ne|]. intros k tx Hk.
  destruct (Hat k tx Hk) as (j & res & s & Hj & Hr & Hs & Hja). destruct (decide (k = i)) as [->|Hne].
  - exists j', res', s'. rewrite !list_lookup_insert_eq by (by eapply lookup_lt_Some). auto.
  - exists j, res, s. rewrite !list_lookup_insert_ne by lia. done.
Qed.

Lemma run_ok_same header txs statedb b i j' res s :
  run_ok header txs statedb b → store b !! S i = Some s → results b !! i = Some res → (i < length txs)%nat →
  (∀ tx, txs !! i = Some tx → job_at header statedb tx i j' res s) →
  run_ok header txs statedb (MkRun (store b) (<[i := j']> (jobs b)) (results b)).
Proof.
  intros Hok Hs Hr Hi Hnew. pose proof (run_ok_act header txs statedb b i j' res s Hok Hi Hnew) as Hact.
  by rewrite (list_insert_id _ _ _ Hs), (list_insert_id _ _ _ Hr) in Hact.
Qed.

Lemma run_ok_ends header txs statedb b i res' s :
  run_ok header txs statedb b → store b !! S i = Some s → (i < length txs)%nat →
  (∀ tx, txs !! i = Some tx → job_at header statedb tx i Finished res' s) →
  run_ok header txs statedb (MkRun (store b) (<[i := Finished]> (jobs b)) (<[i := res']> (results b))).
Proof.
  intros Hok Hs Hi Hnew. pose proof (run_ok_act header txs statedb b i Finished res' s Hok Hi Hnew) as Hact.
  by rewrite (list_insert_id _ _ _ Hs) in Hact.
Qed.

(** What is left of each goroutine, in actions. *)
Definition weight header (tx : Transaction) (js : job * St) : nat :=
  match js.1 with
  | Fresh _ => match prepare header tx with Err _ => 1 | Ok p => 2 + accesses p js.2 end
  | Applying _ p => 1 + accesses p js.2
  | Finished => 0
  end.

Definition work header (txs : list Transaction) (b : batch_run) : nat :=
  sum_list (zip_with (weight header) txs (zip (jobs b) (tail (store b)))).

Lemma sum_list_insert l i w : l !! i = Some (S w) → sum_list l = S (sum_list (<[i := w]> l)).
Proof. revert i. induction l as [|x l IH]; intros [|i] Hi; simpl in *; simplify_eq; [done|]. rewrite (IH i Hi). simpl. unfold sum_list in *. lia. Qed.

Lemma work_act header txs b i tx j s j' s' st' res' :
  txs !! i = Some tx → jobs b !! i = Some j → store b !! S i = Some s → tail st' = <[i := s']> (tail (store b)) →
  weight header tx (j, s) = S (weight header tx (j', s')) →
  work header txs b = S (work header txs (MkRun st' (<[i := j']> (jobs b)) res')).
Proof.
  intros Hi Hj Hs Ht Hw. unfold work. cbn [jobs store]. rewrite Ht, (sum_list_insert _ i (weight header tx (j', s'))).
  - do 2 f_equal. rewrite (insert_zip_with (weight header) _ _ i tx (j', s')), (list_insert_id _ _ _ Hi). f_equal. apply insert_zip_with.
  - rewrite lookup_zip_with, Hi. cbn. rewrite lookup_zip_with, Hj. cbn. assert (tail (store b) !! i = Some s) as -> by (by destruct (store b)).
    cbn. by rewrite Hw.
Qed.

Lemma tail_insert {A} (l : list A) i x : tail (<[S i := x]> l) = <[i := x]> (tail l).
Proof. by destruct l. Qed.

Lemma job_step_ok header txs statedb b b' :
  run_ok header txs statedb b → job_step header txs b b' → run_ok header txs statedb b' ∧ work header txs b = S (work header txs b').
Proof.
  intros Hok Hs. pose proof Hok as [Hl Hf Hat].
  destruct Hs as [i tx ref err b Hi Hj Hp|i tx ref p b Hi Hj Hp|i ref f k s0 b Hj Hs0|i ref r b Hj].
  - destruct (Hat i tx Hi) as (j & res & s & Hj' & Hr & Hs & Hja). rewrite Hj in Hj'. injection Hj' as <-. destruct Hja as (-> & -> & ->).
    pose proof (lookup_lt_Some _ _ _ Hi). split.
    + apply (run_ok_ends _ _ _ _ _ _ (bs_Copy statedb)); [done..|]. intros t Ht. rewrite Hi in Ht. injection Ht as <-. unfold job_at, run_tx. by rewrite Hp.
    + eapply work_act; [done|done|done|by rewrite list_insert_id by (by destruct (store b))|]. unfold weight. cbn. by rewrite Hp.
  - destruct (Hat i tx Hi) as (j & res & s & Hj' & Hr & Hs & Hja). rewrite Hj in Hj'. injection Hj' as <-. destruct Hja as (-> & -> & ->).
    pose proof (lookup_lt_Some _ _ _ Hi). split.
    + apply (run_ok_same _ _ _ _ _ _ None (bs_Copy statedb)); [done..|]. intros t Ht. rewrite Hi in Ht. injection Ht as <-. split_and!; [done|done|by exists p].
    + eapply work_act; [done|done|done|by rewrite list_insert_id by (by destruct (store b))|]. unfold weight. cbn. by rewrite Hp.
  - pose proof (lookup_lt_Some _ _ _ Hj) as Hlt. destruct (lookup_lt_is_Some_2 txs i) as [tx Hi]; [lia|].
    destruct (Hat i tx Hi) as (j & res & s & Hj' & Hr & Hs & Hja). rewrite Hj in Hj'. injection Hj' as <-. destruct Hja as (-> & -> & p0 & Hp & Hrun).
    rewrite Hs in Hs0. injection Hs0 as <-. split.
    + pose proof (run_ok_act header txs statedb b i (Applying (S i) (k s)) None (f s) Hok ltac:(lia)) as Hact.
      rewrite (list_insert_id _ _ _ Hr) in Hact. apply Hact. intros t Ht. rewrite Hi in Ht. injection Ht as <-. split_and!; [done|done|by exists p0].
    + eapply work_act; [done|done|done|apply tail_insert|]. done.
  - pose proof (lookup_lt_Some _ _ _ Hj) as Hlt. destruct (lookup_lt_is_Some_2 txs i) as [tx Hi]; [lia|].
    destruct (Hat i tx Hi) as (j & res & s & Hj' & Hr & Hs & Hja). rewrite Hj in Hj'. injection Hj' as <-. destruct Hja as (-> & -> & p0 & Hp & Hrun).
    split.
    + apply (run_ok_ends _ _ _ _ _ _ s); [done|done|lia|]. intros t Ht. rewrite Hi in Ht. injection Ht as <-.
      unfold job_at, run_tx. rewrite Hp, <- Hrun. done.
    + eapply work_act; [done|done|done|by rewrite list_insert_id by (by destruct (store b))|]. done.
Qed.

Lemma run_jobs header txs statedb n b :
  nsteps (job_step header txs) n (start_batch txs statedb) b →
  run_ok header txs statedb b ∧ (n + work header txs b = work header txs (start_batch txs statedb))%nat.
Proof.
  pose proof (start_ok header txs statedb) as H0'. revert H0'. generalize (start_batch txs statedb). intros b0 Hok Hn. revert Hok.
  induction Hn as [b0|n b0 b1 b2 Hs Hn IH]; intros Hok; [done|]. destruct (job_step_ok _ _ _ _ _ Hok Hs) as [Hok1 Hw].
  destruct (IH Hok1) as [Hok2 Hc]. split; [done|]. lia.
Qed.

(** While some goroutine is not done, one can act. *)
Lemma not_done_steps header txs statedb b : run_ok header txs statedb b → all_done b = false → ∃ b', job_step header txs b b'.
Proof.
  intros [Hl Hf Hat] Hd. assert (∃ i j, jobs b !! i = Some j ∧ j ≠ Finished) as (i & j & Hj & Hne).
  { clear Hl Hf Hat. unfold all_done in Hd. induction (jobs b) as [|j l IH]; [done|]. destruct j; [by eexists 0%nat, _|by eexists 0%nat, _|].
    destruct (IH Hd) as (i & j' & Hi & Hn). by exists (S i), j'. }
  pose proof (lookup_lt_Some _ _ _ Hj). destruct (lookup_lt_is_Some_2 txs i) as [tx Hi]; [lia|].
  destruct (Hat i tx Hi) as (j' & res & s & Hj' & Hr & Hs & Hja). rewrite Hj in Hj'. injection Hj' as <-.
  destruct j as [ref|ref p|]; [|destruct Hja as (-> & _); destruct p as [r|f k]|done].
  - destruct (prepare header tx) as [p|err] eqn:Hp; eexists; [by eapply job_begins|by eapply job_fails].
  - eexists. by eapply job_ends.
  - eexists. by eapply job_acts.
Qed.

(** The last loop on the store, when the copies and the results are there. *)
Lemma merge_turns txs outs k cells statedb :
  length outs = length txs → (∀ i out, outs !! i = Some out → cells !! (k + i)%nat = Some out.2) →
  fold_left merge_turn (zip txs (zip (map (λ out, error_of out.1) outs) (seq (S k) (length txs)))) (statedb :: cells) =
  fold_left merge_one (zip txs outs) statedb :: cells.
Proof.
  revert outs k statedb. induction txs as [|tx txs IH]; intros [|[r c] outs] k statedb Hl Hc; try done.
  injection Hl as Hl. cbn [map length seq zip zip_with fold_left]. pose proof (Hc 0%nat _ eq_refl) as H0'. rewrite Nat.add_0_r in H0'. cbn in H0'.
  assert (Hturn : merge_turn (statedb :: cells) (tx, (error_of r, S k)) = merge_one statedb (tx, (r, c)) :: cells).
  { unfold merge_turn, merge_one. change ((statedb :: cells) !! S k) with (cells !! k). rewrite H0'. by destruct r. }
  cbn [fst]. rewrite Hturn. apply IH; [done|]. intros i out Hi. replace (S k + i)%nat with (k + S i)%nat by lia. by apply Hc.
Qed.

Lemma done_merges header txs statedb b :
  run_ok header txs statedb b → all_done b = true → length (results b) = length txs →
  merge_store txs (stateCopies txs statedb).2 b !! 0%nat = Some (executeParallelBatch header txs statedb).
Proof.
  intros [Hl Hf Hat] Hd Hlr. unfold merge_store. cbn [stateCopies snd].
  assert (Hfin : ∀ i out, outcomes header txs statedb !! i = Some out → results b !! i = Some (error_of out.1) ∧ store b !! S i = Some out.2).
  { intros i out Hi. unfold outcomes in Hi. rewrite list_lookup_fmap in Hi. apply fmap_Some in Hi as (tx & Hi & ->).
    destruct (Hat i tx Hi) as (j & res & s & Hj & Hr & Hs & Hja). unfold all_done in Hd. rewrite forallb_forall in Hd.
    specialize (Hd j ltac:(by eapply list_elem_of_In, list_elem_of_lookup_2)). destruct j; try done. destruct Hja as [-> ->]. done. }
  assert (Hres : results b = map (λ out, error_of out.1) (outcomes header txs statedb)).
  { apply list_eq. intros i. rewrite list_lookup_fmap. destruct (outcomes header txs statedb !! i) as [out|] eqn:Ho; [by apply Hfin|].
    apply lookup_ge_None in Ho. unfold outcomes in Ho. rewrite length_map in Ho. apply lookup_ge_None. lia. }
  destruct (store b) as [|s0 cells] eqn:Hst; [done|]. injection Hf as ->. rewrite Hres, merge_turns; [done|apply length_map|].
  intros i out Hi. by apply Hfin in Hi as [_ Hi].
Qed.

Lemma job_step_results header txs b b' : job_step header txs b b' → length (results b') = length (results b).
Proof. by destruct 1; cbn; rewrite ?length_insert. Qed.

Lemma run_results header txs statedb n b : nsteps (job_step header txs) n (start_batch txs statedb) b → length (results b) = length txs.
Proof.
  assert (Hlen : length (results (start_batch txs statedb)) = length txs) by apply length_map. revert Hlen. generalize (start_batch txs statedb).
  intros b0 Hlen Hn. revert Hlen. induction Hn as [|n b0 b1 b2 Hs Hn IH]; intros Hlen; [done|]. apply IH. by rewrite (job_step_results _ _ _ _ Hs).
Qed.

(** *** What the last loop writes *)

Context `{!BatchStateLaws St}.

(** The copies of the successful transactions that the loop reads for an account. *)
Definition copy_of (P : Transaction → bool) (x : Transaction * (result run_error () * St)) : option St :=
  match x.2.1 with Ok _ => if P x.1 then Some x.2.2 else None | Err _ => None end.

Definition calls (a : Address) (tx : Transaction) : bool := bool_decide (Tx.To tx = Some a).
Definition concerns (a : Address) (tx : Transaction) : bool := bool_decide (sender_of_tx tx = a) || calls a tx.

Lemma merge_one_view statedb x a :
  view (merge_one statedb x) a = MkAccount
    (match copy_of (concerns a) x with Some c => bs_GetNonce c a | None => bs_GetNonce statedb a end)
    (match copy_of (concerns a) x with Some c => bs_GetBalance c a | None => bs_GetBalance statedb a end)
    (match copy_of (calls a) x with Some c => bs_GetCode c a | None => bs_GetCode statedb a end).
Proof.
  unfold merge_one, write_back, copy_of, concerns, calls. destruct x as [tx [[[]|e] c]]; cbn [fst snd]; [|done].
  destruct (Tx.To tx) as [to|] eqn:Hto.
  - rewrite view_SetBalance, view_SetNonce, view_SetCode, view_SetBalance, view_SetNonce.
    repeat case_bool_decide; repeat case_decide; subst; simplify_eq; cbn; try done; congruence.
  - rewrite view_SetBalance, view_SetNonce. repeat case_bool_decide; repeat case_decide; subst; simplify_eq; cbn; done.
Qed.

Lemma last_omap_snoc {A B} (f : A → option B) l x : last (omap f (l ++ [x])) = match f x with Some b => Some b | None => last (omap f l) end.
Proof. rewrite omap_app. cbn. destruct (f x); cbn; [by rewrite last_snoc|by rewrite app_nil_r]. Qed.

Lemma merge_view (l : list (Transaction * (result run_error () * St))) statedb a :
  view (fold_left merge_one l statedb) a = MkAccount
    (match last (omap (copy_of (concerns a)) l) with Some c => bs_GetNonce c a | None => bs_GetNonce statedb a end)
    (match last (omap (copy_of (concerns a)) l) with Some c => bs_GetBalance c a | None => bs_GetBalance statedb a end)
    (match last (omap (copy_of (calls a)) l) with Some c => bs_GetCode c a | None => bs_GetCode statedb a end).
Proof.
  induction l as [|x l IH] using rev_ind; [done|]. rewrite fold_left_app. cbn [fold_left]. rewrite merge_one_view, !last_omap_snoc.
  injection IH as Hn Hb Hc. by repeat case_match; simplify_eq; rewrite ?Hn, ?Hb, ?Hc.
Qed.

(** *** Transactions that are independent *)

(** The accounts that a transaction names. *)
Definition names (tx : Transaction) : list Address :=
  sender_of_tx tx :: match Tx.To tx with Some to => [to] | None => [] end.

Lemma names_concerns a tx : a ∈ names tx ↔ concerns a tx = true.
Proof.
  unfold names, concerns, calls. rewrite orb_true_iff, !bool_decide_eq_true, elem_of_cons. destruct (Tx.To tx) as [to|].
  - rewrite list_elem_of_singleton. split; intros [?|?]; simplify_eq; auto.
  - rewrite elem_of_nil. split; intros [?|?]; simplify_eq; auto. done.
Qed.

(** A transaction that reads and writes only the accounts that it names: whether it
    succeeds or not, nothing changes elsewhere, and its run is the same on states that
    agree about those accounts. *)
Record local (header : Header.Header) (tx : Transaction) : Prop := {
  lc_elsewhere s a : a ∉ names tx → view (run_tx header tx s).2 a = view s a;
  lc_same s t : (∀ a, a ∈ names tx → view t a = view s a) →
    (run_tx header tx t).1 = (run_tx header tx s).1 ∧ ∀ a, a ∈ names tx → view (run_tx header tx t).2 a = view (run_tx header tx s).2 a
}.

Abbreviation apart txs := (ForallOrdPairs (λ t u, ∀ a, a ∈ names t → a ∉ names u) txs).

(** In order, each account ends as the run of the one transaction that names it leaves it. *)
Lemma sequential_named header txs statedb s :
  (∀ tx, tx ∈ txs → local header tx) → apart txs → (∀ tx a, tx ∈ txs → a ∈ names tx → view s a = view statedb a) →
  (∀ tx a, tx ∈ txs → a ∈ names tx → view (executeSequentialBatch header txs s) a = view (run_tx header tx statedb).2 a) ∧
  (∀ a, (∀ tx, tx ∈ txs → a ∉ names tx) → view (executeSequentialBatch header txs s) a = view s a).
Proof.
  intros Hl Hd. revert s. induction Hd as [|t txs Hx Hd IH]; intros s Hv; [split; [by intros tx a ?%elem_of_nil|done]|].
  rewrite Forall_forall in Hx. pose proof (Hl t ltac:(by left)) as Hlt.
  destruct (IH ltac:(intros; apply Hl; by right) (run_tx header t s).2) as [Hin Hout].
  { intros u a Hu Ha. rewrite (lc_elsewhere _ _ Hlt); [by apply (Hv u); [right|]|]. intros Hat. by apply (Hx u Hu a). }
  unfold executeSequentialBatch in *. cbn [fold_left]. split.
  - intros u a [->|Hu]%elem_of_cons Ha; [|by apply Hin]. rewrite Hout by (intros u Hu; by apply (Hx u Hu a)).
    apply (lc_same _ _ Hlt); [|done]. intros b Hb. apply (Hv t); [by left|done].
  - intros a Ha. rewrite Hout by (intros u Hu; apply Ha; by right). apply (lc_elsewhere _ _ Hlt), Ha. by left.
Qed.

(** What the parallel batch leaves of an account that a transaction names. *)
Definition written (tx : Transaction) (before : St) (out : result run_error () * St) (a : Address) : account :=
  match out.1 with
  | Err _ => view before a
  | Ok _ => MkAccount (acc_nonce (view out.2 a)) (acc_balance (view out.2 a)) (if calls a tx then acc_code (view out.2 a) else acc_code (view before a))
  end.

Lemma merge_one_written header tx statedb s a :
  local header tx → view s a = view statedb a → a ∈ names tx →
  view (merge_one s (tx, run_tx header tx (bs_Copy statedb))) a = written tx statedb (run_tx header tx statedb) a.
Proof.
  intros Hl Hs Ha. destruct (lc_same _ _ Hl statedb (bs_Copy statedb)) as [Hr Hv]; [intros b _; by rewrite view_Copy|]. specialize (Hv a Ha).
  rewrite merge_one_view. unfold copy_of, written. cbn [fst snd]. rewrite Hr, <- Hv. destruct (run_tx header tx statedb).1; [|exact Hs].
  rewrite (proj1 (names_concerns a tx) Ha). f_equal. destruct (calls a tx); [done|]. by injection Hs.
Qed.

Lemma merge_one_elsewhere s x a : a ∉ names x.1 → view (merge_one s x) a = view s a.
Proof.
  intros Ha. rewrite merge_one_view. unfold copy_of. destruct (concerns a x.1) eqn:Hc; [by apply names_concerns in Hc|].
  unfold concerns in Hc. apply orb_false_iff in Hc as [_ ->]. by destruct x.2.1.
Qed.

Lemma parallel_named header txs statedb s :
  (∀ tx, tx ∈ txs → local header tx) → apart txs → (∀ tx a, tx ∈ txs → a ∈ names tx → view s a = view statedb a) →
  let s' := fold_left merge_one (zip txs (outcomes header txs statedb)) s in
  (∀ tx a, tx ∈ txs → a ∈ names tx → view s' a = written tx statedb (run_tx header tx statedb) a) ∧
  (∀ a, (∀ tx, tx ∈ txs → a ∉ names tx) → view s' a = view s a).
Proof.
  intros Hl Hd. revert s. induction Hd as [|t txs Hx Hd IH]; intros s Hv; [split; [by intros tx a ?%elem_of_nil|done]|].
  rewrite Forall_forall in Hx. set (s1 := merge_one s (t, run_tx header t (bs_Copy statedb))).
  destruct (IH ltac:(intros; apply Hl; by right) s1) as [Hin Hout].
  { intros u a Hu Ha. unfold s1. rewrite merge_one_elsewhere; [by apply (Hv u); [right|]|]. intros Hat. by apply (Hx u Hu a). }
  unfold outcomes in *. cbn [map zip zip_with fold_left]. fold s1. split.
  - intros u a [->|Hu]%elem_of_cons Ha; [|by apply Hin]. rewrite Hout by (intros u Hu; by apply (Hx u Hu a)).
    apply merge_one_written; [apply Hl; by left|apply (Hv t); [by left|done]|done].
  - intros a Ha. rewrite Hout by (intros u Hu; apply Ha; by right). apply merge_one_elsewhere, Ha. by left.
Qed.
End Executor.

(** ** What the executor promises *)

(** C26: the goroutines of a parallel batch cannot disturb each other, because each has
    a state of its own in the store.  Their accesses may interleave in any way: no
    goroutine is ever stuck, together they make at most so many actions as the runs of
    the transactions on copies of the state have, nobody writes to the state that the
    copies were made of, and when all are done what the last loop makes of the store
    is what [executeParallelBatch] computes without goroutines. *)
Theorem batch_schedule_irrelevant {St} `{BatchState St, Messages St, Sending} cfg header txs (statedb : St) n (b : batch_run) :
  nsteps (job_step cfg header txs) n (start_batch txs statedb) b →
  (n <= work cfg header txs (start_batch txs statedb))%nat ∧ store b !! 0%nat = Some statedb ∧
  if all_done b then merge_store cfg txs (stateCopies txs statedb).2 b !! 0%nat = Some (executeParallelBatch cfg header txs statedb)
  else ∃ b', job_step cfg header txs b b'.
Proof.
  intros Hn. pose proof (run_results _ _ _ _ _ _ Hn) as Hr. apply run_jobs in Hn as [Hok Hc]. split; [lia|]. split; [apply Hok|].
  destruct (all_done b) eqn:Hd; [by apply (done_merges cfg header)|by eapply not_done_steps].
Qed.

(** The last writer wins.  After a parallel batch the nonce and the balance of an
    account are those of the copy of the last successful transaction that has the
    account as sender or recipient, its code that of the last that has it as
    recipient; every other account, the miner's included, is as before. *)
Theorem merge_last_writer {St} `{BatchState St, Messages St, Sending, !BatchStateLaws St} cfg header txs (statedb : St) a :
  let runs := zip txs (outcomes cfg header txs statedb) in
  view (executeParallelBatch cfg header txs statedb) a = MkAccount
    (match last (omap (copy_of (concerns cfg a)) runs) with Some c => bs_GetNonce c a | None => bs_GetNonce statedb a end)
    (match last (omap (copy_of (concerns cfg a)) runs) with Some c => bs_GetBalance c a | None => bs_GetBalance statedb a end)
    (match last (omap (copy_of (calls a)) runs) with Some c => bs_GetCode c a | None => bs_GetCode statedb a end).
Proof. exact (merge_view cfg (zip txs (outcomes cfg header txs statedb)) statedb a). Qed.


(** A transaction that succeeds on a state and pays its recipient. *)
Definition pays {St} `{BatchState St, Messages St, Sending} cfg header tx to (v : Z) (s : St) : Prop :=
  (run_tx cfg header tx s).1 = Ok tt ∧ acc_balance (view (run_tx cfg header tx s).2 to) = acc_balance (view s to) + v.

Lemma pays_intro {St} `{BatchState St, Messages St, Sending} cfg header tx to v (s : St) :
  is_ok (run_tx cfg header tx s).1 = true → acc_balance (view (run_tx cfg header tx s).2 to) = acc_balance (view s to) + v → pays cfg header tx to v s.
Proof. intros Hr Hb. split; [|done]. by destruct (run_tx cfg header tx s) as [[[]|e] t]. Qed.

(** C10: two payments to one account: the first is lost.  When the runs that are made
    succeed and add their amount to the recipient (of both transactions on copies of the
    state; of the first on the state and of the second on what the first leaves), the
    parallel batch leaves the recipient with the second amount only, where the
    sequential batch leaves both; the first sender has paid all the same. *)
Theorem shared_recipient_loses_payment {St} `{BatchState St, Messages St, Sending, !BatchStateLaws St} cfg header t1 t2 to v1 v2 (statedb : St) :
  Tx.To t1 = Some to → Tx.To t2 = Some to → sender_of_tx cfg t1 ≠ to → sender_of_tx cfg t1 ≠ sender_of_tx cfg t2 →
  pays cfg header t1 to v1 (bs_Copy statedb) → pays cfg header t2 to v2 (bs_Copy statedb) →
  pays cfg header t1 to v1 statedb → pays cfg header t2 to v2 (run_tx cfg header t1 statedb).2 →
  acc_balance (view (executeParallelBatch cfg header [t1; t2] statedb) to) = acc_balance (view statedb to) + v2 ∧
  acc_balance (view (executeSequentialBatch cfg header [t1; t2] statedb) to) = acc_balance (view statedb to) + v1 + v2 ∧
  acc_balance (view (executeParallelBatch cfg header [t1; t2] statedb) (sender_of_tx cfg t1)) =
    acc_balance (view (run_tx cfg header t1 (bs_Copy statedb)).2 (sender_of_tx cfg t1)).
Proof.
  intros Ht1 Ht2 Hs Hne [Ha _] [Hb Hpay] [_ Hs1] [_ Hs2]. split_and!.
  - rewrite (merge_last_writer cfg header [t1; t2] statedb to). unfold outcomes, copy_of, concerns, calls. cbn [map zip zip_with omap list_omap fst snd].
    rewrite Ha, Hb, Ht1, Ht2, (bool_decide_true (Some to = Some to)), !orb_true_r by done. cbn.
    unfold view in Hpay. cbn in Hpay. rewrite Hpay. f_equal. by pose proof (f_equal acc_balance (view_Copy statedb to)).
  - unfold executeSequentialBatch. cbn [fold_left]. rewrite Hs2, Hs1. lia.
  - rewrite (merge_last_writer cfg header [t1; t2] statedb). unfold outcomes, copy_of, concerns, calls. cbn [map zip zip_with omap list_omap fst snd].
    rewrite Ha, Hb, Ht1, Ht2, (bool_decide_true (sender_of_tx cfg t1 = _)), (bool_decide_false (sender_of_tx cfg t2 = _)),
      (bool_decide_false (Some to = _)) by congruence. done.
Qed.

(** ** Transfers between tables *)

Module Transfers.
#[export] Instance table_state : BatchState map_vm := {|
  bs_Copy s := s;
  bs_GetNonce s a := default 0 (vm_nonces s !! a);
  bs_GetBalance s a := default 0 (vm_balances s !! a);
  bs_GetCode s a := default [] (vm_codes s !! a);
  bs_SetNonce s a n := MkMapVM (vm_balances s) (<[a := n]> (vm_nonces s)) (vm_codes s) (vm_refund s) (vm_warm s);
  bs_SetBalance s a x := MkMapVM (<[a := x]> (vm_balances s)) (vm_nonces s) (vm_codes s) (vm_refund s) (vm_warm s);
  bs_SetCode s a c := MkMapVM (vm_balances s) (vm_nonces s) (<[a := c]> (vm_codes s)) (vm_refund s) (vm_warm s)
|}.

#[export] Instance table_laws : BatchStateLaws map_vm.
Proof.
  split; [done|..]; intros s a x b; unfold view; cbn; (destruct (decide (b = a)) as [->|Hne]; [by rewrite lookup_insert_eq|by rewrite lookup_insert_ne]).
Qed.

(** The sender is the field V; a message is its transaction, and moves its value. *)
#[export] Instance by_v : Sending := λ _ tx, match inner tx with TLegacy t => Ok (LegacyTx.V t) | _ => Err ErrInvalidSig end.

(** The gas costs 1; a message whose sender cannot pay the value fails after it has
    bought the gas. *)
Definition transfer (sender : Address) (tx : Transaction) : prog map_vm (result () ()) :=
  match Tx.To tx with
  | None => Ret (Err tt)
  | Some to =>
      Act (λ s, s) (λ s,
        if negb (bs_GetNonce s sender =? Tx.Nonce tx) || (bs_GetBalance s sender <? 1) then Ret (Err tt)
        else
          Act (λ s, bs_SetBalance s sender (bs_GetBalance s sender - 1)) (λ s,
            if bs_GetBalance s sender - 1 <? Tx.Value tx then Ret (Err tt)
            else
              Act (λ s, bs_SetNonce s sender (Tx.Nonce tx + 1)) (λ _,
                Act (λ s, bs_SetBalance s sender (bs_GetBalance s sender - Tx.Value tx)) (λ _,
                  Act (λ s, bs_SetBalance s to (bs_GetBalance s to + Tx.Value tx)) (λ _, Ret (Ok tt))))))
  end.

#[export] Instance transfers : Messages map_vm := {|
  Msg := Transaction;
  exec_error := ();
  AsMessage tx _ _ := Ok tx;
  ApplyMsg _ sender tx _ := transfer sender tx
|}.

Definition pay (from to nonce value : Z) : Transaction := MkTx (TLegacy (LegacyTx.mk nonce 1 21000 (Some to) value [] from 0 0)) (100 * from + nonce) 0 0.

Definition cfg : ChainConfig := Config.mainnet_like.
Definition header : Header.Header := header_at 10 30000000 0 0 None None None.
Definition state : map_vm := MkMapVM {[ 1 := 100; 2 := 100 ]} ∅ ∅ 0 ∅.

(** What a payment does, by what its sender has. *)
Lemma pay_view from to nonce value s :
  from ≠ to →
  let v := view s from in
  let bad := negb (acc_nonce v =? nonce) || (acc_balance v <? 1) in
  let short := acc_balance v - 1 <? value in
  (run_tx cfg header (pay from to nonce value) s).1 = (if bad || short then Err (RunExec tt) else Ok tt) ∧
  ∀ a, view (run_tx cfg header (pay from to nonce value) s).2 a =
    if bad then view s a
    else if short then (if decide (a = from) then MkAccount (acc_nonce v) (acc_balance v - 1) (acc_code v) else view s a)
    else if decide (a = from) then MkAccount (nonce + 1) (acc_balance v - 1 - value) (acc_code v)
    else if decide (a = to) then MkAccount (acc_nonce (view s a)) (acc_balance (view s a) + value) (acc_code (view s a)) else view s a.
Proof.
  intros Hne. unfold run_tx, prepare. cbn [types_Sender by_v pay inner LegacyTx.V AsMessage ApplyMsg transfers]. unfold transfer.
  cbn [Tx.To pay inner LegacyTx.To run_prog Tx.Nonce LegacyTx.Nonce Tx.Value LegacyTx.Value]. unfold view. cbn.
  destruct (negb _ || _); cbn; [done|]. destruct (_ - 1 <? value); cbn.
  - split; [done|]. intros a. rewrite lookup_insert. repeat case_decide; subst; done.
  - split; [done|]. intros a. rewrite !lookup_insert. repeat case_decide; subst; try done; congruence.
Qed.

Lemma pay_local from to nonce value : from ≠ to → local cfg header (pay from to nonce value).
Proof.
  intros Hne.
  assert (Hnames : ∀ a, a ∈ names cfg (pay from to nonce value) ↔ a = from ∨ a = to).
  { intros a. unfold names. cbn. rewrite !elem_of_cons, elem_of_nil. naive_solver. }
  split.
  - intros s b Hb. rewrite Hnames in Hb. destruct (pay_view from to nonce value s Hne) as [_ ->].
    destruct (_ || _); [done|]. rewrite !(decide_False (P := b = from)) by naive_solver. rewrite decide_False by naive_solver. by destruct (_ <? _).
  - intros s t Hv. assert (Hf : view t from = view s from) by (apply Hv, Hnames; by left).
    destruct (pay_view from to nonce value s Hne) as [Hrs Hvs], (pay_view from to nonce value t Hne) as [Hrt Hvt].
    rewrite Hf in Hrt. split; [by rewrite Hrt, Hrs|]. intros b Hb. by rewrite Hvt, Hvs, Hf, (Hv b Hb).
Qed.
End Transfers.

Section Witnesses.
Import Transfers.

Definition two_payments : list Transaction := [pay 1 3 0 5; pay 2 4 0 7].

(** The goroutines take turns, action by action. *)
Definition ex_schedule : list nat := concat (replicate 7 [0%nat; 1%nat]).
Definition ex_end : option batch_run := schedule cfg header two_payments ex_schedule (start_batch two_payments state).

Lemma batch_schedule_irrelevant_witness :
  ∃ b, ex_end = Some b ∧ all_done b = true ∧
    ∃ s, merge_store cfg two_payments (stateCopies two_payments state).2 b !! 0%nat = Some s ∧ s = executeParallelBatch cfg header two_payments state ∧
      map (λ a, acc_balance (view s a)) [1; 2; 3; 4] = [94; 92; 5; 7].
Proof.
  assert (Hd : (all_done <$> ex_end) = Some true) by (vm_compute; reflexivity).
  destruct ex_end as [b|] eqn:Hb; [|discriminate]. exists b. split; [reflexivity|]. injection Hd as Hd. split; [exact Hd|].
  pose proof (schedule_steps cfg header two_payments ex_schedule _ b Hb) as Hn.
  destruct (batch_schedule_irrelevant cfg header two_payments state 14 b Hn) as (_ & _ & Hfin). rewrite Hd in Hfin.
  eexists. split; [exact Hfin|]. split; [reflexivity|]. vm_compute. reflexivity.
Defined.


Lemma shared_recipient_loses_payment_witness :
  let txs := [pay 1 3 0 5; pay 2 3 0 7] in
  acc_balance (view (executeParallelBatch cfg header txs state) 3) = 7 ∧ acc_balance (view (executeSequentialBatch cfg header txs state) 3) = 12 ∧
  acc_balance (view (executeParallelBatch cfg header txs state) 1) = 94.
Proof.
  intros txs.
  assert (Hne : sender_of_tx cfg (pay 1 3 0 5) ≠ 3) by (vm_compute; discriminate).
  assert (Hne' : sender_of_tx cfg (pay 1 3 0 5) ≠ sender_of_tx cfg (pay 2 3 0 7)) by (vm_compute; discriminate).
  destruct (shared_recipient_loses_payment cfg header (pay 1 3 0 5) (pay 2 3 0 7) 3 5 7 state eq_refl eq_refl Hne Hne') as (Hp & Hs & Hf);
    [apply pays_intro; vm_compute; reflexivity..|].
  split; [exact Hp|]. split; [exact Hs|]. etransitivity; [exact Hf|]. vm_compute. reflexivity.
Defined.
End Witnesses.
