(* ===== verification/MinerOrdering.v ===== *)
(** * The order in which a miner takes transactions

    parallelizable-client-go-ethereum/miner/ordering.go: [transactionsByPriceAndNonce],
    the pending transactions of the accounts with a heap of the first of each, by
    what they pay and then by age.  The set stands for a map of slices, of which the
    first that pays best is next: every method is a function of that map. *)

From S2P Require Import Prelude GoSort GoHeap TxTypes LegacyList BlockFees TxValidation TxPool.
Open Scope eigen_scope.

Record txWithMinerFee : Type := MkFee {
  fee_tx : LazyTransaction;
  fee_from : Address;
  fees : Z
}.

(** What a transaction pays the miner; [None] when it does not reach the base fee. *)
Definition newTxWithMinerFee (tx : LazyTransaction) (from : Address) (baseFee : option Z) : option txWithMinerFee :=
  match baseFee with
  | None => Some (MkFee tx from (lazy_GasTipCap tx))
  | Some baseFee =>
      if Cmp (lazy_GasFeeCap tx) baseFee <? 0 then None
      else
        let tip := wrap256 (lazy_GasFeeCap tx - baseFee) in
        Some (MkFee tx from (if tip >? lazy_GasTipCap tx then lazy_GasTipCap tx else tip))
  end.

(** [txByPriceAndTime.Less] *)
Definition price_less (a b : txWithMinerFee) : bool :=
  let cmp := Cmp (fees a) (fees b) in
  if cmp =? 0 then lazy_Time (fee_tx a) <? lazy_Time (fee_tx b) else cmp >? 0.

(** The signer is not used. *)
Record transactionsByPriceAndNonce : Type := MkByPrice {
  bp_txs : gmap Address (list LazyTransaction);
  heads : list txWithMinerFee;
  baseFee : option Z
}.

(** The loop over the accounts; a slice without transactions panics. *)
Fixpoint wrap_heads (baseFee : option Z) (entries : list (Address * list LazyTransaction))
    (txs : gmap Address (list LazyTransaction)) (heads : list txWithMinerFee)
    : option (gmap Address (list LazyTransaction) * list txWithMinerFee) :=
  match entries with
  | [] => Some (txs, heads)
  | (from, accTxs) :: entries =>
      match accTxs with
      | [] => None
      | tx :: rest =>
          match newTxWithMinerFee tx from baseFee with
          | None => wrap_heads baseFee entries (delete from txs) heads
          | Some wrapped => wrap_heads baseFee entries (<[from := rest]> txs) (heads ++ [wrapped])
          end
      end
  end.

Definition newTransactionsByPriceAndNonce `{MapRange} (txs : gmap Address (list LazyTransaction)) (fee : option Z)
    : option transactionsByPriceAndNonce :=
  baseFee ← match fee with None => Some None | Some fee => Some <$> MustFromBig fee end;
  '(txs, heads) ← wrap_heads baseFee (map_range txs) txs [];
  Some (MkByPrice txs (Init price_less heads) baseFee).

Definition Peek (t : transactionsByPriceAndNonce) : option (LazyTransaction * Z) :=
  h ← head (heads t); Some (fee_tx h, fees h).

(** [heap.Pop(&t.heads)]; on an empty heap it panics. *)
Definition Pop (t : transactionsByPriceAndNonce) : option transactionsByPriceAndNonce :=
  '(_, hs) ← GoHeap.Pop price_less (heads t); Some (MkByPrice (bp_txs t) hs (baseFee t)).

Definition Shift (t : transactionsByPriceAndNonce) : option transactionsByPriceAndNonce :=
  match heads t with
  | [] => None
  | h :: hs =>
      let acc := fee_from h in
      match bp_txs t !! acc with
      | Some (tx :: rest) =>
          match newTxWithMinerFee tx acc (baseFee t) with
          | Some wrapped => Some (MkByPrice (<[acc := rest]> (bp_txs t)) (heap_Fix price_less (wrapped :: hs) 0) (baseFee t))
          | None => Pop t
          end
      | _ => Pop t
      end
  end.

Definition Empty (t : transactionsByPriceAndNonce) : bool := bool_decide (heads t = []).

Definition Clear (t : transactionsByPriceAndNonce) : transactionsByPriceAndNonce := MkByPrice ∅ [] (baseFee t).

(** ** The map of slices it stands for *)

Lemma price_less_spec a b :
  price_less a b = true ↔ fees b < fees a ∨ fees a = fees b ∧ lazy_Time (fee_tx a) < lazy_Time (fee_tx b).
Proof.
  unfold price_less. destruct (Z.eqb_spec (Cmp (fees a) (fees b)) 0) as [->%Cmp_zero|Hne].
  - rewrite Z.ltb_lt. lia.
  - rewrite Z.gtb_ltb, Cmp_gtb, Z.ltb_lt. assert (fees a ≠ fees b) by (by intros ?%Cmp_zero). lia.
Qed.

Lemma price_less_false a b :
  price_less a b = false ↔ fees a < fees b ∨ fees a = fees b ∧ lazy_Time (fee_tx b) <= lazy_Time (fee_tx a).
Proof. rewrite <- not_true_iff_false, price_less_spec. lia. Qed.

#[export] Instance price_less_order : StrictWeak price_less.
Proof.
  split.
  - intros x. apply price_less_false. lia.
  - intros x y z. rewrite !price_less_spec. lia.
  - intros x y z. rewrite !price_less_false. lia.
Qed.

(** The transactions before the first that does not reach the base fee. *)
Definition payable (fee : option Z) (tx : LazyTransaction) : bool :=
  match newTxWithMinerFee tx 0 fee with Some _ => true | None => false end.

Fixpoint payables (fee : option Z) (l : list LazyTransaction) : list LazyTransaction :=
  match l with
  | [] => []
  | tx :: l => if payable fee tx then tx :: payables fee l else []
  end.

Lemma payable_wrap fee tx a : payable fee tx = true ↔ ∃ w, newTxWithMinerFee tx a fee = Some w.
Proof.
  unfold payable, newTxWithMinerFee. destruct fee as [f|]; [|split; [by eexists|done]].
  destruct (_ <? 0); split; [done|by intros []|by eexists|done].
Qed.

Lemma wrap_fields fee tx a w : newTxWithMinerFee tx a fee = Some w → fee_tx w = tx ∧ fee_from w = a.
Proof. unfold newTxWithMinerFee. destruct fee as [f|]; [destruct (_ <? 0); [done|]|]; by intros [= <-]. Qed.

Abbreviation slices := (Address → list LazyTransaction) (only parsing).

Definition set_slice (m : slices) (a : Address) (l : list LazyTransaction) : slices := λ b, if decide (b = a) then l else m b.

(** The set [t] stands for the slices [m]. *)
Record stands (t : transactionsByPriceAndNonce) (m : slices) : Prop := {
  st_heap : is_heap price_less (heads t);
  st_one : NoDup (fee_from <$> heads t);
  st_first h : h ∈ heads t →
    m (fee_from h) = fee_tx h :: payables (baseFee t) (default [] (bp_txs t !! fee_from h)) ∧
    newTxWithMinerFee (fee_tx h) (fee_from h) (baseFee t) = Some h;
  st_rest a : a ∉ fee_from <$> heads t → m a = []
}.

(** What is left in the heap and in the slices behind it. *)
Definition weight (t : transactionsByPriceAndNonce) : nat :=
  (length (heads t) + map_fold (λ _ l n, length l + n) 0 (bp_txs t))%nat.

Lemma weight_lookup (m : gmap Address (list LazyTransaction)) a tx rest :
  m !! a = Some (tx :: rest) →
  map_fold (λ _ l n, length l + n)%nat 0%nat m = S (map_fold (λ _ l n, length l + n)%nat 0%nat (<[a := rest]> m)).
Proof.
  intros Ha. rewrite <- insert_delete_eq. rewrite <- (insert_delete_id m a _ Ha) at 1.
  rewrite !map_fold_insert_L; [cbn; lia|..]; try (intros; lia); apply lookup_delete_eq.
Qed.

(** *** Popping and shifting *)

Lemma heads_cons_inv t m h hs : stands t m → heads t = h :: hs → NoDup (fee_from <$> hs) ∧ fee_from h ∉ fee_from <$> hs.
Proof. intros Hs Hh. pose proof (st_one _ _ Hs) as Hn. rewrite Hh in Hn. cbn in Hn. apply NoDup_cons in Hn as [? ?]. done. Qed.

Lemma Pop_stands t m h hs :
  stands t m → heads t = h :: hs →
  ∃ t', Pop t = Some t' ∧ stands t' (set_slice m (fee_from h) []) ∧ (weight t = S (weight t')) ∧ baseFee t' = baseFee t.
Proof.
  intros Hs Hh. destruct (heads_cons_inv t m h hs Hs Hh) as [Hnd Hnin].
  destruct (Pop_spec price_less (heads t) h) as (l0 & l' & Heq & HP & Hperm & Hheap); [apply Hs|by rewrite Hh|].
  rewrite Hh in Heq. injection Heq as <-. unfold Pop. rewrite HP. cbn. eexists. split; [done|]. split_and!; [|unfold weight; cbn; by rewrite Hh, Hperm|done]. split; cbn.
  - done.
  - by rewrite Hperm.
  - intros x Hx. rewrite Hperm in Hx. unfold set_slice. rewrite decide_False.
    + apply (st_first _ _ Hs). rewrite Hh. by right.
    + intros Heq. apply Hnin. rewrite <- Heq. by apply list_elem_of_fmap_2.
  - intros a. rewrite Hperm. unfold set_slice. intros Ha. case_decide as Hd; [done|]. apply (st_rest _ _ Hs). rewrite Hh. cbn. by intros [?|?]%elem_of_cons.
Qed.

Lemma Shift_stands t m h hs :
  stands t m → heads t = h :: hs →
  ∃ t', Shift t = Some t' ∧ stands t' (set_slice m (fee_from h) (tail (m (fee_from h)))) ∧ (weight t' < weight t)%nat ∧ baseFee t' = baseFee t.
Proof.
  intros Hs Hh. destruct (heads_cons_inv t m h hs Hs Hh) as [Hnd Hnin]. pose proof (st_first _ _ Hs h) as Hf. rewrite Hh in Hf.
  destruct (Hf (list_elem_of_here _ _)) as [Hm Hw]. rewrite Hm. cbn [tail].
  assert (HPop : payables (baseFee t) (default [] (bp_txs t !! fee_from h)) = [] →
    ∃ t', Pop t = Some t' ∧ stands t' (set_slice m (fee_from h) (payables (baseFee t) (default [] (bp_txs t !! fee_from h)))) ∧ (weight t' < weight t)%nat ∧ baseFee t' = baseFee t).
  { intros ->. destruct (Pop_stands t m h hs Hs Hh) as (t' & ? & ? & ? & ?). exists t'. split_and!; try done. lia. }
  unfold Shift. rewrite Hh. destruct (bp_txs t !! fee_from h) as [[|tx rest]|] eqn:Htxs; [by apply HPop| |by apply HPop]. cbn [from_option id payables] in *.
  destruct (newTxWithMinerFee tx (fee_from h) (baseFee t)) as [w|] eqn:Htx.
  2: { assert (payable (baseFee t) tx = false) as Hp by (apply not_true_iff_false; intros (w & Hw')%(payable_wrap _ _ (fee_from h)); congruence).
       rewrite Hp in HPop |- *. by apply HPop. }
  assert (payable (baseFee t) tx = true) as Hp by (apply (payable_wrap _ _ (fee_from h)); by exists w). rewrite Hp.
  destruct (wrap_fields _ _ _ _ Htx) as [Hwt Hwf]. destruct (heap_Fix_spec price_less hs h w) as [Hheap Hperm]; [rewrite <- Hh; apply Hs|].
  eexists. split; [done|]. split_and!; [|unfold weight; cbn; rewrite Hh, Hperm, (weight_lookup _ _ _ _ Htxs); cbn; lia|done]. split; cbn.
  - done.
  - rewrite Hperm. cbn. rewrite Hwf. by constructor.
  - intros x Hx. rewrite Hperm in Hx. apply elem_of_cons in Hx as [->|Hx]; unfold set_slice.
    + rewrite Hwf, decide_True, lookup_insert_eq, Hwt by done. done.
    + assert (fee_from x ≠ fee_from h) as Hne by (intros Heq; apply Hnin; rewrite <- Heq; by apply list_elem_of_fmap_2).
      rewrite decide_False, lookup_insert_ne by done. apply (st_first _ _ Hs). rewrite Hh. by right.
  - intros a. rewrite Hperm. cbn. rewrite Hwf. intros Ha. unfold set_slice. case_decide as Hd; [subst; by destruct Ha; left|].
    apply (st_rest _ _ Hs). by rewrite Hh.
Qed.

(** *** The first that is next *)

(** No account has a first transaction that pays more, or as much and is older. *)
Definition best (fee : option Z) (m : slices) (a : Address) (tx : LazyTransaction) (tip : Z) : Prop :=
  (∃ rest, m a = tx :: rest) ∧ newTxWithMinerFee tx a fee = Some (MkFee tx a tip) ∧
  ∀ b tx' rest, m b = tx' :: rest → ∃ tip', newTxWithMinerFee tx' b fee = Some (MkFee tx' b tip') ∧
    (tip' < tip ∨ tip' = tip ∧ lazy_Time tx <= lazy_Time tx').

Lemma first_is_head t m b tx rest : stands t m → m b = tx :: rest → ∃ h, h ∈ heads t ∧ fee_from h = b ∧ fee_tx h = tx.
Proof.
  intros Hs Hb. destruct (decide (b ∈ fee_from <$> heads t)) as [(h & -> & Hh)%list_elem_of_fmap|Hn].
  - exists h. destruct (st_first _ _ Hs h Hh) as [Hm _]. rewrite Hm in Hb. by injection Hb as <- _.
  - by rewrite (st_rest _ _ Hs b Hn) in Hb.
Qed.

Lemma Peek_best t m h hs :
  stands t m → heads t = h :: hs → best (baseFee t) m (fee_from h) (fee_tx h) (fees h).
Proof.
  intros Hs Hh. assert (Hin : h ∈ heads t) by (rewrite Hh; by left). destruct (st_first _ _ Hs h Hin) as [Hm Hw]. split_and!; [by eexists|rewrite Hw; by destruct h|].
  intros b tx' rest Hb. destruct (first_is_head t m b tx' rest Hs Hb) as (h' & Hin' & <- & <-). destruct (st_first _ _ Hs h' Hin') as [_ Hw'].
  exists (fees h'). split; [rewrite Hw'; by destruct h'|]. apply price_less_false. apply (heap_least price_less (heads t)); [apply Hs|by rewrite Hh|done].
Qed.

Lemma no_heads t m : stands t m → heads t = [] → ∀ a, m a = [].
Proof. intros Hs Hh a. apply (st_rest _ _ Hs). rewrite Hh. apply not_elem_of_nil. Qed.

(** *** Making the set *)

Definition wrap_entry (fee : option Z) (e : Address * list LazyTransaction) : option txWithMinerFee :=
  match e.2 with [] => None | tx :: _ => newTxWithMinerFee tx e.1 fee end.

Lemma wrap_heads_spec fee entries txs hs :
  NoDup entries.*1 → (∀ e, e ∈ entries → e.2 ≠ []) →
  ∃ txs', wrap_heads fee entries txs hs = Some (txs', hs ++ omap (wrap_entry fee) entries) ∧
    (∀ a, a ∉ entries.*1 → txs' !! a = txs !! a) ∧
    (∀ a tx rest w, (a, tx :: rest) ∈ entries → newTxWithMinerFee tx a fee = Some w → txs' !! a = Some rest).
Proof.
  revert txs hs. induction entries as [|[a l] entries IH]; intros txs hs Hnd Hne; cbn [wrap_heads fmap list_fmap] in *.
  { exists txs. rewrite app_nil_r. split_and!; [done|done|]. by intros ? ? ? ? ?%elem_of_nil. }
  apply NoDup_cons in Hnd as [Ha Hnd]. cbn [fst] in *. destruct l as [|tx rest]; [by destruct (Hne (a, []) (list_elem_of_here _ _))|].
  assert (Hne' : ∀ e, e ∈ entries → e.2 ≠ []) by (intros; apply Hne; by right).
  cbn [omap list_omap]. unfold wrap_entry at 1. cbn [fst snd].
  destruct (newTxWithMinerFee tx a fee) as [w|] eqn:Hw.
  - destruct (IH (<[a := rest]> txs) (hs ++ [w]) Hnd Hne') as (txs' & -> & Hout & Hin). exists txs'. rewrite <- app_assoc. split_and!; [done| |].
    + intros b [Hb Hb']%not_elem_of_cons. rewrite Hout by done. by rewrite lookup_insert_ne.
    + intros b tx' rest' w' [[= -> -> ->]|Hb]%elem_of_cons Hw'; [|by eapply Hin]. rewrite Hout by done. apply lookup_insert_eq.
  - destruct (IH (delete a txs) hs Hnd Hne') as (txs' & -> & Hout & Hin). exists txs'. split_and!; [done| |].
    + intros b [Hb Hb']%not_elem_of_cons. rewrite Hout by done. by rewrite lookup_delete_ne.
    + intros b tx' rest' w' [[= -> -> ->]|Hb]%elem_of_cons Hw'; [congruence|by eapply Hin].
Qed.

Lemma wrap_entries_from fee (entries : list (Address * list LazyTransaction)) w :
  w ∈ omap (wrap_entry fee) entries → ∃ tx rest, (fee_from w, tx :: rest) ∈ entries ∧ newTxWithMinerFee tx (fee_from w) fee = Some w ∧ fee_tx w = tx.
Proof.
  intros ([a l] & Hin & Hw)%list_elem_of_omap. unfold wrap_entry in Hw. cbn in Hw. destruct l as [|tx rest]; [done|].
  destruct (wrap_fields _ _ _ _ Hw) as [Ht Hf]. exists tx, rest. by rewrite Hf.
Qed.

Lemma wrap_entries_NoDup fee (entries : list (Address * list LazyTransaction)) :
  NoDup entries.*1 → NoDup (fee_from <$> omap (wrap_entry fee) entries).
Proof.
  induction entries as [|[a l] entries IH]; cbn [fmap list_fmap omap list_omap]; [intros; apply NoDup_nil_2|]. intros [Ha Hnd]%NoDup_cons. specialize (IH Hnd).
  destruct (wrap_entry fee (a, l)) as [w|] eqn:Hw; [|done]. cbn. constructor; [|done].
  assert (fee_from w = a) as ->. { unfold wrap_entry in Hw. cbn in Hw. destruct l; [done|]. by apply wrap_fields in Hw as [_ ?]. }
  intros (w' & Heq & Hin)%list_elem_of_fmap. apply wrap_entries_from in Hin as (tx & rest & Hin & _). apply Ha. rewrite Heq.
  apply list_elem_of_fmap. by exists (fee_from w', tx :: rest).
Qed.

Lemma new_stands `{MapRange} txs fee :
  (∀ a l, txs !! a = Some l → l ≠ []) → (∀ f, fee = Some f → 0 <= f < two256) →
  ∃ t, newTransactionsByPriceAndNonce txs fee = Some t ∧ stands t (λ a, payables fee (default [] (txs !! a))) ∧ baseFee t = fee.
Proof.
  intros Hne Hf. unfold newTransactionsByPriceAndNonce.
  assert ((match fee with None => Some None | Some fee => Some <$> MustFromBig fee end) = Some fee) as ->.
  { destruct fee as [f|]; [|done]. unfold MustFromBig. by rewrite (LegacyList.ListLaws.FromBig_ok f) by (by apply Hf). }
  cbn [mbind option_bind]. destruct (wrap_heads_spec fee (map_range txs) txs []) as (txs' & -> & Hout & Hin).
  { apply map_range_NoDup. }
  { intros [a l] Hl%map_range_elem. by eapply Hne. }
  cbn [mbind option_bind app]. eexists. split; [done|]. split; [|done].
  destruct (Init_spec price_less (omap (wrap_entry fee) (map_range txs))) as [Hheap Hperm]. split; cbn.
  - done.
  - rewrite Hperm. apply wrap_entries_NoDup, map_range_NoDup.
  - intros w Hw. rewrite Hperm in Hw. apply wrap_entries_from in Hw as (tx & rest & Hl & Hw & Ht). rewrite (Hin _ _ _ _ Hl Hw). cbn.
    apply map_range_elem in Hl. rewrite Hl, Ht. cbn. split; [|done]. rewrite (proj2 (payable_wrap fee tx (fee_from w))) by (by exists w). done.
  - intros a. rewrite Hperm. intros Ha. destruct (txs !! a) as [l|] eqn:Hl; [|done]. cbn. destruct l as [|tx rest]; [by destruct (Hne a [] Hl)|]. cbn.
    destruct (payable fee tx) eqn:Hp; [|done]. exfalso. apply Ha. apply (payable_wrap _ _ a) in Hp as [w Hw]. apply list_elem_of_fmap. exists w.
    destruct (wrap_fields _ _ _ _ Hw) as [_ Hfr]. split; [done|]. apply list_elem_of_omap. exists (a, tx :: rest). split; [by apply map_range_elem|done].
Qed.

(** ** Taking transactions *)

(** What the miner does after it has looked at the first. *)
Inductive move : Type := MShift | MPop.

(** What is seen, and the set afterwards; an empty set ends it. *)
Fixpoint play (moves : list move) (t : transactionsByPriceAndNonce) : option (list (LazyTransaction * Z) * transactionsByPriceAndNonce) :=
  match moves with
  | [] => Some ([], t)
  | mv :: moves =>
      match Peek t with
      | None => Some ([], t)
      | Some seen =>
          t ← match mv with MShift => Shift t | MPop => Pop t end;
          '(out, t) ← play moves t;
          Some (seen :: out, t)
      end
  end.

(** The same on the slices: each time some account's first that is best.  The
    accounts are recorded. *)
Inductive served (fee : option Z) : slices → list move → list (Address * (LazyTransaction * Z)) → slices → Prop :=
  | served_end m moves : moves = [] ∨ (∀ a, m a = []) → served fee m moves [] m
  | served_next m a tx tip mv moves out m' :
      best fee m a tx tip →
      served fee (set_slice m a (match mv with MShift => tail (m a) | MPop => [] end)) moves out m' →
      served fee m (mv :: moves) ((a, (tx, tip)) :: out) m'.

Lemma play_served moves t m :
  stands t m → ∃ out t' m', play moves t = Some (out.*2, t') ∧ served (baseFee t) m moves out m' ∧ stands t' m' ∧ ((weight t' + length moves <= weight t)%nat ∨ heads t' = []).
Proof.
  revert t m. induction moves as [|mv moves IH]; intros t m Hs; cbn [play].
  { exists [], t, m. split_and!; [done|by constructor; left|done|]. cbn. left. lia. }
  unfold Peek. destruct (heads t) as [|h hs] eqn:Hh; cbn [head mbind option_bind].
  { exists [], t, m. split_and!; [done|constructor; right; by eapply no_heads|done|by right]. }
  assert (Hstep : ∃ t1, (match mv with MShift => Shift t | MPop => Pop t end) = Some t1 ∧
    stands t1 (set_slice m (fee_from h) (match mv with MShift => tail (m (fee_from h)) | MPop => [] end)) ∧ (weight t1 < weight t)%nat ∧ baseFee t1 = baseFee t).
  { destruct mv; [by eapply Shift_stands|]. destruct (Pop_stands t m h hs Hs Hh) as (t1 & ? & ? & ? & ?). exists t1. split_and!; try done. lia. }
  destruct Hstep as (t1 & -> & Hs1 & Hw & Hb). cbn [mbind option_bind]. destruct (IH t1 _ Hs1) as (out & t' & m' & -> & Hserved & Hs' & Hw').
  exists ((fee_from h, (fee_tx h, fees h)) :: out), t', m'. rewrite Hb in Hserved. split_and!; [done| |done|cbn; destruct Hw'; [left; lia|by right]].
  econstructor; [by eapply Peek_best|done].
Qed.

(** An account is served its slice from the front. *)
Lemma served_shifts fee m n out m' a :
  served fee m (repeat MShift n) out m' → m a = (filter (λ x, x.1 = a) out).*2.*1 ++ m' a.
Proof.
  intros Hs. remember (repeat MShift n) as moves eqn:Hmv. revert n Hmv. induction Hs as [m moves _|m b tx tip mv moves out m' Hbest Hs IH]; intros n Hmv; [done|].
  destruct n as [|n]; [done|]. cbn in Hmv. injection Hmv as -> ->. specialize (IH n eq_refl). destruct Hbest as [[rest Hb] _]. unfold set_slice in IH.
  destruct (decide (a = b)) as [->|Hne].
  - rewrite filter_cons_True by done. cbn. rewrite <- IH, Hb. done.
  - rewrite filter_cons_False by (cbn; congruence). exact IH.
Qed.

Lemma weight_heads t : (length (heads t) <= weight t)%nat.
Proof. unfold weight. lia. Qed.

(** C22: the miner's order.  However it shifts and pops, the set of transactions never
    panics, and what it shows each time is the first transaction left of some account
    that pays the miner most, the oldest of those; shifting goes on to the next of
    that account, as long as it reaches the base fee, and popping drops the account. *)
Theorem by_price_refines `{MapRange} txs fee moves :
  (∀ a l, txs !! a = Some l → l ≠ []) → (∀ f, fee = Some f → 0 <= f < two256) →
  ∃ t out t' m', newTransactionsByPriceAndNonce txs fee = Some t ∧ play moves t = Some (out.*2, t') ∧
    served fee (λ a, payables fee (default [] (txs !! a))) moves out m' ∧ stands t' m'.
Proof.
  intros Hne Hf. destruct (new_stands txs fee Hne Hf) as (t & Hnew & Hs & Hb). destruct (play_served moves t _ Hs) as (out & t' & m' & Hp & Hserved & Hs' & _).
  exists t, out, t', m'. by rewrite Hb in Hserved.
Qed.

(** C33: nothing is left out.  Shifting until the set is empty, which it is after as
    many turns as there are transactions, shows every account's transactions in their
    order, all of them up to the first that does not reach the base fee. *)
Theorem by_price_complete `{MapRange} txs fee :
  (∀ a l, txs !! a = Some l → l ≠ []) → (∀ f, fee = Some f → 0 <= f < two256) →
  ∃ t out t', newTransactionsByPriceAndNonce txs fee = Some t ∧ play (repeat MShift (weight t)) t = Some (out.*2, t') ∧ Empty t' = true ∧
    ∀ a, (filter (λ x, x.1 = a) out).*2.*1 = payables fee (default [] (txs !! a)).
Proof.
  intros Hne Hf. destruct (new_stands txs fee Hne Hf) as (t & Hnew & Hs & Hb).
  destruct (play_served (repeat MShift (weight t)) t _ Hs) as (out & t' & m' & Hp & Hserved & Hs' & Hw). rewrite repeat_length in Hw.
  assert (Hempty : heads t' = []). { pose proof (weight_heads t'). destruct (heads t'); [done|]. cbn in *. destruct Hw as [?|?]; [lia|done]. }
  exists t, out, t'. split_and!; [done|done|by apply bool_decide_true|]. intros a.
  rewrite (served_shifts _ _ _ _ _ a Hserved), (no_heads t' m' Hs' Hempty a). by rewrite app_nil_r.
Qed.

(** ** Two accounts *)

Definition ex_lazy (hash cap tip time : Z) : LazyTransaction := MkLazy hash None time cap tip 21000 0.

(** The second of the first account does not reach the base fee of 10. *)
Definition ex_slices : gmap Address (list LazyTransaction) :=
  {[ 1 := [ex_lazy 11 100 5 1; ex_lazy 12 9 9 2; ex_lazy 13 100 50 3]; 2 := [ex_lazy 21 30 40 4; ex_lazy 22 30 2 5] ]}.

Lemma ex_slices_ok a l : ex_slices !! a = Some l → l ≠ [].
Proof. unfold ex_slices. intros Hl. apply lookup_insert_Some in Hl as [[_ <-]|[_ [_ <-]%lookup_singleton_Some]]; done. Qed.

Lemma by_price_refines_witness :
  ∃ t out t' m', newTransactionsByPriceAndNonce ex_slices (Some 10) = Some t ∧ play [MShift; MPop; MShift] t = Some (out.*2, t') ∧
    served (Some 10) (λ a, payables (Some 10) (default [] (ex_slices !! a))) [MShift; MPop; MShift] out m' ∧ stands t' m' ∧ lazy_Hash <$> out.*2.*1 = [21; 11; 22].
Proof.
  destruct (by_price_refines ex_slices (Some 10) [MShift; MPop; MShift] ex_slices_ok) as (t & out & t' & m' & Hnew & Hp & Hs & Hst).
  { by intros f [= <-]. }
  exists t, out, t', m'. split_and!; [exact Hnew|exact Hp|exact Hs|exact Hst|].
  assert (Hrun : (λ r, match r with Some t => match play [MShift; MPop; MShift] t with Some (o, _) => lazy_Hash <$> o.*1 | None => [] end | None => [] end)
    (newTransactionsByPriceAndNonce ex_slices (Some 10)) = [21; 11; 22]) by (vm_compute; reflexivity).
  rewrite Hnew in Hrun. by rewrite Hp in Hrun.
Defined.

Lemma by_price_complete_witness :
  ∃ t out t', newTransactionsByPriceAndNonce ex_slices (Some 10) = Some t ∧ play (repeat MShift (weight t)) t = Some (out.*2, t') ∧ Empty t' = true ∧
    lazy_Hash <$> (filter (λ x, x.1 = 1) out).*2.*1 = [11].
Proof.
  destruct (by_price_complete ex_slices (Some 10) ex_slices_ok) as (t & out & t' & Hnew & Hp & He & Hall).
  { by intros f [= <-]. }
  exists t, out, t'. split_and!; [exact Hnew|exact Hp|exact He|]. rewrite (Hall 1). vm_compute. reflexivity.
Defined.
