(* ===== verification/Receipts.v ===== *)
(** * Receipts and their bloom filters

    parallelizable-client-go-ethereum/core/types: receipt.go (the data, and what of
    it goes into the root of a block's receipts), log.go and bloom9.go.  A filter
    is its 256 bytes. *)

From S2P Require Import Prelude Rlp Crypto TxTypes StateTypes.
Open Scope eigen_scope.

(** A log, with what [GetLogs] fills in of the block. *)
Record BlockLog : Type := MkBlockLog {
  bl_Log : Log;
  bl_BlockNumber : Z;
  bl_BlockHash : Hash
}.

Record Receipt : Type := MkReceipt {
  rc_Type : Z;
  PostState : bytes;
  Status : Z;
  CumulativeGasUsed : Z;
  rc_Bloom : bytes;
  Logs : list BlockLog;
  rc_TxHash : Hash;
  ContractAddress : Address;
  rc_GasUsed : Z;
  EffectiveGasPrice : option Z;
  rc_BlobGasUsed : Z;
  BlobGasPrice : option Z;
  rc_BlockHash : Hash;
  rc_BlockNumber : option Z;
  TransactionIndex : Z
}.

Definition ReceiptStatusFailed : Z := 0.
Definition ReceiptStatusSuccessful : Z := 1.

(** ** Bloom filters *)

Definition BloomByteLength : Z := 256.

Definition zero_bloom : bytes := replicate 256 0.

(** An index and the byte to set there, from two bytes of the hash. *)
Definition bloom_value (hashbuf : bytes) (k : nat) : nat * Z :=
  let hi := nth (2 * k) hashbuf 0 in
  let lo := nth (2 * k + 1) hashbuf 0 in
  (Z.to_nat (BloomByteLength - Z.shiftr (Z.land (hi * 256 + lo) 0x7ff) 3 - 1),
   Z.shiftl 1 (Z.land lo 7) mod 256).

Definition set_bits (b : bytes) (iv : nat * Z) : bytes := <[iv.1 := Z.lor (nth iv.1 b 0) iv.2]> b.

Section Bloom.
Context `{Keccak}.

Definition bloomValues (data : bytes) : list (nat * Z) :=
  let hashbuf := take 6 (keccak data) in map (bloom_value hashbuf) [0; 1; 2]%nat.

Definition add (b d : bytes) : bytes := fold_left set_bits (bloomValues d) b.

Definition Test (b topic : bytes) : bool :=
  forallb (λ iv, iv.2 =? Z.land iv.2 (nth iv.1 b 0)) (bloomValues topic).

(** [None] is the panic. *)
Definition SetBytes (b d : bytes) : option bytes :=
  if BloomByteLength <? len d then None else Some (take (Z.to_nat (BloomByteLength - len d)) b ++ d).

Definition Bloom9 (data : bytes) : option bytes := SetBytes zero_bloom data.

Definition BloomLookup (bin topic : bytes) : bool := Test bin topic.

(** What of a log is added to the filter. *)
Definition log_data (l : BlockLog) : list bytes :=
  be_encode 20 (log_Address (bl_Log l)) :: map (be_encode 32) (log_Topics (bl_Log l)).

Definition CreateBloom (logs : list BlockLog) : bytes :=
  fold_left (λ bin l, fold_left add (log_data l) bin) logs zero_bloom.

Definition or_bloom (a b : bytes) : bytes := zip_with Z.lor a b.

Definition MergeBloom (receipts : list Receipt) : bytes :=
  fold_left (λ bin r, if len (Logs r) =? 0 then bin else or_bloom bin (rc_Bloom r)) receipts zero_bloom.

(** ** The encoding under the root of the receipts *)

Definition statusEncoding (r : Receipt) : bytes :=
  if len (PostState r) =? 0 then (if Status r =? ReceiptStatusFailed then [] else [1]) else PostState r.

Definition log_item (l : BlockLog) : item :=
  Lst [Str (be_encode 20 (log_Address (bl_Log l))); Lst (map (λ t, Str (be_encode 32 t)) (log_Topics (bl_Log l)));
    Str (log_Data (bl_Log l))].

Definition receiptRLP (r : Receipt) : item :=
  Lst [Str (statusEncoding r); Str (int_bytes (CumulativeGasUsed r)); Str (rc_Bloom r); Lst (map log_item (Logs r))].

(** [Receipts.EncodeIndex]: of an unsupported type only the type is written. *)
Definition EncodeIndex (r : Receipt) : bytes :=
  if rc_Type r =? LegacyTxType then encode (receiptRLP r)
  else if (rc_Type r =? AccessListTxType) || (rc_Type r =? DynamicFeeTxType) || (rc_Type r =? BlobTxType) || (rc_Type r =? SetCodeTxType)
  then rc_Type r :: encode (receiptRLP r)
  else [rc_Type r].

(** ** A filter has what was added to it *)

Definition is_bloom (b : bytes) : Prop := length b = 256%nat.

(** Every bit of [b] is one of [c]. *)
Definition below (b c : bytes) : Prop := ∀ i n, Z.testbit (nth i b 0) n = true → Z.testbit (nth i c 0) n = true.

#[export] Instance below_preorder : PreOrder below.
Proof. split; [by intros b i n|]. intros a b c Hab Hbc i n Hn. by apply Hbc, Hab. Qed.

Lemma zero_is_bloom : is_bloom zero_bloom. Proof. done. Qed.

Lemma bloom_value_bound hashbuf k : ((bloom_value hashbuf k).1 < 256)%nat.
Proof.
  unfold bloom_value, BloomByteLength. cbn [fst]. set (x := _ * 256 + _).
  assert (0 <= Z.shiftr (Z.land x 0x7ff) 3); [|lia]. apply Z.shiftr_nonneg, Z.land_nonneg. by right.
Qed.

Lemma bloomValues_bound data : Forall (λ iv, (iv.1 < 256)%nat) (bloomValues data).
Proof. unfold bloomValues. apply Forall_map, Forall_true. intros k. apply bloom_value_bound. Qed.

Lemma nth_set b i v j : (i < length b)%nat → nth j (<[i := v]> b) 0 = if decide (j = i) then v else nth j b 0.
Proof.
  intros Hi. rewrite !nth_lookup. case_decide as Hd; [subst; by rewrite list_lookup_insert_eq|by rewrite list_lookup_insert_ne].
Qed.

Lemma set_bits_spec b iv : (iv.1 < length b)%nat →
  length (set_bits b iv) = length b ∧ below b (set_bits b iv) ∧ Z.land iv.2 (nth iv.1 (set_bits b iv) 0) = iv.2.
Proof.
  intros Hi. unfold set_bits. split_and!; [apply length_insert| |].
  - intros j n Hn. rewrite nth_set by done. case_decide; [subst|done]. by rewrite Z.lor_spec, Hn.
  - rewrite nth_set, decide_True by done. apply Z.bits_inj'. intros n _. rewrite Z.land_spec, Z.lor_spec. by destruct (Z.testbit iv.2 n), (Z.testbit (nth iv.1 b 0) n).
Qed.

Lemma land_below a b iv : below a b → Z.land iv.2 (nth iv.1 a 0) = iv.2 → Z.land iv.2 (nth iv.1 b 0) = iv.2.
Proof.
  intros Hab Ha. apply Z.bits_inj'. intros n _. rewrite Z.land_spec. destruct (Z.testbit iv.2 n) eqn:Hn; [|done]. cbn.
  apply Hab. rewrite <- Ha, Z.land_spec, andb_true_iff in Hn. tauto.
Qed.

Lemma Test_below a b d : below a b → Test a d = true → Test b d = true.
Proof.
  unfold Test. rewrite !forallb_forall. intros Hab Ha iv Hiv. specialize (Ha iv Hiv). apply Z.eqb_eq in Ha. apply Z.eqb_eq. symmetry in Ha |- *. by eapply land_below.
Qed.

Lemma set_all ivs b : is_bloom b → Forall (λ iv, (iv.1 < 256)%nat) ivs →
  is_bloom (fold_left set_bits ivs b) ∧ below b (fold_left set_bits ivs b) ∧ ∀ iv, iv ∈ ivs → Z.land iv.2 (nth iv.1 (fold_left set_bits ivs b) 0) = iv.2.
Proof.
  intros Hb Hivs. revert b Hb. induction Hivs as [|iv ivs Hi Hivs IH]; intros b Hb; cbn [fold_left]; [split_and!; [done|done|by intros iv ?%elem_of_nil]|].
  destruct (set_bits_spec b iv) as (Hl & Hbe & Hland); [by rewrite Hb|]. destruct (IH (set_bits b iv)) as (Hl' & Hbe' & Hland'); [by unfold is_bloom; rewrite Hl|].
  split_and!; [done|by etransitivity|]. intros iv' [->|Hin]%elem_of_cons; [by eapply land_below|by apply Hland'].
Qed.

Lemma add_spec b d : is_bloom b → is_bloom (add b d) ∧ below b (add b d) ∧ Test (add b d) d = true.
Proof.
  intros Hb. destruct (set_all (bloomValues d) b Hb (bloomValues_bound d)) as (Hl & Hbe & Hland). split_and!; [done|done|].
  unfold Test. apply forallb_forall. intros iv Hiv%list_elem_of_In. apply Z.eqb_eq. symmetry. by apply Hland.
Qed.

Lemma adds_spec ds b : is_bloom b → is_bloom (fold_left add ds b) ∧ below b (fold_left add ds b) ∧ ∀ d, d ∈ ds → Test (fold_left add ds b) d = true.
Proof.
  revert b. induction ds as [|d ds IH]; intros b Hb; cbn [fold_left]; [split_and!; [done|done|by intros d ?%elem_of_nil]|].
  destruct (add_spec b d Hb) as (Hl & Hbe & Ht). destruct (IH _ Hl) as (Hl' & Hbe' & Ht'). split_and!; [done|by etransitivity|].
  intros d' [->|Hin]%elem_of_cons; [by eapply Test_below|by apply Ht'].
Qed.

(** *** A filter of several receipts *)

Lemma CreateBloom_adds logs : CreateBloom logs = fold_left add (concat (map log_data logs)) zero_bloom.
Proof.
  unfold CreateBloom. generalize zero_bloom. induction logs as [|l logs IH]; intros b; [done|]. cbn [map concat fold_left]. rewrite fold_left_app. apply IH.
Qed.

Lemma or_set_bits a b iv : length a = length b → (iv.1 < length b)%nat → set_bits (or_bloom a b) iv = or_bloom a (set_bits b iv).
Proof.
  intros Hl Hi. unfold set_bits, or_bloom. destruct (lookup_lt_is_Some_2 a iv.1) as [x Hx]; [by rewrite Hl|]. destruct (lookup_lt_is_Some_2 b iv.1) as [y Hy]; [done|].
  rewrite (nth_lookup (zip_with _ _ _)), lookup_zip_with, Hx, Hy. rewrite (nth_lookup b), Hy. cbn. rewrite <- Z.lor_assoc, (insert_zip_with Z.lor). by rewrite (list_insert_id a).
Qed.

Lemma or_adds ds a b : is_bloom a → is_bloom b → fold_left add ds (or_bloom a b) = or_bloom a (fold_left add ds b).
Proof.
  intros Ha. revert b. induction ds as [|d ds IH]; intros b Hb; [done|]. cbn [fold_left]. rewrite <- IH by apply (add_spec b d Hb). f_equal.
  unfold add. pose proof (bloomValues_bound d) as Hv. revert b Hb. induction Hv as [|iv ivs Hi Hv IHv]; intros b Hb; [done|]. cbn [fold_left].
  rewrite or_set_bits by (unfold is_bloom in *; congruence || lia). apply IHv. unfold is_bloom, set_bits. by rewrite length_insert.
Qed.

Lemma or_zero a : is_bloom a → or_bloom a zero_bloom = a.
Proof.
  intros Ha. apply list_eq. intros i. unfold or_bloom. rewrite lookup_zip_with. destruct (a !! i) as [x|] eqn:Hx; [|done].
  assert (zero_bloom !! i = Some 0) as -> by (apply lookup_replicate_2; rewrite <- Ha; by eapply lookup_lt_Some). cbn. by rewrite Z.lor_0_r.
Qed.

Lemma CreateBloom_is_bloom logs : is_bloom (CreateBloom logs).
Proof. rewrite CreateBloom_adds. by apply adds_spec. Qed.

(** The receipts of [MakeReceipt]. *)
Definition has_bloom (r : Receipt) : Prop := rc_Bloom r = CreateBloom (Logs r).

Lemma MergeBloom_create receipts : Forall has_bloom receipts → MergeBloom receipts = CreateBloom (concat (map Logs receipts)).
Proof.
  intros Hr. rewrite CreateBloom_adds. assert (Hgen : ∀ bin, is_bloom bin →
    fold_left (λ bin r, if len (Logs r) =? 0 then bin else or_bloom bin (rc_Bloom r)) receipts bin =
    fold_left add (concat (map log_data (concat (map Logs receipts)))) bin); [|by apply Hgen].
  induction Hr as [|r receipts Hb Hr IH]; intros bin Hbin; [done|]. cbn [map concat fold_left]. rewrite map_app, concat_app, fold_left_app.
  destruct (Z.eqb_spec (len (Logs r)) 0) as [Hz|Hnz].
  - assert (Logs r = []) as -> by (destruct (Logs r); [done|unfold len in Hz; cbn in Hz; lia]). by apply IH.
  - rewrite Hb, CreateBloom_adds, <- or_adds, or_zero by done. apply IH. by apply adds_spec.
Qed.
End Bloom.

(** C32: a filter never hides a log.  A lookup of the address of a log, or of one of
    its topics, in the filter of its receipt succeeds, and so it does in the merged
    filter of all receipts of the block; the merged filter is the one that the logs
    of the whole block would give. *)
Theorem bloom_never_hides `{Keccak} receipts :
  Forall has_bloom receipts →
  MergeBloom receipts = CreateBloom (concat (map Logs receipts)) ∧
  ∀ r l d, r ∈ receipts → l ∈ Logs r → d ∈ log_data l → BloomLookup (rc_Bloom r) d = true ∧ BloomLookup (MergeBloom receipts) d = true.
Proof.
  intros Hr. split; [by apply MergeBloom_create|]. intros r l d Hin Hl Hd. unfold BloomLookup.
  rewrite (MergeBloom_create _ Hr), CreateBloom_adds. rewrite Forall_forall in Hr. rewrite (Hr r Hin), CreateBloom_adds.
  assert (Hdata : ∀ logs, l ∈ logs → d ∈ concat (map log_data logs)).
  { intros logs Hlogs. apply list_elem_of_In, in_concat. exists (log_data l). split; [by apply in_map, list_elem_of_In|by apply list_elem_of_In]. }
  split; (apply adds_spec; [done|]); apply Hdata; [done|].
  apply list_elem_of_In, in_concat. exists (Logs r). split; [by apply in_map, list_elem_of_In|by apply list_elem_of_In].
Qed.

(** ** Two receipts *)

Section Example.
#[local] Instance ex_keccak : Keccak.
Proof.
  refine {| keccak b := map (λ x, x mod 256) (be_encode 32 ((be_decode b + 11) * 0x9E3779B97F4A7C15F39CC0605CEDC8341082276BF3A27251F86C6A11D0C18E95)) |}.
  - intros b. unfold len. rewrite length_map. unfold be_encode. by rewrite length_rev, length_le_encode.
  - intros b. apply Forall_map, Forall_true. intros x. unfold is_byte. cbn. apply Z.mod_pos_bound. lia.
Defined.

Definition ex_log (addr topic : Z) : BlockLog := MkBlockLog (MkLog addr [topic] [] 0 0 0) 5 6.
Definition ex_receipt (logs : list BlockLog) : Receipt := MkReceipt 0 [] 1 21000 (CreateBloom logs) logs 0 0 21000 None 0 None 6 (Some 5) 0.

Lemma bloom_never_hides_witness :
  let receipts := [ex_receipt []; ex_receipt [ex_log 7 8]; ex_receipt [ex_log 9 10]] in
  BloomLookup (MergeBloom receipts) (be_encode 32 10) = true ∧ BloomLookup (MergeBloom receipts) (be_encode 32 11) = false.
Proof.
  intros receipts. split; [|vm_compute; reflexivity].
  destruct (bloom_never_hides receipts) as [_ Hall]; [repeat constructor|].
  apply (Hall (ex_receipt [ex_log 9 10]) (ex_log 9 10)); [right; right; left|left|right; left].
Defined.
End Example.
