(* ===== verification/Consensus.v ===== *)
(** * Blocks, and the rules they are checked by

    parallelizable-client-go-ethereum: core/types/block.go and withdrawal.go (how a
    block is put together), consensus/beacon/consensus.go (the engine after the
    merge, over the engine before it), core/block_validator.go (what a block is
    checked for, before and after it is processed).  The class [TxState] is what
    building and processing a block uses of the state besides VMInterface.v. *)

From S2P Require Import Prelude Rlp Crypto ChainConfig BlockFees StackTrie TxTypes TxValidation VMInterface StateTypes Receipts.
Import Header (Header).
Open Scope eigen_scope.

(** [None] is a panic. *)
Class TxState (St : Type) : Type := {
  SetTxContext : St → Hash → Z → St;
  TxIndex : St → Z;
  (** the logs that [GetLogs] returns, before it fills in the block *)
  tx_logs : St → Hash → list Log;
  Finalise : St → bool → St;
  IntermediateRoot : St → bool → Hash * St;
  Snapshot : St → Z * St;
  RevertToSnapshot : St → Z → option St;
  SetBalance : St → Address → Z → St
}.

(** The encodings and hashes below: [rlpHash] of a header and of a list of them,
    [Transactions.EncodeIndex], and SHA-256. *)
Class BlockHashes : Type := {
  hash_Header : Header → Hash;
  hash_Headers : list Header → Hash;
  tx_EncodeIndex : Transaction → bytes;
  Sha256 : bytes → bytes
}.

(** ** Blocks (core/types) *)

Record Withdrawal : Type := MkWithdrawal {
  wd_Index : Z;
  Validator : Z;
  wd_Address : Address;
  Amount : Z
}.

(** The withdrawals may be nil, which is not the empty list. *)
Record Body : Type := MkBody {
  bd_Transactions : list Transaction;
  bd_Uncles : list Header;
  bd_Withdrawals : option (list Withdrawal)
}.

Record Block : Type := MkBlock {
  blk_header : Header;
  blk_uncles : list Header;
  blk_transactions : list Transaction;
  blk_withdrawals : option (list Withdrawal)
}.

Definition EmptyTxsHash : Hash := EmptyRootHash.
Definition EmptyReceiptsHash : Hash := EmptyRootHash.
Definition EmptyWithdrawalsHash : Hash := EmptyRootHash.

(** The header of a new block: what is computed from the body is overwritten, and a
    missing difficulty or number becomes 0. *)
Definition block_header (h : Header) (txs receipts : Hash) (bloom : bytes) (uncles : Hash) (withdrawals : option Hash) : Header :=
  Header.MkHeader (Header.ParentHash h) uncles (Header.Coinbase h) (Header.Root h) txs receipts bloom
    (Some (default 0 (Header.Difficulty h))) (Some (default 0 (Header.Number h))) (Header.GasLimit h) (Header.GasUsed h)
    (Header.Time h) (Header.Extra h) (Header.MixDigest h) (Header.Nonce h) (Header.BaseFee h) withdrawals
    (Header.BlobGasUsed h) (Header.ExcessBlobGas h) (Header.ParentBeaconRoot h) (Header.RequestsHash h).

Definition withdrawal_item (w : Withdrawal) : bytes :=
  encode (Lst [Str (int_bytes (wd_Index w)); Str (int_bytes (Validator w)); Str (be_encode 20 (wd_Address w)); Str (int_bytes (Amount w))]).

Section Blocks.
Context `{Keccak, BlockHashes}.

Definition EmptyUncleHash : Hash := hash_Headers [].

Definition CalcUncleHash (uncles : list Header) : Hash :=
  if len uncles =? 0 then EmptyUncleHash else hash_Headers uncles.

Definition CalcRequestsHash (requests : list bytes) : Hash :=
  be_decode (Sha256 (concat (map Sha256 (List.filter (λ item, len item >? 1) requests)))).

(** [DeriveSha] with a stack trie, which it resets. *)
Definition derive_sha (items : list bytes) : option Hash :=
  match (DeriveSha items NewStackTrie).1 with Ok h => Some (be_decode h) | Err _ => None end.

Definition NewBlock (header : Header) (body : Body) (receipts : list Receipt) : option Block :=
  txHash ← (if len (bd_Transactions body) =? 0 then Some EmptyTxsHash else derive_sha (map tx_EncodeIndex (bd_Transactions body)));
  '(receiptHash, bloom) ←
    (if len receipts =? 0 then Some (EmptyReceiptsHash, Header.Bloom header)
     else h ← derive_sha (map EncodeIndex receipts); Some (h, MergeBloom receipts));
  let uncleHash := if len (bd_Uncles body) =? 0 then EmptyUncleHash else CalcUncleHash (bd_Uncles body) in
  withdrawalsHash ←
    match bd_Withdrawals body with
    | None => Some None
    | Some ws => if len ws =? 0 then Some (Some EmptyWithdrawalsHash) else Some <$> derive_sha (map withdrawal_item ws)
    end;
  Some (MkBlock (block_header header txHash receiptHash bloom uncleHash withdrawalsHash)
    (bd_Uncles body) (bd_Transactions body) (bd_Withdrawals body)).
End Blocks.

(** ** The engine (consensus/consensus.go) *)

Inductive engine_error : Type :=
  | ErrUnknownAncestor | ErrPrunedAncestor | ErrInvalidTerminalBlock | errTooManyUncles | ErrExtraTooLong | errInvalidNonce
  | errInvalidUncleHash | errInvalidTimestamp | ErrInvalidDifficulty | ErrGasLimitTooHigh | ErrGasUsedTooHigh
  | ErrInvalidNumber | ErrFees (err : fee_error) | ErrMissingWithdrawalsHash | ErrInvalidWithdrawalsHash
  | ErrInvalidExcessBlobGas | ErrInvalidBlobGasUsed | ErrInvalidParentBeaconRoot | ErrMissingBeaconRoot
  | ErrWithdrawalsBeforeShanghai
  | ErrEthone (code : Z).

(** [chain.GetHeader]. *)
Class HeaderReader : Type := GetHeader : Hash → Z → option Header.

(** [None] is a panic. *)
Class Engine (St : Type) : Type := {
  Author : Header → option (result engine_error Address);
  VerifyHeader : Header → option (result engine_error ());
  VerifyUncles : Block → option (result engine_error ());
  EnginePrepare : Header → option (result engine_error Header);
  EngineFinalize : Header → St → Body → option St;
  FinalizeAndAssemble : Header → St → Body → list Receipt → option (result engine_error Block * St)
}.
Arguments Author {St _}. Arguments VerifyHeader {St _}. Arguments VerifyUncles {St _}.
Arguments EnginePrepare {St _}.

(** ** The engine after the merge (consensus/beacon) *)

Definition MaximumExtraDataSize : Z := 32.
Definition MaxGasLimit : Z := 0x7fffffffffffffff.
Definition GWei : Z := 1000000000.

Definition with_Difficulty (h : Header) (d : option Z) : Header :=
  Header.MkHeader (Header.ParentHash h) (Header.UncleHash h) (Header.Coinbase h) (Header.Root h) (Header.TxHash h)
    (Header.ReceiptHash h) (Header.Bloom h) d (Header.Number h) (Header.GasLimit h) (Header.GasUsed h)
    (Header.Time h) (Header.Extra h) (Header.MixDigest h) (Header.Nonce h) (Header.BaseFee h) (Header.WithdrawalsHash h)
    (Header.BlobGasUsed h) (Header.ExcessBlobGas h) (Header.ParentBeaconRoot h) (Header.RequestsHash h).

Definition with_Root (h : Header) (root : Hash) : Header :=
  Header.MkHeader (Header.ParentHash h) (Header.UncleHash h) (Header.Coinbase h) root (Header.TxHash h)
    (Header.ReceiptHash h) (Header.Bloom h) (Header.Difficulty h) (Header.Number h) (Header.GasLimit h) (Header.GasUsed h)
    (Header.Time h) (Header.Extra h) (Header.MixDigest h) (Header.Nonce h) (Header.BaseFee h) (Header.WithdrawalsHash h)
    (Header.BlobGasUsed h) (Header.ExcessBlobGas h) (Header.ParentBeaconRoot h) (Header.RequestsHash h).

(** [if cond { return err }]. *)
Definition reject (cond : bool) (err : engine_error) (rest : option (result engine_error ())) : option (result engine_error ()) :=
  if cond then Some (Err err) else rest.

Definition isPostMerge (config : ChainConfig) (blockNum timestamp : Z) : bool :=
  let mergedAtGenesis := match TerminalTotalDifficulty config with Some ttd => ttd =? 0 | None => false end in
  mergedAtGenesis ||
  (match MergeNetsplitBlock config with Some b => blockNum >=? wrap64 b | None => false end) ||
  (match ShanghaiTime config with Some t => timestamp >=? t | None => false end).

(** Panics without a difficulty. *)
Definition IsPoSHeader (header : Header) : option bool := d ← Header.Difficulty header; Some (Cmp d 0 =? 0).

Definition absent {A} (x : option A) : bool := match x with None => true | Some _ => false end.

Definition verifyHeader `{BlockHashes} (config : ChainConfig) (header parent : Header) : option (result engine_error ()) :=
  reject (len (Header.Extra header) >? MaximumExtraDataSize) ErrExtraTooLong (
  reject (negb (Header.Nonce header =? 0)) errInvalidNonce (
  reject (negb (Header.UncleHash header =? EmptyUncleHash)) errInvalidUncleHash (
  reject (Header.Time header <=? Header.Time parent) errInvalidTimestamp (
  difficulty ← Header.Difficulty header;
  reject (negb (Cmp 0 difficulty =? 0)) ErrInvalidDifficulty (
  reject (Header.GasLimit header >? MaxGasLimit) ErrGasLimitTooHigh (
  reject (Header.GasUsed header >? Header.GasLimit header) ErrGasUsedTooHigh (
  number ← Header.Number header;
  parentNumber ← Header.Number parent;
  reject (negb (Cmp (number - parentNumber) 1 =? 0)) ErrInvalidNumber (
  fees ← VerifyEIP1559Header config parent header;
  match fees with
  | Err err => Some (Err (ErrFees err))
  | Ok _ =>
      let shanghai := Config.IsShanghai config (Header.Number header) (Header.Time header) in
      reject (shanghai && absent (Header.WithdrawalsHash header)) ErrMissingWithdrawalsHash (
      reject (negb shanghai && negb (absent (Header.WithdrawalsHash header))) ErrInvalidWithdrawalsHash (
      if negb (Config.IsCancun config (Header.Number header) (Header.Time header)) then
        reject (negb (absent (Header.ExcessBlobGas header))) ErrInvalidExcessBlobGas (
        reject (negb (absent (Header.BlobGasUsed header))) ErrInvalidBlobGasUsed (
        reject (negb (absent (Header.ParentBeaconRoot header))) ErrInvalidParentBeaconRoot (Some (Ok tt))))
      else
        reject (absent (Header.ParentBeaconRoot header)) ErrMissingBeaconRoot (
        blobs ← VerifyEIP4844Header config parent header;
        match blobs with Err err => Some (Err (ErrFees err)) | Ok _ => Some (Ok tt) end)))
  end)))))))).

(** The loop over the withdrawals in [Finalize]; amounts are in gwei. *)
Definition process_withdrawals {St} `{VMState St} (st : St) (ws : list Withdrawal) : St :=
  fold_left (λ st w, AddBalance st (wd_Address w) (wrap256 (Amount w * GWei))) ws st.

(** [Beacon{ethone}]: headers with a difficulty are left to [ethone].  The witness that
    it attaches to a block of a Verkle chain is not modelled. *)
Section Beacon.
Context {St : Type} `{Keccak, BlockHashes, VMState St, TxState St, HeaderReader}.
Context (config : ChainConfig) (ethone : Engine St).

Definition beacon_Author (header : Header) : option (result engine_error Address) :=
  pos ← IsPoSHeader header;
  if negb pos then Author header else Some (Ok (Header.Coinbase header)).

Definition beacon_VerifyHeader (header : Header) : option (result engine_error ()) :=
  number ← Header.Number header;
  match GetHeader (Header.ParentHash header) (wrap64 (wrap64 number - 1)) with
  | None => Some (Err ErrUnknownAncestor)
  | Some parent =>
      parentDifficulty ← Header.Difficulty parent;
      difficulty ← Header.Difficulty header;
      reject ((Z.sgn parentDifficulty =? 0) && (Z.sgn difficulty >? 0)) ErrInvalidTerminalBlock (
      if Z.sgn difficulty >? 0 then VerifyHeader header else verifyHeader config header parent)
  end.

Definition beacon_VerifyUncles (block : Block) : option (result engine_error ()) :=
  pos ← IsPoSHeader (blk_header block);
  if negb pos then VerifyUncles block
  else reject (len (blk_uncles block) >? 0) errTooManyUncles (Some (Ok tt)).

Definition beacon_Prepare (header : Header) : option (result engine_error Header) :=
  number ← Header.Number header;
  if negb (isPostMerge config (wrap64 number) (Header.Time header)) then EnginePrepare header
  else Some (Ok (with_Difficulty header (Some 0))).

Definition beacon_Finalize (header : Header) (st : St) (body : Body) : option St :=
  pos ← IsPoSHeader header;
  if negb pos then EngineFinalize header st body
  else Some (process_withdrawals st (default [] (bd_Withdrawals body))).

Definition beacon_FinalizeAndAssemble (header : Header) (st : St) (body : Body) (receipts : list Receipt)
    : option (result engine_error Block * St) :=
  pos ← IsPoSHeader header;
  if negb pos then FinalizeAndAssemble header st body receipts
  else
    let shanghai := Config.IsShanghai config (Header.Number header) (Header.Time header) in
    let ws := bd_Withdrawals body in
    if negb shanghai && (len (default [] ws) >? 0) then Some (Err ErrWithdrawalsBeforeShanghai, st)
    else
      let body := MkBody (bd_Transactions body) (bd_Uncles body) (if shanghai then Some (default [] ws) else ws) in
      st ← beacon_Finalize header st body;
      let '(root, st) := IntermediateRoot st true in
      block ← NewBlock (with_Root header root) body receipts;
      Some (Ok block, st).

Definition beacon : Engine St := {|
  Author := beacon_Author;
  VerifyHeader := beacon_VerifyHeader;
  VerifyUncles := beacon_VerifyUncles;
  EnginePrepare := beacon_Prepare;
  EngineFinalize := beacon_Finalize;
  FinalizeAndAssemble := beacon_FinalizeAndAssemble
|}.
End Beacon.

(** ** The checks of a block (core/block_validator.go) *)

Record ProcessResult : Type := MkProcessResult {
  pr_Receipts : list Receipt;
  pr_Requests : option (list bytes);
  pr_Logs : list BlockLog;
  pr_GasUsed : Z
}.

(** [bc.HasBlockAndState] and [bc.HasBlock]. *)
Class BlockStore : Type := {
  HasBlockAndState : Hash → Z → bool;
  HasBlock : Hash → Z → bool
}.

Inductive validation_error : Type :=
  | ErrKnownBlock | ErrEngine (err : engine_error)
  | ErrUncleHash | ErrTxHash | ErrMissingWithdrawals | ErrWithdrawalsHash | ErrWithdrawalsPresent
  | ErrSidecar | ErrBlobGasUsed | ErrBlobsPresent
  | ErrNilResult | ErrGasUsed | ErrBloom | ErrReceiptHash | ErrRequestsHash | ErrRequestsPresent | ErrRoot.

Definition invalid (cond : bool) (err : validation_error) (rest : option (result validation_error ())) : option (result validation_error ()) :=
  if cond then Some (Err err) else rest.

Section Validator.
Context {St : Type} `{Keccak, BlockHashes, TxState St}.
Context (config : ChainConfig).

(** The number of blobs of the transactions, unless one still has its sidecar. *)
Fixpoint count_blobs (txs : list Transaction) (blobs : Z) : result validation_error Z :=
  match txs with
  | [] => Ok blobs
  | tx :: txs =>
      let blobs := blobs + len (default [] (Tx.BlobHashes tx)) in
      match tx_sidecar tx with Some _ => Err ErrSidecar | None => count_blobs txs blobs end
  end.

(** The part of [ValidateBody] about the contents. *)
Definition check_body (block : Block) : option (result validation_error ()) :=
  let header := blk_header block in
  invalid (negb (CalcUncleHash (blk_uncles block) =? Header.UncleHash header)) ErrUncleHash (
  txHash ← derive_sha (map tx_EncodeIndex (blk_transactions block));
  invalid (negb (txHash =? Header.TxHash header)) ErrTxHash (
  withdrawals ←
    match Header.WithdrawalsHash header, blk_withdrawals block with
    | Some _, None => Some (Err ErrMissingWithdrawals)
    | Some want, Some ws =>
        hash ← derive_sha (map withdrawal_item ws);
        Some (if negb (hash =? want) then Err ErrWithdrawalsHash else Ok tt)
    | None, Some _ => Some (Err ErrWithdrawalsPresent)
    | None, None => Some (Ok tt)
    end;
  match withdrawals with
  | Err err => Some (Err err)
  | Ok _ =>
      match count_blobs (blk_transactions block) 0 with
      | Err err => Some (Err err)
      | Ok blobs =>
          match Header.BlobGasUsed header with
          | Some used => invalid (negb (wrap64 blobs =? used / BlobTxBlobGasPerBlob)) ErrBlobGasUsed (Some (Ok tt))
          | None => invalid (blobs >? 0) ErrBlobsPresent (Some (Ok tt))
          end
      end
  end)).

Definition ValidateBody `{BlockStore, Engine St} (block : Block) : option (result validation_error ()) :=
  let header := blk_header block in
  number ← Header.Number header;
  invalid (HasBlockAndState (hash_Header header) (wrap64 number)) ErrKnownBlock (
  uncles ← VerifyUncles block;
  match uncles with
  | Err err => Some (Err (ErrEngine err))
  | Ok _ =>
      r ← check_body block;
      match r with
      | Err err => Some (Err err)
      | Ok _ =>
          let parentNumber := wrap64 (wrap64 number - 1) in
          if negb (HasBlockAndState (Header.ParentHash header) parentNumber) then
            if negb (HasBlock (Header.ParentHash header) parentNumber) then Some (Err (ErrEngine ErrUnknownAncestor))
            else Some (Err (ErrEngine ErrPrunedAncestor))
          else Some (Ok tt)
      end
  end).

Definition ValidateState (block : Block) (st : St) (res : option ProcessResult) (stateless : bool)
    : option (result validation_error ()) :=
  match res with
  | None => Some (Err ErrNilResult)
  | Some res =>
      let header := blk_header block in
      invalid (negb (Header.GasUsed header =? pr_GasUsed res)) ErrGasUsed (
      invalid (negb (bool_decide (MergeBloom (pr_Receipts res) = Header.Bloom header))) ErrBloom (
      if stateless then Some (Ok tt)
      else
        receiptSha ← derive_sha (map EncodeIndex (pr_Receipts res));
        invalid (negb (receiptSha =? Header.ReceiptHash header)) ErrReceiptHash (
        let requests :=
          match Header.RequestsHash header with
          | Some want => if negb (CalcRequestsHash (default [] (pr_Requests res)) =? want) then Err ErrRequestsHash else Ok tt
          | None => if negb (absent (pr_Requests res)) then Err ErrRequestsPresent else Ok tt
          end in
        match requests with
        | Err err => Some (Err err)
        | Ok _ =>
            let '(root, _) := IntermediateRoot st (Config.IsEIP158 config (Header.Number header)) in
            invalid (negb (Header.Root header =? root)) ErrRoot (Some (Ok tt))
        end)))
  end.
End Validator.

(** ** The gas limit of the next block *)

Definition CalcGasLimit (parentGasLimit desiredLimit : Z) : Z :=
  let delta := wrap64 (parentGasLimit / GasLimitBoundDivisor - 1) in
  let limit := parentGasLimit in
  let desiredLimit := if desiredLimit <? MinGasLimit then MinGasLimit else desiredLimit in
  if limit <? desiredLimit then
    let limit := wrap64 (parentGasLimit + delta) in
    if limit >? desiredLimit then desiredLimit else limit
  else if limit >? desiredLimit then
    let limit := wrap64 (parentGasLimit - delta) in
    if limit <? desiredLimit then desiredLimit else limit
  else limit.

Lemma reject_ok cond err rest : reject cond err rest = Some (Ok tt) ↔ cond = false ∧ rest = Some (Ok tt).
Proof. unfold reject. destruct cond; split; [done|by intros []|done|by intros []]. Qed.

Lemma invalid_ok cond err rest : invalid cond err rest = Some (Ok tt) ↔ cond = false ∧ rest = Some (Ok tt).
Proof. unfold invalid. destruct cond; split; [done|by intros []|done|by intros []]. Qed.

(** ** A new block passes the checks of its body *)

Section NewBlock.
Context `{Keccak, BlockHashes}.

Lemma derive_sha_nil : derive_sha [] = Some EmptyRootHash.
Proof. reflexivity. Qed.

Lemma len_zero {A} (l : list A) : len l =? 0 = true → l = [].
Proof. rewrite Z.eqb_eq. unfold len. destruct l; [done|]. cbn. lia. Qed.

(** The constants for empty lists are what [DeriveSha] gives. *)
Lemma NewBlock_inv header body receipts block :
  NewBlock header body receipts = Some block →
  ∃ txHash receiptHash withdrawalsHash,
    derive_sha (map tx_EncodeIndex (bd_Transactions body)) = Some txHash ∧ derive_sha (map EncodeIndex receipts) = Some receiptHash ∧
    match bd_Withdrawals body with
    | None => withdrawalsHash = None
    | Some ws => ∃ h, derive_sha (map withdrawal_item ws) = Some h ∧ withdrawalsHash = Some h
    end ∧
    block = MkBlock (block_header header txHash receiptHash (if len receipts =? 0 then Header.Bloom header else MergeBloom receipts)
      (CalcUncleHash (bd_Uncles body)) withdrawalsHash) (bd_Uncles body) (bd_Transactions body) (bd_Withdrawals body).
Proof.
  unfold NewBlock. intros Hn.
  assert (Htx : (if len (bd_Transactions body) =? 0 then Some EmptyTxsHash else derive_sha (map tx_EncodeIndex (bd_Transactions body))) =
    derive_sha (map tx_EncodeIndex (bd_Transactions body))) by (destruct (len (bd_Transactions body) =? 0) eqn:He; [by apply len_zero in He as ->|done]).
  rewrite Htx in Hn. destruct (derive_sha (map tx_EncodeIndex _)) as [txHash|]; [|done]. cbn [mbind option_bind] in Hn. exists txHash.
  assert (Hr : (if len receipts =? 0 then Some (EmptyReceiptsHash, Header.Bloom header) else h ← derive_sha (map EncodeIndex receipts); Some (h, MergeBloom receipts)) =
    h ← derive_sha (map EncodeIndex receipts); Some (h, if len receipts =? 0 then Header.Bloom header else MergeBloom receipts))
    by (destruct (len receipts =? 0) eqn:He; [by apply len_zero in He as ->|done]).
  rewrite Hr in Hn. destruct (derive_sha (map EncodeIndex receipts)) as [receiptHash|]; [|done]. cbn [mbind option_bind] in Hn. exists receiptHash.
  assert (Hu : (if len (bd_Uncles body) =? 0 then EmptyUncleHash else CalcUncleHash (bd_Uncles body)) = CalcUncleHash (bd_Uncles body))
    by (unfold CalcUncleHash; by destruct (len (bd_Uncles body) =? 0)).
  rewrite Hu in Hn. destruct (bd_Withdrawals body) as [ws|]; [|injection Hn as <-; by exists None].
  assert (Hw : (if len ws =? 0 then Some (Some EmptyWithdrawalsHash) else Some <$> derive_sha (map withdrawal_item ws)) = Some <$> derive_sha (map withdrawal_item ws))
    by (destruct (len ws =? 0) eqn:He; [by apply len_zero in He as ->|done]).
  rewrite Hw in Hn. destruct (derive_sha (map withdrawal_item ws)) as [h|]; [|done]. injection Hn as <-. exists (Some h). split_and!; [done|done|by exists h|done].
Qed.

(** The blobs that the transactions refer to. *)
Definition total_blobs (txs : list Transaction) : Z := foldr (λ tx n, len (default [] (Tx.BlobHashes tx)) + n) 0 txs.

Lemma total_blobs_app a b : total_blobs (a ++ b) = total_blobs a + total_blobs b.
Proof. unfold total_blobs. induction a as [|tx a IH]; [done|]. cbn [app foldr]. rewrite IH. lia. Qed.

Lemma total_blobs_nonneg txs : 0 <= total_blobs txs.
Proof. unfold total_blobs. induction txs as [|tx txs IH]; cbn [foldr]; [done|]. pose proof (len_nonneg (default [] (Tx.BlobHashes tx))). lia. Qed.

Lemma count_blobs_total txs n : Forall (λ tx, tx_sidecar tx = None) txs → count_blobs txs n = Ok (n + total_blobs txs).
Proof.
  intros Hs. revert n. induction Hs as [|tx txs Hs _ IH]; intros n; cbn [count_blobs total_blobs foldr]; [f_equal; lia|].
  rewrite Hs, IH. f_equal. unfold total_blobs. lia.
Qed.

Lemma NewBlock_checked header body receipts block :
  NewBlock header body receipts = Some block → Forall (λ tx, tx_sidecar tx = None) (bd_Transactions body) →
  match Header.BlobGasUsed header with
  | Some used => used = total_blobs (bd_Transactions body) * BlobTxBlobGasPerBlob ∧ is_uint64 (total_blobs (bd_Transactions body))
  | None => total_blobs (bd_Transactions body) = 0
  end →
  check_body block = Some (Ok tt).
Proof.
  intros (th & rh & wh & Hth & Hrh & Hwh & ->)%NewBlock_inv Hs Hb. unfold check_body, block_header. cbn.
  rewrite Z.eqb_refl. apply invalid_ok. split; [done|]. rewrite Hth. cbn [mbind option_bind]. rewrite Z.eqb_refl. apply invalid_ok. split; [done|].
  assert (Hw : match wh, bd_Withdrawals body with
    | Some _, None => Some (Err ErrMissingWithdrawals)
    | Some want, Some ws => hash ← derive_sha (map withdrawal_item ws); Some (if negb (hash =? want) then Err ErrWithdrawalsHash else Ok tt)
    | None, Some _ => Some (Err ErrWithdrawalsPresent)
    | None, None => Some (Ok tt)
    end = Some (Ok tt)).
  { destruct (bd_Withdrawals body) as [ws|]; [|by rewrite Hwh]. destruct Hwh as (h & Hh & ->). rewrite Hh. cbn. by rewrite Z.eqb_refl. }
  rewrite Hw. cbn [mbind option_bind]. rewrite count_blobs_total by done. cbn [Z.add]. destruct (Header.BlobGasUsed header) as [used|].
  - destruct Hb as [-> Hr]. rewrite Z.div_mul by (unfold BlobTxBlobGasPerBlob; lia). rewrite wrap64_id, Z.eqb_refl by done. by apply invalid_ok.
  - rewrite Hb. by apply invalid_ok.
Qed.
End NewBlock.

(** ** The gas limit: theorem *)

(** The gas limit that a miner computes is one that a validator accepts.  Whatever
    limit is desired, the next one passes [VerifyGaslimit]; it lies between the
    parent's and the desired one, at the distance [parent / 1024 - 1] from the parent's
    or at the desired one when that is nearer, so that it gets there. *)
Theorem CalcGasLimit_accepted parent desired :
  MinGasLimit <= parent < 2 ^ 63 → 0 <= desired < 2 ^ 63 →
  let next := CalcGasLimit parent desired in
  let goal := Z.max desired MinGasLimit in
  VerifyGaslimit parent next = Ok tt ∧ Z.min parent goal <= next <= Z.max parent goal ∧
  Z.abs (goal - next) = Z.max 0 (Z.abs (goal - parent) - (parent / GasLimitBoundDivisor - 1)).
Proof.
  intros Hp Hd. cbv zeta. unfold CalcGasLimit. unfold MinGasLimit, GasLimitBoundDivisor in *.
  assert (4 <= parent / 1024) by (apply Z.div_le_lower_bound; lia). pose proof (Z.mul_div_le parent 1024 eq_refl).
  rewrite (wrap64_id (parent / 1024 - 1)) by ulia.
  assert ((if desired <? 5000 then 5000 else desired) = Z.max desired 5000) as -> by (destruct (Z.ltb_spec desired 5000); lia).
  set (goal := Z.max desired 5000). assert (5000 <= goal < 2 ^ 63) by lia.
  assert (Hgoal : ∀ next, Z.min parent goal <= next <= Z.max parent goal → Z.abs (goal - next) = Z.max 0 (Z.abs (goal - parent) - (parent / 1024 - 1)) →
    VerifyGaslimit parent next = Ok tt ∧ Z.min parent goal <= next <= Z.max parent goal ∧ Z.abs (goal - next) = Z.max 0 (Z.abs (goal - parent) - (parent / 1024 - 1))).
  { intros next Hb Hn. split_and!; [|lia|lia|done]. apply VerifyGaslimit_exact; unfold MinGasLimit, GasLimitBoundDivisor; lia. }
  rewrite !Z.gtb_ltb. destruct (Z.ltb_spec parent goal).
  - rewrite (wrap64_id (parent + _)) by ulia. destruct (Z.ltb_spec goal (parent + (parent / 1024 - 1))); apply Hgoal; lia.
  - destruct (Z.ltb_spec goal parent); [|apply Hgoal; lia].
    rewrite (wrap64_id (parent - _)) by ulia. destruct (Z.ltb_spec (parent - (parent / 1024 - 1)) goal); apply Hgoal; lia.
Qed.

Lemma CalcGasLimit_accepted_witness : VerifyGaslimit 30000000 (CalcGasLimit 30000000 36000000) = Ok tt ∧ CalcGasLimit 30000000 36000000 = 30029295.
Proof.
  split; [|vm_compute; reflexivity]. apply (CalcGasLimit_accepted 30000000 36000000); unfold MinGasLimit; lia.
Defined.

(** ** Accepted headers *)

(** What the fields that came with a fork have to be. *)
Definition fork_fields (config : ChainConfig) (header parent : Header) : Prop :=
  let n := Header.Number header in
  let t := Header.Time header in
  (is_Some (Header.WithdrawalsHash header) ↔ Config.IsShanghai config n t = true) ∧
  if Config.IsCancun config n t
  then is_Some (Header.ParentBeaconRoot header) ∧ VerifyEIP4844Header config parent header = Some (Ok tt)
  else Header.ExcessBlobGas header = None ∧ Header.BlobGasUsed header = None ∧ Header.ParentBeaconRoot header = None.

Lemma absent_true {A} (x : option A) : absent x = true ↔ x = None.
Proof. by destruct x. Qed.

Lemma absent_false {A} (x : option A) : absent x = false ↔ is_Some x.
Proof. destruct x; cbn; [|by rewrite is_Some_alt]. split; [by eexists|done]. Qed.

(** The headers that the engine accepts after the merge are exactly these: an extra
    of at most 32 bytes, no nonce, no uncles, difficulty zero, a later time and the
    next number, gas within the limit and below 2^63, the limit and the base fee that
    follow from the parent, and the fields of the active forks and of no other. *)
Theorem verifyHeader_exact `{BlockHashes} config header parent :
  verifyHeader config header parent = Some (Ok tt) ↔
  len (Header.Extra header) <= 32 ∧ Header.Nonce header = 0 ∧ Header.UncleHash header = EmptyUncleHash ∧
  Header.Time parent < Header.Time header ∧ Header.Difficulty header = Some 0 ∧
  Header.GasLimit header <= MaxGasLimit ∧ Header.GasUsed header <= Header.GasLimit header ∧
  (∃ n, Header.Number parent = Some n ∧ Header.Number header = Some (n + 1)) ∧
  VerifyEIP1559Header config parent header = Some (Ok tt) ∧ fork_fields config header parent.
Proof.
  unfold verifyHeader, MaximumExtraDataSize. rewrite !reject_ok, !Z.gtb_ltb, negb_false_iff, negb_false_iff, !Z.ltb_ge, !Z.leb_gt, !Z.eqb_eq.
  destruct (Header.Difficulty header) as [d|]; cbn [mbind option_bind]; [|split; [by intros (_ & _ & _ & _ & [=])|by intros (_ & _ & _ & _ & [=] & _)]].
  rewrite !reject_ok, ?Z.gtb_ltb, negb_false_iff, !Z.ltb_ge, Z.eqb_eq, Cmp_zero.
  destruct (Header.Number header) as [n|] eqn:Hnum; cbn [mbind option_bind]; [|split; [by intros (_ & _ & _ & _ & _ & _ & _ & [=])|by intros (_ & _ & _ & _ & _ & _ & _ & (? & _ & [=]) & _)]].
  destruct (Header.Number parent) as [p|]; cbn [mbind option_bind]; [|split; [by intros (_ & _ & _ & _ & _ & _ & _ & [=])|by intros (_ & _ & _ & _ & _ & _ & _ & (? & [=] & _) & _)]].
  rewrite reject_ok, negb_false_iff, Z.eqb_eq, Cmp_zero.
  assert (Hn : (∃ n0, Some p = Some n0 ∧ Some n = Some (n0 + 1)) ↔ n - p = 1) by (split; [intros (? & [= <-] & [= ->]); lia|intros ?; exists p; split; [done|f_equal; lia]]). rewrite Hn.
  assert (Hd : Some d = Some 0 ↔ 0 = d) by naive_solver. rewrite Hd.
  assert (Hrest : ∀ A B C D E F G I X Y : Prop, (X ↔ Y) → (A ∧ B ∧ C ∧ D ∧ E ∧ F ∧ G ∧ I ∧ X ↔ A ∧ B ∧ C ∧ D ∧ E ∧ F ∧ G ∧ I ∧ Y)) by tauto.
  apply Hrest. destruct (VerifyEIP1559Header config parent header) as [[[]|e]|]; cbn [mbind option_bind]; [|split; [done|by intros [[=] _]]..].
  unfold fork_fields. rewrite Hnum, !reject_ok. cbv zeta.
  assert (Hc : ∀ cancun : bool, (if negb cancun then
      reject (negb (absent (Header.ExcessBlobGas header))) ErrInvalidExcessBlobGas (reject (negb (absent (Header.BlobGasUsed header))) ErrInvalidBlobGasUsed
        (reject (negb (absent (Header.ParentBeaconRoot header))) ErrInvalidParentBeaconRoot (Some (Ok tt))))
    else reject (absent (Header.ParentBeaconRoot header)) ErrMissingBeaconRoot
      (VerifyEIP4844Header config parent header ≫= λ blobs, match blobs with Ok _ => Some (Ok tt) | Err err => Some (Err (ErrFees err)) end)) = Some (Ok tt) ↔
    if cancun then is_Some (Header.ParentBeaconRoot header) ∧ VerifyEIP4844Header config parent header = Some (Ok tt)
    else Header.ExcessBlobGas header = None ∧ Header.BlobGasUsed header = None ∧ Header.ParentBeaconRoot header = None).
  { intros [|]; cbn [negb]; rewrite !reject_ok; [|rewrite !negb_false_iff, !absent_true; tauto].
    rewrite absent_false. destruct (VerifyEIP4844Header config parent header) as [[[]|e]|]; cbn [mbind option_bind]; split; intros [? Hv]; by try split. }
  rewrite Hc. rewrite <- (absent_false (Header.WithdrawalsHash header)).
  destruct (Config.IsShanghai _ _ _), (absent (Header.WithdrawalsHash header)); cbn [andb negb]; intuition congruence.
Qed.

Lemma verifyHeader_exact_witness :
  let parent := header_at 20000000 30000000 15000000 1680000000 (Some 1000) None None in
  let header := Header.MkHeader 1 9 3 4 5 6 [] (Some 0) (Some 20000001) 30000000 0 1680000012 [] 0 0 (Some 1000) None None None None None in
  @verifyHeader {| hash_Header _ := 1; hash_Headers _ := 9; tx_EncodeIndex _ := [1]; Sha256 b := b |} Config.mainnet_like header parent = Some (Ok tt) ∧
  Header.GasUsed header <= Header.GasLimit header.
Proof.
  intros parent header. assert (Hv : @verifyHeader {| hash_Header _ := 1; hash_Headers _ := 9; tx_EncodeIndex _ := [1]; Sha256 b := b |} Config.mainnet_like header parent = Some (Ok tt)) by (vm_compute; reflexivity).
  split; [exact Hv|]. apply verifyHeader_exact in Hv. apply Hv.
Defined.
