(* ===== verification/StateProcessor.v ===== *)
(** * Processing a block

    parallelizable-client-go-ethereum: core/state_processor.go (the transactions of a
    block one after the other, the calls of the system before and after them, and
    the receipts), core/evm.go (the context that a header gives to the machine),
    core/types/deposit.go, and [MakeSigner].  The machine is the class [Machine]; the
    engine is that of Consensus.v. *)

From S2P Require Import Prelude Crypto ChainConfig BlockFees TxTypes Signers TxValidation GasRules VMInterface.
From S2P Require Import StateTransition TransitionTheorems StateTypes Receipts Consensus.
Import Header (Header).
Open Scope eigen_scope.

(** ** What a header gives to the machine (core/evm.go) *)

Record BlockContext : Type := MkContext {
  GetHash : Z → Hash;
  ctx_Coinbase : Address;
  BlockNumber : Z;
  ctx_Time : Z;
  ctx_Difficulty : Z;
  ctx_BaseFee : option Z;
  ctx_BlobBaseFee : option Z;
  ctx_GasLimit : Z;
  Random : option Hash
}.

(** The loop of [GetHashFn]: the answer, and what is put into the cache. *)
Fixpoint hash_loop `{HeaderReader} (fuel : nat) (n : Z) (lastKnownHash : Hash) (lastKnownNumber : Z) : Hash * list Hash :=
  match fuel with
  | O => (0, [])
  | S fuel =>
      match GetHeader lastKnownHash lastKnownNumber with
      | None => (0, [])
      | Some header =>
          let lastKnownNumber := wrap64 (wrap64 (default 0 (Header.Number header)) - 1) in
          if n =? lastKnownNumber then (Header.ParentHash header, [Header.ParentHash header])
          else
            let '(h, cache) := hash_loop fuel n (Header.ParentHash header) lastKnownNumber in
            (h, Header.ParentHash header :: cache)
      end
  end.

(** A call of the function that [GetHashFn] returns, on its cache; the fuel is the
    distance to the block that is asked for. *)
Definition GetHashFn `{HeaderReader} (ref : Header) (cache : list Hash) (n : Z) : Hash * list Hash :=
  let number := wrap64 (default 0 (Header.Number ref)) in
  if number <=? n then (0, cache)
  else
    let cache := match cache with [] => [Header.ParentHash ref] | _ => cache end in
    let idx := wrap64 (number - n - 1) in
    if idx <? len cache then (nth (Z.to_nat idx) cache 0, cache)
    else
      let lastKnownNumber := wrap64 (number - len cache) in
      let '(h, more) := hash_loop (Z.to_nat (number - n)) n (List.last cache 0) lastKnownNumber in
      (h, cache ++ more).

(** The hash [i] blocks above [h], whose number is [number]. *)
Fixpoint ancestor_hash `{HeaderReader} (i : nat) (h : Hash) (number : Z) : option Hash :=
  match i with
  | O => Some h
  | S i => header ← GetHeader h number; ancestor_hash i (Header.ParentHash header) (number - 1)
  end.

(** The reader gives headers of the number that they are asked with. *)
Definition numbered `{HeaderReader} : Prop := ∀ h number header, GetHeader h number = Some header → Header.Number header = Some number.

(** The cache holds the first ancestors of the block. *)
Definition good_cache `{HeaderReader} (ref : Header) (number : Z) (cache : list Hash) : Prop :=
  ∀ i h, cache !! i = Some h → ancestor_hash i (Header.ParentHash ref) (number - 1) = Some h.

Lemma ancestor_hash_add `{HeaderReader} i j h number x :
  ancestor_hash i h number = Some x → ancestor_hash (i + j) h number = ancestor_hash j x (number - Z.of_nat i).
Proof.
  revert h number. induction i as [|i IH]; intros h number; cbn [ancestor_hash Nat.add]; [intros [= ->]; by rewrite Z.sub_0_r|].
  destruct (GetHeader h number) as [header|]; cbn [mbind option_bind]; [|done]. intros Hx. rewrite (IH _ _ Hx). f_equal. lia.
Qed.

(** The loop ends within the distance to the block that is asked for. *)
Lemma hash_loop_spec `{HeaderReader} fuel n h number :
  numbered → 0 <= n < number → is_uint64 number → number - n <= Z.of_nat fuel →
  (hash_loop fuel n h number).1 = default 0 (ancestor_hash (Z.to_nat (number - n)) h number) ∧
  ∀ i x, (hash_loop fuel n h number).2 !! i = Some x → ancestor_hash (S i) h number = Some x.
Proof.
  intros Hnum. revert h number. induction fuel as [|fuel IH]; intros h number Hn Hu Hf; [lia|]. cbn [hash_loop].
  replace (Z.to_nat (number - n)) with (S (Z.to_nat (number - 1 - n))) by lia. cbn [ancestor_hash].
  destruct (GetHeader h number) as [header|] eqn:Hg; cbn [mbind option_bind]; [|by split].
  rewrite (Hnum _ _ _ Hg). change (default 0 (Some number)) with number. rewrite (wrap64_id number Hu), wrap64_id by ulia.
  destruct (Z.eqb_spec n (number - 1)) as [->|Hne].
  - rewrite Z.sub_diag. split; [done|]. intros [|i] x; cbn; [done|by destruct i].
  - destruct (IH (Header.ParentHash header) (number - 1)) as [Hr Hc]; [lia|ulia|lia|].
    destruct (hash_loop fuel n (Header.ParentHash header) (number - 1)) as [r cache]. cbn [fst snd] in *. split; [done|].
    intros [|i] x; cbn [lookup list_lookup]; [done|]. apply Hc.
Qed.

(** The function that answers [BLOCKHASH] gives the hash of the ancestor, whatever it
    has been asked before: the cache changes no answer. *)
Lemma GetHashFn_ancestor `{HeaderReader} ref number cache n :
  numbered → Header.Number ref = Some number → is_uint64 number → 0 <= n → good_cache ref number cache →
  let '(h, cache') := GetHashFn ref cache n in
  h = (if number <=? n then 0 else default 0 (ancestor_hash (Z.to_nat (number - 1 - n)) (Header.ParentHash ref) (number - 1))) ∧
  good_cache ref number cache'.
Proof.
  intros Hnum Href Hu Hn Hcache. unfold GetHashFn. rewrite Href. change (default 0 (Some number)) with number. rewrite (wrap64_id number Hu).
  destruct (Z.leb_spec number n) as [Hle|Hlt]; [done|].
  assert (∃ c cs, match cache with [] => [Header.ParentHash ref] | _ => cache end = c :: cs ∧ good_cache ref number (c :: cs)) as (c & cs & -> & Hgood).
  { destruct cache as [|c cs]; [|by exists c, cs]. exists (Header.ParentHash ref), []. split; [done|]. intros [|i] h; cbn; [done|by destruct i]. }
  rewrite (wrap64_id (number - n - 1)) by ulia. set (l := c :: cs) in *. pose proof (len_nonneg l).
  destruct (Z.ltb_spec (number - n - 1) (len l)) as [Hin|Hout].
  - split; [|done]. replace (number - 1 - n) with (number - n - 1) by lia.
    assert (Hl : (Z.to_nat (number - n - 1) < length l)%nat) by (unfold len in Hin; lia).
    apply lookup_lt_is_Some in Hl as [x Hx]. rewrite (Hgood _ _ Hx). by apply nth_lookup_Some.
  - assert (Hlen : len l = Z.of_nat (S (length cs))) by done.
    assert (Hlast : ancestor_hash (length cs) (Header.ParentHash ref) (number - 1) = Some (List.last l 0)).
    { apply Hgood. assert (Happ : l = removelast l ++ [List.last l 0]) by by apply app_removelast_last.
      assert (Hrl : length (removelast l) = length cs) by (apply (f_equal length) in Happ; rewrite length_app in Happ; cbn in Happ |- *; lia).
      rewrite Happ at 1. rewrite <- Hrl. by apply list_lookup_middle. }
    assert (Hadd : ∀ j, ancestor_hash (length cs + j) (Header.ParentHash ref) (number - 1) = ancestor_hash j (List.last l 0) (number - len l))
      by (intros j; rewrite (ancestor_hash_add _ j _ _ _ Hlast); f_equal; lia).
    rewrite (wrap64_id (number - len l)) by ulia.
    destruct (hash_loop_spec (Z.to_nat (number - n)) n (List.last l 0) (number - len l) Hnum) as [Hr Hc]; [lia|ulia|lia|].
    destruct (hash_loop _ _ _ _) as [r more]. cbn [fst snd] in Hr, Hc. split.
    + rewrite Hr, <- Hadd. do 2 f_equal. lia.
    + intros i x [Hx|[Hi Hx]]%lookup_app_Some; [by apply Hgood|]. apply Hc in Hx. rewrite <- Hadd in Hx. rewrite <- Hx. f_equal. unfold len in Hlen. lia.
Qed.

(** [author] is [None] when it is nil. *)
Definition NewEVMBlockContext `{HeaderReader} {St} `{Engine St} (config : ChainConfig) (header : Header) (author : option Address)
    : option BlockContext :=
  beneficiary ←
    match author with
    | Some a => Some a
    | None => r ← Author header; Some (match r with Ok a => a | Err _ => 0 end)
    end;
  blobBaseFee ← match Header.ExcessBlobGas header with None => Some None | Some _ => Some <$> CalcBlobFee config header end;
  difficulty ← Header.Difficulty header;
  number ← Header.Number header;
  Some (MkContext (λ n, (GetHashFn header [] n).1) beneficiary number (Header.Time header) difficulty (Header.BaseFee header)
    blobBaseFee (Header.GasLimit header) (if Z.sgn difficulty =? 0 then Some (Header.MixDigest header) else None)).

(** ** What is given *)

(** The machine of a block: [NewEVM] with a context; a call is made for a message. *)
Class Machine (St : Type) : Type := {
  vm_error : Type;
  mc_Create : BlockContext → Message → Address → bytes → Z → Z → St → bytes * Z * option vm_error * St;
  mc_Call : BlockContext → Message → Address → Address → bytes → Z → Z → St → bytes * Z * option vm_error * St;
  mc_Precompiles : Rules → list Address
}.

(** The hash and the recovery behind an authorization. *)
Class Recovery : Type := {
  rec_Hash : Z → list hash_item → Hash;
  rec_Ecrecover : Hash → bytes → option bytes
}.

(** Addresses of the configuration and of params/dao.go that ChainConfig.v leaves out. *)
Class Addresses : Type := {
  DepositContractAddress : Address;
  DAODrainList : list Address
}.

Definition SystemAddress : Address := 0xfffffffffffffffffffffffffffffffffffffffe.
Definition BeaconRootsAddress : Address := 0x000F3df6D732807Ef1319fB7B8bB8522d0Beac02.
Definition HistoryStorageAddress : Address := 0x0000F90827F1C53a10cb7A02335B175320002935.
Definition WithdrawalQueueAddress : Address := 0x00000961Ef480Eb55e80D19ad83579A64c007002.
Definition ConsolidationQueueAddress : Address := 0x0000BBdDc7CE488642fb579F8B00f3a590007251.
Definition DAORefundContract : Address := 0xbf4ed7b27f1d666546e30d74d50d173d20bca754.

(** [types.MakeSigner] *)
Definition MakeSigner (config : ChainConfig) (blockNumber : option Z) (blockTime : Z) : Signer :=
  let chainID := default 0 (cc_ChainID config) in
  if Config.IsPrague config blockNumber blockTime then pragueSigner chainID
  else if Config.IsCancun config blockNumber blockTime then cancunSigner chainID
  else if Config.IsLondon config blockNumber then londonSigner chainID
  else if Config.IsBerlin config blockNumber then eip2930Signer chainID
  else if Config.IsEIP155 config blockNumber then EIP155Signer chainID
  else if Config.IsHomestead config blockNumber then HomesteadSigner
  else FrontierSigner.

(** ** Requests *)

Definition bytes_at (data : bytes) (from n : nat) : bytes := take n (drop from data).

(** [None] is an error. *)
Definition DepositLogToRequest (data : bytes) : option bytes :=
  if negb (len data =? 576) then None
  else Some (bytes_at data 192 48 ++ bytes_at data 288 32 ++ bytes_at data 352 8 ++ bytes_at data 416 96 ++ bytes_at data 544 8).

Fixpoint deposits_of `{Addresses} (logs : list BlockLog) : option bytes :=
  match logs with
  | [] => Some []
  | l :: logs =>
      if log_Address (bl_Log l) =? DepositContractAddress then
        request ← DepositLogToRequest (log_Data (bl_Log l));
        rest ← deposits_of logs;
        Some (request ++ rest)
      else deposits_of logs
  end.

Definition ParseDepositLogs `{Addresses} (requests : list bytes) (logs : list BlockLog) : option (list bytes) :=
  deposits ← deposits_of logs;
  Some (if len (0 :: deposits) >? 1 then requests ++ [0 :: deposits] else requests).

Inductive apply_error : Type :=
  | ApplySender (err : signer_error)
  | ApplyCore (err : core_error).

Inductive process_error : Type :=
  | ErrApply (i : Z) (err : apply_error)
  | ErrDeposits.

Section Processor.
Context {St : Type} `{VMState St, TxState St, Machine St, Keccak, BlockHashes, Recovery, Addresses, Sending, HeaderReader, Engine St}.
Context (config : ChainConfig).

(** *** The machine's environment *)

Definition block_rules (ctx : BlockContext) : Rules :=
  let r := Config.rules config (Some (BlockNumber ctx)) (bool_decide (is_Some (Random ctx))) (ctx_Time ctx) in
  MkRules (Config.r_IsHomestead r) (Config.r_IsIstanbul r) (Config.r_IsLondon r) (Config.r_IsShanghai r) (Config.r_IsPrague r)
    (Config.r_IsEIP2929 r) (Config.r_IsEIP4762 r).

Definition block_env (ctx : BlockContext) : Env :=
  MkEnv (block_rules ctx) (Config.IsCancun config (Some (BlockNumber ctx)) (ctx_Time ctx)) (default 0 (cc_ChainID config))
    (ctx_Coinbase ctx) (ctx_BaseFee ctx) (ctx_BlobBaseFee ctx) false (mc_Precompiles (block_rules ctx)).

Definition apply_message (ctx : BlockContext) (msg : Message) : Z → St → outcome St (ExecutionResult vm_error) :=
  ApplyMessage rec_Hash keccak rec_Ecrecover (mc_Create ctx msg) (mc_Call ctx msg) (block_env ctx) msg.

(** *** One transaction *)

Definition GetLogs (st : St) (hash : Hash) (blockNumber : Z) (blockHash : Hash) : list BlockLog :=
  map (λ l, MkBlockLog l (wrap64 blockNumber) blockHash) (tx_logs st hash).

Definition MakeReceipt (ctx : BlockContext) (msg : Message) (result : ExecutionResult vm_error) (statedb : St) (blockNumber : Z)
    (blockHash : Hash) (tx : Transaction) (usedGas : Z) (root : bytes) : Receipt :=
  let blob := Tx.Type_ tx =? BlobTxType in
  let logs := GetLogs statedb (tx_hash tx) blockNumber blockHash in
  {| rc_Type := Tx.Type_ tx;
     PostState := root;
     Status := if Failed result then ReceiptStatusFailed else ReceiptStatusSuccessful;
     CumulativeGasUsed := usedGas;
     rc_Bloom := CreateBloom logs;
     Logs := logs;
     rc_TxHash := tx_hash tx;
     ContractAddress := match Tx.To tx with None => CreateAddress (From msg) (Tx.Nonce tx) | Some _ => 0 end;
     rc_GasUsed := UsedGas result;
     EffectiveGasPrice := None;
     rc_BlobGasUsed := if blob then wrap64 (len (default [] (Tx.BlobHashes tx)) * BlobTxBlobGasPerBlob) else 0;
     BlobGasPrice := if blob then ctx_BlobBaseFee ctx else None;
     rc_BlockHash := blockHash;
     rc_BlockNumber := Some blockNumber;
     TransactionIndex := TxIndex statedb |}.

(** The receipt and the gas used in the block so far, or the error; the pool and the
    state; [None] is a panic. *)
Definition ApplyTransactionWithEVM (ctx : BlockContext) (msg : Message) (gp : Z) (statedb : St) (blockNumber : Z) (blockHash : Hash)
    (tx : Transaction) (usedGas : Z) : option (result apply_error (Receipt * Z) * Z * St) :=
  match apply_message ctx msg gp statedb with
  | Panic => None
  | Fail err t => Some (Err (ApplyCore err), StateTransition.gp t, state t)
  | Done result t =>
      let '(root, statedb) :=
        if Config.IsByzantium config (Some blockNumber) then ([], Finalise (state t) true)
        else let '(root, st) := IntermediateRoot (state t) (Config.IsEIP158 config (Some blockNumber)) in (be_encode 32 root, st) in
      let usedGas := wrap64 (usedGas + UsedGas result) in
      Some (Ok (MakeReceipt ctx msg result statedb blockNumber blockHash tx usedGas root, usedGas), StateTransition.gp t, statedb)
  end.

Definition ApplyTransaction (ctx : BlockContext) (gp : Z) (statedb : St) (header : Header) (tx : Transaction) (usedGas : Z)
    : option (result apply_error (Receipt * Z) * Z * St) :=
  number ← Header.Number header;
  match TransactionToMessage (types_Sender (MakeSigner config (Header.Number header) (Header.Time header))) tx (Header.BaseFee header) with
  | (_, Some err) => Some (Err (ApplySender err), gp, statedb)
  | (msg, None) => ApplyTransactionWithEVM ctx msg gp statedb number (hash_Header header) tx usedGas
  end.

(** *** The calls of the system *)

Definition system_message (to : Address) (data : bytes) : Message :=
  MkMessage (Some to) SystemAddress 0 0 30000000 0 (Some 0) 0 data [] None None None false false.

Definition system_call (ctx : BlockContext) (to : Address) (data : bytes) (st : St) : bytes * option vm_error * St :=
  let '(ret, _, err, st) := mc_Call ctx (system_message to data) SystemAddress to data 30000000 0 (AddAddressToAccessList st to) in
  (ret, err, st).

Definition ProcessBeaconBlockRoot (ctx : BlockContext) (beaconRoot : Hash) (st : St) : St :=
  let '(_, _, st) := system_call ctx BeaconRootsAddress (be_encode 32 beaconRoot) st in Finalise st true.

Definition ProcessParentBlockHash (ctx : BlockContext) (prevHash : Hash) (st : St) : option St :=
  match system_call ctx HistoryStorageAddress (be_encode 32 prevHash) st with
  | (_, Some _, _) => None
  | (_, None, st) => Some (Finalise st true)
  end.

Definition processRequestsSystemCall (ctx : BlockContext) (requestType : Z) (addr : Address) (requests : list bytes) (st : St)
    : list bytes * St :=
  let '(ret, _, st) := system_call ctx addr [] st in
  let st := Finalise st true in
  if len ret =? 0 then (requests, st) else (requests ++ [requestType :: ret], st).

Definition ProcessWithdrawalQueue (ctx : BlockContext) := processRequestsSystemCall ctx 1 WithdrawalQueueAddress.
Definition ProcessConsolidationQueue (ctx : BlockContext) := processRequestsSystemCall ctx 2 ConsolidationQueueAddress.

(** The requests of a Prague block; [None] is the error of the deposits. *)
Definition collect_requests (ctx : BlockContext) (allLogs : list BlockLog) (st : St) : option (list bytes * St) :=
  requests ← ParseDepositLogs [] allLogs;
  let '(requests, st) := ProcessWithdrawalQueue ctx requests st in
  Some (ProcessConsolidationQueue ctx requests st).

Definition ApplyDAOHardFork (st : St) : St :=
  fold_left (λ st addr, SetBalance (AddBalance st DAORefundContract (GetBalance st addr)) addr 0) DAODrainList st.

(** *** The block *)

(** The loop over the transactions: the receipts, the pool and the gas used. *)
Fixpoint process_txs (ctx : BlockContext) (header : Header) (number : Z) (blockHash : Hash) (i : Z) (txs : list Transaction)
    (gp : Z) (st : St) (usedGas : Z) (receipts : list Receipt) : option (result process_error (list Receipt * Z * Z) * St) :=
  match txs with
  | [] => Some (Ok (receipts, gp, usedGas), st)
  | tx :: txs =>
      match TransactionToMessage (types_Sender (MakeSigner config (Header.Number header) (Header.Time header))) tx (Header.BaseFee header) with
      | (_, Some err) => Some (Err (ErrApply i (ApplySender err)), st)
      | (msg, None) =>
          let st := SetTxContext st (tx_hash tx) i in
          '(r, gp, st) ← ApplyTransactionWithEVM ctx msg gp st number blockHash tx usedGas;
          match r with
          | Err err => Some (Err (ErrApply i err), st)
          | Ok (receipt, usedGas) => process_txs ctx header number blockHash (i + 1) txs gp st usedGas (receipts ++ [receipt])
          end
      end
  end.

Definition block_body (block : Block) : Body := MkBody (blk_transactions block) (blk_uncles block) (blk_withdrawals block).

(** The calls before the transactions. *)
Definition pre_execution (ctx : BlockContext) (header : Header) (prague : bool) (st : St) : option St :=
  let st := match Header.ParentBeaconRoot header with Some root => ProcessBeaconBlockRoot ctx root st | None => st end in
  if prague then ProcessParentBlockHash ctx (Header.ParentHash header) st else Some st.

Definition Process (block : Block) (statedb : St) : option (result process_error ProcessResult * St) :=
  let header := blk_header block in
  number ← Header.Number header;
  gp ← AddGas 0 (Header.GasLimit header);
  let st :=
    if DAOForkSupport config && (match DAOForkBlock config with Some b => Cmp b number =? 0 | None => false end)
    then ApplyDAOHardFork statedb else statedb in
  ctx ← NewEVMBlockContext config header None;
  let prague := Config.IsPrague config (Header.Number header) (Header.Time header) in
  st ← pre_execution ctx header (prague || Config.IsVerkle config (Header.Number header) (Header.Time header)) st;
  '(r, st) ← process_txs ctx header number (hash_Header header) 0 (blk_transactions block) gp st 0 [];
  match r with
  | Err err => Some (Err err, st)
  | Ok (receipts, _, usedGas) =>
      let allLogs := concat (map Logs receipts) in
      match (if prague then '(requests, st) ← collect_requests ctx allLogs st; Some (Some requests, st) else Some (None, st)) with
      | None => Some (Err ErrDeposits, st)
      | Some (requests, st) =>
          st ← EngineFinalize header st (block_body block);
          Some (Ok (MkProcessResult receipts requests allLogs usedGas), st)
      end
  end.
End Processor.

(** ** States that cannot be told apart *)

(** A relation between states that the interface of VMInterface.v respects. *)
Class Respects (St : Type) `{VMState St} (R : relation St) : Prop := {
  rs_equiv :: Equivalence R;
  rs_balance s t a : R s t → GetBalance s a = GetBalance t a;
  rs_nonce s t a : R s t → GetNonce s a = GetNonce t a;
  rs_code s t a : R s t → GetCode s a = GetCode t a;
  rs_exist s t a : R s t → Exist s a = Exist t a;
  rs_refund s t : R s t → GetRefund s = GetRefund t;
  rs_sub s t a x : R s t → R (SubBalance s a x) (SubBalance t a x);
  rs_add s t a x : R s t → R (AddBalance s a x) (AddBalance t a x);
  rs_set_nonce s t a n : R s t → R (SetNonce s a n) (SetNonce t a n);
  rs_set_code s t a c : R s t → R (SetCode s a c) (SetCode t a c);
  rs_add_refund s t n : R s t → R (AddRefund s n) (AddRefund t n);
  rs_add_address s t a : R s t → R (AddAddressToAccessList s a) (AddAddressToAccessList t a);
  rs_prepare s t rules a c d p l : R s t → option_Forall2 R (Prepare s rules a c d p l) (Prepare t rules a c d p l)
}.

(** A run of the machine does not tell them apart either. *)
Definition run_respects {St VE} (R : relation St) (f : Z → Z → St → bytes * Z * option VE * St) : Prop :=
  ∀ gas value s t, R s t → (f gas value s).1 = (f gas value t).1 ∧ R (f gas value s).2 (f gas value t).2.

Section Respecting.
Context {St : Type} `{VMState St} (R : relation St) `{!Respects St R}.

Record same_transition (t u : Transition St) : Prop := {
  sm_gp : StateTransition.gp t = StateTransition.gp u;
  sm_gas : gasRemaining t = gasRemaining u;
  sm_initial : initialGas t = initialGas u;
  sm_state : R (state t) (state u)
}.

Definition same_outcome {A} (RA : relation A) (o o' : outcome St A) : Prop :=
  match o, o' with
  | Done a t, Done b u => RA a b ∧ same_transition t u
  | Fail e t, Fail f u => e = f ∧ same_transition t u
  | Panic, Panic => True
  | _, _ => False
  end.

Definition same_run {A} (RA : relation A) (m m' : Transition St → outcome St A) : Prop :=
  ∀ t u, same_transition t u → same_outcome RA (m t) (m' u).

Lemma same_bind {A B} (RA : relation A) (RB : relation B) m m' (f f' : A → Transition St → outcome St B) :
  same_run RA m m' → (∀ a b, RA a b → same_run RB (f a) (f' b)) → same_run RB (bind m f) (bind m' f').
Proof.
  intros Hm Hf t u Ht. specialize (Hm t u Ht). unfold bind. destruct (m t), (m' u); cbn in Hm; try done.
  destruct Hm. by apply Hf.
Qed.

Lemma same_ret {A} (a : A) : same_run eq (ret a) (ret a).
Proof. by intros t u Ht. Qed.
Lemma same_fail {A} (RA : relation A) e : same_run RA (fail e) (fail e).
Proof. by intros t u Ht. Qed.
Lemma same_panic {A} (RA : relation A) : same_run RA panic panic.
Proof. by intros t u Ht. Qed.
Lemma same_get : same_run same_transition get get.
Proof. by intros t u Ht. Qed.
Lemma same_set_state s s' : R s s' → same_run eq (set_state s) (set_state s').
Proof. intros Hs t u []. by repeat split. Qed.
Lemma same_set_gas g : same_run eq (set_gas g) (set_gas g).
Proof. intros t u []. by repeat split. Qed.
Lemma same_set_initial g : same_run eq (set_initial g) (set_initial g).
Proof. intros t u []. by repeat split. Qed.
Lemma same_set_pool g : same_run eq (set_pool g) (set_pool g).
Proof. intros t u []. by repeat split. Qed.
Lemma same_try {A} (r : result core_error A) : same_run eq (try r) (try r).
Proof. destruct r; [apply same_ret|apply same_fail]. Qed.
Lemma same_refuse c e : same_run eq (refuse c e) (refuse c e).
Proof. unfold refuse. destruct c; [apply same_fail|apply same_ret]. Qed.
End Respecting.

(** One step: both sides are the same command. *)
Ltac same_reads :=
  repeat match goal with
  | Hs : ?R ?s ?t |- context [GetBalance ?s ?a] => rewrite (rs_balance (R := R) s t a Hs)
  | Hs : ?R ?s ?t |- context [GetNonce ?s ?a] => rewrite (rs_nonce (R := R) s t a Hs)
  | Hs : ?R ?s ?t |- context [GetCode ?s ?a] => rewrite (rs_code (R := R) s t a Hs)
  | Hs : ?R ?s ?t |- context [Exist ?s ?a] => rewrite (rs_exist (R := R) s t a Hs)
  | Hs : ?R ?s ?t |- context [GetRefund ?s] => rewrite (rs_refund (R := R) s t Hs)
  end.

Ltac same_step :=
  match goal with
  | |- same_run _ _ (bind get _) (bind get _) =>
      eapply same_bind; [apply same_get|];
      let t := fresh "t" in let u := fresh "u" in let Ht := fresh "Ht" in
      intros t u Ht; destruct t, u, Ht; cbn [StateTransition.gp gasRemaining initialGas state] in *; subst; same_reads
  | |- same_run _ _ (bind _ _) (bind _ _) =>
      eapply (same_bind _ eq); [|let a := fresh "a" in intros a ? <-]
  | |- same_run _ _ (ret _) (ret _) => apply same_ret
  | |- same_run _ _ (fail _) (fail _) => apply same_fail
  | |- same_run _ _ panic panic => apply same_panic
  | |- same_run _ _ (try _) (try _) => apply same_try
  | |- same_run _ _ (refuse _ _) (refuse _ _) => apply same_refuse
  | |- same_run _ _ (set_gas _) (set_gas _) => apply same_set_gas
  | |- same_run _ _ (set_pool _) (set_pool _) => apply same_set_pool
  | |- same_run _ _ (set_initial _) (set_initial _) => apply same_set_initial
  | |- same_run _ _ (set_state _) (set_state _) => apply same_set_state
  | |- same_run _ _ (if ?c then _ else _) (if ?c then _ else _) => destruct c
  | |- same_run _ _ (match ?x with _ => _ end) (match ?x with _ => _ end) => destruct x
  end.

Section ApplyMessage.
Context {St : Type} `{VMState St} (R : relation St) `{!Respects St R}.
Context {VE : Type}.
Context (prefixedRlpHash : Z → list hash_item → Hash) (Keccak256 : bytes → bytes) (Ecrecover : Hash → bytes → option bytes).
Context (evm_Create : Address → bytes → Z → Z → St → bytes * Z * option VE * St).
Context (evm_Call : Address → Address → bytes → Z → Z → St → bytes * Z * option VE * St).
Context (env : Env) (msg : Message).

Lemma buyGas_same : same_run R eq (buyGas env msg) (buyGas env msg).
Proof. unfold buyGas. repeat same_step. by apply rs_sub. Qed.

Lemma preCheck_same : same_run R eq (preCheck env msg) (preCheck env msg).
Proof.
  unfold preCheck, check_nonce, check_sender, check_fees, check_blobs, check_blob_fee, check_auths.
  repeat (same_step || apply buyGas_same).
Qed.

Lemma charge_same : same_run R eq (charge_intrinsic env msg) (charge_intrinsic env msg).
Proof. unfold charge_intrinsic. repeat same_step. Qed.

Lemma check_transfer_same : same_run R eq (check_transfer env msg) (check_transfer env msg).
Proof.
  unfold check_transfer, CanTransfer. repeat same_step.
  match goal with |- same_run _ _ (match Prepare ?s ?a ?b ?c ?d ?e ?f with _ => _ end) (match Prepare ?t _ _ _ _ _ _ with _ => _ end) =>
    assert (Hp : option_Forall2 R (Prepare s a b c d e f) (Prepare t a b c d e f)) by by apply rs_prepare end.
  destruct Hp; repeat same_step. done.
Qed.

Lemma validate_same auth s t :
  R s t → (validateAuthorization prefixedRlpHash Keccak256 Ecrecover env auth s).1 = (validateAuthorization prefixedRlpHash Keccak256 Ecrecover env auth t).1 ∧
    R (validateAuthorization prefixedRlpHash Keccak256 Ecrecover env auth s).2 (validateAuthorization prefixedRlpHash Keccak256 Ecrecover env auth t).2.
Proof.
  intros Hs. unfold validateAuthorization. do 2 (case_match; [done|]). destruct (Authority _ _ _ auth) as [a|]; [|done].
  pose proof (rs_add_address s t a Hs) as Hadd. cbv zeta. same_reads. repeat (case_match; [done|]). done.
Qed.

Lemma apply_same auths s t :
  R s t → R (applyAuthorizations prefixedRlpHash Keccak256 Ecrecover env auths s) (applyAuthorizations prefixedRlpHash Keccak256 Ecrecover env auths t).
Proof.
  unfold applyAuthorizations. revert s t. induction auths as [|auth auths IH]; intros s t Hs; [done|]. cbn [fold_left]. apply IH.
  unfold applyAuthorization. destruct (validate_same auth s t Hs) as [Hr HR].
  destruct (validateAuthorization _ _ _ env auth s) as [r s'], (validateAuthorization _ _ _ env auth t) as [r' t']. cbn in Hr, HR. subst r'.
  destruct r as [a|e]; [|done]. cbv zeta. rewrite (rs_exist s' t' a HR).
  assert (Hx : R (if Exist t' a then AddRefund s' (CallNewAccountGas - TxAuthTupleGas) else s') (if Exist t' a then AddRefund t' (CallNewAccountGas - TxAuthTupleGas) else t'))
    by (destruct (Exist t' a); [by apply rs_add_refund|done]).
  destruct (auth_Address auth =? 0); cbn [snd]; by apply rs_set_code, rs_set_nonce.
Qed.

Lemma before_same dst s t :
  R s t → R (before_call prefixedRlpHash Keccak256 Ecrecover env msg s dst) (before_call prefixedRlpHash Keccak256 Ecrecover env msg t dst).
Proof.
  intros Hs. unfold before_call. cbv zeta. rewrite (rs_nonce s t _ Hs).
  assert (Hn : R (SetNonce s (From msg) (wrap64 (GetNonce t (From msg) + 1))) (SetNonce t (From msg) (wrap64 (GetNonce t (From msg) + 1)))) by by apply rs_set_nonce.
  set (s1 := SetNonce s _ _) in *. set (t1 := SetNonce t _ _) in *. clearbody s1 t1.
  assert (Ha : R (match msg_SetCodeAuthorizations msg with Some auths => applyAuthorizations prefixedRlpHash Keccak256 Ecrecover env auths s1 | None => s1 end)
    (match msg_SetCodeAuthorizations msg with Some auths => applyAuthorizations prefixedRlpHash Keccak256 Ecrecover env auths t1 | None => t1 end))
    by (destruct (msg_SetCodeAuthorizations msg); [by apply apply_same|done]).
  rewrite (rs_code _ _ dst Ha). destruct (ParseDelegation _); [by apply rs_add_address|done].
Qed.

Hypothesis Create_same : ∀ from code, run_respects R (evm_Create from code).
Hypothesis Call_same : ∀ from dst input, run_respects R (evm_Call from dst input).

Lemma evm_run_same g value s t : R s t →
  (evm_run prefixedRlpHash Keccak256 Ecrecover env evm_Create evm_Call msg g value s).1 = (evm_run prefixedRlpHash Keccak256 Ecrecover env evm_Create evm_Call msg g value t).1 ∧
  R (evm_run prefixedRlpHash Keccak256 Ecrecover env evm_Create evm_Call msg g value s).2 (evm_run prefixedRlpHash Keccak256 Ecrecover env evm_Create evm_Call msg g value t).2.
Proof. intros Hs. unfold evm_run. destruct (msg_To msg); [by apply Call_same, before_same|by apply Create_same]. Qed.

Lemma run_evm_same value :
  same_run R eq (run_evm prefixedRlpHash Keccak256 Ecrecover evm_Create evm_Call env msg value) (run_evm prefixedRlpHash Keccak256 Ecrecover evm_Create evm_Call env msg value).
Proof.
  intros t u [Hgp Hgas Hin HR]. rewrite !run_evm_spec, Hgas. destruct (evm_run_same (gasRemaining u) value _ _ HR) as [Heq HR'].
  destruct (evm_run _ _ _ _ _ _ _ _ _ (state t)) as [[[r g] e] s1], (evm_run _ _ _ _ _ _ _ _ _ (state u)) as [[[r' g'] e'] s2].
  cbn in Heq, HR'. injection Heq as -> -> ->. by repeat split.
Qed.

Lemma settle_same floor : same_run R eq (settle_gas env floor) (settle_gas env floor).
Proof. unfold settle_gas, calcRefund, gasUsed. repeat same_step. Qed.

Lemma returnGas_same : same_run R eq (returnGas msg) (returnGas msg).
Proof. unfold returnGas. repeat same_step. by apply rs_add. Qed.

Lemma pay_coinbase_same : same_run R eq (pay_coinbase env msg) (pay_coinbase env msg).
Proof. unfold pay_coinbase, gasUsed. repeat same_step; by apply rs_add. Qed.

(** Applying a message to states that cannot be told apart: the same result, and
    states that cannot be told apart. *)
Lemma ApplyMessage_same pool s t :
  R s t → same_outcome R eq (ApplyMessage prefixedRlpHash Keccak256 Ecrecover evm_Create evm_Call env msg pool s)
    (ApplyMessage prefixedRlpHash Keccak256 Ecrecover evm_Create evm_Call env msg pool t).
Proof.
  intros Hs. unfold ApplyMessage. assert (Hex : same_run R eq (execute prefixedRlpHash Keccak256 Ecrecover evm_Create evm_Call env msg)
    (execute prefixedRlpHash Keccak256 Ecrecover evm_Create evm_Call env msg)); [|apply Hex; by split].
  unfold execute, gasUsed.
  repeat (apply preCheck_same || apply charge_same || apply check_transfer_same || apply run_evm_same || apply settle_same ||
    apply returnGas_same || apply pay_coinbase_same || same_step).
Qed.
End ApplyMessage.

(** ** A block's transactions on states that cannot be told apart *)

(** What the interface of a block asks of such a relation. *)
Class BlockRespects (St : Type) `{VMState St, TxState St, Machine St} (R : relation St) : Prop := {
  br_state :: Respects St R;
  br_create ctx msg from code : run_respects R (mc_Create ctx msg from code);
  br_call ctx msg from dst input : run_respects R (mc_Call ctx msg from dst input);
  br_finalise s t b : R s t → R (Finalise s b) (Finalise t b);
  br_root s t b : R s t → (IntermediateRoot s b).1 = (IntermediateRoot t b).1 ∧ R (IntermediateRoot s b).2 (IntermediateRoot t b).2;
  br_context s t h i : R s t → R (SetTxContext s h i) (SetTxContext t h i)
}.

(** [same]: nothing tells the states apart.  [world]: only the logs, and the
    transaction that they are kept under, may.  Two laws say how the snapshot before a
    transaction is used: nothing, or the purchase of gas, has happened since. *)
Class BlockLaws (St : Type) `{VMState St, TxState St, Machine St} (same world : relation St) : Prop := {
  bl_same :: BlockRespects St same;
  bl_world :: BlockRespects St world;
  bl_weaker s t : same s t → world s t;
  bl_context_world s h i : world (SetTxContext s h i) s;
  bl_context_twice s h i h' i' : same (SetTxContext (SetTxContext s h i) h' i') (SetTxContext s h' i');
  bl_logs s t h : same s t → tx_logs s h = tx_logs t h;
  bl_index s t : same s t → TxIndex s = TxIndex t;
  bl_snapshot s : same (Snapshot s).2 s;
  bl_revert s : ∃ t, RevertToSnapshot (Snapshot s).2 (Snapshot s).1 = Some t ∧ same t s;
  bl_revert_bought s a x : ∃ t, RevertToSnapshot (SubBalance (Snapshot s).2 a x) (Snapshot s).1 = Some t ∧ same t s
}.

(** The receipt in another block. *)
Definition at_block (h : Hash) (r : Receipt) : Receipt :=
  MkReceipt (rc_Type r) (PostState r) (Status r) (CumulativeGasUsed r) (rc_Bloom r)
    (map (λ l, MkBlockLog (bl_Log l) (bl_BlockNumber l) h) (Logs r)) (rc_TxHash r) (ContractAddress r) (rc_GasUsed r)
    (EffectiveGasPrice r) (rc_BlobGasUsed r) (BlobGasPrice r) h (rc_BlockNumber r) (TransactionIndex r).

Lemma EncodeIndex_at_block h r : EncodeIndex (at_block h r) = EncodeIndex r.
Proof.
  unfold EncodeIndex, receiptRLP. assert (map log_item (Logs (at_block h r)) = map log_item (Logs r)) as -> by (cbn [at_block Logs]; by rewrite map_map). done.
Qed.

Lemma MergeBloom_at_block h receipts : MergeBloom (map (at_block h) receipts) = MergeBloom receipts.
Proof.
  unfold MergeBloom. generalize zero_bloom. induction receipts as [|r receipts IH]; intros b; [done|]. cbn [map fold_left].
  cbn [at_block Logs rc_Bloom]. unfold len. rewrite length_map. apply IH.
Qed.

Lemma deposits_at_block `{Addresses} h receipts : deposits_of (concat (map Logs (map (at_block h) receipts))) = deposits_of (concat (map Logs receipts)).
Proof.
  assert (Hd : ∀ l l', map bl_Log l = map bl_Log l' → deposits_of l = deposits_of l').
  { intros l. induction l as [|x l IH]; intros [|y l'] Hl; [done|done|done|]. injection Hl as Hx Hl. cbn [deposits_of]. by rewrite (IH l' Hl), Hx. }
  apply Hd. rewrite !concat_map, !map_map. f_equal. apply map_ext. intros r. cbn. by rewrite map_map.
Qed.

Section Replay.
Context {St : Type} `{VMState St, TxState St, Machine St, Keccak, BlockHashes, Recovery, Addresses, Sending, HeaderReader, Engine St}.
Context (config : ChainConfig).
Context (same world : relation St) `{!BlockLaws St same world}.

(** The outcomes of two applications: in other blocks, on other states. *)
Definition same_application (h' : Hash) (x y : option (result apply_error (Receipt * Z) * Z * St)) : Prop :=
  match x, y with
  | Some (Ok (r, used), gp, s), Some (Ok (r', used'), gp', t) => r' = at_block h' r ∧ used' = used ∧ gp' = gp ∧ same s t
  | Some (Err e, gp, s), Some (Err e', gp', t) => e' = e ∧ gp' = gp ∧ same s t
  | None, None => True
  | _, _ => False
  end.

Lemma MakeReceipt_same ctx msg result s t number h h' tx used root :
  same s t → MakeReceipt ctx msg result t number h' (Tx.WithoutBlobTxSidecar tx) used root = at_block h' (MakeReceipt ctx msg result s number h tx used root).
Proof.
  intros Hs. unfold MakeReceipt, at_block, GetLogs. cbn -[CreateBloom].
  assert (Hh : tx_hash (Tx.WithoutBlobTxSidecar tx) = tx_hash tx) by (unfold Tx.WithoutBlobTxSidecar; by destruct (inner tx)).
  assert (Hf : Tx.Type_ (Tx.WithoutBlobTxSidecar tx) = Tx.Type_ tx ∧ Tx.To (Tx.WithoutBlobTxSidecar tx) = Tx.To tx ∧
    Tx.Nonce (Tx.WithoutBlobTxSidecar tx) = Tx.Nonce tx ∧ Tx.BlobHashes (Tx.WithoutBlobTxSidecar tx) = Tx.BlobHashes tx).
  { unfold Tx.WithoutBlobTxSidecar, Tx.Type_, Tx.To, Tx.Nonce, Tx.BlobHashes. by destruct (inner tx) eqn:E; cbn; rewrite ?E. }
  destruct Hf as (-> & -> & -> & ->). rewrite Hh, (bl_logs s t _ Hs), (bl_index s t Hs), !map_map. cbn. f_equal.
  rewrite !CreateBloom_adds, !map_map. done.
Qed.

Lemma apply_same_block ctx msg gp s t number h h' tx used :
  same s t → same_application h' (ApplyTransactionWithEVM config ctx msg gp s number h tx used)
    (ApplyTransactionWithEVM config ctx msg gp t number h' (Tx.WithoutBlobTxSidecar tx) used).
Proof.
  intros Hs. unfold ApplyTransactionWithEVM, apply_message.
  pose proof (ApplyMessage_same same rec_Hash keccak rec_Ecrecover (mc_Create ctx msg) (mc_Call ctx msg) (block_env config ctx) msg
    (br_create ctx msg) (br_call ctx msg) gp s t Hs) as Ho.
  destruct (ApplyMessage _ _ _ _ _ _ _ gp s) as [a u|e u|], (ApplyMessage _ _ _ _ _ _ _ gp t) as [a' u'|e' u'|]; cbn in Ho; try done.
  - destruct Ho as [<- [Hgp _ _ Hst]]. destruct (Config.IsByzantium config (Some number)).
    + pose proof (br_finalise _ _ true Hst) as Hf. cbn. split_and!; [by apply MakeReceipt_same|done|done|done].
    + destruct (br_root _ _ (Config.IsEIP158 config (Some number)) Hst) as [Hr Hf].
      destruct (IntermediateRoot (state u) _) as [root s1], (IntermediateRoot (state u') _) as [root' t1]. cbn in Hr, Hf. subst root'. cbn.
      split_and!; [by apply MakeReceipt_same|done|done|done].
  - destruct Ho as [<- [Hgp _ _ Hst]]. cbn. done.
Qed.

(** The message does not depend on the sidecar. *)
Lemma TransactionToMessage_plain f tx base :
  f (Tx.WithoutBlobTxSidecar tx) = f tx → TransactionToMessage f (Tx.WithoutBlobTxSidecar tx) base = TransactionToMessage f tx base.
Proof.
  intros Hf. unfold TransactionToMessage. rewrite Hf. unfold Tx.WithoutBlobTxSidecar, Tx.GasPrice, Tx.GasTipCap, Tx.GasFeeCap, Tx.To, Tx.Nonce, Tx.Value, Tx.Gas,
    Tx.Data, Tx.AccessList_, Tx.BlobGasFeeCap, Tx.BlobHashes, Tx.SetCodeAuthorizations. by destruct (inner tx) eqn:E; cbn; rewrite ?E.
Qed.

Lemma process_txs_app ctx header number bh i txs txs' gp st used rs :
  process_txs config ctx header number bh i (txs ++ txs') gp st used rs =
  match process_txs config ctx header number bh i txs gp st used rs with
  | Some (Ok (rs, gp, used), st) => process_txs config ctx header number bh (i + len txs) txs' gp st used rs
  | r => r
  end.
Proof.
  revert i gp st used rs. induction txs as [|tx txs IH]; intros i gp st used rs; cbn [process_txs app]; [by rewrite Z.add_0_r|].
  destruct (TransactionToMessage _ tx _) as [msg [e|]]; [done|].
  destruct (ApplyTransactionWithEVM _ _ _ _ _ _ _ _ _) as [[[[[r u]|e] g] s]|]; cbn [mbind option_bind]; [|done..].
  rewrite IH. unfold len. cbn [length]. by replace (i + 1 + Z.of_nat (length txs)) with (i + Z.of_nat (S (length txs))) by lia.
Qed.

(** Only three fields of the header matter. *)
Lemma process_txs_header ctx h h' number bh i txs gp st used rs :
  Header.Number h' = Header.Number h → Header.Time h' = Header.Time h → Header.BaseFee h' = Header.BaseFee h →
  process_txs config ctx h' number bh i txs gp st used rs = process_txs config ctx h number bh i txs gp st used rs.
Proof.
  intros Hn Ht Hb. revert i gp st used rs. induction txs as [|tx txs IH]; intros i gp st used rs; cbn [process_txs]; [done|]. rewrite Hn, Ht, Hb.
  destruct (TransactionToMessage _ tx _) as [msg [e|]]; [done|].
  destruct (ApplyTransactionWithEVM _ _ _ _ _ _ _ _ _) as [[[[[r u]|e] g] s]|]; cbn [mbind option_bind]; [apply IH|done..].
Qed.

(** *** The calls of the system, and the withdrawals *)

Section Calls.
Context (R : relation St) `{!BlockRespects St R}.

Lemma system_call_same ctx to data s t :
  R s t → (system_call ctx to data s).1 = (system_call ctx to data t).1 ∧ R (system_call ctx to data s).2 (system_call ctx to data t).2.
Proof.
  intros Hs. unfold system_call. destruct (br_call ctx (system_message to data) SystemAddress to data 30000000 0 _ _ (rs_add_address s t to Hs)) as [Hr HR].
  destruct (mc_Call _ _ _ _ _ _ _ (AddAddressToAccessList s to)) as [[[r g] e] s1], (mc_Call _ _ _ _ _ _ _ (AddAddressToAccessList t to)) as [[[r' g'] e'] t1].
  cbn in *. by injection Hr as -> -> ->.
Qed.

Lemma requests_call_same ctx ty addr requests s t :
  R s t → (processRequestsSystemCall ctx ty addr requests s).1 = (processRequestsSystemCall ctx ty addr requests t).1 ∧
    R (processRequestsSystemCall ctx ty addr requests s).2 (processRequestsSystemCall ctx ty addr requests t).2.
Proof.
  intros Hs. unfold processRequestsSystemCall. destruct (system_call_same ctx addr [] s t Hs) as [Hr HR].
  destruct (system_call ctx addr [] s) as [[r e] s1], (system_call ctx addr [] t) as [[r' e'] t1]. cbn in Hr, HR. injection Hr as -> ->.
  pose proof (br_finalise _ _ true HR). by destruct (len r' =? 0).
Qed.

Lemma collect_requests_same ctx logs logs' s t :
  R s t → deposits_of logs' = deposits_of logs →
  match collect_requests ctx logs s, collect_requests ctx logs' t with
  | Some (reqs, s1), Some (reqs', t1) => reqs' = reqs ∧ R s1 t1
  | None, None => True
  | _, _ => False
  end.
Proof.
  intros Hs Hd. unfold collect_requests, ParseDepositLogs. rewrite Hd. destruct (deposits_of logs) as [deposits|]; cbn [mbind option_bind]; [|done].
  set (reqs := if len (0 :: deposits) >? 1 then _ else _). clearbody reqs. unfold ProcessWithdrawalQueue, ProcessConsolidationQueue.
  destruct (requests_call_same ctx 1 WithdrawalQueueAddress reqs s t Hs) as [H1' H2'].
  destruct (processRequestsSystemCall ctx 1 _ reqs s) as [r1 s1], (processRequestsSystemCall ctx 1 _ reqs t) as [r1' t1]. cbn in H1', H2'. subst r1'.
  destruct (requests_call_same ctx 2 ConsolidationQueueAddress r1 s1 t1 H2') as [H3' H4'].
  destruct (processRequestsSystemCall ctx 2 _ r1 s1) as [r2 s2], (processRequestsSystemCall ctx 2 _ r1 t1) as [r2' t2]. cbn in *. by subst.
Qed.

Lemma withdrawals_same ws s t : R s t → R (process_withdrawals s ws) (process_withdrawals t ws).
Proof.
  unfold process_withdrawals. revert s t. induction ws as [|w ws IH]; intros s t Hs; [done|]. cbn [fold_left]. by apply IH, rs_add.
Qed.
End Calls.
End Replay.
