(* ===== verification/BlockBuilder.v ===== *)
(** * Building a block

    parallelizable-client-go-ethereum/miner/worker.go: the header of the next block, the
    transactions that fill it, and the block that is assembled.  The transactions come
    in the order of MinerOrdering.v, are applied as in StateProcessor.v, and the engine
    of Consensus.v puts the block together.  The pool may change while the block is
    built: what it answers depends on the turn of the loop, and so does the signal that
    interrupts it. *)

From S2P Require Import TrieTheorems.
From S2P Require Import Prelude GoSort GoHeap Crypto ChainConfig BlockFees LegacyList TxTypes Signers TxValidation TxPool MinerOrdering.
From S2P Require Import GasRules VMInterface StateTransition TransitionTheorems StateTypes Receipts Consensus StateProcessor.
Import Header (Header).
Open Scope eigen_scope.

(** ** Headers *)

Definition with_used (h : Header) (gasUsed : Z) (blobGasUsed : option Z) : Header :=
  Header.MkHeader (Header.ParentHash h) (Header.UncleHash h) (Header.Coinbase h) (Header.Root h) (Header.TxHash h)
    (Header.ReceiptHash h) (Header.Bloom h) (Header.Difficulty h) (Header.Number h) (Header.GasLimit h) gasUsed
    (Header.Time h) (Header.Extra h) (Header.MixDigest h) (Header.Nonce h) (Header.BaseFee h) (Header.WithdrawalsHash h)
    blobGasUsed (Header.ExcessBlobGas h) (Header.ParentBeaconRoot h) (Header.RequestsHash h).

Definition with_RequestsHash (h : Header) (r : option Hash) : Header :=
  Header.MkHeader (Header.ParentHash h) (Header.UncleHash h) (Header.Coinbase h) (Header.Root h) (Header.TxHash h)
    (Header.ReceiptHash h) (Header.Bloom h) (Header.Difficulty h) (Header.Number h) (Header.GasLimit h) (Header.GasUsed h)
    (Header.Time h) (Header.Extra h) (Header.MixDigest h) (Header.Nonce h) (Header.BaseFee h) (Header.WithdrawalsHash h)
    (Header.BlobGasUsed h) (Header.ExcessBlobGas h) (Header.ParentBeaconRoot h) r.

Definition with_fees (h : Header) (gasLimit : Z) (baseFee : option Z) : Header :=
  Header.MkHeader (Header.ParentHash h) (Header.UncleHash h) (Header.Coinbase h) (Header.Root h) (Header.TxHash h)
    (Header.ReceiptHash h) (Header.Bloom h) (Header.Difficulty h) (Header.Number h) gasLimit (Header.GasUsed h)
    (Header.Time h) (Header.Extra h) (Header.MixDigest h) (Header.Nonce h) baseFee (Header.WithdrawalsHash h)
    (Header.BlobGasUsed h) (Header.ExcessBlobGas h) (Header.ParentBeaconRoot h) (Header.RequestsHash h).

Definition with_cancun (h : Header) (excess : Z) (beaconRoot : option Hash) : Header :=
  Header.MkHeader (Header.ParentHash h) (Header.UncleHash h) (Header.Coinbase h) (Header.Root h) (Header.TxHash h)
    (Header.ReceiptHash h) (Header.Bloom h) (Header.Difficulty h) (Header.Number h) (Header.GasLimit h) (Header.GasUsed h)
    (Header.Time h) (Header.Extra h) (Header.MixDigest h) (Header.Nonce h) (Header.BaseFee h) (Header.WithdrawalsHash h)
    (Some 0) (Some excess) beaconRoot (Header.RequestsHash h).

(** ** Data *)

Inductive interrupt_error : Type :=
  | errBlockInterruptedByNewHead
  | errBlockInterruptedByRecommit
  | errBlockInterruptedByTimeout.

Definition commitInterruptNone : Z := 0.
Definition commitInterruptNewHead : Z := 1.
Definition commitInterruptResubmit : Z := 2.
Definition commitInterruptTimeout : Z := 3.

(** [None] is the panic. *)
Definition signalToErr (signal : Z) : option interrupt_error :=
  if signal =? commitInterruptNewHead then Some errBlockInterruptedByNewHead
  else if signal =? commitInterruptResubmit then Some errBlockInterruptedByRecommit
  else if signal =? commitInterruptTimeout then Some errBlockInterruptedByTimeout
  else None.

Inductive commit_error : Type :=
  | ErrMaxBlobs
  | ErrApplied (err : apply_error).

Record environment (St : Type) : Type := MkEnvironment {
  env_state : St;
  tcount : Z;
  gasPool : option Z;
  env_evm : BlockContext;
  env_header : Header;
  env_txs : list Transaction;
  env_receipts : list Receipt;
  sidecars : list BlobTxSidecar;
  blobs : Z
}.
Arguments MkEnvironment {St}. Arguments env_state {St}. Arguments tcount {St}. Arguments gasPool {St}. Arguments env_evm {St}.
Arguments env_header {St}. Arguments env_txs {St}. Arguments env_receipts {St}. Arguments sidecars {St}. Arguments blobs {St}.

Record generateParams : Type := MkParams {
  gen_timestamp : Z;
  forceTime : bool;
  gen_parentHash : Hash;
  gen_coinbase : Address;
  gen_random : Hash;
  gen_withdrawals : option (list Withdrawal);
  gen_beaconRoot : option Hash;
  noTxs : bool
}.

Record MinerConfig : Type := MkMinerConfig {
  miner_ExtraData : bytes;
  miner_GasCeil : Z;
  miner_GasPrice : Z
}.

(** What the miner reads of the chain. *)
Record MinerChain (St : Type) : Type := MkMinerChain {
  mch_CurrentBlock : Header;
  mch_GetBlockByHash : Hash → option Header;
  mch_StateAt : Hash → option St
}.
Arguments mch_CurrentBlock {St}. Arguments mch_GetBlockByHash {St}. Arguments mch_StateAt {St}.

Inductive work_error : Type :=
  | ErrMissingParent
  | ErrTimestamp
  | ErrPrepare (err : engine_error)
  | ErrState
  | ErrWorkDeposits
  | ErrAssemble (err : engine_error).

Record newPayloadResult (St : Type) : Type := MkPayload {
  pl_block : Block;
  pl_fees : Z;
  pl_sidecars : list BlobTxSidecar;
  pl_stateDB : St;
  pl_receipts : list Receipt;
  pl_requests : option (list bytes)
}.
Arguments MkPayload {St}. Arguments pl_block {St}. Arguments pl_fees {St}. Arguments pl_sidecars {St}. Arguments pl_stateDB {St}.
Arguments pl_receipts {St}. Arguments pl_requests {St}.

(** [totalFees]: [None] when a receipt is missing, a panic. *)
Fixpoint total_fees (baseFee : option Z) (txs : list Transaction) (receipts : list Receipt) : option Z :=
  match txs, receipts with
  | [], _ => Some 0
  | tx :: txs, r :: receipts => rest ← total_fees baseFee txs receipts; Some (rc_GasUsed r * (Tx.EffectiveGasTip tx baseFee).1 + rest)
  | _ :: _, [] => None
  end.

Definition totalFees (block : Block) (receipts : list Receipt) : option Z :=
  total_fees (Header.BaseFee (blk_header block)) (blk_transactions block) receipts.

Section Miner.
Context {St : Type} `{VMState St, TxState St, Machine St, Keccak, BlockHashes, Recovery, Addresses, Sending, HeaderReader, Engine St, MapRange}.
Context (config : ChainConfig).
Implicit Types env : environment St.

(** ** One transaction *)

Definition set_env_state env (st : St) : environment St :=
  MkEnvironment st (tcount env) (gasPool env) (env_evm env) (env_header env) (env_txs env) (env_receipts env) (sidecars env) (blobs env).

(** The result of [core.ApplyTransaction] in the environment; a failure is reverted.
    [None] is a panic. *)
Definition applyTransaction env (tx : Transaction) : option (result commit_error Receipt * environment St) :=
  gp ← gasPool env;
  let '(snap, st) := Snapshot (env_state env) in
  '(r, gp', st) ← ApplyTransaction config (env_evm env) gp st (env_header env) tx (Header.GasUsed (env_header env));
  match r with
  | Err err =>
      st ← RevertToSnapshot st snap;
      Some (Err (ErrApplied err), MkEnvironment st (tcount env) (Some gp) (env_evm env) (env_header env) (env_txs env)
        (env_receipts env) (sidecars env) (blobs env))
  | Ok (receipt, usedGas) =>
      Some (Ok receipt, MkEnvironment st (tcount env) (Some gp') (env_evm env)
        (with_used (env_header env) usedGas (Header.BlobGasUsed (env_header env))) (env_txs env) (env_receipts env) (sidecars env) (blobs env))
  end.

Definition commitBlobTransaction env (tx : Transaction) : option (result commit_error () * environment St) :=
  sc ← tx_sidecar tx;
  if blobs env + len (Blobs sc) >? MaxBlobsPerBlock config (Header.Time (env_header env)) then Some (Err ErrMaxBlobs, env)
  else
    '(r, env) ← applyTransaction env tx;
    match r with
    | Err err => Some (Err err, env)
    | Ok receipt =>
        used ← Header.BlobGasUsed (env_header env);
        Some (Ok tt, MkEnvironment (env_state env) (tcount env + 1) (gasPool env) (env_evm env)
          (with_used (env_header env) (Header.GasUsed (env_header env)) (Some (wrap64 (used + rc_BlobGasUsed receipt))))
          (env_txs env ++ [Tx.WithoutBlobTxSidecar tx]) (env_receipts env ++ [receipt]) (sidecars env ++ [sc]) (blobs env + len (Blobs sc)))
    end.

Definition commitTransaction env (tx : Transaction) : option (result commit_error () * environment St) :=
  if Tx.Type_ tx =? BlobTxType then commitBlobTransaction env tx
  else
    '(r, env) ← applyTransaction env tx;
    match r with
    | Err err => Some (Err err, env)
    | Ok receipt =>
        Some (Ok tt, MkEnvironment (env_state env) (tcount env + 1) (gasPool env) (env_evm env) (env_header env)
          (env_txs env ++ [tx]) (env_receipts env ++ [receipt]) (sidecars env) (blobs env))
    end.

(** ** The transactions of a block *)

(** What the loop is at: the environment and the two sets. *)
Abbreviation loop_state := (environment St * transactionsByPriceAndNonce * transactionsByPriceAndNonce)%type.

(** The next transaction, and whether it is one of the blob transactions. *)
Definition choose (plainTxs blobTxs : transactionsByPriceAndNonce) : option (LazyTransaction * bool) :=
  match Peek plainTxs, Peek blobTxs with
  | None, None => None
  | None, Some (bltx, _) => Some (bltx, true)
  | Some (pltx, _), None => Some (pltx, false)
  | Some (pltx, ptip), Some (bltx, btip) => if ptip <? btip then Some (bltx, true) else Some (pltx, false)
  end.

(** [txs.Pop()] or [txs.Shift()] on the set the transaction came from. *)
Definition advance (f : transactionsByPriceAndNonce → option transactionsByPriceAndNonce) (blob : bool)
    (plainTxs blobTxs : transactionsByPriceAndNonce) : option (transactionsByPriceAndNonce * transactionsByPriceAndNonce) :=
  if blob then b ← f blobTxs; Some (plainTxs, b) else p ← f plainTxs; Some (p, blobTxs).

(** Whether the loop looks at the transaction at all: enough gas and blob space, still
    in the pool, replay protected only when that is allowed. *)
Definition candidate env (gp : Z) (ltx : LazyTransaction) (Get : Hash → option Transaction) : option Transaction :=
  let header := env_header env in
  if gp <? lazy_Gas ltx then None
  else if Config.IsCancun config (Header.Number header) (Header.Time header) &&
    (MaxBlobsPerBlock config (Header.Time header) - blobs env <? lazy_BlobGas ltx / BlobTxBlobGasPerBlob) then None
  else
    tx ← Resolve ltx Get;
    if Protected tx && negb (Config.IsEIP155 config (Header.Number header)) then None else Some tx.

(** The loop, with fuel; [Get] is the pool and [interrupt] the signal at each turn. *)
Fixpoint commit_loop (fuel turn : nat) (Get : nat → Hash → option Transaction) (interrupt : option (nat → Z))
    env (plainTxs blobTxs : transactionsByPriceAndNonce) : option (result interrupt_error () * environment St) :=
  match fuel with
  | O => None
  | S fuel =>
      let signal := match interrupt with Some f => f turn | None => commitInterruptNone end in
      if negb (signal =? commitInterruptNone) then err ← signalToErr signal; Some (Err err, env)
      else
        gp ← gasPool env;
        if gp <? TxGas then Some (Ok tt, env)
        else
          let blobTxs :=
            if negb (Empty blobTxs) && (blobs env >=? MaxBlobsPerBlock config (Header.Time (env_header env)))
            then Clear blobTxs else blobTxs in
          match choose plainTxs blobTxs with
          | None => Some (Ok tt, env)
          | Some (ltx, blob) =>
              match candidate env gp ltx (Get turn) with
              | None =>
                  '(plainTxs, blobTxs) ← advance Pop blob plainTxs blobTxs;
                  commit_loop fuel (S turn) Get interrupt env plainTxs blobTxs
              | Some tx =>
                  '(r, env) ← commitTransaction (set_env_state env (SetTxContext (env_state env) (tx_hash tx) (tcount env))) tx;
                  '(plainTxs, blobTxs) ←
                    match r with
                    | Ok _ | Err (ErrApplied (ApplyCore ErrNonceTooLow)) => advance Shift blob plainTxs blobTxs
                    | Err _ => advance Pop blob plainTxs blobTxs
                    end;
                  commit_loop fuel (S turn) Get interrupt env plainTxs blobTxs
              end
          end
  end.

Definition commitTransactions env (plainTxs blobTxs : transactionsByPriceAndNonce) (Get : nat → Hash → option Transaction)
    (interrupt : option (nat → Z)) : option (result interrupt_error () * environment St) :=
  gp ← match gasPool env with Some gp => Some gp | None => AddGas 0 (Header.GasLimit (env_header env)) end;
  let env := MkEnvironment (env_state env) (tcount env) (Some gp) (env_evm env) (env_header env) (env_txs env) (env_receipts env)
    (sidecars env) (blobs env) in
  commit_loop (S (weight plainTxs + weight blobTxs)) 0 Get interrupt env plainTxs blobTxs.

(** Moving the accounts with priority to a map of their own. *)
Definition prioritize (prio : list Address) (normal : gmap Address (list LazyTransaction))
    : gmap Address (list LazyTransaction) * gmap Address (list LazyTransaction) :=
  fold_left (λ pn account,
    match pn.2 !! account with
    | Some txs => if len txs >? 0 then (<[account := txs]> pn.1, delete account pn.2) else pn
    | None => pn
    end) prio (∅, normal).

(** One of the two rounds of [fillTransactions]. *)
Definition fill_round env (plain blob : gmap Address (list LazyTransaction)) (Get : nat → Hash → option Transaction)
    (interrupt : option (nat → Z)) : option (result interrupt_error () * environment St) :=
  if bool_decide (plain = ∅) && bool_decide (blob = ∅) then Some (Ok tt, env)
  else
    plainTxs ← newTransactionsByPriceAndNonce plain (Header.BaseFee (env_header env));
    blobTxs ← newTransactionsByPriceAndNonce blob (Header.BaseFee (env_header env));
    commitTransactions env plainTxs blobTxs Get interrupt.

(** [Pending] is that of the pool; [Get] and [interrupt] are given for each round. *)
Definition fillTransactions (tip : Z) (prio : list Address) (Pending : PendingFilter → gmap Address (list LazyTransaction))
    (Get : bool → nat → Hash → option Transaction) (interrupt : bool → option (nat → Z)) env
    : option (result interrupt_error () * environment St) :=
  minTip ← MustFromBig tip;
  baseFee ← match Header.BaseFee (env_header env) with None => Some None | Some f => Some <$> MustFromBig f end;
  blobFee ←
    match Header.ExcessBlobGas (env_header env) with
    | None => Some None
    | Some _ => fee ← CalcBlobFee config (env_header env); Some <$> MustFromBig fee
    end;
  let '(prioPlainTxs, normalPlainTxs) := prioritize prio (Pending (MkPendingFilter (Some minTip) baseFee blobFee true false)) in
  let '(prioBlobTxs, normalBlobTxs) := prioritize prio (Pending (MkPendingFilter (Some minTip) baseFee blobFee false true)) in
  '(r, env) ← fill_round env prioPlainTxs prioBlobTxs (Get true) (interrupt true);
  match r with
  | Err err => Some (Err err, env)
  | Ok _ => fill_round env normalPlainTxs normalBlobTxs (Get false) (interrupt false)
  end.

(** ** The block *)

Context (miner : MinerConfig) (chain : MinerChain St).

(** The header before the engine has prepared it. *)
Definition work_header (genParams : generateParams) (parent : Header) (timestamp : Z) : option Header :=
  parentNumber ← Header.Number parent;
  let number := Some (parentNumber + 1) in
  let header := Header.MkHeader (hash_Header parent) 0 (gen_coinbase genParams) 0 0 0 zero_bloom None number
    (CalcGasLimit (Header.GasLimit parent) (miner_GasCeil miner)) 0 timestamp (miner_ExtraData miner) (gen_random genParams) 0
    None None None None None None in
  if Config.IsLondon config number then
    baseFee ← CalcBaseFee config parent;
    let gasLimit :=
      if negb (Config.IsLondon config (Header.Number parent))
      then CalcGasLimit (wrap64 (Header.GasLimit parent * Config.ElasticityMultiplier)) (miner_GasCeil miner)
      else Header.GasLimit header in
    Some (with_fees header gasLimit (Some baseFee))
  else Some header.

(** [makeEnv], without the witness. *)
Definition makeEnv (parent header : Header) (coinbase : Address) : option (result work_error (environment St)) :=
  match mch_StateAt chain (Header.Root parent) with
  | None => Some (Err ErrState)
  | Some st =>
      ctx ← NewEVMBlockContext config header (Some coinbase);
      Some (Ok (MkEnvironment st 0 None ctx header [] [] [] 0))
  end.

(** The parent that is built on, and the timestamp. *)
Definition work_parent (genParams : generateParams) : result work_error (Header * Z) :=
  let* parent :=
    (if gen_parentHash genParams =? 0 then Ok (mch_CurrentBlock chain)
     else match mch_GetBlockByHash chain (gen_parentHash genParams) with Some h => Ok h | None => Err ErrMissingParent end) in
  let timestamp := gen_timestamp genParams in
  if Header.Time parent >=? timestamp then
    if forceTime genParams then Err ErrTimestamp else Ok (parent, wrap64 (Header.Time parent + 1))
  else Ok (parent, timestamp).

Definition prepareWork (genParams : generateParams) : option (result work_error (environment St)) :=
  match work_parent genParams with
  | Err err => Some (Err err)
  | Ok (parent, timestamp) =>
      header ← work_header genParams parent timestamp;
      prepared ← EnginePrepare header;
      match prepared with
      | Err err => Some (Err (ErrPrepare err))
      | Ok header =>
          header ←
            (if Config.IsCancun config (Header.Number header) (Header.Time header) then
              excess ← (if Config.IsCancun config (Header.Number parent) (Header.Time parent)
                        then CalcExcessBlobGas config parent timestamp else Some 0);
              Some (with_cancun header excess (gen_beaconRoot genParams))
            else Some header);
          made ← makeEnv parent header (gen_coinbase genParams);
          match made with
          | Err err => Some (Err err)
          | Ok env =>
              st ← pre_execution (env_evm env) header (Config.IsPrague config (Header.Number header) (Header.Time header)) (env_state env);
              Some (Ok (set_env_state env st))
          end
      end
  end.

(** The block from what was filled in. *)
Definition finishWork (genParams : generateParams) env : option (result work_error (newPayloadResult St)) :=
  let header := env_header env in
  let allLogs := concat (map Logs (env_receipts env)) in
  let prague := Config.IsPrague config (Header.Number header) (Header.Time header) in
  match (if prague then '(requests, st) ← collect_requests (env_evm env) allLogs (env_state env); Some (Some requests, st)
         else Some (None, env_state env)) with
  | None => Some (Err ErrWorkDeposits)
  | Some (requests, st) =>
      let header := match requests with Some reqs => with_RequestsHash header (Some (CalcRequestsHash reqs)) | None => header end in
      '(r, st) ← FinalizeAndAssemble header st (MkBody (env_txs env) [] (gen_withdrawals genParams)) (env_receipts env);
      match r with
      | Err err => Some (Err (ErrAssemble err))
      | Ok block =>
          fees ← totalFees block (env_receipts env);
          Some (Ok (MkPayload block fees (sidecars env) st (env_receipts env) requests))
      end
  end.

(** An interruption keeps what has been filled in. *)
Definition generateWork (prio : list Address) (Pending : PendingFilter → gmap Address (list LazyTransaction))
    (Get : bool → nat → Hash → option Transaction) (interrupt : bool → nat → Z) (genParams : generateParams)
    : option (result work_error (newPayloadResult St)) :=
  prepared ← prepareWork genParams;
  match prepared with
  | Err err => Some (Err err)
  | Ok env =>
      env ←
        (if noTxs genParams then Some env
         else '(_, env) ← fillTransactions (miner_GasPrice miner) prio Pending Get (λ round, Some (interrupt round)) env; Some env);
      finishWork genParams env
  end.
End Miner.

(** ** A filled block can be processed *)

(** Recovering a sender does not look at the sidecar. *)
Class SenderLaws `{Sending} : Prop :=
  sender_plain signer tx : types_Sender signer (Tx.WithoutBlobTxSidecar tx) = types_Sender signer tx.

(** What a pool gives: amounts that an encoding can hold, and sidecars that fit. *)
Record sound_tx (tx : Transaction) : Prop := {
  so_amounts : amounts_ok tx;
  so_sidecar : Tx.Type_ tx = BlobTxType → ∃ sc, tx_sidecar tx = Some sc ∧ 0 < len (Blobs sc) ∧ len (Blobs sc) = len (default [] (Tx.BlobHashes tx))
}.

Lemma plain_sidecar tx : tx_sidecar (Tx.WithoutBlobTxSidecar tx) = None.
Proof. unfold tx_sidecar, Tx.WithoutBlobTxSidecar. by destruct (inner tx) eqn:E; cbn; rewrite ?E. Qed.

Lemma plain_hashes tx : Tx.BlobHashes (Tx.WithoutBlobTxSidecar tx) = Tx.BlobHashes tx.
Proof. unfold Tx.BlobHashes, Tx.WithoutBlobTxSidecar. by destruct (inner tx) eqn:E; cbn; rewrite ?E. Qed.

Lemma plain_hash tx : tx_hash (Tx.WithoutBlobTxSidecar tx) = tx_hash tx.
Proof. unfold Tx.WithoutBlobTxSidecar. by destruct (inner tx). Qed.

Lemma plain_same tx : Tx.Type_ tx ≠ BlobTxType → Tx.WithoutBlobTxSidecar tx = tx ∧ Tx.BlobHashes tx = None.
Proof. unfold Tx.Type_, Tx.WithoutBlobTxSidecar, Tx.BlobHashes. by destruct (inner tx). Qed.

Lemma blob_cap tx hashes : Tx.BlobHashes tx = Some hashes → is_Some (Tx.BlobGasFeeCap tx).
Proof. unfold Tx.BlobHashes, Tx.BlobGasFeeCap. by destruct (inner tx). Qed.

Section Building.
Context {St : Type} `{VMState St, TxState St, Machine St, Keccak, BlockHashes, Recovery, Addresses, Sending, HeaderReader, Engine St}.
Context `{!VMStateLaws St, !SenderLaws}.
Context (config : ChainConfig) (same world : relation St) `{!BlockLaws St same world}.
Context (ctx : BlockContext) (hdr : Header) (number : Z).

(** The block: since London, with the fees of its forks, on a machine that does not
    make gas. *)
Record block_ok : Prop := {
  bk_number : Header.Number hdr = Some number;
  bk_ctx_number : BlockNumber ctx = number;
  bk_ctx_time : ctx_Time ctx = Header.Time hdr;
  bk_ctx_fee : ctx_BaseFee ctx = Header.BaseFee hdr;
  bk_london : Config.IsLondon config (Some number) = true;
  bk_fee : ∃ f, Header.BaseFee hdr = Some f ∧ 0 <= f;
  bk_blob_fee fee : ctx_BlobBaseFee ctx = Some fee → 0 <= fee;
  bk_cancun : Config.IsCancun config (Some number) (Header.Time hdr) = true → is_Some (ctx_BlobBaseFee ctx);
  bk_limit : is_uint64 (Header.GasLimit hdr);
  bk_machine msg : evm_gas_ok (mc_Create ctx msg) (mc_Call ctx msg);
  bk_blob_space : MaxBlobsPerBlock config (Header.Time hdr) * BlobTxBlobGasPerBlob < two64;
  bk_blob_fields : Header.BlobGasUsed hdr = None → MaxBlobsPerBlock config (Header.Time hdr) <= 0
}.

Context (Hok : block_ok).

(** A header of the block, at any time while it is filled. *)
Definition of_block (h : Header) : Prop := h = with_used hdr (Header.GasUsed h) (Header.BlobGasUsed h).

Lemma of_block_fields h : of_block h →
  Header.Number h = Some number ∧ Header.Time h = Header.Time hdr ∧ Header.BaseFee h = Header.BaseFee hdr ∧ Header.GasLimit h = Header.GasLimit hdr.
Proof. intros ->. cbn. rewrite (bk_number Hok). done. Qed.

Abbreviation signer_of := (types_Sender (MakeSigner config (Some number) (Header.Time hdr))).

(** An application from a state with a fresh snapshot: it does not panic, what it used
    is gone from the pool, and a failure has at most bought gas. *)
Lemma apply_spec msg tx gp st bh used :
  (msg, None) = TransactionToMessage signer_of tx (Header.BaseFee hdr) → amounts_ok tx → is_uint64 gp →
  ∃ r gp' st', ApplyTransactionWithEVM config ctx msg gp st number bh tx used = Some (r, gp', st') ∧
  match r with
  | Err _ => st' = st ∨ ∃ a x, st' = SubBalance st a x
  | Ok (receipt, used') => ∃ u, 0 <= u <= gp ∧ used' = wrap64 (used + u) ∧ gp' = gp - u ∧
      (Tx.Type_ tx = BlobTxType → rc_BlobGasUsed receipt = wrap64 (len (default [] (Tx.BlobHashes tx)) * BlobTxBlobGasPerBlob))
  end.
Proof.
  intros Hmsg Ha Hgp. destruct (bk_fee Hok) as (f & Hf & Hf0). rewrite Hf in Hmsg.
  pose proof (message_ok (block_env config ctx) signer_of tx f Ha (eq_trans (bk_ctx_fee Hok) Hf) Hf0 (bk_blob_fee Hok)) as Hm. cbv zeta in Hm.
  rewrite <- Hmsg in Hm. cbn [fst] in Hm. destruct Hm as (Hm & Hcap & _).
  assert (Hlondon : IsLondon (env_rules (block_env config ctx)) = true) by (cbn; rewrite (bk_ctx_number Hok); apply (bk_london Hok)).
  assert (Hrun : run_ok (block_env config ctx) (mc_Create ctx msg) (mc_Call ctx msg) msg gp) by (split; [done|done|done|apply (bk_machine Hok)|done]).
  assert (Hfees : fees_present (block_env config ctx) msg).
  { split; [by rewrite Hcap|intros _; cbn; by rewrite (bk_ctx_fee Hok), Hf|]. cbn. rewrite (bk_ctx_number Hok), (bk_ctx_time Hok). intros Hc Hb.
    split; [|by apply (bk_cancun Hok)]. unfold blobGasUsed in Hb. unfold TransactionToMessage in Hmsg.
    destruct (signer_of tx) as [a|e]; [|done]. injection Hmsg as ->. cbn in Hb |- *. destruct (Tx.BlobHashes tx) eqn:Hh; [by eapply blob_cap|by vm_compute in Hb]. }
  pose proof (ApplyMessage_spec rec_Hash keccak rec_Ecrecover (block_env config ctx) (mc_Create ctx msg) (mc_Call ctx msg) msg gp st Hrun) as Hspec.
  unfold wp in Hspec. unfold ApplyTransactionWithEVM, apply_message.
  destruct (ApplyMessage _ _ _ _ _ _ _ gp st) as [a u|e u|].
  - destruct Hspec as [Hck Hu Hpool _ _ _ _]. cbn [newStateTransition StateTransition.gp] in *.
    pose proof (ck_pool _ _ _ Hck) as Hle. cbn [newStateTransition StateTransition.gp] in Hle.
    destruct (if Config.IsByzantium config (Some number) then _ else _) as [root st1]. eexists _, _, _. split; [done|].
    exists (UsedGas a). split_and!; [lia|lia|done|done|]. intros Hb. cbn. by rewrite Hb, Z.eqb_refl.
  - eexists _, _, _. split; [done|]. destruct Hspec as [->|(bc & mg & gas & _ & ->)]; cbn; [by left|right; by eexists _, _].
  - exfalso. destruct Hspec as [Hno|Hrules]; [done|]. cbn in Hrules. by rewrite <- andb_assoc, andb_negb_l, andb_false_r in Hrules.
Qed.

(** *** The invariant of the environment *)

Context (p0 : St).

Definition pool_of (env : environment St) : Z := default (Header.GasLimit hdr) (gasPool env).

(** Processing these transactions from the parent's state gives the receipts, the pool
    and the gas used, and a state that only a context may tell from this one. *)
Definition replays (txs : list Transaction) (receipts : list Receipt) (gp used : Z) (st : St) : Prop :=
  ∀ bh, ∃ p, process_txs config ctx hdr number bh 0 txs (Header.GasLimit hdr) p0 0 [] = Some (Ok (map (at_block bh) receipts, gp, used), p) ∧
    ∀ h i, same (SetTxContext st h i) (SetTxContext p h i).

Record built (env : environment St) : Prop := {
  bt_evm : env_evm env = ctx;
  bt_header : of_block (env_header env);
  bt_count : tcount env = len (env_txs env);
  bt_gas : 0 <= pool_of env ∧ 0 <= Header.GasUsed (env_header env) ∧ pool_of env + Header.GasUsed (env_header env) = Header.GasLimit hdr;
  bt_replay : replays (env_txs env) (env_receipts env) (pool_of env) (Header.GasUsed (env_header env)) (env_state env);
  bt_blobs : blobs env = total_blobs (env_txs env) ∧ (blobs env = 0 ∨ blobs env <= MaxBlobsPerBlock config (Header.Time hdr));
  bt_blob_gas :
    match Header.BlobGasUsed (env_header env) with
    | Some used => is_Some (Header.BlobGasUsed hdr) ∧ used = total_blobs (env_txs env) * BlobTxBlobGasPerBlob
    | None => Header.BlobGasUsed hdr = None ∧ total_blobs (env_txs env) = 0
    end;
  bt_plain : Forall (λ tx, tx_sidecar tx = None) (env_txs env)
}.

(** The states of the invariant are those that [same] does not tell apart under any
    context; a failed transaction comes back to one. *)
Lemma context_back st st' p h i :
  (∀ h i, same (SetTxContext st h i) (SetTxContext p h i)) → same st' (SetTxContext st h i) → ∀ h' i', same (SetTxContext st' h' i') (SetTxContext p h' i').
Proof.
  intros Hst Hback h' i'. transitivity (SetTxContext (SetTxContext st h i) h' i'); [by apply br_context|].
  transitivity (SetTxContext st h' i'); [apply bl_context_twice|apply Hst].
Qed.

Lemma process_one bh txs rs gp used p tx msg r gp' used' p' :
  process_txs config ctx hdr number bh 0 txs (Header.GasLimit hdr) p0 0 [] = Some (Ok (rs, gp, used), p) →
  TransactionToMessage signer_of tx (Header.BaseFee hdr) = (msg, None) →
  ApplyTransactionWithEVM config ctx msg gp (SetTxContext p (tx_hash tx) (len txs)) number bh tx used = Some (Ok (r, used'), gp', p') →
  process_txs config ctx hdr number bh 0 (txs ++ [tx]) (Header.GasLimit hdr) p0 0 [] = Some (Ok (rs ++ [r], gp', used'), p').
Proof.
  intros Hp Hm Ha. rewrite process_txs_app, Hp. cbn [process_txs]. rewrite (bk_number Hok), Hm, Z.add_0_l. by rewrite Ha.
Qed.

(** A transaction in the environment. *)
Lemma apply_step env gp tx :
  built env → gasPool env = Some gp → sound_tx tx →
  ∃ r env', applyTransaction config (set_env_state env (SetTxContext (env_state env) (tx_hash tx) (tcount env))) tx = Some (r, env') ∧
  match r with
  | Err _ => built env' ∧ gasPool env' = Some gp
  | Ok receipt => ∃ gp' used' st',
      env' = MkEnvironment st' (tcount env) (Some gp') ctx (with_used (env_header env) used' (Header.BlobGasUsed (env_header env)))
        (env_txs env) (env_receipts env) (sidecars env) (blobs env) ∧
      0 <= gp' ∧ 0 <= used' ∧ gp' + used' = Header.GasLimit hdr ∧
      (Tx.Type_ tx = BlobTxType → rc_BlobGasUsed receipt = wrap64 (len (default [] (Tx.BlobHashes tx)) * BlobTxBlobGasPerBlob)) ∧
      replays (env_txs env ++ [Tx.WithoutBlobTxSidecar tx]) (env_receipts env ++ [receipt]) gp' used' st'
  end.
Proof.
  intros Hb Hgp Htx. pose proof Hb as [Hevm Hhdr Hcount (Hg0 & Hu0 & Hsum) Hrep Hblobs Hbg Hplain]. unfold pool_of in Hg0, Hsum, Hrep. rewrite Hgp in Hg0, Hsum, Hrep.
  change (default (Header.GasLimit hdr) (Some gp)) with gp in *.
  pose proof (bk_limit Hok) as Hlim. destruct (of_block_fields _ Hhdr) as (Hn & Ht & Hf & _).
  unfold applyTransaction. cbn [set_env_state gasPool env_state env_evm env_header tcount env_txs env_receipts sidecars blobs]. rewrite Hgp. cbn [mbind option_bind].
  set (st1 := SetTxContext (env_state env) (tx_hash tx) (tcount env)).
  destruct (Snapshot st1) as [snap s1] eqn:Hsnap. pose proof (bl_snapshot st1) as Hsame1. rewrite Hsnap in Hsame1. cbn [snd] in Hsame1.
  assert (Hfail : ∀ t, same t st1 → built (MkEnvironment t (tcount env) (Some gp) (env_evm env) (env_header env) (env_txs env) (env_receipts env) (sidecars env) (blobs env))).
  { intros t Hback. split; cbn; try done. intros bh. destruct (Hrep bh) as (p & Hp & Hs). exists p. split; [done|]. by eapply context_back. }
  unfold ApplyTransaction. rewrite Hn, Ht, Hf, Hevm. cbn [mbind option_bind].
  destruct (TransactionToMessage signer_of tx (Header.BaseFee hdr)) as [msg [e|]] eqn:Hmsg.
  { cbn. pose proof (bl_revert st1) as (t & Hrev & Hback). rewrite Hsnap in Hrev. cbn in Hrev. rewrite Hrev. cbn. eexists _, _. split; [done|].
    rewrite <- Hevm. split; [by apply Hfail|done]. }
  destruct (apply_spec msg tx gp s1 (hash_Header (env_header env)) (Header.GasUsed (env_header env)) (eq_sym Hmsg) (so_amounts _ Htx)) as (r & gp' & st' & Happ & Hr); [unfold is_uint64 in *; lia|].
  rewrite Happ. cbn [mbind option_bind]. destruct r as [[receipt used']|err].
  - eexists _, _. split; [done|]. destruct Hr as (u & Hu & -> & -> & Hrb). cbn in Hu.
    rewrite wrap64_id in Happ |- * by (unfold is_uint64 in *; lia). eexists _, _, _. split; [done|]. split_and!; [lia|lia|lia|done|].
    intros bh. destruct (Hrep bh) as (p & Hp & Hs).
    assert (Hsame2 : same s1 (SetTxContext p (tx_hash tx) (len (env_txs env)))) by (etransitivity; [exact Hsame1|]; unfold st1; rewrite Hcount; apply Hs).
    pose proof (apply_same_block config same world ctx msg gp _ _ number (hash_Header (env_header env)) bh tx (Header.GasUsed (env_header env)) Hsame2) as Hblock.
    rewrite Happ in Hblock. cbn in Hblock. destruct (ApplyTransactionWithEVM _ _ _ _ _ _ _ (Tx.WithoutBlobTxSidecar tx) _) as [[[[[r' u']|e'] g'] p']|] eqn:Happ'; try done.
    destruct Hblock as (-> & -> & -> & Hs'). exists p'. split; [|intros h i; by apply br_context].
    rewrite map_app. cbn [map]. eapply process_one; [exact Hp|rewrite TransactionToMessage_plain; [exact Hmsg|apply sender_plain]|by rewrite plain_hash].
  - assert (Hrev : ∃ t, RevertToSnapshot st' snap = Some t ∧ same t st1).
    { destruct Hr as [->|(a & x & ->)]; [pose proof (bl_revert st1) as (t & Hrev & Hback)|pose proof (bl_revert_bought st1 a x) as (t & Hrev & Hback)];
        rewrite Hsnap in Hrev; by exists t. }
    destruct Hrev as (t & -> & Hback). cbn. eexists _, _. split; [done|]. rewrite <- Hevm. split; [by apply Hfail|done].
Qed.

Lemma built_context env h i : built env → built (set_env_state env (SetTxContext (env_state env) h i)).
Proof.
  intros [Hevm Hhdr Hcount Hg Hrep Hblobs Hbg Hplain]. split; cbn; try done. intros bh. destruct (Hrep bh) as (p & Hp & Hs). exists p. split; [done|].
  eapply context_back; [exact Hs|]. reflexivity.
Qed.

Lemma commit_step env gp tx :
  built env → gasPool env = Some gp → sound_tx tx →
  ∃ r env', commitTransaction config (set_env_state env (SetTxContext (env_state env) (tx_hash tx) (tcount env))) tx = Some (r, env') ∧
    built env' ∧ is_Some (gasPool env').
Proof.
  intros Hb Hgp Htx. pose proof (built_context env (tx_hash tx) (tcount env) Hb) as Hb1. pose proof Hb as [Hevm Hhdr Hcount Hg Hrep [Hbl Hblm] Hbg Hplain].
  destruct (apply_step env gp tx Hb Hgp Htx) as (r & env' & Happ & Hr). destruct (of_block_fields _ Hhdr) as (_ & Ht & _ & _).
  pose proof (total_blobs_nonneg (env_txs env)) as Hnn. unfold commitTransaction, commitBlobTransaction.
  destruct (Z.eqb_spec (Tx.Type_ tx) BlobTxType) as [Hty|Hty].
  - destruct (so_sidecar _ Htx Hty) as (sc & -> & Hsc & Hlen). cbn [mbind option_bind]. cbn [set_env_state blobs env_header]. rewrite Ht, Z.gtb_ltb.
    destruct (Z.ltb_spec (MaxBlobsPerBlock config (Header.Time hdr)) (blobs env + len (Blobs sc))) as [Hmax|Hmax].
    { eexists _, _. split; [done|]. split; [done|]. by eexists. }
    rewrite Happ. cbn [mbind option_bind]. destruct r as [receipt|err]; [|destruct Hr as [Hb' Hgp']; eexists _, _; split; [done|]; split; [done|by eexists]].
    destruct Hr as (gp' & used' & st' & -> & Hgp0 & Hu0 & Hsum & Hrb & Hrep'). cbn [env_header].
    change (Header.BlobGasUsed (with_used (env_header env) used' (Header.BlobGasUsed (env_header env)))) with (Header.BlobGasUsed (env_header env)).
    destruct (Header.BlobGasUsed (env_header env)) as [used|] eqn:Hused.
    2: { destruct Hbg as [Hnone _]. pose proof (bk_blob_fields Hok Hnone). lia. }
    cbn [mbind option_bind]. eexists _, _. split; [done|]. split; [|by eexists].
    assert (Htot : total_blobs (env_txs env ++ [Tx.WithoutBlobTxSidecar tx]) = total_blobs (env_txs env) + len (Blobs sc))
      by (rewrite total_blobs_app; unfold total_blobs at 2; cbn [foldr]; rewrite plain_hashes, Hlen; lia).
    pose proof (bk_blob_space Hok) as Hspace. unfold BlobTxBlobGasPerBlob in *.
    split; cbn [env_evm env_header env_txs env_receipts env_state tcount gasPool blobs pool_of default from_option].
    + done.
    + unfold of_block in *. rewrite Hhdr. done.
    + unfold len. rewrite length_app. unfold len in Hcount. cbn. lia.
    + cbn. lia.
    + exact Hrep'.
    + rewrite Htot. split; [lia|right; lia].
    + cbn [with_used Header.BlobGasUsed]. destruct Hbg as [Hfield Hbg]. split; [done|]. rewrite (Hrb Hty), <- Hlen, Htot, Hbg. rewrite (wrap64_id (len (Blobs sc) * 131072)) by (unfold is_uint64; lia). rewrite wrap64_id by (unfold is_uint64; lia). unfold BlobTxBlobGasPerBlob; lia.
    + apply Forall_app. split; [done|]. apply Forall_singleton, plain_sidecar.
  - rewrite Happ. cbn [mbind option_bind]. destruct r as [receipt|err]; [|destruct Hr as [Hb' Hgp']; eexists _, _; split; [done|]; split; [done|by eexists]].
    destruct Hr as (gp' & used' & st' & -> & Hgp0 & Hu0 & Hsum & Hrb & Hrep'). eexists _, _. split; [done|]. split; [|by eexists].
    destruct (plain_same tx Hty) as [Hsame Hnone].
    assert (Htot : total_blobs (env_txs env ++ [tx]) = total_blobs (env_txs env))
      by (rewrite total_blobs_app; unfold total_blobs at 2; cbn [foldr]; rewrite Hnone; change (len (default [] None)) with 0; lia).
    rewrite Hsame in Hrep'. split; cbn [env_evm env_header env_txs env_receipts env_state tcount gasPool blobs pool_of default from_option].
    + done.
    + unfold of_block in *. rewrite Hhdr. done.
    + unfold len. rewrite length_app. unfold len in Hcount. cbn. lia.
    + cbn. lia.
    + exact Hrep'.
    + by rewrite Htot.
    + cbn [with_used Header.BlobGasUsed]. by rewrite Htot.
    + apply Forall_app. split; [done|]. apply Forall_singleton. rewrite <- Hsame. apply plain_sidecar.
Qed.

(** *** The loop *)

(** Whatever the pool answers for these transactions is sound. *)
Definition sound_slices (Get : nat → Hash → option Transaction) (m : Address → list LazyTransaction) : Prop :=
  ∀ a ltx n tx, ltx ∈ m a → Resolve ltx (Get n) = Some tx → sound_tx tx.

(** A step of a set that takes something away. *)
Definition takes (f : transactionsByPriceAndNonce → option transactionsByPriceAndNonce) : Prop :=
  ∀ t m h hs, stands t m → heads t = h :: hs →
  ∃ t' m', f t = Some t' ∧ stands t' m' ∧ (∀ a ltx, ltx ∈ m' a → ltx ∈ m a) ∧ (weight t' < weight t)%nat.

Lemma Pop_takes : takes Pop.
Proof.
  intros t m h hs Hs Hh. destruct (Pop_stands t m h hs Hs Hh) as (t' & HP & Hs' & Hw & _). exists t', (set_slice m (fee_from h) []).
  split_and!; [done|done| |lia]. intros a ltx. unfold set_slice. case_decide; [by intros ?%elem_of_nil|done].
Qed.

Lemma Shift_takes : takes Shift.
Proof.
  intros t m h hs Hs Hh. destruct (Shift_stands t m h hs Hs Hh) as (t' & HP & Hs' & Hw & _). exists t', (set_slice m (fee_from h) (tail (m (fee_from h)))).
  split_and!; [done|done| |done]. intros a ltx. unfold set_slice. case_decide; [subst; destruct (m (fee_from h)); [done|by right]|done].
Qed.

Lemma choose_spec plain blob ltx (b : bool) :
  choose plain blob = Some (ltx, b) → ∃ h hs, heads (if b then blob else plain) = h :: hs ∧ fee_tx h = ltx.
Proof.
  unfold choose, Peek. intros Hc. destruct (heads plain) as [|hp hps] eqn:Hp, (heads blob) as [|hb hbs] eqn:Hb; cbn in Hc; [done| | |].
  - injection Hc as <- <-. rewrite Hb. by eexists _, _.
  - injection Hc as <- <-. rewrite Hp. by eexists _, _.
  - destruct (fees hp <? fees hb); injection Hc as <- <-; [rewrite Hb|rewrite Hp]; by eexists _, _.
Qed.

Lemma advance_takes f (b : bool) plain blob mp mb Get h hs :
  takes f → stands plain mp → stands blob mb → sound_slices Get mp → sound_slices Get mb → heads (if b then blob else plain) = h :: hs →
  ∃ plain' blob' mp' mb', advance f b plain blob = Some (plain', blob') ∧ stands plain' mp' ∧ stands blob' mb' ∧
    sound_slices Get mp' ∧ sound_slices Get mb' ∧ (weight plain' + weight blob' < weight plain + weight blob)%nat.
Proof.
  intros Hf Hp Hb Hsp Hsb Hh. unfold advance. destruct b.
  - destruct (Hf blob mb h hs Hb Hh) as (t' & m' & -> & Hs & Hsub & Hw). exists plain, t', mp, m'. split_and!; try done; [|lia].
    intros a ltx n tx Hin. by apply (Hsb a), Hsub.
  - destruct (Hf plain mp h hs Hp Hh) as (t' & m' & -> & Hs & Hsub & Hw). exists t', blob, m', mb. split_and!; try done; [|lia].
    intros a ltx n tx Hin. by apply (Hsp a), Hsub.
Qed.

Lemma Clear_stands t : stands (Clear t) (λ _, []) ∧ weight (Clear t) = 0%nat.
Proof.
  split; [|unfold weight; cbn; by rewrite map_fold_empty].
  split; cbn; [by intros i j Hi|apply NoDup_nil_2|by intros h ?%elem_of_nil|done].
Qed.

Lemma candidate_resolves (env : environment St) gp ltx Get tx : candidate config env gp ltx Get = Some tx → Resolve ltx Get = Some tx.
Proof.
  unfold candidate. destruct (gp <? lazy_Gas ltx); [done|]. destruct (_ && (_ <? _)); [done|]. destruct (Resolve ltx Get) as [t|]; cbn; [|done].
  by destruct (_ && _).
Qed.

(** The loop ends, without a panic, and what it has built can be processed. *)
Lemma commit_loop_built fuel turn Get interrupt env plain blob mp mb :
  built env → is_Some (gasPool env) → stands plain mp → stands blob mb → sound_slices Get mp → sound_slices Get mb →
  (∀ f n, interrupt = Some f → 0 <= f n <= 3) → (weight plain + weight blob < fuel)%nat →
  ∃ r env', commit_loop config fuel turn Get interrupt env plain blob = Some (r, env') ∧ built env' ∧ is_Some (gasPool env').
Proof.
  intros Hb Hgp Hp Hbl Hsp Hsb Hint. revert turn env plain blob mp mb Hb Hgp Hp Hbl Hsp Hsb. induction fuel as [|fuel IH]; intros turn env plain blob mp mb Hb Hgp Hp Hbl Hsp Hsb Hw; [lia|].
  cbn [commit_loop]. destruct (negb _) eqn:Hsig.
  { destruct interrupt as [f|]; [|done]. pose proof (Hint f turn eq_refl) as Hf. apply negb_true_iff, Z.eqb_neq in Hsig. unfold commitInterruptNone in Hsig.
    unfold signalToErr, commitInterruptNewHead, commitInterruptResubmit, commitInterruptTimeout.
    assert (Hcase : f turn = 1 ∨ f turn = 2 ∨ f turn = 3) by lia. destruct Hcase as [-> |[-> | ->]]; cbn; eexists _, _; by split_and!. }
  destruct Hgp as [gp Hgp]. rewrite Hgp. cbn [mbind option_bind]. destruct (gp <? TxGas); [eexists _, _; by split_and!|].
  set (blob1 := if (_ : bool) then Clear blob else blob).
  assert (∃ mb1 : slices, stands blob1 mb1 ∧ sound_slices Get mb1 ∧ (weight plain + weight blob1 < S fuel)%nat) as (mb1 & Hbl1 & Hsb1 & Hw1).
  { unfold blob1. destruct (_ && _); [|by exists mb]. destruct (Clear_stands blob) as [Hc Hcw]. exists (λ _, []). rewrite Hcw. split_and!; [done| |lia]. by intros a ltx n tx ?%elem_of_nil. }
  clearbody blob1. destruct (choose plain blob1) as [[ltx b]|] eqn:Hch; [|eexists _, _; by split_and!].
  destruct (choose_spec _ _ _ _ Hch) as (h & hs & Hh & Hl).
  assert (Hadv : ∀ f env', takes f → built env' → is_Some (gasPool env') → ∃ r env'',
    ('(plain, blob) ← advance f b plain blob1; commit_loop config fuel (S turn) Get interrupt env' plain blob) = Some (r, env'') ∧ built env'' ∧ is_Some (gasPool env'')).
  { intros f env' Hf Hb' Hgp'. destruct (advance_takes f b plain blob1 mp mb1 Get h hs Hf Hp Hbl1 Hsp Hsb1 Hh) as (plain' & blob' & mp' & mb' & -> & Hp' & Hbl' & Hsp' & Hsb' & Hw').
    cbn [mbind option_bind]. eapply IH; try done. lia. }
  destruct (candidate config env gp ltx (Get turn)) as [tx|] eqn:Hcand; [|apply Hadv; [apply Pop_takes|done|by eexists]].
  assert (Htx : sound_tx tx).
  { apply candidate_resolves in Hcand. destruct b; [destruct (st_first _ _ Hbl1 h) as [Hm _]|destruct (st_first _ _ Hp h) as [Hm _]]; try (rewrite Hh; by left).
    - apply (Hsb1 (fee_from h) ltx turn); [rewrite Hm, Hl; by left|done].
    - apply (Hsp (fee_from h) ltx turn); [rewrite Hm, Hl; by left|done]. }
  destruct (commit_step env gp tx Hb Hgp Htx) as (r & env' & -> & Hb' & Hgp'). cbn [mbind option_bind].
  destruct r as [[]|[|[e|[]]]]; by apply Hadv; try apply Pop_takes; try apply Shift_takes.
Qed.

(** *** The two rounds *)

Context `{!MapRange}.

(** The pool answers with sound transactions, never with an empty slice. *)
Record pool_sound (Pending : PendingFilter → gmap Address (list LazyTransaction)) (Get : bool → nat → Hash → option Transaction) : Prop := {
  ps_some f a l : Pending f !! a = Some l → l ≠ [];
  ps_carried f a l ltx tx : Pending f !! a = Some l → ltx ∈ l → lazy_Tx ltx = Some tx → sound_tx tx;
  ps_got round n h tx : Get round n h = Some tx → sound_tx tx
}.

(** Slices that the pool has answered with. *)
Definition from_pool (Get : nat → Hash → option Transaction) (m : gmap Address (list LazyTransaction)) : Prop :=
  ∀ a l, m !! a = Some l → l ≠ [] ∧ ∀ ltx n tx, ltx ∈ l → Resolve ltx (Get n) = Some tx → sound_tx tx.

Lemma pool_sound_from Pending Get round f : pool_sound Pending Get → from_pool (Get round) (Pending f).
Proof.
  intros [Hs Hc Hg] a l Hl. split; [by eapply Hs|]. intros ltx n tx Hin. unfold Resolve. destruct (lazy_Tx ltx) as [t|] eqn:Ht; [intros [= <-]; by eapply Hc|apply Hg].
Qed.

Lemma prioritize_incl prio m a l :
  (prioritize prio m).1 !! a = Some l ∨ (prioritize prio m).2 !! a = Some l → m !! a = Some l.
Proof.
  unfold prioritize. assert (Hgen : ∀ pn : gmap Address (list LazyTransaction) * gmap Address (list LazyTransaction),
    (∀ a l, pn.1 !! a = Some l ∨ pn.2 !! a = Some l → m !! a = Some l) →
    ∀ a l, (fold_left (λ pn account, match pn.2 !! account with Some txs => if len txs >? 0 then (<[account := txs]> pn.1, delete account pn.2) else pn | None => pn end) prio pn).1 !! a = Some l ∨
      (fold_left (λ pn account, match pn.2 !! account with Some txs => if len txs >? 0 then (<[account := txs]> pn.1, delete account pn.2) else pn | None => pn end) prio pn).2 !! a = Some l → m !! a = Some l).
  { induction prio as [|b prio IH]; intros pn Hpn; [exact Hpn|]. cbn [fold_left]. apply IH. intros a' l'.
    destruct (pn.2 !! b) as [txs|] eqn:Hb; [|apply Hpn]. destruct (len txs >? 0); [|apply Hpn]. cbn [fst snd].
    rewrite lookup_insert_Some, lookup_delete_Some. intros [[[<- <-]|[_ Hl]]|[_ Hl]]; apply Hpn; auto. }
  apply Hgen. cbn. intros a' l' [Hl|Hl]; [by rewrite lookup_empty in Hl|done].
Qed.

Lemma payables_incl fee l ltx : ltx ∈ payables fee l → ltx ∈ l.
Proof.
  induction l as [|x l IH]; cbn [payables]; [done|]. destruct (payable fee x); [|by intros ?%elem_of_nil].
  intros [->|Hin]%elem_of_cons; [by left|right; auto].
Qed.

Lemma commitTransactions_built env plain blob mp mb Get interrupt :
  built env → stands plain mp → stands blob mb → sound_slices Get mp → sound_slices Get mb →
  (∀ f n, interrupt = Some f → 0 <= f n <= 3) →
  ∃ r env', commitTransactions config env plain blob Get interrupt = Some (r, env') ∧ built env'.
Proof.
  intros Hb Hp Hbl Hsp Hsb Hint. unfold commitTransactions. pose proof (bk_limit Hok) as Hlim.
  assert (Hgp : (match gasPool env with Some gp => Some gp | None => AddGas 0 (Header.GasLimit (env_header env)) end) = Some (pool_of env)).
  { unfold pool_of. destruct (gasPool env) as [gp|]; [done|]. destruct (of_block_fields _ (bt_header _ Hb)) as (_ & _ & _ & ->).
    change (default (Header.GasLimit hdr) None) with (Header.GasLimit hdr). unfold AddGas. rewrite Z.gtb_ltb.
    destruct (Z.ltb_spec (max_uint64 - Header.GasLimit hdr) 0); [ulia|]. f_equal. rewrite Z.add_0_l. by apply wrap64_id. }
  rewrite Hgp. cbn [mbind option_bind].
  destruct (commit_loop_built (S (weight plain + weight blob)) 0 Get interrupt
    (MkEnvironment (env_state env) (tcount env) (Some (pool_of env)) (env_evm env) (env_header env) (env_txs env) (env_receipts env) (sidecars env) (blobs env))
    plain blob mp mb) as (r & env' & -> & Hb' & _); try done; [by destruct Hb; split|lia|by exists r, env'].
Qed.

Lemma fill_round_built env plain blob Get interrupt :
  built env → from_pool Get plain → from_pool Get blob → (∀ f, Header.BaseFee hdr = Some f → f < two256) →
  (∀ f n, interrupt = Some f → 0 <= f n <= 3) →
  ∃ r env', fill_round config env plain blob Get interrupt = Some (r, env') ∧ built env'.
Proof.
  intros Hb Hp Hbl Hfee Hint. unfold fill_round. destruct (_ && _); [by eexists _, _|].
  destruct (of_block_fields _ (bt_header _ Hb)) as (_ & _ & Hf & _). destruct (bk_fee Hok) as (f & Hbf & Hf0).
  assert (Hr : ∀ g, Header.BaseFee (env_header env) = Some g → 0 <= g < two256) by (intros g Hg; rewrite Hf, Hbf in Hg; injection Hg as <-; split; [done|by apply Hfee]).
  destruct (new_stands plain (Header.BaseFee (env_header env)) (λ a l Hl, proj1 (Hp a l Hl)) Hr) as (t & -> & Ht & _).
  destruct (new_stands blob (Header.BaseFee (env_header env)) (λ a l Hl, proj1 (Hbl a l Hl)) Hr) as (t' & -> & Ht' & _). cbn [mbind option_bind].
  assert (Hs : ∀ m, from_pool Get m → sound_slices Get (λ a, payables (Header.BaseFee (env_header env)) (default [] (m !! a)))).
  { intros m Hm a ltx n tx Hin%payables_incl Hres. destruct (m !! a) as [l|] eqn:Hl; [|by apply elem_of_nil in Hin]. by eapply (Hm a l Hl). }
  eapply commitTransactions_built; eauto.
Qed.

(** The fees that the pool is asked with fit their type. *)
Definition fees_fit (tip : Z) : Prop :=
  0 <= tip < two256 ∧ (∀ f, Header.BaseFee hdr = Some f → f < two256) ∧
  (is_Some (Header.ExcessBlobGas hdr) → ∃ fee, CalcBlobFee config hdr = Some fee ∧ 0 <= fee < two256).

Lemma CalcBlobFee_of_block h : of_block h → CalcBlobFee config h = CalcBlobFee config hdr ∧ Header.ExcessBlobGas h = Header.ExcessBlobGas hdr.
Proof. intros ->. done. Qed.

Lemma rounds_built tip prio Pending Get interrupt env :
  built env → pool_sound Pending Get → (∀ f, Header.BaseFee hdr = Some f → f < two256) → (∀ round f n, interrupt round = Some f → 0 <= f n <= 3) →
  (∀ r env', fillTransactions config tip prio Pending Get interrupt env = Some (r, env') → built env') ∧
  (fees_fit tip → is_Some (fillTransactions config tip prio Pending Get interrupt env)).
Proof.
  intros Hb Hps Hfee Hint. unfold fillTransactions.
  assert (Hrounds : ∀ f g,
    let '(pp, np) := prioritize prio (Pending f) in let '(pb, nb) := prioritize prio (Pending g) in
    ∃ r env', ('(r, env) ← fill_round config env pp pb (Get true) (interrupt true);
      match r with Err err => Some (Err err, env) | Ok _ => fill_round config env np nb (Get false) (interrupt false) end) = Some (r, env') ∧ built env').
  { intros f g. pose proof (λ round, pool_sound_from Pending Get round f Hps) as Hpf. pose proof (λ round, pool_sound_from Pending Get round g Hps) as Hpg.
    pose proof (prioritize_incl prio (Pending f)) as Hf. pose proof (prioritize_incl prio (Pending g)) as Hg.
    destruct (prioritize prio (Pending f)) as [pp np], (prioritize prio (Pending g)) as [pb nb]. cbn [fst snd] in *.
    destruct (fill_round_built env pp pb (Get true) (interrupt true) Hb) as (r & env1 & -> & Hb1); [intros a l Hl; apply (Hpf true a l); auto|intros a l Hl; apply (Hpg true a l); auto|done|by apply Hint|].
    cbn [mbind option_bind]. destruct r as [u|e]; [|by eexists _, _].
    apply fill_round_built; [done|intros a l Hl; apply (Hpf false a l); auto|intros a l Hl; apply (Hpg false a l); auto|done|by apply Hint]. }
  destruct (of_block_fields _ (bt_header _ Hb)) as (_ & _ & Hbf & _). destruct (CalcBlobFee_of_block _ (bt_header _ Hb)) as [Hcb Hex]. rewrite Hbf, Hcb, Hex. split.
  - intros r env'. destruct (MustFromBig tip) as [minTip|]; cbn [mbind option_bind]; [|done].
    destruct (match Header.BaseFee hdr with Some f => _ | None => _ end) as [base|]; cbn [mbind option_bind]; [|done].
    destruct (match Header.ExcessBlobGas hdr with Some f => _ | None => _ end) as [bfee|]; cbn [mbind option_bind]; [|done].
    specialize (Hrounds (MkPendingFilter (Some minTip) base bfee true false) (MkPendingFilter (Some minTip) base bfee false true)).
    destruct (prioritize prio _) as [pp np], (prioritize prio _) as [pb nb]. destruct Hrounds as (r' & e' & -> & Hb'). by intros [= <- <-].
  - intros (Htip & _ & Hblob). rewrite (LegacyList.ListLaws.MustFromBig_ok tip Htip). cbn [mbind option_bind]. destruct (bk_fee Hok) as (f & Hf & Hf0). rewrite Hf, (LegacyList.ListLaws.MustFromBig_ok f) by (split; [done|by apply Hfee]).
    cbn [fmap option_fmap option_map mbind option_bind].
    assert (∃ bfee, (match Header.ExcessBlobGas hdr with None => Some None | Some _ => fee ← CalcBlobFee config hdr; Some <$> MustFromBig fee end) = Some bfee) as (bfee & ->).
    { destruct (Header.ExcessBlobGas hdr); [|by eexists]. destruct Hblob as (fee & -> & Hfit); [by eexists|]. cbn [mbind option_bind]. rewrite (LegacyList.ListLaws.MustFromBig_ok fee Hfit). by eexists. }
    cbn [mbind option_bind]. specialize (Hrounds (MkPendingFilter (Some tip) (Some f) bfee true false) (MkPendingFilter (Some tip) (Some f) bfee false true)).
    destruct (prioritize prio _) as [pp np], (prioritize prio _) as [pb nb]. destruct Hrounds as (r' & e' & -> & Hb'). by eexists.
Qed.

(** What [makeEnv] makes, with the calls of the system done. *)
Definition empty_environment : environment St := MkEnvironment p0 0 None ctx hdr [] [] [] 0.

Lemma empty_built : Header.GasUsed hdr = 0 → default 0 (Header.BlobGasUsed hdr) = 0 → built empty_environment.
Proof.
  intros Hu Hb. pose proof (bk_limit Hok) as Hlim. split; cbn [empty_environment env_evm env_header env_txs env_receipts env_state tcount gasPool blobs].
  - done.
  - unfold of_block. by destruct hdr.
  - done.
  - change (pool_of empty_environment) with (Header.GasLimit hdr). ulia.
  - intros bh. exists p0. change (pool_of empty_environment) with (Header.GasLimit hdr). rewrite Hu. split; [done|]. reflexivity.
  - split; [done|by left].
  - destruct (Header.BlobGasUsed hdr); [by split; [eexists|]|done].
  - apply Forall_nil_2.
Qed.

(** C11: filling a block ends, whatever the pool answers as long as what it offers is
    well formed ([pool_sound]) and whenever it is interrupted, and a validator can
    process what was filled in.  From the state that the block
    starts with, the transactions (without their sidecars) are applied one after the
    other without an error; they give the receipts of the miner, in the block that is
    validated instead of the unfinished one, and the same gas used; the gas used and
    the pool that is left make up the gas limit.  A transaction that failed, and was
    reverted, has left nothing.  The blobs are at most those that the fork allows, and
    the blob gas of the header is theirs. *)
Theorem fillTransactions_replays tip prio Pending Get interrupt :
  Header.GasUsed hdr = 0 → default 0 (Header.BlobGasUsed hdr) = 0 → fees_fit tip → pool_sound Pending Get →
  (∀ round f n, interrupt round = Some f → 0 <= f n <= 3) →
  ∃ r env, fillTransactions config tip prio Pending Get interrupt empty_environment = Some (r, env) ∧
    (∀ blockHash, ∃ gp p, process_txs config ctx hdr number blockHash 0 (env_txs env) (Header.GasLimit hdr) p0 0 [] =
       Some (Ok (map (at_block blockHash) (env_receipts env), gp, Header.GasUsed (env_header env)), p) ∧
       0 <= gp ∧ gp + Header.GasUsed (env_header env) = Header.GasLimit hdr) ∧
    Forall (λ tx, tx_sidecar tx = None) (env_txs env) ∧
    total_blobs (env_txs env) <= Z.max 0 (MaxBlobsPerBlock config (Header.Time hdr)) ∧
    default 0 (Header.BlobGasUsed (env_header env)) = total_blobs (env_txs env) * BlobTxBlobGasPerBlob.
Proof.
  intros Hu Hb Hfit Hps Hint. destruct (rounds_built tip prio Pending Get interrupt _ (empty_built Hu Hb) Hps (proj1 (proj2 Hfit)) Hint) as [Hbuilt Htotal].
  destruct (Htotal Hfit) as [[r env] Hfill]. exists r, env. split; [done|]. destruct (Hbuilt r env Hfill) as [_ _ _ (Hg & _ & Hsum) Hrep [Hbl Hmax] Hbg Hplain].
  split_and!; [|done|lia|].
  - intros bh. destruct (Hrep bh) as (p & Hp & _). by exists (pool_of env), p.
  - destruct (Header.BlobGasUsed (env_header env)) as [used|]; destruct Hbg as [_ Hbg]; [done|by rewrite Hbg].
Qed.
End Building.

(** ** A block that was built is valid *)

Section Valid.
Context {St : Type} `{VMState St, TxState St, Machine St, Keccak, BlockHashes, Recovery, Addresses, Sending, HeaderReader, MapRange}.
Context `{!VMStateLaws St, !SenderLaws}.
Context (config : ChainConfig) (same world : relation St) `{!BlockLaws St same world}.
Context (ethone : Engine St) (miner : MinerConfig) (chain : MinerChain St).
Context (gen : generateParams) (parent : Header) (timestamp number : Z).

(** The engine after the merge. *)
#[local] Instance merged : Engine St := beacon config ethone.

(** The limit that the next one is compared with. *)
Definition parent_limit : Z :=
  if negb (Config.IsLondon config (Header.Number parent)) then wrap64 (Header.GasLimit parent * Config.ElasticityMultiplier)
  else Header.GasLimit parent.

Abbreviation cancun := (Config.IsCancun config (Some number) timestamp).

(** The work: on a parent with plausible numbers, with forks in order up to the ones
    that the beacon engine needs, and with what those forks ask of the parameters. *)
Record work_ok : Prop := {
  wk_number : Header.Number parent = Some (number - 1) ∧ 0 < number < two64;
  wk_time : Header.Time parent < max_uint64 ∧ 0 <= Header.Time parent;
  wk_limit : MinGasLimit <= parent_limit < 2 ^ 63;
  wk_ceil : 0 <= miner_GasCeil miner < 2 ^ 63;
  wk_extra : len (miner_ExtraData miner) <= 32;
  wk_root : cancun = true → is_Some (gen_beaconRoot gen);
  wk_withdrawals : Config.IsShanghai config (Some number) timestamp = true ∨ gen_withdrawals gen = None;
  wk_merge : isPostMerge config number timestamp = true;
  wk_london : Config.IsLondon config (Some number) = true;
  wk_eip158 : Config.IsEIP158 config (Some number) = true;
  wk_verkle : Config.IsVerkle config (Some number) timestamp = false;
  wk_dao : DAOForkSupport config = false ∨ DAOForkBlock config ≠ Some number;
  wk_fee f : CalcBaseFee config parent = Some f → 0 <= f < two256;
  wk_forks : Config.CheckConfigForkOrder config = None;
  wk_fractions : wf_fractions config;
  wk_blobs : 0 <= MaxBlobsPerBlock config timestamp ∧ MaxBlobsPerBlock config timestamp * BlobTxBlobGasPerBlob < two64;
  wk_no_blobs : cancun = false → MaxBlobsPerBlock config timestamp = 0;
  wk_excess : Config.IsCancun config (Header.Number parent) (Header.Time parent) = false → Header.ExcessBlobGas parent = None ∧ 0 <= targetBlobsPerBlock config timestamp;
  wk_machine ctx msg : evm_gas_ok (mc_Create ctx msg) (mc_Call ctx msg)
}.

Context (Hw : work_ok).

(** The header that the work starts with. *)
Record prepared (hdr : Header) : Prop := {
  pp_difficulty : Header.Difficulty hdr = Some 0;
  pp_number : Header.Number hdr = Some number;
  pp_limit : Header.GasLimit hdr = CalcGasLimit parent_limit (miner_GasCeil miner);
  pp_used : Header.GasUsed hdr = 0;
  pp_time : Header.Time hdr = timestamp;
  pp_extra : Header.Extra hdr = miner_ExtraData miner;
  pp_nonce : Header.Nonce hdr = 0;
  pp_coinbase : Header.Coinbase hdr = gen_coinbase gen;
  pp_bloom : Header.Bloom hdr = zero_bloom;
  pp_requests : Header.RequestsHash hdr = None;
  pp_fee : ∃ f, CalcBaseFee config parent = Some f ∧ Header.BaseFee hdr = Some f;
  pp_blobs :
    if cancun then Header.BlobGasUsed hdr = Some 0 ∧ Header.ParentBeaconRoot hdr = gen_beaconRoot gen ∧
      ∃ excess, 0 <= excess ∧ Header.ExcessBlobGas hdr = Some excess ∧ CalcExcessBlobGas config parent timestamp = Some excess
    else Header.BlobGasUsed hdr = None ∧ Header.ParentBeaconRoot hdr = None ∧ Header.ExcessBlobGas hdr = None
}.

Lemma work_parent_time : work_parent chain gen = Ok (parent, timestamp) → Header.Time parent < timestamp.
Proof.
  destruct (wk_time Hw) as [Hlt Hge]. unfold work_parent. destruct (if gen_parentHash gen =? 0 then _ else _) as [p|e]; cbn [result_bind]; [|done].
  rewrite Z.geb_leb. destruct (Z.leb_spec (gen_timestamp gen) (Header.Time p)) as [Hl|Hl].
  - destruct (forceTime gen); [done|]. intros [= -> <-]. rewrite wrap64_id by ulia. lia.
  - by intros [= -> <-].
Qed.

Lemma excess_nonneg excess : CalcExcessBlobGas config parent timestamp = Some excess → 0 <= excess.
Proof.
  unfold CalcExcessBlobGas. destruct (match Header.ExcessBlobGas parent with Some e => _ | None => _ end) as [[e u]|]; cbn [mbind option_bind]; [|done].
  set (t := wrap64 (wrap64 _ * _)). clearbody t. destruct (Z.ltb_spec (wrap64 (e + u)) t); intros [= <-]; lia.
Qed.

(** Before Cancun the parent has no excess, and its child none either. *)
Lemma excess_first : Config.IsCancun config (Header.Number parent) (Header.Time parent) = false → CalcExcessBlobGas config parent timestamp = Some 0.
Proof.
  intros Hc. destruct (wk_excess Hw Hc) as [Hnone Ht]. unfold CalcExcessBlobGas. rewrite Hnone. cbn [mbind option_bind].
  change (wrap64 (0 + 0)) with 0. set (t := wrap64 (wrap64 _ * _)). assert (0 <= t) by apply wrap64_range. destruct (Z.ltb_spec 0 t); [done|]. f_equal. lia.
Qed.

Lemma work_header_spec hdr :
  work_header config miner gen parent timestamp = Some hdr →
  ∃ f limit, CalcBaseFee config parent = Some f ∧ limit = CalcGasLimit parent_limit (miner_GasCeil miner) ∧
  hdr = Header.MkHeader (hash_Header parent) 0 (gen_coinbase gen) 0 0 0 zero_bloom None (Some number) limit 0 timestamp (miner_ExtraData miner)
    (gen_random gen) 0 (Some f) None None None None None.
Proof.
  destruct (wk_number Hw) as [Hn _]. unfold work_header, parent_limit. rewrite Hn. cbn [mbind option_bind]. replace (number - 1 + 1) with number by lia.
  rewrite (wk_london Hw). destruct (CalcBaseFee config parent) as [f|]; cbn [mbind option_bind]; [|done]. intros [= <-]. exists f. eexists. split; [done|]. split; [reflexivity|].
  unfold with_fees. cbn. by destruct (negb _).
Qed.

(** The context is made from fields that filling the block does not change. *)
Lemma NewEVMBlockContext_same h h' coinbase ctx :
  NewEVMBlockContext config h (Some coinbase) = Some ctx → Header.Difficulty h = Some 0 → Header.Coinbase h' = coinbase →
  Header.Number h' = Header.Number h → Header.ParentHash h' = Header.ParentHash h → Header.ExcessBlobGas h' = Header.ExcessBlobGas h →
  Header.Time h' = Header.Time h → Header.Difficulty h' = Header.Difficulty h → Header.BaseFee h' = Header.BaseFee h →
  Header.GasLimit h' = Header.GasLimit h → Header.MixDigest h' = Header.MixDigest h →
  NewEVMBlockContext config h' None = Some ctx.
Proof.
  intros Hc Hd Hcb Hn Hp Hx Ht Hd' Hb Hl Hm. revert Hc. unfold NewEVMBlockContext, CalcBlobFee, GetHashFn. cbn [merged beacon Author]. unfold beacon_Author, IsPoSHeader.
  rewrite Hd', Hd, Hn, Hp, Hx, Ht, Hb, Hl, Hm, Hcb. done.
Qed.

Lemma NewEVMBlockContext_fields h author ctx :
  NewEVMBlockContext config h author = Some ctx →
  Some (BlockNumber ctx) = Header.Number h ∧ ctx_Time ctx = Header.Time h ∧ ctx_BaseFee ctx = Header.BaseFee h ∧
  match Header.ExcessBlobGas h with
  | None => ctx_BlobBaseFee ctx = None
  | Some _ => ctx_BlobBaseFee ctx = CalcBlobFee config h ∧ is_Some (ctx_BlobBaseFee ctx)
  end.
Proof.
  unfold NewEVMBlockContext. destruct (match author with Some a => _ | None => _ end); cbn [mbind option_bind]; [|done].
  destruct (match Header.ExcessBlobGas h with Some a => _ | None => _ end) as [fee|] eqn:Hfee; cbn [mbind option_bind]; [|done].
  destruct (Header.Difficulty h); cbn [mbind option_bind]; [|done]. destruct (Header.Number h); cbn [mbind option_bind]; [|done]. intros [= <-]. cbn.
  split_and!; try done. destruct (Header.ExcessBlobGas h); [|by injection Hfee as <-].
  destruct (CalcBlobFee config h); [|done]. injection Hfee as <-. split; [done|by eexists].
Qed.

Lemma CalcBlobFee_nonneg h excess fee : Header.ExcessBlobGas h = Some excess → 0 <= excess → CalcBlobFee config h = Some fee → 0 <= fee.
Proof.
  intros Hx Hn Hf. assert (Hl : Config.LatestFork config (Header.Time h) ∈ [Config.Cancun; Config.Prague; Config.Osaka]).
  { unfold CalcBlobFee in Hf. destruct (Config.LatestFork config (Header.Time h)); try done; rewrite !elem_of_cons; tauto. }
  destruct (CalcBlobFee_total config h h excess excess (wk_forks Hw) (wk_fractions Hw) Hl eq_refl (conj Hn (Z.le_refl _)) Hx Hx) as (f & _ & Hf' & _ & Hr & _).
  rewrite Hf in Hf'. injection Hf' as ->. lia.
Qed.

Lemma prepareWork_inv env :
  prepareWork config miner chain gen = Some (Ok env) → work_parent chain gen = Ok (parent, timestamp) →
  ∃ hdr ctx st0 st, prepared hdr ∧ mch_StateAt chain (Header.Root parent) = Some st0 ∧ NewEVMBlockContext config hdr (Some (gen_coinbase gen)) = Some ctx ∧
    pre_execution ctx hdr (Config.IsPrague config (Some number) timestamp) st0 = Some st ∧ env = empty_environment ctx hdr st.
Proof.
  intros Hprep Hparent. unfold prepareWork in Hprep. rewrite Hparent in Hprep. destruct (work_header config miner gen parent timestamp) as [h0|] eqn:Hh0; cbn [mbind option_bind] in Hprep; [|done].
  destruct (work_header_spec h0 Hh0) as (f & limit & Hf & Hlim & ->). destruct (wk_number Hw) as [_ Hnum].
  cbn [merged beacon EnginePrepare] in Hprep. unfold beacon_Prepare in Hprep. cbn [Header.Number mbind option_bind Header.Time] in Hprep. rewrite (wrap64_id number), (wk_merge Hw) in Hprep by ulia.
  cbn [negb] in Hprep. set (h1 := with_Difficulty _ _) in Hprep. cbn [mbind option_bind] in Hprep.
  change (Header.Number h1) with (Some number) in Hprep. change (Header.Time h1) with timestamp in Hprep.
  assert (Hhdr : ∃ hdr, (if cancun then excess ← (if Config.IsCancun config (Header.Number parent) (Header.Time parent) then CalcExcessBlobGas config parent timestamp else Some 0);
      Some (with_cancun h1 excess (gen_beaconRoot gen)) else Some h1) = Some hdr ∧ prepared hdr).
  { destruct cancun eqn:Hc.
    - assert (Hx : (if Config.IsCancun config (Header.Number parent) (Header.Time parent) then CalcExcessBlobGas config parent timestamp else Some 0) = CalcExcessBlobGas config parent timestamp)
        by (destruct (Config.IsCancun config (Header.Number parent) (Header.Time parent)) eqn:Hpc; [done|by rewrite excess_first]).
      rewrite Hx in Hprep |- *. destruct (CalcExcessBlobGas config parent timestamp) as [excess|] eqn:He; cbn [mbind option_bind] in Hprep |- *; [|done].
      eexists. split; [done|]. split; try (cbn; done); [cbn; by exists f|]. rewrite Hc. cbn. split_and!; [done|done|]. exists excess. split_and!; [by apply excess_nonneg|done|done].
    - eexists. split; [done|]. split; try (cbn; done); [cbn; by exists f|]. by rewrite Hc. }
  destruct Hhdr as (hdr & Hif & Hpp). rewrite Hif in Hprep. cbn [mbind option_bind] in Hprep. unfold makeEnv in Hprep.
  destruct (mch_StateAt chain (Header.Root parent)) as [st0|]; cbn [mbind option_bind] in Hprep; [|done].
  destruct (NewEVMBlockContext config hdr (Some (gen_coinbase gen))) as [ctx|] eqn:Hctx; cbn [mbind option_bind] in Hprep; [|done].
  cbn [env_evm env_state] in Hprep. rewrite (pp_number _ Hpp), (pp_time _ Hpp) in Hprep.
  destruct (pre_execution ctx hdr _ st0) as [st|] eqn:Hpre; cbn [mbind option_bind] in Hprep; [|done]. injection Hprep as <-.
  exists hdr, ctx, st0, st. split_and!; [exact Hpp|done|exact Hctx|exact Hpre|reflexivity].
Qed.

Lemma limit_ok hdr : prepared hdr → VerifyGaslimit parent_limit (Header.GasLimit hdr) = Ok tt ∧ 0 <= Header.GasLimit hdr < 2 ^ 63.
Proof.
  intros Hpp. rewrite (pp_limit _ Hpp). destruct (CalcGasLimit_accepted parent_limit (miner_GasCeil miner) (wk_limit Hw) (wk_ceil Hw)) as (Hv & Hr & _). cbv zeta in Hr.
  pose proof (wk_limit Hw). pose proof (wk_ceil Hw). unfold MinGasLimit in *. split; [done|lia].
Qed.

Lemma prepared_block hdr ctx author : prepared hdr → NewEVMBlockContext config hdr author = Some ctx → block_ok config ctx hdr number.
Proof.
  intros Hpp Hctx. destruct (NewEVMBlockContext_fields _ _ _ Hctx) as (Hn & Ht & Hf & Hb). rewrite (pp_number _ Hpp) in Hn. injection Hn as Hn.
  destruct (pp_fee _ Hpp) as (f & Hcf & Hbf). pose proof (wk_fee Hw f Hcf). destruct (limit_ok _ Hpp) as [_ Hlim]. destruct (wk_blobs Hw) as [Hb0 Hb1].
  pose proof (pp_blobs _ Hpp) as Hblobs. split; try done; try (by rewrite (pp_time _ Hpp)).
  - apply Hpp.
  - apply (wk_london Hw).
  - exists f. split; [done|lia].
  - intros fee Hfee. destruct cancun.
    + destruct Hblobs as (_ & _ & x & Hx & Hex & _). rewrite Hex in Hb. destruct Hb as [Hb _]. rewrite Hb in Hfee. by eapply CalcBlobFee_nonneg.
    + destruct Hblobs as (_ & _ & Hex). rewrite Hex, Hfee in Hb. done.
  - rewrite (pp_time _ Hpp). intros Hc. rewrite Hc in Hblobs. destruct Hblobs as (_ & _ & x & _ & Hex & _). rewrite Hex in Hb. apply Hb.
  - ulia.
  - intros msg. apply (wk_machine Hw).
  - rewrite (pp_time _ Hpp). destruct cancun eqn:Hc; destruct Hblobs as [Hu _]; rewrite Hu; [done|]. intros _. by rewrite (wk_no_blobs Hw Hc).
Qed.

(** The withdrawals of the block: after Shanghai an empty list instead of none. *)
Abbreviation withdrawals := (if Config.IsShanghai config (Some number) timestamp then Some (default [] (gen_withdrawals gen)) else gen_withdrawals gen).

(** The header of the block, before and after it is assembled. *)
Abbreviation assembled h reqs root := (with_Root (with_RequestsHash h (CalcRequestsHash <$> reqs)) root).

Lemma finishWork_inv hdr env payload :
  finishWork config gen env = Some (Ok payload) → of_block hdr (env_header env) → prepared hdr →
  ∃ reqs st root,
    (if Config.IsPrague config (Some number) timestamp
     then ∃ rs, reqs = Some rs ∧ collect_requests (env_evm env) (concat (map Logs (env_receipts env))) (env_state env) = Some (rs, st)
     else reqs = None ∧ st = env_state env) ∧
    (IntermediateRoot (process_withdrawals st (default [] (gen_withdrawals gen))) true).1 = root ∧
    NewBlock (assembled (env_header env) reqs root) (MkBody (env_txs env) [] withdrawals) (env_receipts env) = Some (pl_block payload) ∧
    pl_receipts payload = env_receipts env.
Proof.
  intros Hfin Hof Hpp. unfold finishWork in Hfin.
  assert (Hn : Header.Number (env_header env) = Some number) by (rewrite Hof; apply Hpp).
  assert (Ht : Header.Time (env_header env) = timestamp) by (rewrite Hof; apply Hpp).
  assert (Hd : Header.Difficulty (env_header env) = Some 0) by (rewrite Hof; apply Hpp).
  assert (Hr : with_RequestsHash (env_header env) None = env_header env) by (rewrite Hof; unfold with_RequestsHash, with_used; cbn; by rewrite <- (pp_requests _ Hpp)).
  rewrite Hn, Ht in Hfin.
  destruct (if Config.IsPrague config (Some number) timestamp then _ else _) as [[reqs st]|] eqn:Hreq; [|done].
  set (h := match reqs with Some reqs => with_RequestsHash _ _ | None => env_header env end) in Hfin.
  assert (Hh : h = with_RequestsHash (env_header env) (CalcRequestsHash <$> reqs)) by (unfold h; destruct reqs; [done|by rewrite <- Hr at 1]).
  exists reqs, st, (IntermediateRoot (process_withdrawals st (default [] (gen_withdrawals gen))) true).1. split; [|split; [done|]].
  - destruct (Config.IsPrague config (Some number) timestamp); [|by injection Hreq as <- <-].
    destruct (collect_requests _ _ _) as [[rs s1]|]; cbn [mbind option_bind] in Hreq; [|done]. injection Hreq as <- <-. by exists rs.
  - clearbody h. subst h. cbn [merged beacon FinalizeAndAssemble] in Hfin. unfold beacon_FinalizeAndAssemble, beacon_Finalize, IsPoSHeader in Hfin.
    cbn [with_RequestsHash Header.Difficulty Header.Number Header.Time bd_Withdrawals bd_Transactions bd_Uncles] in Hfin. rewrite Hd, Hn, Ht in Hfin. cbn [mbind option_bind] in Hfin.
    change (negb (Cmp 0 0 =? 0)) with false in Hfin.
    destruct (negb (Config.IsShanghai config (Some number) timestamp) && _); cbn [mbind option_bind] in Hfin; [done|].
    assert (Hws : default [] withdrawals = default [] (gen_withdrawals gen)) by by destruct (Config.IsShanghai config (Some number) timestamp).
    rewrite Hws in Hfin. destruct (IntermediateRoot _ true) as [root s2]. cbn [fst].
    destruct (NewBlock _ _ _) as [block|]; cbn [mbind option_bind] in Hfin; [|done].
    destruct (totalFees _ _); cbn [mbind option_bind] in Hfin; [|done]. by injection Hfin as <-.
Qed.

Lemma header_valid hdr ctx st env reqs root txHash receiptHash bloom withdrawalsHash :
  prepared hdr → Header.Time parent < timestamp → built config same ctx hdr number st env →
  (is_Some withdrawalsHash ↔ is_Some withdrawals) →
  verifyHeader config (block_header (assembled (env_header env) reqs root) txHash receiptHash bloom (CalcUncleHash []) withdrawalsHash) parent = Some (Ok tt).
Proof.
  intros Hpp Htime Hb Hws. destruct (limit_ok _ Hpp) as [Hv Hlim]. destruct (wk_number Hw) as [Hpn Hnum]. pose proof (pp_blobs _ Hpp) as Hblobs.
  destruct (bt_gas _ _ _ _ _ _ _ Hb) as (Hg & _ & Hsum). pose proof (bt_header _ _ _ _ _ _ _ Hb) as Hof. pose proof (bt_blob_gas _ _ _ _ _ _ _ Hb) as Hbg.
  destruct (bt_blobs _ _ _ _ _ _ _ Hb) as [Hbl Hmax]. rewrite Hbl in Hmax. pose proof (total_blobs_nonneg (env_txs env)) as Hnn. destruct (wk_blobs Hw) as [Hm0 Hm1].
  unfold of_block in Hof. set (used := Header.GasUsed (env_header env)) in *. set (blobUsed := Header.BlobGasUsed (env_header env)) in *. clearbody used blobUsed. rewrite Hof.
  set (h := block_header _ _ _ _ _ _).
  assert (Hextra : Header.Extra h = miner_ExtraData miner) by apply Hpp. assert (Hnonce : Header.Nonce h = 0) by apply Hpp.
  assert (Hdiff : Header.Difficulty h = Some 0) by (cbn; by rewrite (pp_difficulty _ Hpp)). assert (Hn : Header.Number h = Some number) by (cbn; by rewrite (pp_number _ Hpp)).
  assert (Ht : Header.Time h = timestamp) by apply Hpp. assert (Hgl : Header.GasLimit h = Header.GasLimit hdr) by done. assert (Hgu : Header.GasUsed h = used) by done.
  assert (Hbf : Header.BaseFee h = Header.BaseFee hdr) by done. assert (Hx : Header.ExcessBlobGas h = Header.ExcessBlobGas hdr) by done.
  assert (Hroot : Header.ParentBeaconRoot h = Header.ParentBeaconRoot hdr) by done. assert (Hbu : Header.BlobGasUsed h = blobUsed) by done.
  assert (Hwh : Header.WithdrawalsHash h = withdrawalsHash) by done. assert (Huncles : Header.UncleHash h = EmptyUncleHash) by done. clearbody h.
  apply verifyHeader_exact. unfold fork_fields. rewrite Hextra, Hnonce, Hdiff, Hn, Ht, Hgl, Hgu, Hroot, Hx, Hbu, Hwh. split_and!; try done.
  - apply (wk_extra Hw).
  - unfold MaxGasLimit. lia.
  - lia.
  - exists (number - 1). split; [done|]. f_equal. lia.
  - destruct (pp_fee _ Hpp) as (f & Hcf & Hf). unfold VerifyEIP1559Header. fold parent_limit. rewrite Hgl, Hbf, Hv, Hf, Hcf. cbn [mbind option_bind].
    by rewrite (proj2 (Z.eqb_eq _ _) (proj2 (Cmp_zero f f) eq_refl)).
  - rewrite Hws. destruct (Config.IsShanghai config (Some number) timestamp) eqn:Hs; [split; [done|by eexists]|].
    destruct (wk_withdrawals Hw) as [?|Hnone]; [congruence|]. rewrite Hnone. split; [by intros []|done].
  - destruct cancun eqn:Hc.
    + destruct Hblobs as (Hbu' & Hroot' & x & _ & Hx' & Hcx). rewrite Hroot'. split; [by apply (wk_root Hw)|].
      destruct blobUsed as [u|]; [|destruct Hbg; congruence]. destruct Hbg as [_ Hu].
      unfold VerifyEIP4844Header. rewrite Hn, Ht, Hbu, Hx, Hx', Hpn, Hcx. cbn [mbind option_bind].
      rewrite (wrap64_id (number - 1)) by ulia. replace (number - 1 + 1) with number by lia. rewrite Z.eqb_refl. cbn [negb].
      unfold MaxBlobGasPerBlock. unfold BlockFees.BlobTxBlobGasPerBlob, BlobTxBlobGasPerBlob in *. rewrite (wrap64_id (MaxBlobsPerBlock config timestamp)), wrap64_id by ulia. rewrite Z.gtb_ltb.
      rewrite (pp_time _ Hpp) in Hmax. destruct (Z.ltb_spec (MaxBlobsPerBlock config timestamp * 131072) u) as [Hlt|Hlt]; [lia|].
      by rewrite Hu, Z_mod_mult, !Z.eqb_refl.
    + destruct Hblobs as (Hbu' & Hroot' & Hx'). split_and!; [done| |done]. destruct blobUsed as [u|]; [|done]. destruct Hbg as [[y Hy] _]. congruence.
Qed.

Lemma world_state ctx hdr st env bh :
  built config same ctx hdr number st env →
  ∃ p, process_txs config ctx hdr number bh 0 (env_txs env) (Header.GasLimit hdr) st 0 [] =
    Some (Ok (map (at_block bh) (env_receipts env), pool_of hdr env, Header.GasUsed (env_header env)), p) ∧ world (env_state env) p.
Proof.
  intros Hb. destruct (bt_replay _ _ _ _ _ _ _ Hb bh) as (p & Hp & Hs). exists p. split; [exact Hp|].
  transitivity (SetTxContext (env_state env) 0 0); [symmetry; apply bl_context_world|].
  transitivity (SetTxContext p 0 0); [apply bl_weaker, Hs|apply bl_context_world].
Qed.

Lemma block_processed hdr ctx st0 st env reqs st1 txHash receiptHash bloom uncles withdrawalsHash :
  prepared hdr → NewEVMBlockContext config hdr (Some (gen_coinbase gen)) = Some ctx →
  pre_execution ctx hdr (Config.IsPrague config (Some number) timestamp) st0 = Some st → built config same ctx hdr number st env →
  (if Config.IsPrague config (Some number) timestamp
   then ∃ rs, reqs = Some rs ∧ collect_requests (env_evm env) (concat (map Logs (env_receipts env))) (env_state env) = Some (rs, st1)
   else reqs = None ∧ st1 = env_state env) →
  let root := (IntermediateRoot (process_withdrawals st1 (default [] (gen_withdrawals gen))) true).1 in
  let header := block_header (assembled (env_header env) reqs root) txHash receiptHash bloom uncles withdrawalsHash in
  let receipts := map (at_block (hash_Header header)) (env_receipts env) in
  ∃ st', Process config (MkBlock header [] (env_txs env) withdrawals) st0 =
      Some (Ok (MkProcessResult receipts reqs (concat (map Logs receipts)) (Header.GasUsed (env_header env))), st') ∧
    (IntermediateRoot st' true).1 = root.
Proof.
  intros Hpp Hctx Hpre Hb Hreq root header receipts. destruct (limit_ok _ Hpp) as [_ Hlim]. pose proof (bt_header _ _ _ _ _ _ _ Hb) as Hof. unfold of_block in Hof.
  destruct (world_state ctx hdr st env (hash_Header header) Hb) as (p & Hp & Hs). fold receipts in Hp. rewrite (bt_evm _ _ _ _ _ _ _ Hb) in Hreq.
  assert (Hdiff : Header.Difficulty header = Some 0) by (unfold header; rewrite Hof; cbn; by rewrite (pp_difficulty _ Hpp)).
  assert (Hn : Header.Number header = Some number) by (unfold header; rewrite Hof; cbn; by rewrite (pp_number _ Hpp)).
  assert (Ht : Header.Time header = timestamp) by (unfold header; rewrite Hof; apply Hpp).
  assert (Hsame : Header.GasLimit header = Header.GasLimit hdr ∧ Header.BaseFee header = Header.BaseFee hdr ∧ Header.ExcessBlobGas header = Header.ExcessBlobGas hdr ∧
    Header.ParentBeaconRoot header = Header.ParentBeaconRoot hdr ∧ Header.ParentHash header = Header.ParentHash hdr ∧ Header.Coinbase header = Header.Coinbase hdr ∧
    Header.MixDigest header = Header.MixDigest hdr) by (unfold header; rewrite Hof; done).
  destruct Hsame as (Hgl & Hbf & Hx & Hroot & Hph & Hcb & Hmd). clearbody header.
  assert (Hctx' : NewEVMBlockContext config header None = Some ctx).
  { apply (NewEVMBlockContext_same hdr header _ ctx Hctx); try done; [apply Hpp|by rewrite Hcb; apply Hpp|by rewrite Hn, (pp_number _ Hpp)|by rewrite Ht, (pp_time _ Hpp)|by rewrite Hdiff, (pp_difficulty _ Hpp)]. }
  unfold Process. cbn [blk_header blk_transactions]. rewrite Hn, Hgl. cbn [mbind option_bind].
  assert (Hgas : AddGas 0 (Header.GasLimit hdr) = Some (Header.GasLimit hdr)).
  { unfold AddGas. rewrite Z.gtb_ltb. destruct (Z.ltb_spec (max_uint64 - Header.GasLimit hdr) 0); [ulia|]. f_equal. rewrite Z.add_0_l. apply wrap64_id. ulia. }
  rewrite Hgas, Hctx'. cbn [mbind option_bind].
  assert (Hdao : DAOForkSupport config && (match DAOForkBlock config with Some b => Cmp b number =? 0 | None => false end) = false).
  { destruct (wk_dao Hw) as [->|Hd]; [done|]. destruct (DAOForkBlock config) as [b|]; [|by rewrite andb_false_r]. apply andb_false_intro2. apply Z.eqb_neq. rewrite Cmp_zero. congruence. }
  rewrite Hdao, Ht, (wk_verkle Hw), orb_false_r.
  assert (Hpre' : pre_execution ctx header (Config.IsPrague config (Some number) timestamp) st0 = Some st) by (rewrite <- Hpre; unfold pre_execution; by rewrite Hroot, Hph).
  rewrite Hpre'. cbn [mbind option_bind].
  rewrite (process_txs_header config ctx hdr header) by (rewrite ?Hn, ?Ht, ?(pp_number _ Hpp), ?(pp_time _ Hpp); done).
  rewrite Hp. cbn [mbind option_bind]. unfold block_body. cbn [blk_transactions blk_uncles blk_withdrawals merged beacon EngineFinalize]. unfold beacon_Finalize, IsPoSHeader. rewrite Hdiff. cbn [mbind option_bind].
  change (negb (Cmp 0 0 =? 0)) with false. cbn [bd_Withdrawals].
  assert (Hws : default [] withdrawals = default [] (gen_withdrawals gen)) by by destruct (Config.IsShanghai config (Some number) timestamp).
  rewrite Hws. assert (Hfinal : ∀ s, world st1 s → (IntermediateRoot (process_withdrawals s (default [] (gen_withdrawals gen))) true).1 = root).
  { intros s Hst. symmetry. apply (br_root (R := world)). by apply (withdrawals_same world). }
  destruct (Config.IsPrague config (Some number) timestamp); [|destruct Hreq as [-> ->]; eexists; split; [reflexivity|by apply Hfinal]].
  destruct Hreq as (rs & -> & Hcol).
  pose proof (collect_requests_same world ctx (concat (map Logs (env_receipts env))) (concat (map Logs receipts)) _ _ Hs (deposits_at_block _ _)) as Hc. rewrite Hcol in Hc.
  destruct (collect_requests ctx (concat (map Logs receipts)) p) as [[rs' s']|]; [|done]. destruct Hc as [-> Hc]. cbn [mbind option_bind].
  eexists. split; [reflexivity|by apply Hfinal].
Qed.

Lemma state_valid header uncles txs ws receipts requests logs used st root :
  Header.GasUsed header = used → Header.Bloom header = MergeBloom receipts → derive_sha (map EncodeIndex receipts) = Some (Header.ReceiptHash header) →
  Header.RequestsHash header = CalcRequestsHash <$> requests → Header.Number header = Some number →
  (IntermediateRoot st true).1 = root → Header.Root header = root →
  ValidateState config (MkBlock header uncles txs ws) st (Some (MkProcessResult receipts requests logs used)) false = Some (Ok tt).
Proof.
  intros Hu Hbl Hsha Hreq Hn Hroot Hr. unfold ValidateState. cbn [blk_header pr_GasUsed pr_Receipts pr_Requests]. rewrite Hu, Hbl, Z.eqb_refl, bool_decide_true, Hsha by done. cbn [negb invalid mbind option_bind].
  rewrite Z.eqb_refl. cbn [negb invalid]. rewrite Hreq, Hn, (wk_eip158 Hw). destruct (IntermediateRoot st true) as [r s]. cbn [fst] in Hroot. subst r.
  destruct requests as [rs|]; cbn; by rewrite ?Z.eqb_refl, Hr, Z.eqb_refl.
Qed.

Lemma generated_env prio Pending Get interrupt env0 env hdr ctx st :
  prepared hdr → NewEVMBlockContext config hdr (Some (gen_coinbase gen)) = Some ctx → env0 = empty_environment ctx hdr st →
  (∀ round n, 0 <= interrupt round n <= 3) → pool_sound Pending Get →
  (if noTxs gen then Some env0
   else '(_, env) ← fillTransactions config (miner_GasPrice miner) prio Pending Get (λ round, Some (interrupt round)) env0; Some env) = Some env →
  built config same ctx hdr number st env.
Proof.
  intros Hpp Hctx -> Hint Hps Henv. pose proof (prepared_block hdr ctx _ Hpp Hctx) as Hok.
  assert (Hempty : built config same ctx hdr number st (empty_environment ctx hdr st)).
  { apply (empty_built config same world ctx hdr number Hok); [apply Hpp|]. pose proof (pp_blobs _ Hpp) as Hb. by destruct cancun; destruct Hb as [-> _]. }
  destruct (noTxs gen); [by injection Henv as <-|].
  destruct (fillTransactions _ _ _ _ _ _ _) as [[r env']|] eqn:Hfill; cbn [mbind option_bind] in Henv; [|done]. injection Henv as <-.
  refine (proj1 (rounds_built config same world ctx hdr number Hok st _ prio Pending Get _ _ Hempty Hps _ _) r env' Hfill).
  - intros f Hf. destruct (pp_fee _ Hpp) as (g & Hg & Hbf). rewrite Hf in Hbf. injection Hbf as ->. by apply (wk_fee Hw).
  - by intros round f n [= <-].
Qed.

(** C5: a block that the miner builds is one that every validator accepts.  For the
    engine after the merge, on a parent and with parameters that its forks can have and
    without Verkle ([work_ok]), whatever the pool answers as long as what it offers is
    well formed ([pool_sound]), and whenever it is interrupted:
    the header passes [verifyHeader] against its parent, the body passes the checks of
    [ValidateBody], and [Process] on the parent's state ends without an error in a
    state that passes [ValidateState]: the gas used, the bloom, the receipts, the
    requests and the root are those of the header.  The receipts are those of the
    miner, now in the block. *)
Theorem generated_block_valid prio Pending Get interrupt payload :
  generateWork config miner chain prio Pending Get interrupt gen = Some (Ok payload) →
  work_parent chain gen = Ok (parent, timestamp) → (∀ round n, 0 <= interrupt round n <= 3) → pool_sound Pending Get →
  let block := pl_block payload in
  verifyHeader config (blk_header block) parent = Some (Ok tt) ∧ check_body block = Some (Ok tt) ∧
  ∃ st0 res st, mch_StateAt chain (Header.Root parent) = Some st0 ∧ Process config block st0 = Some (Ok res, st) ∧
    ValidateState config block st (Some res) false = Some (Ok tt) ∧
    pr_Receipts res = map (at_block (hash_Header (blk_header block))) (pl_receipts payload).
Proof.
  intros Hgen Hparent Hint Hps block. unfold generateWork in Hgen. destruct (prepareWork config miner chain gen) as [[env0|e]|] eqn:Hprep; cbn [mbind option_bind] in Hgen; [|done..].
  destruct (prepareWork_inv env0 Hprep Hparent) as (hdr & ctx & st0 & st & Hpp & Hst & Hctx & Hpre & Henv0).
  destruct (if noTxs gen then _ else _) as [env|] eqn:Hfill; cbn [mbind option_bind] in Hgen; [|done].
  pose proof (generated_env prio Pending Get interrupt env0 env hdr ctx st Hpp Hctx Henv0 Hint Hps Hfill) as Hb.
  pose proof (bt_header _ _ _ _ _ _ _ Hb) as Hof.
  destruct (finishWork_inv hdr env payload Hgen Hof Hpp) as (reqs & st1 & root & Hreq & Hroot & Hblock & Hreceipts).
  pose proof (bt_blob_gas _ _ _ _ _ _ _ Hb) as Hbg. pose proof (bt_plain _ _ _ _ _ _ _ Hb) as Hplain. destruct (bt_blobs _ _ _ _ _ _ _ Hb) as [Hbl Hmax]. rewrite Hbl in Hmax.
  assert (Hbody : check_body block = Some (Ok tt)).
  { eapply (NewBlock_checked _ _ _ _ Hblock); [done|]. cbn [bd_Transactions with_Root with_RequestsHash Header.BlobGasUsed].
    destruct (Header.BlobGasUsed (env_header env)); [|apply Hbg]. destruct Hbg as [_ ->]. split; [done|].
    pose proof (total_blobs_nonneg (env_txs env)). destruct (wk_blobs Hw) as [? Hm]. rewrite (pp_time _ Hpp) in Hmax. unfold BlobTxBlobGasPerBlob in Hm. ulia. }
  split_and!; [|exact Hbody|].
  all: destruct (NewBlock_inv _ _ _ _ Hblock) as (th & rh & wh & _ & Hrh & Hwh & Heq); unfold block; rewrite Heq; cbn [blk_header bd_Transactions bd_Uncles bd_Withdrawals] in *.
  - eapply header_valid; [done|by apply work_parent_time|exact Hb|]. destruct withdrawals; [destruct Hwh as (h & _ & ->)|rewrite Hwh]; split; intros [? [=]]; by eexists.
  - subst root. destruct (block_processed hdr ctx st0 st env reqs st1 th rh (if len (env_receipts env) =? 0 then Header.Bloom (env_header env) else MergeBloom (env_receipts env)) (CalcUncleHash []) wh Hpp Hctx Hpre Hb Hreq) as (st' & Hproc & Hroot).
    eexists st0, _, st'. split_and!; [exact Hst|exact Hproc| |by rewrite Hreceipts].
    eapply state_valid; [done| |by rewrite map_map, (map_ext _ _ (EncodeIndex_at_block _))|done| |exact Hroot|done].
    + cbn [block_header Header.Bloom]. rewrite MergeBloom_at_block. destruct (len (env_receipts env) =? 0) eqn:Hlen; [|done]. apply len_zero in Hlen as ->. rewrite Hof. apply Hpp.
    + rewrite Hof. cbn. by rewrite (pp_number _ Hpp).
Qed.
End Valid.

(** ** A block with three transactions *)

Section Example.

(** The accounts of VMInterface.v, the index of the transaction, and the snapshot. *)
Record vm_block : Type := MkVmBlock {
  td : map_vm;
  t_index : Z;
  t_saved : map_vm
}.

Definition on_td (f : map_vm → map_vm) (s : vm_block) : vm_block := MkVmBlock (f (td s)) (t_index s) (t_saved s).

#[local] Instance vm_block_state : VMState vm_block := {|
  GetBalance s := GetBalance (td s);
  SubBalance s a x := on_td (λ t, SubBalance t a x) s;
  AddBalance s a x := on_td (λ t, AddBalance t a x) s;
  GetNonce s := GetNonce (td s);
  SetNonce s a n := on_td (λ t, SetNonce t a n) s;
  GetCode s := GetCode (td s);
  SetCode s a c := on_td (λ t, SetCode t a c) s;
  Exist s := Exist (td s);
  AddRefund s n := on_td (λ t, AddRefund t n) s;
  GetRefund s := GetRefund (td s);
  AddAddressToAccessList s a := on_td (λ t, AddAddressToAccessList t a) s;
  Prepare s rules a c d p l := (λ t, MkVmBlock t (t_index s) (t_saved s)) <$> Prepare (td s) rules a c d p l
|}.

#[local] Instance vm_block_laws : VMStateLaws vm_block.
Proof.
  split; intros s;
    [apply (GetBalance_Sub (td s))|apply (GetBalance_Add (td s))|apply (GetBalance_SetNonce (td s))|apply (GetBalance_SetCode (td s))|apply (GetNonce_Sub (td s))|apply (GetNonce_Add (td s))|apply (GetNonce_SetNonce (td s))|apply (GetNonce_SetCode (td s))|apply (GetCode_SetNonce (td s))|apply (GetCode_SetCode (td s))|intros n; by destruct (AddRefund_same (td s) n); split|intros a; by destruct (AddAddress_same (td s) a); split| | |apply (GetRefund_range (td s))|apply (GetRefund_AddRefund (td s))|apply (GetRefund_SetNonce (td s))|apply (GetRefund_SetCode (td s))|apply (GetRefund_AddAddress (td s))].
  - intros rules a c d p l t. change (Prepare s rules a c d p l) with ((λ t, MkVmBlock t (t_index s) (t_saved s)) <$> Prepare (td s) rules a c d p l). destruct (Prepare (td s) rules a c d p l) as [u|] eqn:HP; cbn; [|done]. intros [= <-].
    by destruct (Prepare_same (td s) rules a c d p l u HP); split.
  - intros rules a c d p l Hr. change (Prepare s rules a c d p l) with ((λ t, MkVmBlock t (t_index s) (t_saved s)) <$> Prepare (td s) rules a c d p l). destruct (Prepare_total (td s) rules a c d p l Hr) as [t ->]. by eexists.
Qed.

(** The root of this state is what account 7 has. *)
#[local] Instance vm_block_tx : TxState vm_block := {|
  SetTxContext s h i := MkVmBlock (td s) i (t_saved s);
  TxIndex := t_index;
  tx_logs s h := [];
  Finalise s b := s;
  IntermediateRoot s b := (GetBalance (td s) 7, s);
  Snapshot s := (0, MkVmBlock (td s) (t_index s) (td s));
  RevertToSnapshot s i := Some (MkVmBlock (t_saved s) (t_index s) (t_saved s));
  SetBalance s a x := on_td (λ t, MkMapVM (<[a := x]> (vm_balances t)) (vm_nonces t) (vm_codes t) (vm_refund t) (vm_warm t)) s
|}.

(** A call moves its value. *)
#[local] Instance vm_block_machine : Machine vm_block := {|
  vm_error := ();
  mc_Create ctx msg from code gas value s := ([], gas, None, s);
  mc_Call ctx msg from dst input gas value s := ([], gas, None, AddBalance (SubBalance s from value) dst value);
  mc_Precompiles rules := []
|}.

Definition vm_same (s t : vm_block) : Prop := td s = td t ∧ t_index s = t_index t.
Definition vm_world (s t : vm_block) : Prop := td s = td t.

(** Both relations look at the accounts, and every operation acts on those. *)
Lemma vm_respects (R : relation vm_block) :
  Equivalence R → (∀ s t, R s t → td s = td t) → (∀ f s t, R s t → R (on_td f s) (on_td f t)) →
  (∀ s t h i, R s t → R (SetTxContext s h i) (SetTxContext t h i)) →
  (∀ s t u, R s t → R (MkVmBlock u (t_index s) (t_saved s)) (MkVmBlock u (t_index t) (t_saved t))) → BlockRespects vm_block R.
Proof.
  intros He Ht Hf Hc Hu. split.
  - split; try done; try (intros s t * Hs; cbn; by rewrite (Ht s t Hs)); try (intros; by apply Hf).
    intros s t rules a c d p l Hs. change (Prepare s rules a c d p l) with ((λ t, MkVmBlock t (t_index s) (t_saved s)) <$> Prepare (td s) rules a c d p l).
    change (Prepare t rules a c d p l) with ((λ u, MkVmBlock u (t_index t) (t_saved t)) <$> Prepare (td t) rules a c d p l).
    rewrite (Ht s t Hs). destruct (Prepare (td t) rules a c d p l) as [u|]; constructor. by apply Hu.
  - by intros ctx msg from code gas value s t Hs.
  - intros ctx msg from dst input gas value s t Hs. split; [done|]. by apply Hf, Hf.
  - done.
  - intros s t b Hs. cbn. by rewrite (Ht s t Hs).
  - exact Hc.
Qed.

#[local] Instance vm_block_block : BlockLaws vm_block vm_same vm_world.
Proof.
  split; try done.
  - apply vm_respects; [split; [done|by intros s t []|by intros s t u [] []; split; etransitivity]|by intros s t []|by intros f s t [Hs Hi]; split; [cbn; f_equal|]|by intros s t h i []|by intros s t u []].
  - apply vm_respects; [split; [done|by intros s t|by intros s t u ? ?; unfold vm_world; etransitivity]|by intros s t|by intros f s t Hs; unfold vm_world; cbn; f_equal|by intros s t h i|by intros s t u].
  - by intros s t [].
  - by intros s t [].
  - intros s. by eexists.
  - intros s a x. by eexists.
Qed.

#[local] Existing Instance toy_keccak.
#[local] Instance ex_hashes : BlockHashes := {| hash_Header h := Header.GasUsed h + 1; hash_Headers _ := 9; tx_EncodeIndex tx := [tx_hash tx]; Sha256 b := b |}.
#[local] Instance ex_recovery : Recovery := {| rec_Hash _ _ := 0; rec_Ecrecover _ _ := None |}.
#[local] Instance ex_addresses : Addresses := {| DepositContractAddress := 99; DAODrainList := [] |}.
#[local] Instance ex_headers : HeaderReader := λ _ _, None.
#[local] Instance ex_ethone : Engine vm_block | 100 := {|
  Author _ := None; VerifyHeader _ := None; VerifyUncles _ := None; EnginePrepare _ := None;
  EngineFinalize _ _ _ := None; FinalizeAndAssemble _ _ _ _ := None
|}.

(** The sender is the first byte of the data. *)
#[local] Instance ex_sending : Sending := λ _ tx, match Tx.Data tx with a :: _ => Ok a | [] => Err ErrInvalidSig end.

#[local] Instance ex_sender_laws : SenderLaws.
Proof. intros signer tx. unfold types_Sender, ex_sending, Tx.Data, Tx.WithoutBlobTxSidecar. by destruct (inner tx) eqn:E; cbn; rewrite ?E. Qed.

(** A payment, one that its sender cannot make, and one with a blob. *)
Definition ex_payment (from value : Z) : Transaction := MkTx (TLegacy (LegacyTx.mk 0 2000 30000 (Some 7) value [from] 37 0 0)) from 0 0.
Definition ex_blob : Transaction :=
  MkTx (TBlob (BlobTx.mk 1 0 10 2000 30000 7 5 [8] [] 10 [2 ^ 248] (Some (MkSidecar [[1]] [[2]] [[3]])) 0 0 0)) 8 0 0.

Definition ex_lazy_of (tx : Transaction) (carried : bool) (blobGas : Z) : LazyTransaction :=
  MkLazy (tx_hash tx) (if carried then Some tx else None) 0 (Tx.GasFeeCap tx) (Tx.GasTipCap tx) (Tx.Gas tx) blobGas.

Definition ex_Pending (f : PendingFilter) : gmap Address (list LazyTransaction) :=
  if OnlyPlainTxs f then {[ 5 := [ex_lazy_of (ex_payment 5 100) true 0]; 6 := [ex_lazy_of (ex_payment 6 1) false 0] ]}
  else {[ 8 := [ex_lazy_of ex_blob true 131072] ]}.

Definition ex_Get (round : bool) (n : nat) (h : Hash) : option Transaction := if h =? 6 then Some (ex_payment 6 1) else None.

Definition ex_parent : Header := header_at 20000000 30000000 15000000 1720000000 (Some 1000) (Some 0) (Some 0).
Definition ex_start : vm_block := MkVmBlock (MkMapVM {[ 5 := 1000000000; 8 := 1000000000 ]} ∅ ∅ 0 ∅) 0 (MkMapVM ∅ ∅ ∅ 0 ∅).
Definition ex_miner : MinerConfig := MkMinerConfig [1; 2] 36000000 1.
Definition ex_chain : MinerChain vm_block := MkMinerChain _ ex_parent (λ _, None) (λ root, if root =? 4 then Some ex_start else None).
Definition ex_params : generateParams := MkParams 1720000012 true 0 77 3 (Some [MkWithdrawal 1 2 7 3]) (Some 11) false.

#[local] Instance ex_engine : Engine vm_block := beacon Config.mainnet_like ex_ethone.

Lemma ex_gas_ok ctx msg : evm_gas_ok (St := vm_block) (mc_Create ctx msg) (mc_Call ctx msg).
Proof. split; cbn; ulia. Qed.

Lemma ex_payment_sound from value : 0 <= value → sound_tx (ex_payment from value).
Proof. intros Hv. split; [|done]. split; cbn; try done; ulia. Qed.

Lemma ex_blob_sound : sound_tx ex_blob.
Proof.
  split; [split; cbn; try done; try ulia; by intros cap [= <-]|].
  intros _. by exists (MkSidecar [[1]] [[2]] [[3]]).
Qed.

Lemma ex_pool_sound : pool_sound ex_Pending ex_Get.
Proof.
  assert (Hp : ∀ f a l, ex_Pending f !! a = Some l → ∃ ltx, l = [ltx] ∧ ∀ tx, lazy_Tx ltx = Some tx → sound_tx tx).
  { intros f a l. unfold ex_Pending. destruct (OnlyPlainTxs f).
    - rewrite lookup_insert_Some, lookup_singleton_Some. intros [[_ <-]|[_ [_ <-]]]; eexists; (split; [done|]); cbn; [|done]. intros tx [= <-]. by apply ex_payment_sound.
    - rewrite lookup_singleton_Some. intros [_ <-]. eexists. split; [done|]. cbn. intros tx [= <-]. apply ex_blob_sound. }
  split.
  - intros f a l Hl. by destruct (Hp f a l Hl) as (ltx & -> & _).
  - intros f a l ltx tx Hl Hin. destruct (Hp f a l Hl) as (ltx' & -> & Hs). apply list_elem_of_singleton in Hin as ->. apply Hs.
  - intros round n h tx. unfold ex_Get. destruct (h =? 6); [|done]. intros [= <-]. by apply ex_payment_sound.
Qed.

Lemma ex_work_ok : work_ok Config.mainnet_like ex_miner ex_params ex_parent 1720000012 20000001.
Proof.
  assert (Hfee : CalcBaseFee Config.mainnet_like ex_parent = Some 1000) by (vm_compute; reflexivity).
  assert (Hmax : MaxBlobsPerBlock Config.mainnet_like 1720000012 = 6) by (vm_compute; reflexivity).
  assert (Hlimit : parent_limit Config.mainnet_like ex_parent = 30000000) by (vm_compute; reflexivity).
  split.
  - split; [done|]. ulia.
  - cbn. ulia.
  - rewrite Hlimit. unfold MinGasLimit. lia.
  - cbn. lia.
  - done.
  - intros _. by eexists.
  - left. vm_compute. reflexivity.
  - vm_compute. reflexivity.
  - vm_compute. reflexivity.
  - vm_compute. reflexivity.
  - vm_compute. reflexivity.
  - by right.
  - intros f. rewrite Hfee. intros [= <-]. ulia.
  - vm_compute. reflexivity.
  - unfold wf_fractions. cbn. rewrite !Forall_cons. split_and!; [intros b [= <-]; cbn; ulia|by intros b|by intros b|apply Forall_nil_2].
  - rewrite Hmax. unfold BlobTxBlobGasPerBlob. ulia.
  - intros Hc. by vm_compute in Hc.
  - intros Hc. by vm_compute in Hc.
  - intros ctx msg. apply ex_gas_ok.
Qed.

Definition ex_work := generateWork Config.mainnet_like ex_miner ex_chain [6] ex_Pending ex_Get (λ _ _, 0) ex_params.

Lemma generated_block_valid_witness :
  ∃ payload st0 res st, ex_work = Some (Ok payload) ∧
    map tx_hash (blk_transactions (pl_block payload)) = [5; 8] ∧ Header.BlobGasUsed (blk_header (pl_block payload)) = Some 131072 ∧
    verifyHeader Config.mainnet_like (blk_header (pl_block payload)) ex_parent = Some (Ok tt) ∧
    check_body (pl_block payload) = Some (Ok tt) ∧
    Process Config.mainnet_like (pl_block payload) st0 = Some (Ok res, st) ∧
    ValidateState Config.mainnet_like (pl_block payload) st (Some res) false = Some (Ok tt).
Proof.
  assert (Hrun : match ex_work with
    | Some (Ok p) => bool_decide (map tx_hash (blk_transactions (pl_block p)) = [5; 8]) && bool_decide (Header.BlobGasUsed (blk_header (pl_block p)) = Some 131072)
    | _ => false
    end = true) by (vm_compute; reflexivity).
  destruct ex_work as [[payload|e]|] eqn:Hwork; [|discriminate Hrun|discriminate Hrun].
  apply andb_prop in Hrun as [Htxs%bool_decide_eq_true Hblob%bool_decide_eq_true].
  destruct (generated_block_valid Config.mainnet_like vm_same vm_world ex_ethone ex_miner ex_chain ex_params ex_parent 1720000012 20000001 ex_work_ok
    [6] ex_Pending ex_Get (λ _ _, 0) payload Hwork) as (Hv & Hb & st0 & res & st & _ & Hp & Hs & _).
  - vm_compute. reflexivity.
  - intros _ _. lia.
  - apply ex_pool_sound.
  - exists payload, st0, res, st. split_and!; [reflexivity|exact Htxs|exact Hblob|exact Hv|exact Hb|exact Hp|exact Hs].
Defined.

Definition ex_hdr : Header :=
  Header.MkHeader 15000001 0 77 0 0 0 zero_bloom (Some 0) (Some 20000001) 30029295 0 1720000012 [1; 2] 3 0 (Some 1000) None (Some 0) (Some 0) (Some 11) None.
Definition ex_ctx : BlockContext := MkContext (λ _, 0) 77 20000001 1720000012 0 (Some 1000) (Some 1) 30029295 (Some 3).

Lemma ex_block_ok : block_ok Config.mainnet_like ex_ctx ex_hdr 20000001.
Proof.
  split; try done.
  - by exists 1000.
  - by intros fee [= <-].
  - intros msg. apply ex_gas_ok.
Qed.

Lemma fillTransactions_replays_witness :
  ∃ r env gp p, fillTransactions Config.mainnet_like 1 [6] ex_Pending ex_Get (λ _, Some (λ _, 0)) (empty_environment ex_ctx ex_hdr ex_start) = Some (r, env) ∧
    map tx_hash (env_txs env) = [5; 8] ∧
    process_txs Config.mainnet_like ex_ctx ex_hdr 20000001 17 0 (env_txs env) 30029295 ex_start 0 [] =
      Some (Ok (map (at_block 17) (env_receipts env), gp, Header.GasUsed (env_header env)), p) ∧
    gp + Header.GasUsed (env_header env) = 30029295.
Proof.
  destruct (fillTransactions_replays Config.mainnet_like vm_same vm_world ex_ctx ex_hdr 20000001 ex_block_ok ex_start 1 [6] ex_Pending ex_Get (λ _, Some (λ _, 0)))
    as (r & env & Hfill & Hrep & _); [done|done| |apply ex_pool_sound|by intros round f n [= <-]|].
  - split; [ulia|]. split; [by intros f [= <-]|]. intros _. exists 1. split; [vm_compute; reflexivity|ulia].
  - destruct (Hrep 17) as (gp & p & Hp & _ & Hsum). exists r, env, gp, p. split_and!; [exact Hfill| |exact Hp|exact Hsum].
    assert (Hrun : match fillTransactions Config.mainnet_like 1 [6] ex_Pending ex_Get (λ _, Some (λ _, 0)) (empty_environment ex_ctx ex_hdr ex_start) with
      | Some (_, env) => map tx_hash (env_txs env) | None => [] end = [5; 8]) by (vm_compute; reflexivity).
    by rewrite Hfill in Hrun.
Defined.
End Example.
